(* ===== verification/_CoqProject ===== *)
-Q . S2P
Prelude.v
Effects.v
PyText.v
TextSearch.v
Posix.v
Encodings.v
Regex.v
Domain.v
SemVer.v
Json.v
JsonParse.v
IndentedJson.v
Protocol.v
CompilerModel.v
Compiler.v
Graph.v
GraphSpec.v
Selection.v
Security.v
SecurityPolicy.v
Redaction.v
Coordinates.v
Marketplace.v
StoreModel.v
Configuration.v
InstallState.v
InstallSchema.v
InstallSpec.v
Store.v
ConfigSchema.v
ConfigPolicy.v
Installation.v
InstallPlan.v
FileSystem.v
FileSpec.v
Transaction.v
TransactionSpec.v
LifecycleModel.v
Ports.v
Merge.v
MergeSpec.v
Profiles.v
NativeSchema.v
NativeTree.v
NativeTreeSpec.v
PyJson.v
SetupModel.v
SetupRecipe.v
SetupRecipeSpec.v
SetupPlan.v
SetupPlanSpec.v
SetupBlock.v
SetupRuntime.v
SetupTransaction.v
SetupCompensation.v
SetupUndo.v
SetupState.v
ManagedBlock.v
Planning.v
Install.v
SetupEngine.v
RegistryIndex.v
RegistryGraphSpec.v
RegistrySchema.v
RegistryRoundtrip.v
RegistryTree.v
RegistrySpec.v
Sources.v
SourceSync.v
SourceSpec.v
Trust.v
Lifecycle.v
InstallFlow.v
SetupEngineSpec.v
PrepareSpec.v
LifecycleSpec.v
UpdateSpec.v
Resolution.v
