(* ===== verification/Prelude.v ===== *)
(** * Agent Artifacts (AART): a verified model of its core

    AART distributes agent artifacts (skills, guidelines, MCP servers, hooks,
    memories) from Git registries and local sources into a project or a user's
    home.  Its Python package [src/agent_artifacts] is a functional core in an
    imperative shell: documents are parsed into frozen values, compiled into a
    marketplace graph, overlaid with local trust and health, resolved into a
    dependency closure, assessed for installation risk, installed under a
    reviewed plan, kept up to date, and set up on the machine.  This development
    models that core, module by module, and proves what each module promises
    the next.

    ** How the parts interact

    - [application/sources.py] acquires a source under a lease and publishes
      its validated snapshot; [protocol/native_tree.py] and
      [protocol/registry_tree.py] compile the tree of a source into packages
      and records, reading its documents with [native_schema.py] and
      [registry_schema.py].
    - [compiler/] and [application/compiler.py] take the records of every
      source through nine phases and publish a snapshot through ports; the
      phase that builds the graph is [compiler/graph.py].  Objects are kept in
      the store ([store/], [application/store.py]).
    - [marketplace/] joins the graph with the user's configuration and the
      company policy ([configuration/]) into a catalog with trust and health;
      [consumer/] binds what a user asks for to catalog items and their
      dependencies; [security/] judges what a bundle would install.
    - [installation/] plans an installation under a harness profile
      ([profiles/]) by reading only, binds the plan to a review digest, checks
      again that nothing changed, and applies it as a transaction over the file
      system, recording it in the state of [install_state/]; [lifecycle/]
      reports, updates and removes what is recorded.
    - [setup.py] and [setup_runtime.py] read the recipe of an installed
      package, plan its effects, apply them one consent at a time and
      compensate them; [setup_undo.py] reviews an undo.
    - [protocol/] and [domain/] are the vocabulary of all of these: strict
      JSON, paths, digests, versions, capabilities, diagnostics and results.

    ** Files

    Python and its library:
    - [Prelude]: the evaluation of Python expressions ([py]: a value or an
      exception), total orders on sort keys, the stable [sorted],
      insertion-ordered dictionaries, sets with an unspecified iteration order
      ([SetOrder]), [max]/[min] with a key, shared lemmas, tactics and hints.
    - [Effects]: computations over a state that return or raise ([st]), their
      rules, and ports as functions of the trace of earlier calls.
    - [PyText], [TextSearch], [Regex]: text over UTF-8 bytes, searching it, and
      [re.fullmatch] by derivatives; what depends on the Unicode database is
      the class [UnicodeData].  [Posix]: [posixpath].  [Encodings]:
      base64 and SHA-256.
    - [PyJson]: the [json] module with its defaults; floats and the texts of
      its errors are the class [PyNumbers].  [IndentedJson]: [json.dumps] with
      an indentation.

    Vocabulary:
    - [Domain] ([domain/*.py]); [SemVer] ([protocol/semver.py]); [Json] and
      [JsonParse] ([protocol/json.py], with the scanner of [json.loads]; the
      texts of decoding errors are the class [DecodeErrors]); [Protocol]
      ([paths.py], [hashing.py], [capabilities.py], [schema.py], [codes.py] and
      the records of [native_models.py] and [registry_models.py]).
    - [NativeSchema], [NativeTree], [NativeTreeSpec]: the documents and the
      tree of a native source.  What the loader asks of the setup engine is the
      class [SetupProtocol], which [SetupRecipe] implements.
    - [RegistrySchema], [RegistryIndex], [RegistryTree] with
      [RegistryGraphSpec], [RegistryRoundtrip], [RegistrySpec]: registries.

    Compiling and selecting:
    - [CompilerModel], [Compiler]; [Graph], [GraphSpec], [Selection];
      [StoreModel], [Store]; [Sources], [SourceSync],
      [SourceSpec].
    - [Configuration], [ConfigSchema], [ConfigPolicy];
      [Trust] and [Marketplace] (the catalog); [Coordinates],
      [Resolution]; [Security], [SecurityPolicy];
      [Redaction].

    Installing:
    - [Installation], [InstallPlan]: the values and the reviewed plan;
      [InstallState], [InstallSchema], [InstallSpec]: the manifest;
      [FileSystem], [FileSpec]: the writing primitives over nodes by path, with
      failing system calls; [Transaction], [TransactionSpec]: applying a plan.
    - [Profiles], [Merge], [MergeSpec], [ManagedBlock]: what
      is written where; [Ports], [Planning], [Install], [InstallFlow],
      [PrepareSpec]: preparing and finalizing;
      [LifecycleModel], [Lifecycle], [LifecycleSpec], [UpdateSpec]: what
      follows an installation.

    Setting up:
    - [SetupModel] (values of [model.py]), [SetupRecipe] and [SetupRecipeSpec]
      (the parser of [setup.py]), [SetupPlan] and [SetupPlanSpec] (the planner,
      commands and the receipt check), [SetupBlock]
      (managed blocks, with the template expansion of [re.sub]).
    - [SetupRuntime] (every module of [setup_runtime.py] as operations asked of
      the machine), [SetupTransaction] (compensation, records and the
      transaction), [SetupCompensation]; [SetupUndo]
      ([setup_undo.py]).
    - [SetupState]: the file of setup records.
    - [SetupEngine], [SetupEngineSpec] ([setup_engine/]): a
      setup prepared from an installed object, finalized under its review,
      queued, retried and rolled back.  The state of a run holds the calls of
      the ports, each with the machine it was made in, and the machine.

    A file ending in [Spec] holds theorems, the file before it the definitions;
    a file without one holds both.
    Names are the source's, without a leading underscore.  A dataclass is a
    record; a [__post_init__] is a function in [py] that raises as it does, and
    tests only what a type does not already say ([isinstance] tests are
    dropped).  [Ok]/[Err] is the type [Result]; a loop is a [Fixpoint] over the
    list it walks, with the variables it updates as arguments.  A port, and the
    machine of the setup engine, may answer anything, depending on all earlier
    calls: theorems about effects hold for every such environment, and speak of
    the trace of calls.

    ** The theorems

    - Installing: preparing only reads and binds the plan to what was read;
      finalizing applies exactly the reviewed plan, and only when everything was
      read back as reviewed; applying refines an atomic installation, up to the
      paths an undo could not restore, which the outcome tells except when no
      operation is to blame; an update leaves no recorded effect behind, an
      uninstall touches only what the record owns; an unchanged world applies a
      prepared plan.  Blocks and merged entries are found again and taken out,
      up to the blank lines and the emptied objects the statements spell out;
      a manifest of trimmed texts within the bounds of the parser is read back
      as written, and what is read satisfies every constructor.
    - Setup: an accepted recipe stays within what it declares; planning it
      returns a plan or raises only for a reference written with blanks; a run
      changes nothing before consent, applies a prefix of the reviewed effects
      and compensates all of it at a failure, and it is said which failures
      escape instead; a compensated block gives the file back, up to a separator
      line; the review of an undo predicts it for a receipt as the run writes
      it.  The engine touches
      nothing unless the review and all it was planned against are confirmed in
      the same run, records what it ran or compensates it, and runs a queue one
      item after the other.
    - Sources, registries and the compiler: only what was acquired and
      validated in the same run is published, under the lease; indexes are
      accepted exactly when consistent, and read back when their text is within
      the bounds of the parser; locks resolve only as
      committed; a graph compilation always returns and accepts exactly the
      valid inputs; collections hold exactly what is reachable; publication is
      the last effect; consumer runs are frozen; a garbage collection deletes
      nothing that is referred to.
    - Catalog and selection: the marketplace is built, refused or raises exactly
      as its parts agree, and trusts an artifact only as policy and review allow;
      the effective configuration is the merge that satisfies
      the policy; selection, resolution and the dependency closure are exact.
    - Security and redaction: the policy takes the strictest action that fires;
      risk is never understated; nothing shaped like a credential remains.
    - Protocol: JSON, versions and paths round-trip within bounds; the hashed
      bytes of a tree determine the tree; version precedence is a total order.

    ** Bounds and fuel

    - The scanner of JSON runs with fuel twice the length of the text plus one:
      every call consumes a character or enters a level ([loads_total],
      [py_loads_total]).
    - The walks of collections ([expand_collection_members],
      [collection_members]) and of the requirements of a registry
      ([visit_dependency]) run with one more than the number of nodes: the nodes
      being visited are distinct ([expand_fuel] and the lemmas beside each walk).
    - The dependency closure and the walk over the requirements of a native
      source ([NativeTree.visit]) take the number of nested calls left before
      the interpreter's recursion limit and raise [RecursionError] beyond it;
      more than the number of items is enough, since each nested call has
      included a new one.
    - Looking for an existing parent takes one step per component of the path
      ([safe_parent_terminates]); replacing text and expanding a template take
      one step per character.
    - Protocol integers are within 64 bits, tree sizes are written on 8 bytes
      and raise [OverflowError] beyond; other integers are unbounded as in
      Python.

    ** Not modelled

    - The shell behind the ports: Git and local acquisition, locks, the object
      store's files, subprocesses and terminals, [io/].  The setup engine asks
      the machine to copy a build context and to digest it, as operations.
    - Of the setup engine: the texts shown to an operator, the adapters of
      [setup_engine/io.py], [setup_verify] and [setup_receipt].
    - The profile loader, [resolve_installed_selectors], the workflows of
      [consumer/] that only sequence modelled operations, the drift policy of
      the legacy commands.
    - Curation, registry maintenance, reporting, the command line and the
      terminal interface, and the analyzers and attestations of [security/]:
      they scan files with many patterns, call other programs or render text.

    Texts are valid UTF-8, without lone surrogates except where the code tests
    for them.  [KeyboardInterrupt] is an ended input.  Memory limits and, outside
    the two walks named above, the recursion limit are ignored.  A file's
    permissions are its executable bit. *)
From stdpp Require Export base tactics list strings pretty sets.
From stdpp Require Export sorting relations.
From Stdlib Require Export ZArith Lia.

(** * Python evaluation: a value or a raised exception *)

(** The exceptions the modelled code raises itself.  A [ValueError] is what
    every [__post_init__] validator raises; a [KeyError] is what [d[k]]
    raises on a missing key. *)
Inductive exn : Type :=
  | ValueError (message : string)
  | KeyError (key : string)
  | TypeError (message : string)
  | OverflowError (message : string)
  | AssertionError
  | RecursionError
  | OSError (message : string)
  | RuntimeError (message : string)
  | StopIteration
  | EOFError
  | UnicodeDecodeError (message : string)
  | JSONDecodeError (message : string)
  | RegexError (message : string)
  | SubprocessError (message : string)
  (** [setup.py]'s [_Invalid] *)
  | Invalid (message : string).

(** The outcome of evaluating a Python expression. *)
Inductive py (A : Type) : Type :=
  | Ret (a : A)
  | Raise (e : exn).
Global Arguments Ret {_} _.
Global Arguments Raise {_} _.

#[export] Instance py_ret : MRet py := λ A a, Ret a.
#[export] Instance py_bind : MBind py := λ A B f m,
  match m with Ret a => f a | Raise e => Raise e end.
#[export] Instance py_fmap : FMap py := λ A B f m,
  match m with Ret a => Ret (f a) | Raise e => Raise e end.

(** [if invalid: raise ValueError(msg)] *)
Definition raise_if (invalid : bool) (message : string) : py unit :=
  if invalid then Raise (ValueError message) else Ret tt.

Definition ret_or {A} (a : A) (m : py A) : A := match m with Ret a => a | Raise _ => a end.
Definition returns {A} (m : py A) : bool :=
  match m with Ret _ => true | Raise _ => false end.

(** * Total orders: Python's [<=] on the key types the code sorts by *)

Class TotalOrd (A : Type) := {
  ple : A → A → bool;
  ple_total x y : ple x y = true ∨ ple y x = true;
  ple_trans x y z : ple x y = true → ple y z = true → ple x z = true;
  ple_antisym x y : ple x y = true → ple y x = true → x = y
}.
Global Hint Mode TotalOrd ! : typeclass_instances.

(** Python's strict [<]. *)
Definition plt `{TotalOrd A} (x y : A) : bool := negb (ple y x).

(** [str] comparison is by code point, which on UTF-8 bytes is bytewise. *)
#[export] Program Instance string_ord : TotalOrd string := {| ple := String.leb |}.
Next Obligation. intros x y. apply String.leb_total. Qed.
Next Obligation.
  intros x y z H1 H2. apply Is_true_true.
  apply (transitivity (R:=String.le) (y:=y)); by apply Is_true_true.
Qed.
Next Obligation. intros x y. apply String.leb_antisym. Qed.

#[export] Program Instance Z_ord : TotalOrd Z := {| ple := Z.leb |}.
Next Obligation. intros x y. rewrite !Z.leb_le. lia. Qed.
Next Obligation. intros x y z. rewrite !Z.leb_le. lia. Qed.
Next Obligation. intros x y. rewrite !Z.leb_le. lia. Qed.

#[export] Program Instance unit_ord : TotalOrd unit := {| ple _ _ := true |}.
Next Obligation. by left. Qed.
Next Obligation. done. Qed.
Next Obligation. by intros [] []. Qed.

(** Tuples compare lexicographically. *)
#[export] Program Instance prod_ord `{TotalOrd A, TotalOrd B} : TotalOrd (A * B) :=
  {| ple x y := if ple x.1 y.1
                then (if ple y.1 x.1 then ple x.2 y.2 else true) else false |}.
Next Obligation.
  intros A ? B ? [a b] [c d]; simpl.
  destruct (ple_total a c) as [H1|H1], (ple_total b d) as [H2|H2];
    rewrite ?H1, ?H2;
    destruct (ple a c) eqn:?, (ple c a) eqn:?; simpl in *; auto; congruence.
Qed.
Next Obligation.
  intros A ? B ? [a b] [c d] [e f]; simpl. intros H1 H2.
  destruct (ple a c) eqn:Hac; [|done]. destruct (ple c e) eqn:Hce; [|done].
  rewrite (ple_trans _ _ _ Hac Hce).
  destruct (ple e a) eqn:Hea; [|done].
  rewrite (ple_trans _ _ _ Hce Hea) in H1. rewrite (ple_trans _ _ _ Hea Hac) in H2.
  eapply ple_trans; eauto.
Qed.
Next Obligation.
  intros A ? B ? [a b] [c d]; simpl. intros H1 H2.
  destruct (ple a c) eqn:Hac; [|done]. destruct (ple c a) eqn:Hca; [|done].
  f_equal; eauto using ple_antisym.
Qed.

Fixpoint list_ple `{TotalOrd A} (l k : list A) : bool :=
  match l, k with
  | [], _ => true
  | _ :: _, [] => false
  | x :: l, y :: k => if ple x y then (if ple y x then list_ple l k else true) else false
  end.

#[export] Program Instance list_ord `{TotalOrd A} : TotalOrd (list A) :=
  {| ple := list_ple |}.
Next Obligation.
  intros A ?. induction x as [|x l IH]; intros [|y k]; simpl; auto.
  destruct (ple_total x y) as [H1|H1], (IH k) as [H2|H2]; rewrite ?H1, ?H2;
    destruct (ple x y) eqn:?, (ple y x) eqn:?; simpl in *; auto; congruence.
Qed.
Next Obligation.
  intros A ?. induction x as [|x l IH]; intros [|y k] [|z m]; simpl; try done.
  intros H1 H2.
  destruct (ple x y) eqn:Hac; [|done]. destruct (ple y z) eqn:Hce; [|done].
  rewrite (ple_trans _ _ _ Hac Hce).
  destruct (ple z x) eqn:Hea; [|done].
  rewrite (ple_trans _ _ _ Hce Hea) in H1. rewrite (ple_trans _ _ _ Hea Hac) in H2. eauto.
Qed.
Next Obligation.
  intros A ?. induction x as [|x l IH]; intros [|y k]; simpl; try done.
  intros H1 H2.
  destruct (ple x y) eqn:Hac; [|done]. destruct (ple y x) eqn:Hca; [|done].
  f_equal; eauto using ple_antisym.
Qed.

Lemma ple_refl `{TotalOrd A} (x : A) : ple x x = true.
Proof. destruct (ple_total x x); done. Qed.

#[global] Arguments ple : simpl never.

Lemma ple_prod `{TotalOrd A, TotalOrd B} (a c : A) (b d : B) :
  ple (a, b) (c, d) = if ple a c then (if ple c a then ple b d else true) else false.
Proof. done. Qed.

Lemma ple_list `{TotalOrd A} (l k : list A) : ple l k = list_ple l k.
Proof. done. Qed.

Section plt.
Context `{TotalOrd A}.

Lemma plt_irrefl (x : A) : plt x x = false.
Proof. unfold plt. by rewrite ple_refl. Qed.

Lemma plt_trans (x y z : A) : plt x y = true → plt y z = true → plt x z = true.
Proof.
  unfold plt. rewrite !negb_true_iff. intros H1 H2.
  destruct (ple z x) eqn:E; [|done].
  destruct (ple_total y z) as [Hyz|Hyz]; [|congruence].
  by rewrite (ple_trans y z x) in H1.
Qed.

Lemma plt_total (x y : A) : plt x y = true ∨ x = y ∨ plt y x = true.
Proof.
  unfold plt. rewrite !negb_true_iff.
  destruct (ple x y) eqn:E1, (ple y x) eqn:E2; auto.
  right; left. by apply ple_antisym.
Qed.

Lemma plt_asym (x y : A) : plt x y = true → plt y x = false.
Proof.
  intros Hxy. destruct (plt y x) eqn:E; [|done].
  pose proof (plt_trans _ _ _ Hxy E) as Hc. by rewrite plt_irrefl in Hc.
Qed.
End plt.

Lemma plt_prod `{TotalOrd A, TotalOrd B} (a c : A) (b d : B) :
  plt (a, b) (c, d) = if ple c a then (if ple a c then plt b d else false) else true.
Proof. unfold plt. rewrite ple_prod. by destruct (ple c a), (ple a c). Qed.

(** * [sorted]: a stable sort by a key *)

Section sorted.
Context {A K : Type} `{TotalOrd K} (key : A → K).

Definition key_le (x y : A) : Prop := ple (key x) (key y) = true.

Fixpoint insert_by (x : A) (l : list A) : list A :=
  match l with
  | [] => [x]
  | y :: l' => if ple (key x) (key y) then x :: y :: l' else y :: insert_by x l'
  end.

(** [sorted(values, key=key)] *)
Definition sorted (l : list A) : list A := foldr insert_by [] l.

Lemma insert_by_perm x l : insert_by x l ≡ₚ x :: l.
Proof.
  induction l as [|y l IH]; simpl; [done|].
  case_match; [done|]. rewrite IH. by rewrite Permutation_swap.
Qed.

Lemma sorted_perm l : sorted l ≡ₚ l.
Proof. induction l as [|x l IH]; simpl; [done|]. by rewrite insert_by_perm, IH. Qed.

Lemma insert_by_sorted x l :
  StronglySorted key_le l → StronglySorted key_le (insert_by x l).
Proof.
  induction 1 as [|y l Hl IH Hy]; simpl; [repeat constructor|].
  destruct (ple (key x) (key y)) eqn:E.
  - constructor; [by constructor|]. constructor; [done|].
    eapply Forall_impl; [exact Hy|]. intros z Hz. by eapply ple_trans.
  - constructor; [done|]. apply Forall_forall. intros z.
    rewrite insert_by_perm, elem_of_cons. intros [->|Hz].
    + destruct (ple_total (key x) (key y)); [congruence|done].
    + by eapply (proj1 (Forall_forall _ _) Hy).
Qed.

Lemma sorted_sorted l : StronglySorted key_le (sorted l).
Proof. induction l; simpl; [constructor|]. by apply insert_by_sorted. Qed.

Lemma sorted_id l : StronglySorted key_le l → sorted l = l.
Proof.
  induction 1 as [|x l Hl IH Hx]; simpl; [done|]. rewrite IH.
  destruct l as [|y l]; simpl; [done|].
  apply Forall_cons in Hx as [Hx _]. by rewrite Hx.
Qed.

Lemma sorted_idemp l : sorted (sorted l) = sorted l.
Proof. apply sorted_id, sorted_sorted. Qed.

Lemma elem_of_sorted x l : x ∈ sorted l ↔ x ∈ l.
Proof. by rewrite sorted_perm. Qed.

Lemma NoDup_sorted l : NoDup (sorted l) ↔ NoDup l.
Proof. by rewrite sorted_perm. Qed.

Lemma length_sorted l : length (sorted l) = length l.
Proof. by rewrite sorted_perm. Qed.

Lemma sorted_nil_iff l : sorted l = [] ↔ l = [].
Proof. rewrite <-!length_zero_iff_nil. by rewrite length_sorted. Qed.

(** Two sorted arrangements of the same elements agree as soon as the key
    separates the elements. *)
Lemma strongly_sorted_key_unique l k :
  (∀ x y, x ∈ l → y ∈ l → key x = key y → x = y) →
  StronglySorted key_le l → StronglySorted key_le k → l ≡ₚ k → l = k.
Proof.
  intros Hinj Hl. revert k Hinj.
  induction Hl as [|x l Hl IH Hx]; intros k Hinj Hk Hp.
  { symmetry. by apply Permutation_nil. }
  destruct Hk as [|y k Hk Hy]; [by apply Permutation_nil_r in Hp|].
  assert (x = y) as ->.
  { assert (x ∈ y :: k) as Hxk by (rewrite <-Hp; left).
    assert (y ∈ x :: l) as Hyl by (rewrite Hp; left).
    apply elem_of_cons in Hxk as [->|Hxk]; [done|].
    apply elem_of_cons in Hyl as [->|Hyl]; [done|].
    apply Hinj; [left|by right|].
    apply ple_antisym.
    - by eapply (proj1 (Forall_forall _ _) Hx).
    - by eapply (proj1 (Forall_forall _ _) Hy). }
  f_equal. apply IH; [|done|by eapply Permutation_cons_inv].
  intros a b Ha Hb. apply Hinj; by right.
Qed.

Lemma sorted_unique l k :
  (∀ x y, x ∈ l → y ∈ l → key x = key y → x = y) → l ≡ₚ k → sorted l = sorted k.
Proof.
  intros Hinj Hp. apply strongly_sorted_key_unique; [|apply sorted_sorted..|].
  - intros x y. rewrite !elem_of_sorted. apply Hinj.
  - by rewrite !sorted_perm.
Qed.
End sorted.

Lemma sorted_fmap {A B K} `{TotalOrd K} (f : A → B) (key : B → K) (l : list A) :
  sorted key (map f l) = map f (sorted (λ x, key (f x)) l).
Proof.
  induction l as [|x l IH]; simpl; [done|]. rewrite IH.
  generalize (sorted (λ x, key (f x)) l). intros k. induction k as [|y k IHk]; simpl; [done|].
  case_match; simpl; [done|]. by rewrite IHk.
Qed.

(** [sorted(set(values), key=key)]: the duplicates go, then the sort. *)
Definition sorted_set {A K} `{TotalOrd K, EqDecision A} (key : A → K) (l : list A) : list A :=
  sorted key (remove_dups l).

Section sorted_set.
Context {A K : Type} `{TotalOrd K} `{EqDecision A} (key : A → K).

Lemma elem_of_sorted_set x l : x ∈ sorted_set key l ↔ x ∈ l.
Proof. unfold sorted_set. by rewrite elem_of_sorted, elem_of_remove_dups. Qed.

Lemma NoDup_sorted_set l : NoDup (sorted_set key l).
Proof. unfold sorted_set. rewrite NoDup_sorted. apply NoDup_remove_dups. Qed.

Lemma sorted_set_sorted l : StronglySorted (key_le key) (sorted_set key l).
Proof. apply sorted_sorted. Qed.

Lemma sorted_set_nil_iff l : sorted_set key l = [] ↔ l = [].
Proof.
  split; intros E; [|by subst].
  destruct l as [|x l]; [done|].
  assert (x ∈ sorted_set key (x :: l)) as Hx by (apply elem_of_sorted_set; left).
  rewrite E in Hx. by apply elem_of_nil in Hx.
Qed.

Lemma sorted_set_ext `{!Inj (=) (=) key} l k :
  (∀ x, x ∈ l ↔ x ∈ k) → sorted_set key l = sorted_set key k.
Proof.
  intros E. apply sorted_unique.
  - intros x y _ _. apply (inj key).
  - apply NoDup_Permutation; try apply NoDup_remove_dups.
    intros x. by rewrite !elem_of_remove_dups.
Qed.
Lemma remove_dups_NoDup_id (l : list A) : NoDup l → remove_dups l = l.
Proof.
  induction 1 as [|x l Hx Hl IH]; [done|]. simpl. rewrite IH. by repeat case_match.
Qed.

Lemma sorted_set_idemp l : sorted_set key (sorted_set key l) = sorted_set key l.
Proof.
  unfold sorted_set at 1. rewrite remove_dups_NoDup_id by apply NoDup_sorted_set.
  apply sorted_id, sorted_set_sorted.
Qed.
End sorted_set.

(** * Iterating a Python set

    [set(values)] keeps the first of the values that are [==]; the order in
    which a set is iterated depends on the interpreter's hashes, so it is a
    parameter. *)

Fixpoint py_set {A} (eqb : A → A → bool) (l : list A) : list A :=
  match l with
  | [] => []
  | x :: l => x :: List.filter (λ y, negb (eqb x y)) (py_set eqb l)
  end.

Class SetOrder := {
  set_iter : ∀ A : Type, list A → list A;
  set_iter_perm A (l : list A) : set_iter A l ≡ₚ l
}.
Global Arguments set_iter {_ _} _.

(** Sets iterated in insertion order. *)
Definition insertion_order : SetOrder :=
  {| set_iter A l := l; set_iter_perm A l := Permutation_refl l |}.

(** [sorted(set(values), key=key)] for a key that may tie. *)
Definition sorted_py_set `{SetOrder} {A K} `{TotalOrd K} (eqb : A → A → bool) (key : A → K)
    (l : list A) : list A := sorted key (set_iter (py_set eqb l)).

Section sorted_py_set.
Context `{SetOrder} {A K : Type} `{TotalOrd K} (eqb : A → A → bool) (key : A → K).

Lemma elem_of_py_set_sub x l : x ∈ py_set eqb l → x ∈ l.
Proof.
  induction l as [|y l IH]; simpl; [done|]. rewrite !elem_of_cons.
  intros [->|Hx]; [by left|]. right. apply IH. apply list_elem_of_In in Hx.
  apply filter_In in Hx as [Hx _]. by apply list_elem_of_In.
Qed.

Lemma elem_of_py_set x l : (∀ x y, eqb x y = true ↔ x = y) → x ∈ py_set eqb l ↔ x ∈ l.
Proof.
  intros He. split; [apply elem_of_py_set_sub|]. induction l as [|y l IH]; simpl; [done|].
  rewrite !elem_of_cons. intros [->|Hx]; [by left|].
  destruct (eqb y x) eqn:E; [apply He in E as ->; by left|]. right.
  apply list_elem_of_In, filter_In. split; [apply list_elem_of_In; auto|by rewrite E].
Qed.

Lemma elem_of_sorted_py_set_sub x l : x ∈ sorted_py_set eqb key l → x ∈ l.
Proof. unfold sorted_py_set. rewrite elem_of_sorted, set_iter_perm. apply elem_of_py_set_sub. Qed.

Lemma elem_of_sorted_py_set x l :
  (∀ x y, eqb x y = true ↔ x = y) → x ∈ sorted_py_set eqb key l ↔ x ∈ l.
Proof.
  intros He. unfold sorted_py_set. rewrite elem_of_sorted, set_iter_perm. by apply elem_of_py_set.
Qed.

Lemma sorted_py_set_sorted l : StronglySorted (key_le key) (sorted_py_set eqb key l).
Proof. apply sorted_sorted. Qed.
Lemma NoDup_sorted_py_set l :
  (∀ x y, eqb x y = true ↔ x = y) → NoDup (sorted_py_set eqb key l).
Proof.
  intros He. unfold sorted_py_set. rewrite NoDup_sorted, set_iter_perm.
  induction l as [|x l IH]; simpl; [constructor|]. constructor.
  - rewrite list_elem_of_In, filter_In, (proj2 (He x x)) by done. by intros [_ ?].
  - revert IH. generalize (py_set eqb l). intros k Hk.
    induction Hk as [|y k Hy Hk IH]; simpl; [constructor|].
    case_match; [|done]. constructor; [|done]. rewrite list_elem_of_In, filter_In, <-list_elem_of_In.
    by intros [? _].
Qed.
End sorted_py_set.

(** * [max] and [min] with a key: the first extremal element *)

Section extrema.
Context {A : Type} (key : A → Z).

Definition max_by (l : list A) : option A :=
  match l with
  | [] => None
  | x :: l => Some (foldl (λ best y, if (key best <? key y)%Z then y else best) x l)
  end.

Definition min_by (l : list A) : option A :=
  match l with
  | [] => None
  | x :: l => Some (foldl (λ best y, if (key y <? key best)%Z then y else best) x l)
  end.

Lemma foldl_pick_spec (better : A → A → bool) (rel : A → A → Prop) x l :
  (∀ x, rel x x) → (∀ x y z, rel x y → rel y z → rel x z) →
  (∀ x y, better x y = true → rel x y) → (∀ x y, better x y = false → rel y x) →
  let m := foldl (λ best y, if better best y then y else best) x l in
  m ∈ x :: l ∧ ∀ y, y ∈ x :: l → rel y m.
Proof.
  intros Hrefl Htrans Hyes Hno. revert x. induction l as [|y l IH]; intros x; simpl.
  - split; [by left|]. intros y Hy%list_elem_of_singleton. by subst.
  - assert (∃ z, z = (if better x y then y else x) ∧ z ∈ [x; y] ∧ rel x z ∧ rel y z)
      as (z & <- & Hz & Hx & Hy).
    { destruct (better x y) eqn:E; eexists; (split; [done|]); split_and!; auto; set_solver. }
    destruct (IH z) as [Hin Hall]. split; [set_solver|].
    intros w [->|[->|Hw]%elem_of_cons]%elem_of_cons.
    1,2: eapply Htrans; [eassumption|apply Hall; left]. apply Hall. by right.
Qed.

Lemma max_by_Some l m : max_by l = Some m → m ∈ l ∧ ∀ x, x ∈ l → (key x ≤ key m)%Z.
Proof.
  destruct l as [|x l]; [done|]. intros [= <-].
  apply (foldl_pick_spec (λ b y, (key b <? key y)%Z) (λ x y, (key x ≤ key y)%Z));
    intros; lia.
Qed.

Lemma min_by_Some l m : min_by l = Some m → m ∈ l ∧ ∀ x, x ∈ l → (key m ≤ key x)%Z.
Proof.
  destruct l as [|x l]; [done|]. intros [= <-].
  apply (foldl_pick_spec (λ b y, (key y <? key b)%Z) (λ x y, (key y ≤ key x)%Z));
    intros; lia.
Qed.

Lemma max_by_None l : max_by l = None ↔ l = [].
Proof. by destruct l. Qed.
Lemma min_by_None l : min_by l = None ↔ l = [].
Proof. by destruct l. Qed.
End extrema.

(** * Boolean membership and duplicates *)

(** [x in values] for a tuple, list or set. *)
Definition mem `{EqDecision A} (x : A) (l : list A) : bool := bool_decide (x ∈ l).

(** [len(set(values)) != len(values)] *)
Definition has_dups `{EqDecision A} (l : list A) : bool := negb (bool_decide (NoDup l)).

Lemma mem_true `{EqDecision A} (x : A) l : mem x l = true ↔ x ∈ l.
Proof. apply bool_decide_eq_true. Qed.
Lemma mem_false `{EqDecision A} (x : A) l : mem x l = false ↔ x ∉ l.
Proof. apply bool_decide_eq_false. Qed.
Lemma has_dups_false `{EqDecision A} (l : list A) : has_dups l = false ↔ NoDup l.
Proof. unfold has_dups. rewrite negb_false_iff. apply bool_decide_eq_true. Qed.

(** [any(not p(x) for x in l)] is false. *)
Lemma existsb_negb {A} (p : A → bool) l :
  existsb (λ x, negb (p x)) l = false ↔ ∀ x, x ∈ l → p x = true.
Proof.
  induction l as [|x l IH]; simpl; [by split; [intros _ ? ?%elem_of_nil|]|].
  rewrite orb_false_iff, negb_false_iff, IH. setoid_rewrite elem_of_cons. naive_solver.
Qed.

Lemma existsb_In {A} (p : A → bool) l : existsb p l = true ↔ ∃ x, x ∈ l ∧ p x = true.
Proof. rewrite existsb_exists. by setoid_rewrite list_elem_of_In. Qed.

(** * Reachability *)

Lemma tc_rtc_l {A} (R : A → A → Prop) x y z : rtc R x y → tc R y z → tc R x z.
Proof. induction 1; eauto using tc_l. Qed.

(** A well-founded start reaches no cycle. *)
Lemma acc_no_cycle {A} (R : A → A → Prop) x : Acc (λ y x, R x y) x → ¬ tc R x x.
Proof.
  induction 1 as [x _ IH]. intros Hc. inversion Hc as [? ? Hr|? y ? Hr Ht]; subst.
  - by apply (IH x).
  - eapply IH; [exact Hr|]. eapply tc_r; [exact Ht|exact Hr].
Qed.

(** * Counting *)

Section counting.
Context {A : Type} (P Q : A → Prop) `{∀ x, Decision (P x), ∀ x, Decision (Q x)}.

Lemma count_filter_mono l :
  (∀ x, x ∈ l → P x → Q x) → length (filter P l) ≤ length (filter Q l).
Proof.
  induction l as [|x l IH]; intros Hi; [done|]. rewrite !filter_cons.
  assert (length (filter P l) ≤ length (filter Q l)) by (apply IH; intros y Hy; apply Hi; by right).
  specialize (Hi x ltac:(by left)). repeat case_decide; simpl; [lia|tauto|lia..].
Qed.

Lemma count_filter_lt l x :
  (∀ x, x ∈ l → P x → Q x) → x ∈ l → Q x → ¬ P x → length (filter P l) < length (filter Q l).
Proof.
  induction l as [|y l IH]; intros Hi Hx Hq Hp; [by apply elem_of_nil in Hx|].
  rewrite !filter_cons.
  assert (∀ x, x ∈ l → P x → Q x) as Hi' by (intros z Hz; apply Hi; by right).
  pose proof (count_filter_mono l Hi'). specialize (Hi y ltac:(by left)).
  apply elem_of_cons in Hx as [->|Hx]; [repeat case_decide; simpl; tauto || lia|].
  specialize (IH Hi' Hx Hq Hp). repeat case_decide; simpl; tauto || lia.
Qed.
End counting.

(** * Concatenation *)

Lemma app_nil_iff {A} (l k : list A) : l ++ k = [] ↔ l = [] ∧ k = [].
Proof. split; [apply app_nil|by intros [-> ->]]. Qed.
Lemma map_nil_iff {A B} (f : A → B) l : map f l = [] ↔ l = [].
Proof. by destruct l. Qed.
Lemma if_some_nil {A} (b : bool) (x : A) : (if b then [x] else []) = [] ↔ b = false.
Proof. by destruct b. Qed.
Lemma if_none_nil {A} (b : bool) (x : A) : (if b then [] else [x]) = [] ↔ b = true.
Proof. by destruct b. Qed.
Lemma concat_eq_nil {A} (ls : list (list A)) : concat ls = [] ↔ Forall (λ l, l = []) ls.
Proof.
  induction ls as [|l ls IH]; simpl; [by split|]. rewrite Forall_cons, <-IH.
  split; [apply app_nil|by intros [-> ->]].
Qed.

(** * Insertion-ordered dictionaries

    A Python [dict] keeps the position of the first insertion of a key and
    the value of the last one. *)

Section dict.
Context {K V : Type} `{EqDecision K}.

(** [d.get(k)] *)
Fixpoint dget (k : K) (d : list (K * V)) : option V :=
  match d with
  | [] => None
  | (k', v) :: d => if bool_decide (k = k') then Some v else dget k d
  end.

(** [d[k] = v] *)
Fixpoint dset (k : K) (v : V) (d : list (K * V)) : list (K * V) :=
  match d with
  | [] => [(k, v)]
  | (k', v') :: d => if bool_decide (k = k') then (k', v) :: d else (k', v') :: dset k v d
  end.

(** [{k: v for k, v in items}] *)
Definition dict_of (items : list (K * V)) : list (K * V) :=
  foldl (λ d kv, dset kv.1 kv.2 d) [] items.

Definition dkeys (d : list (K * V)) : list K := d.*1.
Definition dvalues (d : list (K * V)) : list V := d.*2.

Lemma dget_dset_eq k v d : dget k (dset k v d) = Some v.
Proof.
  induction d as [|[k' v'] d IH]; simpl; [by rewrite bool_decide_true|].
  case_bool_decide; simpl; [by rewrite bool_decide_true|by rewrite bool_decide_false].
Qed.

Lemma dget_dset_ne k k' v d : k ≠ k' → dget k (dset k' v d) = dget k d.
Proof.
  intros Hne. induction d as [|[k'' v''] d IH]; simpl; [by rewrite bool_decide_false|].
  case_bool_decide; simplify_eq; simpl; repeat case_bool_decide; congruence.
Qed.

Lemma dget_dset k k' v d :
  dget k (dset k' v d) = if bool_decide (k = k') then Some v else dget k d.
Proof. case_bool_decide; subst; [apply dget_dset_eq|by apply dget_dset_ne]. Qed.

Lemma dkeys_dset k v d :
  dkeys (dset k v d) = if mem k (dkeys d) then dkeys d else dkeys d ++ [k].
Proof.
  unfold dkeys, mem. induction d as [|[k' v'] d IH]; csimpl; [done|].
  destruct (decide (k = k')) as [->|Hne].
  - by rewrite !bool_decide_true by (done || left).
  - rewrite (bool_decide_false (k = k')) by done. csimpl. rewrite IH.
    rewrite (bool_decide_ext (k ∈ k' :: d.*1) (k ∈ d.*1)) by set_solver.
    by case_bool_decide.
Qed.

Lemma elem_of_dkeys_dset k k' v d : k ∈ dkeys (dset k' v d) ↔ k = k' ∨ k ∈ dkeys d.
Proof.
  rewrite dkeys_dset. destruct (mem k' (dkeys d)) eqn:E.
  - apply mem_true in E. split; [by right|]. by intros [->|?].
  - rewrite elem_of_app, list_elem_of_singleton. tauto.
Qed.

Lemma NoDup_dkeys_dset k v d : NoDup (dkeys d) → NoDup (dkeys (dset k v d)).
Proof.
  intros Hd. rewrite dkeys_dset. destruct (mem k (dkeys d)) eqn:E; [done|].
  apply mem_false in E. apply NoDup_app. split_and!; [done| |repeat constructor; set_solver].
  intros x Hx ->%list_elem_of_singleton. done.
Qed.

Lemma dget_None k d : dget k d = None ↔ k ∉ dkeys d.
Proof.
  unfold dkeys. induction d as [|[k' v'] d IH]; simpl; [set_solver|].
  rewrite not_elem_of_cons, <-IH. case_bool_decide; [|tauto].
  split; [done|]. by intros [? _].
Qed.

Lemma dget_is_Some k d : is_Some (dget k d) ↔ k ∈ dkeys d.
Proof.
  rewrite <-not_eq_None_Some, dget_None.
  split; [apply dec_stable|]. intros Hk Hn. by apply Hn.
Qed.

Lemma dget_elem_of k v d : dget k d = Some v → (k, v) ∈ d.
Proof.
  induction d as [|[k' v'] d IH]; simpl; [done|].
  case_bool_decide; [intros [= ->]; subst; by left|]. intros ?. right. auto.
Qed.

Lemma elem_of_dget k v d : NoDup (dkeys d) → (k, v) ∈ d → dget k d = Some v.
Proof.
  unfold dkeys. induction d as [|[k' v'] d IH]; simpl; [by intros _ ?%elem_of_nil|].
  intros [Hk' Hd]%NoDup_cons [[= -> ->]|Hin]%elem_of_cons; [by rewrite bool_decide_true|].
  rewrite bool_decide_false; [by auto|]. intros ->. apply Hk'.
  apply list_elem_of_fmap. by exists (k', v).
Qed.

Lemma elem_of_dvalues v d : v ∈ dvalues d ↔ ∃ k, (k, v) ∈ d.
Proof.
  unfold dvalues. rewrite list_elem_of_fmap. split.
  - intros [[k v'] [-> ?]]. eauto.
  - intros [k ?]. by exists (k, v).
Qed.

Lemma elem_of_dset k v k' v' d :
  NoDup (dkeys d) →
  (k, v) ∈ dset k' v' d ↔ (k = k' ∧ v = v') ∨ (k ≠ k' ∧ (k, v) ∈ d).
Proof.
  intros Hnd. split.
  - intros Hin. apply elem_of_dget in Hin; [|by apply NoDup_dkeys_dset].
    rewrite dget_dset in Hin. case_bool_decide; simplify_eq; [by left|right].
    split; [done|]. by apply dget_elem_of.
  - intros [[-> ->]|[Hne Hin]]; apply dget_elem_of; [apply dget_dset_eq|].
    rewrite dget_dset_ne by done. by apply elem_of_dget.
Qed.

Lemma dset_fresh k v d : k ∉ dkeys d → dset k v d = d ++ [(k, v)].
Proof.
  unfold dkeys. induction d as [|[k' v'] d IH]; simpl; [done|].
  rewrite not_elem_of_cons. intros [Hne Hk]. rewrite bool_decide_false by done. by rewrite IH.
Qed.

Lemma dict_of_NoDup_keys items : NoDup (dkeys (dict_of items)).
Proof.
  unfold dict_of. assert (NoDup (dkeys (@nil (K * V)))) as H0 by constructor. revert H0.
  generalize (@nil (K * V)). induction items as [|[k v] items IH]; simpl; auto.
  intros d Hd. apply IH. by apply NoDup_dkeys_dset.
Qed.

Lemma dict_of_fresh items : NoDup (items.*1) → dict_of items = items.
Proof.
  unfold dict_of. intros Hnd. change items with ([] ++ items) in Hnd |- * at 2.
  revert Hnd. generalize (@nil (K * V)).
  induction items as [|[k v] items IH]; intros d Hd; simpl; [by rewrite app_nil_r|].
  rewrite fmap_app in Hd. simpl in Hd. rewrite dset_fresh.
  - rewrite IH; rewrite <-?app_assoc; [done|]. by rewrite fmap_app.
  - apply NoDup_app in Hd as (_ & Hd & _). intros Hk. apply (Hd k Hk). left.
Qed.
End dict.

(** Looking a key up does not depend on the order of the entries. *)
Lemma dget_perm {K V} `{EqDecision K} (k : K) (d e : list (K * V)) :
  NoDup d.*1 → Permutation d e → dget k d = dget k e.
Proof.
  intros Hd Hp. assert (NoDup (dkeys e)) as He by (unfold dkeys; by rewrite <-Hp).
  destruct (dget k e) as [v|] eqn:E.
  - apply dget_elem_of in E. rewrite <-Hp in E. by apply elem_of_dget.
  - apply dget_None in E. apply dget_None. unfold dkeys in *. by rewrite Hp.
Qed.
Lemma dget_sorted {K V} `{EqDecision K, TotalOrd K} (k : K) (d : list (K * V)) :
  NoDup d.*1 → dget k (sorted fst d) = dget k d.
Proof. intros Hd. symmetry. apply dget_perm; [done|]. symmetry. apply sorted_perm. Qed.

(** Mapping the values of a dictionary. *)
Definition dmap {K V W} (f : V → W) (d : list (K * V)) : list (K * W) :=
  map (λ kv, (kv.1, f kv.2)) d.
Lemma dkeys_dmap {K V W} (f : V → W) (d : list (K * V)) : (dmap f d).*1 = d.*1.
Proof. induction d as [|[k v] d IH]; [done|]. cbn. by f_equal. Qed.
Lemma dget_dmap {K V W} `{EqDecision K} (f : V → W) (k : K) (d : list (K * V)) :
  dget k (dmap f d) = f <$> dget k d.
Proof. induction d as [|[k' v] d IH]; [done|]. cbn. by case_bool_decide. Qed.
Lemma dmap_dset {K V W} `{EqDecision K} (f : V → W) (k : K) v (d : list (K * V)) :
  dmap f (dset k v d) = dset k (f v) (dmap f d).
Proof. induction d as [|[k' w] d IH]; [done|]. cbn. case_bool_decide; [done|]. cbn. by f_equal. Qed.
Lemma dmap_id {K V} (f : V → V) (d : list (K * V)) :
  Forall (λ kv, f kv.2 = kv.2) d → dmap f d = d.
Proof. induction 1 as [|[k v] d Hv _ IH]; [done|]. unfold dmap in *. cbn in *. by rewrite Hv, IH. Qed.
Lemma sorted_dmap {K V W} `{TotalOrd K} (f : V → W) (d : list (K * V)) :
  sorted fst (dmap f d) = dmap f (sorted fst d).
Proof.
  pose proof (sorted_fmap (λ kv : K * V, (kv.1, f kv.2)) fst d) as E. cbn [fst] in E.
  change (λ x : K * V, x.1) with (@fst K V) in E. exact E.
Qed.

(** * Reasoning about [py] computations *)

Lemma bind_Ret {A B} (m : py A) (f : A → py B) b :
  m ≫= f = Ret b ↔ ∃ a, m = Ret a ∧ f a = Ret b.
Proof. destruct m; simpl; [|by split; [|intros (? & ? & _)]]. split; [eauto|by intros (? & [= <-] & ?)]. Qed.

Lemma fmap_Ret {A B} (m : py A) (f : A → B) b :
  f <$> m = Ret b ↔ ∃ a, m = Ret a ∧ f a = b.
Proof.
  destruct m; simpl; [|by split; [|intros (? & ? & _)]].
  split; [intros [= <-]; eauto|by intros (? & [= <-] & <-)].
Qed.

Lemma raise_if_Ret b msg u : raise_if b msg = Ret u ↔ b = false.
Proof. unfold raise_if. destruct b; [done|]. by destruct u. Qed.

(** What raised, when a sequence did. *)
Lemma bind_Raise {A B} (m : py A) (f : A → py B) e :
  m ≫= f = Raise e ↔ m = Raise e ∨ ∃ a, m = Ret a ∧ f a = Raise e.
Proof.
  destruct m as [a|e']; cbn; split.
  - eauto.
  - by intros [[=]|(? & [= <-] & ?)].
  - intros [= ->]. by left.
  - by intros [[= ->]|(? & [=] & _)].
Qed.
Lemma raise_if_Raise b msg e : raise_if b msg = Raise e ↔ b = true ∧ e = ValueError msg.
Proof. unfold raise_if. destruct b; split; [intros [= <-]|intros [_ ->]|..]; naive_solver. Qed.
Lemma mapM_Raise {A B} (f : A → py B) l e : mapM f l = Raise e → ∃ x, x ∈ l ∧ f x = Raise e.
Proof.
  induction l as [|x l IH]; simpl; [done|]. intros [Hx|(y & _ & [(z & Hz & E)%IH|(? & _ & [=])]%bind_Raise)]%bind_Raise.
  - exists x. split; [left|done].
  - exists z. split; [by right|done].
Qed.

Lemma returns_Ret {A} (m : py A) : returns m = true ↔ ∃ a, m = Ret a.
Proof. destruct m; split; try done; [eauto|by intros [? ?]]. Qed.

Lemma mapM_Ret {A B} (f : A → py B) l k :
  mapM f l = Ret k ↔ Forall2 (λ x y, f x = Ret y) l k.
Proof.
  revert k. induction l as [|x l IH]; intros k; simpl.
  - split; [by intros [= <-]|]. by inversion 1.
  - split.
    + intros (y & Hy & (k' & Hk & [= <-])%bind_Ret)%bind_Ret. constructor; [done|]. by apply IH.
    + inversion 1 as [|? y ? k' Hy Hk]; subst. rewrite Hy. simpl.
      apply IH in Hk. by rewrite Hk.
Qed.

(** Split a hypothesis [m ≫= f = Ret b] into the steps that returned. *)
Ltac inv_py :=
  repeat match goal with
  | H : (_ ≫= _) = Ret _ |- _ =>
      let x := fresh "v" in let Hx := fresh "Hv" in apply bind_Ret in H as (x & Hx & H)
  | H : (_ <$> _) = Ret _ |- _ =>
      let x := fresh "v" in let Hx := fresh "Hv" in apply fmap_Ret in H as (x & Hx & H)
  | H : raise_if _ _ = Ret _ |- _ => apply raise_if_Ret in H
  | H : Ret _ = Ret _ |- _ => injection H as H
  | H : Raise _ = Ret _ |- _ => discriminate H
  end; simplify_eq/=.

(** Split the boolean guards of a validator that did not raise. *)
Ltac split_guard :=
  repeat match goal with
  | H : (_ || _)%bool = false |- _ => apply orb_false_iff in H as [? H]
  | H : (_ && _)%bool = true |- _ => apply andb_true_iff in H as [? H]
  | H : negb _ = false |- _ => apply negb_false_iff in H
  | H : negb _ = true |- _ => apply negb_true_iff in H
  | H : bool_decide _ = true |- _ => apply bool_decide_eq_true in H
  | H : bool_decide _ = false |- _ => apply bool_decide_eq_false in H
  | H : mem _ _ = true |- _ => apply mem_true in H
  | H : mem _ _ = false |- _ => apply mem_false in H
  | H : has_dups _ = false |- _ => apply has_dups_false in H
  end.

(** ** Filtering *)

Lemma filter_all {A} (p : A → bool) l : (∀ x, x ∈ l → p x = true) → List.filter p l = l.
Proof.
  induction l as [|x l IH]; intros Hl; [done|]. simpl. rewrite (Hl x) by (by left).
  f_equal. apply IH. intros y Hy. apply Hl. by right.
Qed.
Lemma filter_nil_iff {A} (p : A → bool) l : List.filter p l = [] ↔ ∀ x, x ∈ l → p x = false.
Proof.
  split.
  - intros Hf x Hx. destruct (p x) eqn:E; [|done]. exfalso.
    assert (x ∈ List.filter p l) as Hin by by (apply list_elem_of_In, filter_In; split; [apply list_elem_of_In|]).
    rewrite Hf in Hin. by apply elem_of_nil in Hin.
  - intros Hp. destruct (List.filter p l) as [|x k] eqn:E; [done|]. exfalso.
    assert (In x (List.filter p l)) as Hin by (rewrite E; by left).
    apply filter_In in Hin as [Hin Hx]. rewrite (Hp x) in Hx; [done|by apply list_elem_of_In].
Qed.
Lemma filter_sorted {A K} `{TotalOrd K} (key : A → K) (p : A → bool) (l : list A) :
  (∀ x y, x ∈ l → y ∈ l → key x = key y → x = y) →
  List.filter p (sorted key l) = sorted key (List.filter p l).
Proof.
  intros Hinj. apply (strongly_sorted_key_unique key).
  - intros x y Hx Hy. apply list_elem_of_In, filter_In in Hx as [Hx _], Hy as [Hy _].
    apply list_elem_of_In, elem_of_sorted in Hx, Hy. auto.
  - pose proof (sorted_sorted key l) as Hs. induction Hs as [|x l' Hs IH Hx]; cbn; [constructor|].
    destruct (p x); [|done]. constructor; [done|]. rewrite Forall_forall in *. intros y Hy.
    apply Hx. by apply list_elem_of_In, filter_In in Hy as [Hy%list_elem_of_In _].
  - apply sorted_sorted.
  - rewrite (sorted_perm key (List.filter p l)). clear Hinj.
    induction (sorted_perm key l) as [|x k k' _ IH|x y k|k1 k2 k3 _ IH1 _ IH2]; cbn; [done|..].
    + destruct (p x); [by constructor|done].
    + destruct (p x), (p y); try done. apply perm_swap.
    + by etrans.
Qed.
Lemma dget_app {K V} `{EqDecision K} (k : K) (d e : list (K * V)) :
  dget k (d ++ e) = match dget k d with Some v => Some v | None => dget k e end.
Proof. induction d as [|[k' v] d IH]; cbn; [done|]. by case_decide. Qed.

Create HintDb aart.
#[export] Hint Resolve sorted_sorted sorted_set_sorted NoDup_sorted_set sorted_perm : aart.
#[export] Hint Resolve NoDup_dkeys_dset dict_of_NoDup_keys dget_dset_eq ple_refl : aart.
