(* ===== verification/Effects.v ===== *)
(** Effectful code: a computation over a state that returns or raises.

    Unlike the pure [py] monad, an exception keeps the state reached so far, as
    an effect already done is not undone by raising.  The state is a trace of
    the calls made to injected ports, or a file system. *)
From S2P Require Import Prelude.

Definition st (S A : Type) : Type := S → py A * S.

Section monad.
Context {S : Type}.

#[export] Instance st_ret : MRet (st S) := λ A a s, (Ret a, s).
#[export] Instance st_bind : MBind (st S) := λ A B f m s,
  match m s with (Ret a, s') => f a s' | (Raise e, s') => (Raise e, s') end.
#[export] Instance st_fmap : FMap (st S) := λ A B f m s,
  match m s with (Ret a, s') => (Ret (f a), s') | (Raise e, s') => (Raise e, s') end.

(** A pure computation, the state, and an update of it. *)
Definition pure {A} (m : py A) : st S A := λ s, (m, s).
Definition gets {A} (f : S → A) : st S A := λ s, (Ret (f s), s).
Definition modify (f : S → S) : st S unit := λ s, (Ret tt, f s).

(** [try: m except Exception as e: handler e] *)
Definition catch {A} (m : st S A) (handler : exn → st S A) : st S A := λ s,
  match m s with (Raise e, s') => handler e s' | r => r end.

(** [try: m finally: cleanup]; an exception of the cleanup wins. *)
Definition finally {A} (m : st S A) (cleanup : st S unit) : st S A := λ s,
  match m s with
  | (r, s') => match cleanup s' with (Ret _, s'') => (r, s'') | (Raise e, s'') => (Raise e, s'') end
  end.

(** [for x in xs: body x] *)
Fixpoint for_each {A} (xs : list A) (body : A → st S unit) : st S unit :=
  match xs with
  | [] => mret tt
  | x :: xs => body x ;; for_each xs body
  end.

(** What a computation does from [s]: its outcome and the state it leaves. *)
Definition wp {A} (m : st S A) (Q : py A → S → Prop) (s : S) : Prop := Q (m s).1 (m s).2.

Lemma wp_ret {A} (a : A) Q s : Q (Ret a) s → wp (mret a) Q s.
Proof. done. Qed.
Lemma wp_pure {A} (m : py A) Q s : Q m s → wp (pure m) Q s.
Proof. done. Qed.
Lemma wp_bind {A B} (m : st S A) (f : A → st S B) Q s :
  wp m (λ r s', match r with Ret a => wp (f a) Q s' | Raise e => Q (Raise e) s' end) s →
  wp (m ≫= f) Q s.
Proof. unfold wp, mbind, st_bind. destruct (m s) as [[a|e] s']; done. Qed.
Lemma wp_catch {A} (m : st S A) h Q s :
  wp m (λ r s', match r with Ret a => Q (Ret a) s' | Raise e => wp (h e) Q s' end) s →
  wp (catch m h) Q s.
Proof. unfold wp, catch. destruct (m s) as [[a|e] s']; done. Qed.
Lemma wp_mono {A} (m : st S A) (P Q : py A → S → Prop) s :
  wp m P s → (∀ r s', P r s' → Q r s') → wp m Q s.
Proof. unfold wp. auto. Qed.

Lemma bind_run_Ret {A B} (m : st S A) (f : A → st S B) s a s' :
  m s = (Ret a, s') → (m ≫= f) s = f a s'.
Proof. unfold mbind, st_bind. by intros ->. Qed.
Lemma bind_run_Raise {A B} (m : st S A) (f : A → st S B) s e s' :
  m s = (Raise e, s') → (m ≫= f) s = (Raise e, s').
Proof. unfold mbind, st_bind. by intros ->. Qed.
Lemma bind_run_inv {A B} (m : st S A) (f : A → st S B) s b s' :
  (m ≫= f) s = (Ret b, s') → ∃ a s1, m s = (Ret a, s1) ∧ f a s1 = (Ret b, s').
Proof. unfold mbind, st_bind. destruct (m s) as [[a|e] s1]; [eauto|done]. Qed.
Lemma bind_raise_inv {A B} (m : st S A) (f : A → st S B) s e s' :
  (m ≫= f) s = (Raise e, s') → m s = (Raise e, s') ∨ ∃ a s1, m s = (Ret a, s1) ∧ f a s1 = (Raise e, s').
Proof. unfold mbind, st_bind. destruct (m s) as [[a|e'] s1]; [eauto|]. intros [= -> ->]. by left. Qed.
End monad.

(** Ports: an answer may depend on every call made before it, so a port is a
    function of the trace, and a call appends itself and its answer. *)
Definition call {E R : Type} (answer : list E → R) (event : R → E) : st (list E) R :=
  λ trace, let r := answer trace in (Ret r, trace ++ [event r]).

Lemma call_run {E R} (answer : list E → R) (event : R → E) trace :
  call answer event trace = (Ret (answer trace), trace ++ [event (answer trace)]).
Proof. done. Qed.
