(* ===== verification/PyText.v ===== *)
(** Python text: the [str], [bytes] and [re] operations the code uses.

    A Python [str] is a Rocq [string] holding its UTF-8 bytes (a lone
    surrogate is held as its three generalised-UTF-8 bytes), so equality,
    concatenation, [split] on an ASCII separator and comparison are the
    byte-string ones: comparing code points and comparing UTF-8 bytes give the
    same order.  [bytes] is the same type, and encoding is the identity
    wherever it succeeds.

    What depends on the Unicode character database ([unicodedata],
    [str.isprintable], [str.isspace], [str.casefold]) is the class
    [UnicodeData]; everything on ASCII text is computed here. *)
From S2P Require Import Prelude.
From Stdlib Require Import Ascii.

Abbreviation bytes := string.

(** * Characters *)

Definition code (c : ascii) : N := N_of_ascii c.
Definition between (lo hi : N) (c : ascii) : bool :=
  ((lo <=? code c) && (code c <=? hi))%N.
Definition is_char (d : ascii) (c : ascii) : bool := Ascii.eqb d c.
Definition is_digit : ascii → bool := between 48 57.
Definition is_lower : ascii → bool := between 97 122.
Definition is_upper : ascii → bool := between 65 90.
Definition is_alpha (c : ascii) : bool := is_lower c || is_upper c.
Definition is_alnum (c : ascii) : bool := is_alpha c || is_digit c.
Definition is_hex (c : ascii) : bool := is_digit c || between 97 102 c.
Definition is_control (c : ascii) : bool := ((code c <? 32) || (code c =? 127))%N.
Definition is_ascii_char (c : ascii) : bool := (code c <? 128)%N.

#[global] Arguments is_char : simpl never.
#[global] Arguments is_digit : simpl never.
#[global] Arguments is_lower : simpl never.
#[global] Arguments is_upper : simpl never.
#[global] Arguments is_hex : simpl never.

Fixpoint str_forall (p : ascii → bool) (s : string) : bool :=
  match s with EmptyString => true | String c s => p c && str_forall p s end.
Definition str_exists (p : ascii → bool) (s : string) : bool :=
  negb (str_forall (λ c, negb (p c)) s).
Definition is_ascii (s : string) : bool := str_forall is_ascii_char s.
Definition str_empty (s : string) : bool :=
  match s with EmptyString => true | _ => false end.
(** ["x" in s] for one ASCII character *)
Definition has_char (d : ascii) (s : string) : bool := str_exists (is_char d) s.
Definition newline : ascii := "010"%char.
Definition creturn : ascii := "013"%char.

(** * Splitting and joining *)

(** [s.split(sep)] for a one-character separator: never empty. *)
Fixpoint split_on (sep : ascii) (s : string) : list string :=
  match s with
  | EmptyString => [""]
  | String c s =>
      if is_char sep c then "" :: split_on sep s
      else match split_on sep s with
           | w :: ws => String c w :: ws
           | [] => [String c ""]
           end
  end.

(** [sep.join(parts)] *)
Fixpoint join (sep : string) (parts : list string) : string :=
  match parts with
  | [] => ""
  | [p] => p
  | p :: parts => p +:+ sep +:+ join sep parts
  end.

(** [s.partition(sep)] for one character: the text before the first
    separator, and the text after it when there is one. *)
Fixpoint cut_first (sep : ascii) (s : string) : string * option string :=
  match s with
  | EmptyString => ("", None)
  | String c s =>
      if is_char sep c then ("", Some s)
      else let '(a, b) := cut_first sep s in (String c a, b)
  end.

(** [s.rpartition(sep)] when [sep] occurs: text before and after the last one. *)
Fixpoint cut_last (sep : ascii) (s : string) : option (string * string) :=
  match s with
  | EmptyString => None
  | String c s =>
      match cut_last sep s with
      | Some (a, b) => Some (String c a, b)
      | None => if is_char sep c then Some ("", s) else None
      end
  end.

(** [needle in haystack] *)
Fixpoint contains (needle haystack : string) : bool :=
  String.prefix needle haystack ||
  match haystack with EmptyString => false | String _ h => contains needle h end.

(** [s[n:]], on bytes *)
Fixpoint str_drop (n : nat) (s : string) : string :=
  match n, s with
  | O, _ => s
  | S n, String _ s => str_drop n s
  | S _, EmptyString => ""
  end.

(** [s.removeprefix(p)] *)
Definition removeprefix (p s : string) : string :=
  if String.prefix p s then str_drop (String.length p) s else s.

(** * Code points *)

(** The bytes of [s] grouped by code point: a lead byte and its
    continuation bytes [10xxxxxx]. *)
Fixpoint code_points (s : string) : list string :=
  match s with
  | EmptyString => []
  | String c s =>
      match code_points s with
      | w :: ws =>
          match w with
          | String d _ => if between 128 191 d then String c w :: ws else String c "" :: w :: ws
          | EmptyString => String c "" :: ws
          end
      | [] => [String c ""]
      end
  end.

(** [len(s)] *)
Definition str_len (s : string) : nat := length (code_points s).

(** The number of a code point from its bytes. *)
Fixpoint low_bits (acc : N) (s : string) : N :=
  match s with
  | EmptyString => acc
  | String c s => low_bits (acc * 64 + N.land (code c) 63) s
  end.
Definition ord (cp : string) : N :=
  match cp with
  | EmptyString => 0
  | String c EmptyString => code c
  | String c rest =>
      let lead := if (code c <? 224)%N then N.land (code c) 31
                  else if (code c <? 240)%N then N.land (code c) 15 else N.land (code c) 7 in
      low_bits lead rest
  end.

(** Whether [s.encode("utf-8", errors="strict")] raises: some code point is
    a surrogate. *)
Definition has_surrogate (s : string) : bool :=
  existsb (λ cp, ((55296 <=? ord cp) && (ord cp <=? 57343))%N) (code_points s).

(** * The Unicode character database *)

Class UnicodeData := {
  nfc : string → string;              (** [unicodedata.normalize("NFC", s)] *)
  nfkc : string → string;             (** [unicodedata.normalize("NFKC", s)] *)
  lower : string → string;            (** [s.lower()] *)
  printable : string → bool;          (** [c.isprintable()], non-ASCII [c] *)
  wide_space : string → bool;         (** [c.isspace()], non-ASCII [c] *)
  casefold : string → string;         (** [s.casefold()] *)
  nfc_ascii s : is_ascii s = true → nfc s = s
}.

(** The database restricted to ASCII: enough to run the model on ASCII input. *)
Definition lower_ascii (c : ascii) : ascii :=
  if is_upper c then ascii_of_N (code c + 32) else c.
Fixpoint str_map (f : ascii → ascii) (s : string) : string :=
  match s with EmptyString => EmptyString | String c s => String (f c) (str_map f s) end.
Definition ascii_unicode : UnicodeData := {|
  nfc := id; nfkc := id; lower := str_map lower_ascii; printable _ := true; wide_space _ := false;
  casefold := str_map lower_ascii; nfc_ascii _ _ := eq_refl |}.

Section unicode.
Context `{UnicodeData}.

(** [c.isspace()] *)
Definition is_space (cp : string) : bool :=
  match cp with
  | String c EmptyString => between 9 13 c || between 28 32 c
  | _ => wide_space cp
  end.

Fixpoint drop_spaces (cps : list string) : list string :=
  match cps with
  | [] => []
  | cp :: rest => if is_space cp then drop_spaces rest else cps
  end.

(** [s.strip()] *)
Definition strip (s : string) : string :=
  String.concat "" (rev (drop_spaces (rev (drop_spaces (code_points s))))).

Definition hex_digit (n : N) : ascii :=
  ascii_of_N (if (n <? 10)%N then 48 + n else 87 + n).
Fixpoint hex_pad (digits : nat) (n : N) (acc : string) : string :=
  match digits with
  | O => acc
  | S d => hex_pad d (n / 16)%N (String (hex_digit (n mod 16)%N) acc)
  end.

(** [repr] of one code point inside a string quoted with [q]. *)
Definition repr_code_point (q : ascii) (cp : string) : string :=
  match cp with
  | String c EmptyString =>
      if is_char q c || is_char "\" c then String "\" cp
      else if is_char "009" c then "\t"
      else if is_char newline c then "\n"
      else if is_char creturn c then "\r"
      else if is_control c then "\x" +:+ hex_pad 2 (code c) ""
      else cp
  | _ =>
      if printable cp then cp
      else if (ord cp <? 256)%N then "\x" +:+ hex_pad 2 (ord cp) ""
      else if (ord cp <? 65536)%N then "\u" +:+ hex_pad 4 (ord cp) ""
      else "\U" +:+ hex_pad 8 (ord cp) ""
  end.

(** [repr(s)]: single quotes unless the text has one and no double quote. *)
Definition repr (s : string) : string :=
  let q := if has_char "'"%char s && negb (has_char "034" s) then "034"%char else "'"%char in
  String q (String.concat "" (map (repr_code_point q) (code_points s)) +:+ String q "").
End unicode.

(** * Integers as text *)

(** [str(n)] *)
Definition str_Z (n : Z) : string := pretty n.

(** [int(s)] on a string of decimal digits. *)
Fixpoint int_digits (acc : N) (s : string) : N :=
  match s with
  | EmptyString => acc
  | String c s => int_digits (acc * 10 + (code c - 48)) s
  end%N.
Definition int_of (s : string) : Z := Z.of_N (int_digits 0 s).

(** [n.to_bytes(width, "big")] *)
Fixpoint to_bytes (width : nat) (n : Z) (acc : bytes) : bytes :=
  match width with
  | O => acc
  | S w => to_bytes w (n / 256)%Z (String (ascii_of_N (Z.to_N (n mod 256))) acc)
  end.
Definition to_bytes8 (n : Z) : bytes := to_bytes 8 n "".

(** [bytes.fromhex(s)] on an even number of lower-case digits. *)
Definition hex_value (c : ascii) : N :=
  (if is_digit c then code c - 48 else code c - 87)%N.
Fixpoint fromhex (s : string) : bytes :=
  match s with
  | String a (String b s) => String (ascii_of_N (hex_value a * 16 + hex_value b)) (fromhex s)
  | _ => ""
  end.

(** * Lemmas on strings *)

Lemma str_app_nil_r (s : string) : s +:+ "" = s.
Proof. induction s as [|c s IH]; [done|]. change (String c (s +:+ "") = String c s). by f_equal. Qed.

Lemma concat_cons (x : string) l : String.concat "" (x :: l) = x +:+ String.concat "" l.
Proof. destruct l; [symmetry; apply str_app_nil_r|done]. Qed.

Lemma str_app_assoc (a b c : string) : a +:+ (b +:+ c) = (a +:+ b) +:+ c.
Proof.
  induction a as [|x a IH]; [done|].
  change (String x (a +:+ (b +:+ c)) = String x ((a +:+ b) +:+ c)). by f_equal.
Qed.

Lemma str_app_cons c (a b : string) : String c a +:+ b = String c (a +:+ b).
Proof. done. Qed.

Lemma str_app_nil_inv (a b : string) : a +:+ b = "" → a = "" ∧ b = "".
Proof. by destruct a, b. Qed.

Lemma str_length_app (a b : string) :
  String.length (a +:+ b) = (String.length a + String.length b)%nat.
Proof. induction a as [|c a IH]; [done|]. rewrite str_app_cons. simpl. by rewrite IH. Qed.

Lemma str_app_inj_len (a b c d : string) :
  String.length a = String.length b → a +:+ c = b +:+ d → a = b ∧ c = d.
Proof.
  revert b. induction a as [|x a IH]; intros [|y b]; try done. intros [= Hl].
  rewrite !str_app_cons. intros [= -> E]. destruct (IH b Hl E) as [-> ->]. done.
Qed.

Lemma str_forall_app p a b : str_forall p (a +:+ b) = str_forall p a && str_forall p b.
Proof.
  induction a as [|c a IH]; [done|]. rewrite str_app_cons. simpl. by rewrite IH, andb_assoc.
Qed.
Lemma has_char_app d a b : has_char d (a +:+ b) = has_char d a || has_char d b.
Proof. unfold has_char, str_exists. by rewrite str_forall_app, negb_andb. Qed.

Lemma str_forall_impl (p q : ascii → bool) s :
  (∀ c, p c = true → q c = true) → str_forall p s = true → str_forall q s = true.
Proof.
  intros Hi. induction s as [|c s IH]; simpl; [done|].
  intros [Hc Hs]%andb_true_iff. by rewrite (Hi c Hc), IH.
Qed.

Lemma has_char_false d s : has_char d s = false ↔ str_forall (λ c, negb (is_char d c)) s = true.
Proof. unfold has_char, str_exists. by rewrite negb_false_iff. Qed.

Lemma is_char_refl d : is_char d d = true.
Proof. apply Ascii.eqb_refl. Qed.

Lemma is_char_true d c : is_char d c = true ↔ d = c.
Proof. apply Ascii.eqb_eq. Qed.

Lemma cut_first_app d x y : has_char d x = false → cut_first d (x +:+ String d "" +:+ y) = (x, Some y).
Proof.
  change (String d "" +:+ y) with (String d y).
  rewrite has_char_false. induction x as [|c x IH]; simpl.
  - intros _. by rewrite is_char_refl.
  - rewrite ?str_app_cons. simpl. intros [->%negb_true_iff Hx]%andb_true_iff. by rewrite IH.
Qed.

Lemma cut_first_none d x : has_char d x = false → cut_first d x = (x, None).
Proof.
  rewrite has_char_false. induction x as [|c x IH]; simpl; [done|].
  intros [->%negb_true_iff Hx]%andb_true_iff. by rewrite IH.
Qed.

Lemma split_on_ne sep s : split_on sep s ≠ [].
Proof. destruct s; simpl; [done|]. destruct (is_char _ _); [done|]. by destruct (split_on sep s). Qed.

Lemma split_on_app sep x y :
  has_char sep x = false → split_on sep (x +:+ String sep "" +:+ y) = x :: split_on sep y.
Proof.
  change (String sep "" +:+ y) with (String sep y).
  rewrite has_char_false. induction x as [|c x IH]; simpl.
  - intros _. by rewrite is_char_refl.
  - rewrite ?str_app_cons. simpl. intros [->%negb_true_iff Hx]%andb_true_iff. by rewrite IH.
Qed.

Lemma split_on_mid sep x y : split_on sep (x +:+ String sep y) = split_on sep x ++ split_on sep y.
Proof.
  induction x as [|c x IH].
  - change ("" +:+ String sep y) with (String sep y). cbn [split_on]. by rewrite is_char_refl.
  - rewrite str_app_cons. cbn [split_on]. rewrite IH. destruct (is_char sep c); [done|].
    destruct (split_on sep x) as [|p ps] eqn:E; [by apply split_on_ne in E|done].
Qed.
Lemma split_on_none sep x : has_char sep x = false → split_on sep x = [x].
Proof.
  rewrite has_char_false. induction x as [|c x IH]; simpl; [done|].
  intros [->%negb_true_iff Hx]%andb_true_iff. by rewrite IH.
Qed.

(** [sep.join(parts).split(sep) == parts] *)
Lemma split_on_join sep parts :
  parts ≠ [] → Forall (λ p, has_char sep p = false) parts →
  split_on sep (join (String sep "") parts) = parts.
Proof.
  intros Hne Hp. induction Hp as [|p parts Hp Hps IH]; [done|].
  destruct parts as [|q parts]; [by apply split_on_none|].
  change (join (String sep "") (p :: q :: parts))
    with (p +:+ String sep "" +:+ join (String sep "") (q :: parts)).
  rewrite split_on_app by done. by rewrite IH.
Qed.

(** [sep.join(s.split(sep)) == s] *)
Lemma join_split_on sep s : join (String sep "") (split_on sep s) = s.
Proof.
  induction s as [|c s IH]; simpl; [done|].
  destruct (is_char sep c) eqn:E.
  - apply is_char_true in E as <-. pose proof (split_on_ne sep s).
    destruct (split_on sep s) as [|w ws]; [done|]. by rewrite <-IH.
  - destruct (split_on sep s) as [|w ws] eqn:Es; [by apply split_on_ne in Es|].
    rewrite <-IH. by destruct ws.
Qed.

Lemma split_on_no_sep sep s : Forall (λ p, has_char sep p = false) (split_on sep s).
Proof.
  induction s as [|c s IH]; simpl; [by repeat constructor|].
  destruct (is_char sep c) eqn:E; [by constructor|].
  destruct (split_on sep s) as [|w ws]; [by apply Forall_singleton; unfold has_char, str_exists; simpl; rewrite E|].
  apply Forall_cons in IH as [Hw Hws]. constructor; [|done].
  rewrite has_char_false in *. simpl. by rewrite E, Hw.
Qed.

Lemma cut_first_spec d s :
  match cut_first d s with
  | (x, None) => s = x ∧ has_char d s = false
  | (x, Some y) => s = x +:+ String d y ∧ has_char d x = false
  end.
Proof.
  induction s as [|c s IH]; simpl; [done|].
  destruct (is_char d c) eqn:E; [by apply is_char_true in E as <-|].
  destruct (cut_first d s) as [x [y|]]; destruct IH as [-> Hx];
    rewrite has_char_false in *; simpl; by rewrite E, ?Hx.
Qed.

Lemma cut_last_spec d s :
  match cut_last d s with
  | Some (x, y) => s = x +:+ String d y ∧ has_char d y = false
  | None => has_char d s = false
  end.
Proof.
  induction s as [|c s IH]; simpl; [done|]. destruct (cut_last d s) as [[x y]|].
  - destruct IH as [-> Hy]. done.
  - destruct (is_char d c) eqn:E; [by apply is_char_true in E as <-|].
    rewrite has_char_false in *. simpl. by rewrite E, IH.
Qed.

Lemma cut_last_app d x y : has_char d y = false → cut_last d (x +:+ String d y) = Some (x, y).
Proof.
  intros Hy. assert (cut_last d y = None) as Hn.
  { pose proof (cut_last_spec d y) as Hs. destruct (cut_last d y) as [[a b]|]; [|done].
    destruct Hs as [-> _]. rewrite has_char_false, str_forall_app in Hy. simpl in Hy.
    by rewrite is_char_refl, andb_false_r in Hy. }
  induction x as [|c x IH]; simpl; [by rewrite Hn, is_char_refl|].
  rewrite ?str_app_cons. simpl. by rewrite IH.
Qed.

(** * Lemmas on decimal text *)

Definition is_decimal (s : string) : bool := negb (str_empty s) && str_forall is_digit s.
(** [0|[1-9][0-9]*] *)
Definition canonical_decimal (s : string) : bool :=
  is_decimal s && match s with String c (String _ _) => negb (is_char "0" c) | _ => true end.

Lemma digit_code c : is_digit c = true → (48 ≤ code c ≤ 57)%N.
Proof. unfold is_digit, between. intros [?%N.leb_le ?%N.leb_le]%andb_true_iff. lia. Qed.

Lemma pretty_digit c : is_digit c = true → pretty_N_char (code c - 48) = c.
Proof. by destruct c as [[] [] [] [] [] [] [] []]. Qed.

Lemma digit_pretty n : (n < 10)%N →
  is_digit (pretty_N_char n) = true ∧ code (pretty_N_char n) = (48 + n)%N.
Proof.
  intros Hn. assert (n = 0 ∨ n = 1 ∨ n = 2 ∨ n = 3 ∨ n = 4 ∨ n = 5 ∨ n = 6 ∨ n = 7
    ∨ n = 8 ∨ n = 9)%N as Hc by lia. by destruct_or!; subst.
Qed.

Lemma pretty_go_int acc a s :
  str_forall is_digit a = true → (0 < acc)%N →
  pretty_N_go (int_digits acc a) s = pretty_N_go acc (a +:+ s).
Proof.
  revert acc. induction a as [|c a IH]; intros acc; [done|].
  simpl. intros [Hc Ha]%andb_true_iff Hacc. apply digit_code in Hc as Hr.
  rewrite IH by (done || lia). rewrite pretty_N_go_step by lia.
  rewrite ?str_app_cons. f_equal.
  - rewrite N.add_comm, N.div_add by lia. rewrite N.div_small by lia. lia.
  - f_equal. rewrite N.add_comm, N.Div0.mod_add, N.mod_small by lia. by apply pretty_digit.
Qed.

Lemma int_pretty_go n s : int_digits 0 (pretty_N_go n s) = int_digits n s.
Proof.
  revert s. induction (N.lt_wf_0 n) as [n _ IH]; intros s.
  destruct (decide (n = 0)%N) as [->|Hn]; [by rewrite pretty_N_go_0|].
  rewrite pretty_N_go_step by lia. rewrite IH by (apply N.div_lt; lia). simpl.
  pose proof (N.mod_lt n 10 ltac:(done)) as Hm. destruct (digit_pretty _ Hm) as [_ ->].
  f_equal. pose proof (N.div_mod' n 10) as He. clear IH Hn. generalize dependent (n mod 10)%N. intros m. generalize (n / 10)%N. intros. lia.
Qed.

Lemma int_of_str n : (0 ≤ n)%Z → int_of (str_Z n) = n.
Proof.
  unfold int_of, str_Z. destruct n as [|p|p]; [done| |lia]. intros _.
  change (pretty (Z.pos p)) with (pretty_N_go (N.pos p) ""). by rewrite int_pretty_go.
Qed.

Lemma str_int_of s : canonical_decimal s = true → str_Z (int_of s) = s.
Proof.
  unfold canonical_decimal, is_decimal. intros [[Hne Hd]%andb_true_iff Hz]%andb_true_iff.
  destruct s as [|c s]; [done|]. simpl in Hd. apply andb_true_iff in Hd as [Hc Hs].
  destruct (decide (c = "0"%char)) as [->|H0].
  { destruct s; [done|]. by rewrite is_char_refl in Hz. }
  assert (0 < code c - 48)%N as Hpos.
  { apply digit_code in Hc as ?. assert (code c ≠ 48)%N; [|lia].
    intros E. apply H0. rewrite <-(ascii_N_embedding c). unfold code in E. by rewrite E. }
  unfold int_of, str_Z. cbn [int_digits]. rewrite N.mul_0_l, N.add_0_l.
  assert (∀ acc a, (0 < acc → 0 < int_digits acc a)%N) as Hp.
  { intros acc a. revert acc. induction a; simpl; [done|]. intros acc ?. apply IHa. lia. }
  specialize (Hp (code c - 48) s Hpos)%N.
  destruct (int_digits (code c - 48) s) as [|p] eqn:E; [lia|].
  change (pretty (Z.of_N (N.pos p))) with (pretty_N_go (N.pos p) "").
  rewrite <-E, pretty_go_int by done. rewrite str_app_nil_r.
  rewrite pretty_N_go_step by lia. rewrite N.div_small, N.mod_small
    by (apply digit_code in Hc; lia). by rewrite pretty_N_go_0, pretty_digit.
Qed.

Lemma pretty_go_digits n s :
  str_forall is_digit s = true → str_forall is_digit (pretty_N_go n s) = true.
Proof.
  revert s. induction (N.lt_wf_0 n) as [n _ IH]; intros s Hs.
  destruct (decide (n = 0)%N) as [->|Hn]; [by rewrite pretty_N_go_0|].
  rewrite pretty_N_go_step by lia. apply IH; [apply N.div_lt; lia|]. simpl.
  pose proof (N.mod_lt n 10 ltac:(done)) as Hm. destruct (digit_pretty _ Hm) as [-> _]. done.
Qed.

Lemma pretty_go_head n s : (0 < n)%N →
  ∃ c t, pretty_N_go n s = String c t ∧ c ≠ "0"%char.
Proof.
  revert s. induction (N.lt_wf_0 n) as [n _ IH]; intros s Hn.
  rewrite pretty_N_go_step by lia.
  destruct (decide (n < 10)%N) as [Hs|Hs].
  - rewrite N.div_small, N.mod_small by done. rewrite pretty_N_go_0.
    eexists _, _. split; [done|]. intros E. destruct (digit_pretty _ Hs) as [_ Hc].
    rewrite E in Hc. change (code "0") with 48%N in Hc. lia.
  - apply IH; [apply N.div_lt; lia|]. apply N.div_str_pos. lia.
Qed.

Lemma str_Z_canonical n : (0 ≤ n)%Z → canonical_decimal (str_Z n) = true.
Proof.
  unfold str_Z. destruct n as [|p|p]; [done| |lia]. intros _.
  change (pretty (Z.pos p)) with (pretty_N_go (N.pos p) "").
  pose proof (pretty_go_digits (N.pos p) "" eq_refl) as Hd.
  destruct (pretty_go_head (N.pos p) "" ltac:(lia)) as (c & t & E & Hc).
  unfold canonical_decimal, is_decimal. rewrite Hd, E. simpl. destruct t; [done|].
  apply negb_true_iff. destruct (is_char "0" c) eqn:Ec; [|done].
  apply is_char_true in Ec. by subst.
Qed.

Lemma int_digits_lower acc s :
  str_forall is_digit s = true → (acc * 10 ^ N.of_nat (String.length s) ≤ int_digits acc s)%N.
Proof.
  revert acc. induction s as [|c s IH]; intros acc; [simpl; lia|].
  cbn [str_forall String.length int_digits]. intros [Hc Hs]%andb_true_iff.
  specialize (IH (acc * 10 + (code c - 48))%N Hs).
  rewrite Nat2N.inj_succ, N.pow_succ_r' by lia. nia.
Qed.

Lemma str_Z_length n : (0 ≤ n < 10 ^ 19)%Z → (String.length (str_Z n) ≤ 19)%nat.
Proof.
  intros [H0 Hn]. pose proof (str_Z_canonical n H0) as Hc. pose proof (int_of_str n H0) as Hi.
  unfold canonical_decimal, is_decimal in Hc.
  destruct (str_Z n) as [|c s] eqn:E; [simpl; lia|].
  apply andb_true_iff in Hc as [[_ Hd]%andb_true_iff Hz].
  destruct s as [|c' s']; [simpl; lia|].
  cbn [str_forall] in Hd. apply andb_true_iff in Hd as [Hc Hs].
  assert (code c ≠ 48)%N as H48.
  { intros E'. apply negb_true_iff, not_true_iff_false in Hz. apply Hz, is_char_true.
    rewrite <-(ascii_N_embedding c). unfold code in E'. by rewrite E'. }
  apply digit_code in Hc.
  pose proof (int_digits_lower (code c - 48) (String c' s') Hs) as Hlow.
  unfold int_of in Hi. cbn [int_digits] in Hi, Hlow. rewrite N.mul_0_l, N.add_0_l in Hi.
  set (len := String.length (String c' s')) in *.
  change (String.length (String c (String c' s'))) with (S len).
  destruct (decide (len ≤ 18)%nat) as [?|Hbig]; [lia|]. exfalso.
  assert (10 ^ 19 ≤ 10 ^ N.of_nat len)%N by (apply N.pow_le_mono_r; lia).
  change (10 ^ 19)%Z with 10000000000000000000%Z in *.
  change (10 ^ 19)%N with 10000000000000000000%N in *. nia.
Qed.

(** * ASCII texts: a character is a code point *)

Lemma code_points_ascii s :
  is_ascii s = true → code_points s = map (λ c, String c "") (String.list_ascii_of_string s).
Proof.
  unfold is_ascii. induction s as [|c s IH]; [done|]. cbn [str_forall code_points].
  intros [Hc Hs]%andb_true_iff. rewrite IH by done.
  destruct s as [|d s]; [done|]. cbn [String.list_ascii_of_string map] in *.
  cbn [str_forall] in Hs. apply andb_true_iff in Hs as [Hd _].
  assert (between 128 191 d = false) as ->; [|done].
  unfold is_ascii_char, between in *. apply N.ltb_lt in Hd. apply andb_false_iff. left. apply N.leb_gt. lia.
Qed.

Lemma concat_chars s :
  String.concat "" (map (λ c, String c "") (String.list_ascii_of_string s)) = s.
Proof. induction s as [|c s IH]; [done|]. cbn [String.list_ascii_of_string map]. rewrite concat_cons, IH. done. Qed.

Lemma str_len_ascii s : is_ascii s = true → str_len s = String.length s.
Proof.
  intros Ha. unfold str_len. rewrite code_points_ascii, length_map by done. clear Ha.
  induction s as [|c s IH]; [done|]. cbn. by rewrite IH.
Qed.

Lemma ord_ascii c : is_ascii_char c = true → (ord (String c "") < 128)%N.
Proof. unfold is_ascii_char, ord. by intros Hc%N.ltb_lt. Qed.

Lemma has_surrogate_ascii s : is_ascii s = true → has_surrogate s = false.
Proof.
  intros Ha. unfold has_surrogate. rewrite code_points_ascii by done. unfold is_ascii in Ha.
  induction s as [|c s IH]; [done|].
  cbn [map existsb String.list_ascii_of_string str_forall] in *. apply andb_true_iff in Ha as [Hc Hs].
  rewrite IH by done. apply ord_ascii in Hc. rewrite orb_false_r. apply andb_false_iff. left.
  apply N.leb_gt. lia.
Qed.
