(* ===== verification/TextSearch.v ===== *)
(** Searching and cutting text by a substring: [str.find], [partition],
    [count], [replace], [endswith], [removesuffix], and stripping one
    character.  Texts are UTF-8 bytes, and no code point starts inside another,
    so byte positions and code point positions name the same cuts. *)
From S2P Require Import Prelude PyText.
From Stdlib Require Import Ascii.

(** [s.partition(needle)] when [needle] occurs, otherwise nothing. *)
Fixpoint cut_string (needle s : string) : option (string * string) :=
  if String.prefix needle s then Some ("", str_drop (String.length needle) s)
  else match s with
       | EmptyString => None
       | String c s =>
           match cut_string needle s with
           | Some (a, b) => Some (String c a, b)
           | None => None
           end
       end.

(** [s.count(needle)] for a non-empty needle: [skip] bytes belong to the last
    occurrence. *)
Fixpoint count_from (needle : string) (skip : nat) (s : string) : nat :=
  match s with
  | EmptyString => 0
  | String _ s' =>
      match skip with
      | S skip => count_from needle skip s'
      | O => if String.prefix needle s then S (count_from needle (String.length needle - 1) s')
             else count_from needle 0 s'
      end
  end.
Definition count_sub (needle s : string) : nat := count_from needle 0 s.

(** [s.replace(needle, by)] for a non-empty needle. *)
Fixpoint replace_from (needle by_ : string) (skip : nat) (s : string) : string :=
  match s with
  | EmptyString => ""
  | String c s' =>
      match skip with
      | S skip => replace_from needle by_ skip s'
      | O => if String.prefix needle s
             then by_ +:+ replace_from needle by_ (String.length needle - 1) s'
             else String c (replace_from needle by_ 0 s')
      end
  end.
Definition replace_sub (needle by_ s : string) : string := replace_from needle by_ 0 s.

(** [s.endswith(p)], [s.removesuffix(p)] *)
Definition endswith (p s : string) : bool :=
  (String.length p <=? String.length s)%nat
  && String.eqb (str_drop (String.length s - String.length p) s) p.
Fixpoint str_take (n : nat) (s : string) : string :=
  match n, s with
  | S n, String c s => String c (str_take n s)
  | _, _ => ""
  end.
Definition removesuffix (p s : string) : string :=
  if endswith p s then str_take (String.length s - String.length p) s else s.

(** [s.lstrip(c)] and [s.rstrip(c)] for one character *)
Fixpoint lstrip_char (c : ascii) (s : string) : string :=
  match s with
  | String d rest => if is_char c d then lstrip_char c rest else s
  | EmptyString => ""
  end.
Fixpoint rstrip_char (c : ascii) (s : string) : string :=
  match s with
  | EmptyString => ""
  | String d s =>
      match rstrip_char c s with
      | EmptyString => if is_char c d then "" else String d ""
      | rest => String d rest
      end
  end.

(** * Lemmas *)

Lemma prefix_app p s : String.prefix p (p +:+ s) = true.
Proof.
  induction p as [|c p IH]; [by destruct s|]. rewrite str_app_cons. cbn [String.prefix].
  by destruct (ascii_dec c c).
Qed.

Lemma str_drop_app p s : str_drop (String.length p) (p +:+ s) = s.
Proof. induction p as [|c p IH]; [done|]. rewrite str_app_cons. exact IH. Qed.

Lemma prefix_drop p s : String.prefix p s = true → s = p +:+ str_drop (String.length p) s.
Proof.
  revert s. induction p as [|c p IH]; intros s; [by destruct s|].
  destruct s as [|d s]; [done|]. cbn [String.prefix]. destruct (ascii_dec c d) as [->|]; [|done].
  intros Hp. rewrite str_app_cons. cbn. f_equal. by apply IH.
Qed.

Lemma cut_string_spec needle s a b :
  cut_string needle s = Some (a, b) → s = a +:+ needle +:+ b.
Proof.
  revert a. induction s as [|c s IH]; intros a; cbn [cut_string].
  - destruct (String.prefix needle "") eqn:E; [|done]. intros [= <- <-].
    by rewrite <-(prefix_drop _ _ E).
  - destruct (String.prefix needle (String c s)) eqn:E.
    + intros [= <- <-]. exact (prefix_drop _ _ E).
    + destruct (cut_string needle s) as [[a' b']|]; [|done]. intros [= <- <-].
      rewrite str_app_cons. f_equal. by apply IH.
Qed.

Lemma cut_string_None needle s : cut_string needle s = None ↔ contains needle s = false.
Proof.
  induction s as [|c s IH]; cbn [cut_string contains].
  - by destruct (String.prefix needle "").
  - destruct (String.prefix needle (String c s)); [done|]. cbn [orb]. rewrite <-IH.
    by destruct (cut_string needle s) as [[]|].
Qed.

(** A needle without the character [d] occurs on one side of any [d]. *)
Lemma prefix_sep d needle a b :
  has_char d needle = false → needle ≠ "" →
  String.prefix needle (a +:+ String d b) = String.prefix needle a.
Proof.
  intros Hd%has_char_false Hne. clear Hne. revert a.
  induction needle as [|c needle IH]; intros a; [by destruct a|].
  cbn [str_forall] in Hd. apply andb_true_iff in Hd as [Hc Hd].
  destruct a as [|x a].
  - cbn [String.prefix]. change ("" +:+ String d b) with (String d b). cbn [String.prefix].
    destruct (ascii_dec c d) as [->|]; [|done]. by rewrite is_char_refl in Hc.
  - rewrite str_app_cons. cbn [String.prefix]. destruct (ascii_dec c x); [|done]. by apply IH.
Qed.

Section separated.
Context (d : ascii) (needle : string).
Hypothesis (Hd : has_char d needle = false) (Hne : needle ≠ "").

Lemma contains_sep a b : contains needle (a +:+ String d b) = contains needle a || contains needle b.
Proof.
  induction a as [|c a IH].
  - change ("" +:+ String d b) with (String d b). cbn [contains].
    pose proof (prefix_sep d needle "" b Hd Hne) as E.
    change ("" +:+ String d b) with (String d b) in E. rewrite E. by destruct needle.
  - rewrite str_app_cons. cbn [contains]. rewrite <-str_app_cons, (prefix_sep _ _ (String c a)) by done.
    by rewrite IH, orb_assoc.
Qed.

Lemma count_from_skip k a s : count_from needle (String.length a + k) (a +:+ s) = count_from needle k s.
Proof. induction a as [|c a IH]; [done|]. rewrite str_app_cons. exact IH. Qed.

Lemma count_sub_none s : contains needle s = false → count_sub needle s = 0%nat.
Proof.
  unfold count_sub. induction s as [|c s IH]; [done|]. cbn [contains count_from].
  intros [-> Hs]%orb_false_iff. by apply IH.
Qed.

Lemma count_sub_here s : count_sub needle (needle +:+ s) = S (count_sub needle s).
Proof.
  unfold count_sub. destruct needle as [|c n] eqn:E; [done|]. rewrite str_app_cons.
  cbn [count_from]. rewrite <-str_app_cons, prefix_app. f_equal. cbn [String.length].
  rewrite Nat.sub_succ, Nat.sub_0_r. rewrite <-E.
  pose proof (count_from_skip 0 n s) as Hs. by rewrite Nat.add_0_r in Hs.
Qed.

Lemma count_sub_before a s :
  (∀ a1 a2, a = a1 +:+ a2 → a2 ≠ "" → String.prefix needle (a2 +:+ s) = false) →
  count_sub needle (a +:+ s) = count_sub needle s.
Proof.
  unfold count_sub. induction a as [|c a IH]; [done|]. intros Ha. rewrite str_app_cons. cbn [count_from].
  rewrite <-str_app_cons, (Ha "" (String c a)) by done. apply IH. intros a1 a2 -> Hn.
  by apply (Ha (String c a1) a2).
Qed.

Lemma cut_string_before a s :
  (∀ a1 a2, a = a1 +:+ a2 → a2 ≠ "" → String.prefix needle (a2 +:+ s) = false) →
  cut_string needle (a +:+ s) =
    match cut_string needle s with Some (x, y) => Some (a +:+ x, y) | None => None end.
Proof.
  induction a as [|c a IH]; intros Ha.
  - change ("" +:+ s) with s. by destruct (cut_string needle s) as [[]|].
  - rewrite str_app_cons. cbn [cut_string]. rewrite <-str_app_cons, (Ha "" (String c a)) by done.
    rewrite IH; [by destruct (cut_string needle s) as [[]|]|].
    intros a1 a2 -> Hn. by apply (Ha (String c a1) a2).
Qed.

Lemma cut_string_here s : cut_string needle (needle +:+ s) = Some ("", s).
Proof.
  destruct (needle +:+ s) as [|c t] eqn:E; cbn [cut_string]; rewrite <-E, prefix_app, str_drop_app; done.
Qed.

(** Nothing of [a ++ d] starts an occurrence, when [a] holds none. *)
Lemma contains_app_r a1 a2 : contains needle a2 = true → contains needle (a1 +:+ a2) = true.
Proof.
  intros Ha. induction a1 as [|c a1 IH]; [done|]. rewrite str_app_cons. cbn [contains].
  by rewrite IH, orb_true_r.
Qed.

Lemma contains_prefix s : String.prefix needle s = true → contains needle s = true.
Proof. intros Hp. by destruct s; cbn [contains]; rewrite Hp. Qed.

Lemma no_prefix_sep a s a1 a2 :
  contains needle a = false → a +:+ String d "" = a1 +:+ a2 → a2 ≠ "" →
  String.prefix needle (a2 +:+ s) = false.
Proof.
  intros Hc He Hn. destruct (cut_last d (a1 +:+ a2)) as [[x y]|] eqn:Hl.
  - assert (∃ b, a2 = b +:+ String d "" ∧ a = a1 +:+ b) as (b & -> & ->).
    { clear Hl Hc. revert a He. induction a1 as [|c a1 IH]; intros a He; [by exists a|].
      rewrite str_app_cons in He. destruct a as [|c' a].
      - simpl in He. injection He as <- He. symmetry in He.
        by apply str_app_nil_inv in He as [_ ->].
      - rewrite str_app_cons in He. injection He as -> He.
        destruct (IH a He) as (b & ? & ->). by exists b. }
    rewrite <-str_app_assoc. change (String d "" +:+ s) with (String d s).
    rewrite (prefix_sep d needle b s Hd Hne).
    destruct (String.prefix needle b) eqn:Hb; [|done].
    by rewrite (contains_app_r a1 b (contains_prefix _ Hb)) in Hc.
  - rewrite <-He in Hl. by rewrite (cut_last_app d a "" eq_refl) in Hl.
Qed.

Lemma count_sub_sep a s :
  contains needle a = false → count_sub needle (a +:+ String d s) = count_sub needle s.
Proof.
  intros Ha. change (String d s) with (String d "" +:+ s). rewrite str_app_assoc.
  apply count_sub_before. intros a1 a2. by apply no_prefix_sep.
Qed.

Lemma cut_string_sep a s :
  contains needle a = false →
  cut_string needle (a +:+ String d s) =
    match cut_string needle s with Some (x, y) => Some (a +:+ String d x, y) | None => None end.
Proof.
  intros Ha. change (String d s) with (String d "" +:+ s). rewrite str_app_assoc.
  rewrite cut_string_before.
  - destruct (cut_string needle s) as [[x y]|]; [|done]. by rewrite <-str_app_assoc.
  - intros a1 a2. by apply no_prefix_sep.
Qed.
End separated.

Lemma lstrip_rstrip_nil c : lstrip_char c "" = "" ∧ rstrip_char c "" = "".
Proof. done. Qed.

Lemma rstrip_char_snoc c s : rstrip_char c (s +:+ String c "") = rstrip_char c s.
Proof.
  induction s as [|d s IH].
  - change ("" +:+ String c "") with (String c ""). cbn [rstrip_char]. by rewrite is_char_refl.
  - rewrite str_app_cons. cbn [rstrip_char]. by rewrite IH.
Qed.
Lemma rstrip_char_id c a d : is_char c d = false → rstrip_char c (a +:+ String d "") = a +:+ String d "".
Proof.
  intros Hd. induction a as [|x a IH].
  - change ("" +:+ String d "") with (String d ""). cbn [rstrip_char]. by rewrite Hd.
  - rewrite str_app_cons. cbn [rstrip_char]. rewrite IH. by destruct (a +:+ String d "") eqn:E; [destruct a|].
Qed.
Lemma str_snoc c s : s ≠ "" → ∃ a d, s = a +:+ String d "" ∧ (has_char c s = false → is_char c d = false).
Proof.
  induction s as [|x s IH]; [done|]. intros _. destruct s as [|y s].
  - exists "", x. split; [done|]. intros Hs%has_char_false. cbn in Hs.
    apply andb_true_iff in Hs as [Hs _]. by apply negb_true_iff.
  - destruct IH as (a & d & E & Hd); [done|]. exists (String x a), d. rewrite E at 1. split; [done|].
    intros Hs%has_char_false. apply Hd, has_char_false. cbn [str_forall] in Hs |- *.
    by apply andb_true_iff in Hs as [_ Hs].
Qed.
Lemma endswith_app a p : endswith p (a +:+ p) = true.
Proof.
  unfold endswith. rewrite str_length_app, andb_true_iff, Nat.leb_le, String.eqb_eq.
  split; [lia|]. rewrite Nat.add_sub. apply str_drop_app.
Qed.

Lemma str_drop_length n s : String.length (str_drop n s) = (String.length s - n)%nat.
Proof. revert s. induction n as [|n IH]; intros [|c s]; try done. apply IH. Qed.

Lemma str_take_drop n s : str_take n s +:+ str_drop n s = s.
Proof.
  revert s. induction n as [|n IH]; intros [|c s]; try done. cbn. rewrite str_app_cons. by rewrite IH.
Qed.

Lemma str_take_app a b : str_take (String.length a) (a +:+ b) = a.
Proof.
  induction a as [|c a IH]; [by destruct b|]. rewrite str_app_cons. cbn. by rewrite IH.
Qed.

Lemma endswith_inv p s : endswith p s = true → ∃ a, s = a +:+ p.
Proof.
  unfold endswith. rewrite andb_true_iff, String.eqb_eq. intros [_ He].
  exists (str_take (String.length s - String.length p) s). rewrite <-He at 2.
  by rewrite str_take_drop.
Qed.

Lemma removesuffix_app a p : removesuffix p (a +:+ p) = a.
Proof. unfold removesuffix. by rewrite endswith_app, str_length_app, Nat.add_sub, str_take_app. Qed.
