(* ===== verification/Posix.v ===== *)
(** [posixpath]: the pure path functions the code calls, with the laws its
    checks rely on: a normalised absolute path is a slash (or two) followed by
    clean components, and joining a clean relative path to it stays normalised
    and below it. *)
From S2P Require Import Prelude PyText TextSearch.
From Stdlib Require Import Ascii.

(** [posixpath.isabs] *)
Definition isabs (s : string) : bool := String.prefix "/" s.

(** [posixpath.join(a, b)] *)
Definition pjoin (a b : string) : string :=
  if isabs b then b
  else if str_empty a || endswith "/" a then a +:+ b
  else a +:+ "/" +:+ b.

(** [posixpath.join(a, *parts)] *)
Definition pjoins (a : string) (parts : list string) : string := foldl pjoin a parts.

(** The loop of [posixpath.normpath] over the components; [kept] is reversed. *)
Fixpoint norm_loop (rooted : bool) (comps kept : list string) : list string :=
  match comps with
  | [] => rev kept
  | comp :: comps =>
      if str_empty comp || String.eqb comp "." then norm_loop rooted comps kept
      else if negb (String.eqb comp "..")
              || (negb rooted && match kept with [] => true | _ => false end)
              || match kept with last :: _ => String.eqb last ".." | [] => false end
      then norm_loop rooted comps (comp :: kept)
      else norm_loop rooted comps (tail kept)
  end.

(** The leading slashes kept: two exactly when there are exactly two. *)
Definition root_of (path : string) : string :=
  if String.prefix "/" path then
    if String.prefix "//" path && negb (String.prefix "///" path) then "//" else "/"
  else "".

(** [posixpath.normpath] *)
Definition normpath (path : string) : string :=
  if str_empty path then "."
  else
    let root := root_of path in
    let path := root +:+ join "/" (norm_loop (negb (str_empty root)) (split_on "/" path) []) in
    if str_empty path then "." else path.

(** [posixpath.dirname]: the text before the last slash, without its trailing
    slashes unless it has nothing else. *)
Definition dirname (p : string) : string :=
  match cut_last "/" p with
  | None => ""
  | Some (head, _) =>
      let head := head +:+ "/" in
      if str_forall (is_char "/") head then head else rstrip_char "/" head
  end.

(** [posixpath.commonpath((a, b))]; it raises when one is absolute and the
    other is not. *)
Fixpoint common_prefix (a b : list string) : list string :=
  match a, b with
  | x :: a, y :: b => if String.eqb x y then x :: common_prefix a b else []
  | _, _ => []
  end.
Definition components (p : string) : list string :=
  filter (λ c, negb (str_empty c || String.eqb c ".")) (split_on "/" p).
Definition commonpath (a b : string) : py string :=
  _ ← raise_if (negb (Bool.eqb (isabs a) (isabs b))) "Can't mix absolute and relative paths";
  Ret ((if isabs a then "/" else "") +:+ join "/" (common_prefix (components a) (components b))).

(** [isabs(p) and normpath(p) == p], the test the records make. *)
Definition norm_abs (p : string) : bool := isabs p && bool_decide (normpath p = p).

(** * Normalised absolute paths *)

(** A component [normpath] keeps at the end of a rooted path. *)
Definition clean (c : string) : bool :=
  negb (str_empty c) && negb (has_char "/" c) && negb (mem c ["."; ".."]).

Definition clean_path (root : string) (parts : list string) : string := root +:+ join "/" parts.

Lemma norm_loop_clean rooted parts kept :
  forallb clean parts = true → norm_loop rooted parts kept = rev kept ++ parts.
Proof.
  revert kept. induction parts as [|c parts IH]; intros kept; cbn [forallb norm_loop].
  { by rewrite app_nil_r. }
  intros [Hc Hp]%andb_true_iff. unfold clean in Hc.
  apply andb_true_iff in Hc as [[Hc _]%andb_true_iff Hm].
  apply negb_true_iff in Hc as ->. apply negb_true_iff, bool_decide_eq_false in Hm.
  destruct (String.eqb_spec c ".") as [->|]; [set_solver|].
  destruct (String.eqb_spec c "..") as [->|]; [set_solver|].
  cbn [orb negb]. rewrite IH by done. cbn [rev]. by rewrite <-app_assoc.
Qed.

Lemma clean_split parts :
  parts ≠ [] → forallb clean parts = true → split_on "/" (join "/" parts) = parts.
Proof.
  intros Hne Hf. apply split_on_join; [done|]. apply Forall_forall. intros x Hx.
  rewrite forallb_forall in Hf. specialize (Hf x (proj1 (list_elem_of_In _ _) Hx)).
  unfold clean in Hf. by split_guard.
Qed.

Lemma join_head parts :
  parts ≠ [] → forallb clean parts = true →
  ∃ c t, join "/" parts = String c t ∧ is_char "/" c = false.
Proof.
  intros Hne Hf. destruct parts as [|p parts]; [done|]. cbn [forallb] in Hf.
  apply andb_true_iff in Hf as [Hp _]. unfold clean in Hp.
  apply andb_true_iff in Hp as [[He Hs]%andb_true_iff _].
  destruct p as [|c p]; [done|]. apply negb_true_iff, has_char_false in Hs.
  cbn [str_forall] in Hs. apply andb_true_iff in Hs as [Hs _]. apply negb_true_iff in Hs.
  destruct parts as [|q parts]; cbn [join]; rewrite ?str_app_cons; eauto.
Qed.

(** The absolute paths [normpath] leaves alone, decomposed. *)
Definition abs_parts (p : string) (parts : list string) : Prop :=
  forallb clean parts = true ∧ (p = clean_path "/" parts ∨ p = clean_path "//" parts).

Lemma normpath_clean root parts :
  (root = "/" ∨ root = "//") → forallb clean parts = true →
  normpath (clean_path root parts) = clean_path root parts ∧ isabs (clean_path root parts) = true.
Proof.
  intros Hr Hf. unfold clean_path.
  assert (root_of (root +:+ join "/" parts) = root) as Hroot.
  { destruct parts as [|p parts]; [by destruct Hr as [-> | ->]|].
    destruct (join_head (p :: parts)) as (c & t & -> & Hc); [done..|].
    destruct (ascii_dec "/" c) as [<-|]; [done|].
    destruct Hr as [-> | ->]; unfold root_of; rewrite !str_app_cons;
      change ("" +:+ String c t) with (String c t); cbn [String.prefix];
      destruct (ascii_dec "/" "/"); try done; destruct (ascii_dec "/" c); done. }
  assert (norm_loop true (split_on "/" (root +:+ join "/" parts)) [] = parts) as Hl.
  { assert (norm_loop true (split_on "/" (join "/" parts)) [] = parts) as Hl.
    { destruct parts as [|p parts]; [done|]. rewrite clean_split by done.
      by rewrite norm_loop_clean. }
    destruct Hr as [-> | ->]; rewrite !str_app_cons; exact Hl. }
  split; [|by destruct Hr as [-> | ->]; destruct (join "/" parts)].
  unfold normpath. rewrite Hroot.
  assert (negb (str_empty root) = true) as -> by by destruct Hr as [-> | ->].
  rewrite Hl. by destruct Hr as [-> | ->].
Qed.

Lemma norm_abs_clean p parts : abs_parts p parts → norm_abs p = true.
Proof.
  intros [Hf [-> | ->]]; unfold norm_abs;
    [destruct (normpath_clean "/" parts) as [-> ->]; auto
    |destruct (normpath_clean "//" parts) as [-> ->]; auto]; by rewrite bool_decide_true.
Qed.

Lemma norm_loop_is_clean comps kept :
  forallb clean kept = true → Forall (λ c, has_char "/" c = false) comps →
  forallb clean (norm_loop true comps kept) = true.
Proof.
  intros Hk Hc. revert kept Hk. induction Hc as [|c comps Hs Hc IH]; intros kept Hk; cbn [norm_loop].
  { rewrite forallb_forall in *. intros x Hx. apply Hk. by apply in_rev. }
  destruct (str_empty c || String.eqb c ".") eqn:E; [by apply IH|].
  apply orb_false_iff in E as [He Hd]. cbn [negb andb]. rewrite orb_false_r.
  assert (match kept with last :: _ => String.eqb last ".." | [] => false end = false) as ->.
  { destruct kept as [|k kept]; [done|]. cbn [forallb] in Hk. apply andb_true_iff in Hk as [Hk _].
    unfold clean in Hk. apply andb_true_iff in Hk as [_ Hm%negb_true_iff%bool_decide_eq_false].
    destruct (String.eqb_spec k ".."); [set_solver|done]. }
  rewrite orb_false_r. destruct (String.eqb_spec c "..") as [->|Hn]; cbn [negb]; apply IH.
  - destruct kept; [done|]. cbn [forallb tail] in *. by apply andb_true_iff in Hk as [_ ?].
  - cbn [forallb]. rewrite Hk, andb_true_r. unfold clean. rewrite He, Hs. cbn.
    apply negb_true_iff, bool_decide_eq_false. destruct (String.eqb_spec c "."); [done|]. set_solver.
Qed.

Lemma norm_abs_inv p : norm_abs p = true → ∃ parts, abs_parts p parts.
Proof.
  intros [Ha Hn%bool_decide_eq_true]%andb_true_iff. unfold normpath in Hn.
  destruct (str_empty p) eqn:He; [by destruct p|].
  assert (root_of p = "/" ∨ root_of p = "//") as Hr.
  { unfold root_of. unfold isabs in Ha. rewrite Ha.
    destruct (_ && _); auto. }
  assert (negb (str_empty (root_of p)) = true) as E by by destruct Hr as [-> | ->].
  rewrite E in Hn. exists (norm_loop true (split_on "/" p) []). split.
  { apply norm_loop_is_clean; [done|apply split_on_no_sep]. }
  destruct Hr as [Hr|Hr]; rewrite Hr in Hn; [left|right]; unfold clean_path; by rewrite <-Hn at 1.
Qed.

(** Joining clean components below a normalised absolute path other than a
    root. *)
Lemma join_snoc parts c : parts ≠ [] → join "/" (parts ++ [c]) = join "/" parts +:+ "/" +:+ c.
Proof.
  intros Hne. induction parts as [|y parts IH]; [done|]. destruct parts as [|z parts]; [done|].
  change (y +:+ "/" +:+ join "/" ((z :: parts) ++ [c]) = (y +:+ "/" +:+ join "/" (z :: parts)) +:+ "/" +:+ c).
  rewrite IH by done. by rewrite <-!str_app_assoc.
Qed.

Lemma join_last parts c : ∃ a, join "/" (parts ++ [c]) = a +:+ c.
Proof.
  destruct parts as [|p parts]; [by exists ""|]. exists (join "/" (p :: parts) +:+ "/").
  by rewrite join_snoc, <-str_app_assoc.
Qed.

Lemma not_endswith_slash a c : str_empty c = false → has_char "/" c = false → endswith "/" (a +:+ c) = false.
Proof.
  intros He Hs. destruct (endswith "/" (a +:+ c)) eqn:E; [|done].
  apply endswith_inv in E as [b E].
  assert (∃ l d, c = l +:+ String d "") as (l & d & ->).
  { clear -He. induction c as [|x c IH]; [done|]. destruct c as [|d c].
    - by exists "", x.
    - destruct IH as (l & d' & ->); [done|]. by exists (String x l), d'. }
  rewrite str_app_assoc in E. apply (f_equal String.length) in E as El.
  rewrite !str_length_app in El. cbn in El.
  apply str_app_inj_len in E as [_ [= ->]]; [|rewrite !str_length_app; lia].
  unfold has_char, str_exists in Hs. rewrite str_forall_app in Hs. cbn in Hs.
  by rewrite andb_false_r in Hs.
Qed.

Lemma clean_relative c : clean c = true → isabs c = false ∧ str_empty c = false ∧ has_char "/" c = false.
Proof.
  unfold clean. intros [[He%negb_true_iff Hs%negb_true_iff]%andb_true_iff _]%andb_true_iff.
  split_and!; [|done|done]. destruct c as [|x c]; [done|]. apply has_char_false in Hs.
  cbn [str_forall] in Hs. apply andb_true_iff in Hs as [Hs%negb_true_iff _].
  unfold isabs. cbn [String.prefix]. by destruct (ascii_dec "/" x) as [<-|].
Qed.

Lemma pjoin_clean root parts c :
  parts ≠ [] → forallb clean parts = true → clean c = true →
  pjoin (clean_path root parts) c = clean_path root (parts ++ [c]).
Proof.
  intros Hne Hf Hc. unfold pjoin. destruct (clean_relative c Hc) as (-> & _ & _).
  destruct (join_head parts) as (x & t & Hj & _); [done..|].
  assert (str_empty (clean_path root parts) = false) as ->.
  { unfold clean_path. rewrite Hj. by destruct root. }
  assert (endswith "/" (clean_path root parts) = false) as ->.
  { destruct parts as [|last l _] using rev_ind; [done|].
    rewrite forallb_app in Hf. apply andb_true_iff in Hf as [_ Hf]. cbn in Hf.
    apply andb_true_iff in Hf as [(_ & He & Hs)%clean_relative _].
    destruct (join_last l last) as [a Ha]. unfold clean_path. rewrite Ha, str_app_assoc.
    by apply not_endswith_slash. }
  cbn [orb]. unfold clean_path. by rewrite <-str_app_assoc, join_snoc.
Qed.
