(* ===== verification/Encodings.v ===== *)
(** Encodings of bytes, executable: SHA-256 ([hashlib.sha256(data).hexdigest()])
    and [base64].  Words are [N] below [2^32]; additions wrap. *)
From S2P Require Import Prelude PyText.
From Stdlib Require Import Ascii ZArith Lia.
Local Open Scope N_scope.

Definition w32 (n : N) : N := N.land n 4294967295.
Definition add32 (a b : N) : N := w32 (a + b).
Definition rotr (k n : N) : N := N.lor (N.shiftr n k) (w32 (N.shiftl n (32 - k))).
Definition not32 (n : N) : N := N.lxor n 4294967295.

Definition big_sigma0 (x : N) : N := N.lxor (N.lxor (rotr 2 x) (rotr 13 x)) (rotr 22 x).
Definition big_sigma1 (x : N) : N := N.lxor (N.lxor (rotr 6 x) (rotr 11 x)) (rotr 25 x).
Definition small_sigma0 (x : N) : N := N.lxor (N.lxor (rotr 7 x) (rotr 18 x)) (N.shiftr x 3).
Definition small_sigma1 (x : N) : N := N.lxor (N.lxor (rotr 17 x) (rotr 19 x)) (N.shiftr x 10).
Definition choice (x y z : N) : N := N.lxor (N.land x y) (N.land (not32 x) z).
Definition majority (x y z : N) : N := N.lxor (N.lxor (N.land x y) (N.land x z)) (N.land y z).

(** The constants of the standard are computed, not listed: the fractional
    bits of the square and cube roots of the first primes. *)
Definition prime (n : N) : bool :=
  forallb (λ d, negb (n mod d =? 0)) (map N.of_nat (seq 2 (N.to_nat (N.sqrt n) - 1))).
Definition primes : list N := List.filter prime (map N.of_nat (seq 2 310)).

(** The integer cube root of [n], bit by bit from [2^bits]. *)
Fixpoint cube_root (bits : nat) (root n : N) : N :=
  match bits with
  | O => root
  | S bits =>
      let next := root + N.shiftl 1 (N.of_nat bits) in
      cube_root bits (if next * next * next <=? n then next else root) n
  end.
Definition round_constants : list N :=
  Eval vm_compute in map (λ p, w32 (cube_root 36 0 (N.shiftl p 96))) primes.
Definition root_words : list N :=
  Eval vm_compute in map (λ p, w32 (N.sqrt (N.shiftl p 64))) (take 8 primes).

Record hash_state := MkHash { ha : N; hb : N; hc : N; hd : N; he : N; hf : N; hg : N; hh : N }.

Definition initial_hash : hash_state :=
  let h i := nth i root_words 0 in
  MkHash (h 0%nat) (h 1%nat) (h 2%nat) (h 3%nat) (h 4%nat) (h 5%nat) (h 6%nat) (h 7%nat).

(** The message schedule: from the last 16 words, newest first. *)
Fixpoint schedule (rounds : nat) (window : list N) : list N :=
  match rounds with
  | O => []
  | S rounds =>
      let w i := nth i window 0 in
      let new := add32 (add32 (small_sigma1 (w 1%nat)) (w 6%nat))
                       (add32 (small_sigma0 (w 14%nat)) (w 15%nat)) in
      new :: schedule rounds (new :: take 15 window)
  end.

Definition round (s : hash_state) (kw : N * N) : hash_state :=
  let t1 := add32 (add32 (add32 (hh s) (big_sigma1 (he s))) (choice (he s) (hf s) (hg s)))
                  (add32 kw.1 kw.2) in
  let t2 := add32 (big_sigma0 (ha s)) (majority (ha s) (hb s) (hc s)) in
  MkHash (add32 t1 t2) (ha s) (hb s) (hc s) (add32 (hd s) t1) (he s) (hf s) (hg s).

Definition compress (s : hash_state) (block : list N) : hash_state :=
  let words := block ++ schedule 48 (rev block) in
  let r := foldl round s (zip round_constants words) in
  MkHash (add32 (ha s) (ha r)) (add32 (hb s) (hb r)) (add32 (hc s) (hc r)) (add32 (hd s) (hd r))
         (add32 (he s) (he r)) (add32 (hf s) (hf r)) (add32 (hg s) (hg r)) (add32 (hh s) (hh r)).

(** The big-endian words of a byte string of a multiple of four bytes. *)
Fixpoint words (s : string) : list N :=
  match s with
  | String a (String b (String c (String d s))) =>
      (((code a * 256 + code b) * 256 + code c) * 256 + code d) :: words s
  | _ => []
  end.

Fixpoint repeat_byte (n : nat) (c : ascii) : string :=
  match n with O => "" | S n => String c (repeat_byte n c) end.

Definition padding (len : nat) : string :=
  let zeros := ((119 - len mod 64) mod 64)%nat in
  String "128" (repeat_byte zeros "000") +:+ to_bytes8 (Z.of_nat len * 8).

Fixpoint compress_blocks (fuel : nat) (s : hash_state) (ws : list N) : hash_state :=
  match fuel, ws with
  | S fuel, _ :: _ => compress_blocks fuel (compress s (take 16 ws)) (drop 16 ws)
  | _, _ => s
  end.

Definition hash_words (s : hash_state) : list N :=
  [ha s; hb s; hc s; hd s; he s; hf s; hg s; hh s].

Definition word_hex (w : N) : string := hex_pad 8 w "".

(** [hashlib.sha256(data).hexdigest()] *)
Definition sha256_hexdigest (data : bytes) : string :=
  let ws := words (data +:+ padding (String.length data)) in
  String.concat "" (map word_hex (hash_words (compress_blocks (length ws) initial_hash ws))).

Example sha256_abc :
  sha256_hexdigest "abc" = "ba7816bf8f01cfea414140de5dae2223b00361a396177a9cb410ff61f20015ad".
Proof. vm_compute. reflexivity. Qed.

Example sha256_two_blocks :
  sha256_hexdigest "abcdbcdecdefdefgefghfghighijhijkijkljklmklmnlmnomnopnopq"
  = "248d6a61d20638b8e5c026930c3e6039a33ce45964ff2167f6ecedd419db06c1".
Proof. vm_compute. reflexivity. Qed.

(** Whatever the data, the digest is 64 lower-case hexadecimal digits. *)
Lemma hex_pad_hex d n acc :
  str_forall is_hex acc = true → str_forall is_hex (hex_pad d n acc) = true.
Proof.
  revert n acc. induction d as [|d IH]; intros n acc Hacc; [done|]. simpl. apply IH. simpl.
  rewrite Hacc, andb_true_r.
  assert (n mod 16 < 16) as Hm by (by apply N.mod_lt). revert Hm. generalize (n mod 16). intros m Hm.
  assert (m = 0 ∨ m = 1 ∨ m = 2 ∨ m = 3 ∨ m = 4 ∨ m = 5 ∨ m = 6 ∨ m = 7 ∨ m = 8 ∨ m = 9
    ∨ m = 10 ∨ m = 11 ∨ m = 12 ∨ m = 13 ∨ m = 14 ∨ m = 15) as Hc by lia.
  by destruct_or!; subst.
Qed.

Lemma hex_pad_length d n acc :
  String.length (hex_pad d n acc) = (d + String.length acc)%nat.
Proof. revert n acc. induction d as [|d IH]; intros n acc; simpl; [done|]. rewrite IH. simpl. lia. Qed.

Lemma concat_hex ws :
  str_forall is_hex (String.concat "" (map word_hex ws)) = true ∧
  String.length (String.concat "" (map word_hex ws)) = (8 * length ws)%nat.
Proof.
  induction ws as [|w ws [IH1 IH2]]; [done|]. rewrite map_cons, concat_cons. split.
  - rewrite str_forall_app, IH1. unfold word_hex. by rewrite hex_pad_hex.
  - rewrite str_length_app, IH2. unfold word_hex. rewrite hex_pad_length. simpl. lia.
Qed.

Lemma sha256_hexdigest_hex data :
  str_forall is_hex (sha256_hexdigest data) = true ∧ String.length (sha256_hexdigest data) = 64%nat.
Proof. unfold sha256_hexdigest. cbv zeta. apply (concat_hex (hash_words _)). Qed.

#[global] Opaque sha256_hexdigest.

(** [base64.b64encode] and the strict [base64.b64decode(..., validate=True)]. *)

Definition b64_char (n : N) : ascii :=
  ascii_of_N (if n <? 26 then 65 + n
              else if n <? 52 then 71 + n
              else if n <? 62 then n - 4
              else if n =? 62 then 43 else 47).
Definition b64_value (c : ascii) : option N :=
  if is_upper c then Some (code c - 65)
  else if is_lower c then Some (code c - 71)
  else if is_digit c then Some (code c + 4)
  else if is_char "+" c then Some 62
  else if is_char "/" c then Some 63
  else None.

(** Three bytes at a time, four characters each; [=] pads the last group. *)
Fixpoint b64encode (s : bytes) : string :=
  match s with
  | EmptyString => ""
  | String a EmptyString =>
      String (b64_char (code a / 4)) (String (b64_char (code a mod 4 * 16)) "==")
  | String a (String b EmptyString) =>
      String (b64_char (code a / 4))
        (String (b64_char (code a mod 4 * 16 + code b / 16))
           (String (b64_char (code b mod 16 * 4)) "="))
  | String a (String b (String c rest)) =>
      String (b64_char (code a / 4))
        (String (b64_char (code a mod 4 * 16 + code b / 16))
           (String (b64_char (code b mod 16 * 4 + code c / 64))
              (String (b64_char (code c mod 64)) (b64encode rest))))
  end.

Definition byte_of (n : N) : ascii := ascii_of_N (n mod 256).

(** Padding ends the text; bits of an incomplete byte are ignored. *)
Fixpoint b64decode (s : string) : option bytes :=
  match s with
  | EmptyString => Some ""
  | String w (String x (String y (String z rest))) =>
      match b64_value w, b64_value x with
      | Some w, Some x =>
          let a := byte_of (w * 4 + x / 16) in
          if is_char "=" z then
            if negb (str_empty rest) then None
            else if is_char "=" y then Some (String a "")
            else match b64_value y with
                 | Some y => Some (String a (String (byte_of (x mod 16 * 16 + y / 4)) ""))
                 | None => None end
          else match b64_value y, b64_value z with
               | Some y, Some z =>
                   match b64decode rest with
                   | Some bytes =>
                       Some (String a (String (byte_of (x mod 16 * 16 + y / 4))
                                         (String (byte_of (y mod 4 * 64 + z)) bytes)))
                   | None => None
                   end
               | _, _ => None
               end
      | _, _ => None
      end
  | _ => None
  end.

Lemma b64_value_char n : n < 64 → b64_value (b64_char n) = Some n ∧ is_char "=" (b64_char n) = false.
Proof.
  intros Hn.
  assert (forallb (λ n, bool_decide (b64_value (b64_char (N.of_nat n)) = Some (N.of_nat n))
                        && negb (is_char "=" (b64_char (N.of_nat n)))) (seq 0 64) = true) as Ha
    by by vm_compute.
  rewrite forallb_forall in Ha. specialize (Ha (N.to_nat n)).
  rewrite N2Nat.id in Ha. assert (In (N.to_nat n) (seq 0 64)) as Hin by (apply in_seq; lia).
  specialize (Ha Hin). apply andb_true_iff in Ha as [Hv He]. apply bool_decide_eq_true in Hv. by apply negb_true_iff in He.
Qed.

Lemma code_lt c : code c < 256.
Proof. unfold code. apply N_ascii_bounded. Qed.

Lemma byte_of_code c n : n = code c → byte_of n = c.
Proof.
  intros ->. unfold byte_of. rewrite N.mod_small by apply code_lt. apply ascii_N_embedding.
Qed.

(** The arithmetic of regrouping bits. *)
Ltac bits_lia := intros; repeat split; zify; Z.to_euclidean_division_equations; lia.
Lemma sextets a b c :
  a < 256 → b < 256 → c < 256 →
  a / 4 < 64 ∧ a mod 4 * 16 + b / 16 < 64 ∧ b mod 16 * 4 + c / 64 < 64 ∧ c mod 64 < 64
  ∧ a mod 4 * 16 < 64 ∧ b mod 16 * 4 < 64.
Proof. bits_lia. Qed.
Lemma regroup a b c :
  b < 256 → c < 256 →
  a / 4 * 4 + (a mod 4 * 16 + b / 16) / 16 = a
  ∧ (a mod 4 * 16 + b / 16) mod 16 * 16 + (b mod 16 * 4 + c / 64) / 4 = b
  ∧ (b mod 16 * 4 + c / 64) mod 4 * 64 + c mod 64 = c.
Proof. bits_lia. Qed.
Lemma regroup_last a b :
  b < 256 → a / 4 * 4 + a mod 4 * 16 / 16 = a
  ∧ (a mod 4 * 16 + b / 16) mod 16 * 16 + b mod 16 * 4 / 4 = b.
Proof. bits_lia. Qed.

Lemma b64_roundtrip s : b64decode (b64encode s) = Some s.
Proof.
  assert (∀ n s, (String.length s < n)%nat → b64decode (b64encode s) = Some s) as Hn; [|by apply (Hn (S (String.length s))); lia].
  clear s. induction n as [|n IH]; intros s Hl; [lia|].
  assert (∀ x, x < 64 → b64_value (b64_char x) = Some x) as Hv by (intros; by apply b64_value_char).
  assert (∀ x, x < 64 → is_char "=" (b64_char x) = false) as Hp by (intros; by apply b64_value_char).
  destruct s as [|a [|b [|c rest]]]; [done|..]; cbn [b64encode b64decode].
  - destruct (sextets (code a) 0 0) as (? & ? & ? & ? & ? & ?); [apply code_lt|done|done|].
    rewrite !Hv by done. cbn [is_char Ascii.eqb Bool.eqb str_empty negb].
    destruct (regroup_last (code a) 0) as [E _]; [done|]. by rewrite (byte_of_code a _ E).
  - destruct (sextets (code a) (code b) 0) as (? & ? & ? & ? & ? & ?); [apply code_lt|apply code_lt|done|].
    rewrite !Hv, !Hp by done. cbn [is_char Ascii.eqb Bool.eqb str_empty negb].
    destruct (regroup_last (code a) (code b)) as [_ E]; [apply code_lt|].
    destruct (regroup (code a) (code b) 0) as [E' _]; [apply code_lt|done|].
    by rewrite (byte_of_code a _ E'), (byte_of_code b _ E).
  - destruct (sextets (code a) (code b) (code c)) as (? & ? & ? & ? & _ & _); [apply code_lt..|].
    rewrite !Hv, !Hp by done. rewrite IH by (cbn in Hl; lia).
    destruct (regroup (code a) (code b) (code c)) as (E1 & E2 & E3); [apply code_lt..|].
    by rewrite (byte_of_code a _ E1), (byte_of_code b _ E2), (byte_of_code c _ E3).
Qed.

Lemma b64_char_ascii n : n < 64 → is_ascii_char (b64_char n) = true.
Proof.
  intros Hn. unfold is_ascii_char, b64_char, code. apply N.ltb_lt.
  repeat case_match; rewrite ?N.ltb_lt, ?N.ltb_ge in *; rewrite N_ascii_embedding; lia.
Qed.

Lemma b64encode_shape s :
  is_ascii (b64encode s) = true ∧ (String.length (b64encode s) ≤ (String.length s + 2) / 3 * 4)%nat.
Proof.
  assert (∀ n s, (String.length s < n)%nat → is_ascii (b64encode s) = true
    ∧ (String.length (b64encode s) ≤ (String.length s + 2) / 3 * 4)%nat) as Hn;
    [|by apply (Hn (S (String.length s))); lia].
  clear s. induction n as [|n IH]; intros s Hl; [lia|].
  destruct s as [|a [|b [|c rest]]]; [by split|..]; cbn [b64encode String.length] in *; unfold is_ascii in *; cbn [str_forall].
  - destruct (sextets (code a) 0 0) as (? & ? & ? & ? & ? & ?); [apply code_lt|done|done|].
    rewrite !b64_char_ascii by done. done.
  - destruct (sextets (code a) (code b) 0) as (? & ? & ? & ? & ? & ?); [apply code_lt|apply code_lt|done|].
    rewrite !b64_char_ascii by done. done.
  - destruct (sextets (code a) (code b) (code c)) as (? & ? & ? & ? & _ & _); [apply code_lt..|].
    rewrite !b64_char_ascii by done. destruct (IH rest) as [-> Hr]; [lia|]. split; [done|].
    replace (S (S (S (String.length rest))) + 2)%nat with (String.length rest + 2 + 1 * 3)%nat by lia.
    rewrite Nat.div_add by lia. lia.
Qed.

Example b64_text : b64encode "hello" = "aGVsbG8=" ∧ b64decode "aGVsbG8" = None ∧ b64decode "a===" = None.
Proof. by vm_compute. Qed.
