(* ===== verification/Regex.v ===== *)
(** Regular expressions: [re.fullmatch] by Brzozowski derivatives.

    Every pattern of the code is an anchored regular expression over ASCII
    classes; it is transcribed constructor by constructor as an [re] and run
    by [fullmatch], which [fullmatch_correct] relates to the language of the
    pattern. *)
From S2P Require Import Prelude PyText.
From Stdlib Require Import Ascii.

Inductive re : Type :=
  | RNone
  | REps
  | RChar (p : ascii → bool)
  | RSeq (r s : re)
  | RAlt (r s : re)
  | RStar (r : re).

Declare Scope re_scope.
Delimit Scope re_scope with re.
Infix "·" := RSeq (at level 40, left associativity) : re_scope.
Infix "∥" := RAlt (at level 50, left associativity) : re_scope.
Bind Scope re_scope with re.
Open Scope re_scope.

Definition RPlus (r : re) : re := r · RStar r.
Definition ROpt (r : re) : re := REps ∥ r.
Definition RLit (c : ascii) : re := RChar (is_char c).
Fixpoint RStr (s : string) : re :=
  match s with EmptyString => REps | String c s => RLit c · RStr s end.
(** [r{n}] *)
Fixpoint RRep (n : nat) (r : re) : re :=
  match n with O => REps | S n => r · RRep n r end.

Fixpoint nullable (r : re) : bool :=
  match r with
  | RNone | RChar _ => false
  | REps | RStar _ => true
  | RSeq r s => nullable r && nullable s
  | RAlt r s => nullable r || nullable s
  end.

(** Constructors that keep derivatives small. *)
Definition seq_ (r s : re) : re :=
  match r with RNone => RNone | REps => s | _ => match s with RNone => RNone | _ => r · s end end.
Definition alt_ (r s : re) : re :=
  match r with RNone => s | _ => match s with RNone => r | _ => r ∥ s end end.

Fixpoint deriv (c : ascii) (r : re) : re :=
  match r with
  | RNone | REps => RNone
  | RChar p => if p c then REps else RNone
  | RSeq r s => if nullable r then alt_ (seq_ (deriv c r) s) (deriv c s) else seq_ (deriv c r) s
  | RAlt r s => alt_ (deriv c r) (deriv c s)
  | RStar r => seq_ (deriv c r) (RStar r)
  end.

(** [pattern.fullmatch(s) is not None] *)
Fixpoint fullmatch (r : re) (s : string) : bool :=
  match s with
  | EmptyString => nullable r
  | String c s => fullmatch (deriv c r) s
  end.

(** The language of a pattern. *)
Inductive matches : re → string → Prop :=
  | m_eps : matches REps ""
  | m_char p c : p c = true → matches (RChar p) (String c "")
  | m_seq r s x y : matches r x → matches s y → matches (r · s) (x +:+ y)
  | m_alt_l r s x : matches r x → matches (r ∥ s) x
  | m_alt_r r s x : matches s x → matches (r ∥ s) x
  | m_star_nil r : matches (RStar r) ""
  | m_star_cons r x y : matches r x → matches (RStar r) y → matches (RStar r) (x +:+ y).

#[export] Hint Constructors matches : aart.

Lemma matches_nil_iff r : nullable r = true ↔ matches r "".
Proof.
  split.
  - induction r; simpl; intros Hn; try done; auto with aart.
    + apply andb_true_iff in Hn as [? ?]. change "" with ("" +:+ ""). auto with aart.
    + apply orb_true_iff in Hn as [?|?]; auto with aart.
  - intros Hm. remember "" as e eqn:He. induction Hm; simpl; try done.
    + apply str_app_nil_inv in He as [-> ->]. by rewrite IHHm1, IHHm2.
    + by rewrite IHHm.
    + rewrite IHHm by done. apply orb_true_r.
Qed.

Lemma matches_none_inv x : ¬ matches RNone x.
Proof. by inversion 1. Qed.

Lemma matches_seq_inv r s x :
  matches (r · s) x ↔ ∃ y z, x = y +:+ z ∧ matches r y ∧ matches s z.
Proof. split; [inversion 1; subst; eauto|]. intros (y & z & -> & ? & ?). by constructor. Qed.

Lemma matches_eps_inv x : matches REps x ↔ x = "".
Proof. split; [by inversion 1|]. intros ->. constructor. Qed.

Lemma matches_char_inv p x : matches (RChar p) x ↔ ∃ c, x = String c "" ∧ p c = true.
Proof. split; [inversion 1; eauto|]. intros (c & -> & ?). by constructor. Qed.

Lemma matches_alt_inv r s x : matches (r ∥ s) x ↔ matches r x ∨ matches s x.
Proof. split; [inversion 1; auto|]. intros [?|?]; auto with aart. Qed.

Lemma matches_seq__iff r s x : matches (seq_ r s) x ↔ matches (r · s) x.
Proof.
  assert (matches (r · RNone) x ↔ matches RNone x) as Hr.
  { rewrite matches_seq_inv. split; [|by intros ?%matches_none_inv].
    by intros (y & z & _ & _ & ?%matches_none_inv). }
  destruct r; try (destruct s; simpl; [by rewrite Hr|done..]).
  - split; [by intros ?%matches_none_inv|].
    by intros (y & z & _ & ?%matches_none_inv & _)%matches_seq_inv.
  - simpl. rewrite matches_seq_inv. split; [by exists "", x; auto with aart|].
    by intros (y & z & -> & ->%matches_eps_inv & ?).
Qed.

Lemma matches_alt__iff r s x : matches (alt_ r s) x ↔ matches r x ∨ matches s x.
Proof.
  pose proof (matches_none_inv x).
  destruct r; simpl; [tauto|..]; (destruct s; [tauto|apply matches_alt_inv..]).
Qed.

Lemma matches_star_cons_inv r c x :
  matches (RStar r) (String c x) →
  ∃ y z, x = y +:+ z ∧ matches r (String c y) ∧ matches (RStar r) z.
Proof.
  intros Hm. remember (RStar r) as q eqn:Hq. remember (String c x) as w eqn:Hw.
  revert c x Hw. induction Hm as [| | | | | |r' a b Ha _ Hb IH]; intros d w Hw; try done.
  injection Hq as ->. destruct a as [|c' a]; [by apply IH|].
  rewrite str_app_cons in Hw. injection Hw as -> <-. by exists a, b.
Qed.

Lemma deriv_correct r c x : matches (deriv c r) x ↔ matches r (String c x).
Proof.
  revert x. induction r as [| |p|r IHr s IHs|r IHr s IHs|r IHr]; intros x; simpl.
  - split; by intros ?%matches_none_inv.
  - split; [by intros ?%matches_none_inv|by inversion 1].
  - rewrite matches_char_inv. destruct (p c) eqn:E.
    + rewrite matches_eps_inv. split; [intros ->; eauto|by intros (? & [= <- ->] & _)].
    + split; [by intros ?%matches_none_inv|]. intros (? & [= <- ->] & ?). congruence.
  - assert (matches (seq_ (deriv c r) s) x ↔
            ∃ y z, x = y +:+ z ∧ matches r (String c y) ∧ matches s z) as Hseq.
    { rewrite matches_seq__iff, matches_seq_inv. by setoid_rewrite IHr. }
    assert (matches (r · s) (String c x) ↔
            matches (seq_ (deriv c r) s) x ∨ (nullable r = true ∧ matches s (String c x))) as ->.
    { rewrite Hseq, matches_seq_inv, matches_nil_iff. split.
      - intros ([|c' y] & z & Hx & Hr & Hs).
        + right. simpl in Hx. by rewrite Hx.
        + left. rewrite str_app_cons in Hx. injection Hx as <- ->. eauto.
      - intros [(y & z & -> & ? & ?)|[? ?]]; [by exists (String c y), z|].
        by exists "", (String c x). }
    destruct (nullable r); [rewrite matches_alt__iff, IHs; tauto|].
    split; [auto|]. by intros [?|[? _]].
  - by rewrite matches_alt__iff, matches_alt_inv, IHr, IHs.
  - rewrite matches_seq__iff, matches_seq_inv. setoid_rewrite IHr. split.
    + intros (y & z & -> & ? & ?). rewrite <-str_app_cons. by constructor.
    + apply matches_star_cons_inv.
Qed.

(** [fullmatch] decides the language of the pattern. *)
Lemma fullmatch_iff r s : fullmatch r s = true ↔ matches r s.
Proof.
  revert r. induction s as [|c s IH]; intros r; simpl; [apply matches_nil_iff|].
  by rewrite IH, deriv_correct.
Qed.

(** * The patterns shared by the components *)

(** [^[0-9a-f]{64}$], [^[0-9a-f]{40}$] *)
Definition hex64_re : re := RRep 64 (RChar is_hex).
Definition hex40_re : re := RRep 40 (RChar is_hex).
(** [^[a-z][a-z0-9]*(?:-[a-z0-9]+)*$] *)
Definition slug_re : re :=
  RChar is_lower · RStar (RChar (λ c, is_lower c || is_digit c))
  · RStar (RLit "-" · RPlus (RChar (λ c, is_lower c || is_digit c))).

Lemma matches_rep p n s :
  matches (RRep n (RChar p)) s ↔ String.length s = n ∧ str_forall p s = true.
Proof.
  revert s. induction n as [|n IH]; intros s; simpl.
  - rewrite matches_eps_inv. split; [by intros ->|]. destruct s; [done|by intros [[=] _]].
  - rewrite matches_seq_inv. split.
    + intros (y & z & -> & (c & -> & Hc)%matches_char_inv & [Hl Hz]%IH).
      change (String c "" +:+ z) with (String c z). simpl. by rewrite Hc, Hl.
    + destruct s as [|c s]; [by intros []|]. simpl. intros [[= Hl] [Hc Hs]%andb_true_iff].
      exists (String c ""), s. split_and!; [done|by constructor|by apply IH].
Qed.

(** When every character class of a pattern is inside [p], so is every
    character of a string it matches. *)
Fixpoint re_over (p : ascii → bool) (r : re) : Prop :=
  match r with
  | RNone | REps => True
  | RChar q => ∀ c, q c = true → p c = true
  | RSeq r s | RAlt r s => re_over p r ∧ re_over p s
  | RStar r => re_over p r
  end.

Lemma matches_over p r s : re_over p r → matches r s → str_forall p s = true.
Proof.
  intros Ho Hm. induction Hm as [|q c Hc|r r' x y _ IHx _ IHy|r r' x _ IH|r r' x _ IH|r|r x y _ IHx _ IHy];
    cbn [re_over] in *.
  - done.
  - simpl. by rewrite (Ho c Hc).
  - rewrite str_forall_app, IHx, IHy; tauto.
  - tauto.
  - tauto.
  - done.
  - rewrite str_forall_app, IHx, IHy; tauto.
Qed.

Lemma fullmatch_over p r s : re_over p r → fullmatch r s = true → str_forall p s = true.
Proof. intros Ho Hm%fullmatch_iff. by eapply matches_over. Qed.

Lemma re_over_rep p n r : re_over p r → re_over p (RRep n r).
Proof. intros Hr. by induction n. Qed.
Lemma re_over_str p s : str_forall p s = true → re_over p (RStr s).
Proof.
  induction s as [|c s IH]; [done|]. cbn. intros [Hc Hs]%andb_true_iff. split; [|by apply IH].
  intros d Hd. by apply is_char_true in Hd as <-.
Qed.

Lemma matches_rep_length n p s : matches (RRep n (RChar p)) s → String.length s = n.
Proof.
  revert s. induction n as [|n IH]; intros s; cbn [RRep]; inversion 1; subst; [done|].
  match goal with Hc : matches (RChar _) _ |- _ => inversion Hc; subst end.
  rewrite str_length_app. cbn. f_equal. by apply IH.
Qed.
Lemma hex64_length s : fullmatch hex64_re s = true → String.length s = 64%nat.
Proof. intros Hm%fullmatch_iff. by eapply matches_rep_length. Qed.
Lemma hex64_hex s : fullmatch hex64_re s = true → str_forall is_hex s = true.
Proof. apply fullmatch_over, re_over_rep. by intros c Hc. Qed.

(** A fact about every character, by cases on its bits. *)
Ltac by_ascii := intros [[] [] [] [] [] [] [] []]; vm_compute; done.
