(* ===== verification/Domain.v ===== *)
(** The IO-free domain kernel ([src/agent_artifacts/domain]): nominal
    identifiers, typed diagnostics, the [Result] algebra, terminal outcomes
    and the stable-order collection transformations. *)
From S2P Require Import Prelude PyText.

(** JSON-shaped Python data: what the [*_to_data] projections return. *)
Inductive data : Type :=
  | DNone
  | DBool (b : bool)
  | DInt (n : Z)
  | DStr (s : string)
  | DList (l : list data)
  | DDict (d : list (string * data)).

Definition opt_data {A} (f : A → data) (o : option A) : data :=
  match o with None => DNone | Some a => f a end.

(** * Identifiers ([domain/identifiers.py]) *)

Inductive ArtifactKind : Type := Skill | Guideline | Mcp | Hook | Memory | Collection.

Definition kind_value (k : ArtifactKind) : string :=
  match k with
  | Skill => "skill" | Guideline => "guideline" | Mcp => "mcp"
  | Hook => "hook" | Memory => "memory" | Collection => "collection"
  end.

(** [get_args(ArtifactKind)] *)
Definition all_kinds : list ArtifactKind := [Skill; Guideline; Mcp; Hook; Memory; Collection].

Record SourceAlias := MkAlias { alias_value : string }.
Record SourceId := MkSourceId { source_id_value : string }.
Record SourceOrigin := MkOrigin { origin_value : string }.
Record ArtifactIdentity := MkIdentity { id_kind : ArtifactKind; id_name : string }.
Record ArtifactCoordinate := MkCoordinate {
  co_source : SourceAlias;
  co_artifact : ArtifactIdentity;
  co_version : option string
}.
Record ObjectDigest := MkDigest { dg_algorithm : string; dg_value : string }.

#[export] Instance kind_eq_dec : EqDecision ArtifactKind.
Proof. solve_decision. Defined.
#[export] Instance alias_eq_dec : EqDecision SourceAlias.
Proof. solve_decision. Defined.
#[export] Instance source_id_eq_dec : EqDecision SourceId.
Proof. solve_decision. Defined.
#[export] Instance origin_eq_dec : EqDecision SourceOrigin.
Proof. solve_decision. Defined.
#[export] Instance identity_eq_dec : EqDecision ArtifactIdentity.
Proof. solve_decision. Defined.
#[export] Instance coordinate_eq_dec : EqDecision ArtifactCoordinate.
Proof. solve_decision. Defined.
#[export] Instance digest_eq_dec : EqDecision ObjectDigest.
Proof. solve_decision. Defined.

(** [ArtifactIdentity.__str__] *)
Definition identity_str (i : ArtifactIdentity) : string :=
  kind_value (id_kind i) +:+ "/" +:+ id_name i.

(** [ArtifactCoordinate.__str__] *)
Definition coordinate_str (c : ArtifactCoordinate) : string :=
  let version := match co_version c with None => "" | Some v => "@" +:+ v end in
  alias_value (co_source c) +:+ "/" +:+ identity_str (co_artifact c) +:+ version.

(** [ObjectDigest.__str__] *)
Definition digest_str (d : ObjectDigest) : string := dg_algorithm d +:+ ":" +:+ dg_value d.

#[export] Instance kind_value_inj : Inj (=) (=) kind_value.
Proof. by intros [] []. Qed.

(** * Diagnostics ([domain/diagnostics.py]) *)

Inductive Severity : Type := INFO | WARNING | ERROR.
Definition severity_value (s : Severity) : string :=
  match s with INFO => "info" | WARNING => "warning" | ERROR => "error" end.

Record DiagnosticCode := MkCode { code_value : string }.

Record SourceLocation := MkLocation {
  loc_source : option SourceAlias;
  loc_path : option string;
  loc_pointer : option string;
  loc_line : option Z;
  loc_column : option Z
}.

Record Diagnostic := MkDiagnostic {
  d_code : DiagnosticCode;
  d_severity : Severity;
  d_message : string;
  d_location : option SourceLocation;
  d_remediation : list string;
  d_details : list (string * string)
}.

#[export] Instance severity_eq_dec : EqDecision Severity.
Proof. solve_decision. Defined.
#[export] Instance code_eq_dec : EqDecision DiagnosticCode.
Proof. solve_decision. Defined.
#[export] Instance location_eq_dec : EqDecision SourceLocation.
Proof. solve_decision. Defined.
#[export] Instance diagnostic_eq_dec : EqDecision Diagnostic.
Proof. solve_decision. Defined.

(** The constructor [Diagnostic(...)] with its [__post_init__]. *)
Definition diagnostic (code : DiagnosticCode) (severity : Severity) (message : string)
    (location : option SourceLocation) (remediation : list string)
    (details : list (string * string)) : Diagnostic :=
  MkDiagnostic code severity message location
    (sorted_set id remediation) (sorted id details).

(** [SourceLocation(source=alias)] *)
Definition source_location (alias : SourceAlias) : SourceLocation :=
  MkLocation (Some alias) None None None None.

Definition or_empty (o : option string) : string := default "" o.

Definition location_key (l : option SourceLocation) : string * string * Z * Z * string :=
  match l with
  | None => ("", "", -1, -1, "")%Z
  | Some l =>
      (match loc_source l with None => "" | Some s => alias_value s end,
       or_empty (loc_path l), default (-1)%Z (loc_line l), default (-1)%Z (loc_column l),
       or_empty (loc_pointer l))
  end.

Definition diagnostic_sort_key (d : Diagnostic) :
    string * string * Z * Z * string * string * string * string * list string
    * list (string * string) :=
  (location_key (d_location d), severity_value (d_severity d), code_value (d_code d),
   d_message d, d_remediation d, d_details d).

Definition sort_diagnostics (ds : list Diagnostic) : list Diagnostic :=
  sorted diagnostic_sort_key ds.

Definition source_location_to_data (l : SourceLocation) : data :=
  DDict [("source", opt_data (λ a, DStr (alias_value a)) (loc_source l));
         ("path", opt_data DStr (loc_path l));
         ("pointer", opt_data DStr (loc_pointer l));
         ("line", opt_data DInt (loc_line l));
         ("column", opt_data DInt (loc_column l))].

Definition diagnostic_to_data (d : Diagnostic) : data :=
  DDict ([("code", DStr (code_value (d_code d)));
          ("severity", DStr (severity_value (d_severity d)));
          ("message", DStr (d_message d));
          ("location", opt_data source_location_to_data (d_location d));
          ("remediation", DList (map DStr (d_remediation d)))]
         ++ match d_details d with
            | [] => []
            | details => [("details", DDict (map (λ kv, (kv.1, DStr kv.2)) (dict_of details)))]
            end).

(** * The Result algebra ([domain/result.py]) *)

Inductive Result (A : Type) : Type :=
  | Ok (value : A)
  | Err (diagnostics : list Diagnostic).
Global Arguments Ok {_} _.
Global Arguments Err {_} _.

(** [Err(diagnostics)] with its [__post_init__]: refuse the empty tuple. *)
Definition Err_init {A} (ds : list Diagnostic) : py (Result A) :=
  match ds with
  | [] => Raise (ValueError "Err requires at least one diagnostic")
  | _ => Ret (Err (sort_diagnostics ds))
  end.

(** [Err(diagnostics)] at the call sites that have just tested the tuple to
    be non-empty: what [Err_init] returns there ([Err_init_raise] below). *)
Definition raise_errors {A} (ds : list Diagnostic) : Result A := Err (sort_diagnostics ds).

(** [Err((d,))] *)
Definition fail1 {A} (d : Diagnostic) : Result A := Err [d].

Definition ok_or {A} (a : A) (r : Result A) : A := match r with Ok a => a | Err _ => a end.
Definition is_ok {A} (r : Result A) : bool := match r with Ok _ => true | Err _ => false end.
Definition is_err {A} (r : Result A) : bool := match r with Ok _ => false | Err _ => true end.

#[export] Instance result_ret : MRet Result := λ A a, Ok a.

(** [map_ok(result, function)] *)
#[export] Instance map_ok : FMap Result := λ A B f r,
  match r with Ok a => Ok (f a) | Err ds => Err ds end.
(** [bind(result, function)] *)
#[export] Instance result_bind : MBind Result := λ A B f r,
  match r with Ok a => f a | Err ds => Err ds end.

(** [map_err(result, function)]: the mapped tuple is non-empty when the
    original is. *)
Definition map_err {A} (r : Result A) (f : Diagnostic → Diagnostic) : Result A :=
  match r with Ok a => Ok a | Err ds => raise_errors (map f ds) end.

(** The loop of [collect]: the values and the diagnostics seen so far. *)
Fixpoint collect_loop {A} (results : list (Result A)) (values : list A)
    (diagnostics : list Diagnostic) : list A * list Diagnostic :=
  match results with
  | [] => (values, diagnostics)
  | Ok v :: rest => collect_loop rest (values ++ [v]) diagnostics
  | Err ds :: rest => collect_loop rest values (diagnostics ++ ds)
  end.

Definition collect {A} (results : list (Result A)) : Result (list A) :=
  let '(values, diagnostics) := collect_loop results [] [] in
  match diagnostics with [] => Ok values | _ => raise_errors diagnostics end.

Lemma bind_Ok {A B} (r : Result A) (f : A → Result B) b : r ≫= f = Ok b → ∃ a, r = Ok a ∧ f a = Ok b.
Proof. destruct r as [a|ds]; [by exists a|done]. Qed.

(** Split a hypothesis [m ≫= f = Ok b] into the steps that succeeded. *)
Ltac inv_ok_bind :=
  repeat match goal with
  | H : (_ ≫= _) = Ok _ |- _ =>
      let x := fresh "x" in let Hx := fresh "Hx" in apply bind_Ok in H as (x & Hx & H)
  end.

Lemma mapM_Ok {A B} (f : A → Result B) l k :
  mapM f l = Ok k ↔ Forall2 (λ x y, f x = Ok y) l k.
Proof.
  revert k. induction l as [|x l IH]; intros k; simpl.
  - split; [by intros [= <-]|]. by inversion 1.
  - split.
    + intros (y & Hy & (k' & Hk & [= <-])%bind_Ok)%bind_Ok. constructor; [done|]. by apply IH.
    + inversion 1 as [|? y ? k' Hy Hk]; subst. rewrite Hy. simpl.
      apply IH in Hk. by rewrite Hk.
Qed.

(** * Outcomes ([domain/outcomes.py]) *)

Inductive TerminalStatus : Type :=
  | Changed | Current | Skipped | Conflicted | Failed | Cancelled.
Definition terminal_value (s : TerminalStatus) : string :=
  match s with
  | Changed => "changed" | Current => "current" | Skipped => "skipped"
  | Conflicted => "conflicted" | Failed => "failed" | Cancelled => "cancelled"
  end.
#[export] Instance terminal_eq_dec : EqDecision TerminalStatus.
Proof. solve_decision. Defined.

Inductive SessionStatus : Type := SSucceeded | SPartial | SFailed | SCancelled.
Definition session_value (s : SessionStatus) : string :=
  match s with
  | SSucceeded => "succeeded" | SPartial => "partial"
  | SFailed => "failed" | SCancelled => "cancelled"
  end.

Record TerminalItem := MkItem {
  ti_key : string;
  ti_status : TerminalStatus;
  ti_diagnostics : list Diagnostic;
  ti_detail : option string
}.

(** [TerminalItem(...)] *)
Definition terminal_item (key : string) (status : TerminalStatus) (ds : list Diagnostic)
    (detail : option string) : TerminalItem :=
  MkItem key status (sort_diagnostics ds) detail.

Record OperationOutcome := MkOutcome {
  oo_operation : string;
  oo_selected : Z;
  oo_items : list TerminalItem;
  oo_diagnostics : list Diagnostic;
  oo_remediation : list string
}.

(** [OperationOutcome(...)] *)
Definition operation_outcome (operation : string) (selected : Z) (items : list TerminalItem)
    (ds : list Diagnostic) (remediation : list string) : py OperationOutcome :=
  _ ← raise_if (selected <? 0)%Z "selected cannot be negative";
  Ret (MkOutcome operation selected
    (sorted (λ i, (ti_key i, terminal_value (ti_status i))) items)
    (sort_diagnostics ds) (sorted_set id remediation)).

(** [counts[k] = counts.get(k, 0) + 1] over the keys, then [sorted(items())]. *)
Definition count_loop (keys : list string) : list (string * Z) :=
  foldl (λ counts k, dset k (default 0 (dget k counts) + 1)%Z counts) [] keys.

Definition outcome_counts (o : OperationOutcome) : list (string * Z) :=
  sorted id (count_loop (map (λ i, terminal_value (ti_status i)) (oo_items o))).

Definition changed_count (o : OperationOutcome) : Z :=
  Z.of_nat (length (filter (λ i, ti_status i = Changed) (oo_items o))).

Definition session_status (o : OperationOutcome) : SessionStatus :=
  let statuses := map ti_status (oo_items o) in
  let unsuccessful := mem Conflicted statuses || mem Failed statuses
    || existsb (λ d, bool_decide (d_severity d = ERROR)) (oo_diagnostics o) in
  let successful := mem Changed statuses || mem Current statuses in
  if unsuccessful && successful then SPartial
  else if unsuccessful then SFailed
  else if mem Cancelled statuses then (if successful then SPartial else SCancelled)
  else SSucceeded.

Definition terminal_item_to_data (i : TerminalItem) : data :=
  DDict [("key", DStr (ti_key i));
         ("status", DStr (terminal_value (ti_status i)));
         ("detail", opt_data DStr (ti_detail i));
         ("diagnostics", DList (map diagnostic_to_data (ti_diagnostics i)))].

Definition operation_outcome_to_data (o : OperationOutcome) : data :=
  DDict [("schema_version", DInt 1);
         ("operation", DStr (oo_operation o));
         ("outcome", DStr (session_value (session_status o)));
         ("selected", DInt (oo_selected o));
         ("changed", DInt (changed_count o));
         ("counts", DDict (map (λ kn, (kn.1, DInt kn.2)) (dict_of (outcome_counts o))));
         ("items", DList (map terminal_item_to_data (oo_items o)));
         ("diagnostics", DList (map diagnostic_to_data (oo_diagnostics o)));
         ("remediation", DList (map DStr (oo_remediation o)))].

(** * Collections ([domain/collections.py]) *)

Section collections.
Context {T : Type} (key : T → string).

Definition sorted_values (values : list T) : list T := sorted key values.

Definition upsert_sorted (values : list T) (replacement : T) : list T :=
  sorted_values (filter (λ v, key v ≠ key replacement) values ++ [replacement]).

Definition remove_sorted (values : list T) (target : string) : list T :=
  sorted_values (filter (λ v, key v ≠ target) values).
End collections.

(** * Properties *)

Lemma Err_init_raise {A} (ds : list Diagnostic) :
  ds ≠ [] → Err_init (A:=A) ds = Ret (raise_errors ds).
Proof. by destruct ds. Qed.

(** Every [Err] value the constructor can build. *)
Definition wf_result {A} (r : Result A) : Prop :=
  match r with Ok _ => True | Err ds => ds ≠ [] end.

Definition result_diagnostics {A} (r : Result A) : list Diagnostic :=
  match r with Ok _ => [] | Err ds => ds end.

Lemma collect_loop_spec {A} (rs : list (Result A)) vs ds :
  collect_loop rs vs ds =
  (vs ++ omap (λ r, match r with Ok v => Some v | Err _ => None end) rs,
   ds ++ concat (map result_diagnostics rs)).
Proof.
  revert vs ds. induction rs as [|[v|e] rs IH]; intros vs ds; simpl.
  - by rewrite !app_nil_r.
  - by rewrite IH, <-app_assoc.
  - by rewrite IH, <-app_assoc.
Qed.

Lemma collect_unfold {A} (rs : list (Result A)) :
  collect rs =
  match concat (map result_diagnostics rs) with
  | [] => Ok (omap (λ r, match r with Ok v => Some v | Err _ => None end) rs)
  | ds => raise_errors ds
  end.
Proof. unfold collect. rewrite collect_loop_spec. simpl. by destruct (concat _). Qed.

Lemma raise_errors_perm {A} (ds es : list Diagnostic) :
  raise_errors (A:=A) ds = Err es → es ≡ₚ ds.
Proof. intros [= <-]. apply sorted_perm. Qed.

Lemma collect_ok {A} (rs : list (Result A)) vs :
  Forall wf_result rs → collect rs = Ok vs ↔ rs = map Ok vs.
Proof.
  intros Hwf. rewrite collect_unfold. split.
  - destruct (concat _) eqn:E; [|done]. intros [= <-].
    induction Hwf as [|[v|e] rs Hr Hwf IH]; simpl in *; [done| |].
    + f_equal. by apply IH.
    + apply app_nil in E as [-> _]. by destruct Hr.
  - intros ->.
    assert (concat (map result_diagnostics (map (@Ok A) vs)) = []) as ->.
    { clear Hwf. by induction vs. }
    f_equal. clear Hwf. induction vs as [|v vs IH]; simpl; [done|]. by f_equal.
Qed.

(** One pass of the counting loop over the keys [ks], from the counts [d]. *)
Definition count_step (d : list (string * Z)) (k : string) : list (string * Z) :=
  dset k (default 0 (dget k d) + 1)%Z d.

Lemma count_loop_from ks d k :
  default 0%Z (dget k (foldl count_step d ks)) =
  (default 0 (dget k d) + Z.of_nat (length (filter (λ k', k' = k) ks)))%Z.
Proof.
  revert d. induction ks as [|k' ks IH]; intros d; [simpl; lia|].
  cbn [foldl]. rewrite IH, filter_cons. unfold count_step. rewrite dget_dset.
  destruct (decide (k' = k)) as [->|Hne].
  - rewrite bool_decide_true by done. simpl. lia.
  - by rewrite bool_decide_false by congruence.
Qed.

Lemma count_loop_NoDup ks : NoDup (dkeys (count_loop ks)).
Proof.
  unfold count_loop. assert (NoDup (dkeys (@nil (string * Z)))) as H by constructor.
  revert H. generalize (@nil (string * Z)). induction ks as [|k ks IH]; simpl; auto.
  intros d Hd. apply IH. by apply NoDup_dkeys_dset.
Qed.

#[export] Instance terminal_value_inj : Inj (=) (=) terminal_value.
Proof. by intros [] []. Qed.

Lemma length_filter_map {A B} (f : A → B) (P : B → Prop) (Q : A → Prop)
    `{∀ b, Decision (P b), ∀ a, Decision (Q a)} l :
  (∀ a, P (f a) ↔ Q a) → length (filter P (map f l)) = length (filter Q l).
Proof.
  intros E. induction l as [|a l IH]; [done|]. simpl. rewrite !filter_cons.
  specialize (E a). repeat case_decide; simpl; tauto || lia.
Qed.

(** The counts an outcome projects are the numbers of its items. *)
Lemma outcome_counts_get o s :
  default 0%Z (dget (terminal_value s) (outcome_counts o)) =
  Z.of_nat (length (filter (λ i, ti_status i = s) (oo_items o))).
Proof.
  unfold outcome_counts.
  rewrite (dget_perm _ _ (count_loop (map (λ i, terminal_value (ti_status i)) (oo_items o)))).
  - unfold count_loop. change (λ counts k, _) with count_step. rewrite count_loop_from.
    cbn [dget default]. rewrite Z.add_0_l. f_equal. apply length_filter_map. intros i. split; [apply (inj _)|by intros ->].
  - unfold dkeys. rewrite sorted_perm. apply count_loop_NoDup.
  - apply sorted_perm.
Qed.

Section collections_properties.
Context {T : Type} (key : T → string).

Lemma elem_of_upsert values r v :
  v ∈ upsert_sorted key values r ↔ v = r ∨ (v ∈ values ∧ key v ≠ key r).
Proof.
  unfold upsert_sorted, sorted_values.
  rewrite elem_of_sorted, elem_of_app, list_elem_of_filter, list_elem_of_singleton. tauto.
Qed.

Lemma elem_of_remove values t v :
  v ∈ remove_sorted key values t ↔ v ∈ values ∧ key v ≠ t.
Proof. unfold remove_sorted, sorted_values. rewrite elem_of_sorted, list_elem_of_filter. tauto. Qed.
End collections_properties.
