(* ===== verification/SemVer.v ===== *)
(** SemVer 2.0 precedence and half-open compatibility bounds
    ([src/agent_artifacts/protocol/semver.py]). *)
From S2P Require Import Prelude PyText Regex Domain.
From Stdlib Require Import Ascii.

Definition SEMVER_INVALID : DiagnosticCode := MkCode "protocol-semver-invalid".
Definition VERSION_BOUNDS_INVALID : DiagnosticCode := MkCode "protocol-version-bounds-invalid".

(** [int | str] *)
Inductive PrereleaseIdentifier : Type := PInt (n : Z) | PStr (s : string).
#[export] Instance prerelease_eq_dec : EqDecision PrereleaseIdentifier.
Proof. solve_decision. Defined.

Definition identifier_str (p : PrereleaseIdentifier) : string :=
  match p with PInt n => str_Z n | PStr s => s end.

(** The pattern [_SEMVER_RE], piece by piece. *)
Definition is_identifier_char (c : ascii) : bool := is_alnum c || is_char "-" c.
Definition NUMBER : re :=
  RLit "0" ∥ (RChar (between 49 57) · RStar (RChar is_digit)).
Definition IDENTIFIER : re := RPlus (RChar is_identifier_char).
Definition IDENTIFIERS : re := IDENTIFIER · RStar (RLit "." · IDENTIFIER).
Definition SEMVER_RE : re :=
  NUMBER · RLit "." · NUMBER · RLit "." · NUMBER
  · ROpt (RLit "-" · IDENTIFIERS) · ROpt (RLit "+" · IDENTIFIERS).

(** [2**63 - 1] *)
Definition MAX_SEMVER_NUMBER : Z := (2 ^ 63 - 1)%Z.

Definition bounded_number (raw : string) : option Z :=
  if (19 <? String.length raw)%nat then None
  else let value := int_of raw in
       if (value <=? MAX_SEMVER_NUMBER)%Z then Some value else None.

Record SemVer := MkSemVer {
  sv_major : Z;
  sv_minor : Z;
  sv_patch : Z;
  sv_prerelease : list PrereleaseIdentifier;
  sv_build : list string
}.
(** Structural equality, finer than [SemVer.__eq__]. *)
#[export] Instance semver_eq_dec : EqDecision SemVer.
Proof. solve_decision. Defined.

(** [SemVer.__str__] *)
Definition semver_str (v : SemVer) : string :=
  let prerelease := match sv_prerelease v with
                    | [] => "" | ids => "-" +:+ join "." (map identifier_str ids) end in
  let build := match sv_build v with [] => "" | ids => "+" +:+ join "." ids end in
  str_Z (sv_major v) +:+ "." +:+ str_Z (sv_minor v) +:+ "." +:+ str_Z (sv_patch v)
  +:+ prerelease +:+ build.

(** [SemVer._core] *)
Definition semver_core (v : SemVer) : Z * Z * Z := (sv_major v, sv_minor v, sv_patch v).

(** [SemVer.same_precedence], which is [SemVer.__eq__] *)
Definition same_precedence (v w : SemVer) : bool :=
  bool_decide (semver_core v = semver_core w)
  && bool_decide (sv_prerelease v = sv_prerelease w).

(** The loop of [_prerelease_less] over the common length, then the lengths. *)
Fixpoint prerelease_loop (lhs rhs : list PrereleaseIdentifier) : bool :=
  match lhs, rhs with
  | l :: lhs, r :: rhs =>
      if bool_decide (l = r) then prerelease_loop lhs rhs
      else match l, r with
           | PInt a, PInt b => (a <? b)%Z
           | PInt _, PStr _ => true
           | PStr _, PInt _ => false
           | PStr a, PStr b => plt a b
           end
  | [], _ :: _ => true
  | _, [] => false
  end.

Definition prerelease_less (lhs rhs : list PrereleaseIdentifier) : bool :=
  match lhs, rhs with
  | [], _ => false
  | _, [] => true
  | _, _ => prerelease_loop lhs rhs
  end.

(** [SemVer.__lt__] *)
Definition semver_lt (v w : SemVer) : bool :=
  if negb (bool_decide (semver_core v = semver_core w))
  then plt (semver_core v) (semver_core w)
  else prerelease_less (sv_prerelease v) (sv_prerelease w).

Record VersionBounds := MkBounds {
  vb_min_inclusive : option SemVer;
  vb_max_exclusive : option SemVer
}.
#[export] Instance bounds_eq_dec : EqDecision VersionBounds.
Proof. solve_decision. Defined.

(** [VersionBounds()] *)
Definition no_bounds : VersionBounds := MkBounds None None.

(** [VersionBounds.allows] *)
Definition allows (b : VersionBounds) (version : SemVer) : bool :=
  match vb_min_inclusive b with
  | Some lo => if semver_lt version lo then false
               else match vb_max_exclusive b with
                    | None => true | Some hi => semver_lt version hi end
  | None => match vb_max_exclusive b with
            | None => true | Some hi => semver_lt version hi end
  end.

Definition version_bounds_label (b : VersionBounds) : string :=
  let parts :=
    match vb_min_inclusive b with None => [] | Some v => [">=" +:+ semver_str v] end
    ++ match vb_max_exclusive b with None => [] | Some v => ["<" +:+ semver_str v] end in
  match parts with [] => "any" | _ => join "," parts end.

(** [_error] *)
Definition semver_error {A} (code : DiagnosticCode) (message : string)
    (location : option SourceLocation) : Result A :=
  fail1 (diagnostic code ERROR message location [] []).

Record SemVerGroups := MkGroups {
  g_major : string; g_minor : string; g_patch : string;
  g_prerelease : option string; g_build : option string
}.

(** The groups of [_SEMVER_RE] on a string it matches: the build follows the
    first [+], the prerelease the first [-] before it. *)
Definition semver_groups (raw : string) : option SemVerGroups :=
  if fullmatch SEMVER_RE raw then
    let '(rest, build) := cut_first "+" raw in
    let '(core, prerelease) := cut_first "-" rest in
    match split_on "." core with
    | [major; minor; patch] => Some (MkGroups major minor patch prerelease build)
    | _ => None
    end
  else None.

Section parse.
Context `{UnicodeData}.

Definition range_error {A} (location : option SourceLocation) : Result A :=
  semver_error SEMVER_INVALID "SemVer numeric identifier is outside signed 64-bit range"
    location.

(** The loop over the dot-separated prerelease identifiers. *)
Fixpoint parse_prerelease (identifiers : list string) (location : option SourceLocation) :
    Result (list PrereleaseIdentifier) :=
  match identifiers with
  | [] => Ok []
  | identifier :: rest =>
      if str_empty identifier then parse_prerelease rest location
      else if is_decimal identifier then
        if (1 <? String.length identifier)%nat && String.prefix "0" identifier then
          semver_error SEMVER_INVALID
            ("numeric prerelease identifier has a leading zero: " +:+ repr identifier) location
        else match bounded_number identifier with
             | None => range_error location
             | Some n => ids ← parse_prerelease rest location; Ok (PInt n :: ids)
             end
      else ids ← parse_prerelease rest location; Ok (PStr identifier :: ids)
  end.

Definition parse_semver (raw : string) (location : option SourceLocation) : Result SemVer :=
  match semver_groups raw with
  | None => semver_error SEMVER_INVALID ("invalid SemVer: " +:+ repr raw) location
  | Some g =>
      match bounded_number (g_major g), bounded_number (g_minor g), bounded_number (g_patch g) with
      | Some major, Some minor, Some patch =>
          prerelease ← parse_prerelease (split_on "." (or_empty (g_prerelease g))) location;
          let build := match g_build g with
                       | None => [] | Some b => if str_empty b then [] else split_on "." b end in
          Ok (MkSemVer major minor patch prerelease build)
      | _, _, _ => range_error location
      end
  end.
End parse.

Definition version_bounds (min_inclusive max_exclusive : option SemVer)
    (location : option SourceLocation) : Result VersionBounds :=
  match min_inclusive, max_exclusive with
  | Some lo, Some hi =>
      if negb (semver_lt lo hi) then
        semver_error VERSION_BOUNDS_INVALID
          ("minimum " +:+ semver_str lo +:+ " must precede maximum " +:+ semver_str hi) location
      else Ok (MkBounds min_inclusive max_exclusive)
  | _, _ => Ok (MkBounds min_inclusive max_exclusive)
  end.

(** * Precedence is a strict total preorder *)

Definition identifier_ple (x y : PrereleaseIdentifier) : bool :=
  match x, y with
  | PInt a, PInt b => (a <=? b)%Z
  | PInt _, PStr _ => true
  | PStr _, PInt _ => false
  | PStr a, PStr b => ple a b
  end.

#[export] Program Instance prerelease_ord : TotalOrd PrereleaseIdentifier :=
  {| ple := identifier_ple |}.
Next Obligation. intros [a|a] [b|b]; cbn [identifier_ple]; auto; [rewrite !Z.leb_le; lia|apply (ple_total (A:=string))]. Qed.
Next Obligation.
  intros [a|a] [b|b] [c|c]; cbn [identifier_ple]; try done; [rewrite !Z.leb_le; lia|apply (ple_trans (A:=string))].
Qed.
Next Obligation.
  intros [a|a] [b|b]; cbn [identifier_ple]; try done; intros; f_equal;
    [rewrite !Z.leb_le in *; lia|by apply (ple_antisym (A:=string))].
Qed.

(** What the comparison operators of [SemVer] look at: the core numbers, then
    a release after all of its prereleases, then the identifiers. *)
Definition precedence_key (v : SemVer) : (Z * Z * Z) * (Z * list PrereleaseIdentifier) :=
  (semver_core v,
   (match sv_prerelease v with [] => 1 | _ => 0 end%Z, sv_prerelease v)).

Lemma prerelease_loop_plt l r : prerelease_loop l r = plt l r.
Proof.
  unfold plt. rewrite ple_list. revert r. induction l as [|x l IH]; intros [|y r]; try done.
  cbn [prerelease_loop list_ple]. rewrite IH. case_bool_decide as E.
  - subst. by rewrite ple_refl.
  - assert (ple y x && ple x y = false) as Hne.
    { apply not_true_iff_false. intros [? ?]%andb_true_iff. apply E. by apply ple_antisym. }
    assert ((match x, y with
             | PInt a, PInt b => (a <? b)%Z | PInt _, PStr _ => true
             | PStr _, PInt _ => false | PStr a, PStr b => plt a b end) = negb (ple y x)) as ->.
    { destruct x as [a|a], y as [b|b]; try done. simpl. by rewrite Z.ltb_antisym. }
    destruct (ple y x), (ple x y); done.
Qed.

Lemma semver_lt_key v w : semver_lt v w = plt (precedence_key v) (precedence_key w).
Proof.
  unfold semver_lt, precedence_key. rewrite plt_prod.
  case_bool_decide as E; simpl negb; cbv iota.
  - rewrite E, ple_refl, plt_prod.
    destruct (sv_prerelease v) as [|x l], (sv_prerelease w) as [|y r]; try done.
    apply prerelease_loop_plt.
  - unfold plt.
    destruct (ple (semver_core w) (semver_core v)) eqn:E1,
             (ple (semver_core v) (semver_core w)) eqn:E2; try done.
    destruct E. by apply ple_antisym.
Qed.

Lemma same_precedence_key v w :
  same_precedence v w = true ↔ precedence_key v = precedence_key w.
Proof.
  unfold same_precedence, precedence_key. rewrite andb_true_iff, !bool_decide_eq_true.
  split; [by intros [-> ->]|]. intros E.
  split; [exact (f_equal fst E)|exact (f_equal (λ k, k.2.2) E)].
Qed.

(** * Round trip with the printer *)

Definition wf_identifier (s : string) : bool :=
  negb (str_empty s) && str_forall is_identifier_char s.

(** The versions [parse_semver] can return. *)
Definition wf_prerelease (p : PrereleaseIdentifier) : bool :=
  match p with
  | PInt n => (0 <=? n)%Z && (n <=? MAX_SEMVER_NUMBER)%Z
  | PStr s => wf_identifier s && negb (is_decimal s)
  end.
Definition wf_number (n : Z) : bool := (0 <=? n)%Z && (n <=? MAX_SEMVER_NUMBER)%Z.
Definition wf_semver (v : SemVer) : bool :=
  wf_number (sv_major v) && wf_number (sv_minor v) && wf_number (sv_patch v)
  && forallb wf_prerelease (sv_prerelease v) && forallb wf_identifier (sv_build v).

Lemma matches_star_char p s : matches (RStar (RChar p)) s ↔ str_forall p s = true.
Proof.
  split.
  - induction s as [|c s IH]; [done|].
    intros (y & z & -> & (d & [= <- ->] & Hc)%matches_char_inv & Hz)%matches_star_cons_inv.
    simpl. rewrite Hc. by apply IH.
  - induction s as [|c s IH]; [constructor|]. simpl. intros [Hc Hs]%andb_true_iff.
    apply (m_star_cons (RChar p) (String c "") s); [by constructor|by apply IH].
Qed.

Lemma matches_lit c s : matches (RLit c) s ↔ s = String c "".
Proof.
  unfold RLit. rewrite matches_char_inv. split.
  - by intros (d & -> & ->%is_char_true).
  - intros ->. exists c. by rewrite is_char_refl.
Qed.

Lemma matches_identifier s : matches IDENTIFIER s ↔ wf_identifier s = true.
Proof.
  unfold IDENTIFIER, RPlus, wf_identifier. rewrite matches_seq_inv. split.
  - intros (y & z & -> & (c & -> & Hc)%matches_char_inv & Hz%matches_star_char).
    rewrite str_app_cons. simpl. by rewrite Hc.
  - destruct s as [|c s]; [done|]. simpl. intros [Hc Hs]%andb_true_iff.
    exists (String c ""), s. split_and!; [done|by constructor|by apply matches_star_char].
Qed.

Lemma matches_star_seq_inv r s :
  matches (RStar r) s → ∃ l, s = foldr String.append "" l ∧ Forall (matches r) l.
Proof.
  intros Hm. remember (RStar r) as q eqn:Hq.
  induction Hm as [| | | | |r'|r' x y Hx _ Hy IH]; try done; simplify_eq.
  - by exists [].
  - destruct IH as (l & -> & Hl); [done|]. exists (x :: l). split; [done|by constructor].
Qed.

Lemma matches_number s : matches NUMBER s ↔ canonical_decimal s = true.
Proof.
  unfold NUMBER, canonical_decimal, is_decimal.
  rewrite matches_alt_inv, matches_lit, matches_seq_inv. split.
  - intros [->|(y & z & -> & (c & -> & Hc)%matches_char_inv & Hz%matches_star_char)]; [done|].
    rewrite str_app_cons. change ("" +:+ z) with z. cbn [str_empty str_forall negb andb].
    assert (is_digit c = true ∧ is_char "0" c = false) as [-> H0].
    { unfold is_digit, between in *. apply andb_true_iff in Hc as [?%N.leb_le ?%N.leb_le].
      split; [rewrite andb_true_iff, !N.leb_le; lia|].
      destruct (is_char "0" c) eqn:E; [|done]. apply is_char_true in E as <-.
      change (code "0") with 48%N in *. lia. }
    rewrite Hz. by destruct z; rewrite ?H0.
  - destruct s as [|c s]; [done|]. cbn [str_empty str_forall negb andb].
    intros [[Hc Hs]%andb_true_iff Hz]%andb_true_iff.
    destruct (is_char "0" c) eqn:E.
    + apply is_char_true in E as <-. left. by destruct s.
    + right. exists (String c ""), s. split_and!; [done| |by apply matches_star_char].
      constructor. apply digit_code in Hc as ?. unfold between.
      rewrite andb_true_iff, !N.leb_le. assert (code c ≠ 48)%N; [|lia].
      intros E'. apply not_true_iff_false in E. apply E, is_char_true.
      rewrite <-(ascii_N_embedding c). unfold code in E'. by rewrite E'.
Qed.

Lemma matches_dotted z :
  matches (RStar (RLit "." · IDENTIFIER)) z ↔
  ∃ ids, Forall (λ i, wf_identifier i = true) ids ∧ ∀ y, y +:+ z = join "." (y :: ids).
Proof.
  split.
  - intros (l & -> & Hl)%matches_star_seq_inv.
    induction Hl as [|x l (a & b & -> & ->%matches_lit & Hb%matches_identifier)%matches_seq_inv Hl IH].
    + exists []. split; [constructor|]. intros y. apply str_app_nil_r.
    + destruct IH as (ids & Hids & IH). exists (b :: ids). split; [by constructor|]. intros y.
      change (join "." (y :: b :: ids)) with (y +:+ "." +:+ join "." (b :: ids)).
      by rewrite <-IH.
  - intros (ids & Hids & E). specialize (E ""). change ("" +:+ z) with z in E. subst z.
    induction Hids as [|i ids Hi Hids IH]; [constructor|].
    replace (join "." ("" :: i :: ids)) with (("." +:+ i) +:+ join "." ("" :: ids)).
    + constructor; [|exact IH]. constructor; [by apply matches_lit|by apply matches_identifier].
    + destruct ids; [apply str_app_nil_r|done].
Qed.

Lemma matches_identifiers s :
  matches IDENTIFIERS s ↔
  ∃ ids, ids ≠ [] ∧ Forall (λ i, wf_identifier i = true) ids ∧ s = join "." ids.
Proof.
  unfold IDENTIFIERS. rewrite matches_seq_inv. split.
  - intros (y & z & -> & Hy%matches_identifier & (ids & Hids & E)%matches_dotted).
    exists (y :: ids). split_and!; [done|by constructor|by apply E].
  - intros ([|y ids] & Hne & Hids & ->); [done|]. apply Forall_cons in Hids as [Hy Hids].
    destruct ids as [|z ids].
    + exists y, "". split_and!; [by rewrite str_app_nil_r|by apply matches_identifier|constructor].
    + exists y, ("." +:+ join "." (z :: ids)).
      split_and!; [done|by apply matches_identifier|]. apply matches_dotted.
      by exists (z :: ids).
Qed.

Lemma identifier_no_char d s :
  is_identifier_char d = false → wf_identifier s = true → has_char d s = false.
Proof.
  intros Hd [_ Hs]%andb_true_iff. apply has_char_false. revert Hs. apply str_forall_impl.
  intros c Hc. apply negb_true_iff. destruct (is_char d c) eqn:E; [|done].
  apply is_char_true in E as ->. congruence.
Qed.

Lemma dot_no_char d : d ≠ "."%char → has_char d "." = false.
Proof.
  intros Hd. unfold has_char, str_exists. simpl.
  destruct (is_char d ".") eqn:E; [|done]. by apply is_char_true in E.
Qed.

Lemma has_char_join d ids :
  is_identifier_char d = false → d ≠ "."%char →
  Forall (λ i, wf_identifier i = true) ids → has_char d (join "." ids) = false.
Proof.
  intros Hd Hdot Hids. induction Hids as [|i ids Hi Hids IH]; [done|].
  destruct ids as [|j ids]; [by apply identifier_no_char|].
  change (join "." (i :: j :: ids)) with (i +:+ "." +:+ join "." (j :: ids)).
  by rewrite !has_char_app, IH, (identifier_no_char d i), dot_no_char.
Qed.

Lemma decimal_no_char d s :
  is_digit d = false → canonical_decimal s = true → has_char d s = false.
Proof.
  intros Hd [[_ Hs]%andb_true_iff _]%andb_true_iff. apply has_char_false. revert Hs.
  apply str_forall_impl. intros c Hc. apply negb_true_iff.
  destruct (is_char d c) eqn:E; [|done]. apply is_char_true in E as ->. congruence.
Qed.

(** Group texts: a version string taken apart, and put together again. *)
Definition opt_text (prefix : string) (o : option string) : string :=
  match o with None => "" | Some s => prefix +:+ s end.
Definition groups_text (g : SemVerGroups) : string :=
  g_major g +:+ "." +:+ g_minor g +:+ "." +:+ g_patch g
  +:+ opt_text "-" (g_prerelease g) +:+ opt_text "+" (g_build g).
Definition wf_opt_identifiers (o : option string) : Prop :=
  ∀ s, o = Some s → ∃ ids, ids ≠ [] ∧ Forall (λ i, wf_identifier i = true) ids ∧ s = join "." ids.
Definition wf_groups (g : SemVerGroups) : Prop :=
  canonical_decimal (g_major g) = true ∧ canonical_decimal (g_minor g) = true
  ∧ canonical_decimal (g_patch g) = true
  ∧ wf_opt_identifiers (g_prerelease g) ∧ wf_opt_identifiers (g_build g).

Lemma matches_opt_prefix c s :
  matches (ROpt (RLit c · IDENTIFIERS)) s ↔
  ∃ o, wf_opt_identifiers o ∧ s = opt_text (String c "") o.
Proof.
  unfold ROpt. rewrite matches_alt_inv, matches_eps_inv, matches_seq_inv. split.
  - intros [->|(y & z & -> & ->%matches_lit & Hz%matches_identifiers)].
    + by exists None.
    + exists (Some z). split; [by intros ? [= <-]|done].
  - intros ([s'|] & Hwf & ->); [|by left]. right. exists (String c ""), s'.
    split_and!; [done|by apply matches_lit|]. apply matches_identifiers. by apply Hwf.
Qed.

Lemma matches_semver s : matches SEMVER_RE s ↔ ∃ g, wf_groups g ∧ s = groups_text g.
Proof.
  unfold SEMVER_RE. split.
  - rewrite !matches_seq_inv.
    intros (y & z & -> & Hy & (b & Hb & ->)%matches_opt_prefix).
    apply matches_seq_inv in Hy as (y1 & z1 & -> & Hy & (p & Hp & ->)%matches_opt_prefix).
    repeat match goal with
      | H : matches (_ · _) _ |- _ =>
          apply matches_seq_inv in H as (? & ? & -> & H & ?)
      end.
    repeat match goal with
      | H : matches (RLit _) _ |- _ => apply matches_lit in H as ->
      | H : matches NUMBER _ |- _ => apply matches_number in H
      end.
    match goal with
      |- ∃ g, _ ∧ (((((?x +:+ _) +:+ ?y) +:+ _) +:+ ?z) +:+ _) +:+ _ = _ =>
        exists (MkGroups x y z p b)
      end.
    split; [by split_and!|]. unfold groups_text. cbn [g_major g_minor g_patch g_prerelease g_build].
    by rewrite !str_app_assoc.
  - intros ([a b c p d] & (Ha & Hb & Hc & Hp & Hd) & ->). unfold groups_text.
    rewrite !str_app_assoc. simpl in *.
    repeat first [apply m_seq | apply matches_lit; done | by apply matches_number].
    + apply matches_opt_prefix. by exists p.
    + apply matches_opt_prefix. by exists d.
Qed.

Lemma semver_groups_text g : wf_groups g → semver_groups (groups_text g) = Some g.
Proof.
  intros Hwf. unfold semver_groups.
  assert (fullmatch SEMVER_RE (groups_text g) = true) as ->.
  { apply fullmatch_iff, matches_semver. eauto. }
  destruct g as [a b c p d], Hwf as (Ha & Hb & Hc & Hp & Hd). simpl in *.
  set (core := a +:+ "." +:+ b +:+ "." +:+ c).
  assert (∀ x, is_digit x = false → x ≠ "."%char → has_char x core = false) as Hcore.
  { intros x Hx Hdot. unfold core. rewrite !has_char_app, dot_no_char by done.
    by rewrite (decimal_no_char x a), (decimal_no_char x b), (decimal_no_char x c). }
  assert (split_on "." core = [a; b; c]) as Hsplit.
  { unfold core. rewrite !split_on_app, split_on_none by (by apply decimal_no_char). done. }
  assert (has_char "+" (core +:+ opt_text "-" p) = false) as Hplus.
  { rewrite has_char_app, Hcore by done. destruct p as [s|]; [|done].
    destruct (Hp s eq_refl) as (ids & _ & Hids & ->). simpl opt_text.
    change (has_char "+" (String "-" (join "." ids)) = false).
    apply (has_char_join "+"%char) in Hids; [|done..].
    rewrite has_char_false in *. done. }
  assert (groups_text (MkGroups a b c p d) = (core +:+ opt_text "-" p) +:+ opt_text "+" d) as ->.
  { unfold groups_text, core. simpl. by rewrite !str_app_assoc. }
  assert (cut_first "+" ((core +:+ opt_text "-" p) +:+ opt_text "+" d)
          = (core +:+ opt_text "-" p, d)) as ->.
  { destruct d as [d|]; simpl opt_text; [by apply cut_first_app|].
    rewrite str_app_nil_r. by apply cut_first_none. }
  assert (cut_first "-" (core +:+ opt_text "-" p) = (core, p)) as ->.
  { destruct p as [p|]; simpl opt_text; [by apply cut_first_app, Hcore|].
    rewrite str_app_nil_r. by apply cut_first_none, Hcore. }
  by rewrite Hsplit.
Qed.

Lemma semver_groups_iff raw g :
  semver_groups raw = Some g ↔ wf_groups g ∧ raw = groups_text g.
Proof.
  split; [|intros [? ->]; by apply semver_groups_text]. intros E.
  assert (fullmatch SEMVER_RE raw = true) as Hm.
  { unfold semver_groups in E. by destruct (fullmatch SEMVER_RE raw). }
  apply fullmatch_iff, matches_semver in Hm as (g' & Hwf & ->).
  rewrite semver_groups_text in E by done. by simplify_eq.
Qed.

Lemma bounded_number_str n : wf_number n = true → bounded_number (str_Z n) = Some n.
Proof.
  unfold wf_number, bounded_number. intros [H0%Z.leb_le Hn]%andb_true_iff.
  rewrite int_of_str by done. rewrite Hn. apply Z.leb_le in Hn.
  pose proof (str_Z_length n ltac:(unfold MAX_SEMVER_NUMBER in Hn; lia)) as Hlen.
  by rewrite (proj2 (Nat.ltb_ge _ _) Hlen).
Qed.

Lemma bounded_number_Some raw n :
  canonical_decimal raw = true → bounded_number raw = Some n → str_Z n = raw ∧ wf_number n = true.
Proof.
  unfold bounded_number, wf_number. intros Hc.
  destruct (19 <? _)%nat; [done|]. destruct (_ <=? _)%Z eqn:E; [|done]. intros [= <-].
  split; [by apply str_int_of|]. rewrite E. rewrite andb_true_r. apply Z.leb_le.
  unfold int_of. lia.
Qed.

Lemma decimal_identifier s : is_decimal s = true → wf_identifier s = true.
Proof.
  unfold is_decimal, wf_identifier. intros [-> Hd]%andb_true_iff. revert Hd.
  apply str_forall_impl. intros c Hc. unfold is_identifier_char, is_alnum. rewrite Hc.
  by rewrite orb_true_r.
Qed.

Lemma canonical_is_decimal s : canonical_decimal s = true → is_decimal s = true.
Proof. by intros [? _]%andb_true_iff. Qed.

Lemma leading_zero s :
  is_decimal s = true →
  (1 <? String.length s)%nat && String.prefix "0" s = negb (canonical_decimal s).
Proof.
  intros Hd. unfold canonical_decimal. rewrite Hd. simpl.
  destruct s as [|c [|c' s]]; try done.
  cbn [String.length Nat.ltb Nat.leb andb String.prefix].
  destruct (ascii_dec "0" c) as [<-|Hne]; [done|].
  destruct (is_char "0" c) eqn:E; [by apply is_char_true in E|done].
Qed.

Section roundtrip.
Context `{UnicodeData}.

Lemma wf_prerelease_text p :
  wf_prerelease p = true → wf_identifier (identifier_str p) = true.
Proof.
  destruct p as [n|s]; simpl; [|by intros [? _]%andb_true_iff].
  intros [Hn _]%andb_true_iff. apply Z.leb_le in Hn.
  by apply decimal_identifier, canonical_is_decimal, str_Z_canonical.
Qed.

Lemma parse_prerelease_print ps loc :
  forallb wf_prerelease ps = true → parse_prerelease (map identifier_str ps) loc = Ok ps.
Proof.
  induction ps as [|p ps IH]; [done|]. simpl. intros [Hp Hps]%andb_true_iff.
  pose proof (wf_prerelease_text p Hp) as Hid.
  rewrite (IH Hps). apply andb_true_iff in Hid as [Hne%negb_true_iff _]. rewrite Hne.
  destruct p as [n|s]; simpl in *.
  - assert (0 ≤ n)%Z as Hn by (apply andb_true_iff in Hp as [?%Z.leb_le _]; done).
    pose proof (str_Z_canonical n Hn) as Hc.
    rewrite leading_zero, (canonical_is_decimal _ Hc), Hc by (by apply canonical_is_decimal).
    simpl. by rewrite bounded_number_str.
  - apply andb_true_iff in Hp as [_ ->%negb_true_iff]. done.
Qed.

Lemma parse_prerelease_sound ids ps loc :
  Forall (λ i, wf_identifier i = true) ids → parse_prerelease ids loc = Ok ps →
  map identifier_str ps = ids ∧ forallb wf_prerelease ps = true.
Proof.
  intros Hids. revert ps. induction Hids as [|i ids Hi Hids IH]; intros ps; simpl.
  { by intros [= <-]. }
  assert (str_empty i = false) as -> by (apply andb_true_iff in Hi as [?%negb_true_iff _]; done).
  destruct (is_decimal i) eqn:Hd.
  - rewrite leading_zero by done. destruct (canonical_decimal i) eqn:Hc; [|done]. simpl.
    destruct (bounded_number i) as [n|] eqn:Hb; [|done].
    destruct (parse_prerelease ids loc) as [ps'|]; [|done]. intros [= <-].
    destruct (IH ps' eq_refl) as [<- Hps'].
    destruct (bounded_number_Some i n Hc Hb) as [<- Hn].
    split; [done|]. simpl. unfold wf_number in Hn. by rewrite Hn.
  - destruct (parse_prerelease ids loc) as [ps'|]; [|done]. intros [= <-].
    destruct (IH ps' eq_refl) as [<- Hps']. split; [done|]. simpl. by rewrite Hi, Hd, Hps'.
Qed.
End roundtrip.

Section theorems.
Context `{UnicodeData}.

Definition opt_join (ids : list string) : option string :=
  if bool_decide (ids = []) then None else Some (join "." ids).

Definition version_groups (v : SemVer) : SemVerGroups :=
  MkGroups (str_Z (sv_major v)) (str_Z (sv_minor v)) (str_Z (sv_patch v))
    (opt_join (map identifier_str (sv_prerelease v))) (opt_join (sv_build v)).

Lemma opt_join_Some ids s : opt_join ids = Some s ↔ ids ≠ [] ∧ s = join "." ids.
Proof. unfold opt_join. case_bool_decide; naive_solver. Qed.

Lemma opt_join_wf ids :
  Forall (λ i, wf_identifier i = true) ids → wf_opt_identifiers (opt_join ids).
Proof. intros Hids s [Hne ->]%opt_join_Some. by exists ids. Qed.

Lemma version_groups_text v : groups_text (version_groups v) = semver_str v.
Proof.
  unfold groups_text, semver_str, version_groups. simpl.
  by destruct (sv_prerelease v), (sv_build v).
Qed.

Lemma wf_semver_inv v : wf_semver v = true →
  wf_number (sv_major v) = true ∧ wf_number (sv_minor v) = true ∧ wf_number (sv_patch v) = true
  ∧ Forall (λ p, wf_prerelease p = true) (sv_prerelease v)
  ∧ Forall (λ i, wf_identifier i = true) (sv_build v).
Proof.
  unfold wf_semver. rewrite !andb_true_iff, !forallb_forall.
  intros [[[[Ha Hb] Hc] Hp] Hd]. split_and!; try done; apply Forall_forall;
    intros x Hx%list_elem_of_In; auto.
Qed.

Lemma identifiers_wf ps :
  Forall (λ p, wf_prerelease p = true) ps →
  Forall (λ i, wf_identifier i = true) (map identifier_str ps).
Proof. induction 1; constructor; [by apply wf_prerelease_text|done]. Qed.

Lemma wf_number_canonical n : wf_number n = true → canonical_decimal (str_Z n) = true.
Proof. intros [Hn%Z.leb_le _]%andb_true_iff. by apply str_Z_canonical. Qed.

Lemma version_groups_wf v : wf_semver v = true → wf_groups (version_groups v).
Proof.
  intros (Ha & Hb & Hc & Hp & Hd)%wf_semver_inv.
  unfold wf_groups, version_groups. simpl. split_and!; try by apply wf_number_canonical.
  - by apply opt_join_wf, identifiers_wf.
  - by apply opt_join_wf.
Qed.

Lemma identifiers_split ids :
  ids ≠ [] → Forall (λ i, wf_identifier i = true) ids → split_on "." (join "." ids) = ids.
Proof.
  intros Hne Hids. apply (split_on_join "."); [done|].
  eapply Forall_impl; [exact Hids|]. intros i Hi. by apply identifier_no_char.
Qed.

Lemma join_not_empty ids :
  ids ≠ [] → Forall (λ i, wf_identifier i = true) ids → str_empty (join "." ids) = false.
Proof.
  intros Hne Hids. destruct Hids as [|i ids [Hi _]%andb_true_iff _]; [done|].
  destruct i; [done|]. by destruct ids.
Qed.

(** What [parse_semver] does with a matched string. *)
Lemma parse_groups raw g loc v :
  semver_groups raw = Some g →
  parse_semver raw loc = Ok v ↔ wf_semver v = true ∧ g = version_groups v.
Proof.
  intros Hg. unfold parse_semver. rewrite Hg. apply semver_groups_iff in Hg as [Hwf _].
  destruct g as [a b c p d], Hwf as (Ha & Hb & Hc & Hp & Hd). simpl in *. split.
  - destruct (bounded_number a) as [na|] eqn:Ea; [|done].
    destruct (bounded_number b) as [nb|] eqn:Eb; [|done].
    destruct (bounded_number c) as [nc|] eqn:Ec; [|done].
    destruct (bounded_number_Some _ _ Ha Ea) as [<- Hma].
    destruct (bounded_number_Some _ _ Hb Eb) as [<- Hmi].
    destruct (bounded_number_Some _ _ Hc Ec) as [<- Hpa].
    assert (∀ ps, parse_prerelease (split_on "." (or_empty p)) loc = Ok ps →
      forallb wf_prerelease ps = true ∧ p = opt_join (map identifier_str ps)) as Hpre.
    { intros ps. destruct p as [s|]; simpl; [|by intros [= <-]].
      destruct (Hp s eq_refl) as (ids & Hne & Hids & ->). rewrite identifiers_split by done.
      intros Hps. destruct (parse_prerelease_sound ids ps loc Hids Hps) as [<- ?].
      split; [done|]. symmetry. by apply opt_join_Some. }
    destruct (parse_prerelease _ loc) as [ps|]; [|done].
    destruct (Hpre ps eq_refl) as [Hps ->]. intros [= <-].
    unfold wf_semver, version_groups. simpl. rewrite Hma, Hmi, Hpa, Hps. simpl.
    destruct d as [s|]; [|done]. destruct (Hd s eq_refl) as (ids & Hne & Hids & ->).
    rewrite join_not_empty, identifiers_split by done. split.
    + apply forallb_forall. intros i Hi%list_elem_of_In.
      by apply (proj1 (Forall_forall _ _) Hids).
    + f_equal. symmetry. by apply opt_join_Some.
  - intros [(Hma & Hmi & Hpa & Hps & Hbs)%wf_semver_inv [= -> -> -> -> ->]].
    rewrite !bounded_number_str by done.
    assert (parse_prerelease (split_on "." (or_empty (opt_join (map identifier_str
      (sv_prerelease v))))) loc = Ok (sv_prerelease v)) as ->.
    { unfold opt_join. case_bool_decide as E; [by destruct (sv_prerelease v)|].
      change (or_empty (Some ?s)) with s. rewrite identifiers_split by (done || by apply identifiers_wf).
      apply parse_prerelease_print. apply forallb_forall.
      intros x Hx%list_elem_of_In. by apply (proj1 (Forall_forall _ _) Hps). }
    simpl. f_equal. destruct v as [? ? ? ? bs]. simpl in *. f_equal.
    unfold opt_join. case_bool_decide as E; [by subst|].
    by rewrite join_not_empty, identifiers_split.
Qed.

Lemma parse_semver_exact raw loc v :
  parse_semver raw loc = Ok v ↔ wf_semver v = true ∧ raw = semver_str v.
Proof.
  destruct (semver_groups raw) as [g|] eqn:Hg.
  - rewrite (parse_groups raw g loc v Hg). apply semver_groups_iff in Hg as [Hwf ->].
    split; intros [Hv E]; (split; [done|]).
    + by rewrite E, version_groups_text.
    + rewrite <-version_groups_text in E.
      pose proof (semver_groups_text g Hwf) as H1.
      pose proof (semver_groups_text _ (version_groups_wf v Hv)) as H2. congruence.
  - unfold parse_semver. rewrite Hg. split; [done|]. intros [Hv ->].
    rewrite <-version_groups_text, (semver_groups_text _ (version_groups_wf v Hv)) in Hg. done.
Qed.

(** Parsing and printing versions are inverse: [parse_semver] accepts
    exactly the texts of well-formed versions, and returns the version whose
    text it was given. *)
Theorem parse_semver_iff raw loc v :
  parse_semver raw loc = Ok v ↔ wf_semver v = true ∧ raw = semver_str v.
Proof. apply parse_semver_exact. Qed.
End theorems.

(** SemVer precedence is a strict total order on versions up to build
    metadata: irreflexive, transitive, and any two versions are ordered one
    way or have the same precedence, exclusively. *)
Theorem semver_precedence_total_order :
  (∀ v, semver_lt v v = false) ∧
  (∀ u v w, semver_lt u v = true → semver_lt v w = true → semver_lt u w = true) ∧
  (∀ v w, (semver_lt v w = true ∧ same_precedence v w = false ∧ semver_lt w v = false)
        ∨ (semver_lt v w = false ∧ same_precedence v w = true ∧ semver_lt w v = false)
        ∨ (semver_lt v w = false ∧ same_precedence v w = false ∧ semver_lt w v = true)).
Proof.
  split_and!.
  - intros v. rewrite semver_lt_key. apply plt_irrefl.
  - intros u v w. rewrite !semver_lt_key. apply plt_trans.
  - intros v w. rewrite !semver_lt_key.
    assert (∀ a b, plt (precedence_key a) (precedence_key b) = true →
              same_precedence a b = false) as Hne.
    { intros a b Hlt. apply not_true_iff_false. intros E%same_precedence_key.
      by rewrite E, plt_irrefl in Hlt. }
    destruct (plt_total (precedence_key v) (precedence_key w)) as [Hlt|[E|Hlt]].
    + left. split_and!; [done|by apply Hne|by apply plt_asym].
    + right; left. split_and!; [rewrite E; apply plt_irrefl|by apply same_precedence_key|].
      rewrite E. apply plt_irrefl.
    + right; right. split_and!; [by apply plt_asym| |done].
      apply Hne in Hlt. rewrite <-Hlt. apply eq_true_iff_eq. rewrite !same_precedence_key. done.
Qed.

(** [version_bounds] accepts exactly the bounds that leave a non-empty
    half-open interval, and [allows] is membership in it: a version at the
    minimum is allowed, one at the maximum is not. *)
Theorem version_bounds_half_open lo hi loc b :
  version_bounds (Some lo) (Some hi) loc = Ok b →
  (∀ v, allows b v = negb (semver_lt v lo) && semver_lt v hi) ∧
  allows b lo = true ∧ allows b hi = false.
Proof.
  simpl. destruct (semver_lt lo hi) eqn:Hlt; simpl; [|done]. intros [= <-].
  assert (∀ v, allows (MkBounds (Some lo) (Some hi)) v
               = negb (semver_lt v lo) && semver_lt v hi) as E.
  { intros v. unfold allows. simpl. by destruct (semver_lt v lo). }
  split_and!; [exact E|rewrite E..].
  - by rewrite (semver_lt_key lo lo), plt_irrefl.
  - rewrite (semver_lt_key hi hi), plt_irrefl. apply andb_false_r.
Qed.

Lemma version_bounds_half_open_witness :
  let v n := MkSemVer n 0%Z 0%Z [] [] in
  version_bounds (Some (v 1%Z)) (Some (v 2%Z)) None = Ok (MkBounds (Some (v 1%Z)) (Some (v 2%Z)))
  ∧ allows (MkBounds (Some (v 1%Z)) (Some (v 2%Z))) (v 2%Z) = false.
Proof.
  intros v. split; [reflexivity|].
  apply (version_bounds_half_open (v 1%Z) (v 2%Z) None (MkBounds (Some (v 1%Z)) (Some (v 2%Z)))).
  reflexivity.
Defined.

(** The precedence example of SemVer 2.0, section 11. *)
Example semver_spec_order :
  let pre ps := MkSemVer 1%Z 0%Z 0%Z ps [] in
  let chain := [pre [PStr "alpha"]; pre [PStr "alpha"; PInt 1%Z]; pre [PStr "alpha"; PStr "beta"];
                pre [PStr "beta"]; pre [PStr "beta"; PInt 2%Z]; pre [PStr "beta"; PInt 11%Z];
                pre [PStr "rc"; PInt 1%Z]; pre []] in
  forallb (λ vw, semver_lt vw.1 vw.2) (zip chain (drop 1 chain)) = true.
Proof. reflexivity. Qed.
