(* ===== verification/Json.v ===== *)
(** Strict immutable JSON ([src/agent_artifacts/protocol/json.py]): the frozen
    values, the canonical serialiser and the strict parser.

    [json.loads] and [json.dumps] are modelled as the standard library defines
    them; the text and position of a [JSONDecodeError], which change between
    Python releases, are the parameter [DecodeErrors].  The interpreter's own
    recursion limit is not modelled. *)
From S2P Require Import Prelude PyText Domain.
From Stdlib Require Import Ascii.

Definition JSON_INVALID := MkCode "protocol-json-invalid".
Definition JSON_DUPLICATE_KEY := MkCode "protocol-json-duplicate-key".
Definition JSON_FLOAT := MkCode "protocol-json-float".
Definition JSON_INTEGER_RANGE := MkCode "protocol-json-integer-range".
Definition JSON_UNICODE := MkCode "protocol-json-unicode".
Definition JSON_DEPTH := MkCode "protocol-json-depth".
Definition JSON_STRING_LENGTH := MkCode "protocol-json-string-length".

Definition MIN_PROTOCOL_INTEGER : Z := (- 2 ^ 63)%Z.
Definition MAX_PROTOCOL_INTEGER : Z := (2 ^ 63 - 1)%Z.

(** * Values *)

Inductive JsonValue : Type :=
  | JNull
  | JBool (b : bool)
  | JInt (n : Z)
  | JStr (s : string)
  | JsonArray (items : list JsonValue)
  | JsonObject (entries : list (string * JsonValue)).

(** Induction with the hypothesis for every item and every entry. *)
Section json_ind.
Context (P : JsonValue → Prop).
Hypothesis Hnull : P JNull.
Hypothesis Hbool : ∀ b, P (JBool b).
Hypothesis Hint : ∀ n, P (JInt n).
Hypothesis Hstr : ∀ s, P (JStr s).
Hypothesis Harr : ∀ l, Forall P l → P (JsonArray l).
Hypothesis Hobj : ∀ d, Forall (λ kv, P kv.2) d → P (JsonObject d).

Fixpoint json_ind (v : JsonValue) : P v :=
  match v with
  | JNull => Hnull
  | JBool b => Hbool b
  | JInt n => Hint n
  | JStr s => Hstr s
  | JsonArray l =>
      Harr l ((fix go l : Forall P l :=
        match l with
        | [] => Forall_nil_2 _
        | v :: l => Forall_cons_2 _ _ _ (json_ind v) (go l)
        end) l)
  | JsonObject d =>
      Hobj d ((fix go d : Forall (λ kv, P kv.2) d :=
        match d with
        | [] => Forall_nil_2 _
        | kv :: d => Forall_cons_2 _ _ _ (json_ind kv.2) (go d)
        end) d)
  end.
End json_ind.

(** Structural comparison, with [leaf] deciding the scalars. *)
Section json_compare.
Context (leaf : JsonValue → JsonValue → bool).

Fixpoint json_compare (v w : JsonValue) : bool :=
  match v, w with
  | JsonArray l, JsonArray k =>
      (fix go (l k : list JsonValue) : bool :=
        match l, k with
        | [], [] => true
        | v :: l, w :: k => json_compare v w && go l k
        | _, _ => false
        end) l k
  | JsonObject d, JsonObject e =>
      (fix go (d e : list (string * JsonValue)) : bool :=
        match d, e with
        | [], [] => true
        | kv :: d, kw :: e => String.eqb kv.1 kw.1 && json_compare kv.2 kw.2 && go d e
        | _, _ => false
        end) d e
  | (JsonArray _ | JsonObject _), _ | _, (JsonArray _ | JsonObject _) => false
  | _, _ => leaf v w
  end.
End json_compare.

(** Equal as Rocq terms. *)
Definition same_leaf (v w : JsonValue) : bool :=
  match v, w with
  | JNull, JNull => true
  | JBool a, JBool b => Bool.eqb a b
  | JInt a, JInt b => (a =? b)%Z
  | JStr a, JStr b => String.eqb a b
  | _, _ => false
  end.

(** Python's [==]: [True == 1] and [False == 0]. *)
Definition bool_int (b : bool) : Z := if b then 1%Z else 0%Z.
Definition py_leaf (v w : JsonValue) : bool :=
  match v, w with
  | JBool a, JInt b => (bool_int a =? b)%Z
  | JInt a, JBool b => (a =? bool_int b)%Z
  | _, _ => same_leaf v w
  end.
Definition json_eqb : JsonValue → JsonValue → bool := json_compare same_leaf.
Definition json_py_eq : JsonValue → JsonValue → bool := json_compare py_leaf.

Lemma json_eqb_eq v w : json_eqb v w = true ↔ v = w.
Proof.
  revert w. induction v as [|b|n|s|l IH|d IH] using json_ind;
    intros [|b'|n'|s'|k|e]; try done; unfold json_eqb; cbn.
  - rewrite Bool.eqb_true_iff. naive_solver.
  - rewrite Z.eqb_eq. naive_solver.
  - rewrite String.eqb_eq. naive_solver.
  - revert k. induction IH as [|v l Hv _ IHl]; intros [|w k]; try done.
    rewrite andb_true_iff. specialize (IHl k). specialize (Hv w). unfold json_eqb in Hv.
    rewrite Hv, IHl. naive_solver.
  - revert e. induction IH as [|[k v] d Hv _ IHd]; intros [|[k' w] e]; try done.
    rewrite !andb_true_iff, String.eqb_eq. specialize (IHd e). specialize (Hv w).
    unfold json_eqb in Hv. simpl in *. rewrite Hv, IHd. naive_solver.
Qed.

#[export] Instance json_eq_dec : EqDecision JsonValue.
Proof.
  intros v w. destruct (json_eqb v w) eqn:E.
  - left. by apply json_eqb_eq.
  - right. intros H. apply json_eqb_eq in H. congruence.
Defined.

(** [JsonObject(entries)] with its [__post_init__]. *)
Definition json_object_init (entries : list (string * JsonValue)) : py JsonValue :=
  _ ← raise_if (has_dups entries.*1) "JsonObject entries must have unique keys";
  Ret (JsonObject (sorted fst entries)).

(** [JsonObject(entries)] where the keys are visibly distinct. *)
Definition json_object (entries : list (string * JsonValue)) : JsonValue :=
  JsonObject (sorted fst entries).

Lemma json_object_init_Ret entries :
  NoDup entries.*1 → json_object_init entries = Ret (json_object entries).
Proof. intros Hd. unfold json_object_init. by rewrite (proj2 (has_dups_false _) Hd). Qed.

(** [JsonObject.get(key)] *)
Definition json_get (entries : list (string * JsonValue)) (key : string) : option JsonValue :=
  dget key entries.

(** * Serialising *)

(** [ESCAPE_DCT] of [json.encoder], [ensure_ascii=False] *)
Definition escape_char (c : ascii) : string :=
  if is_char "034" c then String "\" (String "034" "")
  else if is_char "\" c then "\\"
  else if is_char newline c then "\n"
  else if is_char creturn c then "\r"
  else if is_char "009" c then "\t"
  else if is_char "012" c then "\f"
  else if is_char "008" c then "\b"
  else if (code c <? 32)%N then "\u00" +:+ hex_pad 2 (code c) ""
  else String c "".
Fixpoint escape (s : string) : string :=
  match s with EmptyString => "" | String c s => escape_char c +:+ escape s end.
Definition quote : string := String "034" "".
Definition dump_string (s : string) : string := quote +:+ escape s +:+ quote.

(** [_to_python] *)
Fixpoint to_python (v : JsonValue) : data :=
  match v with
  | JNull => DNone
  | JBool b => DBool b
  | JInt n => DInt n
  | JStr s => DStr s
  | JsonArray l => DList (map to_python l)
  | JsonObject d => DDict (dict_of (map (λ kv, (kv.1, to_python kv.2)) d))
  end.

(** [json.dumps(value, ensure_ascii=False, allow_nan=False, sort_keys=True,
    separators=(",", ":"))] *)
Fixpoint dumps (v : data) : string :=
  match v with
  | DNone => "null"
  | DBool b => if b then "true" else "false"
  | DInt n => str_Z n
  | DStr s => dump_string s
  | DList l => "[" +:+ join "," (map dumps l) +:+ "]"
  | DDict d =>
      "{" +:+ join "," (map (λ kt, dump_string kt.1 +:+ ":" +:+ kt.2)
                          (sorted fst (map (λ kv, (kv.1, dumps kv.2)) d))) +:+ "}"
  end.

Definition canonical_json_bytes (v : JsonValue) : bytes :=
  dumps (to_python v) +:+ String newline "".

(** * Parsing *)

Class DecodeErrors := {
  (** message, line and column of the [JSONDecodeError] for a text *)
  decode_error : string → string * Z * Z
}.

(** One step of the decoder: a value and the rest of the text, a
    [_ParseProblem], a [JSONDecodeError], or (never, by [loads_total]) an
    exhausted fuel. *)
Inductive scan (A : Type) : Type :=
  | Scanned (a : A) (rest : string)
  | Problem (code : DiagnosticCode) (message : string)
  | DecodeError
  | OutOfFuel.
Global Arguments Scanned {_} _ _.
Global Arguments Problem {_} _ _.
Global Arguments DecodeError {_}.
Global Arguments OutOfFuel {_}.

Definition scan_bind {A B} (m : scan A) (f : A → string → scan B) : scan B :=
  match m with
  | Scanned a rest => f a rest
  | Problem c msg => Problem c msg
  | DecodeError => DecodeError
  | OutOfFuel => OutOfFuel
  end.
Notation "'let*' ( a , s ) := m 'in' k" := (scan_bind m (λ a s, k))
  (at level 10, a name, s name, m at level 100, k at level 200).

Definition is_json_space (c : ascii) : bool :=
  is_char " " c || is_char "009" c || is_char newline c || is_char creturn c.
Fixpoint skip_space (s : string) : string :=
  match s with
  | String c s' => if is_json_space c then skip_space s' else s
  | EmptyString => ""
  end.

(** The rest of the text when its next character is [c]. *)
Definition expect (c : ascii) (s : string) : option string :=
  match s with
  | String d rest => if is_char c d then Some rest else None
  | EmptyString => None
  end.

(** The UTF-8 bytes of a code point (surrogates included). *)
Definition chr (n : N) : string :=
  (let b m := ascii_of_N m in
   if n <? 128 then String (b n) ""
   else if n <? 2048 then String (b (192 + n / 64)) (String (b (128 + n mod 64)) "")
   else if n <? 65536 then
     String (b (224 + n / 4096)) (String (b (128 + (n / 64) mod 64)) (String (b (128 + n mod 64)) ""))
   else String (b (240 + n / 262144)) (String (b (128 + (n / 4096) mod 64))
          (String (b (128 + (n / 64) mod 64)) (String (b (128 + n mod 64)) ""))))%N.

Definition hex_any (c : ascii) : option N :=
  if is_digit c then Some (code c - 48)%N
  else if between 97 102 c then Some (code c - 87)%N
  else if between 65 70 c then Some (code c - 55)%N
  else None.

(** The four digits of a [\u] escape. *)
Definition hex4 (s : string) : option (N * string) :=
  match s with
  | String a (String b (String c (String d rest))) =>
      match hex_any a, hex_any b, hex_any c, hex_any d with
      | Some a, Some b, Some c, Some d => Some ((((a * 16 + b) * 16 + c) * 16 + d)%N, rest)
      | _, _, _, _ => None
      end
  | _ => None
  end.

(** [py_scanstring] in strict mode, after the opening quote. *)
Fixpoint scan_string (fuel : nat) (s : string) (acc : string) : scan string :=
  match fuel with
  | O => OutOfFuel
  | S fuel =>
      match s with
      | EmptyString => DecodeError
      | String c s =>
          if is_char "034" c then Scanned acc s
          else if (code c <? 32)%N then DecodeError
          else if is_char "\" c then
            match s with
            | EmptyString => DecodeError
            | String e s =>
                if is_char "u" e then
                  match hex4 s with
                  | None => DecodeError
                  | Some (n, rest) =>
                      match (if (55296 <=? n)%N && (n <=? 56319)%N then
                               match (expect "\" rest ≫= expect "u") ≫= hex4 with
                               | Some (m, rest3) =>
                                   if (56320 <=? m)%N && (m <=? 57343)%N
                                   then Some ((65536 + (n - 55296) * 1024 + (m - 56320))%N, rest3)
                                   else None
                               | None => None
                               end
                             else None) with
                      | Some (n, rest) => scan_string fuel rest (acc +:+ chr n)
                      | None => scan_string fuel rest (acc +:+ chr n)
                      end
                  end
                else
                  let put (d : string) := scan_string fuel s (acc +:+ d) in
                  if is_char "034" e then put (String "034" "")
                  else if is_char "\" e then put "\"
                  else if is_char "/" e then put "/"
                  else if is_char "b" e then put (String "008" "")
                  else if is_char "f" e then put (String "012" "")
                  else if is_char "n" e then put (String "010" "")
                  else if is_char "r" e then put (String "013" "")
                  else if is_char "t" e then put (String "009" "")
                  else DecodeError
            end
          else scan_string fuel s (acc +:+ String c "")
      end
  end.

(** The longest run of digits, and what follows it. *)
Fixpoint take_digits (s : string) : string * string :=
  match s with
  | String c s' => if is_digit c then let '(d, r) := take_digits s' in (String c d, r) else ("", s)
  | EmptyString => ("", "")
  end.

(** [_parse_integer] *)
Definition parse_integer (raw : string) : scan Z :=
  let negative := String.prefix "-" raw in
  let digits := if negative then str_drop 1 raw else raw in
  let range := Problem JSON_INTEGER_RANGE "JSON integer is outside signed 64-bit range" in
  if (19 <? String.length digits)%nat then range
  else
    let value := if negative then (- int_of digits)%Z else int_of digits in
    if (MIN_PROTOCOL_INTEGER <=? value)%Z && (value <=? MAX_PROTOCOL_INTEGER)%Z
    then Scanned value "" else range.

(** [NUMBER_RE]: integer part, fraction and exponent texts. *)
Definition scan_fraction (s : string) : string * string :=
  match expect "." s with
  | Some s' => let '(d, r) := take_digits s' in
               if str_empty d then ("", s) else ("." +:+ d, r)
  | None => ("", s)
  end.
Definition scan_exponent (s : string) : string * string :=
  match s with
  | String e s' =>
      if is_char "e" e || is_char "E" e then
        let '(sign, s2) := match expect "+" s' with
                           | Some r => ("+", r)
                           | None => match expect "-" s' with Some r => ("-", r) | None => ("", s') end
                           end in
        let '(d, r) := take_digits s2 in
        if str_empty d then ("", s) else (String e sign +:+ d, r)
      else ("", s)
  | EmptyString => ("", s)
  end.
Definition scan_natural (sign s : string) : option (string * string) :=
  match expect "0" s with
  | Some r => Some (sign +:+ "0", r)
  | None => let '(d, r) := take_digits s in
            if str_empty d then None else Some (sign +:+ d, r)
  end.
Definition scan_integer (s : string) : option (string * string) :=
  match expect "-" s with
  | Some r => scan_natural "-" r
  | None => scan_natural "" s
  end.

Definition scan_number (s : string) : scan Z :=
  match scan_integer s with
  | None => DecodeError
  | Some (integer, r) =>
      let '(frac, r1) := scan_fraction r in
      let '(exp, r2) := scan_exponent r1 in
      if str_empty frac && str_empty exp
      then let* (n, _s) := parse_integer integer in Scanned n r2
      else Problem JSON_FLOAT ("floating-point JSON number is forbidden: "
                               +:+ integer +:+ frac +:+ exp)
  end.

(** [_object_pairs] on pairs already in textual order. *)
Section object_pairs.
Context `{UnicodeData}.
Fixpoint object_pairs (pairs result : list (string * data)) : scan data :=
  match pairs with
  | [] => Scanned (DDict result) ""
  | (key, value) :: pairs =>
      if mem key result.*1
      then Problem JSON_DUPLICATE_KEY ("duplicate JSON object key: " +:+ repr key)
      else object_pairs pairs (dset key value result)
  end.
End object_pairs.

Definition constant_error {A} (raw : string) : scan A :=
  Problem JSON_INVALID ("non-standard JSON constant is forbidden: " +:+ raw).

(** [p in s] at the front: the rest after [p]. *)
Definition after (p s : string) : option string :=
  if String.prefix p s then Some (str_drop (String.length p) s) else None.

Section loads.
Context `{UnicodeData} `{DecodeErrors}.

(** [scan_once] of [json.scanner], with the hooks of [parse_json]. *)
Fixpoint scan_value (fuel : nat) (s : string) : scan data :=
  match fuel with
  | O => OutOfFuel
  | S fuel =>
      match s with
      | EmptyString => DecodeError
      | String c rest =>
          if is_char "034" c then
            let* (text, r) := scan_string (S (String.length rest)) rest "" in Scanned (DStr text) r
          else if is_char "{" c then
            match expect "}" (skip_space rest) with
            | Some r => let* (d, _r) := object_pairs [] [] in Scanned d r
            | None => scan_members fuel (skip_space rest) []
            end
          else if is_char "[" c then
            match expect "]" (skip_space rest) with
            | Some r => Scanned (DList []) r
            | None => scan_elements fuel (skip_space rest) []
            end
          else match after "null" s, after "true" s, after "false" s with
          | Some r, _, _ => Scanned DNone r
          | _, Some r, _ => Scanned (DBool true) r
          | _, _, Some r => Scanned (DBool false) r
          | _, _, _ =>
              match scan_number s with
              | DecodeError =>
                  match after "NaN" s, after "Infinity" s, after "-Infinity" s with
                  | Some _, _, _ => constant_error "NaN"
                  | _, Some _, _ => constant_error "Infinity"
                  | _, _, Some _ => constant_error "-Infinity"
                  | _, _, _ => DecodeError
                  end
              | r => let* (n, r') := r in Scanned (DInt n) r'
              end
          end
      end
  end
(** [JSONArray] after the opening bracket and the space. *)
with scan_elements (fuel : nat) (s : string) (items : list data) : scan data :=
  match fuel with
  | O => OutOfFuel
  | S fuel =>
      let* (v, r) := scan_value fuel s in
      match expect "]" (skip_space r), expect "," (skip_space r) with
      | Some r, _ => Scanned (DList (items ++ [v])) r
      | _, Some r => scan_elements fuel (skip_space r) (items ++ [v])
      | _, _ => DecodeError
      end
  end
(** [JSONObject] after the opening brace and the space. *)
with scan_members (fuel : nat) (s : string) (pairs : list (string * data)) : scan data :=
  match fuel with
  | O => OutOfFuel
  | S fuel =>
      match expect "034" s with
      | None => DecodeError
      | Some r =>
          let* (key, r) := scan_string (S (String.length r)) r "" in
          match expect ":" (skip_space r) with
          | None => DecodeError
          | Some r =>
              let* (v, r) := scan_value fuel (skip_space r) in
              match expect "}" (skip_space r), expect "," (skip_space r) with
              | Some r, _ => let* (d, _r) := object_pairs (pairs ++ [(key, v)]) [] in Scanned d r
              | _, Some r => scan_members fuel (skip_space r) (pairs ++ [(key, v)])
              | _, _ => DecodeError
              end
          end
      end
  end.

(** [json.loads(text, ...)]: one value between optional spaces, no byte-order
    mark. *)
Definition byte_order_mark : string := chr 65279.
Definition loads (text : string) : scan data :=
  if String.prefix byte_order_mark text then DecodeError
  else
    let* (v, r) := scan_value (S (2 * String.length text)) (skip_space text) in
    match skip_space r with EmptyString => Scanned v "" | _ => DecodeError end.

(** [_validated_text] *)
Definition validated_text (value : string) (max_string_length : Z) :
    (DiagnosticCode * string) + string :=
  if (max_string_length <? Z.of_nat (str_len value))%Z
  then inl (JSON_STRING_LENGTH, "JSON string exceeds " +:+ str_Z max_string_length +:+ " code points")
  else if has_surrogate value
  then inl (JSON_UNICODE, "JSON contains an unpaired Unicode surrogate")
  else inr value.

(** [_freeze] *)
Fixpoint freeze (value : data) (depth max_depth max_string_length : Z) :
    (DiagnosticCode * string) + JsonValue :=
  if (max_depth <? depth)%Z
  then inl (JSON_DEPTH, "JSON nesting exceeds maximum depth " +:+ str_Z max_depth)
  else match value with
  | DNone => inr JNull
  | DBool b => inr (JBool b)
  | DInt n =>
      if (MIN_PROTOCOL_INTEGER <=? n)%Z && (n <=? MAX_PROTOCOL_INTEGER)%Z then inr (JInt n)
      else inl (JSON_INTEGER_RANGE, "JSON integer is outside signed 64-bit range")
  | DStr s => match validated_text s max_string_length with
              | inl e => inl e | inr s => inr (JStr s) end
  | DList l =>
      match (fix go (l : list data) : (DiagnosticCode * string) + list JsonValue :=
        match l with
        | [] => inr []
        | v :: l =>
            match freeze v (depth + 1)%Z max_depth max_string_length with
            | inl e => inl e
            | inr v => match go l with inl e => inl e | inr l => inr (v :: l) end
            end
        end) l with
      | inl e => inl e | inr l => inr (JsonArray l) end
  | DDict d =>
      match (fix go (d : list (string * data)) : (DiagnosticCode * string) + list (string * JsonValue) :=
        match d with
        | [] => inr []
        | (k, v) :: d =>
            match validated_text k max_string_length with
            | inl e => inl e
            | inr k =>
                match freeze v (depth + 1)%Z max_depth max_string_length with
                | inl e => inl e
                | inr v => match go d with inl e => inl e | inr d => inr ((k, v) :: d) end
                end
            end
        end) d with
      | inl e => inl e | inr d => inr (json_object d) end
  end.

Definition json_problem {A} (code : DiagnosticCode) (message : string)
    (location : option SourceLocation) : Result A :=
  fail1 (diagnostic code ERROR message location [] []).

(** [parse_json] of a [str]. *)
Definition parse_json_text (text : string) (location : option SourceLocation)
    (max_depth max_string_length : Z) : py (Result JsonValue) :=
  _ ← raise_if ((max_depth <? 0)%Z || (max_string_length <? 0)%Z)
        "JSON bounds must be non-negative";
  Ret match loads text with
  | Scanned parsed _ =>
      match freeze parsed 0 max_depth max_string_length with
      | inl (code, message) => json_problem code message location
      | inr v => Ok v
      end
  | Problem code message => json_problem code message location
  | DecodeError =>
      let '(message, line, column) := decode_error text in
      json_problem JSON_INVALID ("invalid JSON: " +:+ message)
        (Some (MkLocation (location ≫= loc_source) (location ≫= loc_path)
                 (location ≫= loc_pointer) (Some line) (Some column)))
  | OutOfFuel => json_problem JSON_DEPTH "" location
  end.
End loads.

(** [data.decode("utf-8", errors="strict")] succeeds. *)
Definition is_cont (c : ascii) : bool := between 128 191 c.
Fixpoint valid_utf8 (s : bytes) : bool :=
  match s with
  | EmptyString => true
  | String a s =>
      if is_ascii_char a then valid_utf8 s
      else match s with
      | String b s =>
          if between 194 223 a then is_cont b && valid_utf8 s
          else match s with
          | String c s =>
              if between 224 239 a then
                is_cont b && is_cont c
                && (if is_char "224" a then between 160 191 b
                    else if is_char "237" a then between 128 159 b else true)
                && valid_utf8 s
              else match s with
              | String d s =>
                  between 240 244 a && is_cont b && is_cont c && is_cont d
                  && (if is_char "240" a then between 144 191 b
                      else if is_char "244" a then between 128 143 b else true)
                  && valid_utf8 s
              | EmptyString => false
              end
          | EmptyString => false
          end
      | EmptyString => false
      end
  end.

(** The default bounds of [parse_json]. *)
Definition MAX_DEPTH : Z := 64.
Definition MAX_STRING : Z := 1000000.

(** [parse_json] of [bytes]. *)
Definition parse_json `{UnicodeData} `{DecodeErrors} (data : bytes) (location : option SourceLocation)
    (max_depth max_string_length : Z) : py (Result JsonValue) :=
  _ ← raise_if ((max_depth <? 0)%Z || (max_string_length <? 0)%Z)
        "JSON bounds must be non-negative";
  if valid_utf8 data then parse_json_text data location max_depth max_string_length
  else Ret (json_problem JSON_UNICODE "JSON input is not valid UTF-8" location).
