(* ===== verification/JsonParse.v ===== *)
(** The strict parser always answers, and inverts the canonical serialiser. *)
From S2P Require Import Prelude PyText Domain Json.
From Stdlib Require Import Ascii.

Abbreviation len := String.length.

(** * The fuel of [loads] is enough *)

(** A step that started with [n] bytes left consumed some, or failed for a
    reason of the text. *)
Definition progress {A} (n : nat) (m : scan A) : Prop :=
  match m with Scanned _ r => (len r < n)%nat | OutOfFuel => False | _ => True end.

Lemma skip_space_length s : (len (skip_space s) ≤ len s)%nat.
Proof. induction s as [|c s IH]; simpl; [done|]. destruct (is_json_space c); simpl; lia. Qed.

Lemma expect_length c s r : expect c s = Some r → len s = S (len r).
Proof. destruct s as [|d s]; simpl; [done|]. destruct (is_char c d); [by intros [= <-]|done]. Qed.

Lemma expect_space_length c s r : expect c (skip_space s) = Some r → (len r < len s)%nat.
Proof. intros E%expect_length. pose proof (skip_space_length s). lia. Qed.

Lemma hex4_length s n r : hex4 s = Some (n, r) → (len r < len s)%nat.
Proof.
  destruct s as [|a [|b [|c [|d s]]]]; simpl; try done.
  destruct (hex_any a), (hex_any b), (hex_any c), (hex_any d); intros; simplify_eq; lia.
Qed.

Lemma low_surrogate_length a b s m r :
  (expect a s ≫= expect b) ≫= hex4 = Some (m, r) → (len r < len s)%nat.
Proof.
  intros (x & (y & Hy & Hx)%bind_Some & Hh)%bind_Some.
  apply expect_length in Hy, Hx. apply hex4_length in Hh. lia.
Qed.

Lemma scan_string_progress fuel s acc :
  (len s < fuel)%nat → progress (len s) (scan_string fuel s acc).
Proof.
  revert s acc. induction fuel as [|fuel IH]; intros s acc Hf; [lia|].
  assert (∀ r acc', (len r < len s)%nat → progress (len s) (scan_string fuel r acc')) as Hrec.
  { intros r acc' Hr. specialize (IH r acc'). unfold progress in *.
    destruct (scan_string fuel r acc'); try done; [|apply IH; lia].
    assert (len rest < len r)%nat by (apply IH; lia). lia. }
  destruct s as [|c s]; [done|]. cbn [scan_string].
  repeat (case_match; try exact I; try (apply Hrec; simpl; lia)).
  { simpl. lia. }
  all: apply Hrec; repeat match goal with
    | H : hex4 _ = Some _ |- _ => apply hex4_length in H
    | H : _ ≫= hex4 = Some _ |- _ => apply low_surrogate_length in H
    end; simplify_eq/=; repeat case_match; simplify_eq/=;
    repeat match goal with H : _ ≫= hex4 = Some _ |- _ => apply low_surrogate_length in H end;
    lia.
Qed.

Lemma scan_drop_length n s : (len (str_drop n s) ≤ len s)%nat.
Proof. revert s. induction n as [|n IH]; intros [|c s]; simpl; try done. specialize (IH s). lia. Qed.

Lemma after_length p s r : after p s = Some r → p ≠ "" → (len r < len s)%nat.
Proof.
  unfold after. destruct (String.prefix p s) eqn:E; [|done]. intros [= <-] Hp.
  destruct p as [|c p]; [done|]. destruct s as [|c' s]; [done|].
  pose proof (scan_drop_length (len p) s). simpl. lia.
Qed.

Lemma take_digits_length s d r :
  take_digits s = (d, r) → (len r + len d = len s)%nat.
Proof.
  revert d r. induction s as [|c s IH]; intros d r; simpl; [intros [= <- <-]; done|].
  destruct (is_digit c); [|intros [= <- <-]; simpl; lia].
  destruct (take_digits s) as [d' r'] eqn:E. intros [= <- <-]. specialize (IH d' r' eq_refl).
  simpl. lia.
Qed.

Lemma scan_natural_length sign s t r : scan_natural sign s = Some (t, r) → (len r < len s)%nat.
Proof.
  unfold scan_natural. destruct (expect "0" s) eqn:E.
  - apply expect_length in E. intros [= _ <-]. lia.
  - destruct (take_digits s) as [d r'] eqn:Ed. apply take_digits_length in Ed.
    destruct d; simpl in *; [done|]. intros [= _ <-]. lia.
Qed.

Lemma scan_integer_length s t r : scan_integer s = Some (t, r) → (len r < len s)%nat.
Proof.
  unfold scan_integer. destruct (expect "-" s) eqn:E; [|apply scan_natural_length].
  apply expect_length in E. intros Hn%scan_natural_length. lia.
Qed.

Lemma scan_fraction_length s t r : scan_fraction s = (t, r) → (len r ≤ len s)%nat.
Proof.
  unfold scan_fraction. destruct (expect "." s) eqn:E; [|by intros [= _ <-]].
  apply expect_length in E. destruct (take_digits _) as [d r'] eqn:Ed.
  apply take_digits_length in Ed. destruct (str_empty d); intros [= _ <-]; lia.
Qed.

Lemma scan_exponent_length s t r : scan_exponent s = (t, r) → (len r ≤ len s)%nat.
Proof.
  unfold scan_exponent. destruct s as [|e s']; [by intros [= _ <-]|].
  destruct (is_char "e" e || is_char "E" e); [|by intros [= _ <-]].
  destruct (match expect "+" s' with Some r => _ | None => _ end) as [sign s2] eqn:Es.
  assert (len s2 ≤ len s')%nat.
  { destruct (expect "+" s') eqn:E1; [apply expect_length in E1; simplify_eq; lia|].
    destruct (expect "-" s') eqn:E2; [apply expect_length in E2; simplify_eq; lia|].
    by simplify_eq. }
  destruct (take_digits s2) as [d r'] eqn:E. apply take_digits_length in E.
  destruct (str_empty d); intros [= _ <-]; simpl; lia.
Qed.

Lemma scan_number_progress s : progress (len s) (scan_number s).
Proof.
  unfold scan_number. destruct (scan_integer s) as [[i r]|] eqn:Ei; [|done].
  apply scan_integer_length in Ei.
  destruct (scan_fraction r) as [f r1] eqn:Ef. apply scan_fraction_length in Ef.
  destruct (scan_exponent r1) as [e r2] eqn:Ee. apply scan_exponent_length in Ee.
  destruct (str_empty f && str_empty e); [|done].
  unfold parse_integer. repeat case_match; simpl; try done; lia.
Qed.

Section total.
Context `{UnicodeData} `{DecodeErrors}.

Lemma object_pairs_no_fuel pairs d : object_pairs pairs d ≠ OutOfFuel.
Proof.
  revert d. induction pairs as [|[k v] pairs IH]; intros d; simpl; [done|].
  by destruct (mem k d.*1).
Qed.

Lemma progress_bind {A B} n (m : scan A) (f : A → string → scan B) :
  progress n m → (∀ a r, (len r < n)%nat → progress n (f a r)) → progress n (scan_bind m f).
Proof. destruct m; simpl; auto. Qed.

Lemma progress_le {A} n m (x : scan A) : (n ≤ m)%nat → progress n x → progress m x.
Proof. destruct x; simpl; auto; lia. Qed.

Lemma progress_object pairs (n : nat) r :
  (len r < n)%nat → progress n (let* (d, _r) := object_pairs pairs [] in Scanned d r).
Proof.
  intros Hr. pose proof (object_pairs_no_fuel pairs []) as Hf.
  by destruct (object_pairs pairs []).
Qed.

Lemma scan_progress fuel :
  (∀ s, (2 * len s < fuel)%nat → progress (len s) (scan_value fuel s)) ∧
  (∀ s items, (2 * len s + 1 < fuel)%nat → progress (len s) (scan_elements fuel s items)) ∧
  (∀ s pairs, (2 * len s + 1 < fuel)%nat → progress (len s) (scan_members fuel s pairs)).
Proof.
  induction fuel as [|fuel (IHv & IHe & IHm)]; [split_and!; intros; lia|]. split_and!.
  - intros [|c s] Hf; [done|]. cbn [scan_value]. cbn [len] in *.
    destruct (is_char "034" c).
    { apply progress_bind; [|intros; simpl; lia].
      apply (progress_le (len s)); [lia|]. apply scan_string_progress. lia. }
    pose proof (skip_space_length s) as Hsk.
    destruct (is_char "{" c).
    { destruct (expect "}" _) eqn:E; [apply expect_space_length in E; simpl; lia|].
      apply (progress_le (len (skip_space s))); [lia|]. apply IHm. lia. }
    destruct (is_char "[" c).
    { destruct (expect "]" _) eqn:E; [apply expect_space_length in E; simpl; lia|].
      apply (progress_le (len (skip_space s))); [lia|]. apply IHe. lia. }
    destruct (after "null" _) eqn:E1; [apply after_length in E1; [|done]; simpl in *; lia|].
    destruct (after "true" _) eqn:E2; [apply after_length in E2; [|done]; simpl in *; lia|].
    destruct (after "false" _) eqn:E3; [apply after_length in E3; [|done]; simpl in *; lia|].
    pose proof (scan_number_progress (String c s)) as Hn.
    destruct (scan_number (String c s)); try done. by repeat case_match.
  - intros s items Hf. cbn [scan_elements]. apply progress_bind; [apply IHv; lia|].
    intros v r Hr. destruct (expect "]" _) eqn:E1; [apply expect_space_length in E1; simpl; lia|].
    destruct (expect "," _) as [q|] eqn:E2; [|done]. apply expect_space_length in E2.
    pose proof (skip_space_length q). apply (progress_le (len (skip_space q))); [lia|].
    apply IHe. lia.
  - intros s pairs Hf. cbn [scan_members].
    destruct (expect "034" s) as [q|] eqn:E; [|done]. apply expect_length in E.
    apply progress_bind.
    { apply (progress_le (len q)); [lia|]. apply scan_string_progress. lia. }
    intros key r Hr. destruct (expect ":" _) as [r1|] eqn:E1; [|done].
    apply expect_space_length in E1. pose proof (skip_space_length r1). apply progress_bind.
    { apply (progress_le (len (skip_space r1))); [lia|]. apply IHv. lia. }
    intros v r2 Hr2.
    destruct (expect "}" _) eqn:E2; [apply expect_space_length in E2; apply progress_object; lia|].
    destruct (expect "," _) as [r3|] eqn:E3; [|done]. apply expect_space_length in E3.
    pose proof (skip_space_length r3). apply (progress_le (len (skip_space r3))); [lia|].
    apply IHm. lia.
Qed.

(** The fuel [loads] starts with is enough for every text. *)
Lemma loads_total text : loads text ≠ OutOfFuel.
Proof.
  unfold loads. destruct (String.prefix _ _); [done|].
  pose proof (skip_space_length text) as Hsk.
  destruct (scan_progress (S (2 * len text))) as [Hv _].
  specialize (Hv (skip_space text) ltac:(lia)).
  destruct (scan_value _ _); simpl; try done. by destruct (skip_space rest).
Qed.
End total.

(** * The parser inverts the serialiser *)

(** The values [parse_json] accepts under the given bounds: texts are valid
    and short enough, integers fit 64 bits, objects have sorted unique keys. *)
Definition wf_text (max_string_length : Z) (s : string) : bool :=
  valid_utf8 s && negb (has_surrogate s) && (Z.of_nat (str_len s) <=? max_string_length)%Z.

Fixpoint wf_json (max_string_length depth : Z) (v : JsonValue) : bool :=
  (0 <=? depth)%Z &&
  match v with
  | JNull | JBool _ => true
  | JInt n => (MIN_PROTOCOL_INTEGER <=? n)%Z && (n <=? MAX_PROTOCOL_INTEGER)%Z
  | JStr s => wf_text max_string_length s
  | JsonArray l => forallb (wf_json max_string_length (depth - 1)) l
  | JsonObject d =>
      forallb (λ kv, wf_text max_string_length kv.1 && wf_json max_string_length (depth - 1) kv.2) d
      && bool_decide (NoDup d.*1) && bool_decide (sorted fst d = d)
  end.

Lemma wf_json_object msl depth entries :
  (0 ≤ depth)%Z → NoDup entries.*1 →
  Forall (λ kv, wf_text msl kv.1 = true ∧ wf_json msl (depth - 1) kv.2 = true) entries →
  wf_json msl depth (json_object entries) = true.
Proof.
  intros Hd Hn Hf. unfold json_object. cbn [wf_json].
  rewrite (proj2 (Z.leb_le _ _) Hd), (bool_decide_true (sorted fst (sorted fst entries) = _)) by apply sorted_idemp.
  rewrite bool_decide_true by by rewrite (sorted_perm fst entries).
  rewrite !andb_true_r. apply forallb_forall. intros kv Hkv%list_elem_of_In%elem_of_sorted.
  rewrite Forall_forall in Hf. apply andb_true_iff. auto.
Qed.

(** The text after a value: not a digit, a fraction or an exponent. *)
Definition delimited (rest : string) : Prop :=
  match rest with
  | EmptyString => True
  | String c _ => c = ","%char ∨ c = "]"%char ∨ c = "}"%char ∨ c = newline
  end.

Lemma escape_char_scan fuel c s acc :
  scan_string (S fuel) (escape_char c +:+ s) acc = scan_string fuel s (acc +:+ String c "").
Proof. destruct c as [[] [] [] [] [] [] [] []]; reflexivity. Qed.

Lemma escape_char_nonempty c : (1 ≤ len (escape_char c))%nat.
Proof. destruct c as [[] [] [] [] [] [] [] []]; simpl; lia. Qed.

Lemma scan_escaped fuel s rest acc :
  (len (escape s) < fuel)%nat →
  scan_string fuel (escape s +:+ quote +:+ rest) acc = Scanned (acc +:+ s) rest.
Proof.
  revert fuel acc. induction s as [|c s IH]; intros fuel acc Hf.
  - destruct fuel as [|fuel]; [lia|]. by rewrite str_app_nil_r.
  - cbn [escape] in *. rewrite str_length_app in Hf. pose proof (escape_char_nonempty c).
    destruct fuel as [|fuel]; [lia|]. rewrite <-str_app_assoc, escape_char_scan, IH by lia.
    rewrite <-str_app_assoc. done.
Qed.

Lemma scan_dumped s rest :
  scan_string (S (len (escape s +:+ quote +:+ rest))) (escape s +:+ quote +:+ rest) ""
  = Scanned s rest.
Proof. apply scan_escaped. rewrite str_length_app. lia. Qed.

Lemma take_digits_app d rest :
  str_forall is_digit d = true →
  match rest with String c _ => is_digit c = false | EmptyString => True end →
  take_digits (d +:+ rest) = (d, rest).
Proof.
  intros Hd Hr. induction d as [|c d IH].
  - change ("" +:+ rest) with rest. destruct rest as [|c r]; [done|]. simpl. by rewrite Hr.
  - rewrite str_app_cons. simpl in *. apply andb_true_iff in Hd as [-> Hd]. by rewrite IH.
Qed.

Lemma delimited_not_number rest : delimited rest →
  match rest with String c _ => is_digit c = false | EmptyString => True end
  ∧ scan_fraction rest = ("", rest) ∧ scan_exponent rest = ("", rest).
Proof. destruct rest as [|c r]; [done|]. intros [->|[->|[->| ->]]]; done. Qed.

Lemma scan_natural_app sign d rest :
  canonical_decimal d = true → delimited rest →
  scan_natural sign (d +:+ rest) = Some (sign +:+ d, rest).
Proof.
  intros Hc (Hr & _)%delimited_not_number. unfold scan_natural.
  pose proof Hc as [[Hne Hd]%andb_true_iff Hz]%andb_true_iff.
  destruct d as [|c d]; [done|]. rewrite str_app_cons. cbn [expect].
  destruct (is_char "0" c) eqn:E.
  - apply is_char_true in E as <-. destruct d as [|c' d]; [done|]. discriminate Hz.
  - rewrite <-str_app_cons, take_digits_app by done. done.
Qed.

Lemma str_Z_neg p : str_Z (Z.neg p) = "-" +:+ str_Z (Z.pos p).
Proof. done. Qed.

Lemma scan_integer_app n rest :
  delimited rest → scan_integer (str_Z n +:+ rest) = Some (str_Z n, rest).
Proof.
  intros Hr. unfold scan_integer.
  assert (∀ m, (0 ≤ m)%Z → expect "-" (str_Z m +:+ rest) = None) as Hpos.
  { intros m Hm. pose proof (str_Z_canonical m Hm) as [[Hne Hd]%andb_true_iff _]%andb_true_iff.
    destruct (str_Z m) as [|c s]; [done|]. rewrite str_app_cons. simpl in *.
    apply andb_true_iff in Hd as [Hd _]. destruct (is_char "-" c) eqn:E; [|done].
    apply is_char_true in E as <-. done. }
  destruct (decide (0 ≤ n)%Z) as [Hn|Hn].
  - rewrite Hpos by done. by rewrite scan_natural_app by (done || by apply str_Z_canonical).
  - destruct n as [|p|p]; [lia..|]. rewrite str_Z_neg, <-str_app_assoc.
    change (expect "-" ("-" +:+ ?x)) with (Some x). cbv iota.
    by rewrite scan_natural_app by (done || by apply str_Z_canonical).
Qed.

Lemma parse_integer_str n :
  (MIN_PROTOCOL_INTEGER <=? n)%Z && (n <=? MAX_PROTOCOL_INTEGER)%Z = true →
  parse_integer (str_Z n) = Scanned n "".
Proof.
  change MIN_PROTOCOL_INTEGER with (-9223372036854775808)%Z.
  change MAX_PROTOCOL_INTEGER with 9223372036854775807%Z.
  intros Hr. pose proof Hr as [Hlo%Z.leb_le Hhi%Z.leb_le]%andb_true_iff. unfold parse_integer.
  change MIN_PROTOCOL_INTEGER with (-9223372036854775808)%Z.
  change MAX_PROTOCOL_INTEGER with 9223372036854775807%Z.
  destruct (decide (0 ≤ n)%Z) as [Hn|Hn].
  - assert (String.prefix "-" (str_Z n) = false) as ->.
    { pose proof (str_Z_canonical n Hn) as [[Hne Hd]%andb_true_iff _]%andb_true_iff.
      destruct (str_Z n) as [|c s]; [done|]. cbn [str_forall] in Hd.
      apply andb_true_iff in Hd as [Hd _]. cbn [String.prefix].
      by destruct (ascii_dec "-" c) as [<-|]. }
    rewrite int_of_str, Hr by done.
    pose proof (str_Z_length n ltac:(lia)) as Hl. by rewrite (proj2 (Nat.ltb_ge _ _) Hl).
  - destruct n as [|p|p]; [lia..|]. rewrite str_Z_neg.
    change (String.prefix "-" ("-" +:+ str_Z (Z.pos p))) with (String.prefix "" (str_Z (Z.pos p))).
    assert (∀ x, String.prefix "" x = true) as -> by (by intros []).
    change (str_drop 1 ("-" +:+ str_Z (Z.pos p))) with (str_Z (Z.pos p)). cbv iota zeta.
    pose proof (str_Z_length (Z.pos p) ltac:(lia)) as Hl.
    rewrite (proj2 (Nat.ltb_ge _ _) Hl), int_of_str by lia.
    change (- Z.pos p)%Z with (Z.neg p). by rewrite Hr.
Qed.

Lemma scan_number_app n rest :
  (MIN_PROTOCOL_INTEGER <=? n)%Z && (n <=? MAX_PROTOCOL_INTEGER)%Z = true → delimited rest →
  scan_number (str_Z n +:+ rest) = Scanned n rest.
Proof.
  intros Hn Hr. unfold scan_number. rewrite scan_integer_app by done.
  apply delimited_not_number in Hr as (_ & -> & ->). simpl.
  by rewrite parse_integer_str.
Qed.

(** A number's text starts with a digit or a sign. *)
Lemma str_Z_head n : ∃ c s, str_Z n = String c s ∧ (is_digit c = true ∨ c = "-"%char).
Proof.
  destruct (decide (0 ≤ n)%Z) as [Hn|Hn].
  - pose proof (str_Z_canonical n Hn) as [[Hne Hd]%andb_true_iff _]%andb_true_iff.
    destruct (str_Z n) as [|c s]; [done|]. cbn [str_forall] in Hd.
    apply andb_true_iff in Hd as [Hd _]. eauto.
  - destruct n as [|p|p]; [lia..|]. rewrite str_Z_neg. eexists _, _. eauto.
Qed.

Lemma skip_space_nonspace c s : is_json_space c = false → skip_space (String c s) = String c s.
Proof. simpl. by intros ->. Qed.

(** The first character of a value's text. *)
Definition value_head (s : string) : Prop :=
  ∃ c t, s = String c t ∧ is_json_space c = false ∧ is_ascii_char c = true
         ∧ is_char "]" c = false ∧ is_char "}" c = false.

(** The text of an object's entry, and of a value, as [dumps] writes it. *)
Definition json_text (v : JsonValue) : string := dumps (to_python v).
Definition member_text (kv : string * JsonValue) : string :=
  dump_string kv.1 +:+ ":" +:+ json_text kv.2.

Lemma digit_head c : is_digit c = true ∨ c = "-"%char →
  is_json_space c = false ∧ is_ascii_char c = true
  ∧ is_char "]" c = false ∧ is_char "}" c = false
  ∧ is_char "034" c = false ∧ is_char "{" c = false ∧ is_char "[" c = false
  ∧ c ≠ "n"%char ∧ c ≠ "t"%char ∧ c ≠ "f"%char.
Proof.
  intros [Hd| ->]; [|done]. revert Hd.
  destruct c as [[] [] [] [] [] [] [] []]; intros Hd; try discriminate Hd; done.
Qed.

Lemma json_text_head v : value_head (json_text v).
Proof.
  unfold value_head. destruct v as [|[]|n|s|l|d]; unfold json_text; cbn [to_python dumps].
  1-3, 5-7: by eexists _, _.
  destruct (str_Z_head n) as (c & s & -> & Hc). apply digit_head in Hc as (? & ? & ? & ? & _).
  by eexists _, _.
Qed.

Lemma json_text_skip v rest : skip_space (json_text v +:+ rest) = json_text v +:+ rest.
Proof.
  destruct (json_text_head v) as (c & t & -> & Hc & _). rewrite str_app_cons.
  by apply skip_space_nonspace.
Qed.

Lemma json_text_not_close v rest :
  expect "]" (json_text v +:+ rest) = None ∧ expect "}" (json_text v +:+ rest) = None.
Proof.
  destruct (json_text_head v) as (c & t & -> & _ & _ & H1 & H2). rewrite str_app_cons.
  simpl. by rewrite H1, H2.
Qed.

Lemma json_text_array l :
  json_text (JsonArray l) = "[" +:+ join "," (map json_text l) +:+ "]".
Proof. unfold json_text. cbn [to_python dumps]. by rewrite map_map. Qed.

Lemma to_python_object d : NoDup d.*1 →
  to_python (JsonObject d) = DDict (map (λ kv, (kv.1, to_python kv.2)) d).
Proof.
  intros Hd. cbn [to_python]. f_equal. apply dict_of_fresh.
  replace ((map _ d).*1) with d.*1; [done|]. induction d; csimpl; [done|].
  f_equal. apply IHd. by apply NoDup_cons in Hd as [_ ?].
Qed.

Lemma json_text_object d : NoDup d.*1 → sorted fst d = d →
  json_text (JsonObject d) = "{" +:+ join "," (map member_text d) +:+ "}".
Proof.
  intros Hd Hs. unfold json_text at 1. rewrite to_python_object by done. cbn [dumps].
  rewrite map_map. cbn [fst snd].
  pose proof (sorted_fmap (λ x : string * JsonValue, (x.1, dumps (to_python x.2))) fst d) as E.
  cbn [fst] in E. change (λ x : string * JsonValue, x.1) with (@fst string JsonValue) in E.
  rewrite E, Hs, map_map. done.
Qed.

Lemma object_pairs_fresh `{UnicodeData} pairs result :
  NoDup (result.*1 ++ pairs.*1) →
  object_pairs pairs result = Scanned (DDict (result ++ pairs)) "".
Proof.
  revert result. induction pairs as [|[k v] pairs IH]; intros result Hd; cbn [object_pairs].
  - by rewrite app_nil_r.
  - rewrite fmap_cons in Hd. cbn [fst] in Hd.
    assert (k ∉ result.*1) as Hk.
    { apply NoDup_app in Hd as (_ & Hd & _). intros Hk. apply (Hd k Hk). left. }
    rewrite (proj2 (mem_false k _) Hk), dset_fresh by done.
    rewrite IH, <-app_assoc; [done|]. rewrite fmap_app, <-app_assoc. done.
Qed.

Lemma join_cons sep x y l : join sep (x :: y :: l) = x +:+ sep +:+ join sep (y :: l).
Proof. done. Qed.

Section roundtrip.
Context `{UnicodeData} `{DecodeErrors}.

Definition scans (v : JsonValue) : Prop := ∀ fuel rest,
  delimited rest → (2 * len (json_text v) < fuel)%nat →
  scan_value fuel (json_text v +:+ rest) = Scanned (to_python v) rest.

Lemma scan_elements_app l v fuel items rest :
  scans v → Forall scans l →
  (2 * len (join "," (map json_text (v :: l))) + 1 < fuel)%nat →
  scan_elements fuel (join "," (map json_text (v :: l)) +:+ "]" +:+ rest) items
  = Scanned (DList (items ++ map to_python (v :: l))) rest.
Proof.
  intros Hv Hl. revert v Hv fuel items.
  induction Hl as [|w l Hw _ IH]; intros v Hv fuel items Hf;
    (destruct fuel as [|fuel]; [lia|]); cbn [scan_elements].
  - cbn [map join] in *. rewrite Hv by (first [done | by left | by (simpl; auto) | lia]). cbn [scan_bind].
    change (skip_space ("]" +:+ rest)) with ("]" +:+ rest). done.
  - cbn [map] in Hf |- *. rewrite join_cons in Hf |- *.
    rewrite !str_length_app in Hf. cbn [len] in Hf.
    rewrite <-!str_app_assoc. rewrite Hv by (first [done | by left | by (simpl; auto) | lia]). cbn [scan_bind].
    change (skip_space ("," +:+ ?x)) with ("," +:+ x).
    change (expect "]" ("," +:+ ?x)) with (@None string).
    change (expect "," ("," +:+ ?x)) with (Some x). cbv iota.
    assert (∀ x, skip_space (join "," (json_text w :: map json_text l) +:+ x)
                 = join "," (json_text w :: map json_text l) +:+ x) as ->.
    { intros x. destruct l; cbn [map join]; rewrite <-?str_app_assoc; apply json_text_skip. }
    specialize (IH w Hw fuel (items ++ [to_python v])). cbn [map] in IH.
    rewrite IH by lia. by rewrite <-app_assoc.
Qed.

Lemma scan_member_step kv fuel pairs rest :
  scans kv.2 → delimited rest → (2 * len (member_text kv) < fuel)%nat →
  scan_members (S fuel) (member_text kv +:+ rest) pairs =
  match expect "}" (skip_space rest), expect "," (skip_space rest) with
  | Some r, _ => let* (d, _r) := object_pairs (pairs ++ [(kv.1, to_python kv.2)]) [] in Scanned d r
  | _, Some r => scan_members fuel (skip_space r) (pairs ++ [(kv.1, to_python kv.2)])
  | _, _ => DecodeError
  end.
Proof.
  intros Hv Hr Hf. unfold member_text, dump_string in Hf |- *.
  rewrite !str_length_app in Hf. cbn [len] in Hf.
  rewrite <-!str_app_assoc. cbn [scan_members].
  change (expect "034" (quote +:+ ?x)) with (Some x). cbv iota.
  rewrite scan_dumped. cbn [scan_bind].
  change (skip_space (":" +:+ ?x)) with (":" +:+ x).
  change (expect ":" (":" +:+ ?x)) with (Some x). cbv iota.
  rewrite json_text_skip, Hv by (done || lia). done.
Qed.

Lemma member_text_skip kv rest : skip_space (member_text kv +:+ rest) = member_text kv +:+ rest.
Proof. done. Qed.

Lemma scan_members_app d kv fuel pairs rest :
  scans kv.2 → Forall (λ kv, scans kv.2) d →
  NoDup (pairs.*1 ++ (kv :: d).*1) →
  (2 * len (join "," (map member_text (kv :: d))) + 1 < fuel)%nat →
  scan_members fuel (join "," (map member_text (kv :: d)) +:+ "}" +:+ rest) pairs
  = Scanned (DDict (pairs ++ map (λ kv, (kv.1, to_python kv.2)) (kv :: d))) rest.
Proof.
  intros Hv Hd. revert kv Hv fuel pairs.
  induction Hd as [|kw d Hw _ IH]; intros kv Hv fuel pairs Hnd Hf;
    (destruct fuel as [|fuel]; [lia|]).
  - cbn [map join] in *. rewrite scan_member_step by (first [done | by left | by (simpl; auto) | lia]).
    change (skip_space ("}" +:+ rest)) with ("}" +:+ rest).
    change (expect "}" ("}" +:+ ?x)) with (Some x). cbv iota.
    rewrite object_pairs_fresh; [done|]. by rewrite fmap_app.
  - cbn [map] in Hf |- *. rewrite join_cons in Hf |- *.
    rewrite !str_length_app in Hf. cbn [len] in Hf. rewrite <-!str_app_assoc.
    rewrite scan_member_step by (first [done | by left | by (simpl; auto) | lia]).
    change (skip_space ("," +:+ ?x)) with ("," +:+ x).
    change (expect "}" ("," +:+ ?x)) with (@None string).
    change (expect "," ("," +:+ ?x)) with (Some x). cbv iota.
    assert (∀ x, skip_space (join "," (member_text kw :: map member_text d) +:+ x)
                 = join "," (member_text kw :: map member_text d) +:+ x) as ->.
    { intros x. destruct d; cbn [map join]; rewrite <-?str_app_assoc; apply member_text_skip. }
    specialize (IH kw Hw fuel (pairs ++ [(kv.1, to_python kv.2)])). cbn [map] in IH.
    rewrite IH by (rewrite ?fmap_app, <-?app_assoc; done || lia). by rewrite <-app_assoc.
Qed.

Lemma wf_members msl depth d :
  wf_json msl depth (JsonObject d) = true →
  (0 ≤ depth)%Z ∧ NoDup d.*1 ∧ sorted fst d = d ∧
  Forall (λ kv, wf_text msl kv.1 = true ∧ wf_json msl (depth - 1) kv.2 = true) d.
Proof.
  cbn [wf_json]. intros Hw. apply andb_true_iff in Hw as [Hz Hw].
  apply andb_true_iff in Hw as [Hw Hs]. apply andb_true_iff in Hw as [Hw Hd].
  apply bool_decide_eq_true in Hs, Hd. split_and!; [lia|done..|].
  apply Forall_forall. intros kv Hkv.
  apply forallb_forall with (x := kv) in Hw; [|by apply list_elem_of_In].
  by apply andb_true_iff in Hw.
Qed.

Lemma wf_items msl depth l :
  wf_json msl depth (JsonArray l) = true →
  (0 ≤ depth)%Z ∧ Forall (λ v, wf_json msl (depth - 1) v = true) l.
Proof.
  cbn [wf_json]. intros [Hz Hw]%andb_true_iff. split; [lia|].
  apply Forall_forall. intros v Hv. by eapply forallb_forall in Hw; [|apply list_elem_of_In].
Qed.

Lemma json_text_scans msl depth v : wf_json msl depth v = true → scans v.
Proof.
  revert depth. induction v as [|[]|n|s|l IH|d IH] using json_ind;
    intros depth Hw fuel rest Hr Hf; (destruct fuel as [|fuel]; [lia|]).
  1-3: by destruct rest.
  - cbn [wf_json] in Hw. apply andb_true_iff in Hw as [_ Hw].
    change (json_text (JInt n)) with (str_Z n) in *. cbn [to_python].
    destruct (str_Z_head n) as (c & t & E & Hc). pose proof (scan_number_app n rest Hw Hr) as Hn.
    rewrite E in Hn |- *. rewrite str_app_cons in Hn |- *. cbn [scan_value].
    apply digit_head in Hc as (_ & _ & _ & _ & -> & -> & -> & H1 & H2 & H3). unfold after.
    cbn [String.prefix]. rewrite Hn. cbn [scan_bind].
    by repeat match goal with |- context [ascii_dec ?x ?y] =>
      destruct (ascii_dec x y); [congruence|] end.
  - change (json_text (JStr s)) with (dump_string s). unfold dump_string.
    rewrite <-!str_app_assoc.
    change (quote +:+ ?x) with (String "034" x). cbn [scan_value].
    change (is_char "034" "034") with true. cbv iota.
    change (String "034" rest) with (quote +:+ rest). rewrite scan_dumped. done.
  - apply wf_items in Hw as [_ Hw]. rewrite json_text_array in Hf |- *.
    rewrite !str_length_app in Hf. cbn [len] in Hf. rewrite <-!str_app_assoc.
    assert (Forall scans l) as Hl.
    { apply Forall_forall. intros v Hv. rewrite Forall_forall in IH, Hw. eauto. }
    clear IH Hw. destruct l as [|v l]; [done|]. apply Forall_cons in Hl as [Hv Hl].
    rewrite str_app_cons. cbn [scan_value]. change (is_char "034" "[") with false.
    change (is_char "{" "[") with false. change (is_char "[" "[") with true. cbv iota.
    assert (∀ x, skip_space (join "," (map json_text (v :: l)) +:+ x)
                 = join "," (map json_text (v :: l)) +:+ x ∧
                 expect "]" (join "," (map json_text (v :: l)) +:+ x) = None) as Hx.
    { intros x. destruct l; cbn [map join]; rewrite <-?str_app_assoc;
        (split; [apply json_text_skip|apply json_text_not_close]). }
    change ("" +:+ ?x) with x.
    rewrite (proj1 (Hx _)), (proj2 (Hx _)), scan_elements_app by (done || lia). done.
  - apply wf_members in Hw as (_ & Hnd & Hs & Hw). rewrite json_text_object in Hf |- * by done.
    rewrite !str_length_app in Hf. cbn [len] in Hf. rewrite <-!str_app_assoc.
    rewrite to_python_object by done.
    assert (Forall (λ kv, scans kv.2) d) as Hl.
    { apply Forall_forall. intros v Hv. rewrite Forall_forall in IH, Hw.
      destruct (Hw v Hv). eauto. }
    clear IH Hw Hs. destruct d as [|kv d]; [done|]. apply Forall_cons in Hl as [Hv Hl].
    rewrite str_app_cons. cbn [scan_value]. change (is_char "034" "{") with false.
    change (is_char "{" "{") with true. cbv iota.
    change ("" +:+ ?x) with x.
    assert (∀ x, skip_space (join "," (map member_text (kv :: d)) +:+ x)
                 = join "," (map member_text (kv :: d)) +:+ x ∧
                 expect "}" (join "," (map member_text (kv :: d)) +:+ x) = None) as Hx.
    { intros x. by destruct d. }
    rewrite (proj1 (Hx _)), (proj2 (Hx _)), scan_members_app by (done || lia). done.
Qed.

Lemma validated_text_wf msl s : wf_text msl s = true → validated_text s msl = inr s.
Proof.
  unfold wf_text, validated_text. intros [[_ Hs]%andb_true_iff Hl]%andb_true_iff.
  apply negb_true_iff in Hs. rewrite Hs. apply Z.leb_le in Hl.
  by rewrite (proj2 (Z.ltb_ge _ _) Hl).
Qed.

Lemma freeze_to_python msl md depth v :
  wf_json msl (md - depth) v = true → freeze (to_python v) depth md msl = inr v.
Proof.
  revert depth. induction v as [|b|n|s|l IH|d IH] using json_ind; intros depth Hw;
    pose proof Hw as Hz; cbn [wf_json] in Hz; apply andb_true_iff in Hz as [Hz Hp];
    (assert ((md <? depth)%Z = false) as Hd by lia).
  - cbn. by rewrite Hd.
  - cbn. by rewrite Hd.
  - cbn. by rewrite Hd, Hp.
  - cbn. by rewrite Hd, validated_text_wf.
  - apply wf_items in Hw as [_ Hw]. cbn. rewrite Hd. clear Hp.
    match goal with |- match ?g _ with _ => _ end = _ => assert (g (map to_python l) = inr l) as -> end;
      [|done].
    induction l as [|v l IHl]; [done|]. apply Forall_cons in IH as [Hv IH], Hw as [Hwv Hw].
    cbn. rewrite Hv by (by replace (md - (depth + 1))%Z with (md - depth - 1)%Z by lia).
    by rewrite IHl.
  - apply wf_members in Hw as (_ & Hnd & Hs & Hw). rewrite to_python_object by done.
    cbn. rewrite Hd. clear Hp.
    match goal with |- match ?g _ with _ => _ end = _ =>
      assert (g (map (λ kv, (kv.1, to_python kv.2)) d) = inr d) as -> end;
      [|by unfold json_object; rewrite Hs].
    clear Hnd Hs. induction d as [|[k v] d IHd]; [done|].
    apply Forall_cons in IH as [Hv IH], Hw as [[Hwk Hwv] Hw]. cbn in *.
    rewrite validated_text_wf by done.
    rewrite Hv by (by replace (md - (depth + 1))%Z with (md - depth - 1)%Z by lia).
    by rewrite IHd.
Qed.
End roundtrip.

(** * Canonical text is valid UTF-8 *)

#[local] Arguments is_ascii_char : simpl never.
#[local] Arguments is_cont : simpl never.
#[local] Arguments between : simpl never.

(** The bytes of one code point: an ASCII character or bytes above it that
    are decoded together. *)
Definition utf8_chunk (p : string) : Prop :=
  p ≠ "" ∧ (∀ t, valid_utf8 (p +:+ t) = valid_utf8 t) ∧
  ((∃ c, p = String c "") ∨ str_forall (λ c, negb (is_ascii_char c)) p = true).

Lemma between_high lo hi c :
  between lo hi c = true → (128 ≤ lo)%N → is_ascii_char c = false.
Proof.
  unfold between, is_ascii_char. intros Hb Hlo.
  apply andb_true_iff in Hb as [Hb _]. apply N.leb_le in Hb. apply N.ltb_ge. lia.
Qed.

Lemma cont_high c : is_cont c = true → is_ascii_char c = false.
Proof. intros Hc. by eapply between_high. Qed.

Lemma valid_utf8_split s : valid_utf8 s = true →
  s = "" ∨ ∃ p t, s = p +:+ t ∧ utf8_chunk p ∧ valid_utf8 t = true.
Proof.
  destruct s as [|a s]; [by left|]. intros Hs. right.
  cbn [valid_utf8] in Hs. destruct (is_ascii_char a) eqn:Ha.
  { exists (String a ""), s. split_and!; [done| |done]. split_and!; [done| |eauto].
    intros t. change (String a "" +:+ t) with (String a t). cbn [valid_utf8]. by rewrite Ha. }
  destruct s as [|b s]; [done|]. destruct (between 194 223 a) eqn:H2.
  { apply andb_true_iff in Hs as [Hb Hs].
    exists (String a (String b "")), s. split_and!; [done| |done]. split_and!; [done| |right].
    - intros t. change (_ +:+ t) with (String a (String b t)). cbn [valid_utf8]. by rewrite Ha, H2, Hb.
    - cbn. by rewrite Ha, (cont_high _ Hb). }
  destruct s as [|c s]; [done|]. destruct (between 224 239 a) eqn:H3.
  { apply andb_true_iff in Hs as [Hg Hs]. pose proof Hg as [[Hb Hc]%andb_true_iff _]%andb_true_iff.
    exists (String a (String b (String c ""))), s. split_and!; [done| |done].
    split_and!; [done| |right].
    - intros t. change (_ +:+ t) with (String a (String b (String c t))).
      cbn [valid_utf8]. by rewrite Ha, H2, H3, Hg.
    - cbn. by rewrite Ha, (cont_high _ Hb), (cont_high _ Hc). }
  destruct s as [|d s]; [done|].
  apply andb_true_iff in Hs as [Hg Hs].
  pose proof Hg as [[[[_ Hb]%andb_true_iff Hc]%andb_true_iff Hd]%andb_true_iff _]%andb_true_iff.
  exists (String a (String b (String c (String d "")))), s. split_and!; [done| |done].
  split_and!; [done| |right].
  - intros t. change (_ +:+ t) with (String a (String b (String c (String d t)))).
    cbn [valid_utf8]. by rewrite Ha, H2, H3, Hg.
  - cbn. by rewrite Ha, (cont_high _ Hb), (cont_high _ Hc), (cont_high _ Hd).
Qed.

Lemma utf8_ind (P : string → Prop) :
  P "" → (∀ p t, utf8_chunk p → valid_utf8 t = true → P t → P (p +:+ t)) →
  ∀ s, valid_utf8 s = true → P s.
Proof.
  intros H0 Hstep s. remember (len s) as n eqn:E. revert s E.
  induction n as [n IH] using lt_wf_ind. intros s -> Hs.
  destruct (valid_utf8_split s Hs) as [->|(p & t & -> & Hp & Ht)]; [done|].
  apply Hstep; [done..|]. eapply IH; [|done|done]. rewrite str_length_app.
  destruct Hp as (Hne & _). destruct p; [done|]. simpl. lia.
Qed.

Lemma valid_utf8_app a b : valid_utf8 a = true → valid_utf8 (a +:+ b) = valid_utf8 b.
Proof.
  revert a. apply utf8_ind; [done|]. intros p t Hp _ IH.
  destruct Hp as (_ & Hp & _). by rewrite <-str_app_assoc, Hp, IH.
Qed.

Lemma valid_utf8_ascii s : is_ascii s = true → valid_utf8 s = true.
Proof.
  induction s as [|c s IH]; [done|]. unfold is_ascii in *. cbn [str_forall valid_utf8].
  intros [-> Hs]%andb_true_iff. auto.
Qed.

Lemma escape_app a b : escape (a +:+ b) = escape a +:+ escape b.
Proof.
  induction a as [|c a IH]; [done|]. rewrite str_app_cons. cbn [escape].
  by rewrite IH, str_app_assoc.
Qed.

Lemma escape_char_ascii c : is_ascii_char c = true → valid_utf8 (escape_char c) = true.
Proof. destruct c as [[] [] [] [] [] [] [] []]; intros Hc; try discriminate Hc; reflexivity. Qed.

Lemma escape_high p : str_forall (λ c, negb (is_ascii_char c)) p = true → escape p = p.
Proof.
  induction p as [|c p IH]; [done|]. cbn [str_forall escape].
  intros [Hc Hp]%andb_true_iff. rewrite IH by done.
  destruct c as [[] [] [] [] [] [] [] []]; try discriminate Hc; reflexivity.
Qed.

Lemma valid_utf8_escape s : valid_utf8 s = true → valid_utf8 (escape s) = true.
Proof.
  revert s. apply utf8_ind; [done|]. intros p t Hp _ IH.
  rewrite escape_app. pose proof Hp as (_ & Hv & Hc).
  destruct Hc as [[c ->]|Hc].
  - destruct (is_ascii_char c) eqn:E.
    + cbn [escape]. rewrite str_app_nil_r, valid_utf8_app by by apply escape_char_ascii. done.
    + rewrite escape_high by (cbn; by rewrite E). by rewrite Hv.
  - by rewrite escape_high, Hv.
Qed.

Lemma valid_utf8_dump_string s : valid_utf8 s = true → valid_utf8 (dump_string s) = true.
Proof.
  intros Hs. unfold dump_string. change (valid_utf8 (quote +:+ ?x)) with (valid_utf8 x).
  by rewrite valid_utf8_app by by apply valid_utf8_escape.
Qed.

Lemma valid_utf8_join l :
  Forall (λ s, valid_utf8 s = true) l → valid_utf8 (join "," l) = true.
Proof.
  induction 1 as [|s [|t l] Hs _ IH]; [done|done|]. rewrite join_cons, valid_utf8_app by done.
  by change (valid_utf8 ("," +:+ ?x)) with (valid_utf8 x).
Qed.

Lemma valid_utf8_str_Z n : valid_utf8 (str_Z n) = true.
Proof.
  apply valid_utf8_ascii. unfold is_ascii.
  assert (∀ m, (0 ≤ m)%Z → str_forall is_ascii_char (str_Z m) = true) as Hpos.
  { intros m Hm. pose proof (str_Z_canonical m Hm) as [[_ Hd]%andb_true_iff _]%andb_true_iff.
    eapply str_forall_impl; [|exact Hd]. intros c Hc. by apply (digit_head c (or_introl Hc)). }
  destruct (decide (0 ≤ n)%Z); [by apply Hpos|]. destruct n as [|p|p]; [lia..|].
  rewrite str_Z_neg, str_forall_app, Hpos by lia. done.
Qed.

Lemma valid_utf8_json_text msl depth v :
  wf_json msl depth v = true → valid_utf8 (json_text v) = true.
Proof.
  revert depth. induction v as [|[]|n|s|l IH|d IH] using json_ind; intros depth Hw; [done..| | | |].
  - apply valid_utf8_str_Z.
  - apply valid_utf8_dump_string. cbn [wf_json] in Hw.
    by apply andb_true_iff in Hw as [_ [[? _]%andb_true_iff _]%andb_true_iff].
  - apply wf_items in Hw as [_ Hw]. rewrite json_text_array.
    change (valid_utf8 ("[" +:+ ?x)) with (valid_utf8 x). rewrite valid_utf8_app; [done|].
    apply valid_utf8_join. apply Forall_fmap. rewrite Forall_forall in *. simpl. eauto.
  - apply wf_members in Hw as (_ & Hnd & Hs & Hw). rewrite json_text_object by done.
    change (valid_utf8 ("{" +:+ ?x)) with (valid_utf8 x). rewrite valid_utf8_app; [done|].
    apply valid_utf8_join. apply Forall_fmap. rewrite Forall_forall in *. intros kv Hkv. simpl.
    destruct (Hw kv Hkv) as [[[Hk _]%andb_true_iff _]%andb_true_iff Hv].
    unfold member_text. rewrite valid_utf8_app by by apply valid_utf8_dump_string.
    change (valid_utf8 (":" +:+ ?x)) with (valid_utf8 x). eauto.
Qed.

Section canonical.
Context `{UnicodeData} `{DecodeErrors}.

Lemma loads_canonical msl depth v :
  wf_json msl depth v = true → loads (canonical_json_bytes v) = Scanned (to_python v) "".
Proof.
  intros Hw. unfold loads, canonical_json_bytes. change (dumps (to_python v)) with (json_text v).
  assert (String.prefix byte_order_mark (json_text v +:+ String newline "") = false) as ->.
  { destruct (json_text_head v) as (c & t & -> & _ & Hc & _). rewrite str_app_cons.
    unfold byte_order_mark. change (chr 65279) with (String "239" (String "187" (String "191" ""))).
    cbn [String.prefix]. by destruct (ascii_dec "239" c) as [<-|]. }
  rewrite json_text_skip, (json_text_scans msl depth v Hw); [done| |].
  - simpl. auto.
  - rewrite str_length_app. lia.
Qed.

Lemma parse_canonical v location max_depth max_string_length :
  (0 ≤ max_string_length)%Z → wf_json max_string_length max_depth v = true →
  parse_json (canonical_json_bytes v) location max_depth max_string_length = Ret (Ok v).
Proof.
  intros Hm Hw. unfold parse_json.
  assert (0 ≤ max_depth)%Z as Hd by (destruct v; cbn [wf_json] in Hw; lia).
  assert ((max_depth <? 0)%Z || (max_string_length <? 0)%Z = false) as E by lia.
  rewrite E. cbn [raise_if]. cbn.
  assert (valid_utf8 (canonical_json_bytes v) = true) as ->.
  { unfold canonical_json_bytes. change (dumps (to_python v)) with (json_text v).
    by rewrite valid_utf8_app by by eapply valid_utf8_json_text. }
  unfold parse_json_text. rewrite E. cbn. rewrite (loads_canonical _ _ _ Hw).
  rewrite freeze_to_python; [done|]. by rewrite Z.sub_0_r.
Qed.

(** C39: parsing the canonical bytes of a value gives the value back, under
    any bounds the value respects. *)
Theorem canonical_json_roundtrip v location max_depth max_string_length :
  (0 ≤ max_string_length)%Z → wf_json max_string_length max_depth v = true →
  parse_json (canonical_json_bytes v) location max_depth max_string_length = Ret (Ok v).
Proof. apply parse_canonical. Qed.
End canonical.

(** A concrete instance of the decoder's error texts. *)
Definition plain_decode_errors : DecodeErrors := {| decode_error _ := ("Expecting value", 1, 1)%Z |}.

Definition sample_json : JsonValue :=
  JsonObject [("a", JsonArray [JInt (-7); JBool true; JNull; JStr "x,y"]);
              ("b", JsonObject []); ("c", JInt 9223372036854775807)].

Lemma canonical_json_roundtrip_witness :
  @parse_json ascii_unicode plain_decode_errors (canonical_json_bytes sample_json) None 3 100
  = Ret (Ok sample_json).
Proof.
  apply (@canonical_json_roundtrip ascii_unicode plain_decode_errors sample_json None 3 100);
    [done|by vm_compute].
Defined.

(** * What is parsed is within the bounds *)

(** Texts of decodable code points, short enough. *)
Definition text_within (max_string_length : Z) (s : string) : bool :=
  negb (has_surrogate s) && (Z.of_nat (str_len s) <=? max_string_length)%Z.
Fixpoint within_bounds (max_string_length depth : Z) (v : JsonValue) : bool :=
  (0 <=? depth)%Z &&
  match v with
  | JNull | JBool _ => true
  | JInt n => (MIN_PROTOCOL_INTEGER <=? n)%Z && (n <=? MAX_PROTOCOL_INTEGER)%Z
  | JStr s => text_within max_string_length s
  | JsonArray l => forallb (within_bounds max_string_length (depth - 1)) l
  | JsonObject d =>
      forallb (λ kv, text_within max_string_length kv.1
                     && within_bounds max_string_length (depth - 1) kv.2) d
      && bool_decide (sorted fst d = d)
  end.

Lemma validated_text_within s msl t : validated_text s msl = inr t → t = s ∧ text_within msl s = true.
Proof.
  unfold validated_text, text_within. destruct (_ <? _)%Z eqn:El; [done|].
  destruct (has_surrogate s); [done|]. intros [= <-]. split; [done|]. cbn. lia.
Qed.

Lemma freeze_within msl md : ∀ value depth v,
  freeze value depth md msl = inr v → within_bounds msl (md - depth) v = true.
Proof.
  fix IH 1. intros [|b|n|s|l|d] depth v; cbn [freeze]; destruct (md <? depth)%Z eqn:Ed; try done;
    assert ((0 <=? md - depth)%Z = true) as Hz by lia.
  - intros [= <-]. cbn. by rewrite Hz.
  - intros [= <-]. cbn. by rewrite Hz.
  - destruct (_ && _) eqn:En; [|done]. intros [= <-]. cbn. by rewrite Hz, En.
  - destruct (validated_text s msl) as [|t] eqn:Et; [done|]. apply validated_text_within in Et as [-> Ht].
    intros [= <-]. cbn. by rewrite Hz, Ht.
  - match goal with |- match ?g l with _ => _ end = _ → _ => set (go := g) end.
    assert (∀ l', go l = inr l' → forallb (within_bounds msl (md - depth - 1)) l' = true) as Hl.
    { clear Ed Hz. induction l as [|x l IHl]; intros l'; cbn [go]; [by intros [= <-]|].
      specialize (IH x (depth + 1)%Z). replace (md - (depth + 1))%Z with (md - depth - 1)%Z in IH by lia.
      destruct (freeze x _ _ _) as [|y]; [done|]. fold go. destruct (go l) as [|k]; [done|].
      intros [= <-]. cbn. by rewrite (IH y eq_refl), (IHl k eq_refl). }
    destruct (go l) as [|k]; [done|]. intros [= <-]. cbn. by rewrite Hz, (Hl k eq_refl).
  - match goal with |- match ?g d with _ => _ end = _ → _ => set (go := g) end.
    assert (∀ d', go d = inr d' → forallb (λ kv, text_within msl kv.1
              && within_bounds msl (md - depth - 1) kv.2) d' = true) as Hd.
    { clear Ed Hz. induction d as [|[k x] d IHd]; intros d'; cbn [go]; [by intros [= <-]|].
      destruct (validated_text k msl) as [|t] eqn:Et; [done|]. apply validated_text_within in Et as [-> Ht].
      specialize (IH x (depth + 1)%Z). replace (md - (depth + 1))%Z with (md - depth - 1)%Z in IH by lia.
      destruct (freeze x _ _ _) as [|y]; [done|]. fold go. destruct (go d) as [|r]; [done|].
      intros [= <-]. cbn. by rewrite Ht, (IH y eq_refl), (IHd r eq_refl). }
    destruct (go d) as [|r]; [done|]. intros [= <-]. unfold json_object. cbn [within_bounds].
    rewrite Hz, bool_decide_true by apply sorted_idemp. rewrite andb_true_r. cbn.
    apply forallb_forall. intros kv Hkv%list_elem_of_In%elem_of_sorted.
    specialize (Hd r eq_refl). rewrite forallb_forall in Hd. by apply Hd, list_elem_of_In.
Qed.

(** C23: nothing that is parsed exceeds the protocol's limits: every integer is in
    the signed 64-bit range, every text and every name is short enough and free
    of unpaired surrogates, the value is no deeper than allowed, and the names
    of an object are sorted; bounds that are negative are refused. *)
Theorem parse_json_bounded `{UnicodeData} `{DecodeErrors} data location max_depth max_string_length v :
  parse_json data location max_depth max_string_length = Ret (Ok v) →
  (0 ≤ max_depth)%Z ∧ (0 ≤ max_string_length)%Z ∧ within_bounds max_string_length max_depth v = true.
Proof.
  unfold parse_json. intros Hp.
  apply bind_Ret in Hp as (u & Hb%raise_if_Ret & Hp).
  destruct (valid_utf8 data); [|done].
  unfold parse_json_text in Hp. apply bind_Ret in Hp as (u' & _ & Hp).
  destruct (loads data) as [parsed rest|code message| |]; try done;
    [|by destruct (decode_error data) as [[? ?] ?]].
  destruct (freeze parsed 0 max_depth max_string_length) as [[]|w] eqn:Ef; [done|].
  injection Hp as <-. apply freeze_within in Ef. rewrite Z.sub_0_r in Ef. split_and!; [lia|lia|done].
Qed.

Lemma parse_json_bounded_witness :
  @parse_json ascii_unicode plain_decode_errors "[1, {}]" None 2 10 = Ret (Ok (JsonArray [JInt 1; JsonObject []]))
  ∧ within_bounds 10 2 (JsonArray [JInt 1; JsonObject []]) = true.
Proof.
  split; [by vm_compute|]. apply (@parse_json_bounded ascii_unicode plain_decode_errors "[1, {}]" None 2 10).
  by vm_compute.
Defined.
