(* ===== verification/IndentedJson.v ===== *)
(** [json.dumps(value, indent=2, ensure_ascii=False)], with which merged
    documents are written, and [parse_json] of such a text.

    Values are Python's ([data]): their dictionaries keep the insertion order,
    which the text shows and the frozen [JsonObject] forgets. *)
From S2P Require Import Prelude PyText Domain Json JsonParse.
From Stdlib Require Import Ascii.

(** [_json_value]: the strict JSON value of Python data, objects sorted. *)
Fixpoint json_value (v : data) : JsonValue :=
  match v with
  | DNone => JNull
  | DBool b => JBool b
  | DInt n => JInt n
  | DStr s => JStr s
  | DList l => JsonArray (map json_value l)
  | DDict d => json_object (map (λ kv, (kv.1, json_value kv.2)) d)
  end.

(** A line feed and the indentation of a level. *)
Fixpoint spaces (n : nat) : string := match n with O => "" | S n => String " " (spaces n) end.
Definition new_line (level : nat) : string := String newline (spaces (2 * level)).

Fixpoint dumps_indent (level : nat) (v : data) : string :=
  match v with
  | DNone => "null"
  | DBool b => if b then "true" else "false"
  | DInt n => str_Z n
  | DStr s => dump_string s
  | DList [] => "[]"
  | DList l =>
      "[" +:+ new_line (S level)
      +:+ join ("," +:+ new_line (S level)) (map (dumps_indent (S level)) l)
      +:+ new_line level +:+ "]"
  | DDict [] => "{}"
  | DDict d =>
      "{" +:+ new_line (S level)
      +:+ join ("," +:+ new_line (S level))
            (map (λ kv, dump_string kv.1 +:+ ": " +:+ dumps_indent (S level) kv.2) d)
      +:+ new_line level +:+ "}"
  end.

(** * Values within the bounds of the parser *)

Fixpoint wf_data (max_string_length depth : Z) (v : data) : bool :=
  (0 <=? depth)%Z &&
  match v with
  | DNone | DBool _ => true
  | DInt n => (MIN_PROTOCOL_INTEGER <=? n)%Z && (n <=? MAX_PROTOCOL_INTEGER)%Z
  | DStr s => wf_text max_string_length s
  | DList l => forallb (wf_data max_string_length (depth - 1)) l
  | DDict d =>
      forallb (λ kv, wf_text max_string_length kv.1 && wf_data max_string_length (depth - 1) kv.2) d
      && bool_decide (NoDup d.*1)
  end.

(** Induction with the hypothesis for every item and every entry. *)
Section data_ind.
Context (P : data → Prop).
Hypothesis Hnone : P DNone.
Hypothesis Hbool : ∀ b, P (DBool b).
Hypothesis Hint : ∀ n, P (DInt n).
Hypothesis Hstr : ∀ s, P (DStr s).
Hypothesis Hlist : ∀ l, Forall P l → P (DList l).
Hypothesis Hdict : ∀ d, Forall (λ kv, P kv.2) d → P (DDict d).

Fixpoint data_nested_ind (v : data) : P v :=
  match v with
  | DNone => Hnone
  | DBool b => Hbool b
  | DInt n => Hint n
  | DStr s => Hstr s
  | DList l =>
      Hlist l ((fix go l : Forall P l :=
        match l with
        | [] => Forall_nil_2 _
        | v :: l => Forall_cons_2 _ _ _ (data_nested_ind v) (go l)
        end) l)
  | DDict d =>
      Hdict d ((fix go d : Forall (λ kv, P kv.2) d :=
        match d with
        | [] => Forall_nil_2 _
        | kv :: d => Forall_cons_2 _ _ _ (data_nested_ind kv.2) (go d)
        end) d)
  end.
End data_ind.

Lemma wf_data_list msl depth l :
  wf_data msl depth (DList l) = true →
  (0 ≤ depth)%Z ∧ Forall (λ v, wf_data msl (depth - 1) v = true) l.
Proof.
  cbn [wf_data]. intros [Hz Hw]%andb_true_iff. split; [lia|].
  apply Forall_forall. intros v Hv. by eapply forallb_forall in Hw; [|apply list_elem_of_In].
Qed.

Lemma wf_data_dict msl depth d :
  wf_data msl depth (DDict d) = true ↔
  (0 ≤ depth)%Z ∧ NoDup d.*1 ∧
  Forall (λ kv, wf_text msl kv.1 = true ∧ wf_data msl (depth - 1) kv.2 = true) d.
Proof.
  cbn [wf_data]. rewrite !andb_true_iff, bool_decide_eq_true, Z.leb_le, Forall_forall.
  assert (∀ f : string * data → bool, forallb f d = true ↔ ∀ kv, kv ∈ d → f kv = true) as ->.
  { intros f. rewrite forallb_forall. by setoid_rewrite list_elem_of_In. }
  assert (∀ kv, wf_text msl kv.1 && wf_data msl (depth - 1) kv.2 = true ↔
    wf_text msl kv.1 = true ∧ wf_data msl (depth - 1) kv.2 = true) as E by (intros; apply andb_true_iff).
  setoid_rewrite E. tauto.
Qed.

(** The frozen value of well-formed data. *)
Lemma json_value_dict d : json_value (DDict d) = json_object (dmap json_value d).
Proof. done. Qed.
Lemma json_value_to_python msl depth v :
  wf_json msl depth v = true → json_value (to_python v) = v.
Proof.
  revert depth. induction v as [|b|n|s|l IH|d IH] using json_ind; intros depth Hw; [done..| |].
  - apply wf_items in Hw as [_ Hw]. cbn [to_python json_value]. f_equal. rewrite map_map.
    induction l as [|v l IHl]; [done|]. apply Forall_cons in IH as [Hv IH], Hw as [Hwv Hw].
    cbn. by rewrite (Hv _ Hwv), IHl.
  - apply wf_members in Hw as (_ & Hn & Hs & Hw). rewrite to_python_object, json_value_dict by done.
    unfold json_object, dmap. rewrite map_map. cbn [fst snd].
    change (map _ d) with (dmap (λ v, json_value (to_python v)) d).
    rewrite dmap_id, Hs; [done|]. apply Forall_forall. intros kv Hkv. rewrite Forall_forall in IH, Hw.
    destruct (Hw kv Hkv). eauto.
Qed.

Lemma wf_to_python msl depth v : wf_json msl depth v = true → wf_data msl depth (to_python v) = true.
Proof.
  revert depth. induction v as [|b|n|s|l IH|d IH] using json_ind; intros depth Hw; [done..| |].
  - apply wf_items in Hw as [Hz Hw]. cbn [to_python wf_data]. rewrite (proj2 (Z.leb_le _ _) Hz).
    apply forallb_forall. intros v' (v & <- & Hv)%in_map_iff. apply list_elem_of_In in Hv.
    rewrite Forall_forall in IH, Hw. eauto.
  - apply wf_members in Hw as (Hz & Hn & _ & Hw). rewrite to_python_object by done.
    apply wf_data_dict. change (map _ d) with (dmap to_python d). rewrite dkeys_dmap. split_and!; [done..|].
    apply Forall_forall. intros kv (kv' & -> & Hkv)%list_elem_of_fmap. cbn.
    rewrite Forall_forall in IH, Hw. destruct (Hw kv' Hkv). eauto.
Qed.

(** [_freeze] of well-formed data is its strict value. *)
Lemma freeze_data msl md depth v :
  wf_data msl (md - depth) v = true → freeze v depth md msl = inr (json_value v).
Proof.
  revert depth. induction v as [|b|n|s|l IH|d IH] using data_nested_ind; intros depth Hw;
    pose proof Hw as Hz; cbn [wf_data] in Hz; apply andb_true_iff in Hz as [Hz Hp];
    (assert ((md <? depth)%Z = false) as Hd by lia).
  - cbn. by rewrite Hd.
  - cbn. by rewrite Hd.
  - cbn. by rewrite Hd, Hp.
  - cbn. by rewrite Hd, validated_text_wf.
  - apply wf_data_list in Hw as [_ Hw]. cbn. rewrite Hd. clear Hp.
    match goal with |- match ?g _ with _ => _ end = _ => assert (g l = inr (map json_value l)) as -> end;
      [|done].
    induction l as [|v l IHl]; [done|]. apply Forall_cons in IH as [Hv IH], Hw as [Hwv Hw].
    cbn. rewrite Hv by (by replace (md - (depth + 1))%Z with (md - depth - 1)%Z by lia).
    by rewrite IHl.
  - apply wf_data_dict in Hw as (_ & Hn & Hw). cbn. rewrite Hd. clear Hp.
    match goal with |- match ?g _ with _ => _ end = _ =>
      assert (g d = inr (map (λ kv, (kv.1, json_value kv.2)) d)) as -> end; [|done].
    clear Hn. induction d as [|[k v] d IHd]; [done|].
    apply Forall_cons in IH as [Hv IH], Hw as [[Hwk Hwv] Hw]. cbn in *.
    rewrite validated_text_wf by done.
    rewrite Hv by (by replace (md - (depth + 1))%Z with (md - depth - 1)%Z by lia).
    by rewrite IHd.
Qed.

(** * Scanning the indented text *)

Lemma spaces_skip n s : skip_space (spaces n +:+ s) = skip_space s.
Proof. induction n as [|n IH]; [done|]. cbn [spaces]. rewrite str_app_cons. cbn [skip_space]. exact IH. Qed.
Lemma new_line_skip level s : skip_space (new_line level +:+ s) = skip_space s.
Proof. unfold new_line. rewrite str_app_cons. cbn [skip_space]. apply spaces_skip. Qed.
Lemma new_line_delimited level s : delimited (new_line level +:+ s).
Proof. unfold new_line. rewrite str_app_cons. by do 3 right. Qed.
Lemma new_line_ascii level : is_ascii (new_line level) = true.
Proof.
  unfold is_ascii, new_line. cbn [str_forall]. change (is_ascii_char newline) with true. cbn [andb].
  generalize (2 * level)%nat. by induction n.
Qed.

Lemma dumps_indent_head level v : value_head (dumps_indent level v).
Proof.
  unfold value_head. destruct v as [|[]|n|s|[|w l]|[|kv d]]; cbn [dumps_indent].
  1-3, 5-9: by eexists _, _.
  destruct (str_Z_head n) as (c & s & -> & Hc). apply digit_head in Hc as (? & ? & ? & ? & _).
  by eexists _, _.
Qed.
Lemma dumps_indent_skip level v rest :
  skip_space (dumps_indent level v +:+ rest) = dumps_indent level v +:+ rest.
Proof.
  destruct (dumps_indent_head level v) as (c & t & -> & Hc & _). rewrite str_app_cons.
  by apply skip_space_nonspace.
Qed.
Lemma dumps_indent_not_close level v rest : expect "]" (dumps_indent level v +:+ rest) = None.
Proof.
  destruct (dumps_indent_head level v) as (c & t & -> & _ & _ & H1 & _). rewrite str_app_cons.
  simpl. by rewrite H1.
Qed.

Definition entry_text (level : nat) (kv : string * data) : string :=
  dump_string kv.1 +:+ ": " +:+ dumps_indent level kv.2.
Definition lines (level : nat) (texts : list string) : string :=
  join ("," +:+ new_line level) texts.

Lemma dumps_indent_list level v l :
  dumps_indent level (DList (v :: l)) =
  "[" +:+ new_line (S level) +:+ lines (S level) (map (dumps_indent (S level)) (v :: l))
  +:+ new_line level +:+ "]".
Proof. done. Qed.
Lemma dumps_indent_dict level kv d :
  dumps_indent level (DDict (kv :: d)) =
  "{" +:+ new_line (S level) +:+ lines (S level) (map (entry_text (S level)) (kv :: d))
  +:+ new_line level +:+ "}".
Proof. done. Qed.

Lemma lines_cons level a b l :
  lines level (a :: b :: l) = a +:+ "," +:+ new_line level +:+ lines level (b :: l).
Proof. unfold lines. rewrite join_cons. by rewrite <-str_app_assoc. Qed.
Lemma lines_one level a : lines level [a] = a.
Proof. done. Qed.
(** The text of a non-empty list starts with its first element. *)
Lemma lines_first level a l rest : ∃ t, lines level (a :: l) +:+ rest = a +:+ t.
Proof.
  destruct l as [|b l]; [by exists rest|]. rewrite lines_cons, <-str_app_assoc. eauto.
Qed.

Section scan.
Context `{UnicodeData} `{DecodeErrors}.

Definition indent_scans (v : data) : Prop := ∀ level fuel rest,
  delimited rest → (2 * len (dumps_indent level v) < fuel)%nat →
  scan_value fuel (dumps_indent level v +:+ rest) = Scanned v rest.

Lemma scan_lines level level' l v fuel items rest :
  indent_scans v → Forall indent_scans l →
  (2 * len (lines level (map (dumps_indent level) (v :: l))) + 1 < fuel)%nat →
  scan_elements fuel
    (lines level (map (dumps_indent level) (v :: l)) +:+ new_line level' +:+ "]" +:+ rest) items
  = Scanned (DList (items ++ v :: l)) rest.
Proof.
  intros Hv Hl. revert v Hv fuel items.
  induction Hl as [|w l Hw _ IH]; intros v Hv fuel items Hf;
    (destruct fuel as [|fuel]; [lia|]); cbn [scan_elements].
  - cbn [map] in *. rewrite lines_one in *. rewrite Hv by (apply new_line_delimited || lia).
    cbn [scan_bind]. rewrite new_line_skip. change (skip_space ("]" +:+ rest)) with ("]" +:+ rest). done.
  - cbn [map] in Hf |- *. rewrite lines_cons in Hf |- *.
    rewrite !str_length_app in Hf. cbn [len] in Hf. rewrite <-!str_app_assoc.
    rewrite Hv by (first [done | by left | by (simpl; auto) | lia]). cbn [scan_bind].
    change (skip_space ("," +:+ ?x)) with ("," +:+ x).
    change (expect "]" ("," +:+ ?x)) with (@None string).
    change (expect "," ("," +:+ ?x)) with (Some x). cbv iota. rewrite new_line_skip.
    destruct (lines_first level (dumps_indent level w) (map (dumps_indent level) l)
                (new_line level' +:+ "]" +:+ rest)) as [t Et].
    specialize (IH w Hw fuel (items ++ [v])). cbn [map] in IH. rewrite Et in IH |- *.
    rewrite dumps_indent_skip, IH by lia. by rewrite <-app_assoc.
Qed.

Lemma scan_entry_step level kv fuel pairs rest :
  indent_scans kv.2 → delimited rest → (2 * len (entry_text level kv) < fuel)%nat →
  scan_members (S fuel) (entry_text level kv +:+ rest) pairs =
  match expect "}" (skip_space rest), expect "," (skip_space rest) with
  | Some r, _ => let* (d, _r) := object_pairs (pairs ++ [kv]) [] in Scanned d r
  | _, Some r => scan_members fuel (skip_space r) (pairs ++ [kv])
  | _, _ => DecodeError
  end.
Proof.
  destruct kv as [k v]. cbn [snd]. intros Hv Hr Hf. unfold entry_text, dump_string in Hf |- *. cbn [fst snd] in *.
  rewrite !str_length_app in Hf. cbn [len] in Hf.
  rewrite <-!str_app_assoc. cbn [scan_members].
  change (expect "034" (quote +:+ ?x)) with (Some x). cbv iota.
  rewrite scan_dumped. cbn [scan_bind].
  change (skip_space (": " +:+ ?x)) with (":" +:+ (" " +:+ x)).
  change (expect ":" (":" +:+ ?x)) with (Some x). cbv iota.
  change (skip_space (" " +:+ ?x)) with (skip_space x).
  rewrite dumps_indent_skip, Hv by (done || lia). done.
Qed.

Lemma entry_text_skip level kv rest : skip_space (entry_text level kv +:+ rest) = entry_text level kv +:+ rest.
Proof. done. Qed.

Lemma scan_entry_lines level level' d kv fuel pairs rest :
  indent_scans kv.2 → Forall (λ kv, indent_scans kv.2) d →
  NoDup (pairs.*1 ++ (kv :: d).*1) →
  (2 * len (lines level (map (entry_text level) (kv :: d))) + 1 < fuel)%nat →
  scan_members fuel
    (lines level (map (entry_text level) (kv :: d)) +:+ new_line level' +:+ "}" +:+ rest) pairs
  = Scanned (DDict (pairs ++ kv :: d)) rest.
Proof.
  intros Hv Hd. revert kv Hv fuel pairs.
  induction Hd as [|kw d Hw _ IH]; intros kv Hv fuel pairs Hnd Hf; (destruct fuel as [|fuel]; [lia|]).
  - cbn [map] in *. rewrite lines_one in *.
    rewrite scan_entry_step by (apply new_line_delimited || done || lia).
    rewrite new_line_skip. change (skip_space ("}" +:+ rest)) with ("}" +:+ rest).
    change (expect "}" ("}" +:+ ?x)) with (Some x). cbv iota.
    rewrite object_pairs_fresh; [done|]. by rewrite fmap_app.
  - cbn [map] in Hf |- *. rewrite lines_cons in Hf |- *.
    rewrite !str_length_app in Hf. cbn [len] in Hf. rewrite <-!str_app_assoc.
    rewrite scan_entry_step by (first [done | by left | by (simpl; auto) | lia]).
    change (skip_space ("," +:+ ?x)) with ("," +:+ x).
    change (expect "}" ("," +:+ ?x)) with (@None string).
    change (expect "," ("," +:+ ?x)) with (Some x). cbv iota. rewrite new_line_skip.
    destruct (lines_first level (entry_text level kw) (map (entry_text level) d)
                (new_line level' +:+ "}" +:+ rest)) as [t Et].
    specialize (IH kw Hw fuel (pairs ++ [kv])). cbn [map] in IH. rewrite Et in IH |- *.
    rewrite entry_text_skip, IH by (rewrite ?fmap_app, <-?app_assoc; done || lia).
    by rewrite <-app_assoc.
Qed.

Lemma scan_nested c body rest fuel :
  is_char "034" c = false →
  is_char "{" c = true ∨ is_char "[" c = true →
  scan_value (S fuel) (String c body +:+ rest) =
  if is_char "{" c then
    match expect "}" (skip_space (body +:+ rest)) with
    | Some r => let* (d, _r) := object_pairs [] [] in Scanned d r
    | None => scan_members fuel (skip_space (body +:+ rest)) []
    end
  else
    match expect "]" (skip_space (body +:+ rest)) with
    | Some r => Scanned (DList []) r
    | None => scan_elements fuel (skip_space (body +:+ rest)) []
    end.
Proof.
  intros Hq Hc. rewrite str_app_cons. cbn [scan_value]. rewrite Hq.
  destruct (is_char "{" c); [done|]. destruct Hc as [?|Hc]; [done|]. by rewrite Hc.
Qed.

Lemma indented_scans msl depth v : wf_data msl depth v = true → indent_scans v.
Proof.
  revert depth. induction v as [|b|n|s|l IH|d IH] using data_nested_ind;
    intros depth Hw level fuel rest Hr Hf; (destruct fuel as [|fuel]; [lia|]).
  - by destruct rest.
  - destruct b; by destruct rest.
  - change (dumps_indent level (DInt n)) with (json_text (JInt n)) in *.
    by apply (json_text_scans msl depth (JInt n)).
  - change (dumps_indent level (DStr s)) with (json_text (JStr s)) in *.
    by apply (json_text_scans msl depth (JStr s)).
  - apply wf_data_list in Hw as [_ Hw]. destruct l as [|v l]; [done|].
    rewrite dumps_indent_list in Hf |- *. rewrite !str_length_app in Hf. cbn [len] in Hf.
    assert (Forall indent_scans (v :: l)) as [Hv Hl]%Forall_cons.
    { apply Forall_forall. intros w Hin. rewrite Forall_forall in IH, Hw. eauto. }
    rewrite <-!str_app_assoc. change ("[" +:+ ?x) with (String "[" "" +:+ x).
    rewrite (scan_nested "[" "") by (done || by right). change (is_char "{" "[") with false. cbv iota.
    change ("" +:+ ?x) with x. rewrite new_line_skip.
    destruct (lines_first (S level) (dumps_indent (S level) v) (map (dumps_indent (S level)) l)
                (new_line level +:+ "]" +:+ rest)) as [t Et].
    pose proof (scan_lines (S level) level l v fuel [] rest Hv Hl ltac:(lia)) as E.
    cbn [map] in E. rewrite Et in E. cbn [map].
    rewrite Et, dumps_indent_skip, dumps_indent_not_close. exact E.
  - apply wf_data_dict in Hw as (_ & Hn & Hw). destruct d as [|kv d]; [done|].
    rewrite dumps_indent_dict in Hf |- *. rewrite !str_length_app in Hf. cbn [len] in Hf.
    assert (Forall (λ kv, indent_scans kv.2) (kv :: d)) as [Hv Hl]%Forall_cons.
    { apply Forall_forall. intros w Hin. rewrite Forall_forall in IH, Hw.
      destruct (Hw w Hin). eauto. }
    rewrite <-!str_app_assoc. change ("{" +:+ ?x) with (String "{" "" +:+ x).
    rewrite (scan_nested "{" "") by (done || by left). change (is_char "{" "{") with true. cbv iota.
    change ("" +:+ ?x) with x. rewrite new_line_skip.
    destruct (lines_first (S level) (entry_text (S level) kv) (map (entry_text (S level)) d)
                (new_line level +:+ "}" +:+ rest)) as [t Et].
    pose proof (scan_entry_lines (S level) level d kv fuel [] rest Hv Hl Hn ltac:(lia)) as E.
    cbn [map] in E. rewrite Et in E. cbn [map]. rewrite Et, entry_text_skip. exact E.
Qed.

Lemma valid_utf8_lines level texts :
  Forall (λ s, valid_utf8 s = true) texts → valid_utf8 (lines level texts) = true.
Proof.
  induction texts as [|a [|b l] IH]; intros Hf; [done|by apply Forall_cons in Hf as [? _]|].
  apply Forall_cons in Hf as [Ha Hf]. rewrite lines_cons, valid_utf8_app by done.
  change (valid_utf8 ("," +:+ ?x)) with (valid_utf8 x).
  rewrite valid_utf8_app; [by apply IH|].
  apply valid_utf8_ascii, new_line_ascii.
Qed.

Lemma valid_utf8_new_line level s : valid_utf8 (new_line level +:+ s) = valid_utf8 s.
Proof. apply valid_utf8_app, valid_utf8_ascii, new_line_ascii. Qed.

Lemma valid_utf8_dumps_indent msl depth level v :
  wf_data msl depth v = true → valid_utf8 (dumps_indent level v) = true.
Proof.
  revert depth level. induction v as [|[]|n|s|l IH|d IH] using data_nested_ind; intros depth level Hw;
    [done..| | | |].
  - by apply (valid_utf8_json_text msl depth (JInt n)).
  - by apply (valid_utf8_json_text msl depth (JStr s)).
  - apply wf_data_list in Hw as [_ Hw]. destruct l as [|v l]; [done|]. rewrite dumps_indent_list.
    change (valid_utf8 ("[" +:+ ?x)) with (valid_utf8 x). rewrite valid_utf8_new_line, valid_utf8_app.
    + by rewrite valid_utf8_new_line.
    + apply valid_utf8_lines, Forall_fmap. rewrite Forall_forall in *. simpl. eauto.
  - apply wf_data_dict in Hw as (_ & _ & Hw). destruct d as [|kv d]; [done|]. rewrite dumps_indent_dict.
    change (valid_utf8 ("{" +:+ ?x)) with (valid_utf8 x). rewrite valid_utf8_new_line, valid_utf8_app.
    + by rewrite valid_utf8_new_line.
    + apply valid_utf8_lines, Forall_fmap. rewrite Forall_forall in *. intros kw Hkw. simpl.
      destruct (Hw kw Hkw) as [[[Hk _]%andb_true_iff _]%andb_true_iff Hv].
      unfold entry_text. rewrite valid_utf8_app by by apply valid_utf8_dump_string.
      change (valid_utf8 (": " +:+ ?x)) with (valid_utf8 x). eauto.
Qed.

(** Reading an indented document gives its strict value. *)
Lemma parse_indented v location max_depth max_string_length :
  (0 ≤ max_string_length)%Z → wf_data max_string_length max_depth v = true →
  parse_json (dumps_indent 0 v) location max_depth max_string_length = Ret (Ok (json_value v)).
Proof.
  intros Hm Hw. unfold parse_json.
  assert (0 ≤ max_depth)%Z as Hd by (destruct v; cbn [wf_data] in Hw; lia).
  assert ((max_depth <? 0)%Z || (max_string_length <? 0)%Z = false) as E by lia.
  rewrite E. cbn [raise_if]. cbn.
  rewrite (valid_utf8_dumps_indent _ _ _ _ Hw). unfold parse_json_text. rewrite E. cbn.
  assert (loads (dumps_indent 0 v) = Scanned v "") as ->.
  { unfold loads.
    assert (String.prefix byte_order_mark (dumps_indent 0 v) = false) as ->.
    { destruct (dumps_indent_head 0 v) as (c & t & -> & _ & Hc & _).
      unfold byte_order_mark. change (chr 65279) with (String "239" (String "187" (String "191" ""))).
      cbn [String.prefix]. by destruct (ascii_dec "239" c) as [<-|]. }
    rewrite <-(str_app_nil_r (dumps_indent 0 v)) at 2. rewrite dumps_indent_skip.
    by rewrite (indented_scans _ _ _ Hw) by (done || lia). }
  rewrite freeze_data; [done|]. by rewrite Z.sub_0_r.
Qed.
End scan.
