(* ===== verification/Protocol.v ===== *)
(** The protocol values under [src/agent_artifacts/protocol]: safe relative
    paths ([paths.py]), digests and tree hashing ([hashing.py]), capability
    negotiation ([capabilities.py]), schema primitives ([schema.py]) and the
    records of [native_models.py] and [registry_models.py].

    A [Literal] type ([InstallScope], [InstallMode], [InstallEffect],
    [ReviewStatus]) is the [str] it is at run time. *)
From S2P Require Import Prelude PyText Regex Domain SemVer Encodings Json.
From Stdlib Require Import Ascii.

Definition SCHEMA_TYPE := MkCode "protocol-schema-type".
Definition SCHEMA_MISSING_FIELD := MkCode "protocol-schema-missing-field".
Definition SCHEMA_UNKNOWN_FIELD := MkCode "protocol-schema-unknown-field".
Definition SCHEMA_EXTENSION_KEY := MkCode "protocol-schema-extension-key".
Definition PATH_INVALID := MkCode "protocol-path-invalid".
Definition DIGEST_INVALID := MkCode "protocol-digest-invalid".
Definition TREE_INVALID := MkCode "protocol-tree-invalid".
Definition CAPABILITY_INVALID := MkCode "protocol-capability-invalid".

(** * Safe relative paths *)

Record SafeRelativePath := MkPath { sp_parts : list string }.
#[export] Instance path_eq_dec : EqDecision SafeRelativePath.
Proof. solve_decision. Defined.

(** [SafeRelativePath.__str__] *)
Definition path_str (p : SafeRelativePath) : string := join "/" (sp_parts p).

(** [_WINDOWS_DRIVE_RE.match]: [$] also matches before a final newline. *)
Definition windows_drive (raw : string) : bool :=
  match raw with
  | String a (String b rest) =>
      is_alpha a && is_char ":" b
      && match rest with
         | EmptyString => true
         | String c rest => is_char "/" c || (is_char newline c && str_empty rest)
         end
  | _ => false
  end.

Section paths.
Context `{UnicodeData}.

Definition invalid_path {A} (raw reason : string) (location : option SourceLocation) : Result A :=
  fail1 (diagnostic PATH_INVALID ERROR
    ("invalid relative path " +:+ repr raw +:+ ": " +:+ reason) location [] []).

Definition parse_relative_path (raw : string) (location : option SourceLocation) :
    Result SafeRelativePath :=
  if str_empty raw then invalid_path raw "path is empty" location
  else if has_surrogate raw then
    invalid_path raw "path contains an unpaired Unicode surrogate" location
  else if negb (bool_decide (nfc raw = raw)) then
    invalid_path raw "path must use NFC Unicode normalization" location
  else if String.prefix "/" raw || windows_drive raw then
    invalid_path raw "absolute paths are forbidden" location
  else if has_char "\" raw then
    invalid_path raw "backslash is not a protocol separator" location
  else if str_exists is_control raw then
    invalid_path raw "control characters are forbidden" location
  else
    let parts := split_on "/" raw in
    if existsb str_empty parts then
      invalid_path raw "empty path segments are forbidden" location
    else if existsb (λ part, mem part ["."; ".."]) parts then
      invalid_path raw "dot and parent segments are forbidden" location
    else Ok (MkPath parts).
End paths.

(** * Digests and trees *)

Definition SHA256_RE : re := RStr "sha256:" · hex64_re.

Inductive EntryKind : Type := FILE | DIRECTORY.

Record TreeEntry := MkEntry {
  te_path : SafeRelativePath;
  te_kind : EntryKind;
  te_executable : bool;
  te_size : Z;
  te_content_digest : option ObjectDigest
}.

Definition sha256_bytes (data : bytes) : ObjectDigest :=
  MkDigest "sha256" (sha256_hexdigest data).

Definition json_digest (value : JsonValue) : ObjectDigest :=
  sha256_bytes (canonical_json_bytes value).

Definition file_entry (path : SafeRelativePath) (content : bytes) (executable : bool) : TreeEntry :=
  MkEntry path FILE executable (Z.of_nat (String.length content)) (Some (sha256_bytes content)).

Definition directory_entry (path : SafeRelativePath) : TreeEntry :=
  MkEntry path DIRECTORY false 0 None.

Definition invalid_tree {A} (message : string) : Result A :=
  fail1 (diagnostic TREE_INVALID ERROR message None [] []).

(** [n.to_bytes(8, "big")] *)
Definition int_to_bytes8 (n : Z) : py bytes :=
  if ((0 <=? n) && (n <? 2 ^ 64))%Z then Ret (to_bytes8 n)
  else Raise (OverflowError "int too big to convert").

Definition frame (data : bytes) : py bytes :=
  size ← int_to_bytes8 (Z.of_nat (String.length data)); Ret (size +:+ data).

Section hashing.
Context `{UnicodeData}.

Definition parse_sha256 (raw : string) (location : option SourceLocation) : Result ObjectDigest :=
  if fullmatch SHA256_RE raw then Ok (MkDigest "sha256" (removeprefix "sha256:" raw))
  else fail1 (diagnostic DIGEST_INVALID ERROR
                ("invalid canonical SHA-256 digest: " +:+ repr raw) location [] []).

(** [_tree_record]; the [isinstance] tests are the types of the fields. *)
Definition tree_record (entry : TreeEntry) : py (Result bytes) :=
  let path := path_str (te_path entry) in
  match parse_relative_path path None with
  | Err _ => Ret (invalid_tree ("tree entry path is not canonical: " +:+ path))
  | Ok parsed =>
      if negb (bool_decide (parsed = te_path entry)) then
        Ret (invalid_tree ("tree entry path is not canonical: " +:+ path))
      else
        match te_kind entry, te_content_digest entry with
        | DIRECTORY, digest =>
            if te_executable entry || negb (te_size entry =? 0)%Z || bool_decide (digest ≠ None)
            then Ret (invalid_tree ("directory entry has file metadata: " +:+ path))
            else framed ← frame path; Ret (Ok ("D" +:+ framed))
        | FILE, None => Ret (invalid_tree ("file entry has incomplete metadata: " +:+ path))
        | FILE, Some digest =>
            if (te_size entry <? 0)%Z || (2 ^ 64 - 1 <? te_size entry)%Z
            then Ret (invalid_tree ("file entry has incomplete metadata: " +:+ path))
            else if negb (fullmatch SHA256_RE (digest_str digest))
            then Ret (invalid_tree ("file entry has invalid content digest: " +:+ path))
            else
              framed ← frame path;
              size ← int_to_bytes8 (te_size entry);
              Ret (Ok ("F" +:+ framed
                       +:+ String (if te_executable entry then "001" else "000")%char ""
                       +:+ size +:+ fromhex (dg_value digest)))
        end
  end.

(** The loop over [seen_paths]: the first path met twice. *)
Fixpoint first_duplicate (paths seen : list string) : option string :=
  match paths with
  | [] => None
  | path :: paths =>
      if mem path seen then Some path else first_duplicate paths (path :: seen)
  end.

(** The loop over the ordered entries: their records, or the first error. *)
Fixpoint tree_records (entries : list TreeEntry) : py (Result (list bytes)) :=
  match entries with
  | [] => Ret (Ok [])
  | entry :: entries =>
      record ← tree_record entry;
      match record with
      | Err ds => Ret (Err ds)
      | Ok record =>
          records ← tree_records entries;
          Ret (records ← records; Ok (record :: records))
      end
  end.

(** The bytes [tree_digest] hashes. *)
Definition tree_payload (entries : list TreeEntry) : py (Result bytes) :=
  let ordered := sorted (λ e, path_str (te_path e)) entries in
  match first_duplicate (map (λ e, path_str (te_path e)) ordered) [] with
  | Some path => Ret (invalid_tree ("duplicate tree path: " +:+ path))
  | None =>
      records ← tree_records ordered;
      match records with
      | Err ds => Ret (Err ds)
      | Ok records =>
          frames ← mapM frame records;
          Ret (Ok ("AART-TREE-V1" +:+ String "000" "" +:+ String.concat "" frames))
      end
  end.

Definition tree_digest (entries : list TreeEntry) : py (Result ObjectDigest) :=
  payload ← tree_payload entries; Ret (fmap (M:=Result) sha256_bytes payload).
End hashing.

(** * Capabilities *)

Record Capability := MkCapability { cap_value : string }.
#[export] Instance capability_eq_dec : EqDecision Capability.
Proof. solve_decision. Defined.
#[export] Instance cap_value_inj : Inj (=) (=) cap_value.
Proof. intros [] []; simpl; congruence. Qed.

Record CapabilityDecision := MkCapDecision {
  cd_required : list Capability;
  cd_optional : list Capability;
  cd_available : list Capability;
  cd_enabled : list Capability;
  cd_missing_required : list Capability;
  cd_unsupported_optional : list Capability
}.
(** [CapabilityDecision.compatible] *)
Definition cd_compatible (d : CapabilityDecision) : bool :=
  bool_decide (cd_missing_required d = []).

Definition parse_capability `{UnicodeData} (raw : string) (location : option SourceLocation) :
    Result Capability :=
  if fullmatch slug_re raw then Ok (MkCapability raw)
  else fail1 (diagnostic CAPABILITY_INVALID ERROR
                ("invalid capability name: " +:+ repr raw) location [] []).

Definition normalized (values : list Capability) : list Capability := sorted_set cap_value values.

Definition negotiate_capabilities (required optional available : list Capability) :
    CapabilityDecision :=
  let normalized_required := normalized required in
  let normalized_optional := filter (λ c, c ∉ normalized_required) (normalized optional) in
  let normalized_available := normalized available in
  MkCapDecision normalized_required normalized_optional normalized_available
    (normalized (filter (λ c, c ∈ normalized_available)
       (normalized_required ++ normalized_optional)))
    (filter (λ c, c ∉ normalized_available) normalized_required)
    (filter (λ c, c ∉ normalized_available) normalized_optional).

(** * Schema primitives *)

Definition EXTENSION_RE : re :=
  let tail := RStar (RChar (λ c, is_lower c || is_digit c || is_char "-" c)) in
  RChar is_lower · tail · RPlus (RLit "." · RChar is_lower · tail).

(** [_diagnostic] *)
Definition schema_diagnostic (code : DiagnosticCode) (message : string)
    (location : option SourceLocation) (field : option string) : Diagnostic :=
  diagnostic code ERROR message location []
    match field with None => [] | Some f => [("field", f)] end.

Definition is_namespaced_extension (key : string) : bool := fullmatch EXTENSION_RE key.

(** [type(value).__name__] *)
Definition type_name (v : JsonValue) : string :=
  match v with
  | JNull => "NoneType" | JBool _ => "bool" | JInt _ => "int" | JStr _ => "str"
  | JsonArray _ => "JsonArray" | JsonObject _ => "JsonObject"
  end.

Section schema.
Context `{UnicodeData}.

Definition looks_like_extension (field : string) : bool :=
  has_char "." field
  || str_exists (λ c, negb (is_alnum c || is_char "_" c || is_char "-" c)) field.

Definition unexpected_field (field : string) (allow_extensions : bool)
    (location : option SourceLocation) : list Diagnostic :=
  if allow_extensions && is_namespaced_extension field then []
  else if allow_extensions && looks_like_extension field
  then [schema_diagnostic SCHEMA_EXTENSION_KEY
          ("invalid namespaced extension field " +:+ repr field) location (Some field)]
  else [schema_diagnostic SCHEMA_UNKNOWN_FIELD ("unknown field " +:+ repr field) location
          (Some field)].

(** [validate_object_fields] on the entries of a [JsonObject]. *)
Definition validate_object_fields (value : list (string * JsonValue))
    (required optional : list string) (allow_extensions : bool)
    (location : option SourceLocation) : py (Result (list (string * JsonValue))) :=
  _ ← raise_if (existsb (λ f, mem f optional) required)
        "required and optional fields must not overlap";
  let present := value.*1 in
  let missing := sorted_set id (filter (λ f, f ∉ present) required) in
  let unknown := sorted_set id (filter (λ f, f ∉ required ++ optional) present) in
  let diagnostics :=
    map (λ f, schema_diagnostic SCHEMA_MISSING_FIELD
                ("missing required field " +:+ repr f) location (Some f)) missing
    ++ concat (map (λ f, unexpected_field f allow_extensions location) unknown) in
  Ret match diagnostics with [] => Ok value | _ => raise_errors diagnostics end.

Definition type_error {A} (label : string) (value : JsonValue)
    (location : option SourceLocation) : Result A :=
  fail1 (schema_diagnostic SCHEMA_TYPE
    ("expected " +:+ label +:+ ", got " +:+ type_name value) location None).

Definition expect_object (value : JsonValue) (location : option SourceLocation) :
    Result (list (string * JsonValue)) :=
  match value with JsonObject d => Ok d | _ => type_error "object" value location end.
Definition expect_array (value : JsonValue) (location : option SourceLocation) :
    Result (list JsonValue) :=
  match value with JsonArray l => Ok l | _ => type_error "array" value location end.
Definition expect_string (value : JsonValue) (location : option SourceLocation) : Result string :=
  match value with JStr s => Ok s | _ => type_error "string" value location end.
Definition expect_integer (value : JsonValue) (location : option SourceLocation) : Result Z :=
  match value with JInt n => Ok n | _ => type_error "integer" value location end.
End schema.

(** * Native source protocol values *)

Definition PAYLOAD_FORMATS : list (string * string) :=
  [("skill", "aart-skill-v1"); ("guideline", "aart-guideline-v1"); ("mcp", "aart-mcp-v1");
   ("hook", "aart-hook-v1"); ("memory", "aart-memory-v1")].
Definition PAYLOAD_FORMAT_BY_TYPE : list (string * string) := dict_of PAYLOAD_FORMATS.
Definition INSTALL_EFFECTS_BY_TYPE : list (string * list string) :=
  [("skill", ["copy-tree"]); ("guideline", ["write-file"]); ("mcp", ["merge-json"]);
   ("hook", ["copy-tree"; "merge-json"]); ("memory", ["write-file"; "managed-block"])].

Record ArtifactSelector := MkSelector {
  as_identity : ArtifactIdentity;
  as_version : option VersionBounds
}.
Record SourceManifest := MkSourceManifest {
  sm_schema_version : Z;
  sm_protocol_version : Z;
  sm_source_id : SourceId;
  sm_display_name : string;
  sm_requires_aart : VersionBounds;
  sm_required_capabilities : list Capability;
  sm_artifact_roots : list SafeRelativePath;
  sm_collection_roots : list SafeRelativePath;
  sm_extensions : list (string * JsonValue)
}.
Record PayloadSpec := MkPayloadSpec { ps_root : SafeRelativePath; ps_format : string }.
Record CompatibilitySpec := MkCompatibilitySpec {
  cs_profiles : list string;
  cs_platforms : list string
}.
Record InstallSpec := MkInstallSpec {
  is_scopes : list string;
  is_modes : list string;
  is_effects : list string
}.
Record SetupReference := MkSetupReference {
  sr_recipe : SafeRelativePath;
  sr_platforms : list string
}.
Record ArtifactManifest := MkArtifactManifest {
  am_schema_version : Z;
  am_identity : ArtifactIdentity;
  am_version : SemVer;
  am_summary : string;
  am_payload : PayloadSpec;
  am_compatibility : CompatibilitySpec;
  am_install : InstallSpec;
  am_setup : option SetupReference;
  am_authors : list string;
  am_license : option string;
  am_homepage : option string;
  am_extensions : list (string * JsonValue);
  am_requires_aart : VersionBounds;
  am_requires : list ArtifactSelector
}.
Record OriginProvenance := MkOriginProvenance {
  op_url : string;
  op_resolved_commit : string;
  op_path : SafeRelativePath;
  op_input_digest : ObjectDigest
}.
Record ImporterProvenance := MkImporterProvenance {
  ip_id : string;
  ip_version : SemVer;
  ip_options_digest : ObjectDigest
}.
Record Provenance := MkProvenance {
  pv_schema_version : Z;
  pv_origin : OriginProvenance;
  pv_importer : ImporterProvenance;
  pv_warnings : list string;
  pv_extensions : list (string * JsonValue)
}.
Record CollectionManifest := MkCollectionManifest {
  cm_schema_version : Z;
  cm_name : string;
  cm_summary : string;
  cm_artifacts : list ArtifactSelector;
  cm_collections : list string;
  cm_extensions : list (string * JsonValue)
}.

(** * Registry protocol values *)

Record ServiceAdvertisement := MkService {
  sv_name : string;
  sv_kind : string;
  sv_repository : option string
}.
Record RegistryManifest := MkRegistryManifest {
  rm_schema_version : Z;
  rm_protocol_version : Z;
  rm_registry_id : SourceId;
  rm_display_name : string;
  rm_requires_aart : VersionBounds;
  rm_required_capabilities : list Capability;
  rm_default_channel : string;
  rm_services : list ServiceAdvertisement;
  rm_extensions : list (string * JsonValue)
}.
Record GitArtifactReference := MkGitReference {
  gr_url : string;
  gr_ref : string;
  gr_path : SafeRelativePath
}.
Record ReviewRecord := MkReview { rr_status : string; rr_policy : string }.
Record RegistryEntry := MkRegistryEntry {
  re_schema_version : Z;
  re_identity : ArtifactIdentity;
  re_source : GitArtifactReference;
  re_review : ReviewRecord;
  re_extensions : list (string * JsonValue)
}.
Record LockedArtifact := MkLocked {
  la_origin_url : string;
  la_requested_ref : string;
  la_resolved_commit : string;
  la_path : SafeRelativePath;
  la_manifest_digest : ObjectDigest;
  la_payload_digest : ObjectDigest;
  la_object_digest : ObjectDigest;
  la_artifact_version : SemVer;
  la_review : ReviewRecord;
  la_provenance_digest : option ObjectDigest
}.
Record RegistryLock := MkRegistryLock {
  rl_schema_version : Z;
  rl_registry_inputs_digest : ObjectDigest;
  rl_entries : list (ArtifactIdentity * LockedArtifact)
}.
Record ResolvedRegistryReference := MkResolvedReference {
  rf_identity : ArtifactIdentity;
  rf_origin_url : string;
  rf_requested_ref : string;
  rf_resolved_commit : string;
  rf_path : SafeRelativePath;
  rf_manifest_digest : ObjectDigest;
  rf_payload_digest : ObjectDigest;
  rf_object_digest : ObjectDigest;
  rf_artifact_version : SemVer;
  rf_review : ReviewRecord;
  rf_provenance_digest : option ObjectDigest
}.
Record IndexSetup := MkIndexSetup {
  ix_recipe : SafeRelativePath;
  ix_platforms : list string;
  ix_capabilities : list Capability
}.
Record IndexProvenance := MkIndexProvenance {
  px_origin_url : string;
  px_resolved_commit : string;
  px_path : SafeRelativePath
}.
Record IndexArtifact := MkIndexArtifact {
  ia_source_id : SourceId;
  ia_identity : ArtifactIdentity;
  ia_version : SemVer;
  ia_summary : string;
  ia_manifest_digest : ObjectDigest;
  ia_payload_digest : ObjectDigest;
  ia_object_digest : ObjectDigest;
  ia_compatibility : CompatibilitySpec;
  ia_install : InstallSpec;
  ia_setup : option IndexSetup;
  ia_review : option ReviewRecord;
  ia_provenance : option IndexProvenance;
  ia_collections : list string;
  ia_requires_aart : VersionBounds;
  ia_requires : list ArtifactSelector
}.
Record RegistryIndex := MkRegistryIndex {
  ri_schema_version : Z;
  ri_protocol_version : Z;
  ri_registry_id : SourceId;
  ri_registry_inputs_digest : ObjectDigest;
  ri_artifacts : list IndexArtifact;
  ri_collections : list CollectionManifest;
  ri_services : list ServiceAdvertisement
}.

(** * Properties of paths *)

(** The shape of the paths the parser accepts. *)
Definition safe_part (part : string) : bool :=
  negb (str_empty part) && negb (mem part ["."; ".."])
  && negb (has_char "/" part) && negb (has_char "\" part) && negb (str_exists is_control part).
Definition wf_path `{UnicodeData} (p : SafeRelativePath) : bool :=
  negb (bool_decide (sp_parts p = [])) && forallb safe_part (sp_parts p)
  && negb (windows_drive (path_str p)) && negb (has_surrogate (path_str p))
  && bool_decide (nfc (path_str p) = path_str p).

Lemma str_exists_join p sep parts :
  p sep = false → str_exists p (join (String sep "") parts) = existsb (str_exists p) parts.
Proof.
  intros Hs. induction parts as [|x [|y parts] IH]; [done|..].
  - simpl. by rewrite orb_false_r.
  - change (join _ (x :: y :: parts)) with (x +:+ String sep (join (String sep "") (y :: parts))).
    unfold str_exists in *. rewrite str_forall_app. cbn [str_forall existsb] in *. rewrite Hs.
    simpl in IH |- *. by rewrite negb_andb, IH.
Qed.

Lemma existsb_forallb {A} (f : A → bool) l : existsb f l = negb (forallb (λ x, negb (f x)) l).
Proof. induction l as [|x l IH]; simpl; [done|]. rewrite IH. by destruct (f x). Qed.

Lemma split_on_parts raw p :
  split_on "/" raw = sp_parts p ↔
  path_str p = raw ∧ sp_parts p ≠ [] ∧ forallb (λ x, negb (has_char "/" x)) (sp_parts p) = true.
Proof.
  unfold path_str. split.
  - intros <-. split_and!; [apply join_split_on|apply split_on_ne|].
    apply forallb_forall. intros x Hx. apply list_elem_of_In in Hx.
    pose proof (split_on_no_sep "/" raw) as Hf. rewrite Forall_forall in Hf. by rewrite Hf.
  - intros (<- & Hne & Hf). apply split_on_join; try done.
    apply Forall_forall. intros x Hx. eapply forallb_forall in Hf; [|by apply list_elem_of_In].
    by apply negb_true_iff.
Qed.

Lemma forallb_and {A} (f g : A → bool) l :
  forallb (λ x, f x && g x) l = forallb f l && forallb g l.
Proof. induction l as [|x l IH]; simpl; [done|]. rewrite IH. by destruct (f x), (g x), (forallb f l). Qed.

Lemma safe_parts_split parts :
  forallb safe_part parts =
  forallb (λ x, negb (has_char "/" x)) parts
  && negb (existsb (has_char "\") parts) && negb (existsb (str_exists is_control) parts)
  && negb (existsb str_empty parts) && negb (existsb (λ x, mem x ["."; ".."]) parts).
Proof.
  induction parts as [|x parts IH]; simpl; [done|]. rewrite IH. unfold safe_part.
  destruct (str_empty x), (mem x ["."; ".."]), (has_char "/" x), (has_char "\" x),
    (str_exists is_control x); simpl; rewrite ?andb_false_r; done.
Qed.

Lemma path_str_head parts :
  parts ≠ [] → existsb str_empty parts = false →
  forallb (λ x, negb (has_char "/" x)) parts = true →
  str_empty (join "/" parts) = false ∧ String.prefix "/" (join "/" parts) = false.
Proof.
  intros Hne He Hs. destruct parts as [|[|c x] parts]; [done|done|].
  cbn [forallb] in Hs. apply andb_true_iff in Hs as [Hc _]. apply negb_true_iff in Hc.
  assert (∃ t, join "/" (String c x :: parts) = String c t) as [t ->].
  { destruct parts; cbn [join]; rewrite ?str_app_cons; eauto. }
  split; [done|]. apply has_char_false in Hc. cbn [str_forall] in Hc.
  apply andb_true_iff in Hc as [Hc _]. cbn [String.prefix].
  destruct (ascii_dec "/" c) as [<-|]; done.
Qed.

Lemma parse_relative_path_exact `{UnicodeData} raw location p :
  parse_relative_path raw location = Ok p ↔ path_str p = raw ∧ wf_path p = true.
Proof.
  unfold wf_path. rewrite safe_parts_split. split.
  - unfold parse_relative_path, invalid_path, fail1. intros Hp.
    repeat case_match; simplify_eq.
    pose proof (proj1 (split_on_parts raw (MkPath (split_on "/" raw))) eq_refl) as (Hr & Hne & Hs).
    rewrite Hr. split; [done|]. cbn [sp_parts] in *. rewrite Hs.
    apply orb_false_iff in H3 as [_ Hw]. unfold path_str in Hr. cbn [sp_parts] in Hr.
    rewrite <-Hr in H4, H5. unfold has_char in H4. rewrite str_exists_join in H4, H5 by done.
    change (has_char "\") with (str_exists (is_char "\")). rewrite H4, H5, H6, H7, Hw, H1.
    rewrite (bool_decide_false (split_on "/" raw = [])) by done.
    apply negb_false_iff in H2. by rewrite H2.
  - intros [<- Hw]. repeat (apply andb_true_iff in Hw as [Hw ?]).
    apply negb_true_iff, bool_decide_eq_false in Hw. split_guard.
    assert (split_on "/" (path_str p) = sp_parts p) as E by (apply split_on_parts; done).
    destruct (path_str_head (sp_parts p)) as [He Hpre]; [done..|].
    unfold parse_relative_path. rewrite E.
    replace (has_char "\" (path_str p)) with false
      by (symmetry; unfold path_str, has_char; by rewrite str_exists_join).
    replace (str_exists is_control (path_str p)) with false
      by (symmetry; unfold path_str; by rewrite str_exists_join).
    unfold path_str in *. rewrite He, Hpre.
    repeat match goal with H : ?x = false |- _ => rewrite H; clear H end.
    rewrite bool_decide_true by done. by destruct p.
Qed.

(** The parser accepts exactly the well-formed relative paths, and the
    accepted path prints as the text it was parsed from. *)
Theorem parse_relative_path_iff `{UnicodeData} raw location p :
  parse_relative_path raw location = Ok p ↔ path_str p = raw ∧ wf_path p = true.
Proof. apply parse_relative_path_exact. Qed.

(** * Properties of tree hashing *)

Lemma to_bytes_length w n acc : String.length (to_bytes w n acc) = (w + String.length acc)%nat.
Proof. revert n acc. induction w as [|w IH]; intros n acc; simpl; [done|]. rewrite IH. simpl. lia. Qed.

Lemma byte_of_Z_inj n m :
  (0 ≤ n < 256)%Z → (0 ≤ m < 256)%Z → ascii_of_N (Z.to_N n) = ascii_of_N (Z.to_N m) → n = m.
Proof.
  intros Hn Hm E. apply (f_equal N_of_ascii) in E. rewrite !N_ascii_embedding in E by lia. lia.
Qed.

Lemma to_bytes_inj w n m acc acc' :
  (0 ≤ n < 256 ^ Z.of_nat w)%Z → (0 ≤ m < 256 ^ Z.of_nat w)%Z →
  String.length acc = String.length acc' →
  to_bytes w n acc = to_bytes w m acc' → n = m ∧ acc = acc'.
Proof.
  revert n m acc acc'. induction w as [|w IH]; intros n m acc acc' Hn Hm Hl E.
  - simpl in *. split; [lia|done].
  - cbn [to_bytes] in E. rewrite Nat2Z.inj_succ, Z.pow_succ_r in Hn, Hm by lia.
    apply IH in E as [Hq [= Hc ->]].
    + split; [|done]. apply byte_of_Z_inj in Hc; [|apply Z.mod_pos_bound; lia..].
      pose proof (Z.div_mod n 256 ltac:(lia)). pose proof (Z.div_mod m 256 ltac:(lia)). lia.
    + split; [apply Z.div_pos; lia|]. apply Z.div_lt_upper_bound; lia.
    + split; [apply Z.div_pos; lia|]. apply Z.div_lt_upper_bound; lia.
    + simpl. by rewrite Hl.
Qed.

Lemma int_to_bytes8_Ret n b :
  int_to_bytes8 n = Ret b ↔ (0 ≤ n < 2 ^ 64)%Z ∧ b = to_bytes8 n.
Proof.
  unfold int_to_bytes8. destruct (_ && _) eqn:E.
  - split; [intros [= <-]; split; [lia|done]|by intros [_ ->]].
  - split; [done|]. intros [? _]. lia.
Qed.

Lemma to_bytes8_app_inj n m x y :
  (0 ≤ n < 2 ^ 64)%Z → (0 ≤ m < 2 ^ 64)%Z →
  to_bytes8 n +:+ x = to_bytes8 m +:+ y → n = m ∧ x = y.
Proof.
  intros Hn Hm E. apply str_app_inj_len in E as [E ->].
  - apply to_bytes_inj in E as [-> _]; [done|lia..|done].
  - unfold to_bytes8. by rewrite !to_bytes_length.
Qed.

Lemma frame_app_inj a b fa fb x y :
  frame a = Ret fa → frame b = Ret fb → fa +:+ x = fb +:+ y → a = b ∧ x = y.
Proof.
  unfold frame. intros (? & [Ha ->]%int_to_bytes8_Ret & [= <-])%bind_Ret
    (? & [Hb ->]%int_to_bytes8_Ret & [= <-])%bind_Ret E.
  rewrite <-!str_app_assoc in E. apply to_bytes8_app_inj in E as [El E]; [|done..].
  by apply str_app_inj_len in E; [|lia].
Qed.

Lemma frame_nonempty a fa x : frame a = Ret fa → fa +:+ x ≠ "".
Proof.
  unfold frame. intros (? & [Ha ->]%int_to_bytes8_Ret & [= <-])%bind_Ret.
  intros E%(f_equal String.length). rewrite !str_length_app in E. unfold to_bytes8 in E.
  rewrite to_bytes_length in E. simpl in E. lia.
Qed.

Lemma frames_inj l k fl fk :
  Forall2 (λ r f, frame r = Ret f) l fl → Forall2 (λ r f, frame r = Ret f) k fk →
  String.concat "" fl = String.concat "" fk → l = k.
Proof.
  intros Hl. revert k fk. induction Hl as [|r f l fl Hr _ IH]; intros k fk Hk E;
    destruct Hk as [|r' f' k fk Hr' Hk]; rewrite ?concat_cons in E.
  - done.
  - symmetry in E. by apply frame_nonempty with (1:=Hr') in E.
  - by apply frame_nonempty with (1:=Hr) in E.
  - apply (frame_app_inj _ _ _ _ _ _ Hr Hr') in E as [-> E]. f_equal. by eapply IH.
Qed.

Lemma hex_digit_value a : is_hex a = true → hex_digit (hex_value a) = a.
Proof. destruct a as [[] [] [] [] [] [] [] []]; intros Ha; try discriminate Ha; done. Qed.

Lemma hex_value_inj a b : is_hex a = true → is_hex b = true → hex_value a = hex_value b → a = b.
Proof. intros Ha Hb E. by rewrite <-(hex_digit_value a Ha), E, hex_digit_value. Qed.

Lemma hex_value_bound a : is_hex a = true → (hex_value a < 16)%N.
Proof. destruct a as [[] [] [] [] [] [] [] []]; intros Ha; try discriminate Ha; done. Qed.

Lemma fromhex_inj s t :
  str_forall is_hex s = true → str_forall is_hex t = true →
  String.length s = String.length t → Nat.Even (String.length s) → fromhex s = fromhex t → s = t.
Proof.
  remember (String.length s) as n eqn:En. revert s t En.
  induction n as [n IH] using lt_wf_ind. intros [|a [|b s]] t -> Hs Ht Hl Hev E.
  - by destruct t.
  - destruct Hev as [k Hk]. simpl in Hk. lia.
  - destruct t as [|a' [|b' t]]; [done|done|]. cbn [fromhex str_forall] in *.
    apply andb_true_iff in Hs as [Ha Hs], Ht as [Ha' Ht].
    apply andb_true_iff in Hs as [Hb Hs], Ht as [Hb' Ht].
    injection E as Ec E. cbn [String.length] in *.
    apply (f_equal N_of_ascii) in Ec.
    pose proof (hex_value_bound a Ha). pose proof (hex_value_bound b Hb).
    pose proof (hex_value_bound a' Ha'). pose proof (hex_value_bound b' Hb').
    rewrite !N_ascii_embedding in Ec by lia.
    assert (hex_value a = hex_value a' ∧ hex_value b = hex_value b') as [E1 E2] by lia.
    apply hex_value_inj in E1 as ->, E2 as ->; [|done..]. do 2 f_equal.
    eapply IH; try done; [lia|lia|]. destruct Hev as [k Hk]. exists (k - 1)%nat. lia.
Qed.

Lemma matches_str p s : matches (RStr p) s ↔ s = p.
Proof.
  revert s. induction p as [|c p IH]; intros s; simpl; [apply matches_eps_inv|].
  rewrite matches_seq_inv. split.
  - intros (y & z & -> & Hy & ->%IH). apply matches_lit in Hy as ->. done.
  - intros ->. exists (String c ""), p. split_and!; [done|by apply matches_lit|by apply IH].
Qed.

Lemma SHA256_RE_spec s :
  fullmatch SHA256_RE s = true ↔
  ∃ h, s = "sha256:" +:+ h ∧ String.length h = 64%nat ∧ str_forall is_hex h = true.
Proof.
  rewrite fullmatch_iff. unfold SHA256_RE. rewrite matches_seq_inv. split.
  - intros (y & z & -> & ->%matches_str & [Hl Hz]%matches_rep). eauto.
  - intros (h & -> & Hl & Hh). exists "sha256:", h.
    split_and!; [done|by apply matches_str|by apply matches_rep].
Qed.

Lemma app_separator_inj d a b v w :
  has_char d b = false → has_char d w = false →
  a +:+ String d v = b +:+ String d w → a = b ∧ v = w.
Proof.
  rewrite !has_char_false. intros Hb Hw. revert a. induction b as [|c b IH]; intros [|c' a] E.
  - by injection E as ->.
  - injection E as -> <-. rewrite str_forall_app in Hw. cbn [str_forall] in Hw.
    rewrite is_char_refl, andb_false_r in Hw. done.
  - injection E as <- _. cbn [str_forall] in Hb. by rewrite is_char_refl in Hb.
  - injection E as -> E. cbn [str_forall] in Hb. apply andb_true_iff in Hb as [_ Hb].
    by apply IH in E as [-> ->].
Qed.

Lemma hex_no_colon h : str_forall is_hex h = true → has_char ":" h = false.
Proof.
  intros Hh. apply has_char_false. eapply str_forall_impl; [|exact Hh]. intros c Hc.
  destruct (is_char ":" c) eqn:E; [|done]. by apply is_char_true in E as <-.
Qed.

Lemma digest_str_sha256 d :
  fullmatch SHA256_RE (digest_str d) = true →
  dg_algorithm d = "sha256" ∧ String.length (dg_value d) = 64%nat
  ∧ str_forall is_hex (dg_value d) = true.
Proof.
  intros (h & E & Hl & Hh)%SHA256_RE_spec. unfold digest_str in E.
  change ("sha256:" +:+ h) with ("sha256" +:+ String ":" h) in E.
  apply app_separator_inj in E as [-> ->]; [done..|]. by apply hex_no_colon.
Qed.

(** The bytes of an entry, and the entries that have them. *)
Inductive entry_record `{UnicodeData} : TreeEntry → bytes → Prop :=
  | record_directory path f :
      parse_relative_path (path_str path) None = Ok path → frame (path_str path) = Ret f →
      entry_record (MkEntry path DIRECTORY false 0 None) ("D" +:+ f)
  | record_file path x n d f :
      parse_relative_path (path_str path) None = Ok path → frame (path_str path) = Ret f →
      (0 ≤ n < 2 ^ 64)%Z → fullmatch SHA256_RE (digest_str d) = true →
      entry_record (MkEntry path FILE x n (Some d))
        ("F" +:+ f +:+ String (if x then "001" else "000")%char "" +:+ to_bytes8 n
         +:+ fromhex (dg_value d)).

Lemma tree_record_spec `{UnicodeData} e r : tree_record e = Ret (Ok r) → entry_record e r.
Proof.
  destruct e as [path kind x n d]. unfold tree_record, invalid_tree, fail1. cbn.
  destruct (parse_relative_path _ _) as [p|] eqn:Hp; [|done].
  case_bool_decide as E; [|done]. subst p. simpl.
  destruct kind; [destruct d as [d|]; [|done]|].
  - destruct (_ || _) eqn:Hn; [done|]. destruct (fullmatch _ _) eqn:Hf; [|done].
    simpl. intros (f & Hfr & (s & [Hs ->]%int_to_bytes8_Ret & [= <-])%bind_Ret)%bind_Ret.
    by constructor.
  - destruct (x || _ || _) eqn:Hn; [done|].
    apply orb_false_iff in Hn as [Hn Hd]. apply orb_false_iff in Hn as [-> Hn].
    apply negb_false_iff, Z.eqb_eq in Hn as ->. apply bool_decide_eq_false, dec_stable in Hd as ->.
    intros (f & Hfr & [= <-])%bind_Ret. by constructor.
Qed.

Lemma entry_record_inj `{UnicodeData} e e' r : entry_record e r → entry_record e' r → e = e'.
Proof.
  destruct 1 as [path f Hp Hf|path x n d f Hp Hf Hn Hd]; inversion 1 as [path' f' Hp' Hf' Ee Er
    |path' x' n' d' f' Hp' Hf' Hn' Hd' Ee Er]; subst.
  - change (f' = f) in Er. subst f'.
    assert (path_str path' = path_str path ∧ ("" : string) = "") as [E _].
    { apply (frame_app_inj _ _ _ _ _ _ Hf' Hf). done. }
    rewrite E in Hp'. congruence.
  - change (f' +:+ (String (if x' then "001" else "000")%char "" +:+ to_bytes8 n' +:+ fromhex (dg_value d'))
      = f +:+ (String (if x then "001" else "000")%char "" +:+ to_bytes8 n +:+ fromhex (dg_value d))) in Er.
    apply (frame_app_inj _ _ _ _ _ _ Hf' Hf) in Er as [E Er]. rewrite E in Hp'.
    apply str_app_inj_len in Er as [[= Ex] Er]; [|done].
    apply to_bytes8_app_inj in Er as [-> Er]; [|done..].
    apply digest_str_sha256 in Hd as (Ha & Hl & Hh), Hd' as (Ha' & Hl' & Hh').
    apply fromhex_inj in Er; [|done|done|congruence|rewrite Hl'; by exists 32%nat].
    destruct d, d'; simpl in *; subst. destruct x, x'; try done; congruence.
Qed.

Lemma tree_records_spec `{UnicodeData} es rs :
  tree_records es = Ret (Ok rs) → Forall2 entry_record es rs.
Proof.
  revert rs. induction es as [|e es IH]; intros rs; simpl; [by intros [= <-]|].
  intros ([r|] & Hr & E)%bind_Ret; [|done].
  apply bind_Ret in E as ([rs'|] & Hrs & [= <-]). constructor; [by apply tree_record_spec|auto].
Qed.

Lemma entry_records_inj `{UnicodeData} es es' rs :
  Forall2 entry_record es rs → Forall2 entry_record es' rs → es = es'.
Proof.
  intros Hes. revert es'. induction Hes as [|e r es rs He _ IH]; intros es' Hes'; inversion Hes'; subst.
  - done.
  - f_equal; [by eapply entry_record_inj|auto].
Qed.

(** The bytes [tree_digest] hashes determine the tree: two sets of entries
    with the same payload are the same up to order. *)
Theorem tree_payload_injective `{UnicodeData} es es' payload :
  tree_payload es = Ret (Ok payload) → tree_payload es' = Ret (Ok payload) → es ≡ₚ es'.
Proof.
  assert (∀ es, tree_payload es = Ret (Ok payload) → ∃ rs fs,
    Forall2 entry_record (sorted (λ e, path_str (te_path e)) es) rs ∧
    Forall2 (λ r f, frame r = Ret f) rs fs ∧
    payload = "AART-TREE-V1" +:+ String "000" "" +:+ String.concat "" fs) as Hinv.
  { unfold tree_payload. intros l Hl. destruct (first_duplicate _ _); [done|].
    apply bind_Ret in Hl as ([rs|] & Hrs & Hl); [|done].
    apply bind_Ret in Hl as (fs & Hfs%mapM_Ret & [= <-]). exists rs, fs.
    split_and!; [by apply tree_records_spec|done|done]. }
  intros (rs & fs & Hrs & Hfs & Ep)%Hinv (rs' & fs' & Hrs' & Hfs' & Ep')%Hinv. subst payload.
  injection Ep' as Ep'. assert (rs = rs') as <- by (eapply frames_inj; [exact Hfs|exact Hfs'|done]).
  rewrite <-(sorted_perm (λ e, path_str (te_path e)) es).
  rewrite <-(sorted_perm (λ e, path_str (te_path e)) es').
  by rewrite (entry_records_inj _ _ _ Hrs Hrs').
Qed.

Definition sample_tree : list TreeEntry :=
  [directory_entry (MkPath ["skills"]); file_entry (MkPath ["skills"; "a.md"]) "abc" false].

Lemma tree_payload_injective_witness :
  match @tree_payload ascii_unicode sample_tree with
  | Ret (Ok payload) => sample_tree ≡ₚ rev sample_tree
  | _ => False
  end.
Proof.
  destruct (@tree_payload ascii_unicode sample_tree) as [[payload|]|] eqn:E;
    [|by vm_compute in E..].
  apply (@tree_payload_injective ascii_unicode sample_tree (rev sample_tree) payload E).
  rewrite <-E. by vm_compute.
Defined.

(** * Properties of capability negotiation *)

Lemma elem_of_normalized c l : c ∈ normalized l ↔ c ∈ l.
Proof. apply elem_of_sorted_set. Qed.

(** Negotiation succeeds exactly when every required capability is
    available; what is enabled is every requested and available capability,
    and the unavailable ones are reported under the request that named them.
    Every list is sorted and free of duplicates. *)
Theorem negotiate_capabilities_spec required optional available :
  let d := negotiate_capabilities required optional available in
  (cd_compatible d = true ↔ ∀ c, c ∈ required → c ∈ available) ∧
  (∀ c, c ∈ cd_enabled d ↔ (c ∈ required ∨ c ∈ optional) ∧ c ∈ available) ∧
  (∀ c, c ∈ cd_missing_required d ↔ c ∈ required ∧ c ∉ available) ∧
  (∀ c, c ∈ cd_unsupported_optional d ↔ c ∈ optional ∧ c ∉ required ∧ c ∉ available) ∧
  NoDup (cd_enabled d) ∧ StronglySorted (key_le cap_value) (cd_enabled d).
Proof.
  intros d. subst d. unfold negotiate_capabilities, cd_compatible; simpl.
  assert (∀ c, c ∈ filter (λ c, c ∉ normalized available) (normalized required)
               ↔ c ∈ required ∧ c ∉ available) as Hm.
  { intros c. rewrite list_elem_of_filter, !elem_of_normalized. tauto. }
  split_and!.
  - rewrite bool_decide_eq_true. split.
    + intros E c Hc. apply dec_stable. intros Hn. apply (not_elem_of_nil c). rewrite <-E. by apply Hm.
    + intros Hs. apply elem_of_nil_inv. intros c [Hc Hn]%Hm. by apply Hn, Hs.
  - intros c. rewrite elem_of_normalized, list_elem_of_filter, elem_of_app, list_elem_of_filter,
      !elem_of_normalized. destruct (decide (c ∈ required)); tauto.
  - done.
  - intros c. rewrite !list_elem_of_filter, !elem_of_normalized. tauto.
  - apply NoDup_sorted_set.
  - apply sorted_set_sorted.
Qed.

(** * Properties of schema validation *)

Definition field_allowed (required optional : list string) (allow_extensions : bool)
    (field : string) : Prop :=
  field ∈ required ∨ field ∈ optional ∨ (allow_extensions = true ∧ is_namespaced_extension field = true).

Lemma unexpected_field_nil `{UnicodeData} field allow location :
  unexpected_field field allow location = [] ↔
  allow = true ∧ is_namespaced_extension field = true.
Proof.
  unfold unexpected_field. destruct allow, (is_namespaced_extension field),
    (looks_like_extension field); simpl; naive_solver.
Qed.

(** An object passes field validation exactly when every required field is
    present and every present field is declared or, where allowed, a
    namespaced extension; the value is returned unchanged. *)
Theorem validate_object_fields_spec `{UnicodeData} value required optional allow location r :
  validate_object_fields value required optional allow location = Ret r →
  (is_ok r = true ↔ (∀ f, f ∈ required → f ∈ value.*1) ∧
                    (∀ f, f ∈ value.*1 → field_allowed required optional allow f)) ∧
  (∀ v, r = Ok v → v = value).
Proof.
  unfold validate_object_fields. intros (_ & _ & [= <-])%bind_Ret. split.
  - match goal with |- is_ok match ?ds with _ => _ end = true ↔ _ =>
      transitivity (ds = []); [by destruct ds|] end.
    split.
    + intros [Hm%map_eq_nil Hu%concat_eq_nil]%app_nil. rewrite Forall_map in Hu. split.
      * intros f Hf. apply dec_stable. intros Hn. apply sorted_set_nil_iff in Hm.
        apply (not_elem_of_nil f). rewrite <-Hm. by apply list_elem_of_filter.
      * intros f Hf. unfold field_allowed. rewrite Forall_forall in Hu.
        destruct (decide (f ∈ required ++ optional)) as [Ha|Hn];
          [apply elem_of_app in Ha; tauto|].
        right; right. eapply unexpected_field_nil, Hu, elem_of_sorted_set.
        by apply list_elem_of_filter.
    + intros [Hr Ha]. apply app_nil. split.
      * assert (filter (λ f, f ∉ value.*1) required = []) as ->; [|done].
        apply elem_of_nil_inv. intros f [Hn Hf]%list_elem_of_filter. by apply Hn, Hr.
      * apply concat_eq_nil, Forall_map, Forall_forall. intros f Hf. simpl.
        apply elem_of_sorted_set, list_elem_of_filter in Hf as [Hn Hf].
        apply unexpected_field_nil. rewrite elem_of_app in Hn.
        destruct (Ha f Hf) as [?|[?|?]]; tauto.
  - intros v. by destruct (_ ++ _); intros [= <-].
Qed.

Lemma validate_object_fields_spec_witness :
  is_ok (Ok [("name", JStr "x"); ("org.example", JNull)] : Result (list (string * JsonValue))) = true ↔
  (∀ f, f ∈ ["name"] → f ∈ ["name"; "org.example"]) ∧
  (∀ f, f ∈ ["name"; "org.example"] → field_allowed ["name"] ["summary"] true f).
Proof.
  refine (proj1 (@validate_object_fields_spec ascii_unicode
    [("name", JStr "x"); ("org.example", JNull)] ["name"] ["summary"] true None _ _)).
  by vm_compute.
Defined.
