(* ===== verification/CompilerModel.v ===== *)
(** The frozen values of the compiler ([compiler/model.py]) and the source
    snapshot they carry ([protocol/native_tree.py]).  A dataclass with a
    [__post_init__] has a smart constructor that raises as it does; a field
    whose type is an enumeration or a record needs no [isinstance] test. *)
From S2P Require Import Prelude PyText Regex Domain Encodings Json Protocol.
From Stdlib Require Import Ascii.

(** * Snapshots *)

Inductive SnapshotOrigin : Type := LOCAL | IMMUTABLE_GIT.
Inductive SnapshotEntryKind : Type := SFILE | SDIRECTORY | SYMLINK | SPECIAL.
Record SnapshotEntry := MkSnapshotEntry {
  se_path : SafeRelativePath;
  se_kind : SnapshotEntryKind;
  se_content : bytes;
  se_executable : bool
}.
Record SourceSnapshot := MkSnapshot {
  ss_origin : SnapshotOrigin;
  ss_entries : list SnapshotEntry
}.
(** [SourceSnapshot(origin, entries)] *)
Definition source_snapshot (origin : SnapshotOrigin) (entries : list SnapshotEntry) :
    SourceSnapshot :=
  MkSnapshot origin (sorted (λ e, path_str (se_path e)) entries).

(** * Phases *)

Inductive CompilerMode : Type := CONSUMER | MAINTAINER.
Inductive CompilerPhase : Type :=
  | ACQUIRE | PARSE | HANDSHAKE | RESOLVE | NORMALIZE | VALIDATE | INDEX | MATERIALIZE | PUBLISH.
Inductive PhaseStatus : Type := SUCCEEDED | FAILED | SKIPPED.

#[export] Instance mode_eq_dec : EqDecision CompilerMode.
Proof. solve_decision. Defined.
#[export] Instance phase_eq_dec : EqDecision CompilerPhase.
Proof. solve_decision. Defined.
#[export] Instance status_eq_dec : EqDecision PhaseStatus.
Proof. solve_decision. Defined.

(** [tuple(CompilerPhase)] *)
Definition all_phases : list CompilerPhase :=
  [ACQUIRE; PARSE; HANDSHAKE; RESOLVE; NORMALIZE; VALIDATE; INDEX; MATERIALIZE; PUBLISH].
Definition phase_position (p : CompilerPhase) : Z :=
  match p with
  | ACQUIRE => 0 | PARSE => 1 | HANDSHAKE => 2 | RESOLVE => 3 | NORMALIZE => 4
  | VALIDATE => 5 | INDEX => 6 | MATERIALIZE => 7 | PUBLISH => 8
  end.

Definition valid_digest (digest : ObjectDigest) : bool :=
  bool_decide (dg_algorithm digest = "sha256") && fullmatch hex64_re (dg_value digest).

Definition require_digest (digest : ObjectDigest) (label : string) : py unit :=
  raise_if (negb (valid_digest digest)) (label +:+ " must be a canonical SHA-256 digest").

Definition require_opt_digest (digest : option ObjectDigest) (label : string) : py unit :=
  match digest with None => Ret tt | Some digest => require_digest digest label end.

(** [not s or "\n" in s or "\r" in s] *)
Definition not_one_line (s : string) : bool :=
  str_empty s || has_char newline s || has_char creturn s.

(** * Requests and acquired sources *)

Record SourceRequest := MkSourceRequest {
  sq_alias : SourceAlias;
  sq_locator : string;
  sq_locked_revision : option string;
  sq_expected_snapshot_digest : option ObjectDigest
}.
(** [SourceRequest(...)] *)
Definition source_request (alias : SourceAlias) (locator : string)
    (locked_revision : option string) (expected : option ObjectDigest) : py SourceRequest :=
  _ ← raise_if (str_empty (alias_value alias) || str_empty locator)
        "source alias and locator must be non-empty";
  _ ← match locked_revision with
      | None => Ret tt
      | Some r => raise_if (not_one_line r) "locked revision must be one non-empty line"
      end;
  _ ← require_opt_digest expected "expected snapshot digest";
  Ret (MkSourceRequest alias locator locked_revision expected).

Record CompilerRequest := MkCompilerRequest {
  cr_build_key : string;
  cr_mode : CompilerMode;
  cr_sources : list SourceRequest;
  cr_options_digest : ObjectDigest
}.
(** [CompilerRequest(...)] *)
Definition compiler_request (build_key : string) (mode : CompilerMode)
    (sources : list SourceRequest) (options_digest : ObjectDigest) : py CompilerRequest :=
  _ ← raise_if (not_one_line build_key) "build key must be one non-empty line";
  _ ← require_digest options_digest "options digest";
  let ordered := sorted (λ s, alias_value (sq_alias s)) sources in
  _ ← raise_if (has_dups (map (λ s, alias_value (sq_alias s)) ordered))
        "compiler source aliases must be unique";
  Ret (MkCompilerRequest build_key mode ordered options_digest).

Record AcquiredSource := MkAcquiredSource {
  aq_alias : SourceAlias;
  aq_resolved_revision : string;
  aq_snapshot_digest : ObjectDigest;
  aq_snapshot : SourceSnapshot
}.
(** [AcquiredSource(...)] *)
Definition acquired_source (alias : SourceAlias) (resolved_revision : string)
    (snapshot_digest : ObjectDigest) (snapshot : SourceSnapshot) : py AcquiredSource :=
  _ ← raise_if (str_empty (alias_value alias) || not_one_line resolved_revision)
        "acquired source identity must be non-empty";
  _ ← require_digest snapshot_digest "snapshot digest";
  Ret (MkAcquiredSource alias resolved_revision snapshot_digest snapshot).

Record AcquiredCompilation := MkAcquiredCompilation {
  ac_sources : list AcquiredSource;
  ac_input_digest : ObjectDigest
}.
(** [AcquiredCompilation(...)] *)
Definition acquired_compilation_init (sources : list AcquiredSource)
    (input_digest : ObjectDigest) : py AcquiredCompilation :=
  _ ← require_digest input_digest "compiler input digest";
  let ordered := sorted (λ s, alias_value (aq_alias s)) sources in
  _ ← raise_if (has_dups (map (λ s, alias_value (aq_alias s)) ordered))
        "acquired source aliases must be unique";
  Ret (MkAcquiredCompilation ordered input_digest).

Record CompilerContext := MkContext {
  cx_build_key : string;
  cx_mode : CompilerMode;
  cx_options_digest : ObjectDigest;
  cx_input_digest : ObjectDigest
}.
(** [CompilerContext(...)] *)
Definition compiler_context (build_key : string) (mode : CompilerMode)
    (options_digest input_digest : ObjectDigest) : py CompilerContext :=
  _ ← raise_if (not_one_line build_key) "compiler context build key must be one non-empty line";
  _ ← require_digest options_digest "compiler options digest";
  _ ← require_digest input_digest "compiler input digest";
  Ret (MkContext build_key mode options_digest input_digest).

(** * Phase outputs, objects and publication *)

Record PhaseOutput (T : Type) := MkOutput {
  po_value : T;
  po_digest : ObjectDigest;
  po_diagnostics : list Diagnostic
}.
Global Arguments MkOutput {_} _ _ _.
Global Arguments po_value {_} _.
Global Arguments po_digest {_} _.
Global Arguments po_diagnostics {_} _.
(** [PhaseOutput(...)] *)
Definition phase_output_init {T} (value : T) (digest : ObjectDigest)
    (diagnostics : list Diagnostic) : py (PhaseOutput T) :=
  _ ← require_digest digest "phase output digest";
  Ret (MkOutput value digest (sort_diagnostics diagnostics)).

Record ResolvedCompilation (T : Type) := MkResolved { rc_value : T; rc_frozen : bool }.
Global Arguments MkResolved {_} _ _.
Global Arguments rc_value {_} _.
Global Arguments rc_frozen {_} _.

Record ObjectPlan := MkObjectPlan { pl_digest : ObjectDigest; pl_content : bytes }.
(** [ObjectPlan(...)] *)
Definition object_plan_init (digest : ObjectDigest) (content : bytes) : py ObjectPlan :=
  _ ← raise_if (negb (bool_decide (sha256_bytes content = digest)))
        "object plan digest must bind its exact bytes";
  Ret (MkObjectPlan digest content).

Record ObjectReceipt := MkObjectReceipt { rt_digest : ObjectDigest }.
(** [ObjectReceipt(...)] *)
Definition object_receipt (digest : ObjectDigest) : py ObjectReceipt :=
  _ ← require_digest digest "object receipt digest"; Ret (MkObjectReceipt digest).

Record CompilationCandidate := MkCandidate {
  ca_input_digest : ObjectDigest;
  ca_index_bytes : bytes;
  ca_index_digest : ObjectDigest;
  ca_objects : list ObjectPlan
}.
(** [CompilationCandidate(...)] *)
Definition candidate_init (input_digest : ObjectDigest) (index_bytes : bytes)
    (index_digest : ObjectDigest) (objects : list ObjectPlan) : py CompilationCandidate :=
  _ ← require_digest input_digest "candidate input digest";
  _ ← raise_if (negb (bool_decide (sha256_bytes index_bytes = index_digest)))
        "candidate index digest must bind its exact bytes";
  let ordered := sorted (λ o, digest_str (pl_digest o)) objects in
  _ ← raise_if (has_dups (map pl_digest ordered)) "candidate object digests must be unique";
  Ret (MkCandidate input_digest index_bytes index_digest ordered).

(** [_snapshot_digest] *)
Definition snapshot_digest (build_key : string) (input_digest index_digest : ObjectDigest)
    (object_digests : list ObjectDigest) : ObjectDigest :=
  json_digest (json_object
    [("build_key", JStr build_key);
     ("input_digest", JStr (digest_str input_digest));
     ("index_digest", JStr (digest_str index_digest));
     ("object_digests", JsonArray (map (λ d, JStr (digest_str d)) object_digests))]).

Record PublishRequest := MkPublishRequest {
  pr_build_key : string;
  pr_input_digest : ObjectDigest;
  pr_index_bytes : bytes;
  pr_index_digest : ObjectDigest;
  pr_object_digests : list ObjectDigest;
  pr_snapshot_digest : ObjectDigest
}.
(** [PublishRequest(...)] *)
Definition publish_request (build_key : string) (input_digest : ObjectDigest)
    (index_bytes : bytes) (index_digest : ObjectDigest) (object_digests : list ObjectDigest)
    (snapshot : ObjectDigest) : py PublishRequest :=
  _ ← raise_if (str_empty build_key) "publish build key must be non-empty";
  _ ← require_digest input_digest "publish input digest";
  _ ← require_digest index_digest "publish index digest";
  _ ← require_digest snapshot "publish snapshot digest";
  _ ← raise_if (negb (bool_decide (sha256_bytes index_bytes = index_digest)))
        "publish index digest must bind its exact bytes";
  let ordered := sorted digest_str object_digests in
  _ ← mapM (λ d, require_digest d "publish object digest") ordered;
  _ ← raise_if (has_dups ordered) "publish object digests must be unique";
  _ ← raise_if (negb (bool_decide
          (snapshot_digest build_key input_digest index_digest ordered = snapshot)))
        "publish snapshot digest must bind all publication inputs";
  Ret (MkPublishRequest build_key input_digest index_bytes index_digest ordered snapshot).

Record PublishReceipt := MkPublishReceipt { pt_snapshot_digest : ObjectDigest }.
(** [PublishReceipt(...)] *)
Definition publish_receipt (snapshot : ObjectDigest) : py PublishReceipt :=
  _ ← require_digest snapshot "publish receipt digest"; Ret (MkPublishReceipt snapshot).

(** * Reports and runs *)

Record PhaseReport := MkReport {
  pp_phase : CompilerPhase;
  pp_status : PhaseStatus;
  pp_input_digest : option ObjectDigest;
  pp_output_digest : option ObjectDigest;
  pp_diagnostics : list Diagnostic
}.
(** [PhaseReport(...)] *)
Definition phase_report (phase : CompilerPhase) (status : PhaseStatus)
    (input_digest output_digest : option ObjectDigest) (diagnostics : list Diagnostic) :
    py PhaseReport :=
  _ ← require_opt_digest input_digest "phase input digest";
  _ ← require_opt_digest output_digest "phase output digest";
  Ret (MkReport phase status input_digest output_digest (sort_diagnostics diagnostics)).

Record CompilerRun := MkRun {
  ru_reports : list PhaseReport;
  ru_candidate : option CompilationCandidate;
  ru_publication : option PublishReceipt;
  ru_diagnostics : list Diagnostic
}.
(** [CompilerRun(...)] *)
Definition compiler_run (reports : list PhaseReport) (candidate : option CompilationCandidate)
    (publication : option PublishReceipt) : py CompilerRun :=
  let ordered := sorted (λ r, phase_position (pp_phase r)) reports in
  _ ← raise_if (negb (bool_decide (map pp_phase ordered = all_phases)))
        "compiler run must contain exactly one report for every phase";
  _ ← raise_if (match publication, candidate with Some _, None => true | _, _ => false end)
        "publication requires a compilation candidate";
  Ret (MkRun ordered candidate publication
         (sort_diagnostics (concat (map pp_diagnostics ordered)))).

(** [CompilerRun.succeeded] *)
Definition run_succeeded (run : CompilerRun) : bool :=
  match ru_publication run with
  | None => false
  | Some _ => negb (existsb (λ d, bool_decide (d_severity d = ERROR)) (ru_diagnostics run))
  end.

(** * Builders *)

Definition phase_output {T} (value : T) (canonical_bytes : bytes)
    (diagnostics : list Diagnostic) : py (PhaseOutput T) :=
  phase_output_init value (sha256_bytes canonical_bytes) diagnostics.

Definition object_plan (content : bytes) : py ObjectPlan :=
  object_plan_init (sha256_bytes content) content.

Definition acquired_compilation (sources : list AcquiredSource) (options_digest : ObjectDigest) :
    py AcquiredCompilation :=
  _ ← require_digest options_digest "compiler options digest";
  let ordered := sorted (λ s, alias_value (aq_alias s)) sources in
  let source_values := JsonArray (map (λ s, json_object
    [("alias", JStr (alias_value (aq_alias s)));
     ("resolved_revision", JStr (aq_resolved_revision s));
     ("snapshot_digest", JStr (digest_str (aq_snapshot_digest s)))]) ordered) in
  let digest := json_digest (json_object
    [("options_digest", JStr (digest_str options_digest)); ("sources", source_values)]) in
  acquired_compilation_init ordered digest.

Definition compilation_candidate (input_digest : ObjectDigest) (index_bytes : bytes)
    (objects : list ObjectPlan) : py CompilationCandidate :=
  candidate_init input_digest index_bytes (sha256_bytes index_bytes) objects.

Definition materialization_digest (receipts : list ObjectReceipt) : ObjectDigest :=
  json_digest (JsonArray (map (λ r, JStr (digest_str (rt_digest r)))
    (sorted (λ r, digest_str (rt_digest r)) receipts))).

Definition publication_request (candidate : CompilationCandidate) (build_key : string) :
    py PublishRequest :=
  let object_digests := map pl_digest (ca_objects candidate) in
  publish_request build_key (ca_input_digest candidate) (ca_index_bytes candidate)
    (ca_index_digest candidate) object_digests
    (snapshot_digest build_key (ca_input_digest candidate) (ca_index_digest candidate)
       object_digests).

(** * What the constructors establish *)

Lemma sha256_bytes_valid data : valid_digest (sha256_bytes data) = true.
Proof.
  unfold valid_digest. cbn [dg_algorithm dg_value sha256_bytes].
  rewrite bool_decide_true by done. apply fullmatch_iff, matches_rep.
  destruct (sha256_hexdigest_hex data). split; done.
Qed.

Lemma json_digest_valid v : valid_digest (json_digest v) = true.
Proof. apply sha256_bytes_valid. Qed.

Lemma require_digest_valid d label : valid_digest d = true → require_digest d label = Ret tt.
Proof. intros Hd. unfold require_digest. by rewrite Hd. Qed.

Lemma valid_digest_fullmatch d : valid_digest d = true → fullmatch SHA256_RE (digest_str d) = true.
Proof.
  unfold valid_digest. intros [Ha Hv%fullmatch_iff%matches_rep]%andb_true_iff.
  apply bool_decide_eq_true in Ha. apply SHA256_RE_spec. exists (dg_value d).
  unfold digest_str. rewrite Ha. naive_solver.
Qed.

(** Canonical digests are told apart by their text. *)
Lemma digest_str_inj d e :
  valid_digest d = true → valid_digest e = true → digest_str d = digest_str e → d = e.
Proof.
  unfold valid_digest. intros [Ha _]%andb_true_iff [Hb _]%andb_true_iff.
  apply bool_decide_eq_true in Ha, Hb. destruct d as [a v], e as [b w]; simpl in *. subst.
  unfold digest_str; simpl. intros E.
  by apply (str_app_inj_len "sha256:" "sha256:") in E as [_ ->].
Qed.

Lemma publish_request_Ret build_key input index_bytes index objects snapshot :
  str_empty build_key = false → valid_digest input = true → valid_digest index = true →
  valid_digest snapshot = true → sha256_bytes index_bytes = index →
  Forall (λ d, valid_digest d = true) objects → NoDup objects → sorted digest_str objects = objects →
  snapshot_digest build_key input index objects = snapshot →
  publish_request build_key input index_bytes index objects snapshot
  = Ret (MkPublishRequest build_key input index_bytes index objects snapshot).
Proof.
  intros Hk Hi Hx Hs Hb Ho Hnd Hsort Hsnap. unfold publish_request.
  rewrite Hk, (require_digest_valid input), (require_digest_valid index),
    (require_digest_valid snapshot) by done.
  rewrite (bool_decide_true (_ = index)) by done. cbn [raise_if mbind py_bind negb].
  assert (mapM (λ d, require_digest d "publish object digest") objects
          = Ret (map (λ _, tt) objects)) as Hmap.
  { clear -Ho. induction Ho as [|d l Hd _ IH]; [done|]. cbn [mapM].
    rewrite require_digest_valid by done. cbn [mbind py_bind]. by rewrite IH. }
  rewrite Hsort, Hmap. cbn [mbind py_bind]. rewrite (proj2 (has_dups_false _)) by done.
  cbn [raise_if mbind py_bind]. by rewrite bool_decide_true by done.
Qed.
