(* ===== verification/Compiler.v ===== *)
(** Compiler orchestration ([application/compiler.py]).

    The injected ports ([domain/ports.py]) are effects: an answer may depend on
    every call made before it, so a port is a function of the trace of earlier
    calls, and running the compiler appends its calls to the trace. *)
From S2P Require Import Prelude PyText Domain Json Protocol CompilerModel.

Definition COMPILER_SOURCE_NOT_FROZEN := MkCode "compiler-source-not-frozen".
Definition COMPILER_SOURCE_MISMATCH := MkCode "compiler-source-mismatch".
Definition COMPILER_UNFROZEN_RESOLUTION := MkCode "compiler-unfrozen-resolution".
Definition COMPILER_PHASE_OUTPUT_INVALID := MkCode "compiler-phase-output-invalid".
Definition COMPILER_OBJECT_RECEIPT_MISMATCH := MkCode "compiler-object-receipt-mismatch".
Definition COMPILER_PUBLISH_RECEIPT_MISMATCH := MkCode "compiler-publish-receipt-mismatch".

(** * Effects *)

Inductive event : Type :=
  | EAcquire (request : SourceRequest) (result : Result AcquiredSource)
  | EMaterialize (plan : ObjectPlan) (result : Result ObjectReceipt)
  | EPublish (request : PublishRequest) (result : Result PublishReceipt).

Record CompilerPorts := MkPorts {
  cp_acquire : list event → SourceRequest → Result AcquiredSource;
  cp_materialize : list event → ObjectPlan → Result ObjectReceipt;
  cp_publish : list event → PublishRequest → Result PublishReceipt
}.

(** A computation that calls ports and may raise. *)
Definition eff (A : Type) : Type := list event → py (A * list event).
#[export] Instance eff_ret : MRet eff := λ A a trace, Ret (a, trace).
#[export] Instance eff_bind : MBind eff := λ A B f m trace,
  match m trace with Ret (a, trace') => f a trace' | Raise e => Raise e end.
Definition lift {A} (m : py A) : eff A :=
  λ trace, match m with Ret a => Ret (a, trace) | Raise e => Raise e end.

Definition call_acquire (ports : CompilerPorts) (s : SourceRequest) :
    eff (Result AcquiredSource) :=
  λ trace, let r := cp_acquire ports trace s in Ret (r, trace ++ [EAcquire s r]).
Definition call_materialize (ports : CompilerPorts) (p : ObjectPlan) :
    eff (Result ObjectReceipt) :=
  λ trace, let r := cp_materialize ports trace p in Ret (r, trace ++ [EMaterialize p r]).
Definition call_publish (ports : CompilerPorts) (q : PublishRequest) :
    eff (Result PublishReceipt) :=
  λ trace, let r := cp_publish ports trace q in Ret (r, trace ++ [EPublish q r]).

(** * The phases *)

Record CompilerSteps (P H R N V : Type) := MkSteps {
  st_parse : AcquiredCompilation → CompilerContext → Result (PhaseOutput P);
  st_handshake : PhaseOutput P → CompilerContext → Result (PhaseOutput H);
  st_resolve : PhaseOutput H → CompilerContext → Result (PhaseOutput (ResolvedCompilation R));
  st_normalize : PhaseOutput (ResolvedCompilation R) → CompilerContext → Result (PhaseOutput N);
  st_validate : PhaseOutput N → CompilerContext → Result (PhaseOutput V);
  st_index : PhaseOutput V → CompilerContext → Result (PhaseOutput CompilationCandidate)
}.
Global Arguments MkSteps {_ _ _ _ _} _ _ _ _ _ _.
Global Arguments st_parse {_ _ _ _ _} _ _ _.
Global Arguments st_handshake {_ _ _ _ _} _ _ _.
Global Arguments st_resolve {_ _ _ _ _} _ _ _.
Global Arguments st_normalize {_ _ _ _ _} _ _ _.
Global Arguments st_validate {_ _ _ _ _} _ _ _.
Global Arguments st_index {_ _ _ _ _} _ _ _.

(** [_diagnostic] *)
Definition compiler_diagnostic (code : DiagnosticCode) (message : string)
    (source : option SourceRequest) : Diagnostic :=
  diagnostic code ERROR message (source_location <$> (sq_alias <$> source)) [] [].

(** [_failed_run]: the failed report, then a skipped one per later phase. *)
Definition failed_run (reports : list PhaseReport) (phase : CompilerPhase)
    (diagnostics : list Diagnostic) (input_digest : option ObjectDigest)
    (candidate : option CompilationCandidate) : py CompilerRun :=
  failed ← phase_report phase FAILED input_digest None diagnostics;
  skipped ← mapM (λ remaining, phase_report remaining SKIPPED None None [])
              (drop (Z.to_nat (phase_position phase + 1)) all_phases);
  compiler_run (reports ++ [failed] ++ skipped) candidate None.

Definition accepted_output {A} (result : Result (PhaseOutput A)) :
    option (PhaseOutput A) * list Diagnostic :=
  match result with
  | Err diagnostics => (None, diagnostics)
  | Ok value =>
      if existsb (λ d, bool_decide (d_severity d = ERROR)) (po_diagnostics value)
      then (None, po_diagnostics value) else (Some value, [])
  end.

Definition success_report {A} (phase : CompilerPhase) (input_digest : ObjectDigest)
    (output : PhaseOutput A) : py PhaseReport :=
  phase_report phase SUCCEEDED (Some input_digest) (Some (po_digest output))
    (po_diagnostics output).

(** The consumer's refusal of sources that are not locked. *)
Definition unlocked (s : SourceRequest) : bool :=
  match sq_locked_revision s, sq_expected_snapshot_digest s with
  | Some _, Some _ => false
  | _, _ => true
  end.
Definition not_frozen_diagnostics (request : CompilerRequest) : list Diagnostic :=
  match cr_mode request with
  | MAINTAINER => []
  | CONSUMER =>
      map (λ s, compiler_diagnostic COMPILER_SOURCE_NOT_FROZEN
                  ("consumer source " +:+ alias_value (sq_alias s)
                   +:+ " requires locked revision and snapshot digest") (Some s))
        (List.filter unlocked (cr_sources request))
  end.

(** What one acquisition adds: an accepted source or diagnostics. *)
Definition check_acquired (mode : CompilerMode) (source : SourceRequest)
    (result : Result AcquiredSource) : list Diagnostic + AcquiredSource :=
  match result with
  | Err ds => inl ds
  | Ok item =>
      if negb (bool_decide (aq_alias item = sq_alias source)) then
        inl [compiler_diagnostic COMPILER_SOURCE_MISMATCH
               ("acquisition returned alias " +:+ alias_value (aq_alias item)
                +:+ " for requested " +:+ alias_value (sq_alias source)) (Some source)]
      else if bool_decide (mode = CONSUMER)
              && (negb (bool_decide (Some (aq_resolved_revision item) = sq_locked_revision source))
                  || negb (bool_decide
                       (Some (aq_snapshot_digest item) = sq_expected_snapshot_digest source))) then
        inl [compiler_diagnostic COMPILER_SOURCE_MISMATCH
               ("acquisition did not match frozen source " +:+ alias_value (sq_alias source))
               (Some source)]
      else inr item
  end.

Fixpoint acquire_loop (ports : CompilerPorts) (mode : CompilerMode) (sources : list SourceRequest)
    (acquired : list AcquiredSource) (diagnostics : list Diagnostic) :
    eff (list AcquiredSource * list Diagnostic) :=
  match sources with
  | [] => mret (acquired, diagnostics)
  | source :: sources =>
      result ← call_acquire ports source;
      match check_acquired mode source result with
      | inl ds => acquire_loop ports mode sources acquired (diagnostics ++ ds)
      | inr item => acquire_loop ports mode sources (acquired ++ [item]) diagnostics
      end
  end.

(** [_acquire].  [Err(tuple(diagnostics))] sorts; the list is not empty there. *)
Definition acquire (request : CompilerRequest) (ports : CompilerPorts) :
    eff (Result AcquiredCompilation) :=
  match not_frozen_diagnostics request with
  | (_ :: _) as diagnostics => mret (raise_errors diagnostics)
  | [] =>
      loop ← acquire_loop ports (cr_mode request) (cr_sources request) [] [];
      match loop.2 with
      | (_ :: _) as diagnostics => mret (raise_errors diagnostics)
      | [] =>
          compilation ← lift (acquired_compilation loop.1 (cr_options_digest request));
          mret (Ok compilation)
      end
  end.

(** One step of [compile_sources]: accept the output, apply the phase's own
    [check], report, and go on. *)
Definition run_phase {A} (reports : list PhaseReport) (phase : CompilerPhase)
    (input_digest : ObjectDigest) (result : Result (PhaseOutput A))
    (check : PhaseOutput A → list Diagnostic)
    (k : list PhaseReport → PhaseOutput A → eff CompilerRun) : eff CompilerRun :=
  match accepted_output result with
  | (None, diagnostics) => lift (failed_run reports phase diagnostics (Some input_digest) None)
  | (Some output, _) =>
      match check output with
      | (_ :: _) as diagnostics =>
          lift (failed_run reports phase diagnostics (Some input_digest) None)
      | [] =>
          report ← lift (success_report phase input_digest output);
          k (reports ++ [report]) output
      end
  end.

Definition no_check {A} (output : PhaseOutput A) : list Diagnostic := [].

(** The consumer's refusal of a resolution that is not frozen. *)
Definition resolve_check {R} (mode : CompilerMode)
    (resolved : PhaseOutput (ResolvedCompilation R)) : list Diagnostic :=
  if bool_decide (mode = CONSUMER) && negb (rc_frozen (po_value resolved))
  then [compiler_diagnostic COMPILER_UNFROZEN_RESOLUTION
          "consumer resolution must be frozen by committed revisions and digests" None]
  else [].

(** The invariants of the indexed candidate. *)
Definition index_check (acquired : AcquiredCompilation)
    (indexed : PhaseOutput CompilationCandidate) : list Diagnostic :=
  let candidate := po_value indexed in
  (if bool_decide (ca_input_digest candidate = ac_input_digest acquired) then []
   else [compiler_diagnostic COMPILER_PHASE_OUTPUT_INVALID
           "index candidate does not bind the complete compiler input digest" None])
  ++ (if bool_decide (po_digest indexed = ca_index_digest candidate) then []
      else [compiler_diagnostic COMPILER_PHASE_OUTPUT_INVALID
              "index phase digest does not match candidate index bytes" None]).

Fixpoint materialize_loop (ports : CompilerPorts) (plans : list ObjectPlan)
    (receipts : list ObjectReceipt) (diagnostics : list Diagnostic) :
    eff (list ObjectReceipt * list Diagnostic) :=
  match plans with
  | [] => mret (receipts, diagnostics)
  | plan :: plans =>
      result ← call_materialize ports plan;
      match result with
      | Err ds => materialize_loop ports plans receipts (diagnostics ++ ds)
      | Ok receipt =>
          if bool_decide (rt_digest receipt = pl_digest plan)
          then materialize_loop ports plans (receipts ++ [receipt]) diagnostics
          else materialize_loop ports plans receipts
                 (diagnostics ++ [compiler_diagnostic COMPILER_OBJECT_RECEIPT_MISMATCH
                    ("object receipt does not match planned digest "
                     +:+ digest_str (pl_digest plan)) None])
      end
  end.

(** The materialize and publish phases of [compile_sources]. *)
Definition materialize_and_publish (request : CompilerRequest) (ports : CompilerPorts)
    (reports : list PhaseReport) (candidate : CompilationCandidate) : eff CompilerRun :=
  loop ← materialize_loop ports (ca_objects candidate) [] [];
  match loop.2 with
  | (_ :: _) as diagnostics =>
      lift (failed_run reports MATERIALIZE diagnostics (Some (ca_index_digest candidate))
              (Some candidate))
  | [] =>
      report ← lift (phase_report MATERIALIZE SUCCEEDED (Some (ca_index_digest candidate))
                       (Some (materialization_digest loop.1)) []);
      let reports := reports ++ [report] in
      publish_request ← lift (publication_request candidate (cr_build_key request));
      publish_result ← call_publish ports publish_request;
      match publish_result with
      | Err diagnostics =>
          lift (failed_run reports PUBLISH diagnostics (Some (pr_snapshot_digest publish_request))
                  (Some candidate))
      | Ok receipt =>
          if negb (bool_decide (pt_snapshot_digest receipt = pr_snapshot_digest publish_request))
          then lift (failed_run reports PUBLISH
                 [compiler_diagnostic COMPILER_PUBLISH_RECEIPT_MISMATCH
                    "publish receipt does not match the complete snapshot digest" None]
                 (Some (pr_snapshot_digest publish_request)) (Some candidate))
          else
            report ← lift (phase_report PUBLISH SUCCEEDED
                             (Some (pr_snapshot_digest publish_request))
                             (Some (pt_snapshot_digest receipt)) []);
            lift (compiler_run (reports ++ [report]) (Some candidate) (Some receipt))
      end
  end.

Definition compile_sources {P H R N V} (request : CompilerRequest)
    (steps : CompilerSteps P H R N V) (ports : CompilerPorts) : eff CompilerRun :=
  acquired_result ← acquire request ports;
  match acquired_result with
  | Err diagnostics =>
      lift (failed_run [] ACQUIRE diagnostics (Some (cr_options_digest request)) None)
  | Ok acquired =>
      report ← lift (phase_report ACQUIRE SUCCEEDED (Some (cr_options_digest request))
                       (Some (ac_input_digest acquired)) []);
      context ← lift (compiler_context (cr_build_key request) (cr_mode request)
                        (cr_options_digest request) (ac_input_digest acquired));
      run_phase [report] PARSE (ac_input_digest acquired)
        (st_parse steps acquired context) no_check (λ reports parsed,
      run_phase reports HANDSHAKE (po_digest parsed)
        (st_handshake steps parsed context) no_check (λ reports handshaken,
      run_phase reports RESOLVE (po_digest handshaken)
        (st_resolve steps handshaken context) (resolve_check (cr_mode request))
        (λ reports resolved,
      run_phase reports NORMALIZE (po_digest resolved)
        (st_normalize steps resolved context) no_check (λ reports normalized,
      run_phase reports VALIDATE (po_digest normalized)
        (st_validate steps normalized context) no_check (λ reports validated,
      run_phase reports INDEX (po_digest validated)
        (st_index steps validated context) (index_check acquired) (λ reports indexed,
      materialize_and_publish request ports reports (po_value indexed)))))))
  end.

(** * Total correctness of an effectful computation *)

(** [m], started on [trace], returns and its result and trace satisfy [Q]. *)
Definition wp {A} (m : eff A) (Q : A → list event → Prop) (trace : list event) : Prop :=
  match m trace with Ret (a, trace') => Q a trace' | Raise _ => False end.

Lemma eff_wp_ret {A} (a : A) Q tr : Q a tr → wp (mret a) Q tr.
Proof. done. Qed.

Lemma eff_wp_bind {A B} (m : eff A) (f : A → eff B) (R : A → list event → Prop) Q tr :
  wp m R tr → (∀ a tr', R a tr' → wp (f a) Q tr') → wp (m ≫= f) Q tr.
Proof.
  unfold wp, mbind, eff_bind. intros Hm Hf. destruct (m tr) as [[a tr']|]; [|done]. by apply Hf.
Qed.

Lemma wp_lift {A} (m : py A) (Q : A → list event → Prop) tr :
  (∃ a, m = Ret a ∧ Q a tr) → wp (lift m) Q tr.
Proof. intros (a & -> & Ha). done. Qed.

Lemma eff_wp_mono {A} (m : eff A) (R Q : A → list event → Prop) tr :
  wp m R tr → (∀ a tr', R a tr' → Q a tr') → wp m Q tr.
Proof. unfold wp. intros Hm HQ. destruct (m tr) as [[a tr']|]; [auto|done]. Qed.

(** * Reports *)

(** Reports of the first phases, all succeeded, each digest handed on. *)
Fixpoint chained (d : ObjectDigest) (reports : list PhaseReport) (e : ObjectDigest) : Prop :=
  match reports with
  | [] => d = e
  | r :: rs => pp_input_digest r = Some d ∧ ∃ m, pp_output_digest r = Some m ∧ chained m rs e
  end.

Lemma chained_snoc d rs e r e' :
  chained d rs e → pp_input_digest r = Some e → pp_output_digest r = Some e' →
  chained d (rs ++ [r]) e'.
Proof.
  revert d. induction rs as [|r' rs IH]; intros d; simpl.
  - intros -> Hi Ho. eauto.
  - intros (Hi & m & Ho & Hc) Hi' Ho'. split; [done|]. exists m. split; [done|]. by apply IH.
Qed.

Record progress (n : nat) (d e : ObjectDigest) (reports : list PhaseReport) : Prop := {
  pg_phases : map pp_phase reports = take n all_phases;
  pg_status : map pp_status reports = replicate n SUCCEEDED;
  pg_chain : chained d reports e;
  pg_valid : valid_digest e = true
}.

Lemma phase_report_Ret phase status i o ds :
  (∀ d, i = Some d → valid_digest d = true) → (∀ d, o = Some d → valid_digest d = true) →
  phase_report phase status i o ds = Ret (MkReport phase status i o (sort_diagnostics ds)).
Proof.
  intros Hi Ho. unfold phase_report, require_opt_digest.
  destruct i as [i|]; [rewrite require_digest_valid by auto|];
  (destruct o as [o|]; [rewrite require_digest_valid by auto|]); done.
Qed.

Lemma sorted_phases reports :
  map pp_phase reports = all_phases →
  sorted (λ r, phase_position (pp_phase r)) reports = reports.
Proof.
  intros E. apply sorted_id.
  do 9 (destruct reports as [|? reports]; [done|]; injection E as ? E).
  destruct reports; [|done]. unfold key_le.
  repeat (constructor; [|repeat (constructor; [by simplify_eq; repeat match goal with
    H : pp_phase _ = _ |- _ => rewrite H end|]); constructor]). constructor.
Qed.

(** The run the failure of phase number [n] ends with. *)
Record failed_at (n : nat) (run : CompilerRun) : Prop := {
  fa_phases : map pp_phase (ru_reports run) = all_phases;
  fa_status : map pp_status (ru_reports run) =
              replicate n SUCCEEDED ++ FAILED :: replicate (8 - n) SKIPPED;
  fa_publication : ru_publication run = None
}.

Lemma map_skipped phases :
  mapM (λ p, phase_report p SKIPPED None None []) phases
  = Ret (map (λ p, MkReport p SKIPPED None None []) phases).
Proof.
  induction phases as [|p phases IH]; [done|]. cbn [mapM map].
  rewrite phase_report_Ret by done. cbn [mbind py_bind]. by rewrite IH.
Qed.

Definition skipped_report (p : CompilerPhase) : PhaseReport := MkReport p SKIPPED None None [].

Lemma failed_phases n phase reports f :
  map pp_phase reports = take n all_phases → all_phases !! n = Some phase → pp_phase f = phase →
  map pp_phase (reports ++ [f] ++ map skipped_report (drop (S n) all_phases)) = all_phases.
Proof.
  intros Hp Hn Hf. rewrite map_app, Hp. cbn [app map]. rewrite map_map, Hf.
  change (λ x, pp_phase (skipped_report x)) with (@id CompilerPhase). rewrite map_id.
  by apply take_drop_middle.
Qed.

Lemma phase_position_lookup n phase :
  all_phases !! n = Some phase → phase_position phase = Z.of_nat n ∧ (n ≤ 8)%nat.
Proof. do 9 (destruct n as [|n]; [intros [= <-]; split; [done|lia]|]). done. Qed.

Lemma failed_run_spec n d e reports phase ds i candidate :
  progress n d e reports → all_phases !! n = Some phase → valid_digest i = true →
  ∃ run, failed_run reports phase ds (Some i) candidate = Ret run ∧
         failed_at n run ∧ ru_candidate run = candidate.
Proof.
  intros [Hp Hs _ _] Hn Hi. unfold failed_run.
  rewrite phase_report_Ret by (intros; simplify_eq; done). cbn [mbind py_bind].
  rewrite map_skipped. cbn [mbind py_bind].
  destruct (phase_position_lookup _ _ Hn) as [Hpos Hle].
  rewrite Hpos, Z.add_1_r, <-Nat2Z.inj_succ, Nat2Z.id. unfold compiler_run.
  set (failed := MkReport phase _ _ _ _).
  pose proof (failed_phases n phase reports failed Hp Hn eq_refl) as Hall.
  unfold skipped_report in Hall. rewrite (sorted_phases _ Hall), bool_decide_true by done.
  cbn [raise_if negb mbind py_bind]. destruct candidate; cbn;
    (eexists; split; [done|]; split; [|done]; constructor; [done| |done]); cbn [ru_reports];
    rewrite map_app, Hs; cbn [app map pp_status]; rewrite map_map;
    do 9 (destruct n as [|n]; [done|]); lia.
Qed.

Lemma success_report_progress {A} n d e reports phase (o : PhaseOutput A) :
  progress n d e reports → all_phases !! n = Some phase → valid_digest (po_digest o) = true →
  ∃ r, success_report phase e o = Ret r ∧ progress (S n) d (po_digest o) (reports ++ [r]).
Proof.
  intros [Hp Hs Hc He] Hn Ho. unfold success_report.
  rewrite phase_report_Ret by (intros; simplify_eq; done). eexists. split; [done|]. constructor.
  - by rewrite map_app, Hp, (take_S_r _ _ phase).
  - rewrite map_app, Hs. cbn [map pp_status]. by rewrite replicate_S_end.
  - by eapply chained_snoc.
  - done.
Qed.

(** * The specification of a run *)

(** Values the constructors build. *)
Definition wf_request (r : CompilerRequest) : Prop :=
  ∃ build_key mode sources options, compiler_request build_key mode sources options = Ret r.
Definition wf_candidate (c : CompilationCandidate) : Prop :=
  ∃ input index_bytes index objects, candidate_init input index_bytes index objects = Ret c ∧
    Forall (λ p, valid_digest (pl_digest p) = true) objects.
Definition wf_output {A} (r : Result (PhaseOutput A)) : Prop :=
  match r with Ok o => valid_digest (po_digest o) = true | Err _ => True end.
Record wf_steps {P H R N V} (steps : CompilerSteps P H R N V) : Prop := {
  ws_parse a c : wf_output (st_parse steps a c);
  ws_handshake o c : wf_output (st_handshake steps o c);
  ws_resolve o c : wf_output (st_resolve steps o c);
  ws_normalize o c : wf_output (st_normalize steps o c);
  ws_validate o c : wf_output (st_validate steps o c);
  ws_index o c : wf_output (st_index steps o c);
  ws_candidate o c i : st_index steps o c = Ok i → wf_candidate (po_value i)
}.

(** An acquisition that was asked for by the request and accepted. *)
Definition accepted_acquire (mode : CompilerMode) (s : SourceRequest) (e : event) : Prop :=
  ∃ a, e = EAcquire s (Ok a) ∧ aq_alias a = sq_alias s ∧
    (mode = CONSUMER → Some (aq_resolved_revision a) = sq_locked_revision s ∧
                       Some (aq_snapshot_digest a) = sq_expected_snapshot_digest s).
Definition accepted_materialize (p : ObjectPlan) (e : event) : Prop :=
  ∃ r, e = EMaterialize p (Ok r) ∧ rt_digest r = pl_digest p.

Definition is_acquire (e : event) : Prop := ∃ s r, e = EAcquire s r.
Definition is_materialize (e : event) : Prop := ∃ p r, e = EMaterialize p r.

(** The calls made up to and including phase number [n]. *)
Inductive calls (request : CompilerRequest) (candidate : option CompilationCandidate) :
    nat → list event → Prop :=
  | calls_acquire ea :
      Forall is_acquire ea →
      (not_frozen_diagnostics request ≠ [] → ea = []) → calls request candidate 0 ea
  | calls_pure n ea :
      (1 ≤ n ≤ 6)%nat →
      Forall2 (accepted_acquire (cr_mode request)) (cr_sources request) ea →
      not_frozen_diagnostics request = [] → calls request candidate n ea
  | calls_materialize ea em :
      Forall2 (accepted_acquire (cr_mode request)) (cr_sources request) ea →
      not_frozen_diagnostics request = [] →
      Forall is_materialize em → calls request candidate 7 (ea ++ em)
  | calls_publish ea em c q r :
      Forall2 (accepted_acquire (cr_mode request)) (cr_sources request) ea →
      not_frozen_diagnostics request = [] →
      candidate = Some c → Forall2 accepted_materialize (ca_objects c) em →
      publication_request c (cr_build_key request) = Ret q →
      calls request candidate 8 (ea ++ em ++ [EPublish q r]).

(** A published run. *)
Record published (request : CompilerRequest) (run : CompilerRun) (new : list event) : Prop := {
  pb_phases : map pp_phase (ru_reports run) = all_phases;
  pb_status : map pp_status (ru_reports run) = replicate 9 SUCCEEDED;
  pb_receipt : ∃ c q receipt,
    ru_candidate run = Some c ∧ ru_publication run = Some receipt ∧
    publication_request c (cr_build_key request) = Ret q ∧
    pt_snapshot_digest receipt = pr_snapshot_digest q ∧ last new = Some (EPublish q (Ok receipt)) ∧
    ∃ rs r m, ru_reports run = rs ++ [r] ∧ chained (cr_options_digest request) rs m ∧
              pp_input_digest r = Some (pr_snapshot_digest q) ∧
              pp_output_digest r = Some (pr_snapshot_digest q)
}.

Definition run_spec (request : CompilerRequest) (trace : list event) (run : CompilerRun)
    (trace' : list event) : Prop :=
  ∃ new n, trace' = trace ++ new ∧ calls request (ru_candidate run) n new ∧
    (failed_at n run ∨ (n = 8%nat ∧ published request run new)).

Lemma wf_request_options r : wf_request r → valid_digest (cr_options_digest r) = true.
Proof.
  intros (bk & mode & src & od & Hr). unfold compiler_request, require_digest in Hr. inv_py.
  split_guard. done.
Qed.

Lemma wf_request_build_key r : wf_request r → not_one_line (cr_build_key r) = false.
Proof. intros (bk & mode & src & od & Hr). unfold compiler_request, require_digest in Hr. by inv_py. Qed.

Lemma wf_request_aliases r :
  wf_request r → NoDup (map (λ s, alias_value (sq_alias s)) (cr_sources r)).
Proof.
  intros (bk & mode & src & od & Hr). unfold compiler_request, require_digest in Hr. inv_py.
  by split_guard.
Qed.

(** ** Acquisition *)

Lemma check_acquired_ok mode s r a :
  check_acquired mode s r = inr a → accepted_acquire mode s (EAcquire s r).
Proof.
  unfold check_acquired. destruct r as [item|]; [|done].
  case_bool_decide as Ha; [|done]. simpl. destruct (_ && _) eqn:E; [done|]. intros [= ->].
  exists a. split_and!; [done..|]. intros ->. rewrite bool_decide_true in E by done. simpl in E.
  split_guard. done.
Qed.

Lemma check_acquired_err mode s r ds :
  wf_result r → check_acquired mode s r = inl ds → ds ≠ [].
Proof.
  unfold check_acquired. intros Hr E. destruct r; [|by injection E as <-].
  repeat case_match; simplify_eq; done.
Qed.

(** What the ports return was built by [Ok] or [Err]. *)
Record wf_ports (ports : CompilerPorts) : Prop := {
  wp_acquire tr s : wf_result (cp_acquire ports tr s);
  wp_materialize tr p : wf_result (cp_materialize ports tr p)
}.

Lemma acquire_loop_wp ports mode sources acquired ds trace :
  wf_ports ports →
  wp (acquire_loop ports mode sources acquired ds)
    (λ r tr', ∃ ea, tr' = trace ++ ea ∧ Forall is_acquire ea ∧
       (r.2 = [] → ds = [] ∧ ∃ items, r.1 = acquired ++ items ∧
          Forall2 (accepted_acquire mode) sources ea ∧
          map (λ a, alias_value (aq_alias a)) items
          = map (λ s, alias_value (sq_alias s)) sources)) trace.
Proof.
  intros Hports. revert acquired ds trace.
  induction sources as [|s sources IH]; intros acquired ds trace.
  - apply eff_wp_ret. exists []. rewrite app_nil_r. split_and!; [done|constructor|].
    intros Hd. simpl in Hd. split; [done|]. exists []. rewrite app_nil_r. done.
  - cbn [acquire_loop].
    eapply eff_wp_bind with (R := λ r tr', tr' = trace ++ [EAcquire s r] ∧ wf_result r);
      [by split; [|apply wp_acquire]|].
    intros r tr' [-> Hr]. destruct (check_acquired mode s r) as [es|a] eqn:E.
    + eapply eff_wp_mono; [apply IH|]. intros [items es'] tr' (ea & -> & Hea & Hok).
      exists (EAcquire s r :: ea). rewrite <-app_assoc.
      split_and!; [done|by constructor; [eexists _, _|]|]. intros Hd.
      apply Hok in Hd as [[_ ->]%app_nil _]. by apply check_acquired_err in E.
    + eapply eff_wp_mono; [apply IH|]. intros [items es'] tr' (ea & -> & Hea & Hok).
      exists (EAcquire s r :: ea). rewrite <-app_assoc.
      split_and!; [done|by constructor; [eexists _, _|]|]. intros Hd.
      apply Hok in Hd as [-> (its & -> & Hacc & Hal)]. split; [done|]. exists (a :: its).
      rewrite <-app_assoc. split_and!; [done| |].
      * constructor; [|done]. destruct r as [b|]; [|done].
        assert (a = b) as -> by (unfold check_acquired in E; repeat case_match; congruence).
        by eapply check_acquired_ok.
      * csimpl. f_equal; [|done].
        destruct r as [b|]; [|done]. unfold check_acquired in E.
        case_bool_decide as Hb; [|done]. simpl in E. destruct (_ && _); [done|]. congruence.
Qed.

Lemma not_frozen_dec request :
  not_frozen_diagnostics request = [] ∨ not_frozen_diagnostics request ≠ [].
Proof. destruct (not_frozen_diagnostics request); [by left|by right]. Qed.

Lemma acquire_wp request ports trace :
  wf_request request → wf_ports ports →
  wp (acquire request ports)
    (λ r tr', ∃ ea, tr' = trace ++ ea ∧ Forall is_acquire ea ∧
       (not_frozen_diagnostics request ≠ [] → ea = []) ∧
       match r with
       | Err _ => True
       | Ok a => not_frozen_diagnostics request = [] ∧ valid_digest (ac_input_digest a) = true ∧
                 Forall2 (accepted_acquire (cr_mode request)) (cr_sources request) ea
       end) trace.
Proof.
  intros Hreq Hports. unfold acquire. destruct (not_frozen_diagnostics request) as [|d ds] eqn:Hf.
  2:{ apply eff_wp_ret. exists []. rewrite app_nil_r. done. }
  eapply eff_wp_bind; [by apply acquire_loop_wp|].
  intros [items ds] tr' (ea & -> & Hea & Hok). cbn [fst snd] in *.
  destruct ds as [|d ds]; [|apply eff_wp_ret; by exists ea].
  destruct (Hok eq_refl) as [_ (its & -> & Hacc & Hal)]. rewrite app_nil_l.
  eapply eff_wp_bind with (R := λ a tr', tr' = trace ++ ea ∧ valid_digest (ac_input_digest a) = true).
  - apply wp_lift. unfold acquired_compilation, acquired_compilation_init.
    rewrite !require_digest_valid by (apply json_digest_valid || by apply wf_request_options).
    cbn [mbind py_bind].
    set (key := λ s : AcquiredSource, alias_value (aq_alias s)) in *.
    assert (has_dups (map key (sorted key (sorted key its))) = false) as ->.
    { apply has_dups_false. assert (NoDup (map key its)) as Hnd.
      { rewrite Hal. by apply wf_request_aliases. }
      change (NoDup (key <$> sorted key (sorted key its))). by rewrite !sorted_perm. }
    cbn. eexists. split; [done|]. split; [done|]. apply json_digest_valid.
  - intros a tr' [-> Ha]. apply eff_wp_ret. by exists ea.
Qed.

(** ** The pure phases *)

Lemma lift_failed_wp request n d e reports phase ds candidate trace new :
  progress n d e reports → all_phases !! n = Some phase → calls request candidate n new →
  ∀ i, valid_digest i = true →
  wp (lift (failed_run reports phase ds (Some i) candidate)) (run_spec request trace) (trace ++ new).
Proof.
  intros Hp Hn Hc i Hi. apply wp_lift.
  destruct (failed_run_spec n d e reports phase ds i candidate Hp Hn Hi) as (run & Hr & Hf & <-).
  exists run. split; [done|]. exists new, n. split_and!; [done..|by left].
Qed.

Lemma accepted_output_Some {A} (r : Result (PhaseOutput A)) o ds :
  accepted_output r = (Some o, ds) → r = Ok o.
Proof. destruct r as [v|]; simpl; [|done]. case_match; congruence. Qed.

Lemma run_phase_wp {A} request n d e reports phase (r : Result (PhaseOutput A)) check k trace new :
  progress n d e reports → all_phases !! n = Some phase → wf_output r →
  calls request None n new →
  (∀ reports' o, r = Ok o → check o = [] → progress (S n) d (po_digest o) reports' →
     wp (k reports' o) (run_spec request trace) (trace ++ new)) →
  wp (run_phase reports phase e r check k) (run_spec request trace) (trace ++ new).
Proof.
  intros Hp Hn Hr Hc Hk. unfold run_phase. pose proof (pg_valid _ _ _ _ Hp) as He.
  destruct (accepted_output r) as [[o|] ds] eqn:E; [|by eapply lift_failed_wp].
  apply accepted_output_Some in E as ->. destruct (check o) eqn:Ho; [|by eapply lift_failed_wp].
  destruct (success_report_progress n d e reports phase o Hp Hn Hr) as (rep & Hrep & Hp').
  eapply eff_wp_bind with (R := λ a tr', a = rep ∧ tr' = trace ++ new).
  - apply wp_lift. by exists rep.
  - intros ? ? [-> ->]. by apply Hk.
Qed.

(** ** Materialisation and publication *)

Lemma materialize_loop_wp ports plans receipts ds trace :
  wf_ports ports →
  wp (materialize_loop ports plans receipts ds)
    (λ r tr', ∃ em, tr' = trace ++ em ∧ Forall is_materialize em ∧
       (r.2 = [] → ds = [] ∧ Forall2 accepted_materialize plans em)) trace.
Proof.
  intros Hports. revert receipts ds trace.
  induction plans as [|p plans IH]; intros receipts ds trace.
  - apply eff_wp_ret. exists []. rewrite app_nil_r. split_and!; [done|constructor|]. done.
  - cbn [materialize_loop].
    eapply eff_wp_bind with (R := λ r tr', tr' = trace ++ [EMaterialize p r] ∧ wf_result r);
      [by split; [|apply wp_materialize]|].
    intros r tr' [-> Hr].
    assert (∀ receipts' ds', (ds' = [] → ds = [] ∧ accepted_materialize p (EMaterialize p r)) →
      wp (materialize_loop ports plans receipts' ds')
        (λ x tr', ∃ em, tr' = trace ++ em ∧ Forall is_materialize em ∧
           (x.2 = [] → ds = [] ∧ Forall2 accepted_materialize (p :: plans) em))
        (trace ++ [EMaterialize p r])) as Hstep.
    { intros receipts' ds' Hds. eapply eff_wp_mono; [apply IH|].
      intros x tr' (em & -> & Hem & Hok). exists (EMaterialize p r :: em). rewrite <-app_assoc.
      split_and!; [done|by constructor; [eexists _, _|]|]. intros Hx.
      destruct (Hok Hx) as [Hn Hacc]. destruct (Hds Hn). by split; [|constructor]. }
    destruct r as [receipt|es]; [case_bool_decide as Hd|].
    + apply Hstep. intros ->. split; [done|]. by exists receipt.
    + apply Hstep. intros [_ ?]%app_nil. done.
    + apply Hstep. intros [_ ->]%app_nil. done.
Qed.

Lemma publication_request_ok c build_key :
  wf_candidate c → str_empty build_key = false →
  ∃ q, publication_request c build_key = Ret q ∧ valid_digest (pr_snapshot_digest q) = true.
Proof.
  intros (ib & idx & ixd & objs & Hc & Hobjs) Hk.
  unfold candidate_init, require_digest in Hc. inv_py. split_guard. subst.
  unfold publication_request. cbn [ca_objects ca_input_digest ca_index_bytes ca_index_digest].
  set (key := λ o, digest_str (pl_digest o)) in *.
  assert (valid_digest (sha256_bytes idx) = true) as Hx by apply sha256_bytes_valid.
  assert (sorted digest_str (map pl_digest (sorted key objs)) = map pl_digest (sorted key objs)) as Es
    by (rewrite sorted_fmap; f_equal; apply sorted_idemp).
  assert (valid_digest (snapshot_digest build_key ib (sha256_bytes idx)
    (map pl_digest (sorted key objs))) = true) as Hs by apply json_digest_valid.
  eexists. split; [apply publish_request_Ret; try done|exact Hs].
  apply Forall_map. by rewrite sorted_perm.
Qed.

(** Started after seven successful phases, with the calls of the acquisition
    behind it, the tail of the run meets the specification. *)
Lemma materialize_and_publish_wp request ports reports candidate trace ea :
  wf_request request → wf_ports ports → wf_candidate candidate →
  progress 7 (cr_options_digest request) (ca_index_digest candidate) reports →
  Forall2 (accepted_acquire (cr_mode request)) (cr_sources request) ea →
  not_frozen_diagnostics request = [] →
  wp (materialize_and_publish request ports reports candidate) (run_spec request trace)
    (trace ++ ea).
Proof.
  intros Hreq Hports Hcand Hp Hea Hfrozen. unfold materialize_and_publish.
  pose proof (pg_valid _ _ _ _ Hp) as Hidx.
  eapply eff_wp_bind; [by apply materialize_loop_wp|].
  intros [receipts ds] tr' (em & -> & Hem & Hok). rewrite <-app_assoc. cbn [fst snd] in *.
  destruct ds as [|d ds].
  2:{ eapply lift_failed_wp; [done|done|by apply calls_materialize|done]. }
  destruct (Hok eq_refl) as [_ Hacc].
  set (md := materialization_digest receipts).
  assert (valid_digest md = true) as Hmd by apply json_digest_valid.
  eapply eff_wp_bind with (R := λ r tr', progress 8 (cr_options_digest request) md (reports ++ [r])
                                      ∧ tr' = trace ++ ea ++ em).
  { apply wp_lift. rewrite phase_report_Ret by (intros ? [= <-]; done). eexists. split; [done|].
    split; [|done]. destruct Hp as [Hph Hst Hch Hv]. constructor; [| |by eapply chained_snoc|done].
    - rewrite map_app, Hph. done.
    - rewrite map_app, Hst. done. }
  intros rep tr' [Hp8 ->].
  destruct (publication_request_ok candidate (cr_build_key request) Hcand) as (q & Hq & Hqd).
  { pose proof (wf_request_build_key _ Hreq) as Hk. unfold not_one_line in Hk. by split_guard. }
  eapply eff_wp_bind with (R := λ q' tr', q' = q ∧ tr' = trace ++ ea ++ em).
  { apply wp_lift. by exists q. }
  intros ? ? [-> ->].
  eapply eff_wp_bind with (R := λ r tr', tr' = trace ++ ea ++ em ++ [EPublish q r]).
  { unfold wp, call_publish. by rewrite <-!app_assoc. }
  intros r tr' ->.
  assert (calls request (Some candidate) 8 (ea ++ em ++ [EPublish q r])) as Hcalls
    by (by eapply calls_publish).
  destruct r as [receipt|es]; [|by eapply lift_failed_wp].
  destruct (decide (pt_snapshot_digest receipt = pr_snapshot_digest q)) as [Heq|Hne].
  2:{ rewrite bool_decide_false by done. by eapply lift_failed_wp. }
  rewrite bool_decide_true by done. cbn [negb].
  set (last_report := MkReport PUBLISH SUCCEEDED (Some (pr_snapshot_digest q))
                        (Some (pr_snapshot_digest q)) (sort_diagnostics [])).
  eapply eff_wp_bind with (R := λ r tr', r = last_report ∧
    tr' = trace ++ ea ++ em ++ [EPublish q (Ok receipt)]).
  { apply wp_lift. rewrite Heq, phase_report_Ret by (intros ? [= <-]; done). by eexists. }
  intros ? ? [-> ->]. destruct Hp8 as [Hph Hst Hch Hv].
  assert (map pp_phase ((reports ++ [rep]) ++ [last_report]) = all_phases) as Hall
    by (rewrite map_app, Hph; done).
  apply wp_lift. unfold compiler_run. rewrite (sorted_phases _ Hall), bool_decide_true by done.
  cbn [raise_if negb mbind py_bind]. eexists. split; [done|].
  exists (ea ++ em ++ [EPublish q (Ok receipt)]), 8%nat.
  split_and!; [done|done|]. right. split; [done|]. constructor; [done| |].
  - cbn [ru_reports]. by rewrite map_app, Hst.
  - exists candidate, q, receipt. cbn [ru_candidate ru_publication ru_reports].
    split_and!; try done.
    + by rewrite !last_app.
    + by exists (reports ++ [rep]), last_report, md.
Qed.

Lemma index_check_nil acquired o :
  index_check acquired o = [] →
  ca_input_digest (po_value o) = ac_input_digest acquired ∧
  po_digest o = ca_index_digest (po_value o).
Proof. unfold index_check. by repeat case_bool_decide. Qed.

Lemma compile_sources_wp {P H R N V} request (steps : CompilerSteps P H R N V) ports trace :
  wf_request request → wf_steps steps → wf_ports ports →
  wp (compile_sources request steps ports) (run_spec request trace) trace.
Proof.
  intros Hreq Hsteps Hports. unfold compile_sources.
  eapply eff_wp_bind; [by apply acquire_wp|]. intros r tr' (ea & -> & Hea & Hnf & Hr).
  pose proof (wf_request_options _ Hreq) as Hod.
  assert (progress 0 (cr_options_digest request) (cr_options_digest request) []) as Hp0 by done.
  destruct r as [acquired|ds].
  2:{ eapply lift_failed_wp; [done|done|by constructor|done]. }
  destruct Hr as (Hfrozen & Hvalid & Hacc).
  assert (∀ n, (1 ≤ n ≤ 6)%nat → calls request None n ea) as Hcalls by (intros; by apply calls_pure).
  eapply eff_wp_bind with (R := λ r tr', progress 1 (cr_options_digest request)
    (ac_input_digest acquired) [r] ∧ tr' = trace ++ ea).
  { apply wp_lift. rewrite phase_report_Ret by (intros ? [= <-]; done). eexists. split; [done|].
    split; [|done]. constructor; [done..| |done]. simpl. eauto. }
  intros rep tr' [Hp1 ->].
  eapply eff_wp_bind with (R := λ _ tr', tr' = trace ++ ea).
  { apply wp_lift. unfold compiler_context. rewrite wf_request_build_key by done.
    rewrite !require_digest_valid by done. by eexists. }
  intros context tr' ->.
  eapply run_phase_wp; [done|done|apply Hsteps|apply Hcalls; lia|]. intros rs parsed _ _ Hp2.
  eapply run_phase_wp; [done|done|apply Hsteps|apply Hcalls; lia|]. intros rs' handshaken _ _ Hp3.
  eapply run_phase_wp; [done|done|apply Hsteps|apply Hcalls; lia|]. intros rs2 resolved _ _ Hp4.
  eapply run_phase_wp; [done|done|apply Hsteps|apply Hcalls; lia|]. intros rs3 normalized _ _ Hp5.
  eapply run_phase_wp; [done|done|apply Hsteps|apply Hcalls; lia|]. intros rs4 validated _ _ Hp6.
  eapply run_phase_wp; [done|done|apply Hsteps|apply Hcalls; lia|].
  intros rs5 indexed Hi [_ Hx]%index_check_nil Hp7. rewrite Hx in Hp7.
  apply materialize_and_publish_wp; try done. by eapply ws_candidate.
Qed.

Lemma accepted_is_acquire mode ss ea : Forall2 (accepted_acquire mode) ss ea → Forall is_acquire ea.
Proof.
  induction 1 as [|s e ss ea (a & -> & _) _ IH]; constructor; [|done]. by eexists _, _.
Qed.

Lemma accepted_is_materialize ps em : Forall2 accepted_materialize ps em → Forall is_materialize em.
Proof.
  induction 1 as [|p e ps em (r & -> & _) _ IH]; constructor; [|done]. by eexists _, _.
Qed.

Lemma no_publish_acquire ea q r : Forall is_acquire ea → EPublish q r ∉ ea.
Proof. rewrite Forall_forall. intros Hf Hin. by destruct (Hf _ Hin) as (? & ? & ?). Qed.

Lemma no_publish_materialize em q r : Forall is_materialize em → EPublish q r ∉ em.
Proof. rewrite Forall_forall. intros Hf Hin. by destruct (Hf _ Hin) as (? & ? & ?). Qed.

Lemma compile_sources_spec {P H R N V} request (steps : CompilerSteps P H R N V) ports trace run
    trace' :
  wf_request request → wf_steps steps → wf_ports ports →
  compile_sources request steps ports trace = Ret (run, trace') → run_spec request trace run trace'.
Proof.
  intros Hr Hs Hp E. pose proof (compile_sources_wp request steps ports trace Hr Hs Hp) as Hwp.
  unfold wp in Hwp. by rewrite E in Hwp.
Qed.

(** * Theorems *)

(** The compiler always returns a run with exactly one report per phase, in
    phase order: the phases before the failure succeeded, the failing one is
    reported, the later ones are skipped; or all nine succeeded. *)
Theorem compile_sources_reports {P H R N V} request (steps : CompilerSteps P H R N V) ports trace :
  wf_request request → wf_steps steps → wf_ports ports →
  ∃ run trace', compile_sources request steps ports trace = Ret (run, trace') ∧
    map pp_phase (ru_reports run) = all_phases ∧
    (map pp_status (ru_reports run) = replicate 9 SUCCEEDED ∧ is_Some (ru_publication run) ∨
     ∃ n, (n ≤ 8)%nat ∧ ru_publication run = None ∧ map pp_status (ru_reports run) =
            replicate n SUCCEEDED ++ FAILED :: replicate (8 - n) SKIPPED).
Proof.
  intros Hr Hs Hp. pose proof (compile_sources_wp request steps ports trace Hr Hs Hp) as Hwp.
  unfold wp in Hwp. destruct (compile_sources _ _ _ _) as [[run tr']|] eqn:E; [|done].
  exists run, tr'. split; [done|]. destruct Hwp as (new & n & -> & Hc & [[Hph Hst Hpub]|[-> Hpub]]).
  - split; [done|]. right. exists n. split_and!; try done. inversion Hc; lia.
  - destruct Hpub as [Hph Hst (c & q & receipt & _ & -> & _)]. split; [done|]. left. done.
Qed.

(** C26: publication is the last call of a run, is made at most once, and only
    after every source was acquired as requested and every object of the
    candidate was materialised under its own digest; what is published is the
    candidate the run carries. *)
Theorem publish_only_after_success {P H R N V} request (steps : CompilerSteps P H R N V) ports
    trace run trace' new q r :
  wf_request request → wf_steps steps → wf_ports ports →
  compile_sources request steps ports trace = Ret (run, trace') →
  trace' = trace ++ new → EPublish q r ∈ new →
  ∃ candidate acquisitions materialisations,
    new = acquisitions ++ materialisations ++ [EPublish q r] ∧
    Forall2 (accepted_acquire (cr_mode request)) (cr_sources request) acquisitions ∧
    Forall2 accepted_materialize (ca_objects candidate) materialisations ∧
    ru_candidate run = Some candidate ∧
    publication_request candidate (cr_build_key request) = Ret q ∧
    (∀ receipt, ru_publication run = Some receipt → r = Ok receipt ∧
                pt_snapshot_digest receipt = pr_snapshot_digest q).
Proof.
  intros Hr Hs Hp E -> Hin.
  destruct (compile_sources_spec _ _ _ _ _ _ Hr Hs Hp E) as (new' & n & Enew & Hc & Hshape).
  apply (inj (app trace)) in Enew as <-.
  inversion Hc as [ea Hea|n' ea _ Hea|ea em Hea _ Hem|ea em c q' r' Hea _ Hcand Hem Hq]; subst.
  - by destruct (no_publish_acquire new q r).
  - by destruct (no_publish_acquire new q r); [eapply accepted_is_acquire|].
  - apply elem_of_app in Hin as [Hin|Hin].
    + by destruct (no_publish_acquire ea q r); [eapply accepted_is_acquire|].
    + by destruct (no_publish_materialize em q r).
  - assert (EPublish q r = EPublish q' r') as [= -> ->].
    { rewrite !elem_of_app, list_elem_of_singleton in Hin. destruct Hin as [Hin|[Hin|Hin]]; [..|done].
      - by destruct (no_publish_acquire ea q r); [eapply accepted_is_acquire|].
      - by destruct (no_publish_materialize em q r); [eapply accepted_is_materialize|]. }
    exists c, ea, em. split_and!; try done. intros receipt Hpub.
    destruct Hshape as [[_ _ Hn]|[_ [_ _ (c' & q2 & rec & _ & Hrec & Hq2 & Hd & Hl & _)]]]; [congruence|].
    rewrite Hpub in Hrec. injection Hrec as <-. rewrite !last_app in Hl. simpl in Hl.
    injection Hl as -> ->. done.
Qed.

(** A consumer compilation makes no call at all unless every source is
    locked to a revision and a snapshot digest, and a published consumer run
    acquired exactly the locked revision and digest of every source. *)
Theorem consumer_runs_are_frozen {P H R N V} request (steps : CompilerSteps P H R N V) ports
    trace run trace' :
  wf_request request → wf_steps steps → wf_ports ports → cr_mode request = CONSUMER →
  compile_sources request steps ports trace = Ret (run, trace') →
  (existsb unlocked (cr_sources request) = true → trace' = trace) ∧
  (is_Some (ru_publication run) →
   ∀ s, s ∈ cr_sources request → ∃ a, EAcquire s (Ok a) ∈ trace' ∧
     aq_alias a = sq_alias s ∧ Some (aq_resolved_revision a) = sq_locked_revision s ∧
     Some (aq_snapshot_digest a) = sq_expected_snapshot_digest s).
Proof.
  intros Hr Hs Hp Hm E.
  destruct (compile_sources_spec _ _ _ _ _ _ Hr Hs Hp E) as (new & n & -> & Hc & Hshape).
  split.
  - intros Hu. assert (not_frozen_diagnostics request ≠ []) as Hnf.
    { unfold not_frozen_diagnostics. rewrite Hm. intros Hnil%map_eq_nil.
      apply existsb_exists in Hu as (s & Hin & Hu).
      assert (In s (List.filter unlocked (cr_sources request))) as Hf by (by apply filter_In).
      by rewrite Hnil in Hf. }
    inversion Hc; subst; [|done..]. rewrite H1 by done. by rewrite app_nil_r.
  - intros [receipt Hpub] s Hin.
    destruct Hshape as [[_ _ Hn]|[-> _]]; [congruence|].
    inversion Hc as [| | |ea em c q' r' Hea _ Hcand Hem Hq]; subst; [lia|].
    apply list_elem_of_lookup in Hin as [i Hi].
    destruct (Forall2_lookup_l _ _ _ _ _ Hea Hi) as (e & He & a & -> & Ha & Hlock).
    destruct (Hlock Hm). exists a. split_and!; try done.
    apply elem_of_app; right. apply elem_of_app; left. by eapply list_elem_of_lookup_2.
Qed.

(** In a published run each phase's input digest is the output digest of
    the phase before it, from the request's options digest to the
    materialised digest, and the publication is bound to the snapshot digest
    of the candidate. *)
Theorem published_digest_chain {P H R N V} request (steps : CompilerSteps P H R N V) ports
    trace run trace' receipt :
  wf_request request → wf_steps steps → wf_ports ports →
  compile_sources request steps ports trace = Ret (run, trace') →
  ru_publication run = Some receipt →
  ∃ candidate q first last materialized,
    ru_candidate run = Some candidate ∧ publication_request candidate (cr_build_key request) = Ret q ∧
    ru_reports run = first ++ [last] ∧
    chained (cr_options_digest request) first materialized ∧
    pp_phase last = PUBLISH ∧ pp_input_digest last = Some (pr_snapshot_digest q) ∧
    pp_output_digest last = Some (pt_snapshot_digest receipt) ∧
    pt_snapshot_digest receipt = pr_snapshot_digest q.
Proof.
  intros Hr Hs Hp E Hpub.
  destruct (compile_sources_spec _ _ _ _ _ _ Hr Hs Hp E) as (new & n & -> & Hc & Hshape).
  destruct Hshape as [[_ _ Hn]|[_ [Hph _ (c & q & rec & Hcand & Hrec & Hq & Hd & _ & rs & l & m &
    Hrs & Hch & Hin & Hout)]]]; [congruence|].
  rewrite Hpub in Hrec. injection Hrec as <-. exists c, q, rs, l, m.
  split_and!; try done; [|congruence]. rewrite Hrs, map_app in Hph.
  apply (f_equal last) in Hph. rewrite last_app in Hph. by injection Hph.
Qed.

(** * A concrete compilation *)

Definition publish_or (p : PublishRequest * Result PublishReceipt) (e : option event) :=
  match e with Some (EPublish q r) => (q, r) | _ => p end.

Section sample.
Definition sample_digest : ObjectDigest := sha256_bytes "input".
Definition sample_source : SourceRequest :=
  MkSourceRequest (MkAlias "team") "https://example.org/team" (Some "r1") (Some sample_digest).
Definition sample_request : CompilerRequest :=
  MkCompilerRequest "build" CONSUMER [sample_source] sample_digest.
Definition unit_step {A} (a : A) (c : CompilerContext) : Result (PhaseOutput unit) :=
  Ok (MkOutput tt sample_digest []).
Definition sample_index {A} (a : A) (c : CompilerContext) :
    Result (PhaseOutput CompilationCandidate) :=
  match compilation_candidate (cx_input_digest c) "index"
          [MkObjectPlan (sha256_bytes "object") "object"] with
  | Ret candidate => Ok (MkOutput candidate (sha256_bytes "index") [])
  | Raise _ => fail1 (compiler_diagnostic COMPILER_PHASE_OUTPUT_INVALID "" None)
  end.
Definition sample_steps : CompilerSteps unit unit unit unit unit :=
  MkSteps unit_step unit_step (λ _ _, Ok (MkOutput (MkResolved tt true) sample_digest []))
    unit_step unit_step sample_index.
Definition sample_ports : CompilerPorts := {|
  cp_acquire _ s := Ok (MkAcquiredSource (sq_alias s) "r1" sample_digest (MkSnapshot LOCAL []));
  cp_materialize _ p := Ok (MkObjectReceipt (pl_digest p));
  cp_publish _ q := Ok (MkPublishReceipt (pr_snapshot_digest q)) |}.
Definition sample_run : CompilerRun * list event :=
  ret_or (MkRun [] None None [], []) (compile_sources sample_request sample_steps sample_ports []).
Definition sample_publish : PublishRequest * Result PublishReceipt :=
  publish_or (MkPublishRequest "" sample_digest "" sample_digest [] sample_digest, Err [])
    (last sample_run.2).

Lemma sample_request_wf : wf_request sample_request.
Proof. exists "build", CONSUMER, [sample_source], sample_digest. by vm_compute. Qed.

Lemma sample_steps_wf : wf_steps sample_steps.
Proof.
  assert (valid_digest sample_digest = true) as Hd by apply sha256_bytes_valid.
  constructor; [done..| |]; intros o c; simpl; unfold sample_index, compilation_candidate.
  - destruct (candidate_init _ _ _ _); simpl; [|done]. apply sha256_bytes_valid.
  - intros i. destruct (candidate_init _ _ _ _) eqn:E; [|done]. intros [= <-].
    do 4 eexists. split; [exact E|]. constructor; [|done]. apply sha256_bytes_valid.
Qed.

Lemma sample_ports_wf : wf_ports sample_ports.
Proof. done. Qed.

Lemma sample_run_eq :
  compile_sources sample_request sample_steps sample_ports [] = Ret (sample_run.1, sample_run.2).
Proof. vm_compute. reflexivity. Qed.

Lemma sample_run_publish : EPublish sample_publish.1 sample_publish.2 ∈ sample_run.2.
Proof. apply last_Some_elem_of. vm_compute. reflexivity. Qed.

Lemma sample_run_published :
  ru_publication sample_run.1 = Some (MkPublishReceipt (pr_snapshot_digest sample_publish.1)).
Proof. vm_compute. reflexivity. Qed.
End sample.

Lemma compile_sources_reports_witness :
  ∃ run trace', compile_sources sample_request sample_steps sample_ports [] = Ret (run, trace') ∧
    map pp_phase (ru_reports run) = all_phases ∧
    (map pp_status (ru_reports run) = replicate 9 SUCCEEDED ∧ is_Some (ru_publication run) ∨
     ∃ n, (n ≤ 8)%nat ∧ ru_publication run = None ∧ map pp_status (ru_reports run) =
            replicate n SUCCEEDED ++ FAILED :: replicate (8 - n) SKIPPED).
Proof.
  exact (compile_sources_reports sample_request sample_steps sample_ports []
           sample_request_wf sample_steps_wf sample_ports_wf).
Defined.

Lemma publish_only_after_success_witness :
  ∃ candidate acquisitions materialisations,
    sample_run.2 = acquisitions ++ materialisations
                   ++ [EPublish sample_publish.1 sample_publish.2] ∧
    Forall2 (accepted_acquire CONSUMER) [sample_source] acquisitions ∧
    Forall2 accepted_materialize (ca_objects candidate) materialisations ∧
    ru_candidate sample_run.1 = Some candidate ∧
    publication_request candidate "build" = Ret sample_publish.1 ∧
    (∀ receipt, ru_publication sample_run.1 = Some receipt → sample_publish.2 = Ok receipt ∧
                pt_snapshot_digest receipt = pr_snapshot_digest sample_publish.1).
Proof.
  exact (publish_only_after_success sample_request sample_steps sample_ports [] sample_run.1
           sample_run.2 sample_run.2 sample_publish.1 sample_publish.2
           sample_request_wf sample_steps_wf sample_ports_wf sample_run_eq eq_refl
           sample_run_publish).
Defined.

Lemma consumer_runs_are_frozen_witness :
  (existsb unlocked [sample_source] = true → sample_run.2 = []) ∧
  (is_Some (ru_publication sample_run.1) →
   ∀ s, s ∈ [sample_source] → ∃ a, EAcquire s (Ok a) ∈ sample_run.2 ∧
     aq_alias a = sq_alias s ∧ Some (aq_resolved_revision a) = sq_locked_revision s ∧
     Some (aq_snapshot_digest a) = sq_expected_snapshot_digest s).
Proof.
  exact (consumer_runs_are_frozen sample_request sample_steps sample_ports [] sample_run.1
           sample_run.2 sample_request_wf sample_steps_wf sample_ports_wf eq_refl sample_run_eq).
Defined.

Lemma published_digest_chain_witness :
  ∃ candidate q first last materialized,
    ru_candidate sample_run.1 = Some candidate ∧ publication_request candidate "build" = Ret q ∧
    ru_reports sample_run.1 = first ++ [last] ∧
    chained sample_digest first materialized ∧
    pp_phase last = PUBLISH ∧ pp_input_digest last = Some (pr_snapshot_digest q) ∧
    pp_output_digest last = Some (pr_snapshot_digest sample_publish.1) ∧
    pr_snapshot_digest sample_publish.1 = pr_snapshot_digest q.
Proof.
  exact (published_digest_chain sample_request sample_steps sample_ports [] sample_run.1
           sample_run.2 _ sample_request_wf sample_steps_wf sample_ports_wf sample_run_eq
           sample_run_published).
Defined.
