(* ===== verification/Graph.v ===== *)
(** Compilation of source records into a deterministic marketplace graph
    ([compiler/graph.py]): definitions.  The theorems are in [GraphSpec.v]. *)
From S2P Require Import Prelude PyText Domain SemVer Json Protocol CompilerModel.
From Stdlib Require Import Ascii.

Definition MARKETPLACE_GRAPH_INVALID := MkCode "marketplace-graph-invalid".
Definition SOURCE_INCOMPATIBLE := MkCode "source-incompatible".
Definition ARTIFACT_INCOMPATIBLE := MkCode "artifact-incompatible".
Definition ARTIFACT_NOT_FOUND := MkCode "artifact-not-found".
Definition ARTIFACT_VERSION_UNCHANGED := MkCode "artifact-version-unchanged".
Definition ARTIFACT_VERSION_REGRESSED := MkCode "artifact-version-regressed".
Definition ARTIFACT_VERSION_WITHOUT_CONTENT := MkCode "artifact-version-without-content".

(** * Values *)

Inductive ArtifactLifecycle : Type := AVAILABLE | REMOVED.
Definition lifecycle_value (l : ArtifactLifecycle) : string :=
  match l with AVAILABLE => "available" | REMOVED => "removed" end.
Inductive SelectionMode : Type := BROAD | EXPLICIT.

#[export] Instance lifecycle_eq_dec : EqDecision ArtifactLifecycle.
Proof. solve_decision. Defined.
#[export] Instance selection_mode_eq_dec : EqDecision SelectionMode.
Proof. solve_decision. Defined.

Record CollectionCoordinate := MkCollectionCoordinate {
  cc_source : SourceAlias;
  cc_name : string
}.
#[export] Instance collection_coordinate_eq_dec : EqDecision CollectionCoordinate.
Proof. solve_decision. Defined.
(** [CollectionCoordinate(source, name)] *)
Definition collection_coordinate (source : SourceAlias) (name : string) :
    py CollectionCoordinate :=
  _ ← raise_if (str_empty (alias_value source) || str_empty name)
        "collection coordinate must be qualified and non-empty";
  Ret (MkCollectionCoordinate source name).
(** [CollectionCoordinate.__str__] *)
Definition collection_str (c : CollectionCoordinate) : string :=
  alias_value (cc_source c) +:+ "/collection/" +:+ cc_name c.
(** The generated ordering: the fields in turn. *)
Definition collection_key (c : CollectionCoordinate) : string * string :=
  (alias_value (cc_source c), cc_name c).

Definition artifact_sort_key (c : ArtifactCoordinate) : string * string * string * string :=
  (alias_value (co_source c), kind_value (id_kind (co_artifact c)), id_name (co_artifact c),
   or_empty (co_version c)).

Record GraphSource := MkGraphSource {
  gs_alias : SourceAlias;
  gs_source_id : SourceId;
  gs_required_capabilities : list Capability;
  gs_artifacts : list IndexArtifact;
  gs_collections : list CollectionManifest
}.
Definition graph_artifact_key (a : IndexArtifact) : string * string * string * string :=
  (kind_value (id_kind (ia_identity a)), id_name (ia_identity a), semver_str (ia_version a),
   digest_str (ia_object_digest a)).
(** [GraphSource(...)] *)
Definition graph_source (alias : SourceAlias) (source_id : SourceId)
    (required_capabilities : list Capability) (artifacts : list IndexArtifact)
    (collections : list CollectionManifest) : py GraphSource :=
  _ ← raise_if (str_empty (alias_value alias) || str_empty (source_id_value source_id))
        "graph source alias and source ID must be non-empty";
  Ret (MkGraphSource alias source_id (sorted_set cap_value required_capabilities)
         (sorted graph_artifact_key artifacts) (sorted cm_name collections)).

Record CompatibilityReason := MkReason { cr_code : string; cr_message : string }.
#[export] Instance reason_eq_dec : EqDecision CompatibilityReason.
Proof. solve_decision. Defined.
Definition reason_key (r : CompatibilityReason) : string * string := (cr_code r, cr_message r).

Record CompatibilityTarget := MkTarget {
  ct_profile : string;
  ct_platform : string;
  ct_scope : string;
  ct_mode : string;
  ct_effects : list string;
  ct_aart_version : SemVer;
  ct_setup_capabilities : list Capability;
  ct_require_setup : bool
}.
Definition TARGET_EFFECTS : list string :=
  ["copy-tree"; "write-file"; "merge-json"; "managed-block"].
(** [CompatibilityTarget(...)] *)
Definition compatibility_target (profile platform scope mode : string) (effects : list string)
    (aart_version : SemVer) (setup_capabilities : list Capability) (require_setup : bool) :
    py CompatibilityTarget :=
  _ ← raise_if (str_empty profile || str_empty platform)
        "compatibility target profile and platform must be non-empty";
  _ ← raise_if (negb (mem scope ["project"; "user"])) "compatibility target scope is invalid";
  _ ← raise_if (negb (mem mode ["copy"; "symlink"])) "compatibility target mode is invalid";
  _ ← raise_if (negb (forallb (λ e, mem e TARGET_EFFECTS) effects))
        "compatibility target effects are invalid";
  Ret (MkTarget profile platform scope mode (sorted_set id effects) aart_version
         (sorted_set cap_value setup_capabilities) require_setup).

Record CompatibilityDecision := MkDecision {
  cd_payload_reasons : list CompatibilityReason;
  cd_setup_reasons : list CompatibilityReason;
  cd_setup_required : bool
}.
(** [CompatibilityDecision(...)] *)
Definition compatibility_decision (payload setup : list CompatibilityReason)
    (setup_required : bool) : CompatibilityDecision :=
  MkDecision (sorted_set reason_key payload) (sorted_set reason_key setup) setup_required.
(** [CompatibilityDecision.reasons] *)
Definition decision_reasons (d : CompatibilityDecision) : list CompatibilityReason :=
  sorted reason_key (cd_payload_reasons d
                     ++ if cd_setup_required d then cd_setup_reasons d else []).
Definition payload_compatible (d : CompatibilityDecision) : bool :=
  bool_decide (cd_payload_reasons d = []).
Definition setup_compatible (d : CompatibilityDecision) : bool :=
  bool_decide (cd_setup_reasons d = []).
(** [CompatibilityDecision.compatible] *)
Definition decision_compatible (d : CompatibilityDecision) : bool :=
  payload_compatible d && (setup_compatible d || negb (cd_setup_required d)).

(** * The JSON projection of an artifact *)

Section json.
Definition strings_json (values : list string) : JsonValue :=
  JsonArray (map JStr (sorted id values)).

Definition setup_json (setup : option IndexSetup) : JsonValue :=
  match setup with
  | None => JNull
  | Some s => json_object
      [("capabilities", strings_json (map cap_value (ix_capabilities s)));
       ("platforms", strings_json (ix_platforms s));
       ("recipe", JStr (path_str (ix_recipe s)))]
  end.

(** The object of the bounds that are present. *)
Definition bounds_json (b : VersionBounds) : JsonValue :=
  json_object
    (match vb_min_inclusive b with None => [] | Some v => [("min_inclusive", JStr (semver_str v))] end
     ++ match vb_max_exclusive b with None => [] | Some v => [("max_exclusive", JStr (semver_str v))] end).

Definition selector_json (s : ArtifactSelector) : JsonValue :=
  json_object
    ([("type", JStr (kind_value (id_kind (as_identity s)))); ("name", JStr (id_name (as_identity s)))]
     ++ match as_version s with None => [] | Some b => [("version", bounds_json b)] end).

(** [_semantic_json], as the entries of the object before they are sorted. *)
Definition compatibility_json (a : IndexArtifact) : JsonValue :=
  json_object
    [("platforms", strings_json (cs_platforms (ia_compatibility a)));
     ("profiles", strings_json (cs_profiles (ia_compatibility a)))].
Definition install_json (a : IndexArtifact) : JsonValue :=
  json_object
    [("effects", strings_json (is_effects (ia_install a)));
     ("modes", strings_json (is_modes (ia_install a)));
     ("scopes", strings_json (is_scopes (ia_install a)))].
Definition semantic_entries (a : IndexArtifact) : list (string * JsonValue) :=
  [("compatibility", compatibility_json a);
   ("install", install_json a);
   ("payload_digest", JStr (digest_str (ia_payload_digest a)));
   ("setup", setup_json (ia_setup a))]
  ++ match vb_min_inclusive (ia_requires_aart a), vb_max_exclusive (ia_requires_aart a) with
     | None, None => []
     | _, _ => [("requires_aart", bounds_json (ia_requires_aart a))]
     end
  ++ match ia_requires a with
     | [] => []
     | requires => [("requires", JsonArray (map selector_json requires))]
     end.
Definition semantic_json (a : IndexArtifact) : JsonValue := json_object (semantic_entries a).
End json.

(** * Marketplace records *)

Record MarketplaceArtifact := MkArtifact {
  ma_source_alias : SourceAlias;
  ma_source_id : SourceId;
  ma_artifact : IndexArtifact;
  ma_semantic_digest : ObjectDigest;
  ma_lifecycle : ArtifactLifecycle
}.
(** [MarketplaceArtifact(...)] *)
Definition marketplace_artifact_init (alias : SourceAlias) (source_id : SourceId)
    (artifact : IndexArtifact) (semantic_digest : ObjectDigest) (lifecycle : ArtifactLifecycle) :
    py MarketplaceArtifact :=
  _ ← raise_if (str_empty (alias_value alias) || negb (bool_decide (source_id = ia_source_id artifact)))
        "marketplace artifact must retain its qualified source identity";
  _ ← raise_if (negb (bool_decide (semantic_digest = json_digest (semantic_json artifact))))
        "marketplace semantic digest must bind normalized artifact semantics";
  Ret (MkArtifact alias source_id artifact semantic_digest lifecycle).
(** [MarketplaceArtifact.coordinate] *)
Definition ma_coordinate (m : MarketplaceArtifact) : ArtifactCoordinate :=
  MkCoordinate (ma_source_alias m) (ia_identity (ma_artifact m))
    (Some (semver_str (ia_version (ma_artifact m)))).

(** [_artifact_key] *)
Notation akey := (SourceAlias * ArtifactIdentity)%type.
Definition artifact_key (alias : SourceAlias) (identity : ArtifactIdentity) : akey :=
  (alias, identity).
Definition ma_key (m : MarketplaceArtifact) : akey :=
  artifact_key (ma_source_alias m) (ia_identity (ma_artifact m)).

Record MarketplaceCollection := MkCollection {
  mc_coordinate : CollectionCoordinate;
  mc_summary : string;
  mc_members : list ArtifactCoordinate
}.
Record MarketplaceGraph := MkGraph {
  mg_artifacts : list MarketplaceArtifact;
  mg_collections : list MarketplaceCollection;
  mg_diagnostics : list Diagnostic
}.
(** [MarketplaceGraph(...)] *)
Definition marketplace_graph (artifacts : list MarketplaceArtifact)
    (collections : list MarketplaceCollection) (diagnostics : list Diagnostic) :
    py MarketplaceGraph :=
  _ ← raise_if (has_dups (map ma_key artifacts))
        "marketplace graph artifacts must be qualified and unique";
  _ ← raise_if (has_dups (map mc_coordinate collections))
        "marketplace graph collections must be qualified and unique";
  Ret (MkGraph (sorted (λ m, artifact_sort_key (ma_coordinate m)) artifacts)
         (sorted (λ c, collection_key (mc_coordinate c)) collections)
         (sort_diagnostics diagnostics)).

Record SelectionSkip := MkSkip {
  sk_coordinate : ArtifactCoordinate;
  sk_reasons : list CompatibilityReason
}.
(** [SelectionSkip(...)] *)
Definition selection_skip (c : ArtifactCoordinate) (reasons : list CompatibilityReason) :
    SelectionSkip := MkSkip c (sorted_set reason_key reasons).

Record SelectionRequest := MkSelectionRequest {
  sr_mode : SelectionMode;
  sr_target : CompatibilityTarget;
  sr_artifacts : list ArtifactCoordinate;
  sr_collections : list CollectionCoordinate
}.
Record SelectionResult := MkSelectionResult {
  sl_selected : list MarketplaceArtifact;
  sl_skipped : list SelectionSkip
}.
(** [SelectionResult(...)] *)
Definition selection_result (selected : list MarketplaceArtifact) (skipped : list SelectionSkip) :
    SelectionResult :=
  MkSelectionResult (sorted (λ m, artifact_sort_key (ma_coordinate m)) selected)
    (sorted (λ s, artifact_sort_key (sk_coordinate s)) skipped).

(** [_diagnostic] *)
Definition graph_diagnostic (code : DiagnosticCode) (message : string)
    (alias : option SourceAlias) (severity : Severity) (details : list (string * string)) :
    Diagnostic :=
  diagnostic code severity message (source_location <$> alias) [] details.
Definition graph_error {A} (code : DiagnosticCode) (message : string) (alias : SourceAlias) :
    Result A := fail1 (graph_diagnostic code message (Some alias) ERROR []).

(** Python's [==] on selectors: versions compare by precedence. *)
Definition opt_version_eqb (x y : option SemVer) : bool :=
  match x, y with
  | None, None => true
  | Some v, Some w => same_precedence v w
  | _, _ => false
  end.
Definition bounds_eqb (x y : VersionBounds) : bool :=
  opt_version_eqb (vb_min_inclusive x) (vb_min_inclusive y)
  && opt_version_eqb (vb_max_exclusive x) (vb_max_exclusive y).
Definition selector_eqb (x y : ArtifactSelector) : bool :=
  bool_decide (as_identity x = as_identity y)
  && match as_version x, as_version y with
     | None, None => true
     | Some b, Some c => bounds_eqb b c
     | _, _ => false
     end.
Definition coordinate_eqb (x y : ArtifactCoordinate) : bool := bool_decide (x = y).

(** * Normalisation *)

Section normalize.
Context `{SetOrder}.

(** [MarketplaceCollection(...)] *)
Definition marketplace_collection (c : CollectionCoordinate) (summary : string)
    (members : list ArtifactCoordinate) : py MarketplaceCollection :=
  _ ← raise_if (existsb (λ m, negb (bool_decide (co_source m = cc_source c))) members)
        "protocol v1 collections may reference only their qualified source";
  Ret (MkCollection c summary (sorted_py_set coordinate_eqb artifact_sort_key members)).

(** [SelectionRequest(...)] *)
Definition selection_request (mode : SelectionMode) (target : CompatibilityTarget)
    (artifacts : list ArtifactCoordinate) (collections : list CollectionCoordinate) :
    SelectionRequest :=
  MkSelectionRequest mode target (sorted_py_set coordinate_eqb artifact_sort_key artifacts)
    (sorted_set collection_key collections).

Definition normalize_setup (s : IndexSetup) : IndexSetup :=
  MkIndexSetup (ix_recipe s) (sorted_set id (ix_platforms s))
    (sorted_set cap_value (ix_capabilities s)).

Definition normalize_artifact (a : IndexArtifact) : IndexArtifact :=
  let compatibility := ia_compatibility a in
  let install := ia_install a in
  MkIndexArtifact (ia_source_id a) (ia_identity a) (ia_version a) (ia_summary a)
    (ia_manifest_digest a) (ia_payload_digest a) (ia_object_digest a)
    (MkCompatibilitySpec (sorted_set id (cs_profiles compatibility))
       (sorted_set id (cs_platforms compatibility)))
    (MkInstallSpec (sorted_set id (is_scopes install)) (sorted_set id (is_modes install))
       (sorted_set id (is_effects install)))
    (normalize_setup <$> ia_setup a) (ia_review a) (ia_provenance a)
    (sorted_set id (ia_collections a)) (ia_requires_aart a)
    (sorted_py_set selector_eqb (λ s, identity_str (as_identity s)) (ia_requires a)).

Definition marketplace_artifact (source : GraphSource) (artifact : IndexArtifact) :
    py MarketplaceArtifact :=
  let normalized := normalize_artifact artifact in
  marketplace_artifact_init (gs_alias source) (gs_source_id source) normalized
    (json_digest (semantic_json normalized)) AVAILABLE.
End normalize.

(** * Collections *)

(** A walk of the collection graph: a value, an [Err], an exception, or
    (never, by [expand_fuel]) an exhausted fuel. *)
Inductive walk (A : Type) : Type :=
  | Found (a : A)
  | Failed_walk (diagnostics : list Diagnostic)
  | Raised (e : exn)
  | NoFuel.
Global Arguments Found {_} _.
Global Arguments Failed_walk {_} _.
Global Arguments Raised {_} _.
Global Arguments NoFuel {_}.

#[export] Instance walk_ret : MRet walk := λ A a, Found a.
#[export] Instance walk_bind : MBind walk := λ A B f m,
  match m with
  | Found a => f a
  | Failed_walk ds => Failed_walk ds
  | Raised e => Raised e
  | NoFuel => NoFuel
  end.
Definition walk_py {A} (m : py A) : walk A :=
  match m with Ret a => Found a | Raise e => Raised e end.
Definition walk_error {A} (message : string) (alias : SourceAlias) : walk A :=
  Failed_walk [graph_diagnostic MARKETPLACE_GRAPH_INVALID message (Some alias) ERROR []].

Notation manifests_t := (list (CollectionCoordinate * CollectionManifest)).
Notation artifacts_t := (list (akey * MarketplaceArtifact)).
Notation memo_t := (list (CollectionCoordinate * list ArtifactCoordinate)).
Notation members_t := (list (akey * ArtifactCoordinate)).

Section expand.
Context (manifests : manifests_t) (artifacts : artifacts_t).

(** The loop over [manifest.artifacts]. *)
Fixpoint direct_members (c : CollectionCoordinate) (selectors : list ArtifactSelector)
    (members : members_t) : walk members_t :=
  match selectors with
  | [] => Found members
  | selector :: selectors =>
      let key := artifact_key (cc_source c) (as_identity selector) in
      match dget key artifacts with
      | None => walk_error ("collection " +:+ collection_str c +:+ " references missing "
                            +:+ identity_str (as_identity selector)) (cc_source c)
      | Some artifact =>
          if match as_version selector with
             | None => false
             | Some bounds => negb (allows bounds (ia_version (ma_artifact artifact)))
             end
          then walk_error ("collection " +:+ collection_str c
                           +:+ " excludes available version of "
                           +:+ identity_str (as_identity selector)) (cc_source c)
          else direct_members c selectors (dset key (ma_coordinate artifact) members)
      end
  end.

(** [for item in nested.value: members[...] = item] *)
Definition add_members (items : list ArtifactCoordinate) (members : members_t) : members_t :=
  foldl (λ members item, dset (artifact_key (co_source item) (co_artifact item)) item members)
    members items.

(** The loop over [manifest.collections], given the recursive call. *)
Fixpoint nested_loop
    (expand : CollectionCoordinate → memo_t → walk (list ArtifactCoordinate * memo_t))
    (source : SourceAlias) (names : list string) (members : members_t) (memo : memo_t) :
    walk (members_t * memo_t) :=
  match names with
  | [] => Found (members, memo)
  | name :: names =>
      nested ← walk_py (collection_coordinate source name);
      r ← expand nested memo;
      nested_loop expand source names (add_members r.1 members) r.2
  end.

(** [_expand_collection_members], returning the updated [memo]. *)
Fixpoint expand_collection_members (fuel : nat) (c : CollectionCoordinate) (memo : memo_t)
    (visiting : list CollectionCoordinate) : walk (list ArtifactCoordinate * memo_t) :=
  match fuel with
  | O => NoFuel
  | S fuel =>
      match dget c memo with
      | Some cached => Found (cached, memo)
      | None =>
          if mem c visiting then
            walk_error ("collection cycle: "
              +:+ join " -> " (map collection_str (visiting ++ [c]))) (cc_source c)
          else match dget c manifests with
          | None => walk_error ("missing collection: " +:+ collection_str c) (cc_source c)
          | Some manifest =>
              members ← direct_members c (cm_artifacts manifest) [];
              nested ← nested_loop
                (λ n memo, expand_collection_members fuel n memo (visiting ++ [c]))
                (cc_source c) (cm_collections manifest) members memo;
              let expanded := sorted artifact_sort_key (dvalues nested.1) in
              Found (expanded, dset c expanded nested.2)
          end
      end
  end.

(** The recursion is never deeper than the number of manifests. *)
Definition expand_fuel : nat := S (length manifests).

(** The loop over the sorted manifests of [_compile_collections]. *)
Fixpoint compile_loop `{SetOrder} (coordinates : list CollectionCoordinate) (memo : memo_t) :
    walk (list MarketplaceCollection) :=
  match coordinates with
  | [] => Found []
  | c :: coordinates =>
      r ← expand_collection_members expand_fuel c memo [];
      compiled ← walk_py (marketplace_collection c
                   (default "" (cm_summary <$> dget c manifests)) r.1);
      rest ← compile_loop coordinates r.2;
      Found (compiled :: rest)
  end.
End expand.

(** The loop filling [manifests]: duplicates are reported. *)
Fixpoint collect_manifests (alias : SourceAlias) (collections : list CollectionManifest)
    (manifests : manifests_t) (diagnostics : list Diagnostic) :
    py (manifests_t * list Diagnostic) :=
  match collections with
  | [] => Ret (manifests, diagnostics)
  | manifest :: collections =>
      c ← collection_coordinate alias (cm_name manifest);
      if mem c (dkeys manifests)
      then collect_manifests alias collections manifests
             (diagnostics ++ [graph_diagnostic MARKETPLACE_GRAPH_INVALID
                ("duplicate collection: " +:+ collection_str c) (Some alias) ERROR []])
      else collect_manifests alias collections (dset c manifest manifests) diagnostics
  end.
Fixpoint collect_all_manifests (sources : list GraphSource) (manifests : manifests_t)
    (diagnostics : list Diagnostic) : py (manifests_t * list Diagnostic) :=
  match sources with
  | [] => Ret (manifests, diagnostics)
  | source :: sources =>
      r ← collect_manifests (gs_alias source) (gs_collections source) manifests diagnostics;
      collect_all_manifests sources r.1 r.2
  end.

(** What a walk that has not run out of fuel evaluates to. *)
Definition walk_result {A} (m : walk A) : py (Result A) :=
  match m with
  | Found a => Ret (Ok a)
  | Failed_walk ds => Ret (Err ds)
  | Raised e => Raise e
  | NoFuel => Raise (TypeError "")
  end.

Definition compile_collections `{SetOrder} (sources : list GraphSource) (artifacts : artifacts_t) :
    py (Result (list MarketplaceCollection)) :=
  r ← collect_all_manifests sources [] [];
  match r.2 with
  | (_ :: _) as diagnostics => Ret (raise_errors (sort_diagnostics diagnostics))
  | [] => walk_result (compile_loop r.1 artifacts (sorted collection_key (dkeys r.1)) [])
  end.

(** * History *)

(** The comparison of one current artifact with its previous record: errors
    and warnings. *)
Definition history_step (artifact : MarketplaceArtifact) (old : option MarketplaceArtifact) :
    list Diagnostic * list Diagnostic :=
  match old with
  | None => ([], [])
  | Some old =>
      let current := ma_artifact artifact in
      let previous := ma_artifact old in
      let alias := Some (ma_source_alias artifact) in
      if semver_lt (ia_version current) (ia_version previous) then
        ([graph_diagnostic ARTIFACT_VERSION_REGRESSED
            (coordinate_str (ma_coordinate artifact) +:+ " regressed from "
             +:+ semver_str (ia_version previous) +:+ " to " +:+ semver_str (ia_version current))
            alias ERROR []], [])
      else if same_precedence (ia_version current) (ia_version previous) then
        if negb (bool_decide (ma_semantic_digest artifact = ma_semantic_digest old))
           || negb (bool_decide (ia_manifest_digest current = ia_manifest_digest previous))
           || negb (bool_decide (ia_payload_digest current = ia_payload_digest previous))
           || negb (bool_decide (ia_object_digest current = ia_object_digest previous))
        then ([graph_diagnostic ARTIFACT_VERSION_UNCHANGED
                 ("content or install semantics changed without a version precedence change for "
                  +:+ alias_value (ma_source_alias artifact) +:+ "/"
                  +:+ identity_str (ia_identity current)) alias ERROR []], [])
        else ([], [])
      else if bool_decide (ma_semantic_digest artifact = ma_semantic_digest old) then
        ([], [graph_diagnostic ARTIFACT_VERSION_WITHOUT_CONTENT
                ("version changed without semantic content change for "
                 +:+ coordinate_str (ma_coordinate artifact)) alias WARNING []])
      else ([], [])
  end.

Definition with_lifecycle (m : MarketplaceArtifact) (l : ArtifactLifecycle) : MarketplaceArtifact :=
  MkArtifact (ma_source_alias m) (ma_source_id m) (ma_artifact m) (ma_semantic_digest m) l.

(** [_history].  [replace(old, lifecycle=REMOVED)] runs [__post_init__] again
    on the fields it had already accepted. *)
Definition history (current : artifacts_t) (previous : option MarketplaceGraph) :
    Result (list MarketplaceArtifact * list Diagnostic) :=
  match previous with
  | None => Ok (dvalues current, [])
  | Some previous =>
      let prior := dict_of (map (λ m, (ma_key m, m)) (mg_artifacts previous)) in
      let steps := map (λ ka, history_step ka.2 (dget ka.1 prior)) current in
      match concat steps.*1 with
      | (_ :: _) as errors => raise_errors (sort_diagnostics errors)
      | [] =>
          let merged := foldl (λ merged ko,
              if mem ko.1 (dkeys current) then merged
              else dset ko.1 (with_lifecycle ko.2 REMOVED) merged) current prior in
          Ok (dvalues merged, sort_diagnostics (concat steps.*2))
      end
  end.

(** * The graph *)

Record compile_state := MkCompileState {
  cst_diagnostics : list Diagnostic;
  cst_aliases : list SourceAlias;
  cst_source_ids : list SourceId;
  cst_artifacts : artifacts_t
}.

Section compile.
Context `{SetOrder}.

(** The body of the loop over [source.artifacts]. *)
Definition add_artifact (source : GraphSource) (artifact : IndexArtifact)
    (artifacts : artifacts_t) (diagnostics : list Diagnostic) :
    py (artifacts_t * list Diagnostic) :=
  let alias := gs_alias source in
  let error message := graph_diagnostic MARKETPLACE_GRAPH_INVALID message (Some alias) ERROR [] in
  if negb (bool_decide (ia_source_id artifact = gs_source_id source)) then
    Ret (artifacts, diagnostics ++ [error
      ("artifact " +:+ identity_str (ia_identity artifact) +:+ " declares source ID "
       +:+ source_id_value (ia_source_id artifact) +:+ ", expected "
       +:+ source_id_value (gs_source_id source))])
  else
    let key := artifact_key alias (ia_identity artifact) in
    if mem key (dkeys artifacts) then
      Ret (artifacts, diagnostics ++ [error
        ("duplicate qualified artifact: " +:+ alias_value alias +:+ "/"
         +:+ identity_str (ia_identity artifact))])
    else
      m ← marketplace_artifact source artifact;
      Ret (dset key m artifacts, diagnostics).
Fixpoint add_artifacts (source : GraphSource) (items : list IndexArtifact)
    (artifacts : artifacts_t) (diagnostics : list Diagnostic) :
    py (artifacts_t * list Diagnostic) :=
  match items with
  | [] => Ret (artifacts, diagnostics)
  | item :: items =>
      r ← add_artifact source item artifacts diagnostics;
      add_artifacts source items r.1 r.2
  end.

(** The diagnostics of a source before its artifacts. *)
Definition source_diagnostics (source : GraphSource) (available : list Capability)
    (aliases : list SourceAlias) (source_ids : list SourceId) : list Diagnostic :=
  let alias := gs_alias source in
  let missing := filter (λ c, c ∉ available) (gs_required_capabilities source) in
  (if mem alias aliases
   then [graph_diagnostic MARKETPLACE_GRAPH_INVALID
           ("duplicate source alias: " +:+ alias_value alias) (Some alias) ERROR []] else [])
  ++ (if mem (gs_source_id source) source_ids
      then [graph_diagnostic MARKETPLACE_GRAPH_INVALID
              ("duplicate source ID: " +:+ source_id_value (gs_source_id source)) (Some alias)
              ERROR []] else [])
  ++ match missing with
     | [] => []
     | _ => [graph_diagnostic SOURCE_INCOMPATIBLE
               ("source " +:+ alias_value alias +:+ " requires unavailable capabilities: "
                +:+ join ", " (map cap_value missing)) (Some alias) ERROR []]
     end.

(** The loop of [compile_marketplace_graph] over the ordered sources. *)
Fixpoint compile_sources_loop (sources : list GraphSource) (available : list Capability)
    (st : compile_state) : py compile_state :=
  match sources with
  | [] => Ret st
  | source :: sources =>
      let diagnostics := cst_diagnostics st
        ++ source_diagnostics source available (cst_aliases st) (cst_source_ids st) in
      r ← add_artifacts source (gs_artifacts source) (cst_artifacts st) diagnostics;
      compile_sources_loop sources available
        (MkCompileState r.2 (gs_alias source :: cst_aliases st)
           (gs_source_id source :: cst_source_ids st) r.1)
  end.

Definition compile_marketplace_graph (sources : list GraphSource) (available : list Capability)
    (previous : option MarketplaceGraph) : py (Result MarketplaceGraph) :=
  let ordered := sorted (λ s, alias_value (gs_alias s)) sources in
  st ← compile_sources_loop ordered available (MkCompileState [] [] [] []);
  match cst_diagnostics st with
  | (_ :: _) as diagnostics => Ret (raise_errors (sort_diagnostics diagnostics))
  | [] =>
      collections ← compile_collections ordered (cst_artifacts st);
      match collections with
      | Err ds => Ret (Err ds)
      | Ok collections =>
          match history (cst_artifacts st) previous with
          | Err ds => Ret (Err ds)
          | Ok (artifacts, diagnostics) =>
              graph ← marketplace_graph artifacts collections diagnostics; Ret (Ok graph)
          end
      end
  end.
End compile.

(** * Compatibility *)

Definition supported (values : list string) : string :=
  match sorted id values with [] => "none" | labels => join ", " labels end.

Section compatibility.
Context `{UnicodeData}.

Definition unsupported (dimension code value : string) (values : list string) :
    list CompatibilityReason :=
  if mem value values then []
  else [MkReason code (dimension +:+ " " +:+ repr value +:+ " is not supported; supported "
                       +:+ dimension +:+ "s: " +:+ supported values)].

Definition payload_reasons (artifact : MarketplaceArtifact) (target : CompatibilityTarget) :
    list CompatibilityReason :=
  let manifest := ma_artifact artifact in
  (if allows (ia_requires_aart manifest) (ct_aart_version target) then []
   else [MkReason "aart-version-unsupported"
           ("artifact requires AART " +:+ version_bounds_label (ia_requires_aart manifest)
            +:+ "; running AART " +:+ semver_str (ct_aart_version target)
            +:+ " may not support behavior used by this artifact, so installation is disabled")])
  ++ (if bool_decide (ma_lifecycle artifact = REMOVED)
      then [MkReason "artifact-removed" "artifact was removed from its source"] else [])
  ++ unsupported "profile" "profile-unsupported" (ct_profile target)
       (cs_profiles (ia_compatibility manifest))
  ++ unsupported "platform" "platform-unsupported" (ct_platform target)
       (cs_platforms (ia_compatibility manifest))
  ++ unsupported "scope" "scope-unsupported" (ct_scope target) (is_scopes (ia_install manifest))
  ++ unsupported "mode" "mode-unsupported" (ct_mode target) (is_modes (ia_install manifest))
  ++ map (λ e, MkReason "effect-unsupported" ("install effect " +:+ repr e +:+ " is unavailable"))
       (List.filter (λ e, negb (mem e (ct_effects target))) (is_effects (ia_install manifest))).

Definition setup_reasons (artifact : MarketplaceArtifact) (target : CompatibilityTarget) :
    list CompatibilityReason :=
  match ia_setup (ma_artifact artifact) with
  | None => []
  | Some setup =>
      (if mem (ct_platform target) (ix_platforms setup) then []
       else [MkReason "setup-platform-unsupported"
               ("setup does not support platform " +:+ repr (ct_platform target)
                +:+ "; supported platforms: " +:+ supported (ix_platforms setup))])
      ++ match List.filter (λ c, negb (mem c (ct_setup_capabilities target)))
                 (ix_capabilities setup) with
         | [] => []
         | missing => [MkReason "setup-capability-missing"
                         ("setup capabilities are unavailable: "
                          +:+ join ", " (map cap_value missing))]
         end
  end.

Definition evaluate_compatibility (artifact : MarketplaceArtifact) (target : CompatibilityTarget) :
    CompatibilityDecision :=
  compatibility_decision (payload_reasons artifact target) (setup_reasons artifact target)
    (ct_require_setup target).

(** * Selection *)

Fixpoint find_collection (collections : list MarketplaceCollection) (c : CollectionCoordinate) :
    option MarketplaceCollection :=
  match collections with
  | [] => None
  | x :: collections => if bool_decide (mc_coordinate x = c) then Some x
                        else find_collection collections c
  end.
Definition expand_collection (graph : MarketplaceGraph) (c : CollectionCoordinate) :
    Result (list ArtifactCoordinate) :=
  match find_collection (mg_collections graph) c with
  | Some collection => Ok (mc_members collection)
  | None => graph_error ARTIFACT_NOT_FOUND
              ("collection is not available: " +:+ collection_str c) (cc_source c)
  end.

Fixpoint expand_all (graph : MarketplaceGraph) (collections : list CollectionCoordinate) :
    Result (list ArtifactCoordinate) :=
  match collections with
  | [] => Ok []
  | c :: collections =>
      expanded ← expand_collection graph c;
      rest ← expand_all graph collections;
      Ok (expanded ++ rest)
  end.

Definition requested_artifacts `{SetOrder} (graph : MarketplaceGraph) (request : SelectionRequest) :
    Result (list ArtifactCoordinate) :=
  expanded ← expand_all graph (sr_collections request);
  let requested := sr_artifacts request ++ expanded in
  match requested, sr_mode request with
  | [], EXPLICIT =>
      fail1 (graph_diagnostic ARTIFACT_NOT_FOUND
        "explicit selection requires at least one artifact or collection" None ERROR [])
  | [], BROAD =>
      Ok (sorted_py_set coordinate_eqb artifact_sort_key (map ma_coordinate (mg_artifacts graph)))
  | _, _ => Ok (sorted_py_set coordinate_eqb artifact_sort_key requested)
  end.

Record select_state := MkSelectState {
  ss_selected : list (akey * MarketplaceArtifact);
  ss_skipped : list SelectionSkip;
  ss_diagnostics : list Diagnostic
}.

(** The body of the loop of [select_artifacts]. *)
Definition select_step (records : list (akey * MarketplaceArtifact)) (request : SelectionRequest)
    (st : select_state) (c : ArtifactCoordinate) : select_state :=
  let skip s := MkSelectState (ss_selected st) (ss_skipped st ++ [s]) (ss_diagnostics st) in
  let refuse d := MkSelectState (ss_selected st) (ss_skipped st) (ss_diagnostics st ++ [d]) in
  let not_found :=
    let reason := MkReason "artifact-not-found"
                    ("artifact is not available: " +:+ coordinate_str c) in
    match sr_mode request with
    | EXPLICIT => refuse (graph_diagnostic ARTIFACT_NOT_FOUND (cr_message reason)
                            (Some (co_source c)) ERROR [])
    | BROAD => skip (selection_skip c [reason])
    end in
  match dget (artifact_key (co_source c) (co_artifact c)) records with
  | None => not_found
  | Some artifact =>
      if match co_version c with
         | None => false
         | Some v => negb (bool_decide (v = semver_str (ia_version (ma_artifact artifact))))
         end
      then not_found
      else
        let decision := evaluate_compatibility artifact (sr_target request) in
        if decision_compatible decision then
          MkSelectState (dset (ma_key artifact) artifact (ss_selected st)) (ss_skipped st)
            (ss_diagnostics st)
        else match sr_mode request with
        | EXPLICIT =>
            refuse (graph_diagnostic
              (if bool_decide (ma_lifecycle artifact = REMOVED) then ARTIFACT_NOT_FOUND
               else ARTIFACT_INCOMPATIBLE)
              ("cannot select " +:+ coordinate_str (ma_coordinate artifact) +:+ ": "
               +:+ join "; " (map cr_message (decision_reasons decision)))
              (Some (ma_source_alias artifact)) ERROR
              [("reasons", join "," (map cr_code (decision_reasons decision)))])
        | BROAD => skip (selection_skip (ma_coordinate artifact) (decision_reasons decision))
        end
  end.

Definition select_artifacts `{SetOrder} (graph : MarketplaceGraph) (request : SelectionRequest) :
    Result SelectionResult :=
  requested ← requested_artifacts graph request;
  let records := dict_of (map (λ m, (ma_key m, m)) (mg_artifacts graph)) in
  let st := foldl (select_step records request) (MkSelectState [] [] []) requested in
  match ss_diagnostics st with
  | (_ :: _) as diagnostics => raise_errors (sort_diagnostics diagnostics)
  | [] => Ok (selection_result (dvalues (ss_selected st)) (ss_skipped st))
  end.
End compatibility.

(** * Serialisation *)

Definition review_json (r : option ReviewRecord) : JsonValue :=
  match r with
  | None => JNull
  | Some r => json_object [("policy", JStr (rr_policy r)); ("status", JStr (rr_status r))]
  end.
Definition provenance_json (p : option IndexProvenance) : JsonValue :=
  match p with
  | None => JNull
  | Some p => json_object
      [("origin_url", JStr (px_origin_url p)); ("path", JStr (path_str (px_path p)));
       ("resolved_commit", JStr (px_resolved_commit p))]
  end.

(** [semantic.get(key)] *)
Definition semantic_get (a : IndexArtifact) (key : string) : option JsonValue :=
  dget key (sorted fst (semantic_entries a)).
Definition opt_json (v : option JsonValue) : JsonValue := default JNull v.

(** [if value is not None: entries.append((key, value))] *)
Definition optional_entry (key : string) (value : option JsonValue) : list (string * JsonValue) :=
  match value with None => [] | Some v => [(key, v)] end.

Definition artifact_json (item : MarketplaceArtifact) : JsonValue :=
  let artifact := ma_artifact item in
  json_object
    ([("compatibility", opt_json (semantic_get artifact "compatibility"));
      ("identity", JStr (identity_str (ia_identity artifact)));
      ("install", opt_json (semantic_get artifact "install"));
      ("lifecycle", JStr (lifecycle_value (ma_lifecycle item)));
      ("manifest_digest", JStr (digest_str (ia_manifest_digest artifact)));
      ("object_digest", JStr (digest_str (ia_object_digest artifact)));
      ("payload_digest", JStr (digest_str (ia_payload_digest artifact)));
      ("provenance", provenance_json (ia_provenance artifact));
      ("review", review_json (ia_review artifact));
      ("semantic_digest", JStr (digest_str (ma_semantic_digest item)));
      ("setup", setup_json (ia_setup artifact));
      ("source_alias", JStr (alias_value (ma_source_alias item)));
      ("source_id", JStr (source_id_value (ma_source_id item)));
      ("summary", JStr (ia_summary artifact));
      ("version", JStr (semver_str (ia_version artifact)))]
     ++ optional_entry "requires_aart" (semantic_get artifact "requires_aart")
     ++ optional_entry "requires" (semantic_get artifact "requires")).

Definition collection_json (c : MarketplaceCollection) : JsonValue :=
  json_object
    [("coordinate", JStr (collection_str (mc_coordinate c)));
     ("members", strings_json (map coordinate_str (mc_members c)));
     ("summary", JStr (mc_summary c))].

Definition graph_diagnostic_json (d : Diagnostic) : JsonValue :=
  json_object
    [("code", JStr (code_value (d_code d))); ("message", JStr (d_message d));
     ("severity", JStr (severity_value (d_severity d)));
     ("source", match d_location d ≫= loc_source with
                | None => JNull | Some a => JStr (alias_value a) end)].

Definition marketplace_graph_json (graph : MarketplaceGraph) : JsonValue :=
  json_object
    [("artifacts", JsonArray (map artifact_json (mg_artifacts graph)));
     ("collections", JsonArray (map collection_json (mg_collections graph)));
     ("diagnostics", JsonArray (map graph_diagnostic_json (mg_diagnostics graph)));
     ("schema_version", JInt 1)].

Definition marketplace_graph_bytes (graph : MarketplaceGraph) : bytes :=
  canonical_json_bytes (marketplace_graph_json graph).

Definition compile_marketplace_graph_phase `{SetOrder} (sources : list GraphSource)
    (available : list Capability) (previous : option MarketplaceGraph) :
    py (Result (PhaseOutput MarketplaceGraph)) :=
  compiled ← compile_marketplace_graph sources available previous;
  match compiled with
  | Err ds => Ret (Err ds)
  | Ok graph =>
      output ← phase_output graph (marketplace_graph_bytes graph) (mg_diagnostics graph);
      Ret (Ok output)
  end.
