(* ===== verification/GraphSpec.v ===== *)
(** Properties of the marketplace graph compiler: collection expansion
    computes reachability, compilation accepts exactly the valid inputs and
    never raises on them, history protects published versions, and selection
    is sound and complete. *)
From S2P Require Import Prelude PyText Domain SemVer Json Protocol CompilerModel Graph.
From stdpp Require Import relations.

(** * Expanding collections *)

(** The artifact a coordinate is filed under. *)
Definition coordinate_key (m : ArtifactCoordinate) : akey := (co_source m, co_artifact m).

Section expand.
Context (manifests : list (CollectionCoordinate * CollectionManifest)).
Context (artifacts : list (akey * MarketplaceArtifact)).
Context (keyed : ∀ k a, dget k artifacts = Some a → ma_key a = k).

(** [c] names [c'] in its [collections]. *)
Definition refers (c c' : CollectionCoordinate) : Prop :=
  ∃ manifest name, dget c manifests = Some manifest ∧ name ∈ cm_collections manifest ∧
    c' = MkCollectionCoordinate (cc_source c) name.

(** [selector] resolves to [a] in the source [alias]. *)
Definition resolves (alias : SourceAlias) (selector : ArtifactSelector) (a : MarketplaceArtifact) :
    Prop :=
  dget (artifact_key alias (as_identity selector)) artifacts = Some a ∧
  ∀ bounds, as_version selector = Some bounds →
    allows bounds (ia_version (ma_artifact a)) = true.

(** [c] lists an artifact whose coordinate is [m]. *)
Definition lists (c : CollectionCoordinate) (m : ArtifactCoordinate) : Prop :=
  ∃ manifest selector a, dget c manifests = Some manifest ∧ selector ∈ cm_artifacts manifest ∧
    resolves (cc_source c) selector a ∧ m = ma_coordinate a.

(** Every selector of [c] resolves. *)
Definition resolved (c : CollectionCoordinate) : Prop :=
  ∃ manifest, dget c manifests = Some manifest ∧
    ∀ selector, selector ∈ cm_artifacts manifest → ∃ a, resolves (cc_source c) selector a.

(** [c] has no cycle below it and everything below it resolves. *)
Definition well_formed (c : CollectionCoordinate) : Prop :=
  Acc (λ x y, refers y x) c ∧ ∀ c', rtc refers c c' → resolved c'.

(** The members of [c]: what is listed by a collection reachable from it. *)
Definition member (c : CollectionCoordinate) (m : ArtifactCoordinate) : Prop :=
  ∃ c', rtc refers c c' ∧ lists c' m.

Definition expansion (c : CollectionCoordinate) (ms : list ArtifactCoordinate) : Prop :=
  well_formed c ∧ (∀ m, m ∈ ms ↔ member c m) ∧ NoDup (map coordinate_key ms) ∧
  StronglySorted (key_le artifact_sort_key) ms.

Lemma refers_source c c' : rtc refers c c' → cc_source c' = cc_source c.
Proof. induction 1 as [|c d c' (man & name & _ & _ & ->) _ IH]; [done|]. by rewrite IH. Qed.

Lemma well_formed_child c c' : well_formed c → refers c c' → well_formed c'.
Proof.
  intros [Ha Hr] Hc. split; [by apply Ha|]. intros d Hd. apply Hr. by eapply rtc_l.
Qed.

Lemma lists_key c m : lists c m → ∃ a, dget (coordinate_key m) artifacts = Some a ∧ m = ma_coordinate a.
Proof.
  intros (man & sel & a & _ & _ & [Ha _] & ->). exists a. split; [|done].
  by rewrite <-(keyed _ _ Ha) in Ha.
Qed.

Lemma member_key c m :
  member c m → ∃ a, dget (coordinate_key m) artifacts = Some a ∧ m = ma_coordinate a.
Proof. intros (c' & _ & Hl). by eapply lists_key. Qed.

Lemma member_source c m : member c m → co_source m = cc_source c.
Proof.
  intros (c' & Hr & man & sel & a & _ & _ & [Ha _] & ->).
  pose proof (f_equal fst (keyed _ _ Ha)) as Hk. rewrite <-(refers_source _ _ Hr). exact Hk.
Qed.

Lemma member_unfold c m manifest : dget c manifests = Some manifest →
  member c m ↔ lists c m ∨
    ∃ name, name ∈ cm_collections manifest ∧ member (MkCollectionCoordinate (cc_source c) name) m.
Proof.
  intros Hm. split.
  - intros (c' & Hr & Hl). inversion Hr as [|? d ? (man & name & Hman & Hn & ->) Hd]; subst; [by left|].
    rewrite Hm in Hman. injection Hman as <-. right. exists name. split; [done|]. by exists c'.
  - intros [Hl|(name & Hn & c' & Hr & Hl)]; [by exists c|]. exists c'. split; [|done].
    eapply rtc_l; [|done]. by exists manifest, name.
Qed.

(** The dictionary of members holds exactly the coordinates satisfying [Q]. *)
Definition holds (Q : ArtifactCoordinate → Prop) (members : list (akey * ArtifactCoordinate)) : Prop :=
  NoDup (dkeys members) ∧ ∀ k m, (k, m) ∈ members ↔ Q m ∧ k = coordinate_key m.

Definition canonical (Q : ArtifactCoordinate → Prop) : Prop :=
  ∀ m, Q m → ∃ a, dget (coordinate_key m) artifacts = Some a ∧ m = ma_coordinate a.

Lemma canonical_inj Q m n : canonical Q → Q m → Q n → coordinate_key m = coordinate_key n → m = n.
Proof.
  intros HQ (a & Ha & ->)%HQ (b & Hb & ->)%HQ E. rewrite E, Hb in Ha. congruence.
Qed.

Lemma holds_ext Q Q' members : (∀ m, Q m ↔ Q' m) → holds Q members → holds Q' members.
Proof. intros HQ [Hnd H]. split; [done|]. intros k m. by rewrite H, HQ. Qed.

Lemma holds_dset Q members m :
  canonical (λ n, Q n ∨ n = m) → holds Q members →
  holds (λ n, Q n ∨ n = m) (dset (coordinate_key m) m members).
Proof.
  intros HQ [Hnd H]. split; [by apply NoDup_dkeys_dset|]. intros k n.
  rewrite elem_of_dset by done. rewrite H. split; [naive_solver|].
  intros [[Hn| ->] ->]; [|by left].
  destruct (decide (coordinate_key n = coordinate_key m)) as [E|Hne]; [|by right].
  left. split; [done|]. eapply canonical_inj; [exact HQ|by left|by right|done].
Qed.

Lemma holds_add_members Q items members :
  canonical (λ n, Q n ∨ n ∈ items) → holds Q members →
  holds (λ n, Q n ∨ n ∈ items) (add_members items members).
Proof.
  revert Q members. induction items as [|m items IH]; intros Q members HQ H.
  - simpl. eapply holds_ext; [|done]. intros n. rewrite elem_of_nil. tauto.
  - cbn [add_members foldl]. eapply holds_ext; [|apply (IH (λ n, Q n ∨ n = m))].
    + intros n. rewrite elem_of_cons. tauto.
    + intros n Hn. apply HQ. rewrite elem_of_cons. tauto.
    + apply holds_dset; [|done]. intros n Hn. apply HQ. rewrite elem_of_cons. tauto.
Qed.

Lemma holds_values Q members :
  holds Q members →
  (∀ m, m ∈ sorted artifact_sort_key (dvalues members) ↔ Q m) ∧
  NoDup (map coordinate_key (sorted artifact_sort_key (dvalues members))).
Proof.
  intros [Hnd H]. split.
  - intros m. rewrite elem_of_sorted, elem_of_dvalues. split.
    + by intros (k & [Hm _]%H).
    + intros Hm. exists (coordinate_key m). by apply H.
  - change (NoDup (coordinate_key <$> sorted artifact_sort_key (dvalues members))).
    rewrite sorted_perm. unfold dvalues.
    assert (coordinate_key <$> members.*2 = members.*1) as ->; [|done].
    rewrite <-list_fmap_compose. apply list_fmap_ext. intros i [k m] Hi. simpl.
    apply list_elem_of_lookup_2 in Hi. by apply H in Hi as [_ ->].
Qed.

Lemma canonical_or Q Q' : canonical Q → canonical Q' → canonical (λ m, Q m ∨ Q' m).
Proof. intros H H' m [Hm|Hm]; auto. Qed.

Lemma canonical_member c : canonical (member c).
Proof. intros m. apply member_key. Qed.

Lemma resolves_key alias s a :
  resolves alias s a → artifact_key alias (as_identity s) = coordinate_key (ma_coordinate a)
  ∧ dget (coordinate_key (ma_coordinate a)) artifacts = Some a.
Proof. intros [Ha _]. pose proof (keyed _ _ Ha) as Hk. rewrite <-Hk in Ha. by split. Qed.

(** What the selectors [sels] resolve to. *)
Definition selected_by (alias : SourceAlias) (sels : list ArtifactSelector) (m : ArtifactCoordinate) :
    Prop := ∃ s a, s ∈ sels ∧ resolves alias s a ∧ m = ma_coordinate a.

Lemma canonical_selected alias sels : canonical (selected_by alias sels).
Proof. intros m (s & a & _ & [_ Ha]%resolves_key & ->). eauto. Qed.

Lemma direct_members_spec Q c sels members :
  canonical Q → holds Q members →
  match direct_members artifacts c sels members with
  | Found members' => (∀ s, s ∈ sels → ∃ a, resolves (cc_source c) s a) ∧
                      holds (λ m, Q m ∨ selected_by (cc_source c) sels m) members'
  | Failed_walk ds => ds ≠ [] ∧ ∃ s, s ∈ sels ∧ ∀ a, ¬ resolves (cc_source c) s a
  | _ => False
  end.
Proof.
  revert Q members. induction sels as [|s sels IH]; intros Q members HQ H; cbn [direct_members].
  { split; [by intros s ?%elem_of_nil|]. eapply holds_ext; [|done].
    intros m. split; [by left|]. intros [?|(s & _ & ?%elem_of_nil & _)]; done. }
  destruct (dget _ artifacts) as [a|] eqn:Ha.
  2:{ split; [done|]. exists s. split; [by left|]. intros a [Ha' _]. congruence. }
  match goal with |- context [if ?b then _ else _] => destruct b eqn:Hv end.
  { split; [done|]. exists s. split; [by left|]. intros a' [Ha' Hall]. rewrite Ha in Ha'.
    injection Ha' as <-. destruct (as_version s); [|done]. by rewrite Hall in Hv. }
  assert (resolves (cc_source c) s a) as Hs.
  { split; [done|]. intros b Hb. rewrite Hb in Hv. by apply negb_false_iff in Hv. }
  destruct (resolves_key _ _ _ Hs) as [Hk Ha']. rewrite Hk.
  assert (canonical (λ n, Q n ∨ n = ma_coordinate a)) as Hc.
  { apply canonical_or; [done|]. intros m ->. eauto. }
  specialize (IH _ _ Hc (holds_dset _ _ _ Hc H)).
  destruct (direct_members _ _ _ _) as [members'|ds|e|]; [| |done..].
  - destruct IH as [Hall Hm]. split.
    + intros s' [->|Hs']%elem_of_cons; [by exists a|auto].
    + eapply holds_ext; [|exact Hm]. intros m. unfold selected_by. setoid_rewrite elem_of_cons.
      split; [naive_solver|]. intros [?|(s' & a' & [->|?] & Hr & ->)]; [by left; left| |naive_solver].
      left; right. destruct Hr as [Hr _], Hs as [Hs _]. congruence.
  - destruct IH as (Hd & s' & Hs' & Hn). split; [done|]. exists s'. by split; [right|].
Qed.

Definition memo_ok (memo : list (CollectionCoordinate * list ArtifactCoordinate)) : Prop :=
  ∀ c ms, dget c memo = Some ms → expansion c ms.

(** [CollectionCoordinate(source, name)] is accepted. *)
Definition valid_coordinate (c : CollectionCoordinate) : Prop :=
  collection_coordinate (cc_source c) (cc_name c) = Ret c.

(** The outcome of expanding [c]. *)
Definition expand_post (c : CollectionCoordinate)
    (r : walk (list ArtifactCoordinate * list (CollectionCoordinate * list ArtifactCoordinate))) :
    Prop :=
  match r with
  | Found (ms, memo) => expansion c ms ∧ memo_ok memo
  | Failed_walk ds => ds ≠ [] ∧ ¬ well_formed c
  | Raised _ => ∃ c', rtc refers c c' ∧ ¬ valid_coordinate c'
  | NoFuel => False
  end.

Lemma collection_coordinate_cases source name :
  collection_coordinate source name = Ret (MkCollectionCoordinate source name) ∨
  ∃ e, collection_coordinate source name = Raise e.
Proof.
  unfold collection_coordinate, raise_if. destruct (_ || _); simpl; [right; by eexists|by left].
Qed.

Lemma nested_loop_spec expand c manifest names members memo Q :
  dget c manifests = Some manifest → (∀ n, n ∈ names → n ∈ cm_collections manifest) →
  (∀ name memo, name ∈ names → memo_ok memo →
     expand_post (MkCollectionCoordinate (cc_source c) name)
       (expand (MkCollectionCoordinate (cc_source c) name) memo)) →
  canonical Q → holds Q members → memo_ok memo →
  match nested_loop expand (cc_source c) names members memo with
  | Found (members', memo') =>
      (∀ name, name ∈ names → well_formed (MkCollectionCoordinate (cc_source c) name)) ∧
      holds (λ m, Q m ∨ ∃ name, name ∈ names ∧ member (MkCollectionCoordinate (cc_source c) name) m)
        members' ∧ memo_ok memo'
  | Failed_walk ds => ds ≠ [] ∧ ¬ well_formed c
  | Raised _ => ∃ c', rtc refers c c' ∧ ¬ valid_coordinate c'
  | NoFuel => False
  end.
Proof.
  intros Hman. revert Q members memo.
  induction names as [|name names IH]; intros Q members memo Hn Hexp HQ H Hmemo; cbn [nested_loop].
  { split_and!; [by intros ? ?%elem_of_nil| |done]. eapply holds_ext; [|done].
    intros m. split; [by left|]. intros [?|(n & ?%elem_of_nil & _)]; done. }
  set (n := MkCollectionCoordinate (cc_source c) name) in *.
  assert (refers c n) as Hr by (exists manifest, name; split_and!; [done|apply Hn; by left|done]).
  destruct (collection_coordinate_cases (cc_source c) name) as [E|[e E]]; rewrite E;
    cbn [walk_py mbind walk_bind].
  2:{ exists n. split; [by apply rtc_once|]. unfold valid_coordinate. simpl. by rewrite E. }
  pose proof (Hexp name memo ltac:(by left) Hmemo) as He. fold n in He |- *.
  destruct (expand n memo) as [[ms memo']|ds|e|]; cbn [mbind walk_bind fst snd expand_post] in *.
  - destruct He as [(Hwf & Hms & Hnd & Hso) Hmemo'].
    assert (canonical (λ m, Q m ∨ m ∈ ms)) as Hc.
    { apply canonical_or; [done|]. intros m Hm. eapply canonical_member, Hms, Hm. }
    specialize (IH _ _ memo' (λ x Hx, Hn x (list_elem_of_further _ _ _ Hx))
      (λ x m Hx, Hexp x m (list_elem_of_further _ _ _ Hx)) Hc (holds_add_members _ _ _ Hc H) Hmemo').
    destruct (nested_loop _ _ _ _ _) as [[members' memo'']|ds|e|]; [|done..].
    destruct IH as (Hall & Hm & Hmm). split_and!; [| |done].
    + intros name' [->|Hn']%elem_of_cons; [done|auto].
    + eapply holds_ext; [|exact Hm]. intros m. setoid_rewrite elem_of_cons. rewrite Hms.
      split; [naive_solver|]. intros [?|(name' & [->|?] & ?)]; naive_solver.
  - destruct He as [Hd Hwf]. split; [done|]. intros Hc. by apply Hwf, (well_formed_child c).
  - destruct He as (c' & Hc' & Hv). exists c'. split; [by eapply rtc_l|done].
  - done.
Qed.

(** The coordinates being visited are ancestors of [c], all of them defined. *)
Record visiting_ok (c : CollectionCoordinate) (visiting : list CollectionCoordinate) : Prop := {
  vo_nodup : NoDup visiting;
  vo_defined : ∀ v, v ∈ visiting → v ∈ dkeys manifests;
  vo_ancestor : ∀ v, v ∈ visiting → tc refers v c
}.

Lemma visiting_length c visiting :
  visiting_ok c visiting → (length visiting ≤ length manifests)%nat.
Proof.
  intros [Hnd Hdef _]. transitivity (length (dkeys manifests)).
  - apply submseteq_length, NoDup_submseteq; [done|]. apply Hdef.
  - unfold dkeys. by rewrite length_fmap.
Qed.

Lemma visiting_child c visiting n :
  visiting_ok c visiting → c ∉ visiting → c ∈ dkeys manifests → refers c n →
  visiting_ok n (visiting ++ [c]).
Proof.
  intros [Hnd Hdef Hanc] Hc Hk Hn. constructor.
  - apply NoDup_app. split_and!; [done| |apply NoDup_singleton].
    intros v Hv ->%list_elem_of_singleton. done.
  - intros v [Hv| ->%list_elem_of_singleton]%elem_of_app; auto.
  - intros v [Hv| ->%list_elem_of_singleton]%elem_of_app; [|by apply tc_once].
    eapply tc_r; [by apply Hanc|done].
Qed.

Lemma memo_ok_dset c ms memo : expansion c ms → memo_ok memo → memo_ok (dset c ms memo).
Proof.
  intros He Hm c' ms'. rewrite dget_dset. case_bool_decide; [by intros [= <-]; subst|]. apply Hm.
Qed.

Lemma expand_spec fuel c memo visiting :
  memo_ok memo → visiting_ok c visiting →
  (length manifests < fuel + length visiting)%nat →
  expand_post c (expand_collection_members manifests artifacts fuel c memo visiting).
Proof.
  revert c memo visiting. induction fuel as [|fuel IH]; intros c memo visiting Hmemo Hv Hf.
  { pose proof (visiting_length _ _ Hv). lia. }
  cbn [expand_collection_members]. destruct (dget c memo) as [ms|] eqn:Hc.
  { split; [by apply Hmemo|done]. }
  destruct (mem c visiting) eqn:Hcyc.
  { apply mem_true in Hcyc. split; [done|]. intros [Hacc _].
    by eapply acc_no_cycle, vo_ancestor. }
  apply mem_false in Hcyc. destruct (dget c manifests) as [man|] eqn:Hman.
  2:{ split; [done|]. intros [_ Hr]. destruct (Hr c ltac:(done)) as (man & Hman' & _). congruence. }
  pose proof (direct_members_spec (λ _, False) c (cm_artifacts man) []) as Hd.
  ospecialize* Hd; [by intros m []|split; [constructor|]; intros k m; rewrite elem_of_nil; tauto|].
  destruct (direct_members _ _ _ _) as [members|ds|e|]; cbn [mbind walk_bind]; [| |done..].
  2:{ destruct Hd as (Hds & s & Hs & Hn). split; [done|]. intros [_ Hr].
      destruct (Hr c ltac:(done)) as (man' & Hman' & Hall). rewrite Hman in Hman'.
      injection Hman' as <-. destruct (Hall s Hs) as [a Ha]. by eapply Hn. }
  destruct Hd as [Hres Hdir].
  set (D := λ m, False ∨ selected_by (cc_source c) (cm_artifacts man) m) in *.
  assert (∀ m, D m ↔ lists c m) as HD.
  { intros m. unfold D, selected_by, lists. setoid_rewrite Hman. split.
    - intros [[]|(s & a & ? & ? & ?)]. by exists man, s, a.
    - intros (man' & s & a & [= <-] & ? & ? & ?). right. by exists s, a. }
  assert (c ∈ dkeys manifests) as Hk by (apply dget_is_Some; rewrite Hman; by eexists).
  pose proof (nested_loop_spec (λ n memo, expand_collection_members manifests artifacts fuel n memo
    (visiting ++ [c])) c man (cm_collections man) members memo D Hman ltac:(done)) as Hloop.
  ospecialize* Hloop; [| |done|done|].
  { intros name memo' Hname Hmemo'. apply IH; [done| |rewrite length_app; simpl; lia].
    apply (visiting_child c); [done..|]. by exists man, name. }
  { intros m Hm. eapply lists_key. by apply HD. }
  destruct (nested_loop _ _ _ _ _) as [[members' memo']|ds|e|]; cbn [mbind walk_bind fst snd];
    [|done..].
  destruct Hloop as (Hnest & Hm & Hmemo').
  destruct (holds_values _ _ Hm) as [Hvals Hnd].
  assert (expansion c (sorted artifact_sort_key (dvalues members'))) as Hexp.
  { split_and!; [split| |done|apply sorted_sorted].
    - constructor. intros c' (man' & name & Hman' & Hname & ->). rewrite Hman in Hman'.
      injection Hman' as <-. by apply Hnest.
    - intros c' Hc'. inversion Hc' as [|? d ? (man' & name & Hman' & Hname & ->) Hd]; subst.
      + exists man. by split.
      + rewrite Hman in Hman'. injection Hman' as <-. by apply (Hnest name Hname).
    - intros m. rewrite Hvals, (member_unfold c m man Hman), HD. done. }
  split; [done|]. by apply memo_ok_dset.
Qed.

(** ** All collections of the graph *)

Context `{SetOrder}.

(** What [compile_loop] builds for [c]. *)
Definition compiled_collection (c : CollectionCoordinate) (x : MarketplaceCollection) : Prop :=
  mc_coordinate x = c ∧ well_formed c ∧ (∀ m, m ∈ mc_members x ↔ member c m).

Lemma coordinate_eqb_eq x y : coordinate_eqb x y = true ↔ x = y.
Proof. apply bool_decide_eq_true. Qed.

Lemma marketplace_collection_expansion c summary ms :
  expansion c ms →
  marketplace_collection c summary ms
  = Ret (MkCollection c summary (sorted_py_set coordinate_eqb artifact_sort_key ms)).
Proof.
  intros (_ & Hms & _). unfold marketplace_collection.
  assert (existsb (λ m, negb (bool_decide (co_source m = cc_source c))) ms = false) as ->; [|done].
  apply not_true_iff_false. rewrite existsb_exists. intros (m & Hin & Hb).
  apply list_elem_of_In, Hms, member_source in Hin. by rewrite bool_decide_true in Hb.
Qed.

Lemma compile_loop_spec coordinates memo :
  memo_ok memo →
  match compile_loop manifests artifacts coordinates memo with
  | Found cs => Forall2 compiled_collection coordinates cs
  | Failed_walk ds => ds ≠ [] ∧ ∃ c, c ∈ coordinates ∧ ¬ well_formed c
  | Raised _ => ∃ c c', c ∈ coordinates ∧ rtc refers c c' ∧ ¬ valid_coordinate c'
  | NoFuel => False
  end.
Proof.
  revert memo. induction coordinates as [|c cs IH]; intros memo Hmemo; cbn [compile_loop]; [done|].
  pose proof (expand_spec (expand_fuel manifests) c memo [] Hmemo) as He.
  ospecialize* He; [constructor; [constructor|by intros ? ?%elem_of_nil..]|
    unfold expand_fuel; simpl; lia|].
  destruct (expand_collection_members _ _ _ _ _ _) as [[ms memo']|ds|e|];
    cbn [mbind walk_bind expand_post fst snd] in *.
  - destruct He as [He Hmemo']. rewrite marketplace_collection_expansion by done.
    cbn [walk_py mbind walk_bind]. specialize (IH memo' Hmemo').
    destruct (compile_loop _ _ _ _) as [rest|ds|e|]; cbn [mbind walk_bind].
    + constructor; [|done]. destruct He as (Hwf & Hms & _). split_and!; [done|done|].
      intros m. cbn [mc_members]. rewrite elem_of_sorted_py_set by apply coordinate_eqb_eq. apply Hms.
    + destruct IH as (Hd & c' & Hc' & Hn). split; [done|]. exists c'. by split; [right|].
    + destruct IH as (c' & d & Hc' & Hr). exists c', d. by split; [right|].
    + done.
  - destruct He as [Hd Hn]. split; [done|]. exists c. by split; [left|].
  - destruct He as (c' & Hc'). exists c, c'. by split; [left|].
  - done.
Qed.
End expand.

(** * Reading the sources *)

Section sources.
Context `{SetOrder}.

(** The record an artifact of a source compiles to. *)
Definition compiled_artifact (s : GraphSource) (a : IndexArtifact) : MarketplaceArtifact :=
  MkArtifact (gs_alias s) (gs_source_id s) (normalize_artifact a)
    (json_digest (semantic_json (normalize_artifact a))) AVAILABLE.
Definition compiled_entry (s : GraphSource) (a : IndexArtifact) : akey * MarketplaceArtifact :=
  (artifact_key (gs_alias s) (ia_identity a), compiled_artifact s a).
Definition compiled_entries (sources : list GraphSource) : list (akey * MarketplaceArtifact) :=
  concat (map (λ s, map (compiled_entry s) (gs_artifacts s)) sources).

(** A source that asks for available capabilities and lists its own
    artifacts, each once. *)
Record source_ok (available : list Capability) (s : GraphSource) : Prop := {
  so_capabilities : ∀ c, c ∈ gs_required_capabilities s → c ∈ available;
  so_source_id : ∀ a, a ∈ gs_artifacts s → ia_source_id a = gs_source_id s;
  so_identities : NoDup (map ia_identity (gs_artifacts s))
}.
Record valid_sources (available : list Capability) (sources : list GraphSource) : Prop := {
  vs_aliases : NoDup (map gs_alias sources);
  vs_source_ids : NoDup (map gs_source_id sources);
  vs_sources : Forall (source_ok available) sources
}.

Lemma marketplace_artifact_ok s a :
  str_empty (alias_value (gs_alias s)) = false → ia_source_id a = gs_source_id s →
  marketplace_artifact s a = Ret (compiled_artifact s a).
Proof.
  intros He Hid. unfold marketplace_artifact, marketplace_artifact_init.
  rewrite He. cbn [normalize_artifact ia_source_id]. rewrite Hid, bool_decide_true by done.
  cbn [orb negb raise_if mbind py_bind]. by rewrite bool_decide_true.
Qed.

Lemma add_artifacts_spec s items arts ds :
  str_empty (alias_value (gs_alias s)) = false →
  ∃ arts' ds', add_artifacts s items arts ds = Ret (arts', ds ++ ds') ∧
    (∀ k, k ∈ dkeys arts' → k ∈ dkeys arts ∨ k.1 = gs_alias s) ∧
    (ds' = [] ↔ (∀ a, a ∈ items → ia_source_id a = gs_source_id s) ∧
                NoDup (map ia_identity items) ∧
                (∀ a, a ∈ items → artifact_key (gs_alias s) (ia_identity a) ∉ dkeys arts)) ∧
    (ds' = [] → arts' = arts ++ map (compiled_entry s) items).
Proof.
  intros He. revert arts ds. induction items as [|a items IH]; intros arts ds; cbn [add_artifacts].
  { exists arts, []. rewrite !app_nil_r. split_and!; [done|by left| |done].
    split; [|done]. intros _. split_and!; [by intros ? ?%elem_of_nil|constructor|
      by intros ? ?%elem_of_nil]. }
  unfold add_artifact.
  destruct (decide (ia_source_id a = gs_source_id s)) as [Hid|Hid].
  2:{ rewrite bool_decide_false by done. cbn [negb mbind py_bind fst snd].
      match goal with |- context [add_artifacts s items arts ?e] =>
        destruct (IH arts e) as (arts' & ds' & -> & Hk & _ & _) end.
      eexists arts', _. rewrite <-app_assoc. split_and!; [done|done| |done].
      split; [done|]. intros [Hall _]. exfalso. apply Hid, Hall. by left. }
  rewrite bool_decide_true by done. cbn [negb].
  destruct (mem _ (dkeys arts)) eqn:Hm; cbn [mbind py_bind fst snd].
  { match goal with |- context [add_artifacts s items arts ?e] =>
      destruct (IH arts e) as (arts' & ds' & -> & Hk & _ & _) end.
    eexists arts', _. rewrite <-app_assoc. split_and!; [done|done| |done].
    split; [done|]. intros (_ & _ & Hall). exfalso. apply mem_true in Hm.
    by eapply Hall; [left|]. }
  apply mem_false in Hm. rewrite marketplace_artifact_ok by done. cbn [mbind py_bind fst snd].
  set (k := artifact_key (gs_alias s) (ia_identity a)) in *.
  destruct (IH (dset k (compiled_artifact s a) arts) ds) as (arts' & ds' & -> & Hk & Hiff & Harts).
  exists arts', ds'. split_and!; [done| | |].
  - intros k' [Hk'|Hk']%Hk; [|by right]. apply elem_of_dkeys_dset in Hk' as [->|]; [by right|by left].
  - rewrite Hiff. cbn [map]. rewrite NoDup_cons. setoid_rewrite elem_of_dkeys_dset.
    setoid_rewrite elem_of_cons. split.
    + intros (H1 & H2 & H3). split_and!; [naive_solver| |done|].
      * intros (b & Hb & Hin)%list_elem_of_fmap. apply (H3 b Hin). left. by rewrite <-Hb.
      * intros b [->|Hb]; [done|]. naive_solver.
    + intros (H1 & [H2 H3] & H4). split_and!; [naive_solver|done|].
      intros b Hb [Heq|Hin]; [|by eapply H4; [right|]]. apply H2.
      injection Heq as Heq. apply list_elem_of_fmap. by exists b.
  - intros Hd. rewrite (Harts Hd), dset_fresh by done. by rewrite <-app_assoc.
Qed.

Lemma source_diagnostics_nil s available aliases ids :
  source_diagnostics s available aliases ids = [] ↔
  gs_alias s ∉ aliases ∧ gs_source_id s ∉ ids ∧
  ∀ c, c ∈ gs_required_capabilities s → c ∈ available.
Proof.
  unfold source_diagnostics.
  assert (filter (λ c, c ∉ available) (gs_required_capabilities s) = [] ↔
          ∀ c, c ∈ gs_required_capabilities s → c ∈ available) as Hf.
  { split.
    - intros E c Hc. apply dec_stable. intros Hn. exact (filter_nil_not_elem_of _ _ _ E Hn Hc).
    - intros Hall. apply elem_of_nil_inv. intros c [Hn Hc]%list_elem_of_filter. by apply Hn, Hall. }
  rewrite <-Hf, <-!mem_false.
  destruct (mem (gs_alias s) aliases), (mem (gs_source_id s) ids), (filter _ _); simpl; naive_solver.
Qed.

Definition valid_from (available : list Capability) (st : compile_state)
    (sources : list GraphSource) : Prop :=
  valid_sources available sources ∧
  ∀ s, s ∈ sources → gs_alias s ∉ cst_aliases st ∧ gs_source_id s ∉ cst_source_ids st.

Lemma valid_from_cons available st s sources arts ds :
  valid_from available st (s :: sources) ↔
  gs_alias s ∉ cst_aliases st ∧ gs_source_id s ∉ cst_source_ids st ∧ source_ok available s ∧
  valid_from available (MkCompileState ds (gs_alias s :: cst_aliases st)
    (gs_source_id s :: cst_source_ids st) arts) sources.
Proof.
  unfold valid_from. cbn [cst_aliases cst_source_ids]. split.
  - intros [[Ha Hi Hs] Hfr]. apply NoDup_cons in Ha as [Ha1 Ha2], Hi as [Hi1 Hi2].
    apply Forall_cons in Hs as [Hs1 Hs2]. destruct (Hfr s) as [? ?]; [by left|].
    split_and!; [done..|by constructor|]. intros s' Hs'.
    destruct (Hfr s') as [? ?]; [by right|]. rewrite !not_elem_of_cons. split_and!; try done.
    + intros Heq. apply Ha1. apply list_elem_of_fmap. by exists s'.
    + intros Heq. apply Hi1. apply list_elem_of_fmap. by exists s'.
  - intros (H1 & H2 & Hs & [[Ha Hi Hall] Hfr]). split; [constructor|].
    + constructor; [|done]. intros (s' & Heq & Hs')%list_elem_of_fmap.
      destruct (Hfr s' Hs') as [Hn _]. apply Hn. rewrite Heq. by left.
    + constructor; [|done]. intros (s' & Heq & Hs')%list_elem_of_fmap.
      destruct (Hfr s' Hs') as [_ Hn]. apply Hn. rewrite Heq. by left.
    + by constructor.
    + intros s' [->|Hs']%elem_of_cons; [done|]. destruct (Hfr s' Hs') as [Hn1 Hn2].
      apply not_elem_of_cons in Hn1, Hn2. naive_solver.
Qed.

Lemma compile_sources_loop_spec sources available st :
  Forall (λ s, str_empty (alias_value (gs_alias s)) = false) sources →
  (∀ k, k ∈ dkeys (cst_artifacts st) → k.1 ∈ cst_aliases st) →
  ∃ st', compile_sources_loop sources available st = Ret st' ∧
    (cst_diagnostics st' = [] ↔ cst_diagnostics st = [] ∧ valid_from available st sources) ∧
    (cst_diagnostics st' = [] →
       cst_artifacts st' = cst_artifacts st ++ compiled_entries sources).
Proof.
  intros He. revert st. induction He as [|s sources He _ IH]; intros st Hinv;
    cbn [compile_sources_loop].
  { exists st. split_and!; [done| |by rewrite app_nil_r]. split; [|naive_solver]. intros Hd.
    split; [done|]. split; [by constructor; [constructor|constructor|]|by intros ? ?%elem_of_nil]. }
  set (ds := cst_diagnostics st ++ _).
  destruct (add_artifacts_spec s (gs_artifacts s) (cst_artifacts st) ds He)
    as (arts' & ds' & -> & Hk & Hiff & Harts). cbn [mbind py_bind fst snd].
  set (st1 := MkCompileState _ _ _ _).
  destruct (IH st1) as (st' & -> & Hst' & Hst'a).
  { intros k [Hk'|Hk']%Hk; cbn [cst_aliases st1]; [right; by apply Hinv|rewrite Hk'; by left]. }
  exists st'. split; [done|].
  assert (cst_diagnostics st' = [] ↔ cst_diagnostics st = [] ∧ valid_from available st (s :: sources))
    as E.
  { rewrite Hst'. cbn [cst_diagnostics st1].
    rewrite (valid_from_cons available st s sources arts' (ds ++ ds')).
    fold st1. unfold ds. split.
    - intros [[[Hd Hs%source_diagnostics_nil]%app_nil Hd']%app_nil Hv].
      apply Hiff in Hd' as (H1 & H2 & _). destruct Hs as (? & ? & ?).
      split_and!; [done..|by constructor|done].
    - intros (Hd & Ha & Hi & [Hc H1 H2] & Hv). split; [|done].
      rewrite Hd. apply app_nil. split; [by apply source_diagnostics_nil|]. apply Hiff.
      split_and!; [done..|]. intros a _ Hin%Hinv. done. }
  split; [done|]. intros Hd. rewrite (Hst'a Hd). apply Hst' in Hd as [Hd _].
  cbn [cst_diagnostics st1 cst_artifacts] in *. apply app_nil in Hd as [_ Hd].
  rewrite (Harts Hd). unfold compiled_entries. cbn [map concat]. by rewrite app_assoc.
Qed.
End sources.

(** * Declared collections *)

Section declared.

Definition declared_in (s : GraphSource) : list (CollectionCoordinate * CollectionManifest) :=
  map (λ m, (MkCollectionCoordinate (gs_alias s) (cm_name m), m)) (gs_collections s).
Definition declared (sources : list GraphSource) : list (CollectionCoordinate * CollectionManifest) :=
  concat (map declared_in sources).

(** The names the constructors accept. *)
Record named_source (s : GraphSource) : Prop := {
  ns_alias : str_empty (alias_value (gs_alias s)) = false;
  ns_names : ∀ m, m ∈ gs_collections s → str_empty (cm_name m) = false;
  ns_nested : ∀ m n, m ∈ gs_collections s → n ∈ cm_collections m → str_empty n = false
}.

Lemma collection_coordinate_ok alias name :
  str_empty (alias_value alias) = false → str_empty name = false →
  collection_coordinate alias name = Ret (MkCollectionCoordinate alias name).
Proof. intros Ha Hn. unfold collection_coordinate. by rewrite Ha, Hn. Qed.

Lemma collect_manifests_spec s ms man ds :
  named_source s → (∀ m, m ∈ ms → m ∈ gs_collections s) → NoDup (dkeys man) →
  let new := map (λ m, (MkCollectionCoordinate (gs_alias s) (cm_name m), m)) ms in
  ∃ man' ds', collect_manifests (gs_alias s) ms man ds = Ret (man', ds ++ ds') ∧
    NoDup (dkeys man') ∧ (ds' = [] ↔ NoDup (dkeys (man ++ new))) ∧ (ds' = [] → man' = man ++ new).
Proof.
  intros Hs. revert man ds. induction ms as [|m ms IH]; intros man ds Hms Hnd; cbn [collect_manifests].
  { exists man, []. rewrite !app_nil_r. done. }
  cbn zeta in IH |- *. rewrite collection_coordinate_ok
    by (apply (ns_alias _ Hs) || (apply (ns_names _ Hs), Hms; by left)).
  cbn [mbind py_bind map]. set (c := MkCollectionCoordinate _ (cm_name m)).
  assert (∀ x, x ∈ ms → x ∈ gs_collections s) as Hms' by (intros; apply Hms; by right).
  destruct (mem c (dkeys man)) eqn:Hc.
  - match goal with |- context [collect_manifests _ ms man ?e] =>
      destruct (IH man e Hms' Hnd) as (man' & ds' & -> & Hnd' & _ & _) end.
    eexists man', _. rewrite <-app_assoc. split_and!; [done|done| |done]. split; [done|].
    apply mem_true in Hc. unfold dkeys. rewrite fmap_app. intros (_ & Hd & _)%NoDup_app.
    exfalso. apply (Hd c Hc). by left.
  - apply mem_false in Hc. destruct (IH (dset c m man) ds Hms') as (man' & ds' & -> & Hnd' & Hiff & Hm).
    { by apply NoDup_dkeys_dset. }
    rewrite dset_fresh, <-app_assoc in Hiff, Hm by done. exists man', ds'. done.
Qed.

Lemma collect_all_manifests_spec sources man ds :
  Forall named_source sources → NoDup (dkeys man) →
  ∃ man' ds', collect_all_manifests sources man ds = Ret (man', ds ++ ds') ∧
    (ds' = [] ↔ NoDup (dkeys (man ++ declared sources))) ∧
    (ds' = [] → man' = man ++ declared sources).
Proof.
  intros Hs. revert man ds. induction Hs as [|s sources Hs _ IH]; intros man ds Hnd;
    cbn [collect_all_manifests].
  { exists man, []. unfold declared. cbn [map concat]. rewrite !app_nil_r. done. }
  destruct (collect_manifests_spec s (gs_collections s) man ds Hs ltac:(done) Hnd)
    as (man' & ds' & -> & Hnd' & Hiff & Hm). cbn [mbind py_bind fst snd].
  destruct (IH man' (ds ++ ds') Hnd') as (man'' & ds'' & -> & Hiff' & Hm').
  exists man'', (ds' ++ ds''). rewrite <-app_assoc.
  unfold declared in *. cbn [map concat]. fold (declared_in s) in Hiff, Hm. rewrite !(app_assoc man).
  assert (ds' ++ ds'' = [] ↔ NoDup (dkeys ((man ++ declared_in s) ++ concat (map declared_in sources))))
    as E.
  { split.
    - intros [Hd' Hd'']%app_nil. rewrite <-(Hm Hd'). by apply Hiff'.
    - intros Hall. assert (ds' = []) as Hd'.
      { apply Hiff. unfold dkeys in Hall. rewrite fmap_app in Hall. by apply NoDup_app in Hall as [? _]. }
      rewrite Hd'. apply Hiff'. by rewrite (Hm Hd'). }
  split; [done|]. split; [exact E|]. intros [Hd' Hd'']%app_nil. by rewrite (Hm' Hd''), (Hm Hd').
Qed.
End declared.

(** * History *)

(** A record may follow [old] under the same identity: its version does not
    regress, and under the same precedence nothing it publishes changes. *)
Record follows (old new : MarketplaceArtifact) : Prop := {
  fo_version : semver_lt (ia_version (ma_artifact new)) (ia_version (ma_artifact old)) = false;
  fo_same : same_precedence (ia_version (ma_artifact new)) (ia_version (ma_artifact old)) = true →
    ma_semantic_digest new = ma_semantic_digest old ∧
    ia_manifest_digest (ma_artifact new) = ia_manifest_digest (ma_artifact old) ∧
    ia_payload_digest (ma_artifact new) = ia_payload_digest (ma_artifact old) ∧
    ia_object_digest (ma_artifact new) = ia_object_digest (ma_artifact old)
}.

Lemma history_step_errors new old :
  (history_step new (Some old)).1 = [] ↔ follows old new.
Proof.
  unfold history_step. destruct (semver_lt _ _) eqn:Hlt.
  { split; [done|]. intros [Hv _]. congruence. }
  destruct (same_precedence _ _) eqn:Hs.
  - destruct (_ || _) eqn:E.
    + split; [done|]. intros [_ Hsame]. destruct (Hsame Hs) as (H1 & H2 & H3 & H4).
      by rewrite H1, H2, H3, H4, !bool_decide_true in E.
    + split; [|done]. intros _. split; [done|]. intros _.
      rewrite !orb_false_iff, !negb_false_iff, !bool_decide_eq_true in E. naive_solver.
  - case_bool_decide; (split; [|done]); intros _; (split; [done|congruence]).
Qed.

Definition prior_of (previous : MarketplaceGraph) : list (akey * MarketplaceArtifact) :=
  map (λ m, (ma_key m, m)) (mg_artifacts previous).

(** The record kept for a previous artifact that is gone. *)
Definition removed_entry (ko : akey * MarketplaceArtifact) : akey * MarketplaceArtifact :=
  (ko.1, with_lifecycle ko.2 REMOVED).
Definition gone (current : list (akey * MarketplaceArtifact))
    (prior : list (akey * MarketplaceArtifact)) : list (akey * MarketplaceArtifact) :=
  map removed_entry (filter (λ ko, ko.1 ∉ dkeys current) prior).

Lemma merge_gone current prior base :
  NoDup (dkeys prior) → (∀ k, k ∈ dkeys current → k ∈ dkeys base) →
  (∀ k, k ∈ dkeys prior → k ∈ dkeys base → k ∈ dkeys current) →
  foldl (λ merged ko, if mem ko.1 (dkeys current) then merged
                      else dset ko.1 (with_lifecycle ko.2 REMOVED) merged) base prior
  = base ++ gone current prior.
Proof.
  revert base. induction prior as [|[k o] prior IH]; intros base Hnd Hsub Hold.
  { unfold gone. simpl. by rewrite app_nil_r. }
  unfold dkeys in Hnd. rewrite fmap_cons in Hnd. apply NoDup_cons in Hnd as [Hk Hnd].
  cbn [foldl fst snd] in *. unfold gone. rewrite filter_cons. destruct (mem k (dkeys current)) eqn:E.
  - apply mem_true in E. rewrite decide_False by tauto. apply IH; [done..|].
    intros k' Hk'. apply Hold. unfold dkeys. rewrite fmap_cons. by right.
  - apply mem_false in E. rewrite decide_True by done.
    assert (k ∉ dkeys base) as Hkb.
    { intros Hb. apply E, Hold; [|done]. unfold dkeys. rewrite fmap_cons. by left. }
    rewrite IH; [| done | |].
    + rewrite dset_fresh by done. cbn [map]. by rewrite <-app_assoc.
    + intros k' Hk'. apply elem_of_dkeys_dset. right. by apply Hsub.
    + intros k' Hk' [->|Hb]%elem_of_dkeys_dset; [done|]. apply Hold; [|done].
      unfold dkeys. rewrite fmap_cons. by right.
Qed.

Lemma prior_keys previous : dkeys (prior_of previous) = map ma_key (mg_artifacts previous).
Proof. unfold dkeys, prior_of. change (@fmap list _ _ _ fst) with (map (@fst akey MarketplaceArtifact)). by rewrite map_map. Qed.

Lemma concat_fst_nil {A B X} (f : X → list A * list B) (xs : list X) :
  concat (map f xs).*1 = [] ↔ ∀ x, x ∈ xs → (f x).1 = [].
Proof.
  change ((map f xs).*1) with (map fst (map f xs)). rewrite map_map, concat_eq_nil, Forall_map, Forall_forall.
  done.
Qed.

(** What [history] decides and returns. *)
Lemma history_spec current previous :
  NoDup (dkeys current) → NoDup (map ma_key (mg_artifacts previous)) →
  match history current (Some previous) with
  | Ok (arts, ds) =>
      (∀ k new old, (k, new) ∈ current → old ∈ mg_artifacts previous → ma_key old = k →
         follows old new) ∧
      arts = dvalues (current ++ gone current (prior_of previous))
  | Err ds => ds ≠ [] ∧ ∃ k new old, (k, new) ∈ current ∧ old ∈ mg_artifacts previous ∧
                ma_key old = k ∧ ¬ follows old new
  end.
Proof.
  intros Hc Hp. unfold history. fold (prior_of previous). rewrite <-prior_keys in Hp.
  rewrite dict_of_fresh by done. set (prior := prior_of previous) in *.
  assert (∀ k old, dget k prior = Some old ↔ old ∈ mg_artifacts previous ∧ ma_key old = k) as Hget.
  { intros k old. split.
    - intros Hin%dget_elem_of. unfold prior, prior_of in Hin.
      apply list_elem_of_fmap in Hin as (m & [= -> ->] & Hm). done.
    - intros [Hin <-]. apply elem_of_dget; [done|]. apply list_elem_of_fmap. by exists old. }
  set (step := λ ka : akey * MarketplaceArtifact, history_step ka.2 (dget ka.1 prior)) in *.
  pose proof (concat_fst_nil step current) as Herr.
  destruct (concat (map step current).*1) as [|d ds] eqn:E.
  - rewrite merge_gone by done. split; [|done]. intros k new old Hin Hold Hk.
    pose proof (proj1 Herr eq_refl (k, new) Hin) as Hs. unfold step in Hs. cbn [fst snd] in Hs.
    rewrite (proj2 (Hget k old) (conj Hold Hk)) in Hs. by apply history_step_errors in Hs.
  - split.
    { intros Hn%sorted_nil_iff%sorted_nil_iff. done. }
    assert (d ∈ concat (map step current).*1) as Hd by (rewrite E; by left).
    apply list_elem_of_In, in_concat in Hd as (l & Hl & Hd). apply list_elem_of_In in Hl.
    apply list_elem_of_fmap in Hl as (pair & -> & Hpair).
    apply list_elem_of_fmap in Hpair as ([k new] & -> & Hin). unfold step in Hd. cbn [fst snd] in Hd.
    destruct (dget k prior) as [old|] eqn:Hg; [|done]. apply Hget in Hg as [Hold Hk].
    exists k, new, old. split_and!; [done..|]. intros Hf%history_step_errors. by rewrite Hf in Hd.
Qed.

(** * Compiling the graph *)

Section compile.
Context `{SetOrder}.

Lemma compiled_entries_elem sources k a :
  (k, a) ∈ compiled_entries sources ↔
  ∃ s i, s ∈ sources ∧ i ∈ gs_artifacts s ∧ (k, a) = compiled_entry s i.
Proof.
  unfold compiled_entries. rewrite list_elem_of_In, in_concat. split.
  - intros (l & (s & <- & Hs)%in_map_iff & (i & Hi & Hin)%in_map_iff).
    exists s, i. rewrite !list_elem_of_In. done.
  - intros (s & i & Hs & Hi & ->). apply list_elem_of_In in Hs, Hi.
    eexists. split; [by apply in_map_iff; eexists|]. apply in_map_iff. by eexists.
Qed.

Lemma compiled_entries_key sources k a : (k, a) ∈ compiled_entries sources → ma_key a = k.
Proof. intros (s & i & _ & _ & [= -> ->])%compiled_entries_elem. done. Qed.

Lemma compiled_entries_NoDup available sources :
  valid_sources available sources → NoDup (dkeys (compiled_entries sources)).
Proof.
  intros [Ha _ Hs]. unfold dkeys, compiled_entries. induction sources as [|s sources IH]; [constructor|].
  cbn [map concat] in *. rewrite fmap_app. apply NoDup_cons in Ha as [Ha1 Ha2].
  apply Forall_cons in Hs as [Hs1 Hs2]. apply NoDup_app. split_and!; [| |by apply IH].
  - change ((map (compiled_entry s) (gs_artifacts s)).*1)
      with (map fst (map (compiled_entry s) (gs_artifacts s))). rewrite map_map. cbn [fst compiled_entry].
    pose proof (so_identities _ _ Hs1) as Hnd.
    assert (map (λ x, artifact_key (gs_alias s) (ia_identity x)) (gs_artifacts s)
            = artifact_key (gs_alias s) <$> map ia_identity (gs_artifacts s)) as ->.
    { change (artifact_key (gs_alias s) <$> map ia_identity (gs_artifacts s))
        with (map (artifact_key (gs_alias s)) (map ia_identity (gs_artifacts s))).
      by rewrite map_map. }
    apply NoDup_fmap_2; [|done]. intros x y. by intros [= ->].
  - intros k ([k1 a1] & -> & H1)%list_elem_of_fmap ([k2 a2] & Heq & H2)%list_elem_of_fmap.
    cbn [fst] in Heq. subst k2. apply list_elem_of_fmap in H1 as (i & [= -> ->] & _).
    apply compiled_entries_elem in H2 as (s' & i' & Hs' & _ & [= Heq _ _]).
    apply Ha1. apply list_elem_of_fmap. by exists s'.
Qed.

(** The ordered sources, as [compile_marketplace_graph] reads them. *)
Definition ordered_sources (sources : list GraphSource) : list GraphSource :=
  sorted (λ s, alias_value (gs_alias s)) sources.

(** Sources that make up a graph: valid sources, no collection declared
    twice, and every collection well formed. *)
Record graph_input_ok (available : list Capability) (sources : list GraphSource) : Prop := {
  gi_sources : valid_sources available sources;
  gi_collections : NoDup (dkeys (declared sources));
  gi_well_formed c : c ∈ dkeys (declared sources) →
    well_formed (declared sources) (compiled_entries sources) c
}.

(** Every compiled artifact follows its previous record. *)
Definition history_fits (sources : list GraphSource) (previous : option MarketplaceGraph) : Prop :=
  ∀ p k new old, previous = Some p → (k, new) ∈ compiled_entries sources →
    old ∈ mg_artifacts p → ma_key old = k → follows old new.

Definition wf_previous (previous : option MarketplaceGraph) : Prop :=
  match previous with None => True | Some p => NoDup (map ma_key (mg_artifacts p)) end.

(** The previous records that are no longer compiled. *)
Definition kept_entries (sources : list GraphSource) (previous : option MarketplaceGraph) :
    list (akey * MarketplaceArtifact) :=
  match previous with
  | None => []
  | Some p => gone (compiled_entries sources) (prior_of p)
  end.

Lemma history_post available sources previous :
  valid_sources available sources → wf_previous previous →
  match history (compiled_entries sources) previous with
  | Ok (arts, ds) => history_fits sources previous ∧
                     arts = dvalues (compiled_entries sources ++ kept_entries sources previous)
  | Err ds => ds ≠ [] ∧ ¬ history_fits sources previous
  end.
Proof.
  intros Hv Hp. destruct previous as [p|].
  - pose proof (history_spec (compiled_entries sources) p (compiled_entries_NoDup _ _ Hv) Hp) as Hs.
    destruct (history _ _) as [[arts ds]|ds]; destruct Hs as [Hs1 Hs2].
    + split; [|done]. intros p' k new old [= <-]. apply Hs1.
    + split; [done|]. destruct Hs2 as (k & new & old & H1 & H2 & H3 & Hn). intros Hf.
      by eapply Hn, Hf.
  - simpl. rewrite app_nil_r. split; [|done]. by intros ? ? ? ? [=].
Qed.

Lemma kept_keys available sources previous :
  valid_sources available sources → wf_previous previous →
  NoDup (map ma_key (dvalues (compiled_entries sources ++ kept_entries sources previous))).
Proof.
  intros Hv Hp.
  assert (∀ l : list (akey * MarketplaceArtifact), (∀ k a, (k, a) ∈ l → ma_key a = k) →
    map ma_key (dvalues l) = dkeys l) as Hkeys.
  { intros l Hl. unfold dvalues, dkeys. change (map ma_key l.*2) with (ma_key <$> l.*2).
    rewrite <-list_fmap_compose. apply list_fmap_ext. intros i [k a] Hi. simpl.
    by apply Hl, list_elem_of_lookup_2 with i. }
  rewrite Hkeys.
  - unfold dkeys. rewrite fmap_app. apply NoDup_app. split_and!; [by eapply compiled_entries_NoDup| |].
    + destruct previous as [p|]; [|by intros ? _ ?%elem_of_nil].
      intros k Hk (ko & -> & Hko)%list_elem_of_fmap. unfold kept_entries, gone in Hko.
      apply list_elem_of_fmap in Hko as (ko' & -> & [Hn _]%list_elem_of_filter). done.
    + destruct previous as [p|]; [|constructor]. unfold kept_entries, gone.
      change ((map removed_entry ?l).*1) with (map fst (map removed_entry l)). rewrite map_map.
      change (NoDup ((filter (λ ko, ko.1 ∉ dkeys (compiled_entries sources)) (prior_of p)).*1)).
      eapply sublist_NoDup; [|apply fmap_sublist, sublist_filter].
      change (NoDup (dkeys (prior_of p))). by rewrite prior_keys.
  - intros k a [Hin|Hin]%elem_of_app; [by eapply compiled_entries_key|].
    destruct previous as [p|]; [|by apply elem_of_nil in Hin]. unfold kept_entries, gone in Hin.
    apply list_elem_of_fmap in Hin as ([k' o] & [= -> ->] & [_ Hin]%list_elem_of_filter).
    unfold prior_of in Hin. by apply list_elem_of_fmap in Hin as (m & [= -> ->] & _).
Qed.

(** What [compile_collections] decides, given the compiled artifacts. *)
Lemma compile_collections_spec sources :
  Forall named_source sources →
  let D := declared sources in let E := compiled_entries sources in
  NoDup (dkeys E) →
  match compile_collections sources E with
  | Ret (Ok cs) =>
      NoDup (dkeys D) ∧ Forall2 (compiled_collection D E) (sorted collection_key (dkeys D)) cs
  | Ret (Err ds) => ds ≠ [] ∧ ¬ (NoDup (dkeys D) ∧ ∀ c, c ∈ dkeys D → well_formed D E c)
  | Raise _ => False
  end.
Proof.
  intros Hn D E Hnd. unfold compile_collections.
  destruct (collect_all_manifests_spec sources [] [] Hn ltac:(constructor))
    as (man & ds & -> & Hiff & Hman). cbn [mbind py_bind fst snd app] in *.
  destruct ds as [|d ds].
  2:{ split; [intros Hs%sorted_nil_iff%sorted_nil_iff; done|]. intros [Hd _].
      by apply Hiff in Hd. }
  rewrite (Hman eq_refl). fold D. assert (NoDup (dkeys D)) as HD by by apply Hiff.
  assert (∀ k a, dget k E = Some a → ma_key a = k) as Hkeyed
    by (intros k a Hg%dget_elem_of; by eapply compiled_entries_key).
  pose proof (compile_loop_spec D E Hkeyed (sorted collection_key (dkeys D)) []) as Hloop.
  ospecialize* Hloop; [by intros c ms|].
  destruct (compile_loop _ _ _ _) as [cs|ds|e|]; cbn [walk_result].
  - done.
  - destruct Hloop as (Hd & c & Hc & Hwf). split; [done|]. intros [_ Hall].
    by apply Hwf, Hall, (elem_of_sorted collection_key).
  - destruct Hloop as (c & c' & Hc & Hr & Hv). apply Hv. clear Hv.
    apply elem_of_sorted in Hc. rewrite Forall_forall in Hn.
    assert (∀ k m, (k, m) ∈ D → ∃ s, named_source s ∧ m ∈ gs_collections s ∧
              k = MkCollectionCoordinate (gs_alias s) (cm_name m)) as Hkey.
    { intros k m Hin. unfold D, declared in Hin.
      apply list_elem_of_In, in_concat in Hin as (l & Hl & Hin).
      apply in_map_iff in Hl as (s & <- & Hs). apply in_map_iff in Hin as (m' & [= <- <-] & Hm).
      apply list_elem_of_In in Hs, Hm. exists s. split_and!; [by apply Hn|done|done]. }
    set (Q := λ x, str_empty (alias_value (cc_source x)) = false ∧ valid_coordinate x).
    assert (∀ x y, Q x → refers D x y → Q y) as Hstep.
    { intros x y [Ha _] (m & name & Hm & Hname & ->). split; [done|].
      apply dget_elem_of, Hkey in Hm as (s & Hs & Hm & ->).
      apply collection_coordinate_ok; [done|]. by eapply ns_nested. }
    enough (Q c') as [_ Hvc] by exact Hvc. assert (Q c) as Hq.
    { apply list_elem_of_fmap in Hc as ([k m] & -> & (s & Hs & Hm & ->)%Hkey). split; [apply Hs|].
      apply collection_coordinate_ok; [apply Hs|by eapply ns_names]. }
    clear -Hr Hq Hstep. induction Hr as [|x y z Hxy _ IH]; [done|]. apply IH. by eapply Hstep.
  - done.
Qed.

Lemma compiled_coordinates D E cs l :
  Forall2 (compiled_collection D E) l cs → map mc_coordinate cs = l.
Proof. induction 1 as [|c x l cs (<- & _) _ IH]; [done|]. simpl. by rewrite IH. Qed.

(** Everything [compile_marketplace_graph] decides and returns. *)
Lemma compile_spec sources available previous :
  Forall named_source sources → wf_previous previous →
  let ordered := ordered_sources sources in
  match compile_marketplace_graph sources available previous with
  | Ret (Ok g) =>
      graph_input_ok available ordered ∧ history_fits ordered previous ∧
      mg_artifacts g ≡ₚ dvalues (compiled_entries ordered ++ kept_entries ordered previous) ∧
      ∃ cs, mg_collections g ≡ₚ cs ∧
        Forall2 (compiled_collection (declared ordered) (compiled_entries ordered))
          (sorted collection_key (dkeys (declared ordered))) cs
  | Ret (Err ds) => ds ≠ [] ∧ ¬ (graph_input_ok available ordered ∧ history_fits ordered previous)
  | Raise _ => False
  end.
Proof.
  intros Hn Hp ordered. unfold compile_marketplace_graph. fold (ordered_sources sources).
  fold ordered. assert (Forall named_source ordered) as Hno
    by (unfold ordered, ordered_sources; by rewrite sorted_perm).
  destruct (compile_sources_loop_spec ordered available (MkCompileState [] [] [] []))
    as (st & -> & Hiff & Harts).
  { eapply Forall_impl; [exact Hno|]. intros s Hs. apply Hs. }
  { intros k Hk. by apply elem_of_nil in Hk. }
  cbn [mbind py_bind cst_diagnostics cst_artifacts app] in *.
  destruct (cst_diagnostics st) as [|d ds].
  2:{ split; [intros Hs%sorted_nil_iff%sorted_nil_iff; done|]. intros [[Hv _ _] _].
      assert (d :: ds = []) as ?; [|done]. apply Hiff. split; [done|]. split; [done|].
      intros s _. split; by intros ?%elem_of_nil. }
  destruct (proj1 Hiff eq_refl) as [_ [Hv _]]. rewrite (Harts eq_refl).
  pose proof (compile_collections_spec ordered Hno (compiled_entries_NoDup _ _ Hv)) as Hc.
  cbn zeta in Hc. destruct (compile_collections _ _) as [[cs|ds]|e]; [| |done]; cbn [mbind py_bind].
  2:{ destruct Hc as [Hd Hbad]. split; [done|]. intros [[_ H1 H2] _]. apply Hbad. by split. }
  destruct Hc as [HD Hcs].
  assert (graph_input_ok available ordered) as Hok.
  { constructor; [done|done|]. intros c Hc. apply (elem_of_sorted collection_key) in Hc.
    apply list_elem_of_lookup in Hc as [i Hi].
    by destruct (Forall2_lookup_l _ _ _ _ _ Hcs Hi) as (x & _ & _ & Hwf & _). }
  pose proof (history_post available ordered previous Hv Hp) as Hh.
  destruct (history _ _) as [[arts diags]|ds].
  2:{ destruct Hh as [Hd Hbad]. split; [done|]. by intros [_ ?]. }
  destruct Hh as [Hfit ->]. unfold marketplace_graph.
  pose proof (kept_keys available ordered previous Hv Hp) as Hk.
  apply has_dups_false in Hk. rewrite Hk. cbn [raise_if mbind py_bind].
  assert (has_dups (map mc_coordinate cs) = false) as ->.
  { apply has_dups_false. rewrite (compiled_coordinates _ _ _ _ Hcs). by rewrite sorted_perm. }
  cbn [raise_if mbind py_bind mg_artifacts mg_collections].
  split_and!; [done|done|apply sorted_perm|]. exists cs. split; [apply sorted_perm|done].
Qed.

Lemma semver_lt_irrefl v : semver_lt v v = false.
Proof. rewrite semver_lt_key. apply plt_irrefl. Qed.

Lemma same_precedence_refl v : same_precedence v v = true.
Proof. unfold same_precedence. by rewrite !bool_decide_true. Qed.

Lemma history_step_same m : history_step m (Some m) = ([], []).
Proof.
  unfold history_step. rewrite semver_lt_irrefl, same_precedence_refl, !bool_decide_true by done. done.
Qed.

(** Against a graph with exactly the current records, history adds nothing. *)
Lemma history_unchanged current g :
  NoDup (dkeys current) → (∀ k a, (k, a) ∈ current → ma_key a = k) →
  mg_artifacts g ≡ₚ dvalues current → history current (Some g) = Ok (dvalues current, []).
Proof.
  intros Hnd Hkeys Hg. unfold history. fold (prior_of g).
  assert (prior_of g ≡ₚ current) as Hpr.
  { unfold prior_of. change (map (λ m, (ma_key m, m)) (mg_artifacts g))
      with ((λ m, (ma_key m, m)) <$> mg_artifacts g). rewrite Hg. unfold dvalues.
    rewrite <-list_fmap_compose. rewrite <-(list_fmap_id current) at 2.
    apply reflexive_eq, list_fmap_ext. intros i [k a] Hi. simpl.
    by rewrite (Hkeys k a) by (by eapply list_elem_of_lookup_2). }
  assert (NoDup (dkeys (prior_of g))) as Hndp by (unfold dkeys in *; by rewrite Hpr).
  rewrite dict_of_fresh by done.
  assert (map (λ ka : akey * MarketplaceArtifact, history_step ka.2 (dget ka.1 (prior_of g))) current
          = map (λ _, ([], [])) current) as ->.
  { apply map_ext_in. intros [k a] Hin%list_elem_of_In. cbn [fst snd].
    rewrite (elem_of_dget k a (prior_of g)) by (done || by rewrite Hpr). apply history_step_same. }
  assert (∀ l : list (akey * MarketplaceArtifact),
    concat (map (λ _, ([] : list Diagnostic, [] : list Diagnostic)) l).*1 = [] ∧
    concat (map (λ _, ([] : list Diagnostic, [] : list Diagnostic)) l).*2 = []) as Hnil
    by (induction l as [|x l [IH1 IH2]]; [done|by split]).
  destruct (Hnil current) as [-> ->]. f_equal. f_equal. f_equal.
  rewrite merge_gone by done. unfold gone.
  assert (filter (λ ko, ko.1 ∉ dkeys current) (prior_of g) = []) as ->; [|by rewrite app_nil_r].
  apply elem_of_nil_inv. intros [k a] [Hk Hin]%list_elem_of_filter. rewrite Hpr in Hin.
  apply Hk. apply list_elem_of_fmap. by exists (k, a).
Qed.
End compile.

(** * Theorems on compilation *)

Section theorems.
Context `{SetOrder}.

(** C24: on sources and collections with non-empty names the graph compiler
    always returns.  It accepts exactly the inputs whose sources are distinct,
    supported and own their artifacts, whose collections are declared once,
    resolve and have no cycle, and whose records follow the previous graph;
    on every other input it returns diagnostics. *)
Theorem compile_marketplace_graph_accepts sources available previous :
  Forall named_source sources → wf_previous previous →
  ∃ r, compile_marketplace_graph sources available previous = Ret r ∧ wf_result r ∧
    (is_ok r = true ↔ graph_input_ok available (ordered_sources sources) ∧
                      history_fits (ordered_sources sources) previous).
Proof.
  intros Hn Hp. pose proof (compile_spec sources available previous Hn Hp) as Hs. cbn zeta in Hs.
  destruct (compile_marketplace_graph _ _ _) as [[g|ds]|e]; [| |done];
    (eexists; split; [done|]); simpl; naive_solver.
Qed.

(** C25: in a compiled graph a collection has exactly the artifacts listed by
    the collections reachable from it, each of them an available artifact of
    the graph; no collection reaches itself, and every declared collection is
    there once. *)
Theorem compiled_collections_exact sources available previous g :
  Forall named_source sources → wf_previous previous →
  compile_marketplace_graph sources available previous = Ret (Ok g) →
  let ordered := ordered_sources sources in
  let D := declared ordered in let E := compiled_entries ordered in
  map mc_coordinate (mg_collections g) ≡ₚ dkeys D ∧
  ∀ x, x ∈ mg_collections g →
    ¬ tc (refers D) (mc_coordinate x) (mc_coordinate x) ∧
    (∀ m, m ∈ mc_members x ↔ member D E (mc_coordinate x) m) ∧
    (∀ m, m ∈ mc_members x →
       ∃ a, a ∈ mg_artifacts g ∧ ma_coordinate a = m ∧ ma_lifecycle a = AVAILABLE).
Proof.
  intros Hn Hp Hc ordered D E. pose proof (compile_spec sources available previous Hn Hp) as Hs.
  rewrite Hc in Hs. destruct Hs as (_ & _ & Hart & cs & Hg & Hcs). fold ordered D E in Hart, Hcs.
  assert (∀ k a, dget k E = Some a → ma_key a = k) as Hkeyed
    by (intros k a Hk%dget_elem_of; by eapply compiled_entries_key).
  split.
  { change (mc_coordinate <$> mg_collections g ≡ₚ dkeys D). rewrite Hg.
    change (map mc_coordinate cs ≡ₚ dkeys D). rewrite (compiled_coordinates _ _ _ _ Hcs).
    apply sorted_perm. }
  intros x Hx. rewrite Hg in Hx. apply list_elem_of_lookup in Hx as [i Hi].
  destruct (Forall2_lookup_r _ _ _ _ _ Hcs Hi) as (c & _ & Hxc & [Hacc _] & Hm). subst c.
  split_and!; [by apply acc_no_cycle|done|]. intros m Hin%Hm.
  destruct (member_key D E Hkeyed _ _ Hin) as (a & Ha & ->). exists a.
  apply dget_elem_of in Ha. split_and!; [|done|].
  - rewrite Hart. unfold dvalues. rewrite fmap_app. apply elem_of_app; left.
    apply list_elem_of_fmap. by exists (coordinate_key (ma_coordinate a), a).
  - apply compiled_entries_elem in Ha as (s & j & _ & _ & Ha). apply (f_equal snd) in Ha.
    cbn [snd compiled_entry] in Ha. by rewrite Ha.
Qed.

(** The artifacts of a compiled graph are the normalised artifacts of the
    sources, available, and the records of the previous graph under every
    other identity, marked removed; no identity occurs twice, and a record
    that replaces a previous one follows it. *)
Theorem compiled_artifacts_exact sources available previous g :
  Forall named_source sources → wf_previous previous →
  compile_marketplace_graph sources available previous = Ret (Ok g) →
  let E := compiled_entries (ordered_sources sources) in
  mg_artifacts g ≡ₚ dvalues E ++ dvalues (kept_entries (ordered_sources sources) previous) ∧
  NoDup (map ma_key (mg_artifacts g)) ∧
  (∀ p old new, previous = Some p → old ∈ mg_artifacts p → new ∈ mg_artifacts g →
     ma_key new = ma_key old → follows old new ∨ new = with_lifecycle old REMOVED).
Proof.
  intros Hn Hp Hc E. pose proof (compile_spec sources available previous Hn Hp) as Hs.
  rewrite Hc in Hs. destruct Hs as ([Hv _ _] & Hfit & Hart & _). fold E in Hart.
  assert (∀ k a, (k, a) ∈ E → ma_key a = k) as Hkeyed by (intros; by eapply compiled_entries_key).
  split_and!.
  - rewrite Hart. unfold dvalues. by rewrite fmap_app.
  - change (NoDup (ma_key <$> mg_artifacts g)). rewrite Hart. by eapply kept_keys.
  - intros p old new -> Hold Hnew Hk. rewrite Hart in Hnew.
    apply list_elem_of_fmap in Hnew as ([k a] & -> & [Hin|Hin]%elem_of_app); cbn [snd] in *.
    + left. eapply Hfit; [done|exact Hin|done|]. rewrite <-Hk. by apply Hkeyed.
    + right. unfold kept_entries, gone in Hin.
      apply list_elem_of_fmap in Hin as ([k' o] & [= -> ->] & [_ Hin]%list_elem_of_filter).
      unfold prior_of in Hin. apply list_elem_of_fmap in Hin as (o' & [= -> ->] & Ho).
      cbn [snd] in Hk |- *. f_equal. change (ma_key (with_lifecycle o' REMOVED)) with (ma_key o') in Hk.
      simpl in Hp. apply list_elem_of_lookup in Ho as [i Hi], Hold as [j Hj].
      assert (i = j) as ->; [|congruence]. eapply NoDup_lookup; [exact Hp| |].
      * change (map ma_key (mg_artifacts p)) with (ma_key <$> mg_artifacts p).
        by rewrite list_lookup_fmap, Hi.
      * change (map ma_key (mg_artifacts p)) with (ma_key <$> mg_artifacts p).
        rewrite list_lookup_fmap, Hj. simpl. by rewrite Hk.
Qed.

(** The order in which the sources are given does not matter. *)
Theorem compile_order_independent sources sources' available previous :
  NoDup (map gs_alias sources) → sources ≡ₚ sources' →
  compile_marketplace_graph sources available previous
  = compile_marketplace_graph sources' available previous.
Proof.
  intros Hnd Hp. unfold compile_marketplace_graph. rewrite (sorted_unique _ sources sources'); try done.
  intros x y Hx Hy Hk. apply list_elem_of_lookup in Hx as [i Hi], Hy as [j Hj].
  assert (i = j) as ->; [|congruence]. eapply NoDup_lookup; [exact Hnd| |].
  - change (map gs_alias sources) with (gs_alias <$> sources). by rewrite list_lookup_fmap, Hi.
  - change (map gs_alias sources) with (gs_alias <$> sources). rewrite list_lookup_fmap, Hj. simpl.
    f_equal. destruct (gs_alias x), (gs_alias y). simpl in Hk. by rewrite Hk.
Qed.

(** Compiling unchanged sources against the graph they compiled to gives
    that graph again, without diagnostics. *)
Theorem recompile_unchanged sources available g :
  Forall named_source sources →
  compile_marketplace_graph sources available None = Ret (Ok g) →
  compile_marketplace_graph sources available (Some g) = Ret (Ok g).
Proof.
  intros Hn Hc. pose proof (compile_spec sources available None Hn I) as Hs.
  rewrite Hc in Hs. destruct Hs as ([Hv _ _] & _ & Hart & _).
  assert (Forall (λ s, str_empty (alias_value (gs_alias s)) = false) (ordered_sources sources)) as Ha.
  { unfold ordered_sources. rewrite sorted_perm. eapply Forall_impl; [exact Hn|]. intros s Hs. apply Hs. }
  revert Hc. unfold compile_marketplace_graph. fold (ordered_sources sources).
  destruct (compile_sources_loop_spec (ordered_sources sources) available
    (MkCompileState [] [] [] []) Ha) as (st & -> & _ & Harts);
    [intros k Hk; by apply elem_of_nil in Hk|].
  cbn [mbind py_bind cst_diagnostics cst_artifacts app] in *.
  destruct (cst_diagnostics st) as [|d ds]; [|done]. rewrite (Harts eq_refl).
  destruct (compile_collections _ _) as [[cs|ds]|e]; cbn [mbind py_bind]; [|done..].
  rewrite history_unchanged; [done| | |].
  - by eapply compiled_entries_NoDup.
  - intros k a. apply compiled_entries_key.
  - rewrite Hart. unfold kept_entries. by rewrite app_nil_r.
Qed.
End theorems.

(** * A concrete graph *)

Section sample.
Definition sample_object : ObjectDigest := sha256_bytes "object".
Definition sample_index_artifact (source : string) (kind : ArtifactKind) (name : string) :
    IndexArtifact :=
  MkIndexArtifact (MkSourceId source) (MkIdentity kind name) (MkSemVer 1 2 0 [] []) "a summary"
    sample_object sample_object sample_object
    (MkCompatibilitySpec ["claude"] ["linux"; "macos"])
    (MkInstallSpec ["project"] ["copy"] ["write-file"]) None None None [] no_bounds [].
Definition sample_manifest (name : string) (names nested : list string) : CollectionManifest :=
  MkCollectionManifest 1 name "a collection"
    (map (λ n, MkSelector (MkIdentity Guideline n) None) names) nested [].
Definition sample_source (alias : string) : GraphSource :=
  MkGraphSource (MkAlias alias) (MkSourceId alias) []
    [sample_index_artifact alias Guideline "a"; sample_index_artifact alias Guideline "b"]
    [sample_manifest "all" ["b"] ["base"]; sample_manifest "base" ["a"] []].
Definition sample_sources : list GraphSource := [sample_source "team"; sample_source "org"].
Definition sample_graph : MarketplaceGraph :=
  ok_or (MkGraph [] [] [])
    (ret_or (Err []) (@compile_marketplace_graph insertion_order sample_sources [] None)).

Lemma sample_sources_named : Forall named_source sample_sources.
Proof.
  assert (∀ alias, str_empty alias = false → named_source (sample_source alias)) as Hs.
  { intros alias Ha. constructor; [done| |]; cbn; [intros m|intros m n];
      rewrite !elem_of_cons, elem_of_nil; intros [->|[->|[]]]; try done; cbn;
      rewrite ?elem_of_cons, elem_of_nil; naive_solver. }
  apply Forall_cons_2; [by apply Hs|]. apply Forall_cons_2; [by apply Hs|]. apply Forall_nil_2.
Qed.

Lemma sample_graph_eq :
  @compile_marketplace_graph insertion_order sample_sources [] None = Ret (Ok sample_graph).
Proof. vm_compute. reflexivity. Qed.

Lemma sample_graph_members :
  map (λ c, (cc_name (mc_coordinate c), map (λ m, id_name (co_artifact m)) (mc_members c)))
    (mg_collections sample_graph)
  = [("all", ["a"; "b"]); ("base", ["a"]); ("all", ["a"; "b"]); ("base", ["a"])].
Proof. vm_compute. reflexivity. Qed.
End sample.

Lemma compile_marketplace_graph_accepts_witness :
  ∃ r, @compile_marketplace_graph insertion_order sample_sources [] None = Ret r ∧ wf_result r ∧
    (is_ok r = true ↔ @graph_input_ok insertion_order [] (ordered_sources sample_sources) ∧
                      @history_fits insertion_order (ordered_sources sample_sources) None).
Proof.
  exact (@compile_marketplace_graph_accepts insertion_order sample_sources [] None
           sample_sources_named I).
Defined.

Lemma compiled_collections_exact_witness :
  let D := declared (ordered_sources sample_sources) in
  map mc_coordinate (mg_collections sample_graph) ≡ₚ dkeys D.
Proof.
  exact (proj1 (@compiled_collections_exact insertion_order sample_sources [] None sample_graph
           sample_sources_named I sample_graph_eq)).
Defined.

Lemma compiled_artifacts_exact_witness :
  NoDup (map ma_key (mg_artifacts sample_graph)).
Proof.
  exact (proj1 (proj2 (@compiled_artifacts_exact insertion_order sample_sources [] None sample_graph
           sample_sources_named I sample_graph_eq))).
Defined.

Lemma compile_order_independent_witness :
  @compile_marketplace_graph insertion_order sample_sources [] None
  = @compile_marketplace_graph insertion_order (rev sample_sources) [] None.
Proof.
  apply (@compile_order_independent insertion_order sample_sources (rev sample_sources) [] None).
  - by apply (bool_decide_unpack _); vm_compute.
  - apply Permutation_rev.
Defined.

Lemma recompile_unchanged_witness :
  @compile_marketplace_graph insertion_order sample_sources [] (Some sample_graph)
  = Ret (Ok sample_graph).
Proof.
  exact (@recompile_unchanged insertion_order sample_sources [] sample_graph
           sample_sources_named sample_graph_eq).
Defined.
