(* ===== verification/Selection.v ===== *)
(** Compatibility and selection over a compiled graph ([compiler/graph.py]:
    [evaluate_compatibility], [select_artifacts]): what is selected, what is
    skipped and what is refused. *)
From S2P Require Import Prelude PyText Domain SemVer Protocol Graph GraphSpec.

(** * Compatibility *)

(** The conditions under which a payload may be installed on a target. *)
Record payload_fits (m : MarketplaceArtifact) (t : CompatibilityTarget) : Prop := {
  pf_aart : allows (ia_requires_aart (ma_artifact m)) (ct_aart_version t) = true;
  pf_available : ma_lifecycle m = AVAILABLE;
  pf_profile : ct_profile t ∈ cs_profiles (ia_compatibility (ma_artifact m));
  pf_platform : ct_platform t ∈ cs_platforms (ia_compatibility (ma_artifact m));
  pf_scope : ct_scope t ∈ is_scopes (ia_install (ma_artifact m));
  pf_mode : ct_mode t ∈ is_modes (ia_install (ma_artifact m));
  pf_effects e : e ∈ is_effects (ia_install (ma_artifact m)) → e ∈ ct_effects t
}.

(** The conditions under which its setup may run. *)
Definition setup_fits (m : MarketplaceArtifact) (t : CompatibilityTarget) : Prop :=
  ∀ setup, ia_setup (ma_artifact m) = Some setup →
    ct_platform t ∈ ix_platforms setup ∧
    ∀ c, c ∈ ix_capabilities setup → c ∈ ct_setup_capabilities t.

Definition fits (m : MarketplaceArtifact) (t : CompatibilityTarget) : Prop :=
  payload_fits m t ∧ (ct_require_setup t = true → setup_fits m t).

Lemma filter_negb_nil {A} (p : A → bool) l :
  List.filter (λ x, negb (p x)) l = [] ↔ ∀ x, x ∈ l → p x = true.
Proof.
  induction l as [|x l IH]; simpl; [by split; [intros _ ? ?%elem_of_nil|]|].
  setoid_rewrite elem_of_cons. destruct (p x) eqn:E; simpl; [rewrite IH; naive_solver|].
  split; [done|]. intros Hall. specialize (Hall x (or_introl eq_refl)). congruence.
Qed.

Section compatibility.
Context `{UnicodeData}.

Lemma payload_reasons_nil m t : payload_reasons m t = [] ↔ payload_fits m t.
Proof.
  unfold payload_reasons, unsupported.
  rewrite !app_nil_iff, !if_none_nil, !mem_true, map_nil_iff, filter_negb_nil.
  assert ((if bool_decide (ma_lifecycle m = REMOVED)
           then [MkReason "artifact-removed" "artifact was removed from its source"] else []) = []
          ↔ ma_lifecycle m = AVAILABLE) as ->.
  { by case_bool_decide; destruct (ma_lifecycle m). }
  setoid_rewrite mem_true. split; [intros; by constructor; naive_solver|]. by intros [].
Qed.

Lemma setup_reasons_nil m t : setup_reasons m t = [] ↔ setup_fits m t.
Proof.
  unfold setup_reasons, setup_fits. destruct (ia_setup _) as [s|]; [|done].
  rewrite app_nil_iff, if_none_nil, mem_true.
  assert ((match List.filter (λ c, negb (mem c (ct_setup_capabilities t))) (ix_capabilities s) with
           | [] => []
           | missing => [MkReason "setup-capability-missing"
                         ("setup capabilities are unavailable: "
                          +:+ join ", " (map cap_value missing))]
           end) = [] ↔ ∀ c, c ∈ ix_capabilities s → c ∈ ct_setup_capabilities t) as ->.
  { transitivity (∀ c, c ∈ ix_capabilities s → mem c (ct_setup_capabilities t) = true);
      [|by setoid_rewrite mem_true].
    rewrite <-(filter_negb_nil (λ c, mem c (ct_setup_capabilities t))).
    by destruct (List.filter _ _). }
  naive_solver.
Qed.

Lemma decision_compatible_fits m t :
  decision_compatible (evaluate_compatibility m t) = true ↔ fits m t.
Proof.
  unfold decision_compatible, payload_compatible, setup_compatible, evaluate_compatibility,
    compatibility_decision, fits. cbn [cd_payload_reasons cd_setup_reasons cd_setup_required].
  rewrite andb_true_iff, orb_true_iff, negb_true_iff, !bool_decide_eq_true, !sorted_set_nil_iff.
  rewrite payload_reasons_nil, setup_reasons_nil. destruct (ct_require_setup t); naive_solver.
Qed.

(** An artifact is compatible with a target exactly when the running
    version, the lifecycle, the profile, the platform, the scope, the mode and
    every install effect fit, and the setup fits where it is required; every
    reason given blocks something that does not fit. *)
Theorem evaluate_compatibility_spec m t :
  let d := evaluate_compatibility m t in
  (decision_compatible d = true ↔ fits m t) ∧
  (payload_compatible d = true ↔ payload_fits m t) ∧
  (setup_compatible d = true ↔ setup_fits m t) ∧
  (decision_reasons d = [] ↔ fits m t).
Proof.
  intros d. subst d. unfold evaluate_compatibility. split_and!.
  - apply decision_compatible_fits.
  - unfold payload_compatible, compatibility_decision. cbn [cd_payload_reasons].
    by rewrite bool_decide_eq_true, sorted_set_nil_iff, payload_reasons_nil.
  - unfold setup_compatible, compatibility_decision. cbn [cd_setup_reasons].
    by rewrite bool_decide_eq_true, sorted_set_nil_iff, setup_reasons_nil.
  - unfold decision_reasons, compatibility_decision, fits.
    cbn [cd_payload_reasons cd_setup_reasons cd_setup_required].
    rewrite sorted_nil_iff, app_nil_iff, sorted_set_nil_iff, payload_reasons_nil.
    destruct (ct_require_setup t); [rewrite sorted_set_nil_iff, setup_reasons_nil|]; naive_solver.
Qed.
End compatibility.

(** * Selection *)

Section selection.
Context `{UnicodeData} `{SetOrder}.

(** [c] asks for the record [m]. *)
Definition asks_for (c : ArtifactCoordinate) (m : MarketplaceArtifact) : Prop :=
  ma_key m = artifact_key (co_source c) (co_artifact c) ∧
  (∀ v, co_version c = Some v → v = semver_str (ia_version (ma_artifact m))).

Context (graph : MarketplaceGraph) (request : SelectionRequest).
Context (unique : NoDup (map ma_key (mg_artifacts graph))).

Definition records : list (akey * MarketplaceArtifact) :=
  dict_of (map (λ m, (ma_key m, m)) (mg_artifacts graph)).

Lemma records_get k m : dget k records = Some m ↔ m ∈ mg_artifacts graph ∧ ma_key m = k.
Proof.
  unfold records. assert (map (λ m, (ma_key m, m)) (mg_artifacts graph)
    = (λ m, (ma_key m, m)) <$> mg_artifacts graph) as -> by done.
  assert (NoDup (((λ m, (ma_key m, m)) <$> mg_artifacts graph).*1)) as Hnd
    by (rewrite <-list_fmap_compose; exact unique).
  rewrite dict_of_fresh by done. split.
  - intros Hin%dget_elem_of. by apply list_elem_of_fmap in Hin as (m' & [= -> ->] & Hm).
  - intros [Hm <-]. apply elem_of_dget; [done|]. apply list_elem_of_fmap. by exists m.
Qed.

(** [c] is answered by the compatible record [m]. *)
Definition picks (c : ArtifactCoordinate) (m : MarketplaceArtifact) : Prop :=
  m ∈ mg_artifacts graph ∧ asks_for c m ∧ fits m (sr_target request).

(** The state of the loop after the coordinates [cs]. *)
Record select_inv (cs : list ArtifactCoordinate) (st : select_state) : Prop := {
  si_keys : NoDup (dkeys (ss_selected st));
  si_selected k m : (k, m) ∈ ss_selected st ↔ k = ma_key m ∧ ∃ c, c ∈ cs ∧ picks c m;
  si_explicit : sr_mode request = EXPLICIT →
    ss_skipped st = [] ∧ (ss_diagnostics st = [] ↔ ∀ c, c ∈ cs → ∃ m, picks c m);
  si_broad : sr_mode request = BROAD →
    ss_diagnostics st = [] ∧
    (∀ c, c ∈ cs → (∃ m, picks c m) ∨
       (∃ s, s ∈ ss_skipped st ∧ co_source (sk_coordinate s) = co_source c ∧
             co_artifact (sk_coordinate s) = co_artifact c)) ∧
    length (ss_skipped st) ≤ length cs
}.

Lemma picks_unique c m n : picks c m → picks c n → m = n.
Proof.
  intros (Hm & [Hk _] & _) (Hn & [Hk' _] & _).
  assert (dget (ma_key m) records = Some m) as E1 by (by apply records_get).
  assert (dget (ma_key m) records = Some n) as E2 by (apply records_get; split; congruence).
  congruence.
Qed.

(** What one step does. *)
Lemma select_step_cases st c :
  (∃ m, picks c m ∧ select_step records request st c
     = MkSelectState (dset (ma_key m) m (ss_selected st)) (ss_skipped st) (ss_diagnostics st)) ∨
  ((∀ m, ¬ picks c m) ∧
   match sr_mode request with
   | EXPLICIT => ∃ d, select_step records request st c
       = MkSelectState (ss_selected st) (ss_skipped st) (ss_diagnostics st ++ [d])
   | BROAD => ∃ s, co_source (sk_coordinate s) = co_source c ∧
       co_artifact (sk_coordinate s) = co_artifact c ∧ select_step records request st c
       = MkSelectState (ss_selected st) (ss_skipped st ++ [s]) (ss_diagnostics st)
   end).
Proof.
  unfold select_step. destruct (dget _ records) as [m|] eqn:Hg.
  2:{ right. split.
      - intros m (Hm & [Hk _] & _). assert (dget (artifact_key (co_source c) (co_artifact c)) records
          = Some m) by (by apply records_get). congruence.
      - destruct (sr_mode request); [|by eexists]. eexists. split_and!; [| |done]; done. }
  apply records_get in Hg as [Hm Hk].
  assert (∀ n, picks c n → n = m) as Hu.
  { intros n (Hn & [Hkn _] & _). assert (dget (ma_key m) records = Some n) as E1
      by (apply records_get; split; congruence).
    assert (dget (ma_key m) records = Some m) as E2 by (by apply records_get). congruence. }
  match goal with |- context [if ?b then _ else _] => destruct b eqn:Hv end.
  { right. split.
    - intros n Hn. pose proof (Hu n Hn) as ->. destruct Hn as (_ & [_ Hver] & _).
      destruct (co_version c) as [v|]; [|done]. rewrite (Hver v eq_refl) in Hv.
      by rewrite bool_decide_true in Hv.
    - destruct (sr_mode request); [|by eexists]. eexists. split_and!; [| |done]; done. }
  assert (asks_for c m) as Ha.
  { split; [done|]. intros v Hcv. rewrite Hcv in Hv. by apply negb_false_iff, bool_decide_eq_true in Hv. }
  destruct (decision_compatible _) eqn:Hd.
  - left. exists m. split; [|done]. split_and!; [done|done|by apply decision_compatible_fits].
  - right. split.
    + intros n Hn. pose proof (Hu n Hn) as ->. destruct Hn as (_ & _ & Hf).
      apply decision_compatible_fits in Hf. congruence.
    + unfold ma_key, artifact_key in Hk. injection Hk as Hk1 Hk2.
      destruct (sr_mode request); [|by eexists]. eexists. split_and!; [| |done]; done.
Qed.

Lemma select_step_inv cs st c : select_inv cs st → select_inv (cs ++ [c]) (select_step records request st c).
Proof.
  intros [Hk Hs He Hb].
  destruct (select_step_cases st c) as [(m & Hm & ->)|[Hn Hstep]].
  - constructor; cbn [ss_selected ss_skipped ss_diagnostics].
    + by apply NoDup_dkeys_dset.
    + intros k n. rewrite elem_of_dset by done. rewrite Hs. setoid_rewrite elem_of_app.
      setoid_rewrite list_elem_of_singleton. split.
      * intros [[-> ->]|(_ & -> & c' & Hc' & Hp)]; [naive_solver|]. split; [done|]. exists c'. naive_solver.
      * intros (-> & c' & [Hc'| ->] & Hp).
        -- destruct (decide (ma_key n = ma_key m)) as [E|E]; [|naive_solver]. left. split; [done|].
           assert (dget (ma_key n) records = Some n) as E1 by (apply records_get; by destruct Hp).
           assert (dget (ma_key n) records = Some m) as E2
             by (apply records_get; rewrite E; by destruct Hm). congruence.
        -- left. pose proof (picks_unique _ _ _ Hm Hp) as ->. done.
    + intros Hx. destruct (He Hx) as [Hsk Hd]. split; [done|]. rewrite Hd.
      setoid_rewrite elem_of_app. setoid_rewrite list_elem_of_singleton. naive_solver.
    + intros Hx. destruct (Hb Hx) as (Hd & Hc & Hl). split_and!; [done| |rewrite length_app; simpl; lia].
      intros c' [Hc'| ->%list_elem_of_singleton]%elem_of_app; [auto|]. left. by exists m.
  - assert (∀ st', ss_selected st' = ss_selected st → NoDup (dkeys (ss_selected st')) ∧
      ∀ k m, (k, m) ∈ ss_selected st' ↔ k = ma_key m ∧ ∃ c', c' ∈ cs ++ [c] ∧ picks c' m) as Hsel.
    { intros st' ->. split; [done|]. intros k m. rewrite Hs. setoid_rewrite elem_of_app.
      setoid_rewrite list_elem_of_singleton. split; [naive_solver|].
      intros (-> & c' & [Hc'| ->] & Hp); [naive_solver|]. by destruct (Hn m). }
    destruct (sr_mode request) eqn:Hmode.
    + destruct Hstep as (s & H1 & H2 & ->). destruct (Hsel (MkSelectState (ss_selected st)
        (ss_skipped st ++ [s]) (ss_diagnostics st)) eq_refl). constructor; [done..| |].
      { intros [=]. congruence. }
      intros _. destruct (Hb eq_refl) as (Hd & Hc & Hl). cbn [ss_selected ss_skipped ss_diagnostics].
      split_and!; [done| |rewrite !length_app; simpl; lia].
      intros c' [Hc'| ->%list_elem_of_singleton]%elem_of_app.
      * destruct (Hc c' Hc') as [?|(s' & Hs' & ?)]; [by left|]. right. exists s'.
        split; [apply elem_of_app; by left|done].
      * right. exists s. split; [apply elem_of_app; right; by apply list_elem_of_singleton|done].
    + destruct Hstep as (d & ->). destruct (Hsel (MkSelectState (ss_selected st)
        (ss_skipped st) (ss_diagnostics st ++ [d])) eq_refl). constructor; [done..| |congruence].
      intros _. destruct (He eq_refl) as [Hsk Hd]. cbn [ss_selected ss_skipped ss_diagnostics].
      split; [done|]. split; [by intros [_ ?]%app_nil|]. intros Hall.
      destruct (Hall c) as [m Hm]; [apply elem_of_app; right; by apply list_elem_of_singleton|].
      by destruct (Hn m).
Qed.

Lemma select_loop_inv cs :
  select_inv cs (foldl (select_step records request) (MkSelectState [] [] []) cs).
Proof.
  induction cs as [|c cs IH] using rev_ind.
  - constructor; cbn [foldl ss_selected ss_skipped ss_diagnostics].
    + constructor.
    + intros k m. rewrite elem_of_nil. setoid_rewrite elem_of_nil. naive_solver.
    + intros _. split; [done|]. setoid_rewrite elem_of_nil. done.
    + intros _. setoid_rewrite elem_of_nil. done.
  - rewrite foldl_app. cbn [foldl]. by apply select_step_inv.
Qed.
End selection.

Section theorems.
Context `{UnicodeData} `{SetOrder}.

(** C31: what a successful selection selects is exactly the artifacts of the
    graph that a requested coordinate asks for and that fit the target, each
    once.  An explicit selection skips nothing and answers every request; a
    broad one skips what it does not answer. *)
Theorem select_artifacts_exact graph request requested result :
  NoDup (map ma_key (mg_artifacts graph)) →
  requested_artifacts graph request = Ok requested →
  select_artifacts graph request = Ok result →
  (∀ m, m ∈ sl_selected result ↔ ∃ c, c ∈ requested ∧ picks graph request c m) ∧
  NoDup (map ma_key (sl_selected result)) ∧
  (sr_mode request = EXPLICIT →
     sl_skipped result = [] ∧ ∀ c, c ∈ requested → ∃ m, m ∈ sl_selected result ∧ asks_for c m) ∧
  (sr_mode request = BROAD → ∀ c, c ∈ requested →
     (∃ m, m ∈ sl_selected result ∧ asks_for c m) ∨
     (∃ s, s ∈ sl_skipped result ∧ co_source (sk_coordinate s) = co_source c ∧
           co_artifact (sk_coordinate s) = co_artifact c)).
Proof.
  intros Hu Hr. unfold select_artifacts. rewrite Hr. cbn [mbind result_bind].
  fold (records graph). pose proof (select_loop_inv graph request Hu requested) as [Hk Hs He Hb].
  destruct (ss_diagnostics _) eqn:Hd; [|done]. intros [= <-].
  unfold selection_result. cbn [sl_selected sl_skipped].
  set (st := foldl _ _ _) in *.
  assert (∀ m, m ∈ sorted (λ m, artifact_sort_key (ma_coordinate m)) (dvalues (ss_selected st))
    ↔ ∃ c, c ∈ requested ∧ picks graph request c m) as Hsel.
  { intros m. rewrite elem_of_sorted, elem_of_dvalues. setoid_rewrite Hs. naive_solver. }
  split_and!; [done| | |].
  - change (NoDup (ma_key <$> sorted (λ m, artifact_sort_key (ma_coordinate m)) (dvalues (ss_selected st)))).
    rewrite sorted_perm. unfold dvalues. rewrite <-list_fmap_compose.
    assert ((ma_key ∘ snd) <$> ss_selected st = dkeys (ss_selected st)) as ->; [|done].
    apply list_fmap_ext. intros i [k m] Hi. simpl. apply list_elem_of_lookup_2, Hs in Hi as [-> _]. done.
  - intros Hx. destruct (He Hx) as [Hsk Hall]. split; [by rewrite Hsk|]. intros c Hc.
    destruct (proj1 Hall eq_refl c Hc) as [m Hm]. exists m. split; [|apply Hm]. apply Hsel. eauto.
  - intros Hx c Hc. destruct (Hb Hx) as (_ & Hall & _). destruct (Hall c Hc) as [[m Hm]|(s & Hin & ?)].
    + left. exists m. split; [|apply Hm]. apply Hsel. eauto.
    + right. exists s. by rewrite elem_of_sorted.
Qed.

(** Once the requested coordinates are known, an explicit selection succeeds
    exactly when every requested coordinate is
    answered by a compatible artifact; a broad selection always succeeds. *)
Theorem select_artifacts_succeeds graph request requested :
  NoDup (map ma_key (mg_artifacts graph)) →
  requested_artifacts graph request = Ok requested →
  (is_ok (select_artifacts graph request) = true ↔
   sr_mode request = BROAD ∨ ∀ c, c ∈ requested → ∃ m, picks graph request c m).
Proof.
  intros Hu Hr. unfold select_artifacts. rewrite Hr. cbn [mbind result_bind].
  fold (records graph). pose proof (select_loop_inv graph request Hu requested) as [Hk Hs He Hb].
  set (st := foldl _ _ _) in *.
  transitivity (ss_diagnostics st = []); [by destruct (ss_diagnostics st)|].
  destruct (sr_mode request).
  - destruct (Hb eq_refl) as [-> _]. naive_solver.
  - destruct (He eq_refl) as [_ ->]. naive_solver.
Qed.
End theorems.

(** * A concrete selection *)

Section sample.
Definition sample_target : CompatibilityTarget :=
  MkTarget "claude" "linux" "project" "copy" ["write-file"] (MkSemVer 1 0 0 [] []) [] true.
Definition sample_selection : SelectionRequest :=
  MkSelectionRequest EXPLICIT sample_target
    [MkCoordinate (MkAlias "org") (MkIdentity Guideline "b") None]
    [MkCollectionCoordinate (MkAlias "team") "all"].
Definition sample_requested : list ArtifactCoordinate :=
  ok_or [] (@requested_artifacts insertion_order sample_graph sample_selection).
Definition sample_result : SelectionResult :=
  ok_or (MkSelectionResult [] [])
    (@select_artifacts ascii_unicode insertion_order sample_graph sample_selection).

Lemma sample_graph_unique : NoDup (map ma_key (mg_artifacts sample_graph)).
Proof. apply (bool_decide_unpack _). by vm_compute. Qed.

Lemma sample_requested_eq :
  @requested_artifacts insertion_order sample_graph sample_selection = Ok sample_requested.
Proof. vm_compute. reflexivity. Qed.

Lemma sample_result_eq :
  @select_artifacts ascii_unicode insertion_order sample_graph sample_selection = Ok sample_result.
Proof. vm_compute. reflexivity. Qed.

Lemma sample_result_names :
  map (λ m, (alias_value (ma_source_alias m), id_name (ia_identity (ma_artifact m))))
    (sl_selected sample_result) = [("org", "b"); ("team", "a"); ("team", "b")].
Proof. vm_compute. reflexivity. Qed.
End sample.

Lemma select_artifacts_exact_witness :
  NoDup (map ma_key (sl_selected sample_result)).
Proof.
  exact (proj1 (proj2 (@select_artifacts_exact ascii_unicode insertion_order sample_graph
    sample_selection sample_requested sample_result sample_graph_unique sample_requested_eq
    sample_result_eq))).
Defined.

Lemma select_artifacts_succeeds_witness :
  is_ok (@select_artifacts ascii_unicode insertion_order sample_graph sample_selection) = true ↔
  sr_mode sample_selection = BROAD ∨
  ∀ c, c ∈ sample_requested → ∃ m, picks sample_graph sample_selection c m.
Proof.
  exact (@select_artifacts_succeeds ascii_unicode insertion_order sample_graph sample_selection
    sample_requested sample_graph_unique sample_requested_eq).
Defined.
