(* ===== verification/Security.v ===== *)
(** Installation-risk evidence ([security/model.py]): findings, provider
    assessments and assessments with the checks of their constructors, and the
    marking of an assessment as stale. *)
From S2P Require Import Prelude PyText Regex Domain Json Protocol CompilerModel.
From Stdlib Require Import Ascii.

(** [^[a-z][a-z0-9]*(?:[.-][a-z0-9]+)*$] *)
Definition ID_RE : re :=
  RChar is_lower · RStar (RChar (λ c, is_lower c || is_digit c))
  · RStar (RChar (λ c, is_char "." c || is_char "-" c)
           · RPlus (RChar (λ c, is_lower c || is_digit c))).
Definition MAX_FINDINGS : nat := 256.
Definition MAX_MESSAGE : nat := 1024.
Definition MAX_REMEDIATION : nat := 512.
Definition MAX_DETAIL : nat := 512.

(** * Enumerations *)

Inductive AssessmentStatus : Type := NOT_SCANNED | COMPLETE | PARTIAL | FAILED | STALE.
Inductive FindingSeverity : Type := S_UNKNOWN | S_LOW | S_MEDIUM | S_HIGH | S_CRITICAL.
Inductive InstallationRisk : Type := R_UNKNOWN | R_LOW | R_MEDIUM | R_HIGH | R_CRITICAL.

#[export] Instance assessment_status_eq_dec : EqDecision AssessmentStatus.
Proof. solve_decision. Defined.
#[export] Instance finding_severity_eq_dec : EqDecision FindingSeverity.
Proof. solve_decision. Defined.
#[export] Instance installation_risk_eq_dec : EqDecision InstallationRisk.
Proof. solve_decision. Defined.

(** [tuple(AssessmentStatus)], [tuple(FindingSeverity)] *)
Definition all_statuses : list AssessmentStatus := [NOT_SCANNED; COMPLETE; PARTIAL; FAILED; STALE].
Definition all_severities : list FindingSeverity :=
  [S_UNKNOWN; S_LOW; S_MEDIUM; S_HIGH; S_CRITICAL].

(** [FindingSeverity.rank], [InstallationRisk.rank] *)
Definition severity_rank (s : FindingSeverity) : Z :=
  match s with S_UNKNOWN => 0 | S_LOW => 1 | S_MEDIUM => 2 | S_HIGH => 3 | S_CRITICAL => 4 end.
Definition risk_rank (r : InstallationRisk) : Z :=
  match r with R_UNKNOWN => 0 | R_LOW => 1 | R_MEDIUM => 2 | R_HIGH => 3 | R_CRITICAL => 4 end.

(** [InstallationRisk(severity.value)] *)
Definition risk_of_severity (s : FindingSeverity) : InstallationRisk :=
  match s with
  | S_UNKNOWN => R_UNKNOWN | S_LOW => R_LOW | S_MEDIUM => R_MEDIUM
  | S_HIGH => R_HIGH | S_CRITICAL => R_CRITICAL
  end.

(** * Values *)

Section values.
Context `{UnicodeData}.

Definition one_line (value : string) (maximum : nat) : bool :=
  negb (str_empty value) && bool_decide (value = strip value)
  && (str_len value <=? maximum)%nat
  && negb (has_char creturn value) && negb (has_char newline value).

Record AssessmentCoverage := MkCoverage {
  cv_completed : Z;
  cv_expected : Z;
  cv_skipped : list string
}.
#[export] Instance coverage_eq_dec : EqDecision AssessmentCoverage.
Proof. solve_decision. Defined.
(** [AssessmentCoverage(...)] *)
Definition assessment_coverage (completed expected : Z) (skipped : list string) :
    py AssessmentCoverage :=
  let normalized := sorted_set id skipped in
  _ ← raise_if ((completed <? 0)%Z || (expected <? 1)%Z || (expected <? completed)%Z
                || (512 <? length normalized)%nat
                || existsb (λ item, negb (one_line item 512)) normalized)
        "assessment coverage is invalid";
  Ret (MkCoverage completed expected normalized).
(** [AssessmentCoverage.complete] *)
Definition coverage_complete (c : AssessmentCoverage) : bool :=
  bool_decide (cv_completed c = cv_expected c) && bool_decide (cv_skipped c = []).

Record SecurityFinding := MkFinding {
  fi_provider_id : string;
  fi_rule_id : string;
  fi_severity : FindingSeverity;
  fi_message : string;
  fi_remediation : string;
  fi_fingerprint : ObjectDigest;
  fi_path : option SafeRelativePath;
  fi_line : option Z
}.
#[export] Instance finding_eq_dec : EqDecision SecurityFinding.
Proof. solve_decision. Defined.

Definition finding_fingerprint (provider_id rule_id : string) (path : option SafeRelativePath)
    (line : option Z) : ObjectDigest :=
  json_digest (json_object
    [("line", match line with None => JNull | Some n => JInt n end);
     ("path", match path with None => JNull | Some p => JStr (path_str p) end);
     ("provider_id", JStr provider_id);
     ("rule_id", JStr rule_id)]).

(** A line is a small positive number, and names a file's line. *)
Definition valid_line (path : option SafeRelativePath) (line : option Z) : bool :=
  match line with
  | None => true
  | Some n => (1 <=? n)%Z && (n <=? 10000000)%Z && bool_decide (path ≠ None)
  end.

(** [SecurityFinding(...)] *)
Definition security_finding (provider_id rule_id : string) (severity : FindingSeverity)
    (message remediation : string) (fingerprint : ObjectDigest) (path : option SafeRelativePath)
    (line : option Z) : py SecurityFinding :=
  _ ← raise_if (negb (valid_line path line)
        || negb (fullmatch ID_RE provider_id) || negb (fullmatch ID_RE rule_id)
        || negb (one_line message MAX_MESSAGE) || negb (one_line remediation MAX_REMEDIATION)
        || negb (valid_digest fingerprint)
        || negb (bool_decide (fingerprint = finding_fingerprint provider_id rule_id path line)))
        "security finding is invalid";
  Ret (MkFinding provider_id rule_id severity message remediation fingerprint path line).

(** [SecurityFinding.sort_key] *)
Definition finding_sort_key (f : SecurityFinding) : string * string * string * Z * string :=
  (fi_provider_id f, fi_rule_id f,
   match fi_path f with None => "" | Some p => path_str p end,
   default (-1)%Z (fi_line f), digest_str (fi_fingerprint f)).

Definition make_finding (rule_id : string) (severity : FindingSeverity)
    (message remediation : string) (path : option SafeRelativePath) (line : option Z)
    (provider_id : string) : py SecurityFinding :=
  security_finding provider_id rule_id severity message remediation
    (finding_fingerprint provider_id rule_id path line) path line.

Record ProviderAssessment := MkProvider {
  pv_id : string;
  pv_version : string;
  pv_rules_digest : ObjectDigest;
  pv_status : AssessmentStatus;
  pv_coverage : AssessmentCoverage;
  pv_detail : string
}.
#[export] Instance provider_eq_dec : EqDecision ProviderAssessment.
Proof. solve_decision. Defined.
(** [ProviderAssessment(...)] *)
Definition provider_assessment (pid version : string) (rules_digest : ObjectDigest)
    (status : AssessmentStatus) (coverage : AssessmentCoverage) (detail : string) :
    py ProviderAssessment :=
  _ ← raise_if (negb (fullmatch ID_RE pid) || negb (one_line version 64)
        || negb (valid_digest rules_digest) || negb (one_line detail MAX_DETAIL)
        || (bool_decide (status = COMPLETE) && negb (coverage_complete coverage))
        || (bool_decide (status = NOT_SCANNED) && negb (bool_decide (cv_completed coverage = 0%Z)))
        || (mem status [PARTIAL; FAILED] && coverage_complete coverage))
        "provider assessment is invalid";
  Ret (MkProvider pid version rules_digest status coverage detail).

Definition risk_from_evidence (status : AssessmentStatus) (maximum : FindingSeverity) :
    InstallationRisk :=
  if (severity_rank S_HIGH <=? severity_rank maximum)%Z then risk_of_severity maximum
  else if negb (bool_decide (status = COMPLETE)) then R_UNKNOWN
  else if bool_decide (maximum = S_UNKNOWN) then R_LOW
  else risk_of_severity maximum.

Record SecurityAssessment := MkAssessment {
  sa_schema_version : Z;
  sa_object_digest : ObjectDigest;
  sa_status : AssessmentStatus;
  sa_installation_risk : InstallationRisk;
  sa_max_finding_severity : FindingSeverity;
  sa_coverage : AssessmentCoverage;
  sa_findings : list SecurityFinding;
  sa_providers : list ProviderAssessment
}.
#[export] Instance assessment_eq_dec : EqDecision SecurityAssessment.
Proof. solve_decision. Defined.

(** [max((item.severity for item in findings), key=rank, default=UNKNOWN)] *)
Definition max_severity (findings : list SecurityFinding) : FindingSeverity :=
  default S_UNKNOWN (max_by severity_rank (map fi_severity findings)).

(** The checks on the status of an assessment and its providers. *)
Definition status_conflict (status : AssessmentStatus) (coverage : AssessmentCoverage)
    (findings : list SecurityFinding) (providers : list ProviderAssessment) : bool :=
  (bool_decide (status = COMPLETE) && negb (coverage_complete coverage))
  || (mem status [PARTIAL; FAILED] && coverage_complete coverage)
  || (bool_decide (status = COMPLETE)
      && existsb (λ p, negb (bool_decide (pv_status p = COMPLETE))) providers)
  || (bool_decide (status = NOT_SCANNED)
      && (negb (bool_decide (cv_completed coverage = 0%Z)) || negb (bool_decide (findings = []))
          || existsb (λ p, negb (bool_decide (pv_status p = NOT_SCANNED))) providers))
  || (bool_decide (status = STALE)
      && negb (existsb (λ p, bool_decide (pv_status p = STALE)) providers))
  || (bool_decide (status = FAILED)
      && negb (existsb (λ p, bool_decide (pv_status p = FAILED)) providers))
  || match providers with
     | [p] => negb (bool_decide (pv_status p = status)) || negb (bool_decide (pv_coverage p = coverage))
     | _ => false
     end.

(** [SecurityAssessment(...)] *)
Definition security_assessment (schema_version : Z) (object_digest : ObjectDigest)
    (status : AssessmentStatus) (risk : InstallationRisk) (max_finding_severity : FindingSeverity)
    (coverage : AssessmentCoverage) (findings0 : list SecurityFinding)
    (providers0 : list ProviderAssessment) : py SecurityAssessment :=
  let findings := sorted finding_sort_key findings0 in
  let providers := sorted (λ p, (pv_id p, pv_version p)) providers0 in
  let fingerprints := map fi_fingerprint findings in
  let provider_ids := map pv_id providers in
  _ ← raise_if (negb (bool_decide (schema_version = 1%Z)) || negb (valid_digest object_digest)
        || bool_decide (providers = []) || (MAX_FINDINGS <? length findings)%nat
        || has_dups fingerprints || has_dups provider_ids
        || existsb (λ f, negb (mem (fi_provider_id f) provider_ids)) findings
        || negb (bool_decide (max_severity findings = max_finding_severity))
        || negb (bool_decide (risk = risk_from_evidence status max_finding_severity))
        || status_conflict status coverage findings providers)
        "security assessment is invalid";
  Ret (MkAssessment schema_version object_digest status risk max_finding_severity coverage
         findings providers).

(** [SecurityAssessment.finding_counts] *)
Definition assessment_finding_counts (a : SecurityAssessment) : list (FindingSeverity * Z) :=
  map (λ s, (s, Z.of_nat (length (filter (λ f, fi_severity f = s) (sa_findings a))))) all_severities.

(** [replace(item, status=AssessmentStatus.STALE)] runs the constructor again. *)
Definition stale_provider (p : ProviderAssessment) : py ProviderAssessment :=
  provider_assessment (pv_id p) (pv_version p) (pv_rules_digest p) STALE (pv_coverage p)
    (pv_detail p).

Definition mark_assessment_stale_value (a : SecurityAssessment) : py SecurityAssessment :=
  providers ← mapM stale_provider (sa_providers a);
  let maximum := sa_max_finding_severity a in
  security_assessment (sa_schema_version a) (sa_object_digest a) STALE
    (risk_from_evidence STALE maximum) maximum (sa_coverage a) (sa_findings a) providers.
End values.

(** * Properties *)

Section properties.
Context `{UnicodeData}.

(** A value the constructor accepts and leaves as it is. *)
Definition valid_provider (p : ProviderAssessment) : Prop :=
  provider_assessment (pv_id p) (pv_version p) (pv_rules_digest p) (pv_status p) (pv_coverage p)
    (pv_detail p) = Ret p.
Definition valid_assessment (a : SecurityAssessment) : Prop :=
  security_assessment (sa_schema_version a) (sa_object_digest a) (sa_status a)
    (sa_installation_risk a) (sa_max_finding_severity a) (sa_coverage a) (sa_findings a)
    (sa_providers a) = Ret a ∧ Forall valid_provider (sa_providers a).

(** What the constructor checks, field by field. *)
Record assessment_facts (a : SecurityAssessment) : Prop := {
  af_schema : sa_schema_version a = 1%Z;
  af_digest : valid_digest (sa_object_digest a) = true;
  af_providers : sa_providers a ≠ [];
  af_bound : length (sa_findings a) ≤ MAX_FINDINGS;
  af_fingerprints : NoDup (map fi_fingerprint (sa_findings a));
  af_provider_ids : NoDup (map pv_id (sa_providers a));
  af_known f : f ∈ sa_findings a → fi_provider_id f ∈ map pv_id (sa_providers a);
  af_max : max_severity (sa_findings a) = sa_max_finding_severity a;
  af_risk : sa_installation_risk a = risk_from_evidence (sa_status a) (sa_max_finding_severity a);
  af_status : status_conflict (sa_status a) (sa_coverage a) (sa_findings a) (sa_providers a) = false;
  af_findings_sorted : sorted finding_sort_key (sa_findings a) = sa_findings a;
  af_providers_sorted : sorted (λ p, (pv_id p, pv_version p)) (sa_providers a) = sa_providers a
}.

Lemma existsb_negb_mem {A B} `{EqDecision B} (g : A → B) (l : list A) k :
  existsb (λ x, negb (mem (g x) k)) l = false ↔ ∀ x, x ∈ l → g x ∈ k.
Proof.
  rewrite (existsb_negb (λ x, mem (g x) k)). split; intros E x Hx; apply mem_true; auto.
Qed.

Lemma security_assessment_Ret v d st r m c fs ps a :
  security_assessment v d st r m c fs ps = Ret a ↔
  a = MkAssessment v d st r m c (sorted finding_sort_key fs)
        (sorted (λ p, (pv_id p, pv_version p)) ps) ∧ assessment_facts a.
Proof.
  unfold security_assessment. split.
  - intros E. inv_py. split_guard. split; [done|].
    match goal with H : (_ <? _)%nat = false |- _ => apply Nat.ltb_ge in H end.
    match goal with H : existsb _ _ = false |- _ => pose proof (proj1 (existsb_negb_mem _ _ _) H) end.
    constructor; simpl; auto using sorted_idemp.
  - intros [-> [Hs Hd Hp Hb Hf Hi Hk Hm Hr Hc _ _]]; simpl in *.
    rewrite Hd, Hm, <-Hr, Hc, (bool_decide_false _ Hp), !(bool_decide_true (_ = _)) by done.
    rewrite (proj2 (has_dups_false _) Hf), (proj2 (has_dups_false _) Hi),
      (proj2 (existsb_negb_mem _ _ _) Hk), (proj2 (Nat.ltb_ge _ _) Hb). done.
Qed.

Lemma valid_assessment_facts a : valid_assessment a → assessment_facts a.
Proof. by intros [[_ Hf]%security_assessment_Ret _]. Qed.

Lemma facts_valid a : assessment_facts a → Forall valid_provider (sa_providers a) → valid_assessment a.
Proof.
  intros Hf Hp. split; [|done]. apply security_assessment_Ret. split; [|done].
  destruct a, Hf; simpl in *. by f_equal.
Qed.

(** The constructor accepts its own results. *)
Lemma security_assessment_valid v d st r m c fs ps a :
  Forall valid_provider ps → security_assessment v d st r m c fs ps = Ret a → valid_assessment a.
Proof.
  intros Hp [Ha Hf]%security_assessment_Ret. apply facts_valid; [done|].
  rewrite Ha. simpl. by rewrite sorted_perm.
Qed.

Lemma max_severity_spec fs f : f ∈ fs → (severity_rank (fi_severity f) ≤ severity_rank (max_severity fs))%Z.
Proof.
  intros Hf. unfold max_severity. destruct (max_by _ _) as [m|] eqn:E.
  - apply max_by_Some in E as [_ E]. apply E, list_elem_of_fmap. eauto.
  - apply max_by_None in E. destruct fs; [by apply elem_of_nil in Hf|done].
Qed.

Lemma max_severity_reached fs :
  max_severity fs ≠ S_UNKNOWN → ∃ f, f ∈ fs ∧ fi_severity f = max_severity fs.
Proof.
  unfold max_severity. destruct (max_by _ _) as [m|] eqn:E; [|done]. intros _.
  apply max_by_Some in E as [E _]. apply list_elem_of_fmap in E as (f & -> & Hf). eauto.
Qed.

Lemma risk_of_severity_rank s : risk_rank (risk_of_severity s) = severity_rank s.
Proof. by destruct s. Qed.

(** How a risk arises. *)
Lemma risk_from_evidence_cases status maximum :
  let r := risk_from_evidence status maximum in
  (3 ≤ severity_rank maximum)%Z ∧ risk_rank r = severity_rank maximum ∨
  (severity_rank maximum < 3)%Z ∧ (status ≠ COMPLETE ∧ r = R_UNKNOWN ∨
    status = COMPLETE ∧ risk_rank r = Z.max 1 (severity_rank maximum)).
Proof. unfold risk_from_evidence. destruct status, maximum; simpl; naive_solver lia. Qed.

(** The installation risk of an assessment never understates its findings,
    and a risk below [high] is stated only for completed evidence: a [high] or
    [critical] risk is that of a finding, whatever the status; a [low] or
    [medium] one says that the assessment, its coverage and every provider are
    complete and that no finding is worse; everything else is [unknown]. *)
Theorem installation_risk_sound v d st r m c fs ps a :
  security_assessment v d st r m c fs ps = Ret a →
  (∀ f, f ∈ fs → (3 ≤ severity_rank (fi_severity f))%Z →
     (severity_rank (fi_severity f) ≤ risk_rank (sa_installation_risk a))%Z) ∧
  ((3 ≤ risk_rank (sa_installation_risk a))%Z →
     ∃ f, f ∈ fs ∧ severity_rank (fi_severity f) = risk_rank (sa_installation_risk a)) ∧
  ((1 ≤ risk_rank (sa_installation_risk a) < 3)%Z →
     sa_status a = COMPLETE ∧ cv_completed c = cv_expected c ∧ cv_skipped c = [] ∧
     (∀ p, p ∈ ps → pv_status p = COMPLETE) ∧
     (∀ f, f ∈ fs → (severity_rank (fi_severity f) ≤ risk_rank (sa_installation_risk a))%Z)).
Proof.
  intros [Ha Hf]%security_assessment_Ret.
  assert (sa_coverage a = c ∧ (∀ f, f ∈ sa_findings a ↔ f ∈ fs) ∧ (∀ p, p ∈ sa_providers a ↔ p ∈ ps))
    as (<- & Hfs & Hps) by (rewrite Ha; simpl; split_and!; [done|intros; apply elem_of_sorted..]).
  clear Ha. destruct Hf as [_ _ _ _ _ _ _ Hm Hr Hs _ _].
  assert (∀ f, f ∈ fs → (severity_rank (fi_severity f) ≤ severity_rank (sa_max_finding_severity a))%Z)
    as Hle by (intros f Hin; rewrite <-Hm; by apply max_severity_spec, Hfs).
  destruct (risk_from_evidence_cases (sa_status a) (sa_max_finding_severity a)) as [[H3 He]|[H3 He]];
    rewrite <-Hr in He; split_and!.
  - intros f Hin _. specialize (Hle f Hin). lia.
  - intros _. destruct (max_severity_reached (sa_findings a)) as (f & Hin & Hsev).
    { rewrite Hm. by destruct (sa_max_finding_severity a). }
    exists f. split; [by apply Hfs|]. by rewrite Hsev, Hm.
  - lia.
  - intros f Hin Hf. specialize (Hle f Hin). lia.
  - destruct He as [[_ ->]|[_ ->]]; simpl; lia.
  - intros Hrange. destruct He as [[_ E]|[Hc E]]; [rewrite E in Hrange; simpl in Hrange; lia|].
    unfold status_conflict in Hs. rewrite Hc in Hs. simpl in Hs. unfold coverage_complete in Hs.
    split_guard.
    match goal with H : existsb _ _ = false |- _ => rename H into Hex end.
    split_and!; try done.
    + intros p Hp%Hps. rewrite existsb_negb in Hex.
      specialize (Hex p Hp). by apply bool_decide_eq_true in Hex.
    + intros f Hin. specialize (Hle f Hin). lia.
Qed.
(** A provider with its status replaced. *)
Definition with_stale (p : ProviderAssessment) : ProviderAssessment :=
  MkProvider (pv_id p) (pv_version p) (pv_rules_digest p) STALE (pv_coverage p) (pv_detail p).

Lemma stale_provider_Ret p : valid_provider p → stale_provider p = Ret (with_stale p).
Proof.
  unfold valid_provider, stale_provider, provider_assessment. intros E. inv_py. split_guard.
  by repeat match goal with H : _ = true |- _ => rewrite H; clear H end.
Qed.

Lemma with_stale_valid p : valid_provider p → valid_provider (with_stale p).
Proof. intros Hp%stale_provider_Ret. exact Hp. Qed.

Lemma stale_providers_Ret ps :
  Forall valid_provider ps → mapM stale_provider ps = Ret (map with_stale ps).
Proof.
  intros Hps. apply mapM_Ret. induction Hps; constructor; auto. by apply stale_provider_Ret.
Qed.

Definition stale_assessment (a : SecurityAssessment) : SecurityAssessment :=
  MkAssessment (sa_schema_version a) (sa_object_digest a) STALE
    (risk_from_evidence STALE (sa_max_finding_severity a)) (sa_max_finding_severity a)
    (sa_coverage a) (sa_findings a) (map with_stale (sa_providers a)).

Lemma stale_not_conflict a : assessment_facts a →
  status_conflict STALE (sa_coverage a) (sa_findings a) (map with_stale (sa_providers a)) = false.
Proof.
  intros [_ _ Hp _ _ _ _ _ _ Hs _ _]. unfold status_conflict in *. simpl. split_guard.
  destruct (sa_providers a) as [|p [|q ps]]; [done| |done]. simpl. simpl in Hs. split_guard.
  by rewrite bool_decide_true.
Qed.

Lemma stale_assessment_facts a : assessment_facts a → assessment_facts (stale_assessment a).
Proof.
  intros Ha. pose proof (stale_not_conflict a Ha) as Hc. destruct Ha as [Hs Hd Hp Hb Hf Hi Hk Hm Hr _ Hfs Hps].
  assert (map pv_id (map with_stale (sa_providers a)) = map pv_id (sa_providers a)) as Hids
    by (rewrite map_map; done).
  constructor; simpl; rewrite ?Hids; try done.
  - by destruct (sa_providers a).
  - rewrite sorted_fmap. by f_equal.
Qed.

Lemma mark_stale_Ret a : valid_assessment a → mark_assessment_stale_value a = Ret (stale_assessment a).
Proof.
  intros Hv. pose proof (valid_assessment_facts a Hv) as Hf. destruct Hv as [_ Hp].
  unfold mark_assessment_stale_value. rewrite stale_providers_Ret by done. cbn [mbind py_bind].
  apply security_assessment_Ret.
  pose proof (stale_assessment_facts a Hf) as Hs. split; [|done].
  destruct Hs as [_ _ _ _ _ _ _ _ _ _ Hfs Hps]. simpl in Hfs, Hps. by rewrite Hfs, Hps.
Qed.

Lemma stale_assessment_valid a : valid_assessment a → valid_assessment (stale_assessment a).
Proof.
  intros Hv. apply facts_valid; [by apply stale_assessment_facts, valid_assessment_facts|].
  destruct Hv as [_ Hp]. apply Forall_fmap. eapply Forall_impl; [done|]. apply with_stale_valid.
Qed.

(** Marking a valid assessment as stale never raises; the result is a
    valid assessment of the same object with the same findings, coverage and
    provider identities, every provider is stale, a risk of [high] or
    [critical] is kept and every other becomes [unknown], and marking it again
    changes nothing. *)
Theorem mark_assessment_stale_value_spec a :
  valid_assessment a →
  ∃ b, mark_assessment_stale_value a = Ret b ∧ valid_assessment b ∧
    sa_status b = STALE ∧ (∀ p, p ∈ sa_providers b → pv_status p = STALE) ∧
    sa_object_digest b = sa_object_digest a ∧ sa_findings b = sa_findings a ∧
    sa_coverage b = sa_coverage a ∧ map pv_id (sa_providers b) = map pv_id (sa_providers a) ∧
    sa_installation_risk b = (if (3 <=? risk_rank (sa_installation_risk a))%Z
                              then sa_installation_risk a else R_UNKNOWN) ∧
    mark_assessment_stale_value b = Ret b.
Proof.
  intros Hv. exists (stale_assessment a). split_and!; try done.
  - by apply mark_stale_Ret.
  - by apply stale_assessment_valid.
  - simpl. by intros p (q & -> & _)%list_elem_of_fmap.
  - simpl. by rewrite map_map.
  - simpl. rewrite (af_risk a (valid_assessment_facts a Hv)).
    by destruct (sa_status a), (sa_max_finding_severity a).
  - rewrite mark_stale_Ret by (by apply stale_assessment_valid).
    f_equal. unfold stale_assessment at 1. simpl. by rewrite map_map.
Qed.
End properties.

(** * A concrete assessment *)

Section sample.
Definition sample_rules : ObjectDigest := sha256_bytes "rules".
Definition sample_coverage : AssessmentCoverage := MkCoverage 8 8 [].
Definition sample_provider : ProviderAssessment :=
  MkProvider "aart-baseline" "1" sample_rules COMPLETE sample_coverage "complete".
Definition sample_finding : SecurityFinding :=
  MkFinding "aart-baseline" "shell.curl" S_MEDIUM "download" "pin it"
    (finding_fingerprint "aart-baseline" "shell.curl" (Some (MkPath ["a.sh"])) (Some 3%Z))
    (Some (MkPath ["a.sh"])) (Some 3%Z).
Definition sample_assessment : SecurityAssessment :=
  MkAssessment 1 sample_rules COMPLETE R_MEDIUM S_MEDIUM sample_coverage [sample_finding]
    [sample_provider].

Lemma sample_assessment_accepted :
  @security_assessment 1 sample_rules COMPLETE R_MEDIUM S_MEDIUM sample_coverage [sample_finding]
    [sample_provider] = Ret sample_assessment.
Proof. vm_compute. reflexivity. Qed.

Lemma sample_assessment_valid : @valid_assessment ascii_unicode sample_assessment.
Proof.
  split; [apply sample_assessment_accepted|]. constructor; [|constructor]. vm_compute. reflexivity.
Qed.
End sample.

Lemma installation_risk_sound_witness :
  sa_status sample_assessment = COMPLETE.
Proof.
  pose proof (installation_risk_sound 1 sample_rules COMPLETE R_MEDIUM S_MEDIUM sample_coverage
    [sample_finding] [sample_provider] sample_assessment sample_assessment_accepted)
    as (_ & _ & Hc).
  apply Hc. simpl. lia.
Defined.

Lemma mark_assessment_stale_value_spec_witness :
  ∃ b, @mark_assessment_stale_value ascii_unicode sample_assessment = Ret b ∧ sa_status b = STALE.
Proof.
  destruct (@mark_assessment_stale_value_spec ascii_unicode sample_assessment
    sample_assessment_valid) as (b & Hb & _ & Hs & _).
  exists b. by split.
Defined.
