(* ===== verification/SecurityPolicy.v ===== *)
(** Bundle aggregation and the installation policy ([security/aggregation.py],
    [security/policy.py]): what a summary says of the evidence it is built
    from, when it can be built, and the action the policy takes on it. *)
From S2P Require Import Prelude PyText Regex Domain Json Protocol CompilerModel Security.
From Stdlib Require Import Ascii.

(** * Trust and risk scores *)

Inductive AttestationTrust : Type := UNVERIFIED | LOCAL | REGISTRY_REVIEWED | COMPANY_REVIEWED.
#[export] Instance attestation_trust_eq_dec : EqDecision AttestationTrust.
Proof. solve_decision. Defined.

Definition TRUST_RANK (t : AttestationTrust) : Z :=
  match t with UNVERIFIED => 0 | LOCAL => 1 | REGISTRY_REVIEWED => 2 | COMPANY_REVIEWED => 3 end.

Definition RISK_SCORE : list (InstallationRisk * Z) :=
  [(R_LOW, 1); (R_MEDIUM, 2); (R_HIGH, 3); (R_CRITICAL, 4)]%Z.

(** [{score: risk for risk, score in _RISK_SCORE.items()}[score]] *)
Definition risk_by_score (score : Z) : py InstallationRisk :=
  match dget score (dict_of (map (λ kv, (kv.2, kv.1)) RISK_SCORE)) with
  | Some risk => Ret risk
  | None => Raise (KeyError (str_Z score))
  end.

(** * Values *)

Record ArtifactSecurityEvidence := MkEvidence {
  ev_coordinate : ArtifactCoordinate;
  ev_assessment : SecurityAssessment;
  ev_attestation_trust : AttestationTrust;
  ev_evidence_age_seconds : option Z
}.
#[export] Instance evidence_eq_dec : EqDecision ArtifactSecurityEvidence.
Proof. solve_decision. Defined.
(** [ArtifactSecurityEvidence(...)] *)
Definition artifact_security_evidence (coordinate : ArtifactCoordinate)
    (assessment : SecurityAssessment) (trust : AttestationTrust) (age : option Z) :
    py ArtifactSecurityEvidence :=
  _ ← raise_if (match age with
                | None => false
                | Some n => negb ((0 <=? n)%Z && (n <=? 2 ^ 63 - 1)%Z)
                end) "artifact security evidence is invalid";
  Ret (MkEvidence coordinate assessment trust age).

Record BundleSecuritySummary := MkSummary {
  bs_artifacts : list ArtifactCoordinate;
  bs_artifact_count : Z;
  bs_worst_installation_risk : InstallationRisk;
  bs_risk_min : InstallationRisk;
  bs_risk_max : InstallationRisk;
  bs_mean_risk_milli : option Z;
  bs_known_risk_count : Z;
  bs_max_finding_severity : FindingSeverity;
  bs_finding_counts : list (FindingSeverity * Z);
  bs_status_counts : list (AssessmentStatus * Z);
  bs_coverage : AssessmentCoverage;
  bs_worst_artifacts : list ArtifactCoordinate;
  bs_unknown_artifacts : list ArtifactCoordinate;
  bs_stale_artifacts : list ArtifactCoordinate;
  bs_provider_ids : list string;
  bs_weakest_attestation_trust : AttestationTrust
}.
#[export] Instance summary_eq_dec : EqDecision BundleSecuritySummary.
Proof. solve_decision. Defined.

Inductive SecurityPolicyAction : Type := ALLOW | WARN | CONFIRM | BLOCK.
#[export] Instance policy_action_eq_dec : EqDecision SecurityPolicyAction.
Proof. solve_decision. Defined.
(** [SecurityPolicyAction.rank] *)
Definition action_rank (a : SecurityPolicyAction) : Z :=
  match a with ALLOW => 0 | WARN => 1 | CONFIRM => 2 | BLOCK => 3 end.

Record SecurityInstallPolicy := MkPolicy {
  sp_unknown_action : SecurityPolicyAction;
  sp_stale_action : SecurityPolicyAction;
  sp_failed_action : SecurityPolicyAction;
  sp_high_action : SecurityPolicyAction;
  sp_critical_action : SecurityPolicyAction;
  sp_minimum_attestation_trust : option AttestationTrust;
  sp_insufficient_trust_action : SecurityPolicyAction;
  sp_required_provider_ids : list string;
  sp_missing_provider_action : SecurityPolicyAction;
  sp_scopes : list string
}.
Definition PROVIDER_RE : re := ID_RE.
(** The checks of [SecurityInstallPolicy.__post_init__]. *)
Definition security_install_policy (p : SecurityInstallPolicy) : py SecurityInstallPolicy :=
  let providers := sorted_set id (sp_required_provider_ids p) in
  let scopes := sorted_set id (sp_scopes p) in
  _ ← raise_if (negb (bool_decide (providers = sp_required_provider_ids p))
        || existsb (λ item, negb (fullmatch PROVIDER_RE item)) providers
        || bool_decide (scopes = []) || negb (bool_decide (scopes = sp_scopes p))
        || existsb (λ scope, negb (mem scope ["project"; "user"])) scopes)
        "security installation policy is invalid";
  Ret p.
(** [SecurityInstallPolicy()] *)
Definition default_policy : SecurityInstallPolicy :=
  MkPolicy WARN WARN WARN CONFIRM BLOCK None WARN [] WARN ["project"; "user"].

Record SecurityPolicyDecision := MkDecision {
  sd_action : SecurityPolicyAction;
  sd_reasons : list string;
  sd_affected_artifacts : list ArtifactCoordinate
}.

Section security.
Context `{UnicodeData} `{SetOrder}.

(** [tuple(sorted(set(coordinates), key=str))] *)
Definition coordinate_set (l : list ArtifactCoordinate) : list ArtifactCoordinate :=
  sorted_py_set (λ x y, bool_decide (x = y)) coordinate_str l.

(** [BundleSecuritySummary(...)] *)
Definition bundle_security_summary (s : BundleSecuritySummary) : py BundleSecuritySummary :=
  let artifacts := coordinate_set (bs_artifacts s) in
  let worst := coordinate_set (bs_worst_artifacts s) in
  let unknown := coordinate_set (bs_unknown_artifacts s) in
  let stale := coordinate_set (bs_stale_artifacts s) in
  _ ← raise_if (bool_decide (artifacts = []) || negb (bool_decide (artifacts = bs_artifacts s))
        || negb (bool_decide (bs_artifact_count s = Z.of_nat (length artifacts)))
        || match bs_mean_risk_milli s with
           | None => false
           | Some m => negb ((1000 <=? m)%Z && (m <=? 4000)%Z)
           end
        || negb ((0 <=? bs_known_risk_count s)%Z && (bs_known_risk_count s <=? bs_artifact_count s)%Z)
        || negb (Bool.eqb (bs_known_risk_count s =? 0)%Z (bool_decide (bs_mean_risk_milli s = None)))
        || existsb (λ item, negb (mem item artifacts)) (worst ++ unknown ++ stale)
        || negb (bool_decide (sorted_set id (bs_provider_ids s) = bs_provider_ids s))
        || negb (bool_decide ((bs_finding_counts s).*1 = all_severities))
        || negb (bool_decide ((bs_status_counts s).*1 = all_statuses))
        || existsb (λ count, (count <? 0)%Z) ((bs_finding_counts s).*2 ++ (bs_status_counts s).*2))
        "bundle security summary is invalid";
  Ret (MkSummary (bs_artifacts s) (bs_artifact_count s) (bs_worst_installation_risk s)
         (bs_risk_min s) (bs_risk_max s) (bs_mean_risk_milli s) (bs_known_risk_count s)
         (bs_max_finding_severity s) (bs_finding_counts s) (bs_status_counts s) (bs_coverage s)
         worst unknown stale (bs_provider_ids s) (bs_weakest_attestation_trust s)).

(** [SecurityPolicyDecision(...)] *)
Definition security_policy_decision (action : SecurityPolicyAction) (reasons0 : list string)
    (affected_artifacts : list ArtifactCoordinate) : py SecurityPolicyDecision :=
  let reasons := sorted_set id reasons0 in
  let affected := coordinate_set affected_artifacts in
  _ ← raise_if (bool_decide (reasons = []) || existsb not_one_line reasons
                || negb (bool_decide (affected = affected_artifacts)))
        "security policy decision is invalid";
  Ret (MkDecision action reasons affected_artifacts).

(** * Aggregation *)

(** The loop of [_deduplicate]. *)
Fixpoint by_coordinate (evidence : list ArtifactSecurityEvidence)
    (seen : list (ArtifactCoordinate * ArtifactSecurityEvidence)) :
    py (list (ArtifactCoordinate * ArtifactSecurityEvidence)) :=
  match evidence with
  | [] => Ret seen
  | item :: evidence =>
      _ ← raise_if (match dget (ev_coordinate item) seen with
                    | Some existing => negb (bool_decide (existing = item))
                    | None => false
                    end) "one artifact coordinate has conflicting security evidence";
      by_coordinate evidence (dset (ev_coordinate item) item seen)
  end.

Definition deduplicate (evidence : list ArtifactSecurityEvidence) :
    py (list ArtifactSecurityEvidence) :=
  seen ← by_coordinate evidence [];
  let result := sorted (λ item, coordinate_str (ev_coordinate item)) (dvalues seen) in
  _ ← raise_if (bool_decide (result = [])) "bundle security evidence cannot be empty";
  Ret result.

Definition ev_risk (e : ArtifactSecurityEvidence) : InstallationRisk :=
  sa_installation_risk (ev_assessment e).

(** The items with a score. *)
Definition known_scores (items : list ArtifactSecurityEvidence) :
    list (ArtifactSecurityEvidence * Z) :=
  omap (λ item, (λ score, (item, score)) <$> dget (ev_risk item) RISK_SCORE) items.

Definition zsum (l : list Z) : Z := foldr Z.add 0%Z l.
Definition zcount {A} (p : A → bool) (l : list A) : Z := Z.of_nat (length (List.filter p l)).

(** The least and greatest risk, the mean and the worst artifacts. *)
Definition risk_range (items : list ArtifactSecurityEvidence) :
    py (InstallationRisk * InstallationRisk * option Z * list ArtifactCoordinate) :=
  let known := known_scores items in
  match min_by id known.*2, max_by id known.*2 with
  | Some minimum_score, Some maximum_score =>
      risk_min ← risk_by_score minimum_score;
      risk_max ← risk_by_score maximum_score;
      let n := Z.of_nat (length known) in
      Ret (risk_min, risk_max, Some ((zsum known.*2 * 1000 + n `div` 2) `div` n)%Z,
           map (λ kv, ev_coordinate kv.1) (List.filter (λ kv, kv.2 =? maximum_score)%Z known))
  | _, _ => Ret (R_UNKNOWN, R_UNKNOWN, None, map ev_coordinate items)
  end.

(** [f"{item.coordinate}:{reason}"] for every skip of every item. *)
Definition skip_reasons (items : list ArtifactSecurityEvidence) : list string :=
  items ≫= λ item, map (λ reason, coordinate_str (ev_coordinate item) +:+ ":" +:+ reason)
                     (cv_skipped (sa_coverage (ev_assessment item))).

Definition bundle_coverage (items : list ArtifactSecurityEvidence) : py AssessmentCoverage :=
  assessment_coverage
    (zsum (map (λ item, cv_completed (sa_coverage (ev_assessment item))) items))
    (zsum (map (λ item, cv_expected (sa_coverage (ev_assessment item))) items))
    (skip_reasons items).

Definition summarize_bundle_security (evidence : list ArtifactSecurityEvidence) :
    py BundleSecuritySummary :=
  items ← deduplicate evidence;
  '(risk_min, risk_max, mean_milli, worst_artifacts) ← risk_range items;
  let unknown := map ev_coordinate (List.filter (λ e, bool_decide (ev_risk e = R_UNKNOWN)) items) in
  let stale := map ev_coordinate
    (List.filter (λ e, bool_decide (sa_status (ev_assessment e) = STALE)) items) in
  let maximum_severity := default S_UNKNOWN
    (max_by severity_rank (map (λ e, sa_max_finding_severity (ev_assessment e)) items)) in
  let findings := items ≫= λ e, sa_findings (ev_assessment e) in
  let finding_counts :=
    map (λ s, (s, zcount (λ f, bool_decide (fi_severity f = s)) findings)) all_severities in
  let status_counts :=
    map (λ s, (s, zcount (λ e, bool_decide (sa_status (ev_assessment e) = s)) items)) all_statuses in
  coverage ← bundle_coverage items;
  let provider_ids :=
    sorted_set id (items ≫= λ e, map pv_id (sa_providers (ev_assessment e))) in
  weakest_trust ← match min_by TRUST_RANK (map ev_attestation_trust items) with
                  | Some t => Ret t
                  | None => Raise (ValueError "min() iterable argument is empty")
                  end;
  bundle_security_summary
    (MkSummary (map ev_coordinate items) (Z.of_nat (length items)) risk_max risk_min risk_max
       mean_milli (Z.of_nat (length (known_scores items))) maximum_severity finding_counts
       status_counts coverage worst_artifacts unknown stale provider_ids weakest_trust).

(** * Policy *)

(** [if items: triggered.append((action, reason, items))] *)
Definition trigger (action : SecurityPolicyAction) (reason : string)
    (items : list ArtifactCoordinate) :
    list (SecurityPolicyAction * string * list ArtifactCoordinate) :=
  match items with [] => [] | _ => [(action, reason, items)] end.

Definition triggered_rules (summary : BundleSecuritySummary)
    (evidence : list ArtifactSecurityEvidence) (policy : SecurityInstallPolicy) :
    list (SecurityPolicyAction * string * list ArtifactCoordinate) :=
  let where_ p := map ev_coordinate (List.filter p evidence) in
  trigger (sp_unknown_action policy) "One or more artifacts have unknown installation risk."
    (bs_unknown_artifacts summary)
  ++ trigger (sp_stale_action policy) "One or more artifacts have stale assessment evidence."
       (bs_stale_artifacts summary)
  ++ trigger (sp_failed_action policy) "One or more artifact assessments failed."
       (where_ (λ e, bool_decide (sa_status (ev_assessment e) = FAILED)))
  ++ (if bool_decide (bs_risk_max summary = R_CRITICAL) then
        [(sp_critical_action policy, "Worst observed installation risk is critical.",
          bs_worst_artifacts summary)]
      else if bool_decide (bs_risk_max summary = R_HIGH) then
        [(sp_high_action policy, "Worst observed installation risk is high.",
          bs_worst_artifacts summary)]
      else [])
  ++ match sp_minimum_attestation_trust policy with
     | None => []
     | Some minimum =>
         trigger (sp_insufficient_trust_action policy)
           "One or more artifacts have insufficient locally derived attestation trust."
           (where_ (λ e, (TRUST_RANK (ev_attestation_trust e) <? TRUST_RANK minimum)%Z))
     end
  ++ match sp_required_provider_ids policy with
     | [] => []
     | _ =>
         trigger (sp_missing_provider_action policy)
           "One or more artifacts are missing a required assessment provider suite."
           (where_ (λ e, negb (forallb (λ r, mem r (map pv_id (sa_providers (ev_assessment e))))
                                 (sp_required_provider_ids policy))))
     end.

Definition evaluate_security_policy (summary : BundleSecuritySummary)
    (evidence : list ArtifactSecurityEvidence) (policy : SecurityInstallPolicy) (scope : string) :
    py SecurityPolicyDecision :=
  _ ← raise_if (negb (mem scope ["project"; "user"])) "security policy scope is invalid";
  normalized ← summarize_bundle_security evidence;
  _ ← raise_if (negb (bool_decide (summary = normalized)))
        "security policy summary does not match artifact evidence";
  if negb (mem scope (sp_scopes policy)) then
    security_policy_decision ALLOW
      ["Security installation policy does not apply to " +:+ scope +:+ " scope."] []
  else
    let triggered := triggered_rules summary evidence policy in
    match max_by action_rank (map (λ t, t.1.1) triggered) with
    | None => security_policy_decision ALLOW
                ["Installation-risk evidence satisfies the configured policy."] []
    | Some action =>
        security_policy_decision action (map (λ t, t.1.2) triggered)
          (coordinate_set (concat (map (λ t, t.2) triggered)))
    end.
End security.

(** * Deduplication *)

(** Evidence agrees on every coordinate. *)
Definition consistent (evidence : list ArtifactSecurityEvidence) : Prop :=
  ∀ e e', e ∈ evidence → e' ∈ evidence → ev_coordinate e = ev_coordinate e' → e = e'.
(** Distinct coordinates print as distinct texts, as those of well-formed
    aliases, names and versions do. *)
Definition distinct_text (evidence : list ArtifactSecurityEvidence) : Prop :=
  ∀ e e', e ∈ evidence → e' ∈ evidence →
    coordinate_str (ev_coordinate e) = coordinate_str (ev_coordinate e') →
    ev_coordinate e = ev_coordinate e'.

Record keyed (seen : list (ArtifactCoordinate * ArtifactSecurityEvidence)) : Prop := {
  ky_NoDup : NoDup (dkeys seen);
  ky_key k e : (k, e) ∈ seen → k = ev_coordinate e
}.

Lemma keyed_dset e seen : keyed seen → keyed (dset (ev_coordinate e) e seen).
Proof.
  intros [Hn Hk]. constructor; [by apply NoDup_dkeys_dset|].
  intros k e' [[-> ->]|[_ Hin]]%elem_of_dset; eauto.
Qed.

Lemma keyed_get seen e : keyed seen → e ∈ dvalues seen ↔ dget (ev_coordinate e) seen = Some e.
Proof.
  intros [Hn Hk]. rewrite elem_of_dvalues. split.
  - intros [k Hin]. rewrite <-(Hk _ _ Hin). by apply elem_of_dget.
  - intros Hg%dget_elem_of. by eexists.
Qed.

Lemma by_coordinate_Ret evidence seen seen' :
  keyed seen → by_coordinate evidence seen = Ret seen' →
  keyed seen' ∧ ∀ e, e ∈ dvalues seen' ↔ e ∈ dvalues seen ∨ e ∈ evidence.
Proof.
  revert seen. induction evidence as [|e ev IH]; intros seen Hk; simpl.
  { intros [= <-]. split; [done|]. intros e. rewrite elem_of_nil. tauto. }
  intros E. inv_py. apply IH in E as [Hk' Hin]; [|by apply keyed_dset].
  split; [done|]. intros e'. rewrite Hin, elem_of_cons, (keyed_get seen), (keyed_get (dset _ _ _))
    by auto using keyed_dset.
  rewrite dget_dset. case_bool_decide as Hc; [|naive_solver].
  rewrite Hc. destruct (dget (ev_coordinate e) seen) as [x|].
  - apply negb_false_iff, bool_decide_eq_true in Hv. subst x. naive_solver.
  - naive_solver.
Qed.

Lemma by_coordinate_returns evidence seen :
  keyed seen → consistent (dvalues seen ++ evidence) → ∃ seen', by_coordinate evidence seen = Ret seen'.
Proof.
  revert seen. induction evidence as [|e ev IH]; intros seen Hk Hc; simpl; [eauto|].
  assert (match dget (ev_coordinate e) seen with
          | Some existing => negb (bool_decide (existing = e)) | None => false end = false) as ->.
  { destruct (dget _ seen) as [x|] eqn:E; [|done]. rewrite bool_decide_true; [done|].
    pose proof (dget_elem_of _ _ _ E) as Hin. apply Hc; [..|by rewrite <-(ky_key _ Hk _ _ Hin)].
    - apply elem_of_app. left. apply elem_of_dvalues. eauto.
    - apply elem_of_app. right. by left. }
  apply IH; [by apply keyed_dset|]. intros x y Hx Hy. apply Hc; [clear Hy|clear Hx];
    match goal with H : ?x ∈ _ |- ?x ∈ _ => rewrite elem_of_app in *; rewrite elem_of_cons;
      destruct H as [H|H]; [|tauto]; apply elem_of_dvalues in H as [k H];
      apply elem_of_dset in H as [[_ ->]|[_ H]]; [tauto| |by apply Hk]; left; apply elem_of_dvalues; eauto end.
Qed.

Lemma deduplicate_Ret evidence items :
  deduplicate evidence = Ret items →
  items ≠ [] ∧ NoDup (map ev_coordinate items) ∧ (∀ e, e ∈ items ↔ e ∈ evidence) ∧
  StronglySorted (key_le (λ e, coordinate_str (ev_coordinate e))) items ∧ consistent evidence.
Proof.
  unfold deduplicate. intros E. inv_py.
  apply by_coordinate_Ret in Hv as [Hk Hin]; [|by constructor; [constructor|intros ?? ?%elem_of_nil]].
  assert (∀ e, e ∈ dvalues v ↔ e ∈ evidence) as Hev
    by (intros e; rewrite Hin; unfold dvalues; simpl; rewrite elem_of_nil; tauto).
  split_guard. split_and!; [done| |intros e; by rewrite elem_of_sorted|apply sorted_sorted|].
  - rewrite sorted_perm. assert (map ev_coordinate (dvalues v) = dkeys v) as ->; [|apply Hk].
    destruct Hk as [_ Hk]. clear -Hk. unfold dvalues, dkeys.
    induction v as [|[k e] v IH]; [done|]. simpl. f_equal.
    + symmetry. apply Hk. by left.
    + apply IH. intros ???. apply Hk. by right.
  - intros e e' He%Hev He'%Hev Hc. rewrite keyed_get in He, He' by done. congruence.
Qed.

Lemma deduplicate_returns evidence :
  evidence ≠ [] → consistent evidence → ∃ items, deduplicate evidence = Ret items.
Proof.
  intros Hne Hc.
  assert (keyed []) as Hk by (constructor; [constructor|intros ?? ?%elem_of_nil; done]).
  destruct (by_coordinate_returns evidence [] Hk Hc) as [seen E].
  unfold deduplicate. rewrite E. cbn [mbind py_bind].
  apply by_coordinate_Ret in E as [_ Hin]; [|done].
  rewrite bool_decide_false; [by eexists|]. intros Hnil%sorted_nil_iff.
  destruct evidence as [|e ev]; [done|].
  assert (e ∈ dvalues seen) as He by (apply Hin; right; by left).
  rewrite Hnil in He. by apply elem_of_nil in He.
Qed.

(** * The risk range *)

(** The items whose risk is known. *)
Definition known_risks (items : list ArtifactSecurityEvidence) : list ArtifactSecurityEvidence :=
  List.filter (λ e, negb (bool_decide (ev_risk e = R_UNKNOWN))) items.

Lemma risk_score_get r :
  dget r RISK_SCORE = if bool_decide (r = R_UNKNOWN) then None else Some (risk_rank r).
Proof. by destruct r. Qed.

Lemma risk_by_score_rank r : r ≠ R_UNKNOWN → risk_by_score (risk_rank r) = Ret r.
Proof. by destruct r. Qed.

Lemma known_scores_eq items :
  known_scores items = map (λ e, (e, risk_rank (ev_risk e))) (known_risks items).
Proof.
  unfold known_scores, known_risks. induction items as [|e items IH]; [done|].
  cbn [omap list_omap List.filter]. rewrite risk_score_get, IH. by case_bool_decide.
Qed.

Lemma elem_of_known e items : e ∈ known_risks items ↔ e ∈ items ∧ ev_risk e ≠ R_UNKNOWN.
Proof.
  unfold known_risks. rewrite !list_elem_of_In, filter_In, negb_true_iff.
  by rewrite bool_decide_eq_false.
Qed.

#[export] Instance risk_rank_inj : Inj (=) (=) risk_rank.
Proof. by intros [] []. Qed.

Lemma filter_scores e0 l :
  map (λ kv : ArtifactSecurityEvidence * Z, ev_coordinate kv.1)
    (List.filter (λ kv, (kv.2 =? risk_rank e0)%Z) (map (λ e, (e, risk_rank (ev_risk e))) l))
  = map ev_coordinate (List.filter (λ e, bool_decide (ev_risk e = e0)) l).
Proof.
  induction l as [|e l IH]; [done|]. simpl.
  assert ((risk_rank (ev_risk e) =? risk_rank e0)%Z = bool_decide (ev_risk e = e0)) as ->.
  { apply eq_bool_prop_intro. rewrite bool_decide_spec, Is_true_true, Z.eqb_eq.
    split; [apply (inj _)|by intros ->]. }
  case_bool_decide; simpl; by rewrite IH.
Qed.

Lemma filter_known r items : r ≠ R_UNKNOWN →
  List.filter (λ e, bool_decide (ev_risk e = r)) (known_risks items)
  = List.filter (λ e, bool_decide (ev_risk e = r)) items.
Proof.
  intros Hr. unfold known_risks. induction items as [|e items IH]; [done|]. simpl.
  destruct (decide (ev_risk e = R_UNKNOWN)) as [E|E].
  - rewrite (bool_decide_true _ E), E, (bool_decide_false (_ = r)) by congruence. done.
  - rewrite (bool_decide_false _ E). simpl. by rewrite IH.
Qed.

Lemma zsum_bounds l lo hi : (∀ x, x ∈ l → lo ≤ x ≤ hi)%Z →
  (lo * Z.of_nat (length l) ≤ zsum l ≤ hi * Z.of_nat (length l))%Z.
Proof.
  induction l as [|x l IH]; intros Hl; [simpl; lia|].
  assert (∀ y, y ∈ l → lo ≤ y ≤ hi)%Z as Hl' by (intros y Hy; apply Hl; by right).
  specialize (IH Hl'). specialize (Hl x ltac:(by left)). cbn [zsum foldr length].
  change (foldr Z.add 0%Z l) with (zsum l). nia.
Qed.

(** The mean of scores within [1..4], rounded half up to thousandths. *)
Definition rounded_mean (scores : list Z) (m : Z) : Prop :=
  let n := Z.of_nat (length scores) in
  (1000 ≤ m ≤ 4000)%Z ∧ (2 * (m * n - 1000 * zsum scores) ≤ n)%Z ∧
  (- n < 2 * (m * n - 1000 * zsum scores) + 1)%Z.

Lemma rounded_mean_intro scores :
  scores ≠ [] → (∀ x, x ∈ scores → 1 ≤ x ≤ 4)%Z →
  let n := Z.of_nat (length scores) in
  rounded_mean scores ((zsum scores * 1000 + n `div` 2) `div` n)%Z.
Proof.
  intros Hne Hb n. assert (0 < n)%Z as Hn by (destruct scores; [done|subst n; simpl; lia]).
  pose proof (zsum_bounds scores 1 4 Hb) as Hs. fold n in Hs.
  pose proof (Z.div_mod n 2 ltac:(lia)) as Hd. pose proof (Z.mod_pos_bound n 2 ltac:(lia)) as Hm.
  set (h := (n `div` 2)%Z) in *.
  pose proof (Z.div_mod (zsum scores * 1000 + h) n ltac:(lia)) as Hq.
  pose proof (Z.mod_pos_bound (zsum scores * 1000 + h) n Hn) as Hr.
  set (q := ((zsum scores * 1000 + h) `div` n)%Z) in *.
  unfold rounded_mean. fold n. split_and!; nia.
Qed.

Lemma max_by_In {A} (key : A → Z) l : l ≠ [] → ∃ m, max_by key l = Some m.
Proof. destruct l; [done|eexists; reflexivity]. Qed.
Lemma min_by_In {A} (key : A → Z) l : l ≠ [] → ∃ m, min_by key l = Some m.
Proof. destruct l; [done|eexists; reflexivity]. Qed.

Lemma snd_scores l :
  (map (λ e, (e, risk_rank (ev_risk e))) l).*2 = map (λ e, risk_rank (ev_risk e)) l.
Proof.
  change (map snd (map (λ e, (e, risk_rank (ev_risk e))) l) = map (λ e, risk_rank (ev_risk e)) l).
  by rewrite map_map.
Qed.

Lemma scores_range l x : x ∈ map (λ e, risk_rank (ev_risk e)) (known_risks l) → (1 ≤ x ≤ 4)%Z.
Proof.
  intros (e & -> & [_ Hr]%elem_of_known)%list_elem_of_fmap. destruct (ev_risk e); simpl; lia || done.
Qed.

(** What [risk_range] computes from the items. *)
Record range_facts (items : list ArtifactSecurityEvidence) (rmin rmax : InstallationRisk)
    (mean : option Z) (worst : list ArtifactCoordinate) : Prop := {
  rf_max e : e ∈ items → (risk_rank (ev_risk e) ≤ risk_rank rmax)%Z;
  rf_max_reached : ∃ e, e ∈ items ∧ ev_risk e = rmax;
  rf_min e : e ∈ items → ev_risk e ≠ R_UNKNOWN → (risk_rank rmin ≤ risk_rank (ev_risk e))%Z;
  rf_min_reached : ∃ e, e ∈ items ∧ ev_risk e = rmin ∧ (rmin = R_UNKNOWN → known_risks items = []);
  rf_mean : match mean with
            | None => known_risks items = []
            | Some m => known_risks items ≠ [] ∧
                rounded_mean (map (λ e, risk_rank (ev_risk e)) (known_risks items)) m
            end;
  rf_worst : worst = map ev_coordinate (List.filter (λ e, bool_decide (ev_risk e = rmax)) items)
}.

Lemma all_unknown items : known_risks items = [] → ∀ e, e ∈ items → ev_risk e = R_UNKNOWN.
Proof.
  intros Hk e He. destruct (decide (ev_risk e = R_UNKNOWN)) as [|Hr]; [done|].
  assert (e ∈ known_risks items) as Hin by (by apply elem_of_known).
  rewrite Hk in Hin. by apply elem_of_nil in Hin.
Qed.


Lemma risk_range_spec items : items ≠ [] →
  ∃ rmin rmax mean worst, risk_range items = Ret (rmin, rmax, mean, worst) ∧
    range_facts items rmin rmax mean worst.
Proof.
  intros Hne. unfold risk_range. rewrite known_scores_eq, snd_scores, length_map.
  destruct (decide (known_risks items = [])) as [Hk|Hk].
  { rewrite Hk. simpl. do 4 eexists. split; [reflexivity|].
    pose proof (all_unknown items Hk) as Hall. destruct items as [|e items]; [done|].
    assert (e ∈ e :: items) as Hin by left.
    constructor.
    - intros x Hx. by rewrite (Hall x Hx).
    - eauto.
    - intros x Hx. by rewrite (Hall x Hx).
    - exists e. eauto.
    - done.
    - rewrite filter_all; [done|]. intros x Hx. by apply bool_decide_eq_true, Hall. }
  set (scores := map (λ e, risk_rank (ev_risk e)) (known_risks items)).
  assert (scores ≠ []) as Hs by (unfold scores; by destruct (known_risks items)).
  destruct (max_by_In id scores Hs) as [mx Hmx], (min_by_In id scores Hs) as [mn Hmn].
  rewrite Hmx, Hmn. apply max_by_Some in Hmx as [Hmx Hmax]. apply min_by_Some in Hmn as [Hmn Hmin].
  apply list_elem_of_fmap in Hmx as (ex & -> & Hex), Hmn as (en & -> & Hen).
  pose proof Hex as [Hex1 Hex2]%elem_of_known. pose proof Hen as [Hen1 Hen2]%elem_of_known.
  rewrite !risk_by_score_rank by done. cbn [mbind py_bind]. do 4 eexists. split; [reflexivity|].
  assert (∀ e, e ∈ items → ev_risk e ≠ R_UNKNOWN → risk_rank (ev_risk e) ∈ scores) as Hsc.
  { intros e He Hr. apply list_elem_of_fmap. exists e. by rewrite elem_of_known. }
  constructor.
  - intros e He. destruct (decide (ev_risk e = R_UNKNOWN)) as [->|Hr]; [by destruct (ev_risk ex)|].
    by apply Hmax, Hsc.
  - eauto.
  - intros e He Hr. by apply Hmin, Hsc.
  - exists en. done.
  - split; [done|]. rewrite <-(length_map (λ e, risk_rank (ev_risk e))).
    apply rounded_mean_intro; [done|]. intros x Hx. by eapply scores_range.
  - by rewrite filter_scores, filter_known.
Qed.

(** * Summaries *)

Section summaries.
Context `{UnicodeData} `{SetOrder}.

Lemma elem_of_coordinate_set c l : c ∈ coordinate_set l ↔ c ∈ l.
Proof. apply elem_of_sorted_py_set. intros x y. apply bool_decide_eq_true. Qed.

Lemma NoDup_coordinate_set l : NoDup (coordinate_set l).
Proof. apply NoDup_sorted_py_set. intros x y. apply bool_decide_eq_true. Qed.

(** A list of distinct coordinates in text order is left as it is. *)
Lemma coordinate_set_id l :
  (∀ x y, x ∈ l → y ∈ l → coordinate_str x = coordinate_str y → x = y) →
  NoDup l → StronglySorted (key_le coordinate_str) l → coordinate_set l = l.
Proof.
  intros Hinj Hnd Hs. apply (strongly_sorted_key_unique coordinate_str).
  - intros x y. rewrite !elem_of_coordinate_set. apply Hinj.
  - apply sorted_sorted.
  - done.
  - apply NoDup_Permutation; [apply NoDup_coordinate_set|done|]. intros x. apply elem_of_coordinate_set.
Qed.

Lemma coordinate_set_idemp l :
  (∀ x y, x ∈ l → y ∈ l → coordinate_str x = coordinate_str y → x = y) →
  coordinate_set (coordinate_set l) = coordinate_set l.
Proof.
  intros Hinj. apply coordinate_set_id; [|apply NoDup_coordinate_set|apply sorted_sorted].
  intros x y. rewrite !elem_of_coordinate_set. apply Hinj.
Qed.

Lemma sorted_map_strong {A B K} `{TotalOrd K} (f : A → B) (key : B → K) l :
  StronglySorted (key_le (λ x, key (f x))) l → StronglySorted (key_le key) (map f l).
Proof.
  induction 1 as [|x l Hl IH Hx]; simpl; constructor; [done|].
  apply Forall_fmap. eapply Forall_impl; [exact Hx|]. done.
Qed.

(** Coverage whose own constructor accepts it. *)
Definition valid_coverage (c : AssessmentCoverage) : Prop :=
  assessment_coverage (cv_completed c) (cv_expected c) (cv_skipped c) = Ret c.
Definition valid_evidence (e : ArtifactSecurityEvidence) : Prop :=
  valid_coverage (sa_coverage (ev_assessment e)).

Lemma valid_coverage_bounds c :
  valid_coverage c → (0 ≤ cv_completed c ≤ cv_expected c ∧ 1 ≤ cv_expected c)%Z.
Proof. unfold valid_coverage, assessment_coverage. intros E. inv_py. split_guard. lia. Qed.

(** The bounds of a coverage value apply to the union of the skips. *)
Definition skips_fit (reasons : list string) : Prop :=
  length (remove_dups reasons) ≤ 512 ∧ ∀ r, r ∈ reasons → one_line r 512 = true.

Lemma assessment_coverage_Ret completed expected skipped c :
  (0 ≤ completed ≤ expected)%Z → (1 ≤ expected)%Z →
  assessment_coverage completed expected skipped = Ret c ↔
  skips_fit skipped ∧ c = MkCoverage completed expected (sorted_set id skipped).
Proof.
  intros Hc He. unfold assessment_coverage, skips_fit.
  rewrite (proj2 (Z.ltb_ge _ _)), (proj2 (Z.ltb_ge expected 1)), (proj2 (Z.ltb_ge expected completed))
    by lia. cbn [orb].
  assert (length (sorted_set id skipped) = length (remove_dups skipped)) as -> by apply length_sorted.
  assert (existsb (λ item, negb (one_line item 512)) (sorted_set id skipped) = false ↔
          ∀ r, r ∈ skipped → one_line r 512 = true) as Hex.
  { rewrite (existsb_negb (λ item, one_line item 512)). by setoid_rewrite elem_of_sorted_set. }
  split.
  - intros E. inv_py. split_guard. split; [|done]. split; [by apply Nat.ltb_ge|by apply Hex].
  - intros [[Hl Hr] ->]. apply Hex in Hr. rewrite Hr, (proj2 (Nat.ltb_ge _ _) Hl). done.
Qed.

Lemma bundle_coverage_Ret items c :
  items ≠ [] → Forall valid_evidence items →
  bundle_coverage items = Ret c ↔
  skips_fit (skip_reasons items) ∧
  c = MkCoverage (zsum (map (λ e, cv_completed (sa_coverage (ev_assessment e))) items))
        (zsum (map (λ e, cv_expected (sa_coverage (ev_assessment e))) items))
        (sorted_set id (skip_reasons items)).
Proof.
  intros Hne Hv. apply assessment_coverage_Ret.
  - clear Hne. induction Hv as [|e items He%valid_coverage_bounds Hv IH]; simpl; [lia|].
    unfold zsum in *. lia.
  - destruct Hv as [|e items He%valid_coverage_bounds Hv]; [done|]. simpl.
    assert (0 ≤ zsum (map (λ e, cv_expected (sa_coverage (ev_assessment e))) items))%Z; [|unfold zsum in *; lia].
    clear Hne He. induction Hv as [|x items Hx%valid_coverage_bounds Hv IH]; simpl; [lia|].
    unfold zsum in *. lia.
Qed.

Lemma elem_of_skip_reasons r items :
  r ∈ skip_reasons items ↔ ∃ e s, e ∈ items ∧ s ∈ cv_skipped (sa_coverage (ev_assessment e)) ∧
    r = coordinate_str (ev_coordinate e) +:+ ":" +:+ s.
Proof.
  unfold skip_reasons. rewrite list_elem_of_bind. setoid_rewrite list_elem_of_fmap. naive_solver.
Qed.

(** The limits only depend on which skips there are. *)
Lemma skips_fit_ext l k : (∀ r, r ∈ l ↔ r ∈ k) → skips_fit l ↔ skips_fit k.
Proof.
  intros E. unfold skips_fit.
  assert (length (remove_dups l) = length (remove_dups k)) as ->.
  { apply Permutation_length, NoDup_Permutation; try apply NoDup_remove_dups.
    intros x. by rewrite !elem_of_remove_dups. }
  naive_solver.
Qed.
(** The items as deduplication leaves them. *)
Record wf_items (items : list ArtifactSecurityEvidence) : Prop := {
  wi_ne : items ≠ [];
  wi_NoDup : NoDup (map ev_coordinate items);
  wi_sorted : StronglySorted (key_le (λ e, coordinate_str (ev_coordinate e))) items;
  wi_text : distinct_text items
}.

Lemma deduplicate_wf evidence items :
  distinct_text evidence → deduplicate evidence = Ret items → wf_items items.
Proof.
  intros Ht (Hne & Hnd & Hin & Hs & _)%deduplicate_Ret. constructor; try done.
  intros e e' He%Hin He'%Hin. by apply Ht.
Qed.

Lemma items_injective items (l : list ArtifactCoordinate) : wf_items items → (∀ c, c ∈ l → c ∈ map ev_coordinate items) →
  ∀ x y, x ∈ l → y ∈ l → coordinate_str x = coordinate_str y → x = y.
Proof.
  intros Hw Hl x y (e & -> & He)%Hl%list_elem_of_fmap (e' & -> & He')%Hl%list_elem_of_fmap.
  by apply (wi_text _ Hw).
Qed.

Lemma items_coordinates items : wf_items items →
  coordinate_set (map ev_coordinate items) = map ev_coordinate items.
Proof.
  intros Hw. apply coordinate_set_id.
  - by eapply items_injective.
  - apply Hw.
  - apply sorted_map_strong, Hw.
Qed.

(** The summary of the items before its constructor normalises it. *)
Definition summary_of (items : list ArtifactSecurityEvidence) (rmin rmax : InstallationRisk)
    (mean : option Z) (worst : list ArtifactCoordinate) (coverage : AssessmentCoverage)
    (trust : AttestationTrust) : BundleSecuritySummary :=
  MkSummary (map ev_coordinate items) (Z.of_nat (length items)) rmax rmin rmax mean
    (Z.of_nat (length (known_scores items)))
    (default S_UNKNOWN
       (max_by severity_rank (map (λ e, sa_max_finding_severity (ev_assessment e)) items)))
    (map (λ s, (s, zcount (λ f, bool_decide (fi_severity f = s))
                     (items ≫= λ e, sa_findings (ev_assessment e)))) all_severities)
    (map (λ s, (s, zcount (λ e, bool_decide (sa_status (ev_assessment e) = s)) items)) all_statuses)
    coverage worst
    (map ev_coordinate (List.filter (λ e, bool_decide (ev_risk e = R_UNKNOWN)) items))
    (map ev_coordinate
       (List.filter (λ e, bool_decide (sa_status (ev_assessment e) = STALE)) items))
    (sorted_set id (items ≫= λ e, map pv_id (sa_providers (ev_assessment e)))) trust.

(** ... and after it. *)
Definition normal_summary (s : BundleSecuritySummary) : BundleSecuritySummary :=
  MkSummary (bs_artifacts s) (bs_artifact_count s) (bs_worst_installation_risk s)
    (bs_risk_min s) (bs_risk_max s) (bs_mean_risk_milli s) (bs_known_risk_count s)
    (bs_max_finding_severity s) (bs_finding_counts s) (bs_status_counts s) (bs_coverage s)
    (coordinate_set (bs_worst_artifacts s)) (coordinate_set (bs_unknown_artifacts s))
    (coordinate_set (bs_stale_artifacts s)) (bs_provider_ids s) (bs_weakest_attestation_trust s).

Lemma filter_coordinates p items c :
  c ∈ map ev_coordinate (List.filter p items) ↔ ∃ e, e ∈ items ∧ p e = true ∧ ev_coordinate e = c.
Proof.
  rewrite list_elem_of_fmap. setoid_rewrite list_elem_of_In. setoid_rewrite filter_In. naive_solver.
Qed.

Lemma counts_nonneg {A B} (p : A → B → bool) (keys : list A) l :
  existsb (λ count, (count <? 0)%Z) (map (λ k, (k, zcount (p k) l)) keys).*2 = false.
Proof.
  change (existsb (λ count, (count <? 0)%Z) (map snd (map (λ k, (k, zcount (p k) l)) keys)) = false).
  rewrite map_map. cbn [snd]. induction keys as [|k keys IH]; [done|]. cbn [map existsb]. rewrite IH.
  rewrite (proj2 (Z.ltb_ge _ _)); [done|]. unfold zcount. lia.
Qed.

Lemma bundle_security_summary_Ret items rmin rmax mean worst coverage trust :
  wf_items items → range_facts items rmin rmax mean worst →
  let s := summary_of items rmin rmax mean worst coverage trust in
  bundle_security_summary s = Ret (normal_summary s).
Proof.
  intros Hw Hr s. unfold bundle_security_summary. subst s.
  cbn [summary_of bs_artifacts bs_artifact_count bs_mean_risk_milli bs_known_risk_count
       bs_worst_artifacts bs_unknown_artifacts bs_stale_artifacts bs_provider_ids
       bs_finding_counts bs_status_counts].
  rewrite (items_coordinates items Hw), known_scores_eq, !length_map, sorted_set_idemp.
  rewrite (bool_decide_false (map ev_coordinate items = []))
    by (pose proof (wi_ne _ Hw); by destruct items).
  rewrite !(bool_decide_true (_ = _)) by reflexivity.
  assert (length (known_risks items) ≤ length items) as Hle by apply filter_length_le.
  rewrite (proj2 (Z.leb_le 0 _)), (proj2 (Z.leb_le (Z.of_nat (length (known_risks items))) _)) by lia.
  assert (match mean with None => false | Some m => negb ((1000 <=? m)%Z && (m <=? 4000)%Z) end = false ∧
    Bool.eqb (Z.of_nat (length (known_risks items)) =? 0)%Z (bool_decide (mean = None)) = true)
    as [-> ->].
  { pose proof (rf_mean _ _ _ _ _ Hr) as Hm. destruct mean as [m|].
    - destruct Hm as [Hk [[H1 H2] _]]. rewrite (proj2 (Z.leb_le _ _) H1), (proj2 (Z.leb_le _ _) H2).
      split; [done|]. by destruct (known_risks items).
    - by rewrite Hm. }
  assert (existsb (λ item, negb (mem item (map ev_coordinate items)))
    (coordinate_set worst ++
     coordinate_set (map ev_coordinate (List.filter (λ e, bool_decide (ev_risk e = R_UNKNOWN)) items)) ++
     coordinate_set (map ev_coordinate
       (List.filter (λ e, bool_decide (sa_status (ev_assessment e) = STALE)) items))) = false) as ->.
  { rewrite (existsb_negb (λ item, mem item (map ev_coordinate items))). intros c.
    rewrite mem_true, !elem_of_app, !elem_of_coordinate_set, (rf_worst _ _ _ _ _ Hr), !filter_coordinates.
    intros Hc. apply list_elem_of_fmap. naive_solver. }
  rewrite existsb_app, !counts_nonneg, (bool_decide_true (sorted_set id _ = _)),
    (bool_decide_true (_ = all_severities)), (bool_decide_true (_ = all_statuses)) by reflexivity.
  unfold normal_summary, summary_of. by rewrite known_scores_eq, length_map.
Qed.
Lemma summarize_Ret evidence s :
  distinct_text evidence → Forall valid_evidence evidence → summarize_bundle_security evidence = Ret s →
  ∃ items rmin rmax mean worst coverage trust,
    deduplicate evidence = Ret items ∧ wf_items items ∧ range_facts items rmin rmax mean worst ∧
    bundle_coverage items = Ret coverage ∧ min_by TRUST_RANK (map ev_attestation_trust items) = Some trust ∧
    s = normal_summary (summary_of items rmin rmax mean worst coverage trust).
Proof.
  intros Ht Hv. unfold summarize_bundle_security. intros E.
  apply bind_Ret in E as (items & Hd & E). pose proof (deduplicate_wf _ _ Ht Hd) as Hw.
  destruct (risk_range_spec items (wi_ne _ Hw)) as (rmin & rmax & mean & worst & Hr & Hf).
  rewrite Hr in E. cbn [mbind py_bind] in E.
  change (match bundle_coverage items with Ret a => _ a | Raise e => Raise e end)
    with (bundle_coverage items ≫= _) in E.
  destruct (bundle_coverage items) as [coverage|] eqn:Hc; [|discriminate E].
  cbn [mbind py_bind] in E.
  destruct (min_by TRUST_RANK _) as [trust|] eqn:Hm; [|discriminate E]. cbn [mbind py_bind] in E.
  pose proof (bundle_security_summary_Ret items rmin rmax mean worst coverage trust Hw Hf) as Hs.
  cbv zeta in Hs. unfold summary_of in Hs at 1. rewrite Hs in E. injection E as <-.
  do 7 eexists. split_and!; eauto.
Qed.

Lemma summarize_returns evidence items :
  distinct_text evidence → deduplicate evidence = Ret items →
  (∃ coverage, bundle_coverage items = Ret coverage) →
  ∃ s, summarize_bundle_security evidence = Ret s.
Proof.
  intros Ht Hd [coverage Hc]. pose proof (deduplicate_wf _ _ Ht Hd) as Hw.
  unfold summarize_bundle_security. rewrite Hd. cbn [mbind py_bind].
  destruct (risk_range_spec items (wi_ne _ Hw)) as (rmin & rmax & mean & worst & Hr & Hf).
  rewrite Hr. cbn [mbind py_bind]. rewrite Hc. cbn [mbind py_bind].
  destruct (min_by_In TRUST_RANK (map ev_attestation_trust items)) as [trust ->].
  { intros Hn. apply (wi_ne _ Hw). by destruct items. }
  cbn [mbind py_bind]. eexists. exact (bundle_security_summary_Ret items rmin rmax mean worst coverage trust Hw Hf).
Qed.

Lemma summarize_raises_coverage evidence s items :
  deduplicate evidence = Ret items → summarize_bundle_security evidence = Ret s →
  ∃ coverage, bundle_coverage items = Ret coverage.
Proof.
  intros Hd. unfold summarize_bundle_security. rewrite Hd. cbn [mbind py_bind].
  destruct (risk_range items) as [[[[? ?] ?] ?]|]; [|done]. cbn [mbind py_bind].
  destruct (bundle_coverage items); [eauto|done].
Qed.

(** The evidence of a bundle can be summarised exactly when there is some,
    no coordinate has conflicting evidence, and the skips of all its artifacts
    together, each prefixed with its coordinate, fit the limits of one
    coverage value. *)
Theorem summarize_bundle_security_returns evidence :
  distinct_text evidence → Forall valid_evidence evidence →
  (∃ s, summarize_bundle_security evidence = Ret s) ↔
  evidence ≠ [] ∧ consistent evidence ∧ skips_fit (skip_reasons evidence).
Proof.
  intros Ht Hv. split.
  - intros [s E]. pose proof E as E'.
    apply bind_Ret in E' as (items & Hd & _).
    destruct (summarize_raises_coverage _ _ _ Hd E) as [c Hc].
    pose proof (deduplicate_Ret _ _ Hd) as (Hne & _ & Hin & _ & Hcon).
    apply bundle_coverage_Ret in Hc as [Hfit _]; [|done|].
    2:{ apply Forall_forall. intros e He%Hin. by eapply (proj1 (Forall_forall _ _) Hv). }
    split_and!; [|done|].
    + intros ->. destruct items as [|e items]; [done|].
      assert (e ∈ @nil ArtifactSecurityEvidence) as He by (apply Hin; left). by apply elem_of_nil in He.
    + eapply skips_fit_ext; [|exact Hfit]. intros r. rewrite !elem_of_skip_reasons. by setoid_rewrite Hin.
  - intros (Hne & Hcon & Hfit). destruct (deduplicate_returns evidence Hne Hcon) as [items Hd].
    apply (summarize_returns evidence items Ht Hd).
    pose proof (deduplicate_Ret _ _ Hd) as (Hne' & _ & Hin & _ & _).
    eexists. apply bundle_coverage_Ret; [done| |split; [|reflexivity]].
    + apply Forall_forall. intros e He%Hin. by eapply (proj1 (Forall_forall _ _) Hv).
    + eapply skips_fit_ext; [|exact Hfit]. intros r. rewrite !elem_of_skip_reasons. by setoid_rewrite Hin.
Qed.
Lemma items_perm evidence items :
  deduplicate evidence = Ret items → items ≡ₚ remove_dups evidence.
Proof.
  intros (_ & Hnd & Hin & _)%deduplicate_Ret. apply NoDup_Permutation.
  - by apply NoDup_fmap_1 in Hnd.
  - apply NoDup_remove_dups.
  - intros e. by rewrite elem_of_remove_dups.
Qed.

Lemma filter_perm {A} (p : A → bool) l k : l ≡ₚ k → List.filter p l ≡ₚ List.filter p k.
Proof. induction 1; simpl; repeat case_match; eauto using perm_swap, perm_trans. Qed.

Lemma zcount_perm {A} (p : A → bool) l k : l ≡ₚ k → zcount p l = zcount p k.
Proof. intros Hp. unfold zcount. by rewrite (filter_perm p l k Hp). Qed.

Lemma zsum_perm l k : l ≡ₚ k → zsum l = zsum k.
Proof. unfold zsum. induction 1; simpl; lia. Qed.

Lemma rounded_mean_perm l k m : l ≡ₚ k → rounded_mean l m → rounded_mean k m.
Proof. intros Hp. unfold rounded_mean. by rewrite (zsum_perm l k Hp), (Permutation_length Hp). Qed.

Lemma bind_perm {A B} (f : A → list B) l k : l ≡ₚ k → (l ≫= f) ≡ₚ (k ≫= f).
Proof. by intros ->. Qed.

(** What a summary says of the evidence. *)
Record summary_exact (evidence : list ArtifactSecurityEvidence) (s : BundleSecuritySummary) : Prop := {
  se_artifacts c : c ∈ bs_artifacts s ↔ ∃ e, e ∈ evidence ∧ ev_coordinate e = c;
  se_NoDup : NoDup (bs_artifacts s);
  se_count : bs_artifact_count s = Z.of_nat (length (remove_dups evidence));
  se_worst : bs_worst_installation_risk s = bs_risk_max s;
  se_max e : e ∈ evidence → (risk_rank (ev_risk e) ≤ risk_rank (bs_risk_max s))%Z;
  se_max_reached : ∃ e, e ∈ evidence ∧ ev_risk e = bs_risk_max s;
  se_min e : e ∈ evidence → ev_risk e ≠ R_UNKNOWN → (risk_rank (bs_risk_min s) ≤ risk_rank (ev_risk e))%Z;
  se_mean : match bs_mean_risk_milli s with
            | None => ∀ e, e ∈ evidence → ev_risk e = R_UNKNOWN
            | Some m => rounded_mean (map (λ e, risk_rank (ev_risk e))
                                        (known_risks (remove_dups evidence))) m
            end;
  se_worst_artifacts c :
    c ∈ bs_worst_artifacts s ↔ ∃ e, e ∈ evidence ∧ ev_risk e = bs_risk_max s ∧ ev_coordinate e = c;
  se_unknown c :
    c ∈ bs_unknown_artifacts s ↔ ∃ e, e ∈ evidence ∧ ev_risk e = R_UNKNOWN ∧ ev_coordinate e = c;
  se_stale c :
    c ∈ bs_stale_artifacts s ↔
    ∃ e, e ∈ evidence ∧ sa_status (ev_assessment e) = STALE ∧ ev_coordinate e = c;
  se_severity e : e ∈ evidence →
    (severity_rank (sa_max_finding_severity (ev_assessment e))
     ≤ severity_rank (bs_max_finding_severity s))%Z;
  se_findings : bs_finding_counts s = map (λ v, (v, zcount (λ f, bool_decide (fi_severity f = v))
    (remove_dups evidence ≫= λ e, sa_findings (ev_assessment e)))) all_severities;
  se_statuses : bs_status_counts s = map (λ v, (v, zcount
    (λ e, bool_decide (sa_status (ev_assessment e) = v)) (remove_dups evidence))) all_statuses;
  se_trust e : e ∈ evidence →
    (TRUST_RANK (bs_weakest_attestation_trust s) ≤ TRUST_RANK (ev_attestation_trust e))%Z;
  se_trust_reached : ∃ e, e ∈ evidence ∧ ev_attestation_trust e = bs_weakest_attestation_trust s;
  se_providers i : i ∈ bs_provider_ids s ↔
    ∃ e p, e ∈ evidence ∧ p ∈ sa_providers (ev_assessment e) ∧ pv_id p = i
}.

Lemma summarize_exact evidence s :
  distinct_text evidence → Forall valid_evidence evidence →
  summarize_bundle_security evidence = Ret s → summary_exact evidence s.
Proof.
  intros Ht Hv (items & rmin & rmax & mean & worst & coverage & trust & Hd & Hw & Hf & _ & Hm & ->)%summarize_Ret;
    [|done..].
  pose proof (items_perm _ _ Hd) as Hp.
  assert (∀ e, e ∈ items ↔ e ∈ evidence) as Hin by apply (deduplicate_Ret _ _ Hd).
  apply min_by_Some in Hm as [Hm1 Hm2].
  destruct Hf as [Hmax (em & Hem & Hem') Hmin _ Hmean Hworst].
  constructor; cbn [normal_summary summary_of bs_artifacts bs_artifact_count
    bs_worst_installation_risk bs_risk_min bs_risk_max bs_mean_risk_milli bs_max_finding_severity
    bs_finding_counts bs_status_counts bs_worst_artifacts bs_unknown_artifacts bs_stale_artifacts
    bs_provider_ids bs_weakest_attestation_trust].
  - intros c. rewrite list_elem_of_fmap. setoid_rewrite Hin. naive_solver.
  - apply Hw.
  - by rewrite Hp.
  - done.
  - intros e He%Hin. by apply Hmax.
  - exists em. by rewrite <-Hin.
  - intros e He%Hin. by apply Hmin.
  - destruct mean as [m|].
    + destruct Hmean as [_ Hmean]. eapply rounded_mean_perm; [|exact Hmean].
      apply Permutation_map. unfold known_risks. by apply filter_perm.
    + intros e He%Hin. by apply (all_unknown items).
  - intros c. rewrite elem_of_coordinate_set, Hworst, filter_coordinates.
    setoid_rewrite bool_decide_eq_true. by setoid_rewrite Hin.
  - intros c. rewrite elem_of_coordinate_set, filter_coordinates.
    setoid_rewrite bool_decide_eq_true. by setoid_rewrite Hin.
  - intros c. rewrite elem_of_coordinate_set, filter_coordinates.
    setoid_rewrite bool_decide_eq_true. by setoid_rewrite Hin.
  - intros e He%Hin. destruct (max_by _ _) as [m|] eqn:E.
    + apply max_by_Some in E as [_ E]. apply E, list_elem_of_fmap. eauto.
    + apply max_by_None in E. destruct items; [by apply elem_of_nil in He|done].
  - apply map_ext. intros v. f_equal. apply zcount_perm. by apply bind_perm.
  - apply map_ext. intros v. f_equal. by apply zcount_perm.
  - intros e He%Hin. apply Hm2, list_elem_of_fmap. eauto.
  - apply list_elem_of_fmap in Hm1 as (e & -> & He). exists e. by rewrite <-Hin.
  - intros i. rewrite elem_of_sorted_set, list_elem_of_bind. setoid_rewrite list_elem_of_fmap.
    setoid_rewrite Hin. naive_solver.
Qed.

(** A bundle summary is exact: its artifacts are those with evidence, once
    each; its worst risk bounds every artifact's and is one artifact's; the
    worst, unknown and stale artifacts are exactly those; the mean is that of
    the known risks, rounded to thousandths, and is absent when none is known;
    the counts are those of the distinct evidence, and the weakest trust and
    the provider identities are the evidence's. *)
Theorem bundle_summary_exact evidence s :
  distinct_text evidence → Forall valid_evidence evidence →
  summarize_bundle_security evidence = Ret s → summary_exact evidence s.
Proof. apply summarize_exact. Qed.

(** * The policy *)

(** The rules that fire on the evidence, each with the artifacts it names. *)
Inductive rule_hit (policy : SecurityInstallPolicy) (evidence : list ArtifactSecurityEvidence) :
    SecurityPolicyAction → ArtifactCoordinate → Prop :=
  | hit_unknown e : e ∈ evidence → ev_risk e = R_UNKNOWN →
      rule_hit policy evidence (sp_unknown_action policy) (ev_coordinate e)
  | hit_stale e : e ∈ evidence → sa_status (ev_assessment e) = STALE →
      rule_hit policy evidence (sp_stale_action policy) (ev_coordinate e)
  | hit_failed e : e ∈ evidence → sa_status (ev_assessment e) = FAILED →
      rule_hit policy evidence (sp_failed_action policy) (ev_coordinate e)
  | hit_critical e : e ∈ evidence → ev_risk e = R_CRITICAL →
      rule_hit policy evidence (sp_critical_action policy) (ev_coordinate e)
  | hit_high e : e ∈ evidence → ev_risk e = R_HIGH →
      (∀ e', e' ∈ evidence → ev_risk e' ≠ R_CRITICAL) →
      rule_hit policy evidence (sp_high_action policy) (ev_coordinate e)
  | hit_trust e minimum : e ∈ evidence → sp_minimum_attestation_trust policy = Some minimum →
      (TRUST_RANK (ev_attestation_trust e) < TRUST_RANK minimum)%Z →
      rule_hit policy evidence (sp_insufficient_trust_action policy) (ev_coordinate e)
  | hit_provider e r : e ∈ evidence → r ∈ sp_required_provider_ids policy →
      r ∉ map pv_id (sa_providers (ev_assessment e)) →
      rule_hit policy evidence (sp_missing_provider_action policy) (ev_coordinate e).
Definition triggered_rule := (SecurityPolicyAction * string * list ArtifactCoordinate)%type.
Definition fires (l : list triggered_rule) (a : SecurityPolicyAction) (c : ArtifactCoordinate) : Prop :=
  ∃ r items, (a, r, items) ∈ l ∧ c ∈ items.

Lemma fires_app l k a c : fires (l ++ k) a c ↔ fires l a c ∨ fires k a c.
Proof. unfold fires. setoid_rewrite elem_of_app. naive_solver. Qed.
Lemma fires_nil a c : fires [] a c ↔ False.
Proof. unfold fires. split; [|done]. by intros (r & i & ?%elem_of_nil & _). Qed.
Lemma fires_one a' r' items' a c : fires [(a', r', items')] a c ↔ a = a' ∧ c ∈ items'.
Proof. unfold fires. setoid_rewrite list_elem_of_singleton. naive_solver. Qed.
Lemma fires_trigger a' r' items' a c : fires (trigger a' r' items') a c ↔ a = a' ∧ c ∈ items'.
Proof.
  destruct items' as [|x items']; [|apply fires_one]. rewrite fires_nil, elem_of_nil. tauto.
Qed.

Lemma fires_risk policy evidence s a c : summary_exact evidence s →
  fires (if bool_decide (bs_risk_max s = R_CRITICAL) then
           [(sp_critical_action policy, "Worst observed installation risk is critical.",
             bs_worst_artifacts s)]
         else if bool_decide (bs_risk_max s = R_HIGH) then
           [(sp_high_action policy, "Worst observed installation risk is high.", bs_worst_artifacts s)]
         else []) a c ↔
  (∃ e, e ∈ evidence ∧ ev_risk e = R_CRITICAL ∧ ev_coordinate e = c ∧ a = sp_critical_action policy) ∨
  (∃ e, e ∈ evidence ∧ ev_risk e = R_HIGH ∧ (∀ e', e' ∈ evidence → ev_risk e' ≠ R_CRITICAL) ∧
     ev_coordinate e = c ∧ a = sp_high_action policy).
Proof.
  intros Hs. pose proof (se_max _ _ Hs) as Hmax. pose proof (se_max_reached _ _ Hs) as (em & Hem & Hrm).
  assert (∀ e, e ∈ evidence → ev_risk e = R_CRITICAL → bs_risk_max s = R_CRITICAL) as Hc.
  { intros e He Hr. specialize (Hmax e He). rewrite Hr in Hmax. by destruct (bs_risk_max s). }
  assert (∀ e, e ∈ evidence → ev_risk e = R_HIGH → bs_risk_max s = R_HIGH ∨ bs_risk_max s = R_CRITICAL) as Hh.
  { intros e He Hr. specialize (Hmax e He). rewrite Hr in Hmax. destruct (bs_risk_max s); auto; done. }
  case_bool_decide as E; [|case_bool_decide as E'].
  - rewrite fires_one, (se_worst_artifacts _ _ Hs). rewrite E in *. split; [naive_solver|].
    intros [?|(e & He & Hr & Hno & _)]; [naive_solver|]. exfalso. exact (Hno em Hem Hrm).
  - rewrite fires_one, (se_worst_artifacts _ _ Hs). rewrite E' in *. split.
    + intros (-> & e & He & Hr & <-). right. exists e. split_and!; try done.
      intros e' He' Hr'. specialize (Hc e' He' Hr'). done.
    + intros [(e & He & Hr & _)|?]; [|naive_solver]. by specialize (Hc e He Hr).
  - rewrite fires_nil. split; [done|]. intros [(e & He & Hr & _)|(e & He & Hr & _)].
    + by specialize (Hc e He Hr).
    + by destruct (Hh e He Hr).
Qed.

Lemma forallb_missing required ids :
  negb (forallb (λ r, mem r ids) required) = true ↔ ∃ r : string, r ∈ required ∧ r ∉ ids.
Proof.
  rewrite negb_true_iff. induction required as [|r required IH]; simpl.
  - split; [done|]. by intros (r & ?%elem_of_nil & _).
  - rewrite andb_false_iff, mem_false, IH. setoid_rewrite elem_of_cons. naive_solver.
Qed.

Lemma triggered_spec policy evidence s a c : summary_exact evidence s →
  rule_hit policy evidence a c ↔ fires (triggered_rules s evidence policy) a c.
Proof.
  intros Hs. unfold triggered_rules. rewrite !fires_app, fires_risk, !fires_trigger by done.
  rewrite (se_unknown _ _ Hs), (se_stale _ _ Hs), filter_coordinates.
  setoid_rewrite bool_decide_eq_true.
  assert (fires match sp_minimum_attestation_trust policy with
    | Some minimum => trigger (sp_insufficient_trust_action policy)
           "One or more artifacts have insufficient locally derived attestation trust."
           (map ev_coordinate (List.filter (λ e, (TRUST_RANK (ev_attestation_trust e) <? TRUST_RANK minimum)%Z) evidence))
    | None => [] end a c ↔
    a = sp_insufficient_trust_action policy ∧ ∃ e minimum, e ∈ evidence ∧ ev_coordinate e = c ∧
      sp_minimum_attestation_trust policy = Some minimum ∧
      (TRUST_RANK (ev_attestation_trust e) < TRUST_RANK minimum)%Z) as ->.
  { destruct (sp_minimum_attestation_trust policy) as [m|]; [|rewrite fires_nil; naive_solver].
    rewrite fires_trigger, filter_coordinates. setoid_rewrite Z.ltb_lt. naive_solver. }
  assert (fires match sp_required_provider_ids policy with
    | [] => []
    | _ :: _ => trigger (sp_missing_provider_action policy)
           "One or more artifacts are missing a required assessment provider suite."
           (map ev_coordinate (List.filter (λ e, negb (forallb
             (λ r, mem r (map pv_id (sa_providers (ev_assessment e)))) (sp_required_provider_ids policy))) evidence))
    end a c ↔
    a = sp_missing_provider_action policy ∧ ∃ e r, e ∈ evidence ∧ ev_coordinate e = c ∧
      r ∈ sp_required_provider_ids policy ∧ r ∉ map pv_id (sa_providers (ev_assessment e))) as Hprov.
  { transitivity (a = sp_missing_provider_action policy ∧ c ∈ map ev_coordinate
      (List.filter (λ e, negb (forallb (λ r, mem r (map pv_id (sa_providers (ev_assessment e))))
         (sp_required_provider_ids policy))) evidence)).
    - destruct (sp_required_provider_ids policy) as [|r0 rs]; [|apply fires_trigger].
      rewrite fires_nil, filter_coordinates. simpl. naive_solver.
    - rewrite filter_coordinates. setoid_rewrite forallb_missing. naive_solver. }
  rewrite Hprov. split.
  - intros []; naive_solver.
  - intros H'. destruct_or! H'; destruct_and?; repeat match goal with H : ∃ _, _ |- _ => destruct H as [? H] end;
      destruct_and?; subst; eauto using rule_hit.
Qed.
(** Every triggered rule names an artifact and gives a reason. *)
Definition sound_rule (t : triggered_rule) : Prop := t.2 ≠ [] ∧ not_one_line t.1.2 = false.

Lemma trigger_sound a r items : not_one_line r = false → Forall sound_rule (trigger a r items).
Proof. intros Hr. destruct items; repeat constructor; done. Qed.

Lemma triggered_sound policy evidence s :
  summary_exact evidence s → Forall sound_rule (triggered_rules s evidence policy).
Proof.
  intros Hs. unfold triggered_rules. rewrite !Forall_app. split_and!.
  1-3: by apply trigger_sound.
  - assert (bs_worst_artifacts s ≠ []) as Hw.
    { destruct (se_max_reached _ _ Hs) as (e & He & Hr).
      assert (ev_coordinate e ∈ bs_worst_artifacts s) as Hin by (apply (se_worst_artifacts _ _ Hs); eauto).
      intros E. rewrite E in Hin. by apply elem_of_nil in Hin. }
    repeat case_bool_decide; repeat constructor; done.
  - destruct (sp_minimum_attestation_trust policy); [by apply trigger_sound|constructor].
  - destruct (sp_required_provider_ids policy); [constructor|by apply trigger_sound].
Qed.

Lemma security_policy_decision_Ret action reasons affected :
  reasons ≠ [] → Forall (λ r, not_one_line r = false) reasons → coordinate_set affected = affected →
  security_policy_decision action reasons affected
  = Ret (MkDecision action (sorted_set id reasons) affected).
Proof.
  intros Hne Hr Ha. unfold security_policy_decision. rewrite Ha, (bool_decide_true (affected = _)) by done.
  rewrite bool_decide_false by (by rewrite sorted_set_nil_iff).
  assert (existsb not_one_line (sorted_set id reasons) = false) as ->; [|done].
  apply not_true_is_false. intros (r & Hin & Hx)%existsb_In. apply elem_of_sorted_set in Hin.
  rewrite Forall_forall in Hr. specialize (Hr r Hin). congruence.
Qed.

Lemma elem_of_affected (l : list triggered_rule) c :
  c ∈ concat (map (λ t, t.2) l) ↔ ∃ a, fires l a c.
Proof.
  unfold fires. rewrite list_elem_of_In, in_concat. setoid_rewrite in_map_iff. split.
  - intros (k & ([[a r] items] & <- & Hl) & Hc). exists a, r, items.
    by rewrite !list_elem_of_In.
  - intros (a & r & items & Hl & Hc). exists items. rewrite <-!list_elem_of_In.
    split; [|done]. exists (a, r, items). by rewrite <-list_elem_of_In.
Qed.

Lemma hit_coordinate policy evidence a c :
  rule_hit policy evidence a c → ∃ e, e ∈ evidence ∧ ev_coordinate e = c.
Proof. intros []; eauto. Qed.

(** C33: in a scope the policy applies to, the decision is exactly what the
    rules that fire on the evidence ask for: the affected artifacts are those
    some rule names, the action is the strictest of the rules that fire, and
    it is [allow] when none fires.  The mean risk plays no part: a single
    critical artifact triggers the critical action whatever the others are. *)
Theorem evaluate_security_policy_exact summary evidence policy scope :
  distinct_text evidence → Forall valid_evidence evidence →
  summarize_bundle_security evidence = Ret summary →
  scope ∈ ["project"; "user"] → scope ∈ sp_scopes policy →
  ∃ d, evaluate_security_policy summary evidence policy scope = Ret d ∧
    (∀ c, c ∈ sd_affected_artifacts d ↔ ∃ a, rule_hit policy evidence a c) ∧
    (∀ a c, rule_hit policy evidence a c → (action_rank a ≤ action_rank (sd_action d))%Z) ∧
    ((∃ c, rule_hit policy evidence (sd_action d) c) ∨
     (sd_action d = ALLOW ∧ ∀ a c, ¬ rule_hit policy evidence a c)).
Proof.
  intros Ht Hv Hs Hscope Hp. pose proof (summarize_exact _ _ Ht Hv Hs) as Hx.
  unfold evaluate_security_policy. rewrite (proj2 (mem_true _ _) Hscope), Hs.
  cbn [negb raise_if mbind py_bind]. rewrite bool_decide_true by done. cbn [negb raise_if mbind py_bind].
  rewrite (proj2 (mem_true _ _) Hp). cbn [negb].
  pose proof (λ a c, triggered_spec policy evidence summary a c Hx) as Hspec.
  pose proof (triggered_sound policy evidence summary Hx) as Hsound.
  set (l := triggered_rules summary evidence policy) in *.
  destruct (max_by action_rank _) as [action|] eqn:Hm.
  - apply max_by_Some in Hm as [Hin Hmax]. apply list_elem_of_fmap in Hin as (t & -> & Htl).
    eexists. split; [apply security_policy_decision_Ret|].
    + intros Hn. destruct l; [by apply elem_of_nil in Htl|done].
    + apply Forall_fmap. eapply Forall_impl; [exact Hsound|]. by intros ? [_ ?].
    + apply coordinate_set_idemp. intros x y Hx1 Hy1.
      assert (∀ z, z ∈ concat (map (λ t : triggered_rule, t.2) l) → ∃ e, e ∈ evidence ∧ ev_coordinate e = z) as Hev.
      { intros z [a Ha]%elem_of_affected. apply Hspec in Ha. by eapply hit_coordinate. }
      destruct (Hev x Hx1) as (e & He & <-), (Hev y Hy1) as (e' & He' & <-). by apply Ht.
    + cbn [sd_affected_artifacts sd_action]. split_and!.
      * intros c. rewrite elem_of_coordinate_set. setoid_rewrite Hspec. apply elem_of_affected.
      * intros a c (r & items & Hr & _)%Hspec. apply Hmax, list_elem_of_fmap. by exists (a, r, items).
      * left. rewrite Forall_forall in Hsound. destruct (Hsound t Htl) as [Hne _].
        destruct t as [[a r] items]. simpl in *. destruct items as [|c items]; [done|].
        exists c. apply Hspec. exists r, (c :: items). split; [done|left].
  - apply max_by_None in Hm. assert (l = []) as Hl by (by destruct l).
    eexists. split; [apply security_policy_decision_Ret; [done|by repeat constructor|]|].
    + apply coordinate_set_id; [intros ?? ?%elem_of_nil; done|constructor..].
    + cbn [sd_affected_artifacts sd_action].
      assert (∀ a c, ¬ rule_hit policy evidence a c) as Hno.
      { intros a c (r & items & Hr & _)%Hspec. rewrite Hl in Hr. by apply elem_of_nil in Hr. }
      split_and!; [|naive_solver..]. intros c. rewrite elem_of_nil. naive_solver.
Qed.
End summaries.

(** * Concrete bundles *)

Section sample.
Definition sample_evidence (name : string) (a : SecurityAssessment) : ArtifactSecurityEvidence :=
  MkEvidence (MkCoordinate (MkAlias "org") (MkIdentity Skill name) (Some "1.0.0")) a LOCAL (Some 60%Z).
(** The assessment of an object no provider has scanned. *)
Definition unscanned (skip : string) : SecurityAssessment :=
  MkAssessment 1 sample_rules NOT_SCANNED R_UNKNOWN S_UNKNOWN (MkCoverage 0 8 [skip]) []
    [MkProvider "aart-baseline" "1" sample_rules NOT_SCANNED (MkCoverage 0 8 [skip]) "not scanned"].
Definition sample_bundle : list ArtifactSecurityEvidence :=
  [sample_evidence "b" (unscanned "baseline:not-requested"); sample_evidence "a" sample_assessment].
Definition sample_summary : BundleSecuritySummary :=
  ret_or (MkSummary [] 0 R_UNKNOWN R_UNKNOWN R_UNKNOWN None 0 S_UNKNOWN [] [] sample_coverage [] [] []
            [] UNVERIFIED)
    (@summarize_bundle_security ascii_unicode insertion_order sample_bundle).

Lemma sample_bundle_text : distinct_text sample_bundle.
Proof.
  intros e e' He He'. unfold sample_bundle in He, He'.
  repeat (apply elem_of_cons in He as [->|He]); repeat (apply elem_of_cons in He' as [->|He']);
    try (by apply elem_of_nil in He); try (by apply elem_of_nil in He'); done.
Qed.

Lemma sample_bundle_valid : Forall (@valid_evidence ascii_unicode) sample_bundle.
Proof. repeat constructor. Qed.

Lemma sample_summary_eq :
  @summarize_bundle_security ascii_unicode insertion_order sample_bundle = Ret sample_summary.
Proof. vm_compute. reflexivity. Qed.

(** The unknown risk of [b] is kept outside the mean. *)
Lemma sample_summary_risks :
  (bs_risk_max sample_summary, bs_mean_risk_milli sample_summary,
   map (λ c, id_name (co_artifact c)) (bs_unknown_artifacts sample_summary))
  = (R_MEDIUM, Some 2000%Z, ["b"]).
Proof. vm_compute. reflexivity. Qed.

(** A valid assessment whose one skip has the greatest length allowed. *)
Definition long_skip : string := String.concat "" (repeat "a" 512).
Definition long_evidence : ArtifactSecurityEvidence := sample_evidence "a" (unscanned long_skip).

Lemma long_evidence_valid :
  @valid_assessment ascii_unicode (ev_assessment long_evidence) ∧
  @valid_evidence ascii_unicode long_evidence.
Proof.
  split; [split; [|constructor; [|constructor]]|]; vm_compute; reflexivity.
Qed.
End sample.

(** The limit on the length of a skip is applied again to the skips of the
    bundle, which are longer by their coordinate: evidence that is valid by
    itself cannot be summarised. *)
Theorem valid_evidence_not_summarised :
  ∃ e, @valid_assessment ascii_unicode (ev_assessment e) ∧ @valid_evidence ascii_unicode e ∧
    @summarize_bundle_security ascii_unicode insertion_order [e]
    = Raise (ValueError "assessment coverage is invalid").
Proof.
  exists long_evidence. split; [apply long_evidence_valid|].
  split; [apply long_evidence_valid|vm_compute; reflexivity].
Qed.

Lemma summarize_bundle_security_returns_witness :
  ∃ s, @summarize_bundle_security ascii_unicode insertion_order sample_bundle = Ret s.
Proof.
  apply (@summarize_bundle_security_returns ascii_unicode insertion_order sample_bundle
    sample_bundle_text sample_bundle_valid).
  split; [done|]. split; [|split].
  - intros e e' He He'. unfold sample_bundle in He, He'.
    repeat (apply elem_of_cons in He as [->|He]); repeat (apply elem_of_cons in He' as [->|He']);
      try (by apply elem_of_nil in He); try (by apply elem_of_nil in He'); done.
  - vm_compute. lia.
  - intros r Hr. apply list_elem_of_singleton in Hr. subst r. vm_compute. reflexivity.
Defined.

Lemma bundle_summary_exact_witness : summary_exact sample_bundle sample_summary.
Proof.
  exact (@bundle_summary_exact ascii_unicode insertion_order sample_bundle sample_summary
    sample_bundle_text sample_bundle_valid sample_summary_eq).
Defined.

Lemma evaluate_security_policy_exact_witness :
  ∃ d, @evaluate_security_policy ascii_unicode insertion_order sample_summary sample_bundle
    default_policy "project" = Ret d.
Proof.
  destruct (@evaluate_security_policy_exact ascii_unicode insertion_order sample_summary sample_bundle
    default_policy "project" sample_bundle_text sample_bundle_valid sample_summary_eq)
    as (d & Hd & _).
  - apply list_elem_of_In. simpl. tauto.
  - apply list_elem_of_In. simpl. tauto.
  - exists d. exact Hd.
Defined.
