(* ===== verification/Redaction.v ===== *)
(** The redactor ([redaction.py]): the five substitutions over code points,
    what they leave behind, and that they are not idempotent.

    The patterns are run as Python's backtracking engine runs them: a pattern
    lists the lengths it can match at a position in the order it tries them,
    and a substitution takes the first. *)
From S2P Require Import Prelude PyText.
From Stdlib Require Import Ascii.

(** * Patterns *)

(** The code points of a string. *)
Notation text := (list string).

Inductive pat : Type :=
  | PEps
  | PChar (p : string → bool)
  | PStar (p : string → bool)          (** [[...]*], greedy *)
  | PLazy (p : string → bool)          (** [[...]*?] *)
  | PSeq (a b : pat)
  | PAlt (a b : pat).

(** The length of the longest prefix of characters satisfying [p]. *)
Fixpoint run_length (p : string → bool) (s : text) : nat :=
  match s with
  | [] => 0
  | c :: s => if p c then S (run_length p s) else 0
  end.

(** The lengths [a] matches at the start of [s], in the order tried. *)
Fixpoint match_lengths (a : pat) (s : text) : list nat :=
  match a with
  | PEps => [0]
  | PChar p => match s with c :: _ => if p c then [1] else [] | [] => [] end
  | PStar p => reverse (seq 0 (S (run_length p s)))
  | PLazy p => seq 0 (S (run_length p s))
  | PSeq a b => match_lengths a s ≫= λ i, map (Nat.add i) (match_lengths b (drop i s))
  | PAlt a b => match_lengths a s ++ match_lengths b s
  end.

(** The first match of [prefix] followed by [body]: the two lengths. *)
Definition first_match (prefix body : pat) (s : text) : option (nat * nat) :=
  head (match_lengths prefix s ≫= λ i, map (λ j, (i, j)) (match_lengths body (drop i s))).

(** [re.sub] with the replacement [\g<prefix>] followed by [repl]: [k] code
    points of the last match are still to be skipped.  No pattern here matches
    the empty string. *)
Fixpoint sub (prefix body : pat) (repl : text) (k : nat) (s : text) : text :=
  match s with
  | [] => []
  | c :: s' =>
      match k with
      | S k => sub prefix body repl k s'
      | O =>
          match first_match prefix body s with
          | Some (i, j) => take i s ++ repl ++ sub prefix body repl (pred (i + j)) s'
          | None => c :: sub prefix body repl 0 s'
          end
      end
  end.

(** [pattern.search(s)] finds a match. *)
Fixpoint search (a : pat) (s : text) : bool :=
  negb (bool_decide (match_lengths a s = [])) ||
  match s with [] => false | _ :: s => search a s end.

(** ** Classes and literals *)

Definition cls (p : ascii → bool) (cp : string) : bool :=
  match cp with String c EmptyString => p c | _ => false end.

(** Case is ignored as [re.IGNORECASE] does it on [str] patterns: the ASCII
    letters, and the four other code points that fold to one of them. *)
Definition fold_case (cp : string) : string :=
  match cp with
  | String c EmptyString => String (lower_ascii c) ""
  | String a (String b EmptyString) =>
      if (code a =? 196)%N && ((code b =? 176)%N || (code b =? 177)%N) then "i"
      else if (code a =? 197)%N && (code b =? 191)%N then "s" else cp
  | String a (String b (String c EmptyString)) =>
      if (code a =? 226)%N && (code b =? 132)%N && (code c =? 170)%N then "k" else cp
  | _ => cp
  end.
Definition icls (p : ascii → bool) (cp : string) : bool := cls p (fold_case cp).

Fixpoint literal (s : string) : pat :=
  match s with
  | EmptyString => PEps
  | String c s => PSeq (PChar (cls (is_char c))) (literal s)
  end.
Fixpoint iliteral (s : string) : pat :=
  match s with
  | EmptyString => PEps
  | String c s => PSeq (PChar (icls (is_char c))) (iliteral s)
  end.
Definition PPlus (p : string → bool) : pat := PSeq (PChar p) (PStar p).
(** [[...]{n,}] *)
Fixpoint at_least (n : nat) (p : string → bool) : pat :=
  match n with O => PStar p | S n => PSeq (PChar p) (at_least n p) end.
Definition POpt (a : pat) : pat := PAlt a PEps.
Fixpoint PAny (l : list pat) : pat :=
  match l with
  | [] => PChar (λ _, false)
  | [a] => a
  | a :: l => PAlt a (PAny l)
  end.

Definition one_of (chars : string) (c : ascii) : bool := has_char c chars.

(** * The substitutions *)

Section redaction.
Context `{UnicodeData}.

(** [[^...\s]] *)
Definition none_of (chars : string) (cp : string) : bool :=
  negb (cls (one_of chars) cp || is_space cp).

Definition URL_PREFIX : pat :=
  PSeq (PChar (icls is_lower))
    (PSeq (PStar (icls (λ c, is_lower c || is_digit c || one_of "+.-" c))) (literal "://")).
Definition URL_CREDENTIALS : pat := PSeq (PPlus (none_of "/@")) (literal "@").

Definition QUERY_PREFIX : pat :=
  PSeq (PChar (cls (one_of "?&")))
    (PSeq (PAny (map iliteral ["token"; "access_token"; "api_key"; "key"; "secret"; "password"]))
       (literal "=")).
Definition QUERY_SECRET : pat := PPlus (none_of "&#").

Definition NAME : string → bool := icls (λ c, is_alnum c || one_of "_.-" c).
Definition ASSIGNMENT_PREFIX : pat :=
  PSeq (PStar NAME)
    (PSeq (PAny [iliteral "token"; iliteral "password"; iliteral "passwd"; iliteral "secret";
                 PSeq (iliteral "api") (PSeq (POpt (PChar (cls (one_of "_-")))) (iliteral "key"));
                 iliteral "apikey"; iliteral "credential"; iliteral "auth"])
       (PSeq (PStar NAME)
          (PSeq (PStar is_space) (PSeq (PChar (cls (one_of ":="))) (PStar is_space))))).
Definition ASSIGNMENT_SECRET : pat := PPlus (none_of ",;&#").

Definition CREDENTIAL_SHAPE : pat :=
  PAny [PSeq (literal "gh") (PSeq (PChar (cls (one_of "pousr")))
          (PSeq (literal "_") (at_least 16 (cls is_alnum))));
        PSeq (literal "github_pat_") (at_least 20 (cls (λ c, is_alnum c || is_char "_" c)));
        PSeq (literal "xox") (PSeq (PChar (cls (one_of "bpsar")))
          (PSeq (literal "-") (at_least 10 (cls (λ c, is_alnum c || is_char "-" c)))));
        PSeq (literal "AKIA") (Nat.iter 16 (PSeq (PChar (cls (λ c, is_digit c || is_upper c)))) PEps);
        PSeq (literal "sk-") (at_least 20 (cls is_alnum))].

Definition key_marker (word : string) : pat :=
  PSeq (literal ("-----" +:+ word))
    (PSeq (POpt (PSeq (literal " ") (PPlus (cls is_upper)))) (literal " PRIVATE KEY-----")).
Definition PRIVATE_KEY : pat :=
  PSeq (key_marker "BEGIN") (PSeq (PLazy (λ _, true)) (key_marker "END")).

Definition REDACTED : text := code_points "[redacted]".

(** The five passes, over code points. *)
Definition redact_keys (s : text) : text :=
  sub PEps PRIVATE_KEY (code_points "[redacted private key]") 0 s.
Definition redact_urls (s : text) : text := sub URL_PREFIX URL_CREDENTIALS (REDACTED ++ ["@"]) 0 s.
Definition redact_queries (s : text) : text := sub QUERY_PREFIX QUERY_SECRET REDACTED 0 s.
Definition redact_assignments (s : text) : text :=
  sub ASSIGNMENT_PREFIX ASSIGNMENT_SECRET REDACTED 0 s.
Definition redact_shapes (s : text) : text := sub PEps CREDENTIAL_SHAPE REDACTED 0 s.

Definition redact_code_points (s : text) : text :=
  redact_shapes (redact_assignments (redact_queries (redact_urls (redact_keys s)))).

Definition redact_text (s : string) : string :=
  String.concat "" (redact_code_points (code_points s)).

(** [contains_credential_shape], on code points and on strings. *)
Definition shaped (s : text) : bool := search CREDENTIAL_SHAPE s || search PRIVATE_KEY s.
Definition contains_credential_shape (s : string) : bool := shaped (code_points s).

End redaction.

(** * What a match depends on *)

(** A match only looks at what it consumes. *)
Lemma match_lengths_local a s k :
  k ∈ match_lengths a s → k ≤ length s ∧ ∀ t, k ∈ match_lengths a (take k s ++ t).
Proof.
  assert (∀ p s i, i ≤ run_length p s → i ≤ length s ∧ ∀ t, i ≤ run_length p (take i s ++ t)) as Hrun.
  { intros p. clear. induction s as [|c s IH]; intros i Hi; simpl in *; [split; [lia|intros; lia]|].
    destruct i as [|i]; [split; [lia|intros; lia]|]. destruct (p c) eqn:Hc; [|lia].
    destruct (IH i ltac:(lia)) as [Hl Ht]. split; [lia|]. intros t. simpl. rewrite Hc. specialize (Ht t). lia. }
  revert s k. induction a as [|p|p|p|a IHa b IHb|a IHa b IHb]; intros s k; cbn [match_lengths].
  - intros ->%list_elem_of_singleton. split; [lia|]. intros. by left.
  - destruct s as [|c s]; [by intros ?%elem_of_nil|]. destruct (p c) eqn:Hc; [|by intros ?%elem_of_nil].
    intros ->%list_elem_of_singleton. split; [simpl; lia|]. intros t. simpl. rewrite Hc. by left.
  - rewrite elem_of_reverse, elem_of_seq. intros Hk. destruct (Hrun p s k ltac:(lia)) as [Hl Ht].
    split; [done|]. intros t. rewrite elem_of_reverse, elem_of_seq. specialize (Ht t). lia.
  - rewrite elem_of_seq. intros Hk. destruct (Hrun p s k ltac:(lia)) as [Hl Ht].
    split; [done|]. intros t. rewrite elem_of_seq. specialize (Ht t). lia.
  - rewrite list_elem_of_bind. intros (i & (j & -> & Hj)%list_elem_of_fmap & Hi).
    destruct (IHa _ _ Hi) as [Hil Hit], (IHb _ _ Hj) as [Hjl Hjt]. rewrite length_drop in Hjl.
    split; [lia|]. intros t. rewrite list_elem_of_bind. exists i. split.
    + apply list_elem_of_fmap. exists j. split; [done|].
      rewrite <-take_take_drop, <-app_assoc, drop_app_length' by (rewrite length_take; lia). apply Hjt.
    + rewrite <-take_take_drop, <-app_assoc. apply Hit.
  - rewrite elem_of_app. intros [Hk|Hk]; [destruct (IHa _ _ Hk)|destruct (IHb _ _ Hk)];
      (split; [done|]); intros t; rewrite elem_of_app; auto.
Qed.

(** Every character [a] can consume satisfies [D]. *)
Fixpoint pat_chars (D : string → bool) (a : pat) : Prop :=
  match a with
  | PEps => True
  | PChar p | PStar p | PLazy p => ∀ c, p c = true → D c = true
  | PSeq a b | PAlt a b => pat_chars D a ∧ pat_chars D b
  end.

Lemma match_lengths_chars D a s k :
  pat_chars D a → k ∈ match_lengths a s → Forall (λ c, D c = true) (take k s).
Proof.
  assert (∀ p s i, (∀ c, p c = true → D c = true) → i ≤ run_length p s →
            Forall (λ c, D c = true) (take i s)) as Hrun.
  { intros p. clear. induction s as [|c s IH]; intros i Hp Hi; simpl in *; [destruct i; constructor|].
    destruct i as [|i]; [constructor|]. destruct (p c) eqn:Hc; [|lia]. simpl.
    constructor; [auto|]. apply IH; [done|lia]. }
  revert s k. induction a as [|p|p|p|a IHa b IHb|a IHa b IHb]; intros s k Hd; cbn [match_lengths].
  - intros ->%list_elem_of_singleton. constructor.
  - destruct s as [|c s]; [by intros ?%elem_of_nil|]. destruct (p c) eqn:Hc; [|by intros ?%elem_of_nil].
    intros ->%list_elem_of_singleton. simpl. constructor; [by apply Hd|constructor].
  - rewrite elem_of_reverse, elem_of_seq. intros Hk. apply (Hrun p); [done|lia].
  - rewrite elem_of_seq. intros Hk. apply (Hrun p); [done|lia].
  - destruct Hd as [Ha Hb]. rewrite list_elem_of_bind.
    intros (i & (j & -> & Hj)%list_elem_of_fmap & Hi).
    rewrite <-take_take_drop. apply Forall_app. eauto.
  - destruct Hd as [Ha Hb]. rewrite elem_of_app. intros [Hk|Hk]; eauto.
Qed.

(** Every match of [a] starts with a character satisfying [F]. *)
Fixpoint pat_first (F : string → bool) (a : pat) : Prop :=
  match a with
  | PEps | PStar _ | PLazy _ => False
  | PChar p => ∀ c, p c = true → F c = true
  | PSeq a _ => pat_first F a
  | PAlt a b => pat_first F a ∧ pat_first F b
  end.

Lemma match_lengths_first F a s k :
  pat_first F a → k ∈ match_lengths a s → ∃ c t, s = c :: t ∧ F c = true.
Proof.
  revert s k. induction a as [|p|p|p|a IHa b IHb|a IHa b IHb]; intros s k; simpl; try done.
  - intros Hp. destruct s as [|c s]; [by intros ?%elem_of_nil|].
    destruct (p c) eqn:Hc; [|by intros ?%elem_of_nil]. intros _. eauto.
  - intros Hf (i & _ & Hi)%list_elem_of_bind. eauto.
  - intros [Ha Hb] [Hk|Hk]%elem_of_app; eauto.
Qed.

(** * What a substitution leaves *)

(** The replacements. *)
Definition markers : list text :=
  [REDACTED; REDACTED ++ ["@"]; code_points "[redacted private key]"].

(** [o] is [s] with some stretches replaced by markers. *)
Inductive redacts : text → text → Prop :=
  | redacts_nil : redacts [] []
  | redacts_keep c s o : redacts s o → redacts (c :: s) (c :: o)
  | redacts_cut x r s o : r ∈ markers → redacts s o → redacts (x ++ s) (r ++ o).

Lemma redacts_refl s : redacts s s.
Proof. induction s; by constructor. Qed.

Lemma redacts_app u s o : redacts s o → redacts (u ++ s) (u ++ o).
Proof. intros Hr. induction u; [done|]. by constructor. Qed.

Lemma first_match_Some prefix body s i j :
  first_match prefix body s = Some (i, j) →
  i ∈ match_lengths prefix s ∧ j ∈ match_lengths body (drop i s).
Proof.
  unfold first_match. intros Hh.
  assert ((i, j) ∈ match_lengths prefix s ≫= λ i, map (λ j, (i, j)) (match_lengths body (drop i s))) as Hin.
  { destruct (match_lengths prefix s ≫= _); [done|]. injection Hh as ->. left. }
  apply list_elem_of_bind in Hin as (i' & (j' & [= -> ->] & Hj)%list_elem_of_fmap & Hi). done.
Qed.

Lemma sub_redacts prefix body r k s : r ∈ markers → k ≤ length s →
  redacts (drop k s) (sub prefix body r k s).
Proof.
  intros Hr. revert k. induction s as [|c s IH]; intros k Hk; [destruct k; constructor|].
  simpl sub. destruct k as [|k]; [|apply IH; simpl in Hk; lia].
  destruct (first_match prefix body (c :: s)) as [[i j]|] eqn:Hm.
  2:{ simpl. constructor. specialize (IH 0 ltac:(lia)). by rewrite drop_0 in IH. }
  apply first_match_Some in Hm as [[Hi _]%match_lengths_local [Hj _]%match_lengths_local].
  rewrite length_drop in Hj. rewrite drop_0. rewrite <-(take_drop i (c :: s)) at 1.
  apply redacts_app. destruct (i + j) as [|n] eqn:E.
  - assert (i = 0) as -> by lia. simpl. specialize (IH 0 ltac:(lia)). rewrite drop_0 in IH.
    exact (redacts_cut [c] r s _ Hr IH).
  - simpl pred. specialize (IH n ltac:(simpl in *; lia)).
    assert (drop i (c :: s) = take j (drop i (c :: s)) ++ drop n s) as ->; [|by apply redacts_cut].
    rewrite <-(take_drop j (drop i (c :: s))) at 1. rewrite drop_drop, E. done.
Qed.

(** ** Patterns that cannot touch a marker *)

Definition marker_chars : text := code_points "[redacted private key]@".
(** [D] excludes the bracket that opens every marker. *)
Definition unmarked (D : string → bool) : Prop := D "[" = false.
(** [F] excludes every character of a marker. *)
Definition outside (F : string → bool) : Prop := forallb (λ c, negb (F c)) marker_chars = true.

Lemma marker_head r : r ∈ markers → ∃ t, r = "[" :: t.
Proof.
  unfold markers. intros Hr. repeat (apply elem_of_cons in Hr as [->|Hr]); [..|by apply elem_of_nil in Hr];
    vm_compute; eauto.
Qed.

Lemma marker_in r c : r ∈ markers → c ∈ r → c ∈ marker_chars.
Proof.
  intros Hr. assert (∀ r', r' ∈ markers → forallb (λ c, mem c marker_chars) r' = true) as Hall.
  { intros r' Hr'. unfold markers in Hr'.
    repeat (apply elem_of_cons in Hr' as [->|Hr']); [..|by apply elem_of_nil in Hr']; vm_compute; done. }
  specialize (Hall r Hr). rewrite forallb_forall in Hall. intros Hc.
  apply mem_true, Hall. by apply list_elem_of_In.
Qed.

Lemma outside_marker F r c : outside F → r ∈ markers → c ∈ r → F c = false.
Proof.
  unfold outside. rewrite forallb_forall. intros Ho Hr Hc.
  specialize (Ho c (proj1 (list_elem_of_In _ _) (marker_in r c Hr Hc))).
  by apply negb_true_iff in Ho.
Qed.

(** Text without brackets was there before. *)
Lemma redacts_take D s o k :
  unmarked D → redacts s o → Forall (λ c, D c = true) (take k o) →
  take k s = take k o ∧ redacts (drop k s) (drop k o).
Proof.
  intros Hd Hr. revert k. induction Hr as [|c s o Hr IH|x r s o Hin Hr IH]; intros k Hk.
  - rewrite !take_nil, !drop_nil. split; [done|constructor].
  - destruct k as [|k]; [rewrite !drop_0; split; [done|by constructor]|]. simpl in *.
    apply Forall_cons in Hk as [_ Hk]. destruct (IH k Hk) as [-> ?]. done.
  - destruct k as [|k]; [rewrite !drop_0; split; [done|by constructor]|].
    destruct (marker_head r Hin) as [t ->]. simpl in Hk. apply Forall_cons in Hk as [Hc _].
    unfold unmarked in Hd. congruence.
Qed.

(** A match after a substitution was one before. *)
Definition stable (a : pat) : Prop :=
  ∀ s o, redacts s o → match_lengths a o ≠ [] → match_lengths a s ≠ [].

Lemma not_nil_elem {A} (l : list A) : l ≠ [] ↔ ∃ x, x ∈ l.
Proof.
  split; [destruct l as [|x l]; [done|]; intros _; exists x; left|].
  intros [x Hx] ->. by apply elem_of_nil in Hx.
Qed.

Lemma redacts_match D a s o k : unmarked D → pat_chars D a → redacts s o →
  k ∈ match_lengths a o → k ∈ match_lengths a s ∧ redacts (drop k s) (drop k o).
Proof.
  intros Hd Ha Hr Hk.
  destruct (redacts_take D s o k Hd Hr (match_lengths_chars D a o k Ha Hk)) as [Ht Hdr].
  split; [|done]. destruct (match_lengths_local a o k Hk) as [_ Hl].
  specialize (Hl (drop k s)). by rewrite <-Ht, take_drop in Hl.
Qed.

Lemma stable_local D a : unmarked D → pat_chars D a → stable a.
Proof.
  intros Hd Ha s o Hr [k Hk]%not_nil_elem. apply not_nil_elem. exists k.
  by eapply redacts_match.
Qed.

Lemma search_unfold a s :
  search a s = true ↔ match_lengths a s ≠ [] ∨ ∃ c t, s = c :: t ∧ search a t = true.
Proof.
  destruct s as [|c s]; cbn [search]; rewrite orb_true_iff, negb_true_iff, bool_decide_eq_false;
    naive_solver.
Qed.

Lemma search_app_r a u s : search a s = true → search a (u ++ s) = true.
Proof. induction u as [|c u IH]; [done|]. intros Hs. apply search_unfold. right. simpl. eauto. Qed.

Lemma search_marker F a r o :
  outside F → pat_first F a → r ∈ markers → search a (r ++ o) = true → search a o = true.
Proof.
  intros Ho Hf Hr. assert (∀ c, c ∈ r → F c = false) as Hall by (intros c; by eapply outside_marker).
  clear Hr. induction r as [|c r IH]; [done|]. intros [[k Hk]%not_nil_elem|(c' & t & [= <- <-] & Ht)]%search_unfold.
  - destruct (match_lengths_first F a _ k Hf Hk) as (c' & t & [= <- <-] & Hc).
    rewrite Hall in Hc; [done|left].
  - apply IH; [|done]. intros c' Hc'. apply Hall. by right.
Qed.

(** A substitution creates no occurrence of a stable pattern ... *)
Lemma redacts_search F a s o :
  outside F → pat_first F a → stable a → redacts s o → search a o = true → search a s = true.
Proof.
  intros Ho Hf Hs. induction 1 as [|c s o Hr IH|x r s o Hin Hr IH]; [done| |].
  - intros [Hm|(c' & t & [= <- <-] & Ht)]%search_unfold; apply search_unfold.
    + left. eapply Hs; [|exact Hm]. by constructor.
    + right. eauto.
  - intros Hsearch. apply search_app_r, IH. by eapply search_marker.
Qed.

Lemma first_match_None a s : first_match PEps a s = None → match_lengths a s = [].
Proof.
  unfold first_match. cbn [match_lengths mbind list_bind]. rewrite drop_0, app_nil_r.
  by destruct (match_lengths a s).
Qed.

(** ... and its own removes them all. *)
Lemma sub_search F a r k s :
  outside F → pat_first F a → stable a → r ∈ markers → search a (sub PEps a r k s) = false.
Proof.
  intros Ho Hf Hs Hr. revert k. induction s as [|c s IH]; intros k.
  - cbn. destruct (match_lengths a []) as [|k' l] eqn:E; [done|].
    assert (k' ∈ match_lengths a []) as Hk by (rewrite E; left).
    by destruct (match_lengths_first F a [] k' Hf Hk) as (? & ? & ? & _).
  - cbn [sub]. destruct k as [|k]; [|apply IH].
    apply not_true_is_false. destruct (first_match PEps a (c :: s)) as [[i j]|] eqn:Hm.
    + apply first_match_Some in Hm as [->%list_elem_of_singleton _]. cbn [take app].
      intros Hsearch%(search_marker F a r); [|done..]. by rewrite IH in Hsearch.
    + intros [Hsearch|(c' & t & [= <- <-] & Ht)]%search_unfold; [|by rewrite IH in Ht].
      apply first_match_None in Hm. eapply Hs in Hsearch; [by rewrite Hm in Hsearch|].
      constructor. pose proof (sub_redacts PEps a r 0 s Hr ltac:(lia)) as Hred.
      by rewrite drop_0 in Hred.
Qed.

(** ** A marked block: an opening, anything, a closing *)

Lemma lazy_search b s :
  match_lengths (PSeq (PLazy (λ _, true)) b) s ≠ [] ↔ search b s = true.
Proof.
  assert (run_length (λ _, true) s = length s) as Hlen by (induction s; simpl; auto).
  rewrite not_nil_elem. cbn [match_lengths]. setoid_rewrite list_elem_of_bind.
  setoid_rewrite list_elem_of_fmap. rewrite Hlen. setoid_rewrite elem_of_seq. clear Hlen.
  transitivity (∃ i, i ≤ length s ∧ match_lengths b (drop i s) ≠ []).
  { split.
    - intros (k & i & (j & -> & Hj) & Hi). exists i. split; [lia|]. apply not_nil_elem. eauto.
    - intros (i & Hi & [j Hj]%not_nil_elem). exists (i + j), i. split; [eauto|lia]. }
  induction s as [|c s IH].
  - cbn [length search]. rewrite orb_false_r, negb_true_iff, bool_decide_eq_false. split.
    + intros (i & Hi & Hm). by rewrite drop_nil in Hm.
    + intros Hm. by exists 0.
  - rewrite search_unfold. split.
    + intros (i & Hi & Hm). destruct i as [|i]; [by left|]. right. exists c, s. split; [done|].
      apply IH. exists i. split; [simpl in Hi; lia|done].
    + intros [Hm|(c' & t & [= <- <-] & Ht)]; [exists 0; split; [lia|done]|].
      apply IH in Ht as (i & Hi & Hm). exists (S i). split; [simpl; lia|done].
Qed.

Lemma block_match a b s :
  match_lengths (PSeq a (PSeq (PLazy (λ _, true)) b)) s ≠ [] ↔
  ∃ k, k ∈ match_lengths a s ∧ search b (drop k s) = true.
Proof.
  rewrite not_nil_elem. cbn [match_lengths]. setoid_rewrite list_elem_of_bind.
  setoid_rewrite list_elem_of_fmap. split.
  - intros (k & i & (j & -> & Hj) & Hi). exists i. split; [done|].
    apply lazy_search, not_nil_elem. eauto.
  - intros (i & Hi & [j Hj]%lazy_search%not_nil_elem). exists (i + j), i. eauto.
Qed.

Lemma stable_block D F a b : unmarked D → outside F →
  pat_chars D a → pat_chars D b → pat_first F b → stable (PSeq a (PSeq (PLazy (λ _, true)) b)).
Proof.
  intros Hd Ho Ha Hb Hf s o Hr (k & Hk & Hs)%block_match. apply block_match.
  destruct (redacts_match D a s o k Hd Ha Hr Hk) as [Hk' Hr']. exists k. split; [done|].
  eapply redacts_search; [exact Ho|exact Hf| |exact Hr'|exact Hs]. by eapply stable_local.
Qed.

(** * The redacted text *)

Definition token_char : ascii → bool := λ c, is_alnum c || one_of "_-" c.
Definition token_first : ascii → bool := one_of "gxAs".
Definition marker_char : ascii → bool := λ c, is_upper c || one_of "- " c.

Lemma cls_impl (p q : ascii → bool) :
  (∀ a, implb (p a) (q a) = true) → ∀ c, cls p c = true → cls q c = true.
Proof.
  intros Hi c. destruct c as [|a [|]]; [done| |done]. simpl. specialize (Hi a).
  by destruct (p a).
Qed.

Ltac by_ascii := let a := fresh in intros a; destruct a as [[][][][][][][][]]; vm_compute; reflexivity.

Lemma literal_chars q s : str_forall q s = true → pat_chars (cls q) (literal s).
Proof.
  induction s as [|c s IH]; simpl; [done|]. intros [Hc Hs]%andb_true_iff. split; [|auto].
  intros [|a [|]]; simpl; [done| |done]. by intros <-%is_char_true.
Qed.

Lemma at_least_chars n p q :
  (∀ a, implb (p a) (q a) = true) → pat_chars (cls q) (at_least n (cls p)).
Proof.
  intros Hi. pose proof (cls_impl p q Hi) as Hc. induction n as [|n IH]; [exact Hc|].
  split; [exact Hc|exact IH].
Qed.

Lemma iter_chars n p q :
  (∀ a, implb (p a) (q a) = true) →
  pat_chars (cls q) (Nat.iter n (PSeq (PChar (cls p))) PEps).
Proof.
  intros Hi. pose proof (cls_impl p q Hi) as Hc. induction n as [|n IH]; [done|].
  split; [exact Hc|exact IH].
Qed.

Lemma shape_chars : pat_chars (cls token_char) CREDENTIAL_SHAPE.
Proof.
  unfold CREDENTIAL_SHAPE, PAny. cbn [pat_chars]. split_and!.
  all: first [apply literal_chars; reflexivity | apply at_least_chars; by_ascii
             | apply iter_chars; by_ascii | apply cls_impl; by_ascii].
Qed.

Lemma literal_first q c s : q c = true → pat_first (cls q) (literal (String c s)).
Proof. intros Hc [|a [|]]; simpl; [done| |done]. by intros <-%is_char_true. Qed.

Lemma shape_first : pat_first (cls token_first) CREDENTIAL_SHAPE.
Proof. unfold CREDENTIAL_SHAPE, PAny. cbn [pat_first]. split_and!; by apply literal_first. Qed.

Lemma marker_pat_chars word : str_forall marker_char word = true →
  pat_chars (cls marker_char) (key_marker word).
Proof.
  intros Hw. unfold key_marker, POpt, PPlus. cbn [pat_chars]. split_and!; try done.
  all: first [apply literal_chars; rewrite ?str_forall_app, ?Hw; reflexivity
             | apply cls_impl; by_ascii].
Qed.

Lemma marker_pat_first word : pat_first (cls (is_char "-")) (key_marker word).
Proof. by apply (literal_first (is_char "-") "-" ("----" +:+ word)). Qed.

Lemma stable_shape : stable CREDENTIAL_SHAPE.
Proof. apply (stable_local (cls token_char)); [done|apply shape_chars]. Qed.

Lemma stable_key : stable PRIVATE_KEY.
Proof.
  apply (stable_block (cls marker_char) (cls (is_char "-"))); try done;
    first [by apply marker_pat_chars | apply marker_pat_first].
Qed.

Lemma key_first : pat_first (cls (is_char "-")) PRIVATE_KEY.
Proof. exact (marker_pat_first "BEGIN"). Qed.

Section redacted.
Context `{UnicodeData}.

(** The text after redaction has no credential shape and no private key. *)
Lemma redacted_not_shaped s : shaped (redact_code_points s) = false.
Proof.
  unfold shaped, redact_code_points, redact_shapes. apply orb_false_iff. split.
  - apply (sub_search (cls token_first)); [done|apply shape_first|apply stable_shape|].
    unfold markers. by left.
  - assert (∀ prefix body r t, r ∈ markers → search PRIVATE_KEY t = false →
              search PRIVATE_KEY (sub prefix body r 0 t) = false) as Hkeep.
    { intros prefix body r t Hr Ht. apply not_true_is_false. intros Hs.
      eapply (redacts_search (cls (is_char "-"))) in Hs; [by rewrite Hs in Ht|done|apply key_first
        |apply stable_key|].
      pose proof (sub_redacts prefix body r 0 t Hr ltac:(lia)) as Hred. by rewrite drop_0 in Hred. }
    unfold redact_assignments, redact_queries, redact_urls, redact_keys.
    do 4 (apply Hkeep; [unfold markers; set_solver|]).
    apply (sub_search (cls (is_char "-"))); [done|apply key_first|apply stable_key|].
    unfold markers. set_solver.
Qed.
End redacted.

(** ** Strings *)

Definition continuation : ascii → bool := between 128 191.
(** The bytes of one code point: one lead byte and continuation bytes. *)
Definition wf_code_point (cp : string) : Prop :=
  ∃ c t, cp = String c t ∧ continuation c = false ∧ str_forall continuation t = true.

(** The first byte of a text, when there is one, is a lead byte. *)
Definition starts_lead (s : string) : Prop :=
  match s with EmptyString => True | String c _ => continuation c = false end.

Lemma code_points_head e s : ∃ w ws, code_points (String e s) = String e w :: ws.
Proof.
  cbn [code_points]. destruct (code_points s) as [|[|d w] ws]; [by do 2 eexists..|].
  destruct (between 128 191 d); by do 2 eexists.
Qed.

Lemma code_points_cons c s :
  starts_lead s → code_points (String c s) = String c "" :: code_points s.
Proof.
  intros Hs. destruct s as [|e s]; [done|]. destruct (code_points_head e s) as (w & ws & E).
  change (code_points (String c (String e s))) with
    (match code_points (String e s) with
     | [] => [String c ""]
     | w :: ws => match w with
         | String d _ => if between 128 191 d then String c w :: ws else String c "" :: w :: ws
         | EmptyString => String c "" :: ws end end).
  rewrite E. simpl in Hs. unfold continuation in Hs. by rewrite Hs.
Qed.

Lemma code_points_lead c t s : str_forall continuation t = true → starts_lead s →
  code_points (String c t +:+ s) = String c t :: code_points s.
Proof.
  intros Ht Hs. revert c. induction t as [|d t IH]; intros c; [by apply code_points_cons|].
  simpl in Ht. apply andb_true_iff in Ht as [Hd Ht]. specialize (IH Ht d).
  change (code_points (String c (String d t) +:+ s)) with
    (match code_points (String d t +:+ s) with
     | [] => [String c ""]
     | w :: ws => match w with
         | String d0 _ => if between 128 191 d0 then String c w :: ws else String c "" :: w :: ws
         | EmptyString => String c "" :: ws end end).
  rewrite IH. unfold continuation in Hd. by rewrite Hd.
Qed.

Lemma concat_lead l : Forall wf_code_point l → starts_lead (String.concat "" l).
Proof.
  destruct 1 as [|x l (c & t & -> & Hc & _) _]; [done|]. rewrite concat_cons. exact Hc.
Qed.

Lemma code_points_concat l : Forall wf_code_point l → code_points (String.concat "" l) = l.
Proof.
  induction 1 as [|x l (c & t & -> & Hc & Ht) Hl IH]; [done|].
  rewrite concat_cons, code_points_lead; [by rewrite IH|done|by apply concat_lead].
Qed.

Lemma redacts_wf s o : redacts s o → Forall wf_code_point s → Forall wf_code_point o.
Proof.
  assert (∀ r, r ∈ markers → Forall wf_code_point r) as Hm.
  { intros r Hr. unfold markers in Hr.
    repeat (apply elem_of_cons in Hr as [->|Hr]); [..|by apply elem_of_nil in Hr];
      repeat (constructor; [by do 2 eexists|]); constructor. }
  induction 1 as [|c s o Hr IH|x r s o Hin Hr IH]; [done| |].
  - intros [Hc Hs]%Forall_cons. constructor; auto.
  - intros [_ Hs]%Forall_app. apply Forall_app. auto.
Qed.

Definition wf_code_pointb (cp : string) : bool :=
  match cp with
  | EmptyString => false
  | String c t => negb (continuation c) && str_forall continuation t
  end.

Lemma wf_code_pointb_spec l : forallb wf_code_pointb l = true → Forall wf_code_point l.
Proof.
  induction l as [|[|c t] l IH]; simpl; [constructor|done|].
  intros [[Hc Ht]%andb_true_iff Hl]%andb_true_iff. apply negb_true_iff in Hc.
  constructor; [|auto]. by exists c, t.
Qed.

Section redact_text.
Context `{UnicodeData}.

Lemma redacted_wf s : Forall wf_code_point s → Forall wf_code_point (redact_code_points s).
Proof.
  assert (∀ prefix body r t, r ∈ markers → Forall wf_code_point t →
            Forall wf_code_point (sub prefix body r 0 t)) as Hkeep.
  { intros prefix body r t Hr Ht. eapply redacts_wf; [|exact Ht].
    pose proof (sub_redacts prefix body r 0 t Hr ltac:(lia)) as Hred. by rewrite drop_0 in Hred. }
  intros Hs. unfold redact_code_points, redact_shapes, redact_assignments, redact_queries,
    redact_urls, redact_keys. do 5 (apply Hkeep; [unfold markers; set_solver|]). exact Hs.
Qed.

(** C38: redacted text holds nothing shaped like a credential: no token of a
    known format and no private key block remains, whatever the text was. *)
Theorem redact_text_removes_shapes s :
  Forall wf_code_point (code_points s) → contains_credential_shape (redact_text s) = false.
Proof.
  intros Hs. unfold contains_credential_shape, redact_text.
  rewrite code_points_concat by (by apply redacted_wf). apply redacted_not_shaped.
Qed.
End redact_text.

(** ** Not idempotent *)

(** Redacting an assignment can expose a URL credential to the pass that had
    gone by: the second application redacts more. *)
Theorem redact_text_not_idempotent :
  ∃ s, @redact_text ascii_unicode (@redact_text ascii_unicode s) ≠ @redact_text ascii_unicode s.
Proof. exists "x://token=b/c,d@host". vm_compute. discriminate. Qed.

Lemma redact_text_removes_shapes_witness :
  contains_credential_shape
    (@redact_text ascii_unicode "the key is ghp_ABCDEFGHIJKLMNOPQR") = false ∧
  contains_credential_shape "the key is ghp_ABCDEFGHIJKLMNOPQR" = true.
Proof.
  split; [|vm_compute; reflexivity].
  apply (@redact_text_removes_shapes ascii_unicode), wf_code_pointb_spec. vm_compute. reflexivity.
Defined.
