(* ===== verification/Coordinates.v ===== *)
(** Selectors an agent types ([consumer/coordinates.py]): parsing, printing,
    and that each inverts the other. *)
From S2P Require Import Prelude PyText Domain.
From Stdlib Require Import Ascii.

Definition CONSUMER_INVALID := MkCode "consumer-invalid".
Definition GRAMMAR : string := "<source>/<kind>/<name>[@<version>]".
(** [sorted(_SELECTABLE_KINDS)] *)
Definition SELECTABLE_KINDS : list string := sorted id (map kind_value all_kinds).

Record ArtifactSelector := MkSelector {
  sel_identity : ArtifactIdentity;
  sel_source : option SourceAlias;
  sel_version : option string
}.
#[export] Instance selector_eq_dec : EqDecision ArtifactSelector.
Proof. solve_decision. Defined.

(** [ArtifactSelector.__str__] *)
Definition selector_str (s : ArtifactSelector) : string :=
  let source := match sel_source s with None => "" | Some a => alias_value a +:+ "/" end in
  let version := match sel_version s with None => "" | Some v => "@" +:+ v end in
  source +:+ identity_str (sel_identity s) +:+ version.

Section coordinates.
Context `{UnicodeData}.

Definition invalid_selector {A} (raw detail : string) (remediation : list string) : Result A :=
  fail1 (diagnostic CONSUMER_INVALID ERROR
    ("artifact selector " +:+ repr raw +:+ " is invalid: " +:+ detail) None
    (match remediation with [] => ["use " +:+ GRAMMAR] | _ => remediation end) []).

Definition split_version (raw : string) : Result (string * option string) :=
  match cut_last "@" raw with
  | None => Ok (raw, None)
  | Some (body, version) =>
      if str_empty body || str_empty version then
        invalid_selector raw "an '@' version suffix needs both a coordinate and a version" []
      else Ok (body, Some version)
  end.

(** The kind a segment names. *)
Definition parse_kind (kind : string) : option ArtifactKind :=
  List.find (λ k, bool_decide (kind_value k = kind)) all_kinds.

(** The segments of the coordinate: an optional source, a kind and a name. *)
Definition parse_segments (raw : string) (source : option string) (kind name : string)
    (version : option string) : Result ArtifactSelector :=
  match parse_kind kind with
  | None => invalid_selector raw ("unknown artifact kind " +:+ repr kind)
              ["use one of: " +:+ join ", " SELECTABLE_KINDS]
  | Some k =>
      if bool_decide (k = Collection) && bool_decide (version ≠ None) then
        invalid_selector raw "collections are not versioned; remove the '@<version>' suffix" []
      else Ok (MkSelector (MkIdentity k name) (MkAlias <$> source) version)
  end.

Definition parse_artifact_selector (raw : string) : Result ArtifactSelector :=
  let candidate := strip raw in
  if str_empty candidate then invalid_selector raw "a selector cannot be empty" []
  else
    '(body, version) ← split_version candidate;
    let segments := split_on "/" body in
    if existsb str_empty segments then
      invalid_selector raw ("every segment must be non-empty in " +:+ GRAMMAR) []
    else
      match segments with
      | [kind; name] => parse_segments raw None kind name version
      | [source; kind; name] => parse_segments raw (Some source) kind name version
      | _ => invalid_selector raw ("expected " +:+ GRAMMAR +:+ " or <kind>/<name>, not "
               +:+ str_Z (Z.of_nat (length segments)) +:+ " path segments") []
      end.

(** The loop of [parse_artifact_selectors]. *)
Fixpoint parse_loop (raw : list string) (selectors : list ArtifactSelector)
    (diagnostics : list Diagnostic) : list ArtifactSelector * list Diagnostic :=
  match raw with
  | [] => (selectors, diagnostics)
  | entry :: raw =>
      match parse_artifact_selector entry with
      | Err ds => parse_loop raw selectors (diagnostics ++ ds)
      | Ok s => parse_loop raw (selectors ++ [s]) diagnostics
      end
  end.

Definition parse_artifact_selectors `{SetOrder} (raw : list string) :
    Result (list ArtifactSelector) :=
  let '(selectors, diagnostics) := parse_loop raw [] [] in
  match diagnostics with
  | [] => Ok (sorted_py_set (λ x y, bool_decide (x = y)) selector_str selectors)
  | _ => Err diagnostics
  end.
End coordinates.

(** * Properties *)

Definition segment (s : string) : bool := negb (str_empty s) && negb (has_char "/" s).
(** The selectors the grammar can express. *)
Definition wf_selector (s : ArtifactSelector) : bool :=
  let source := match sel_source s with None => [] | Some a => [alias_value a] end in
  forallb segment (source ++ [id_name (sel_identity s)]) &&
  match sel_version s with
  | None => forallb (λ p, negb (has_char "@" p)) (source ++ [id_name (sel_identity s)])
  | Some v => negb (str_empty v) && negb (has_char "@" v)
              && negb (bool_decide (id_kind (sel_identity s) = Collection))
  end.

(** The segments a selector prints. *)
Definition selector_segments (s : ArtifactSelector) : list string :=
  (match sel_source s with None => [] | Some a => [alias_value a] end)
  ++ [kind_value (id_kind (sel_identity s)); id_name (sel_identity s)].

Lemma selector_str_eq s :
  selector_str s = join "/" (selector_segments s) +:+
    match sel_version s with None => "" | Some v => String "@" v end.
Proof.
  destruct s as [[k n] [a|] v]; unfold selector_str, selector_segments, identity_str; simpl;
    rewrite <-?str_app_assoc; destruct v; done.
Qed.

Lemma parse_kind_value k : parse_kind (kind_value k) = Some k.
Proof. by destruct k. Qed.

Lemma parse_kind_Some s k : parse_kind s = Some k → s = kind_value k.
Proof. unfold parse_kind. intros [_ E]%find_some. by apply bool_decide_eq_true in E. Qed.

Lemma kind_segment k : segment (kind_value k) = true ∧ has_char "@" (kind_value k) = false.
Proof. by destruct k. Qed.

Lemma join_no_char d parts :
  is_char d "/" = false → forallb (λ p, negb (has_char d p)) parts = true →
  has_char d (join "/" parts) = false.
Proof.
  intros Hd. induction parts as [|p [|q parts] IH]; intros Hp; [done| |].
  - simpl in Hp. rewrite andb_true_r in Hp. by apply negb_true_iff in Hp.
  - apply andb_true_iff in Hp as [Hp%negb_true_iff Hr]. specialize (IH Hr).
    change (join "/" (p :: q :: parts)) with (p +:+ "/" +:+ join "/" (q :: parts)).
    rewrite has_char_false in *. rewrite !str_forall_app, Hp, IH. simpl. by rewrite Hd.
Qed.

Lemma segments_of s : wf_selector s = true →
  split_on "/" (join "/" (selector_segments s)) = selector_segments s ∧
  existsb str_empty (selector_segments s) = false.
Proof.
  intros [Hs _]%andb_true_iff.
  assert (forallb segment (selector_segments s) = true) as Hall.
  { unfold selector_segments. rewrite forallb_app in *. simpl in *.
    rewrite (proj1 (kind_segment _)). simpl. done. }
  split.
  - apply split_on_join; [by destruct s as [? [?|] ?]|]. apply Forall_forall. intros p Hp.
    rewrite forallb_forall in Hall. specialize (Hall p (proj1 (list_elem_of_In _ _) Hp)).
    unfold segment in Hall. split_guard. done.
  - apply not_true_is_false. intros (p & Hp & He)%existsb_In.
    rewrite forallb_forall in Hall. specialize (Hall p (proj1 (list_elem_of_In _ _) Hp)).
    unfold segment in Hall. rewrite He in Hall. done.
Qed.

Section properties.
Context `{UnicodeData}.

Lemma split_version_str s : wf_selector s = true →
  split_version (selector_str s) = Ok (join "/" (selector_segments s), sel_version s).
Proof.
  intros Hw. rewrite selector_str_eq. unfold split_version.
  pose proof Hw as [Hs Hv]%andb_true_iff. destruct (sel_version s) as [v|].
  - split_guard. rewrite cut_last_app by done.
    assert (str_empty (join "/" (selector_segments s)) = false) as ->.
    { destruct s as [[k n] [a|] w]; simpl in *; unfold segment in Hs; split_guard;
        [by destruct (alias_value a)|by destruct k]. }
    simpl. match goal with E : str_empty v = false |- _ => by rewrite E end.
  - rewrite str_app_nil_r.
    assert (has_char "@" (join "/" (selector_segments s)) = false) as Hno.
    { apply join_no_char; [done|]. unfold selector_segments. rewrite forallb_app in *. simpl in *.
      by rewrite (proj2 (kind_segment _)). }
    pose proof (cut_last_spec "@" (join "/" (selector_segments s))) as Hc.
    destruct (cut_last _ _) as [[x y]|]; [|done]. destruct Hc as [E _]. rewrite E in Hno.
    rewrite has_char_false, str_forall_app in Hno. simpl in Hno. by rewrite andb_false_r in Hno.
Qed.

Lemma parse_printed raw s :
  wf_selector s = true → strip raw = selector_str s → parse_artifact_selector raw = Ok s.
Proof.
  intros Hw Hr. unfold parse_artifact_selector. rewrite Hr.
  assert (str_empty (selector_str s) = false) as ->.
  { destruct s as [[k n] [a|] w]; unfold selector_str, identity_str; simpl; [|by destruct k].
    apply andb_true_iff in Hw as [Hw _]. simpl in Hw. unfold segment in Hw. split_guard.
    by destruct (alias_value a). }
  rewrite split_version_str by done. cbn [mbind result_bind].
  destruct (segments_of s Hw) as [-> ->].
  apply andb_true_iff in Hw as [_ Hv]. destruct s as [[k n] [a|] v]; simpl in *;
    unfold parse_segments; rewrite parse_kind_value; (destruct v as [v|];
      [split_guard; rewrite bool_decide_false by done|rewrite (bool_decide_false (None ≠ None)) by naive_solver];
      rewrite ?andb_false_r; simpl; by try destruct a).
Qed.
Lemma split_version_Ok c body version : split_version c = Ok (body, version) →
  c = body +:+ match version with None => "" | Some v => String "@" v end ∧
  match version with
  | None => has_char "@" body = false
  | Some v => str_empty v = false ∧ has_char "@" v = false
  end.
Proof.
  unfold split_version. pose proof (cut_last_spec "@" c) as Hc. destruct (cut_last "@" c) as [[x y]|].
  - destruct (str_empty x || str_empty y) eqn:E; [done|]. intros [= <- <-]. split_guard. naive_solver.
  - intros [= <- <-]. by rewrite str_app_nil_r.
Qed.

Lemma no_char_parts d parts : has_char d (join "/" parts) = false →
  forallb (λ p, negb (has_char d p)) parts = true.
Proof.
  induction parts as [|p [|q parts] IH]; intros Hp; [done|simpl; by simpl in Hp; rewrite Hp|].
  change (join "/" (p :: q :: parts)) with (p +:+ "/" +:+ join "/" (q :: parts)) in Hp.
  rewrite has_char_false, !str_forall_app in Hp. apply andb_true_iff in Hp as [H1 H2].
  apply andb_true_iff in H2 as [_ H2]. cbn [forallb]. rewrite (proj2 (has_char_false _ _) H1).
  apply IH. by apply has_char_false.
Qed.

Lemma parse_segments_Ok raw source kind name version s :
  parse_segments raw source kind name version = Ok s →
  kind = kind_value (id_kind (sel_identity s)) ∧ s = MkSelector (MkIdentity (id_kind (sel_identity s)) name)
    (MkAlias <$> source) version ∧ (version ≠ None → id_kind (sel_identity s) ≠ Collection).
Proof.
  unfold parse_segments. destruct (parse_kind kind) as [k|] eqn:Hk; [|done].
  apply parse_kind_Some in Hk as ->. destruct (_ && _) eqn:E; [done|]. intros [= <-]. simpl.
  split_and!; [done..|]. intros Hv ->. rewrite !bool_decide_true in E by done. done.
Qed.

(** Parsing inverts printing, and accepts nothing else: a text parses to a
    selector exactly when, without the surrounding space, it is what the
    selector prints and the selector is one the grammar can express. *)
Theorem parse_artifact_selector_iff raw s :
  parse_artifact_selector raw = Ok s ↔ wf_selector s = true ∧ strip raw = selector_str s.
Proof.
  split; [|by intros [? ?]; apply parse_printed].
  unfold parse_artifact_selector. destruct (str_empty (strip raw)); [done|].
  destruct (split_version (strip raw)) as [[body version]|] eqn:Hv; [|done]. cbn [mbind result_bind].
  apply split_version_Ok in Hv as [Hraw Hver].
  pose proof (join_split_on "/" body) as Hjoin. pose proof (split_on_no_sep "/" body) as Hsep.
  destruct (existsb str_empty (split_on "/" body)) eqn:He; [done|].
  assert (forallb segment (split_on "/" body) = true) as Hseg.
  { apply forallb_forall. intros p Hp. unfold segment. rewrite Forall_forall in Hsep.
    rewrite (Hsep p) by (by apply list_elem_of_In). destruct (str_empty p) eqn:E; [|done].
    exfalso. rewrite <-not_true_iff_false in He. apply He, existsb_In. exists p.
    by rewrite list_elem_of_In. }
  assert (version = None → forallb (λ p, negb (has_char "@" p)) (split_on "/" body) = true) as Hat.
  { intros ->. apply no_char_parts. by rewrite Hjoin. }
  rewrite <-Hjoin in Hraw. clear Hsep He.
  destruct (split_on "/" body) as [|x [|y [|z [|w l]]]]; try done;
    intros (-> & E & Hc)%parse_segments_Ok; rewrite Hraw, selector_str_eq, E; (split; [|done]).
  all: unfold wf_selector; simpl in *; split_guard; rewrite ?Hseg; destruct version as [v|];
    [destruct Hver as [-> ->]; rewrite bool_decide_false by (by apply Hc)|specialize (Hat eq_refl); split_guard].
  all: repeat match goal with H : _ = true |- _ => rewrite H; clear H | H : _ = false |- _ => rewrite H; clear H end;
    try done.
Qed.
Lemma parse_loop_spec raw selectors ds :
  parse_loop raw selectors ds =
  (selectors ++ omap (λ e, match parse_artifact_selector e with Ok s => Some s | Err _ => None end) raw,
   ds ++ concat (map (λ e, result_diagnostics (parse_artifact_selector e)) raw)).
Proof.
  revert selectors ds. induction raw as [|e raw IH]; intros selectors ds; simpl.
  - by rewrite !app_nil_r.
  - destruct (parse_artifact_selector e); simpl; by rewrite IH, <-app_assoc.
Qed.

Lemma parse_segments_wf raw source kind name version : wf_result (parse_segments raw source kind name version).
Proof. unfold parse_segments. repeat case_match; done. Qed.

Lemma parse_wf raw : wf_result (parse_artifact_selector raw).
Proof.
  unfold parse_artifact_selector. destruct (str_empty _); [done|].
  unfold split_version. destruct (cut_last _ _) as [[x y]|]; simpl; [destruct (_ || _); [done|]|];
    cbn [mbind result_bind]; (destruct (existsb _ _); [done|]);
    destruct (split_on _ _) as [|? [|? [|? [|? ?]]]]; try done; apply parse_segments_wf.
Qed.

(** A list of selectors parses exactly when every entry does, to the
    distinct selectors in the order of their text; otherwise every invalid
    entry is reported, in the order given. *)
Theorem parse_artifact_selectors_spec `{SetOrder} raw :
  match parse_artifact_selectors raw with
  | Ok l => NoDup l ∧ StronglySorted (key_le selector_str) l ∧
      (∀ e, e ∈ raw → ∃ s, parse_artifact_selector e = Ok s) ∧
      (∀ s, s ∈ l ↔ ∃ e, e ∈ raw ∧ parse_artifact_selector e = Ok s)
  | Err ds => ds = concat (map (λ e, result_diagnostics (parse_artifact_selector e)) raw) ∧
      ∃ e ds', e ∈ raw ∧ parse_artifact_selector e = Err ds'
  end.
Proof.
  unfold parse_artifact_selectors. rewrite parse_loop_spec. simpl.
  destruct (concat _) as [|d ds] eqn:E.
  - split_and!.
    + apply NoDup_sorted_py_set. intros x y. apply bool_decide_eq_true.
    + apply sorted_py_set_sorted.
    + intros e He. apply concat_eq_nil, Forall_fmap in E. rewrite Forall_forall in E.
      specialize (E e He). simpl in E. pose proof (parse_wf e) as Hw.
      destruct (parse_artifact_selector e) as [s|ds]; [eauto|]. simpl in *. by rewrite E in Hw.
    + intros s. rewrite elem_of_sorted_py_set by (intros x y; apply bool_decide_eq_true).
      rewrite list_elem_of_omap. split; intros (e & He & Hs); exists e; (split; [done|]);
        destruct (parse_artifact_selector e); naive_solver.
  - split; [done|].
    assert (d ∈ concat (map (λ e, result_diagnostics (parse_artifact_selector e)) raw)) as Hd
      by (rewrite E; left).
    apply list_elem_of_In, in_concat in Hd as (l & (e & <- & He)%in_map_iff & Hd).
    apply list_elem_of_In in He. exists e. destruct (parse_artifact_selector e) as [s|ds']; [done|].
    eauto.
Qed.
End properties.
