(* ===== verification/Marketplace.v ===== *)
(** The runtime catalog ([marketplace/model.py], [marketplace/catalog.py]):
    its values with the checks of their constructors, the resolution of a
    query to one item, search, listing and the catalog's projections. *)
From S2P Require Import Prelude PyText Regex Domain SemVer Json Protocol CompilerModel Graph Redaction.
From Stdlib Require Import Ascii.

Definition MARKETPLACE_INVALID := MkCode "marketplace-invalid".
Definition ARTIFACT_AMBIGUOUS := MkCode "artifact-ambiguous".
Definition ARTIFACT_NOT_FOUND := MkCode "artifact-not-found".
Definition SOURCE_UNAVAILABLE := MkCode "source-unavailable".
Definition SOURCE_NOT_SYNCHRONIZED := MkCode "source-not-synchronized".

(** * Values *)

Inductive SourceKind : Type := REGISTRY_GIT | SOURCE_GIT | SOURCE_LOCAL.
Definition source_kind_value (k : SourceKind) : string :=
  match k with
  | REGISTRY_GIT => "registry-git" | SOURCE_GIT => "source-git" | SOURCE_LOCAL => "source-local"
  end.
Inductive HealthStatus : Type :=
  | MISSING | HEALTHY | STALE | NOT_SYNCHRONIZED | CHECK_UNAVAILABLE | DEGRADED.
Definition health_value (h : HealthStatus) : string :=
  match h with
  | MISSING => "missing" | HEALTHY => "healthy" | STALE => "stale"
  | NOT_SYNCHRONIZED => "not-synchronized" | CHECK_UNAVAILABLE => "could-not-check"
  | DEGRADED => "degraded"
  end.
Inductive TrustClass : Type :=
  | UNVERIFIED | TRUST_LOCAL | DIRECT_SOURCE | REGISTRY_REVIEWED | COMPANY_REVIEWED.
Definition trust_value (t : TrustClass) : string :=
  match t with
  | UNVERIFIED => "unverified" | TRUST_LOCAL => "local" | DIRECT_SOURCE => "direct-source"
  | REGISTRY_REVIEWED => "registry-reviewed" | COMPANY_REVIEWED => "company-reviewed"
  end.

#[export] Instance source_kind_eq_dec : EqDecision SourceKind.
Proof. solve_decision. Defined.
#[export] Instance health_eq_dec : EqDecision HealthStatus.
Proof. solve_decision. Defined.
#[export] Instance trust_eq_dec : EqDecision TrustClass.
Proof. solve_decision. Defined.

(** [_ARTIFACT_KINDS]: every kind but collections. *)
Definition ARTIFACT_KINDS : list ArtifactKind := [Skill; Guideline; Mcp; Hook; Memory].

Record MarketplaceSourceView := MkView {
  vw_alias : SourceAlias;
  vw_kind : SourceKind;
  vw_source_id : option SourceId;
  vw_origin : string;
  vw_resolved_revision : option string;
  vw_snapshot_digest : option ObjectDigest;
  vw_health : HealthStatus;
  vw_age_seconds : option Z;
  vw_display_order : Z;
  vw_is_default : bool;
  vw_diagnostics : list Diagnostic
}.
#[export] Instance view_eq_dec : EqDecision MarketplaceSourceView.
Proof. solve_decision. Defined.

(** The checks and the normalisation of [MarketplaceSourceView.__post_init__]. *)
Definition marketplace_source_view (v : MarketplaceSourceView) : py MarketplaceSourceView :=
  let has_current := bool_decide (is_Some (vw_source_id v)) && bool_decide (is_Some (vw_resolved_revision v))
                     && bool_decide (is_Some (vw_snapshot_digest v)) in
  let has_no_current := bool_decide (vw_source_id v = None) && bool_decide (vw_resolved_revision v = None)
                        && bool_decide (vw_snapshot_digest v = None) in
  _ ← raise_if (negb (fullmatch slug_re (alias_value (vw_alias v))) || not_one_line (vw_origin v)
        || match vw_source_id v with
           | Some i => negb (fullmatch slug_re (source_id_value i)) | None => false end
        || (vw_display_order v <? 0)%Z
        || match vw_age_seconds v with Some n => (n <? 0)%Z | None => false end
        || negb (has_current || has_no_current)
        || (bool_decide (vw_health v = MISSING) && has_current)
        || (mem (vw_health v) [HEALTHY; STALE; NOT_SYNCHRONIZED] && has_no_current)
        || negb (Bool.eqb has_current (bool_decide (is_Some (vw_age_seconds v))))
        || match vw_snapshot_digest v with Some d => negb (valid_digest d) | None => false end)
        "marketplace source view is invalid";
  Ret (MkView (vw_alias v) (vw_kind v) (vw_source_id v) (vw_origin v) (vw_resolved_revision v)
         (vw_snapshot_digest v) (vw_health v) (vw_age_seconds v) (vw_display_order v)
         (vw_is_default v) (sort_diagnostics (vw_diagnostics v))).
(** [MarketplaceSourceView.rank] *)
Definition view_rank (v : MarketplaceSourceView) : Z * Z * string :=
  (if vw_is_default v then 0 else 1, vw_display_order v, alias_value (vw_alias v))%Z.

Record TrustDecision := MkTrust {
  td_kind : TrustClass;
  td_evidence_digest : ObjectDigest;
  td_reasons : list string
}.
(** [TrustDecision(...)] *)
Definition trust_decision (kind : TrustClass) (evidence_digest : ObjectDigest)
    (reasons : list string) : py TrustDecision :=
  _ ← raise_if (negb (valid_digest evidence_digest) || bool_decide (reasons = [])
                || existsb not_one_line reasons) "marketplace trust decision is invalid";
  Ret (MkTrust kind evidence_digest (sorted_set id reasons)).

Record MarketplaceItem := MkMarketItem {
  mi_artifact : MarketplaceArtifact;
  mi_source : MarketplaceSourceView;
  mi_trust : TrustDecision
}.
(** [MarketplaceItem(...)] *)
Definition marketplace_item (artifact : MarketplaceArtifact) (source : MarketplaceSourceView)
    (trust : TrustDecision) : py MarketplaceItem :=
  _ ← raise_if (negb (bool_decide (ma_source_alias artifact = vw_alias source))
                || negb (bool_decide (vw_source_id source = Some (ma_source_id artifact))))
        "marketplace item source identity is inconsistent";
  Ret (MkMarketItem artifact source trust).
(** [MarketplaceItem.coordinate] *)
Definition mi_coordinate (i : MarketplaceItem) : ArtifactCoordinate := ma_coordinate (mi_artifact i).
Definition mi_index (i : MarketplaceItem) : IndexArtifact := ma_artifact (mi_artifact i).
Definition mi_key (i : MarketplaceItem) : akey := ma_key (mi_artifact i).

Definition item_key (i : MarketplaceItem) : Z * Z * string * string * string * string :=
  let r := view_rank (mi_source i) in
  let c := mi_coordinate i in
  (r.1.1, r.1.2, r.2, kind_value (id_kind (co_artifact c)), id_name (co_artifact c),
   or_empty (co_version c)).

Record MarketplaceCatalog := MkCatalog {
  ct_sources : list MarketplaceSourceView;
  ct_items : list MarketplaceItem;
  ct_collections : list MarketplaceCollection;
  ct_diagnostics : list Diagnostic
}.
(** [MarketplaceCatalog(...)] *)
Definition marketplace_catalog (sources0 : list MarketplaceSourceView)
    (items0 : list MarketplaceItem) (collections0 : list MarketplaceCollection)
    (diagnostics : list Diagnostic) : py MarketplaceCatalog :=
  let sources := sorted view_rank sources0 in
  _ ← raise_if (has_dups (map vw_alias sources)) "marketplace catalog source aliases must be unique";
  let by_alias := dict_of (map (λ v, (vw_alias v, v)) sources) in
  let items := sorted item_key items0 in
  _ ← raise_if (has_dups (map mi_key items)
        || existsb (λ i, negb (bool_decide (dget (vw_alias (mi_source i)) by_alias = Some (mi_source i))))
             items)
        "marketplace catalog items must be qualified and source-bound";
  let collections := sorted (λ c, collection_key (mc_coordinate c)) collections0 in
  let item_coordinates := map mi_coordinate items in
  _ ← raise_if (has_dups (map mc_coordinate collections)
        || existsb (λ c, negb (mem (cc_source (mc_coordinate c)) (dkeys by_alias))) collections
        || existsb (λ m, negb (mem m item_coordinates)) (collections ≫= mc_members))
        "marketplace catalog collections must be source-bound";
  Ret (MkCatalog sources items collections (sort_diagnostics diagnostics)).

Record ArtifactQuery := MkQuery {
  aq_identity : ArtifactIdentity;
  aq_source : option SourceAlias;
  aq_version : option string
}.
Record MarketplaceQuery := MkMarketQuery {
  mq_text : string;
  mq_kinds : list ArtifactKind;
  mq_sources : list SourceAlias;
  mq_include_removed : bool
}.

Section catalog.
Context `{UnicodeData}.

(** [ArtifactQuery(...)] *)
Definition artifact_query (identity : ArtifactIdentity) (source : option SourceAlias)
    (version : option string) : py ArtifactQuery :=
  _ ← raise_if (negb (mem (id_kind identity) ARTIFACT_KINDS)
        || negb (fullmatch slug_re (id_name identity))
        || match source with Some a => negb (fullmatch slug_re (alias_value a)) | None => false end
        || match version with Some v => is_err (parse_semver v None) | None => false end)
        "marketplace artifact query is invalid";
  Ret (MkQuery identity source version).

(** [MarketplaceQuery(...)] *)
Definition marketplace_query (text : string) (kinds : list ArtifactKind)
    (sources : list SourceAlias) (include_removed : bool) : py MarketplaceQuery :=
  _ ← raise_if ((512 <? str_len text)%nat || existsb (λ k, negb (mem k ARTIFACT_KINDS)) kinds
                || existsb (λ a, negb (fullmatch slug_re (alias_value a))) sources)
        "marketplace search query is invalid";
  Ret (MkMarketQuery text (sorted_set kind_value kinds) (sorted_set alias_value sources)
         include_removed).

(** * Resolution *)

(** [_error] *)
Definition market_error (code : DiagnosticCode) (message : string) (alias : option SourceAlias)
    (remediation : list string) (details : list (string * string)) : Diagnostic :=
  diagnostic code ERROR (redact_text message) (source_location <$> alias) remediation details.

Definition resolution_failure (catalog : MarketplaceCatalog) (query : ArtifactQuery)
    (offline : bool) : Diagnostic :=
  let name := identity_str (aq_identity query) in
  let scope := match aq_source query with
               | None => ct_sources catalog
               | Some a => List.filter (λ v, bool_decide (vw_alias v = a)) (ct_sources catalog)
               end in
  match scope with
  | [] =>
      let message := match aq_source query with
        | None => "no source is configured to resolve " +:+ name +:+ " from"
        | Some a => "source " +:+ alias_value a +:+ " is not configured, so " +:+ name
                    +:+ " cannot be resolved"
        end in
      let alias := match aq_source query with None => "<alias>" | Some a => alias_value a end in
      market_error SOURCE_UNAVAILABLE message None
        ["aart source add --alias " +:+ alias +:+ " --kind registry-git --location <url>";
         "aart marketplace uninstall, if you are removing what this source installed"] []
  | first :: _ =>
      if forallb (λ v, bool_decide (vw_snapshot_digest v = None)) scope then
        let aliases := join ", " (map (λ v, alias_value (vw_alias v)) scope) in
        let sync := "aart source sync --alias " +:+ alias_value (vw_alias first) in
        if offline then
          market_error SOURCE_NOT_SYNCHRONIZED
            ("nothing is cached for " +:+ aliases +:+ ", and --offline forbids fetching it") None
            ["re-run without --offline"; sync +:+ ", while connected"] []
        else
          market_error SOURCE_NOT_SYNCHRONIZED
            ("no snapshot has been synchronized from " +:+ aliases) None [sync] []
      else
        let qualification := match aq_source query with
          | None => "" | Some a => " in source " +:+ alias_value a end in
        let listing := "aart marketplace list" +:+ match aq_source query with
          | None => "" | Some a => " --source " +:+ alias_value a end in
        market_error ARTIFACT_NOT_FOUND
          ("artifact " +:+ name +:+ qualification +:+ " was not found") None [listing] []
  end.

(** The items a query can mean. *)
Definition query_matches (query : ArtifactQuery) (item : MarketplaceItem) : bool :=
  bool_decide (ma_lifecycle (mi_artifact item) = AVAILABLE)
  && bool_decide (co_artifact (mi_coordinate item) = aq_identity query)
  && match aq_source query with
     | None => true | Some a => bool_decide (co_source (mi_coordinate item) = a) end
  && match aq_version query with
     | None => true | Some v => bool_decide (co_version (mi_coordinate item) = Some v) end.

Definition resolve_artifact (catalog : MarketplaceCatalog) (query : ArtifactQuery)
    (offline : bool) : Result MarketplaceItem :=
  match List.filter (query_matches query) (ct_items catalog) with
  | [] => Err [resolution_failure catalog query offline]
  | [item] => Ok item
  | matches =>
      let coordinates := sorted id (map (λ i, coordinate_str (mi_coordinate i)) matches) in
      Err [market_error ARTIFACT_AMBIGUOUS
             ("artifact " +:+ identity_str (aq_identity query) +:+ " is ambiguous; valid coordinates: "
              +:+ join ", " coordinates) None [] [("coordinates", join "," coordinates)]]
  end.

(** * Search and listing *)

(** [MarketplaceQuery()] *)
Definition default_query : MarketplaceQuery := MkMarketQuery "" [] [] false.

Definition search_haystack (item : MarketplaceItem) : string :=
  casefold (join (String newline "")
    ([coordinate_str (mi_coordinate item); id_name (ia_identity (mi_index item));
      ia_summary (mi_index item); alias_value (vw_alias (mi_source item));
      match vw_source_id (mi_source item) with None => "" | Some i => source_id_value i end]
     ++ ia_collections (mi_index item))).

Definition search_marketplace (catalog : MarketplaceCatalog) (query0 : option MarketplaceQuery) :
    list MarketplaceItem :=
  let query := default default_query query0 in
  let needle := strip (casefold (mq_text query)) in
  List.filter (λ item,
    (mq_include_removed query || negb (bool_decide (ma_lifecycle (mi_artifact item) = REMOVED)))
    && (bool_decide (mq_kinds query = []) || mem (id_kind (ia_identity (mi_index item))) (mq_kinds query))
    && (bool_decide (mq_sources query = []) || mem (vw_alias (mi_source item)) (mq_sources query))
    && (str_empty needle || contains needle (search_haystack item))) (ct_items catalog).

Definition list_marketplace (catalog : MarketplaceCatalog) (include_removed : bool) :
    list MarketplaceItem :=
  List.filter (λ item, include_removed
                       || bool_decide (ma_lifecycle (mi_artifact item) = AVAILABLE)) (ct_items catalog).
End catalog.
