(* ===== verification/StoreModel.v ===== *)
(** The object store's values ([store/model.py]) and the reference index's
    canonical form ([store/references.py]).

    The tests [isinstance(x, T)] of a field of type [T] hold by typing.  Paths
    are file-system texts; [entry.content] and an envelope are byte strings. *)
From S2P Require Import Prelude PyText TextSearch Posix Encodings Regex Domain Json Protocol CompilerModel.
From Stdlib Require Import Ascii QArith.
Open Scope Z_scope.

Definition STORE_INVALID := MkCode "store-invalid".
Definition DIGEST_MISMATCH := MkCode "digest-mismatch".
Definition MAX_FILES : Z := 10000.
Definition MAX_ENTRIES : Z := 20000.
Definition MAX_FILE_BYTES : Z := 10 * 1024 * 1024.
Definition MAX_TOTAL_BYTES : Z := 100 * 1024 * 1024.
Definition MAX_TREE_DEPTH : Z := 64.
Definition MAX_ENVELOPE_BYTES : Z := 150 * 1024 * 1024.
Definition MAX_ENVELOPE_STRING : Z := 15 * 1024 * 1024.
Definition MAX_REFERENCES : Z := 100000.

(** [_error] *)
Definition store_error {A} (message : string) : Result A :=
  fail1 (diagnostic STORE_INVALID ERROR message None [] []).

Definition len (s : bytes) : Z := Z.of_nat (String.length s).
Definition count {A} (l : list A) : Z := Z.of_nat (length l).

(** * Where a store lives *)

Record ObjectStorePaths := MkStorePaths {
  os_root : string; os_objects : string; os_state : string; os_references_file : string;
  os_lock_directory : string; os_temporary_root : string; os_quarantine : string
}.
#[export] Instance store_paths_eq_dec : EqDecision ObjectStorePaths.
Proof. solve_decision. Defined.

Definition object_store_paths_init (p : ObjectStorePaths) : py ObjectStorePaths :=
  raise_if (bool_decide (os_root p = "/")) "object store root cannot be the filesystem root" ;;
  raise_if (negb (forallb norm_abs
              [os_root p; os_objects p; os_state p; os_references_file p; os_lock_directory p;
               os_temporary_root p; os_quarantine p]))
    "object store paths must be normalized and absolute" ;;
  raise_if (negb (bool_decide
    ([os_objects p; os_state p; os_references_file p; os_lock_directory p; os_temporary_root p;
      os_quarantine p]
     = [pjoins (os_root p) ["objects"; "sha256"]; pjoins (os_root p) ["state"];
        pjoins (os_root p) ["state"; "object-references.json"];
        pjoins (os_root p) ["locks"; "store.lock"]; pjoins (os_root p) ["tmp"; "objects"];
        pjoins (os_root p) ["objects"; "quarantine"]])))
    "object store paths must use the managed layout" ;;
  Ret p.

Definition object_store_paths (data_root : string) : py ObjectStorePaths :=
  raise_if (negb (norm_abs data_root))
    "object store data root must be normalized and absolute" ;;
  object_store_paths_init
    (MkStorePaths data_root (pjoins data_root ["objects"; "sha256"]) (pjoins data_root ["state"])
       (pjoins data_root ["state"; "object-references.json"])
       (pjoins data_root ["locks"; "store.lock"]) (pjoins data_root ["tmp"; "objects"])
       (pjoins data_root ["objects"; "quarantine"])).

(** * Trees *)

#[export] Instance snapshot_kind_eq_dec : EqDecision SnapshotEntryKind.
Proof. solve_decision. Defined.
#[export] Instance snapshot_entry_eq_dec : EqDecision SnapshotEntry.
Proof. solve_decision. Defined.

Definition snapshot_kind_value (k : SnapshotEntryKind) : string :=
  match k with
  | SFILE => "file" | SDIRECTORY => "directory" | SYMLINK => "symlink" | SPECIAL => "special"
  end.
Definition entry_path (e : SnapshotEntry) : string := path_str (se_path e).

Section store.
Context `{UnicodeData}.

(** One turn of the first loop of [_normalized_entries]: the dict of entries
    so far, the number of files and their bytes. *)
Record scan_state := MkScan {
  sc_explicit : list (string * SnapshotEntry);
  sc_files : Z;
  sc_bytes : Z
}.
Definition accept_entry (state : scan_state) (e : SnapshotEntry) : Result scan_state :=
  let raw := entry_path e in
  let known := bool_decide (is_Some (dget raw (sc_explicit state))) in
  let accepted := dset raw e (sc_explicit state) in
  if match parse_relative_path raw None with
     | Err _ => true
     | Ok parsed => negb (bool_decide (parsed = se_path e)) || known
     end
  then store_error ("object entry path is invalid or duplicated: " +:+ repr raw)
  else if MAX_TREE_DEPTH <? count (sp_parts (se_path e))
  then store_error ("object entry exceeds maximum depth: " +:+ raw)
  else match se_kind e with
       | SDIRECTORY =>
           if negb (str_empty (se_content e)) || se_executable e
           then store_error ("object directory has file metadata: " +:+ raw)
           else Ok (MkScan accepted (sc_files state) (sc_bytes state))
       | SFILE =>
           let files := sc_files state + 1 in
           let bytes := sc_bytes state + len (se_content e) in
           if MAX_FILES <? files then store_error "object exceeds maximum file count"
           else if MAX_FILE_BYTES <? len (se_content e)
           then store_error ("object file exceeds maximum size: " +:+ raw)
           else if MAX_TOTAL_BYTES <? bytes
           then store_error "object exceeds maximum total size"
           else Ok (MkScan accepted files bytes)
       | kind =>
           store_error ("object contains forbidden " +:+ snapshot_kind_value kind +:+ ": " +:+ raw)
       end.

(** [enumerate(entries, start=1)] *)
Fixpoint scan_entries (entry_count : Z) (entries : list SnapshotEntry) (state : scan_state) :
    Result scan_state :=
  match entries with
  | [] => Ok state
  | e :: entries =>
      if MAX_ENTRIES <? entry_count then store_error "object exceeds maximum entry count"
      else state ← accept_entry state e; scan_entries (entry_count + 1) entries state
  end.

(** The second loop: an explicit entry's missing parents become directories. *)
Definition ancestors (parts : list string) : list (list string) :=
  map (λ n, take n parts) (seq 1 (length parts - 1)).
Fixpoint add_parents (parents : list (list string)) (normalized : list (string * SnapshotEntry)) :
    py (Result (list (string * SnapshotEntry))) :=
  match parents with
  | [] => Ret (Ok normalized)
  | parts :: parents =>
      let directory := join "/" parts in
      match dget directory normalized with
      | Some existing =>
          if bool_decide (se_kind existing = SDIRECTORY) then add_parents parents normalized
          else Ret (store_error ("object file conflicts with required directory: " +:+ directory))
      | None =>
          match parse_relative_path directory None with
          | Err _ => Raise AssertionError
          | Ok parsed =>
              add_parents parents
                (dset directory (MkSnapshotEntry parsed SDIRECTORY "" false) normalized)
          end
      end
  end.

(** [_normalized_entries] *)
Definition normalized_entries (entries : list SnapshotEntry) :
    py (Result (list SnapshotEntry)) :=
  match scan_entries 1 entries (MkScan [] 0 0) with
  | Err ds => Ret (Err ds)
  | Ok state =>
      match sc_explicit state with
      | [] => Ret (store_error "object must contain at least one entry")
      | explicit =>
          normalized ← add_parents (concat (map (λ kv, ancestors (sp_parts (se_path kv.2))) explicit))
                         explicit;
          Ret (normalized ← normalized; Ok (sorted entry_path (dvalues normalized)))
      end
  end.

(** * The object envelope *)

Definition entry_json (e : SnapshotEntry) : JsonValue :=
  json_object ([("executable", JBool (se_executable e));
                ("kind", JStr (snapshot_kind_value (se_kind e))); ("path", JStr (entry_path e))]
               ++ if bool_decide (se_kind e = SFILE)
                  then [("content_base64", JStr (b64encode (se_content e)))] else []).
Definition object_envelope (entries : list SnapshotEntry) : JsonValue :=
  json_object [("entries", JsonArray (map entry_json entries)); ("schema_version", JInt 1)].
(** [_canonical_object_bytes] *)
Definition canonical_object_bytes (entries : list SnapshotEntry) : bytes :=
  canonical_json_bytes (object_envelope entries).

Record ObjectCandidate := MkObjectCandidate {
  ob_digest : ObjectDigest;
  ob_entries : list SnapshotEntry;
  ob_bytes : bytes
}.
#[export] Instance object_candidate_eq_dec : EqDecision ObjectCandidate.
Proof. solve_decision. Defined.

(** [normalized.value == self.entries] *)
Definition normalized_to (entries : list SnapshotEntry) (r : Result (list SnapshotEntry)) : bool :=
  match r with Ok normalized => bool_decide (normalized = entries) | Err _ => false end.

Definition object_candidate (digest : ObjectDigest) (entries : list SnapshotEntry) (data : bytes) :
    py ObjectCandidate :=
  normalized ← normalized_entries entries;
  raise_if (negb (valid_digest digest)
            || (MAX_ENVELOPE_BYTES <? len data)
            || negb (bool_decide (sha256_bytes data = digest))
            || negb (normalized_to entries normalized)
            || negb (bool_decide (canonical_object_bytes entries = data)))
    "object candidate must bind the exact safe canonical tree and bytes" ;;
  Ret (MkObjectCandidate digest entries data).

Definition make_object_candidate (entries : list SnapshotEntry)
    (expected_digest : option ObjectDigest) : py (Result ObjectCandidate) :=
  normalized ← normalized_entries entries;
  match normalized with
  | Err ds => Ret (Err ds)
  | Ok normalized =>
      let canonical := canonical_object_bytes normalized in
      if MAX_ENVELOPE_BYTES <? len canonical
      then Ret (store_error "canonical object envelope exceeds maximum size")
      else
        let digest := sha256_bytes canonical in
        if match expected_digest with
           | None => false
           | Some expected => negb (valid_digest expected) || negb (bool_decide (digest = expected))
           end
        then Ret (fail1 (diagnostic DIGEST_MISMATCH ERROR
                           "object bytes do not match expected digest" None [] []))
        else candidate ← object_candidate digest normalized canonical; Ret (Ok candidate)
  end.

(** [frozenset(fields) == required] *)
Definition fields_are (fields : list (string * JsonValue)) (required : list string) : bool :=
  forallb (λ k, mem k required) fields.*1 && forallb (λ k, mem k fields.*1) required.

(** The body of the loop of [parse_object_candidate]. *)
Definition parse_entry (value : JsonValue) : Result SnapshotEntry :=
  match value with
  | JsonObject fields =>
      let kind := dget "kind" fields in
      let file := bool_decide (kind = Some (JStr "file")) in
      if negb (fields_are fields
                 (if file then ["path"; "kind"; "executable"; "content_base64"]
                  else ["path"; "kind"; "executable"]))
      then store_error "object envelope entry fields are invalid"
      else match dget "path" fields, dget "executable" fields with
           | Some (JStr raw_path), Some (JBool executable) =>
               match parse_relative_path raw_path None with
               | Err _ => store_error ("object envelope path is unsafe: " +:+ repr raw_path)
               | Ok path =>
                   if bool_decide (kind = Some (JStr "directory")) then
                     if executable
                     then store_error ("object envelope directory is executable: " +:+ raw_path)
                     else Ok (MkSnapshotEntry path SDIRECTORY "" false)
                   else if negb file then store_error "object envelope entry kind is invalid"
                   else match dget "content_base64" fields with
                        | Some (JStr raw_content) =>
                            match b64decode raw_content with
                            | None => store_error
                                ("object envelope content is not canonical base64: " +:+ raw_path)
                            | Some content => Ok (MkSnapshotEntry path SFILE content executable)
                            end
                        | _ => store_error "object envelope entry kind is invalid"
                        end
               end
           | _, _ => store_error "object envelope entry types are invalid"
           end
  | _ => store_error "object envelope entry must be an object"
  end.
End store.

Definition parse_object_candidate `{UnicodeData} `{DecodeErrors} (data : bytes)
    (expected_digest : option ObjectDigest) : py (Result ObjectCandidate) :=
  if MAX_ENVELOPE_BYTES <? len data
  then Ret (store_error "object envelope must be bounded bytes")
  else
    parsed ← parse_json data None MAX_DEPTH MAX_ENVELOPE_STRING;
    match parsed with
    | Ok (JsonObject fields) =>
        if negb (fields_are fields ["schema_version"; "entries"])
        then Ret (store_error "object envelope fields are invalid")
        else if negb (bool_decide (dget "schema_version" fields = Some (JInt 1)))
        then Ret (store_error "object envelope schema version is unsupported")
        else match dget "entries" fields with
             | Some (JsonArray raw_entries) =>
                 if MAX_ENTRIES <? count raw_entries
                 then Ret (store_error "object envelope exceeds maximum entry count")
                 else match mapM parse_entry raw_entries with
                      | Err ds => Ret (Err ds)
                      | Ok entries =>
                          candidate ← make_object_candidate entries expected_digest;
                          Ret (candidate ← candidate;
                               if bool_decide (ob_bytes candidate = data) then Ok candidate
                               else store_error "object envelope is not in canonical representation")
                      end
             | _ => Ret (store_error "object envelope entries must be an array")
             end
    | _ => Ret (store_error "object envelope is not strict JSON")
    end.

(** * Objects at rest *)

Record StoredObject := MkStoredObject { so_candidate : ObjectCandidate; so_root : string }.
Definition stored_object (candidate : ObjectCandidate) (root : string) : py StoredObject :=
  raise_if (negb (norm_abs root)) "stored object root must be normalized and absolute" ;;
  Ret (MkStoredObject candidate root).

Record ObjectReadRequest := MkReadRequest { rd_paths : ObjectStorePaths; rd_digest : ObjectDigest }.
Definition object_read_request (paths : ObjectStorePaths) (digest : ObjectDigest) :
    py ObjectReadRequest :=
  raise_if (negb (valid_digest digest)) "object read digest must be canonical SHA-256" ;;
  Ret (MkReadRequest paths digest).

Record ObjectPublishCommand := MkPublishCommand {
  pc_paths : ObjectStorePaths; pc_candidate : ObjectCandidate
}.
Record ObjectPublishReceipt := MkStorePublishReceipt {
  pb_stored : StoredObject; pb_created : bool; pb_repaired : bool
}.

Inductive ObjectStatusKind : Type := MISSING | VERIFIED | DEGRADED.
#[export] Instance status_kind_eq_dec : EqDecision ObjectStatusKind.
Proof. solve_decision. Defined.
Record ObjectStatus := MkObjectStatus {
  ost_kind : ObjectStatusKind;
  ost_digest : ObjectDigest;
  ost_stored : option StoredObject;
  ost_diagnostics : list Diagnostic
}.
Definition object_status_init (kind : ObjectStatusKind) (digest : ObjectDigest)
    (stored : option StoredObject) (diagnostics : list Diagnostic) : py ObjectStatus :=
  raise_if (negb (valid_digest digest)) "object status digest must be canonical SHA-256" ;;
  raise_if (match kind, stored with VERIFIED, None => true | _, _ => false end)
    "verified object status requires a stored object" ;;
  raise_if (match kind, stored with VERIFIED, _ => false | _, Some _ => true | _, None => false end)
    "non-verified object status cannot contain a stored object" ;;
  raise_if (match stored with
            | Some s => negb (bool_decide (ob_digest (so_candidate s) = digest))
            | None => false
            end) "object status digest must match its stored object" ;;
  Ret (MkObjectStatus kind digest stored (sort_diagnostics diagnostics)).

Record ObjectDeleteCommand := MkDeleteCommand {
  dc_paths : ObjectStorePaths; dc_digest : ObjectDigest
}.
Definition object_delete_command (paths : ObjectStorePaths) (digest : ObjectDigest) :
    py ObjectDeleteCommand :=
  raise_if (negb (valid_digest digest)) "object delete digest must be canonical SHA-256" ;;
  Ret (MkDeleteCommand paths digest).

(** * References *)

Inductive ReferenceKind : Type :=
  | INSTALLED | SETUP | SOURCE_CURRENT | RETAINED | ROLLBACK | TRANSACTION.
#[export] Instance reference_kind_eq_dec : EqDecision ReferenceKind.
Proof. solve_decision. Defined.
Definition reference_kinds : list ReferenceKind :=
  [INSTALLED; SETUP; SOURCE_CURRENT; RETAINED; ROLLBACK; TRANSACTION].
Definition reference_kind_value (k : ReferenceKind) : string :=
  match k with
  | INSTALLED => "installed" | SETUP => "setup" | SOURCE_CURRENT => "source-current"
  | RETAINED => "retained" | ROLLBACK => "rollback" | TRANSACTION => "transaction"
  end.

(** [_OWNER_RE] *)
Definition owner_char (c : ascii) : bool := is_alnum c || has_char c "._:/@+-".
Definition valid_owner (s : string) : bool :=
  match s with
  | String c rest => is_alnum c && str_forall owner_char rest && (len rest <=? 511)
  | EmptyString => false
  end.

Record ObjectReference := MkReference {
  rf_kind : ReferenceKind; rf_owner : string; rf_digest : ObjectDigest
}.
#[export] Instance reference_eq_dec : EqDecision ObjectReference.
Proof. solve_decision. Defined.
Definition valid_reference (r : ObjectReference) : bool :=
  valid_owner (rf_owner r) && valid_digest (rf_digest r).
Definition object_reference (kind : ReferenceKind) (owner : string) (digest : ObjectDigest) :
    py ObjectReference :=
  raise_if (negb (valid_reference (MkReference kind owner digest)))
    "object reference identity is invalid" ;;
  Ret (MkReference kind owner digest).

(** The field order of [order=True]; a kind compares as its text. *)
Definition reference_key (r : ObjectReference) : string * string * (string * string) :=
  (reference_kind_value (rf_kind r), rf_owner r,
   (dg_algorithm (rf_digest r), dg_value (rf_digest r))).

Record ReferenceIndex := MkReferenceIndex { ri_references : list ObjectReference }.
#[export] Instance reference_index_eq_dec : EqDecision ReferenceIndex.
Proof. solve_decision. Defined.
(** [schema_version] is 1 in every value. *)
Definition reference_index (schema_version : Z) (references : list ObjectReference) :
    py ReferenceIndex :=
  raise_if (negb (schema_version =? 1)) "object reference schema version must be 1" ;;
  let ordered := sorted reference_key references in
  raise_if ((MAX_REFERENCES <? count ordered) || has_dups ordered)
    "object references must be unique" ;;
  Ret (MkReferenceIndex ordered).

Record ReferenceWriteCommand := MkWriteCommand {
  wc_paths : ObjectStorePaths; wc_index : ReferenceIndex
}.

(** * Locks, inventory and garbage collection *)

(** The [float] timeout is a finite number. *)
Record StoreLockRequest := MkLockRequest {
  lq_lock_directory : string; lq_timeout_seconds : Q; lq_stale_after_seconds : Z
}.
Definition store_lock_request (lock_directory : string) (timeout_seconds : Q)
    (stale_after_seconds : Z) : py StoreLockRequest :=
  raise_if (negb (norm_abs lock_directory) || Qle_bool timeout_seconds 0
            || (stale_after_seconds <=? 0)) "store lock request is invalid" ;;
  Ret (MkLockRequest lock_directory timeout_seconds stale_after_seconds).

Record StoreLockLease := MkLockLease { ll_lock_directory : string; ll_token : string }.
Definition store_lock_lease (lock_directory token : string) : py StoreLockLease :=
  raise_if (negb (isabs lock_directory) || str_empty token) "store lock lease is invalid" ;;
  Ret (MkLockLease lock_directory token).

Record ObjectInventory := MkInventory {
  oi_digests : list ObjectDigest; oi_diagnostics : list Diagnostic
}.
Definition object_inventory (digests : list ObjectDigest) (diagnostics : list Diagnostic) :
    py ObjectInventory :=
  let ordered := sorted_set digest_str digests in
  raise_if (negb (count ordered =? count digests)
            || existsb (λ d, negb (valid_digest d)) ordered)
    "object inventory digests must be unique canonical SHA-256" ;;
  Ret (MkInventory ordered (sort_diagnostics diagnostics)).

Record GcRequest := MkGcRequest { gq_paths : ObjectStorePaths; gq_execute : bool }.

Record GcPlan := MkGcPlan {
  gp_referenced : list ObjectDigest;
  gp_candidates : list ObjectDigest;
  gp_diagnostics : list Diagnostic
}.
Definition gc_plan (referenced candidates : list ObjectDigest) (diagnostics : list Diagnostic) :
    py GcPlan :=
  let ordered := sorted_set digest_str referenced in
  let ordered_candidates := sorted_set digest_str candidates in
  raise_if (negb (count ordered =? count referenced)
            || negb (count ordered_candidates =? count candidates)
            || existsb (λ d, mem d ordered_candidates) ordered
            || existsb (λ d, negb (valid_digest d)) (ordered ++ ordered_candidates))
    "garbage collection plan must partition canonical digests" ;;
  Ret (MkGcPlan ordered ordered_candidates (sort_diagnostics diagnostics)).

Record GcOutcome := MkGcOutcome {
  go_plan : GcPlan; go_executed : bool; go_deleted : list ObjectDigest
}.
Definition gc_outcome (plan : GcPlan) (executed : bool) (deleted : list ObjectDigest) :
    py GcOutcome :=
  let ordered := sorted_set digest_str deleted in
  raise_if (negb (count ordered =? count deleted)
            || existsb (λ d, negb (mem d (gp_candidates plan))) ordered)
    "garbage collection outcome is invalid" ;;
  raise_if (negb executed && match ordered with [] => false | _ => true end)
    "dry-run garbage collection cannot report deletions" ;;
  Ret (MkGcOutcome plan executed ordered).

(** * The reference index file ([store/references.py]) *)

Definition REFERENCE_INVALID := MkCode "store-reference-invalid".
Definition reference_error {A} (message : string) : Result A :=
  fail1 (diagnostic REFERENCE_INVALID ERROR message None [] []).

Definition reference_json (r : ObjectReference) : JsonValue :=
  json_object [("digest", JStr (digest_str (rf_digest r)));
               ("kind", JStr (reference_kind_value (rf_kind r))); ("owner", JStr (rf_owner r))].
Definition reference_index_json (index : ReferenceIndex) : JsonValue :=
  json_object [("references", JsonArray (map reference_json (ri_references index)));
               ("schema_version", JInt 1)].
Definition reference_index_bytes (index : ReferenceIndex) : bytes :=
  canonical_json_bytes (reference_index_json index).

Definition reference_kind_of (value : string) : option ReferenceKind :=
  List.find (λ k, String.eqb (reference_kind_value k) value) reference_kinds.

(** The body of the loop of [parse_reference_index]. *)
Definition parse_reference `{UnicodeData} (value : JsonValue) : Result ObjectReference :=
  match value with
  | JsonObject item =>
      if negb (fields_are item ["kind"; "owner"; "digest"])
      then reference_error "object reference fields are invalid"
      else match dget "kind" item, dget "owner" item with
           | Some (JStr kind), Some (JStr owner) =>
               match dget "digest" item with
               | Some (JStr raw) =>
                   match parse_sha256 raw None with
                   | Err _ => reference_error "object reference digest is invalid"
                   | Ok digest =>
                       match reference_kind_of kind with
                       | Some kind =>
                           match object_reference kind owner digest with
                           | Ret reference => Ok reference
                           | Raise _ => reference_error "object reference identity is invalid"
                           end
                       | None => reference_error "object reference identity is invalid"
                       end
                   end
               | _ => reference_error "object reference digest must be a string"
               end
           | _, _ => reference_error "object reference identity types are invalid"
           end
  | _ => reference_error "object reference must be an object"
  end.

(** [parse_reference_index] of [bytes]. *)
Definition parse_reference_index `{UnicodeData} `{DecodeErrors} (data : bytes) :
    py (Result ReferenceIndex) :=
  parsed ← parse_json data None MAX_DEPTH MAX_STRING;
  Ret match parsed with
  | Ok (JsonObject fields) =>
      if negb (fields_are fields ["schema_version"; "references"])
      then reference_error "object reference index fields are invalid"
      else if negb (bool_decide (dget "schema_version" fields = Some (JInt 1)))
      then reference_error "object reference index schema version is unsupported"
      else match dget "references" fields with
           | Some (JsonArray values) =>
               references ← mapM parse_reference values;
               match reference_index 1 references with
               | Raise _ => reference_error "object reference index contains duplicates"
               | Ret index =>
                   if bool_decide (reference_index_bytes index = data) then Ok index
                   else reference_error "object reference index is not canonical"
               end
           | _ => reference_error "object references must be an array"
           end
  | _ => reference_error "object reference index is not strict JSON"
  end.
