(* ===== verification/Configuration.v ===== *)
(** [configuration/model.py]: the values of the user configuration and of the
    organization policy, and the identity of a Git location.

    [urllib.parse.urlsplit] is modelled as far as the code uses it: scheme,
    user information, host, path, query and fragment.  Whether a bracketed host
    is an IPv6 address is decided by [ipaddress], the class [IpAddress]. *)
From S2P Require Import Prelude PyText TextSearch Regex Domain Protocol CompilerModel Graph Marketplace.
From Stdlib Require Import Ascii.

Class IpAddress := { is_ipv6 : string → bool }.

Definition TRUST_CLASSES : list string :=
  ["unverified"; "local"; "direct-source"; "registry-reviewed"; "company-reviewed"].

Inductive SyncMode : Type := AUTO | MANUAL.
Definition sync_mode_value (m : SyncMode) : string :=
  match m with AUTO => "auto" | MANUAL => "manual" end.
Inductive ReportingMode : Type := R_DISABLED | R_PROMPT | R_AUTOMATIC.
Definition reporting_mode_value (m : ReportingMode) : string :=
  match m with R_DISABLED => "disabled" | R_PROMPT => "prompt" | R_AUTOMATIC => "automatic" end.
#[export] Instance sync_mode_eq_dec : EqDecision SyncMode.
Proof. solve_decision. Defined.
#[export] Instance reporting_mode_eq_dec : EqDecision ReportingMode.
Proof. solve_decision. Defined.

(** * Git locations *)

Section locations.
Context `{UnicodeData} `{IpAddress}.

(** [_valid_repository_path] *)
Definition valid_repository_path (raw : string) : option string :=
  let path := removesuffix ".git" (lstrip_char "/" raw) in
  if str_empty path || endswith "/" path
     || existsb (λ part, mem part [""; "."; ".."]) (split_on "/" path)
     || has_char "\" path || has_char "%" path
     || existsb (λ c, is_space c || (ord c <? 32)%N) (code_points path)
  then None else Some path.

(** [_SCP_GIT_RE.fullmatch(location)]: the groups [host] and [path].  The host
    has no colon, so the first one ends it. *)
Definition is_host_char (c : ascii) : bool := is_alnum c || is_char "." c || is_char "-" c.
Definition scp_groups (location : string) : option (string * string) :=
  if String.prefix "git@" location then
    match cut_first ":" (str_drop 4 location) with
    | (host, Some path) =>
        if negb (str_empty host) && str_forall is_host_char host && negb (str_empty path)
           && negb (has_char "?" path) && negb (has_char "#" path)
           && negb (existsb is_space (code_points path))
        then Some (host, path) else None
    | (_, None) => None
    end
  else None.

(** What [urlsplit] returns: scheme, netloc, path, query, fragment. *)
Record SplitResult := MkSplit {
  url_scheme : string; url_netloc : string; url_path : string;
  url_query : string; url_fragment : string
}.

Fixpoint drop_while (p : ascii → bool) (s : string) : string :=
  match s with String c t => if p c then drop_while p t else s | EmptyString => "" end.
Fixpoint remove_chars (p : ascii → bool) (s : string) : string :=
  match s with
  | String c t => if p c then remove_chars p t else String c (remove_chars p t)
  | EmptyString => ""
  end.
(** [_splitnetloc]: up to the first of [/?#]. *)
Fixpoint split_netloc (s : string) : string * string :=
  match s with
  | String c t =>
      if is_char "/" c || is_char "?" c || is_char "#" c then ("", s)
      else let '(a, b) := split_netloc t in (String c a, b)
  | EmptyString => ("", "")
  end.
Definition is_scheme_char (c : ascii) : bool :=
  is_alnum c || is_char "+" c || is_char "-" c || is_char "." c.

(** [_check_bracketed_host] accepts the host. *)
Definition ipvfuture (host : string) : bool :=
  match cut_first "." (str_drop 1 host) with
  | (version, Some rest) =>
      negb (str_empty version) && str_forall (λ c, is_hex (lower_ascii c)) version
      && negb (str_empty rest) && negb (has_char newline rest)
  | (_, None) => false
  end.
Definition bracketed_host_ok (netloc : string) : bool :=
  if has_char "[" netloc || has_char "]" netloc then
    has_char "[" netloc && has_char "]" netloc
    && let host := (cut_first "]" (default "" (cut_first "[" netloc).2)).1 in
       if String.prefix "v" host then ipvfuture host else is_ipv6 host
  else true.

(** [_checknetloc] accepts the network location. *)
Definition netloc_ok (netloc : string) : bool :=
  is_ascii netloc
  || let n := remove_chars (λ c, is_char "@" c || is_char ":" c || is_char "#" c || is_char "?" c) netloc in
     bool_decide (nfkc n = n)
     || negb (existsb (λ c, has_char c (nfkc n)) ["/"%char; "?"%char; "#"%char; "@"%char; ":"%char]).

Definition urlsplit (url : string) : option SplitResult :=
  let url := remove_chars (λ c, is_char "009" c || is_char creturn c || is_char newline c)
               (drop_while (λ c, (code c <=? 32)%N) url) in
  let '(scheme, url) :=
    match cut_first ":" url with
    | (String c s, Some rest) =>
        if is_alpha c && str_forall is_scheme_char (String c s)
        then (str_map lower_ascii (String c s), rest) else ("", url)
    | _ => ("", url)
    end in
  let '(netloc, url) :=
    if String.prefix "//" url then split_netloc (str_drop 2 url) else ("", url) in
  if negb (bracketed_host_ok netloc) then None
  else
    let '(url, fragment) := cut_first "#" url in
    let '(url, query) := cut_first "?" url in
    if negb (netloc_ok netloc) then None
    else Some (MkSplit scheme netloc url (default "" query) (default "" fragment)).

(** [SplitResult.username], [.password], [.hostname] *)
Definition userinfo (r : SplitResult) : option string * option string :=
  match cut_last "@" (url_netloc r) with
  | Some (info, _) => let '(user, password) := cut_first ":" info in (Some user, password)
  | None => (None, None)
  end.
Definition hostname (r : SplitResult) : option string :=
  let hostinfo := match cut_last "@" (url_netloc r) with
                  | Some (_, host) => host | None => url_netloc r end in
  let host := match cut_first "[" hostinfo with
              | (_, Some bracketed) => (cut_first "]" bracketed).1
              | (_, None) => (cut_first ":" hostinfo).1
              end in
  if str_empty host then None
  else Some match cut_first "%" host with
            | (name, Some zone) => lower name +:+ "%" +:+ zone
            | (name, None) => lower name
            end.

(** [git_location_parts] *)
Definition git_location_parts (location : string) : option (string * string) :=
  match scp_groups location with
  | Some (host, path) =>
      match valid_repository_path path with
      | None => None | Some path => Some (casefold host, path) end
  | None =>
      match urlsplit location with
      | None => None
      | Some parsed =>
          match hostname parsed with
          | None => None
          | Some host =>
              if negb (mem (url_scheme parsed) ["https"; "ssh"]) || str_empty host then None
              else if bool_decide ((userinfo parsed).2 ≠ None)
                      || negb (str_empty (url_query parsed)) || negb (str_empty (url_fragment parsed))
              then None
              else if String.eqb (url_scheme parsed) "https"
                      && bool_decide ((userinfo parsed).1 ≠ None) then None
              else if String.eqb (url_scheme parsed) "ssh"
                      && negb (mem (userinfo parsed).1 [None; Some "git"]) then None
              else match valid_repository_path (url_path parsed) with
                   | None => None | Some path => Some (casefold host, path) end
          end
      end
  end.

(** [git_origin_key] *)
Definition git_origin_key (kind : SourceKind) (location : string) : list string :=
  match git_location_parts location with
  | Some (host, path) => [source_kind_value kind; host; path]
  | None => [source_kind_value kind; location]
  end.

(** * User configuration *)

Record ConfiguredSource := MkConfigured {
  cs_alias : SourceAlias;
  cs_kind : SourceKind;
  cs_location : string;
  cs_ref : option string;
  cs_enabled : bool
}.
Definition configured_source (s : ConfiguredSource) : py ConfiguredSource :=
  _ ← raise_if (str_empty (alias_value (cs_alias s)) || str_empty (cs_location s))
        "configured source identity must be non-empty";
  _ ← raise_if (bool_decide (cs_kind s = SOURCE_LOCAL) && bool_decide (cs_ref s ≠ None))
        "local sources do not have Git refs";
  _ ← raise_if (bool_decide (cs_kind s ≠ SOURCE_LOCAL) && bool_decide (cs_ref s = None))
        "Git sources require a ref";
  Ret s.
Definition is_registry (s : ConfiguredSource) : bool := bool_decide (cs_kind s = REGISTRY_GIT).
Definition is_git (s : ConfiguredSource) : bool := mem (cs_kind s) [REGISTRY_GIT; SOURCE_GIT].

Record SyncSettings := MkSync { sy_mode : SyncMode; sy_max_age_seconds : Z }.
Definition sync_settings (mode : SyncMode) (max_age_seconds : Z) : py SyncSettings :=
  _ ← raise_if (negb ((0 <=? max_age_seconds)%Z && (max_age_seconds <=? 2 ^ 31 - 1)%Z))
        "sync settings are invalid";
  Ret (MkSync mode max_age_seconds).

Record ReportingSettings := MkReporting { rs_mode : ReportingMode; rs_destination : option SourceAlias }.
Definition empty_alias (a : option SourceAlias) : bool :=
  match a with Some a => str_empty (alias_value a) | None => false end.
Definition reporting_settings (mode : ReportingMode) (destination : option SourceAlias) :
    py ReportingSettings :=
  _ ← raise_if (bool_decide (mode = R_AUTOMATIC) && bool_decide (destination = None))
        "automatic reporting requires an explicit destination";
  _ ← raise_if (empty_alias destination) "reporting destination must be non-empty";
  Ret (MkReporting mode destination).

Record UserConfiguration := MkConfiguration {
  uc_schema_version : Z;
  uc_sources : list ConfiguredSource;
  uc_default_registry : option SourceAlias;
  uc_sync : SyncSettings;
  uc_reporting : ReportingSettings
}.
Definition user_configuration (schema_version : Z) (sources : list ConfiguredSource)
    (default_registry : option SourceAlias) (sync : SyncSettings) (reporting : ReportingSettings) :
    py UserConfiguration :=
  _ ← raise_if (negb (schema_version =? 1)%Z) "user configuration schema version must be 1";
  let ordered := sorted (λ item, alias_value (cs_alias item)) sources in
  _ ← raise_if (has_dups (map cs_alias ordered)) "configured source aliases must be unique";
  let origins := map (λ item, git_origin_key (cs_kind item) (cs_location item)
                                ++ [or_empty (cs_ref item)]) (List.filter is_git ordered) in
  _ ← raise_if (has_dups origins) "each configured Git source origin and ref pair must be unique";
  Ret (MkConfiguration schema_version ordered default_registry sync reporting).

(** * Organization policy *)

Record ReportingPolicy := MkReportingPolicy {
  rp_mode : option ReportingMode;
  rp_destination : option SourceAlias;
  rp_deny_public_destinations : bool
}.
Definition reporting_policy (p : ReportingPolicy) : py ReportingPolicy :=
  _ ← raise_if (empty_alias (rp_destination p)) "reporting policy destination must be non-empty";
  Ret p.

Record CompanyReviewedSource := MkCompany {
  cr_source_id : SourceId; cr_git_host : string; cr_repository : string
}.
#[export] Instance company_eq_dec : EqDecision CompanyReviewedSource.
Proof. solve_decision. Defined.

Definition is_lower_alnum (c : ascii) : bool := is_lower c || is_digit c.
Definition GIT_HOST_RE : re :=
  RChar is_lower_alnum
  · ROpt (RStar (RChar (λ c, is_lower_alnum c || is_char "." c || is_char "-" c)) · RChar is_lower_alnum).

Definition company_reviewed_source (source_id : SourceId) (git_host repository : string) :
    py CompanyReviewedSource :=
  _ ← raise_if (String.prefix "/" repository || has_char "?" repository || has_char "#" repository)
        "company-reviewed source identity is invalid";
  let host := casefold git_host in
  match valid_repository_path repository with
  | Some path =>
      _ ← raise_if (negb (fullmatch slug_re (source_id_value source_id))
                    || negb (fullmatch GIT_HOST_RE host))
            "company-reviewed source identity is invalid";
      Ret (MkCompany source_id host path)
  | None => Raise (ValueError "company-reviewed source identity is invalid")
  end.
Definition company_key (s : CompanyReviewedSource) : string * string * string :=
  (source_id_value (cr_source_id s), cr_git_host s, cr_repository s).

Record OrganizationPolicy := MkPolicy {
  op_schema_version : Z;
  op_recommended_sources : list SourceAlias;
  op_required_sources : list SourceAlias;
  op_allowed_git_hosts : option (list string);
  op_allowed_repository_prefixes : option (list string);
  op_allow_direct_sources : option bool;
  op_minimum_trust_for_user_scope : option string;
  op_allowed_setup_capabilities : option (list Capability);
  op_allow_custom_setup_entrypoints : option bool;
  op_reporting : ReportingPolicy;
  op_company_reviewed_sources : list CompanyReviewedSource
}.
Definition organization_policy (p : OrganizationPolicy) : py OrganizationPolicy :=
  _ ← raise_if (negb (op_schema_version p =? 1)%Z) "organization policy schema version must be 1";
  _ ← raise_if (match op_minimum_trust_for_user_scope p with
                | Some t => negb (mem t TRUST_CLASSES) | None => false end)
        "organization policy minimum trust is invalid";
  let recommended := sorted_set alias_value (op_recommended_sources p) in
  let required := sorted_set alias_value (op_required_sources p) in
  _ ← raise_if (existsb (λ a, mem a required) recommended)
        "recommended and required sources must not overlap";
  let reviewed := sorted_set company_key (op_company_reviewed_sources p) in
  _ ← raise_if (negb (length reviewed =? length (op_company_reviewed_sources p))%nat)
        "company-reviewed source identities must be unique";
  Ret (MkPolicy (op_schema_version p) recommended required
         (sorted_set id <$> op_allowed_git_hosts p)
         (sorted_set id <$> op_allowed_repository_prefixes p)
         (op_allow_direct_sources p) (op_minimum_trust_for_user_scope p)
         (sorted_set cap_value <$> op_allowed_setup_capabilities p)
         (op_allow_custom_setup_entrypoints p) (op_reporting p) reviewed).

Definition default_user_configuration : py UserConfiguration :=
  user_configuration 1 [] None (MkSync AUTO 900) (MkReporting R_PROMPT None).
Definition default_organization_policy : py OrganizationPolicy :=
  organization_policy (MkPolicy 1 [] [] None None None None None None
                         (MkReportingPolicy None None false) []).
End locations.

(** * Checks on concrete locations *)

Definition no_ipv6 : IpAddress := {| is_ipv6 _ := false |}.

Example scp_location :
  @git_location_parts ascii_unicode no_ipv6 "git@GitHub.com:acme/tools.git" = Some ("github.com", "acme/tools").
Proof. by vm_compute. Qed.
Example https_location :
  @git_location_parts ascii_unicode no_ipv6 "https://github.com/acme/tools" = Some ("github.com", "acme/tools").
Proof. by vm_compute. Qed.
Example credentials_refused :
  @git_location_parts ascii_unicode no_ipv6 "https://user:pw@github.com/acme/tools" = None
  ∧ @git_location_parts ascii_unicode no_ipv6 "ssh://root@host/acme/tools" = None
  ∧ @git_location_parts ascii_unicode no_ipv6 "https://github.com/acme/../tools" = None
  ∧ @git_location_parts ascii_unicode no_ipv6 "https://github.com/acme/tools#main" = None.
Proof. by vm_compute. Qed.
