(* ===== verification/InstallState.v ===== *)
(** [install_state/model.py] and [install_state/paths.py]: the records of what
    is installed in a scope, and where they are kept.

    A string-valued [Literal] stays a string, since the constructors test it;
    the kind of an artifact is the type [ArtifactKind].  [JNull] stands for the
    absent identity evidence, as [None] does in the code. *)
From S2P Require Import Prelude PyText TextSearch Posix Regex Domain SemVer Json Protocol CompilerModel Marketplace Configuration.
From Stdlib Require Import Ascii.

Definition COMMIT_RE : re := hex40_re.
Definition LOCAL_REVISION_RE : re := RStr "local" · ROpt (RLit ":" · hex64_re).
(** [[a-z0-9][a-z0-9._-]{0,255}] *)
Definition is_ref_char (c : ascii) : bool :=
  is_lower_alnum c || is_char "." c || is_char "_" c || is_char "-" c.
Definition setup_ref_ok (s : string) : bool :=
  match s with
  | String c rest => is_lower_alnum c && str_forall is_ref_char rest && (String.length rest <=? 255)%nat
  | EmptyString => false
  end.

Definition EFFECT_KINDS : list string :=
  ["copy-tree"; "write-file"; "merge-json"; "managed-block"; "symlink-file"; "symlink-tree"].

Section install_state.
Context `{UnicodeData} `{IpAddress}.

Definition one_line (value : string) : bool :=
  negb (str_empty value) && bool_decide (strip value = value)
  && negb (has_char creturn value) && negb (has_char newline value).

(** [_identity_evidence_matches]; canonical values always serialise. *)
Definition identity_evidence_matches (evidence : JsonValue) (digest : ObjectDigest) : bool :=
  bool_decide (json_digest evidence = digest).

Definition safe_git_ref (value : string) : bool :=
  one_line value && negb (String.prefix "-" value) && negb (mem value ["."; ".."])
  && negb (endswith "." value || endswith "/" value || endswith ".lock" value)
  && negb (existsb (λ part, mem part [""; "."; ".."]) (split_on "/" value))
  && negb (existsb (λ token, contains token value)
             [".."; "@{"; "\"; " "; "~"; "^"; ":"; "?"; "*"; "["]).

Definition safe_git_identity (value : string) : bool :=
  if negb (one_line value) || contains "://" value || has_char "@" value then false
  else
    let parts := split_on "/" value in
    (2 <=? length parts)%nat && has_char "." (hd "" parts)
    && forallb (λ part, negb (mem part [""; "."; ".."])) parts
    && negb (existsb (λ c, has_char c value) ["\"%char; "?"%char; "#"%char; "%"%char]).

(** * Evidence *)

Record SourceEvidence := MkSourceEvidence {
  se_alias : SourceAlias;
  se_declared_id : SourceId;
  se_kind : SourceKind;
  se_origin : string;
  se_resolved_commit : string;
  se_subscription_ref : option string
}.
#[global] Instance source_evidence_eq_dec : EqDecision SourceEvidence.
Proof using. solve_decision. Defined.

Definition source_evidence (e : SourceEvidence) : py SourceEvidence :=
  _ ← raise_if (negb (fullmatch slug_re (alias_value (se_alias e)))
                || negb (fullmatch slug_re (source_id_value (se_declared_id e)))
                || negb (one_line (se_origin e)))
        "installation source evidence is invalid";
  _ ← (if bool_decide (se_kind e = SOURCE_LOCAL) then
         raise_if (negb (isabs (se_origin e)) || negb (bool_decide (normpath (se_origin e) = se_origin e))
                   || negb (fullmatch LOCAL_REVISION_RE (se_resolved_commit e))
                   || bool_decide (se_subscription_ref e ≠ None))
           "local source origin must be a normalized absolute path"
       else
         raise_if (negb (fullmatch COMMIT_RE (se_resolved_commit e))
                   || (bool_decide (git_location_parts (se_origin e) = None)
                       && negb (safe_git_identity (se_origin e)))
                   || negb (safe_git_ref (or_empty (se_subscription_ref e))))
           "Git source origin/ref must be a credential-free Git location and safe subscription");
  Ret e.

Record ArtifactEvidence := MkArtifactEvidence {
  ae_identity : ArtifactIdentity;
  ae_version : SemVer;
  ae_manifest_digest : ObjectDigest;
  ae_payload_digest : ObjectDigest;
  ae_object_digest : ObjectDigest
}.
#[global] Instance artifact_evidence_eq_dec : EqDecision ArtifactEvidence.
Proof using. solve_decision. Defined.

Definition artifact_evidence (e : ArtifactEvidence) : py ArtifactEvidence :=
  _ ← raise_if (negb (mem (id_kind (ae_identity e)) ARTIFACT_KINDS)
                || negb (fullmatch slug_re (id_name (ae_identity e)))
                || negb (forallb valid_digest
                           [ae_manifest_digest e; ae_payload_digest e; ae_object_digest e]))
        "installation artifact evidence is invalid";
  Ret e.

(** * Effects *)

Record EffectProof := MkEffect {
  ef_kind : string;
  ef_destination : string;
  ef_actual_mode : string;
  ef_installed_digest : ObjectDigest;
  ef_source_path : option string;
  ef_json_path : option string;
  ef_merge_mode : option string;
  ef_identity_digest : option ObjectDigest;
  ef_identity_evidence : JsonValue;
  ef_link_target : option string;
  ef_link_semantics : option string;
  ef_created_destination : bool;
  ef_overwrote : bool;
  ef_restores_from : option string
}.
#[global] Instance effect_eq_dec : EqDecision EffectProof.
Proof using. solve_decision. Defined.

Definition effect_common (e : EffectProof) : py unit :=
  _ ← raise_if (negb (mem (ef_kind e) EFFECT_KINDS) || negb (one_line (ef_destination e))
                || negb (mem (ef_actual_mode e) ["copy"; "symlink"])
                || negb (valid_digest (ef_installed_digest e)))
        "installation effect proof is invalid";
  _ ← raise_if (match ef_restores_from e with
                | Some from => negb (bool_decide (ef_kind e = "write-file")) || negb (one_line from)
                               || bool_decide (from = ef_destination e)
                | None => false end)
        "effect restore source must be a distinct write-file sibling";
  raise_if (match ef_source_path e with
            | Some path => is_err (parse_relative_path path None) | None => false end)
    "effect source path must be a safe relative path".

Definition effect_merge_fields (e : EffectProof) : py unit :=
  if bool_decide (ef_kind e = "merge-json") then
    raise_if (negb (one_line (or_empty (ef_json_path e)))
              || negb (mem (ef_merge_mode e) [Some "key"; Some "list"])
              || match ef_identity_digest e with
                 | Some digest =>
                     negb (valid_digest digest)
                     || (negb (bool_decide (ef_identity_evidence e = JNull))
                         && negb (identity_evidence_matches (ef_identity_evidence e) digest))
                 | None => true
                 end
              || bool_decide (ef_source_path e ≠ None)
              || negb (bool_decide (ef_actual_mode e = "copy")))
      "merge-json effect proof is incomplete"
  else if bool_decide (ef_json_path e ≠ None) || bool_decide (ef_merge_mode e ≠ None)
          || bool_decide (ef_identity_digest e ≠ None)
          || negb (bool_decide (ef_identity_evidence e = JNull))
  then Raise (ValueError "non-merge effect proof cannot contain merge fields")
  else raise_if (mem (ef_kind e) ["copy-tree"; "write-file"; "symlink-file"; "symlink-tree"]
                 && bool_decide (ef_source_path e = None))
         "file/tree effect proof requires a source path".

Definition effect_link_fields (e : EffectProof) : py unit :=
  _ ← (if mem (ef_kind e) ["symlink-file"; "symlink-tree"] then
         raise_if (negb (bool_decide (ef_actual_mode e = "symlink"))
                   || match ef_link_target e with
                      | Some target => negb (one_line target) || negb (isabs target)
                                       || negb (bool_decide (normpath target = target))
                                       || bool_decide (target = "/")
                      | None => true end
                   || negb (mem (ef_link_semantics e) [Some "immutable-object"; Some "mutable-local"]))
           "symlink effect must record an absolute target and semantics"
       else
         raise_if (bool_decide (ef_link_target e ≠ None) || bool_decide (ef_link_semantics e ≠ None))
           "non-symlink effect proof cannot contain link fields");
  raise_if (negb (mem (ef_kind e) ["symlink-file"; "symlink-tree"])
            && negb (bool_decide (ef_actual_mode e = "copy")))
    "non-symlink effects must record copy mode".

(** [EffectProof.__post_init__] *)
Definition effect_proof (e : EffectProof) : py EffectProof :=
  _ ← effect_common e; _ ← effect_merge_fields e; _ ← effect_link_fields e; Ret e.

Definition effect_locator (e : EffectProof) : string * string * string :=
  (ef_destination e, or_empty (ef_json_path e),
   match ef_identity_digest e with None => "" | Some d => digest_str d end).

(** * Records and manifests *)

Record InstallationRecord := MkInstallation {
  in_coordinate : ArtifactCoordinate;
  in_source : SourceEvidence;
  in_artifact : ArtifactEvidence;
  in_profile : string;
  in_profile_version : Z;
  in_scope : string;
  in_requested_mode : string;
  in_effects : list EffectProof;
  in_memory_mode : option string;
  in_setup_state_ref : option string
}.
#[global] Instance installation_eq_dec : EqDecision InstallationRecord.
Proof using. solve_decision. Defined.

Definition is_memory (r : InstallationRecord) : bool :=
  bool_decide (id_kind (ae_identity (in_artifact r)) = Memory).
Definition bad_destination (scope destination : string) : bool :=
  if bool_decide (scope = "project") then is_err (parse_relative_path destination None)
  else negb (isabs destination) || negb (bool_decide (normpath destination = destination)).

Definition installation_record (r : InstallationRecord) : py InstallationRecord :=
  _ ← raise_if (bool_decide (co_version (in_coordinate r) ≠ None)
                || negb (bool_decide (co_source (in_coordinate r) = se_alias (in_source r)))
                || negb (bool_decide (co_artifact (in_coordinate r) = ae_identity (in_artifact r)))
                || negb (fullmatch slug_re (in_profile r))
                || (in_profile_version r <? 1)%Z || (2 ^ 63 - 1 <? in_profile_version r)%Z
                || negb (mem (in_scope r) ["project"; "user"])
                || negb (mem (in_requested_mode r) ["copy"; "symlink"])
                || bool_decide (in_effects r = [])
                || (is_memory r
                    && negb (mem (in_memory_mode r)
                               [None; Some "replace"; Some "prepend"; Some "append"; Some "skip"]))
                || (negb (is_memory r) && bool_decide (in_memory_mode r ≠ None))
                || match in_setup_state_ref r with
                   | Some ref => negb (setup_ref_ok ref) | None => false end)
        "installation record is invalid";
  _ ← raise_if (has_dups (map effect_locator (in_effects r)))
        "installation effect locators must be unique";
  _ ← raise_if (existsb (λ e, bad_destination (in_scope r) (ef_destination e)) (in_effects r))
        (if bool_decide (in_scope r = "project")
         then "project effect destination must be a safe relative path"
         else "user effect destination must be a normalized absolute path");
  Ret r.

Definition installation_key (r : InstallationRecord) : string * string * string :=
  (coordinate_str (in_coordinate r), in_profile r, in_scope r).

Record InstallState := MkState { st_schema_version : Z; st_installations : list InstallationRecord }.
#[global] Instance install_state_eq_dec : EqDecision InstallState.
Proof using. solve_decision. Defined.

(** What owns one place: the scope, the locator, and the memory a managed
    block belongs to. *)
Definition effect_owner (r : InstallationRecord) (e : EffectProof) :
    string * (string * string * string) * string :=
  (in_scope r, effect_locator e,
   if is_memory r && bool_decide (ef_kind e = "managed-block")
   then identity_str (ae_identity (in_artifact r)) else "").
Definition effect_owners (rs : list InstallationRecord) :
    list (string * (string * string * string) * string) :=
  concat (map (λ r, map (effect_owner r) (in_effects r)) rs).

(** [InstallState.__post_init__] *)
Definition install_state (schema_version : Z) (installations : list InstallationRecord) :
    py InstallState :=
  _ ← raise_if (negb (schema_version =? 2)%Z) "installation manifest schema version must be 2";
  let ordered := sorted installation_key installations in
  _ ← raise_if (has_dups (map installation_key ordered)) "installation identities must be unique";
  _ ← raise_if (has_dups (effect_owners ordered))
        "installation effect ownership must be unique across the manifest";
  Ret (MkState schema_version ordered).

(** ** Equality of the records

    Versions are compared by precedence ([SemVer.__eq__]) and evidence as
    Python compares JSON data. *)
Definition artifact_evidence_py_eq (a b : ArtifactEvidence) : bool :=
  bool_decide (ae_identity a = ae_identity b) && same_precedence (ae_version a) (ae_version b)
  && bool_decide (ae_manifest_digest a = ae_manifest_digest b)
  && bool_decide (ae_payload_digest a = ae_payload_digest b)
  && bool_decide (ae_object_digest a = ae_object_digest b).
Definition effect_py_eq (a b : EffectProof) : bool :=
  String.eqb (ef_kind a) (ef_kind b) && String.eqb (ef_destination a) (ef_destination b)
  && String.eqb (ef_actual_mode a) (ef_actual_mode b)
  && bool_decide (ef_installed_digest a = ef_installed_digest b)
  && bool_decide (ef_source_path a = ef_source_path b)
  && bool_decide (ef_json_path a = ef_json_path b)
  && bool_decide (ef_merge_mode a = ef_merge_mode b)
  && bool_decide (ef_identity_digest a = ef_identity_digest b)
  && json_py_eq (ef_identity_evidence a) (ef_identity_evidence b)
  && bool_decide (ef_link_target a = ef_link_target b)
  && bool_decide (ef_link_semantics a = ef_link_semantics b)
  && Bool.eqb (ef_created_destination a) (ef_created_destination b)
  && Bool.eqb (ef_overwrote a) (ef_overwrote b)
  && bool_decide (ef_restores_from a = ef_restores_from b).
(** Two tuples, item by item. *)
Fixpoint list_py_eq {A} (eqb : A → A → bool) (l k : list A) : bool :=
  match l, k with
  | [], [] => true
  | x :: l, y :: k => eqb x y && list_py_eq eqb l k
  | _, _ => false
  end.
Definition record_py_eq (a b : InstallationRecord) : bool :=
  bool_decide (in_coordinate a = in_coordinate b) && bool_decide (in_source a = in_source b)
  && artifact_evidence_py_eq (in_artifact a) (in_artifact b)
  && String.eqb (in_profile a) (in_profile b) && (in_profile_version a =? in_profile_version b)%Z
  && String.eqb (in_scope a) (in_scope b)
  && String.eqb (in_requested_mode a) (in_requested_mode b)
  && list_py_eq effect_py_eq (in_effects a) (in_effects b)
  && bool_decide (in_memory_mode a = in_memory_mode b)
  && bool_decide (in_setup_state_ref a = in_setup_state_ref b).
Definition state_py_eq (a b : InstallState) : bool :=
  (st_schema_version a =? st_schema_version b)%Z
  && list_py_eq record_py_eq (st_installations a) (st_installations b).

(** * Paths *)

Record InstallStatePaths := MkStatePaths {
  sp_scope : string; sp_destination_path : string; sp_lock_path : string
}.
Definition install_state_paths_init (p : InstallStatePaths) : py InstallStatePaths :=
  _ ← raise_if (negb (mem (sp_scope p) ["project"; "user"])) "state scope is invalid";
  _ ← raise_if (existsb (λ path, negb (norm_abs path)) [sp_destination_path p; sp_lock_path p])
        "state paths must be normalized absolute paths";
  _ ← raise_if (bool_decide (sp_destination_path p = sp_lock_path p))
        "state data and lock paths must be distinct";
  Ret p.

(** [paths._absolute] *)
Definition state_absolute (path label : string) : py string :=
  _ ← raise_if (negb (norm_abs path)) (label +:+ " must be a normalized absolute path");
  Ret path.

Definition install_state_paths (scope project_root user_home data_root : string) :
    py InstallStatePaths :=
  project_root ← state_absolute project_root "project root";
  _ ← state_absolute user_home "user home";
  data_root ← state_absolute data_root "data root";
  if bool_decide (scope = "project") then
    let state_root := pjoin project_root ".agent-artifacts" in
    install_state_paths_init
      (MkStatePaths scope (pjoin state_root "manifest.json") (pjoin state_root "state.lock"))
  else if bool_decide (scope = "user") then
    let state_root := pjoin data_root "state" in
    install_state_paths_init
      (MkStatePaths scope (pjoin state_root "manifest.json") (pjoin state_root "state.lock"))
  else Raise (ValueError "state scope must be 'project' or 'user'").
End install_state.
