(* ===== verification/InstallSchema.v ===== *)
(** [install_state/schema.py]: the strict parser and the canonical writer of
    the installation manifest, schema version 2.

    A loop over field names is unrolled in the order of the names.  The
    coordinate and the artifact type are parsed as raw texts and only become an
    [ArtifactKind] where a constructor tests them: an unknown kind makes that
    constructor raise its own message. *)
From S2P Require Import Prelude PyText TextSearch Posix Regex Domain SemVer Json Protocol CompilerModel Coordinates Marketplace Configuration InstallState.
From Stdlib Require Import Ascii.

Definition STATE_INVALID := MkCode "install-state-invalid".
Definition INSTALL_STATE_LEGACY := MkCode "install-state-legacy".
Definition LEGACY_V01_FIELDS : list string := ["repo"; "installed"].
Definition LEGACY_MIGRATION_REMEDIATION : list string :=
  ["Remove the retired state file and reinstall: this revision is not converted at runtime";
   "Reinstall the artifacts you need with: aart marketplace install <coordinate> --profile <name>"].

(** [_location], [_error] *)
Definition state_location (path : string) (pointer : option string) : option SourceLocation :=
  Some (MkLocation None (Some path) pointer None None).
Definition state_error {A} (message path : string) (pointer : option string) : Result A :=
  fail1 (diagnostic STATE_INVALID ERROR message (state_location path pointer) [] []).

(** [try: return Ok(...) except ValueError as error: return _error(str(error))] *)
Definition try_value {A} (m : py A) (path : string) (pointer : option string) : Result A :=
  match m with
  | Ret a => Ok a
  | Raise (ValueError message) => state_error message path pointer
  | Raise _ => state_error "" path pointer
  end.

Definition legacy_v01_error {A} (path : string) : Result A :=
  fail1 (diagnostic INSTALL_STATE_LEGACY ERROR "AART 0.1 installation state was detected."
           (state_location path None) LEGACY_MIGRATION_REMEDIATION
           [("detected_schema", "install-state-v0.1"); ("required_schema", "install-state-v2")]).

Definition is_legacy_v01_envelope (value : JsonValue) : bool :=
  match value with
  | JsonObject fields =>
      bool_decide (sorted_set id fields.*1 = sorted_set id LEGACY_V01_FIELDS)
      && match dget "repo" fields with Some (JStr _) => true | _ => false end
      && match dget "installed" fields with Some (JsonArray _) => true | _ => false end
  | _ => false
  end.

Definition as_install_state_invalid {A} (result : Result A) : Result A :=
  map_err result (λ d, diagnostic STATE_INVALID (d_severity d) (d_message d) (d_location d)
                         (d_remediation d) (d_details d)).

Section parser.
Context `{UnicodeData} `{IpAddress} `{DecodeErrors}.

(** [_object]: the field names are literals that do not overlap, so
    [validate_object_fields] returns. *)
Definition object_fields (value : JsonValue) (required optional : list string)
    (path pointer : string) : Result (list (string * JsonValue)) :=
  match value with
  | JsonObject fields =>
      ret_or (Err []) (validate_object_fields fields required optional false
                         (state_location path (Some pointer)))
  | _ => state_error "installation state value must be an object" path (Some pointer)
  end.

(** [fields.value[name]] of a validated field *)
Definition entry (fields : list (string * JsonValue)) (name : string) : JsonValue :=
  default JNull (dget name fields).

Definition string_value (value : JsonValue) (label path pointer : string) : Result string :=
  match value with
  | JStr s =>
      if one_line s then Ok s
      else state_error (label +:+ " must be a non-empty single-line string") path (Some pointer)
  | _ => state_error (label +:+ " must be a non-empty single-line string") path (Some pointer)
  end.
Definition integer_value (value : JsonValue) (label path pointer : string) : Result Z :=
  match value with
  | JInt n => Ok n
  | _ => state_error (label +:+ " must be an integer") path (Some pointer)
  end.
Definition boolean_value (value : JsonValue) (label path pointer : string) : Result bool :=
  match value with
  | JBool b => Ok b
  | _ => state_error (label +:+ " must be a boolean") path (Some pointer)
  end.
Definition digest_value (value : JsonValue) (label path pointer : string) : Result ObjectDigest :=
  raw ← string_value value label path pointer;
  parse_sha256 raw (state_location path (Some pointer)).

(** A field of an object, where the error points at the field. *)
Definition at_field (pointer name : string) : string := pointer +:+ "/" +:+ name.
Definition string_field (fields : list (string * JsonValue)) (prefix name path pointer : string) :
    Result string :=
  string_value (entry fields name) (prefix +:+ name) path (at_field pointer name).
Definition digest_field (fields : list (string * JsonValue)) (name path pointer : string) :
    Result ObjectDigest :=
  digest_value (entry fields name) name path (at_field pointer name).
(** [if name in fields.value: ...] *)
Definition opt_field {A} (fields : list (string * JsonValue)) (name : string)
    (parse : JsonValue → Result A) : Result (option A) :=
  match dget name fields with None => Ok None | Some v => Some <$> parse v end.
Definition opt_string (fields : list (string * JsonValue)) (prefix name path pointer : string) :
    Result (option string) :=
  opt_field fields name (λ v, string_value v (prefix +:+ name) path (at_field pointer name)).
Definition flag_field (fields : list (string * JsonValue)) (name path pointer : string) : Result bool :=
  default false <$> opt_field fields name (λ v, boolean_value v name path (at_field pointer name)).

(** [SourceKind(value)] *)
Definition source_kind_of (value : string) : py SourceKind :=
  match List.find (λ k, String.eqb (source_kind_value k) value) [REGISTRY_GIT; SOURCE_GIT; SOURCE_LOCAL] with
  | Some k => Ret k
  | None => Raise (ValueError (repr value +:+ " is not a valid SourceKind"))
  end.

Definition parse_source (value : JsonValue) (path pointer : string) : Result SourceEvidence :=
  fields ← object_fields value ["alias"; "declared_id"; "kind"; "origin"; "resolved_commit"]
             ["subscription_ref"] path pointer;
  alias ← string_field fields "source." "alias" path pointer;
  declared_id ← string_field fields "source." "declared_id" path pointer;
  kind ← string_field fields "source." "kind" path pointer;
  origin ← string_field fields "source." "origin" path pointer;
  resolved_commit ← string_field fields "source." "resolved_commit" path pointer;
  subscription_ref ← opt_string fields "source." "subscription_ref" path pointer;
  try_value (kind ← source_kind_of kind;
             source_evidence (MkSourceEvidence (MkAlias alias) (MkSourceId declared_id) kind origin
                                resolved_commit subscription_ref)) path (Some pointer).

(** [ArtifactEvidence(ArtifactIdentity(kind, name), ...)]: an unknown kind is
    not one of the artifact kinds. *)
Definition artifact_evidence_of (kind name : string) (version : SemVer)
    (manifest_digest payload_digest object_digest : ObjectDigest) : py ArtifactEvidence :=
  match parse_kind kind with
  | Some k => artifact_evidence (MkArtifactEvidence (MkIdentity k name) version manifest_digest
                                   payload_digest object_digest)
  | None => Raise (ValueError "installation artifact evidence is invalid")
  end.

Definition parse_artifact (value : JsonValue) (path pointer : string) : Result ArtifactEvidence :=
  fields ← object_fields value ["type"; "name"; "version"; "manifest_digest"; "payload_digest";
             "object_digest"] [] path pointer;
  kind ← string_field fields "artifact." "type" path pointer;
  name ← string_field fields "artifact." "name" path pointer;
  raw_version ← string_field fields "artifact." "version" path pointer;
  version ← parse_semver raw_version (state_location path (Some (at_field pointer "version")));
  manifest_digest ← digest_field fields "manifest_digest" path pointer;
  payload_digest ← digest_field fields "payload_digest" path pointer;
  object_digest ← digest_field fields "object_digest" path pointer;
  try_value (artifact_evidence_of kind name version manifest_digest payload_digest object_digest)
    path (Some pointer).

Definition EFFECT_OPTIONAL : list string :=
  ["source_path"; "json_path"; "merge_mode"; "identity_digest"; "identity_evidence"; "link_target";
   "link_semantics"; "created_destination"; "overwrote"; "restores_from"].

Definition parse_effect (value : JsonValue) (path pointer : string) : Result EffectProof :=
  fields ← object_fields value ["kind"; "destination"; "actual_mode"; "installed_digest"]
             EFFECT_OPTIONAL path pointer;
  kind ← string_field fields "" "kind" path pointer;
  destination ← string_field fields "" "destination" path pointer;
  actual_mode ← string_field fields "" "actual_mode" path pointer;
  installed_digest ← digest_field fields "installed_digest" path pointer;
  source_path ← opt_string fields "" "source_path" path pointer;
  json_path ← opt_string fields "" "json_path" path pointer;
  merge_mode ← opt_string fields "" "merge_mode" path pointer;
  link_target ← opt_string fields "" "link_target" path pointer;
  link_semantics ← opt_string fields "" "link_semantics" path pointer;
  restores_from ← opt_string fields "" "restores_from" path pointer;
  identity_digest ← opt_field fields "identity_digest"
    (λ v, digest_value v "identity_digest" path (at_field pointer "identity_digest"));
  created_destination ← flag_field fields "created_destination" path pointer;
  overwrote ← flag_field fields "overwrote" path pointer;
  try_value (effect_proof (MkEffect kind destination actual_mode installed_digest source_path
               json_path merge_mode identity_digest (entry fields "identity_evidence") link_target
               link_semantics created_destination overwrote restores_from)) path (Some pointer).

(** [_coordinate]: source, kind and name. *)
Definition parse_coordinate (raw path pointer : string) : Result (string * string * string) :=
  match split_on "/" raw with
  | [source; kind; name] => Ok (source, kind, name)
  | _ => state_error "coordinate must be <source>/<type>/<name>" path (Some pointer)
  end.

(** [InstallationRecord(coordinate=ArtifactCoordinate(...), ...)]: a coordinate
    of an unknown kind is not the coordinate of the artifact. *)
Definition installation_record_of (coordinate : string * string * string)
    (source : SourceEvidence) (artifact : ArtifactEvidence) (profile : string) (profile_version : Z)
    (scope requested_mode : string) (effects : list EffectProof)
    (memory_mode setup_state_ref : option string) : py InstallationRecord :=
  let '(alias, kind, name) := coordinate in
  match parse_kind kind with
  | Some k =>
      installation_record
        (MkInstallation (MkCoordinate (MkAlias alias) (MkIdentity k name) None) source artifact
           profile profile_version scope requested_mode effects memory_mode setup_state_ref)
  | None => Raise (ValueError "installation record is invalid")
  end.

Fixpoint parse_effects (values : list JsonValue) (path pointer : string) (index : Z) :
    Result (list EffectProof) :=
  match values with
  | [] => Ok []
  | value :: values =>
      effect ← parse_effect value path (pointer +:+ "/effects/" +:+ str_Z index);
      effects ← parse_effects values path pointer (index + 1);
      Ok (effect :: effects)
  end.

Definition parse_record (value : JsonValue) (path : string) (index : Z) : Result InstallationRecord :=
  let pointer := "/installations/" +:+ str_Z index in
  fields ← object_fields value ["coordinate"; "source"; "artifact"; "profile"; "profile_version";
             "scope"; "requested_mode"; "effects"] ["memory_mode"; "setup_state_ref"] path pointer;
  raw_coordinate ← string_field fields "" "coordinate" path pointer;
  profile ← string_field fields "" "profile" path pointer;
  scope ← string_field fields "" "scope" path pointer;
  requested_mode ← string_field fields "" "requested_mode" path pointer;
  coordinate ← parse_coordinate raw_coordinate path (at_field pointer "coordinate");
  source ← parse_source (entry fields "source") path (at_field pointer "source");
  artifact ← parse_artifact (entry fields "artifact") path (at_field pointer "artifact");
  profile_version ← integer_value (entry fields "profile_version") "profile_version" path
                      (at_field pointer "profile_version");
  effects ← match entry fields "effects" with
            | JsonArray ((_ :: _) as items) => parse_effects items path pointer 0
            | _ => state_error "effects must be a non-empty array" path (Some (at_field pointer "effects"))
            end;
  setup_state_ref ← opt_string fields "" "setup_state_ref" path pointer;
  memory_mode ← opt_string fields "" "memory_mode" path pointer;
  try_value (installation_record_of coordinate source artifact profile profile_version scope
               requested_mode effects memory_mode setup_state_ref) path (Some pointer).

Fixpoint parse_records (values : list JsonValue) (path : string) (index : Z) :
    Result (list InstallationRecord) :=
  match values with
  | [] => Ok []
  | value :: values =>
      record ← parse_record value path index;
      records ← parse_records values path (index + 1);
      Ok (record :: records)
  end.

Definition parse_v2_install_state (value : JsonValue) (path : string) : Result InstallState :=
  fields ← object_fields value ["schema_version"; "installations"] [] path "";
  schema_version ← integer_value (entry fields "schema_version") "schema_version" path "/schema_version";
  if negb (schema_version =? 2)%Z
  then state_error "schema_version must be 2" path (Some "/schema_version")
  else match entry fields "installations" with
       | JsonArray items =>
           installations ← parse_records items path 0;
           try_value (install_state 2 installations) path None
       | _ => state_error "installations must be an array" path (Some "/installations")
       end.

(** [parse_install_state] of [bytes], with the default bounds of [parse_json]. *)
Definition parse_install_state (data : bytes) (path : string) : py (Result InstallState) :=
  parsed ← parse_json data (state_location path None) MAX_DEPTH MAX_STRING;
  Ret match parsed with
  | Err ds => as_install_state_invalid (Err ds)
  | Ok value =>
      if is_legacy_v01_envelope value then legacy_v01_error path
      else as_install_state_invalid (parse_v2_install_state value path)
  end.
End parser.

(** * Writing *)

(** The fields of an object as the writers list them, the absent ones left out. *)
Definition present (fields : list (string * option JsonValue)) : list (string * JsonValue) :=
  omap (λ kv, match kv.2 with Some v => Some (kv.1, v) | None => None end) fields.
Definition object_json (fields : list (string * option JsonValue)) : JsonValue :=
  json_object (present fields).

(** [value is not None] *)
Definition not_null (v : JsonValue) : option JsonValue := if bool_decide (v = JNull) then None else Some v.

Definition effect_json (e : EffectProof) : JsonValue :=
  object_json
    [("kind", Some (JStr (ef_kind e))); ("destination", Some (JStr (ef_destination e)));
     ("actual_mode", Some (JStr (ef_actual_mode e)));
     ("installed_digest", Some (JStr (digest_str (ef_installed_digest e))));
     ("source_path", JStr <$> ef_source_path e); ("json_path", JStr <$> ef_json_path e);
     ("merge_mode", JStr <$> ef_merge_mode e);
     ("identity_digest", (λ d, JStr (digest_str d)) <$> ef_identity_digest e);
     ("identity_evidence", not_null (ef_identity_evidence e));
     ("link_target", JStr <$> ef_link_target e); ("link_semantics", JStr <$> ef_link_semantics e);
     ("restores_from", JStr <$> ef_restores_from e);
     ("created_destination", Some (JBool (ef_created_destination e)));
     ("overwrote", Some (JBool (ef_overwrote e)))].

Definition source_json (s : SourceEvidence) : JsonValue :=
  object_json
    [("alias", Some (JStr (alias_value (se_alias s))));
     ("declared_id", Some (JStr (source_id_value (se_declared_id s))));
     ("kind", Some (JStr (source_kind_value (se_kind s)))); ("origin", Some (JStr (se_origin s)));
     ("resolved_commit", Some (JStr (se_resolved_commit s)));
     ("subscription_ref", JStr <$> se_subscription_ref s)].

Definition artifact_evidence_json (a : ArtifactEvidence) : JsonValue :=
  object_json
    [("type", Some (JStr (kind_value (id_kind (ae_identity a)))));
     ("name", Some (JStr (id_name (ae_identity a))));
     ("version", Some (JStr (semver_str (ae_version a))));
     ("manifest_digest", Some (JStr (digest_str (ae_manifest_digest a))));
     ("payload_digest", Some (JStr (digest_str (ae_payload_digest a))));
     ("object_digest", Some (JStr (digest_str (ae_object_digest a))))].

Definition record_json (r : InstallationRecord) : JsonValue :=
  object_json
    [("coordinate", Some (JStr (coordinate_str (in_coordinate r))));
     ("source", Some (source_json (in_source r)));
     ("artifact", Some (artifact_evidence_json (in_artifact r)));
     ("profile", Some (JStr (in_profile r)));
     ("profile_version", Some (JInt (in_profile_version r))); ("scope", Some (JStr (in_scope r)));
     ("requested_mode", Some (JStr (in_requested_mode r)));
     ("effects", Some (JsonArray (map effect_json (in_effects r))));
     ("memory_mode", JStr <$> in_memory_mode r);
     ("setup_state_ref", JStr <$> in_setup_state_ref r)].

Definition install_state_to_json (s : InstallState) : JsonValue :=
  object_json [("schema_version", Some (JInt (st_schema_version s)));
               ("installations", Some (JsonArray (map record_json (st_installations s))))].

Definition install_state_bytes (s : InstallState) : bytes :=
  canonical_json_bytes (install_state_to_json s).
