(* ===== verification/InstallSpec.v ===== *)
(** What the manifest's schema promises: reading what was written gives the
    same state back when its texts are trimmed and within the bounds of the
    parser, and everything read satisfies the constructors of [InstallState]. *)
From S2P Require Import Prelude PyText TextSearch Posix Regex Domain SemVer Json JsonParse Protocol CompilerModel Coordinates Marketplace Configuration InstallState InstallSchema.
From Stdlib Require Import Ascii.

(** * Single-line texts without spaces *)

Definition is_graph : ascii → bool := between 33 126.
#[global] Arguments is_graph : simpl never.

Section one_line.
Context `{UnicodeData}.

Lemma drop_spaces_graph s :
  str_forall is_graph s = true →
  drop_spaces (map (λ c, String c "") (String.list_ascii_of_string s))
  = map (λ c, String c "") (String.list_ascii_of_string s).
Proof.
  destruct s as [|c s]; [done|]. cbn [str_forall String.list_ascii_of_string map drop_spaces].
  intros [Hc _]%andb_true_iff. assert (is_space (String c "") = false) as ->; [|done].
  unfold is_space. revert c Hc. by_ascii.
Qed.

Lemma graph_ascii s : str_forall is_graph s = true → is_ascii s = true.
Proof. apply str_forall_impl. by_ascii. Qed.

Lemma strip_graph s : str_forall is_graph s = true → strip s = s.
Proof.
  intros Hg. unfold strip. rewrite (code_points_ascii s) by by apply graph_ascii.
  rewrite drop_spaces_graph by done.
  assert (∀ l, forallb (λ c, is_graph c) l = true →
    drop_spaces (map (λ c, String c "") l) = map (λ c, String c "") l) as Hl.
  { intros l Hf. rewrite <-(String.list_ascii_of_string_of_list_ascii l).
    apply drop_spaces_graph. clear Hg s. induction l as [|c l IH]; [done|].
    cbn [forallb] in Hf. apply andb_true_iff in Hf as [Hc Hf]. cbn. rewrite Hc. by apply IH. }
  rewrite <-map_rev, Hl, map_rev, rev_involutive, concat_chars; [done|].
  rewrite forallb_forall. intros c Hc%in_rev. clear Hl. revert Hg Hc.
  induction s as [|d s IH]; [done|]. cbn. intros [Hd Hs]%andb_true_iff [->|Hc]; [done|by apply IH].
Qed.

(** Non-empty texts of graphic ASCII characters are single lines. *)
Lemma graph_one_line s : s ≠ "" → str_forall is_graph s = true → one_line s = true.
Proof.
  intros Hne Hg. unfold one_line. rewrite strip_graph, bool_decide_true by done.
  assert (str_empty s = false) as -> by by destruct s.
  assert (∀ d, is_graph d = false → has_char d s = false) as Hn.
  { intros d Hd. apply has_char_false. revert Hg. apply str_forall_impl. intros c Hc.
    destruct (is_char d c) eqn:E; [|done]. apply is_char_true in E as ->. congruence. }
  by rewrite !Hn.
Qed.

Lemma slug_graph s : fullmatch slug_re s = true → s ≠ "" ∧ str_forall is_graph s = true.
Proof.
  intros Hm. split.
  - intros ->. by vm_compute in Hm.
  - revert Hm. apply fullmatch_over. cbn. split_and!; by_ascii.
Qed.

Lemma slug_no_slash s : fullmatch slug_re s = true → has_char "/" s = false.
Proof.
  intros Hm. apply has_char_false. revert Hm. apply fullmatch_over. cbn. split_and!; by_ascii.
Qed.

Lemma slug_one_line s : fullmatch slug_re s = true → one_line s = true.
Proof. intros [??]%slug_graph. by apply graph_one_line. Qed.

Lemma digest_one_line d : valid_digest d = true → one_line (digest_str d) = true.
Proof.
  intros Hd%valid_digest_fullmatch. apply graph_one_line; [by destruct d as [[] ?]|].
  revert Hd. apply fullmatch_over. split; [by apply re_over_str|apply re_over_rep; by_ascii].
Qed.

Lemma commit_one_line s : fullmatch COMMIT_RE s = true → one_line s = true.
Proof.
  intros Hm. apply graph_one_line; [by intros ->|]. revert Hm. apply fullmatch_over, re_over_rep. by_ascii.
Qed.

Lemma local_revision_one_line s : fullmatch LOCAL_REVISION_RE s = true → one_line s = true.
Proof.
  intros Hm. apply graph_one_line; [by intros ->|]. revert Hm. apply fullmatch_over.
  split; [by apply re_over_str|]. split; [done|]. split; [by_ascii|apply re_over_rep; by_ascii].
Qed.

Lemma setup_ref_one_line s : setup_ref_ok s = true → one_line s = true.
Proof.
  destruct s as [|c s]; [done|]. cbn [setup_ref_ok]. intros [[Hc Hs]%andb_true_iff _]%andb_true_iff.
  apply graph_one_line; [done|]. cbn [str_forall].
  assert (∀ c, is_lower_alnum c = true → is_graph c = true) as Ha by by_ascii.
  assert (∀ c, is_ref_char c = true → is_graph c = true) as Hr by by_ascii.
  rewrite (Ha c) by done. simpl. by apply (str_forall_impl is_ref_char).
Qed.

Lemma kind_graph k : kind_value k ≠ "" ∧ str_forall is_graph (kind_value k) = true
  ∧ has_char "/" (kind_value k) = false.
Proof. by destruct k. Qed.

Lemma source_kind_one_line k : one_line (source_kind_value k) = true.
Proof. by apply graph_one_line; destruct k. Qed.

Lemma kind_one_line k : one_line (kind_value k) = true.
Proof. destruct (kind_graph k) as (? & ? & _). by apply graph_one_line. Qed.
End one_line.

(** * Objects as they are written *)

(** Looking a key up among the fields as they are listed. *)
Fixpoint assoc (k : string) (fields : list (string * option JsonValue)) : option JsonValue :=
  match fields with
  | [] => None
  | (name, o) :: fields => if String.eqb k name then o else assoc k fields
  end.

Lemma present_keys fields : (present fields).*1 `sublist_of` fields.*1.
Proof.
  induction fields as [|[k [v|]] fields IH]; cbn.
  - done.
  - by apply sublist_skip.
  - by apply sublist_cons.
Qed.

Lemma dget_present k fields : NoDup fields.*1 → dget k (present fields) = assoc k fields.
Proof.
  induction fields as [|[name o] fields IH]; [done|]. cbn [fmap list_fmap fst]. intros [Hn Hd]%NoDup_cons.
  cbn [assoc]. destruct (String.eqb_spec k name) as [->|Hne].
  - destruct o as [v|]; cbn [present omap list_omap snd fst dget]; [by rewrite bool_decide_true|].
    apply dget_None. intros Hin. apply Hn. eapply elem_of_sublist; [exact Hin|apply present_keys].
  - destruct o as [v|]; cbn [present omap list_omap snd fst dget]; [|by apply IH].
    rewrite bool_decide_false by done. by apply IH.
Qed.

Section objects.
Context `{UnicodeData}.

Definition has_field (fields : list (string * option JsonValue)) (name : string) : bool :=
  match assoc name fields with Some _ => true | None => false end.

(** [_object] accepts an object written with known fields, the required ones
    among them, and its fields are those that were written. *)
Lemma object_fields_json fields required optional path pointer :
  NoDup fields.*1 → Forall (λ f, f ∈ required ++ optional) fields.*1 →
  existsb (λ f, mem f optional) required = false → forallb (has_field fields) required = true →
  ∃ d, object_fields (object_json fields) required optional path pointer = Ok d
       ∧ ∀ k, dget k d = assoc k fields.
Proof.
  intros Hnd Hnames Hno Hreq. pose proof (present_keys fields) as Hsub.
  assert (NoDup (present fields).*1) as Hnp by by eapply sublist_NoDup.
  exists (sorted fst (present fields)). split.
  - unfold object_fields, object_json, json_object, validate_object_fields. rewrite Hno.
    cbn [raise_if mbind py_bind].
    assert (∀ f, f ∈ (sorted fst (present fields)).*1 ↔ f ∈ (present fields).*1) as Hin.
    { intros f. by rewrite (sorted_perm fst (present fields)). }
    assert (filter (λ f, f ∉ (sorted fst (present fields)).*1) required = []) as ->.
    { apply elem_of_nil_inv. intros f [Hn Hf]%list_elem_of_filter. apply Hn, Hin.
      rewrite forallb_forall in Hreq. specialize (Hreq f (proj1 (list_elem_of_In _ _) Hf)).
      unfold has_field in Hreq. rewrite <-dget_present in Hreq by done.
      apply dget_is_Some. by destruct (dget f (present fields)). }
    assert (filter (λ f, f ∉ required ++ optional) (sorted fst (present fields)).*1 = []) as ->; [|done].
    apply elem_of_nil_inv. intros f [Hn Hf]%list_elem_of_filter. apply Hn.
    apply Hin in Hf. rewrite Forall_forall in Hnames. eapply Hnames, elem_of_sublist; done.
  - intros k. by rewrite dget_sorted, dget_present.
Qed.

Lemma string_value_ok s label path pointer :
  one_line s = true → string_value (JStr s) label path pointer = Ok s.
Proof. unfold string_value. by intros ->. Qed.

Lemma parse_sha256_digest d location : valid_digest d = true → parse_sha256 (digest_str d) location = Ok d.
Proof.
  intros Hd. unfold parse_sha256. rewrite valid_digest_fullmatch by done.
  unfold valid_digest in Hd. apply andb_true_iff in Hd as [Ha%bool_decide_eq_true _].
  destruct d as [a v]. cbn [dg_algorithm] in Ha. subst a. unfold digest_str. cbn [dg_algorithm dg_value].
  change ("sha256" +:+ ":" +:+ v) with ("sha256:" +:+ v).
  unfold removeprefix. by rewrite prefix_app, str_drop_app.
Qed.

Lemma digest_value_ok d label path pointer :
  valid_digest d = true → digest_value (JStr (digest_str d)) label path pointer = Ok d.
Proof.
  intros Hd. unfold digest_value. rewrite string_value_ok by by apply digest_one_line.
  by apply parse_sha256_digest.
Qed.

Lemma source_kind_of_value k : source_kind_of (source_kind_value k) = Ret k.
Proof. by destruct k. Qed.

Lemma opt_field_None {A} fields name (parse : JsonValue → Result A) :
  dget name fields = None → opt_field fields name parse = Ok None.
Proof. unfold opt_field. by intros ->. Qed.

(** An optional field that was written is read back. *)
Lemma opt_field_entry {A} fields name (f : A → JsonValue) (parse : JsonValue → Result A) o :
  dget name fields = f <$> o → (∀ a, o = Some a → parse (f a) = Ok a) →
  opt_field fields name parse = Ok o.
Proof.
  unfold opt_field. intros -> Hp. destruct o as [a|]; simpl; [|done]. by rewrite Hp.
Qed.
End objects.

(** Open a written object. *)
Ltac by_decision := apply (bool_decide_unpack _); vm_compute; done.
Ltac open_object d Hd :=
  match goal with |- context [object_fields (object_json ?fields) ?r ?o ?p ?q] =>
    destruct (object_fields_json fields r o p q) as (d & -> & Hd);
      [by_decision|by_decision|done|done|]
  end.
Ltac eval_assoc := cbn [assoc String.eqb Ascii.eqb Bool.eqb].

(** Read the fields of an opened object one after the other. *)
Create HintDb lines.
#[export] Hint Resolve slug_one_line digest_one_line kind_one_line source_kind_one_line setup_ref_one_line : lines.
Ltac read_fields Hd :=
  unfold string_field, digest_field, opt_string, flag_field, entry; cbn [mbind result_bind];
  rewrite ?Hd; eval_assoc; cbn [from_option id];
  repeat (first [rewrite string_value_ok by eauto with lines
                |rewrite digest_value_ok by eauto with lines]; cbn [mbind result_bind]).
(** Read the optional field written as [f <$> o]. *)
Ltac read_optional Hd f o :=
  match goal with |- context [opt_field ?d ?name ?parse] =>
    rewrite (opt_field_entry d name f parse o);
      [|by rewrite Hd
       |intros ? ?; first [apply string_value_ok | apply digest_value_ok | done]; by eauto with lines]
  end; cbn [mbind result_bind].

(** * Valid states *)

Section valid.
Context `{UnicodeData} `{IpAddress}.

Definition valid_source (e : SourceEvidence) : Prop := source_evidence e = Ret e.
Definition valid_artifact (e : ArtifactEvidence) : Prop :=
  artifact_evidence e = Ret e ∧ wf_semver (ae_version e) = true.
Definition valid_effect (e : EffectProof) : Prop := effect_proof e = Ret e.
Definition valid_record (r : InstallationRecord) : Prop :=
  installation_record r = Ret r ∧ valid_source (in_source r) ∧ valid_artifact (in_artifact r)
  ∧ Forall valid_effect (in_effects r).
(** What the constructors guarantee of a state and everything inside it. *)
Definition valid_state (s : InstallState) : Prop :=
  install_state (st_schema_version s) (st_installations s) = Ret s
  ∧ Forall valid_record (st_installations s).

(** The reader also wants source paths without outer white space. *)
Definition trimmed_effect (e : EffectProof) : Prop :=
  match ef_source_path e with Some p => strip p = p | None => True end.
Definition trimmed_state (s : InstallState) : Prop :=
  Forall (λ r, Forall trimmed_effect (in_effects r)) (st_installations s).

Lemma relative_path_one_line p :
  is_err (parse_relative_path p None) = false → strip p = p → one_line p = true.
Proof.
  intros Hp Hs. unfold one_line. rewrite Hs, bool_decide_true by done.
  destruct (parse_relative_path p None) as [q|] eqn:E; [|done].
  unfold parse_relative_path, invalid_path, fail1 in E.
  destruct (str_empty p); [done|]. repeat (case_match; try done). cbn [negb andb].
  assert (∀ d, is_control d = true → has_char d p = false) as Hc.
  { intros d Hd. destruct (has_char d p) eqn:Ep; [|done].
    match goal with H : str_exists is_control p = false |- _ => rename H into Hn end.
    assert (str_exists is_control p = true); [|congruence].
    unfold has_char, str_exists in *. apply negb_true_iff in Ep. apply negb_true_iff.
    apply not_true_iff_false. intros Hf. apply not_true_iff_false in Ep. apply Ep.
    revert Hf. apply str_forall_impl. intros c Hc. destruct (is_char d c) eqn:Ed; [|done].
    apply is_char_true in Ed as ->. by rewrite Hd in Hc. }
  by rewrite !Hc.
Qed.

Lemma source_commit_line e : valid_source e → one_line (se_resolved_commit e) = true.
Proof.
  unfold valid_source, source_evidence. intros Hv. inv_py. case_bool_decide; inv_py; split_guard.
  - by apply local_revision_one_line.
  - by apply commit_one_line.
Qed.

Lemma source_ref_line e ref :
  valid_source e → se_subscription_ref e = Some ref → one_line ref = true.
Proof.
  unfold valid_source, source_evidence. intros Hv Hr. inv_py. rewrite Hr in *.
  case_bool_decide; inv_py; split_guard; [done|].
  match goal with H : safe_git_ref _ = true |- _ => unfold safe_git_ref in H end. by split_guard.
Qed.

Lemma source_roundtrip `{DecodeErrors} e path pointer :
  valid_source e → parse_source (source_json e) path pointer = Ok e.
Proof.
  intros He. pose proof (source_commit_line e He) as Hc. pose proof (source_ref_line e) as Hr.
  pose proof He as Hv. unfold valid_source, source_evidence in Hv. inv_py. split_guard.
  unfold parse_source, source_json.
  open_object d Hd.
  read_fields Hd.
  read_optional Hd JStr (se_subscription_ref e). rewrite source_kind_of_value. cbn [mbind py_bind].
  by destruct e as [[] [] ? ? ? ?]; apply (f_equal (λ m, try_value m path (Some pointer)) He).
Qed.

Lemma semver_one_line v : wf_semver v = true → one_line (semver_str v) = true.
Proof.
  intros Hv. pose proof (proj2 (parse_semver_exact (semver_str v) None v) (conj Hv eq_refl)) as Hp.
  unfold parse_semver, semver_groups in Hp.
  destruct (fullmatch SEMVER_RE (semver_str v)) eqn:Hm; [|done].
  apply graph_one_line; [intros E; by rewrite E in Hm|]. revert Hm. apply fullmatch_over.
  repeat split; try done; by_ascii.
Qed.

Lemma artifact_roundtrip `{DecodeErrors} a path pointer :
  valid_artifact a → parse_artifact (artifact_evidence_json a) path pointer = Ok a.
Proof.
  intros [Ha Hw]. pose proof Ha as Hv. unfold artifact_evidence in Hv. inv_py. split_guard.
  cbn [forallb] in *. split_guard. pose proof (semver_one_line _ Hw) as Hl.
  unfold parse_artifact, artifact_evidence_json.
  open_object d Hd.
  read_fields Hd. rewrite (proj2 (parse_semver_exact _ _ _) (conj Hw eq_refl)).
  read_fields Hd. unfold artifact_evidence_of. rewrite parse_kind_value.
  by destruct a as [[] ? ? ? ?]; apply (f_equal (λ m, try_value m path (Some pointer)) Ha).
Qed.

Lemma In_one_line s l : s ∈ l → forallb one_line l = true → one_line s = true.
Proof. intros Hs Hl. rewrite forallb_forall in Hl. by apply Hl, list_elem_of_In. Qed.

Lemma Some_In_one_line s l : Some s ∈ map Some l → forallb one_line l = true → one_line s = true.
Proof.
  intros Hs. apply In_one_line. apply list_elem_of_fmap in Hs as (t & [= ->] & Ht). done.
Qed.

(** What [__post_init__] makes sure of, field by field. *)
Lemma effect_common_facts e : valid_effect e →
  one_line (ef_kind e) = true ∧ one_line (ef_destination e) = true ∧ one_line (ef_actual_mode e) = true
  ∧ valid_digest (ef_installed_digest e) = true
  ∧ (∀ p, ef_source_path e = Some p → is_err (parse_relative_path p None) = false)
  ∧ (∀ p, ef_restores_from e = Some p → one_line p = true).
Proof.
  unfold valid_effect, effect_proof, effect_common. intros Hv. inv_py. split_guard.
  split_and!; try done.
  - by eapply In_one_line.
  - by eapply In_one_line.
  - intros p Hp. by rewrite Hp in *.
  - intros p Hp. rewrite Hp in *. by split_guard.
Qed.

Lemma effect_merge_facts e : valid_effect e →
  (∀ p, ef_json_path e = Some p → one_line p = true)
  ∧ (∀ m, ef_merge_mode e = Some m → one_line m = true)
  ∧ (∀ d, ef_identity_digest e = Some d → valid_digest d = true).
Proof.
  unfold valid_effect, effect_proof. intros Hv. inv_py. clear Hv0 Hv2.
  unfold effect_merge_fields in Hv1. case_bool_decide; inv_py.
  - split_guard. split_and!; intros ? E; rewrite E in *; [done| |].
    + by eapply (Some_In_one_line _ ["key"; "list"]).
    + by split_guard.
  - destruct (_ || _) eqn:E; [done|]. clear Hv1. split_guard.
    split_and!; intros ? E'; rewrite E' in *; exfalso; naive_solver.
Qed.

Lemma effect_link_facts e : valid_effect e →
  (∀ p, ef_link_target e = Some p → one_line p = true)
  ∧ (∀ m, ef_link_semantics e = Some m → one_line m = true).
Proof.
  unfold valid_effect, effect_proof. intros Hv. inv_py. clear Hv0 Hv1.
  unfold effect_link_fields in Hv2. destruct (mem (ef_kind e) _); inv_py; split_guard.
  - split; intros ? E; rewrite E in *; [by split_guard|].
    by eapply (Some_In_one_line _ ["immutable-object"; "mutable-local"]).
  - split; intros ? E; rewrite E in *; exfalso; naive_solver.
Qed.

Lemma effect_roundtrip `{DecodeErrors} e path pointer :
  valid_effect e → trimmed_effect e → parse_effect (effect_json e) path pointer = Ok e.
Proof.
  intros He Ht. destruct (effect_common_facts e He) as (? & ? & ? & ? & Hsp & ?).
  destruct (effect_merge_facts e He) as (? & ? & ?). destruct (effect_link_facts e He) as (? & ?).
  assert (∀ p, ef_source_path e = Some p → one_line p = true) as Hline.
  { intros p Hp. apply relative_path_one_line; [by apply Hsp|].
    unfold trimmed_effect in Ht. by rewrite Hp in Ht. }
  unfold parse_effect, effect_json.
  open_object d Hd.
  read_fields Hd.
  read_optional Hd JStr (ef_source_path e). read_optional Hd JStr (ef_json_path e).
  read_optional Hd JStr (ef_merge_mode e). read_optional Hd JStr (ef_link_target e).
  read_optional Hd JStr (ef_link_semantics e). read_optional Hd JStr (ef_restores_from e).
  read_optional Hd (λ d, JStr (digest_str d)) (ef_identity_digest e).
  read_optional Hd JBool (Some (ef_created_destination e)).
  read_optional Hd JBool (Some (ef_overwrote e)).
  replace (default JNull (not_null (ef_identity_evidence e))) with (ef_identity_evidence e)
    by (unfold not_null; by case_bool_decide).
  by destruct e; apply (f_equal (λ m, try_value m path (Some pointer)) He).
Qed.

Lemma coordinate_roundtrip source kind name :
  fullmatch slug_re source = true → fullmatch slug_re name = true →
  let raw := coordinate_str (MkCoordinate (MkAlias source) (MkIdentity kind name) None) in
  one_line raw = true ∧ ∀ path pointer, parse_coordinate raw path pointer = Ok (source, kind_value kind, name).
Proof.
  intros Hs Hn. cbn zeta. destruct (slug_graph _ Hs) as [Hs1 Hs2]. destruct (slug_graph _ Hn) as [Hn1 Hn2].
  destruct (kind_graph kind) as (Hk1 & Hk2 & Hk3). unfold coordinate_str, identity_str.
  cbn [co_source co_artifact co_version alias_value id_kind id_name]. rewrite str_app_nil_r. split.
  - apply graph_one_line; [by destruct source|]. by rewrite !str_forall_app, Hs2, Hk2, Hn2.
  - intros path pointer. unfold parse_coordinate.
    rewrite split_on_app by by apply slug_no_slash. rewrite split_on_app by done.
    by rewrite split_on_none by by apply slug_no_slash.
Qed.

Lemma effects_roundtrip `{DecodeErrors} es path pointer index :
  Forall valid_effect es → Forall trimmed_effect es →
  parse_effects (map effect_json es) path pointer index = Ok es.
Proof.
  revert index. induction es as [|e es IH]; intros index Hv Ht; [done|].
  apply Forall_cons_1 in Hv as [? ?], Ht as [? ?].
  cbn [map parse_effects]. by rewrite effect_roundtrip, IH.
Qed.

(** What [InstallationRecord.__post_init__] makes sure of. *)
Lemma record_facts r : installation_record r = Ret r →
  (∃ name kind, in_coordinate r = MkCoordinate (se_alias (in_source r)) (MkIdentity kind name) None
     ∧ ae_identity (in_artifact r) = MkIdentity kind name)
  ∧ fullmatch slug_re (in_profile r) = true ∧ one_line (in_scope r) = true
  ∧ one_line (in_requested_mode r) = true ∧ in_effects r ≠ []
  ∧ (∀ m, in_memory_mode r = Some m → one_line m = true)
  ∧ (∀ s, in_setup_state_ref r = Some s → setup_ref_ok s = true).
Proof.
  unfold installation_record. intros Hr. inv_py. split_guard. split_and!.
  - destruct (in_coordinate r) as [source [kind name] version], (ae_identity (in_artifact r)).
    cbn [co_source co_artifact co_version] in *. exists name, kind. simplify_eq.
    destruct version; [exfalso; naive_solver|done].
  - done.
  - by eapply In_one_line.
  - by eapply In_one_line.
  - done.
  - intros m Hm. rewrite Hm in *. destruct (is_memory r); cbn [andb negb] in *; split_guard; [|exfalso; naive_solver].
    eapply (Some_In_one_line _ ["replace"; "prepend"; "append"; "skip"]); [|done].
    match goal with H : Some m ∈ None :: _ |- _ => by apply elem_of_cons in H as [?|?] end.
  - intros s Hs. rewrite Hs in *. by split_guard.
Qed.

Lemma record_roundtrip `{DecodeErrors} r path index :
  valid_record r → Forall trimmed_effect (in_effects r) → parse_record (record_json r) path index = Ok r.
Proof.
  intros (Hr & Hs & Ha & He) Ht.
  destruct (record_facts r Hr) as ((name & kind & Hc & Hi) & ? & ? & ? & Hne & ? & Hset).
  assert (∀ s, in_setup_state_ref r = Some s → one_line s = true) as Hline.
  { intros s E. by apply setup_ref_one_line, Hset. }
  assert (fullmatch slug_re (alias_value (se_alias (in_source r))) = true) as Hsa.
  { unfold valid_source, source_evidence in Hs. inv_py. by split_guard. }
  assert (fullmatch slug_re name = true) as Hsn.
  { destruct Ha as [Ha _]. unfold artifact_evidence in Ha. inv_py. split_guard. by rewrite Hi in *. }
  destruct (coordinate_roundtrip _ kind name Hsa Hsn) as [Hl Hp].
  assert (in_coordinate r = MkCoordinate (MkAlias (alias_value (se_alias (in_source r)))) (MkIdentity kind name) None)
    as Hc' by (rewrite Hc; by destruct (se_alias (in_source r))).
  unfold parse_record, record_json. rewrite Hc'. open_object d Hd. read_fields Hd.
  rewrite Hp, source_roundtrip, artifact_roundtrip by done. cbn [mbind result_bind integer_value].
  destruct (map effect_json (in_effects r)) as [|v vs] eqn:Em; [by apply map_eq_nil in Em|].
  rewrite <-Em, effects_roundtrip by done. cbn [mbind result_bind].
  read_optional Hd JStr (in_setup_state_ref r). read_optional Hd JStr (in_memory_mode r).
  unfold installation_record_of. rewrite parse_kind_value, <-Hc'.
  by destruct r; apply (f_equal (λ m, try_value m path _) Hr).
Qed.

Lemma records_roundtrip `{DecodeErrors} rs path index :
  Forall valid_record rs → Forall (λ r, Forall trimmed_effect (in_effects r)) rs →
  parse_records (map record_json rs) path index = Ok rs.
Proof.
  revert index. induction rs as [|r rs IH]; intros index Hv Ht; [done|].
  apply Forall_cons_1 in Hv as [? ?], Ht as [? ?].
  cbn [map parse_records]. by rewrite record_roundtrip, IH.
Qed.

Lemma state_json_roundtrip `{DecodeErrors} s path :
  valid_state s → trimmed_state s →
  is_legacy_v01_envelope (install_state_to_json s) = false
  ∧ parse_v2_install_state (install_state_to_json s) path = Ok s.
Proof.
  intros [Hs Hr] Ht. split; [done|].
  assert (st_schema_version s = 2%Z) as Hv.
  { apply bind_Ret in Hs as (u & E & _). by apply raise_if_Ret, negb_false_iff, Z.eqb_eq in E. }
  unfold parse_v2_install_state, install_state_to_json. open_object d Hd.
  cbn [mbind result_bind]. unfold entry. rewrite !Hd. eval_assoc. cbn [from_option id integer_value].
  rewrite Hv. cbn [mbind result_bind]. change (negb (2 =? 2)%Z) with false. cbv iota.
  rewrite records_roundtrip by done. cbn [mbind result_bind]. rewrite <-Hv, Hs. done.
Qed.

(** C29: a state is read back from its own bytes: for every state that the
    constructors accept, whose source paths have no outer white space (a path
    that ends in a space is accepted and cannot be read, see
    [accepted_state_unreadable]) and whose JSON is within the bounds of the
    reader, parsing the written manifest gives the state again. *)
Theorem install_state_roundtrip `{DecodeErrors} s path :
  valid_state s → trimmed_state s → wf_json MAX_STRING MAX_DEPTH (install_state_to_json s) = true →
  parse_install_state (install_state_bytes s) path = Ret (Ok s).
Proof.
  intros Hv Ht Hw. destruct (state_json_roundtrip s path Hv Ht) as [Hl Hp].
  unfold parse_install_state, install_state_bytes.
  rewrite (parse_canonical _ _ MAX_DEPTH MAX_STRING); [|done|exact Hw]. cbn [mbind py_bind]. by rewrite Hl, Hp.
Qed.

(** * Everything read is valid *)

Lemma try_value_Ok {A} (m : py A) path pointer a : try_value m path pointer = Ok a → m = Ret a.
Proof. unfold try_value, state_error, fail1. destruct m as [a'|[]]; congruence. Qed.

Ltac inv_ok :=
  repeat (inv_ok_bind; match goal with
    | H : try_value _ _ _ = Ok _ |- _ => apply try_value_Ok in H
    end); inv_ok_bind.
Lemma source_evidence_same e e' : source_evidence e = Ret e' → e' = e.
Proof. unfold source_evidence. intros He. by inv_py. Qed.
Lemma artifact_evidence_same e e' : artifact_evidence e = Ret e' → e' = e.
Proof. unfold artifact_evidence. intros He. by inv_py. Qed.
Lemma effect_proof_same e e' : effect_proof e = Ret e' → e' = e.
Proof. unfold effect_proof. intros He. by inv_py. Qed.
Lemma installation_record_same r r' : installation_record r = Ret r' → r' = r.
Proof. unfold installation_record. intros Hr. by inv_py. Qed.

Lemma install_state_valid v rs s :
  install_state v rs = Ret s →
  install_state (st_schema_version s) (st_installations s) = Ret s
  ∧ Permutation (st_installations s) rs.
Proof.
  unfold install_state. intros Hs. inv_py. cbn [st_schema_version st_installations].
  rewrite sorted_id by apply sorted_sorted. split; [|apply sorted_perm].
  rewrite Hv. cbn. by rewrite Hv0, Hv1.
Qed.

Lemma parse_source_valid `{DecodeErrors} v path pointer e : parse_source v path pointer = Ok e → valid_source e.
Proof.
  unfold parse_source. intros Hp. inv_ok. inv_py. 
  match goal with H : source_evidence _ = Ret _ |- _ => pose proof (source_evidence_same _ _ H) as -> end. done.
Qed.

Lemma parse_artifact_valid `{DecodeErrors} v path pointer a :
  parse_artifact v path pointer = Ok a → valid_artifact a.
Proof.
  unfold parse_artifact. intros Hp. inv_ok. unfold artifact_evidence_of in Hp.
  destruct (parse_kind _) as [k|]; [|done]. pose proof (artifact_evidence_same _ _ Hp) as ->.
  split; [done|]. cbn [ae_version].
  match goal with H : parse_semver _ _ = Ok _ |- _ => by apply parse_semver_exact in H as [? _] end.
Qed.

Lemma parse_effects_valid `{DecodeErrors} vs path pointer index es :
  parse_effects vs path pointer index = Ok es → Forall valid_effect es.
Proof.
  revert index es. induction vs as [|v vs IH]; intros index es; cbn [parse_effects].
  - by intros [= <-].
  - intros Hp. inv_ok. injection Hp as <-. constructor; [|by eapply IH].
    unfold parse_effect in Hx. inv_ok. by pose proof (effect_proof_same _ _ Hx) as ->.
Qed.

Lemma parse_record_valid `{DecodeErrors} v path index r : parse_record v path index = Ok r → valid_record r.
Proof.
  unfold parse_record. intros Hp. inv_ok. unfold installation_record_of in Hp.
  repeat match goal with x : _ * _ |- _ => destruct x end.
  destruct (parse_kind _) as [k|]; [|done]. pose proof (installation_record_same _ _ Hp) as ->.
  unfold valid_record. cbn [in_source in_artifact in_effects]. split_and!; [done| | |].
  - by eapply parse_source_valid.
  - by eapply parse_artifact_valid.
  - match goal with H : match entry _ "effects" with _ => _ end = Ok _ |- _ =>
      destruct (entry _ "effects") as [| | | |[|]|]; try done; by eapply parse_effects_valid end.
Qed.

Lemma parse_records_valid `{DecodeErrors} vs path index rs :
  parse_records vs path index = Ok rs → Forall valid_record rs.
Proof.
  revert index rs. induction vs as [|v vs IH]; intros index rs; cbn [parse_records].
  - by intros [= <-].
  - intros Hp. inv_ok. injection Hp as <-. constructor; [by eapply parse_record_valid|by eapply IH].
Qed.

Lemma as_invalid_Ok {A} (r : Result A) a : as_install_state_invalid r = Ok a → r = Ok a.
Proof. by destruct r. Qed.

Lemma parse_json_returns `{DecodeErrors} data location max_depth max_string_length :
  (0 ≤ max_depth)%Z → (0 ≤ max_string_length)%Z →
  ∃ r, parse_json data location max_depth max_string_length = Ret r.
Proof.
  intros Hd Hm. unfold parse_json, parse_json_text.
  assert ((max_depth <? 0)%Z || (max_string_length <? 0)%Z = false) as -> by lia.
  cbn [raise_if mbind py_bind]. destruct (valid_utf8 data); eauto.
Qed.

(** C28: whatever bytes it is given, the reader returns, and a state it returns
    is valid: every constructor inside it accepts its value, identities and
    effect owners are unique, and the records are sorted by identity. *)
Theorem parse_install_state_typed `{DecodeErrors} data path :
  ∃ r, parse_install_state data path = Ret r ∧
  ∀ s, r = Ok s → valid_state s ∧ StronglySorted (key_le installation_key) (st_installations s).
Proof.
  unfold parse_install_state.
  destruct (parse_json_returns data (state_location path None) MAX_DEPTH MAX_STRING) as [r ->]; [done..|].
  eexists. split; [reflexivity|]. intros s. destruct r as [v|]; [|done].
  destruct (is_legacy_v01_envelope v); [done|]. intros Hs%as_invalid_Ok.
  unfold parse_v2_install_state in Hs. inv_ok.
  destruct (negb _); [done|]. destruct (entry _ "installations"); try done. inv_ok.
  destruct (install_state_valid _ _ _ Hs) as [Hv Hp]. split; [split; [done|]|].
  - rewrite Hp. by eapply parse_records_valid.
  - unfold install_state in Hv. inv_py. rewrite <-Hv. apply sorted_sorted.
Qed.
End valid.

(** * A concrete state *)

Definition sample_hex : string := "0123456789abcdef0123456789abcdef0123456789abcdef0123456789abcdef".
Definition sample_effect : EffectProof :=
  MkEffect "copy-tree" ".claude/skills/demo" "copy" (MkDigest "sha256" sample_hex) (Some "payload")
    None None None JNull None None true false None.
Definition sample_record : InstallationRecord :=
  MkInstallation (MkCoordinate (MkAlias "acme") (MkIdentity Skill "demo") None)
    (MkSourceEvidence (MkAlias "acme") (MkSourceId "acme-registry") REGISTRY_GIT "github.com/acme/tools"
       "0123456789abcdef0123456789abcdef01234567" (Some "main"))
    (MkArtifactEvidence (MkIdentity Skill "demo") (MkSemVer 1 2 0 [] []) (MkDigest "sha256" sample_hex)
       (MkDigest "sha256" sample_hex) (MkDigest "sha256" sample_hex))
    "claude" 1 "project" "copy" [sample_effect] None None.
Definition sample_state : InstallState := MkState 2 [sample_record].

Lemma sample_state_valid :
  @valid_state ascii_unicode no_ipv6 sample_state ∧ @trimmed_state ascii_unicode sample_state.
Proof.
  split; [split; [by vm_compute|]|].
  - repeat constructor; by vm_compute.
  - repeat constructor; by vm_compute.
Qed.

Lemma install_state_roundtrip_witness :
  @parse_install_state ascii_unicode no_ipv6 plain_decode_errors (install_state_bytes sample_state) "manifest.json"
  = Ret (Ok sample_state).
Proof.
  apply (@install_state_roundtrip ascii_unicode no_ipv6 plain_decode_errors);
    [apply sample_state_valid|apply sample_state_valid|by vm_compute].
Defined.

Lemma parse_install_state_typed_witness :
  ∃ r, @parse_install_state ascii_unicode no_ipv6 plain_decode_errors (install_state_bytes sample_state) "m"
       = Ret r ∧
  ∀ s, r = Ok s → @valid_state ascii_unicode no_ipv6 s
                  ∧ StronglySorted (key_le installation_key) (st_installations s).
Proof. apply (@parse_install_state_typed ascii_unicode no_ipv6 plain_decode_errors). Defined.

(** The hypothesis on source paths is needed: a safe relative path may end in
    a space, the constructors accept it, and the manifest written with it is
    refused. *)
Definition spaced_effect : EffectProof :=
  MkEffect "copy-tree" ".claude/skills/demo" "copy" (MkDigest "sha256" sample_hex) (Some "payload ")
    None None None JNull None None true false None.
Definition spaced_state : InstallState :=
  MkState 2 [MkInstallation (in_coordinate sample_record) (in_source sample_record)
    (in_artifact sample_record) "claude" 1 "project" "copy" [spaced_effect] None None].
Example accepted_state_unreadable :
  @valid_state ascii_unicode no_ipv6 spaced_state ∧
  is_err (ret_or (Ok sample_state) (@parse_install_state ascii_unicode no_ipv6 plain_decode_errors
                        (install_state_bytes spaced_state) "manifest.json")) = true.
Proof. split; [split; [by vm_compute|repeat constructor; by vm_compute]|by vm_compute]. Qed.
