(* ===== verification/Store.v ===== *)
(** Replacing an owner's references and collecting garbage
    ([application/store.py]), over injected ports.

    A port's answer may depend on every call made before it; a run leaves the
    trace of its calls, also when it raises ([Effects.v]). *)
From S2P Require Import Prelude Effects PyText TextSearch Posix Encodings Regex Domain Json JsonParse Protocol CompilerModel StoreModel InstallSpec.
From Stdlib Require Import QArith Ascii.
Open Scope Z_scope.

Inductive store_event : Type :=
  | EAcquireLock (request : StoreLockRequest) (result : Result StoreLockLease)
  | EReleaseLock (lease : StoreLockLease) (result : Result unit)
  | EReadReferences (paths : ObjectStorePaths) (result : Result ReferenceIndex)
  | EWriteReferences (command : ReferenceWriteCommand) (result : Result ReferenceIndex)
  | EInventory (paths : ObjectStorePaths) (result : Result ObjectInventory)
  | EDelete (command : ObjectDeleteCommand) (result : Result unit).

Notation trace := (list store_event).
Notation run A := (st (list store_event) A).

(** [ReferenceUpdatePorts] and [StoreGcPorts] *)
Record ReferenceUpdatePorts := MkReferenceUpdatePorts {
  ru_acquire_lock : trace → StoreLockRequest → Result StoreLockLease;
  ru_release_lock : trace → StoreLockLease → Result unit;
  ru_read_references : trace → ObjectStorePaths → Result ReferenceIndex;
  ru_write_references : trace → ReferenceWriteCommand → Result ReferenceIndex
}.
Record StoreGcPorts := MkStoreGcPorts {
  gc_acquire_lock : trace → StoreLockRequest → Result StoreLockLease;
  gc_release_lock : trace → StoreLockLease → Result unit;
  gc_read_references : trace → ObjectStorePaths → Result ReferenceIndex;
  gc_inventory_objects : trace → ObjectStorePaths → Result ObjectInventory;
  gc_delete_object : trace → ObjectDeleteCommand → Result unit
}.

Record ReferenceUpdateRequest := MkUpdateRequest {
  uq_paths : ObjectStorePaths;
  uq_kind : ReferenceKind;
  uq_owner : string;
  uq_digests : list ObjectDigest
}.
Definition reference_update_request (paths : ObjectStorePaths) (kind : ReferenceKind)
    (owner : string) (digests : list ObjectDigest) : py ReferenceUpdateRequest :=
  probes ← mapM (object_reference kind owner) digests;
  raise_if (has_dups probes) "reference update digests must be unique" ;;
  Ret (MkUpdateRequest paths kind owner (sorted digest_str digests)).

(** [StoreLockRequest(paths.lock_directory)]: the defaults of its fields. *)
Definition lock_request (paths : ObjectStorePaths) : py StoreLockRequest :=
  store_lock_request (os_lock_directory paths) 30 300.

(** [_release_result]; [Err(...)] sorts the joined diagnostics. *)
Definition joined_result {A} (outcome : Result A) (released : Result unit) : Result A :=
  match released with
  | Ok _ => outcome
  | Err ds =>
      match outcome with
      | Err first => raise_errors (first ++ ds)
      | Ok _ => Err ds
      end
  end.
Definition release_result {A} (outcome : Result A) (lease : StoreLockLease)
    (release : trace → StoreLockLease → Result unit) : run (Result A) :=
  released ← call (λ t, release t lease) (EReleaseLock lease);
  mret (joined_result outcome released).

(** The owner's references of that kind give way to the requested ones. *)
Definition retained_by (request : ReferenceUpdateRequest) (r : ObjectReference) : bool :=
  negb (bool_decide (rf_kind r = uq_kind request))
  || negb (bool_decide (rf_owner r = uq_owner request)).
Definition replacement_references (request : ReferenceUpdateRequest) (current : ReferenceIndex) :
    py (list ObjectReference) :=
  replacements ← mapM (object_reference (uq_kind request) (uq_owner request)) (uq_digests request);
  Ret (List.filter (retained_by request) (ri_references current) ++ replacements).

Definition replace_references (request : ReferenceUpdateRequest) (ports : ReferenceUpdatePorts) :
    run (Result ReferenceIndex) :=
  lock ← pure (lock_request (uq_paths request));
  lease ← call (λ t, ru_acquire_lock ports t lock) (EAcquireLock lock);
  match lease with
  | Err ds => mret (Err ds)
  | Ok lease =>
      current ← call (λ t, ru_read_references ports t (uq_paths request))
                  (EReadReferences (uq_paths request));
      match current with
      | Err ds => release_result (Err ds) lease (ru_release_lock ports)
      | Ok current =>
          references ← pure (replacement_references request current);
          updated ← pure (reference_index 1 references);
          let command := MkWriteCommand (uq_paths request) updated in
          written ← call (λ t, ru_write_references ports t command) (EWriteReferences command);
          release_result written lease (ru_release_lock ports)
      end
  end.

(** The digests the index refers to, each once, by their text. *)
Definition referenced_digests (index : ReferenceIndex) : list ObjectDigest :=
  sorted_set digest_str (map rf_digest (ri_references index)).

(** The deletion loop. *)
Fixpoint delete_all (paths : ObjectStorePaths) (delete : trace → ObjectDeleteCommand → Result unit)
    (candidates deleted : list ObjectDigest) (diagnostics : list Diagnostic) :
    run (list ObjectDigest * list Diagnostic) :=
  match candidates with
  | [] => mret (deleted, diagnostics)
  | digest :: candidates =>
      command ← pure (object_delete_command paths digest);
      result ← call (λ t, delete t command) (EDelete command);
      match result with
      | Err ds => delete_all paths delete candidates deleted (diagnostics ++ ds)
      | Ok _ => delete_all paths delete candidates (deleted ++ [digest]) diagnostics
      end
  end.

Definition collect_garbage (request : GcRequest) (ports : StoreGcPorts) : run (Result GcOutcome) :=
  let paths := gq_paths request in
  lock ← pure (lock_request paths);
  lease ← call (λ t, gc_acquire_lock ports t lock) (EAcquireLock lock);
  match lease with
  | Err ds => mret (Err ds)
  | Ok lease =>
      references ← call (λ t, gc_read_references ports t paths) (EReadReferences paths);
      match references with
      | Err ds => release_result (Err ds) lease (gc_release_lock ports)
      | Ok references =>
          inventory ← call (λ t, gc_inventory_objects ports t paths) (EInventory paths);
          match inventory with
          | Err ds => release_result (Err ds) lease (gc_release_lock ports)
          | Ok inventory =>
              let referenced := referenced_digests references in
              let candidates :=
                List.filter (λ d, negb (mem d referenced)) (oi_digests inventory) in
              plan ← pure (gc_plan referenced candidates (oi_diagnostics inventory));
              if negb (gq_execute request) then
                outcome ← pure (gc_outcome plan false []);
                release_result (Ok outcome) lease (gc_release_lock ports)
              else
                loop ← delete_all paths (gc_delete_object ports) candidates [] [];
                outcome ← pure (match loop.2 with
                                | [] => Ok <$> gc_outcome plan true loop.1
                                | diagnostics => Err_init diagnostics
                                end);
                release_result outcome lease (gc_release_lock ports)
          end
      end
  end.

(** [object_status] *)
Definition object_status (request : ObjectReadRequest)
    (read_object : ObjectReadRequest → Result (option StoredObject)) : py ObjectStatus :=
  match read_object request with
  | Err ds => object_status_init DEGRADED (rd_digest request) None ds
  | Ok None => object_status_init MISSING (rd_digest request) None []
  | Ok (Some stored) => object_status_init VERIFIED (rd_digest request) (Some stored) []
  end.

(** What the object store promises: stored trees are closed under parent
    directories, an object is exactly the bytes its digest names and reads back
    as written, references round trip, and collecting garbage under the lease
    never deletes a referenced object and always gives the lease back. *)


(** * Normalised trees *)

Definition keyed (e : SnapshotEntry) : string * SnapshotEntry := (entry_path e, e).

Section trees.
Context `{UnicodeData}.

Definition wf_entry (e : SnapshotEntry) : Prop :=
  wf_path (se_path e) = true ∧ count (sp_parts (se_path e)) ≤ MAX_TREE_DEPTH ∧
  match se_kind e with
  | SFILE => len (se_content e) ≤ MAX_FILE_BYTES
  | SDIRECTORY => se_content e = "" ∧ se_executable e = false
  | _ => False
  end.

Lemma accept_entry_Ok state e state' :
  accept_entry state e = Ok state' →
  wf_entry e ∧ dget (entry_path e) (sc_explicit state) = None
  ∧ sc_explicit state' = sc_explicit state ++ [keyed e].
Proof.
  unfold accept_entry, store_error, fail1. destruct (parse_relative_path _ _) as [parsed|] eqn:Hp; [|done].
  destruct (negb _ || _) eqn:Hg; [done|]. apply orb_false_iff in Hg as [He Hk].
  apply negb_false_iff, bool_decide_eq_true in He. subst parsed.
  apply bool_decide_eq_false, eq_None_not_Some in Hk.
  apply parse_relative_path_exact in Hp as [_ Hw].
  assert (dset (entry_path e) e (sc_explicit state) = sc_explicit state ++ [keyed e]) as Hs
    by (apply dset_fresh; by apply dget_None).
  destruct (Z.ltb_spec MAX_TREE_DEPTH (count (sp_parts (se_path e)))) as [|Hd]; [done|].
  unfold wf_entry. destruct (se_kind e) eqn:Hkind; [| |done|done]; intros Hr; repeat case_match; simplify_eq.
  - split_and!; [done|done|lia|done|done].
  - apply orb_false_iff in H0 as [Hc Hx]. apply negb_false_iff in Hc.
    assert (se_content e = "") by (destruct (se_content e); done). done.
Qed.

Lemma scan_entries_Ok es n state state' :
  scan_entries n es state = Ok state' → NoDup (sc_explicit state).*1 →
  Forall wf_entry es ∧ sc_explicit state' = sc_explicit state ++ map keyed es
  ∧ NoDup (sc_explicit state').*1.
Proof.
  revert n state. induction es as [|e es IH]; intros n state; cbn [scan_entries].
  - intros [= ->] Hd. cbn [map]. rewrite app_nil_r. auto.
  - destruct (MAX_ENTRIES <? n); [done|].
    destruct (accept_entry state e) as [state1|] eqn:Ha; [|done]. intros Hs Hd.
    apply accept_entry_Ok in Ha as (Hw & Hk & E). apply IH in Hs as (Hf & E' & Hd').
    + split; [by constructor|]. split; [|done]. rewrite E', E. cbn [map]. by rewrite <-app_assoc.
    + rewrite E, fmap_app. apply NoDup_app. split_and!; [done| |apply NoDup_singleton].
      intros k Hin Hk'. apply list_elem_of_singleton in Hk' as ->. by apply dget_None in Hk.
Qed.

(** A dict of entries under their own paths. *)
Definition entry_dict (d : list (string * SnapshotEntry)) : Prop :=
  NoDup d.*1 ∧ Forall (λ kv, kv.1 = entry_path kv.2) d.
Definition parent_entry (parents : list (list string)) (e : SnapshotEntry) : Prop :=
  se_kind e = SDIRECTORY ∧ se_content e = "" ∧ se_executable e = false
  ∧ wf_path (se_path e) = true ∧ ∃ parts, parts ∈ parents ∧ entry_path e = join "/" parts.

Lemma add_parents_Ok parents d d' :
  add_parents parents d = Ret (Ok d') → entry_dict d →
  ∃ extra, d' = d ++ extra ∧ entry_dict d' ∧ Forall (λ kv, parent_entry parents kv.2) extra
  ∧ ∀ parts, parts ∈ parents → ∃ e, (join "/" parts, e) ∈ d' ∧ se_kind e = SDIRECTORY.
Proof.
  revert d. induction parents as [|parts parents IH]; intros d; cbn [add_parents].
  - intros [= ->] Hd. exists []. rewrite app_nil_r. split_and!; [done|done|done|set_solver].
  - assert (∀ e, parent_entry parents e → parent_entry (parts :: parents) e) as Hmono.
    { intros e (? & ? & ? & ? & p & ? & ?). repeat split; try done. exists p. set_solver. }
    destruct (dget (join "/" parts) d) as [e|] eqn:Hg.
    + destruct (decide (se_kind e = SDIRECTORY)) as [Hk|Hk];
        [rewrite bool_decide_true by done|by rewrite bool_decide_false by done].
      intros Hr Hd. apply IH in Hr as (extra & -> & Hd' & Hx & Hall); [|done].
      exists extra. split_and!; [done|done| |].
      * eapply Forall_impl; [exact Hx|]. auto.
      * intros p [->|Hp]%elem_of_cons; [|auto]. exists e. split; [|done].
        apply elem_of_app. left. by apply dget_elem_of.
    + destruct (parse_relative_path (join "/" parts) None) as [parsed|] eqn:Hp; [|done].
      apply parse_relative_path_exact in Hp as [Hstr Hw]. rewrite dset_fresh by by apply dget_None.
      set (e := MkSnapshotEntry parsed SDIRECTORY "" false). intros Hr [Hd Hkey].
      assert (entry_dict (d ++ [(join "/" parts, e)])) as Hd1.
      { split.
        - rewrite fmap_app. apply NoDup_app. split_and!; [done| |apply NoDup_singleton].
          intros k Hin Hk%list_elem_of_singleton. subst. by apply dget_None in Hg.
        - apply Forall_app. split; [done|]. constructor; [done|constructor]. }
      apply IH in Hr as (extra & -> & Hd' & Hx & Hall); [|done].
      exists ((join "/" parts, e) :: extra). rewrite <-app_assoc in *. split_and!; [done|done| |].
      * constructor; [|eapply Forall_impl; [exact Hx|]; auto].
        repeat split; try done. exists parts. split; [set_solver|done].
      * intros p [->|Hp]%elem_of_cons; [|auto]. exists e. split; [|done]. set_solver.
Qed.

(** A tree the store accepts: sorted by distinct safe paths, files and
    directories only, with every directory on the way to an entry. *)
Record safe_tree (t : list SnapshotEntry) : Prop := {
  sf_sorted : StronglySorted (key_le entry_path) t;
  sf_unique : NoDup (map entry_path t);
  sf_entries : Forall wf_entry t;
  sf_parents : ∀ e parts, e ∈ t → parts ∈ ancestors (sp_parts (se_path e)) →
    ∃ d, d ∈ t ∧ entry_path d = join "/" parts ∧ se_kind d = SDIRECTORY
}.

Lemma elem_of_ancestors parts x :
  x ∈ ancestors parts ↔ ∃ n, (1 ≤ n < length parts)%nat ∧ x = take n parts.
Proof.
  unfold ancestors. rewrite list_elem_of_In, in_map_iff. split.
  - intros (n & <- & Hn%in_seq). exists n. split; [lia|done].
  - intros (n & Hn & ->). exists n. split; [done|]. apply in_seq. lia.
Qed.

Lemma ancestors_trans parts x y : x ∈ ancestors parts → y ∈ ancestors x → y ∈ ancestors parts.
Proof.
  rewrite !elem_of_ancestors. intros (n & Hn & ->) (m & Hm & ->). rewrite length_take in Hm.
  exists m. rewrite take_take. split; [lia|]. f_equal. lia.
Qed.

Lemma wf_path_split p : wf_path p = true → split_on "/" (path_str p) = sp_parts p.
Proof.
  unfold wf_path. rewrite safe_parts_split. intros Hw. split_guard.
  apply split_on_parts. done.
Qed.

Lemma ancestor_parts p q parts :
  wf_path p = true → parts ∈ ancestors (sp_parts p) → wf_path q = true →
  path_str q = join "/" parts → sp_parts q = parts.
Proof.
  intros Hp (n & Hn & ->)%elem_of_ancestors Hq Hs. rewrite <-wf_path_split, Hs by done.
  assert (Forall (λ x, has_char "/" x = false) (sp_parts p)) as Hf.
  { rewrite <-(wf_path_split p Hp). apply split_on_no_sep. }
  apply split_on_join; [|by apply Forall_take].
  intros E. apply (f_equal length) in E. rewrite length_take in E. simpl in E. lia.
Qed.

Lemma keyed_dvalues (d : list (string * SnapshotEntry)) :
  entry_dict d → map entry_path (dvalues d) = d.*1.
Proof.
  intros [_ Hf]. unfold dvalues. induction Hf as [|[k e] d Hk Hf IH]; [done|]. cbn. f_equal; [done|apply IH].
Qed.

Lemma normalized_safe es t :
  normalized_entries es = Ret (Ok t) →
  safe_tree t ∧ (∀ e, e ∈ es → e ∈ t)
  ∧ ∀ e, e ∈ t → e ∈ es ∨
      se_kind e = SDIRECTORY ∧ ∃ e', e' ∈ es ∧ sp_parts (se_path e) ∈ ancestors (sp_parts (se_path e')).
Proof.
  unfold normalized_entries. destruct (scan_entries _ _ _) as [state|] eqn:Hs; [|done].
  apply scan_entries_Ok in Hs as (Hwf & Hst & Hnd); [|apply NoDup_nil_2]. cbn [sc_explicit app] in Hst.
  rewrite Hst in *. destruct (map keyed es) as [|kv0 d0] eqn:Hne; [done|].
  rewrite <-Hne in *. clear kv0 d0 Hne.
  intros (normalized & Ha & Hr)%bind_Ret. destruct normalized as [d|]; [|done].
  injection Hr as <-. fold (dvalues d).
  assert (entry_dict (map keyed es)) as Hed.
  { split; [done|]. apply Forall_forall. by intros kv (e & -> & _)%list_elem_of_fmap. }
  destruct (add_parents_Ok _ _ _ Ha Hed) as (extra & Ed & Hd & Hx & Hall).
  assert (∀ e, e ∈ dvalues d ↔ e ∈ es ∨ ∃ k, (k, e) ∈ extra) as Hin.
  { intros e. rewrite elem_of_dvalues, Ed. setoid_rewrite elem_of_app. split.
    - intros (k & [(e' & [= -> ->] & ?)%list_elem_of_fmap|?]); eauto.
    - intros [?|[k ?]]; [|eauto]. exists (entry_path e). left. apply list_elem_of_fmap. eauto. }
  set (parents := concat _) in *.
  assert (∀ parts, parts ∈ parents ↔ ∃ e, e ∈ es ∧ parts ∈ ancestors (sp_parts (se_path e))) as Hpar.
  { intros parts. unfold parents. rewrite list_elem_of_In, in_concat. setoid_rewrite in_map_iff. split.
    - intros (l & (kv & <- & Hk) & Hl). apply list_elem_of_In, list_elem_of_fmap in Hk as (e & -> & He).
      exists e. split; [done|]. by apply list_elem_of_In.
    - intros (e & He & Hp). eexists. split; [|by apply list_elem_of_In].
      exists (keyed e). split; [done|]. apply list_elem_of_In, list_elem_of_fmap. eauto. }
  assert (∀ e, e ∈ dvalues d → e ∈ es ∨ se_kind e = SDIRECTORY ∧ se_content e = ""
    ∧ se_executable e = false ∧ wf_path (se_path e) = true
    ∧ ∃ e', e' ∈ es ∧ sp_parts (se_path e) ∈ ancestors (sp_parts (se_path e'))) as Hnew.
  { intros e [He|[k He]]%Hin; [by left|right]. rewrite Forall_forall in Hx.
    destruct (Hx _ He) as (? & ? & ? & Hw & parts & (e' & He' & Hanc)%Hpar & Hstr).
    cbn [snd] in *. split_and!; try done.
    exists e'. split; [done|]. rewrite Forall_forall in Hwf. destruct (Hwf _ He') as [Hw' _].
    by rewrite (ancestor_parts _ _ _ Hw' Hanc Hw Hstr). }
  split; [|split].
  - split.
    + apply sorted_sorted.
    + rewrite (sorted_perm entry_path (dvalues d)). rewrite keyed_dvalues by done. apply Hd.
    + apply Forall_forall. intros e [He|(Hk & Hc & Hxe & Hw & e' & He' & Hanc)]%elem_of_sorted%Hnew.
      * rewrite Forall_forall in Hwf. auto.
      * unfold wf_entry. rewrite Hk. split_and!; [done| |done|done].
        rewrite Forall_forall in Hwf. destruct (Hwf _ He') as (_ & Hdepth & _).
        apply elem_of_ancestors in Hanc as (n & Hn & ->). unfold count in *. rewrite length_take. lia.
    + intros e parts He Hp. apply elem_of_sorted in He.
      assert (parts ∈ parents) as (e1 & He1 & Hk1)%Hall.
      { apply Hpar. apply Hnew in He as [He|(_ & _ & _ & _ & e' & He' & Hanc)]; [eauto|].
        exists e'. split; [done|]. by eapply ancestors_trans. }
      exists e1. split_and!; [apply elem_of_sorted, elem_of_dvalues; eauto| |done].
      destruct Hd as [_ Hkey]. rewrite Forall_forall in Hkey. by specialize (Hkey _ He1).
  - intros e He. apply elem_of_sorted, Hin. by left.
  - intros e He%elem_of_sorted. apply Hnew in He as [?|(? & _ & _ & _ & ?)]; auto.
Qed.
(** What the store keeps of a tree is closed under parent directories,
    sorted, without duplicates, and adds nothing but the missing parents. *)
Theorem normalized_entries_safe es t :
  normalized_entries es = Ret (Ok t) →
  safe_tree t ∧ (∀ e, e ∈ es → e ∈ t)
  ∧ ∀ e, e ∈ t → e ∈ es ∨
      se_kind e = SDIRECTORY ∧ ∃ e', e' ∈ es ∧ sp_parts (se_path e) ∈ ancestors (sp_parts (se_path e')).
Proof. apply normalized_safe. Qed.
End trees.

(** * Objects *)

Section objects.
Context `{UnicodeData} `{DecodeErrors}.

Lemma object_candidate_Ret d es data c :
  object_candidate d es data = Ret c ↔
  normalized_entries es = Ret (Ok es) ∧ valid_digest d = true ∧ len data ≤ MAX_ENVELOPE_BYTES
  ∧ sha256_bytes data = d ∧ canonical_object_bytes es = data ∧ c = MkObjectCandidate d es data.
Proof.
  unfold object_candidate, normalized_to. split.
  - intros Hc. inv_py. split_guard. destruct v as [t|]; [|done].
    apply bool_decide_eq_true in H1. apply Z.ltb_ge in H3. by subst t.
  - intros (-> & -> & Hl & <- & <- & ->). apply Z.ltb_ge in Hl. cbn [mbind py_bind].
    by rewrite Hl, !bool_decide_true by done.
Qed.

Lemma scan_entries_count es n state state' :
  scan_entries n es state = Ok state' → n - 1 ≤ MAX_ENTRIES → n - 1 + count es ≤ MAX_ENTRIES.
Proof.
  unfold count. revert n state. induction es as [|e es IH]; intros n state; cbn [scan_entries length]; [lia|].
  destruct (Z.ltb_spec MAX_ENTRIES n); [done|]. intros (state1 & _ & Hs)%bind_Ok Hn.
  apply IH in Hs; lia.
Qed.

Lemma normalized_entries_count es t :
  normalized_entries es = Ret (Ok t) → count es ≤ MAX_ENTRIES.
Proof.
  unfold normalized_entries. destruct (scan_entries _ _ _) as [state|] eqn:Hs; [|done].
  intros _. apply scan_entries_count in Hs; [lia|done].
Qed.

(** The texts of a tree fit the reader's bound on a string. *)
Definition readable_paths (es : list SnapshotEntry) : Prop :=
  Forall (λ e, valid_utf8 (entry_path e) = true
               ∧ Z.of_nat (str_len (entry_path e)) ≤ MAX_ENVELOPE_STRING) es.

Lemma content_text e : wf_entry e → wf_text MAX_ENVELOPE_STRING (b64encode (se_content e)) = true.
Proof.
  intros (_ & _ & Hk). unfold wf_text. destruct (b64encode_shape (se_content e)) as [Ha Hl].
  rewrite valid_utf8_ascii, has_surrogate_ascii, str_len_ascii by done. cbn [negb andb].
  apply Z.leb_le. assert (len (se_content e) ≤ MAX_FILE_BYTES) as Hc.
  { destruct (se_kind e); [done| |done|done]. by destruct Hk as [-> _]. }
  unfold len, MAX_FILE_BYTES, MAX_ENVELOPE_STRING in *.
  apply inj_le in Hl. rewrite Nat2Z.inj_mul, Nat2Z.inj_div, Nat2Z.inj_add in Hl.
  change (Z.of_nat 2) with 2 in Hl. change (Z.of_nat 3) with 3 in Hl. change (Z.of_nat 4) with 4 in Hl.
  Z.to_euclidean_division_equations. lia.
Qed.

Lemma path_text e :
  wf_entry e → valid_utf8 (entry_path e) = true → Z.of_nat (str_len (entry_path e)) ≤ MAX_ENVELOPE_STRING →
  wf_text MAX_ENVELOPE_STRING (entry_path e) = true.
Proof.
  intros (Hw & _) Hu Hl. unfold wf_text, wf_path in *. split_guard. unfold entry_path in *.
  rewrite Hu. match goal with Hs : has_surrogate _ = false |- _ => rewrite Hs end. by apply Z.leb_le.
Qed.

Lemma entry_json_wf e :
  wf_entry e → valid_utf8 (entry_path e) = true → Z.of_nat (str_len (entry_path e)) ≤ MAX_ENVELOPE_STRING →
  wf_json MAX_ENVELOPE_STRING 62 (entry_json e) = true.
Proof.
  intros Hw Hu Hl. pose proof (path_text e Hw Hu Hl) as Hp. pose proof (content_text e Hw) as Hc.
  assert (wf_text MAX_ENVELOPE_STRING (snapshot_kind_value (se_kind e)) = true) as Hk
    by by destruct (se_kind e); vm_compute.
  unfold entry_json. apply wf_json_object; [done|..].
  - destruct (bool_decide _); by_decision.
  - destruct (bool_decide _); cbn [app]; repeat constructor; cbn [fst snd wf_json]; by rewrite ?Hk, ?Hp, ?Hc.
Qed.

Lemma envelope_wf es :
  Forall wf_entry es → readable_paths es → wf_json MAX_ENVELOPE_STRING MAX_DEPTH (object_envelope es) = true.
Proof.
  intros Hw Hr. assert (forallb (wf_json MAX_ENVELOPE_STRING 62) (map entry_json es) = true) as Hes.
  { apply forallb_forall. intros v (e & <- & He%list_elem_of_In)%in_map_iff.
    unfold readable_paths in Hr. rewrite Forall_forall in Hw, Hr. apply entry_json_wf; naive_solver. }
  unfold object_envelope. apply wf_json_object; [done|by_decision|].
  repeat constructor; cbn [fst snd wf_json]. change (MAX_DEPTH - 1 - 1) with 62. by rewrite Hes.
Qed.

Lemma entry_roundtrip e : wf_entry e → parse_entry (entry_json e) = Ok e.
Proof.
  intros (Hw & _ & Hk). destruct e as [p k c x]. cbn [se_path se_kind se_content se_executable] in *.
  pose proof (proj2 (parse_relative_path_exact (path_str p) None p) (conj eq_refl Hw)) as Hp.
  destruct k; [| |done|done].
  - change (entry_json _) with
      (JsonObject [("content_base64", JStr (b64encode c)); ("executable", JBool x);
                   ("kind", JStr "file"); ("path", JStr (path_str p))]).
    unfold parse_entry. change (dget "kind" _) with (Some (JStr "file")).
    rewrite (bool_decide_true (Some (JStr "file") = Some (JStr "file"))) by done.
    change (fields_are _ _) with true. change (dget "path" _) with (Some (JStr (path_str p))).
    change (dget "executable" _) with (Some (JBool x)).
    change (dget "content_base64" _) with (Some (JStr (b64encode c))). cbn [negb].
    rewrite Hp, bool_decide_false, b64_roundtrip by done. done.
  - destruct Hk as [-> ->]. change (entry_json _) with
      (JsonObject [("executable", JBool false); ("kind", JStr "directory"); ("path", JStr (path_str p))]).
    unfold parse_entry. change (dget "kind" _) with (Some (JStr "directory")).
    rewrite (bool_decide_false (Some (JStr "directory") = Some (JStr "file"))) by done.
    change (fields_are _ _) with true. change (dget "path" _) with (Some (JStr (path_str p))).
    change (dget "executable" _) with (Some (JBool false)). cbn [negb].
    rewrite Hp, bool_decide_true by done. done.
Qed.

Lemma parse_candidate d es data c :
  object_candidate d es data = Ret c → Forall wf_entry es → readable_paths es →
  parse_object_candidate data (Some d) = Ret (Ok c).
Proof.
  intros Hc Hwf Hr. pose proof Hc as (Hn & Hd & Hl & Hs & Hb & ->)%object_candidate_Ret.
  unfold parse_object_candidate. rewrite (proj2 (Z.ltb_ge _ _) Hl). rewrite <-Hb at 1.
  unfold canonical_object_bytes.
  rewrite (parse_canonical _ _ MAX_DEPTH MAX_ENVELOPE_STRING); [|done|by apply envelope_wf].
  cbn [mbind py_bind]. unfold object_envelope, json_object.
  change (sorted fst _) with [("entries", JsonArray (map entry_json es)); ("schema_version", JInt 1)].
  change (fields_are _ _) with true. change (dget "schema_version" _) with (Some (JInt 1)).
  change (dget "entries" _) with (Some (JsonArray (map entry_json es))).
  rewrite (bool_decide_true (Some (JInt 1) = _)) by done. cbn [negb].
  replace (count (map entry_json es)) with (count es) by (unfold count; by rewrite length_map).
  rewrite (proj2 (Z.ltb_ge _ _) (normalized_entries_count _ _ Hn)).
  rewrite (proj2 (mapM_Ok parse_entry (map entry_json es) es)).
  - unfold make_object_candidate. rewrite Hn. cbn [mbind py_bind].
    rewrite Hb, Hs, (proj2 (Z.ltb_ge _ _) Hl), Hd, (bool_decide_true (d = d)) by done. cbn [negb orb].
    rewrite Hc. cbn. by rewrite bool_decide_true.
  - apply Forall2_fmap_l, Forall2_same_length_lookup_2; [done|]. intros i x y Hx Hy. simplify_eq.
    apply entry_roundtrip. rewrite Forall_forall in Hwf. apply Hwf. by eapply list_elem_of_lookup_2.
Qed.

Lemma make_candidate_Ok es expected c :
  make_object_candidate es expected = Ret (Ok c) →
  normalized_entries es = Ret (Ok (ob_entries c))
  ∧ object_candidate (ob_digest c) (ob_entries c) (ob_bytes c) = Ret c
  ∧ match expected with None => True | Some d => ob_digest c = d end.
Proof.
  unfold make_object_candidate. intros (r & Hn & Hr)%bind_Ret. destruct r as [t|]; [|done].
  destruct (MAX_ENVELOPE_BYTES <? _); [done|].
  destruct (match expected with Some _ => _ | None => _ end) eqn:He; [done|].
  apply bind_Ret in Hr as (c' & Hc & [= ->]).
  pose proof Hc as (_ & _ & _ & _ & _ & ->)%object_candidate_Ret. split_and!; [done|done|].
  destruct expected as [d|]; [|done]. by split_guard.
Qed.

(** An object that was made, published as its bytes and read back under its
    digest is the same object: tree, contents and executable bits. *)
Theorem object_candidate_roundtrip es expected c :
  make_object_candidate es expected = Ret (Ok c) → readable_paths (ob_entries c) →
  parse_object_candidate (ob_bytes c) (Some (ob_digest c)) = Ret (Ok c).
Proof.
  intros (Hn & Hc & _)%make_candidate_Ok Hr. eapply parse_candidate; [done| |done].
  apply normalized_safe in Hn as [Hs _]. apply Hs.
Qed.

(** Bytes accepted as the object of a digest have that SHA-256, are the
    only encoding of the tree returned, and that tree is safe. *)
Theorem parse_object_candidate_bound data expected c :
  parse_object_candidate data expected = Ret (Ok c) →
  ob_bytes c = data ∧ ob_digest c = sha256_bytes data
  ∧ match expected with None => True | Some d => sha256_bytes data = d end
  ∧ canonical_object_bytes (ob_entries c) = data ∧ safe_tree (ob_entries c).
Proof.
  unfold parse_object_candidate. destruct (MAX_ENVELOPE_BYTES <? _); [done|].
  intros (parsed & _ & Hp)%bind_Ret. destruct parsed as [v|]; [|done]. destruct v as [| | | | |fields]; try done.
  destruct (negb (fields_are _ _)); [done|]. destruct (negb (bool_decide _)); [done|].
  destruct (dget "entries" fields) as [v|]; [|done]. destruct v as [| | | |raw|]; try done.
  destruct (MAX_ENTRIES <? _); [done|]. destruct (mapM parse_entry raw) as [es|]; [|done].
  apply bind_Ret in Hp as (r & Hm & [= Hp]). destruct r as [c'|]; [|done]. cbn in Hp.
  destruct (bool_decide _) eqn:Hb; [|done]. apply bool_decide_eq_true in Hb. injection Hp as ->.
  apply make_candidate_Ok in Hm as (Hn & (_ & _ & _ & Hs & Hc & _)%object_candidate_Ret & He).
  rewrite Hb in *. split_and!; [done|by symmetry| |done|].
  - destruct expected; [congruence|done].
  - by apply normalized_safe in Hn as [? _].
Qed.

(** * The reference index *)

Lemma reference_index_Ret rs index :
  reference_index 1 rs = Ret index ↔
  index = MkReferenceIndex (sorted reference_key rs) ∧ count rs ≤ MAX_REFERENCES ∧ NoDup rs.
Proof.
  unfold reference_index, count. cbn [Z.eqb Pos.eqb negb raise_if mbind py_bind].
  rewrite length_sorted. split.
  - intros Hi. inv_py. apply orb_false_iff in Hv as [Hl Hd]. apply has_dups_false in Hd.
    rewrite NoDup_sorted in Hd. apply Z.ltb_ge in Hl. done.
  - intros (-> & Hl & Hd). apply Z.ltb_ge in Hl. rewrite Hl. rewrite (proj2 (has_dups_false _)); [done|].
    by apply NoDup_sorted.
Qed.

Lemma wf_text_ascii msl s : is_ascii s = true → Z.of_nat (String.length s) ≤ msl → wf_text msl s = true.
Proof.
  intros Ha Hl. unfold wf_text. rewrite valid_utf8_ascii, has_surrogate_ascii, str_len_ascii by done.
  by apply Z.leb_le.
Qed.

Lemma digest_text d : valid_digest d = true → wf_text MAX_STRING (digest_str d) = true.
Proof.
  unfold valid_digest, digest_str. intros [Ha%bool_decide_eq_true Hv]%andb_true_iff. rewrite Ha.
  apply wf_text_ascii.
  - unfold is_ascii. rewrite !str_forall_app.
    rewrite (str_forall_impl is_hex is_ascii_char (dg_value d)); [by vm_compute|by_ascii|by apply hex64_hex].
  - rewrite !str_length_app, (hex64_length (dg_value d)) by done. by vm_compute.
Qed.

Lemma owner_text s : valid_owner s = true → wf_text MAX_STRING s = true.
Proof.
  destruct s as [|c s]; [done|]. cbn [valid_owner]. intros Hs.
  apply andb_true_iff in Hs as [[Hc Hs]%andb_true_iff Hl%Z.leb_le]. apply wf_text_ascii.
  - unfold is_ascii. cbn [str_forall].
    assert (is_ascii_char c = true) as -> by (revert c Hc; by_ascii).
    eapply str_forall_impl; [|exact Hs]. by_ascii.
  - unfold len, MAX_STRING in *. cbn [String.length]. lia.
Qed.

Lemma reference_roundtrip r : valid_reference r = true → parse_reference (reference_json r) = Ok r.
Proof.
  intros Hr. pose proof Hr as [Ho Hd]%andb_true_iff. destruct r as [k o d]. cbn [rf_owner rf_digest] in *.
  pose proof (parse_sha256_digest d None Hd) as Hp.
  assert (reference_kind_of (reference_kind_value k) = Some k) as Hk by by destruct k; vm_compute.
  change (reference_json _) with
    (JsonObject [("digest", JStr (digest_str d)); ("kind", JStr (reference_kind_value k)); ("owner", JStr o)]).
  unfold parse_reference. change (fields_are _ _) with true.
  change (dget "kind" _) with (Some (JStr (reference_kind_value k))). change (dget "owner" _) with (Some (JStr o)).
  change (dget "digest" _) with (Some (JStr (digest_str d))). cbn [negb].
  rewrite Hp, Hk. unfold object_reference. by rewrite Hr.
Qed.

Lemma reference_json_wf r : valid_reference r = true → wf_json MAX_STRING 62 (reference_json r) = true.
Proof.
  intros [Ho Hd]%andb_true_iff. apply wf_json_object; [done|by_decision|].
  assert (wf_text MAX_STRING (reference_kind_value (rf_kind r)) = true) as Hk
    by by destruct (rf_kind r); vm_compute.
  apply owner_text in Ho. apply digest_text in Hd.
  repeat constructor; cbn [fst snd wf_json]; by rewrite ?Hk, ?Ho, ?Hd.
Qed.

(** The reference index written to disk reads back as the same index. *)
Theorem reference_index_roundtrip rs index :
  reference_index 1 rs = Ret index → Forall (λ r, valid_reference r = true) rs →
  parse_reference_index (reference_index_bytes index) = Ret (Ok index).
Proof.
  intros (-> & Hl & Hn)%reference_index_Ret Hv. set (l := sorted reference_key rs).
  assert (Forall (λ r, valid_reference r = true) l) as Hvl.
  { rewrite Forall_forall in *. intros r Hr%elem_of_sorted. auto. }
  unfold parse_reference_index.
  change (parse_json (reference_index_bytes ?i)) with (parse_json (canonical_json_bytes (reference_index_json i))).
  rewrite (parse_canonical _ _ MAX_DEPTH MAX_STRING); [|done|].
  - cbn [mbind py_bind]. unfold reference_index_json, json_object. cbn [ri_references].
    change (sorted fst _) with [("references", JsonArray (map reference_json l)); ("schema_version", JInt 1)].
    change (fields_are _ _) with true. change (dget "schema_version" _) with (Some (JInt 1)).
    change (dget "references" _) with (Some (JsonArray (map reference_json l))).
    rewrite (bool_decide_true (Some (JInt 1) = _)) by done. cbn [negb].
    rewrite (proj2 (mapM_Ok parse_reference (map reference_json l) l)).
    + cbn [mbind result_bind]. rewrite (proj2 (reference_index_Ret l (MkReferenceIndex l))).
      * by rewrite bool_decide_true.
      * unfold l. rewrite sorted_idemp. unfold count in *. by rewrite length_sorted, NoDup_sorted.
    + apply Forall2_fmap_l, Forall2_same_length_lookup_2; [done|]. intros i x y Hx Hy. simplify_eq.
      apply reference_roundtrip. rewrite Forall_forall in Hvl. apply Hvl. by eapply list_elem_of_lookup_2.
  - apply wf_json_object; [done|by_decision|]. repeat constructor; cbn [fst snd wf_json].
    change (MAX_DEPTH - 1 - 1) with 62. apply andb_true_iff. split; [done|].
    apply forallb_forall. intros v (r & <- & Hr%list_elem_of_In)%in_map_iff.
    rewrite Forall_forall in Hvl. apply reference_json_wf. auto.
Qed.
End objects.

(** * The lease protocol *)

(** Run a computation one call at a time. *)
Ltac step_run := unfold mbind, st_bind, pure, call; cbn.

Lemma delete_all_trace paths delete cands deleted ds tr :
  ∃ evs, (delete_all paths delete cands deleted ds tr).2 = tr ++ evs
  ∧ Forall (λ e, ∃ c r, e = EDelete c r ∧ dc_digest c ∈ cands) evs.
Proof.
  revert deleted ds tr. induction cands as [|d cands IH]; intros deleted ds tr.
  - exists []. by rewrite app_nil_r.
  - cbn [delete_all]. unfold mbind, st_bind, pure, call.
    unfold object_delete_command. destruct (negb (valid_digest d)).
    { exists []. by rewrite app_nil_r. }
    cbn [raise_if mbind py_bind]. set (c := MkDeleteCommand paths d).
    set (r := delete tr c).
    assert (∃ evs, (match r with
      | Ok _ => delete_all paths delete cands (deleted ++ [d]) ds
      | Err ds' => delete_all paths delete cands deleted (ds ++ ds') end (tr ++ [EDelete c r])).2
      = (tr ++ [EDelete c r]) ++ evs
      ∧ Forall (λ e, ∃ c r, e = EDelete c r ∧ dc_digest c ∈ cands) evs) as (evs & -> & Hf)
      by by destruct r; apply IH.
    exists (EDelete c r :: evs). rewrite <-app_assoc. split; [done|]. constructor.
    + exists c, r. split; [done|]. cbn. set_solver.
    + eapply Forall_impl; [exact Hf|]. intros e (c' & r' & -> & Hc). exists c', r'. set_solver.
Qed.

Lemma mem_referenced d index :
  mem d (referenced_digests index) = true ↔ ∃ r, r ∈ ri_references index ∧ rf_digest r = d.
Proof.
  unfold referenced_digests. rewrite mem_true, elem_of_sorted_set, list_elem_of_fmap. naive_solver.
Qed.

(** The digests a collection may delete. *)
Definition garbage (index : ReferenceIndex) (inventory : ObjectInventory) : list ObjectDigest :=
  List.filter (λ d, negb (mem d (referenced_digests index))) (oi_digests inventory).

Lemma elem_of_garbage d index inventory :
  d ∈ garbage index inventory ↔
  d ∈ oi_digests inventory ∧ ∀ r, r ∈ ri_references index → rf_digest r ≠ d.
Proof.
  unfold garbage. rewrite list_elem_of_In, filter_In, <-list_elem_of_In, negb_true_iff.
  rewrite <-not_true_iff_false, mem_referenced. naive_solver.
Qed.

(** A run whose events are all other than deletions. *)
Ltac no_delete Hin :=
  unfold release_result, mret, st_ret, mbind, st_bind, call in Hin; cbn in Hin;
  repeat match goal with tr := _ |- _ => subst tr end;
  rewrite <-?app_assoc, drop_app_length in Hin; cbn in Hin; set_solver.

(** C27: whatever its ports answer, a collection deletes only objects that the
    inventory lists and that no reference it read under the lease names, and
    nothing at all unless it was asked to execute. *)
Theorem collect_garbage_safe request ports tr c r :
  EDelete c r ∈ drop (length tr) (collect_garbage request ports tr).2 →
  gq_execute request = true ∧
  ∃ lock lease index inventory before after,
    (collect_garbage request ports tr).2
      = tr ++ [EAcquireLock lock (Ok lease); EReadReferences (gq_paths request) (Ok index);
               EInventory (gq_paths request) (Ok inventory)] ++ before ++ EDelete c r :: after
    ∧ dc_digest c ∈ oi_digests inventory
    ∧ ∀ ref, ref ∈ ri_references index → rf_digest ref ≠ dc_digest c.
Proof.
  intros Hin. unfold collect_garbage in *. unfold mbind, st_bind, pure, call in *.
  destruct (lock_request _) as [lock|e].
  2: { cbn in Hin. rewrite drop_all in Hin. by apply elem_of_nil in Hin. }
  destruct (gc_acquire_lock ports tr lock) as [lease|ds]; [|by no_delete Hin].
  set (tr1 := tr ++ [EAcquireLock lock (Ok lease)]) in *.
  destruct (gc_read_references ports tr1 _) as [index|ds]; [|by no_delete Hin].
  set (tr2 := tr1 ++ [EReadReferences (gq_paths request) (Ok index)]) in *.
  destruct (gc_inventory_objects ports tr2 _) as [inventory|ds]; [|by no_delete Hin].
  set (tr3 := tr2 ++ [EInventory (gq_paths request) (Ok inventory)]) in *.
  fold (garbage index inventory) in *.
  destruct (gc_plan _ _ _) as [plan|e]; [|by no_delete Hin].
  destruct (gq_execute request) eqn:Hx; cbn [negb] in *.
  2: { destruct (gc_outcome plan false []); by no_delete Hin. }
  split; [done|].
  destruct (delete_all_trace (gq_paths request) (gc_delete_object ports) (garbage index inventory) [] [] tr3)
    as (evs & Hd & Hf).
  destruct (delete_all _ _ _ _ _ tr3) as [[loop|e] tr4]; cbn [snd] in Hd; subst tr4.
  all: match goal with |- context [?X.2 = _] => set (outcome := X) in * end.
  all: assert (∃ rest, outcome.2 = tr3 ++ evs ++ rest ∧ EDelete c r ∉ rest) as (rest & E & Hrest)
    by (subst outcome; repeat case_match; unfold release_result, mret, st_ret, mbind, st_bind, call; cbn;
        first [by exists []; rewrite app_nil_r; split; [done|set_solver]
              |eexists; rewrite <-app_assoc; split; [done|set_solver]]).
  all: rewrite E in *; unfold tr3, tr2, tr1 in *; rewrite <-!app_assoc in *; rewrite drop_app_length in Hin.
  all: assert (EDelete c r ∈ evs) as Hev by set_solver.
  all: rewrite Forall_forall in Hf; destruct (Hf _ Hev) as (c' & r' & [= -> ->] & [Hi Hn]%elem_of_garbage).
  all: apply list_elem_of_split in Hev as (before & after & ->).
  all: exists lock, lease, index, inventory, before, (after ++ rest).
  all: split_and!; [|done|done]; by rewrite <-app_assoc.
Qed.

(** What the ports' types promise: values that satisfy their constructors. *)
Record gc_ports_ok (ports : StoreGcPorts) : Prop := {
  gk_references : ∀ tr paths index, gc_read_references ports tr paths = Ok index →
    Forall (λ r, valid_reference r = true) (ri_references index);
  gk_inventory : ∀ tr paths inventory, gc_inventory_objects ports tr paths = Ok inventory →
    NoDup (oi_digests inventory) ∧ Forall (λ d, valid_digest d = true) (oi_digests inventory);
  gk_delete : ∀ tr c ds, gc_delete_object ports tr c = Err ds → ds ≠ []
}.

(** The events of a held lease: neither acquiring nor releasing. *)
Definition holding (e : store_event) : Prop :=
  match e with EAcquireLock _ _ | EReleaseLock _ _ => False | _ => True end.

Lemma delete_all_run paths delete cands deleted ds tr :
  Forall (λ d, valid_digest d = true) cands → (∀ tr c ds, delete tr c = Err ds → ds ≠ []) →
  ∃ done' ds' evs, delete_all paths delete cands deleted ds tr = (Ret (deleted ++ done', ds'), tr ++ evs)
  ∧ Forall holding evs ∧ done' `sublist_of` cands ∧ (ds' = [] → ds = [] ∧ done' = cands).
Proof.
  intros Hv Hne. revert deleted ds tr. induction Hv as [|d cands Hd Hv IH]; intros deleted ds tr.
  - exists [], ds, []. rewrite !app_nil_r. by split_and!.
  - cbn [delete_all]. unfold mbind, st_bind, pure, call, object_delete_command. rewrite Hd.
    cbn [negb raise_if mbind py_bind]. set (c := MkDeleteCommand paths d).
    destruct (delete tr c) as [u|ds0] eqn:Hr.
    + destruct (IH (deleted ++ [d]) ds (tr ++ [EDelete c (Ok u)])) as (dn & ds' & evs & -> & Hh & Hs & He).
      exists (d :: dn), ds', (EDelete c (Ok u) :: evs). rewrite <-!app_assoc. split_and!; [done| | |].
      * by constructor.
      * by apply sublist_skip.
      * intros ->. destruct He as [-> ->]; done.
    + destruct (IH deleted (ds ++ ds0) (tr ++ [EDelete c (Err ds0)])) as (dn & ds' & evs & -> & Hh & Hs & He).
      exists dn, ds', (EDelete c (Err ds0) :: evs). rewrite <-!app_assoc. split_and!; [done| | |].
      * by constructor.
      * by apply sublist_cons.
      * intros ->. destruct He as [[_ ->]%app_nil _]; [done|]. by apply Hne in Hr.
Qed.

Section plans.
Context (index : ReferenceIndex) (inventory : ObjectInventory).
Hypothesis (references_valid : Forall (λ r, valid_reference r = true) (ri_references index)).
Hypothesis (inventory_unique : NoDup (oi_digests inventory)).
Hypothesis (inventory_valid : Forall (λ d, valid_digest d = true) (oi_digests inventory)).

Lemma garbage_valid : Forall (λ d, valid_digest d = true) (garbage index inventory).
Proof.
  rewrite Forall_forall in *. intros d [Hd _]%elem_of_garbage. auto.
Qed.
Lemma garbage_unique : NoDup (garbage index inventory).
Proof.
  unfold garbage. apply NoDup_ListNoDup. apply List.NoDup_filter. by apply NoDup_ListNoDup.
Qed.

Lemma count_sorted_set (l : list ObjectDigest) : NoDup l → count (sorted_set digest_str l) =? count l = true.
Proof.
  intros Hd. apply Z.eqb_eq. unfold count, sorted_set. by rewrite length_sorted, remove_dups_NoDup_id.
Qed.

Definition collection_plan : GcPlan :=
  MkGcPlan (referenced_digests index) (sorted_set digest_str (garbage index inventory))
    (sort_diagnostics (oi_diagnostics inventory)).

Lemma gc_plan_Ret :
  gc_plan (referenced_digests index) (garbage index inventory) (oi_diagnostics inventory)
  = Ret collection_plan.
Proof.
  unfold gc_plan, collection_plan.
  assert (sorted_set digest_str (referenced_digests index) = referenced_digests index) as ->
    by apply sorted_set_idemp.
  rewrite (count_sorted_set (garbage _ _) garbage_unique), Z.eqb_refl. cbn [negb orb].
  assert (existsb (λ d, mem d (sorted_set digest_str (garbage index inventory)))
            (referenced_digests index) = false) as ->.
  { apply not_true_iff_false. intros (d & Hd & Hm)%existsb_In. apply mem_true in Hm.
    apply elem_of_sorted_set, elem_of_garbage in Hm as [_ Hn].
    apply mem_true, mem_referenced in Hd as (r & Hr & E). by eapply Hn. }
  assert (existsb (λ d, negb (valid_digest d))
            (referenced_digests index ++ sorted_set digest_str (garbage index inventory)) = false) as ->; [|done].
  apply not_true_iff_false. intros (d & Hd & Hm)%existsb_In. apply negb_true_iff in Hm.
  apply elem_of_app in Hd as [Hd|Hd].
  - apply mem_true, mem_referenced in Hd as (r & Hr & <-). rewrite Forall_forall in references_valid.
    apply references_valid in Hr. unfold valid_reference in Hr. split_guard. congruence.
  - apply elem_of_sorted_set in Hd. pose proof garbage_valid as Hv. rewrite Forall_forall in Hv.
    apply Hv in Hd. congruence.
Qed.

Lemma gc_outcome_Ret executed deleted :
  deleted `sublist_of` garbage index inventory → (executed = false → deleted = []) →
  gc_outcome collection_plan executed deleted
  = Ret (MkGcOutcome collection_plan executed (sorted_set digest_str deleted)).
Proof.
  intros Hs Hx. unfold gc_outcome. rewrite count_sorted_set by (eapply sublist_NoDup; [exact garbage_unique|done] || (eapply sublist_NoDup; [done|exact garbage_unique])).
  assert (existsb (λ d, negb (mem d (gp_candidates collection_plan))) (sorted_set digest_str deleted) = false) as ->.
  { apply not_true_iff_false. intros (d & Hd & Hm)%existsb_In. apply negb_true_iff, mem_false in Hm. apply Hm.
    cbn. apply elem_of_sorted_set in Hd. apply elem_of_sorted_set. by eapply elem_of_sublist. }
  cbn [negb orb raise_if mbind py_bind]. destruct executed; [done|]. by rewrite Hx.
Qed.
End plans.

(** The lease is always given back: the last call of a run that acquired it. *)
Definition lease_returned {A} (result : Result A) (new : trace) : Prop :=
  (∃ lock ds, new = [EAcquireLock lock (Err ds)] ∧ result = Err ds)
  ∨ ∃ lock lease held released,
      new = EAcquireLock lock (Ok lease) :: held ++ [EReleaseLock lease released]
      ∧ Forall holding held.

Lemma lock_request_Ret paths : norm_abs (os_lock_directory paths) = true →
  ∃ lock, lock_request paths = Ret lock.
Proof. intros Hp. unfold lock_request, store_lock_request. rewrite Hp. eexists. reflexivity. Qed.

Lemma release_run {A} (outcome : Result A) lease release tr :
  ∃ released, release_result outcome lease release tr
  = (Ret (joined_result outcome released), tr ++ [EReleaseLock lease released]).
Proof. eexists. reflexivity. Qed.

Lemma locked_run {A} lock lease (held : trace) (m : st trace (Result A)) (tr : trace) :
  Forall holding held →
  (∃ outcome release, m = release_result outcome lease release) →
  ∃ result new, m (tr ++ EAcquireLock lock (Ok lease) :: held) = (Ret result, tr ++ new)
  ∧ lease_returned result new.
Proof.
  intros Hh (outcome & release & ->).
  destruct (release_run outcome lease release (tr ++ EAcquireLock lock (Ok lease) :: held)) as [released ->].
  eexists _, _. rewrite <-app_assoc. split; [reflexivity|]. right. by exists lock, lease, held, released.
Qed.

(** A collection always ends with a result, and a lease it acquired is
    released by its last call, whatever fails in between. *)
Theorem collect_garbage_releases request ports tr :
  gc_ports_ok ports → norm_abs (os_lock_directory (gq_paths request)) = true →
  ∃ result new, collect_garbage request ports tr = (Ret result, tr ++ new) ∧ lease_returned result new.
Proof.
  intros Hports (lock & Hlock)%lock_request_Ret.
  unfold collect_garbage. unfold mbind, st_bind, pure, call. rewrite Hlock.
  destruct (gc_acquire_lock ports tr lock) as [lease|ds] eqn:Ha.
  2: { eexists _, _. split; [reflexivity|]. left. by exists lock, ds. }
  set (tr1 := tr ++ [_]). destruct (gc_read_references ports tr1 _) as [index|ds] eqn:Hi.
  2: { unfold tr1. rewrite <-app_assoc. apply locked_run; [by repeat constructor|eauto]. }
  set (tr2 := tr1 ++ [_]). destruct (gc_inventory_objects ports tr2 _) as [inventory|ds] eqn:Hv.
  2: { unfold tr2, tr1. rewrite <-!app_assoc. apply locked_run; [by repeat constructor|eauto]. }
  set (tr3 := tr2 ++ [_]). fold (garbage index inventory).
  apply gk_references in Hi; [|done]. apply gk_inventory in Hv as [Hu Hv]; [|done].
  rewrite gc_plan_Ret by done. destruct (gq_execute request); cbn [negb].
  - destruct (delete_all_run (gq_paths request) (gc_delete_object ports) (garbage index inventory) [] [] tr3)
      as (dn & ds & evs & -> & Hh & Hs & He);
      [by apply garbage_valid|intros; by eapply gk_delete|]. cbn [fst snd app].
    unfold tr3, tr2, tr1. rewrite <-!app_assoc.
    destruct ds as [|d ds].
    + rewrite gc_outcome_Ret by (try done; naive_solver). cbn [fmap py_fmap].
      apply locked_run; [by repeat constructor|eauto].
    + apply locked_run; [by repeat constructor|eauto].
  - rewrite gc_outcome_Ret by (try done; apply sublist_nil_l).
    unfold tr3, tr2, tr1. rewrite <-!app_assoc. apply locked_run; [by repeat constructor|eauto].
Qed.

(** * Replacing references *)

(** A request whose constructor returned. *)
Definition valid_update (request : ReferenceUpdateRequest) : Prop :=
  valid_owner (uq_owner request) = true
  ∧ Forall (λ d, valid_digest d = true) (uq_digests request) ∧ NoDup (uq_digests request).
Definition requested (request : ReferenceUpdateRequest) : list ObjectReference :=
  map (MkReference (uq_kind request) (uq_owner request)) (uq_digests request).
Definition kept (request : ReferenceUpdateRequest) (current : ReferenceIndex) : list ObjectReference :=
  List.filter (retained_by request) (ri_references current).

Lemma replacement_references_Ret request current :
  valid_update request → replacement_references request current = Ret (kept request current ++ requested request).
Proof.
  intros (Ho & Hd & _). unfold replacement_references.
  rewrite (proj2 (mapM_Ret _ _ (requested request))); [done|].
  unfold requested. apply Forall2_fmap_r, Forall2_same_length_lookup_2; [done|]. intros i d d' Hi Hi'. simplify_eq.
  unfold object_reference, valid_reference. cbn [rf_owner rf_digest]. rewrite Ho.
  rewrite Forall_forall in Hd. by rewrite (Hd d) by by eapply list_elem_of_lookup_2.
Qed.

Lemma elem_of_kept request current r :
  r ∈ kept request current ↔
  r ∈ ri_references current ∧ (rf_kind r ≠ uq_kind request ∨ rf_owner r ≠ uq_owner request).
Proof.
  unfold kept, retained_by. rewrite list_elem_of_In, filter_In, <-list_elem_of_In, orb_true_iff, !negb_true_iff.
  by rewrite !bool_decide_eq_false.
Qed.

Lemma replaced_unique request current :
  valid_update request → NoDup (ri_references current) → NoDup (kept request current ++ requested request).
Proof.
  intros (_ & _ & Hu) Hd. apply NoDup_app. split_and!.
  - unfold kept. apply NoDup_ListNoDup, List.NoDup_filter. by apply NoDup_ListNoDup.
  - intros r [_ Hr]%elem_of_kept Hq. unfold requested in Hq. apply list_elem_of_fmap in Hq as (d & -> & _).
    cbn in Hr. naive_solver.
  - unfold requested. apply NoDup_fmap_2; [|done]. intros d d' [= ->]. done.
Qed.

(** Replacing an owner's references of one kind writes exactly the other
    references and the requested ones, under a lease it gives back; beyond
    100,000 references it raises instead, and the lease is never released. *)
Theorem replace_references_exact request ports tr lock lease current :
  lock_request (uq_paths request) = Ret lock → valid_update request →
  ru_acquire_lock ports tr lock = Ok lease →
  ru_read_references ports (tr ++ [EAcquireLock lock (Ok lease)]) (uq_paths request) = Ok current →
  NoDup (ri_references current) →
  let opened := [EAcquireLock lock (Ok lease); EReadReferences (uq_paths request) (Ok current)] in
  if count (kept request current) + count (uq_digests request) <=? MAX_REFERENCES
  then ∃ index written released,
    replace_references request ports tr
      = (Ret (joined_result written released),
         tr ++ opened ++ [EWriteReferences (MkWriteCommand (uq_paths request) index) written;
                          EReleaseLock lease released])
    ∧ NoDup (ri_references index)
    ∧ ∀ r, r ∈ ri_references index ↔
        (r ∈ ri_references current ∧ (rf_kind r ≠ uq_kind request ∨ rf_owner r ≠ uq_owner request))
        ∨ (rf_kind r = uq_kind request ∧ rf_owner r = uq_owner request ∧ rf_digest r ∈ uq_digests request)
  else replace_references request ports tr
       = (Raise (ValueError "object references must be unique"), tr ++ opened).
Proof.
  intros Hlock Hv Ha Hr Hd opened. unfold replace_references, mbind, st_bind, pure, call.
  rewrite Hlock, Ha, Hr, replacement_references_Ret by done.
  set (refs := kept request current ++ requested request).
  assert (count refs = count (kept request current) + count (uq_digests request)) as Hc.
  { unfold refs, count, requested. rewrite length_app, length_map. lia. }
  rewrite <-Hc. destruct (Z.leb_spec (count refs) MAX_REFERENCES) as [Hl|Hl].
  - rewrite (proj2 (reference_index_Ret refs (MkReferenceIndex (sorted reference_key refs))))
      by (split_and!; [done|done|by apply replaced_unique]).
    match goal with |- context [release_result ?o ?l ?f ?t] =>
      destruct (release_run o l f t) as [released ->] end.
    eexists _, _, released. rewrite <-!app_assoc. split; [reflexivity|]. cbn [ri_references]. split.
    + apply NoDup_sorted. by apply replaced_unique.
    + intros r. rewrite elem_of_sorted. unfold refs. rewrite elem_of_app, elem_of_kept.
      unfold requested. rewrite list_elem_of_fmap. apply or_iff_compat_l. split.
      * intros (d & -> & ?). done.
      * intros (<- & <- & ?). exists (rf_digest r). by destruct r.
  - unfold reference_index. rewrite (proj2 (Z.ltb_lt _ _)) by (unfold count in *; rewrite length_sorted; lia).
    cbn [Z.eqb Pos.eqb negb raise_if mbind py_bind orb]. by rewrite <-!app_assoc.
Qed.

(** * A concrete store *)

Definition sample_tree : list SnapshotEntry :=
  [MkSnapshotEntry (MkPath ["skills"; "lint"; "run.sh"]) SFILE "echo" true;
   MkSnapshotEntry (MkPath ["README.md"]) SFILE "" false].
Definition stored_tree : list SnapshotEntry :=
  [MkSnapshotEntry (MkPath ["README.md"]) SFILE "" false;
   MkSnapshotEntry (MkPath ["skills"]) SDIRECTORY "" false;
   MkSnapshotEntry (MkPath ["skills"; "lint"]) SDIRECTORY "" false;
   MkSnapshotEntry (MkPath ["skills"; "lint"; "run.sh"]) SFILE "echo" true].
Definition stored_bytes : bytes := canonical_object_bytes stored_tree.
Definition stored_candidate : ObjectCandidate :=
  MkObjectCandidate (sha256_bytes stored_bytes) stored_tree stored_bytes.

Lemma normalized_entries_safe_witness :
  @normalized_entries ascii_unicode sample_tree = Ret (Ok stored_tree)
  ∧ @safe_tree ascii_unicode stored_tree.
Proof.
  split; [by vm_compute|].
  apply (@normalized_entries_safe ascii_unicode sample_tree stored_tree). by vm_compute.
Defined.

Lemma object_candidate_roundtrip_witness :
  @parse_object_candidate ascii_unicode plain_decode_errors stored_bytes (Some (sha256_bytes stored_bytes))
  = Ret (Ok stored_candidate).
Proof.
  apply (@object_candidate_roundtrip ascii_unicode plain_decode_errors sample_tree None stored_candidate);
    [by vm_compute|by repeat constructor; vm_compute].
Defined.

Lemma parse_object_candidate_bound_witness :
  ob_digest stored_candidate = sha256_bytes stored_bytes ∧ @safe_tree ascii_unicode stored_tree.
Proof.
  destruct (@parse_object_candidate_bound ascii_unicode plain_decode_errors stored_bytes None stored_candidate)
    as (_ & Hd & _ & _ & Hs); [by vm_compute|by split].
Defined.

Definition used_digest : ObjectDigest := sha256_bytes "used".
Definition unused_digest : ObjectDigest := sha256_bytes "unused".
Definition sample_reference : ObjectReference := MkReference INSTALLED "project:/work" used_digest.
Definition sample_index : ReferenceIndex := MkReferenceIndex [sample_reference].
Definition sample_store : ObjectStorePaths :=
  ret_or (MkStorePaths "" "" "" "" "" "" "") (object_store_paths "/data").
Definition sample_lock : StoreLockRequest := MkLockRequest "/data/locks/store.lock" 30 300.
Definition sample_lease : StoreLockLease := MkLockLease "/data/locks/store.lock" "token".

(** One object is referenced and one is not; nothing fails. *)
Definition sample_gc_ports : StoreGcPorts := {|
  gc_acquire_lock _ _ := Ok sample_lease;
  gc_release_lock _ _ := Ok tt;
  gc_read_references _ _ := Ok sample_index;
  gc_inventory_objects _ _ := Ok (MkInventory [unused_digest; used_digest] []);
  gc_delete_object _ _ := Ok tt
|}.
Definition sample_gc : GcRequest := MkGcRequest sample_store true.

Lemma reference_index_roundtrip_witness :
  @parse_reference_index ascii_unicode plain_decode_errors (reference_index_bytes sample_index)
  = Ret (Ok sample_index).
Proof.
  apply (@reference_index_roundtrip ascii_unicode plain_decode_errors [sample_reference]); [by vm_compute|].
  constructor; [by vm_compute|constructor].
Defined.

Lemma collect_garbage_safe_witness :
  gq_execute sample_gc = true ∧ ∃ index, ∀ ref, ref ∈ ri_references index → rf_digest ref ≠ unused_digest.
Proof.
  destruct (collect_garbage_safe sample_gc sample_gc_ports [] (MkDeleteCommand sample_store unused_digest) (Ok tt))
    as (Hx & _ & _ & index & _ & _ & _ & _ & _ & Hn).
  - apply (list_elem_of_lookup_2 _ 3). by vm_compute.
  - split; [done|]. by exists index.
Defined.

Lemma collect_garbage_releases_witness :
  ∃ result new, collect_garbage sample_gc sample_gc_ports [] = (Ret result, [] ++ new)
  ∧ lease_returned result new.
Proof.
  apply (collect_garbage_releases sample_gc sample_gc_ports []); [|by vm_compute].
  split; [|intros _ _ inventory [= <-]|done].
  - intros _ _ index [= <-]. constructor; [by vm_compute|constructor].
  - split; [by_decision|]. constructor; [by vm_compute|]. constructor; [by vm_compute|constructor].
Defined.

Definition sample_update : ReferenceUpdateRequest :=
  MkUpdateRequest sample_store INSTALLED "project:/work" [unused_digest].
Definition sample_update_ports : ReferenceUpdatePorts := {|
  ru_acquire_lock _ _ := Ok sample_lease;
  ru_release_lock _ _ := Ok tt;
  ru_read_references _ _ := Ok sample_index;
  ru_write_references _ command := Ok (wc_index command)
|}.

Lemma replace_references_exact_witness :
  ∃ index written released,
    replace_references sample_update sample_update_ports []
      = (Ret (joined_result written released),
         [EAcquireLock sample_lock (Ok sample_lease); EReadReferences sample_store (Ok sample_index);
          EWriteReferences (MkWriteCommand sample_store index) written; EReleaseLock sample_lease released])
    ∧ MkReference INSTALLED "project:/work" unused_digest ∈ ri_references index
    ∧ sample_reference ∉ ri_references index.
Proof.
  opose proof* (replace_references_exact sample_update sample_update_ports [] sample_lock sample_lease sample_index)
    as Hr.
  - by vm_compute.
  - split_and!; [by vm_compute|by repeat constructor; vm_compute|by apply NoDup_singleton].
  - done.
  - done.
  - apply NoDup_singleton.
  - change (count _ + count _ <=? MAX_REFERENCES) with true in Hr. cbn iota in Hr.
    destruct Hr as (index & written & released & Hr & _ & Hin). exists index, written, released.
    split; [done|]. rewrite !Hin. split.
    + right. split; [reflexivity|]. split; [reflexivity|]. apply list_elem_of_here.
    + intros [[_ [Hk|Ho]]|(_ & _ & Hd)]; [exact (Hk eq_refl)|exact (Ho eq_refl)|].
      change (used_digest ∈ [unused_digest]) in Hd. apply list_elem_of_singleton in Hd. revert Hd. by apply (bool_decide_unpack (used_digest ≠ unused_digest)); vm_compute.
Defined.
