(* ===== verification/ConfigSchema.v ===== *)
(** [configuration/schema.py]: the strict parsers and the canonical writers of
    the user configuration and of the organization policy, schema version 1.

    Each [_field] of a document is parsed on its own and the results are tested
    in the order of the code, so the first failing test decides the
    diagnostics. *)
From S2P Require Import Prelude PyText TextSearch Posix Regex Domain Protocol Json CompilerModel Marketplace Configuration InstallState InstallSchema.
From Stdlib Require Import Ascii.
Open Scope Z_scope.

Definition CONFIG_INVALID := MkCode "config-invalid".
Definition POLICY_INVALID := MkCode "policy-invalid".

(** [_error] *)
Definition config_error {A} (code : DiagnosticCode) (message : string) : Result A :=
  fail1 (diagnostic code ERROR message None [] []).

(** [try: return Ok(value) except ValueError as error: return _error(...)] *)
Definition or_config_error {A} (code : DiagnosticCode) (m : py A) : py (Result A) :=
  match m with
  | Ret a => Ret (Ok a)
  | Raise (ValueError message) => Ret (config_error code message)
  | Raise e => Raise e
  end.

Section schema.
Context `{UnicodeData} `{IpAddress}.

(** * Fields *)

Definition document `{DecodeErrors} (data : bytes) (code : DiagnosticCode) :
    py (Result (list (string * JsonValue))) :=
  parsed ← parse_json data None MAX_DEPTH MAX_STRING;
  Ret match parsed with
      | Err ds => Err ds
      | Ok (JsonObject fields) => Ok fields
      | Ok _ => config_error code "configuration document must be a JSON object"
      end.

(** [_object] and [_validated]: the field names are literals that do not
    overlap, so [validate_object_fields] returns. *)
Definition config_object (value : JsonValue) (code : DiagnosticCode) (label : string) :
    Result (list (string * JsonValue)) :=
  match value with
  | JsonObject fields => Ok fields
  | _ => config_error code (label +:+ " must be an object")
  end.
Definition validated (fields : list (string * JsonValue)) (required optional : list string) :
    Result (list (string * JsonValue)) :=
  ret_or (Err []) (validate_object_fields fields required optional false None).

Definition config_string (value : JsonValue) (code : DiagnosticCode) (label : string) :
    Result string :=
  match value with
  | JStr s =>
      if str_empty s || negb (bool_decide (s = strip s))
      then config_error code (label +:+ " must be a non-empty string without outer whitespace")
      else if has_char newline s || has_char creturn s
      then config_error code (label +:+ " must be one line")
      else Ok s
  | _ => config_error code (label +:+ " must be a non-empty string without outer whitespace")
  end.
Definition config_boolean (value : JsonValue) (code : DiagnosticCode) (label : string) :
    Result bool :=
  match value with JBool b => Ok b | _ => config_error code (label +:+ " must be a boolean") end.
Definition config_integer (value : JsonValue) (code : DiagnosticCode) (label : string) : Result Z :=
  match value with JInt n => Ok n | _ => config_error code (label +:+ " must be an integer") end.

(** [_enum]: [member] finds the member with a value. *)
Definition config_enum {A} (value : JsonValue) (member : string → option A)
    (code : DiagnosticCode) (label : string) : Result A :=
  raw ← config_string value code label;
  match member raw with
  | Some a => Ok a
  | None => config_error code (label +:+ " has an unsupported value")
  end.
Definition member_of {A} (text : A → string) (members : list A) (raw : string) : option A :=
  List.find (λ m, String.eqb (text m) raw) members.
Definition source_kind_member := member_of source_kind_value [REGISTRY_GIT; SOURCE_GIT; SOURCE_LOCAL].
Definition sync_mode_member := member_of sync_mode_value [AUTO; MANUAL].
Definition reporting_mode_member := member_of reporting_mode_value [R_DISABLED; R_PROMPT; R_AUTOMATIC].

Definition config_alias (value : JsonValue) (code : DiagnosticCode) (label : string) :
    Result SourceAlias :=
  raw ← config_string value code label;
  if fullmatch slug_re raw then Ok (MkAlias raw)
  else config_error code (label +:+ " must be a lowercase slug").
Definition alias_array (value : JsonValue) (code : DiagnosticCode) (label : string) :
    Result (list SourceAlias) :=
  match value with
  | JsonArray items =>
      aliases ← mapM (λ item, config_alias item code (label +:+ " item")) items;
      if has_dups aliases then config_error code (label +:+ " must not contain duplicate aliases")
      else Ok (sorted alias_value aliases)
  | _ => config_error code (label +:+ " must be an array")
  end.

(** * Sources *)

(** [_safe_ref] *)
Definition FORBIDDEN_IN_REF : list string := [".."; "@{"; "\"; "~"; "^"; ":"; "?"; "*"; "["].
Definition safe_ref (raw : string) : bool :=
  negb (String.eqb raw "@")
  && negb (String.prefix "-" raw || String.prefix "/" raw)
  && negb (endswith "/" raw || endswith "." raw)
  && negb (contains "//" raw)
  && negb (existsb (λ part, String.prefix "." part || endswith ".lock" part) (split_on "/" raw))
  && negb (existsb (λ value, contains value raw) FORBIDDEN_IN_REF)
  && negb (existsb (λ c, is_space c || (ord c <? 32)%N) (code_points raw)).

(** The alias is a text here: [_alias] tests it like a document's. *)
Definition configured_source_from_input (alias : string) (kind : SourceKind) (location : string)
    (ref : option string) : Result ConfiguredSource :=
  parsed_alias ← config_alias (JStr alias) CONFIG_INVALID "source alias";
  if bool_decide (kind = SOURCE_LOCAL) then
    match ref with
    | Some _ => config_error CONFIG_INVALID "local sources do not have Git refs"
    | None =>
        path ← config_string (JStr location) CONFIG_INVALID "source path";
        if negb (isabs path) || negb (bool_decide (normpath path = path))
        then config_error CONFIG_INVALID "local source path must be normalized and absolute"
        else Ok (MkConfigured parsed_alias kind path None true)
    end
  else
    url ← config_string (JStr location) CONFIG_INVALID "source URL";
    ref ← config_string (JStr (default "main" ref)) CONFIG_INVALID "source ref";
    if bool_decide (git_location_parts url = None)
    then config_error CONFIG_INVALID "source URL must be a safe credential-free Git location"
    else if negb (safe_ref ref) then config_error CONFIG_INVALID "source ref is unsafe"
    else Ok (MkConfigured parsed_alias kind url (Some ref) true).

Definition validate_configured_source (s : ConfiguredSource) : Result ConfiguredSource :=
  if negb (bool_decide (cs_kind s = SOURCE_LOCAL)) && bool_decide (cs_ref s = None)
  then config_error CONFIG_INVALID "Git sources require a ref"
  else
    parsed ← configured_source_from_input (alias_value (cs_alias s)) (cs_kind s) (cs_location s)
               (cs_ref s);
    Ok (MkConfigured (cs_alias parsed) (cs_kind parsed) (cs_location parsed) (cs_ref parsed)
          (cs_enabled s)).

(** [_source] *)
Definition parse_configured_source (value : JsonValue) : Result ConfiguredSource :=
  base ← config_object value CONFIG_INVALID "source";
  kind ← config_enum (entry base "kind") source_kind_member CONFIG_INVALID "source kind";
  let local := bool_decide (kind = SOURCE_LOCAL) in
  fields ← validated base ["alias"; "kind"; if local then "path" else "url"; "enabled"]
             (if local then [] else ["ref"]);
  alias ← config_alias (entry fields "alias") CONFIG_INVALID "source alias";
  enabled ← config_boolean (entry fields "enabled") CONFIG_INVALID "source enabled";
  if local then
    location ← config_string (entry fields "path") CONFIG_INVALID "source path";
    validate_configured_source (MkConfigured alias kind location None enabled)
  else
    location ← config_string (entry fields "url") CONFIG_INVALID "source URL";
    ref ← config_string (default (JStr "main") (dget "ref" fields)) CONFIG_INVALID "source ref";
    validate_configured_source (MkConfigured alias kind location (Some ref) enabled).

Definition git_origin_ref (s : ConfiguredSource) : list string :=
  git_origin_key (cs_kind s) (cs_location s) ++ [or_empty (cs_ref s)].
(** [_sources] *)
Definition parse_sources (value : JsonValue) : Result (list ConfiguredSource) :=
  match value with
  | JsonArray items =>
      sources ← mapM parse_configured_source items;
      if has_dups (map cs_alias sources)
      then config_error CONFIG_INVALID "source aliases must be unique"
      else if has_dups (map git_origin_ref (List.filter is_git sources))
      then config_error CONFIG_INVALID "each Git source origin and ref pair must be unique"
      else Ok sources
  | _ => config_error CONFIG_INVALID "sources must be an array"
  end.

(** * The user configuration *)

(** [_sync] *)
Definition parse_sync (value : JsonValue) : Result SyncSettings :=
  fields ← config_object value CONFIG_INVALID "sync";
  fields ← validated fields [] ["mode"; "max_age_seconds"];
  mode ← config_enum (default (JStr "auto") (dget "mode" fields)) sync_mode_member
           CONFIG_INVALID "sync mode";
  age ← config_integer (default (JInt 900) (dget "max_age_seconds" fields)) CONFIG_INVALID
          "sync max age";
  ret_or (Err []) (or_config_error CONFIG_INVALID (sync_settings mode age)).

(** [_reporting] *)
Definition parse_reporting (value : JsonValue) : Result ReportingSettings :=
  fields ← config_object value CONFIG_INVALID "reporting";
  fields ← validated fields [] ["mode"; "destination"];
  mode ← config_enum (default (JStr "prompt") (dget "mode" fields)) reporting_mode_member
           CONFIG_INVALID "reporting mode";
  destination ← match dget "destination" fields with
                | Some v => Some <$> config_alias v CONFIG_INVALID "reporting destination"
                | None => Ok None
                end;
  ret_or (Err []) (or_config_error CONFIG_INVALID (reporting_settings mode destination)).

(** The alias names an enabled registry. *)
Definition names_registry (sources : list ConfiguredSource) (alias : SourceAlias) : bool :=
  existsb (λ s, bool_decide (cs_alias s = alias) && cs_enabled s && is_registry s) sources.

Definition parse_user_configuration `{DecodeErrors} (data : bytes) :
    py (Result UserConfiguration) :=
  parsed ← document data CONFIG_INVALID;
  match (fields ← parsed;
         fields ← validated fields ["schema_version"]
                    ["sources"; "default_registry"; "sync"; "reporting"];
         version ← config_integer (entry fields "schema_version") CONFIG_INVALID "schema_version";
         if negb (version =? 1)
         then config_error CONFIG_INVALID ("unsupported schema_version " +:+ str_Z version)
         else
           sources ← parse_sources (default (JsonArray []) (dget "sources" fields));
           sync ← parse_sync (default (JsonObject []) (dget "sync" fields));
           reporting ← parse_reporting (default (JsonObject []) (dget "reporting" fields));
           default_registry ← match dget "default_registry" fields with
                              | None | Some JNull => Ok None
                              | Some v => Some <$> config_alias v CONFIG_INVALID "default registry"
                              end;
           if match default_registry with
              | Some alias => negb (names_registry sources alias) | None => false end
           then config_error CONFIG_INVALID "default registry must name an enabled registry source"
           else if match rs_destination reporting with
                   | Some alias => negb (names_registry sources alias) | None => false end
           then config_error CONFIG_INVALID "reporting destination must name an enabled registry"
           else Ok (sources, default_registry, sync, reporting)) with
  | Err ds => Ret (Err ds)
  | Ok (sources, default_registry, sync, reporting) =>
      configuration ← user_configuration 1 sources default_registry sync reporting;
      Ret (Ok configuration)
  end.

(** [_source_json]: a Git source has a ref. *)
Definition configured_source_json (s : ConfiguredSource) : JsonValue :=
  json_object
    ([("alias", JStr (alias_value (cs_alias s))); ("enabled", JBool (cs_enabled s));
      ("kind", JStr (source_kind_value (cs_kind s)))]
     ++ (if bool_decide (cs_kind s = SOURCE_LOCAL) then [("path", JStr (cs_location s))]
         else [("ref", JStr (or_empty (cs_ref s))); ("url", JStr (cs_location s))])).
Definition opt_alias_entry (name : string) (a : option SourceAlias) : list (string * JsonValue) :=
  match a with Some a => [(name, JStr (alias_value a))] | None => [] end.
Definition user_configuration_json (c : UserConfiguration) : JsonValue :=
  json_object
    ([("reporting", json_object (("mode", JStr (reporting_mode_value (rs_mode (uc_reporting c))))
                                 :: opt_alias_entry "destination" (rs_destination (uc_reporting c))));
      ("schema_version", JInt 1);
      ("sources", JsonArray (map configured_source_json (uc_sources c)));
      ("sync", json_object [("max_age_seconds", JInt (sy_max_age_seconds (uc_sync c)));
                            ("mode", JStr (sync_mode_value (sy_mode (uc_sync c))))])]
     ++ opt_alias_entry "default_registry" (uc_default_registry c)).
Definition user_configuration_bytes (c : UserConfiguration) : bytes :=
  canonical_json_bytes (user_configuration_json c).

(** * The organization policy *)

(** [_optional_strings] *)
Definition optional_strings (fields : list (string * JsonValue)) (name : string)
    (validator : string → bool) : Result (option (list string)) :=
  match dget name fields with
  | None => Ok None
  | Some (JsonArray items) =>
      values ← mapM (λ item,
        raw ← config_string item POLICY_INVALID (name +:+ " item");
        let normalized := if String.eqb name "allowed_git_hosts" then casefold raw else raw in
        if validator normalized then Ok normalized
        else config_error POLICY_INVALID (name +:+ " contains an unsafe value")) items;
      Ok (Some (sorted_set id values))
  | Some _ => config_error POLICY_INVALID (name +:+ " must be an array")
  end.
Definition safe_prefix (raw : string) : bool :=
  let base := removesuffix "/" raw in
  endswith "/" raw && negb (String.prefix "/" raw) && bool_decide (normpath base = base)
  && forallb (λ part, negb (mem part [""; "."; ".."])) (split_on "/" base).

(** [_policy_reporting] *)
Definition parse_policy_reporting (value : JsonValue) : Result ReportingPolicy :=
  fields ← config_object value POLICY_INVALID "policy reporting";
  fields ← validated fields [] ["mode"; "destination"; "deny_public_destinations"];
  mode ← match dget "mode" fields with
         | Some v => Some <$> config_enum v reporting_mode_member POLICY_INVALID "policy reporting mode"
         | None => Ok None
         end;
  destination ← match dget "destination" fields with
                | Some v => Some <$> config_alias v POLICY_INVALID "policy reporting destination"
                | None => Ok None
                end;
  deny ← match dget "deny_public_destinations" fields with
         | Some v => config_boolean v POLICY_INVALID "deny_public_destinations"
         | None => Ok false
         end;
  Ok (MkReportingPolicy mode destination deny).

(** [_company_reviewed_source] *)
Definition parse_company_source (value : JsonValue) : Result CompanyReviewedSource :=
  fields ← config_object value POLICY_INVALID "company-reviewed source";
  fields ← validated fields ["source_id"; "git_host"; "repository"] [];
  source_id ← config_string (entry fields "source_id") POLICY_INVALID "company source ID";
  host ← config_string (entry fields "git_host") POLICY_INVALID "company Git host";
  repository ← config_string (entry fields "repository") POLICY_INVALID "company repository";
  ret_or (Err []) (or_config_error POLICY_INVALID
                     (company_reviewed_source (MkSourceId source_id) host repository)).
Definition parse_company_sources (value : JsonValue) : Result (list CompanyReviewedSource) :=
  match value with
  | JsonArray items =>
      sources ← mapM parse_company_source items;
      if has_dups sources
      then config_error POLICY_INVALID "company_reviewed_sources must not contain duplicates"
      else Ok (sorted_set company_key sources)
  | _ => config_error POLICY_INVALID "company_reviewed_sources must be an array"
  end.

Definition opt_boolean (fields : list (string * JsonValue)) (name : string) : Result (option bool) :=
  match dget name fields with
  | Some v => Some <$> config_boolean v POLICY_INVALID name
  | None => Ok None
  end.
Definition minimum_trust_field (fields : list (string * JsonValue)) : Result (option string) :=
  match dget "minimum_trust_for_user_scope" fields with
  | Some v =>
      raw ← config_string v POLICY_INVALID "minimum_trust_for_user_scope";
      if mem raw TRUST_CLASSES then Ok (Some raw)
      else config_error POLICY_INVALID "minimum trust value is unsupported"
  | None => Ok None
  end.
Definition capabilities_field (fields : list (string * JsonValue)) :
    Result (option (list Capability)) :=
  match dget "allowed_setup_capabilities" fields with
  | None => Ok None
  | Some (JsonArray items) =>
      capabilities ← mapM (λ item,
        raw ← config_string item POLICY_INVALID "allowed setup capability";
        parse_capability raw None) items;
      Ok (Some (sorted_set cap_value capabilities))
  | Some _ => config_error POLICY_INVALID "allowed_setup_capabilities must be an array"
  end.

Definition POLICY_FIELDS : list string :=
  ["recommended_sources"; "required_sources"; "allowed_git_hosts"; "allowed_repository_prefixes";
   "allow_direct_sources"; "minimum_trust_for_user_scope"; "allowed_setup_capabilities";
   "allow_custom_setup_entrypoints"; "company_reviewed_sources"; "reporting"].

Definition policy_fields (fields : list (string * JsonValue)) : Result OrganizationPolicy :=
  fields ← validated fields ["schema_version"] POLICY_FIELDS;
  version ← config_integer (entry fields "schema_version") POLICY_INVALID "schema_version";
  if negb (version =? 1)
  then config_error POLICY_INVALID ("unsupported schema_version " +:+ str_Z version)
  else
    recommended ← alias_array (default (JsonArray []) (dget "recommended_sources" fields))
                    POLICY_INVALID "recommended_sources";
    required ← alias_array (default (JsonArray []) (dget "required_sources" fields))
                 POLICY_INVALID "required_sources";
    hosts ← optional_strings fields "allowed_git_hosts" (fullmatch GIT_HOST_RE);
    prefixes ← optional_strings fields "allowed_repository_prefixes" safe_prefix;
    company ← parse_company_sources (default (JsonArray []) (dget "company_reviewed_sources" fields));
    allow_direct ← opt_boolean fields "allow_direct_sources";
    allow_custom ← opt_boolean fields "allow_custom_setup_entrypoints";
    minimum_trust ← minimum_trust_field fields;
    capabilities ← capabilities_field fields;
    reporting ← parse_policy_reporting (default (JsonObject []) (dget "reporting" fields));
    ret_or (Err []) (or_config_error POLICY_INVALID
      (organization_policy (MkPolicy 1 recommended required hosts prefixes allow_direct
         minimum_trust capabilities allow_custom reporting company))).
Definition parse_organization_policy `{DecodeErrors} (data : bytes) :
    py (Result OrganizationPolicy) :=
  parsed ← document data POLICY_INVALID;
  Ret (fields ← parsed; policy_fields fields).

Definition company_source_json (s : CompanyReviewedSource) : JsonValue :=
  json_object [("git_host", JStr (cr_git_host s)); ("repository", JStr (cr_repository s));
               ("source_id", JStr (source_id_value (cr_source_id s)))].
Definition opt_entry {A} (name : string) (json : A → JsonValue) (o : option A) :
    list (string * JsonValue) :=
  match o with Some a => [(name, json a)] | None => [] end.
Definition organization_policy_json (p : OrganizationPolicy) : JsonValue :=
  json_object
    ([("company_reviewed_sources",
       JsonArray (map company_source_json (op_company_reviewed_sources p)));
      ("recommended_sources", JsonArray (map (λ a, JStr (alias_value a)) (op_recommended_sources p)));
      ("required_sources", JsonArray (map (λ a, JStr (alias_value a)) (op_required_sources p)));
      ("schema_version", JInt 1)]
     ++ opt_entry "allowed_git_hosts" (λ l, JsonArray (map JStr l)) (op_allowed_git_hosts p)
     ++ opt_entry "allowed_repository_prefixes" (λ l, JsonArray (map JStr l))
          (op_allowed_repository_prefixes p)
     ++ opt_entry "allowed_setup_capabilities" (λ l, JsonArray (map (λ c, JStr (cap_value c)) l))
          (op_allowed_setup_capabilities p)
     ++ opt_entry "allow_direct_sources" JBool (op_allow_direct_sources p)
     ++ opt_entry "minimum_trust_for_user_scope" JStr (op_minimum_trust_for_user_scope p)
     ++ opt_entry "allow_custom_setup_entrypoints" JBool (op_allow_custom_setup_entrypoints p)
     ++ [("reporting",
          json_object
            (("deny_public_destinations", JBool (rp_deny_public_destinations (op_reporting p)))
             :: opt_entry "mode" (λ m, JStr (reporting_mode_value m)) (rp_mode (op_reporting p))
             ++ opt_alias_entry "destination" (rp_destination (op_reporting p))))]).
Definition organization_policy_bytes (p : OrganizationPolicy) : bytes :=
  canonical_json_bytes (organization_policy_json p).
End schema.
