(* ===== verification/ConfigPolicy.v ===== *)
(** [configuration/policy.py]: runtime overrides over the user configuration,
    the organization policy over both, and the checks of the result.

    The diagnostics' texts pass through [redact_text]. *)
From S2P Require Import Prelude PyText Regex Domain Redaction Marketplace Configuration.
Open Scope Z_scope.

Definition SOURCE_POLICY_DENIED := MkCode "source-policy-denied".
Definition POLICY_CONFIG_INVALID := MkCode "config-invalid".
Definition PUBLIC_GIT_HOSTS : list string := ["github.com"; "gitlab.com"; "bitbucket.org"].

Record RuntimeOverrides := MkOverrides {
  ro_default_registry : option SourceAlias;
  ro_sync_mode : option SyncMode;
  ro_max_age_seconds : option Z;
  ro_reporting_mode : option ReportingMode;
  ro_reporting_destination : option SourceAlias
}.
Definition no_overrides : RuntimeOverrides := MkOverrides None None None None None.

Record EffectiveConfiguration := MkEffective {
  ec_configuration : UserConfiguration;
  ec_policy : OrganizationPolicy;
  ec_locked_fields : list string
}.

Section policy.
Context `{UnicodeData} `{IpAddress}.

Definition denied (message : string) : Diagnostic :=
  diagnostic SOURCE_POLICY_DENIED ERROR (redact_text message) None [] [].
Definition invalid {A} (message : string) : Result A :=
  Err [diagnostic POLICY_CONFIG_INVALID ERROR (redact_text message) None [] []].

(** An override that differs from what the policy locks. *)
Definition overrides_lock {A} `{EqDecision A} (override lock : option A) : bool :=
  bool_decide (lock ≠ None) && bool_decide (override ≠ None) && negb (bool_decide (override = lock)).
Definition locked_override_diagnostics (overrides : RuntimeOverrides) (policy : OrganizationPolicy) :
    list Diagnostic :=
  (if overrides_lock (ro_reporting_mode overrides) (rp_mode (op_reporting policy))
   then [denied "runtime override of policy-locked reporting.mode is denied"] else [])
  ++ (if overrides_lock (ro_reporting_destination overrides) (rp_destination (op_reporting policy))
      then [denied "runtime override of policy-locked reporting.destination is denied"] else []).

(** The dictionary of the enabled sources, by alias. *)
Definition enabled_sources (c : UserConfiguration) : list (SourceAlias * ConfiguredSource) :=
  dict_of (map (λ s, (cs_alias s, s)) (List.filter cs_enabled (uc_sources c))).

Definition required_diagnostics (enabled : list (SourceAlias * ConfiguredSource))
    (policy : OrganizationPolicy) : list Diagnostic :=
  map (λ a, denied ("required source " +:+ alias_value a +:+ " is not configured and enabled"))
    (List.filter (λ a, negb (mem a (dkeys enabled))) (op_required_sources policy)).

(** One turn of the loop over the enabled sources. *)
Definition source_diagnostics (policy : OrganizationPolicy) (s : ConfiguredSource) :
    list Diagnostic :=
  let alias := alias_value (cs_alias s) in
  (if bool_decide (op_allow_direct_sources policy = Some false)
      && negb (bool_decide (cs_kind s = REGISTRY_GIT))
   then [denied ("direct source " +:+ alias +:+ " is denied by organization policy")] else [])
  ++ if negb (is_git s) then []
     else match git_location_parts (cs_location s) with
          | None => [denied ("source " +:+ alias +:+ " has an invalid Git location")]
          | Some (host, repository) =>
              (if match op_allowed_git_hosts policy with
                  | Some hosts => negb (mem host hosts) | None => false end
               then [denied ("Git host for source " +:+ alias +:+ " is not allowed")] else [])
              ++ (if match op_allowed_repository_prefixes policy with
                     | Some prefixes => negb (existsb (λ p, String.prefix p repository) prefixes)
                     | None => false end
                  then [denied ("repository path for source " +:+ alias +:+ " is not allowed")] else [])
          end.

Definition destination_diagnostics (enabled : list (SourceAlias * ConfiguredSource))
    (destination : option SourceAlias) (policy : OrganizationPolicy) : list Diagnostic :=
  match destination with
  | None => []
  | Some destination =>
      match dget destination enabled with
      | Some target =>
          if negb (is_registry target)
          then [denied "reporting destination must be an enabled registry source"]
          else if rp_deny_public_destinations (op_reporting policy)
                  && match git_location_parts (cs_location target) with
                     | Some (host, _) => mem host PUBLIC_GIT_HOSTS | None => false end
          then [denied "public reporting destinations are denied by policy"] else []
      | None => [denied "reporting destination must be an enabled registry source"]
      end
  end.

Definition policy_diagnostics (c : UserConfiguration) (policy : OrganizationPolicy)
    (allow_missing_required_sources : bool) : list Diagnostic :=
  let enabled := enabled_sources c in
  (if allow_missing_required_sources then [] else required_diagnostics enabled policy)
  ++ concat (map (source_diagnostics policy) (dvalues enabled))
  ++ destination_diagnostics enabled (rs_destination (uc_reporting c)) policy.

(** [a if a is not None else b] *)
Definition prefer {A} (a : option A) (b : A) : A := default b a.
Definition prefer_opt {A} (a b : option A) : option A := match a with Some _ => a | None => b end.

(** The values of the user, under the overrides, under the policy's locks; the
    constructors raise [ValueError]. *)
Definition merged_configuration (user : UserConfiguration) (overrides : RuntimeOverrides)
    (policy : OrganizationPolicy) : py UserConfiguration :=
  sync ← sync_settings (prefer (ro_sync_mode overrides) (sy_mode (uc_sync user)))
           (prefer (ro_max_age_seconds overrides) (sy_max_age_seconds (uc_sync user)));
  let lock := op_reporting policy in
  reporting ← reporting_settings
    (prefer (rp_mode lock) (prefer (ro_reporting_mode overrides) (rs_mode (uc_reporting user))))
    (prefer_opt (rp_destination lock)
       (prefer_opt (ro_reporting_destination overrides) (rs_destination (uc_reporting user))));
  user_configuration (uc_schema_version user) (uc_sources user)
    (prefer_opt (ro_default_registry overrides) (uc_default_registry user)) sync reporting.

Definition locked_fields (policy : OrganizationPolicy) : list string :=
  (if bool_decide (rp_destination (op_reporting policy) = None) then [] else ["reporting.destination"])
  ++ (if bool_decide (rp_mode (op_reporting policy) = None) then [] else ["reporting.mode"]).

Definition default_registry_ok (c : UserConfiguration) : bool :=
  match uc_default_registry c with
  | None => true
  | Some alias => match dget alias (enabled_sources c) with
                  | Some s => is_registry s | None => false end
  end.

(** [_apply_configuration] *)
Definition apply_configuration_with (user : UserConfiguration) (overrides : RuntimeOverrides)
    (policy : OrganizationPolicy) (allow_missing_required_sources : bool) :
    py (Result EffectiveConfiguration) :=
  match locked_override_diagnostics overrides policy with
  | [] =>
      match merged_configuration user overrides policy with
      | Raise (ValueError message) => Ret (invalid message)
      | Raise e => Raise e
      | Ret effective =>
          if negb (default_registry_ok effective)
          then Ret (invalid "effective default registry must name an enabled registry")
          else Ret match policy_diagnostics effective policy allow_missing_required_sources with
                   | [] => Ok (MkEffective effective policy (locked_fields policy))
                   | ds => Err ds
                   end
      end
  | ds => Ret (Err ds)
  end.
Definition apply_configuration (user : UserConfiguration) (overrides : RuntimeOverrides)
    (policy : OrganizationPolicy) : py (Result EffectiveConfiguration) :=
  apply_configuration_with user overrides policy false.
Definition apply_configuration_for_source_management (user : UserConfiguration)
    (policy : OrganizationPolicy) (overrides : option RuntimeOverrides) :
    py (Result EffectiveConfiguration) :=
  apply_configuration_with user (default no_overrides overrides) policy true.

(** * What an accepted configuration satisfies *)

(** A source the policy lets its users read. *)
Record allowed_source (policy : OrganizationPolicy) (s : ConfiguredSource) : Prop := {
  al_direct : op_allow_direct_sources policy = Some false → cs_kind s = REGISTRY_GIT;
  al_git : cs_kind s ≠ SOURCE_LOCAL → ∃ host repository,
    git_location_parts (cs_location s) = Some (host, repository)
    ∧ (∀ hosts, op_allowed_git_hosts policy = Some hosts → host ∈ hosts)
    ∧ ∀ prefixes, op_allowed_repository_prefixes policy = Some prefixes →
        ∃ p, p ∈ prefixes ∧ String.prefix p repository = true
}.
(** [alias] is an enabled registry of [c]. *)
Definition enabled_registry (c : UserConfiguration) (alias : SourceAlias) : Prop :=
  ∃ s, s ∈ uc_sources c ∧ cs_alias s = alias ∧ cs_enabled s = true ∧ cs_kind s = REGISTRY_GIT.
Definition locked {A} (lock : option A) (value : A) : Prop := ∀ a, lock = Some a → value = a.

Record governed (c : UserConfiguration) (policy : OrganizationPolicy) : Prop := {
  gv_sources : ∀ s, s ∈ uc_sources c → cs_enabled s = true → allowed_source policy s;
  gv_default : ∀ a, uc_default_registry c = Some a → enabled_registry c a;
  gv_destination : ∀ a, rs_destination (uc_reporting c) = Some a → enabled_registry c a;
  gv_public : ∀ a s, rs_destination (uc_reporting c) = Some a →
    rp_deny_public_destinations (op_reporting policy) = true →
    s ∈ uc_sources c → cs_alias s = a → cs_enabled s = true →
    ∀ host repository, git_location_parts (cs_location s) = Some (host, repository) →
    host ∉ PUBLIC_GIT_HOSTS;
  gv_mode : locked (rp_mode (op_reporting policy)) (rs_mode (uc_reporting c));
  gv_lock : ∀ a, rp_destination (op_reporting policy) = Some a →
    rs_destination (uc_reporting c) = Some a
}.
End policy.

(** Precedence and policy ([configuration/policy.py]): what applying a
    configuration accepts, and what an accepted one satisfies. *)


Section spec.
Context `{UnicodeData} `{IpAddress}.


(** * The enabled sources *)

Lemma enabled_get c a s :
  NoDup (map cs_alias (uc_sources c)) →
  dget a (enabled_sources c) = Some s ↔ s ∈ uc_sources c ∧ cs_alias s = a ∧ cs_enabled s = true.
Proof.
  intros Hd. unfold enabled_sources.
  assert (NoDup (map (λ s, (cs_alias s, s)) (List.filter cs_enabled (uc_sources c))).*1) as Hk.
  { rewrite <-list_fmap_compose. cbn. clear -Hd. induction (uc_sources c) as [|x l IH]; [constructor|].
    cbn in Hd |- *. apply NoDup_cons in Hd as [Hx Hd]. destruct (cs_enabled x); [|auto].
    cbn. apply NoDup_cons. split; [|auto]. intros (y & E & Hy)%list_elem_of_fmap. apply Hx.
    apply list_elem_of_fmap. exists y. split; [done|]. apply list_elem_of_In in Hy.
    apply filter_In in Hy as [Hy _]. by apply list_elem_of_In. }
  rewrite dict_of_fresh by done. split.
  - intros Hg%dget_elem_of. apply list_elem_of_fmap in Hg as (x & [= -> ->] & Hx).
    apply list_elem_of_In, filter_In in Hx as [Hx ?]. by rewrite list_elem_of_In.
  - intros (Hs & <- & He). apply elem_of_dget; [done|]. apply list_elem_of_fmap. exists s.
    split; [done|]. apply list_elem_of_In, filter_In. split; [by apply list_elem_of_In|done].
Qed.

Lemma enabled_values c s :
  NoDup (map cs_alias (uc_sources c)) →
  s ∈ dvalues (enabled_sources c) ↔ s ∈ uc_sources c ∧ cs_enabled s = true.
Proof.
  intros Hd. rewrite elem_of_dvalues. split.
  - intros [a Ha]. apply elem_of_dget in Ha; [|apply dict_of_NoDup_keys].
    by apply enabled_get in Ha as (? & _ & ?).
  - intros [Hs He]. exists (cs_alias s). apply dget_elem_of. by apply enabled_get.
Qed.

(** * The checks *)

Lemma overrides_lock_false {A} `{EqDecision A} (o l : option A) :
  overrides_lock o l = false ↔ ∀ a b, o = Some a → l = Some b → a = b.
Proof.
  unfold overrides_lock. destruct l as [b|]; [|by split].
  destruct o as [a|]; [|by split; [intros _ ? ? [=]|]].
  rewrite !bool_decide_true by done. cbn [andb]. rewrite negb_false_iff, bool_decide_eq_true.
  split; [by intros [= ->] ? ? [= <-] [= <-]|]. intros He. f_equal. by apply He.
Qed.

Lemma source_allowed policy s :
  source_diagnostics policy s = [] ↔ allowed_source policy s.
Proof.
  unfold source_diagnostics. rewrite app_nil_iff, if_some_nil, andb_false_iff, bool_decide_eq_false,
    negb_false_iff, bool_decide_eq_true. unfold is_git.
  assert (mem (cs_kind s) [REGISTRY_GIT; SOURCE_GIT] = negb (bool_decide (cs_kind s = SOURCE_LOCAL))) as ->
    by by destruct (cs_kind s).
  split.
  - intros [Hdirect Hgit]. split; [by destruct Hdirect|]. intros Hk. rewrite bool_decide_false in Hgit by done.
    cbn [negb] in Hgit. destruct (git_location_parts (cs_location s)) as [[host repository]|]; [|done].
    exists host, repository. rewrite app_nil_iff, !if_some_nil in Hgit. destruct Hgit as [Hh Hp].
    split; [done|]. split.
    + intros hosts E. rewrite E in Hh. by apply negb_false_iff, mem_true in Hh.
    + intros ps E. rewrite E in Hp. by apply negb_false_iff, existsb_In in Hp.
  - intros [Hdirect Hgit]. split; [destruct (decide (op_allow_direct_sources policy = Some false)); auto|].
    destruct (decide (cs_kind s = SOURCE_LOCAL)) as [->|Hk]; [done|].
    rewrite bool_decide_false by done. cbn [negb]. destruct (Hgit Hk) as (host & rep & -> & Hh & Hp).
    rewrite app_nil_iff, !if_some_nil. split.
    + destruct (op_allowed_git_hosts policy) as [hosts|]; [|done]. apply negb_false_iff, mem_true. auto.
    + destruct (op_allowed_repository_prefixes policy) as [ps|]; [|done].
      apply negb_false_iff, existsb_In. auto.
Qed.

Lemma enabled_registry_iff c a :
  NoDup (map cs_alias (uc_sources c)) →
  enabled_registry c a ↔ ∃ s, dget a (enabled_sources c) = Some s ∧ is_registry s = true.
Proof.
  intros Hd. unfold enabled_registry, is_registry. split.
  - intros (s & ? & ? & ? & ?). exists s. rewrite bool_decide_eq_true. split; [|done]. by apply enabled_get.
  - intros (s & (? & ? & ?)%enabled_get & ?%bool_decide_eq_true); [|done]. by exists s.
Qed.

Lemma default_registry_ok_iff c :
  NoDup (map cs_alias (uc_sources c)) →
  default_registry_ok c = true ↔ ∀ a, uc_default_registry c = Some a → enabled_registry c a.
Proof.
  intros Hd. unfold default_registry_ok. destruct (uc_default_registry c) as [a|]; [|by split].
  split.
  - intros Hr a' [= <-]. apply enabled_registry_iff; [done|]. destruct (dget a _) as [s|]; [by exists s|done].
  - intros Hr. destruct (proj1 (enabled_registry_iff c a Hd) (Hr a eq_refl)) as (s & -> & ?). done.
Qed.

Lemma destination_diagnostics_nil c d policy :
  NoDup (map cs_alias (uc_sources c)) →
  destination_diagnostics (enabled_sources c) d policy = [] ↔
  (∀ a, d = Some a → enabled_registry c a) ∧
  ∀ a s, d = Some a → rp_deny_public_destinations (op_reporting policy) = true →
    s ∈ uc_sources c → cs_alias s = a → cs_enabled s = true →
    ∀ host repository, git_location_parts (cs_location s) = Some (host, repository) →
    host ∉ PUBLIC_GIT_HOSTS.
Proof.
  intros Hd. unfold destination_diagnostics. destruct d as [a|]; [|by split; [|done]].
  setoid_rewrite enabled_registry_iff; [|done]. destruct (dget a (enabled_sources c)) as [t|] eqn:Hg.
  2:{ split; [done|]. intros [Hr _]. destruct (Hr a eq_refl) as (s & E & _). congruence. }
  destruct (is_registry t) eqn:Hr; cbn [negb].
  2:{ split; [done|]. intros [Hs _]. destruct (Hs a eq_refl) as (s & E & E'). congruence. }
  rewrite if_some_nil, andb_false_iff. apply enabled_get in Hg as Ht; [|done]. split.
  - intros Hp. split; [intros ? [= <-]; by exists t|]. intros ? s [= <-] Hdeny Hs Ha He host rep Hl.
    assert (s = t) as ->.
    { assert (dget a (enabled_sources c) = Some s) as E by by apply enabled_get. congruence. }
    destruct Hp as [?|Hp]; [congruence|]. rewrite Hl in Hp. by apply mem_false.
  - intros [_ Hp]. destruct (rp_deny_public_destinations _) eqn:Hdeny; [right|by left].
    destruct (git_location_parts (cs_location t)) as [[host rep]|] eqn:Hl; [|done]. apply mem_false.
    destruct Ht as (? & ? & ?). by eapply (Hp a t).
Qed.

(** * Precedence *)

Lemma merged_facts user overrides policy c :
  merged_configuration user overrides policy = Ret c →
  NoDup (map cs_alias (uc_sources c)) ∧ locked (rp_mode (op_reporting policy)) (rs_mode (uc_reporting c))
  ∧ ∀ a, rp_destination (op_reporting policy) = Some a → rs_destination (uc_reporting c) = Some a.
Proof.
  unfold merged_configuration, sync_settings, reporting_settings, user_configuration. intros Hm. inv_py. cbn.
  split_and!.
  - by apply has_dups_false.
  - intros a ->. done.
  - intros a ->. done.
Qed.

Lemma required_diagnostics_nil c policy :
  NoDup (map cs_alias (uc_sources c)) →
  required_diagnostics (enabled_sources c) policy = [] ↔
  ∀ a, a ∈ op_required_sources policy → ∃ s, s ∈ uc_sources c ∧ cs_alias s = a ∧ cs_enabled s = true.
Proof.
  intros Hd. unfold required_diagnostics. rewrite map_nil_iff, filter_nil_iff.
  setoid_rewrite negb_false_iff. setoid_rewrite mem_true. setoid_rewrite <-dget_is_Some. unfold is_Some.
  by setoid_rewrite enabled_get.
Qed.

Lemma policy_diagnostics_nil c policy allow_missing :
  NoDup (map cs_alias (uc_sources c)) →
  policy_diagnostics c policy allow_missing = [] ↔
  (allow_missing = false → required_diagnostics (enabled_sources c) policy = [])
  ∧ (∀ s, s ∈ uc_sources c → cs_enabled s = true → allowed_source policy s)
  ∧ destination_diagnostics (enabled_sources c) (rs_destination (uc_reporting c)) policy = [].
Proof.
  intros Hd. unfold policy_diagnostics. rewrite !app_nil_iff, concat_eq_nil, Forall_map, Forall_forall.
  setoid_rewrite <-source_allowed. setoid_rewrite enabled_values; [|done].
  destruct allow_missing; naive_solver.
Qed.

(** C34: a configuration is accepted exactly when no runtime override contradicts
    a field the policy locks, the merged values satisfy the constructors, and
    the result is governed by the policy: every enabled source is allowed, the
    default registry and the reporting destination are enabled registries, the
    locked fields have the policy's values and, unless sources are being
    managed, every required source is enabled.  The accepted configuration is
    the merged one. *)
Theorem apply_configuration_exact user overrides policy allow_missing e :
  apply_configuration_with user overrides policy allow_missing = Ret (Ok e) ↔
  (∀ a b, ro_reporting_mode overrides = Some a → rp_mode (op_reporting policy) = Some b → a = b)
  ∧ (∀ a b, ro_reporting_destination overrides = Some a →
       rp_destination (op_reporting policy) = Some b → a = b)
  ∧ merged_configuration user overrides policy = Ret (ec_configuration e)
  ∧ governed (ec_configuration e) policy
  ∧ (allow_missing = false → ∀ a, a ∈ op_required_sources policy →
       ∃ s, s ∈ uc_sources (ec_configuration e) ∧ cs_alias s = a ∧ cs_enabled s = true)
  ∧ e = MkEffective (ec_configuration e) policy (locked_fields policy).
Proof.
  unfold apply_configuration_with. rewrite <-!overrides_lock_false.
  assert (locked_override_diagnostics overrides policy = [] ↔
    overrides_lock (ro_reporting_mode overrides) (rp_mode (op_reporting policy)) = false ∧
    overrides_lock (ro_reporting_destination overrides) (rp_destination (op_reporting policy)) = false) as Hl.
  { unfold locked_override_diagnostics. by rewrite app_nil_iff, !if_some_nil. }
  destruct (locked_override_diagnostics overrides policy) as [|d ds].
  2:{ split; [done|]. intros (? & ? & _). by assert (d :: ds = []) by tauto. }
  destruct (proj1 Hl eq_refl) as [-> ->].
  destruct (merged_configuration user overrides policy) as [c|x] eqn:Hm.
  2:{ split; [by destruct x|naive_solver]. }
  destruct (merged_facts _ _ _ _ Hm) as (Hd & Hmode & Hdest).
  pose proof (default_registry_ok_iff c Hd) as Hr.
  pose proof (policy_diagnostics_nil c policy allow_missing Hd) as Hp.
  rewrite (required_diagnostics_nil c policy Hd), (destination_diagnostics_nil c _ policy Hd) in Hp.
  destruct (default_registry_ok c) eqn:Hok; cbn [negb].
  2:{ split; [done|]. intros (_ & _ & [= E] & Hg & _). rewrite <-E in Hg.
      by assert (false = true) by apply Hr, Hg. }
  destruct (policy_diagnostics c policy allow_missing) as [|d' ds'] eqn:Hpd.
  - destruct (proj1 Hp eq_refl) as (Hreq & Hsrc & Hdst & Hpub). split.
    + intros [= <-]. cbn. split_and!; try done. split; try done. by apply Hr.
    + intros (_ & _ & [= E] & _ & _ & ->). by rewrite <-E.
  - split; [done|]. intros (_ & _ & [= E] & Hg & Hreq & _). rewrite <-E in *.
    enough (d' :: ds' = []) by done. apply Hp. destruct Hg. done.
Qed.
End spec.

(** * A concrete configuration *)

Definition sample_registry : ConfiguredSource :=
  MkConfigured (MkAlias "acme") REGISTRY_GIT "https://github.com/acme/tools" (Some "main") true.
Definition sample_configuration : UserConfiguration :=
  MkConfiguration 1 [sample_registry] (Some (MkAlias "acme")) (MkSync AUTO 900) (MkReporting R_PROMPT None).
Definition sample_policy : OrganizationPolicy :=
  MkPolicy 1 [] [MkAlias "acme"] (Some ["github.com"]) (Some ["acme/"]) (Some false) None None None
    (MkReportingPolicy None None false) [].

(** A host outside the policy is refused, and the allowed one is accepted. *)
Example sample_accepted :
  @apply_configuration ascii_unicode no_ipv6 sample_configuration no_overrides sample_policy
  = Ret (Ok (MkEffective sample_configuration sample_policy [])).
Proof. by vm_compute. Qed.
