(* ===== verification/Installation.v ===== *)
(** The values of a reviewed installation ([installation/model.py]): what was
    observed at a path, the operations of a plan, the plan itself bound to the
    digest a person reviewed, and its outcome.

    A [Literal] whose values select a constructor is an inductive type; one
    that is only compared stays a string.  A link target is a text without
    surrogates, so that it encodes as itself. *)
From S2P Require Import Prelude PyText TextSearch Posix Regex Domain SemVer Json Protocol CompilerModel Marketplace Configuration InstallState InstallSchema StoreModel.
From Stdlib Require Import Ascii.
Open Scope Z_scope.

(** * Requests *)

Section values.
Context `{UnicodeData} `{IpAddress}.

(** [_absolute] *)
Definition absolute_ok (path : string) : bool :=
  norm_abs path && negb (bool_decide (path = "/")) && negb (has_char "000" path)
  && negb (has_char creturn path) && negb (has_char newline path).
Definition require_absolute (path label : string) : py string :=
  raise_if (negb (absolute_ok path)) (label +:+ " must be a normalized non-root absolute path") ;; Ret path.

(** [_safe_relative] *)
Definition require_safe_relative (path label : string) : py string :=
  match parse_relative_path path None with
  | Err _ => Raise (ValueError (label +:+ " must be a safe relative path"))
  | Ok parsed =>
      raise_if (negb (bool_decide (path_str parsed = path)))
        (label +:+ " must be a canonical relative path") ;;
      Ret path
  end.

Record InstallLocation := MkInstallLocation {
  il_project_root : string; il_user_home : string; il_data_root : string
}.
Definition install_location (l : InstallLocation) : py InstallLocation :=
  require_absolute (il_project_root l) "project root" ;;
  require_absolute (il_user_home l) "user home" ;;
  require_absolute (il_data_root l) "data root" ;;
  Ret l.

Record InstallRequest := MkInstallRequest {
  iq_identity : ArtifactIdentity;
  iq_source : option SourceAlias;
  iq_version : option string;
  iq_profile : string;
  iq_profile_version : Z;
  iq_platform : string;
  iq_scope : string;
  iq_mode : string;
  iq_force : bool;
  iq_offline : bool;
  iq_memory_mode : string;
  iq_mutable_local_payload_root : option string
}.
#[global] Instance install_request_eq_dec : EqDecision InstallRequest.
Proof using. solve_decision. Defined.

Definition install_request (r : InstallRequest) : py InstallRequest :=
  raise_if (negb (mem (id_kind (iq_identity r)) ARTIFACT_KINDS)
            || negb (fullmatch slug_re (id_name (iq_identity r)))
            || match iq_source r with
               | Some source => negb (fullmatch slug_re (alias_value source)) | None => false end
            || match iq_version r with
               | Some version => is_err (parse_semver version None) | None => false end
            || negb (fullmatch slug_re (iq_profile r))
            || negb ((1 <=? iq_profile_version r) && (iq_profile_version r <=? 2 ^ 63 - 1))
            || str_empty (iq_platform r) || has_char newline (iq_platform r)
            || negb (mem (iq_scope r) ["project"; "user"])
            || negb (mem (iq_mode r) ["copy"; "symlink"])
            || negb (mem (iq_memory_mode r) ["replace"; "prepend"; "append"; "skip"])
            || match iq_mutable_local_payload_root r with
               | Some root => negb (bool_decide (iq_mode r = "symlink")) || negb (absolute_ok root)
               | None => false
               end)
    "canonical install request is invalid" ;;
  Ret r.

Record InstallProvenance := MkInstallProvenance {
  iv_origin_url : string; iv_resolved_commit : string; iv_path : SafeRelativePath
}.
#[global] Instance install_provenance_eq_dec : EqDecision InstallProvenance.
Proof using. solve_decision. Defined.
(** [parse_relative_path(str(path))] gives the path back. *)
Definition require_path (path : SafeRelativePath) (invalid not_canonical : string) : py unit :=
  match parse_relative_path (path_str path) None with
  | Err _ => Raise (ValueError invalid)
  | Ok parsed => raise_if (negb (bool_decide (parsed = path))) not_canonical
  end.
Definition install_provenance (p : InstallProvenance) : py InstallProvenance :=
  let origin_url := iv_origin_url p in
  raise_if (negb (one_line origin_url) || contains "://" origin_url || has_char "@" origin_url
            || negb (has_char "/" origin_url) || negb (fullmatch COMMIT_RE (iv_resolved_commit p)))
    "install provenance is invalid" ;;
  require_path (iv_path p) "install provenance path is invalid"
    "install provenance path is not canonical" ;;
  Ret p.

(** * Observed paths *)

Record TreeMember := MkTreeMember {
  tm_path : SafeRelativePath;
  tm_kind : EntryKind;
  tm_content : bytes;
  tm_executable : bool
}.
#[global] Instance entry_kind_eq_dec : EqDecision EntryKind.
Proof using. solve_decision. Defined.
#[global] Instance tree_member_eq_dec : EqDecision TreeMember.
Proof using. solve_decision. Defined.
Definition tree_member (m : TreeMember) : py TreeMember :=
  require_path (tm_path m) "tree member path is invalid" "tree member path is not canonical" ;;
  raise_if (bool_decide (tm_kind m = DIRECTORY) && (negb (str_empty (tm_content m)) || tm_executable m))
    "tree directory cannot contain file metadata" ;;
  Ret m.
Definition member_path (m : TreeMember) : string := path_str (tm_path m).

Definition tree_members_digest (members : list TreeMember) : py ObjectDigest :=
  digest ← tree_digest
    (map (λ m, match tm_kind m with
               | DIRECTORY => directory_entry (tm_path m)
               | FILE => file_entry (tm_path m) (tm_content m) (tm_executable m)
               end) members);
  match digest with
  | Ok digest => Ret digest
  | Err _ => Raise (ValueError "tree members cannot be hashed")
  end.

Definition file_snapshot_digest (content : bytes) (executable : bool) : ObjectDigest :=
  sha256_bytes ("file" +:+ String "000" (if executable then "x" else "-")
                +:+ to_bytes8 (Z.of_nat (String.length content)) +:+ content).

Definition link_snapshot_digest (target : string) : py ObjectDigest :=
  raise_if (str_empty target || has_char "000" target || has_char creturn target
            || has_char newline target) "link target must be one non-empty path" ;;
  Ret (sha256_bytes ("symlink" +:+ String "000" target)).

Inductive SnapshotKind : Type := PABSENT | PFILE | PTREE | PSYMLINK | PSPECIAL.
#[global] Instance snapshot_kind_eq_dec' : EqDecision SnapshotKind.
Proof using. solve_decision. Defined.
Definition path_kind_value (k : SnapshotKind) : string :=
  match k with
  | PABSENT => "absent" | PFILE => "file" | PTREE => "tree" | PSYMLINK => "symlink"
  | PSPECIAL => "special"
  end.

Record PathSnapshot := MkPathSnapshot {
  ps_path : string;
  ps_kind : SnapshotKind;
  ps_digest : option ObjectDigest;
  ps_content : bytes;
  ps_executable : bool;
  ps_members : list TreeMember;
  ps_link_target : option string;
  ps_target_exists : option bool
}.
#[global] Instance path_snapshot_eq_dec : EqDecision PathSnapshot.
Proof using. solve_decision. Defined.

(** The conjunctions of [PathSnapshot.__post_init__]; the digest functions may
    raise where they are reached. *)
Definition snapshot_valid (s : PathSnapshot) : py bool :=
  let no_link := bool_decide (ps_link_target s = None) && bool_decide (ps_target_exists s = None) in
  let no_file := str_empty (ps_content s) && negb (ps_executable s) in
  let no_members := bool_decide (ps_members s = []) in
  match ps_kind s with
  | PABSENT => Ret (bool_decide (ps_digest s = None) && no_file && no_members && no_link)
  | PFILE =>
      Ret (bool_decide (ps_digest s = Some (file_snapshot_digest (ps_content s) (ps_executable s)))
           && no_members && no_link)
  | PTREE =>
      let ordered := sorted member_path (ps_members s) in
      if negb no_members && bool_decide (ordered = ps_members s) then
        digest ← tree_members_digest ordered;
        Ret (bool_decide (ps_digest s = Some digest) && no_file && no_link)
      else Ret false
  | PSYMLINK =>
      match ps_link_target s with
      | None => Ret false
      | Some target =>
          digest ← link_snapshot_digest target;
          Ret (bool_decide (ps_digest s = Some digest) && negb (bool_decide (ps_target_exists s = None))
               && no_file && no_members)
      end
  | PSPECIAL =>
      Ret (match ps_digest s with Some d => valid_digest d | None => false end
           && no_file && no_members && no_link)
  end.
Definition path_snapshot (s : PathSnapshot) : py PathSnapshot :=
  require_absolute (ps_path s) "snapshot path" ;;
  valid ← snapshot_valid s;
  raise_if (negb valid) "path snapshot does not bind its exact observed state" ;;
  Ret s.

(** The class methods [absent], [file], [tree] and [symlink]. *)
Definition snapshot_absent (path : string) : py PathSnapshot :=
  path_snapshot (MkPathSnapshot path PABSENT None "" false [] None None).
Definition snapshot_file (path : string) (content : bytes) (executable : bool) : py PathSnapshot :=
  path_snapshot (MkPathSnapshot path PFILE (Some (file_snapshot_digest content executable))
                   content executable [] None None).
Definition snapshot_tree (path : string) (members : list TreeMember) : py PathSnapshot :=
  let ordered := sorted member_path members in
  digest ← tree_members_digest ordered;
  path_snapshot (MkPathSnapshot path PTREE (Some digest) "" false ordered None None).
Definition snapshot_symlink (path target : string) (target_exists : bool) : py PathSnapshot :=
  digest ← link_snapshot_digest target;
  path_snapshot (MkPathSnapshot path PSYMLINK (Some digest) "" false [] (Some target)
                   (Some target_exists)).
Definition snapshot_special (path : string) (mode : Z) : py PathSnapshot :=
  path_snapshot (MkPathSnapshot path PSPECIAL
                   (Some (sha256_bytes ("special" +:+ String "000" (str_Z mode)))) "" false [] None None).

(** * Operations *)

Record CopyTreeOperation := MkCopyTree {
  ct_source_path : string;
  ct_destination : string;
  ct_absolute_destination : string;
  ct_members : list TreeMember;
  ct_desired_digest : ObjectDigest;
  ct_precondition : PathSnapshot;
  ct_overwrote : bool
}.
#[global] Instance copy_tree_eq_dec : EqDecision CopyTreeOperation.
Proof using. solve_decision. Defined.
Definition copy_tree_operation (o : CopyTreeOperation) : py CopyTreeOperation :=
  require_safe_relative (ct_source_path o) "copy source path" ;;
  require_absolute (ct_absolute_destination o) "copy destination" ;;
  invalid ← (if negb (bool_decide (ps_path (ct_precondition o) = ct_absolute_destination o))
                || bool_decide (ct_members o = [])
                || negb (bool_decide (sorted member_path (ct_members o) = ct_members o))
             then Ret true
             else digest ← tree_members_digest (ct_members o);
                  Ret (negb (bool_decide (digest = ct_desired_digest o))));
  raise_if invalid "copy-tree operation is not exactly bound" ;;
  Ret o.

Record WriteFileOperation := MkWriteFile {
  wo_source_path : string;
  wo_destination : string;
  wo_absolute_destination : string;
  wo_content : bytes;
  wo_executable : bool;
  wo_desired_digest : ObjectDigest;
  wo_precondition : PathSnapshot;
  wo_effect_kind : string;
  wo_overwrote : bool;
  wo_restores_from : option string
}.
#[global] Instance write_file_eq_dec : EqDecision WriteFileOperation.
Proof using. solve_decision. Defined.
Definition write_file_operation (o : WriteFileOperation) : py WriteFileOperation :=
  require_safe_relative (wo_source_path o) "file source path" ;;
  require_absolute (wo_absolute_destination o) "file destination" ;;
  raise_if (negb (bool_decide (ps_path (wo_precondition o) = wo_absolute_destination o))
            || negb (bool_decide (wo_desired_digest o
                                  = file_snapshot_digest (wo_content o) (wo_executable o)))
            || negb (mem (wo_effect_kind o) ["write-file"; "managed-block"])
            || bool_decide (wo_restores_from o = Some (wo_destination o)))
    "write-file operation is not exactly bound" ;;
  Ret o.

Inductive TargetKind : Type := TARGET_FILE | TARGET_TREE.
#[global] Instance target_kind_eq_dec : EqDecision TargetKind.
Proof using. solve_decision. Defined.
Definition target_kind_value (k : TargetKind) : string :=
  match k with TARGET_FILE => "file" | TARGET_TREE => "tree" end.
Record LinkOperation := MkLink {
  lk_source_path : string;
  lk_destination : string;
  lk_absolute_destination : string;
  lk_target : string;
  lk_target_kind : TargetKind;
  lk_semantics : string;
  lk_target_content_digest : ObjectDigest;
  lk_desired_digest : ObjectDigest;
  lk_target_precondition : PathSnapshot;
  lk_precondition : PathSnapshot;
  lk_overwrote : bool
}.
#[global] Instance link_operation_eq_dec : EqDecision LinkOperation.
Proof using. solve_decision. Defined.
Definition link_operation (o : LinkOperation) : py LinkOperation :=
  require_safe_relative (lk_source_path o) "link source path" ;;
  require_absolute (lk_absolute_destination o) "link destination" ;;
  require_absolute (lk_target o) "link target" ;;
  let target := lk_target_precondition o in
  invalid ← (if negb (bool_decide (ps_path (lk_precondition o) = lk_absolute_destination o))
                || negb (bool_decide (ps_path target = lk_target o))
                || negb (bool_decide (path_kind_value (ps_kind target)
                                      = target_kind_value (lk_target_kind o)))
                || negb (bool_decide (ps_digest target = Some (lk_target_content_digest o)))
                || negb (mem (lk_semantics o) ["immutable-object"; "mutable-local"])
                || negb (valid_digest (lk_target_content_digest o))
             then Ret true
             else digest ← link_snapshot_digest (lk_target o);
                  Ret (negb (bool_decide (lk_desired_digest o = digest))));
  raise_if invalid "link operation is not exactly bound" ;;
  Ret o.

Record MergeJsonOperation := MkMergeJson {
  mj_destination : string;
  mj_absolute_destination : string;
  mj_json_path : string;
  mj_merge_mode : string;
  mj_identity : list string;
  mj_identity_evidence : JsonValue;
  mj_value_digest : ObjectDigest;
  mj_identity_digest : ObjectDigest;
  mj_content : bytes;
  mj_desired_digest : ObjectDigest;
  mj_precondition : PathSnapshot;
  mj_overwrote : bool
}.
#[global] Instance merge_json_eq_dec : EqDecision MergeJsonOperation.
Proof using. solve_decision. Defined.
Definition merge_json_operation (o : MergeJsonOperation) : py MergeJsonOperation :=
  require_absolute (mj_absolute_destination o) "merge destination" ;;
  raise_if (negb (bool_decide (ps_path (mj_precondition o) = mj_absolute_destination o))
            || str_empty (mj_json_path o)
            || negb (mem (mj_merge_mode o) ["key"; "list"])
            || bool_decide (mj_identity o = [])
            || existsb (λ item, str_empty item || has_char newline item) (mj_identity o)
            || negb (bool_decide (mj_desired_digest o = file_snapshot_digest (mj_content o) false))
            || negb (bool_decide (mj_identity_digest o = json_digest (mj_identity_evidence o))))
    "merge-json operation is not exactly bound" ;;
  Ret o.

Inductive InstallOperation : Type :=
  | CopyTree (o : CopyTreeOperation)
  | WriteFile (o : WriteFileOperation)
  | Link (o : LinkOperation)
  | MergeJson (o : MergeJsonOperation).
#[global] Instance install_operation_eq_dec : EqDecision InstallOperation.
Proof using. solve_decision. Defined.

(** The attributes every operation has. *)
Definition op_destination (o : InstallOperation) : string :=
  match o with
  | CopyTree o => ct_destination o | WriteFile o => wo_destination o
  | Link o => lk_destination o | MergeJson o => mj_destination o
  end.
Definition op_absolute_destination (o : InstallOperation) : string :=
  match o with
  | CopyTree o => ct_absolute_destination o | WriteFile o => wo_absolute_destination o
  | Link o => lk_absolute_destination o | MergeJson o => mj_absolute_destination o
  end.
Definition op_desired_digest (o : InstallOperation) : ObjectDigest :=
  match o with
  | CopyTree o => ct_desired_digest o | WriteFile o => wo_desired_digest o
  | Link o => lk_desired_digest o | MergeJson o => mj_desired_digest o
  end.
Definition op_precondition (o : InstallOperation) : PathSnapshot :=
  match o with
  | CopyTree o => ct_precondition o | WriteFile o => wo_precondition o
  | Link o => lk_precondition o | MergeJson o => mj_precondition o
  end.
Definition op_overwrote (o : InstallOperation) : bool :=
  match o with
  | CopyTree o => ct_overwrote o | WriteFile o => wo_overwrote o
  | Link o => lk_overwrote o | MergeJson o => mj_overwrote o
  end.

Definition operation_is_current (o : InstallOperation) : bool :=
  let observed := op_precondition o in
  match o with
  | Link l =>
      bool_decide (ps_kind observed = PSYMLINK)
      && bool_decide (ps_digest observed = Some (lk_desired_digest l))
      && bool_decide (ps_link_target observed = Some (lk_target l))
      && bool_decide (ps_target_exists observed = Some true)
  | _ => bool_decide (ps_digest observed = Some (op_desired_digest o))
  end.

(** [installation/io.py]'s [_kind] *)
Definition operation_kind (o : InstallOperation) : string :=
  match o with
  | CopyTree _ => "copy-tree"
  | WriteFile o => wo_effect_kind o
  | Link o => match lk_target_kind o with TARGET_TREE => "symlink-tree" | TARGET_FILE => "symlink-file" end
  | MergeJson _ => "merge-json"
  end.
End values.
