(* ===== verification/InstallPlan.v ===== *)
(** The reviewed plan ([installation/model.py], continued): the text whose
    digest a person consents to, the constructor that binds every part of the
    plan to it, the status of a managed link, and outcomes. *)
From S2P Require Import Prelude PyText TextSearch Posix Regex Domain SemVer Json Protocol CompilerModel Marketplace Configuration InstallState InstallSchema StoreModel Installation.
From Stdlib Require Import Ascii.
Open Scope Z_scope.

Section plan.
Context `{UnicodeData} `{IpAddress}.

Record InstallPlan := MkInstallPlan {
  ip_request : InstallRequest;
  ip_coordinate : ArtifactCoordinate;
  ip_source : SourceEvidence;
  ip_source_health : string;
  ip_source_age_seconds : Z;
  ip_source_snapshot_digest : ObjectDigest;
  ip_artifact : ArtifactEvidence;
  ip_trust : string;
  ip_trust_evidence_digest : ObjectDigest;
  ip_policy_digest : ObjectDigest;
  ip_object_store_paths : ObjectStorePaths;
  ip_object_candidate : ObjectCandidate;
  ip_object_root : string;
  ip_object_digest : ObjectDigest;
  ip_provenance : option InstallProvenance;
  ip_operations : list InstallOperation;
  ip_state_path : string;
  ip_state_lock_path : string;
  ip_state_precondition : PathSnapshot;
  ip_replacement_state : InstallState;
  ip_replacement_state_digest : ObjectDigest;
  ip_reference_owner : string;
  ip_review_digest : ObjectDigest
}.

(** * The reviewed text *)

Definition opt_str (s : option string) : JsonValue :=
  match s with Some s => JStr s | None => JNull end.
Definition digest_json (d : ObjectDigest) : JsonValue := JStr (digest_str d).

(** [_snapshot_json] *)
Definition snapshot_json (s : PathSnapshot) : JsonValue :=
  json_object
    [("path", JStr (ps_path s)); ("kind", JStr (path_kind_value (ps_kind s)));
     ("digest", match ps_digest s with Some d => digest_json d | None => JNull end);
     ("link_target", opt_str (ps_link_target s));
     ("target_exists", match ps_target_exists s with Some b => JBool b | None => JNull end)].

(** [_operation_json] *)
Definition operation_json (o : InstallOperation) : JsonValue :=
  let common :=
    [("destination", JStr (op_destination o));
     ("absolute_destination", JStr (op_absolute_destination o));
     ("desired_digest", digest_json (op_desired_digest o));
     ("precondition", snapshot_json (op_precondition o)); ("overwrote", JBool (op_overwrote o))] in
  match o with
  | CopyTree o =>
      json_object ([("kind", JStr "copy-tree"); ("source_path", JStr (ct_source_path o))] ++ common)
  | WriteFile o =>
      json_object ([("kind", JStr (wo_effect_kind o)); ("source_path", JStr (wo_source_path o));
                    ("restores_from", opt_str (wo_restores_from o))] ++ common)
  | Link l =>
      json_object ([("kind", JStr (operation_kind o)); ("source_path", JStr (lk_source_path l));
                    ("target", JStr (lk_target l));
                    ("target_kind", JStr (target_kind_value (lk_target_kind l)));
                    ("semantics", JStr (lk_semantics l));
                    ("target_content_digest", digest_json (lk_target_content_digest l));
                    ("target_precondition", snapshot_json (lk_target_precondition l))] ++ common)
  | MergeJson o =>
      json_object ([("kind", JStr "merge-json"); ("json_path", JStr (mj_json_path o));
                    ("merge_mode", JStr (mj_merge_mode o));
                    ("identity", JsonArray (map JStr (mj_identity o)));
                    ("identity_evidence", mj_identity_evidence o);
                    ("value_digest", digest_json (mj_value_digest o));
                    ("identity_digest", digest_json (mj_identity_digest o))] ++ common)
  end.

Definition provenance_review (p : option InstallProvenance) : JsonValue :=
  match p with
  | None => JNull
  | Some p => json_object [("origin_url", JStr (iv_origin_url p));
                           ("resolved_commit", JStr (iv_resolved_commit p));
                           ("path", JStr (path_str (iv_path p)))]
  end.

(** [_plan_review_value]: everything but the freshness of the source. *)
Definition plan_review_value (p : InstallPlan) : JsonValue :=
  let r := ip_request p in
  let source := ip_source p in
  json_object
    [("schema_version", JInt 1); ("coordinate", JStr (coordinate_str (ip_coordinate p)));
     ("requested_identity", JStr (identity_str (iq_identity r)));
     ("requested_source", opt_str (alias_value <$> iq_source r));
     ("requested_version", opt_str (iq_version r)); ("profile", JStr (iq_profile r));
     ("profile_version", JInt (iq_profile_version r)); ("platform", JStr (iq_platform r));
     ("scope", JStr (iq_scope r)); ("mode", JStr (iq_mode r)); ("force", JBool (iq_force r));
     ("offline", JBool (iq_offline r)); ("memory_mode", JStr (iq_memory_mode r));
     ("mutable_local_payload_root", opt_str (iq_mutable_local_payload_root r));
     ("source_alias", JStr (alias_value (se_alias source)));
     ("source_id", JStr (source_id_value (se_declared_id source)));
     ("source_kind", JStr (source_kind_value (InstallState.se_kind source)));
     ("source_origin", JStr (se_origin source));
     ("resolved_commit", JStr (se_resolved_commit source));
     ("subscription_ref", opt_str (se_subscription_ref source));
     ("source_snapshot_digest", digest_json (ip_source_snapshot_digest p));
     ("artifact_version", JStr (semver_str (ae_version (ip_artifact p))));
     ("manifest_digest", digest_json (ae_manifest_digest (ip_artifact p)));
     ("payload_digest", digest_json (ae_payload_digest (ip_artifact p)));
     ("object_digest", digest_json (ip_object_digest p));
     ("object_store_root", JStr (os_root (ip_object_store_paths p)));
     ("object_root", JStr (ip_object_root p)); ("provenance", provenance_review (ip_provenance p));
     ("trust", JStr (ip_trust p)); ("trust_evidence_digest", digest_json (ip_trust_evidence_digest p));
     ("policy_digest", digest_json (ip_policy_digest p));
     ("operations", JsonArray (map operation_json (ip_operations p)));
     ("state_path", JStr (ip_state_path p)); ("state_lock_path", JStr (ip_state_lock_path p));
     ("state_precondition", snapshot_json (ip_state_precondition p));
     ("replacement_state_digest", digest_json (ip_replacement_state_digest p));
     ("reference_owner", JStr (ip_reference_owner p))].

(** * The plan's own consistency *)

(** [_effect_matches_operation] *)
Definition effect_matches_operation (e : EffectProof) (o : InstallOperation) : bool :=
  bool_decide (ef_destination e = op_destination o)
  && match o with
     | Link l =>
         bool_decide (ef_kind e = operation_kind o) && bool_decide (ef_actual_mode e = "symlink")
         && bool_decide (ef_installed_digest e = lk_target_content_digest l)
         && bool_decide (ef_source_path e = Some (lk_source_path l))
         && bool_decide (ef_link_target e = Some (lk_target l))
         && bool_decide (ef_link_semantics e = Some (lk_semantics l))
         && bool_decide (ef_json_path e = None)
     | CopyTree c =>
         bool_decide (ef_actual_mode e = "copy") && bool_decide (ef_kind e = "copy-tree")
         && bool_decide (ef_installed_digest e = ct_desired_digest c)
         && bool_decide (ef_source_path e = Some (ct_source_path c))
         && bool_decide (ef_json_path e = None)
     | WriteFile w =>
         bool_decide (ef_actual_mode e = "copy") && bool_decide (ef_kind e = wo_effect_kind w)
         && bool_decide (ef_installed_digest e = wo_desired_digest w)
         && bool_decide (ef_source_path e
                         = if bool_decide (wo_effect_kind w = "write-file")
                           then Some (wo_source_path w) else None)
         && bool_decide (ef_json_path e = None)
     | MergeJson m =>
         bool_decide (ef_actual_mode e = "copy") && bool_decide (ef_kind e = "merge-json")
         && bool_decide (ef_installed_digest e = mj_value_digest m)
         && bool_decide (ef_source_path e = None)
         && bool_decide (ef_json_path e = Some (mj_json_path m))
         && bool_decide (ef_merge_mode e = Some (mj_merge_mode m))
         && bool_decide (ef_identity_digest e = Some (mj_identity_digest m))
         && json_py_eq (ef_identity_evidence e) (mj_identity_evidence m)
     end.

(** [_replacement_record] *)
Definition replacement_record (p : InstallPlan) : option InstallationRecord :=
  List.find (λ r, bool_decide (co_source (in_coordinate r) = co_source (ip_coordinate p))
                  && bool_decide (co_artifact (in_coordinate r) = co_artifact (ip_coordinate p))
                  && bool_decide (in_profile r = iq_profile (ip_request p))
                  && bool_decide (in_scope r = iq_scope (ip_request p)))
    (st_installations (ip_replacement_state p)).

(** [_operations_match_artifact] *)
Definition copies_tree (o : InstallOperation) : bool :=
  match o with
  | CopyTree _ => true
  | Link l => bool_decide (lk_target_kind l = TARGET_TREE)
  | _ => false
  end.
Definition operations_match_artifact (p : InstallPlan) : bool :=
  match id_kind (iq_identity (ip_request p)), ip_operations p with
  | Skill, [o] => copies_tree o
  | Guideline, [WriteFile _] => true
  | Guideline, [Link l] => bool_decide (lk_target_kind l = TARGET_FILE)
  | Mcp, [MergeJson _] => true
  | Hook, [o; MergeJson _] => copies_tree o
  | (Skill | Guideline | Mcp | Hook), _ => false
  | _, [WriteFile sidecar; WriteFile destination] =>
      bool_decide (wo_restores_from sidecar = None)
      && bool_decide (wo_restores_from destination = Some (wo_destination sidecar))
  | _, [WriteFile _] => true
  | _, _ => false
  end.

Definition plan_links (p : InstallPlan) : list LinkOperation :=
  omap (λ o, match o with Link l => Some l | _ => None end) (ip_operations p).

(** Where a project's files go, relative to the state's own path. *)
Definition destination_is_scoped (p : InstallPlan) (o : InstallOperation) : bool :=
  if bool_decide (iq_scope (ip_request p) = "project")
  then bool_decide (op_absolute_destination o
                    = pjoin (dirname (dirname (ip_state_path p))) (op_destination o))
  else bool_decide (op_absolute_destination o = op_destination o).

Definition expected_link_target (p : InstallPlan) (l : LinkOperation) : option string :=
  let base := if bool_decide (lk_semantics l = "immutable-object")
              then Some (pjoin (ip_object_root p) "payload")
              else iq_mutable_local_payload_root (ip_request p) in
  match base with
  | None => None
  | Some base =>
      if bool_decide (lk_source_path l = "payload") then Some base
      else if String.prefix "payload/" (lk_source_path l)
      then Some (pjoin base (removeprefix "payload/" (lk_source_path l)))
      else None
  end.

(** A mutable root lies in its local source. *)
Definition mutable_root_is_safe (p : InstallPlan) : py bool :=
  match iq_mutable_local_payload_root (ip_request p) with
  | None => Ret true
  | Some root =>
      if bool_decide (InstallState.se_kind (ip_source p) = SOURCE_LOCAL)
      then common ← commonpath (se_origin (ip_source p)) root;
           Ret (bool_decide (common = se_origin (ip_source p)))
      else Ret false
  end.

Definition TRUST_CLASSES : list string :=
  ["unverified"; "local"; "direct-source"; "registry-reviewed"; "company-reviewed"].
Definition expected_object_root (p : InstallPlan) : string :=
  pjoins (os_objects (ip_object_store_paths p))
    [str_take 2 (dg_value (ip_object_digest p)); str_drop 2 (dg_value (ip_object_digest p))].
Definition unreviewed_digest : ObjectDigest := sha256_bytes "unreviewed-install-plan".

(** What the state written by the plan must record about it. *)
Definition record_matches (p : InstallPlan) (r : InstallationRecord) : bool :=
  bool_decide (in_source r = ip_source p) && artifact_evidence_py_eq (in_artifact r) (ip_artifact p)
  && (in_profile_version r =? iq_profile_version (ip_request p))
  && bool_decide (in_requested_mode r = iq_mode (ip_request p))
  && bool_decide (in_memory_mode r
                  = if bool_decide (id_kind (iq_identity (ip_request p)) = Memory)
                    then Some (iq_memory_mode (ip_request p)) else None)
  && (length (in_effects r) =? length (ip_operations p))%nat
  && forallb (λ eo, effect_matches_operation eo.1 eo.2) (zip (in_effects r) (ip_operations p)).

Definition links_match (p : InstallPlan) : bool :=
  let links := plan_links p in
  let mutable_root := iq_mutable_local_payload_root (ip_request p) in
  negb (bool_decide (iq_mode (ip_request p) = "copy") && negb (bool_decide (links = [])))
  && negb (negb (bool_decide (mutable_root = None)) && bool_decide (links = []))
  && forallb (λ l, bool_decide (lk_semantics l = if bool_decide (mutable_root = None)
                                               then "immutable-object" else "mutable-local"))
       links
  && forallb (λ l, bool_decide (Some (lk_target l) = expected_link_target p l)) links.

(** The long condition of [InstallPlan.__post_init__], in its order. *)
Definition plan_invalid (p : InstallPlan) (mutable_root_is_safe : bool) : bool :=
  let coordinate := ip_coordinate p in
  let artifact := ip_artifact p in
  negb (bool_decide (co_source coordinate = se_alias (ip_source p)))
  || negb (bool_decide (co_artifact coordinate = ae_identity artifact))
  || negb (bool_decide (co_version coordinate = Some (semver_str (ae_version artifact))))
  || negb (bool_decide (ob_digest (ip_object_candidate p) = ip_object_digest p))
  || negb (bool_decide (ae_object_digest artifact = ip_object_digest p))
  || negb (forallb valid_digest
             [ip_trust_evidence_digest p; ip_policy_digest p; ip_source_snapshot_digest p;
              ip_object_digest p; ip_replacement_state_digest p; ip_review_digest p])
  || negb (bool_decide (ip_object_root p = expected_object_root p))
  || negb (mem (ip_source_health p) ["healthy"; "stale"; "degraded"])
  || (ip_source_age_seconds p <? 0)
  || negb (mem (ip_trust p) TRUST_CLASSES)
  || bool_decide (ip_operations p = [])
  || negb (operations_match_artifact p)
  || has_dups (map op_absolute_destination (ip_operations p))
  || negb (forallb (destination_is_scoped p) (ip_operations p))
  || negb (links_match p) || negb mutable_root_is_safe
  || negb (bool_decide (ps_path (ip_state_precondition p) = ip_state_path p))
  || negb (bool_decide (sha256_bytes (install_state_bytes (ip_replacement_state p))
                        = ip_replacement_state_digest p))
  || negb (valid_owner (ip_reference_owner p)) || (499 <? len (ip_reference_owner p))
  || match replacement_record p with Some r => negb (record_matches p r) | None => true end.

Definition with_review (p : InstallPlan) (review : ObjectDigest) : InstallPlan :=
  MkInstallPlan (ip_request p) (ip_coordinate p) (ip_source p) (ip_source_health p)
    (ip_source_age_seconds p) (ip_source_snapshot_digest p) (ip_artifact p) (ip_trust p)
    (ip_trust_evidence_digest p) (ip_policy_digest p) (ip_object_store_paths p)
    (ip_object_candidate p) (ip_object_root p) (ip_object_digest p) (ip_provenance p)
    (ip_operations p) (ip_state_path p) (ip_state_lock_path p) (ip_state_precondition p)
    (ip_replacement_state p) (ip_replacement_state_digest p) (ip_reference_owner p) review.

(** [InstallPlan.__post_init__] *)
Definition install_plan (p : InstallPlan) : py InstallPlan :=
  require_absolute (ip_object_root p) "object root" ;;
  require_absolute (ip_state_path p) "state path" ;;
  require_absolute (ip_state_lock_path p) "state lock path" ;;
  safe ← mutable_root_is_safe p;
  let expected_review := json_digest (plan_review_value p) in
  raise_if (plan_invalid p safe
            || negb (mem (ip_review_digest p) [unreviewed_digest; expected_review]))
    "canonical install plan is not exactly review-bound" ;;
  Ret (if bool_decide (ip_review_digest p = unreviewed_digest)
       then with_review p expected_review else p).

(** * Links and outcomes *)

Inductive LinkStatus : Type := LCURRENT | LMUTABLE_LOCAL | LBROKEN | LRETARGETED | LREPLACED.
#[global] Instance link_status_eq_dec : EqDecision LinkStatus.
Proof using. solve_decision. Defined.

Definition classify_link (e : EffectProof) (observed : PathSnapshot) : py LinkStatus :=
  raise_if (negb (mem (ef_kind e) ["symlink-file"; "symlink-tree"])
            || bool_decide (ef_link_target e = None))
    "link status requires a managed link effect" ;;
  Ret (if negb (bool_decide (ps_kind observed = PSYMLINK)) then LREPLACED
       else if negb (bool_decide (ps_link_target observed = ef_link_target e)) then LRETARGETED
       else if negb (bool_decide (ps_target_exists observed = Some true)) then LBROKEN
       else if bool_decide (ef_link_semantics e = Some "mutable-local") then LMUTABLE_LOCAL
       else LCURRENT).

Inductive InstallStatus : Type := APPLIED | ICURRENT | CONFLICTED | IFAILED.
#[global] Instance install_status_eq_dec : EqDecision InstallStatus.
Proof using. solve_decision. Defined.

Record EffectOutcome := MkEffectOutcome {
  eo_kind : string; eo_destination : string; eo_status : string; eo_detail : option string
}.
#[global] Instance effect_outcome_eq_dec : EqDecision EffectOutcome.
Proof using. solve_decision. Defined.
Record InstallOutcome := MkInstallOutcome {
  it_review_digest : ObjectDigest;
  it_status : InstallStatus;
  it_effects : list EffectOutcome;
  it_state_written : bool
}.
#[global] Instance install_outcome_eq_dec : EqDecision InstallOutcome.
Proof using. solve_decision. Defined.
(** [InstallOutcome.changed] *)
Definition outcome_changed (o : InstallOutcome) : Z :=
  count (List.filter (λ e, bool_decide (eo_status e = "changed")) (it_effects o)).
End plan.
