(* ===== verification/FileSystem.v ===== *)
(** The file system the adapter works on ([installation/io.py]): nodes by
    absolute path, and the writing, removing and inspecting primitives as
    sequences of system calls, each of which may fail.

    A file's permissions are its executable bit.  The n-th system call fails
    with [OSError] when the environment says so, before its own effect; other
    processes do not change the paths.  Staging files and directories have
    fresh names and are not part of the modelled file system, so that a failed
    clean-up of one leaves no trace here; the parents a write creates are. *)
From stdpp Require Import gmap strings.
From S2P Require Import Prelude Effects PyText TextSearch Posix Domain Protocol Json StoreModel Store InstallState Installation.
From Stdlib Require Import Ascii.
Open Scope Z_scope.

Inductive node : Type :=
  | NFile (content : bytes) (executable : bool)
  | NDir
  | NLink (target : string)
  | NSpecial (mode : Z).
#[export] Instance node_eq_dec : EqDecision node.
Proof. solve_decision. Defined.
Notation fs := (gmap string node).

(** [q] is [p] or lies below it. *)
Definition under (p q : string) : bool := String.eqb p q || String.prefix (p +:+ "/") q.
(** The file system without, and only with, what is at or below [p]. *)
Definition erase (p : string) (f : fs) : fs := filter (λ kv, under p kv.1 = false) f.
Definition subtree (p : string) (f : fs) : fs := filter (λ kv, under p kv.1 = true) f.

(** What the operating system and the other processes decide. *)
Class Environment := {
  env_fault : nat → bool;                 (** the n-th system call fails *)
  env_busy : nat → bool;                  (** another process holds the lock *)
  env_exists : fs → string → bool;        (** [os.path.exists] *)
  env_realpath : fs → string → string     (** [posixpath.realpath] *)
}.

Record world := MkWorld { w_fs : fs; w_clock : nat; w_store : list store_event }.
Definition update_fs (g : fs → fs) : st world unit :=
  modify (λ w, MkWorld (g (w_fs w)) (w_clock w) (w_store w)).

Definition FAULT : exn := OSError "system call failed".
(** One system call: it takes a turn of the clock and may fail. *)
Definition syscall `{Environment} : st world unit := λ w,
  let w' := MkWorld (w_fs w) (S (w_clock w)) (w_store w) in
  if env_fault (w_clock w) then (Raise FAULT, w') else (Ret tt, w').
Definition os_error {A} (message : string) : st world A := pure (Raise (OSError message)).

Section adapter.
Context `{UnicodeData} `{Environment}.

(** * Parents *)

Definition lexists (f : fs) (p : string) : bool := bool_decide (is_Some (f !! p)).
Definition is_real_directory (f : fs) (p : string) : bool := bool_decide (f !! p = Some NDir).

(** The first loop of [_safe_parent]: the nearest existing ancestor and the
    missing directories, deepest first. *)
Fixpoint probe_loop (fuel : nat) (f : fs) (probe : string) (missing : list string) :
    option (string * list string) :=
  match fuel with
  | O => None
  | S fuel =>
      if lexists f probe then Some (probe, missing)
      else let missing := missing ++ [probe] in
           if bool_decide (probe = dirname probe) then Some (probe, missing)
           else probe_loop fuel f (dirname probe) missing
  end.

(** Its last loop: every directory from [current] up to [probe] is real. *)
Fixpoint verify_loop (fuel : nat) (f : fs) (probe current : string) : option (py unit) :=
  match fuel with
  | O => None
  | S fuel =>
      if bool_decide (current = dirname current) then Some (Ret tt)
      else if negb (is_real_directory f current)
      then Some (Raise (OSError ("install parent is not a real directory: " +:+ current)))
      else if bool_decide (current = probe) then Some (Ret tt)
      else verify_loop fuel f probe (dirname current)
  end.

(** Each turn shortens the path, so its length is fuel enough. *)
Definition path_fuel (p : string) : nat := S (String.length p).

Definition mkdir (p : string) : st world unit := syscall ;; update_fs (<[p := NDir]>).

Definition safe_parent (directory : string) : st world unit :=
  syscall ;;
  found ← gets (λ w, probe_loop (path_fuel directory) (w_fs w) directory []);
  match found with
  | None => pure (Raise RecursionError)
  | Some (probe, missing) =>
      unsafe ← gets (λ w, lexists (w_fs w) probe && negb (is_real_directory (w_fs w) probe));
      if unsafe : bool then os_error ("install parent is not a real directory: " +:+ probe)
      else
        for_each (rev missing) mkdir ;;
        checked ← gets (λ w, verify_loop (path_fuel directory) (w_fs w) probe directory);
        match checked with
        | None => pure (Raise RecursionError)
        | Some r => pure r
        end
  end.

(** * Writing *)

(** [_fsync_directory]: open, synchronise, close. *)
Definition fsync_directory (p : string) : st world unit := syscall ;; finally syscall syscall.

(** [shutil.rmtree]: children before their directory, one call each. *)
Definition keys_under (p : string) (f : fs) : list string :=
  sorted (λ key, (- Z.of_nat (String.length key))%Z) (List.filter (under p) (elements (dom f : gset string))).
Definition rmtree (p : string) : st world unit :=
  keys ← gets (λ w, keys_under p (w_fs w));
  for_each keys (λ key, syscall ;; update_fs (delete key)).

Definition remove (path : string) : st world unit :=
  syscall ;;
  node ← gets (λ w, w_fs w !! path);
  match node with
  | None => mret tt
  | Some NDir => rmtree path ;; fsync_directory (dirname path)
  | Some _ => (syscall ;; update_fs (delete path)) ;; fsync_directory (dirname path)
  end.

(** [os.replace] of a staged file or link: it cannot replace a directory. *)
Definition replace_with (path : string) (staged : node) : st world unit :=
  syscall ;;
  directory ← gets (λ w, is_real_directory (w_fs w) path);
  if directory : bool then os_error ("is a directory: " +:+ path)
  else update_fs (<[path := staged]>).

(** [mkstemp], then [fchmod], [write], [flush] and [fsync] of the stage, the
    replacement, and [chmod]; [executable] is the mode's. *)
Definition write_atomic (path : string) (content : bytes) (executable : bool) : st world unit :=
  safe_parent (dirname path) ;;
  syscall ;; syscall ;; syscall ;; syscall ;;
  replace_with path (NFile content executable) ;;
  syscall ;;
  fsync_directory (dirname path).

(** A member of a staged tree is created by one or more calls. *)
Definition stage_member (m : TreeMember) : st world unit :=
  match tm_kind m with
  | DIRECTORY => syscall
  | FILE => syscall ;; syscall ;; syscall ;; syscall
  end.
(** A member's node at its place below [root], with the directories its own
    path needs. *)
Definition member_node (m : TreeMember) : node :=
  match tm_kind m with DIRECTORY => NDir | FILE => NFile (tm_content m) (tm_executable m) end.
Definition below (root : string) (parts : list string) : string := root +:+ "/" +:+ join "/" parts.
(** [mkdir(exist_ok=True)] of a directory, and creation of a file, in a stage;
    [None] where a call finds something else in its place. *)
Definition stage_directory (root : string) (parts : list string) (f : fs) : option fs :=
  match f !! below root parts with
  | None | Some NDir => Some (<[below root parts := NDir]> f)
  | Some _ => None
  end.
Definition place_member (root : string) (f : fs) (m : TreeMember) : option fs :=
  let parts := sp_parts (tm_path m) in
  f ← foldl (λ f parents, f ← f; stage_directory root parents f) (Some f) (ancestors parts);
  match tm_kind m with
  | DIRECTORY => stage_directory root parts f
  | FILE => match f !! below root parts with
            | None => Some (<[below root parts := member_node m]> f)
            | Some _ => None
            end
  end.
(** What a staged tree holds once it is moved to [root]. *)
Definition tree_nodes (root : string) (members : list TreeMember) : option fs :=
  foldl (λ f m, f ← f; place_member root f m) (Some {[ root := NDir ]}) members.

Definition write_tree (path : string) (members : list TreeMember) : st world unit :=
  safe_parent (dirname path) ;;
  syscall ;;
  for_each members stage_member ;;
  match tree_nodes path members with
  | None => os_error ("install tree cannot be staged: " +:+ path)
  | Some staged =>
      remove path ;;
      syscall ;;
      update_fs (λ f, staged ∪ f) ;;
      fsync_directory (dirname path)
  end.

Definition write_symlink (path target : string) : st world unit :=
  safe_parent (dirname path) ;;
  syscall ;; syscall ;; syscall ;; syscall ;;
  directory ← gets (λ w, is_real_directory (w_fs w) path);
  (if directory : bool then remove path else mret tt) ;;
  replace_with path (NLink target) ;;
  fsync_directory (dirname path).

(** [_restore] *)
Definition restore (s : PathSnapshot) : st world unit :=
  match ps_kind s with
  | PABSENT => remove (ps_path s)
  | PFILE => remove (ps_path s) ;; write_atomic (ps_path s) (ps_content s) (ps_executable s)
  | PTREE => write_tree (ps_path s) (ps_members s)
  | PSYMLINK =>
      match ps_link_target s with
      | Some target => write_symlink (ps_path s) target
      | None => pure (Raise AssertionError)
      end
  | PSPECIAL =>
      os_error ("cannot restore unsafe install path kind: " +:+ path_kind_value (ps_kind s))
  end.

(** [_apply_operation] *)
Definition apply_operation (o : InstallOperation) : st world unit :=
  match o with
  | CopyTree c => write_tree (ct_absolute_destination c) (ct_members c)
  | WriteFile w =>
      remove (wo_absolute_destination w) ;;
      write_atomic (wo_absolute_destination w) (wo_content w) (wo_executable w)
  | MergeJson m =>
      remove (mj_absolute_destination m) ;;
      write_atomic (mj_absolute_destination m) (mj_content m) false
  | Link l => write_symlink (lk_absolute_destination l) (lk_target l)
  end.

(** * Inspecting *)

Definition MAX_TREE_MEMBERS : Z := 20000.
Definition raise_os {A} (message : string) : py A := Raise (OSError message).

(** One entry of the walk below [root]. *)
Definition inspect_member (root key : string) (n : node) : py TreeMember :=
  let relative := str_drop (String.length root + 1) key in
  let safe_path :=
    match parse_relative_path relative None with
    | Ok path => if MAX_TREE_DEPTH <? count (sp_parts path)
                 then raise_os ("install tree path is unsafe: " +:+ relative) else Ret path
    | Err _ => raise_os ("install tree path is unsafe: " +:+ relative)
    end in
  match n with
  | NDir => path ← safe_path; tree_member (MkTreeMember path DIRECTORY "" false)
  | NFile content executable =>
      if MAX_FILE_BYTES <? len content then raise_os ("install file exceeds 10485760 bytes: " +:+ key)
      else path ← safe_path; tree_member (MkTreeMember path FILE content executable)
  | _ => raise_os ("install tree contains an unsafe entry: " +:+ key)
  end.

Definition file_members (members : list TreeMember) : list TreeMember :=
  List.filter (λ m, bool_decide (tm_kind m = FILE)) members.
Definition content_bytes (members : list TreeMember) : Z :=
  foldr (λ m n, len (tm_content m) + n) 0 members.

(** [_inspect_tree]: the walk in the order of the paths. *)
Definition inspect_tree (f : fs) (root : string) : py (list TreeMember) :=
  members ← mapM (λ key, match f !! key with
                         | Some n => inspect_member root key n
                         | None => raise_os key
                         end)
              (List.filter (λ key, negb (String.eqb key root)) (keys_under root f));
  if (MAX_FILES <? count (file_members members)) || (MAX_TOTAL_BYTES <? content_bytes members)
  then raise_os "install tree exceeds safe inspection bounds"
  else if MAX_TREE_MEMBERS <? count members then raise_os "install tree exceeds safe entry bounds"
  else if bool_decide (members = [])
  then raise_os ("empty destination trees are not managed: " +:+ root)
  else Ret (sorted member_path members).

(** [_inspect] *)
Definition inspect (f : fs) (path : string) : py PathSnapshot :=
  match f !! path with
  | None => snapshot_absent path
  | Some (NFile content executable) =>
      if MAX_FILE_BYTES <? len content then raise_os ("install file exceeds 10485760 bytes: " +:+ path)
      else snapshot_file path content executable
  | Some NDir => members ← inspect_tree f path; snapshot_tree path members
  | Some (NLink target) =>
      snapshot_symlink path target
        (env_exists f (if isabs target then target else pjoin (dirname path) target))
  | Some (NSpecial mode) => snapshot_special path mode
  end.

Definition INSTALL_IO_FAILED := MkCode "install-io-failed".
(** [_error] *)
Definition install_io_error {A} (message : string) : Result A :=
  fail1 (diagnostic INSTALL_IO_FAILED ERROR message None [] []).
Definition exn_text (e : exn) : string :=
  match e with
  | OSError m | RuntimeError m | ValueError m | TypeError m | OverflowError m
  | UnicodeDecodeError m | JSONDecodeError m | RegexError m | SubprocessError m | Invalid m => m
  | KeyError k => k
  | AssertionError | RecursionError | StopIteration | EOFError => ""
  end.

(** [LocalInstallAdapter.inspect_path] *)
Definition inspect_path (path : string) : st world (Result PathSnapshot) :=
  if negb (norm_abs path) || bool_decide (path = "/")
  then mret (install_io_error ("install inspection path is unsafe: " +:+ path))
  else catch
    (syscall ;; f ← gets w_fs; snapshot ← pure (inspect f path); mret (Ok snapshot))
    (λ e, match e with
          | OSError _ | ValueError _ =>
              mret (install_io_error
                ("cannot inspect install path " +:+ path +:+ ": " +:+ exn_text e))
          | _ => pure (Raise e)
          end).

(** [posixpath.relpath] of absolute paths *)
Definition relpath (path start : string) : string :=
  let shared := length (common_prefix (components start) (components path)) in
  match (replicate (length (components start) - shared) ".." ++ drop shared (components path))%list with
  | [] => "."
  | parts => join "/" parts
  end.

(** [LocalInstallAdapter.inspect_link_target] *)
Definition inspect_link_target (path boundary : string) : st world (Result PathSnapshot) :=
  if existsb (λ item, negb (norm_abs item) || bool_decide (item = "/")) [path; boundary]
  then mret (install_io_error "link target or boundary is unsafe")
  else match commonpath boundary path with
       | Raise e =>
           mret (install_io_error ("cannot validate link target boundary: " +:+ exn_text e))
       | Ret common =>
           if negb (bool_decide (common = boundary))
           then mret (install_io_error "link target escapes its reviewed boundary")
           else
             f ← gets w_fs;
             if negb (bool_decide (env_realpath f path
                        = normpath (pjoin (env_realpath f boundary) (relpath path boundary))))
             then mret (install_io_error "link target crosses an unreviewed intermediate symlink")
             else inspect_path path
       end.
End adapter.
