(* ===== verification/FileSpec.v ===== *)
(** What the writing primitives do to a well-formed file system, whether they
    succeed or fail: outside the path they are given they only create missing
    parents, and when they succeed the path holds exactly what was asked. *)
From stdpp Require Import gmap strings.
From S2P Require Import Prelude Effects PyText TextSearch Posix Domain Protocol Json CompilerModel StoreModel Store InstallState Installation FileSystem.
From Stdlib Require Import Ascii.
Open Scope Z_scope.

(** * Paths as lists of components *)

Notation at_ := (clean_path "/").

(** The absolute paths below the root. *)
Definition proper (p : string) : Prop :=
  ∃ parts, parts ≠ [] ∧ forallb clean parts = true ∧ p = at_ parts.

Lemma clean_no_slash parts :
  forallb clean parts = true → Forall (λ c, has_char "/" c = false) parts.
Proof.
  intros Hf. apply Forall_forall. intros c Hc%list_elem_of_In. rewrite forallb_forall in Hf.
  by apply Hf, clean_relative in Hc as (_ & _ & ?).
Qed.

Lemma split_at parts :
  parts ≠ [] → forallb clean parts = true → split_on "/" (at_ parts) = "" :: parts.
Proof.
  intros Hne Hf. unfold clean_path. change ("/" +:+ join "/" parts) with ("" +:+ String "/" (join "/" parts)).
  change (split_on "/" (String "/" (join "/" parts)) = "" :: parts). cbn [split_on].
  rewrite (is_char_refl "/"). by rewrite clean_split.
Qed.

Lemma at_inj ps qs :
  forallb clean ps = true → forallb clean qs = true → at_ ps = at_ qs → ps = qs.
Proof.
  intros Hp Hq E. destruct (decide (ps = [])) as [->|Hnp], (decide (qs = [])) as [->|Hnq]; [done|..].
  - apply (f_equal (split_on "/")) in E. rewrite (split_at qs) in E by done.
    change (split_on "/" (at_ [])) with [""; ""] in E. destruct qs as [|q qs]; [done|].
    injection E as <- <-. by cbn in Hq.
  - apply (f_equal (split_on "/")) in E. rewrite (split_at ps) in E by done.
    change (split_on "/" (at_ [])) with [""; ""] in E. destruct ps as [|p ps]; [done|].
    injection E as -> ->. by cbn in Hp.
  - apply (f_equal (split_on "/")) in E. rewrite !split_at in E by done. by injection E.
Qed.

Lemma join_app ps qs :
  ps ≠ [] → qs ≠ [] → join "/" (ps ++ qs) = join "/" ps +:+ "/" +:+ join "/" qs.
Proof.
  intros Hp Hq. induction ps as [|p ps IH]; [done|]. destruct ps as [|p' ps].
  - by destruct qs.
  - change (p +:+ "/" +:+ join "/" ((p' :: ps) ++ qs) = (p +:+ "/" +:+ join "/" (p' :: ps)) +:+ "/" +:+ join "/" qs).
    rewrite IH by done. by rewrite <-!str_app_assoc.
Qed.

Lemma at_app ps qs : ps ≠ [] → qs ≠ [] → at_ (ps ++ qs) = at_ ps +:+ "/" +:+ join "/" qs.
Proof. intros Hp Hq. unfold clean_path. rewrite join_app by done. by rewrite <-!str_app_assoc. Qed.

Lemma under_at ps qs :
  ps ≠ [] → forallb clean ps = true → forallb clean qs = true →
  under (at_ ps) (at_ qs) = true ↔ ∃ t, qs = ps ++ t.
Proof.
  intros Hne Hp Hq. unfold under. rewrite orb_true_iff, String.eqb_eq. split.
  - intros [E|Hpre].
    + exists []. rewrite app_nil_r. symmetry. by apply at_inj.
    + apply prefix_drop in Hpre. rewrite <-str_app_assoc in Hpre.
      set (r := str_drop _ _) in Hpre. clearbody r. apply (f_equal (split_on "/")) in Hpre.
      change (at_ ps +:+ "/" +:+ r) with (at_ ps +:+ String "/" r) in Hpre.
      destruct (decide (qs = [])) as [->|Hnq].
      { change (split_on "/" (at_ [])) with [""; ""] in Hpre. rewrite split_on_mid in Hpre.
        rewrite split_at in Hpre by done. destruct ps as [|p ps]; [done|].
        injection Hpre as <- Hpre. by cbn in Hp. }
      rewrite split_on_mid, !split_at in Hpre by done. injection Hpre as ->. eauto.
  - intros [t ->]. destruct (decide (t = [])) as [->|Ht].
    + left. by rewrite app_nil_r.
    + right. rewrite at_app, str_app_assoc by done. apply prefix_app.
Qed.

Lemma dirname_at ps c :
  forallb clean ps = true → clean c = true → dirname (at_ (ps ++ [c])) = at_ ps.
Proof.
  intros Hp Hc. pose proof (clean_relative c Hc) as (_ & He & Hs). unfold dirname.
  destruct (decide (ps = [])) as [->|Hne].
  - change (at_ ([] ++ [c])) with ("" +:+ String "/" c). rewrite cut_last_app by done. done.
  - rewrite at_app by done. cbn [join]. change (at_ ps +:+ "/" +:+ c) with (at_ ps +:+ String "/" c).
    rewrite cut_last_app by done.
    assert (str_forall (is_char "/") (at_ ps +:+ "/") = false) as ->.
    { destruct (join_head ps) as (x & t & Hj & Hx); [done..|]. unfold clean_path. rewrite Hj.
      change (str_forall (is_char "/") (String "/" (String x (t +:+ "/"))) = false).
      cbn [str_forall]. rewrite Hx. by rewrite andb_false_r. }
    change (at_ ps +:+ "/") with (at_ ps +:+ String "/" ""). rewrite rstrip_char_snoc.
    destruct ps as [|last l _] using rev_ind; [done|].
    rewrite forallb_app in Hp. apply andb_true_iff in Hp as [_ Hp]. cbn in Hp.
    apply andb_true_iff in Hp as [(_ & Hle & Hls)%clean_relative _].
    destruct (join_last l last) as [a Ha]. unfold clean_path. rewrite Ha, str_app_assoc.
    destruct (str_snoc "/" last) as (b & d & -> & Hd); [by destruct last|].
    rewrite str_app_assoc. apply rstrip_char_id. by apply Hd.
Qed.

Lemma dirname_root : dirname "/" = "/".
Proof. done. Qed.

Lemma below_at ps parts : ps ≠ [] → parts ≠ [] → below (at_ ps) parts = at_ (ps ++ parts).
Proof. intros Hp Hq. unfold below. by rewrite at_app. Qed.

Lemma at_length_snoc ps c : clean c = true → (String.length (at_ ps) < String.length (at_ (ps ++ [c])))%nat.
Proof.
  intros (_ & He & _)%clean_relative. assert (0 < String.length c)%nat as Hl by (destruct c; [done|cbn; lia]).
  destruct (decide (ps = [])) as [->|Hne].
  - unfold clean_path. cbn [app join]. rewrite !str_length_app. cbn. lia.
  - rewrite at_app by done. cbn [join]. rewrite !str_length_app. cbn. lia.
Qed.

(** * Well-formed file systems *)

(** Every node but the root lies in a directory. *)
Record wf_fs (f : fs) : Prop := {
  wf_root : f !! "/" = Some NDir;
  wf_keys : ∀ q n, f !! q = Some n → q = "/" ∨ (proper q ∧ f !! dirname q = Some NDir)
}.
Definition directory (p : string) : Prop := p = "/" ∨ proper p.

Lemma proper_snoc q : proper q → ∃ ps c,
  forallb clean ps = true ∧ clean c = true ∧ q = at_ (ps ++ [c]) ∧ dirname q = at_ ps.
Proof.
  intros (parts & Hne & Hc & ->). destruct parts as [|c ps _] using rev_ind; [done|].
  rewrite forallb_app in Hc. apply andb_true_iff in Hc as [Hp Hc]. cbn in Hc. rewrite andb_true_r in Hc.
  exists ps, c. split_and!; try done. by apply dirname_at.
Qed.

Lemma proper_dirname q : proper q → directory (dirname q).
Proof.
  intros (ps & c & Hp & _ & _ & ->)%proper_snoc. destruct (decide (ps = [])) as [->|Hne]; [by left|].
  right. by exists ps.
Qed.
Lemma proper_shorter q : proper q → (String.length (dirname q) < String.length q)%nat.
Proof. intros (ps & c & _ & Hc & -> & ->)%proper_snoc. by apply at_length_snoc. Qed.
Lemma proper_not_root q : proper q → q ≠ "/".
Proof. intros Hq ->. apply proper_shorter in Hq. rewrite dirname_root in Hq. lia. Qed.
Lemma directory_dirname d : directory d → directory (dirname d).
Proof. intros [->|Hd]; [by left|]. by apply proper_dirname. Qed.

Lemma under_refl p : under p p = true.
Proof. unfold under. by rewrite String.eqb_refl. Qed.
Lemma under_length p q : under p q = true → (String.length p ≤ String.length q)%nat.
Proof.
  unfold under. rewrite orb_true_iff, String.eqb_eq. intros [->|Hp%prefix_drop]; [done|].
  rewrite Hp, !str_length_app. lia.
Qed.
Lemma not_under_dirname p : proper p → under p (dirname p) = false.
Proof.
  intros Hp%proper_shorter. apply not_true_iff_false. intros Hu%under_length. lia.
Qed.
Lemma under_dirname p q :
  proper p → proper q → under p q = true → p ≠ q → under p (dirname q) = true.
Proof.
  intros (ps & Hne & Hp & ->) (qs & c & Hq & Hc & -> & ->)%proper_snoc Hu Hd.
  assert (forallb clean (qs ++ [c]) = true) as Hqc by (rewrite forallb_app, Hq; cbn; by rewrite Hc).
  apply under_at in Hu as [t E]; [|done..]. apply under_at; [done..|].
  destruct t as [|x t _] using rev_ind.
  - rewrite app_nil_r in E. by rewrite E in Hd.
  - rewrite app_assoc in E. apply app_inj_tail in E as [-> _]. eauto.
Qed.

Lemma under_child p q : proper p → proper q → under p (dirname q) = true → under p q = true.
Proof.
  intros (ps & Hne & Hp & ->) (qs & c & Hq & Hc & -> & ->)%proper_snoc Hu.
  assert (forallb clean (qs ++ [c]) = true) as Hqc by (rewrite forallb_app, Hq; cbn; by rewrite Hc).
  apply under_at in Hu as [t ->]; [|done..]. apply under_at; [done..|]. exists (t ++ [c]). by rewrite app_assoc.
Qed.

Lemma wf_above f p q :
  wf_fs f → proper p → under p q = true → p ≠ q → is_Some (f !! q) → f !! p = Some NDir.
Proof.
  intros Hwf Hp. remember (String.length q) as n eqn:Hn. revert q Hn.
  induction n as [n IH] using lt_wf_ind; intros q -> Hu Hd [m Hq].
  destruct (wf_keys f Hwf q m Hq) as [->|[Hpq Hdir]].
  - apply under_length in Hu. pose proof (proper_shorter p Hp) as Hl. cbn in Hu.
    destruct (proper_dirname p Hp) as [E|E]; [rewrite E in Hl; cbn in Hl; lia|].
    apply proper_shorter in E. lia.
  - assert (under p (dirname q) = true) as Hu' by by apply under_dirname.
    destruct (decide (p = dirname q)) as [->|Hne]; [done|].
    eapply (IH (String.length (dirname q))); [by apply proper_shorter|done..|by eauto].
Qed.

Lemma wf_leaf f p q :
  wf_fs f → proper p → f !! p ≠ Some NDir → under p q = true → p ≠ q → f !! q = None.
Proof.
  intros Hwf Hp Hn Hu Hd. apply eq_None_not_Some. intros Hs. by eapply Hn, wf_above.
Qed.

Lemma wf_insert f p n :
  wf_fs f → proper p → f !! dirname p = Some NDir → (n = NDir ∨ f !! p ≠ Some NDir) →
  wf_fs (<[p := n]> f).
Proof.
  intros Hwf Hp Hd Hn. pose proof (proper_shorter p Hp) as Hs. split.
  - rewrite lookup_insert_ne by by apply proper_not_root. apply Hwf.
  - intros q m. destruct (decide (p = q)) as [<-|Hne].
    + intros _. right. split; [done|]. rewrite lookup_insert_ne by (intros E; rewrite <-E in Hs; lia). done.
    + rewrite lookup_insert_ne by done. intros [->|[Hq Hdir]]%(wf_keys f Hwf); [by left|right].
      split; [done|]. destruct (decide (p = dirname q)) as [E|Hnd].
      * rewrite <-E in *. destruct Hn as [->|Hn]; [|done]. by rewrite lookup_insert_eq.
      * by rewrite lookup_insert_ne.
Qed.

Lemma wf_delete f p :
  wf_fs f → proper p → (∀ q, proper q → dirname q = p → f !! q = None) → wf_fs (delete p f).
Proof.
  intros Hwf Hp Hn. split.
  - rewrite lookup_delete_ne by by apply proper_not_root. apply Hwf.
  - intros q m Hq. apply lookup_delete_Some in Hq as [Hne Hq].
    destruct (wf_keys f Hwf q m Hq) as [->|[Hpq Hdir]]; [by left|right].
    split; [done|]. rewrite lookup_delete_ne; [done|]. intros E. rewrite Hn in Hq; done.
Qed.

(** * Changes *)

(** Outside [p] only missing directories appear; and what is at [p]. *)
Definition changed (p : string) (f g : fs) : Prop :=
  ∀ q, under p q = true ∨ g !! q = f !! q ∨ (f !! q = None ∧ g !! q = Some NDir).
Definition holds (p : string) (d g : fs) : Prop := ∀ q, under p q = true → g !! q = d !! q.
(** Only missing directories of at most [n] characters appear. *)
Definition grown_to (n : nat) (f g : fs) : Prop :=
  ∀ q, g !! q = f !! q ∨ (f !! q = None ∧ g !! q = Some NDir ∧ (String.length q ≤ n)%nat).

Lemma changed_refl p f : changed p f f.
Proof. intros q. auto. Qed.
Lemma changed_trans p f g h : changed p f g → changed p g h → changed p f h.
Proof.
  intros Hf Hg q. destruct (Hf q) as [?|[E|[E E']]], (Hg q) as [?|[F|[F F']]]; auto; right;
    rewrite ?E, ?E' in *; auto; try congruence; left; congruence.
Qed.
Lemma grown_refl n f : grown_to n f f.
Proof. intros q. auto. Qed.
Lemma grown_trans n f g h : grown_to n f g → grown_to n g h → grown_to n f h.
Proof.
  intros Hf Hg q. destruct (Hf q) as [E|(E & E' & L)], (Hg q) as [F|(F & F' & L')];
    rewrite ?E, ?E' in *; auto; congruence.
Qed.
Lemma grown_le n m f g : (n ≤ m)%nat → grown_to n f g → grown_to m f g.
Proof. intros Hl Hg q. destruct (Hg q) as [?|(? & ? & ?)]; [auto|]. right. split_and!; [done..|lia]. Qed.
Lemma grown_changed n p f g : grown_to n f g → changed p f g.
Proof. intros Hg q. destruct (Hg q) as [?|(? & ? & ?)]; auto. Qed.
Lemma grown_holds n p d f g :
  (n < String.length p)%nat → grown_to n f g → holds p d f → holds p d g.
Proof.
  intros Hl Hg Hh q Hu. rewrite <-(Hh q Hu). destruct (Hg q) as [E|(_ & _ & L)]; [done|].
  apply under_length in Hu. lia.
Qed.

(** * The primitives *)

Definition os_exn (e : exn) : Prop := match e with OSError _ => True | _ => False end.
Definition os_only {A} (r : py A) : Prop := match r with Ret _ => True | Raise e => os_exn e end.

Section primitives.
Context `{UnicodeData} `{Environment}.

(** Computations that may fail but change no node. *)
Definition silent {A} (m : st world A) : Prop := ∀ w, w_fs (m w).2 = w_fs w ∧ os_only (m w).1.

Lemma silent_syscall : silent syscall.
Proof. intros w. unfold syscall. destruct (env_fault (w_clock w)); (split; [reflexivity|exact I]). Qed.
Lemma silent_ret {A} (a : A) : silent (mret a).
Proof. by intros w. Qed.
Lemma silent_bind {A B} (m : st world A) (f : A → st world B) :
  silent m → (∀ a, silent (f a)) → silent (m ≫= f).
Proof.
  intros Hm Hf w. unfold mbind, st_bind. specialize (Hm w). destruct (m w) as [[a|e] w1]; [|done].
  cbn in Hm. specialize (Hf a w1). destruct Hm as [<- _]. done.
Qed.
Lemma silent_finally {A} (m : st world A) c : silent m → silent c → silent (finally m c).
Proof.
  intros Hm Hc w. unfold finally. specialize (Hm w). destruct (m w) as [r w1]. specialize (Hc w1).
  cbn in Hm. destruct Hm as [<- Hr]. destruct (c w1) as [[u|e] w2]; destruct Hc as [Hc Ho]; by split.
Qed.
Lemma silent_for_each {A} (l : list A) body : (∀ a, silent (body a)) → silent (for_each l body).
Proof.
  intros Hb. induction l as [|a l IH]; [apply silent_ret|]. cbn [for_each].
  apply silent_bind; [done|intros _; apply IH].
Qed.
Lemma silent_fsync p : silent (fsync_directory p).
Proof.
  apply silent_bind; [apply silent_syscall|intros _]. apply silent_finally; apply silent_syscall.
Qed.
Lemma silent_stage m : silent (stage_member m).
Proof.
  unfold stage_member. destruct (tm_kind m); repeat (apply silent_bind; [|intros _]); apply silent_syscall.
Qed.

(** A property of the outcome that depends on the file system alone. *)
Notation outcome A := (py A → fs → Prop).
Definition fwp {A} (m : st world A) (Q : outcome A) (w : world) : Prop := Q (m w).1 (w_fs (m w).2).

Lemma fwp_silent {A B} (m : st world A) (f : A → st world B) (Q : outcome B) w :
  silent m → (∀ e, os_exn e → Q (Raise e) (w_fs w)) →
  (∀ a w', w_fs w' = w_fs w → fwp (f a) Q w') → fwp (m ≫= f) Q w.
Proof.
  intros Hm He Hf. unfold fwp, mbind, st_bind. specialize (Hm w).
  destruct (m w) as [[a|e] w'], Hm as [E Hr]; cbn in *.
  - by apply Hf.
  - rewrite E. by apply He.
Qed.
Lemma fwp_last {A} (m : st world A) (Q : outcome A) w :
  silent m → (∀ r, os_only r → Q r (w_fs w)) → fwp m Q w.
Proof. intros Hm HQ. unfold fwp. destruct (Hm w) as [-> Hr]. by apply HQ. Qed.
Lemma fwp_bind {A B} (m : st world A) (f : A → st world B) (R : outcome A) (Q : outcome B) w :
  fwp m R w → (∀ e g, R (Raise e) g → Q (Raise e) g) →
  (∀ a w', R (Ret a) (w_fs w') → fwp (f a) Q w') → fwp (m ≫= f) Q w.
Proof.
  unfold fwp, mbind, st_bind. intros Hm He Hf. destruct (m w) as [[a|e] w']; cbn in *; auto.
Qed.
Lemma fwp_update {B} (g : fs → fs) (f : unit → st world B) (Q : outcome B) w :
  (∀ w', w_fs w' = g (w_fs w) → fwp (f tt) Q w') → fwp (update_fs g ≫= f) Q w.
Proof. intros Hf. unfold fwp. cbn. by apply (Hf (MkWorld (g (w_fs w)) (w_clock w) (w_store w))). Qed.
Lemma fwp_gets {A B} (h : world → A) (f : A → st world B) (Q : outcome B) w :
  fwp (f (h w)) Q w → fwp (gets h ≫= f) Q w.
Proof. done. Qed.
Lemma fwp_mono {A} (m : st world A) (R Q : outcome A) w :
  fwp m R w → (∀ r g, R r g → Q r g) → fwp m Q w.
Proof. unfold fwp. auto. Qed.

(** [p] holds [d] on success; on failure only [p] and new parents changed. *)
Definition settled (p : string) (d f : fs) (r : py unit) (g : fs) : Prop :=
  wf_fs g ∧ changed p f g ∧ match r with Ret _ => holds p d g | Raise e => os_exn e end.
Definition failed (p : string) (f g : fs) : Prop := wf_fs g ∧ changed p f g.

(** ** Parents *)

(** The directories [probe_loop] finds missing, deepest first. *)
Fixpoint climbs (f : fs) (p : string) (missing : list string) (probe : string) : Prop :=
  match missing with
  | [] => p = probe ∧ is_Some (f !! p)
  | q :: missing => q = p ∧ f !! p = None ∧ climbs f (dirname p) missing probe
  end.

Lemma probe_loop_climbs fuel f p acc :
  wf_fs f → directory p → (String.length p < fuel)%nat →
  ∃ missing probe, probe_loop fuel f p acc = Some (probe, acc ++ missing) ∧ climbs f p missing probe.
Proof.
  intros Hwf. revert p acc. induction fuel as [|fuel IH]; intros p acc Hd Hl; [lia|]. cbn [probe_loop].
  unfold lexists. destruct (f !! p) as [n|] eqn:Hp.
  - rewrite bool_decide_true by eauto. exists [], p. rewrite app_nil_r. split; [done|]. cbn. eauto.
  - rewrite bool_decide_false by by intros [? ?]. destruct Hd as [->|Hd].
    { by rewrite (wf_root f Hwf) in Hp. }
    pose proof (proper_shorter p Hd) as Hs. rewrite bool_decide_false by (intros E; rewrite <-E in Hs; lia).
    destruct (IH (dirname p) (acc ++ [p])) as (missing & probe & -> & Hc); [by apply proper_dirname|lia|].
    exists (p :: missing), probe. rewrite <-app_assoc. split; [done|]. by cbn.
Qed.

Lemma for_each_app {A} (l k : list A) (body : A → st world unit) w :
  for_each (l ++ k) body w = (for_each l body ≫= λ _, for_each k body) w.
Proof.
  revert w. induction l as [|a l IH]; intros w; [done|]. cbn [for_each app]. unfold mbind, st_bind in *.
  destruct (body a w) as [[u|e] w1]; [|done]. apply IH.
Qed.

Lemma mkdirs_grow f p missing probe w :
  climbs f p missing probe → w_fs w = f → wf_fs f → directory p → f !! probe = Some NDir →
  fwp (for_each (rev missing) mkdir)
    (λ r g, wf_fs g ∧ grown_to (String.length p) f g
            ∧ match r with Ret _ => g !! p = Some NDir | Raise e => os_exn e end) w.
Proof.
  intros Hc Hw Hwf. revert p Hc. induction missing as [|q missing IH]; intros p Hc Hd Hprobe.
  - destruct Hc as [-> _]. unfold fwp. cbn. rewrite Hw. split_and!; [done|apply grown_refl|done].
  - destruct Hc as (-> & Hp & Hc). cbn [rev]. unfold fwp. rewrite for_each_app.
    assert (proper p) as Hpp by (destruct Hd as [->|?]; [by rewrite (wf_root f Hwf) in Hp|done]).
    pose proof (proper_shorter p Hpp) as Hs.
    eapply (fwp_bind (for_each (rev missing) mkdir)); [apply (IH (dirname p)); [done|by apply proper_dirname|done]|..].
    + intros e g (Hg & Hgr & He). split_and!; [done|eapply grown_le, Hgr; lia|done].
    + intros _ w1 (Hg & Hgr & Hdir). cbn [for_each]. unfold mkdir.
      eapply (fwp_bind (_ ≫= _)) with (R := λ r g, wf_fs g ∧ grown_to (String.length p) f g
            ∧ match r with Ret _ => g !! p = Some NDir | Raise e => os_exn e end); [|done|].
      * apply fwp_silent; [apply silent_syscall| |].
        -- intros e He. split_and!; [done|eapply grown_le, Hgr; lia|done].
        -- intros _ w2 E. unfold fwp, update_fs, modify. cbn. rewrite E. split_and!.
           ++ apply wf_insert; auto.
           ++ intros q. destruct (decide (p = q)) as [<-|Hne].
              ** right. rewrite lookup_insert_eq. done.
              ** rewrite lookup_insert_ne by done. destruct (Hgr q) as [?|(? & ? & ?)]; [auto|].
                 right. split_and!; [done..|lia].
           ++ by rewrite lookup_insert_eq.
      * intros _ w2 HR. exact HR.
Qed.

Lemma verify_loop_total fuel f probe p :
  directory p → (String.length p < fuel)%nat →
  ∃ r, verify_loop fuel f probe p = Some r ∧ os_only r
  ∧ (r = Ret tt → p = "/" ∨ f !! p = Some NDir).
Proof.
  revert p. induction fuel as [|fuel IH]; intros p Hd Hl; [lia|]. cbn [verify_loop].
  destruct Hd as [->|Hd].
  { rewrite dirname_root, bool_decide_true by done. exists (Ret tt). split_and!; [done|done|auto]. }
  pose proof (proper_shorter p Hd) as Hs. rewrite bool_decide_false by (intros E; rewrite <-E in Hs; lia).
  unfold is_real_directory. destruct (decide (f !! p = Some NDir)) as [Hp|Hp].
  2: { rewrite bool_decide_false by done. eexists. split; [done|]. split; [done|]. done. }
  rewrite (bool_decide_true (f !! p = Some NDir)) by done. cbn [negb].
  destruct (bool_decide (p = probe)); [by exists (Ret tt); split_and!; [done|done|auto]|].
  destruct (IH (dirname p)) as (r & -> & Hr & _); [by apply proper_dirname|lia|]. exists r. auto.
Qed.

Lemma safe_parent_spec d w :
  wf_fs (w_fs w) → directory d →
  fwp (safe_parent d) (λ r g, wf_fs g ∧ grown_to (String.length d) (w_fs w) g
    ∧ match r with Ret _ => g !! d = Some NDir | Raise e => os_exn e end) w.
Proof.
  intros Hwf Hd. unfold safe_parent. apply fwp_silent; [apply silent_syscall| |].
  { intros e He. split_and!; [done|apply grown_refl|done]. }
  intros _ w1 Ew. apply fwp_gets. rewrite Ew.
  destruct (probe_loop_climbs (path_fuel d) (w_fs w) d []) as (missing & probe & -> & Hc);
    [done..|unfold path_fuel; lia|]. cbn [app]. apply fwp_gets. rewrite Ew.
  destruct (lexists (w_fs w) probe && negb (is_real_directory (w_fs w) probe)) eqn:Hu.
  { unfold fwp. cbn. rewrite Ew. split_and!; [done|apply grown_refl|done]. }
  assert (w_fs w !! probe = Some NDir) as Hp.
  { assert (lexists (w_fs w) probe = true) as Hl.
    { clear -Hc. revert d Hc. induction missing as [|q missing IH]; intros d Hc.
      - destruct Hc as [-> Hp]. by apply bool_decide_true.
      - destruct Hc as (_ & _ & Hc). by eapply IH. }
    rewrite Hl in Hu. cbn in Hu. apply negb_false_iff in Hu. by apply bool_decide_eq_true in Hu. }
  eapply fwp_bind; [by eapply mkdirs_grow|done|].
  intros _ w2 (Hg & Hgr & Hdir). apply fwp_gets.
  destruct (verify_loop_total (path_fuel d) (w_fs w2) probe d) as (r & -> & Hr & _);
    [done|unfold path_fuel; lia|].
  unfold fwp. cbn. split_and!; [done..|]. destruct r; [done|]. exact Hr.
Qed.

(** C30: looking for the nearest existing parent, creating the missing ones and
    checking them again always ends: the loops never exhaust their fuel. *)
Theorem safe_parent_terminates d w :
  wf_fs (w_fs w) → directory d → (safe_parent d w).1 ≠ Raise RecursionError.
Proof.
  intros Hwf Hd. destruct (safe_parent_spec d w Hwf Hd) as (_ & _ & Hr).
  intros E. by rewrite E in Hr.
Qed.

(** ** Removing *)

Lemma keys_under_spec p f q : q ∈ keys_under p f ↔ under p q = true ∧ is_Some (f !! q).
Proof.
  unfold keys_under. rewrite elem_of_sorted, list_elem_of_In, filter_In, <-list_elem_of_In.
  rewrite elem_of_elements, elem_of_dom. naive_solver.
Qed.

Lemma rmtree_loop p ks w :
  proper p → wf_fs (w_fs w) →
  (∀ q, under p q = true → is_Some (w_fs w !! q) → q ∈ ks) → Forall (λ q, under p q = true) ks →
  StronglySorted (key_le (λ key, (- Z.of_nat (String.length key))%Z)) ks →
  fwp (for_each ks (λ key, syscall ;; update_fs (delete key)))
    (settled p ∅ (w_fs w)) w.
Proof.
  intros Hp. revert w. induction ks as [|k ks IH]; intros w Hwf Hall Hu Hs.
  - unfold fwp. cbn. split_and!; [done|apply changed_refl|]. intros q Hq. rewrite lookup_empty.
    apply eq_None_not_Some. intros Hk%Hall; [|done]. by apply elem_of_nil in Hk.
  - apply Forall_cons in Hu as [Hk Hu]. inversion Hs as [|? ? Hs' Hle]; subst.
    cbn [for_each]. eapply (fwp_bind (_ ≫= _)) with
      (R := λ r g, wf_fs g ∧ match r with Ret _ => g = delete k (w_fs w) | Raise e => g = w_fs w ∧ os_exn e end).
    + apply fwp_silent; [apply silent_syscall|done|]. intros _ w1 E. unfold fwp. cbn. rewrite E. split; [|done].
      destruct (w_fs w !! k) as [n|] eqn:Hn; [|by rewrite delete_id].
      assert (proper k) as Hpk.
      { destruct (wf_keys _ Hwf _ _ Hn) as [->|[? _]]; [|done]. apply under_length in Hk.
        pose proof (proper_shorter p Hp) as Hl. destruct (proper_dirname p Hp) as [E'|E'];
          [rewrite E' in Hl|apply proper_shorter in E']; cbn in *; lia. }
      apply wf_delete; [done..|]. intros q Hq Hd. apply eq_None_not_Some. intros Hsome.
      pose proof (proper_shorter q Hq) as Hlq. rewrite Hd in Hlq.
      assert (under p q = true) as Huq.
      { apply under_child; [done..|]. by rewrite Hd. }
      apply Hall in Hsome; [|done]. apply elem_of_cons in Hsome as [->|Hin]; [lia|].
      rewrite Forall_forall in Hle. apply Hle in Hin. apply Z.leb_le in Hin. lia.
    + intros e g (Hg & -> & He). split_and!; [done|apply changed_refl|done].
    + intros _ w1 (Hg & E). eapply fwp_mono; [apply IH|].
      * done.
      * rewrite E. intros q Hq [n Hn]. apply lookup_delete_Some in Hn as [Hne Hn].
        assert (q ∈ k :: ks) as Hin by (apply Hall; eauto). apply elem_of_cons in Hin as [->|?]; done.
      * done.
      * done.
      * intros r g (Hg' & Hc & Hr). split_and!; [done| |done].
        eapply changed_trans; [|exact Hc]. rewrite E. intros q. destruct (decide (k = q)) as [<-|Hne]; [auto|].
        right. left. by rewrite lookup_delete_ne.
Qed.

Lemma settled_raise p d f e g : os_exn e → wf_fs g → changed p f g → settled p d f (Raise e) g.
Proof. done. Qed.

(** What follows a change and only makes system calls. *)
Lemma settled_then_silent p d f (m : st world unit) w :
  silent m → settled p d f (Ret tt) (w_fs w) → fwp m (settled p d f) w.
Proof.
  intros Hm (Hwf & Hc & Hh). apply fwp_last; [done|]. intros [[]|e] He; split_and!; done.
Qed.

Lemma rmtree_spec p w :
  proper p → wf_fs (w_fs w) → fwp (rmtree p) (settled p ∅ (w_fs w)) w.
Proof.
  intros Hp Hwf. unfold rmtree. apply fwp_gets. apply rmtree_loop; [done..| | |].
  - intros q Hq Hs. by apply keys_under_spec.
  - apply Forall_forall. intros q Hq. by apply keys_under_spec in Hq as [? _].
  - apply sorted_sorted.
Qed.

Lemma remove_spec p w : proper p → wf_fs (w_fs w) → fwp (remove p) (settled p ∅ (w_fs w)) w.
Proof.
  intros Hp Hwf. unfold remove. apply fwp_silent; [apply silent_syscall| |].
  { intros e He. split_and!; [done|apply changed_refl|done]. }
  intros _ w1 E. apply fwp_gets. rewrite E.
  assert (∀ n, w_fs w !! p = Some n → n ≠ NDir →
    fwp ((syscall ;; update_fs (delete p)) ;; fsync_directory (dirname p)) (settled p ∅ (w_fs w)) w1) as Hleaf.
  { intros n Hn Hne. eapply (fwp_bind (_ ≫= _)) with (R := settled p ∅ (w_fs w)).
    - apply fwp_silent; [apply silent_syscall| |].
      { intros e He. rewrite E. split_and!; [done|apply changed_refl|done]. }
      intros _ w2 E2. unfold fwp. cbn. rewrite E2, E. split_and!.
      + apply wf_delete; [done..|]. intros q Hq Hd. apply wf_leaf with p; [done..|congruence| |].
        * apply under_child; [done..|]. rewrite Hd. apply under_refl.
        * intros ->. apply proper_shorter in Hq. rewrite Hd in Hq. lia.
      + intros q. destruct (decide (p = q)) as [<-|Hn']; [left; apply under_refl|].
        right. left. by rewrite lookup_delete_ne.
      + intros q Hq. rewrite lookup_empty. destruct (decide (p = q)) as [<-|Hn']; [by rewrite lookup_delete_eq|].
        rewrite lookup_delete_ne by done. apply wf_leaf with p; [done..|congruence|done|done].
    - intros e g Hg. exact Hg.
    - intros [] w2 Hs. apply settled_then_silent; [apply silent_fsync|done]. }
  destruct (w_fs w !! p) as [[| | |]|] eqn:Hn; [by eapply Hleaf| |by eapply Hleaf..|].
  - eapply fwp_bind; [apply rmtree_spec; [done|by rewrite E]|by rewrite E|].
    intros [] w2 Hs. rewrite E in Hs. apply settled_then_silent; [apply silent_fsync|done].
  - unfold fwp. cbn. rewrite E. split_and!; [done|apply changed_refl|].
    intros q Hq. rewrite lookup_empty. destruct (decide (p = q)) as [<-|Hne]; [done|].
    apply wf_leaf with p; [done..|congruence|done|done].
Qed.

Lemma replace_with_spec p n w :
  proper p → wf_fs (w_fs w) → w_fs w !! dirname p = Some NDir →
  fwp (replace_with p n) (settled p {[ p := n ]} (w_fs w)) w.
Proof.
  intros Hp Hwf Hd. unfold replace_with. apply fwp_silent; [apply silent_syscall| |].
  { intros e He. split_and!; [done|apply changed_refl|done]. }
  intros _ w1 E. apply fwp_gets. unfold is_real_directory. rewrite E.
  destruct (decide (w_fs w !! p = Some NDir)) as [Hn|Hn].
  { rewrite bool_decide_true by done. unfold fwp. cbn. rewrite E. split_and!; [done|apply changed_refl|done]. }
  rewrite bool_decide_false by done. unfold fwp. cbn. rewrite E. split_and!.
  - apply wf_insert; auto.
  - intros q. destruct (decide (p = q)) as [<-|Hne]; [left; apply under_refl|].
    right. left. by rewrite lookup_insert_ne.
  - intros q Hq. destruct (decide (p = q)) as [<-|Hne]; [by rewrite lookup_insert_eq, lookup_singleton_eq|].
    rewrite lookup_insert_ne, lookup_singleton_ne by done. apply wf_leaf with p; done.
Qed.

(** A settled step after a step that only created parents. *)
Lemma settled_after_parents p d f g r h :
  grown_to (String.length (dirname p)) f g → settled p d g r h → settled p d f r h.
Proof.
  intros Hg (Hwf & Hc & Hr). split_and!; [done| |done].
  eapply changed_trans; [by eapply grown_changed|done].
Qed.

Lemma with_parent p d (m : st world unit) w :
  proper p → wf_fs (w_fs w) →
  (∀ w', wf_fs (w_fs w') → grown_to (String.length (dirname p)) (w_fs w) (w_fs w') →
         w_fs w' !! dirname p = Some NDir → fwp m (settled p d (w_fs w')) w') →
  fwp (safe_parent (dirname p) ;; m) (settled p d (w_fs w)) w.
Proof.
  intros Hp Hwf Hm. eapply fwp_bind.
  - apply safe_parent_spec; [done|by apply proper_dirname].
  - intros e g (Hg & Hgr & He). split_and!; [done|by eapply grown_changed|done].
  - intros [] w1 (Hg & Hgr & Hd). eapply fwp_mono; [by apply Hm|].
    intros r g Hs. by eapply settled_after_parents.
Qed.

Lemma silent_then p d f (m : st world unit) (k : unit → st world unit) w :
  silent m → wf_fs (w_fs w) → f = w_fs w →
  (∀ w', w_fs w' = f → fwp (k tt) (settled p d f) w') → fwp (m ≫= k) (settled p d f) w.
Proof.
  intros Hm Hwf -> Hk. apply fwp_silent; [done| |].
  - intros e He. split_and!; [done|apply changed_refl|done].
  - intros [] w' E. by apply Hk.
Qed.

Ltac next_call :=
  apply silent_then; [apply silent_syscall|congruence|congruence|];
  let w := fresh "w" in let E := fresh "E" in intros w E.
Lemma write_atomic_spec p c x w :
  proper p → wf_fs (w_fs w) →
  fwp (write_atomic p c x) (settled p {[ p := NFile c x ]} (w_fs w)) w.
Proof.
  intros Hp Hwf. unfold write_atomic. apply with_parent; [done..|]. intros w1 Hwf1 _ Hd.
  next_call. next_call. next_call. next_call.
  match goal with E : w_fs ?w = _ |- fwp _ _ ?w => rename w into w5; rename E into E5 end.
  eapply fwp_bind; [apply replace_with_spec; [done|congruence..]|by rewrite E5|].
  - intros [] w6 Hs. rewrite E5 in Hs. apply settled_then_silent; [|done].
    apply silent_bind; [apply silent_syscall|intros _; apply silent_fsync].
Qed.

Lemma write_symlink_spec p target w :
  proper p → wf_fs (w_fs w) →
  fwp (write_symlink p target) (settled p {[ p := NLink target ]} (w_fs w)) w.
Proof.
  intros Hp Hwf. unfold write_symlink. apply with_parent; [done..|]. intros w1 Hwf1 _ Hd.
  next_call. next_call. next_call. next_call. apply fwp_gets.
  match goal with E : w_fs ?w = _ |- fwp _ _ ?w => rename w into w2'; rename E into E2 end.
  assert (∀ w3, settled p {[ p := NLink target ]} (w_fs w1) (Ret tt) (w_fs w3) →
    fwp (fsync_directory (dirname p)) (settled p {[ p := NLink target ]} (w_fs w1)) w3) as Hlast
    by (intros; by apply settled_then_silent; [apply silent_fsync|]).
  eapply fwp_bind with (R := λ r g, wf_fs g ∧ changed p (w_fs w1) g ∧
    match r with Ret _ => g !! dirname p = Some NDir | Raise e => os_exn e end).
  - destruct (is_real_directory _ _).
    + eapply fwp_mono; [apply remove_spec; [done|congruence]|]. rewrite E2.
      intros r g (Hg & Hc & Hr). split_and!; [done..|]. destruct r; [|done].
      destruct (Hc (dirname p)) as [Hu|[->|[Hn _]]]; [by rewrite not_under_dirname in Hu|done|congruence].
    + unfold fwp. cbn. rewrite E2. split_and!; [done|apply changed_refl|done].
  - done.
  - intros [] w7 (Hg & Hc & Hd3). eapply fwp_bind; [by apply replace_with_spec|..].
    + intros e g (Hg' & Hc' & He). split_and!; [done|by eapply changed_trans|done].
    + intros [] w8 (Hg' & Hc' & Hh). apply Hlast. split_and!; [done|by eapply changed_trans|done].
Qed.

(** ** Trees *)

Definition clean_member (m : TreeMember) : Prop :=
  sp_parts (tm_path m) ≠ [] ∧ forallb clean (sp_parts (tm_path m)) = true.

(** A staged tree for [p]: rooted there, every node in a directory. *)
Definition staged_at (p : string) (t : fs) : Prop :=
  t !! p = Some NDir ∧
  ∀ q n, t !! q = Some n → under p q = true ∧ (q = p ∨ (proper q ∧ t !! dirname q = Some NDir)).

Lemma staged_insert p t q n :
  proper p → staged_at p t → proper q → under p q = true → q ≠ p → t !! dirname q = Some NDir →
  (n = NDir ∨ t !! q = None) → staged_at p (<[q := n]> t).
Proof.
  intros Hp [Ht Hk] Hq Hu Hne Hd Hn. pose proof (proper_shorter q Hq) as Hs. split.
  { by rewrite lookup_insert_ne. }
  intros q' m. destruct (decide (q = q')) as [<-|Hqq].
  - intros _. split; [done|]. right. split; [done|].
    rewrite lookup_insert_ne; [done|]. intros E. rewrite <-E in Hs. lia.
  - rewrite lookup_insert_ne by done. intros [Hu' Hc]%Hk. split; [done|].
    destruct Hc as [->|[Hq' Hd']]; [by left|right]. split; [done|].
    destruct (decide (q = dirname q')) as [E|Hqd]; [|by rewrite lookup_insert_ne].
    rewrite <-E in *. destruct Hn as [->|Hn]; [by rewrite lookup_insert_eq|congruence].
Qed.

(** Members lie strictly below their root, each in its parent. *)
Lemma below_facts ps parts :
  ps ≠ [] → forallb clean ps = true → parts ≠ [] → forallb clean parts = true →
  proper (below (at_ ps) parts) ∧ under (at_ ps) (below (at_ ps) parts) = true
  ∧ below (at_ ps) parts ≠ at_ ps
  ∧ dirname (below (at_ ps) parts) = at_ (ps ++ take (length parts - 1) parts).
Proof.
  intros Hne Hp Hq Hc. rewrite below_at by done.
  assert (forallb clean (ps ++ parts) = true) as Hpc by by rewrite forallb_app, Hp.
  split_and!.
  - exists (ps ++ parts). split_and!; [by destruct ps|done|done].
  - apply under_at; eauto.
  - intros E%at_inj; [|done..]. apply (f_equal length) in E. rewrite length_app in E.
    destruct parts; [done|]. cbn in E. lia.
  - destruct parts as [|c l _] using rev_ind; [done|]. rewrite length_app. cbn [length].
    replace (length l + 1 - 1)%nat with (length l) by lia. rewrite take_app_length, app_assoc.
    rewrite forallb_app in Hc. apply andb_true_iff in Hc as [Hl Hc]. cbn in Hc. rewrite andb_true_r in Hc.
    apply dirname_at; [by rewrite forallb_app, Hp|done].
Qed.

Lemma clean_take (parts : list string) n : forallb clean parts = true → forallb clean (take n parts) = true.
Proof.
  intros Hf. rewrite <-(take_drop n parts), forallb_app in Hf. by apply andb_true_iff in Hf as [? _].
Qed.

Lemma stage_directory_Some p parts t t' :
  stage_directory p parts t = Some t' →
  t' = <[below p parts := NDir]> t ∧ (t !! below p parts = None ∨ t !! below p parts = Some NDir).
Proof. unfold stage_directory. destruct (t !! below p parts) as [[]|]; naive_solver. Qed.

Definition stage_parents (p : string) (parents : list (list string)) (t : option fs) : option fs :=
  foldl (λ f parents, f ← f; stage_directory p parents f) t parents.

Lemma stage_parents_app p l k t : stage_parents p (l ++ k) t = stage_parents p k (stage_parents p l t).
Proof. apply foldl_app. Qed.

Lemma ancestors_seq (parts : list string) n :
  (S n < length parts)%nat →
  map (λ k, take k parts) (seq 1 (S n)) = map (λ k, take k parts) (seq 1 n) ++ [take (S n) parts].
Proof. intros _. by rewrite seq_S, map_app. Qed.

Lemma stage_parents_spec ps parts n t t' :
  ps ≠ [] → forallb clean ps = true → forallb clean parts = true → (n < length parts)%nat →
  staged_at (at_ ps) t → stage_parents (at_ ps) (map (λ k, take k parts) (seq 1 n)) (Some t) = Some t' →
  staged_at (at_ ps) t' ∧ t' !! at_ (ps ++ take n parts) = Some NDir.
Proof.
  intros Hne Hp Hc. assert (proper (at_ ps)) as Hpp by (by exists ps).
  revert t'. induction n as [|n IH]; intros t' Hn Ht Hs.
  { cbn in Hs. simplify_eq. rewrite take_0, app_nil_r. split; [done|]. apply Ht. }
  rewrite ancestors_seq, stage_parents_app in Hs by done.
  destruct (stage_parents _ _ (Some t)) as [t1|] eqn:E; [|done]. cbn in Hs.
  destruct (IH t1) as [Ht1 Hd]; [lia|done|done|]. apply stage_directory_Some in Hs as [-> Hold].
  assert (take (S n) parts ≠ []) as Hne' by (destruct parts; [cbn in Hn; lia|done]).
  destruct (below_facts ps (take (S n) parts)) as (Hpr & Hu & Hnr & Hdir); [done..|by apply clean_take|].
  rewrite length_take, take_take in Hdir.
  replace (Nat.min (Nat.min (S n) (length parts) - 1) (S n)) with n in Hdir by lia.
  split; [apply staged_insert; auto; by rewrite Hdir|].
  rewrite below_at by done. by rewrite lookup_insert_eq.
Qed.

Lemma place_member_staged ps t m t' :
  ps ≠ [] → forallb clean ps = true → clean_member m → staged_at (at_ ps) t →
  place_member (at_ ps) t m = Some t' → staged_at (at_ ps) t'.
Proof.
  intros Hne Hp [Hq Hc] Ht. unfold place_member. set (parts := sp_parts (tm_path m)) in *.
  fold (stage_parents (at_ ps) (ancestors parts) (Some t)). unfold ancestors.
  destruct (stage_parents _ _ (Some t)) as [t1|] eqn:E; [|done]. cbn [mbind option_bind].
  assert (proper (at_ ps)) as Hpp by (by exists ps).
  destruct (stage_parents_spec ps parts (length parts - 1) t t1) as [Ht1 Hd]; [done..| |done|done|].
  { destruct parts; [done|cbn; lia]. }
  destruct (below_facts ps parts) as (Hpr & Hu & Hnr & Hdir); [done..|]. rewrite <-Hdir in Hd.
  destruct (tm_kind m).
  - destruct (t1 !! below (at_ ps) parts) eqn:Hold; [done|]. intros [= <-]. apply staged_insert; auto.
  - intros [-> Hold]%stage_directory_Some. apply staged_insert; auto.
Qed.

Lemma tree_nodes_staged p members t :
  proper p → Forall clean_member members → tree_nodes p members = Some t → staged_at p t.
Proof.
  intros Hpp Hm. assert (staged_at p {[p := NDir]}) as Ht0.
  { split; [by rewrite lookup_singleton_eq|]. intros q n [<- <-]%lookup_singleton_Some.
    split; [apply under_refl|by left]. }
  destruct Hpp as (ps & Hne & Hp & ->). unfold tree_nodes. revert Ht0.
  generalize ({[at_ ps := NDir]} : fs) as t0. induction Hm as [|m members Hc Hm IH]; intros t0 Ht0.
  - intros [= <-]. done.
  - cbn [foldl]. cbn [mbind option_bind]. destruct (place_member (at_ ps) t0 m) as [t1|] eqn:E.
    + apply IH. by eapply place_member_staged.
    + assert (foldl (λ f m, f ← f; place_member (at_ ps) f m) None members = None) as ->; [|done].
      clear. by induction members.
Qed.

Lemma staged_union p t f :
  proper p → staged_at p t → wf_fs f → holds p ∅ f → f !! dirname p = Some NDir →
  wf_fs (t ∪ f) ∧ changed p f (t ∪ f) ∧ holds p t (t ∪ f).
Proof.
  intros Hp [Ht Hk] Hwf He Hd.
  assert (∀ q, under p q = false → (t ∪ f) !! q = f !! q) as Hout.
  { intros q Hu. apply lookup_union_r. apply eq_None_not_Some. intros [n Hn].
    apply Hk in Hn as [Hn _]. congruence. }
  assert (∀ q, under p q = true → (t ∪ f) !! q = t !! q) as Hin.
  { intros q Hu. rewrite lookup_union. rewrite (He q Hu), lookup_empty. by destruct (t !! q). }
  assert (∀ q, under p q = true ∨ under p q = false) as Hor by (intros q; destruct (under p q); auto).
  split_and!; [|intros q; destruct (Hor q) as [Hu|Hu]; [by left|right; left; auto]|done].
  split.
  - rewrite Hout; [apply Hwf|]. apply not_true_iff_false. intros Hu%under_length.
    destruct (proper_dirname p Hp) as [E|E]; pose proof (proper_shorter p Hp) as Hl.
    + rewrite E in Hl. cbn in *. lia.
    + apply proper_shorter in E. cbn in *. lia.
  - intros q n Hn. destruct (Hor q) as [Hu|Hu].
    + rewrite Hin in Hn by done. right. apply Hk in Hn as [_ [->|[Hq Hqd]]].
      * split; [done|]. rewrite Hout; [done|by apply not_under_dirname].
      * split; [done|]. destruct (Hk _ _ Hqd) as [Hud _]. by rewrite Hin.
    + rewrite Hout in Hn by done. destruct (wf_keys f Hwf q n Hn) as [->|[Hq Hqd]]; [by left|right].
      split; [done|]. destruct (Hor (dirname q)) as [Hud|Hud]; [|by rewrite Hout].
      apply under_child in Hud; [congruence|done..].
Qed.

Lemma write_tree_spec p members t w :
  proper p → Forall clean_member members → tree_nodes p members = Some t → wf_fs (w_fs w) →
  fwp (write_tree p members) (settled p t (w_fs w)) w.
Proof.
  intros Hp Hm Ht Hwf. unfold write_tree. apply with_parent; [done..|]. intros w1 Hwf1 _ Hd. rewrite Ht.
  next_call. apply silent_then; [apply silent_for_each, silent_stage|congruence|congruence|].
  intros w3 E3. eapply fwp_bind; [apply remove_spec; [done|congruence]|by rewrite E3|].
  intros [] w4 (Hwf4 & Hc4 & Hh4). rewrite E3 in Hc4.
  assert (w_fs w4 !! dirname p = Some NDir) as Hd4.
  { destruct (Hc4 (dirname p)) as [Hu|[->|[Hn _]]]; [by rewrite not_under_dirname in Hu|done|congruence]. }
  apply fwp_silent; [apply silent_syscall| |].
  { intros e He. by split_and!. }
  intros _ w5 E5. apply fwp_update. intros w6 E6. apply settled_then_silent; [apply silent_fsync|].
  rewrite E6, E5. destruct (staged_union p t (w_fs w4)) as (Hu1 & Hu2 & Hu3);
    [done|by eapply tree_nodes_staged|done..|].
  split_and!; [done|by eapply changed_trans|done].
Qed.

(** A tree that cannot be staged is an error before anything is removed. *)
Lemma write_tree_unstaged p members w :
  proper p → tree_nodes p members = None → wf_fs (w_fs w) →
  fwp (write_tree p members) (λ r g, failed p (w_fs w) g ∧ ∃ e, r = Raise e ∧ os_exn e) w.
Proof.
  intros Hp Ht Hwf. unfold write_tree. rewrite Ht. eapply fwp_bind.
  - apply safe_parent_spec; [done|by apply proper_dirname].
  - intros e g (Hg & Hgr & He). split; [by split; [|eapply grown_changed]|eauto].
  - intros [] w1 (Hg & Hgr & Hd). apply fwp_silent; [apply silent_syscall| |].
    { intros e He. split; [by split; [|eapply grown_changed]|eauto]. }
    intros _ w2 E2. apply fwp_silent; [apply silent_for_each, silent_stage| |].
    { intros e He. rewrite E2. split; [by split; [|eapply grown_changed]|eauto]. }
    intros _ w3 E3. unfold fwp. cbn. rewrite E3, E2. split; [by split; [|eapply grown_changed]|].
    eexists. done.
Qed.

(** ** Inspecting and restoring *)

(** The nodes a snapshot stands for; a special file has none to restore. *)
Definition snapshot_nodes (s : PathSnapshot) : option fs :=
  match ps_kind s with
  | PABSENT => Some ∅
  | PFILE => Some {[ ps_path s := NFile (ps_content s) (ps_executable s) ]}
  | PTREE => tree_nodes (ps_path s) (ps_members s)
  | PSYMLINK => (λ target, {[ ps_path s := NLink target ]}) <$> ps_link_target s
  | PSPECIAL => None
  end.

(** A staged tree that copies part of [f]: its files are members already placed. *)
Definition copied (p : string) (f : fs) (done' : list string) (t : fs) : Prop :=
  t !! p = Some NDir ∧ (∀ q, q ∈ done' → is_Some (t !! q))
  ∧ ∀ q n, t !! q = Some n → f !! q = Some n ∧ (n = NDir ∨ q ∈ done').

Lemma copied_insert p f ks t q n :
  copied p f ks t → q ≠ p → f !! q = Some n → copied p f (q :: ks) (<[q := n]> t).
Proof.
  intros (Hp & Hd & Hk) Hne Hq. split_and!.
  - by rewrite lookup_insert_ne.
  - intros q' [->|Hin]%elem_of_cons; [rewrite lookup_insert_eq; eauto|].
    destruct (decide (q = q')) as [->|]; [rewrite lookup_insert_eq; eauto|].
    rewrite lookup_insert_ne by done. auto.
  - intros q' n'. destruct (decide (q = q')) as [<-|Hqq].
    + rewrite lookup_insert_eq. intros [= <-]. split; [done|]. right. set_solver.
    + rewrite lookup_insert_ne by done. intros [? [?|?]]%Hk; split; auto. right. set_solver.
Qed.
Lemma copied_directory p f ks t q :
  copied p f ks t → q ≠ p → f !! q = Some NDir → copied p f ks (<[q := NDir]> t).
Proof.
  intros Hc Hne Hq. pose proof Hc as (Hp & Hd & Hk). split_and!.
  - by rewrite lookup_insert_ne.
  - intros q' Hin. destruct (decide (q = q')) as [->|]; [rewrite lookup_insert_eq; eauto|].
    rewrite lookup_insert_ne by done. auto.
  - intros q' n'. destruct (decide (q = q')) as [<-|Hqq].
    + rewrite lookup_insert_eq. intros [= <-]. auto.
    + rewrite lookup_insert_ne by done. apply Hk.
Qed.

Lemma stage_directory_copied p f ks t parts :
  copied p f ks t → below p parts ≠ p → f !! below p parts = Some NDir →
  ∃ t', stage_directory p parts t = Some t' ∧ t' = <[below p parts := NDir]> t ∧ copied p f ks t'.
Proof.
  intros Hc Hne Hf. unfold stage_directory. destruct (t !! below p parts) as [n|] eqn:Ht.
  - destruct Hc as (Hp & Hd & Hk). destruct (Hk _ _ Ht) as [Hn _]. assert (n = NDir) as -> by congruence.
    eexists. split; [done|]. split; [done|]. by apply copied_directory.
  - eexists. split; [done|]. split; [done|]. by apply copied_directory.
Qed.

Lemma stage_parents_copied ps f ks t parts n :
  wf_fs f → ps ≠ [] → forallb clean ps = true → forallb clean parts = true → (n < length parts)%nat →
  is_Some (f !! at_ (ps ++ parts)) → copied (at_ ps) f ks t →
  ∃ t', stage_parents (at_ ps) (map (λ k, take k parts) (seq 1 n)) (Some t) = Some t' ∧ copied (at_ ps) f ks t'.
Proof.
  intros Hwf Hne Hp Hc Hn Hs. revert Hn. induction n as [|n IH]; intros Hn Ht; [by exists t|].
  rewrite ancestors_seq, stage_parents_app by done.
  destruct IH as (t1 & -> & Ht1); [lia|done|]. cbn.
  assert (take (S n) parts ≠ []) as Hne' by (destruct parts; [cbn in Hn; lia|done]).
  destruct (below_facts ps (take (S n) parts)) as (Hpr & Hu & Hnr & _); [done..|by apply clean_take|].
  destruct (stage_directory_copied (at_ ps) f ks t1 (take (S n) parts)) as (t' & -> & _ & Ht');
    [done|done| |by exists t'].
  apply wf_above with (at_ (ps ++ parts)); [done..| | |done].
  - rewrite below_at by done. apply under_at.
    + by destruct ps.
    + rewrite forallb_app, Hp. by apply clean_take.
    + by rewrite forallb_app, Hp.
    + exists (drop (S n) parts). by rewrite <-app_assoc, take_drop.
  - rewrite below_at by done. intros E%at_inj.
    + apply (f_equal length) in E. rewrite !length_app, length_take in E. lia.
    + rewrite forallb_app, Hp. by apply clean_take.
    + by rewrite forallb_app, Hp.
Qed.

Definition member_key (p : string) (m : TreeMember) : string := below p (sp_parts (tm_path m)).

Lemma place_member_copied ps f ks t m :
  wf_fs f → ps ≠ [] → forallb clean ps = true → clean_member m →
  f !! member_key (at_ ps) m = Some (member_node m) → member_key (at_ ps) m ∉ ks →
  copied (at_ ps) f ks t →
  ∃ t', place_member (at_ ps) t m = Some t' ∧ copied (at_ ps) f (member_key (at_ ps) m :: ks) t'.
Proof.
  intros Hwf Hne Hp [Hq Hc] Hf Hfresh Ht. unfold place_member, member_key in *.
  set (parts := sp_parts (tm_path m)) in *.
  destruct (below_facts ps parts) as (_ & _ & Hnr & _); [done..|].
  fold (stage_parents (at_ ps) (ancestors parts) (Some t)). unfold ancestors.
  destruct (stage_parents_copied ps f ks t parts (length parts - 1)) as (t1 & -> & Ht1);
    [done..| | |done|].
  { destruct parts; [done|cbn; lia]. }
  { rewrite <-below_at by done. eauto. }
  cbn [mbind option_bind]. unfold member_node in *. destruct (tm_kind m).
  - destruct (t1 !! below (at_ ps) parts) as [n|] eqn:Hold.
    + destruct Ht1 as (_ & _ & Hk). destruct (Hk _ _ Hold) as [Hn [->|?]]; [congruence|done].
    + eexists. split; [done|]. by apply copied_insert.
  - destruct (stage_directory_copied (at_ ps) f ks t1 parts) as (t' & -> & -> & _); [done..|].
    eexists. split; [done|]. by apply copied_insert.
Qed.

Lemma tree_nodes_copied p f members :
  wf_fs f → proper p → f !! p = Some NDir → Forall clean_member members →
  Forall (λ m, f !! member_key p m = Some (member_node m)) members →
  NoDup (map (member_key p) members) →
  (∀ q, under p q = true → q ≠ p → is_Some (f !! q) → q ∈ map (member_key p) members) →
  ∃ t, tree_nodes p members = Some t ∧ holds p t f.
Proof.
  intros Hwf (ps & Hne & Hp & ->) Hroot Hc Hf Hd Hall.
  assert (∀ ks t, copied (at_ ps) f ks t → (∀ k, k ∈ ks → k ∉ map (member_key (at_ ps)) members) →
    ∃ t', foldl (λ f m, f ← f; place_member (at_ ps) f m) (Some t) members = Some t'
          ∧ copied (at_ ps) f (rev (map (member_key (at_ ps)) members) ++ ks) t') as Hfold.
  { clear Hall Hroot. revert Hf Hd. induction Hc as [|m members Hm Hc IH]; intros Hf Hd ks t Ht Hks.
    - by exists t.
    - apply Forall_cons in Hf as [Hfm Hf]. cbn [map] in Hd. apply NoDup_cons in Hd as [Hn Hd].
      cbn [foldl]. destruct (place_member_copied ps f ks t m) as (t1 & E & Ht1); [done..| |done|].
      { intros Hin. apply (Hks _ Hin). cbn. set_solver. }
      cbn [mbind option_bind]. rewrite E. destruct (IH Hf Hd (member_key (at_ ps) m :: ks) t1) as (t' & -> & Ht').
      + done.
      + intros k [->|Hk]%elem_of_cons; [done|]. intros Hin. apply (Hks k Hk). cbn. set_solver.
      + exists t'. split; [done|]. cbn [map rev]. by rewrite <-app_assoc. }
  destruct (Hfold [] {[at_ ps := NDir]}) as (t & E & Hcp & Hdone & Hk).
  - split_and!; [by rewrite lookup_singleton_eq|set_solver|].
    intros q n [<- <-]%lookup_singleton_Some. auto.
  - set_solver.
  - exists t. split; [done|]. intros q Hu. destruct (t !! q) as [n|] eqn:Ht; [by apply Hk in Ht as [? _]|].
    destruct (f !! q) as [n|] eqn:Hq; [|done]. exfalso.
    destruct (decide (q = at_ ps)) as [->|Hnq]; [congruence|].
    assert (is_Some (t !! q)) as [n' Hn']; [|congruence]. apply Hdone. rewrite app_nil_r.
    apply list_elem_of_In, in_rev. rewrite rev_involutive. apply list_elem_of_In, Hall; eauto.
Qed.

Lemma safe_part_clean c : safe_part c = true → clean c = true.
Proof.
  unfold safe_part, clean.
  intros [[[[He Hm]%andb_true_iff Hs]%andb_true_iff _]%andb_true_iff _]%andb_true_iff. by rewrite He, Hm, Hs.
Qed.

Lemma wf_path_clean q : wf_path q = true → sp_parts q ≠ [] ∧ forallb clean (sp_parts q) = true.
Proof.
  unfold wf_path.
  intros [[[[Hn Hs]%andb_true_iff _]%andb_true_iff _]%andb_true_iff _]%andb_true_iff.
  split; [by apply negb_true_iff, bool_decide_eq_false in Hn|].
  rewrite forallb_forall in *. intros c Hc. by apply safe_part_clean, Hs.
Qed.

Lemma inspect_member_spec root key n m :
  inspect_member root key n = Ret m → under root key = true → key ≠ root →
  clean_member m ∧ member_node m = n ∧ member_key root m = key.
Proof.
  intros Hi Hu Hne. unfold under in Hu. apply orb_true_iff in Hu as [Hu%String.eqb_eq|Hu]; [done|].
  apply prefix_drop in Hu. rewrite str_length_app in Hu. cbn [String.length] in Hu.
  unfold inspect_member in Hi. set (relative := str_drop _ _) in *.
  assert (∀ k c x, (path ← match parse_relative_path relative None with
      | Ok path => if MAX_TREE_DEPTH <? count (sp_parts path)
                   then raise_os ("install tree path is unsafe: " +:+ relative) else Ret path
      | Err _ => raise_os ("install tree path is unsafe: " +:+ relative) end;
      tree_member (MkTreeMember path k c x)) = Ret m →
    ∃ path, m = MkTreeMember path k c x ∧ clean_member m ∧ member_key root m = key) as Hm.
  { intros k c x (path & Hp & Hm)%bind_Ret.
    destruct (parse_relative_path relative None) as [path'|] eqn:Hparse; [|done].
    destruct (MAX_TREE_DEPTH <? _); [done|]. injection Hp as ->.
    apply parse_relative_path_exact in Hparse as [Hstr Hw].
    assert (m = MkTreeMember path k c x) as ->.
    { unfold tree_member in Hm. apply bind_Ret in Hm as (_ & _ & (_ & _ & [= ->])%bind_Ret). done. }
    exists path. split_and!; [done| |].
    - by apply wf_path_clean.
    - unfold member_key, below. cbn [tm_path]. fold (path_str path). rewrite Hstr.
      rewrite Hu. by rewrite <-str_app_assoc. }
  destruct n as [content executable| | |]; [|by apply Hm in Hi as (path & -> & ? & ?)|done..].
  destruct (MAX_FILE_BYTES <? _); [done|]. by apply Hm in Hi as (path & -> & ? & ?).
Qed.

Lemma inspect_tree_spec f p members :
  inspect_tree f p = Ret members →
  Forall clean_member members ∧ Forall (λ m, f !! member_key p m = Some (member_node m)) members
  ∧ NoDup (map (member_key p) members)
  ∧ ∀ q, under p q = true → q ≠ p → is_Some (f !! q) → q ∈ map (member_key p) members.
Proof.
  unfold inspect_tree. intros (ms & Hms & Hr)%bind_Ret.
  assert (members = sorted member_path ms) as ->.
  { repeat (case_match; [done|]). congruence. }
  clear Hr. apply mapM_Ret in Hms. set (keys := List.filter _ _) in Hms.
  assert (Forall2 (λ key m, clean_member m ∧ f !! key = Some (member_node m) ∧ member_key p m = key) keys ms) as Hf2.
  { eapply Forall2_impl; [|intros key m Hm; exact Hm]. apply Forall2_same_length_lookup.
    split; [by eapply Forall2_length|]. intros i key m Hk Hm.
    apply list_elem_of_lookup_2 in Hk as Hin. unfold keys in Hin.
    apply list_elem_of_In, filter_In in Hin as [Hin Hne]. apply list_elem_of_In, keys_under_spec in Hin as [Hu _].
    apply negb_true_iff, String.eqb_neq in Hne.
    eapply Forall2_lookup_lr in Hms; [|done..]. destruct (f !! key) as [n|] eqn:Hn; [|done].
    apply inspect_member_spec in Hms as (? & <- & ?); done. }
  assert (map (member_key p) ms = keys) as Hkeys.
  { clear -Hf2. induction Hf2 as [|key m keys ms (_ & _ & E) _ IH]; [done|]. cbn. by rewrite E, IH. }
  assert (Forall (λ m, clean_member m ∧ f !! member_key p m = Some (member_node m)) ms) as Hfa.
  { clear -Hf2. induction Hf2 as [|key m keys ms (Hc & Hn & E) _ IH]; constructor; [|done]. by rewrite E. }
  rewrite Forall_forall in Hfa. split_and!.
  - apply Forall_forall. intros m Hm%elem_of_sorted. by apply Hfa.
  - apply Forall_forall. intros m Hm%elem_of_sorted. by apply Hfa.
  - rewrite (sorted_perm member_path ms), Hkeys. unfold keys. apply NoDup_ListNoDup, List.NoDup_filter.
    apply NoDup_ListNoDup. unfold keys_under. apply NoDup_sorted.
    apply NoDup_ListNoDup, List.NoDup_filter, NoDup_ListNoDup, NoDup_elements.
  - intros q Hu Hne Hs. rewrite (sorted_perm member_path ms), Hkeys. unfold keys.
    apply list_elem_of_In, filter_In. split; [by apply list_elem_of_In, keys_under_spec|].
    by apply negb_true_iff, String.eqb_neq.
Qed.

(** What an inspection saw is what restoring its snapshot puts back. *)
Lemma inspect_spec f p s :
  wf_fs f → proper p → inspect f p = Ret s →
  ps_path s = p ∧ Forall clean_member (ps_members s)
  ∧ (ps_kind s = PSPECIAL ∨ ∃ d, snapshot_nodes s = Some d ∧ holds p d f).
Proof.
  intros Hwf Hp Hi.
  assert (∀ s', path_snapshot s' = Ret s → s = s') as Hid.
  { unfold path_snapshot. intros s' (_ & _ & (v & _ & (_ & _ & [= ->])%bind_Ret)%bind_Ret)%bind_Ret. done. }
  assert (∀ n, f !! p ≠ Some NDir → f !! p = n → ∀ q, under p q = true →
    f !! q = (if bool_decide (q = p) then n else None)) as Hleaf.
  { intros n Hn E q Hu. destruct (decide (q = p)) as [->|Hne]; [by rewrite bool_decide_true|].
    rewrite bool_decide_false by done. by apply wf_leaf with p; [..|congruence]. }
  unfold inspect in Hi. destruct (f !! p) as [[content executable| |target|mode]|] eqn:Hn.
  - destruct (MAX_FILE_BYTES <? _); [done|]. apply Hid in Hi as ->. split_and!; [done|constructor|]. right.
    eexists. split; [done|]. intros q Hu. rewrite (Hleaf (Some (NFile content executable))) by done. cbn [ps_path ps_content ps_executable].
    case_bool_decide; [subst; by rewrite lookup_singleton_eq|by rewrite lookup_singleton_ne].
  - apply bind_Ret in Hi as (members & Hm & Hi). unfold snapshot_tree in Hi.
    apply bind_Ret in Hi as (digest & _ & Hi). apply Hid in Hi as ->. cbn [ps_path ps_members ps_kind].
    pose proof Hm as (Hc & Hf & Hd & Hall)%inspect_tree_spec.
    assert (sorted member_path members = members) as ->.
    { unfold inspect_tree in Hm. apply bind_Ret in Hm as (ms & _ & Hr).
      assert (members = sorted member_path ms) as -> by (repeat (case_match; [done|]); congruence).
      apply sorted_idemp. }
    split_and!; [done|done|]. right. unfold snapshot_nodes. cbn [ps_path ps_members ps_kind].
    apply tree_nodes_copied; done.
  - unfold snapshot_symlink in Hi. apply bind_Ret in Hi as (digest & _ & Hi). apply Hid in Hi as ->.
    split_and!; [done|constructor|]. right. eexists. split; [done|]. intros q Hu. cbn [ps_path].
    rewrite (Hleaf (Some (NLink target))) by done.
    case_bool_decide; [subst; by rewrite lookup_singleton_eq|by rewrite lookup_singleton_ne].
  - unfold snapshot_special in Hi. apply Hid in Hi as ->. split_and!; [done|constructor|by left].
  - apply Hid in Hi as ->. split_and!; [done|constructor|]. right. eexists. split; [done|]. intros q Hu.
    rewrite lookup_empty, (Hleaf None) by done. by case_bool_decide.
Qed.

Lemma write_removed_spec p c x w :
  proper p → wf_fs (w_fs w) →
  fwp (remove p ;; write_atomic p c x) (settled p {[ p := NFile c x ]} (w_fs w)) w.
Proof.
  intros Hp Hwf. eapply fwp_bind; [by apply remove_spec| |].
  - intros e g (? & ? & ?). by split_and!.
  - intros [] w1 (Hwf1 & Hc1 & _). eapply fwp_mono; [by apply write_atomic_spec|].
    intros r g (Hg & Hc & Hr). split_and!; [done|by eapply changed_trans|done].
Qed.

(** Restoring an inspected snapshot settles its path to what was seen. *)
Lemma restore_spec s d w :
  proper (ps_path s) → Forall clean_member (ps_members s) → snapshot_nodes s = Some d → wf_fs (w_fs w) →
  fwp (restore s) (settled (ps_path s) d (w_fs w)) w.
Proof.
  intros Hp Hm Hd Hwf. unfold restore, snapshot_nodes in *. destruct (ps_kind s); simplify_eq/=.
  - by apply remove_spec.
  - by apply write_removed_spec.
  - by apply write_tree_spec.
  - destruct (ps_link_target s); simplify_eq/=. by apply write_symlink_spec.
Qed.

Lemma restore_special s w :
  ps_kind s = PSPECIAL → (restore s w).2 = w ∧ ∃ e, (restore s w).1 = Raise e ∧ os_exn e.
Proof. intros E. unfold restore. rewrite E. split; [done|]. by eexists. Qed.

(** What an operation puts at its destination. *)
Definition operation_nodes (o : InstallOperation) : option fs :=
  match o with
  | CopyTree c => tree_nodes (ct_absolute_destination c) (ct_members c)
  | WriteFile f => Some {[ wo_absolute_destination f := NFile (wo_content f) (wo_executable f) ]}
  | MergeJson m => Some {[ mj_absolute_destination m := NFile (mj_content m) false ]}
  | Link l => Some {[ lk_absolute_destination l := NLink (lk_target l) ]}
  end.
Definition clean_operation (o : InstallOperation) : Prop :=
  proper (op_absolute_destination o)
  ∧ match o with CopyTree c => Forall clean_member (ct_members c) | _ => True end.

Lemma apply_operation_spec o w :
  clean_operation o → wf_fs (w_fs w) →
  fwp (apply_operation o) (λ r g, wf_fs g ∧ changed (op_absolute_destination o) (w_fs w) g ∧
    match r with
    | Ret _ => ∃ d, operation_nodes o = Some d ∧ holds (op_absolute_destination o) d g
    | Raise e => os_exn e
    end) w.
Proof.
  intros [Hp Hm] Hwf.
  assert (∀ m d, fwp m (settled (op_absolute_destination o) d (w_fs w)) w → operation_nodes o = Some d →
    fwp m (λ r g, wf_fs g ∧ changed (op_absolute_destination o) (w_fs w) g ∧
      match r with
      | Ret _ => ∃ d, operation_nodes o = Some d ∧ holds (op_absolute_destination o) d g
      | Raise e => os_exn e
      end) w) as Hs.
  { intros m d Hm' Hd. eapply fwp_mono; [exact Hm'|]. intros r g (? & ? & Hr). split_and!; [done..|].
    destruct r; [eauto|done]. }
  destruct o as [c|f|l|m]; cbn [apply_operation op_absolute_destination] in *.
  - destruct (tree_nodes (ct_absolute_destination c) (ct_members c)) as [t|] eqn:Ht.
    + eapply Hs; [by apply write_tree_spec|done].
    + eapply fwp_mono; [by apply write_tree_unstaged|]. intros r g ([? ?] & e & -> & He). done.
  - eapply Hs; [by apply write_removed_spec|done].
  - eapply Hs; [by apply write_symlink_spec|done].
  - eapply Hs; [by apply write_removed_spec|done].
Qed.
End primitives.

(** Two missing directories are created below the root. *)
Definition no_faults : Environment := {|
  env_fault _ := false; env_busy _ := false; env_exists f p := lexists f p; env_realpath _ p := p
|}.
Lemma safe_parent_terminates_witness :
  (@safe_parent no_faults "/a/b" (MkWorld {[ "/" := NDir ]} 0 [])).1 ≠ Raise RecursionError.
Proof.
  apply (@safe_parent_terminates no_faults "/a/b" (MkWorld {[ "/" := NDir ]} 0 [])).
  - split; [by vm_compute|]. cbn [w_fs]. intros q n [<- _]%lookup_singleton_Some. by left.
  - right. exists ["a"; "b"]. split_and!; [done|by vm_compute|done].
Defined.
