(* ===== verification/Transaction.v ===== *)
(** Applying a reviewed plan ([LocalInstallAdapter.apply_plan] of
    [installation/io.py]): lock the scope, check that the world is the reviewed
    one, apply, record, and compensate when a step fails.

    The local variables that the handler reads after a failure are the state of
    the transaction, beside the file system.  Reading an object and the ports of
    the reference store are parameters. *)
From stdpp Require Import gmap strings.
From S2P Require Import Prelude Effects PyText TextSearch Posix Domain Protocol Json CompilerModel Configuration InstallState InstallSchema StoreModel Store Installation InstallPlan FileSystem.
From Stdlib Require Import Ascii.
Open Scope Z_scope.

Class InstallAdapter := {
  ad_read_object : fs → ObjectReadRequest → Result (option StoredObject);
  ad_references : ReferenceUpdatePorts
}.

(** The local variables of [apply_plan]. *)
Record locals := MkLocals {
  lo_outcomes : list EffectOutcome;
  lo_attempted : list (nat * InstallOperation * PathSnapshot);
  lo_applied : list nat;
  lo_failed : option nat;
  lo_state_attempted : bool;
  lo_state_changed : bool;
  lo_retained : bool
}.
Definition no_locals : locals := MkLocals [] [] [] None false false false.
Record tx := MkTx { tx_world : world; tx_locals : locals }.

Definition in_world {A} (m : st world A) : st tx A := λ t,
  let '(r, w) := m (tx_world t) in (r, MkTx w (tx_locals t)).
Definition assign (g : locals → locals) : st tx unit :=
  modify (λ t, MkTx (tx_world t) (g (tx_locals t))).

Definition add_outcome (o : EffectOutcome) (l : locals) : locals :=
  MkLocals (lo_outcomes l ++ [o]) (lo_attempted l) (lo_applied l) (lo_failed l)
    (lo_state_attempted l) (lo_state_changed l) (lo_retained l).
Definition add_attempt (a : nat * InstallOperation * PathSnapshot) (l : locals) : locals :=
  MkLocals (lo_outcomes l) (lo_attempted l ++ [a]) (lo_applied l) (lo_failed l)
    (lo_state_attempted l) (lo_state_changed l) (lo_retained l).
Definition add_applied (i : nat) (l : locals) : locals :=
  MkLocals (lo_outcomes l) (lo_attempted l) (lo_applied l ++ [i]) (lo_failed l)
    (lo_state_attempted l) (lo_state_changed l) (lo_retained l).
Definition set_failed (i : nat) (l : locals) : locals :=
  MkLocals (lo_outcomes l) (lo_attempted l) (lo_applied l) (Some i)
    (lo_state_attempted l) (lo_state_changed l) (lo_retained l).
Definition set_state_attempted (l : locals) : locals :=
  MkLocals (lo_outcomes l) (lo_attempted l) (lo_applied l) (lo_failed l) true
    (lo_state_changed l) (lo_retained l).
Definition set_state_changed (l : locals) : locals :=
  MkLocals (lo_outcomes l) (lo_attempted l) (lo_applied l) (lo_failed l)
    (lo_state_attempted l) true (lo_retained l).
Definition set_retained (b : bool) (l : locals) : locals :=
  MkLocals (lo_outcomes l) (lo_attempted l) (lo_applied l) (lo_failed l)
    (lo_state_attempted l) (lo_state_changed l) b.
Definition set_outcomes (os : list EffectOutcome) (l : locals) : locals :=
  MkLocals os (lo_attempted l) (lo_applied l) (lo_failed l)
    (lo_state_attempted l) (lo_state_changed l) (lo_retained l).

Section apply.
Context `{UnicodeData} `{IpAddress} `{Environment} `{InstallAdapter}.

(** * Checks and references *)

(** Where a link's target must stay. *)
Definition link_boundary (plan : InstallPlan) (l : LinkOperation) : string :=
  if bool_decide (lk_semantics l = "mutable-local") then se_origin (ip_source plan)
  else ip_object_root plan.

Definition is_ok_with {A} `{EqDecision A} (expected : A) (r : Result A) : bool :=
  match r with Ok a => bool_decide (a = expected) | Err _ => false end.

(** One turn of the loop of [_preconditions_current]. *)
Definition operation_unchanged (plan : InstallPlan) (o : InstallOperation) : st world bool :=
  target_ok ← match o with
              | Link l =>
                  target ← inspect_link_target (lk_target l) (link_boundary plan l);
                  mret (is_ok_with (lk_target_precondition l) target)
              | _ => mret true
              end;
  if negb target_ok then mret false
  else observed ← inspect_path (op_absolute_destination o);
       mret (is_ok_with (op_precondition o) observed).
Fixpoint operations_unchanged (plan : InstallPlan) (os : list InstallOperation) : st world bool :=
  match os with
  | [] => mret true
  | o :: os =>
      unchanged ← operation_unchanged plan o;
      if unchanged : bool then operations_unchanged plan os else mret false
  end.

(** [_preconditions_current] *)
Definition preconditions_current (plan : InstallPlan) : st world bool :=
  request ← pure (object_read_request (ip_object_store_paths plan) (ip_object_digest plan));
  loaded ← gets (λ w, ad_read_object (w_fs w) request);
  match loaded with
  | Ok (Some stored) =>
      if negb (bool_decide (so_candidate stored = ip_object_candidate plan))
         || negb (bool_decide (so_root stored = ip_object_root plan))
      then mret false
      else
        unchanged ← operations_unchanged plan (ip_operations plan);
        if negb unchanged then mret false
        else state ← inspect_path (ip_state_path plan);
             mret (is_ok_with (ip_state_precondition plan) state)
  | _ => mret false
  end.

(** The reference store is beside the file system of the world. *)
Definition in_store {A} (m : st (list store_event) A) : st world A := λ w,
  let '(r, events) := m (w_store w) in (r, MkWorld (w_fs w) (w_clock w) events).
(** [_replace_reference] *)
Definition replace_reference (plan : InstallPlan) (kind : ReferenceKind) (owner : string)
    (digests : list ObjectDigest) : st world (Result ReferenceIndex) :=
  request ← pure (reference_update_request (ip_object_store_paths plan) kind owner digests);
  in_store (replace_references request ad_references).
Definition transaction_owner (plan : InstallPlan) : string :=
  "transaction/" +:+ ip_reference_owner plan.

(** [with _lock(path): body], also when the body or the release raises. *)
Definition open_lock (path : string) : st world unit :=
  syscall ;;
  node ← gets (λ w, w_fs w !! path);
  match node with
  | None => update_fs (<[path := NFile "" false]>)
  | Some (NFile _ _ | NSpecial _) => mret tt
  | Some _ => os_error ("cannot open install lock: " +:+ path)
  end.
Definition take_lock : st world unit :=
  syscall ;;
  busy ← gets (λ w, env_busy (w_clock w));
  if busy : bool
  then pure (Raise (RuntimeError "another canonical install is active for this scope"))
  else syscall.
Definition with_lock {A} (path : string) (body : st tx A) : st tx A :=
  in_world (safe_parent (dirname path)) ;;
  in_world (open_lock path) ;;
  finally (in_world take_lock ;; body) (in_world (finally syscall syscall)).

(** * Applying *)

Definition effect_outcome (o : InstallOperation) (status : string) (detail : option string) :
    EffectOutcome :=
  MkEffectOutcome (operation_kind o) (op_destination o) status detail.

(** The postcondition of an installed link. *)
Definition check_link (plan : InstallPlan) (l : LinkOperation) : st world unit :=
  target ← inspect_link_target (lk_target l) (link_boundary plan l);
  installed ← inspect_path (lk_absolute_destination l);
  if is_ok_with (lk_target_precondition l) target
     && match installed with
        | Ok s => bool_decide (ps_kind s = PSYMLINK)
                  && bool_decide (ps_digest s = Some (lk_desired_digest l))
                  && bool_decide (ps_target_exists s = Some true)
        | Err _ => false
        end
  then mret tt
  else os_error "installed link postcondition does not match Review".

Definition perform (plan : InstallPlan) (o : InstallOperation) : st world unit :=
  apply_operation o ;;
  match o with Link l => check_link plan l | _ => mret tt end.

(** [except OSError: failed_index = index; raise] *)
Definition record_failure (index : nat) (m : st tx unit) : st tx unit :=
  catch m (λ e, match e with OSError _ => assign (set_failed index) | _ => mret tt end ;;
                pure (Raise e)).

Definition apply_one (plan : InstallPlan) (index : nat) (o : InstallOperation) : st tx unit :=
  if operation_is_current o then assign (add_outcome (effect_outcome o "current" None))
  else
    assign (add_attempt (index, o, op_precondition o)) ;;
    record_failure index (in_world (perform plan o)) ;;
    assign (add_applied index) ;;
    assign (add_outcome (effect_outcome o "changed" None)).
Fixpoint apply_all (plan : InstallPlan) (index : nat) (os : list InstallOperation) : st tx unit :=
  match os with
  | [] => mret tt
  | o :: os => apply_one plan index o ;; apply_all plan (S index) os
  end.

Definition messages (ds : list Diagnostic) : string := join "; " (map d_message ds).
Definition require_reference (what : string) (r : Result ReferenceIndex) : st tx unit :=
  match r with
  | Ok _ => mret tt
  | Err ds => pure (Raise (OSError ("cannot retain " +:+ what +:+ " object reference: " +:+ messages ds)))
  end.

(** A stale transaction reference is reported on the first effect. *)
Definition note_stale (os : list EffectOutcome) : list EffectOutcome :=
  match os with
  | [] => []
  | first :: rest =>
      MkEffectOutcome (eo_kind first) (eo_destination first) (eo_status first)
        (Some "installed safely; stale transaction reference cleanup is pending") :: rest
  end.

Definition write_state (plan : InstallPlan) : st tx unit :=
  let desired_state := install_state_bytes (ip_replacement_state plan) in
  let before := ip_state_precondition plan in
  if bool_decide (ps_kind before = PFILE) && bool_decide (ps_content before = desired_state)
  then mret tt
  else assign set_state_attempted ;;
       in_world (write_atomic (ip_state_path plan) desired_state false) ;;
       assign set_state_changed.

(** The body of the [with] statement. *)
Definition transaction (plan : InstallPlan) : st tx InstallOutcome :=
  unchanged ← in_world (preconditions_current plan);
  if negb unchanged then
    mret (MkInstallOutcome (ip_review_digest plan) CONFLICTED
            (map (λ o, effect_outcome o "skipped"
                         (Some "precondition changed while acquiring install lock"))
               (ip_operations plan)) false)
  else
    retained ← in_world (replace_reference plan TRANSACTION (transaction_owner plan)
                           [ip_object_digest plan]);
    require_reference "transaction" retained ;;
    assign (set_retained true) ;;
    apply_all plan 0 (ip_operations plan) ;;
    write_state plan ;;
    referenced ← in_world (replace_reference plan INSTALLED (ip_reference_owner plan)
                             [ip_object_digest plan]);
    require_reference "installed" referenced ;;
    released ← in_world (replace_reference plan TRANSACTION (transaction_owner plan) []);
    assign (set_retained (is_err released)) ;;
    (if is_err released then assign (λ l, set_outcomes (note_stale (lo_outcomes l)) l) else mret tt) ;;
    l ← gets tx_locals;
    mret (MkInstallOutcome (ip_review_digest plan)
            (if bool_decide (lo_applied l = []) && negb (lo_state_changed l) then ICURRENT else APPLIED)
            (lo_outcomes l) (lo_state_changed l)).

(** * Compensating *)

(** [try: _restore(...) except OSError as e: rollback_errors.append(...)] *)
Definition try_restore (label : string) (s : PathSnapshot) (errors : list string) :
    st tx (list string) :=
  catch (in_world (restore s) ;; mret errors)
    (λ e, match e with
          | OSError m => mret (errors ++ [label +:+ ": " +:+ m])
          | _ => pure (Raise e)
          end).
Fixpoint restore_all (attempts : list (nat * InstallOperation * PathSnapshot))
    (errors : list string) : st tx (list string) :=
  match attempts with
  | [] => mret errors
  | (_, o, s) :: attempts =>
      errors ← try_restore (op_destination o) s errors; restore_all attempts errors
  end.

(** The effects of a failed run. *)
Definition failure_outcome (l : locals) (error : string) (errors : list string) (index : nat)
    (o : InstallOperation) : EffectOutcome :=
  if bool_decide (lo_failed l = Some index) then
    effect_outcome o "failed"
      (Some (error +:+ match errors with
                       | [] => ""
                       | _ => "; rollback incomplete: " +:+ join "; " errors
                       end))
  else if mem index (lo_applied l) then effect_outcome o "rolled-back" (Some error)
  else if operation_is_current o then effect_outcome o "current" (Some error)
  else effect_outcome o "skipped" (Some error).

(** The handler of [except (OSError, RuntimeError) as error]: the outcome, and
    its local [rollback_errors]. *)
Definition compensate (plan : InstallPlan) (error : string) : st tx (InstallOutcome * list string) :=
  l ← gets tx_locals;
  errors ← (if lo_state_attempted l then try_restore "state" (ip_state_precondition plan) []
            else mret []);
  errors ← restore_all (rev (lo_attempted l)) errors;
  errors ← (if lo_retained l then
              released ← in_world (replace_reference plan TRANSACTION (transaction_owner plan) []);
              mret (if is_err released
                    then errors ++ ["transaction object reference cleanup is pending"] else errors)
            else mret errors);
  mret (MkInstallOutcome (ip_review_digest plan) IFAILED
          (imap (failure_outcome l error errors) (ip_operations plan)) false, errors).

Definition apply_transaction (plan : InstallPlan) : st tx (InstallOutcome * list string) :=
  catch
    (outcome ← with_lock (ip_state_lock_path plan) (transaction plan); mret (outcome, []))
    (λ e, match e with
          | OSError m | RuntimeError m => compensate plan m
          | _ => pure (Raise e)
          end).

(** [LocalInstallAdapter.apply_plan]; it returns [Ok] of the outcome. *)
Definition apply_plan (plan : InstallPlan) : st world InstallOutcome := λ w,
  let '(r, t) := apply_transaction plan (MkTx w no_locals) in
  (fst <$> r, tx_world t).
End apply.
