(* ===== verification/TransactionSpec.v ===== *)
(** Applying a plan is atomic: whatever system call, check or store port fails,
    the installation ends as if it had happened completely or not at all,
    up to the paths that compensating itself could not restore.  The abstract
    specification is [install_spec]; [apply_transaction] refines it, and
    [apply_plan] tells those paths except when no operation is to blame. *)
From stdpp Require Import gmap strings.
From S2P Require Import Prelude Effects PyText TextSearch Posix Domain Protocol Json CompilerModel Configuration InstallState InstallSchema StoreModel Store Installation InstallPlan FileSystem FileSpec Transaction InstallSpec.
From Stdlib Require Import Ascii.
Open Scope Z_scope.

(** * The abstract specification *)

(** What is at each path. *)
Definition content := string → option node.
Definition content_of (f : fs) : content := λ q, f !! q.
(** [c] with what is at and below [p] replaced. *)
Definition overlay (p : string) (d : fs) (c : content) : content :=
  λ q, if under p q then d !! q else c q.
(** [g] holds [c]; a path that [c] leaves empty may have become a directory. *)
Definition reaches (c : content) (g : fs) : Prop :=
  ∀ q, g !! q = c q ∨ (c q = None ∧ g !! q = Some NDir).

Section spec.
Context `{UnicodeData} `{IpAddress}.

Definition commit_operation (c : content) (o : InstallOperation) : content :=
  if operation_is_current o then c
  else match operation_nodes o with
       | Some d => overlay (op_absolute_destination o) d c
       | None => c
       end.
Definition state_is_current (plan : InstallPlan) : bool :=
  bool_decide (ps_kind (ip_state_precondition plan) = PFILE)
  && bool_decide (ps_content (ip_state_precondition plan)
                  = install_state_bytes (ip_replacement_state plan)).
(** Everything installed and recorded. *)
Definition committed (plan : InstallPlan) (c : content) : content :=
  let c := foldl commit_operation c (ip_operations plan) in
  if state_is_current plan then c
  else overlay (ip_state_path plan)
         {[ ip_state_path plan := NFile (install_state_bytes (ip_replacement_state plan)) false ]} c.

Definition operation_status (o : InstallOperation) : string :=
  if operation_is_current o then "current" else "changed".

(** Where the plan writes: the destinations of its operations and its state. *)
Definition plan_paths (plan : InstallPlan) : list string :=
  ip_state_path plan :: map op_absolute_destination (ip_operations plan).
(** [g] differs from [c] only there; a path that [c] leaves empty may have
    become a directory. *)
Definition confined (plan : InstallPlan) (c : content) (g : fs) : Prop :=
  ∀ q, (∃ p, p ∈ plan_paths plan ∧ under p q = true) ∨ g !! q = c q ∨ (c q = None ∧ g !! q = Some NDir).

(** The outcomes of an atomic installation of [plan] on [f]: the errors are
    those of compensating. *)
Inductive install_spec (plan : InstallPlan) (f : fs) : InstallOutcome → list string → fs → Prop :=
  | spec_commit outcome g :
      it_status outcome ∈ [APPLIED; ICURRENT] →
      map eo_status (it_effects outcome) = map operation_status (ip_operations plan) →
      it_state_written outcome = negb (state_is_current plan) →
      reaches (committed plan (content_of f)) g →
      install_spec plan f outcome [] g
  | spec_conflict outcome g :
      it_status outcome = CONFLICTED → it_state_written outcome = false → reaches (content_of f) g →
      install_spec plan f outcome [] g
  | spec_abort outcome g :
      it_status outcome = IFAILED → it_state_written outcome = false → reaches (content_of f) g →
      install_spec plan f outcome [] g
  | spec_incomplete outcome errors g :
      it_status outcome = IFAILED → it_state_written outcome = false → errors ≠ [] →
      confined plan (content_of f) g →
      install_spec plan f outcome errors g.

(** Taking the lock may create its file and parents. *)
Definition prepared (lock : string) (f g : fs) : Prop :=
  ∀ q, g !! q = f !! q
       ∨ (f !! q = None ∧ (g !! q = Some NDir ∨ (q = lock ∧ g !! q = Some (NFile "" false)))).
End spec.

(** * Files that compensating must put back *)

Lemma subset_rev {A} (l : list A) : l ⊆ rev l.
Proof. intros x Hx. apply list_elem_of_In. rewrite <-in_rev. by apply list_elem_of_In. Qed.


Section dirty.
Context `{UnicodeData} `{Environment}.

(** [s] is what an inspection of its path saw in [f]. *)
Definition seen (f : fs) (s : PathSnapshot) : Prop :=
  proper (ps_path s) ∧ inspect f (ps_path s) = Ret s.
(** [g] differs from [f] only at and below the paths of [l]. *)
Definition dirty (f : fs) (l : list PathSnapshot) (g : fs) : Prop :=
  ∀ q, (∃ s, s ∈ l ∧ under (ps_path s) q = true)
       ∨ g !! q = f !! q ∨ (f !! q = None ∧ g !! q = Some NDir).

Lemma dirty_refl f : dirty f [] f.
Proof. intros q. auto. Qed.
Lemma dirty_nil f g : dirty f [] g → reaches (content_of f) g.
Proof. intros Hd q. destruct (Hd q) as [(s & Hs & _)|?]; [by apply elem_of_nil in Hs|done]. Qed.
Lemma dirty_subset f l l' g : l ⊆ l' → dirty f l g → dirty f l' g.
Proof. intros Hl Hd q. destruct (Hd q) as [(s & Hs & Hu)|?]; [left; exists s; auto|auto]. Qed.

Lemma dirty_changed f l s g h :
  s ∈ l → dirty f l g → changed (ps_path s) g h → dirty f l h.
Proof.
  intros Hs Hd Hc q. destruct (Hc q) as [Hu|[->|[Hn Hq]]]; [by left; exists s|by apply Hd|].
  destruct (Hd q) as [?|[E|[_ E]]]; [by left| |congruence]. right. right. split; [congruence|done].
Qed.
Lemma dirty_restored f l s d g h :
  dirty f (s :: l) g → changed (ps_path s) g h → holds (ps_path s) d h → holds (ps_path s) d f →
  dirty f l h.
Proof.
  intros Hd Hc Hh Hf q. destruct (under (ps_path s) q) eqn:Hu.
  { right. left. by rewrite (Hh q Hu), (Hf q Hu). }
  destruct (dirty_changed f (s :: l) s g h) with (q := q) as [(s' & [->|Hs]%elem_of_cons & Hu')|?];
    [set_solver|done|done|congruence|by left; exists s'|by right].
Qed.

Lemma reaches_overlay c p d g h :
  reaches c g → changed p g h → holds p d h → reaches (overlay p d c) h.
Proof.
  intros Hr Hc Hh q. unfold overlay. destruct (under p q) eqn:Hu; [left; by apply Hh|].
  destruct (Hc q) as [?|[->|[Hn Hq]]]; [congruence|apply Hr|].
  destruct (Hr q) as [E|[E E']]; [|congruence]. right. split; [congruence|done].
Qed.
End dirty.

(** * Computations that leave the files alone *)

Section quiet.
Context `{UnicodeData} `{IpAddress} `{Environment} `{InstallAdapter}.

Definition quiet {A} (m : st world A) : Prop := ∀ w, w_fs (m w).2 = w_fs w.

Lemma silent_quiet {A} (m : st world A) : silent m → quiet m.
Proof. intros Hm w. apply Hm. Qed.
Lemma quiet_ret {A} (a : A) : quiet (mret a).
Proof. by intros w. Qed.
Lemma quiet_pure {A} (m : py A) : quiet (pure m).
Proof. by intros w. Qed.
Lemma quiet_gets {A} (h : world → A) : quiet (gets h).
Proof. by intros w. Qed.
Lemma quiet_bind {A B} (m : st world A) (k : A → st world B) : quiet m → (∀ a, quiet (k a)) → quiet (m ≫= k).
Proof.
  intros Hm Hk w. unfold mbind, st_bind. specialize (Hm w). destruct (m w) as [[a|e] w1]; [|done].
  cbn in Hm. by rewrite Hk.
Qed.
Lemma quiet_catch {A} (m : st world A) h : quiet m → (∀ e, quiet (h e)) → quiet (catch m h).
Proof.
  intros Hm Hk w. unfold catch. specialize (Hm w). destruct (m w) as [[a|e] w1]; [done|].
  cbn in Hm. by rewrite Hk.
Qed.
Lemma quiet_inspect_path p : quiet (inspect_path p).
Proof.
  unfold inspect_path. destruct (_ || _); [apply quiet_ret|]. apply quiet_catch.
  - apply quiet_bind; [apply silent_quiet, silent_syscall|intros _].
    apply quiet_bind; [apply quiet_gets|intros f].
    apply quiet_bind; [apply quiet_pure|intros s; apply quiet_ret].
  - intros []; first [apply quiet_ret|apply quiet_pure].
Qed.
Lemma quiet_inspect_link p b : quiet (inspect_link_target p b).
Proof.
  unfold inspect_link_target. destruct (existsb _ _); [apply quiet_ret|].
  destruct (commonpath b p); [|apply quiet_ret]. destruct (negb _); [apply quiet_ret|].
  apply quiet_bind; [apply quiet_gets|intros f]. destruct (negb _); [apply quiet_ret|apply quiet_inspect_path].
Qed.
Lemma quiet_reference plan kind owner ds : quiet (replace_reference plan kind owner ds).
Proof.
  unfold replace_reference. apply quiet_bind; [apply quiet_pure|intros r w].
  unfold in_store. by destruct (replace_references _ _ _).
Qed.

Lemma inspect_path_Ok p w s w' :
  inspect_path p w = (Ret (Ok s), w') → inspect (w_fs w) p = Ret s.
Proof.
  unfold inspect_path. destruct (_ || _); [done|]. unfold catch, mbind, st_bind, gets, pure.
  pose proof (silent_syscall w) as [E _]. destruct (syscall w) as [[u|e] w1].
  - cbn in E. rewrite E. destruct (inspect (w_fs w) p) as [s'|e]; [by intros [= -> _]|].
    destruct e; by intros [=].
  - destruct e; by intros [=].
Qed.

Lemma is_ok_with_true {A} `{EqDecision A} (a : A) r : is_ok_with a r = true → r = Ok a.
Proof. destruct r as [b|]; cbn; [|done]. by intros ->%bool_decide_eq_true. Qed.

Lemma quiet_operation_unchanged plan o : quiet (operation_unchanged plan o).
Proof.
  unfold operation_unchanged. apply quiet_bind.
  - destruct o; try apply quiet_ret. apply quiet_bind; [apply quiet_inspect_link|intros ?; apply quiet_ret].
  - intros []; cbn [negb]; [|apply quiet_ret].
    apply quiet_bind; [apply quiet_inspect_path|intros ?; apply quiet_ret].
Qed.
Lemma operation_unchanged_true plan o w w' :
  operation_unchanged plan o w = (Ret true, w') →
  inspect (w_fs w) (op_absolute_destination o) = Ret (op_precondition o).
Proof.
  intros Ho. unfold operation_unchanged in Ho.
  apply bind_run_inv in Ho as (ok & w1 & Hok & Ho).
  assert (w_fs w1 = w_fs w) as E.
  { assert (quiet (match o with
      | Link l => target ← inspect_link_target (lk_target l) (link_boundary plan l);
                  mret (is_ok_with (lk_target_precondition l) target)
      | _ => mret true end)) as Hq.
    { destruct o; try apply quiet_ret. apply quiet_bind; [apply quiet_inspect_link|intros ?; apply quiet_ret]. }
    specialize (Hq w). by rewrite Hok in Hq. }
  destruct ok; cbn [negb] in Ho; [|done].
  apply bind_run_inv in Ho as (r & w2 & Hr & Ho). injection Ho as Ho _.
  apply is_ok_with_true in Ho as ->. rewrite <-E. by eapply inspect_path_Ok.
Qed.

Lemma quiet_operations_unchanged plan os : quiet (operations_unchanged plan os).
Proof.
  induction os as [|o os IH]; [apply quiet_ret|]. cbn [operations_unchanged].
  apply quiet_bind; [apply quiet_operation_unchanged|]. intros []; [apply IH|apply quiet_ret].
Qed.
Lemma operations_unchanged_true plan os w w' :
  operations_unchanged plan os w = (Ret true, w') →
  Forall (λ o, inspect (w_fs w) (op_absolute_destination o) = Ret (op_precondition o)) os.
Proof.
  revert w. induction os as [|o os IH]; intros w; cbn [operations_unchanged]; [constructor|].
  intros (ok & w1 & Ho & Hos)%bind_run_inv. pose proof (quiet_operation_unchanged plan o w) as E.
  rewrite Ho in E. cbn in E. destruct ok; [|done]. apply operation_unchanged_true in Ho.
  constructor; [done|]. rewrite <-E. by apply IH.
Qed.

Lemma quiet_preconditions plan : quiet (preconditions_current plan).
Proof.
  unfold preconditions_current. apply quiet_bind; [apply quiet_pure|intros r].
  apply quiet_bind; [apply quiet_gets|intros [[s|]|]; [|apply quiet_ret..]].
  destruct (_ || _); [apply quiet_ret|].
  apply quiet_bind; [apply quiet_operations_unchanged|intros []; [|apply quiet_ret]].
  apply quiet_bind; [apply quiet_inspect_path|intros ?; apply quiet_ret].
Qed.
Lemma preconditions_current_true plan w w' :
  preconditions_current plan w = (Ret true, w') →
  Forall (λ o, inspect (w_fs w) (op_absolute_destination o) = Ret (op_precondition o)) (ip_operations plan)
  ∧ inspect (w_fs w) (ip_state_path plan) = Ret (ip_state_precondition plan).
Proof.
  unfold preconditions_current. intros (r & w1 & Hr & Hp)%bind_run_inv. injection Hr as _ <-.
  apply bind_run_inv in Hp as (l & w2 & Hl & Hp). injection Hl as _ <-.
  destruct l as [[s|]|]; [|done..]. destruct (_ || _); [done|].
  apply bind_run_inv in Hp as (ok & w3 & Ho & Hp). pose proof (quiet_operations_unchanged plan (ip_operations plan) w) as E.
  rewrite Ho in E. cbn in E. destruct ok; [|done]. cbn [negb] in Hp.
  apply bind_run_inv in Hp as (st & w4 & Hst & Hp). injection Hp as Hp _. apply is_ok_with_true in Hp as ->.
  split; [by eapply operations_unchanged_true|]. rewrite <-E. by eapply inspect_path_Ok.
Qed.
End quiet.

(** * The transaction *)

Section transaction.
Context `{UnicodeData} `{IpAddress} `{Environment} `{InstallAdapter}.

Notation files t := (w_fs (tx_world t)).

Definition twp {A} (m : st tx A) (Q : py A → tx → Prop) (t : tx) : Prop := Q (m t).1 (m t).2.

Lemma twp_bind {A B} (m : st tx A) (k : A → st tx B) R (Q : py B → tx → Prop) t :
  twp m R t → (∀ e t', R (Raise e) t' → Q (Raise e) t') → (∀ a t', R (Ret a) t' → twp (k a) Q t') →
  twp (m ≫= k) Q t.
Proof.
  unfold twp, mbind, st_bind. intros Hm He Hk. destruct (m t) as [[a|e] t']; cbn in *; auto.
Qed.
Lemma twp_mono {A} (m : st tx A) (R Q : py A → tx → Prop) t :
  twp m R t → (∀ r t', R r t' → Q r t') → twp m Q t.
Proof. unfold twp. auto. Qed.
Lemma twp_assign {B} g (k : unit → st tx B) Q t :
  twp (k tt) Q (MkTx (tx_world t) (g (tx_locals t))) → twp (assign g ≫= k) Q t.
Proof. done. Qed.
Lemma twp_gets {A B} (h : tx → A) (k : A → st tx B) (Q : py B → tx → Prop) t :
  twp (k (h t)) Q t → twp (gets h ≫= k) Q t.
Proof. done. Qed.
(** A computation in the world that keeps the files keeps everything. *)
Lemma twp_quiet {A B} (m : st world A) (k : A → st tx B) (Q : py B → tx → Prop) t :
  quiet m → (∀ e t', files t' = files t → tx_locals t' = tx_locals t → Q (Raise e) t') →
  (∀ a t', files t' = files t → tx_locals t' = tx_locals t → twp (k a) Q t') →
  twp (in_world m ≫= k) Q t.
Proof.
  intros Hm He Hk. unfold twp, mbind, st_bind, in_world. specialize (Hm (tx_world t)).
  destruct (m (tx_world t)) as [[a|e] w]; cbn in *.
  - by apply (Hk a (MkTx w (tx_locals t))).
  - by apply He.
Qed.
Lemma twp_world {A} (m : st world A) (Q : py A → fs → Prop) t :
  fwp m Q (tx_world t) → twp (in_world m) (λ r t', Q r (files t') ∧ tx_locals t' = tx_locals t) t.
Proof.
  unfold fwp, twp, in_world. by destruct (m (tx_world t)) as [r w].
Qed.

Variable (plan : InstallPlan) (f0 : fs).
Hypothesis (f0_wf : wf_fs f0).

(** The snapshots the handler would restore. *)
Definition snaps (l : locals) : list PathSnapshot :=
  (if lo_state_attempted l then [ip_state_precondition plan] else [])
  ++ map (λ a : nat * InstallOperation * PathSnapshot, a.2) (lo_attempted l).
Record undoable (t : tx) : Prop := {
  ud_wf : wf_fs (files t);
  ud_dirty : dirty f0 (snaps (tx_locals t)) (files t);
  ud_seen : Forall (seen f0) (snaps (tx_locals t));
  ud_paths : Forall (λ s, ps_path s ∈ plan_paths plan) (snaps (tx_locals t))
}.

Lemma dirty_confined f l g :
  Forall (λ s, ps_path s ∈ plan_paths plan) l → dirty f l g → confined plan (content_of f) g.
Proof.
  intros Hl Hd q. destruct (Hd q) as [(s & Hs & Hu)|?]; [left|by right].
  exists (ps_path s). split; [|done]. rewrite Forall_forall in Hl. by apply Hl.
Qed.
Lemma undoable_same t t' :
  files t' = files t → snaps (tx_locals t') = snaps (tx_locals t) → undoable t → undoable t'.
Proof. intros Hf Hs [Hw Hd Hn Hq]. split; by rewrite ?Hf, ?Hs. Qed.

Lemma perform_spec o w :
  clean_operation o → wf_fs (w_fs w) →
  fwp (perform plan o) (λ r g, wf_fs g ∧ changed (op_absolute_destination o) (w_fs w) g ∧
    match r with
    | Ret _ => ∃ d, operation_nodes o = Some d ∧ holds (op_absolute_destination o) d g
    | Raise _ => True
    end) w.
Proof.
  intros Hc Hwf. unfold perform. eapply fwp_bind; [by apply apply_operation_spec| |].
  - intros e g (? & ? & _). done.
  - intros [] w1 (Hw & Hch & Hd).
    assert (quiet (match o with Link l => check_link plan l | _ => mret tt end)) as Hq.
    { destruct o as [| |l|]; try apply quiet_ret. unfold check_link.
      apply quiet_bind; [apply quiet_inspect_link|intros target].
      apply quiet_bind; [apply quiet_inspect_path|intros installed].
      destruct (_ && _); [apply quiet_ret|apply quiet_pure]. }
    specialize (Hq w1). unfold fwp. rewrite Hq. split_and!; [done..|].
    by destruct (match o with Link l => check_link plan l | _ => mret tt end w1) as [[] ?].
Qed.

(** What each step of the operations establishes. *)
Definition applied (c : content) (statuses : list string) (changed_state : bool) (t : tx) : Prop :=
  undoable t ∧ reaches c (files t) ∧ lo_state_attempted (tx_locals t) = false
  ∧ map eo_status (lo_outcomes (tx_locals t)) = statuses
  ∧ lo_state_changed (tx_locals t) = changed_state.

Lemma apply_one_spec c statuses index o t :
  clean_operation o → inspect f0 (op_absolute_destination o) = Ret (op_precondition o) →
  o ∈ ip_operations plan → applied c statuses false t →
  twp (apply_one plan index o) (λ r t', undoable t' ∧
    match r with
    | Ret _ => applied (commit_operation c o) (statuses ++ [operation_status o]) false t'
    | Raise _ => True
    end) t.
Proof.
  intros Hc Hi Hplan (Hu & Hr & Hsa & Hs & Hsc). unfold apply_one, commit_operation, operation_status.
  destruct (operation_is_current o).
  - unfold twp. cbn. assert (undoable (MkTx (tx_world t) (add_outcome (effect_outcome o "current" None) (tx_locals t)))) as Hu'
      by by apply (undoable_same t).
    split; [done|]. split_and!; [done|done|done| |done]. cbn. by rewrite map_app, Hs.
  - apply twp_assign. set (t1 := MkTx _ _).
    destruct (inspect_spec f0 _ _ f0_wf (proj1 Hc) Hi) as (Hpath & _ & _).
    assert (undoable t1) as Hu1.
    { destruct Hu as [Hw Hd Hn Hq].
      assert (snaps (tx_locals t1) = snaps (tx_locals t) ++ [op_precondition o]) as Hsn
        by (unfold snaps, t1; cbn; by rewrite map_app, app_assoc).
      split; rewrite ?Hsn; [done| | |].
      - eapply dirty_subset; [|exact Hd]. set_solver.
      - apply Forall_app. split; [exact Hn|]. constructor; [|constructor]. unfold seen. rewrite Hpath.
        by split; [apply Hc|].
      - apply Forall_app. split; [exact Hq|]. constructor; [|constructor]. rewrite Hpath. right.
        by apply list_elem_of_fmap_2. }
    assert (op_precondition o ∈ snaps (tx_locals t1)) as Hin.
    { unfold snaps, t1. cbn. rewrite map_app. set_solver. }
    pose proof (twp_world (perform plan o) _ t1 (perform_spec o (tx_world t1) Hc (ud_wf t1 Hu1))) as Hp.
    unfold twp in Hp. eapply twp_bind with (R := λ r t', undoable t' ∧ lo_outcomes (tx_locals t') = lo_outcomes (tx_locals t)
      ∧ lo_state_attempted (tx_locals t') = false ∧ lo_state_changed (tx_locals t') = false
      ∧ match r with
        | Ret _ => ∃ d, operation_nodes o = Some d ∧ reaches (overlay (op_absolute_destination o) d c) (files t')
        | Raise _ => True end).
    + unfold twp, record_failure, catch. destruct (in_world (perform plan o) t1) as [[[]|e] t2] eqn:Ht2;
        cbn [fst snd] in Hp |- *; destruct Hp as ((Hw & Hch & Hd) & Hl).
      * split_and!; [|by rewrite Hl|by rewrite Hl|by rewrite Hl|].
        -- split; [done| |rewrite Hl; apply Hu1..]. rewrite Hl.
           eapply dirty_changed; [exact Hin|apply Hu1|by rewrite Hpath].
        -- destruct Hd as (d & Hd & Hh). exists d. split; [done|]. by eapply reaches_overlay.
      * assert (undoable t2) as Hu2.
        { split; [done| |rewrite Hl; apply Hu1..]. rewrite Hl.
          eapply dirty_changed; [exact Hin|apply Hu1|by rewrite Hpath]. }
        unfold mbind, st_bind, assign, modify, mret, st_ret, pure.
        destruct e; cbn [fst snd tx_locals tx_world set_failed lo_outcomes lo_state_attempted lo_state_changed]; (split_and!; [|by rewrite Hl|by rewrite Hl|by rewrite Hl|done]);
          first [exact Hu2|by apply (undoable_same t2)].
    + intros e t' (? & _). done.
    + intros [] t' (Hu' & Ho & Hsa' & Hsc' & d & Hd & Hr'). unfold twp, mbind, st_bind, assign, modify. cbn.
      assert (undoable (MkTx (tx_world t') (add_outcome (effect_outcome o "changed" None)
        (add_applied index (tx_locals t'))))) as Hu2 by by apply (undoable_same t').
      split; [done|]. rewrite Hd. split_and!; [done|done|done| |done].
      cbn. by rewrite Ho, map_app, Hs.
Qed.

Lemma apply_all_spec c statuses index os t :
  Forall clean_operation os → Forall (λ o, inspect f0 (op_absolute_destination o) = Ret (op_precondition o)) os →
  os ⊆ ip_operations plan → applied c statuses false t →
  twp (apply_all plan index os) (λ r t', undoable t' ∧
    match r with
    | Ret _ => applied (foldl commit_operation c os) (statuses ++ map operation_status os) false t'
    | Raise _ => True
    end) t.
Proof.
  intros Hc Hi Hin. revert c statuses index t. induction Hc as [|o os Ho Hc IH]; intros c statuses index t Ha.
  - unfold twp. cbn. rewrite app_nil_r. split; [apply Ha|done].
  - apply Forall_cons in Hi as [Hio Hi]. cbn [apply_all].
    eapply twp_bind; [apply apply_one_spec; [done|done|set_solver|done]| |].
    + intros e t' (? & _). done.
    + intros [] t' (_ & Ha'). cbn [foldl map].
      replace (statuses ++ operation_status o :: map operation_status os)
        with ((statuses ++ [operation_status o]) ++ map operation_status os) by by rewrite <-app_assoc.
      apply IH; [done|set_solver|done].
Qed.

Hypothesis (state_path_proper : proper (ip_state_path plan)).

Lemma write_state_spec c statuses t :
  inspect f0 (ip_state_path plan) = Ret (ip_state_precondition plan) → applied c statuses false t →
  twp (write_state plan) (λ r t', undoable t' ∧
    match r with
    | Ret _ =>
        reaches (if state_is_current plan then c
                 else overlay (ip_state_path plan)
                        {[ ip_state_path plan := NFile (install_state_bytes (ip_replacement_state plan)) false ]} c)
          (files t')
        ∧ map eo_status (lo_outcomes (tx_locals t')) = statuses
        ∧ lo_state_changed (tx_locals t') = negb (state_is_current plan)
    | Raise _ => True
    end) t.
Proof.
  intros Hi (Hu & Hr & Hsa & Hs & Hsc). unfold write_state. fold (state_is_current plan).
  destruct (state_is_current plan) eqn:Hcur.
  { unfold twp. cbn. split_and!; done. }
  destruct (inspect_spec f0 _ _ f0_wf state_path_proper Hi) as (Hpath & _ & _).
  apply twp_assign. set (t1 := MkTx _ _).
  assert (snaps (tx_locals t1) = ip_state_precondition plan :: snaps (tx_locals t)) as Hsn
    by (unfold snaps, t1; cbn; by rewrite Hsa).
  assert (undoable t1) as Hu1.
  { destruct Hu as [Hw Hd Hn Hq]. split; [done|..]; rewrite Hsn.
    - eapply dirty_subset; [|exact Hd]. set_solver.
    - constructor; [|done]. unfold seen. by rewrite Hpath.
    - constructor; [|done]. rewrite Hpath. left. }
  eapply twp_bind; [apply twp_world, write_atomic_spec; [done|apply Hu1]| |].
  - intros e t' ((Hw & Hch & _) & Hl). split; [|done]. split; [done| |by rewrite Hl; apply Hu1..].
    rewrite Hl. eapply dirty_changed with (s := ip_state_precondition plan); [rewrite Hsn; set_solver|apply Hu1|by rewrite Hpath].
  - intros [] t' ((Hw & Hch & Hh) & Hl). unfold twp. cbn. split_and!.
    + split; cbn; [done| |by rewrite Hl; apply Hu1..]. rewrite Hl.
      eapply dirty_changed with (s := ip_state_precondition plan);
        [change (ip_state_precondition plan ∈ snaps (tx_locals t1)); rewrite Hsn; set_solver|apply Hu1|by rewrite Hpath].
    + eapply reaches_overlay; [exact Hr|done|done].
    + by rewrite Hl.
    + done.
Qed.

Lemma twp_quiet_run {A B} (m : st world A) (k : A → st tx B) (Q : py B → tx → Prop) t :
  quiet m → (∀ e w', w_fs w' = files t → Q (Raise e) (MkTx w' (tx_locals t))) →
  (∀ a w', m (tx_world t) = (Ret a, w') → w_fs w' = files t → twp (k a) Q (MkTx w' (tx_locals t))) →
  twp (in_world m ≫= k) Q t.
Proof.
  intros Hm He Hk. unfold twp, mbind, st_bind, in_world. specialize (Hm (tx_world t)).
  destruct (m (tx_world t)) as [[a|e] w] eqn:E; cbn in *; [by apply Hk|by apply He].
Qed.

(** A failing check of a reference leaves everything as it was. *)
Lemma twp_require {B} what r (k : unit → st tx B) (Q : py B → tx → Prop) t :
  (∀ e, Q (Raise e) t) → twp (k tt) Q t → twp (require_reference what r ≫= k) Q t.
Proof. intros He Hk. unfold require_reference. destruct r; [exact Hk|apply He]. Qed.

Lemma note_stale_status os : map eo_status (note_stale os) = map eo_status os.
Proof. by destruct os. Qed.

Hypothesis (operations_clean : Forall clean_operation (ip_operations plan)).

Lemma transaction_spec w :
  w_fs w = f0 →
  twp (transaction plan) (λ r t', undoable t' ∧
    match r with Ret o => install_spec plan f0 o [] (files t') | Raise _ => True end) (MkTx w no_locals).
Proof.
  intros Hf. set (t0 := MkTx w no_locals).
  assert (undoable t0) as Hu0.
  { split; cbn; rewrite ?Hf; [done|apply dirty_refl|constructor..]. }
  unfold transaction. apply twp_quiet_run; [apply quiet_preconditions| |].
  { intros e w' E. split; [by apply (undoable_same t0)|done]. }
  intros [] w1 Hpre E1; cbn [negb].
  2: { unfold twp. cbn. split; [by apply (undoable_same t0)|]. apply spec_conflict; [done|done|].
       intros q. left. unfold content_of. cbn in E1. by rewrite E1, Hf. }
  apply preconditions_current_true in Hpre as [Hops Hstate]. change (tx_world t0) with w in *.
  cbn in E1. rewrite Hf in *. set (t1 := MkTx w1 _). assert (undoable t1) as Hu1 by by apply (undoable_same t0); cbn; rewrite ?E1, ?Hf.
  apply twp_quiet; [apply quiet_reference| |].
  { intros e t' E L. split; [|done]. apply (undoable_same t1); [done|by rewrite L|done]. }
  intros retained t2 E2 L2. assert (undoable t2) as Hu2 by by apply (undoable_same t1); [|rewrite L2|].
  apply twp_require; [done|]. apply twp_assign. set (t3 := MkTx _ _).
  assert (applied (content_of f0) [] false t3) as Ha.
  { split_and!; [by apply (undoable_same t2)| |by cbn; rewrite L2|by cbn; rewrite L2|by cbn; rewrite L2].
    intros q. left. cbn. rewrite E2. cbn. by rewrite E1. }
  eapply twp_bind; [by apply (apply_all_spec (content_of f0) [])|intros e t' (? & _); done|].
  intros [] t4 (_ & Ha4). eapply twp_bind; [by eapply write_state_spec|intros e t' (? & _); done|].
  intros [] t5 (Hu5 & Hr5 & Ho5 & Hc5). rewrite app_nil_l in Ho5.
  apply twp_quiet; [apply quiet_reference| |].
  { intros e t' E L. split; [|done]. by apply (undoable_same t5); [|rewrite L|]. }
  intros referenced t6 E6 L6. assert (undoable t6) as Hu6 by by apply (undoable_same t5); [|rewrite L6|].
  apply twp_require; [done|]. apply twp_quiet; [apply quiet_reference| |].
  { intros e t' E L. split; [|done]. by apply (undoable_same t6); [|rewrite L|]. }
  intros released t7 E7 L7. assert (undoable t7) as Hu7 by by apply (undoable_same t6); [|rewrite L7|].
  apply twp_assign. set (t8 := MkTx _ _).
  assert (undoable t8 ∧ map eo_status (lo_outcomes (tx_locals t8)) = map operation_status (ip_operations plan)
    ∧ lo_state_changed (tx_locals t8) = negb (state_is_current plan)
    ∧ files t8 = files t5) as (Hu8 & Ho8 & Hc8 & E8).
  { split_and!; [by apply (undoable_same t7)|by cbn; rewrite L7, L6|by cbn; rewrite L7, L6|by cbn; rewrite E7, E6]. }
  assert (∀ os, map eo_status os = map operation_status (ip_operations plan) →
    undoable (MkTx (tx_world t8) (set_outcomes os (tx_locals t8))) ∧
    install_spec plan f0 (MkInstallOutcome (ip_review_digest plan)
      (if bool_decide (lo_applied (tx_locals t8) = []) && negb (lo_state_changed (tx_locals t8)) then ICURRENT else APPLIED)
      os (lo_state_changed (tx_locals t8))) [] (files t8)) as Hfin.
  { intros os Hos. split; [by apply (undoable_same t8)|]. apply spec_commit; [|exact Hos|exact Hc8|by rewrite E8].
    cbn [it_status]. destruct (_ && _); set_solver. }
  destruct (is_err released).
  - unfold twp, mbind, st_bind, assign, modify, gets, mret, st_ret. cbn [fst snd]. apply Hfin.
    etransitivity; [apply note_stale_status|exact Ho8].
  - destruct (Hfin (lo_outcomes (tx_locals t8)) Ho8) as [_ Hs]. by split.
Qed.

(** * Compensating *)

Lemma try_restore_spec label s l errors t :
  wf_fs (files t) → dirty f0 (s :: l) (files t) → seen f0 s →
  twp (try_restore label s errors) (λ r t', wf_fs (files t') ∧
    match r with
    | Ret errors' => (errors' = errors ∧ dirty f0 l (files t'))
                     ∨ (errors' ≠ [] ∧ dirty f0 (s :: l) (files t'))
    | Raise _ => dirty f0 (s :: l) (files t')
    end) t.
Proof.
  intros Hw Hd [Hp Hi]. destruct (inspect_spec f0 _ _ f0_wf Hp Hi) as (_ & Hm & Hk).
  assert (∀ r w', restore s (tx_world t) = (r, w') → wf_fs (w_fs w') ∧
    match r with
    | Ret _ => dirty f0 l (w_fs w')
    | Raise _ => dirty f0 (s :: l) (w_fs w')
    end) as Hrun.
  { intros r w' E. destruct Hk as [Hk|(d & Hn & Hh)].
    - destruct (restore_special s (tx_world t) Hk) as (Ew & e & Er & _). rewrite E in Ew, Er. cbn in *. by subst.
    - pose proof (restore_spec s d (tx_world t) Hp Hm Hn Hw) as Hs. unfold fwp in Hs. rewrite E in Hs. cbn [fst snd] in Hs.
      destruct Hs as (Hw' & Hc & Hr). split; [done|]. destruct r as [[]|e].
      + by apply (dirty_restored f0 l s d (files t)).
      + eapply dirty_changed; [|exact Hd|exact Hc]. set_solver. }
  unfold twp, try_restore, catch, mbind, st_bind, in_world.
  destruct (restore s (tx_world t)) as [[[]|e] w'] eqn:E; destruct (Hrun _ _ eq_refl) as [Hw' Hd'].
  - cbn. auto.
  - destruct e; cbn; split; try done. right. split; [|done]. by destruct errors.
Qed.

Lemma restore_all_spec attempts bad errors t :
  wf_fs (files t) → dirty f0 (bad ++ map (λ a, a.2) attempts) (files t) →
  Forall (λ a : nat * InstallOperation * PathSnapshot, seen f0 a.2) attempts → (errors = [] → bad = []) →
  twp (restore_all attempts errors) (λ r t',
    match r with
    | Ret errors' => ∃ bad', dirty f0 bad' (files t') ∧ (errors' = [] → bad' = [])
                       ∧ bad' ⊆ bad ++ map (λ a, a.2) attempts
    | Raise _ => dirty f0 (bad ++ map (λ a, a.2) attempts) (files t')
    end) t.
Proof.
  intros Hw Hd Hs. revert bad errors t Hw Hd. induction Hs as [|[[i o] s] attempts Hs Ha IH]; intros bad errors t Hw Hd He.
  - unfold twp. cbn. exists bad. rewrite app_nil_r in *. done.
  - cbn [restore_all]. eapply twp_bind.
    + apply (try_restore_spec _ s (bad ++ map (λ a, a.2) attempts)); [done| |done].
      eapply dirty_subset; [|exact Hd]. cbn. set_solver.
    + intros e t' (_ & Hd'). eapply dirty_subset; [|exact Hd']. cbn. set_solver.
    + intros errors' t' (Hw' & [(-> & Hd')|(Hne & Hd')]).
      * eapply twp_mono; [by apply (IH bad)|]. intros [es|e] t2; [|intros; eapply dirty_subset; [|done]; cbn; set_solver].
        intros (bad' & ? & ? & ?). exists bad'. split_and!; [done..|set_solver].
      * eapply twp_mono; [by apply (IH (s :: bad))|]. intros [es|e] t2; [|intros; eapply dirty_subset; [|done]; cbn; set_solver].
        intros (bad' & ? & ? & ?). exists bad'. split_and!; [done..|set_solver].
Qed.

(** What the transaction remembered, the state first and the operations last
    first. *)
Lemma elem_of_map_rev (l : list (nat * InstallOperation * PathSnapshot)) s :
  s ∈ map (λ a, a.2) (rev l) ↔ s ∈ map (λ a, a.2) l.
Proof. by rewrite map_rev, !list_elem_of_In, <-in_rev. Qed.
Lemma restore_state_spec t :
  undoable t →
  twp (if lo_state_attempted (tx_locals t) then try_restore "state" (ip_state_precondition plan) []
       else mret [])
    (λ r t', ∃ bad, bad ⊆ snaps (tx_locals t)
      ∧ dirty f0 (bad ++ map (λ a, a.2) (rev (lo_attempted (tx_locals t)))) (files t')
      ∧ match r with Ret errors => wf_fs (files t') ∧ (errors = [] → bad = []) | Raise _ => True end) t.
Proof.
  intros [Hw Hd Hs _]. unfold snaps in *. destruct (lo_state_attempted (tx_locals t)).
  - apply Forall_app in Hs as [[Hst _]%Forall_cons _]. eapply twp_mono.
    { apply (try_restore_spec _ (ip_state_precondition plan) (map (λ a, a.2) (rev (lo_attempted (tx_locals t)))));
        [done| |done].
      eapply dirty_subset; [|exact Hd]. intros s. rewrite !elem_of_app, !elem_of_cons, elem_of_map_rev. set_solver. }
    intros [errors|e] t' (Hw' & Hc).
    + destruct Hc as [(-> & Hd')|(Hne & Hd')].
      * exists []. split_and!; [apply list_subseteq_nil|done..].
      * exists [ip_state_precondition plan]. split_and!; [set_solver|done..].
    + exists [ip_state_precondition plan]. split_and!; [set_solver|done..].
  - unfold twp. cbn. exists []. split_and!; [apply list_subseteq_nil| |done|done].
    eapply dirty_subset; [|exact Hd]. intros s. cbn. by rewrite elem_of_map_rev.
Qed.
Lemma remembered_confined l attempts t g :
  undoable t → l ⊆ snaps (tx_locals t) ++ map (λ a, a.2) attempts →
  attempts ⊆ lo_attempted (tx_locals t) → dirty f0 l g → confined plan (content_of f0) g.
Proof.
  intros Hu Hl Ha. apply dirty_confined, Forall_forall. intros s Hs.
  pose proof (ud_paths t Hu) as Hp. rewrite Forall_forall in Hp. apply Hp.
  apply Hl, elem_of_app in Hs as [Hs|Hs]; [done|]. apply elem_of_app. right.
  apply list_elem_of_fmap in Hs as (a & -> & Hin). apply list_elem_of_fmap_2. by apply Ha.
Qed.

Lemma compensate_spec error t :
  undoable t →
  twp (compensate plan error) (λ r t',
    match r with
    | Ret (o, errors) => install_spec plan f0 o errors (files t')
    | Raise _ => confined plan (content_of f0) (files t')
    end) t.
Proof.
  intros Hu. unfold compensate. apply twp_gets.
  assert (∀ bad bad' g, bad ⊆ snaps (tx_locals t) → bad' ⊆ bad ++ map (λ a, a.2) (rev (lo_attempted (tx_locals t))) →
    dirty f0 bad' g → confined plan (content_of f0) g) as Hconf.
  { intros bad bad' g Hb Hb'. apply (remembered_confined _ (rev (lo_attempted (tx_locals t))) t); [done|set_solver|].
    intros a Ha%list_elem_of_In%in_rev. by apply list_elem_of_In. }
  assert (Forall (λ a : nat * InstallOperation * PathSnapshot, seen f0 a.2) (rev (lo_attempted (tx_locals t)))) as Hsr.
  { destruct Hu as [_ _ [_ Hsa]%Forall_app _]. rewrite Forall_fmap in Hsa. apply Forall_forall.
    intros a Ha%list_elem_of_In%in_rev%list_elem_of_In. rewrite Forall_forall in Hsa. by apply (Hsa a). }
  eapply twp_bind; [by apply restore_state_spec| |].
  { intros e t1 (bad & Hb & Hd & _). by apply (Hconf bad _ _ Hb (reflexivity _)). }
  intros errors t1 (bad & Hb1 & Hd1 & Hw1 & He1). eapply twp_bind; [by apply (restore_all_spec _ bad)| |].
  { intros e t2 Hd2. by apply (Hconf bad _ _ Hb1 (reflexivity _)). }
  intros errors2 t2 (bad2 & Hd2 & He2 & Hb2).
  eapply twp_bind with (R := λ r t', files t' = files t2 ∧
    match r with Ret errors => errors = [] → errors2 = [] | Raise _ => True end).
  - destruct (lo_retained (tx_locals t)); [|unfold twp; cbn; auto].
    apply twp_quiet; [apply quiet_reference|by intros e t3 E3 L3|]. intros released t3 E3 L3. unfold twp. cbn.
    split; [done|]. destruct (is_err released); [by destruct errors2|done].
  - intros e t3 (E3 & _). rewrite E3. by apply (Hconf bad bad2).
  - intros errors3 t3 (E3 & He3). unfold twp. cbn. destruct errors3 as [|e errors3].
    + apply spec_abort; [done|done|]. rewrite E3. apply dirty_nil. by rewrite <-(He2 (He3 eq_refl)).
    + apply spec_incomplete; [done|done|done|]. rewrite E3. by apply (Hconf bad bad2).
Qed.
End transaction.

(** * Atomicity *)

Section atomic.
Context `{UnicodeData} `{IpAddress} `{Environment} `{InstallAdapter}.
Notation files t := (w_fs (tx_world t)).

Lemma open_lock_spec path w :
  proper path → wf_fs (w_fs w) → w_fs w !! dirname path = Some NDir →
  fwp (open_lock path) (λ r g, wf_fs g ∧ prepared path (w_fs w) g) w.
Proof.
  intros Hp Hwf Hd. unfold open_lock. assert (prepared path (w_fs w) (w_fs w)) as Hrefl by (intros q; auto).
  apply fwp_silent; [apply silent_syscall|done|]. intros _ w1 E. apply fwp_gets. rewrite E.
  destruct (w_fs w !! path) as [[| | |]|] eqn:Hn; unfold fwp; cbn; rewrite E; try done.
  split; [apply wf_insert; [done|done|done|right; congruence]|]. intros q. destruct (decide (path = q)) as [<-|Hne].
  - right. rewrite lookup_insert_eq. auto.
  - left. by rewrite lookup_insert_ne.
Qed.

Lemma prepared_grown n path f g h :
  grown_to n f g → prepared path g h → prepared path f h.
Proof.
  intros Hg Hh q. destruct (Hg q) as [E|(E & E' & _)], (Hh q) as [F|(F & F')]; rewrite ?E, ?E' in *; auto; congruence.
Qed.

Lemma quiet_take_lock : quiet take_lock.
Proof.
  unfold take_lock. apply quiet_bind; [apply silent_quiet, silent_syscall|intros _].
  apply quiet_bind; [apply quiet_gets|intros []]; [apply quiet_pure|apply silent_quiet, silent_syscall].
Qed.

Lemma twp_finally {A} (m : st tx A) c R (Q : py A → tx → Prop) t :
  twp m R t → silent c →
  (∀ r t1 t2, R r t1 → w_fs (tx_world t2) = w_fs (tx_world t1) → tx_locals t2 = tx_locals t1 →
    Q r t2 ∧ ∀ e, Q (Raise e) t2) →
  twp (finally m (in_world c)) Q t.
Proof.
  intros Hm Hc HQ. unfold twp, finally in *. destruct (m t) as [r t1]. cbn [fst snd] in Hm.
  unfold in_world. specialize (Hc (tx_world t1)). destruct (c (tx_world t1)) as [o w]. destruct Hc as [E _].
  cbn in E. destruct (HQ r t1 (MkTx w (tx_locals t1)) Hm E eq_refl) as [Hr He]. destruct o; [apply Hr|apply He].
Qed.

(** The state at the end of the [with] statement, whatever ended it. *)
Lemma with_lock_spec plan w :
  wf_fs (w_fs w) → Forall clean_operation (ip_operations plan) → proper (ip_state_path plan) →
  proper (ip_state_lock_path plan) →
  twp (with_lock (ip_state_lock_path plan) (transaction plan)) (λ r t', ∃ f0,
    wf_fs f0 ∧ prepared (ip_state_lock_path plan) (w_fs w) f0 ∧ undoable plan f0 t'
    ∧ match r with Ret o => install_spec plan f0 o [] (files t') | Raise _ => True end) (MkTx w no_locals).
Proof.
  intros Hwf Hops Hstate Hlock. unfold with_lock.
  assert (∀ t', wf_fs (files t') → tx_locals t' = no_locals → undoable plan (files t') t') as Hnone.
  { intros t' Hw Hl. split; [done|..]; rewrite Hl; [apply dirty_refl|constructor..]. }
  eapply twp_bind; [apply twp_world, safe_parent_spec; [done|by apply proper_dirname]| |].
  { intros e t' ((Hw & Hg & _) & Hl). exists (files t'). split_and!; [done| |by apply Hnone|done].
    intros q. destruct (Hg q) as [?|(? & ? & _)]; auto. }
  intros [] t1 ((Hw1 & Hg1 & Hd1) & Hl1). change (tx_locals t1 = no_locals) in Hl1.
  eapply twp_bind; [by apply twp_world, open_lock_spec| |].
  { intros e t' ((Hw & Hp) & Hl). exists (files t'). split_and!; [done| |apply Hnone; [done|congruence]|done].
    by eapply prepared_grown. }
  intros [] t2 ((Hw2 & Hp2) & Hl2).
  assert (prepared (ip_state_lock_path plan) (w_fs w) (files t2)) as Hprep by by eapply prepared_grown.
  assert (twp (in_world take_lock ;; transaction plan) (λ r t', undoable plan (files t2) t' ∧
    match r with Ret o => install_spec plan (files t2) o [] (files t') | Raise _ => True end) t2) as Hbody.
  { apply twp_quiet; [apply quiet_take_lock| |].
    - intros e t' E L. split; [|done]. rewrite <-E. apply Hnone; [by rewrite E|congruence].
    - intros [] [w3 l3] E L. cbn in L. assert (l3 = no_locals) as -> by congruence.
      by apply (transaction_spec plan (files t2)). }
  eapply twp_finally; [exact Hbody|apply silent_finally; apply silent_syscall|].
  intros r t3 t4 (Hu & Hr) E L.
  assert (undoable plan (files t2) t4) as Hu4 by (apply (undoable_same plan (files t2) t3); [done|by rewrite L|done]).
  split; [|intros e]; exists (files t2); split_and!; try done. destruct r; [|done]. by rewrite E.
Qed.

(** What the handler returns refines the specification; an exception that
    escapes it leaves everything but the paths of the plan alone. *)
Lemma apply_transaction_spec plan w :
  wf_fs (w_fs w) → Forall clean_operation (ip_operations plan) → proper (ip_state_path plan) →
  proper (ip_state_lock_path plan) →
  twp (apply_transaction plan) (λ r t, ∃ f, prepared (ip_state_lock_path plan) (w_fs w) f ∧
    match r with
    | Ret (outcome, errors) => install_spec plan f outcome errors (files t)
    | Raise _ => confined plan (content_of f) (files t)
    end) (MkTx w no_locals).
Proof.
  intros Hwf Hops Hstate Hlock. pose proof (with_lock_spec plan w Hwf Hops Hstate Hlock) as Hl.
  unfold twp in Hl. unfold twp, apply_transaction, catch, mbind, st_bind.
  destruct (with_lock _ _ _) as [[o|e] t1]; cbn [fst snd] in Hl; destruct Hl as (f & Hf & Hp & Hu & Ho); exists f.
  - done.
  - pose proof (λ m, compensate_spec plan f Hf Hstate Hops m t1 Hu) as Hc. unfold twp in Hc.
    assert (confined plan (content_of f) (files t1)) as Ht1 by (eapply dirty_confined; apply Hu).
    destruct e; (split; [done|]); first [apply Hc|exact Ht1].
Qed.

(** The operation that failed is one of the plan. *)
Definition attributed (plan : InstallPlan) (l : locals) : Prop :=
  ∀ i, lo_failed l = Some i → (i < length (ip_operations plan))%nat.
Definition tracks (plan : InstallPlan) {A} (m : st tx A) : Prop :=
  ∀ t, attributed plan (tx_locals t) → attributed plan (tx_locals (m t).2).

Lemma tracks_pure {A} plan (m : py A) : tracks plan (pure m).
Proof. by intros t. Qed.
Lemma tracks_world {A} plan (m : st world A) : tracks plan (in_world m).
Proof. intros t Ht. unfold in_world. by destruct (m (tx_world t)). Qed.
Lemma tracks_assign plan g : (∀ l, lo_failed (g l) = lo_failed l) → tracks plan (assign g).
Proof. intros Hg t Ht i. cbn. rewrite Hg. apply Ht. Qed.
Lemma tracks_bind {A B} plan (m : st tx A) (k : A → st tx B) :
  tracks plan m → (∀ a, tracks plan (k a)) → tracks plan (m ≫= k).
Proof.
  intros Hm Hk t Ht. unfold mbind, st_bind. specialize (Hm t Ht). destruct (m t) as [[a|e] t1]; [|done].
  by apply Hk.
Qed.
Lemma tracks_catch {A} plan (m : st tx A) h : tracks plan m → (∀ e, tracks plan (h e)) → tracks plan (catch m h).
Proof.
  intros Hm Hh t Ht. unfold catch. specialize (Hm t Ht). destruct (m t) as [[a|e] t1]; [done|]. by apply Hh.
Qed.
Lemma tracks_finally {A} plan (m : st tx A) c : tracks plan m → tracks plan c → tracks plan (finally m c).
Proof.
  intros Hm Hc t Ht. unfold finally. specialize (Hm t Ht). destruct (m t) as [r t1]. cbn in Hm.
  specialize (Hc t1 Hm). destruct (c t1) as [[u|e] t2]; done.
Qed.
Lemma tracks_require plan what r : tracks plan (require_reference what r).
Proof. destruct r; apply tracks_pure. Qed.

Lemma tracks_apply_one plan i o : (i < length (ip_operations plan))%nat → tracks plan (apply_one plan i o).
Proof.
  intros Hi. unfold apply_one. destruct (operation_is_current o); [by apply tracks_assign|].
  apply tracks_bind; [by apply tracks_assign|intros _]. apply tracks_bind.
  - apply tracks_catch; [apply tracks_world|]. intros e. apply tracks_bind; [|intros _; apply tracks_pure].
    destruct e; try apply tracks_pure. intros t Ht j. cbn. by intros [= <-].
  - intros _. apply tracks_bind; [by apply tracks_assign|intros _; by apply tracks_assign].
Qed.
Lemma tracks_apply_all plan i os :
  (i + length os ≤ length (ip_operations plan))%nat → tracks plan (apply_all plan i os).
Proof.
  revert i. induction os as [|o os IH]; intros i Hi; [apply tracks_pure|]. cbn in Hi |- *.
  apply tracks_bind; [apply tracks_apply_one; lia|intros _; apply IH; lia].
Qed.
Lemma tracks_transaction plan : tracks plan (transaction plan).
Proof.
  unfold transaction. apply tracks_bind; [apply tracks_world|intros []; [|apply tracks_pure]]. cbn [negb].
  apply tracks_bind; [apply tracks_world|intros r]. apply tracks_bind; [apply tracks_require|intros _].
  apply tracks_bind; [by apply tracks_assign|intros _]. apply tracks_bind; [by apply tracks_apply_all|intros _].
  apply tracks_bind.
  { unfold write_state. destruct (_ && _); [apply tracks_pure|].
    apply tracks_bind; [by apply tracks_assign|intros _].
    apply tracks_bind; [apply tracks_world|intros _; by apply tracks_assign]. }
  intros _. apply tracks_bind; [apply tracks_world|intros r']. apply tracks_bind; [apply tracks_require|intros _].
  apply tracks_bind; [apply tracks_world|intros released]. apply tracks_bind; [by apply tracks_assign|intros _].
  apply tracks_bind; [destruct (is_err released); [by apply tracks_assign|apply tracks_pure]|intros _].
  by intros t.
Qed.
Lemma tracks_with_lock plan path : tracks plan (with_lock path (transaction plan)).
Proof.
  unfold with_lock. apply tracks_bind; [apply tracks_world|intros _]. apply tracks_bind; [apply tracks_world|intros _].
  apply tracks_finally; [|apply tracks_world]. apply tracks_bind; [apply tracks_world|intros _; apply tracks_transaction].
Qed.

(** The failed effect of the outcome carries what compensating could not undo. *)
Definition tells (outcome : InstallOutcome) (errors : list string) : Prop :=
  ∃ e error, e ∈ it_effects outcome ∧ eo_status e = "failed"
    ∧ eo_detail e = Some (error +:+ ("; rollback incomplete: " +:+ join "; " errors)).
(** No operation failed: the failure was of the lock, a reference or the state. *)
Definition blames_none (outcome : InstallOutcome) : Prop :=
  Forall (λ e, eo_status e ≠ "failed") (it_effects outcome).

Lemma failure_effects l error errors os :
  errors ≠ [] → (∀ i, lo_failed l = Some i → (i < length os)%nat) →
  let effects := imap (failure_outcome l error errors) os in
  (∃ e, e ∈ effects ∧ eo_status e = "failed"
     ∧ eo_detail e = Some (error +:+ ("; rollback incomplete: " +:+ join "; " errors)))
  ∨ Forall (λ e, eo_status e ≠ "failed") effects.
Proof.
  intros He Hl. cbn zeta. destruct (lo_failed l) as [i|] eqn:Hf.
  - left. destruct (lookup_lt_is_Some_2 os i (Hl i eq_refl)) as [o Ho].
    assert (failure_outcome l error errors i o = effect_outcome o "failed"
      (Some (error +:+ ("; rollback incomplete: " +:+ join "; " errors)))) as E.
    { unfold failure_outcome. rewrite Hf, bool_decide_eq_true_2 by done. by destruct errors. }
    exists (failure_outcome l error errors i o). rewrite E at 2 3. split_and!; [|done..].
    apply (list_elem_of_lookup_2 _ i). by rewrite list_lookup_imap, Ho.
  - right. apply Forall_lookup. intros i e Hi. rewrite list_lookup_imap in Hi.
    destruct (os !! i); [|done]. injection Hi as <-. unfold failure_outcome.
    rewrite Hf, bool_decide_eq_false_2 by done. destruct (mem _ _); [done|]. by destruct (operation_is_current _).
Qed.
Lemma compensate_effects plan error t outcome errors t' :
  compensate plan error t = (Ret (outcome, errors), t') →
  it_effects outcome = imap (failure_outcome (tx_locals t) error errors) (ip_operations plan).
Proof.
  unfold compensate. intros (l & t1 & Hl & Hrun)%bind_run_inv. injection Hl as <- <-.
  apply bind_run_inv in Hrun as (es1 & t1 & _ & Hrun). apply bind_run_inv in Hrun as (es2 & t2 & _ & Hrun).
  apply bind_run_inv in Hrun as (es3 & t3 & _ & Hrun). by injection Hrun as <- <- _.
Qed.
Lemma apply_transaction_tells plan w outcome errors t :
  apply_transaction plan (MkTx w no_locals) = (Ret (outcome, errors), t) →
  errors = [] ∨ tells outcome errors ∨ blames_none outcome.
Proof.
  intros Hrun. unfold apply_transaction, catch, mbind, st_bind in Hrun.
  pose proof (tracks_with_lock plan (ip_state_lock_path plan) (MkTx w no_locals) ltac:(by intros i)) as Hk.
  destruct (with_lock _ _ _) as [[o|e] t1]; [injection Hrun as _ <- _; by left|].
  destruct (decide (errors = [])) as [|He]; [by left|right].
  assert (∀ m, compensate plan m t1 = (Ret (outcome, errors), t) → tells outcome errors ∨ blames_none outcome) as Hc.
  { intros m Hm%compensate_effects. unfold tells, blames_none. rewrite Hm.
    destruct (failure_effects (tx_locals t1) m errors (ip_operations plan) He Hk) as [(e' & ? & ? & ?)|Hn]; [left|by right].
    by exists e', m. }
  destruct e; try done; by eapply Hc.
Qed.

End atomic.

(** * A concrete installation *)

(** One file is written below a directory that exists already. *)
Definition sample_write : InstallOperation :=
  WriteFile (MkWriteFile "CLAUDE.md" "CLAUDE.md" "/work/CLAUDE.md" "new" false (sha256_bytes "new")
    (MkPathSnapshot "/work/CLAUDE.md" PABSENT None "" false [] None None) "write-file" false None).
Definition sample_object : ObjectCandidate := MkObjectCandidate (MkDigest "sha256" sample_hex) [] "".
Definition sample_plan : InstallPlan :=
  MkInstallPlan
    (MkInstallRequest (MkIdentity Skill "demo") None None "claude" 1 "linux" "project" "copy" false false
       "replace" None)
    (in_coordinate sample_record) (in_source sample_record) "fresh" 0 (MkDigest "sha256" sample_hex)
    (in_artifact sample_record) "trusted" (MkDigest "sha256" sample_hex) (MkDigest "sha256" sample_hex)
    sample_store sample_object "/data/objects/demo" (MkDigest "sha256" sample_hex) None [sample_write]
    "/work/state.json" "/work/state.lock" (MkPathSnapshot "/work/state.json" PABSENT None "" false [] None None)
    sample_state (MkDigest "sha256" sample_hex) "project:/work" (MkDigest "sha256" sample_hex).

(** The system call with number [n] fails. *)
Definition faulty (n : option nat) : Environment := {|
  env_fault k := bool_decide (n = Some k);
  env_busy _ := false;
  env_exists f p := lexists f p;
  env_realpath _ p := p
|}.
(** The reference store refuses to record installed objects, or accepts. *)
Definition sample_adapter (accepts : bool) : InstallAdapter := {|
  ad_read_object _ _ := Ok (Some (MkStoredObject sample_object "/data/objects/demo"));
  ad_references := {|
    ru_acquire_lock _ _ := Ok sample_lease;
    ru_release_lock _ _ := Ok tt;
    ru_read_references _ _ := Ok (MkReferenceIndex []);
    ru_write_references _ command :=
      if accepts || forallb (λ r, bool_decide (rf_kind r = TRANSACTION)) (ri_references (wc_index command))
      then Ok (wc_index command)
      else Err [MkDiagnostic (MkCode "OBJ001") ERROR "store is read-only" None [] []]
  |}
|}.
Definition sample_files : fs := {[ "/" := NDir; "/work" := NDir ]}.
Definition sample_run (n : option nat) (accepts : bool) :=
  @apply_transaction ascii_unicode (faulty n) (sample_adapter accepts) sample_plan
    (MkTx (MkWorld sample_files 0 []) no_locals).

Lemma proper_one c : clean c = true → proper ("/" +:+ c).
Proof. intros Hc. exists [c]. split; [done|]. split; [cbn; by rewrite Hc|done]. Qed.
Lemma proper_two c c' : clean c = true → clean c' = true → proper ("/" +:+ (c +:+ ("/" +:+ c'))).
Proof.
  intros Hc Hc'. exists [c; c']. split; [done|]. split; [cbn; by rewrite Hc, Hc'|done].
Qed.
Lemma sample_files_wf : wf_fs sample_files.
Proof.
  split; [by vm_compute|]. intros q n Hq. unfold sample_files in Hq.
  apply lookup_insert_Some in Hq as [[<- _]|[_ [<- _]%lookup_singleton_Some]]; [by left|].
  right. split; [by apply (proper_one "work")|by vm_compute].
Qed.

Lemma sample_operations_clean : Forall clean_operation (ip_operations sample_plan).
Proof. constructor; [|constructor]. split; [by apply (proper_two "work" "CLAUDE.md")|done]. Qed.


(** The same write is undone when the installed reference is refused; and when
    removing the file fails then, the outcome still calls it rolled back, and
    says nothing of the failed compensation. *)
Example refused_reference_undone :
  match sample_run None false with
  | (Ret (o, errors), t) => map eo_status (it_effects o) = ["rolled-back"] ∧ errors = []
                            ∧ w_fs (tx_world t) !! "/work/CLAUDE.md" = None
  | _ => False
  end.
Proof. by vm_compute. Qed.
Example incomplete_rollback_unreported :
  match sample_run (Some 35%nat) false with
  | (Ret (o, errors), t) =>
      map (λ e, (eo_status e, eo_detail e)) (it_effects o)
        = [("rolled-back", Some "cannot retain installed object reference: store is read-only")]
      ∧ errors = ["CLAUDE.md: system call failed"]
      ∧ w_fs (tx_world t) !! "/work/CLAUDE.md" = Some (NFile "new" false)
  | _ => False
  end.
Proof. by vm_compute. Qed.
