(* ===== verification/LifecycleModel.v ===== *)
(** [lifecycle/model.py]: the values of status, check, update and uninstall,
    and the plans bound to the digest a person reviewed.

    A plan whose constructor builds other values (a state, an index) is checked
    step by step, in the order of the [or] of the code, so that what is raised
    first is what the code raises first. *)
From S2P Require Import Prelude PyText TextSearch Posix Regex Domain SemVer Json Protocol CompilerModel Marketplace Configuration InstallState InstallSchema StoreModel Installation InstallPlan.
From Stdlib Require Import Ascii.
Open Scope Z_scope.

Inductive LifecycleStatus : Type :=
  | L_CURRENT | L_UPDATE_AVAILABLE | L_CHANGED | L_REMOVED | L_REMOVED_UPSTREAM | L_SOURCE_UNAVAILABLE
  | L_IDENTITY_CHANGED | L_MISSING | L_DRIFTED | L_BROKEN | L_RETARGETED | L_REPLACED | L_CONFLICT
  | L_FAILED | L_SKIPPED.
#[export] Instance lifecycle_status_eq_dec : EqDecision LifecycleStatus.
Proof. solve_decision. Defined.
Definition lifecycle_status_value (s : LifecycleStatus) : string :=
  match s with
  | L_CURRENT => "current" | L_UPDATE_AVAILABLE => "update-available" | L_CHANGED => "changed"
  | L_REMOVED => "removed" | L_REMOVED_UPSTREAM => "removed-upstream"
  | L_SOURCE_UNAVAILABLE => "source-unavailable" | L_IDENTITY_CHANGED => "identity-changed"
  | L_MISSING => "missing" | L_DRIFTED => "drifted" | L_BROKEN => "broken"
  | L_RETARGETED => "retargeted" | L_REPLACED => "replaced" | L_CONFLICT => "conflict"
  | L_FAILED => "failed" | L_SKIPPED => "skipped"
  end.

Record LifecycleKey := MkLifecycleKey {
  lk_coordinate : ArtifactCoordinate; lk_profile : string; lk_scope : string
}.
#[export] Instance lifecycle_key_eq_dec : EqDecision LifecycleKey.
Proof. solve_decision. Defined.
Definition lifecycle_key (k : LifecycleKey) : py LifecycleKey :=
  raise_if (negb (fullmatch slug_re (lk_profile k)) || negb (mem (lk_scope k) ["project"; "user"]))
    "lifecycle key is invalid" ;;
  Ret k.
Definition key_from_record (r : InstallationRecord) : py LifecycleKey :=
  lifecycle_key (MkLifecycleKey (in_coordinate r) (in_profile r) (in_scope r)).

Record LifecycleSelection := MkSelection {
  ls_scope : string; ls_coordinates : list ArtifactCoordinate; ls_profiles : list string
}.
Definition lifecycle_selection (s : LifecycleSelection) : py LifecycleSelection :=
  raise_if (negb (mem (ls_scope s) ["project"; "user"])) "lifecycle selection is invalid" ;;
  let coordinates := sorted_set coordinate_str (ls_coordinates s) in
  let profiles := sorted_set id (ls_profiles s) in
  raise_if (negb (length coordinates =? length (ls_coordinates s))%nat
            || negb (length profiles =? length (ls_profiles s))%nat
            || existsb (λ p, negb (fullmatch slug_re p)) profiles) "lifecycle selection is invalid" ;;
  Ret (MkSelection (ls_scope s) coordinates profiles).

Definition select_installations (state : InstallState) (selection : LifecycleSelection) :
    list InstallationRecord :=
  List.filter (λ r, bool_decide (in_scope r = ls_scope selection)
                    && (bool_decide (ls_coordinates selection = [])
                        || mem (in_coordinate r) (ls_coordinates selection))
                    && (bool_decide (ls_profiles selection = [])
                        || mem (in_profile r) (ls_profiles selection)))
    (st_installations state).

Record LifecycleEffect := MkLifecycleEffect {
  le_kind : string; le_destination : string; le_status : LifecycleStatus; le_detail : string
}.
#[export] Instance lifecycle_effect_eq_dec : EqDecision LifecycleEffect.
Proof. solve_decision. Defined.
Definition lifecycle_effect (e : LifecycleEffect) : py LifecycleEffect :=
  raise_if (str_empty (le_kind e) || str_empty (le_destination e) || has_char creturn (le_detail e))
    "lifecycle effect outcome is invalid" ;;
  Ret e.

Record LifecycleItem := MkLifecycleItem {
  li_key : LifecycleKey; li_status : LifecycleStatus; li_effects : list LifecycleEffect;
  li_detail : string
}.
#[export] Instance lifecycle_item_eq_dec : EqDecision LifecycleItem.
Proof. solve_decision. Defined.
Definition lifecycle_item (i : LifecycleItem) : py LifecycleItem :=
  raise_if (has_char creturn (li_detail i)) "lifecycle item outcome is invalid" ;; Ret i.

Record LifecycleOutcome := MkLifecycleOutcome {
  lo_action : string; lo_selected : Z; lo_items : list LifecycleItem
}.
Definition lifecycle_outcome (o : LifecycleOutcome) : py LifecycleOutcome :=
  raise_if (negb (mem (lo_action o) ["status"; "check"; "update"; "uninstall"])
            || (lo_selected o <? 0) || negb (lo_selected o =? count (lo_items o))
            || has_dups (map li_key (lo_items o)))
    "lifecycle outcome must contain one terminal item per selection" ;;
  Ret o.

Section model.
Context `{UnicodeData} `{IpAddress}.

Definition absolute_effect_path (e : EffectProof) (scope : string) (location : InstallLocation) :
    py string :=
  if bool_decide (scope = "user") then
    raise_if (negb (isabs (ef_destination e))) "user lifecycle destination must be absolute" ;;
    Ret (ef_destination e)
  else
    raise_if (isabs (ef_destination e)) "project lifecycle destination must be relative" ;;
    Ret (normpath (pjoin (il_project_root location) (ef_destination e))).

(** * Teardown of a scope *)

(** The directories are listed deepest first. *)
Definition depth_key (path : string) : Z * string := (- Z.of_nat (count_sub "/" path), path).

Record ScopeTeardown := MkTeardown {
  te_state_path : string;
  te_state_lock_path : string;
  te_state_root : string;
  te_directories : list string;
  te_reclaims_state : bool
}.
Definition scope_teardown_init (t : ScopeTeardown) : py ScopeTeardown :=
  raise_if (existsb (λ p, negb (norm_abs p) || bool_decide (p = "/"))
              (te_state_path t :: te_state_lock_path t :: te_state_root t :: te_directories t)
            || negb (bool_decide (te_state_root t = dirname (te_state_path t)))
            || negb (bool_decide (te_state_root t = dirname (te_state_lock_path t)))
            || has_dups (te_directories t)
            || negb (bool_decide (te_directories t = sorted depth_key (te_directories t))))
    "scope teardown is invalid" ;;
  Ret t.

Definition prunable_ancestors (destination root : string) : list string :=
  let prefix := rstrip_char "/" root +:+ "/" in
  if negb (String.prefix prefix destination) then []
  else let parts := split_on "/" (str_drop (String.length prefix) destination) in
       map (λ depth, pjoins root (take depth parts)) (rev (seq 2 (length parts - 2))).

Record UninstallOperation := MkUninstall {
  un_effect : EffectProof;
  un_absolute_destination : string;
  un_precondition : PathSnapshot;
  un_mutation : string;
  un_replacement_content : bytes
}.
#[global] Instance uninstall_operation_eq_dec : EqDecision UninstallOperation.
Proof using. solve_decision. Defined.
Definition uninstall_operation (o : UninstallOperation) : py UninstallOperation :=
  raise_if (negb (norm_abs (un_absolute_destination o)) || bool_decide (un_absolute_destination o = "/")
            || negb (bool_decide (ps_path (un_precondition o) = un_absolute_destination o))
            || negb (mem (un_mutation o) ["none"; "remove"; "write"])
            || (negb (bool_decide (un_mutation o = "write"))
                && negb (str_empty (un_replacement_content o))))
    "uninstall operation is invalid" ;;
  Ret o.

Definition scope_teardown (r : InstallationRecord) (operations : list UninstallOperation)
    (state_path state_lock_path : string) (location : InstallLocation) (reclaims_state : bool) :
    py ScopeTeardown :=
  let root := if bool_decide (in_scope r = "project") then il_project_root location
              else il_user_home location in
  let directories :=
    concat (map (λ o, prunable_ancestors (un_absolute_destination o) root)
              (List.filter (λ o, bool_decide (un_mutation o = "remove")) operations)) in
  scope_teardown_init
    (MkTeardown state_path state_lock_path (dirname state_path) (sorted_set depth_key directories)
       reclaims_state).

Definition reference_owner (r : InstallationRecord) : string :=
  in_scope r +:+ "/" +:+ alias_value (co_source (in_coordinate r)) +:+ "/"
  +:+ kind_value (id_kind (ae_identity (in_artifact r))) +:+ "/"
  +:+ id_name (ae_identity (in_artifact r)) +:+ "/" +:+ in_profile r.

(** * The plan of an uninstall *)

Record UninstallPlan := MkUninstallPlan {
  up_record : InstallationRecord;
  up_force : bool;
  up_operations : list UninstallOperation;
  up_state_path : string;
  up_state_lock_path : string;
  up_state_precondition : PathSnapshot;
  up_replacement_state : InstallState;
  up_replacement_state_digest : ObjectDigest;
  up_object_store_paths : ObjectStorePaths;
  up_reference_owner : string;
  up_reference_precondition : ReferenceIndex;
  up_reference_replacement : ReferenceIndex;
  up_terminal : option LifecycleStatus;
  up_detail : string;
  up_review_digest : ObjectDigest;
  up_teardown : option ScopeTeardown
}.

(** [_snapshot_json] of this file *)
Definition uninstall_snapshot_json (s : PathSnapshot) : JsonValue :=
  json_object
    [("digest", match ps_digest s with Some d => JStr (digest_str d) | None => JNull end);
     ("kind", JStr (path_kind_value (ps_kind s)));
     ("link_target", match ps_link_target s with Some t => JStr t | None => JNull end);
     ("path", JStr (ps_path s));
     ("target_exists", match ps_target_exists s with Some b => JBool b | None => JNull end)].
Definition uninstall_operation_json (o : UninstallOperation) : JsonValue :=
  json_object
    [("destination", JStr (un_absolute_destination o)); ("effect_kind", JStr (ef_kind (un_effect o)));
     ("mutation", JStr (un_mutation o)); ("precondition", uninstall_snapshot_json (un_precondition o));
     ("replacement_digest", JStr (digest_str (sha256_bytes (un_replacement_content o))))].

(** The manifest of the record alone, as text. *)
Definition record_text (r : InstallationRecord) : py string :=
  state ← install_state 2 [r]; Ret (install_state_bytes state).

(** [_uninstall_review_value] *)
Definition uninstall_review_value (p : UninstallPlan) : py JsonValue :=
  record ← record_text (up_record p);
  Ret (json_object
    [("action", JStr "uninstall"); ("force", JBool (up_force p)); ("record", JStr record);
     ("state_path", JStr (up_state_path p)); ("state_lock_path", JStr (up_state_lock_path p));
     ("state_precondition", uninstall_snapshot_json (up_state_precondition p));
     ("replacement_state_digest", JStr (digest_str (up_replacement_state_digest p)));
     ("reference_owner", JStr (up_reference_owner p));
     ("object_store_root", JStr (os_root (up_object_store_paths p)));
     ("references_file", JStr (os_references_file (up_object_store_paths p)));
     ("reference_precondition", JStr (reference_index_bytes (up_reference_precondition p)));
     ("reference_replacement", JStr (reference_index_bytes (up_reference_replacement p)));
     ("operations", JsonArray (map uninstall_operation_json (up_operations p)));
     ("terminal", match up_terminal p with
                  | Some s => JStr (lifecycle_status_value s) | None => JNull end);
     ("detail", JStr (up_detail p))]).
Definition uninstall_review_digest (p : UninstallPlan) : py ObjectDigest :=
  value ← uninstall_review_value p; Ret (sha256_bytes (canonical_json_bytes value)).

(** The state without the record. *)
Definition without_record (r : InstallationRecord) (state : InstallState) : py InstallState :=
  install_state 2 (List.filter (λ item, negb (bool_decide (installation_key item = installation_key r)))
                     (st_installations state)).
(** The references without the record's own. *)
Definition without_references (owner : string) (index : ReferenceIndex) : py ReferenceIndex :=
  reference_index 1
    (List.filter (λ r, negb (bool_decide (rf_kind r = INSTALLED) && bool_decide (rf_owner r = owner)))
       (ri_references index)).

Definition removal_is_scoped (p : UninstallPlan) (o : UninstallOperation) : bool :=
  bool_decide (un_absolute_destination o
    = if bool_decide (in_scope (up_record p) = "project")
      then pjoin (dirname (dirname (up_state_path p))) (ef_destination (un_effect o))
      else ef_destination (un_effect o)).

(** The state that the plan's own snapshot of the manifest leads to. *)
Definition expected_replacement `{DecodeErrors} (p : UninstallPlan) : py (option InstallState) :=
  match ps_kind (up_state_precondition p) with
  | PFILE =>
      parsed ← parse_install_state (ps_content (up_state_precondition p)) (up_state_path p);
      match parsed with
      | Err _ => Ret None
      | Ok current =>
          if existsb (record_py_eq (up_record p)) (st_installations current)
          then Some <$> without_record (up_record p) current else Ret None
      end
  | _ => Ret None
  end.

Definition teardown_matches (p : UninstallPlan) (t : ScopeTeardown) : bool :=
  bool_decide (up_terminal p = None) && bool_decide (te_state_path t = up_state_path p)
  && bool_decide (te_state_lock_path t = up_state_lock_path p)
  && Bool.eqb (te_reclaims_state t) (bool_decide (st_installations (up_replacement_state p) = [])).

(** The conditions before the one that rebuilds the reference index. *)
Definition uninstall_unbound (p : UninstallPlan) (expected_state : option InstallState) : bool :=
  let record := up_record p in
  negb (isabs (up_state_path p)) || negb (isabs (up_state_lock_path p))
  || negb (bool_decide (ps_path (up_state_precondition p) = up_state_path p))
  || negb (bool_decide (up_state_lock_path p = pjoin (dirname (up_state_path p)) "state.lock"))
  || negb (bool_decide (sha256_bytes (install_state_bytes (up_replacement_state p))
                        = up_replacement_state_digest p))
  || negb (match expected_state with
           | Some s => state_py_eq s (up_replacement_state p) | None => false end)
  || negb (bool_decide (up_reference_owner p = reference_owner record))
  || negb (mem (up_terminal p) [None; Some L_CONFLICT])
  || (bool_decide (up_terminal p = None)
      && negb (length (up_operations p) =? length (in_effects record))%nat)
  || (negb (bool_decide (up_terminal p = None)) && negb (bool_decide (up_operations p = [])))
  || negb (forallb (removal_is_scoped p) (up_operations p))
  || (bool_decide (up_terminal p = None)
      && negb (list_py_eq effect_py_eq (map un_effect (up_operations p)) (in_effects record))).

Definition with_uninstall_review (p : UninstallPlan) (review : ObjectDigest) : UninstallPlan :=
  MkUninstallPlan (up_record p) (up_force p) (up_operations p) (up_state_path p)
    (up_state_lock_path p) (up_state_precondition p) (up_replacement_state p)
    (up_replacement_state_digest p) (up_object_store_paths p) (up_reference_owner p)
    (up_reference_precondition p) (up_reference_replacement p) (up_terminal p) (up_detail p) review
    (up_teardown p).
Definition unreviewed_uninstall : ObjectDigest := sha256_bytes "unreviewed-uninstall-plan".

Definition uninstall_plan `{DecodeErrors} (p : UninstallPlan) : py UninstallPlan :=
  let unbound := "uninstall plan is not exactly bound" in
  expected_state ← expected_replacement p;
  raise_if (uninstall_unbound p expected_state) unbound ;;
  references ← without_references (up_reference_owner p) (up_reference_precondition p);
  raise_if (negb (bool_decide (up_reference_replacement p = references))
            || match up_teardown p with Some t => negb (teardown_matches p t) | None => false end)
    unbound ;;
  expected_review ← uninstall_review_digest p;
  raise_if (negb (mem (up_review_digest p) [unreviewed_uninstall; expected_review]))
    "uninstall review digest does not bind the plan" ;;
  Ret (if bool_decide (up_review_digest p = unreviewed_uninstall)
       then with_uninstall_review p expected_review else p).

(** * The plan of an update *)

Record UpdatePlan := MkUpdatePlan {
  dp_record : InstallationRecord;
  dp_prune : bool;
  dp_install_plan : option InstallPlan;
  dp_uninstall_plan : option UninstallPlan;
  dp_terminal : option LifecycleItem;
  dp_review_digest : ObjectDigest
}.

Definition nested_review (p : UpdatePlan) : string :=
  match dp_install_plan p, dp_uninstall_plan p, dp_terminal p with
  | Some install, _, _ => digest_str (ip_review_digest install)
  | None, Some uninstall, _ => digest_str (up_review_digest uninstall)
  | None, None, Some item => lifecycle_status_value (li_status item)
  | None, None, None => "invalid"
  end.
(** [_update_review_value] *)
Definition update_review_value (p : UpdatePlan) : py JsonValue :=
  record ← record_text (dp_record p);
  Ret (json_object
    [("action", JStr "update"); ("record", JStr record); ("prune", JBool (dp_prune p));
     ("nested_review", JStr (nested_review p));
     ("detail", JStr (match dp_terminal p with Some i => li_detail i | None => "" end))]).
Definition update_review_digest (p : UpdatePlan) : py ObjectDigest :=
  value ← update_review_value p; Ret (sha256_bytes (canonical_json_bytes value)).
Definition unreviewed_update : ObjectDigest := sha256_bytes "unreviewed-update-plan".

(** The install plan is for the recorded installation. *)
Definition install_matches (r : InstallationRecord) (i : InstallPlan) : bool :=
  bool_decide (co_source (ip_coordinate i) = co_source (in_coordinate r))
  && bool_decide (co_artifact (ip_coordinate i) = co_artifact (in_coordinate r))
  && bool_decide (iq_profile (ip_request i) = in_profile r)
  && (iq_profile_version (ip_request i) =? in_profile_version r)
  && bool_decide (iq_scope (ip_request i) = in_scope r)
  && bool_decide (iq_mode (ip_request i) = in_requested_mode r)
  && bool_decide (iq_identity (ip_request i) = ae_identity (in_artifact r))
  && bool_decide (iq_source (ip_request i) = Some (se_alias (in_source r)))
  && bool_decide (iq_memory_mode (ip_request i) = default "prepend" (in_memory_mode r)).

Definition update_plan (p : UpdatePlan) : py UpdatePlan :=
  let unbound := "update plan is not exactly bound" in
  let is_some {A} (o : option A) : Z := match o with Some _ => 1 | None => 0 end in
  raise_if (negb (is_some (dp_install_plan p) + is_some (dp_uninstall_plan p)
                  + is_some (dp_terminal p) =? 1)
            || (match dp_uninstall_plan p with Some _ => true | None => false end && negb (dp_prune p))
            || match dp_install_plan p with
               | Some i => negb (install_matches (dp_record p) i) | None => false end
            || match dp_uninstall_plan p with
               | Some u => negb (record_py_eq (up_record u) (dp_record p)) | None => false end)
    unbound ;;
  key ← match dp_terminal p with
        | Some i => key ← key_from_record (dp_record p); Ret (negb (bool_decide (li_key i = key)))
        | None => Ret false
        end;
  raise_if key unbound ;;
  review ← update_review_digest p;
  raise_if (negb (mem (dp_review_digest p) [unreviewed_update; review])) unbound ;;
  Ret (if bool_decide (dp_review_digest p = unreviewed_update)
       then MkUpdatePlan (dp_record p) (dp_prune p) (dp_install_plan p) (dp_uninstall_plan p)
              (dp_terminal p) review
       else p).
End model.
