(* ===== verification/Ports.v ===== *)
(** The ports through which installations are planned and applied
    ([InstallReadPorts] and [InstallApplyPorts] of [installation/application.py],
    [LifecycleReadPorts] and [LifecycleApplyPorts] of [lifecycle/application.py]),
    and the calls a run makes to them.

    An answer may depend on every call made before it; a run leaves the trace of
    its calls, also when it raises ([Effects.v]). *)
From S2P Require Import Prelude Effects Domain Protocol StoreModel InstallState Installation InstallPlan LifecycleModel.

Inductive install_event : Type :=
  | EReadObject (request : ObjectReadRequest) (answer : Result (option StoredObject))
  | EReadState (path : string) (answer : Result (option InstallState))
  | EInspectPath (path : string) (answer : Result PathSnapshot)
  | EInspectLink (path boundary : string) (answer : Result PathSnapshot)
  | EReadInstalled (paths : ObjectStorePaths) (answer : Result ReferenceIndex)
  | EApplyPlan (plan : InstallPlan) (answer : Result InstallOutcome)
  | EApplyUninstall (plan : UninstallPlan) (answer : Result LifecycleItem).

Notation calls := (list install_event).
Notation effect A := (st (list install_event) A).

Record InstallReadPorts := MkInstallReadPorts {
  rp_read_object : calls → ObjectReadRequest → Result (option StoredObject);
  rp_read_state : calls → string → Result (option InstallState);
  rp_inspect_path : calls → string → Result PathSnapshot;
  rp_inspect_link_target : calls → string → string → Result PathSnapshot
}.
Record InstallApplyPorts := MkInstallApplyPorts {
  ap_read : InstallReadPorts;
  ap_apply_plan : calls → InstallPlan → Result InstallOutcome
}.
Record LifecycleReadPorts := MkLifecycleReadPorts {
  lp_read : InstallReadPorts;
  lp_read_references : calls → ObjectStorePaths → Result ReferenceIndex
}.
Record LifecycleApplyPorts := MkLifecycleApplyPorts {
  la_read : LifecycleReadPorts;
  la_apply_plan : calls → InstallPlan → Result InstallOutcome;
  la_apply_uninstall_plan : calls → UninstallPlan → Result LifecycleItem
}.
(** The same object, where an [InstallApplyPorts] is expected. *)
Definition install_ports (ports : LifecycleApplyPorts) : InstallApplyPorts :=
  MkInstallApplyPorts (lp_read (la_read ports)) (la_apply_plan ports).

Section calls.
Context (ports : InstallReadPorts).
Definition read_object (request : ObjectReadRequest) : effect (Result (option StoredObject)) :=
  call (λ t, rp_read_object ports t request) (EReadObject request).
Definition read_state (path : string) : effect (Result (option InstallState)) :=
  call (λ t, rp_read_state ports t path) (EReadState path).
Definition inspect_path (path : string) : effect (Result PathSnapshot) :=
  call (λ t, rp_inspect_path ports t path) (EInspectPath path).
Definition inspect_link_target (path boundary : string) : effect (Result PathSnapshot) :=
  call (λ t, rp_inspect_link_target ports t path boundary) (EInspectLink path boundary).
End calls.
Definition read_references (ports : LifecycleReadPorts) (paths : ObjectStorePaths) :
    effect (Result ReferenceIndex) :=
  call (λ t, lp_read_references ports t paths) (EReadInstalled paths).
Definition apply_install_plan (ports : InstallApplyPorts) (plan : InstallPlan) :
    effect (Result InstallOutcome) :=
  call (λ t, ap_apply_plan ports t plan) (EApplyPlan plan).
Definition apply_uninstall_plan (ports : LifecycleApplyPorts) (plan : UninstallPlan) :
    effect (Result LifecycleItem) :=
  call (λ t, la_apply_uninstall_plan ports t plan) (EApplyUninstall plan).

(** [if isinstance(result, Err): return result], then the rest. *)
Definition or_return {S A B} (m : st S (Result A)) (f : A → st S (Result B)) : st S (Result B) :=
  r ← m; match r with Ok a => f a | Err ds => mret (Err ds) end.
Notation "x ←? m ; k" := (or_return m (λ x, k))
  (at level 20, m at level 100, k at level 200, only parsing) : stdpp_scope.
(** A computation without effects, and one that only fails. *)
Definition result {S A} (r : Result A) : st S (Result A) := mret r.

(** [try: ... except ValueError as error: return handler(error)] *)
Definition or_value_error {A} (m : py A) (handler : string → Result A) : py (Result A) :=
  match m with
  | Ret a => Ret (Ok a)
  | Raise (ValueError message) => Ret (handler message)
  | Raise e => Raise e
  end.
Lemma or_value_error_Ok {A} (m : py A) handler a :
  (∀ message, ∃ ds, handler message = Err ds) → or_value_error m handler = Ret (Ok a) → m = Ret a.
Proof.
  intros Hh. destruct m as [b|[]]; cbn; try done; [by intros [= ->]|].
  match goal with |- Ret (handler ?x) = _ → _ => destruct (Hh x) as [ds ->] end. done.
Qed.

(** The calls that change nothing. *)
Definition is_read (e : install_event) : bool :=
  match e with EApplyPlan _ _ | EApplyUninstall _ _ => false | _ => true end.

(** * Runs that only read *)

(** Whatever its trace so far, a run only appends reads. *)
Definition reads {A} (m : effect A) : Prop :=
  ∀ t, ∃ more, (m t).2 = t ++ more ∧ forallb is_read more = true.

Lemma reads_ret {A} (a : A) : reads (mret a).
Proof. intros t. exists []. by rewrite app_nil_r. Qed.
Lemma reads_pure {A} (m : py A) : reads (pure m).
Proof. intros t. exists []. by rewrite app_nil_r. Qed.
Lemma reads_result {A} (r : Result A) : reads (result r).
Proof. apply reads_ret. Qed.
Lemma reads_call {R} (answer : calls → R) event :
  (∀ r, is_read (event r) = true) → reads (call answer event).
Proof. intros He t. exists [event (answer t)]. split; [done|]. cbn. by rewrite He. Qed.
Lemma reads_bind {A B} (m : effect A) (f : A → effect B) :
  reads m → (∀ a, reads (f a)) → reads (m ≫= f).
Proof.
  intros Hm Hf t. destruct (Hm t) as (more & Ht & Hr). unfold mbind, st_bind.
  destruct (m t) as [[a|e] t'] eqn:E; cbn in Ht; subst t'; [|by exists more].
  destruct (Hf a (t ++ more)) as (more' & Ht' & Hr'). exists (more ++ more').
  rewrite Ht', forallb_app, Hr, Hr'. by rewrite app_assoc.
Qed.
Lemma reads_or_return {A B} (m : effect (Result A)) (f : A → effect (Result B)) :
  reads m → (∀ a, reads (f a)) → reads (or_return m f).
Proof. intros Hm Hf. apply reads_bind; [done|]. intros [a|ds]; [apply Hf|apply reads_ret]. Qed.
Lemma reads_fmap {A B} (m : effect A) (f : A → B) : reads m → reads (f <$> m).
Proof.
  intros Hm t. destruct (Hm t) as (more & Ht & Hr). unfold fmap, st_fmap.
  destruct (m t) as [[a|e] t']; cbn in *; eauto.
Qed.
Create HintDb reads.
#[export] Hint Resolve reads_ret reads_pure reads_result reads_bind reads_or_return reads_fmap : reads.
#[export] Hint Extern 2 (reads (read_object _ _)) => apply reads_call; done : reads.
#[export] Hint Extern 2 (reads (read_state _ _)) => apply reads_call; done : reads.
#[export] Hint Extern 2 (reads (inspect_path _ _)) => apply reads_call; done : reads.
#[export] Hint Extern 2 (reads (inspect_link_target _ _ _)) => apply reads_call; done : reads.
#[export] Hint Extern 2 (reads (read_references _ _)) => apply reads_call; done : reads.
