(* ===== verification/Merge.v ===== *)
(** Merging one managed entry into a JSON document and finding it again:
    [_merged_content] and its helpers of [installation/application.py],
    [_merge_effect_status] and [_remove_merge_identity] of
    [lifecycle/application.py].

    The installation edits Python data in place; the root it edits is fresh
    ([json.loads(json.dumps(...))]) and only printed afterwards, so an edit is
    a function from the dictionary before to the one after.  The lifecycle
    reads the frozen, sorted [JsonValue]. *)
From S2P Require Import Prelude PyText TextSearch Domain Json JsonParse Protocol IndentedJson InstallState Installation LifecycleModel.
From Stdlib Require Import Ascii.
Open Scope Z_scope.

Definition INSTALL_OBJECT_UNAVAILABLE := MkCode "install-object-unavailable".
Definition INSTALL_OBJECT_EVIDENCE_INVALID := MkCode "install-object-evidence-invalid".
Definition INSTALL_POLICY_DENIED := MkCode "install-policy-denied".
Definition INSTALL_CONFLICT := MkCode "install-conflict".
Definition INSTALL_INVALID := MkCode "install-invalid".
Definition INSTALL_REVIEW_MISMATCH := MkCode "install-review-mismatch".

(** [_error] *)
Definition install_error {A} (code : DiagnosticCode) (message : string) : Result A :=
  fail1 (diagnostic code ERROR message None [] []).

(** Python's [==] on data: dictionaries whatever their order, [True == 1]. *)
Fixpoint data_py_eq (v w : data) : bool :=
  match v, w with
  | DNone, DNone => true
  | DBool a, DBool b => Bool.eqb a b
  | DInt a, DInt b => a =? b
  | DBool a, DInt b => bool_int a =? b
  | DInt a, DBool b => a =? bool_int b
  | DStr a, DStr b => String.eqb a b
  | DList l, DList k =>
      (fix go (l k : list data) : bool :=
        match l, k with
        | [], [] => true
        | v :: l, w :: k => data_py_eq v w && go l k
        | _, _ => false
        end) l k
  | DDict d, DDict e =>
      (length d =? length e)%nat
      && forallb (λ kv, match dget kv.1 e with Some w => data_py_eq kv.2 w | None => false end) d
  | _, _ => false
  end.

Section merge.
Context `{UnicodeData} `{DecodeErrors}.

(** [str] and [repr] of data *)
Fixpoint py_repr (v : data) : string :=
  match v with
  | DNone => "None"
  | DBool b => if b then "True" else "False"
  | DInt n => str_Z n
  | DStr s => repr s
  | DList l => "[" +:+ join ", " (map py_repr l) +:+ "]"
  | DDict d => "{" +:+ join ", " (map (λ kv, repr kv.1 +:+ ": " +:+ py_repr kv.2) d) +:+ "}"
  end.
Definition py_str (v : data) : string := match v with DStr s => s | _ => py_repr v end.

(** * Reading the document *)

Definition strict_mapping (content : bytes) (path : string) : py (Result (list (string * data))) :=
  parsed ← parse_json content None MAX_DEPTH MAX_STRING;
  Ret match parsed with
      | Ok (JsonObject entries) =>
          Ok (dict_of (map (λ kv, (kv.1, to_python kv.2)) entries))
      | _ => install_error INSTALL_INVALID ("install JSON input is invalid: " +:+ path)
      end.

Definition existing_mapping (snapshot : PathSnapshot) : py (Result (list (string * data))) :=
  match ps_kind snapshot with
  | PABSENT => Ret (Ok [])
  | PFILE => strict_mapping (ps_content snapshot) (ps_path snapshot)
  | _ => Ret (install_error INSTALL_CONFLICT
                ("merge destination is not a regular file: " +:+ ps_path snapshot))
  end.

(** * Templates *)

(** The first match of [\$\{([^}]+)\}] at the front of a text: the group and
    what follows. *)
Definition placeholder (s : string) : option (string * string) :=
  if String.prefix "${" s then
    match cut_string "}" (str_drop 2 s) with
    | Some (name, rest) => if str_empty name then None else Some (name, rest)
    | None => None
    end
  else None.

(** [_PLACEHOLDER.sub(lambda match: str(values.get(match.group(1), '')), template)];
    [skip] bytes belong to the last match. *)
Fixpoint substitute (values : list (string * data)) (skip : nat) (s : string) : string :=
  match s with
  | EmptyString => ""
  | String c s' =>
      match skip with
      | S skip => substitute values skip s'
      | O =>
          match placeholder s with
          | Some (name, _) =>
              match dget name values with Some v => py_str v | None => "" end
              +:+ substitute values (String.length name + 2) s'
          | None => String c (substitute values 0 s')
          end
      end
  end.

Fixpoint render_template (template : data) (values : list (string * data)) : data :=
  match template with
  | DStr s =>
      match placeholder s with
      | Some (name, EmptyString) => default DNone (dget name values)
      | _ => DStr (substitute values 0 s)
      end
  | DDict d => DDict (map (λ kv, (kv.1, render_template kv.2 values)) d)
  | DList l => DList (map (λ v, render_template v values) l)
  | v => v
  end.

(** * Merging *)

(** [_MergePayload] *)
Record MergePayload := MkMerge {
  mg_destination : string;
  mg_json_path : string;
  mg_mode : string;
  mg_value : data;
  mg_identity : list string
}.

(** [_descend], with what its caller does to the dictionary it returns:
    [edit] takes that dictionary to the edited one. *)
Section descend.
Context (edit : list (string * data) → py (Result (list (string * data)))).
Context (crosses : string → Result (list (string * data))) (force : bool).

Definition descend_into (part : string) (child : list (string * data))
    (below : list (string * data) → py (Result (list (string * data))))
    (node : list (string * data)) : py (Result (list (string * data))) :=
  edited ← below child;
  Ret (child ← edited; Ok (dset part (DDict child) node)).
Fixpoint descend_parts (parts : list string) (node : list (string * data)) :
    py (Result (list (string * data))) :=
  match parts with
  | [] => edit node
  | part :: parts =>
      match dget part node with
      | None => descend_into part [] (descend_parts parts) node
      | Some (DDict child) => descend_into part child (descend_parts parts) node
      | Some _ => if force then descend_into part [] (descend_parts parts) node
                  else Ret (crosses part)
      end
  end.
End descend.

(** [json_path.split('.') if json_path else ()] *)
Definition path_parts (json_path : string) : list string :=
  if str_empty json_path then [] else split_on "." json_path.

Definition descend (root : list (string * data)) (json_path : string) (force : bool)
    (edit : list (string * data) → py (Result (list (string * data)))) :
    py (Result (list (string * data))) :=
  descend_parts edit
    (λ part, install_error INSTALL_CONFLICT
       ("JSON merge path " +:+ repr json_path +:+ " crosses non-object field " +:+ repr part))
    force (path_parts json_path) root.

(** [_identity_value] of the installation: depth first, in the order of the
    dictionaries. *)
Fixpoint identity_value (node : data) (field : string) : option data :=
  match node with
  | DDict d =>
      match dget field d with
      | Some v => Some v
      | None =>
          (fix go (d : list (string * data)) : option data :=
            match d with
            | [] => None
            | kv :: d => match identity_value kv.2 field with Some v => Some v | None => go d end
            end) d
      end
  | DList l =>
      (fix go (l : list data) : option data :=
        match l with
        | [] => None
        | v :: l => match identity_value v field with Some v => Some v | None => go l end
        end) l
  | _ => None
  end.

(** [_identity_evidence]; the constructor of [JsonObject] refuses a field named
    twice. *)
Definition identity_evidence (value : data) (identity : list string) : py (option JsonValue) :=
  match mapM (λ field, pair field <$> identity_value value field) identity with
  | None => Ret None
  | Some fields => Some <$> json_object_init (map (λ fv, (fv.1, json_value fv.2)) fields)
  end.

Definition merge_identity_evidence (action : MergePayload) : py (Result JsonValue) :=
  if String.eqb (mg_mode action) "key" then
    if bool_decide (mg_identity action = [])
    then Ret (install_error INSTALL_INVALID "key merge has no identity")
    else Ret (Ok (JsonArray (map JStr (mg_identity action))))
  else
    evidence ← identity_evidence (mg_value action) (mg_identity action);
    Ret match evidence with
        | Some evidence => Ok evidence
        | None => install_error INSTALL_INVALID "list merge value has incomplete identity evidence"
        end.

(** The edit of a [key] merge on the container it reached. *)
Definition merge_key (action : MergePayload) (key : string) (force : bool)
    (container : list (string * data)) : py (Result (list (string * data))) :=
  let conflict := match dget key container with
                  | Some current => negb (data_py_eq current (mg_value action)) && negb force
                  | None => false end in
  Ret (if conflict
       then install_error INSTALL_CONFLICT
              ("JSON merge identity " +:+ mg_json_path action +:+ "." +:+ key +:+ " already differs")
       else Ok (dset key (mg_value action) container)).

(** The indices of the items whose identity evidence is [evidence]. *)
Definition matching_items (identity : list string) (evidence : JsonValue) (items : list data) :
    py (list nat) :=
  found ← mapM (λ item, identity_evidence item identity) items;
  Ret (map fst (List.filter (λ ie, match ie.2 with
                                   | Some e => json_py_eq e evidence | None => false end)
                  (imap pair found))).

(** The edit of a [list] merge on the parent of the list. *)
Definition merge_list (action : MergePayload) (evidence : JsonValue) (name : string) (force : bool)
    (parent : list (string * data)) : py (Result (list (string * data))) :=
  let current := match dget name parent with
                 | None => Ok []
                 | Some (DList l) => Ok l
                 | Some _ => if force then Ok []
                             else install_error INSTALL_CONFLICT
                                    ("JSON merge path " +:+ repr (mg_json_path action)
                                     +:+ " is not a list")
                 end in
  match current with
  | Err ds => Ret (Err ds)
  | Ok items =>
      matching ← matching_items (mg_identity action) evidence items;
      Ret (items ← match matching with
                   | [] => Ok (items ++ [mg_value action])
                   | [index] =>
                       if match items !! index with
                          | Some item => data_py_eq item (mg_value action) | None => true end
                       then Ok items
                       else if force then Ok (<[index := mg_value action]> items)
                       else install_error INSTALL_CONFLICT
                              ("JSON merge identity already differs at " +:+ repr (mg_json_path action))
                   | _ => install_error INSTALL_CONFLICT
                            ("JSON merge identity is duplicated at " +:+ repr (mg_json_path action))
                   end;
           Ok (dset name (DList items) parent))
  end.

(** The edited document. *)
Definition merged_root (action : MergePayload) (existing : list (string * data))
    (evidence : JsonValue) (force : bool) : py (Result (list (string * data))) :=
  if String.eqb (mg_mode action) "key" then
    match mg_identity action with
    | [] => Ret (install_error INSTALL_INVALID "key merge has no identity")
    | key :: _ => descend existing (mg_json_path action) force (merge_key action key force)
    end
  else if str_empty (mg_json_path action)
  then Ret (install_error INSTALL_INVALID "list merge requires a JSON path")
  else
    let parts := split_on "." (mg_json_path action) in
    descend existing (join "." (removelast parts)) force
      (merge_list action evidence (List.last parts "") force).

(** A text with a lone surrogate cannot be encoded. *)
Definition merged_content (action : MergePayload) (snapshot : PathSnapshot)
    (evidence : JsonValue) (force : bool) : py (Result bytes) :=
  existing ← existing_mapping snapshot;
  match existing with
  | Err ds => Ret (Err ds)
  | Ok existing =>
      root ← merged_root action existing evidence force;
      Ret (root ← root;
           let text := dumps_indent 0 (DDict root) in
           if valid_utf8 text then Ok text
           else install_error INSTALL_INVALID "merge output is not JSON serializable")
  end.
End merge.

(** * Finding the entry again *)

(** [_object_member] *)
Definition object_member (entries : list (string * JsonValue)) (key : string) : option JsonValue :=
  dget key entries.

(** [_navigate_member] *)
Fixpoint navigate_parts (parts : list string) (node : JsonValue) : option JsonValue :=
  match parts with
  | [] => Some node
  | part :: parts =>
      match node with
      | JsonObject entries =>
          match object_member entries part with
          | Some node => navigate_parts parts node
          | None => None
          end
      | _ => None
      end
  end.
Definition navigate_member (root : JsonValue) (path : string) : option JsonValue :=
  navigate_parts (path_parts path) root.

(** [_identity_value] of the lifecycle *)
Fixpoint json_identity_value (node : JsonValue) (field : string) : option JsonValue :=
  match node with
  | JsonObject d =>
      match object_member d field with
      | Some v => Some v
      | None =>
          (fix go (d : list (string * JsonValue)) : option JsonValue :=
            match d with
            | [] => None
            | kv :: d => match json_identity_value kv.2 field with Some v => Some v | None => go d end
            end) d
      end
  | JsonArray l =>
      (fix go (l : list JsonValue) : option JsonValue :=
        match l with
        | [] => None
        | v :: l => match json_identity_value v field with Some v => Some v | None => go l end
        end) l
  | _ => None
  end.

(** [_identity_projection]: the fields are those of an object, so distinct. *)
Definition identity_projection (value : JsonValue) (evidence : list (string * JsonValue)) :
    option JsonValue :=
  json_object <$> mapM (λ fe, match json_identity_value value fe.1 with
                              | Some actual => if json_py_eq actual fe.2 then Some (fe.1, actual)
                                               else None
                              | None => None
                              end) evidence.

(** A match: the path of its container, its key or index, and its value. *)
Record MergeMatch := MkMatch {
  mm_path : string;
  mm_identity : string + nat;
  mm_value : JsonValue
}.

(** [effect.json_path or ''] *)
Definition effect_path (effect : EffectProof) : string := default "" (ef_json_path effect).

Definition merge_matches (effect : EffectProof) (root : JsonValue) : list MergeMatch :=
  let path := effect_path effect in
  match ef_merge_mode effect, ef_identity_evidence effect with
  | Some mode, JsonArray items =>
      if String.eqb mode "key" then
        match items, navigate_member root path with
        | [JStr key], Some (JsonObject entries) =>
            match object_member entries key with
            | Some value => [MkMatch path (inl key) value]
            | None => []
            end
        | _, _ => []
        end
      else []
  | Some mode, JsonObject evidence =>
      if String.eqb mode "list" then
        match navigate_member root path with
        | Some (JsonArray items) =>
            map (λ iv, MkMatch path (inr iv.1) iv.2)
              (List.filter (λ iv, match identity_projection iv.2 evidence with
                                  | Some projected => json_py_eq projected (JsonObject evidence)
                                  | None => false end)
                 (imap pair items))
        | _ => []
        end
      else []
  | _, _ => []
  end.

(** [_replace_at]: [path.partition('.')] gives the head and the tail; the
    fuel is the length of the path. *)
Fixpoint replace_at_fuel (fuel : nat) (root : JsonValue) (path : string) (replacement : JsonValue) :
    option JsonValue :=
  if str_empty path then Some replacement
  else match fuel, root with
  | S fuel, JsonObject entries =>
      let '(head, tail) := match cut_string "." path with
                           | Some (head, tail) => (head, tail) | None => (path, "") end in
      match object_member entries head with
      | Some child =>
          match replace_at_fuel fuel child tail replacement with
          | Some updated =>
              Some (JsonObject (map (λ kv, (kv.1, if String.eqb kv.1 head then updated else kv.2)) entries))
          | None => None
          end
      | None => None
      end
  | _, _ => None
  end.
Definition replace_at (root : JsonValue) (path : string) (replacement : JsonValue) : option JsonValue :=
  replace_at_fuel (String.length path) root path replacement.

Definition remove_merge_identity (effect : EffectProof) (root : JsonValue) :
    option JsonValue * string :=
  match merge_matches effect root with
  | [] => (Some root, "missing")
  | [m] =>
      let replacement :=
        match mm_identity m, navigate_member root (mm_path m) with
        | inl key, Some (JsonObject entries) =>
            Some (JsonObject (List.filter (λ kv, negb (String.eqb kv.1 key)) entries))
        | inr index, Some (JsonArray items) =>
            Some (JsonArray (map snd (List.filter (λ iv, negb (iv.1 =? index)%nat) (imap pair items))))
        | _, _ => None
        end in
      match replacement with
      | None => (None, "invalid")
      | Some replacement =>
          match replace_at root (mm_path m) replacement with
          | Some updated => (Some updated, "removed")
          | None => (None, "invalid")
          end
      end
  | _ => (None, "ambiguous")
  end.

Section status.
Context `{UnicodeData} `{DecodeErrors}.

Definition merge_effect_status (effect : EffectProof) (snapshot : PathSnapshot) : py LifecycleStatus :=
  match ps_kind snapshot with
  | PABSENT => Ret L_MISSING
  | PFILE =>
      if bool_decide (ef_identity_evidence effect = JNull) then Ret L_DRIFTED
      else
        parsed ← parse_json (ps_content snapshot) None MAX_DEPTH MAX_STRING;
        Ret match parsed with
            | Err _ => L_DRIFTED
            | Ok root =>
                match merge_matches effect root with
                | [] =>
                    match navigate_member root (effect_path effect) with
                    | None => L_MISSING
                    | Some container =>
                        if bool_decide (ef_merge_mode effect = Some "list")
                        then match container with
                             | JsonArray [] => L_MISSING | _ => L_DRIFTED end
                        else match container with JsonObject _ => L_MISSING | _ => L_DRIFTED end
                    end
                | [m] => if bool_decide (json_digest (mm_value m) = ef_installed_digest effect)
                         then L_CURRENT else L_DRIFTED
                | _ => L_DRIFTED
                end
            end
  | _ => Ret L_DRIFTED
  end.
End status.

(** [_is_bare_container_chain] *)
Fixpoint bare_chain (parts : list string) (node : JsonValue) : bool :=
  match parts with
  | [] => match node with
          | JsonObject entries => bool_decide (entries = [])
          | JsonArray items => bool_decide (items = [])
          | _ => false
          end
  | part :: parts =>
      match node with
      | JsonObject [(key, node)] => String.eqb key part && bare_chain parts node
      | _ => false
      end
  end.
Definition is_bare_container_chain (document : JsonValue) (json_path : string) : bool :=
  bare_chain (path_parts json_path) document.
