(* ===== verification/MergeSpec.v ===== *)
(** What merging promises: an entry merged into a document is found there as it
    was put, merging extends the document without changing what it holds, and
    removing the entry leaves the rest of the document. *)
From S2P Require Import Prelude PyText TextSearch Domain Json JsonParse Protocol IndentedJson InstallState Installation LifecycleModel Merge.
From Stdlib Require Import Ascii.
Open Scope Z_scope.

(** * Dictionaries at a path *)

(** The dictionary under a key, the empty one when something else is there. *)
Definition dict_at (part : string) (node : list (string * data)) : list (string * data) :=
  match dget part node with Some (DDict d) => d | _ => [] end.
Definition container (parts : list string) (root : list (string * data)) : list (string * data) :=
  foldl (λ node part, dict_at part node) root parts.
(** The document with the dictionary at a path replaced, made where missing. *)
Fixpoint put (parts : list string) (root c : list (string * data)) : list (string * data) :=
  match parts with
  | [] => c
  | part :: parts => dset part (DDict (put parts (dict_at part root) c)) root
  end.
(** Whether every part of the path leads to a dictionary. *)
Fixpoint present_at (parts : list string) (root : list (string * data)) : bool :=
  match parts with
  | [] => true
  | part :: parts =>
      match dget part root with Some (DDict d) => present_at parts d | _ => false end
  end.

Lemma dset_dset {K V} `{EqDecision K} (k : K) (v w : V) d : dset k v (dset k w d) = dset k v d.
Proof.
  induction d as [|[k' u] d IH]; cbn.
  - by rewrite bool_decide_true.
  - case_bool_decide as E; cbn.
    + by rewrite bool_decide_true.
    + rewrite bool_decide_false by done. by rewrite IH.
Qed.
Lemma dset_get {K V} `{EqDecision K} (k : K) (v : V) d : dget k d = Some v → dset k v d = d.
Proof.
  induction d as [|[k' u] d IH]; cbn; [done|]. case_bool_decide; [by intros [= ->]|].
  intros Hg. by rewrite IH.
Qed.
Lemma dict_at_dset part d root : dict_at part (dset part (DDict d) root) = d.
Proof. unfold dict_at. by rewrite dget_dset_eq. Qed.

Lemma container_put parts root c : container parts (put parts root c) = c.
Proof.
  revert root. induction parts as [|part parts IH]; intros root; [done|]. cbn [put container foldl].
  rewrite dict_at_dset. apply IH.
Qed.
Lemma put_put parts root c c' : put parts (put parts root c) c' = put parts root c'.
Proof.
  revert root. induction parts as [|part parts IH]; intros root; [done|]. cbn [put].
  by rewrite dict_at_dset, IH, dset_dset.
Qed.
Lemma put_container parts root : present_at parts root = true → put parts root (container parts root) = root.
Proof.
  revert root. induction parts as [|part parts IH]; intros root; [done|]. cbn [put container foldl present_at].
  destruct (dget part root) as [[| | | | |d]|] eqn:E; try done. intros Hp.
  assert (dict_at part root = d) as -> by (unfold dict_at; by rewrite E).
  apply dset_get. rewrite E. do 2 f_equal. symmetry. by apply IH.
Qed.

(** [_descend]: the caller's edit of the container, put back. *)
Lemma descend_parts_put edit crosses force parts root root' :
  (∀ part, is_err (crosses part) = true) →
  descend_parts edit crosses force parts root = Ret (Ok root') →
  ∃ c, edit (container parts root) = Ret (Ok c) ∧ root' = put parts root c.
Proof.
  intros Hc. revert root root'. induction parts as [|part parts IH]; intros root root'; [by eauto|].
  cbn [descend_parts put container foldl].
  assert (descend_into part (dict_at part root) (descend_parts edit crosses force parts) root = Ret (Ok root') →
    ∃ c, edit (container parts (dict_at part root)) = Ret (Ok c)
         ∧ root' = dset part (DDict (put parts (dict_at part root) c)) root) as Hinto.
  { unfold descend_into. intros (edited & He & H)%bind_Ret. destruct edited as [child|ds]; [|done].
    destruct (IH _ _ He) as (c & Hedit & ->). exists c. split; [done|]. by injection H as <-. }
  unfold dict_at in *. destruct (dget part root) as [[| | | | |d]|]; try exact Hinto;
    destruct force; try exact Hinto; intros [= H]; specialize (Hc part); by rewrite H in Hc.
Qed.

(** * What an unforced merge keeps *)

(** [w] has everything that [v] has: the same value, or a list with more behind
    it, or an object that keeps every member. *)
Inductive extends : data → data → Prop :=
  | extends_same v : extends v v
  | extends_equal v w : data_py_eq v w = true → extends v w
  | extends_list l more : extends (DList l) (DList (l ++ more))
  | extends_dict d e :
      (∀ key v, dget key d = Some v → ∃ w, dget key e = Some w ∧ extends v w) →
      extends (DDict d) (DDict e).

Lemma extends_dset key w d :
  (∀ v, dget key d = Some v → extends v w) → extends (DDict d) (DDict (dset key w d)).
Proof.
  intros Hw. apply extends_dict. intros key' v Hv. destruct (decide (key' = key)) as [->|Hne].
  - exists w. rewrite dget_dset_eq. auto.
  - exists v. rewrite dget_dset_ne by done. split; [done|apply extends_same].
Qed.
Lemma descend_parts_extends edit crosses parts root root' :
  (∀ part, is_err (crosses part) = true) →
  (∀ c c', edit c = Ret (Ok c') → extends (DDict c) (DDict c')) →
  descend_parts edit crosses false parts root = Ret (Ok root') → extends (DDict root) (DDict root').
Proof.
  intros Hc He. revert root root'. induction parts as [|part parts IH]; intros root root'; [apply He|].
  cbn [descend_parts].
  assert (∀ child, (∀ v, dget part root = Some v → v = DDict child) →
    descend_into part child (descend_parts edit crosses false parts) root = Ret (Ok root') →
    extends (DDict root) (DDict root')) as Hinto.
  { unfold descend_into. intros child Hv (edited & Hed & H)%bind_Ret. destruct edited as [child'|]; [|done].
    injection H as <-. apply extends_dset. intros v ->%Hv. by apply IH. }
  destruct (dget part root) as [[| | | | |d]|] eqn:E; try (intros [= H]; specialize (Hc part); by rewrite H in Hc).
  - apply Hinto. by intros v [= <-].
  - by apply Hinto.
Qed.
Lemma merge_key_extends `{UnicodeData} action key c c' :
  merge_key action key false c = Ret (Ok c') → extends (DDict c) (DDict c').
Proof.
  unfold merge_key. destruct (dget key c) as [current|] eqn:E.
  - destruct (data_py_eq current (mg_value action)) eqn:Eq; [|done]. intros [= <-].
    apply extends_dset. rewrite E. intros v [= <-]. by apply extends_equal.
  - intros [= <-]. apply extends_dset. by rewrite E.
Qed.
Lemma merge_list_extends `{UnicodeData} action evidence name c c' :
  merge_list action evidence name false c = Ret (Ok c') → extends (DDict c) (DDict c').
Proof.
  unfold merge_list.
  assert (∀ items, (∀ v, dget name c = Some v → v = DList items) →
    (matching ← matching_items (mg_identity action) evidence items;
      Ret (items ← match matching with
                   | [] => Ok (items ++ [mg_value action])
                   | [index] =>
                       if match items !! index with
                          | Some item => data_py_eq item (mg_value action) | None => true end
                       then Ok items
                       else install_error INSTALL_CONFLICT
                              ("JSON merge identity already differs at " +:+ repr (mg_json_path action))
                   | _ => install_error INSTALL_CONFLICT
                            ("JSON merge identity is duplicated at " +:+ repr (mg_json_path action))
                   end;
           Ok (dset name (DList items) c))) = Ret (Ok c') → extends (DDict c) (DDict c')) as Hitems.
  { intros items Hi (matching & _ & Hm)%bind_Ret.
    destruct matching as [|index [|]]; [|destruct (match items !! index with Some _ => _ | None => _ end)|];
      injection Hm as Hm; try done; subst c'; apply extends_dset; intros v ->%Hi.
    - apply extends_list.
    - apply extends_same. }
  destruct (dget name c) as [[| | | |l|]|] eqn:E; try done; apply Hitems; [by intros v [= <-]|done].
Qed.

(** An unforced merge keeps every entry of the document. *)
Lemma merged_root_extends `{UnicodeData} action existing evidence root :
  merged_root action existing evidence false = Ret (Ok root) → extends (DDict existing) (DDict root).
Proof.
  unfold merged_root, descend. destruct (String.eqb _ _).
  - destruct (mg_identity action) as [|key ?]; [done|]. apply descend_parts_extends; [done|]. apply merge_key_extends.
  - destruct (str_empty _); [done|]. apply descend_parts_extends; [done|]. apply merge_list_extends.
Qed.

(** [content] is the printed document that was found, or an empty one, with
    everything it had. *)
Definition keeps_document `{UnicodeData} `{DecodeErrors} (found : PathSnapshot) (content : bytes) : Prop :=
  ∃ existing root, existing_mapping found = Ret (Ok existing)
    ∧ content = dumps_indent 0 (DDict root) ∧ extends (DDict existing) (DDict root).
Lemma merged_content_keeps `{UnicodeData} `{DecodeErrors} action found evidence merged :
  merged_content action found evidence false = Ret (Ok merged) → keeps_document found merged.
Proof.
  unfold merged_content. intros (existing & He & Hm)%bind_Ret. destruct existing as [existing|]; [|done].
  apply bind_Ret in Hm as (root & Hr & Hm). destruct root as [root|]; [|done]. cbn in Hm.
  destruct (valid_utf8 _); injection Hm as Hm; [|done]. exists existing, root.
  split_and!; [done|done|by eapply merged_root_extends].
Qed.

(** * Bounds *)

Lemma wf_dget msl depth d k v :
  wf_data msl depth (DDict d) = true → dget k d = Some v → wf_data msl (depth - 1) v = true.
Proof.
  intros (_ & _ & Hf)%wf_data_dict Hg%dget_elem_of. rewrite Forall_forall in Hf. by apply Hf in Hg as [].
Qed.
Lemma wf_nil msl depth : 0 ≤ depth → wf_data msl depth (DDict []) = true.
Proof. intros Hd. apply wf_data_dict. split_and!; [done|constructor|constructor]. Qed.
Lemma wf_dset msl depth d k v :
  wf_data msl depth (DDict d) = true → wf_text msl k = true → wf_data msl (depth - 1) v = true →
  wf_data msl depth (DDict (dset k v d)) = true.
Proof.
  intros (Hz & Hn & Hf)%wf_data_dict Hk Hv. apply wf_data_dict. split_and!; [done|by apply NoDup_dkeys_dset|].
  apply Forall_forall. intros [k' v'] Hin. rewrite Forall_forall in Hf.
  apply elem_of_dset in Hin as [[-> ->]|[_ Hin]]; [done| |done]. exact (Hf _ Hin).
Qed.
Lemma wf_dict_at msl depth d k :
  1 ≤ depth → wf_data msl depth (DDict d) = true → wf_data msl (depth - 1) (DDict (dict_at k d)) = true.
Proof.
  intros Hd Hw. unfold dict_at. destruct (dget k d) as [[| | | | |e]|] eqn:E;
    try (apply wf_nil; lia). by eapply wf_dget.
Qed.
Lemma wf_container msl depth parts root :
  Z.of_nat (length parts) ≤ depth → wf_data msl depth (DDict root) = true →
  wf_data msl (depth - Z.of_nat (length parts)) (DDict (container parts root)) = true.
Proof.
  revert depth root. induction parts as [|part parts IH]; intros depth root Hl Hw.
  - cbn. by rewrite Z.sub_0_r.
  - cbn [length container foldl] in *.
    replace (depth - Z.of_nat (S (length parts))) with (depth - 1 - Z.of_nat (length parts)) by lia.
    apply IH; [lia|]. apply wf_dict_at; [lia|done].
Qed.
Lemma wf_put msl depth parts root c :
  Forall (λ p, wf_text msl p = true) parts → Z.of_nat (length parts) ≤ depth →
  wf_data msl depth (DDict root) = true →
  wf_data msl (depth - Z.of_nat (length parts)) (DDict c) = true →
  wf_data msl depth (DDict (put parts root c)) = true.
Proof.
  intros Hp. revert depth root. induction Hp as [|part parts Hp _ IH]; intros depth root Hl Hw Hc.
  - cbn in *. by rewrite Z.sub_0_r in Hc.
  - cbn [length put] in *. apply wf_dset; [done..|]. apply IH; [lia|apply wf_dict_at; [lia|done]|].
    by replace (depth - 1 - Z.of_nat (length parts)) with (depth - Z.of_nat (S (length parts))) by lia.
Qed.

(** * The frozen document *)

Lemma member_json d k :
  NoDup d.*1 → object_member (sorted fst (dmap json_value d)) k = json_value <$> dget k d.
Proof.
  intros Hn. unfold object_member. rewrite dget_sorted by by rewrite dkeys_dmap. apply dget_dmap.
Qed.

Lemma navigate_put msl depth parts root c :
  wf_data msl depth (DDict (put parts root c)) = true →
  navigate_parts parts (json_value (DDict (put parts root c))) = Some (json_value (DDict c)).
Proof.
  revert depth root. induction parts as [|part parts IH]; intros depth root Hw; [done|].
  pose proof Hw as (_ & Hn & _)%wf_data_dict. rewrite json_value_dict. cbn [navigate_parts put].
  unfold json_object. cbn [put] in Hn, Hw. rewrite member_json, dget_dset_eq by done. cbn [fmap option_fmap option_map].
  apply (IH (depth - 1)). eapply wf_dget; [exact Hw|]. apply dget_dset_eq.
Qed.

Lemma cut_char c p rest :
  has_char c p = false → cut_string (String c "") (p +:+ String c rest) = Some (p, rest).
Proof.
  intros Hp%has_char_false. induction p as [|d p IH].
  - change ("" +:+ ?x) with x. cbn [cut_string String.prefix]. destruct (ascii_dec c c); [|done].
    by destruct rest.
  - cbn [str_forall] in Hp. apply andb_true_iff in Hp as [Hd Hp]. rewrite str_app_cons.
    cbn [cut_string String.prefix]. destruct (ascii_dec c d) as [->|]; [by rewrite is_char_refl in Hd|].
    by rewrite IH.
Qed.
Lemma cut_char_none c p : has_char c p = false → cut_string (String c "") p = None.
Proof.
  intros Hp%has_char_false. induction p as [|d p IH]; [done|].
  cbn [str_forall] in Hp. apply andb_true_iff in Hp as [Hd Hp].
  cbn [cut_string String.prefix]. destruct (ascii_dec c d) as [->|]; [by rewrite is_char_refl in Hd|].
  by rewrite IH.
Qed.

(** Field names that a path can hold. *)
Definition path_part (p : string) : Prop := p ≠ "" ∧ has_char "." p = false.

Lemma path_parts_named path :
  Forall (λ p, p ≠ "") (path_parts path) →
  path = join "." (path_parts path) ∧ Forall path_part (path_parts path).
Proof.
  unfold path_parts. destruct (str_empty path) eqn:E.
  - intros _. destruct path; [|done]. by split.
  - intros Hf. split; [by rewrite (join_split_on "." path)|].
    pose proof (split_on_no_sep "." path) as Hs. rewrite Forall_forall in *.
    intros p Hp. split; eauto.
Qed.

(** Replacing the value of one key of a sorted object. *)
Lemma map_entry_sorted d k v :
  NoDup d.*1 → k ∈ d.*1 →
  map (λ kv : string * JsonValue, (kv.1, if String.eqb kv.1 k then v else kv.2)) (sorted fst d)
  = sorted fst (dset k v d).
Proof.
  intros Hn Hk.
  pose proof (sorted_fmap (λ kv : string * JsonValue, (kv.1, if String.eqb kv.1 k then v else kv.2)) fst d)
    as E. cbn [fst] in E. change (λ x : string * JsonValue, x.1) with (@fst string JsonValue) in E.
  rewrite <-E. f_equal. clear E. induction d as [|[k' w] d IH]; [by apply elem_of_nil in Hk|].
  cbn in *. apply NoDup_cons in Hn as [Hk' Hn]. case_bool_decide as Ek.
  - subst k'. rewrite String.eqb_refl. f_equal. clear IH Hk.
    induction d as [|[k' u] d IH]; [done|]. cbn in *. rewrite not_elem_of_cons in Hk'.
    apply NoDup_cons in Hn as [_ Hn]. destruct Hk' as [Hne Hk'].
    rewrite (proj2 (String.eqb_neq k' k)) by congruence. by rewrite IH.
  - rewrite (proj2 (String.eqb_neq k' k)) by congruence. f_equal. apply IH; [done|].
    by apply elem_of_cons in Hk as [->|Hk].
Qed.

Lemma replace_at_put msl depth parts root c c' fuel :
  Forall path_part parts → (String.length (join "." parts) ≤ fuel)%nat →
  wf_data msl depth (DDict (put parts root c)) = true →
  replace_at_fuel fuel (json_value (DDict (put parts root c))) (join "." parts) (json_value (DDict c'))
  = Some (json_value (DDict (put parts root c'))).
Proof.
  intros Hp. revert depth root fuel. induction Hp as [|part parts [Hne Hdot] Hp IH]; intros depth root fuel Hf Hw.
  { by destruct fuel. }
  pose proof Hw as (_ & Hn & _)%wf_data_dict. cbn [put] in Hw, Hn.
  set (rest := put parts (dict_at part root) c) in *.
  assert (wf_data msl (depth - 1) (DDict rest) = true) as Hrest.
  { eapply wf_dget; [exact Hw|]. apply dget_dset_eq. }
  assert (∃ tail, join "." (part :: parts) = part +:+ tail
            ∧ (match cut_string "." (join "." (part :: parts)) with
               | Some (head, tail) => (head, tail) | None => (join "." (part :: parts), "") end)
              = (part, join "." parts)
            ∧ (String.length (join "." parts) ≤ String.length tail)%nat) as (tail & Ej & Ecut & Hlen).
  { destruct parts as [|p parts].
    - exists "". cbn [join]. rewrite str_app_nil_r, cut_char_none by done. done.
    - exists ("." +:+ join "." (p :: parts)). rewrite join_cons. split; [done|].
      change ("." +:+ ?x) with (String "." x). rewrite cut_char by done. split; [done|]. cbn. lia. }
  assert (str_empty (join "." (part :: parts)) = false) as He by (rewrite Ej; by destruct part).
  rewrite Ej, str_length_app in Hf. destruct part as [|ch part]; [done|]. cbn [String.length] in Hf.
  destruct fuel as [|fuel]; [lia|]. rewrite json_value_dict. unfold json_object. cbn [replace_at_fuel].
  rewrite He, Ecut. cbn [put]. fold rest. rewrite member_json, dget_dset_eq by done.
  cbn [fmap option_fmap option_map].
  unfold rest at 1. rewrite (IH (depth - 1) _ fuel); [|lia|exact Hrest].
  rewrite dmap_dset, map_entry_sorted, dset_dset.
  - rewrite <-dmap_dset. done.
  - rewrite <-dmap_dset, dkeys_dmap. done.
  - apply elem_of_dkeys_dset. by left.
Qed.

(** Dropping a key. *)
Definition without (k : string) {V} (d : list (string * V)) : list (string * V) :=
  List.filter (λ kv, negb (String.eqb kv.1 k)) d.
Lemma without_dset {V} k (v : V) d : without k (dset k v d) = without k d.
Proof.
  unfold without. induction d as [|[k' w] d IH]; cbn.
  - by rewrite String.eqb_refl.
  - case_bool_decide as E; cbn; [subst; by rewrite String.eqb_refl|]. by rewrite IH.
Qed.
Lemma without_absent {V} k (d : list (string * V)) : dget k d = None → without k d = d.
Proof.
  unfold without. induction d as [|[k' w] d IH]; cbn; [done|]. case_bool_decide as E; [done|].
  rewrite (proj2 (String.eqb_neq k' k)) by congruence. cbn. intros Hg. by rewrite IH.
Qed.

(** * Merging under a key *)

Section key.
Context `{UnicodeData} `{DecodeErrors}.

(** What the record of the installation says about the merged entry. *)
Definition records_key (effect : EffectProof) (action : MergePayload) (key : string) : Prop :=
  ef_json_path effect = Some (mg_json_path action) ∧ ef_merge_mode effect = Some "key"
  ∧ ef_identity_evidence effect = JsonArray [JStr key]
  ∧ ef_installed_digest effect = json_digest (json_value (mg_value action)).

Lemma merge_matches_key msl depth effect action key root c :
  records_key effect action key →
  wf_data msl depth (DDict (put (path_parts (mg_json_path action)) root c)) = true →
  NoDup c.*1 →
  merge_matches effect (json_value (DDict (put (path_parts (mg_json_path action)) root c)))
  = match dget key c with
    | Some v => [MkMatch (mg_json_path action) (inl key) (json_value v)] | None => [] end.
Proof.
  intros (Hp & Hm & He & _) Hw Hn. unfold merge_matches, effect_path, navigate_member.
  rewrite Hp, Hm, He. change (default "" (Some ?x)) with x.
  change (String.eqb "key" "key") with true. cbv iota.
  rewrite (navigate_put _ _ _ _ _ Hw), json_value_dict. unfold json_object.
  rewrite member_json by done. by destruct (dget key c).
Qed.

Lemma remove_key msl depth effect action key root c :
  records_key effect action key → Forall (λ p, p ≠ "") (path_parts (mg_json_path action)) →
  wf_data msl depth (DDict (put (path_parts (mg_json_path action)) root c)) = true →
  NoDup c.*1 → is_Some (dget key c) →
  remove_merge_identity effect (json_value (DDict (put (path_parts (mg_json_path action)) root c)))
  = (Some (json_value (DDict (put (path_parts (mg_json_path action)) root (without key c)))), "removed").
Proof.
  intros Hr Hparts Hw Hn [v Hv]. unfold remove_merge_identity.
  rewrite (merge_matches_key _ _ _ _ _ _ _ Hr Hw Hn), Hv. cbn [mm_identity mm_path].
  unfold navigate_member. rewrite (navigate_put _ _ _ _ _ Hw), json_value_dict. unfold json_object.
  pose proof (path_parts_named _ Hparts) as [Hpath Hnamed].
  assert (JsonObject (List.filter (λ kv, negb (String.eqb kv.1 key)) (sorted fst (dmap json_value c)))
          = json_value (DDict (without key c))) as ->.
  { rewrite json_value_dict, filter_sorted.
    - unfold json_object, without. do 2 f_equal. clear. induction c as [|[k w] c IH]; [done|].
      unfold dmap in *. cbn. destruct (String.eqb k key); cbn; by rewrite IH.
    - intros x y Hx Hy E. rewrite <-(dkeys_dmap json_value) in Hn.
      assert (∀ z, z ∈ dmap json_value c → dget z.1 (dmap json_value c) = Some z.2) as Hget.
      { intros [k w] Hz. by apply elem_of_dget. }
      apply Hget in Hx, Hy. rewrite E, Hy in Hx. destruct x, y; cbn in *. congruence. }
  unfold replace_at. clear Hparts Hr. set (parts := path_parts _) in *. clearbody parts. rewrite Hpath.
  by rewrite (replace_at_put msl depth).
Qed.

(** The document at the destination before the merge. *)
Inductive document_at (snapshot : PathSnapshot) : JsonValue → Prop :=
  | no_document : ps_kind snapshot = PABSENT → document_at snapshot (JsonObject [])
  | file_document v : ps_kind snapshot = PFILE →
      parse_json (ps_content snapshot) None MAX_DEPTH MAX_STRING = Ret (Ok v) → document_at snapshot v.

Lemma existing_mapping_document snapshot document existing :
  document_at snapshot document → existing_mapping snapshot = Ret (Ok existing) →
  to_python document = DDict existing ∧ ∃ entries, document = JsonObject entries.
Proof.
  intros [Hk|v Hk Hp]; unfold existing_mapping; rewrite Hk; [by intros [= <-]; eauto|].
  unfold strict_mapping. rewrite Hp. cbn. destruct v; try done. intros [= <-]. eauto.
Qed.

Definition within_bounds (action : MergePayload) (key : string) (document : JsonValue) : Prop :=
  Forall (λ p, p ≠ "" ∧ wf_text MAX_STRING p = true) (path_parts (mg_json_path action))
  ∧ wf_text MAX_STRING key = true
  ∧ wf_data MAX_STRING (MAX_DEPTH - Z.of_nat (length (path_parts (mg_json_path action))) - 1)
      (mg_value action) = true
  ∧ wf_json MAX_STRING MAX_DEPTH document = true.

Lemma wf_data_depth msl depth v : wf_data msl depth v = true → 0 ≤ depth.
Proof. destruct v; cbn [wf_data]; rewrite andb_true_iff; lia. Qed.

(** What a successful merge under a key writes. *)
Lemma merged_key_root action key force snapshot document evidence merged :
  mg_mode action = "key" → mg_identity action = [key] →
  document_at snapshot document → within_bounds action key document →
  merged_content action snapshot evidence force = Ret (Ok merged) →
  ∃ existing, let parts := path_parts (mg_json_path action) in
    to_python document = DDict existing
    ∧ wf_data MAX_STRING MAX_DEPTH (DDict existing) = true
    ∧ NoDup (container parts existing).*1
    ∧ wf_data MAX_STRING MAX_DEPTH
        (DDict (put parts existing (dset key (mg_value action) (container parts existing)))) = true
    ∧ merged = dumps_indent 0
        (DDict (put parts existing (dset key (mg_value action) (container parts existing)))).
Proof.
  intros Hm Hi Hdoc (Hparts & Hkey & Hval & Hw) Hc. unfold merged_content in Hc.
  apply bind_Ret in Hc as (found & He & Hc). destruct found as [existing|ds]; [|done].
  destruct (existing_mapping_document _ _ _ Hdoc He) as [Hpy _].
  apply bind_Ret in Hc as (root & Hr & Hc). injection Hc as Hc.
  destruct root as [root|ds]; [|done]. cbn [mbind result_bind] in Hc.
  unfold merged_root in Hr. rewrite Hm, Hi in Hr. change (String.eqb "key" "key") with true in Hr.
  apply descend_parts_put in Hr as (c & Hedit & ->); [|done].
  unfold merge_key in Hedit. injection Hedit as Hedit.
  destruct (match dget key _ with Some _ => _ | None => false end); [done|]. injection Hedit as <-.
  pose proof (wf_to_python _ _ _ Hw) as Hwd. rewrite Hpy in Hwd.
  pose proof (wf_data_depth _ _ _ Hval) as Hlen.
  assert (wf_data MAX_STRING (MAX_DEPTH - Z.of_nat (length (path_parts (mg_json_path action))))
    (DDict (container (path_parts (mg_json_path action)) existing)) = true) as Hcont
    by (apply wf_container; [lia|done]).
  exists existing. split_and!; [done..| | |].
  - by apply wf_data_dict in Hcont as (_ & ? & _).
  - apply wf_put; [by eapply Forall_impl; [exact Hparts|intros ? []]|lia|done|]. by apply wf_dset.
  - destruct (valid_utf8 _); [by injection Hc as <-|done].
Qed.

End key.

(** A document of another program, and an entry merged into it. *)
Definition sample_action : MergePayload :=
  MkMerge ".mcp.json" "mcpServers" "key" (DDict [("command", DStr "serve"); ("args", DList [])]) ["docs"].
Definition sample_document : JsonValue :=
  JsonObject [("mcpServers", JsonObject [("other", JsonObject [])]); ("version", JInt 1)].
Definition sample_snapshot : PathSnapshot :=
  MkPathSnapshot "/p/.mcp.json" PFILE None (canonical_json_bytes sample_document) false [] None None.
Definition sample_effect : EffectProof :=
  MkEffect "merge-json" ".mcp.json" "copy" (json_digest (json_value (mg_value sample_action))) None
    (Some "mcpServers") (Some "key") None (JsonArray [JStr "docs"]) None None false true None.

Definition sample_merged : bytes :=
  ltac:(let m := eval vm_compute in
          (@merged_content ascii_unicode plain_decode_errors sample_action sample_snapshot
             (JsonArray [JStr "docs"]) false) in
        match m with Ret (Ok ?b) => exact b end).


(** The installation looks for an identity field in the order of the template,
    the lifecycle in the sorted order of the file: a hook whose matcher is an
    object with a [command] of its own is installed, and then not found. *)
Definition nested_template : data :=
  DDict [("matcher", DStr "${matcher}");
         ("hooks", DList [DDict [("type", DStr "command"); ("command", DStr "${command}")]])].
Definition nested_action : MergePayload :=
  MkMerge ".claude/settings.json" "hooks.PreToolUse" "list"
    (@render_template ascii_unicode nested_template
       [("command", DStr "run"); ("matcher", DDict [("command", DStr "x")])])
    ["matcher"; "command"].
Definition nested_effect (evidence : JsonValue) : EffectProof :=
  MkEffect "merge-json" ".claude/settings.json" "copy" (json_digest (json_value (mg_value nested_action)))
    None (Some "hooks.PreToolUse") (Some "list") None evidence None None true false None.

Lemma nested_identity_lost :
  ∃ evidence merged,
    merge_identity_evidence nested_action = Ret (Ok evidence)
    ∧ @merged_content ascii_unicode plain_decode_errors nested_action
        (MkPathSnapshot "/p/.claude/settings.json" PABSENT None "" false [] None None) evidence false
      = Ret (Ok merged)
    ∧ @merge_effect_status ascii_unicode plain_decode_errors (nested_effect evidence)
        (MkPathSnapshot "/p/.claude/settings.json" PFILE None merged false [] None None) = Ret L_DRIFTED.
Proof. do 2 eexists. split; [by vm_compute|]. split; [by vm_compute|]. by vm_compute. Qed.
