(* ===== verification/Profiles.v ===== *)
(** Where a harness keeps artifacts of each kind ([profiles/model.py]), the
    built-in harnesses ([profiles/builtin.py]) and the projection of a profile
    on a scope ([profiles/scope.py]).

    [os.path] is [posixpath]; the working directory, which [os.path.abspath]
    reads for a relative home, is the parameter [WorkingDirectory]. *)
From S2P Require Import Prelude PyText TextSearch Posix Domain.
From Stdlib Require Import Ascii.

(** * Values *)

Record CopyTarget := MkCopyTarget { ct_dir : string }.
Record GuidelineTarget := MkGuidelineTarget { gt_dest : string }.
Record MergeSpec := MkMergeSpec {
  mp_file : string;
  mp_json_path : string;
  mp_mode : string;
  mp_identity : list string;
  mp_entry_template : option (list (string * data))
}.
Record HookTarget := MkHookTarget {
  ht_scripts_dir : string;
  ht_events : list (string * string);
  ht_merge : MergeSpec
}.
Record MemoryTarget := MkMemoryTarget { mt_kind : string; mt_dest : string }.
Record ProfileTargets := MkTargets {
  pt_skills : option CopyTarget;
  pt_guidelines : option GuidelineTarget;
  pt_mcp : option MergeSpec;
  pt_hooks : option HookTarget;
  pt_memory : option MemoryTarget;
  pt_unsupported : list (ArtifactKind * string)
}.
(** The project targets and, under [pf_user], the targets of the user scope. *)
Record Profile := MkProfile {
  pf_name : string;
  pf_targets : ProfileTargets;
  pf_user : option ProfileTargets
}.
Definition pf_skills (p : Profile) := pt_skills (pf_targets p).
Definition pf_guidelines (p : Profile) := pt_guidelines (pf_targets p).
Definition pf_mcp (p : Profile) := pt_mcp (pf_targets p).
Definition pf_hooks (p : Profile) := pt_hooks (pf_targets p).
Definition pf_memory (p : Profile) := pt_memory (pf_targets p).
Definition pf_unsupported (p : Profile) := pt_unsupported (pf_targets p).

(** * Built-in profiles *)

Definition hook_events : list (string * string) :=
  [("PreToolUse", "hooks.PreToolUse"); ("PostToolUse", "hooks.PostToolUse"); ("Stop", "hooks.Stop")].
(** The entries a hook template renders, nested or flat. *)
Definition nested_hook_entry : list (string * data) :=
  [("matcher", DStr "${matcher}");
   ("hooks", DList [DDict [("type", DStr "command"); ("command", DStr "${command}")]])].
Definition flat_hook_entry : list (string * data) :=
  [("matcher", DStr "${matcher}"); ("command", DStr "${command}")].

Definition CLAUDE : Profile :=
  MkProfile "claude"
    (MkTargets (Some (MkCopyTarget ".claude/skills/<name>/"))
       (Some (MkGuidelineTarget ".claude/guidelines/"))
       (Some (MkMergeSpec ".mcp.json" "mcpServers" "key" [] None))
       (Some (MkHookTarget ".claude/hooks/<name>/" hook_events
                (MkMergeSpec ".claude/settings.json" "hooks.PreToolUse" "list"
                   ["matcher"; "command"] (Some nested_hook_entry))))
       (Some (MkMemoryTarget "file" "CLAUDE.md")) [])
    (Some (MkTargets (Some (MkCopyTarget "~/.claude/skills/<name>/"))
       (Some (MkGuidelineTarget "~/.claude/rules/"))
       (Some (MkMergeSpec "~/.claude.json" "mcpServers" "key" [] None))
       (Some (MkHookTarget "~/.claude/hooks/<name>/" hook_events
                (MkMergeSpec "~/.claude/settings.json" "hooks.PreToolUse" "list"
                   ["matcher"; "command"] (Some nested_hook_entry))))
       (Some (MkMemoryTarget "file" "~/.claude/CLAUDE.md")) [])).

Definition OPENCODE : Profile :=
  MkProfile "opencode"
    (MkTargets (Some (MkCopyTarget ".opencode/skills/<name>/"))
       (Some (MkGuidelineTarget ".opencode/guidelines/"))
       (Some (MkMergeSpec "opencode.json" "mcp" "key" [] None))
       (Some (MkHookTarget ".opencode/hooks/<name>/" hook_events
                (MkMergeSpec "opencode.json" "hooks" "list"
                   ["matcher"; "command"] (Some flat_hook_entry))))
       (Some (MkMemoryTarget "file" "AGENTS.md")) [])
    (Some (MkTargets (Some (MkCopyTarget "~/.config/opencode/skills/<name>/"))
       None
       (Some (MkMergeSpec "~/.config/opencode/opencode.json" "mcp" "key" [] None))
       None
       (Some (MkMemoryTarget "file" "~/.config/opencode/AGENTS.md"))
       [(Guideline, "OpenCode has no standalone user-global guideline discovery target; use global AGENTS.md");
        (Hook, "catalog hook descriptors are not OpenCode plugin modules")])).

Definition TABNINE : Profile :=
  MkProfile "tabnine"
    (MkTargets (Some (MkCopyTarget ".tabnine/agent/skills/<name>/"))
       (Some (MkGuidelineTarget ".tabnine/guidelines/"))
       (Some (MkMergeSpec ".tabnine/agent/settings.json" "mcpServers" "key" [] None))
       (Some (MkHookTarget ".tabnine/agent/hooks/<name>/"
                [("PreToolUse", "hooks.BeforeTool"); ("PostToolUse", "hooks.AfterTool");
                 ("Stop", "hooks.SessionEnd")]
                (MkMergeSpec ".tabnine/agent/settings.json" "hooks.BeforeTool" "list"
                   ["matcher"; "command"] (Some flat_hook_entry))))
       (Some (MkMemoryTarget "file" "TABNINE.md")) [])
    (Some (MkTargets None
       (Some (MkGuidelineTarget "~/.tabnine/guidelines/"))
       (Some (MkMergeSpec "~/.tabnine/agent/settings.json" "mcpServers" "key" [] None))
       None None
       [(Skill, "Tabnine does not document an Agent Skills discovery location");
        (Hook, "Tabnine CLI does not document a user-global hook discovery target");
        (Memory, "Tabnine CLI documents project-root TABNINE.md, not a global memory file")])).

Definition VIBE : Profile :=
  MkProfile "vibe"
    (MkTargets (Some (MkCopyTarget ".vibe/skills/<name>/"))
       (Some (MkGuidelineTarget ".vibe/guidelines/"))
       None None
       (Some (MkMemoryTarget "file" "AGENTS.md")) [])
    (Some (MkTargets (Some (MkCopyTarget "~/.vibe/skills/<name>/"))
       None None None None
       [(Guideline, "Vibe does not document a user-global standalone guideline target");
        (Mcp, "Vibe user MCP configuration is TOML; the zero-dependency merge core is JSON-only");
        (Hook, "Vibe user hooks are TOML; the zero-dependency merge core is JSON-only");
        (Memory, "Vibe has no documented always-loaded global instruction file")])).

Definition builtin : list (string * Profile) :=
  [("claude", CLAUDE); ("opencode", OPENCODE); ("tabnine", TABNINE); ("vibe", VIBE)].

(** * Scopes *)

Class WorkingDirectory := { cwd : string }.
Definition abspath `{WorkingDirectory} (p : string) : string :=
  normpath (if isabs p then p else pjoin cwd p).

(** The kinds a profile can place, [_TYPE_ATTR]. *)
Definition profile_kinds : list ArtifactKind := [Skill; Guideline; Mcp; Hook; Memory].
Definition has_target (t : ProfileTargets) (kind : ArtifactKind) : bool :=
  match kind with
  | Skill => negb (bool_decide (pt_skills t = None))
  | Guideline => negb (bool_decide (pt_guidelines t = None))
  | Mcp => match pt_mcp t with Some _ => true | None => false end
  | Hook => match pt_hooks t with Some _ => true | None => false end
  | Memory => negb (bool_decide (pt_memory t = None))
  | Collection => false
  end.

Section scope.
Context `{UnicodeData} `{WorkingDirectory}.

Definition user_path (path home : string) : string :=
  let normalized_home := abspath home in
  let resolved :=
    if String.eqb path "~" then normalized_home
    else if String.prefix "~/" path then normpath (pjoin normalized_home (str_drop 2 path))
    else if isabs path then normpath path
    else normpath (pjoin normalized_home path) in
  if endswith "/" path && negb (endswith "/" resolved) then resolved +:+ "/" else resolved.

Definition merge_for (spec : MergeSpec) (home : string) : MergeSpec :=
  MkMergeSpec (user_path (mp_file spec) home) (mp_json_path spec) (mp_mode spec) (mp_identity spec)
    (mp_entry_template spec).
Definition hook_for (target : HookTarget) (home : string) : HookTarget :=
  MkHookTarget (user_path (ht_scripts_dir target) home) (ht_events target)
    (merge_for (ht_merge target) home).

Definition no_user_scope (p : Profile) : string :=
  "profile " +:+ repr (pf_name p) +:+ " has no user-scope configuration".

(** [profile_for_scope]; an empty [ProfileTargets] is still an object, so only
    [None] gives way to the default. *)
Definition profile_for_scope (p : Profile) (scope user_home : string) : Profile :=
  if String.eqb scope "project" then p
  else
    let targets := default (MkTargets None None None None None
                              (map (λ kind, (kind, no_user_scope p)) profile_kinds)) (pf_user p) in
    MkProfile (pf_name p)
      (MkTargets
         ((λ t, MkCopyTarget (user_path (ct_dir t) user_home)) <$> pt_skills targets)
         ((λ t, MkGuidelineTarget (user_path (gt_dest t) user_home)) <$> pt_guidelines targets)
         ((λ s, merge_for s user_home) <$> pt_mcp targets)
         ((λ t, hook_for t user_home) <$> pt_hooks targets)
         ((λ t, MkMemoryTarget (mt_kind t) (user_path (mt_dest t) user_home)) <$> pt_memory targets)
         (pt_unsupported targets))
      (Some targets).

Record ScopeSupport := MkScopeSupport { ss_supported : bool; ss_reason : string }.
Definition support_in (targets : ProfileTargets) (kind : ArtifactKind) : ScopeSupport :=
  let supported := has_target targets kind in
  MkScopeSupport supported
    (if supported then "" else default "" (dget kind (pt_unsupported targets))).
Definition support_for (p : Profile) (scope : string) (kind : ArtifactKind) : ScopeSupport :=
  if String.eqb scope "project" then support_in (pf_targets p) kind
  else match pf_user p with
       | None => MkScopeSupport false (no_user_scope p)
       | Some targets => support_in targets kind
       end.

(** A projected profile supports exactly what [support_for] announces. *)
Lemma profile_for_scope_support p scope home kind :
  has_target (pf_targets (profile_for_scope p scope home)) kind = ss_supported (support_for p scope kind).
Proof.
  unfold profile_for_scope, support_for. destruct (String.eqb scope "project"); [done|].
  destruct (pf_user p) as [[[] [] [] [] [] u]|], kind; done.
Qed.
End scope.
