(* ===== verification/NativeSchema.v ===== *)
(** [protocol/native_schema.py]: the strict parsers and the canonical
    projections of the documents of a native source, version 1: the source
    manifest, artifact and collection manifests, and provenance. *)
From S2P Require Import Prelude PyText TextSearch Regex Domain SemVer Json Protocol Coordinates Configuration InstallSchema.
From Stdlib Require Import Ascii.
Open Scope Z_scope.

Definition SOURCE_INVALID := MkCode "source-invalid".
Definition ARTIFACT_INVALID := MkCode "artifact-invalid".
Definition COLLECTION_INVALID := MkCode "collection-invalid".
Definition PROVENANCE_INVALID := MkCode "provenance-invalid".

Definition ARTIFACT_TYPES : list string := dkeys PAYLOAD_FORMAT_BY_TYPE.
Definition SCOPES : list string := ["project"; "user"].
Definition MODES : list string := ["copy"; "symlink"].
Definition EFFECTS : list string := ["copy-tree"; "write-file"; "merge-json"; "managed-block"].

(** The manifest types that can be packaged, as kinds. *)
Definition artifact_type (raw : string) : option ArtifactKind :=
  if mem raw ARTIFACT_TYPES then parse_kind raw else None.

(** [_location], [_error] *)
Definition doc_location (path : string) (pointer : option string) : option SourceLocation :=
  Some (MkLocation None (Some path) pointer None None).
Definition doc_error {A} (code : DiagnosticCode) (message path : string) : Result A :=
  fail1 (diagnostic code ERROR message (doc_location path None) [] []).

Section schema.
Context `{UnicodeData}.

(** * Fields *)

Definition as_object (value : JsonValue) (code : DiagnosticCode) (label path : string) :
    Result (list (string * JsonValue)) :=
  match value with
  | JsonObject fields => Ok fields
  | _ => doc_error code (label +:+ " must be an object") path
  end.

Definition native_document `{DecodeErrors} (data : bytes) (code : DiagnosticCode) (path : string) :
    py (Result (list (string * JsonValue))) :=
  parsed ← parse_json data (doc_location path None) MAX_DEPTH MAX_STRING;
  Ret (value ← parsed; as_object value code "protocol document" path).

(** [validate_object_fields] with literal field names, which do not overlap. *)
Definition known_fields (fields : list (string * JsonValue)) (required optional : list string)
    (extensions : bool) (path : string) : Result (list (string * JsonValue)) :=
  ret_or (Err []) (validate_object_fields fields required optional extensions (doc_location path None)).

Definition string_item (value : JsonValue) (code : DiagnosticCode) (label path : string)
    (single_line : bool) : Result string :=
  match value with
  | JStr s =>
      if str_empty s || negb (bool_decide (s = strip s))
      then doc_error code (label +:+ " must be non-empty without surrounding whitespace") path
      else if single_line && (has_char newline s || has_char creturn s)
      then doc_error code (label +:+ " must be one line") path
      else Ok s
  | _ => doc_error code (label +:+ " must be a string") path
  end.
Definition integer_item (value : JsonValue) (code : DiagnosticCode) (label path : string) : Result Z :=
  match value with JInt n => Ok n | _ => doc_error code (label +:+ " must be an integer") path end.

Definition strings_item (value : JsonValue) (code : DiagnosticCode) (label path : string)
    (allow_empty : bool) : Result (list string) :=
  match value with
  | JsonArray items =>
      if negb allow_empty && bool_decide (items = [])
      then doc_error code (label +:+ " must not be empty") path
      else
        values ← mapM (λ item, string_item item code (label +:+ " item") path true) items;
        Ok (sorted_set id values)
  | _ => doc_error code (label +:+ " must be an array") path
  end.

(** One bound: its field, when present, parsed. *)
Definition version_bound (fields : list (string * JsonValue)) (name : string) (code : DiagnosticCode)
    (path : string) : Result (option SemVer) :=
  opt_field fields name (λ v,
    raw ← string_item v code name path false;
    parse_semver raw (doc_location path (Some ("/" +:+ name)))).
Definition parse_version_bounds (value : JsonValue) (code : DiagnosticCode) (path : string) :
    Result VersionBounds :=
  base ← as_object value code "version bounds" path;
  fields ← known_fields base [] ["min_inclusive"; "max_exclusive"] false path;
  minimum ← version_bound fields "min_inclusive" code path;
  maximum ← version_bound fields "max_exclusive" code path;
  version_bounds minimum maximum (doc_location path None).

Definition paths_item (value : JsonValue) (code : DiagnosticCode) (label path : string)
    (allow_empty : bool) : Result (list SafeRelativePath) :=
  raws ← strings_item value code label path allow_empty;
  parsed ← mapM (λ raw, parse_relative_path raw (doc_location path None)) raws;
  Ok (sorted_set sp_parts parsed).

Definition extension_fields (fields : list (string * JsonValue)) (known : list string) :
    list (string * JsonValue) :=
  List.filter (λ kv, negb (mem kv.1 known)) fields.

Definition check_schema_version (fields : list (string * JsonValue)) (code : DiagnosticCode)
    (path : string) : Result Z :=
  version ← integer_item (entry fields "schema_version") code "schema_version" path;
  if negb (version =? 1)
  then doc_error code ("unsupported schema_version " +:+ str_Z version) path
  else Ok version.

(** [sorted(set(items))] of slugs, each allowed. *)
Definition named_values (value : JsonValue) (code : DiagnosticCode) (label : string)
    (allowed : option (list string)) (path : string) (allow_empty : bool) : Result (list string) :=
  values ← strings_item value code label path allow_empty;
  match List.find (λ item, negb (fullmatch slug_re item)
                           || match allowed with Some names => negb (mem item names) | None => false end)
          values with
  | Some item => doc_error code ("unsupported " +:+ label +:+ " value " +:+ repr item) path
  | None => Ok values
  end.

(** * The source manifest *)

Definition SOURCE_REQUIRED : list string :=
  ["schema_version"; "protocol_version"; "source_id"; "display_name"; "requires_aart";
   "required_capabilities"; "artifact_roots"].
Definition SOURCE_OPTIONAL : list string := ["collection_roots"].

(** One of two roots lies below the other: [sorted(..., key=len)] keeps the
    order of roots of one length. *)
Definition nested_roots (a b : SafeRelativePath) : bool :=
  let '(shorter, longer) :=
    if (length (sp_parts b) <? length (sp_parts a))%nat then (sp_parts b, sp_parts a)
    else (sp_parts a, sp_parts b) in
  bool_decide (take (length shorter) longer = shorter).
Fixpoint any_nested (roots : list SafeRelativePath) : bool :=
  match roots with
  | [] => false
  | root :: others => existsb (nested_roots root) others || any_nested others
  end.

Definition source_fields (fields : list (string * JsonValue)) (path : string) :
    Result SourceManifest :=
  value ← known_fields fields SOURCE_REQUIRED SOURCE_OPTIONAL true path;
  schema_version ← check_schema_version value SOURCE_INVALID path;
  protocol_version ← integer_item (entry value "protocol_version") SOURCE_INVALID "protocol_version" path;
  if negb (protocol_version =? 1)
  then doc_error SOURCE_INVALID ("unsupported protocol_version " +:+ str_Z protocol_version) path
  else
  source_id ← string_item (entry value "source_id") SOURCE_INVALID "source_id" path false;
  if negb (fullmatch slug_re source_id)
  then doc_error SOURCE_INVALID "source_id must be a lowercase slug" path
  else
  display_name ← string_item (entry value "display_name") SOURCE_INVALID "display_name" path true;
  bounds ← parse_version_bounds (entry value "requires_aart") SOURCE_INVALID path;
  capability_names ← strings_item (entry value "required_capabilities") SOURCE_INVALID
                       "required_capabilities" path true;
  capabilities ← mapM (λ raw, parse_capability raw (doc_location path None)) capability_names;
  artifact_roots ← paths_item (entry value "artifact_roots") SOURCE_INVALID "artifact_roots" path false;
  collection_roots ← default [] <$> opt_field value "collection_roots"
    (λ v, paths_item v SOURCE_INVALID "collection_roots" path true);
  if existsb (λ root, mem root collection_roots) artifact_roots
  then doc_error SOURCE_INVALID "artifact and collection roots must not overlap" path
  else if any_nested (artifact_roots ++ collection_roots)
  then doc_error SOURCE_INVALID "source roots must not be nested" path
  else Ok (MkSourceManifest schema_version protocol_version (MkSourceId source_id) display_name bounds
             (sorted_set cap_value capabilities) artifact_roots collection_roots
             (extension_fields value (SOURCE_REQUIRED ++ SOURCE_OPTIONAL))).
Definition parse_source_manifest `{DecodeErrors} (data : bytes) (path : string) :
    py (Result SourceManifest) :=
  document ← native_document data SOURCE_INVALID path;
  Ret (fields ← document; source_fields fields path).

(** * Artifact manifests *)

Definition parse_payload (value : JsonValue) (kind : ArtifactKind) (path : string) :
    Result PayloadSpec :=
  base ← as_object value ARTIFACT_INVALID "payload" path;
  fields ← known_fields base ["root"; "format"] [] false path;
  root_raw ← string_item (entry fields "root") ARTIFACT_INVALID "payload.root" path false;
  root ← parse_relative_path root_raw (doc_location path (Some "/payload/root"));
  if negb (String.eqb (path_str root) "payload")
  then doc_error ARTIFACT_INVALID "payload.root must be 'payload' in protocol v1" path
  else
  payload_format ← string_item (entry fields "format") ARTIFACT_INVALID "payload.format" path false;
  let expected := default "" (dget (kind_value kind) PAYLOAD_FORMAT_BY_TYPE) in
  if negb (String.eqb payload_format expected)
  then doc_error ARTIFACT_INVALID
         (kind_value kind +:+ " requires payload format " +:+ repr expected) path
  else Ok (MkPayloadSpec root payload_format).

Definition parse_compatibility (value : JsonValue) (path : string) : Result CompatibilitySpec :=
  base ← as_object value ARTIFACT_INVALID "compatibility" path;
  fields ← known_fields base ["profiles"; "platforms"] [] false path;
  profiles ← named_values (entry fields "profiles") ARTIFACT_INVALID "profile" None path false;
  platforms ← named_values (entry fields "platforms") ARTIFACT_INVALID "platform" None path false;
  Ok (MkCompatibilitySpec profiles platforms).

Definition parse_install (value : JsonValue) (path : string) : Result InstallSpec :=
  base ← as_object value ARTIFACT_INVALID "install" path;
  fields ← known_fields base ["scopes"; "modes"; "effects"] [] false path;
  scopes ← named_values (entry fields "scopes") ARTIFACT_INVALID "scope" (Some SCOPES) path false;
  modes ← named_values (entry fields "modes") ARTIFACT_INVALID "mode" (Some MODES) path false;
  effects ← named_values (entry fields "effects") ARTIFACT_INVALID "effect" (Some EFFECTS) path false;
  Ok (MkInstallSpec scopes modes effects).

Definition parse_setup (value : JsonValue) (compatibility : CompatibilitySpec) (path : string) :
    Result SetupReference :=
  base ← as_object value ARTIFACT_INVALID "setup" path;
  fields ← known_fields base ["recipe"; "platforms"] [] false path;
  recipe_raw ← string_item (entry fields "recipe") ARTIFACT_INVALID "setup.recipe" path false;
  recipe ← parse_relative_path recipe_raw (doc_location path (Some "/setup/recipe"));
  if negb (bool_decide (head (sp_parts recipe) = Some "setup"))
  then doc_error ARTIFACT_INVALID "setup recipe must be below setup/" path
  else
  platforms ← named_values (entry fields "platforms") ARTIFACT_INVALID "setup platform" None path false;
  if negb (forallb (λ p, mem p (cs_platforms compatibility)) platforms)
  then doc_error ARTIFACT_INVALID "setup platforms must be a subset of artifact platforms" path
  else Ok (MkSetupReference recipe platforms).

Definition parse_selector (value : JsonValue) (path : string) : Result Protocol.ArtifactSelector :=
  base ← as_object value COLLECTION_INVALID "artifact selector" path;
  fields ← known_fields base ["type"; "name"] ["version"] false path;
  raw_type ← string_item (entry fields "type") COLLECTION_INVALID "type" path false;
  name ← string_item (entry fields "name") COLLECTION_INVALID "name" path false;
  match artifact_type raw_type with
  | Some kind =>
      if negb (fullmatch slug_re name)
      then doc_error COLLECTION_INVALID "selector identity is invalid" path
      else
        bounds ← opt_field fields "version" (λ v, parse_version_bounds v COLLECTION_INVALID path);
        Ok (Protocol.MkSelector (MkIdentity kind name) bounds)
  | None => doc_error COLLECTION_INVALID "selector identity is invalid" path
  end.

Definition safe_https_url (raw : string) : bool :=
  if String.prefix "https://" raw then
    let authority := List.hd "" (split_on "/" (removeprefix "https://" raw)) in
    negb (str_empty authority) && negb (has_char "@" authority)
    && negb (has_char "?" raw) && negb (has_char "#" raw)
    && negb (existsb is_space (code_points raw))
  else false.
(** [_SCP_GIT_RE] is the pattern of [configuration/model.py]. *)
Definition safe_git_url (raw : string) : bool :=
  negb (bool_decide (scp_groups raw = None)) || safe_https_url raw.

Definition ARTIFACT_REQUIRED : list string :=
  ["schema_version"; "type"; "name"; "version"; "summary"; "payload"; "compatibility"; "install"].
Definition ARTIFACT_OPTIONAL : list string :=
  ["setup"; "authors"; "license"; "homepage"; "requires_aart"; "requires"].

(** The [requires] of an artifact: distinct other artifacts, sorted. *)
Definition parse_requires (value : JsonValue) (self : ArtifactIdentity) (path : string) :
    Result (list Protocol.ArtifactSelector) :=
  match value with
  | JsonArray items =>
      selectors ← mapM (λ item,
        selector ← parse_selector item path;
        if bool_decide (as_identity selector = self)
        then doc_error ARTIFACT_INVALID "artifact must not require itself" path
        else Ok selector) items;
      if has_dups (map as_identity selectors)
      then doc_error ARTIFACT_INVALID "requires contains duplicate artifact selectors" path
      else Ok (sorted (λ s, identity_str (as_identity s)) selectors)
  | _ => doc_error ARTIFACT_INVALID "requires must be an array" path
  end.

Definition parse_homepage (value : JsonValue) (path : string) : Result string :=
  raw ← string_item value ARTIFACT_INVALID "homepage" path false;
  if negb (safe_https_url raw)
  then doc_error ARTIFACT_INVALID "homepage must use credential-free HTTPS" path
  else Ok raw.

Definition artifact_fields (fields : list (string * JsonValue)) (path : string) :
    Result ArtifactManifest :=
  value ← known_fields fields ARTIFACT_REQUIRED ARTIFACT_OPTIONAL true path;
  schema_version ← check_schema_version value ARTIFACT_INVALID path;
  raw_type ← string_item (entry value "type") ARTIFACT_INVALID "type" path false;
  match artifact_type raw_type with
  | None => doc_error ARTIFACT_INVALID ("unsupported artifact type " +:+ repr raw_type) path
  | Some kind =>
      name ← string_item (entry value "name") ARTIFACT_INVALID "name" path false;
      if negb (fullmatch slug_re name)
      then doc_error ARTIFACT_INVALID "artifact name must be a lowercase slug" path
      else
      raw_version ← string_item (entry value "version") ARTIFACT_INVALID "version" path false;
      version ← parse_semver raw_version (doc_location path (Some "/version"));
      summary ← string_item (entry value "summary") ARTIFACT_INVALID "summary" path true;
      payload ← parse_payload (entry value "payload") kind path;
      compatibility ← parse_compatibility (entry value "compatibility") path;
      install ← parse_install (entry value "install") path;
      if negb (forallb (λ e, mem e (default [] (dget (kind_value kind) INSTALL_EFFECTS_BY_TYPE)))
                 (is_effects install))
      then doc_error ARTIFACT_INVALID
             ("install effects are incompatible with artifact type " +:+ repr (kind_value kind)) path
      else
      requires_aart ← default no_bounds <$> opt_field value "requires_aart"
        (λ v, parse_version_bounds v ARTIFACT_INVALID path);
      requires ← default [] <$> opt_field value "requires"
        (λ v, parse_requires v (MkIdentity kind name) path);
      setup ← opt_field value "setup" (λ v, parse_setup v compatibility path);
      authors ← default [] <$> opt_field value "authors"
        (λ v, strings_item v ARTIFACT_INVALID "authors" path true);
      license ← opt_field value "license"
        (λ v, string_item v ARTIFACT_INVALID "license" path true);
      homepage ← opt_field value "homepage" (λ v, parse_homepage v path);
      Ok (MkArtifactManifest schema_version (MkIdentity kind name) version summary payload
            compatibility install setup authors license homepage
            (extension_fields value (ARTIFACT_REQUIRED ++ ARTIFACT_OPTIONAL)) requires_aart requires)
  end.
Definition parse_artifact_manifest `{DecodeErrors} (data : bytes) (path : string) :
    py (Result ArtifactManifest) :=
  document ← native_document data ARTIFACT_INVALID path;
  Ret (fields ← document; artifact_fields fields path).

(** * Provenance *)

(** [if isinstance(parsed, Err): return _error(...)] *)
Definition or_doc_error {A} (parsed : Result A) (code : DiagnosticCode) (message path : string) :
    Result A :=
  match parsed with Ok a => Ok a | Err _ => doc_error code message path end.

Definition parse_origin (value : JsonValue) (path : string) : Result OriginProvenance :=
  base ← as_object value PROVENANCE_INVALID "origin" path;
  origin ← known_fields base ["kind"; "url"; "resolved_commit"; "path"; "input_digest"] [] false path;
  kind ← string_item (entry origin "kind") PROVENANCE_INVALID "origin.kind" path false;
  url ← string_item (entry origin "url") PROVENANCE_INVALID "origin.url" path false;
  commit ← string_item (entry origin "resolved_commit") PROVENANCE_INVALID "resolved_commit" path false;
  path_raw ← string_item (entry origin "path") PROVENANCE_INVALID "origin.path" path false;
  if negb (String.eqb kind "git") || negb (safe_git_url url) || negb (fullmatch hex40_re commit)
  then doc_error PROVENANCE_INVALID "origin must be a pinned credential-free Git source" path
  else
  origin_path ← or_doc_error (parse_relative_path path_raw (doc_location path (Some "/origin/path")))
                  PROVENANCE_INVALID "origin.path must be a safe relative path" path;
  digest_raw ← string_item (entry origin "input_digest") PROVENANCE_INVALID "input_digest" path false;
  input_digest ← or_doc_error (parse_sha256 digest_raw (doc_location path None)) PROVENANCE_INVALID
                   "input_digest must be canonical SHA-256" path;
  Ok (MkOriginProvenance url commit origin_path input_digest).

Definition parse_importer (value : JsonValue) (path : string) : Result ImporterProvenance :=
  base ← as_object value PROVENANCE_INVALID "importer" path;
  importer ← known_fields base ["id"; "version"; "options_digest"] [] false path;
  importer_id ← string_item (entry importer "id") PROVENANCE_INVALID "importer.id" path false;
  version_raw ← string_item (entry importer "version") PROVENANCE_INVALID "importer.version" path false;
  digest_raw ← string_item (entry importer "options_digest") PROVENANCE_INVALID "options_digest" path false;
  if negb (fullmatch slug_re importer_id)
  then doc_error PROVENANCE_INVALID "importer.id must be a lowercase slug" path
  else
  version ← or_doc_error (parse_semver version_raw (doc_location path None)) PROVENANCE_INVALID
              "importer.version must be SemVer" path;
  options_digest ← or_doc_error (parse_sha256 digest_raw (doc_location path None)) PROVENANCE_INVALID
                     "options_digest must be canonical SHA-256" path;
  Ok (MkImporterProvenance importer_id version options_digest).

Definition PROVENANCE_REQUIRED : list string := ["schema_version"; "origin"; "importer"; "warnings"].

Definition provenance_fields (fields : list (string * JsonValue)) (path : string) : Result Provenance :=
  value ← known_fields fields PROVENANCE_REQUIRED [] true path;
  schema_version ← check_schema_version value PROVENANCE_INVALID path;
  origin ← parse_origin (entry value "origin") path;
  importer ← parse_importer (entry value "importer") path;
  warnings ← strings_item (entry value "warnings") PROVENANCE_INVALID "warnings" path true;
  Ok (MkProvenance schema_version origin importer warnings
        (extension_fields value PROVENANCE_REQUIRED)).
Definition parse_provenance `{DecodeErrors} (data : bytes) (path : string) : py (Result Provenance) :=
  document ← native_document data PROVENANCE_INVALID path;
  Ret (fields ← document; provenance_fields fields path).

(** * Collections *)

Definition COLLECTION_REQUIRED : list string := ["schema_version"; "name"; "summary"; "artifacts"].
Definition COLLECTION_OPTIONAL : list string := ["collections"].

Definition collection_fields (fields : list (string * JsonValue)) (path : string) :
    Result CollectionManifest :=
  value ← known_fields fields COLLECTION_REQUIRED COLLECTION_OPTIONAL true path;
  schema_version ← check_schema_version value COLLECTION_INVALID path;
  name ← string_item (entry value "name") COLLECTION_INVALID "name" path false;
  summary ← string_item (entry value "summary") COLLECTION_INVALID "summary" path true;
  if negb (fullmatch slug_re name)
  then doc_error COLLECTION_INVALID "collection name must be a lowercase slug" path
  else
  artifacts ← match entry value "artifacts" with
              | JsonArray items => mapM (λ item, parse_selector item path) items
              | _ => doc_error COLLECTION_INVALID "artifacts must be an array" path
              end;
  if has_dups (map (λ s, identity_str (as_identity s)) artifacts)
  then doc_error COLLECTION_INVALID "collection contains duplicate artifact selectors" path
  else
  collections ← default [] <$> opt_field value "collections"
    (λ v, named_values v COLLECTION_INVALID "collection" None path true);
  if mem name collections
  then doc_error COLLECTION_INVALID "collection must not directly reference itself" path
  else if bool_decide (artifacts = []) && bool_decide (collections = [])
  then doc_error COLLECTION_INVALID "collection must contain at least one member" path
  else Ok (MkCollectionManifest schema_version name summary
             (sorted (λ s, identity_str (as_identity s)) artifacts) collections
             (extension_fields value (COLLECTION_REQUIRED ++ COLLECTION_OPTIONAL))).
Definition parse_collection_manifest `{DecodeErrors} (data : bytes) (path : string) :
    py (Result CollectionManifest) :=
  document ← native_document data COLLECTION_INVALID path;
  Ret (fields ← document; collection_fields fields path).
End schema.

(** * Projections

    [_object(entries)] builds a [JsonObject], which refuses two entries of one
    name: an extension named like a field raises. *)

Definition strings_json (values : list string) : JsonValue := JsonArray (map JStr values).
Definition opt_entry {A} (name : string) (json : A → JsonValue) (o : option A) :
    list (string * JsonValue) :=
  match o with Some a => [(name, json a)] | None => [] end.
(** [if values: entries.append(...)] *)
Definition some_entry {A} (name : string) (json : list A → JsonValue) (l : list A) :
    list (string * JsonValue) :=
  match l with [] => [] | _ => [(name, json l)] end.

Definition bounds_to_json (b : VersionBounds) : JsonValue :=
  json_object (opt_entry "min_inclusive" (λ v, JStr (semver_str v)) (vb_min_inclusive b)
               ++ opt_entry "max_exclusive" (λ v, JStr (semver_str v)) (vb_max_exclusive b)).
Definition selector_to_json (s : Protocol.ArtifactSelector) : JsonValue :=
  json_object ([("type", JStr (kind_value (id_kind (as_identity s))));
                ("name", JStr (id_name (as_identity s)))]
               ++ opt_entry "version" bounds_to_json (as_version s)).
Definition paths_json (paths : list SafeRelativePath) : JsonValue :=
  strings_json (map path_str paths).

Definition source_manifest_to_json (m : SourceManifest) : py JsonValue :=
  json_object_init
    ([("schema_version", JInt (sm_schema_version m)); ("protocol_version", JInt (sm_protocol_version m));
      ("source_id", JStr (source_id_value (sm_source_id m))); ("display_name", JStr (sm_display_name m));
      ("requires_aart", bounds_to_json (sm_requires_aart m));
      ("required_capabilities", strings_json (map cap_value (sm_required_capabilities m)));
      ("artifact_roots", paths_json (sm_artifact_roots m))]
     ++ some_entry "collection_roots" paths_json (sm_collection_roots m)
     ++ sm_extensions m).

Definition setup_to_json (s : SetupReference) : JsonValue :=
  json_object [("recipe", JStr (path_str (sr_recipe s))); ("platforms", strings_json (sr_platforms s))].

Definition artifact_manifest_entries (m : ArtifactManifest) : list (string * JsonValue) :=
  [("schema_version", JInt (am_schema_version m)); ("type", JStr (kind_value (id_kind (am_identity m))));
   ("name", JStr (id_name (am_identity m))); ("version", JStr (semver_str (am_version m)));
   ("summary", JStr (am_summary m));
   ("payload", json_object [("root", JStr (path_str (ps_root (am_payload m))));
                            ("format", JStr (ps_format (am_payload m)))]);
   ("compatibility", json_object [("profiles", strings_json (cs_profiles (am_compatibility m)));
                                  ("platforms", strings_json (cs_platforms (am_compatibility m)))]);
   ("install", json_object [("scopes", strings_json (is_scopes (am_install m)));
                            ("modes", strings_json (is_modes (am_install m)));
                            ("effects", strings_json (is_effects (am_install m)))])]
  ++ opt_entry "setup" setup_to_json (am_setup m)
  ++ some_entry "authors" strings_json (am_authors m)
  ++ opt_entry "license" JStr (am_license m)
  ++ opt_entry "homepage" JStr (am_homepage m)
  ++ (if bool_decide (am_requires_aart m = no_bounds) then []
      else [("requires_aart", bounds_to_json (am_requires_aart m))])
  ++ some_entry "requires" (λ l, JsonArray (map selector_to_json l)) (am_requires m)
  ++ am_extensions m.
Definition artifact_manifest_to_json (m : ArtifactManifest) : py JsonValue :=
  json_object_init (artifact_manifest_entries m).

Definition provenance_to_json (p : Provenance) : py JsonValue :=
  json_object_init
    ([("importer", json_object
         [("id", JStr (ip_id (pv_importer p)));
          ("options_digest", JStr (digest_str (ip_options_digest (pv_importer p))));
          ("version", JStr (semver_str (ip_version (pv_importer p))))]);
      ("origin", json_object
         [("input_digest", JStr (digest_str (op_input_digest (pv_origin p)))); ("kind", JStr "git");
          ("path", JStr (path_str (op_path (pv_origin p))));
          ("resolved_commit", JStr (op_resolved_commit (pv_origin p)));
          ("url", JStr (op_url (pv_origin p)))]);
      ("schema_version", JInt (pv_schema_version p));
      ("warnings", strings_json (pv_warnings p))]
     ++ pv_extensions p).

Definition collection_manifest_to_json (m : CollectionManifest) : py JsonValue :=
  json_object_init
    ([("artifacts", JsonArray (map selector_to_json (cm_artifacts m))); ("name", JStr (cm_name m));
      ("schema_version", JInt (cm_schema_version m)); ("summary", JStr (cm_summary m))]
     ++ some_entry "collections" strings_json (cm_collections m)
     ++ cm_extensions m).
