(* ===== verification/NativeTree.v ===== *)
(** [protocol/native_tree.py]: packages and whole native sources compiled from
    the entries of an acquired tree.

    The setup recipes of [setup.py] are read through the interface
    [SetupProtocol], which the parser of recipes implements (SetupRecipe.v).  A [dict] of entries
    is a list in insertion order; its keys are the printed paths.  The recursive
    walk over the requirements takes the number of nested calls left before the
    interpreter's recursion limit. *)
From S2P Require Import Prelude PyText TextSearch Domain SemVer Json Protocol Coordinates CompilerModel InstallSchema NativeSchema.
From Stdlib Require Import Ascii.
Open Scope Z_scope.

Definition SOURCE_INCOMPATIBLE := MkCode "source-incompatible".
Definition SOURCE_MARKER_MISSING := MkCode "source-marker-missing".
Definition SOURCE_TREE_INVALID := MkCode "source-tree-invalid".

(** What the loader uses of [setup.py]; an error is its reason. *)
Class SetupProtocol := {
  SetupInstaller : Type;
  si_platforms : SetupInstaller → list string;
  si_manual_path : SetupInstaller → string;
  custom_entrypoint_name : bytes → py (string + option string);
  parse_installer : bytes → string → string → option bytes → py (string + SetupInstaller);
  has_manual_setup_header : bytes → bool;
  planned_capabilities : SetupInstaller → list string
}.

Record NativeArtifactPackage `{SetupProtocol} := MkPackage {
  np_manifest : ArtifactManifest;
  np_provenance : option Provenance;
  np_manifest_digest : ObjectDigest;
  np_payload_digest : ObjectDigest;
  np_setup_installer : option SetupInstaller
}.
Record NativeSource `{SetupProtocol} := MkNativeSource {
  ns_manifest : SourceManifest;
  ns_artifacts : list NativeArtifactPackage;
  ns_collections : list CollectionManifest;
  ns_manifest_digest : ObjectDigest
}.

#[export] Instance entry_kind_eq_dec : EqDecision SnapshotEntryKind.
Proof. solve_decision. Defined.
Definition entry_kind_value (k : SnapshotEntryKind) : string :=
  match k with
  | SFILE => "file" | SDIRECTORY => "directory" | SYMLINK => "symlink" | SPECIAL => "special"
  end.

(** [_diagnostic], [_error] *)
Definition tree_diagnostic (code : DiagnosticCode) (message : string) (path : option string) :
    Diagnostic :=
  diagnostic code ERROR message (Some (MkLocation None path None None None)) [] [].
Definition tree_error {A} (code : DiagnosticCode) (message : string) (path : option string) : Result A :=
  fail1 (tree_diagnostic code message path).

Definition DEPENDENCY_SCOPE_REMEDIATION : list string :=
  ["Publish the dependency in this registry — `aart registry scaffold --help` — or copy the upstream content into an artifact this registry owns.";
   "`aart registry promote-native --help` offers a foreign package to consumers; it does not make that package a `requires` target."].
Definition dependency_scope_error {A} (code : DiagnosticCode) (requiring dependency : ArtifactIdentity)
    (referenced_from : option string) : Result A :=
  let message :=
    match referenced_from with
    | None => identity_str requiring +:+ " requires " +:+ identity_str dependency
              +:+ ", which this registry does not publish; requires resolves inside one registry"
    | Some origin => identity_str requiring +:+ " requires " +:+ identity_str dependency
              +:+ ", which this registry references from " +:+ origin
              +:+ " rather than owning; requires resolves against artifacts this registry owns"
    end in
  fail1 (diagnostic code ERROR message None DEPENDENCY_SCOPE_REMEDIATION []).

Definition is_file (e : SnapshotEntry) : bool := bool_decide (se_kind e = SFILE).
Definition is_directory (e : SnapshotEntry) : bool := bool_decide (se_kind e = SDIRECTORY).
Definition is_unsafe_kind (e : SnapshotEntry) : bool :=
  bool_decide (se_kind e = SYMLINK) || bool_decide (se_kind e = SPECIAL).
(** A directory with the content or the mode of a file. *)
Definition has_file_metadata (e : SnapshotEntry) : bool :=
  is_directory e && (negb (str_empty (se_content e)) || se_executable e).

Section tree.
Context `{UnicodeData} `{DecodeErrors} `{SetupProtocol}.

Notation entries_dict := (list (string * SnapshotEntry)).

Definition canonical_path (e : SnapshotEntry) : bool :=
  match parse_relative_path (path_str (se_path e)) None with
  | Ok parsed => bool_decide (parsed = se_path e)
  | Err _ => false
  end.

(** [_validated_entries], from the entries already accepted *)
Fixpoint validated_from (snapshot_entries : list SnapshotEntry) (entries : entries_dict) :
    Result entries_dict :=
  match snapshot_entries with
  | [] => Ok entries
  | e :: rest =>
      let raw_path := path_str (se_path e) in
      if negb (canonical_path e)
      then tree_error SOURCE_TREE_INVALID ("snapshot path is not canonical: " +:+ repr raw_path) None
      else if mem raw_path (dkeys entries)
      then tree_error SOURCE_TREE_INVALID ("duplicate snapshot path: " +:+ raw_path) (Some raw_path)
      else if has_file_metadata e
      then tree_error SOURCE_TREE_INVALID ("directory has file metadata: " +:+ raw_path) (Some raw_path)
      else validated_from rest (dset raw_path e entries)
  end.
Definition validated_entries (snapshot : SourceSnapshot) : Result entries_dict :=
  validated_from (ss_entries snapshot) [].

(** [_under]: the segments below the root, when the path is below it. *)
Definition under (path : string) (root : SafeRelativePath) : option (list string) :=
  let parsed := split_on "/" path in
  let n := length (sp_parts root) in
  if bool_decide (take n parsed = sp_parts root) then Some (drop n parsed) else None.

Definition validate_protocol_entry_kinds (entries : entries_dict) (m : SourceManifest) : Result unit :=
  let roots := sm_artifact_roots m ++ sm_collection_roots m in
  let relevant path := String.eqb path "aart-source.json"
                       || existsb (λ root, negb (bool_decide (under path root = None))) roots in
  match List.find (λ pe, relevant pe.1 && is_unsafe_kind pe.2) entries with
  | Some (path, e) =>
      tree_error SOURCE_TREE_INVALID
        ("protocol v1 forbids " +:+ entry_kind_value (se_kind e) +:+ " entries in declared content: "
         +:+ path) (Some path)
  | None => Ok tt
  end.

(** [_PACKAGE_KINDS.get(artifact_type)] *)
Definition package_kind (raw : string) : option ArtifactKind :=
  List.find (λ k, String.eqb (kind_value k) raw) [Skill; Guideline; Mcp; Hook; Memory].

Definition candidate := (SafeRelativePath * ArtifactKind * string)%type.
#[local] Instance candidate_eq_dec : EqDecision candidate.
Proof. solve_decision. Defined.
Definition candidate_key (c : candidate) : string * (string * string) :=
  (path_str c.1.1, (kind_value c.1.2, c.2)).

(** The candidate an entry below a root belongs to. *)
Definition entry_candidate (root : SafeRelativePath) (path : string) (e : SnapshotEntry) :
    Result (list candidate) :=
  match under path root with
  | None | Some [] => Ok []
  | Some [_] =>
      if is_directory e then Ok []
      else tree_error SOURCE_TREE_INVALID
             ("artifact root entries must use <type>/<name>/...: " +:+ path) (Some path)
  | Some (artifact_type :: name :: _) =>
      match package_kind artifact_type with
      | None => tree_error SOURCE_TREE_INVALID
                  ("unsupported artifact type directory " +:+ repr artifact_type) (Some path)
      | Some kind => Ok [(root, kind, name)]
      end
  end.
Definition package_candidates (entries : entries_dict) (m : SourceManifest) : Result (list candidate) :=
  found ← mapM (λ root, mapM (λ pe, entry_candidate root pe.1 pe.2) entries) (sm_artifact_roots m);
  match concat (concat found) with
  | [] => tree_error SOURCE_TREE_INVALID "native source contains no canonical artifact packages" None
  | candidates => Ok (sorted_set candidate_key candidates)
  end.

Definition relative_package_entries (entries : entries_dict) (base : string) : entries_dict :=
  let prefix := base +:+ "/" in
  map (λ pe, (removeprefix prefix pe.1, pe.2))
    (List.filter (λ pe, String.prefix prefix pe.1) entries).

(** * One package *)

Definition payload_files (package_entries : entries_dict) : entries_dict :=
  List.filter (λ pe, String.prefix "payload/" pe.1 && is_file pe.2) package_entries.

(** A member that is a non-empty string. *)
Definition text_member (fields : list (string * JsonValue)) (name : string) : bool :=
  match json_get fields name with Some (JStr s) => negb (str_empty s) | _ => false end.

Definition artifact_error {A} (message : string) (path : string) : Result A :=
  tree_error ARTIFACT_INVALID message (Some path).

(** The primary JSON document of an [mcp] or a [hook]. *)
Definition validate_primary_json (kind : ArtifactKind) (files : entries_dict) (manifest_path : string) :
    py (Result unit) :=
  let primary_path := if bool_decide (kind = Mcp) then "payload/mcp.json" else "payload/hook.json" in
  match dget primary_path files with
  | None => Ret (artifact_error (kind_value kind +:+ " payload requires " +:+ primary_path) manifest_path)
  | Some primary =>
      parsed ← parse_json (se_content primary) (doc_location primary_path None) MAX_DEPTH MAX_STRING;
      Ret match parsed with
          | Ok (JsonObject fields) =>
              if bool_decide (kind = Hook) && negb (text_member fields "name" && text_member fields "command")
              then artifact_error
                     "payload/hook.json requires non-empty string name and command fields" primary_path
              else Ok tt
          | _ => artifact_error (primary_path +:+ " must be a strict JSON object") primary_path
          end
  end.

Definition validate_primary_payload (m : ArtifactManifest) (package_entries : entries_dict)
    (manifest_path : string) : py (Result unit) :=
  let files := payload_files package_entries in
  let utf8 (e : SnapshotEntry) : Result unit :=
    if valid_utf8 (se_content e) then Ok tt
    else artifact_error "text payload must be valid UTF-8" manifest_path in
  if bool_decide (files = []) then Ret (artifact_error "payload contains no files" manifest_path)
  else match id_kind (am_identity m) with
  | Skill =>
      Ret match dget "payload/SKILL.md" files with
          | None => artifact_error "skill payload requires payload/SKILL.md" manifest_path
          | Some required => utf8 required
          end
  | (Guideline | Memory) as kind =>
      Ret match files with
          | [(path, only)] =>
              if endswith ".md" path then utf8 only
              else artifact_error (kind_value kind +:+ " payload requires exactly one Markdown document")
                     manifest_path
          | _ => artifact_error (kind_value kind +:+ " payload requires exactly one Markdown document")
                   manifest_path
          end
  | (Mcp | Hook) as kind => validate_primary_json kind files manifest_path
  | Collection => Ret (artifact_error ("unsupported artifact type " +:+ repr "collection") manifest_path)
  end.

(** The files below [payload/] and the directories above them. *)
Definition payload_file_entry (manifest_path : string) (pe : string * SnapshotEntry) :
    Result (TreeEntry * list string) :=
  let relative := removeprefix "payload/" pe.1 in
  match parse_relative_path relative None with
  | Err _ => artifact_error ("invalid payload path: " +:+ relative) manifest_path
  | Ok parsed =>
      Ok (file_entry parsed (se_content pe.2) (se_executable pe.2),
          map (λ n, join "/" (take n (sp_parts parsed))) (seq 1 (length (sp_parts parsed) - 1)))
  end.
Definition payload_directory_entry (manifest_path directory : string) : Result TreeEntry :=
  match parse_relative_path directory None with
  | Err _ => artifact_error ("invalid payload directory: " +:+ directory) manifest_path
  | Ok parsed => Ok (directory_entry parsed)
  end.
Definition payload_digest (package_entries : entries_dict) (manifest_path : string) :
    py (Result ObjectDigest) :=
  match (files ← mapM (payload_file_entry manifest_path) (payload_files package_entries);
         directories ← mapM (payload_directory_entry manifest_path)
                         (sorted_set id (concat (map snd files)));
         Ok (map fst files ++ directories)) with
  | Err ds => Ret (Err ds)
  | Ok tree =>
      digest ← tree_digest tree;
      Ret match digest with
          | Err _ => artifact_error "payload tree cannot be hashed" manifest_path
          | Ok d => Ok d
          end
  end.

(** The custom entrypoint a recipe names, with its path. *)
Definition custom_entry (package_entries : entries_dict) (name : option string) :
    Result (option SnapshotEntry) :=
  match name with
  | None => Ok None
  | Some name =>
      let custom_path := "setup/" +:+ name in
      match dget custom_path package_entries with
      | Some e => if is_file e && se_executable e then Ok (Some e)
                  else artifact_error
                    "custom setup entrypoint must be an executable regular file below setup/" custom_path
      | None => artifact_error
                  "custom setup entrypoint must be an executable regular file below setup/" custom_path
      end
  end.
(** [raw.split()] leaves something, and no NUL character. *)
Definition manual_text_ok (text : string) : bool :=
  negb (str_empty (strip text)) && negb (has_char "000" text).

(** The checks of an accepted recipe against its package. *)
Definition check_setup_package (setup : SetupReference) (package_entries : entries_dict)
    (recipe_path : string) (name : option string) (custom : option SnapshotEntry)
    (installer : SetupInstaller) : Result SetupInstaller :=
  let manual_path := si_manual_path installer in
  match dget manual_path package_entries with
  | Some manual =>
      if negb (is_file manual)
      then artifact_error "setup requires a regular package-root SETUP.md file" manual_path
      else if negb (valid_utf8 (se_content manual))
      then artifact_error "SETUP.md must be valid UTF-8" manual_path
      else if negb (manual_text_ok (se_content manual))
      then artifact_error "SETUP.md must be non-empty safe UTF-8 text" manual_path
      else if match custom with
              | Some e => negb (has_manual_setup_header (se_content e)) | None => false end
      then artifact_error "custom setup entrypoint lacks the SETUP.md header"
             ("setup/" +:+ default "None" name)
      else if negb (bool_decide (si_platforms installer = sr_platforms setup))
      then artifact_error "setup recipe platforms do not match the artifact manifest" recipe_path
      else Ok installer
  | None => artifact_error "setup requires a regular package-root SETUP.md file" manual_path
  end.
Definition validate_setup_package (setup : SetupReference) (m : ArtifactManifest)
    (package_entries : entries_dict) (manifest_path : string) : py (Result SetupInstaller) :=
  let recipe_path := path_str (sr_recipe setup) in
  let missing := artifact_error ("declared setup recipe is missing: " +:+ recipe_path) manifest_path in
  match dget recipe_path package_entries with
  | None => Ret missing
  | Some recipe =>
      if negb (is_file recipe) then Ret missing
      else
      custom_name ← custom_entrypoint_name (se_content recipe);
      match custom_name with
      | inl reason => Ret (artifact_error reason recipe_path)
      | inr name =>
          match custom_entry package_entries name with
          | Err ds => Ret (Err ds)
          | Ok custom =>
              parsed ← parse_installer (se_content recipe) (identity_str (am_identity m)) recipe_path
                         (se_content <$> custom);
              Ret match parsed with
                  | inl reason => artifact_error reason recipe_path
                  | inr installer =>
                      check_setup_package setup package_entries recipe_path name custom installer
                  end
          end
      end
  end.

Definition ALLOWED_ROOTS : list string :=
  ["artifact.json"; "README.md"; "SETUP.md"; "provenance.json"; "payload"; "setup"].
Definition outside_package (path : string) : bool :=
  negb (mem (List.hd "" (split_on "/" path)) ALLOWED_ROOTS).

Definition package_setup (m : ArtifactManifest) (package_entries : entries_dict) (manifest_path : string) :
    py (Result (option SetupInstaller)) :=
  match am_setup m with
  | Some setup =>
      checked ← validate_setup_package setup m package_entries manifest_path;
      Ret (fmap (M:=Result) Some checked)
  | None =>
      Ret (if existsb (λ pe, String.eqb pe.1 "SETUP.md" || String.prefix "setup/" pe.1) package_entries
           then artifact_error "setup content requires a declared setup reference" manifest_path
           else Ok None)
  end.
Definition package_provenance (package_entries : entries_dict) (package_root manifest_path : string) :
    py (Result (option Provenance)) :=
  match dget "provenance.json" package_entries with
  | None => Ret (Ok None)
  | Some e =>
      if negb (is_file e) then Ret (artifact_error "provenance.json must be a file" manifest_path)
      else
        parsed ← parse_provenance (se_content e)
                   (if str_empty package_root then "provenance.json"
                    else package_root +:+ "/provenance.json");
        Ret (fmap (M:=Result) Some parsed)
  end.

(** [manifest_path.removesuffix('/artifact.json')]: a bare [artifact.json]
    keeps itself as its root. *)
Definition compile_package_entries (package_entries : entries_dict)
    (expected_identity : option ArtifactIdentity) (manifest_path : string) :
    py (Result NativeArtifactPackage) :=
  let missing := artifact_error "required file is missing: artifact.json" manifest_path in
  match dget "artifact.json" package_entries with
  | None => Ret missing
  | Some manifest_file =>
      if negb (is_file manifest_file) then Ret missing
      else
      parsed ← parse_artifact_manifest (se_content manifest_file) manifest_path;
      match parsed with
      | Err ds => Ret (Err ds)
      | Ok m =>
          let package_root := removesuffix "/artifact.json" manifest_path in
          let wrong_identity := match expected_identity with
                                | Some expected => negb (bool_decide (am_identity m = expected))
                                | None => false end in
          if wrong_identity
          then Ret (artifact_error ("manifest identity " +:+ identity_str (am_identity m)
                      +:+ " does not match package path "
                      +:+ match expected_identity with Some i => identity_str i | None => "None" end)
                      manifest_path)
          else match List.find (λ pe, outside_package pe.1) package_entries with
          | Some (path, _) =>
              Ret (artifact_error ("unexpected canonical package path: " +:+ path)
                     (if str_empty package_root then path else package_root +:+ "/" +:+ path))
          | None =>
              primary ← validate_primary_payload m package_entries manifest_path;
              checked ← match primary with
                        | Err ds => Ret (Err ds)
                        | Ok _ => package_setup m package_entries manifest_path
                        end;
              match checked with
              | Err ds => Ret (Err ds)
              | Ok setup_installer =>
                  provenance ← package_provenance package_entries package_root manifest_path;
                  match provenance with
                  | Err ds => Ret (Err ds)
                  | Ok provenance =>
                      digest ← payload_digest package_entries manifest_path;
                      match digest with
                      | Err ds => Ret (Err ds)
                      | Ok digest =>
                          manifest_json ← artifact_manifest_to_json m;
                          Ret (Ok (MkPackage _ m provenance (json_digest manifest_json) digest
                                     setup_installer))
                      end
                  end
              end
          end
      end
  end.

(** [compile_native_package]: the loop over the entries. *)
Fixpoint package_entries_from (snapshot_entries : list SnapshotEntry) (entries : entries_dict) :
    Result entries_dict :=
  match snapshot_entries with
  | [] => Ok entries
  | e :: rest =>
      let raw_path := path_str (se_path e) in
      if negb (canonical_path e)
      then artifact_error ("package path is not canonical: " +:+ repr raw_path) raw_path
      else if mem raw_path (dkeys entries)
      then artifact_error ("duplicate package path: " +:+ raw_path) raw_path
      else if is_unsafe_kind e
      then artifact_error ("canonical package forbids " +:+ entry_kind_value (se_kind e)
                           +:+ " entries: " +:+ raw_path) raw_path
      else if has_file_metadata e
      then artifact_error ("directory has file metadata: " +:+ raw_path) raw_path
      else package_entries_from rest (dset raw_path e entries)
  end.
Definition compile_native_package (entries : list SnapshotEntry)
    (expected_identity : option ArtifactIdentity) : py (Result NativeArtifactPackage) :=
  match package_entries_from entries [] with
  | Err ds => Ret (Err ds)
  | Ok package_entries => compile_package_entries package_entries expected_identity "artifact.json"
  end.

Definition load_package (entries : entries_dict) (c : candidate) : py (Result NativeArtifactPackage) :=
  let '(root, kind, name) := c in
  let base := path_str root +:+ "/" +:+ kind_value kind +:+ "/" +:+ name in
  compile_package_entries (relative_package_entries entries base) (Some (MkIdentity kind name))
    (base +:+ "/artifact.json").

(** * A whole source *)

(** The collections below a root, after those already found. *)
Definition load_collection (root : SafeRelativePath) (path : string) (e : SnapshotEntry)
    (found : list CollectionManifest) : py (Result (list CollectionManifest)) :=
  match under path root with
  | None | Some [] => Ret (Ok found)
  | Some (file :: rest) =>
      if is_directory e then Ret (Ok found)
      else if negb (bool_decide (rest = [])) || negb (endswith ".json" file)
      then Ret (tree_error COLLECTION_INVALID
                  ("collection files must be direct JSON children of " +:+ path_str root +:+ ": " +:+ path)
                  (Some path))
      else
        parsed ← parse_collection_manifest (se_content e) path;
        Ret (m ← parsed;
             let expected_name := removesuffix ".json" file in
             if negb (String.eqb (cm_name m) expected_name)
             then tree_error COLLECTION_INVALID
                    ("collection name " +:+ repr (cm_name m) +:+ " does not match " +:+ repr expected_name)
                    (Some path)
             else if mem (cm_name m) (map cm_name found)
             then tree_error COLLECTION_INVALID ("duplicate collection identity: " +:+ cm_name m) (Some path)
             else Ok (found ++ [m]))
  end.
Fixpoint load_collections_from (places : list (SafeRelativePath * (string * SnapshotEntry)))
    (found : list CollectionManifest) : py (Result (list CollectionManifest)) :=
  match places with
  | [] => Ret (Ok found)
  | (root, (path, e)) :: places =>
      next ← load_collection root path e found;
      match next with
      | Err ds => Ret (Err ds)
      | Ok found => load_collections_from places found
      end
  end.
Definition load_collections (entries : entries_dict) (m : SourceManifest) :
    py (Result (list CollectionManifest)) :=
  found ← load_collections_from
            (concat (map (λ root, map (pair root) entries) (sm_collection_roots m))) [];
  Ret (fmap (M:=Result) (sorted cm_name) found).

Definition compatibility_diagnostics (m : SourceManifest) (executable_version : SemVer)
    (available_capabilities : list Capability) : list Diagnostic :=
  let missing := cd_missing_required
                   (negotiate_capabilities (sm_required_capabilities m) [] available_capabilities) in
  (if allows (sm_requires_aart m) executable_version then []
   else [tree_diagnostic SOURCE_INCOMPATIBLE
           ("AART " +:+ semver_str executable_version +:+ " is outside source compatibility bounds")
           (Some "aart-source.json")])
  ++ (if bool_decide (missing = []) then []
      else [tree_diagnostic SOURCE_INCOMPATIBLE
              ("source requires unavailable capabilities: " +:+ join ", " (map cap_value missing))
              (Some "aart-source.json")]).

(** ** The dependency graph *)

Definition identity_of (p : NativeArtifactPackage) : ArtifactIdentity := am_identity (np_manifest p).
Definition by_identity (packages : list NativeArtifactPackage) :
    list (ArtifactIdentity * NativeArtifactPackage) :=
  dict_of (map (λ p, (identity_of p, p)) packages).

Definition untracked_error {A} (message : string) : Result A := tree_error ARTIFACT_INVALID message None.

(** A selector of a package, resolved among the packages. *)
Definition resolve_requirement (packages : list (ArtifactIdentity * NativeArtifactPackage))
    (referenced_origins : list (ArtifactIdentity * string)) (requiring : ArtifactIdentity)
    (selector : Protocol.ArtifactSelector) : Result ArtifactIdentity :=
  match dget (as_identity selector) packages with
  | None => dependency_scope_error ARTIFACT_INVALID requiring (as_identity selector)
              (dget (as_identity selector) referenced_origins)
  | Some dependency =>
      if match as_version selector with
         | Some bounds => negb (allows bounds (am_version (np_manifest dependency))) | None => false end
      then untracked_error (identity_str requiring +:+ " excludes available dependency "
                            +:+ identity_str (as_identity selector))
      else Ok (as_identity selector)
  end.
Definition declared_dependencies (packages : list NativeArtifactPackage)
    (referenced_origins : list (ArtifactIdentity * string)) :
    Result (list (ArtifactIdentity * list ArtifactIdentity)) :=
  items ← mapM (λ p,
    resolved ← mapM (resolve_requirement (by_identity packages) referenced_origins (identity_of p))
                 (am_requires (np_manifest p));
    Ok (identity_of p, sorted identity_str resolved)) packages;
  Ok (dict_of items).

(** [visit] of [_validate_declared_dependencies]: the identities visited so
    far, with [fuel] nested calls left before the interpreter's recursion limit. *)
Fixpoint visit (fuel : nat) (dependencies : list (ArtifactIdentity * list ArtifactIdentity))
    (identity : ArtifactIdentity) (trail visited : list ArtifactIdentity) :
    option (Result (list ArtifactIdentity)) :=
  match fuel with
  | O => None
  | S fuel =>
      if mem identity trail
      then Some (untracked_error ("artifact dependency cycle: "
                   +:+ join " -> " (map identity_str (trail ++ [identity]))))
      else if mem identity visited then Some (Ok visited)
      else
        (fix go (ids : list ArtifactIdentity) (visited : list ArtifactIdentity) :
            option (Result (list ArtifactIdentity)) :=
          match ids with
          | [] => Some (Ok (visited ++ [identity]))
          | dependency :: ids =>
              match visit fuel dependencies dependency (trail ++ [identity]) visited with
              | Some (Ok visited) => go ids visited
              | r => r
              end
          end) (default [] (dget identity dependencies)) visited
  end.
Fixpoint visit_all (fuel : nat) (dependencies : list (ArtifactIdentity * list ArtifactIdentity))
    (ids visited : list ArtifactIdentity) : option (Result (list ArtifactIdentity)) :=
  match ids with
  | [] => Some (Ok visited)
  | identity :: ids =>
      match visit fuel dependencies identity [] visited with
      | Some (Ok visited) => visit_all fuel dependencies ids visited
      | r => r
      end
  end.
Definition validate_declared_dependencies (frames : nat) (packages : list NativeArtifactPackage)
    (referenced_origins : list (ArtifactIdentity * string)) : py (Result unit) :=
  match declared_dependencies packages referenced_origins with
  | Err ds => Ret (Err ds)
  | Ok dependencies =>
      match visit_all frames dependencies (sorted identity_str (dkeys dependencies)) [] with
      | None => Raise RecursionError
      | Some (Ok _) => Ret (Ok tt)
      | Some (Err ds) => Ret (Err ds)
      end
  end.

(** The packages of the candidates, in order, identities distinct. *)
Fixpoint load_packages (entries : entries_dict) (candidates : list candidate)
    (packages : list NativeArtifactPackage) : py (Result (list NativeArtifactPackage)) :=
  match candidates with
  | [] => Ret (Ok packages)
  | c :: candidates =>
      package ← load_package entries c;
      match package with
      | Err ds => Ret (Err ds)
      | Ok package =>
          if mem (identity_of package) (map identity_of packages)
          then Ret (untracked_error ("duplicate artifact identity: "
                                     +:+ identity_str (identity_of package)))
          else load_packages entries candidates (packages ++ [package])
      end
  end.

(** [load_native_source] once the tree, its marker and its candidates are
    accepted. *)
Definition native_source_of (frames : nat) (entries : entries_dict) (m : SourceManifest)
    (candidates : list candidate) (referenced_origins : list (ArtifactIdentity * string)) :
    py (Result NativeSource) :=
  packages ← load_packages entries candidates [];
  match packages with
  | Err ds => Ret (Err ds)
  | Ok packages =>
      validated ← validate_declared_dependencies frames packages referenced_origins;
      match validated with
      | Err ds => Ret (Err ds)
      | Ok _ =>
          collections ← load_collections entries m;
          match collections with
          | Err ds => Ret (Err ds)
          | Ok collections =>
              manifest_json ← source_manifest_to_json m;
              Ret (Ok (MkNativeSource _ m (sorted (λ p, identity_str (identity_of p)) packages)
                         collections (json_digest manifest_json)))
          end
      end
  end.

Definition load_native_source (frames : nat) (snapshot : SourceSnapshot) (executable_version : SemVer)
    (available_capabilities : list Capability)
    (referenced_origins : list (ArtifactIdentity * string)) : py (Result NativeSource) :=
  let missing := tree_error SOURCE_MARKER_MISSING
                   "native source requires aart-source.json at the acquired tree root" None in
  match validated_entries snapshot with
  | Err ds => Ret (Err ds)
  | Ok entries =>
      match dget "aart-source.json" entries with
      | None => Ret missing
      | Some marker =>
          if negb (is_file marker) then Ret missing
          else
          parsed ← parse_source_manifest (se_content marker) "aart-source.json";
          match (m ← parsed;
                 _ ← validate_protocol_entry_kinds entries m;
                 match compatibility_diagnostics m executable_version available_capabilities with
                 | [] => candidates ← package_candidates entries m; Ok (m, candidates)
                 | diagnostics => raise_errors diagnostics
                 end) with
          | Err ds => Ret (Err ds)
          | Ok (m, candidates) => native_source_of frames entries m candidates referenced_origins
          end
      end
  end.
End tree.
