(* ===== verification/NativeTreeSpec.v ===== *)
(** What the loader of native sources promises: a source it accepts is complete:
    distinct packages whose requirements are met by packages of the same source,
    without a cycle. *)
From S2P Require Import Prelude PyText TextSearch Domain SemVer Json JsonParse Protocol Coordinates CompilerModel InstallSchema NativeSchema NativeTree.
From Stdlib Require Import Ascii.
Open Scope Z_scope.

(** * Walking a graph depth first *)

Section walk.
Context (dependencies : list (ArtifactIdentity * list ArtifactIdentity)).

Definition edge (x y : ArtifactIdentity) : Prop := y ∈ default [] (dget x dependencies).
(** Nothing below these identities recurs. *)
Definition grounded (visited : list ArtifactIdentity) : Prop :=
  Forall (Acc (λ y x, edge x y)) visited.
Hypothesis closed : ∀ x y, edge x y → y ∈ dkeys dependencies.

Lemma visit_spec fuel identity trail visited :
  (∀ x, x ∈ trail → tc edge x identity) → NoDup trail → trail ⊆ dkeys dependencies →
  identity ∈ dkeys dependencies → grounded visited →
  match visit fuel dependencies identity trail visited with
  | None => (fuel + length trail ≤ length dependencies)%nat
  | Some (Err _) => ∃ x, tc edge x x
  | Some (Ok visited') => visited ⊆ visited' ∧ identity ∈ visited' ∧ grounded visited'
  end.
Proof.
  revert identity trail visited. induction fuel as [|fuel IH]; intros identity trail visited Hpath Hn Hsub Hid Hg.
  { cbn. rewrite <-(length_fmap fst dependencies). by apply submseteq_length, NoDup_submseteq. }
  cbn [visit]. destruct (mem identity trail) eqn:Et.
  { apply mem_true in Et. cbn. exists identity. by apply Hpath. }
  apply mem_false in Et. destruct (mem identity visited) eqn:Ev; [by apply mem_true in Ev|].
  assert (∀ ids seen, (∀ y, y ∈ ids → edge identity y) → visited ⊆ seen → grounded seen →
    (∀ y, edge identity y → y ∈ ids ∨ y ∈ seen) →
    match (fix go (ids visited : list ArtifactIdentity) {struct ids} :=
             match ids with
             | [] => Some (Ok (visited ++ [identity]))
             | dependency :: ids =>
                 match visit fuel dependencies dependency (trail ++ [identity]) visited with
                 | Some (Ok visited) => go ids visited
                 | r => r
                 end
             end) ids seen with
    | None => (S fuel + length trail ≤ length dependencies)%nat
    | Some (Err _) => ∃ x, tc edge x x
    | Some (Ok visited') => visited ⊆ visited' ∧ identity ∈ visited' ∧ grounded visited'
    end) as Hgo.
  { clear Hg Ev. induction ids as [|y ids IHids]; intros seen Hin Hvs Hg Hcover.
    - split; [set_solver|]. split; [set_solver|]. apply Forall_app. split; [done|].
      apply Forall_singleton. constructor. intros y Hy. destruct (Hcover y Hy) as [[]%elem_of_nil|Hs].
      unfold grounded in Hg. rewrite Forall_forall in Hg. auto.
    - assert (edge identity y) as Hy by (apply Hin; left).
      assert (match visit fuel dependencies y (trail ++ [identity]) seen with
              | None => (fuel + length (trail ++ [identity]) ≤ length dependencies)%nat
              | Some (Err _) => ∃ x, tc edge x x
              | Some (Ok visited') => seen ⊆ visited' ∧ y ∈ visited' ∧ grounded visited'
              end) as IHy.
      { apply IH; [| |set_solver|by eapply closed|done].
        - intros x [Hx| ->%list_elem_of_singleton]%elem_of_app; [|by apply tc_once].
          eapply tc_r; [by apply Hpath|done].
        - apply NoDup_app. split; [done|]. split; [|by apply NoDup_singleton].
          by intros x Hx ->%list_elem_of_singleton. }
      destruct (visit _ _ _ _ _) as [[seen'|ds]|]; [|done|rewrite length_app in IHy; cbn in IHy; lia]. destruct IHy as (Hs & Hys & Hg').
      apply IHids; [set_solver|set_solver|done|].
      intros z Hz. destruct (Hcover z Hz) as [[->|?]%elem_of_cons|?]; [by right|by left|right; set_solver]. }
  apply Hgo; [done|done|done|by left].
Qed.

Lemma visit_all_spec fuel ids visited :
  ids ⊆ dkeys dependencies → grounded visited →
  match visit_all fuel dependencies ids visited with
  | None => (fuel ≤ length dependencies)%nat
  | Some (Err _) => ∃ x, tc edge x x
  | Some (Ok visited') => visited ⊆ visited' ∧ ids ⊆ visited' ∧ grounded visited'
  end.
Proof.
  intros Hids. revert visited. induction ids as [|identity ids IH]; intros visited Hg; cbn [visit_all].
  - split_and!; [done|set_solver|done].
  - pose proof (visit_spec fuel identity [] visited) as Hv.
    assert (match visit fuel dependencies identity [] visited with
            | None => (fuel + 0 ≤ length dependencies)%nat
            | Some (Err _) => ∃ x, tc edge x x
            | Some (Ok visited') => visited ⊆ visited' ∧ identity ∈ visited' ∧ grounded visited'
            end) as Hid.
    { apply Hv; [by intros x []%elem_of_nil|constructor|set_solver|set_solver|done]. }
    clear Hv. destruct (visit _ _ _ _ _) as [[seen|ds]|]; [|done|lia]. destruct Hid as (Hs & Hi & Hg').
    specialize (IH ltac:(set_solver) seen Hg').
    destruct (visit_all _ _ _ _) as [[seen'|ds]|]; [|done..]. destruct IH as (? & ? & ?). set_solver.
Qed.

Lemma edge_key x y : tc edge x y → x ∈ dkeys dependencies.
Proof.
  assert (∀ z, edge x z → x ∈ dkeys dependencies) as He.
  { intros z Hz. unfold edge in Hz. destruct (dget x dependencies) eqn:E; [|by apply elem_of_nil in Hz].
    apply dget_is_Some. eauto. }
  intros Ht. inversion Ht; subst; eauto.
Qed.

(** The walk reaches the recursion limit only if that is within the size of the
    graph, and rejects exactly the graphs with a cycle. *)
Lemma walk_exact (frames : nat) (key : ArtifactIdentity → string) :
  match visit_all frames dependencies (sorted key (dkeys dependencies)) [] with
  | None => (frames ≤ length dependencies)%nat
  | Some (Err _) => ∃ x, tc edge x x
  | Some (Ok _) => ∀ x, ¬ tc edge x x
  end.
Proof.
  pose proof (visit_all_spec frames (sorted key (dkeys dependencies)) []) as Hv.
  assert (sorted key (dkeys dependencies) ⊆ dkeys dependencies) as Hsub.
  { intros x. by rewrite elem_of_sorted. }
  specialize (Hv Hsub ltac:(by constructor)).
  destruct (visit_all _ _ _ _) as [[seen|ds]|]; [|done..]. destruct Hv as (_ & Hall & Hg).
  intros x Hx. pose proof (edge_key _ _ Hx) as Hk. revert Hx. apply acc_no_cycle.
  unfold grounded in Hg. rewrite Forall_forall in Hg. apply Hg, Hall. by apply elem_of_sorted.
Qed.
End walk.

(** * The packages of a source *)

Lemma mapM_all_Ok {A B} (f : A → Result B) l :
  (∀ x, x ∈ l → ∃ y, f x = Ok y) → ∃ k, mapM f l = Ok k.
Proof.
  induction l as [|x l IH]; intros Hall; [by eexists|]. cbn.
  destruct (Hall x ltac:(left)) as [y ->]. cbn. destruct IH as [k ->]; [|by eexists].
  intros z Hz. apply Hall. by right.
Qed.

(** The requirements of items resolved one by one: the edges between them. *)
Section edges.
Context {P : Type} (ident : P → ArtifactIdentity) (requirements : P → list Protocol.ArtifactSelector)
  (resolve : ArtifactIdentity → Protocol.ArtifactSelector → Result ArtifactIdentity)
  (met : Protocol.ArtifactSelector → Prop).
Hypothesis resolved : ∀ requiring selector y,
  resolve requiring selector = Ok y ↔ y = as_identity selector ∧ met selector.

Definition edge_item (p : P) : Result (ArtifactIdentity * list ArtifactIdentity) :=
  ids ← mapM (resolve (ident p)) (requirements p); Ok (ident p, sorted identity_str ids).

Lemma edge_item_Ok p kv : edge_item p = Ok kv →
  Forall met (requirements p) ∧ kv.1 = ident p ∧ ∀ y, y ∈ kv.2 ↔ y ∈ map as_identity (requirements p).
Proof.
  unfold edge_item. intros Hkv. destruct (mapM _ _) as [ids|] eqn:Er; [|done]. injection Hkv as <-.
  apply mapM_Ok in Er. cbn. split_and!; [|done|].
  - apply Forall_forall. intros selector [i Hi]%list_elem_of_lookup.
    destruct (Forall2_lookup_l _ _ _ _ _ Er Hi) as (y & _ & Hy). by apply resolved in Hy as [_ ?].
  - intros y. rewrite elem_of_sorted, list_elem_of_fmap. split.
    + intros [i Hi]%list_elem_of_lookup. destruct (Forall2_lookup_r _ _ _ _ _ Er Hi) as (selector & Hs & Hy).
      apply resolved in Hy as [-> _]. eauto using list_elem_of_lookup_2.
    + intros (selector & -> & [i Hi]%list_elem_of_lookup).
      destruct (Forall2_lookup_l _ _ _ _ _ Er Hi) as (y & Hl & Hy).
      apply resolved in Hy as [-> _]. eauto using list_elem_of_lookup_2.
Qed.

Lemma edge_items_keys ps kvs : Forall2 (λ p kv, edge_item p = Ok kv) ps kvs → kvs.*1 = map ident ps.
Proof.
  intros Hps. induction Hps as [|p kv ps kvs Hkv _ IH]; [done|]. cbn.
  destruct (edge_item_Ok p kv Hkv) as (_ & -> & _). by rewrite <-IH.
Qed.

Lemma edges_spec items :
  NoDup (map ident items) →
  match mapM edge_item items with
  | Err _ => ¬ ∀ p, p ∈ items → Forall met (requirements p)
  | Ok found =>
      (∀ p, p ∈ items → Forall met (requirements p)) ∧ dkeys (dict_of found) = map ident items
      ∧ ∀ x y, edge (dict_of found) x y ↔
          ∃ p, p ∈ items ∧ ident p = x ∧ y ∈ map as_identity (requirements p)
  end.
Proof.
  intros Hn. destruct (mapM edge_item items) as [found|ds] eqn:E.
  - apply mapM_Ok in E. pose proof (edge_items_keys _ _ E) as Ek. rewrite dict_of_fresh by by rewrite Ek.
    split_and!; [|done|].
    + intros p [i Hi]%list_elem_of_lookup. destruct (Forall2_lookup_l _ _ _ _ _ E Hi) as (kv & _ & Hkv).
      by apply edge_item_Ok in Hkv as [? _].
    + intros x y. unfold edge. split.
      * destruct (dget x found) as [ys|] eqn:Eg; [|by intros []%elem_of_nil].
        cbn. intros Hy. apply dget_elem_of, list_elem_of_lookup in Eg as [i Hi].
        destruct (Forall2_lookup_r _ _ _ _ _ E Hi) as (p & Hp & Hkv). apply list_elem_of_lookup_2 in Hp.
        destruct (edge_item_Ok _ _ Hkv) as (_ & Hx & Hys). exists p. split; [done|]. split; [done|]. by apply Hys.
      * intros (p & [i Hi]%list_elem_of_lookup & <- & Hs).
        destruct (Forall2_lookup_l _ _ _ _ _ E Hi) as ([k ys] & Hkv & Hok).
        destruct (edge_item_Ok _ _ Hok) as (_ & Hx & Hys). cbn in Hx, Hys. subst k.
        rewrite (elem_of_dget (ident p) ys); [by apply Hys| |by apply list_elem_of_lookup_2 in Hkv].
        unfold dkeys. by rewrite Ek.
  - intros Hm. destruct (mapM_all_Ok edge_item items) as [found Hi]; [|congruence].
    intros p Hp. unfold edge_item. destruct (mapM_all_Ok (resolve (ident p)) (requirements p)) as [ys ->];
      [|by eexists].
    intros selector Hs. exists (as_identity selector). apply resolved. split; [done|].
    specialize (Hm p Hp). rewrite Forall_forall in Hm. by apply Hm.
Qed.
End edges.

Section packages.
Context `{UnicodeData} `{DecodeErrors} `{SetupProtocol}.

(** A package the requirement accepts. *)
Definition meets (selector : Protocol.ArtifactSelector) (q : NativeArtifactPackage) : Prop :=
  identity_of q = as_identity selector
  ∧ ∀ bounds, as_version selector = Some bounds → allows bounds (am_version (np_manifest q)) = true.
Definition requires_met (packages : list NativeArtifactPackage) : Prop :=
  ∀ p selector, p ∈ packages → selector ∈ am_requires (np_manifest p) →
    ∃ q, q ∈ packages ∧ meets selector q.
(** [p] requires [q]. *)
Definition requires_edge (packages : list NativeArtifactPackage) (x y : ArtifactIdentity) : Prop :=
  ∃ p, p ∈ packages ∧ identity_of p = x ∧ ∃ selector, selector ∈ am_requires (np_manifest p)
       ∧ as_identity selector = y.

Lemma by_identity_get packages x p :
  NoDup (map identity_of packages) →
  dget x (by_identity packages) = Some p ↔ p ∈ packages ∧ identity_of p = x.
Proof.
  intros Hn. unfold by_identity.
  assert ((map (λ p, (identity_of p, p)) packages).*1 = map identity_of packages) as Ek
    by (rewrite <-list_fmap_compose; done).
  rewrite dict_of_fresh by by rewrite Ek. split.
  - intros (q & [= -> ->] & Hq)%dget_elem_of%list_elem_of_fmap. done.
  - intros [Hp <-]. apply elem_of_dget; [unfold dkeys; by rewrite Ek|].
    apply list_elem_of_fmap. eauto.
Qed.

Lemma resolve_requirement_Ok packages origins requiring selector y :
  NoDup (map identity_of packages) →
  resolve_requirement (by_identity packages) origins requiring selector = Ok y ↔
  y = as_identity selector ∧ ∃ q, q ∈ packages ∧ meets selector q.
Proof.
  intros Hn. unfold resolve_requirement, meets.
  destruct (dget (as_identity selector) (by_identity packages)) as [q|] eqn:Eq.
  - apply by_identity_get in Eq as [Hq Hi]; [|done].
    assert (∀ q', q' ∈ packages → identity_of q' = as_identity selector → q' = q) as Huniq.
    { intros q' Hq' Hi'. pose proof (proj2 (by_identity_get packages _ q Hn) (conj Hq Hi)) as E1.
      pose proof (proj2 (by_identity_get packages _ q' Hn) (conj Hq' Hi')) as E2. congruence. }
    destruct (as_version selector) as [bounds|].
    + destruct (allows bounds (am_version (np_manifest q))) eqn:Ea; cbn.
      * split; [intros [= <-]; split; [done|]; exists q; naive_solver|by intros [-> _]].
      * split; [done|]. intros (_ & q' & Hq' & Hi' & Hb). rewrite (Huniq q') in Hb by done.
        specialize (Hb bounds eq_refl). congruence.
    + cbn. split; [intros [= <-]; split; [done|]; by exists q|by intros [-> _]].
  - split; [done|]. intros (_ & q & Hq & Hi & _).
    by rewrite (proj2 (by_identity_get packages _ q Hn)) in Eq.
Qed.

Definition acyclic (packages : list NativeArtifactPackage) : Prop :=
  ∀ x, ¬ tc (requires_edge packages) x x.

Lemma declared_dependencies_spec packages origins :
  NoDup (map identity_of packages) →
  match declared_dependencies packages origins with
  | Err _ => ¬ requires_met packages
  | Ok dependencies =>
      requires_met packages ∧ dkeys dependencies = map identity_of packages
      ∧ ∀ x y, edge dependencies x y ↔ requires_edge packages x y
  end.
Proof.
  intros Hn.
  pose proof (edges_spec identity_of (λ p, am_requires (np_manifest p))
    (resolve_requirement (by_identity packages) origins)
    (λ selector, ∃ q, q ∈ packages ∧ meets selector q)
    (λ r s y, resolve_requirement_Ok packages origins r s y Hn) packages Hn) as He.
  assert (requires_met packages ↔ ∀ p, p ∈ packages →
            Forall (λ selector, ∃ q, q ∈ packages ∧ meets selector q) (am_requires (np_manifest p))) as Hm.
  { unfold requires_met. setoid_rewrite Forall_forall. naive_solver. }
  unfold declared_dependencies.
  change (mapM _ packages) with
    (mapM (edge_item identity_of (λ p, am_requires (np_manifest p))
       (resolve_requirement (by_identity packages) origins)) packages).
  destruct (mapM _ packages) as [found|ds]; cbn [mbind result_bind]; rewrite Hm; [|done].
  destruct He as (? & ? & He). split_and!; [done|done|]. intros x y. rewrite He. unfold requires_edge.
  setoid_rewrite list_elem_of_fmap. naive_solver.
Qed.

(** Validation accepts exactly the packages whose requirements are met inside
    the source and do not recur, within the recursion limit. *)
Lemma validate_declared_dependencies_exact frames packages origins :
  NoDup (map identity_of packages) →
  match validate_declared_dependencies frames packages origins with
  | Ret (Ok _) => requires_met packages ∧ acyclic packages
  | Ret (Err _) => ¬ (requires_met packages ∧ acyclic packages)
  | Raise e => e = RecursionError ∧ (frames ≤ length packages)%nat
  end.
Proof.
  intros Hn. pose proof (declared_dependencies_spec packages origins Hn) as Hd.
  unfold validate_declared_dependencies. destruct (declared_dependencies _ _) as [dependencies|ds]; [|tauto].
  destruct Hd as (Hmet & Hk & He).
  assert (∀ x, tc (edge dependencies) x x ↔ tc (requires_edge packages) x x) as Ht.
  { intros x. split; (eapply (tc_congruence id)); intros; cbn; by apply He. }
  pose proof (walk_exact dependencies) as Hw.
  assert (∀ x y, edge dependencies x y → y ∈ dkeys dependencies) as Hclosed.
  { intros x y (p & Hp & _ & selector & Hs & <-)%He. rewrite Hk.
    destruct (Hmet p selector Hp Hs) as (q & Hq & <- & _). by apply list_elem_of_fmap_2. }
  specialize (Hw Hclosed frames identity_str).
  destruct (visit_all _ _ _ _) as [[seen|ds]|].
  - split; [done|]. intros x. by rewrite <-Ht.
  - destruct Hw as [x Hx]. intros [_ Ha]. apply (Ha x). by apply Ht.
  - split; [done|]. etransitivity; [exact Hw|]. pose proof (f_equal length Hk) as Hl.
    unfold dkeys in Hl. rewrite !length_fmap in Hl. lia.
Qed.

(** * From the snapshot to its packages *)

Lemma validated_from_shape rest entries r :
  validated_from rest entries = Ok r → r = entries ++ map (λ e, (path_str (se_path e), e)) rest.
Proof.
  revert entries. induction rest as [|e rest IH]; intros entries; cbn [validated_from].
  { intros [= ->]. by rewrite app_nil_r. }
  destruct (negb (canonical_path e)); [done|]. destruct (mem _ _) eqn:Em; [done|].
  destruct (has_file_metadata e); [done|]. intros ->%IH.
  apply mem_false in Em. rewrite dset_fresh by done. by rewrite <-app_assoc.
Qed.

Lemma mapM_concat {A B} (f : A → Result (list B)) l k x :
  mapM f l = Ok k → x ∈ concat k ↔ ∃ y xs, y ∈ l ∧ f y = Ok xs ∧ x ∈ xs.
Proof.
  intros Hm%mapM_Ok. induction Hm as [|y xs l k Hy _ IH]; cbn.
  - split; [by intros []%elem_of_nil|]. by intros (? & ? & []%elem_of_nil & _).
  - rewrite elem_of_app, IH. split.
    + intros [Hx|(y' & xs' & ? & ? & ?)]; [exists y, xs|exists y', xs']; set_solver.
    + intros (y' & xs' & [->|Hy']%elem_of_cons & Hf & Hx); [left; congruence|right; eauto].
Qed.

(** The identity of a package directory: its path is [<root>/<kind>/<name>/...]. *)
Definition declares (m : SourceManifest) (snapshot : SourceSnapshot) (i : ArtifactIdentity) : Prop :=
  ∃ root e rest, root ∈ sm_artifact_roots m ∧ e ∈ ss_entries snapshot
    ∧ under (path_str (se_path e)) root = Some (kind_value (id_kind i) :: id_name i :: rest).

Lemma package_kind_Some raw kind :
  package_kind raw = Some kind ↔ kind_value kind = raw ∧ kind ≠ Collection.
Proof.
  unfold package_kind. split.
  - intros [Hin Hk]%List.find_some. apply String.eqb_eq in Hk. split; [done|]. intros ->.
    by repeat destruct Hin as [Hin|Hin].
  - intros [<- Hk]. by destruct kind.
Qed.

Lemma entry_candidate_spec root path e cs c :
  entry_candidate root path e = Ok cs →
  c ∈ cs ↔ c.1.1 = root ∧ c.1.2 ≠ Collection
           ∧ ∃ rest, under path root = Some (kind_value c.1.2 :: c.2 :: rest).
Proof.
  unfold entry_candidate. destruct (under path root) as [[|t [|name rest]]|].
  1,4: intros [= <-]; split; [by intros []%elem_of_nil|by intros (_ & _ & ? & [=])].
  - destruct (is_directory e); [|done]. intros [= <-].
    split; [by intros []%elem_of_nil|by intros (_ & _ & ? & [=])].
  - destruct (package_kind t) as [kind|] eqn:Ek; [|done]. intros [= <-].
    apply package_kind_Some in Ek as [<- Hk]. rewrite list_elem_of_singleton. split.
    + intros ->. cbn. eauto.
    + destruct c as [[root' kind'] name']. cbn. intros (-> & ? & rest' & [= Hv -> ->]).
      by rewrite (kind_value_inj _ _ Hv).
Qed.

Lemma package_candidates_spec snapshot m entries candidates :
  validated_entries snapshot = Ok entries → package_candidates entries m = Ok candidates →
  ∀ i, declares m snapshot i ∧ id_kind i ≠ Collection
       ↔ ∃ root, (root, id_kind i, id_name i) ∈ candidates.
Proof.
  intros Hv%validated_from_shape. cbn in Hv. unfold package_candidates.
  destruct (mapM _ _) as [found|] eqn:Ef; [|done]. cbn [mbind result_bind].
  intros Hc i.
  assert (∀ c, c ∈ candidates ↔ c ∈ concat (concat found)) as Hel.
  { intros c. destruct (concat (concat found)) eqn:E; [done|]. injection Hc as <-.
    by rewrite elem_of_sorted_set. }
  setoid_rewrite Hel. clear Hel Hc.
  assert (∀ c, c ∈ concat (concat found) ↔
            ∃ root pe, root ∈ sm_artifact_roots m ∧ pe ∈ entries ∧ c.1.1 = root ∧ c.1.2 ≠ Collection
            ∧ ∃ rest, under pe.1 root = Some (kind_value c.1.2 :: c.2 :: rest)) as Hf.
  { intros c. apply mapM_Ok in Ef. induction Ef as [|root found1 roots found' Hr _ IH]; cbn.
    - split; [by intros []%elem_of_nil|by intros (? & ? & []%elem_of_nil & _)].
    - rewrite concat_app, elem_of_app, IH, (mapM_concat _ _ _ _ Hr). split.
      + intros [(pe & cs & Hpe & Hcs & Hin)|(root' & pe & ? & ?)]; [|exists root', pe; set_solver].
        apply (entry_candidate_spec _ _ _ _ c) in Hcs. exists root, pe. set_solver.
      + intros (root' & pe & [->|Hroot]%elem_of_cons & Hpe & Hrest); [left|right; eauto 10].
        apply mapM_Ok in Hr. apply list_elem_of_lookup in Hpe as [k Hk].
        destruct (Forall2_lookup_l _ _ _ _ _ Hr Hk) as (cs & _ & Hcs).
        exists pe, cs. split; [by eapply list_elem_of_lookup_2|]. split; [done|].
        by apply (entry_candidate_spec _ _ _ _ c Hcs). }
  split.
  - intros [(root & e & rest & Hroot & He & Hu) Hk]. exists root. apply Hf.
    exists root, (path_str (se_path e), e). subst entries. cbn. split_and!; [done| |done..|eauto].
    by apply (list_elem_of_fmap_2 (λ e, (path_str (se_path e), e))).
  - intros (root & (root' & pe & Hroot & Hpe & Hr & Hk & rest & Hu)%Hf). cbn in *. subst root' entries.
    split; [|done]. apply list_elem_of_fmap in Hpe as (e & -> & He). by exists root, e, rest.
Qed.

Lemma compile_package_entries_identity entries expected manifest_path p :
  compile_package_entries entries (Some expected) manifest_path = Ret (Ok p) → identity_of p = expected.
Proof.
  unfold compile_package_entries. destruct (dget _ _) as [e|]; [|done].
  destruct (negb (is_file e)); [done|].
  destruct (parse_artifact_manifest _ _) as [[m|]|]; cbn [mbind py_bind]; [|done..].
  destruct (bool_decide_reflect (am_identity m = expected)) as [Hi|]; cbn [negb]; [|done].
  destruct (List.find _ _) as [[? ?]|]; [done|].
  destruct (validate_primary_payload _ _ _) as [primary|]; [|done].
  cbn [mbind py_bind].
  destruct (match primary with Ok _ => _ | Err _ => _ end) as [[installer|]|];
    cbn [mbind py_bind]; [|done..].
  destruct (package_provenance _ _ _) as [[provenance|]|]; cbn [mbind py_bind]; [|done..].
  destruct (payload_digest _ _) as [[digest|]|]; cbn [mbind py_bind]; [|done..].
  destruct (artifact_manifest_to_json m); [|done]. by intros [= <-].
Qed.

Lemma load_packages_spec entries candidates packages r :
  load_packages entries candidates packages = Ret (Ok r) →
  NoDup (map identity_of packages) →
  NoDup (map identity_of r)
  ∧ map identity_of r = map identity_of packages ++ map (λ c, MkIdentity c.1.2 c.2) candidates.
Proof.
  revert packages. induction candidates as [|[[root kind] name] candidates IH]; intros packages;
    cbn [load_packages].
  { intros [= ->] Hn. by rewrite app_nil_r. }
  destruct (load_package entries _) as [[p|]|] eqn:Ep; cbn [mbind py_bind]; [|done..].
  apply compile_package_entries_identity in Ep.
  destruct (mem (identity_of p) _) eqn:Em; [done|]. apply mem_false in Em. intros Hr Hn.
  destruct (IH _ Hr) as [Hn' E].
  { rewrite map_app. apply NoDup_app. split; [done|]. split; [|apply NoDup_singleton].
    by intros x Hx ->%list_elem_of_singleton. }
  split; [done|]. by rewrite E, map_app, <-app_assoc; cbn; rewrite Ep.
Qed.

(** What an accepted source promises of its marker, its tree and its packages. *)
Record complete_source (snapshot : SourceSnapshot) (executable_version : SemVer)
    (available : list Capability) (source : NativeSource) : Prop := {
  cs_marker : ∃ marker, marker ∈ ss_entries snapshot ∧ path_str (se_path marker) = "aart-source.json"
              ∧ se_kind marker = SFILE
              ∧ parse_source_manifest (se_content marker) "aart-source.json" = Ret (Ok (ns_manifest source));
  cs_version : allows (sm_requires_aart (ns_manifest source)) executable_version = true;
  cs_distinct : NoDup (map identity_of (ns_artifacts source));
  cs_packages : ∀ i, i ∈ map identity_of (ns_artifacts source)
                ↔ declares (ns_manifest source) snapshot i ∧ id_kind i ≠ Collection;
  cs_requires : requires_met (ns_artifacts source);
  cs_acyclic : acyclic (ns_artifacts source)
}.

Lemma native_source_of_spec frames entries m candidates origins source :
  native_source_of frames entries m candidates origins = Ret (Ok source) →
  ns_manifest source = m ∧ NoDup (map identity_of (ns_artifacts source))
  ∧ map identity_of (ns_artifacts source) ≡ₚ map (λ c, MkIdentity c.1.2 c.2) candidates
  ∧ requires_met (ns_artifacts source) ∧ acyclic (ns_artifacts source).
Proof.
  unfold native_source_of. destruct (load_packages _ _ _) as [[packages|]|] eqn:Ep; [|done..].
  cbn [mbind py_bind]. apply load_packages_spec in Ep as [Hn Hi]; [|constructor].
  pose proof (validate_declared_dependencies_exact frames packages origins Hn) as Hv.
  destruct (validate_declared_dependencies _ _ _) as [[[]|]|]; cbn [mbind py_bind]; [|done..].
  destruct (load_collections entries m) as [[collections|]|]; cbn [mbind py_bind]; [|done..].
  destruct (source_manifest_to_json m); [|done]. cbn [mbind py_bind]. intros [= <-].
  cbn [ns_manifest ns_artifacts].
  pose proof (sorted_perm (λ p, identity_str (identity_of p)) packages) as Hp.
  pose proof (Permutation_map identity_of Hp) as Hpm. destruct Hv as [Hmet Hacyclic].
  split_and!; [done|by rewrite Hpm|by rewrite Hpm, Hi| |].
  - intros p selector Hin Hs. rewrite Hp in Hin. destruct (Hmet p selector Hin Hs) as (q & Hq & ?).
    exists q. by rewrite Hp.
  - intros x Hx. apply (Hacyclic x). eapply (tc_congruence id); [|exact Hx].
    intros y z (p & Hin & ? & ?). exists p. by rewrite <-Hp.
Qed.

Lemma compatibility_diagnostics_nil m executable_version available :
  compatibility_diagnostics m executable_version available = [] →
  allows (sm_requires_aart m) executable_version = true.
Proof. unfold compatibility_diagnostics. by destruct (allows _ _). Qed.

Lemma load_native_source_accepted frames snapshot executable_version available origins source :
  load_native_source frames snapshot executable_version available origins = Ret (Ok source) →
  complete_source snapshot executable_version available source.
Proof.
  unfold load_native_source. destruct (validated_entries snapshot) as [entries|] eqn:Ev; [|done].
  destruct (dget _ entries) as [marker|] eqn:Em; [|done].
  destruct (is_file marker) eqn:Ef; [cbn [negb]|done].
  destruct (parse_source_manifest _ _) as [[m|]|] eqn:Ep; cbn [mbind py_bind result_bind]; [|done..].
  destruct (validate_protocol_entry_kinds _ _); cbn [mbind result_bind]; [|done].
  destruct (compatibility_diagnostics _ _ _) eqn:Ec; [|done].
  destruct (package_candidates entries m) as [candidates|] eqn:Ek; cbn [mbind result_bind]; [|done].
  intros (<- & Hn & Hi & Hmet & Hacyclic)%native_source_of_spec.
  pose proof (package_candidates_spec _ _ _ _ Ev Ek) as Hc.
  split; [|by eapply compatibility_diagnostics_nil|exact Hn| |exact Hmet|exact Hacyclic].
  - apply validated_from_shape in Ev. cbn in Ev. subst entries.
    apply dget_elem_of, list_elem_of_fmap in Em as (e & [= Hpath ->] & He).
    exists e. unfold is_file in Ef. apply bool_decide_eq_true in Ef.
    split_and!; [exact He|by symmetry|exact Ef|exact Ep].
  - intros i. rewrite Hi, Hc. split.
    + intros ([[root kind] name] & -> & Hin)%list_elem_of_fmap. by exists root.
    + intros [root Hin]. destruct i as [kind name].
      by apply (list_elem_of_fmap_2 (λ c : candidate, MkIdentity c.1.2 c.2)) in Hin.
Qed.

(** C37: a native source that the loader accepts is whole: its manifest is the
    one of the marker file and admits the running version, its packages are the
    package directories of the tree under the declared roots, each once, every
    requirement is met by a package of the same source whose version the
    requirement allows, and no package requires itself through others.  The
    check of the requirements accepts exactly such packages and ends: it raises
    only at the recursion limit, and only if that is at most the number of
    packages.  (The parsers before it may raise, see
    [unhashable_input_type] of the recipes.) *)
Theorem load_native_source_complete frames snapshot executable_version available origins :
  match load_native_source frames snapshot executable_version available origins with
  | Ret (Ok source) => complete_source snapshot executable_version available source
  | _ => True
  end ∧
  ∀ packages, NoDup (map identity_of packages) →
    match validate_declared_dependencies frames packages origins with
    | Ret (Ok _) => requires_met packages ∧ acyclic packages
    | Ret (Err _) => ¬ (requires_met packages ∧ acyclic packages)
    | Raise e => e = RecursionError ∧ (frames ≤ length packages)%nat
    end.
Proof.
  split; [|intros packages; apply validate_declared_dependencies_exact].
  destruct (load_native_source _ _ _ _ _) as [[source|]|] eqn:E; [|done..].
  by eapply load_native_source_accepted.
Qed.
End packages.

(** A source of two packages, one of which requires the other; [b] may be any
    further requirement of the second. *)
Definition sample_file (path content : string) : SnapshotEntry :=
  MkSnapshotEntry (MkPath (split_on "/" path)) SFILE content false.
Definition sample_memory (name : string) (requires : list JsonValue) : string :=
  canonical_json_bytes (JsonObject
    [("compatibility", JsonObject [("platforms", JsonArray [JStr "linux"]);
                                   ("profiles", JsonArray [JStr "claude"])]);
     ("install", JsonObject [("effects", JsonArray [JStr "managed-block"]);
                             ("modes", JsonArray [JStr "copy"]); ("scopes", JsonArray [JStr "project"])]);
     ("name", JStr name);
     ("payload", JsonObject [("format", JStr "aart-memory-v1"); ("root", JStr "payload")]);
     ("requires", JsonArray requires);
     ("schema_version", JInt 1); ("summary", JStr "Notes"); ("type", JStr "memory");
     ("version", JStr "1.0.0")]).
Definition sample_source_manifest : string :=
  canonical_json_bytes (JsonObject
    [("artifact_roots", JsonArray [JStr "artifacts"]); ("display_name", JStr "Team");
     ("protocol_version", JInt 1); ("required_capabilities", JsonArray []);
     ("requires_aart", JsonObject [("min_inclusive", JStr "1.0.0")]);
     ("schema_version", JInt 1); ("source_id", JStr "team")]).
Definition sample_requirement (name : string) : JsonValue :=
  JsonObject [("name", JStr name); ("type", JStr "memory")].
Definition sample_tree (back : list JsonValue) : SourceSnapshot :=
  MkSnapshot LOCAL
    [sample_file "aart-source.json" sample_source_manifest;
     sample_file "artifacts/memory/one/artifact.json" (sample_memory "one" [sample_requirement "two"]);
     sample_file "artifacts/memory/one/payload/ONE.md" "One";
     sample_file "artifacts/memory/two/artifact.json" (sample_memory "two" back);
     sample_file "artifacts/memory/two/payload/TWO.md" "Two"].
Definition no_setup : SetupProtocol := {|
  SetupInstaller := Empty_set; si_platforms s := match s with end; si_manual_path s := match s with end;
  custom_entrypoint_name _ := Ret (inl "no recipe"); parse_installer _ _ _ _ := Ret (inl "no recipe");
  has_manual_setup_header _ := false; planned_capabilities s := match s with end |}.
Definition sample_load (back : list JsonValue) :=
  @load_native_source ascii_unicode plain_decode_errors no_setup 100 (sample_tree back)
    (MkSemVer 1 2 0 [] []) [] [].

(** The identities of an accepted source, or the messages of the refusal. *)
Definition sample_outcome (back : list JsonValue) : option (list string + list string) :=
  match sample_load back with
  | Ret (Ok source) => Some (inl (map (λ p, identity_str (identity_of p)) (ns_artifacts source)))
  | Ret (Err ds) => Some (inr (map d_message ds))
  | _ => None
  end.
Example sample_source_accepted : sample_outcome [] = Some (inl ["memory/one"; "memory/two"]).
Proof. by vm_compute. Qed.
Example sample_cycle_refused :
  sample_outcome [sample_requirement "one"]
  = Some (inr ["artifact dependency cycle: memory/one -> memory/two -> memory/one"]).
Proof. by vm_compute. Qed.
(** With fewer nested calls than the chain needs, loading raises. *)
Example sample_recursion_limit :
  @load_native_source ascii_unicode plain_decode_errors no_setup 1 (sample_tree []) (MkSemVer 1 2 0 [] []) [] []
  = Raise RecursionError.
Proof. by vm_compute. Qed.

(** The packages of the accepted source pass the check again. *)
Definition sample_packages :=
  match sample_load [] with Ret (Ok source) => ns_artifacts source | _ => [] end.
Lemma load_native_source_complete_witness :
  NoDup (map identity_of sample_packages)
  ∧ match @validate_declared_dependencies no_setup 100 sample_packages [] with
    | Ret (Ok _) => @requires_met no_setup sample_packages
                    ∧ @acyclic no_setup sample_packages
    | Ret (Err _) => ¬ (@requires_met no_setup sample_packages
                    ∧ @acyclic no_setup sample_packages)
    | Raise e => e = RecursionError ∧ (100 ≤ length sample_packages)%nat
    end.
Proof.
  assert (NoDup (map identity_of sample_packages)) as Hn by (apply has_dups_false; vm_compute; reflexivity).
  split; [exact Hn|]. revert Hn. generalize sample_packages as packages.
  apply (@load_native_source_complete ascii_unicode plain_decode_errors no_setup 100 (sample_tree [])
    (MkSemVer 1 2 0 [] []) [] []).
Defined.
