(* ===== verification/PyJson.v ===== *)
(** The [json] module with its defaults, as [setup.py] and [setup_runtime.py]
    call it: [json.loads] without hooks accepts what the strict parser of
    [protocol/json.py] refuses (floating-point numbers, [NaN], integers of any
    size up to the interpreter's digit limit, repeated keys, of which the last
    wins), and [json.dumps] escapes every character outside ASCII.

    A value is [pyval]; a floating-point number is held by the text it was
    written with, and what the code does with it (printing, truncating) is the
    class [PyNumbers].  A dictionary is a list in insertion order. *)
From S2P Require Import Prelude PyText Domain Json JsonParse IndentedJson.
From Stdlib Require Import Ascii.

Inductive pyval : Type :=
  | VNone
  | VBool (b : bool)
  | VInt (n : Z)
  | VFloat (literal : string)
  | VStr (s : string)
  | VList (l : list pyval)
  | VTuple (l : list pyval)
  | VDict (d : list (string * pyval)).

Class PyNumbers := {
  float_repr : string → string;           (** [float.__repr__(float(literal))] *)
  float_eq : string → string → bool;      (** [float(a) == float(b)] *)
  float_integer : string → option Z;      (** the integer that a float equals *)
  float_nonzero : string → bool;          (** [bool(float(literal))] *)
  int_of_float : string → py Z;           (** [int(float(literal))] *)
  int_of_text : string → py Z;            (** [int(text)] *)
  json_error_text : string → string;      (** [str] of the [JSONDecodeError] of a text *)
  utf8_error_text : bytes → string        (** [str] of the [UnicodeDecodeError] of bytes *)
}.

(** * [json.loads] *)

(** A value and the rest of the text, a [JSONDecodeError], the [ValueError] of
    an integer literal that is too long, or (never, by [py_loads_total]) an
    exhausted fuel. *)
Inductive loaded (A : Type) : Type :=
  | Loaded (a : A) (rest : string)
  | LoadError
  | LoadLimit (digits : nat)
  | LoadFuel.
Global Arguments Loaded {_} _ _.
Global Arguments LoadError {_}.
Global Arguments LoadLimit {_} _.
Global Arguments LoadFuel {_}.

Definition loaded_bind {A B} (m : loaded A) (f : A → string → loaded B) : loaded B :=
  match m with
  | Loaded a rest => f a rest
  | LoadError => LoadError
  | LoadLimit n => LoadLimit n
  | LoadFuel => LoadFuel
  end.
Notation "'load' ( a , s ) := m 'in' k" := (loaded_bind m (λ a s, k))
  (at level 10, a name, s name, m at level 100, k at level 200).

Definition load_string (s : string) : loaded string :=
  match scan_string (S (String.length s)) s "" with
  | Scanned t r => Loaded t r
  | OutOfFuel => LoadFuel
  | _ => LoadError
  end.

(** [sys.get_int_max_str_digits()] *)
Definition INT_MAX_DIGITS : nat := 4300.
Definition load_integer (raw : string) : loaded pyval :=
  let negative := String.prefix "-" raw in
  let digits := if negative then str_drop 1 raw else raw in
  if (INT_MAX_DIGITS <? String.length digits)%nat then LoadLimit (String.length digits)
  else Loaded (VInt (if negative then (- int_of digits)%Z else int_of digits)) "".

Definition load_number (s : string) : loaded pyval :=
  match scan_integer s with
  | None => LoadError
  | Some (integer, r) =>
      let '(frac, r1) := scan_fraction r in
      let '(exp, r2) := scan_exponent r1 in
      if str_empty frac && str_empty exp
      then load (n, _s) := load_integer integer in Loaded n r2
      else Loaded (VFloat (integer +:+ frac +:+ exp)) r2
  end.

(** [scan_once], with its array and object loops. *)
Fixpoint load_value (fuel : nat) (s : string) : loaded pyval :=
  match fuel with
  | O => LoadFuel
  | S fuel =>
      match s with
      | EmptyString => LoadError
      | String c rest =>
          if is_char "034" c then load (text, r) := load_string rest in Loaded (VStr text) r
          else if is_char "{" c then
            match expect "}" (skip_space rest) with
            | Some r => Loaded (VDict []) r
            | None => load_members fuel (skip_space rest) []
            end
          else if is_char "[" c then
            match expect "]" (skip_space rest) with
            | Some r => Loaded (VList []) r
            | None => load_elements fuel (skip_space rest) []
            end
          else match after "null" s, after "true" s, after "false" s with
          | Some r, _, _ => Loaded VNone r
          | _, Some r, _ => Loaded (VBool true) r
          | _, _, Some r => Loaded (VBool false) r
          | _, _, _ =>
              match after "NaN" s, after "Infinity" s, after "-Infinity" s with
              | Some r, _, _ => Loaded (VFloat "NaN") r
              | _, Some r, _ => Loaded (VFloat "Infinity") r
              | _, _, Some r => Loaded (VFloat "-Infinity") r
              | _, _, _ => load_number s
              end
          end
      end
  end
with load_elements (fuel : nat) (s : string) (items : list pyval) : loaded pyval :=
  match fuel with
  | O => LoadFuel
  | S fuel =>
      load (v, r) := load_value fuel s in
      match expect "]" (skip_space r), expect "," (skip_space r) with
      | Some r, _ => Loaded (VList (items ++ [v])) r
      | _, Some r => load_elements fuel (skip_space r) (items ++ [v])
      | _, _ => LoadError
      end
  end
with load_members (fuel : nat) (s : string) (members : list (string * pyval)) : loaded pyval :=
  match fuel with
  | O => LoadFuel
  | S fuel =>
      match expect "034" s with
      | None => LoadError
      | Some r =>
          load (key, r) := load_string r in
          match expect ":" (skip_space r) with
          | None => LoadError
          | Some r =>
              load (v, r) := load_value fuel (skip_space r) in
              match expect "}" (skip_space r), expect "," (skip_space r) with
              | Some r, _ => Loaded (VDict (dset key v members)) r
              | _, Some r => load_members fuel (skip_space r) (dset key v members)
              | _, _ => LoadError
              end
          end
      end
  end.

Section json.
Context `{PyNumbers}.

(** [json.loads(text)] *)
Definition py_loads (text : string) : py pyval :=
  let malformed := Raise (JSONDecodeError (json_error_text text)) in
  if String.prefix byte_order_mark text then malformed
  else
    match (load (v, r) := load_value (S (2 * String.length text)) (skip_space text) in
           match skip_space r with EmptyString => Loaded v "" | _ => LoadError end) with
    | Loaded v _ => Ret v
    | LoadError => malformed
    | LoadLimit n =>
        Raise (ValueError ("Exceeds the limit (4300 digits) for integer string conversion: value has "
                 +:+ str_Z (Z.of_nat n) +:+ " digits; use sys.set_int_max_str_digits() to increase the limit"))
    | LoadFuel => Raise RecursionError
    end.

(** [json.loads(raw.decode("utf-8"))] *)
Definition py_loads_bytes (raw : bytes) : py pyval :=
  if valid_utf8 raw then py_loads raw else Raise (UnicodeDecodeError (utf8_error_text raw)).

(** * [json.dumps] with [ensure_ascii] *)

Definition ascii_escape (cp : string) : string :=
  match cp with
  | String c EmptyString =>
      if is_char "127" c then "\u007f" else escape_char c
  | _ =>
      let n := ord cp in
      if (n <? 65536)%N then "\u" +:+ hex_pad 4 n ""
      else "\u" +:+ hex_pad 4 (55296 + (n - 65536) / 1024)%N ""
           +:+ "\u" +:+ hex_pad 4 (56320 + (n - 65536) mod 1024)%N ""
  end.
Definition ascii_string (s : string) : string :=
  quote +:+ String.concat "" (map ascii_escape (code_points s)) +:+ quote.

(** [floatstr]: the names of the values JSON has no literal for. *)
Definition json_float (text : string) : string :=
  if String.eqb text "nan" then "NaN" else if String.eqb text "inf" then "Infinity"
  else if String.eqb text "-inf" then "-Infinity" else text.
Definition leaf_text (v : pyval) : string :=
  match v with
  | VNone => "null"
  | VBool b => if b then "true" else "false"
  | VInt n => str_Z n
  | VFloat f => json_float (float_repr f)
  | VStr s => ascii_string s
  | VList _ | VTuple _ | VDict _ => ""
  end.

(** [json.dumps(value, sort_keys=True, separators=(",", ":"))] *)
Fixpoint py_dumps (v : pyval) : string :=
  match v with
  | VList l | VTuple l => "[" +:+ join "," (map py_dumps l) +:+ "]"
  | VDict d =>
      "{" +:+ join "," (map (λ kt, ascii_string kt.1 +:+ ":" +:+ kt.2)
                          (sorted fst (map (λ kv, (kv.1, py_dumps kv.2)) d))) +:+ "}"
  | _ => leaf_text v
  end.

(** [json.dumps(value)] *)
Fixpoint py_dumps_default (v : pyval) : string :=
  match v with
  | VList l | VTuple l => "[" +:+ join ", " (map py_dumps_default l) +:+ "]"
  | VDict d =>
      "{" +:+ join ", " (map (λ kv, ascii_string kv.1 +:+ ": " +:+ py_dumps_default kv.2) d) +:+ "}"
  | _ => leaf_text v
  end.

(** [json.dumps(value, indent=2, sort_keys=False)] *)
Fixpoint py_dumps_indent (level : nat) (v : pyval) : string :=
  match v with
  | VList [] | VTuple [] => "[]"
  | VDict [] => "{}"
  | VList l | VTuple l =>
      "[" +:+ new_line (S level) +:+ join ("," +:+ new_line (S level)) (map (py_dumps_indent (S level)) l)
      +:+ new_line level +:+ "]"
  | VDict d =>
      "{" +:+ new_line (S level)
      +:+ join ("," +:+ new_line (S level))
            (map (λ kv, ascii_string kv.1 +:+ ": " +:+ py_dumps_indent (S level) kv.2) d)
      +:+ new_line level +:+ "}"
  | _ => leaf_text v
  end.
End json.

(** * The fuel of [json.loads] is enough *)

Definition advances {A} (n : nat) (m : loaded A) : Prop :=
  match m with Loaded _ r => (len r < n)%nat | LoadFuel => False | _ => True end.

Lemma advances_bind {A B} n (m : loaded A) (f : A → string → loaded B) :
  advances n m → (∀ a r, (len r < n)%nat → advances n (f a r)) → advances n (loaded_bind m f).
Proof. destruct m; simpl; auto. Qed.
Lemma advances_le {A} n m (x : loaded A) : (n ≤ m)%nat → advances n x → advances m x.
Proof. destruct x; simpl; auto with lia. Qed.

Lemma load_string_advances s : advances (len s) (load_string s).
Proof.
  unfold load_string. pose proof (scan_string_progress (S (len s)) s "" ltac:(lia)) as Hp.
  unfold progress in Hp. by destruct (scan_string _ _ _).
Qed.

Lemma load_number_advances s : advances (len s) (load_number s).
Proof.
  unfold load_number. destruct (scan_integer s) as [[i r]|] eqn:Ei; [|done].
  apply scan_integer_length in Ei.
  destruct (scan_fraction r) as [f r1] eqn:Ef. apply scan_fraction_length in Ef.
  destruct (scan_exponent r1) as [e r2] eqn:Ee. apply scan_exponent_length in Ee.
  destruct (str_empty f && str_empty e); [|simpl; lia].
  unfold load_integer. destruct (_ <? _)%nat; simpl; [done|lia].
Qed.

Lemma load_advances fuel :
  (∀ s, (2 * len s < fuel)%nat → advances (len s) (load_value fuel s)) ∧
  (∀ s items, (2 * len s + 1 < fuel)%nat → advances (len s) (load_elements fuel s items)) ∧
  (∀ s members, (2 * len s + 1 < fuel)%nat → advances (len s) (load_members fuel s members)).
Proof.
  induction fuel as [|fuel (IHv & IHe & IHm)]; [split_and!; intros; lia|]. split_and!.
  - intros [|c s] Hf; [done|]. cbn [load_value]. cbn [String.length] in *.
    pose proof (skip_space_length s) as Hsk.
    destruct (is_char "034" c).
    { apply advances_bind; [|intros; simpl; lia].
      apply (advances_le (len s)); [lia|]. apply load_string_advances. }
    destruct (is_char "{" c).
    { destruct (expect "}" _) eqn:E; [apply expect_space_length in E; simpl; lia|].
      apply (advances_le (len (skip_space s))); [lia|]. apply IHm. lia. }
    destruct (is_char "[" c).
    { destruct (expect "]" _) eqn:E; [apply expect_space_length in E; simpl; lia|].
      apply (advances_le (len (skip_space s))); [lia|]. apply IHe. lia. }
    repeat match goal with
      | |- context [after ?p ?t] =>
          let E := fresh in
          destruct (after p t) eqn:E; [apply after_length in E; [simpl in *; lia|done]|]
      end.
    apply load_number_advances.
  - intros s items Hf. cbn [load_elements]. apply advances_bind; [apply IHv; lia|].
    intros v r Hr. destruct (expect "]" _) eqn:E1; [apply expect_space_length in E1; simpl; lia|].
    destruct (expect "," _) as [q|] eqn:E2; [|done]. apply expect_space_length in E2.
    pose proof (skip_space_length q). apply (advances_le (len (skip_space q))); [lia|].
    apply IHe. lia.
  - intros s members Hf. cbn [load_members].
    destruct (expect "034" s) as [q|] eqn:E; [|done]. apply expect_length in E.
    apply advances_bind; [apply (advances_le (len q)); [lia|]; apply load_string_advances|].
    intros key r Hr. destruct (expect ":" _) as [r1|] eqn:E1; [|done].
    apply expect_space_length in E1. pose proof (skip_space_length r1). apply advances_bind.
    { apply (advances_le (len (skip_space r1))); [lia|]. apply IHv. lia. }
    intros v r2 Hr2. destruct (expect "}" _) eqn:E2; [apply expect_space_length in E2; simpl; lia|].
    destruct (expect "," _) as [r3|] eqn:E3; [|done]. apply expect_space_length in E3.
    pose proof (skip_space_length r3). apply (advances_le (len (skip_space r3))); [lia|].
    apply IHm. lia.
Qed.

(** [json.loads] returns a value or fails as Python does; it never exhausts
    the fuel of the model. *)
Lemma py_loads_total `{PyNumbers} text : py_loads text ≠ Raise RecursionError.
Proof.
  unfold py_loads. destruct (String.prefix _ _); [done|].
  pose proof (skip_space_length text) as Hsk. set (fuel := S _).
  destruct (load_advances fuel) as [Hv _]. specialize (Hv (skip_space text) ltac:(subst fuel; lia)).
  destruct (load_value _ _); simpl; try done. by destruct (skip_space rest).
Qed.

(** A document has no tuple. *)
Fixpoint json_shaped (v : pyval) : bool :=
  match v with
  | VTuple _ => false
  | VList l => forallb json_shaped l
  | VDict d => forallb (λ kv, json_shaped kv.2) d
  | _ => true
  end.

Lemma loaded_bind_Loaded {A B} (m : loaded A) (f : A → string → loaded B) b r :
  loaded_bind m f = Loaded b r → ∃ a r', m = Loaded a r' ∧ f a r' = Loaded b r.
Proof. destruct m; simpl; try done. eauto. Qed.
Lemma load_number_shaped s v r : load_number s = Loaded v r → json_shaped v = true.
Proof.
  unfold load_number. destruct (scan_integer s) as [[i r0]|]; [|done].
  destruct (scan_fraction r0) as [f r1], (scan_exponent r1) as [e r2].
  destruct (_ && _); [|by intros [= <- _]]. unfold load_integer.
  destruct (_ <? _)%nat; [done|]. by intros [= <- _].
Qed.
Lemma dset_shaped (key : string) v d : json_shaped v = true → forallb (λ kv, json_shaped kv.2) d = true →
  forallb (λ kv, json_shaped kv.2) (dset key v d) = true.
Proof.
  intros Hv. induction d as [|[k w] d IH]; cbn; [by rewrite Hv|].
  intros [Hw Hd]%andb_true_iff. case_decide; cbn; [by rewrite Hv|]. by rewrite Hw, IH.
Qed.

Lemma load_shaped fuel :
  (∀ s v r, load_value fuel s = Loaded v r → json_shaped v = true) ∧
  (∀ s items v r, forallb json_shaped items = true → load_elements fuel s items = Loaded v r →
     json_shaped v = true) ∧
  (∀ s members v r, forallb (λ kv, json_shaped kv.2) members = true →
     load_members fuel s members = Loaded v r → json_shaped v = true).
Proof.
  induction fuel as [|fuel (IHv & IHe & IHm)]; [by split_and!|]. split_and!.
  - intros [|c s] v r; [done|]. cbn [load_value].
    destruct (is_char "034" c).
    { by intros (a & r' & _ & [= <- _])%loaded_bind_Loaded. }
    destruct (is_char "{" c).
    { destruct (expect "}" _); [by intros [= <- _]|]. by apply IHm. }
    destruct (is_char "[" c).
    { destruct (expect "]" _); [by intros [= <- _]|]. by apply IHe. }
    repeat match goal with
      | |- context [after ?p ?t] => destruct (after p t); [by intros [= <- _]|]
      end.
    apply load_number_shaped.
  - intros s items v r Hi. cbn [load_elements]. intros (w & r' & Hw%IHv & E)%loaded_bind_Loaded.
    assert (forallb json_shaped (items ++ [w]) = true) as Hi'
      by (rewrite forallb_app, Hi; cbn; by rewrite Hw).
    destruct (expect "]" _); [by injection E as <- _|]. destruct (expect "," _); [|done].
    by eapply IHe.
  - intros s members v r Hi. cbn [load_members]. destruct (expect "034" s) as [q|]; [|done].
    intros (key & r1 & _ & E)%loaded_bind_Loaded. destruct (expect ":" _); [|done].
    apply loaded_bind_Loaded in E as (w & r2 & Hw%IHv & E).
    pose proof (dset_shaped key w members Hw Hi) as Hi'.
    destruct (expect "}" _); [by injection E as <- _|]. destruct (expect "," _); [|done].
    by eapply IHm.
Qed.
Lemma py_loads_shaped `{PyNumbers} text v : py_loads text = Ret v → json_shaped v = true.
Proof.
  unfold py_loads. destruct (String.prefix _ _); [done|]. set (fuel := S _).
  destruct (load_shaped fuel) as [Hv _]. specialize (Hv (skip_space text)).
  destruct (load_value _ _) as [w r| | |]; cbn; try done. destruct (skip_space r); [|done].
  intros [= <-]. by eapply Hv.
Qed.

(** * Python values as the code reads them *)

(** [type(v) is str], [isinstance(v, dict)], ... *)
Definition vstr (v : pyval) : option string := match v with VStr s => Some s | _ => None end.
Definition vlist (v : pyval) : option (list pyval) := match v with VList l => Some l | _ => None end.
Definition vdict (v : pyval) : option (list (string * pyval)) :=
  match v with VDict d => Some d | _ => None end.
(** [bool(v)] *)
Definition truthy `{PyNumbers} (v : pyval) : bool :=
  match v with
  | VNone => false
  | VBool b => b
  | VInt n => negb (n =? 0)%Z
  | VFloat f => float_nonzero f
  | VStr s => negb (str_empty s)
  | VList l | VTuple l => match l with [] => false | _ => true end
  | VDict d => match d with [] => false | _ => true end
  end.
(** [_freeze]: a mapping stays one, a list becomes a tuple. *)
Fixpoint freeze (v : pyval) : pyval :=
  match v with
  | VDict d => VDict (map (λ kv, (kv.1, freeze kv.2)) d)
  | VList l => VTuple (map freeze l)
  | _ => v
  end.
(** [_plain], [_json_value] *)
Fixpoint plain (v : pyval) : pyval :=
  match v with
  | VDict d => VDict (map (λ kv, (kv.1, plain kv.2)) d)
  | VTuple l => VList (map plain l)
  | _ => v
  end.

(** [v == w]: a list never equals a tuple, a boolean is a number. *)
Definition numeral (v : pyval) : option Z :=
  match v with VBool b => Some (bool_int b) | VInt n => Some n | _ => None end.
Section equality.
Context `{PyNumbers}.
Definition leaf_eq (v w : pyval) : bool :=
  match v, w with
  | VNone, VNone => true
  | VStr a, VStr b => String.eqb a b
  | VFloat a, VFloat b => float_eq a b
  | VFloat f, _ => match float_integer f, numeral w with Some a, Some b => (a =? b)%Z | _, _ => false end
  | _, VFloat f => match numeral v, float_integer f with Some a, Some b => (a =? b)%Z | _, _ => false end
  | _, _ => match numeral v, numeral w with Some a, Some b => (a =? b)%Z | _, _ => false end
  end.
Fixpoint py_eq (v w : pyval) : bool :=
  let fix all_eq (l k : list pyval) : bool :=
    match l, k with
    | [], [] => true
    | v :: l, w :: k => py_eq v w && all_eq l k
    | _, _ => false
    end in
  match v, w with
  | VList l, VList k | VTuple l, VTuple k => all_eq l k
  | VDict d, VDict e =>
      (length d =? length e)%nat
      && forallb (λ kv, match dget kv.1 e with Some w => py_eq kv.2 w | None => false end) d
  | _, _ => leaf_eq v w
  end.
End equality.

(** [d[key]] *)
Definition field (d : list (string * pyval)) (key : string) : py pyval :=
  match dget key d with Some v => Ret v | None => Raise (KeyError key) end.

Section text.
Context `{UnicodeData} `{PyNumbers}.
(** [repr(v)] and [str(v)] *)
Fixpoint py_repr (v : pyval) : string :=
  match v with
  | VNone => "None"
  | VBool b => if b then "True" else "False"
  | VInt n => str_Z n
  | VFloat f => float_repr f
  | VStr s => repr s
  | VList l => "[" +:+ join ", " (map py_repr l) +:+ "]"
  | VTuple [v] => "(" +:+ py_repr v +:+ ",)"
  | VTuple l => "(" +:+ join ", " (map py_repr l) +:+ ")"
  | VDict d => "{" +:+ join ", " (map (λ kv, repr kv.1 +:+ ": " +:+ py_repr kv.2) d) +:+ "}"
  end.
Definition py_str (v : pyval) : string := match v with VStr s => s | _ => py_repr v end.
End text.
