(* ===== verification/SetupModel.v ===== *)
(** The setup values of [model.py]: recipes, queue items, effects, plans and
    the records of executed setups.

    A recipe's [config] and an effect's are frozen mappings, whose lists are
    tuples. *)
From S2P Require Import Prelude PyText Domain PyJson.

Record SetupHelpUrl := MkHelpUrl { hu_label : string; hu_url : string }.
Record SetupInput := MkInput {
  in_id : string; in_type : string; in_prompt : string; in_help_url : option string
}.
Record SetupStep := MkStep {
  st_id : string; st_use : string; st_config : list (string * pyval)
}.
Record SetupInstaller := MkInstaller {
  si_schema_version : Z;
  si_protocol_version : Z;
  si_artifact : string;
  si_purpose : string;
  si_platforms : list string;
  si_help_urls : list SetupHelpUrl;
  si_required_tools : list string;
  si_capabilities : list string;
  si_inputs : list SetupInput;
  si_steps : list SetupStep;
  si_descriptor_path : string;
  si_descriptor_hash : string;
  si_manual_path : string;
  si_custom_entrypoint : option string;
  si_custom_hash : option string
}.
Record SetupManualReference := MkManual { mr_relative_path : string; mr_source : string }.
Record SetupQueueItem := MkQueueItem {
  qi_artifact_type : string;
  qi_artifact_name : string;
  qi_profile : string;
  qi_scope : string;
  qi_source_label : string;
  qi_source_root : string;
  qi_installer : SetupInstaller;
  qi_source_url : string;
  qi_artifact_version : string
}.
Record SetupEffect := MkEffect {
  ef_step_id : string;
  ef_module : string;
  ef_capability : option string;
  ef_summary : string;
  ef_target : string;
  ef_argv : list string;
  ef_reversible : bool;
  ef_config : list (string * pyval)
}.
Record SetupPlan := MkSetupPlan {
  pl_item : SetupQueueItem;
  pl_effects : list SetupEffect;
  pl_plan_hash : string;
  pl_target_root : string;
  pl_home_root : string;
  pl_run_root : string;
  pl_preflight_status : option string;
  pl_preflight_detail : string
}.
(** A receipt is a mapping. *)
Abbreviation receipt := (list (string * pyval)).
Record SetupStateRecord := MkStateRecord {
  sr_artifact_type : string;
  sr_artifact_name : string;
  sr_profile : string;
  sr_scope : string;
  sr_status : string;
  sr_detail : string;
  sr_source_label : string;
  sr_installer_path : string;
  sr_installer_hash : string;
  sr_custom_hash : string;
  sr_schema_version : Z;
  sr_protocol_version : Z;
  sr_plan_hash : string;
  sr_started_at : string;
  sr_finished_at : string;
  sr_exit_status : pyval;
  sr_retry_command : string;
  sr_rollback_command : string;
  sr_receipt_path : string;
  sr_receipt : list receipt;
  sr_object_digest : string;
  sr_recipe_digest : string;
  sr_trust : string;
  sr_trust_evidence_digest : string;
  sr_policy_digest : string;
  sr_capability_plan_digest : string;
  sr_canonical_review_digest : string;
  sr_setup_state_ref : string
}.
