(* ===== verification/SetupRecipe.v ===== *)
(** [setup.py], the parser: a recipe document becomes a [SetupInstaller], or an
    error that names what is wrong, and the other functions that the loader of
    packages calls.

    [_Invalid], [JSONDecodeError] and [UnicodeDecodeError] become errors;
    every other exception leaves the parser ([parse_installer] is in [py]). *)
From S2P Require Import Prelude PyText TextSearch Posix Regex Encodings Domain Json JsonParse Configuration NativeTree PyJson SetupModel.
From Stdlib Require Import Ascii.
Open Scope Z_scope.

Definition TOP_FIELDS : list string :=
  ["schema_version"; "protocol_version"; "artifact"; "purpose"; "platforms"; "help_urls";
   "required_tools"; "capabilities"; "inputs"; "steps"; "custom_entrypoint"].
Definition CAPABILITIES : list string :=
  ["keychain"; "filesystem"; "docker"; "network"; "process"; "custom-code"; "trust-store"].

(** A module of the catalog: the capability it takes, the fields it allows and
    those it requires. *)
Record setup_module := MkModule {
  mod_capability : option string; mod_allowed : list string; mod_required : list string
}.
Definition MODULES : list (string * setup_module) := [
  ("macos-keychain.store@1", MkModule (Some "keychain")
     ["input"; "service"; "account"; "replace_existing"] ["input"; "service"; "account"]);
  ("shell.env-from-keychain@1", MkModule (Some "filesystem")
     ["file"; "variables"] ["file"; "variables"]);
  ("shell.env-from-input@1", MkModule (Some "filesystem")
     ["file"; "variables"] ["file"; "variables"]);
  ("file.managed-block@1", MkModule (Some "filesystem")
     ["file"; "content"; "marker"] ["file"; "content"]);
  ("json.managed-merge@1", MkModule (Some "filesystem")
     ["file"; "path"; "value"; "replace_existing"] ["file"; "path"; "value"]);
  ("directory.create@1", MkModule (Some "filesystem") ["path"] ["path"]);
  ("docker.pull@1", MkModule (Some "docker") ["image"; "official_url"] ["image"]);
  ("docker.build@1", MkModule (Some "docker") ["context"; "dockerfile"] ["context"]);
  ("trust-store.export-certificates@1", MkModule (Some "trust-store")
     ["subject_contains"; "output"] ["subject_contains"; "output"]);
  ("command.verify@1", MkModule (Some "process") ["argv"; "timeout"; "cwd"] ["argv"]);
  ("restart.notice@1", MkModule None ["message"] ["message"])].
Definition PLANNED_CAPABILITIES : list (string * list string) := [
  ("macos-keychain.store@1", ["keychain"]);
  ("shell.env-from-keychain@1", ["managed-file"]);
  ("shell.env-from-input@1", ["managed-file"]);
  ("file.managed-block@1", ["managed-file"]);
  ("json.managed-merge@1", ["managed-file"]);
  ("directory.create@1", ["managed-file"]);
  ("docker.pull@1", ["docker-pull"; "network"]);
  ("docker.build@1", ["docker-build"; "network"; "process"]);
  ("trust-store.export-certificates@1", ["trust-store"]);
  ("command.verify@1", ["verify-command"]);
  ("restart.notice@1", [])].

Definition IDENTIFIER : re :=
  RChar is_lower · RStar (RChar (λ c, is_lower c || is_digit c || is_char "_" c)).
Definition ENV_NAME : re :=
  RChar (λ c, is_upper c || is_char "_" c)
  · RStar (RChar (λ c, is_upper c || is_digit c || is_char "_" c)).
Definition ARTIFACT_KEY : re :=
  (RStr "skill" ∥ RStr "hook" ∥ RStr "mcp") · RLit "/" · RChar is_alnum
  · RStar (RChar (λ c, is_alnum c || is_char "." c || is_char "_" c || is_char "-" c)).
Definition MANUAL_SETUP_HEADER : bytes := "# AART manual setup: see ../SETUP.md".

Definition invalid {A} (message : string) : py A := Raise (Invalid message).
Definition check (ok : bool) (message : string) : py unit := if ok then Ret tt else invalid message.
Definition each {A} (f : A → py unit) (l : list A) : py unit := _ ← mapM f l; Ret tt.

(** [sorted(set(value) - set(other))] of the keys of a mapping *)
Definition set_minus (keys other : list string) : list string :=
  sorted id (List.filter (λ k, negb (mem k other)) keys).
Definition has (key : string) (d : list (string * pyval)) : bool := mem key (dkeys d).

(** The digest at the end of an image: [@sha256:[0-9a-fA-F]{64}$]. *)
Definition is_hex_any (c : ascii) : bool := match hex_any c with Some _ => true | None => false end.
Definition digest_pinned (image : string) : bool :=
  let tail := str_drop (String.length image - 72) image in
  (String.length tail =? 72)%nat && String.prefix "@sha256:" tail
  && str_forall is_hex_any (str_drop 8 tail).

Section recipe.
Context `{UnicodeData} `{IpAddress} `{PyNumbers}.

Definition single_line (value : pyval) (label : string) : py string :=
  match value with
  | VStr s =>
      if str_empty (strip s) || has_char newline s || has_char creturn s
      then invalid (label +:+ " must be a non-empty single-line string")
      else Ret (strip s)
  | _ => invalid (label +:+ " must be a non-empty single-line string")
  end.

(** [urlparse] raises [ValueError] for a network location it cannot split. *)
Definition https (value : pyval) (label : string) : py string :=
  url ← single_line value label;
  match urlsplit url with
  | None => Raise (ValueError "Invalid URL")
  | Some parsed =>
      if negb (String.eqb (url_scheme parsed) "https") || str_empty (url_netloc parsed)
      then invalid (label +:+ " must be an https URL")
      else Ret url
  end.

Definition string_list (value : pyval) (label : string) : py (list string) :=
  match value with
  | VList l => mapM (λ item, single_line item (label +:+ " entry")) l
  | _ => invalid (label +:+ " must be a list")
  end.

Definition relative_setup_entrypoint (value : pyval) : py string :=
  path ← single_line value "custom_entrypoint";
  let normalized := normpath path in
  if isabs path || String.prefix "../" normalized || String.eqb normalized ".."
     || has_char "/" normalized || negb (String.eqb normalized path)
  then invalid "custom_entrypoint must be a relative file directly below setup/"
  else Ret normalized.

Definition package_relative_source (value : pyval) (label : string) : py string :=
  path ← single_line value label;
  let normalized := normpath path in
  if isabs path || mem normalized [".."; "."] || String.prefix "../" normalized
     || has_char "/" normalized || negb (String.eqb normalized path)
  then invalid (label +:+ " must be a relative name directly below the package root")
  else Ret normalized.

Definition context_relative_file (value : pyval) (label : string) : py string :=
  path ← single_line value label;
  let normalized := normpath path in
  if isabs path || negb (String.eqb normalized path) || String.eqb normalized "."
     || mem ".." (split_on "/" normalized)
  then invalid (label +:+ " must be a relative file inside the build context")
  else Ret normalized.

Definition validate_path (value : pyval) (label : string) : py string :=
  path ← single_line value label;
  let expanded := if String.prefix "~/" path then str_drop 2 path else path in
  if has_char "000" path || mem ".." (split_on "/" expanded)
  then invalid (label +:+ " cannot contain path traversal")
  else Ret path.

Definition planned_capabilities (installer : SetupInstaller) : list string :=
  sorted_set id
    (concat (map (λ step, default [] (dget (st_use step) PLANNED_CAPABILITIES)) (si_steps installer))
     ++ match si_custom_entrypoint installer with Some _ => ["custom-code"] | None => [] end).

(** The exceptions [custom_entrypoint_name] and [parse_installer] answer with
    an error. *)
Definition caught {A} (prefix_ : string) (m : py A) : py (string + A) :=
  match m with
  | Ret a => Ret (inr a)
  | Raise (Invalid e) | Raise (JSONDecodeError e) | Raise (UnicodeDecodeError e) =>
      Ret (inl (prefix_ +:+ e))
  | Raise e => Raise e
  end.

Definition custom_entrypoint_name (raw : bytes) : py (string + option string) :=
  caught "invalid setup installer: "
    (data ← py_loads_bytes raw;
     match data with
     | VDict d =>
         match dget "custom_entrypoint" d with
         | None => Ret None
         | Some value => name ← relative_setup_entrypoint value; Ret (Some name)
         end
     | _ => Ret None
     end).

(** [bytes.splitlines()] on the first lines: [\n], [\r] and [\r\n]. *)
Fixpoint first_line (s : bytes) : bytes * option bytes :=
  match s with
  | EmptyString => ("", None)
  | String c rest =>
      if is_char newline c then ("", Some rest)
      else if is_char creturn c then ("", Some (removeprefix (String newline "") rest))
      else let '(line, more) := first_line rest in (String c line, more)
  end.
(** [bytes.strip()] *)
Definition is_byte_space (c : ascii) : bool := between 9 13 c || is_char " " c.
Definition byte_strip (s : bytes) : bytes :=
  let fix lstrip s := match s with
    | String c t => if is_byte_space c then lstrip t else s | EmptyString => "" end in
  let fix rstrip s := match s with
    | String c t => let t := rstrip t in
                    if is_byte_space c && str_empty t then "" else String c t
    | EmptyString => "" end in
  rstrip (lstrip s).
Definition has_manual_setup_header (raw : bytes) : bool :=
  let matches_ line := String.eqb (byte_strip line) MANUAL_SETUP_HEADER in
  if str_empty raw then false
  else let '(line, more) := first_line raw in
       if String.prefix "#!" line
       then match more with
            | None | Some "" => false
            | Some more => matches_ (first_line more).1
            end
       else matches_ line.

(** [posixpath.basename] *)
Definition basename (p : string) : string :=
  match cut_last "/" p with Some (_, base) => base | None => p end.
Definition manual_path (descriptor_path : string) : py string :=
  let normalized := normpath descriptor_path in
  if String.eqb descriptor_path normalized && String.eqb normalized "setup/installer.json"
  then Ret "SETUP.md"
  else
    let package := dirname (dirname normalized) in
    if str_empty package || negb (String.eqb normalized descriptor_path) || isabs normalized
       || negb (String.eqb (basename (dirname normalized)) "setup")
       || negb (String.eqb (basename normalized) "installer.json")
       || String.eqb package ".." || String.prefix "../" package
    then invalid "version-2 installer path must be below a package setup/ directory"
    else Ret (pjoin package "SETUP.md").

(** [_contains_secret_interpolation] *)
Definition mentions_secret (s : string) (secret_ids : list string) : bool :=
  existsb (λ i, contains ("${" +:+ i +:+ "}") s || contains ("{{" +:+ i +:+ "}}") s) secret_ids.
Fixpoint contains_secret_interpolation (value : pyval) (secret_ids : list string) : bool :=
  match value with
  | VStr s => mentions_secret s secret_ids
  | VDict d => existsb (λ kv, contains_secret_interpolation kv.2 secret_ids) d
  | VList l => existsb (λ v, contains_secret_interpolation v secret_ids) l
  | _ => false
  end.

(** * One step *)

(** What the inputs, capabilities and tools of a recipe declare. *)
Record declared := MkDeclared {
  de_secret_ids : list string; de_text_ids : list string;
  de_capabilities : list string; de_required_tools : list string
}.
Definition is_bool (v : pyval) : bool := match v with VBool _ => true | _ => false end.
Definition requires_capability (step_id : string) (de : declared) (capability : string) : py unit :=
  check (mem capability (de_capabilities de))
    ("step " +:+ repr step_id +:+ " requires undeclared capability " +:+ repr capability).
(** [if "replace_existing" in config and not isinstance(...)] *)
Definition replace_existing_ok (step_id : string) (config : list (string * pyval)) : py unit :=
  match dget "replace_existing" config with
  | Some v => check (is_bool v) ("step " +:+ step_id +:+ ".replace_existing must be a boolean")
  | None => Ret tt
  end.
(** The variables of the two [shell.env] modules. *)
Definition environment (step_id : string) (variables : pyval)
    (lookup : string → pyval → py unit) : py unit :=
  match variables with
  | VDict ((_ :: _) as vars) =>
      each (λ kv,
        _ ← check (fullmatch ENV_NAME kv.1)
              ("step " +:+ repr step_id +:+ " has invalid environment variable " +:+ repr kv.1);
        lookup kv.1 kv.2) vars
  | _ => invalid ("step " +:+ step_id +:+ ".variables must be a non-empty object")
  end.
Definition keychain_lookup (step_id name : string) (lookup : pyval) : py unit :=
  let label := "step " +:+ step_id +:+ "." +:+ name in
  match lookup with
  | VDict d =>
      _ ← check (bool_decide (set_minus (dkeys d) ["service"; "account"] = [])
                 && has "service" d && has "account" d)
            (label +:+ " must contain service and account");
      service ← field d "service"; _ ← single_line service (label +:+ ".service");
      account ← field d "account"; _ ← single_line account (label +:+ ".account");
      Ret tt
  | _ => invalid (label +:+ " must contain service and account")
  end.
Definition input_lookup (step_id : string) (de : declared) (name : string) (raw : pyval) : py unit :=
  input_id ← single_line raw ("step " +:+ step_id +:+ "." +:+ name);
  check (mem input_id (de_text_ids de))
    ("step " +:+ repr step_id +:+ " references undeclared text input " +:+ repr input_id).
(** A non-empty list of single lines. *)
Definition string_entries (value : pyval) (label : string) : py unit :=
  match value with
  | VList ((_ :: _) as l) => each (λ v, _ ← single_line v (label +:+ " entry"); Ret tt) l
  | _ => invalid (label +:+ " must be a non-empty string list")
  end.
(** [isinstance(v, int) and 1 <= v <= 300]; a [bool] is an [int]. *)
Definition timeout_ok (v : pyval) : bool :=
  match v with
  | VInt n => (1 <=? n) && (n <=? 300)
  | VBool b => b
  | _ => false
  end.
Definition opt_field (config : list (string * pyval)) (key : string) (f : pyval → py unit) : py unit :=
  match dget key config with Some v => f v | None => Ret tt end.

(** The checks of [_validate_step] on the configuration of each module. *)
Definition validate_config (use step_id : string) (config : list (string * pyval)) (de : declared) :
    py unit :=
  let label key := "step " +:+ step_id +:+ "." +:+ key in
  let path_field key := v ← field config key; _ ← validate_path v (label key); Ret tt in
  let line_field key := v ← field config key; _ ← single_line v (label key); Ret tt in
  if String.eqb use "macos-keychain.store@1" then
    input ← field config "input";
    input_id ← single_line input (label "input");
    _ ← check (mem input_id (de_secret_ids de))
          ("step " +:+ repr step_id +:+ " references undeclared secret input " +:+ repr input_id);
    _ ← line_field "service"; _ ← line_field "account";
    replace_existing_ok step_id config
  else if String.eqb use "shell.env-from-keychain@1" then
    _ ← path_field "file";
    variables ← field config "variables";
    environment step_id variables (keychain_lookup step_id)
  else if String.eqb use "shell.env-from-input@1" then
    _ ← path_field "file";
    variables ← field config "variables";
    environment step_id variables (input_lookup step_id de)
  else if String.eqb use "file.managed-block@1" then
    _ ← path_field "file";
    _ ← opt_field config "marker" (λ v, _ ← single_line v (label "marker"); Ret tt);
    content ← field config "content";
    check (match content with VStr _ => true | _ => false end) (label "content" +:+ " must be a string")
  else if String.eqb use "json.managed-merge@1" then
    _ ← path_field "file";
    path ← field config "path";
    _ ← string_entries path (label "path");
    replace_existing_ok step_id config
  else if String.eqb use "directory.create@1" then path_field "path"
  else if String.eqb use "docker.pull@1" then
    v ← field config "image";
    image ← single_line v (label "image");
    _ ← check (digest_pinned image) (label "image" +:+ " must use an immutable sha256 digest");
    _ ← opt_field config "official_url" (λ v, _ ← https v (label "official_url"); Ret tt);
    each (requires_capability step_id de) ["network"; "process"]
  else if String.eqb use "docker.build@1" then
    v ← field config "context";
    _ ← package_relative_source v (label "context");
    _ ← opt_field config "dockerfile" (λ v, _ ← context_relative_file v (label "dockerfile"); Ret tt);
    _ ← each (requires_capability step_id de) ["network"; "process"];
    check (mem "docker" (de_required_tools de))
      ("step " +:+ repr step_id +:+ " requires 'docker' in required_tools")
  else if String.eqb use "trust-store.export-certificates@1" then
    _ ← line_field "subject_contains";
    v ← field config "output";
    _ ← context_relative_file v (label "output");
    check (mem "/usr/bin/security" (de_required_tools de))
      ("step " +:+ repr step_id +:+ " requires '/usr/bin/security' in required_tools")
  else if String.eqb use "command.verify@1" then
    argv ← field config "argv";
    _ ← string_entries argv (label "argv");
    _ ← opt_field config "cwd" (λ v, _ ← validate_path v (label "cwd"); Ret tt);
    opt_field config "timeout" (λ v, check (timeout_ok v)
      (label "timeout" +:+ " must be an integer from 1 to 300"))
  else if String.eqb use "restart.notice@1" then line_field "message"
  else Ret tt.

(** [_validate_step]; the identifiers of the earlier steps come in [step_ids]. *)
Definition validate_step (raw : pyval) (step_ids : list string) (de : declared) : py SetupStep :=
  match raw with
  | VDict d =>
      let unknown := set_minus (dkeys d) ["id"; "use"; "with"] in
      _ ← check (bool_decide (unknown = [])) ("step has unknown field(s): " +:+ join ", " unknown);
      let missing := set_minus ["id"; "use"; "with"] (dkeys d) in
      _ ← check (bool_decide (missing = [])) ("step missing field(s): " +:+ join ", " missing);
      id_ ← field d "id";
      step_id ← single_line id_ "step.id";
      _ ← check (fullmatch IDENTIFIER step_id) ("invalid step id " +:+ repr step_id);
      _ ← check (negb (mem step_id step_ids)) ("duplicate step id " +:+ repr step_id);
      use_ ← field d "use";
      use ← single_line use_ ("step " +:+ step_id +:+ ".use");
      match dget use MODULES with
      | None => invalid ("unknown or unsupported setup module " +:+ repr use)
      | Some spec =>
          _ ← match mod_capability spec with
              | Some capability => requires_capability step_id de capability
              | None => Ret tt
              end;
          with_ ← field d "with";
          match with_ with
          | VDict config =>
              let unknown := set_minus (dkeys config) (mod_allowed spec) in
              let missing := set_minus (mod_required spec) (dkeys config) in
              _ ← check (bool_decide (unknown = []))
                    ("step " +:+ repr step_id +:+ " has unknown field(s): " +:+ join ", " unknown);
              _ ← check (bool_decide (missing = []))
                    ("step " +:+ repr step_id +:+ " missing field(s): " +:+ join ", " missing);
              _ ← validate_config use step_id config de;
              _ ← check (String.eqb use "macos-keychain.store@1"
                         || negb (contains_secret_interpolation with_ (de_secret_ids de)))
                    ("step " +:+ repr step_id +:+ " cannot interpolate a secret input");
              Ret (MkStep step_id use (dmap freeze config))
          | _ => invalid ("step " +:+ step_id +:+ ".with must be an object")
          end
      end
  | _ => invalid "steps entries must be objects"
  end.
Fixpoint validate_steps (raws : list pyval) (steps : list SetupStep) (de : declared) :
    py (list SetupStep) :=
  match raws with
  | [] => Ret steps
  | raw :: raws =>
      step ← validate_step raw (map st_id steps) de;
      validate_steps raws (steps ++ [step]) de
  end.

(** * The whole document *)

(** [f"{label}[{index}]"] *)
Definition indexed (label : string) (index : nat) : string :=
  label +:+ "[" +:+ str_Z (Z.of_nat index) +:+ "]".
Definition parse_help_url (index : nat) (entry : pyval) : py SetupHelpUrl :=
  let label := indexed "help_urls" index in
  match entry with
  | VDict d =>
      _ ← check (bool_decide (set_minus (dkeys d) ["label"; "url"] = []) && has "label" d && has "url" d)
            (label +:+ " must contain exactly label and url");
      l ← field d "label"; text ← single_line l (label +:+ ".label");
      u ← field d "url"; url ← https u (label +:+ ".url");
      Ret (MkHelpUrl text url)
  | _ => invalid (label +:+ " must contain exactly label and url")
  end.
(** [entry["type"] in {"secret", "text"}]; a list or an object has no hash. *)
Definition input_type (index : nat) (value : pyval) : py string :=
  let refused := invalid (indexed "inputs" index +:+ ".type must be 'secret' or 'text'") in
  match value with
  | VList _ => Raise (TypeError "unhashable type: 'list'")
  | VDict _ => Raise (TypeError "unhashable type: 'dict'")
  | VStr s => if mem s ["secret"; "text"] then Ret s else refused
  | _ => refused
  end.
Definition parse_input (index : nat) (entry : pyval) (input_ids : list string) : py SetupInput :=
  let label := indexed "inputs" index in
  match entry with
  | VDict d =>
      _ ← check (bool_decide (set_minus (dkeys d) ["id"; "type"; "prompt"; "help_url"] = [])
                 && bool_decide (set_minus ["id"; "type"; "prompt"] (dkeys d) = []))
            (label +:+ " has invalid fields");
      i ← field d "id"; input_id ← single_line i (label +:+ ".id");
      _ ← check (fullmatch IDENTIFIER input_id && negb (mem input_id input_ids))
            ("invalid or duplicate input id " +:+ repr input_id);
      t ← field d "type"; type_ ← input_type index t;
      p ← field d "prompt"; prompt ← single_line p (label +:+ ".prompt");
      help_url ← match dget "help_url" d with
                 | Some u => url ← https u (label +:+ ".help_url"); Ret (Some url)
                 | None => Ret None
                 end;
      Ret (MkInput input_id type_ prompt help_url)
  | _ => invalid (label +:+ " must be an object")
  end.
Fixpoint parse_inputs (index : nat) (entries : list pyval) (inputs : list SetupInput) :
    py (list SetupInput) :=
  match entries with
  | [] => Ret inputs
  | entry :: entries =>
      input ← parse_input index entry (map in_id inputs);
      parse_inputs (S index) entries (inputs ++ [input])
  end.
Fixpoint parse_help_urls (index : nat) (entries : list pyval) : py (list SetupHelpUrl) :=
  match entries with
  | [] => Ret []
  | entry :: entries =>
      url ← parse_help_url index entry;
      urls ← parse_help_urls (S index) entries;
      Ret (url :: urls)
  end.
Definition typed_ids (type_ : string) (inputs : list SetupInput) : list string :=
  map in_id (List.filter (λ i, String.eqb (in_type i) type_) inputs).

(** The rules on the modules of the steps taken together. *)
Definition uses_index (use : string) (uses : list string) : nat :=
  default 0%nat (fst <$> list_find (λ u, u = use) uses).
Definition check_build (uses : list string) : py unit :=
  _ ← (if mem "trust-store.export-certificates@1" uses then
         _ ← check (mem "docker.build@1" uses)
               "trust-store.export-certificates@1 requires a docker.build@1 step to write into";
         check (uses_index "trust-store.export-certificates@1" uses <=? uses_index "docker.build@1" uses)%nat
           "trust-store.export-certificates@1 must come before the docker.build@1 step"
       else Ret tt);
  check (length (List.filter (λ u, String.eqb u "docker.build@1") uses) <=? 1)%nat
    "a recipe may declare at most one docker.build@1 step".

Definition parse_custom (d : list (string * pyval)) (capabilities : list string)
    (custom_bytes : option bytes) : py (option string * option string) :=
  match dget "custom_entrypoint" d with
  | Some value =>
      name ← relative_setup_entrypoint value;
      _ ← check (mem "custom-code" capabilities && mem "process" capabilities)
            "custom_entrypoint requires custom-code and process capabilities";
      match custom_bytes with
      | None => invalid "custom_entrypoint bytes are required for hash binding"
      | Some content => Ret (Some name, Some (sha256_hexdigest content))
      end
  | None =>
      _ ← check (bool_decide (custom_bytes = None)) "custom bytes supplied without custom_entrypoint";
      Ret (None, None)
  end.

Definition is_two (v : pyval) : bool := match v with VInt 2 => true | _ => false end.

Definition parse_document (raw : bytes) (artifact_key descriptor_path : string)
    (custom_bytes : option bytes) : py SetupInstaller :=
  data ← py_loads_bytes raw;
  match data with
  | VDict d =>
      let unknown := set_minus (dkeys d) TOP_FIELDS in
      _ ← check (bool_decide (unknown = [])) ("unknown field(s): " +:+ join ", " unknown);
      let missing := set_minus (List.filter (λ f, negb (String.eqb f "custom_entrypoint")) TOP_FIELDS)
                       (dkeys d) in
      _ ← check (bool_decide (missing = [])) ("missing field(s): " +:+ join ", " missing);
      schema_version ← field d "schema_version";
      protocol_version ← field d "protocol_version";
      _ ← check (is_two schema_version && is_two protocol_version)
            ("schema_version and protocol_version must both be 2; a superseded recipe is "
             +:+ "migrated by raising both to 2 and adding the package-root SETUP.md route");
      artifact_raw ← field d "artifact";
      artifact ← single_line artifact_raw "artifact";
      _ ← check (fullmatch ARTIFACT_KEY artifact)
            "artifact must be a directory-shaped skill, hook, or mcp TYPE/NAME";
      _ ← check (String.eqb artifact artifact_key)
            ("artifact " +:+ repr artifact +:+ " does not match containing " +:+ repr artifact_key);
      purpose_raw ← field d "purpose"; purpose ← single_line purpose_raw "purpose";
      platforms_raw ← field d "platforms"; platforms ← string_list platforms_raw "platforms";
      _ ← check (negb (bool_decide (platforms = [])) && negb (has_dups platforms)
                 && forallb (String.eqb "darwin") platforms)
            "platforms must be the non-empty list ['darwin']";
      help_raw ← field d "help_urls";
      help_urls ← match help_raw with
                  | VList l => parse_help_urls 0 l
                  | _ => invalid "help_urls must be a list"
                  end;
      tools_raw ← field d "required_tools";
      required_tools ← string_list tools_raw "required_tools";
      _ ← check (negb (has_dups required_tools)) "required_tools must not contain duplicates";
      capabilities_raw ← field d "capabilities";
      capabilities ← string_list capabilities_raw "capabilities";
      _ ← check (negb (has_dups capabilities)) "capabilities must not contain duplicates";
      let unknown_capabilities := set_minus capabilities CAPABILITIES in
      _ ← check (bool_decide (unknown_capabilities = []))
            ("unknown capabilities: " +:+ join ", " unknown_capabilities);
      inputs_raw ← field d "inputs";
      inputs ← match inputs_raw with
               | VList l => parse_inputs 0 l []
               | _ => invalid "inputs must be a list"
               end;
      steps_raw ← field d "steps";
      steps ← match steps_raw with
              | VList ((_ :: _) as l) =>
                  validate_steps l []
                    (MkDeclared (typed_ids "secret" inputs) (typed_ids "text" inputs)
                       capabilities required_tools)
              | _ => invalid "steps must be a non-empty list"
              end;
      _ ← check_build (map st_use steps);
      custom ← parse_custom d capabilities custom_bytes;
      manual ← manual_path descriptor_path;
      Ret (MkInstaller 2 2 artifact purpose platforms help_urls required_tools capabilities inputs steps
             descriptor_path (sha256_hexdigest raw) manual custom.1 custom.2)
  | _ => invalid "installer must be a JSON object"
  end.

Definition parse_installer (raw : bytes) (artifact_key descriptor_path : string)
    (custom_bytes : option bytes) : py (string + SetupInstaller) :=
  caught ("invalid setup installer for " +:+ artifact_key +:+ ": ")
    (parse_document raw artifact_key descriptor_path custom_bytes).

(** The interface of the package loader, implemented. *)
#[export] Instance setup_protocol : SetupProtocol := {|
  NativeTree.SetupInstaller := SetupInstaller;
  NativeTree.si_platforms := si_platforms;
  NativeTree.si_manual_path := si_manual_path;
  NativeTree.custom_entrypoint_name := custom_entrypoint_name;
  NativeTree.parse_installer := parse_installer;
  NativeTree.has_manual_setup_header := has_manual_setup_header;
  NativeTree.planned_capabilities := planned_capabilities
|}.
End recipe.
