(* ===== verification/SetupRecipeSpec.v ===== *)
(** What an accepted recipe promises: unique declarations, steps that stay
    within the declared capabilities and inputs, secrets that only the
    Keychain module reads, and hashes that bind the recipe and its script. *)
From S2P Require Import Prelude PyText TextSearch Posix Regex Encodings Domain Json JsonParse Configuration NativeTree PyJson SetupModel SetupRecipe.
From Stdlib Require Import Ascii.
Open Scope Z_scope.

(** A text that occurs in a value, as an element or under a key. *)
Inductive occurs (t : string) : pyval → Prop :=
  | occurs_str : occurs t (VStr t)
  | occurs_list l v : v ∈ l → occurs t v → occurs t (VList l)
  | occurs_tuple l v : v ∈ l → occurs t v → occurs t (VTuple l)
  | occurs_dict d k v : (k, v) ∈ d → occurs t v → occurs t (VDict d).

(** A text names a secret when it holds [${id}] or [{{id}}]. *)
Definition names_secret (secret t : string) : Prop :=
  contains ("${" +:+ secret +:+ "}") t = true ∨ contains ("{{" +:+ secret +:+ "}}") t = true.

(** ** Values, by induction on their nesting *)
Definition is_leaf (v : pyval) : bool :=
  match v with VList _ | VTuple _ | VDict _ => false | _ => true end.
Section pyval_ind.
Context (P : pyval → Prop).
Hypothesis (Hleaf : ∀ v, is_leaf v = true → P v).
Hypothesis (Hlist : ∀ l, Forall P l → P (VList l)).
Hypothesis (Htuple : ∀ l, Forall P l → P (VTuple l)).
Hypothesis (Hdict : ∀ d, Forall (λ kv, P kv.2) d → P (VDict d)).
Fixpoint pyval_nested_ind (v : pyval) : P v :=
  let fix go (l : list pyval) : Forall P l :=
    match l with [] => Forall_nil_2 _ | v :: l => Forall_cons_2 _ _ _ (pyval_nested_ind v) (go l) end in
  let fix god (d : list (string * pyval)) : Forall (λ kv, P kv.2) d :=
    match d with
    | [] => Forall_nil_2 _
    | kv :: d => Forall_cons_2 _ _ _ (pyval_nested_ind kv.2) (god d)
    end in
  match v with
  | VList l => Hlist l (go l)
  | VTuple l => Htuple l (go l)
  | VDict d => Hdict d (god d)
  | VNone => Hleaf VNone eq_refl
  | VBool b => Hleaf (VBool b) eq_refl
  | VInt n => Hleaf (VInt n) eq_refl
  | VFloat f => Hleaf (VFloat f) eq_refl
  | VStr s => Hleaf (VStr s) eq_refl
  end.
End pyval_ind.

Lemma occurs_freeze t v : occurs t (freeze v) → occurs t v.
Proof.
  induction v as [v Hl|l IH|l IH|d IH] using pyval_nested_ind.
  - by destruct v.
  - cbn. inversion 1 as [| |? w Hw Ho|]; subst.
    apply list_elem_of_fmap in Hw as (x & -> & Hx). rewrite Forall_forall in IH.
    apply (occurs_list _ _ x); auto.
  - done.
  - cbn. inversion 1 as [| | |? k w Hw Ho]; subst.
    apply list_elem_of_fmap in Hw as ([k' x] & [= -> ->] & Hx). rewrite Forall_forall in IH.
    apply (occurs_dict _ _ k' x); [done|]. by apply (IH _ Hx).
Qed.

Section spec.
Context `{UnicodeData} `{IpAddress} `{PyNumbers}.

Lemma check_Ret ok message u : check ok message = Ret u ↔ ok = true.
Proof. unfold check, invalid. destruct ok; [by destruct u|done]. Qed.
Lemma each_Ret {A} (f : A → py unit) l u : each f l = Ret u ↔ ∀ x, x ∈ l → f x = Ret tt.
Proof.
  unfold each. destruct u. split.
  - intros (k & Hk & _)%bind_Ret x Hx. apply mapM_Ret in Hk.
    apply list_elem_of_lookup in Hx as [i Hi].
    destruct (Forall2_lookup_l _ _ _ _ _ Hk Hi) as ([] & _ & Hf). done.
  - intros Hf. apply bind_Ret. exists (replicate (length l) tt). split; [|done].
    apply mapM_Ret. apply Forall2_same_length_lookup_2; [by rewrite length_replicate|].
    intros i x [] Hx _. apply Hf. by apply list_elem_of_lookup_2 in Hx.
Qed.

(** Split the checks of a parser that returned. *)
Ltac inv_checks :=
  inv_py;
  repeat match goal with
  | H : check _ _ = Ret _ |- _ => apply check_Ret in H
  | H : invalid _ = Ret _ |- _ => discriminate H
  end; split_guard.

(** A text the parser reads as one line; it goes on with [strip t]. *)
Definition one_line (t : string) : Prop :=
  strip t ≠ "" ∧ has_char newline t = false ∧ has_char creturn t = false.

Lemma single_line_Ret v label s : single_line v label = Ret s ↔ ∃ t, v = VStr t ∧ s = strip t ∧ one_line t.
Proof.
  unfold single_line, one_line. split.
  - destruct v; try done. destruct (_ || _) eqn:E; [done|]. intros [= <-]. split_guard.
    exists s0. split_and!; try done. by destruct (strip s0).
  - intros (t & -> & -> & Hs & -> & ->). by destruct (strip t).
Qed.

Definition line (config : list (string * pyval)) (key t : string) : Prop :=
  dget key config = Some (VStr t) ∧ one_line t.

Lemma field_Ret config key v : field config key = Ret v ↔ dget key config = Some v.
Proof. unfold field. destruct (dget key config); split; congruence. Qed.

Lemma dget_frozen key (config : list (string * pyval)) v :
  dget key config = Some v → dget key (dmap freeze config) = Some (freeze v).
Proof. rewrite dget_dmap. by intros ->. Qed.

Lemma frozen_line config key v label s : dget key config = Some v → single_line v label = Ret s →
  ∃ t, line (dmap freeze config) key t ∧ s = strip t.
Proof.
  intros Hv (t & -> & -> & Ht)%single_line_Ret. exists t. split; [|done].
  split; [|done]. by apply dget_frozen in Hv.
Qed.

(** A relative name of one component. *)
Definition one_name (name : string) : Prop :=
  isabs name = false ∧ has_char "/" name = false ∧ name ∉ [""; "."; ".."].

(** The configuration of each module, as an accepted step keeps it. *)
Inductive module_config (de : declared) : string → list (string * pyval) → Prop :=
  | mc_store config input service account :
      line config "input" input → strip input ∈ de_secret_ids de →
      line config "service" service → line config "account" account →
      (∀ v, dget "replace_existing" config = Some v → ∃ b, v = VBool b) →
      module_config de "macos-keychain.store@1" config
  | mc_keychain_env config file vars :
      line config "file" file → dget "variables" config = Some (VDict vars) → vars ≠ [] →
      (∀ name v, (name, v) ∈ vars → fullmatch ENV_NAME name = true ∧
         ∃ d service account, v = VDict d ∧ line d "service" service ∧ line d "account" account) →
      module_config de "shell.env-from-keychain@1" config
  | mc_input_env config file vars :
      line config "file" file → dget "variables" config = Some (VDict vars) → vars ≠ [] →
      (∀ name v, (name, v) ∈ vars → fullmatch ENV_NAME name = true ∧
         ∃ t, v = VStr t ∧ strip t ∈ de_text_ids de) →
      module_config de "shell.env-from-input@1" config
  | mc_block config file content :
      line config "file" file → dget "content" config = Some (VStr content) →
      (∀ v, dget "marker" config = Some v → ∃ t, v = VStr t ∧ one_line t) →
      module_config de "file.managed-block@1" config
  | mc_merge config file path :
      line config "file" file → dget "path" config = Some (VTuple path) → path ≠ [] →
      (∀ v, v ∈ path → ∃ t, v = VStr t ∧ one_line t) →
      (∀ v, dget "replace_existing" config = Some v → ∃ b, v = VBool b) →
      module_config de "json.managed-merge@1" config
  | mc_directory config path :
      line config "path" path → module_config de "directory.create@1" config
  | mc_pull config image :
      line config "image" image → digest_pinned (strip image) = true →
      "network" ∈ de_capabilities de → "process" ∈ de_capabilities de →
      module_config de "docker.pull@1" config
  | mc_build config context :
      line config "context" context → one_name (strip context) →
      "network" ∈ de_capabilities de → "process" ∈ de_capabilities de →
      "docker" ∈ de_required_tools de →
      module_config de "docker.build@1" config
  | mc_export config subject output :
      line config "subject_contains" subject → line config "output" output →
      isabs (strip output) = false → ".." ∉ split_on "/" (strip output) →
      "/usr/bin/security" ∈ de_required_tools de →
      module_config de "trust-store.export-certificates@1" config
  | mc_verify config argv :
      dget "argv" config = Some (VTuple argv) → argv ≠ [] →
      (∀ v, v ∈ argv → ∃ t, v = VStr t ∧ one_line t) →
      module_config de "command.verify@1" config
  | mc_notice config message :
      line config "message" message → module_config de "restart.notice@1" config.

Lemma validate_path_line v label s : validate_path v label = Ret s → ∃ t, v = VStr t ∧ one_line t.
Proof.
  unfold validate_path. intros Hv. inv_py.
  match goal with H : single_line _ _ = _ |- _ => apply single_line_Ret in H as (t & -> & _ & Ht) end.
  eauto.
Qed.
Lemma string_entries_tuple v label u : string_entries v label = Ret u →
  ∃ l, freeze v = VTuple l ∧ l ≠ [] ∧ ∀ w, w ∈ l → ∃ t, w = VStr t ∧ one_line t.
Proof.
  unfold string_entries. destruct v as [| | | | |[|w l]| |]; try done. rewrite each_Ret. intros Hl.
  exists (map freeze (w :: l)). split_and!; [done..|]. intros x Hx.
  apply list_elem_of_fmap in Hx as (y & -> & Hy). specialize (Hl y Hy). inv_py.
  match goal with H : single_line _ _ = _ |- _ => apply single_line_Ret in H as (t & -> & _ & Ht) end.
  eauto.
Qed.
Lemma replace_existing_bool step_id config u : replace_existing_ok step_id config = Ret u →
  ∀ v, dget "replace_existing" (dmap freeze config) = Some v → ∃ b, v = VBool b.
Proof.
  unfold replace_existing_ok. rewrite dget_dmap. destruct (dget _ config) as [v|]; [|done].
  rewrite check_Ret. intros Hb w [= <-]. destruct v; try done. eauto.
Qed.
Lemma opt_line config key label u :
  opt_field config key (λ v, _ ← single_line v label; Ret tt) = Ret u →
  ∀ v, dget key (dmap freeze config) = Some v → ∃ t, v = VStr t ∧ one_line t.
Proof.
  unfold opt_field. rewrite dget_dmap. destruct (dget key config) as [v|]; [|done].
  intros Hl w [= <-]. inv_py.
  match goal with H : single_line _ _ = _ |- _ => apply single_line_Ret in H as (t & -> & _ & Ht) end.
  eauto.
Qed.
Lemma environment_vars step_id v lookup u : environment step_id v lookup = Ret u →
  ∃ vars, v = VDict vars ∧ vars ≠ [] ∧
    ∀ name w, (name, w) ∈ vars → fullmatch ENV_NAME name = true ∧ lookup name w = Ret tt.
Proof.
  unfold environment. destruct v as [| | | | | | |[|kv vars]]; try done. rewrite each_Ret. intros Hl.
  exists (kv :: vars). split_and!; [done..|]. intros name w Hw. specialize (Hl _ Hw). cbn in Hl.
  inv_checks. split; [done|]. by match goal with u : unit |- _ => destruct u end.
Qed.

Lemma normpath_one_name name : normpath name = name →
  isabs name = false → has_char "/" name = false → name ∉ [".."; "."] → one_name name.
Proof.
  intros Hn Ha Hs Hd. split_and!; [done..|]. rewrite !elem_of_cons in *. intros [->|[->|[->|Hf]]].
  - done.
  - apply Hd. tauto.
  - apply Hd. tauto.
  - by apply elem_of_nil in Hf.
Qed.

(** Read a field's line off a check that returned. *)
Ltac read_lines :=
  repeat match goal with
  | H : field _ _ = Ret _ |- _ => apply field_Ret in H
  | Hf : dget ?key ?c = Some ?v, Hl : single_line ?v _ = Ret _ |- _ =>
      let t := fresh "t" in let Ht := fresh "Ht" in let E := fresh "E" in
      destruct (frozen_line c key v _ _ Hf Hl) as (t & Ht & E); clear Hl
  | Hf : dget ?key ?c = Some ?v, Hl : validate_path ?v _ = Ret _ |- _ =>
      let t := fresh "t" in let Ht := fresh "Ht" in
      apply validate_path_line in Hl as (t & -> & Ht); apply dget_frozen in Hf
  | u : unit |- _ => destruct u
  end; subst.

Lemma package_source_name v label s : package_relative_source v label = Ret s →
  ∃ t, v = VStr t ∧ one_line t ∧ one_name (strip t).
Proof.
  unfold package_relative_source. intros Hv. inv_py.
  match goal with H : single_line _ _ = _ |- _ => apply single_line_Ret in H as (t & -> & -> & Ht) end.
  destruct (_ || _) eqn:E; [done|]. split_guard.
  match goal with H : (_ =? _)%string = true |- _ => apply String.eqb_eq in H as Hn end.
  exists t. split_and!; try done. apply normpath_one_name; rewrite ?Hn in *; try done.
Qed.
Lemma context_file v label s : context_relative_file v label = Ret s →
  ∃ t, v = VStr t ∧ one_line t ∧ isabs (strip t) = false ∧ ".." ∉ split_on "/" (strip t).
Proof.
  unfold context_relative_file. intros Hv. inv_py.
  match goal with H : single_line _ _ = _ |- _ => apply single_line_Ret in H as (t & -> & -> & Ht) end.
  destruct (_ || _) eqn:E; [done|]. split_guard.
  match goal with H : (_ =? _)%string = true |- _ => apply String.eqb_eq in H as Hn end.
  rewrite Hn in *. by exists t.
Qed.
Lemma requires_capability_Ret step_id de c u : requires_capability step_id de c = Ret u →
  c ∈ de_capabilities de.
Proof. unfold requires_capability. by intros Hc%check_Ret%mem_true. Qed.

Lemma network_and_process step_id de u : each (requires_capability step_id de) ["network"; "process"] = Ret u →
  "network" ∈ de_capabilities de ∧ "process" ∈ de_capabilities de.
Proof.
  rewrite each_Ret. intros Hc.
  split; eapply requires_capability_Ret, Hc; rewrite !elem_of_cons; auto.
Qed.
Lemma elem_of_frozen k v (d : list (string * pyval)) :
  (k, v) ∈ dmap freeze d ↔ ∃ w, v = freeze w ∧ (k, w) ∈ d.
Proof.
  unfold dmap. rewrite list_elem_of_fmap. split.
  - intros ([k' w] & [= -> ->] & Hw). eauto.
  - intros (w & -> & Hw). by exists (k, w).
Qed.
Lemma frozen_vars (key : string) config vars : dget key config = Some (VDict vars) → vars ≠ [] →
  dget key (dmap freeze config) = Some (VDict (dmap freeze vars)) ∧ dmap freeze vars ≠ [].
Proof. intros Hv Hne. apply dget_frozen in Hv. split; [done|]. by destruct vars. Qed.
Lemma keychain_lookup_Ret step_id name w u : keychain_lookup step_id name w = Ret u →
  ∃ d service account, freeze w = VDict d ∧ line d "service" service ∧ line d "account" account.
Proof.
  unfold keychain_lookup. destruct w as [| | | | | | |d]; try done. intros Hl. inv_checks. read_lines.
  exists (dmap freeze d). by eauto.
Qed.
Lemma input_lookup_Ret step_id de name w u : input_lookup step_id de name w = Ret u →
  ∃ t, freeze w = VStr t ∧ strip t ∈ de_text_ids de.
Proof.
  unfold input_lookup. intros Hl. inv_checks.
  match goal with H : single_line _ _ = _ |- _ => apply single_line_Ret in H as (t & -> & -> & Ht) end.
  by exists t.
Qed.

Lemma validate_config_sound use step_id config de u :
  use ∈ dkeys MODULES → validate_config use step_id config de = Ret u →
  module_config de use (dmap freeze config).
Proof.
  intros Hu. unfold validate_config.
  repeat match type of Hu with
  | _ ∈ dkeys _ => apply elem_of_cons in Hu as [->|Hu]
  | _ ∈ _ :: _ => apply elem_of_cons in Hu as [->|Hu]
  | _ ∈ [] => by apply elem_of_nil in Hu
  end; cbn [fst String.eqb Ascii.eqb Bool.eqb]; intros Hc; inv_checks; read_lines.
  all: try match goal with
    | H : replace_existing_ok _ _ = Ret _ |- _ => pose proof (replace_existing_bool _ _ _ H)
    end.
  all: try match goal with
    | H : environment _ _ _ = Ret _ |- _ => apply environment_vars in H as (vars & -> & Hne & Hvars)
    end.
  - by eapply mc_store.
  - destruct (frozen_vars _ _ _ Hv0 Hne) as [Hd Hn].
    eapply mc_keychain_env; [by split|done..|]. intros name v (w & -> & Hw)%elem_of_frozen.
    destruct (Hvars _ _ Hw) as [He Hl]. split; [done|by eapply keychain_lookup_Ret].
  - destruct (frozen_vars _ _ _ Hv0 Hne) as [Hd Hn].
    eapply mc_input_env; [by split|done..|]. intros name v (w & -> & Hw)%elem_of_frozen.
    destruct (Hvars _ _ Hw) as [He Hl]. split; [done|by eapply input_lookup_Ret].
  - destruct v1; try done. apply dget_frozen in Hv1.
    eapply mc_block; [by split|done|by eapply opt_line].
  - apply string_entries_tuple in Hv1 as (l & Hl & Hne & Hline). apply dget_frozen in Hv0.
    rewrite Hl in Hv0. by eapply mc_merge; [split|..].
  - by eapply mc_directory; split.
  - apply network_and_process in Hc as [Hn Hp]. by eapply mc_pull.
  - apply network_and_process in Hv2 as [Hn Hp].
    apply package_source_name in Hv0 as (t & -> & Ht & Hname). apply dget_frozen in Hv.
    by eapply mc_build; [split|..].
  - apply context_file in Hv1 as (o & -> & Ho & Ha & Hp). apply dget_frozen in Hv0.
    by eapply mc_export; [|split|..].
  - apply string_entries_tuple in Hv0 as (l & Hl & Hne & Hline). apply dget_frozen in Hv.
    rewrite Hl in Hv. by eapply mc_verify.
  - by eapply mc_notice.
Qed.

(** * Steps *)

(** A step of an accepted recipe. *)
Record valid_step (de : declared) (step : SetupStep) : Prop := {
  vs_module : ∃ spec, dget (st_use step) MODULES = Some spec
    ∧ (∀ c, mod_capability spec = Some c → c ∈ de_capabilities de)
    ∧ (∀ key, key ∈ dkeys (st_config step) → key ∈ mod_allowed spec)
    ∧ (∀ key, key ∈ mod_required spec → key ∈ dkeys (st_config step));
  vs_config : module_config de (st_use step) (st_config step);
  vs_secrets : st_use step ≠ "macos-keychain.store@1" →
    ∀ t secret, occurs t (VDict (st_config step)) → secret ∈ de_secret_ids de → ¬ names_secret secret t
}.

Lemma mentions_secret_spec t ids : mentions_secret t ids = false →
  ∀ secret, secret ∈ ids → ¬ names_secret secret t.
Proof.
  unfold mentions_secret, names_secret. intros Hm secret Hs Hn.
  assert (existsb (λ i, contains ("${" +:+ i +:+ "}") t || contains ("{{" +:+ i +:+ "}}") t) ids = true) as E.
  { apply existsb_In. exists secret. split; [done|]. by apply orb_true_iff. }
  congruence.
Qed.
Lemma existsb_false {A} (p : A → bool) l : existsb p l = false → ∀ x, x ∈ l → p x = false.
Proof.
  intros Hp x Hx. destruct (p x) eqn:E; [|done].
  rewrite <-Hp. symmetry. apply existsb_In. eauto.
Qed.
Lemma forallb_elem {A} (p : A → bool) l : forallb p l = true → ∀ x, x ∈ l → p x = true.
Proof. intros Hp x Hx. apply forallb_forall with (x := x) in Hp; [done|by apply list_elem_of_In]. Qed.
Lemma interpolation_spec ids v : contains_secret_interpolation v ids = false → json_shaped v = true →
  ∀ t secret, occurs t (freeze v) → secret ∈ ids → ¬ names_secret secret t.
Proof.
  intros Hc Hj t secret Ho%occurs_freeze Hs. revert Hc Hj. induction Ho as [|l v Hv _ IH|l v Hv _ IH|d k v Hv _ IH]; cbn.
  - intros Hm _. by eapply mentions_secret_spec.
  - intros Hc Hj. apply IH; [by eapply (existsb_false _ _ Hc)|].
    by apply (forallb_elem _ _ Hj).
  - done.
  - intros Hc Hj. apply IH; [by apply (existsb_false _ _ Hc (k, v))|].
    by apply (forallb_elem _ _ Hj (k, v)).
Qed.

Lemma set_minus_nil keys other : set_minus keys other = [] → ∀ key, key ∈ keys → key ∈ other.
Proof.
  unfold set_minus. intros Hn key Hk. apply sorted_nil_iff in Hn.
  eapply filter_nil_iff in Hn; [|done]. by split_guard.
Qed.

#[local] Arguments dget : simpl never.
#[local] Arguments String.eqb : simpl never.
Lemma validate_step_sound raw step_ids de step :
  validate_step raw step_ids de = Ret step → json_shaped raw = true →
  st_id step ∉ step_ids ∧ valid_step de step.
Proof.
  unfold validate_step. destruct raw as [| | | | | | |d]; try done. intros Hs Hj. inv_checks.
  match type of Hs with match ?m with _ => _ end = _ => destruct m as [spec|] eqn:Hm; [|done] end.
  inv_checks.
  match type of Hs with match ?w with _ => _ end = _ =>
    destruct w as [| | | | | | |config]; try done end.
  inv_checks. split; [done|].
  match goal with H : field d "with" = _ |- _ => apply field_Ret, dget_elem_of in H as Hwith end.
  pose proof (forallb_elem _ _ Hj _ Hwith) as Hshape.
  assert (Hkeys : dkeys (dmap freeze config) = dkeys config) by apply dkeys_dmap.
  split; cbn [st_use st_config].
  - exists spec. split; [done|]. rewrite Hkeys. split.
    + intros c Hc. match goal with H : match mod_capability spec with _ => _ end = _ |- _ =>
        rewrite Hc in H; by eapply requires_capability_Ret end.
    + split; by apply set_minus_nil.
  - eapply validate_config_sound; [|done]. apply dget_is_Some. eauto.
  - intros Hu t secret Ho Hs. eapply (interpolation_spec _ (VDict config)); [|done..].
    match goal with H : _ || _ = true |- _ => apply orb_true_iff in H as [E%String.eqb_eq|E] end; [done|].
    by apply negb_true_iff in E.
Qed.

Lemma validate_steps_sound raws steps de r :
  validate_steps raws steps de = Ret r → forallb json_shaped raws = true →
  NoDup (map st_id steps) → Forall (valid_step de) steps →
  NoDup (map st_id r) ∧ Forall (valid_step de) r ∧ length r = (length steps + length raws)%nat.
Proof.
  revert steps. induction raws as [|raw raws IH]; intros steps; cbn [validate_steps].
  { intros [= ->] _ Hn Hf. split_and!; [done..|]. cbn. lia. }
  intros Hr [Hraw Hraws]%andb_true_iff Hn Hf. inv_py.
  match goal with H : validate_step _ _ _ = Ret ?s |- _ => apply validate_step_sound in H as [Hs Hv]; [|done];
    destruct (IH (steps ++ [s])) as (Hn' & Hf' & Hl); [done|done| | |] end.
  - rewrite map_app. apply NoDup_app. split_and!; [done| |apply NoDup_singleton].
    intros x Hx ->%list_elem_of_singleton. done.
  - apply Forall_app. by split; [|apply Forall_singleton].
  - split_and!; [done..|]. rewrite Hl, length_app. cbn. lia.
Qed.

(** * Inputs *)

Record valid_input (i : SetupInput) : Prop := {
  vi_id : fullmatch IDENTIFIER (in_id i) = true;
  vi_type : in_type i = "secret" ∨ in_type i = "text"
}.
Lemma parse_input_sound index entry ids i : parse_input index entry ids = Ret i →
  in_id i ∉ ids ∧ valid_input i.
Proof.
  unfold parse_input. destruct entry as [| | | | | | |d]; try done. intros Hi. inv_checks.
  split; [done|]. split; [done|]. cbn [in_type].
  match goal with H : input_type _ ?t = Ret _ |- _ => unfold input_type in H; destruct t; try discriminate H;
    destruct (mem _ _) eqn:Hm in H; [|discriminate H]; injection H as <- end.
  apply mem_true in Hm. rewrite !elem_of_cons in Hm. destruct Hm as [->|[->|Hm]]; [by left|by right|].
  by apply elem_of_nil in Hm.
Qed.
Lemma parse_inputs_sound index entries inputs r :
  parse_inputs index entries inputs = Ret r → NoDup (map in_id inputs) → Forall valid_input inputs →
  NoDup (map in_id r) ∧ Forall valid_input r.
Proof.
  revert index inputs. induction entries as [|entry entries IH]; intros index inputs; cbn [parse_inputs].
  { by intros [= ->]. }
  intros Hr Hn Hf. inv_py.
  match goal with H : parse_input _ _ _ = Ret ?i |- _ => apply parse_input_sound in H as [Hi Hv];
    apply (IH (S index) (inputs ++ [i])); [done| |] end.
  - rewrite map_app. apply NoDup_app. split_and!; [done| |apply NoDup_singleton].
    intros x Hx ->%list_elem_of_singleton. done.
  - apply Forall_app. by split; [|apply Forall_singleton].
Qed.

(** * The document *)

Definition declared_of (r : SetupInstaller) : declared :=
  MkDeclared (typed_ids "secret" (si_inputs r)) (typed_ids "text" (si_inputs r))
    (si_capabilities r) (si_required_tools r).
Definition uses_of (r : SetupInstaller) : list string := map st_use (si_steps r).

(** What a recipe read from [raw] for [artifact_key], with the bytes of its
    script, promises. *)
Record accepted_recipe (raw : bytes) (artifact_key descriptor_path : string) (script : option bytes)
    (r : SetupInstaller) : Prop := {
  ar_artifact : si_artifact r = artifact_key ∧ fullmatch ARTIFACT_KEY artifact_key = true;
  ar_hash : si_descriptor_hash r = sha256_hexdigest raw ∧ si_descriptor_path r = descriptor_path;
  ar_manual : manual_path descriptor_path = Ret (si_manual_path r);
  ar_platforms : si_platforms r = ["darwin"];
  ar_capabilities : NoDup (si_capabilities r) ∧ ∀ c, c ∈ si_capabilities r → c ∈ CAPABILITIES;
  ar_inputs : NoDup (map in_id (si_inputs r)) ∧ Forall valid_input (si_inputs r);
  ar_steps : si_steps r ≠ [] ∧ NoDup (map st_id (si_steps r))
             ∧ Forall (valid_step (declared_of r)) (si_steps r);
  ar_build : ∀ i j, uses_of r !! i = Some "docker.build@1" → uses_of r !! j = Some "docker.build@1" → i = j;
  ar_export : "trust-store.export-certificates@1" ∈ uses_of r →
    ∃ i j, uses_of r !! i = Some "trust-store.export-certificates@1"
           ∧ uses_of r !! j = Some "docker.build@1" ∧ (i < j)%nat
           ∧ ∀ k, uses_of r !! k = Some "trust-store.export-certificates@1" → (i ≤ k)%nat;
  ar_script : match si_custom_entrypoint r with
              | Some _ => "custom-code" ∈ si_capabilities r ∧ "process" ∈ si_capabilities r
                          ∧ ∃ content, script = Some content
                                       ∧ si_custom_hash r = Some (sha256_hexdigest content)
              | None => script = None ∧ si_custom_hash r = None
              end
}.

Lemma caught_Ret {A} prefix_ (m : py A) a : caught prefix_ m = Ret (inr a) ↔ m = Ret a.
Proof. split; [|by intros ->]. destruct m as [b|e]; [by intros [= ->]|by destruct e]. Qed.

Lemma uses_index_lookup use uses : use ∈ uses → uses !! uses_index use uses = Some use.
Proof.
  intros Hu. unfold uses_index.
  destruct (list_find (λ u, u = use) uses) as [[i u]|] eqn:E; cbn.
  - by apply list_find_Some in E as (Hi & -> & _).
  - apply list_find_None in E. rewrite Forall_forall in E. by destruct (E _ Hu).
Qed.
Lemma one_build uses : (length (List.filter (λ u, String.eqb u "docker.build@1") uses) ≤ 1)%nat →
  ∀ i j, uses !! i = Some "docker.build@1" → uses !! j = Some "docker.build@1" → i = j.
Proof.
  induction uses as [|u uses IH]; [done|]. cbn [List.filter].
  assert (Hin : ∀ i, uses !! i = Some "docker.build@1" →
    (1 ≤ length (List.filter (λ u, String.eqb u "docker.build@1") uses))%nat).
  { intros i Hi. destruct (List.filter _ uses) eqn:E; [|cbn; lia].
    eapply filter_nil_iff in E; [|by eapply list_elem_of_lookup_2]. by rewrite String.eqb_refl in E. }
  destruct (String.eqb u _) eqn:Hu; cbn [length]; intros Hl [|i] [|j]; cbn [lookup list_lookup]; try done.
  - intros _ Hj%Hin. lia.
  - intros Hi%Hin _. lia.
  - intros Hi%Hin _. lia.
  - intros [= ->]. by rewrite String.eqb_refl in Hu.
  - intros _ [= ->]. by rewrite String.eqb_refl in Hu.
  - intros Hi Hj. f_equal. by apply IH.
Qed.
Lemma uses_index_first use uses k : uses !! k = Some use → (uses_index use uses ≤ k)%nat.
Proof.
  intros Hk. unfold uses_index. destruct (list_find (λ u, u = use) uses) as [[i u]|] eqn:E; cbn; [|lia].
  apply list_find_Some in E as (_ & _ & Hf). destruct (decide (k < i)%nat) as [Hlt|]; [|lia]. by destruct (Hf k use Hk Hlt).
Qed.
Lemma check_build_sound uses u : check_build uses = Ret u →
  (∀ i j, uses !! i = Some "docker.build@1" → uses !! j = Some "docker.build@1" → i = j)
  ∧ ("trust-store.export-certificates@1" ∈ uses →
     ∃ i j, uses !! i = Some "trust-store.export-certificates@1" ∧ uses !! j = Some "docker.build@1"
            ∧ (i < j)%nat ∧ ∀ k, uses !! k = Some "trust-store.export-certificates@1" → (i ≤ k)%nat).
Proof.
  unfold check_build. intros Hc. inv_checks. apply Nat.leb_le in Hc. split; [by apply one_build|].
  intros He. destruct (mem _ uses) eqn:Hm in *; [|by split_guard]. inv_checks.
  exists (uses_index "trust-store.export-certificates@1" uses), (uses_index "docker.build@1" uses).
  rewrite !uses_index_lookup by done. split_and!; [done..| |by apply uses_index_first].
  match goal with H : (_ <=? _)%nat = true |- _ => apply Nat.leb_le in H as Hle end.
  assert (uses_index "trust-store.export-certificates@1" uses ≠ uses_index "docker.build@1" uses); [|lia].
  intros E. apply uses_index_lookup in He. rewrite E, uses_index_lookup in He by done. done.
Qed.

Lemma darwin_only l : l ≠ [] → NoDup l → forallb (String.eqb "darwin") l = true → l = ["darwin"].
Proof.
  intros Hne Hn Hd. destruct l as [|a [|b l]]; [done|..].
  - cbn [forallb] in Hd. split_guard. by match goal with H : (_ =? a)%string = true |- _ => apply String.eqb_eq in H as <- end.
  - cbn [forallb] in Hd. split_guard. repeat match goal with H : (_ =? _)%string = true |- _ =>
      apply String.eqb_eq in H; subst end.
    exfalso. apply NoDup_cons in Hn as [Hn _]. apply Hn. by left.
Qed.

#[local] Opaque sha256_hexdigest.
Lemma parse_custom_sound d capabilities script c : parse_custom d capabilities script = Ret c →
  match c.1 with
  | Some _ => "custom-code" ∈ capabilities ∧ "process" ∈ capabilities
              ∧ ∃ content, script = Some content ∧ c.2 = Some (sha256_hexdigest content)
  | None => script = None ∧ c.2 = None
  end.
Proof.
  unfold parse_custom. destruct (dget _ d) as [v|]; intros Hc; inv_checks; [|done].
  destruct script as [content|]; [|done]. injection Hc as <-. cbn. split_and!; [done..|]. by exists content.
Qed.
Lemma steps_sound raws de steps :
  match raws with VList ((_ :: _) as l) => validate_steps l [] de
  | _ => invalid "steps must be a non-empty list" end = Ret steps → json_shaped raws = true →
  steps ≠ [] ∧ NoDup (map st_id steps) ∧ Forall (valid_step de) steps.
Proof.
  destruct raws as [| | | | |[|raw l]| |]; try done. intros Hs Hj.
  apply validate_steps_sound in Hs as (Hn & Hf & Hl); [|done|by constructor|by constructor].
  split; [|done]. by destruct steps.
Qed.
Lemma inputs_sound raws inputs :
  match raws with VList l => parse_inputs 0 l [] | _ => invalid "inputs must be a list" end = Ret inputs →
  NoDup (map in_id inputs) ∧ Forall valid_input inputs.
Proof. destruct raws; try done. intros Hi. by apply parse_inputs_sound in Hi; [|constructor..]. Qed.

(** An accepted recipe is sound in every part. *)
Lemma parse_document_sound raw artifact_key descriptor_path script r :
  parse_document raw artifact_key descriptor_path script = Ret r →
  accepted_recipe raw artifact_key descriptor_path script r.
Proof.
  unfold parse_document. intros Hp. inv_py.
  match goal with H : py_loads_bytes _ = Ret ?v |- _ => unfold py_loads_bytes in H;
    destruct (valid_utf8 raw); [|done]; apply py_loads_shaped in H as Hj;
    destruct v as [| | | | | | |d]; try done end.
  inv_checks.
  assert (Hshape : ∀ key v, field d key = Ret v → json_shaped v = true).
  { intros key w Hw%field_Ret%dget_elem_of. by apply (forallb_elem _ _ Hj (key, w)). }
  repeat match goal with
  | H : (_ =? _)%string = true |- _ => apply String.eqb_eq in H; subst
  | H : string_list ?v "platforms" = Ret ?l, Hd : forallb _ ?l = true |- _ =>
      apply darwin_only in Hd; [|done..]; subst
  | H : match ?v with _ => _ end = Ret (_ : list SetupStep), Hf : field d "steps" = Ret ?v |- _ =>
      apply steps_sound in H; [|by eapply Hshape]
  | H : match ?v with _ => _ end = Ret (_ : list SetupInput) |- _ => apply inputs_sound in H
  | H : parse_custom _ _ _ = Ret _ |- _ => apply parse_custom_sound in H
  | H : check_build _ = Ret _ |- _ => apply check_build_sound in H as [? ?]
  | H : set_minus ?l CAPABILITIES = [] |- _ => pose proof (set_minus_nil _ _ H); clear H
  end.
  split; cbn -[fullmatch]; solve [done | by split].
Qed.

End spec.

(** * Recipes *)

Definition plain_numbers : PyNumbers := {|
  float_repr := id; float_eq := String.eqb; float_integer _ := None; float_nonzero _ := true;
  int_of_float _ := Raise (OverflowError "cannot convert float to integer"); int_of_text s := Ret (int_of s);
  json_error_text _ := "Expecting value: line 1 column 1 (char 0)";
  utf8_error_text _ := "invalid start byte"
|}.
Definition sample_step (id_ use : string) (config : list (string * pyval)) : pyval :=
  VDict [("id", VStr id_); ("use", VStr use); ("with", VDict config)].
Definition sample_input (id_ : string) (type_ : pyval) : pyval :=
  VDict [("id", VStr id_); ("type", type_); ("prompt", VStr "Token")].
Definition sample_recipe (help_url : string) (inputs steps : list pyval) : bytes :=
  @py_dumps plain_numbers (VDict
    [("schema_version", VInt 2); ("protocol_version", VInt 2); ("artifact", VStr "mcp/jira");
     ("purpose", VStr "Configure Jira"); ("platforms", VList [VStr "darwin"]);
     ("help_urls", VList [VDict [("label", VStr "Docs"); ("url", VStr help_url)]]);
     ("required_tools", VList [VStr "/usr/bin/security"; VStr "docker"]);
     ("capabilities", VList [VStr "keychain"; VStr "filesystem"; VStr "docker"; VStr "network";
                             VStr "process"; VStr "trust-store"]);
     ("inputs", VList inputs); ("steps", VList steps)]).
Definition sample_parse (raw : bytes) : py (string + SetupInstaller) :=
  @parse_installer ascii_unicode no_ipv6 plain_numbers raw "mcp/jira" "setup/installer.json" None.
Definition secret_input : pyval := sample_input "token" (VStr "secret").
Definition store_step (input : string) : pyval :=
  sample_step "store" "macos-keychain.store@1"
    [("input", VStr input); ("service", VStr "jira"); ("account", VStr "me")].
Definition export_step (id_ : string) : pyval :=
  sample_step id_ "trust-store.export-certificates@1"
    [("subject_contains", VStr "Corp"); ("output", VStr (id_ +:+ ".pem"))].
Definition build_step : pyval := sample_step "build" "docker.build@1" [("context", VStr "image")].

(** The identifiers of the steps of an accepted recipe, or the error. *)
Definition sample_outcome (raw : bytes) : py (string + list string) :=
  parsed ← sample_parse raw;
  Ret match parsed with inl e => inl e | inr r => inr (map st_id (si_steps r)) end.

Definition good_recipe : bytes :=
  sample_recipe "https://example.com/docs" [secret_input] [store_step "token"; export_step "ca"; build_step].
Example good_recipe_accepted : sample_outcome good_recipe = Ret (inr ["store"; "ca"; "build"]).
Proof. by vm_compute. Qed.
Definition mentions_token : pyval :=
  sample_step "rc" "file.managed-block@1" [("file", VStr "~/.zshrc"); ("content", VStr "export T=${token}")].
Example interpolation_refused :
  sample_outcome (sample_recipe "https://example.com/docs" [secret_input] [mentions_token])
  = Ret (inl "invalid setup installer for mcp/jira: step 'rc' cannot interpolate a secret input").
Proof. by vm_compute. Qed.

(** An input whose type is a list raises [TypeError], which nothing catches. *)
Example unhashable_input_type :
  sample_parse (sample_recipe "https://example.com/docs" [sample_input "token" (VList [])] [store_step "token"])
  = Raise (TypeError "unhashable type: 'list'").
Proof. by vm_compute. Qed.
(** So does a help URL that [urlparse] refuses. *)
Example bracketed_url_raises :
  sample_parse (sample_recipe "https://[docs" [secret_input] [store_step "token"])
  = Raise (ValueError "Invalid URL").
Proof. by vm_compute. Qed.
(** A second export may follow the build, which has then built without it. *)
Example late_export_accepted :
  sample_outcome (sample_recipe "https://example.com/docs" [secret_input]
                    [export_step "ca"; build_step; export_step "late"])
  = Ret (inr ["ca"; "build"; "late"]).
Proof. by vm_compute. Qed.
(** [true] is a timeout of one second. *)
Example boolean_timeout_accepted :
  sample_outcome (sample_recipe "https://example.com/docs" []
    [sample_step "check" "command.verify@1" [("argv", VList [VStr "true"]); ("timeout", VBool true)]])
  = Ret (inr ["check"]).
Proof. by vm_compute. Qed.

