(* ===== verification/SetupPlan.v ===== *)
(** [setup.py], planning: the exact effects of a recipe for one installed
    artifact, and the hash that binds them; the manual route; the commands a
    record names; the check that a receipt belongs to a plan. *)
From S2P Require Import Prelude PyText TextSearch Posix Regex Encodings Domain Redaction Profiles PyJson SetupModel SetupRecipe.
From Stdlib Require Import Ascii.
Open Scope Z_scope.

(** [shlex.quote] *)
Definition is_shell_safe (c : ascii) : bool := is_alnum c || has_char c "_@%+=:,./-".
Definition double_quote : string := String "034" "".
Definition shell_quote (s : string) : string :=
  if str_empty s then "''"
  else if str_forall is_shell_safe s then s
  else "'" +:+ replace_sub "'" ("'" +:+ double_quote +:+ "'" +:+ double_quote +:+ "'") s +:+ "'".

Section plan.
Context `{UnicodeData} `{IpAddress : Configuration.IpAddress} `{PyNumbers} `{WorkingDirectory}.

(** [str(config[key])], and the mapping of a field *)
Definition text_field (config : list (string * pyval)) (key : string) : py string :=
  v ← field config key; Ret (py_str v).
Definition mapping_field (config : list (string * pyval)) (key : string) : py (list (string * pyval)) :=
  v ← field config key;
  match v with VDict d => Ret d | _ => Raise AssertionError end.
(** [bool(config.get("replace_existing", False))] *)
Definition replaces (config : list (string * pyval)) : bool :=
  match dget "replace_existing" config with Some v => truthy v | None => false end.

Definition artifact_of (item : SetupQueueItem) : string :=
  qi_artifact_type item +:+ "/" +:+ qi_artifact_name item.
Definition image_tag (item : SetupQueueItem) : string :=
  "aart/" +:+ artifact_of item +:+ ":" +:+ qi_artifact_version item.

(** [resolve_package_source] *)
Definition package_root (item : SetupQueueItem) : string :=
  abspath (pjoin (abspath (qi_source_root item))
             (dirname (dirname (normpath (si_descriptor_path (qi_installer item)))))).
Definition resolve_package_source (item : SetupQueueItem) (path : string) : py string :=
  let root := package_root item in
  let candidate := abspath (pjoin root path) in
  let escapes := invalid ("package source " +:+ repr path +:+ " escapes the package root") in
  if String.eqb candidate root then escapes
  else
    common ← commonpath root candidate;
    if negb (String.eqb common root) then escapes else Ret candidate.
Definition build_context_source (item : SetupQueueItem) : py string :=
  match List.find (λ step, String.eqb (st_use step) "docker.build@1") (si_steps (qi_installer item)) with
  | Some step => context ← text_field (st_config step) "context"; resolve_package_source item context
  | None => Ret ""
  end.

(** [_resolve_target] *)
Definition resolve_target (path target_root home_root : string) : string :=
  if String.eqb path "~" then abspath home_root
  else if String.prefix "~/" path then normpath (pjoin (abspath home_root) (str_drop 2 path))
  else if isabs path then normpath path
  else normpath (pjoin (abspath target_root) path).

(** [_shell_block] *)
Definition shell_row (name : string) (raw_lookup : pyval) : py string :=
  match raw_lookup with
  | VDict lookup =>
      service ← text_field lookup "service";
      account ← text_field lookup "account";
      Ret ("export " +:+ name +:+ "=" +:+ double_quote +:+ "$(/usr/bin/security find-generic-password "
           +:+ "-a " +:+ shell_quote account +:+ " -s " +:+ shell_quote service
           +:+ " -w 2>/dev/null)" +:+ double_quote)
  | _ => Raise AssertionError
  end.
Definition shell_block (variables : list (string * pyval)) : py string :=
  rows ← mapM (λ kv, shell_row kv.1 kv.2) variables;
  Ret (join (String newline "") rows).

(** The prompt of the declared input with an identifier: the first one for
    [next(...)], the last one for a dictionary of the inputs. *)
Definition first_prompt (inputs : list SetupInput) (input_id : string) : py string :=
  match List.find (λ i, String.eqb (in_id i) input_id) inputs with
  | Some i => Ret (in_prompt i)
  | None => Raise StopIteration
  end.
Definition input_prompts (inputs : list SetupInput) (variables : list (string * pyval)) :
    py (list (string * pyval)) :=
  let declared := dict_of (map (λ i, (in_id i, in_prompt i)) inputs) in
  prompts ← mapM (λ kv, match dget (py_str kv.2) declared with
                        | Some prompt => Ret (py_str kv.2, VStr prompt)
                        | None => Raise (KeyError (py_str kv.2))
                        end) variables;
  Ret (dict_of prompts).

(** What the branch of one module decides: target, argv, whether it can be
    undone, the summary and the configuration. *)
Record planned := MkPlanned {
  p_target : string; p_argv : list string; p_reversible : bool; p_summary : string;
  p_config : list (string * pyval)
}.
Definition step_marker (item : SetupQueueItem) (step : SetupStep) : string :=
  artifact_of item +:+ "@" +:+ qi_profile item +:+ ":" +:+ st_id step.

Definition plan_step (item : SetupQueueItem) (step : SetupStep)
    (target_root home_root context_source : string) : py planned :=
  let config := st_config step in
  let use := st_use step in
  let target_of key := path ← text_field config key; Ret (resolve_target path target_root home_root) in
  if String.eqb use "macos-keychain.store@1" then
    service ← text_field config "service";
    account ← text_field config "account";
    input_id ← text_field config "input";
    input_prompt ← first_prompt (si_inputs (qi_installer item)) input_id;
    let target := "Keychain generic password service=" +:+ repr service +:+ " account=" +:+ repr account in
    let replace_existing := replaces config in
    let argv := ["/usr/bin/security"; "add-generic-password"]
                ++ (if replace_existing then ["-U"] else [])
                ++ ["-a"; account; "-s"; service; "-w"] in
    let replacement := if replace_existing
                       then "; replace an existing value (not automatically reversible)"
                       else "; preserve an existing value" in
    Ret (MkPlanned target argv (negb replace_existing)
           (input_prompt +:+ ": store " +:+ target
            +:+ "; the security tool prompts without echo" +:+ replacement)
           (dset "replace_existing" (VBool replace_existing) config))
  else if String.eqb use "shell.env-from-keychain@1" then
    target ← target_of "file";
    variables ← mapping_field config "variables";
    content ← shell_block variables;
    Ret (MkPlanned target [] true ("Manage Keychain lookup block in " +:+ target)
           (dset "content" (VStr content)
              (dset "marker" (VStr (artifact_of item +:+ "@" +:+ qi_profile item)) config)))
  else if String.eqb use "shell.env-from-input@1" then
    target ← target_of "file";
    variables ← mapping_field config "variables";
    prompts ← input_prompts (si_inputs (qi_installer item)) variables;
    Ret (MkPlanned target [] true ("Manage echoed text input environment block in " +:+ target)
           (dset "input_prompts" (VDict prompts) (dset "marker" (VStr (step_marker item step)) config)))
  else if String.eqb use "file.managed-block@1" then
    target ← target_of "file";
    Ret (MkPlanned target [] true ("Manage owned block in " +:+ target)
           (if has "marker" config then config else dset "marker" (VStr (step_marker item step)) config))
  else if String.eqb use "json.managed-merge@1" then
    target ← target_of "file";
    let replace_existing := replaces config in
    let collision := if replace_existing
                     then "; replacing a different existing value is not automatically reversible"
                     else "; a different existing value is a conflict" in
    Ret (MkPlanned target [] (negb replace_existing)
           ("Merge owned JSON value in " +:+ target +:+ collision)
           (dset "replace_existing" (VBool replace_existing) config))
  else if String.eqb use "directory.create@1" then
    target ← target_of "path";
    Ret (MkPlanned target [] true ("Create directory " +:+ target) config)
  else if String.eqb use "docker.pull@1" then
    target ← text_field config "image";
    Ret (MkPlanned target ["docker"; "pull"; target] false
           ("Pull digest-pinned Docker image " +:+ target) config)
  else if String.eqb use "docker.build@1" then
    let target := image_tag item in
    let dockerfile := match dget "dockerfile" config with Some v => py_str v | None => "Dockerfile" end in
    Ret (MkPlanned target ["docker"; "build"; "--tag"; target; "--file"; dockerfile; "."] true
           ("Build local Docker image " +:+ target +:+ " from a copy of " +:+ context_source
            +:+ " using " +:+ dockerfile +:+ "; the image is never pushed anywhere")
           (dset "context_source" (VStr context_source) (dset "dockerfile" (VStr dockerfile) config)))
  else if String.eqb use "trust-store.export-certificates@1" then
    subject ← text_field config "subject_contains";
    output ← text_field config "output";
    Ret (MkPlanned (output +:+ " inside the build context")
           ["/usr/bin/security"; "find-certificate"; "-a"; "-c"; subject; "-p"] true
           ("Export certificates whose name contains " +:+ repr subject +:+ " into the build context "
            +:+ "as " +:+ output +:+ "; no private key is read and nothing is stored")
           (dset "context_source" (VStr context_source) config))
  else if String.eqb use "command.verify@1" then
    raw_argv ← field config "argv";
    match raw_argv with
    | VTuple l =>
        let argv := map py_str l in
        let config := match dget "cwd" config with
                      | Some v => dset "cwd" (VStr (resolve_target (py_str v) target_root home_root)) config
                      | None => config
                      end in
        Ret (MkPlanned "" argv false ("Verify with argv: " +:+ join " " (map shell_quote argv)) config)
    | _ => Raise AssertionError
    end
  else if String.eqb use "restart.notice@1" then
    message ← text_field config "message";
    Ret (MkPlanned "" [] false message config)
  else Ret (MkPlanned "" [] false use config).

(** [_effect_for_step] *)
Definition effect_for_step (item : SetupQueueItem) (step : SetupStep)
    (target_root home_root context_source : string) : py SetupEffect :=
  match dget (st_use step) MODULES with
  | None => Raise (KeyError (st_use step))
  | Some spec =>
      p ← plan_step item step target_root home_root context_source;
      Ret (MkEffect (st_id step) (st_use step) (mod_capability spec) (p_summary p) (p_target p)
             (p_argv p) (p_reversible p) (dmap freeze (p_config p)))
  end.

(** The effect of a custom entrypoint. *)
Definition custom_effect (item : SetupQueueItem) (entrypoint : string) : SetupEffect :=
  let installer := qi_installer item in
  let script_path := pjoins (qi_source_root item) [dirname (si_descriptor_path installer); entrypoint] in
  let hash := si_custom_hash installer in
  MkEffect "custom" "custom.install@1" (Some "custom-code")
    ("Run reviewed custom plan/apply/verify protocol at " +:+ script_path
     +:+ " sha256:" +:+ default "None" hash)
    (normpath script_path) [normpath script_path] true
    [("script_hash", VStr (default "" hash));
     ("descriptor_hash", VStr (si_descriptor_hash installer));
     ("artifact", VStr (artifact_of item)); ("profile", VStr (qi_profile item));
     ("scope", VStr (qi_scope item)); ("source_label", VStr (qi_source_label item))].

Definition opt_str (o : option string) : pyval := match o with Some s => VStr s | None => VNone end.
Definition effect_payload (e : SetupEffect) : pyval :=
  VDict [("step", VStr (ef_step_id e)); ("module", VStr (ef_module e));
         ("capability", opt_str (ef_capability e)); ("summary", VStr (ef_summary e));
         ("target", VStr (ef_target e)); ("argv", VList (map VStr (ef_argv e)));
         ("reversible", VBool (ef_reversible e)); ("config", plain (VDict (ef_config e)))].
Definition plan_payload (item : SetupQueueItem) (effects : list SetupEffect) (status : option string)
    (target_root home_root run_root : string) : pyval :=
  VDict [("artifact", VStr (artifact_of item)); ("profile", VStr (qi_profile item));
         ("scope", VStr (qi_scope item)); ("source", VStr (qi_source_label item));
         ("installer_hash", VStr (si_descriptor_hash (qi_installer item)));
         ("custom_hash", opt_str (si_custom_hash (qi_installer item)));
         ("preflight_status", opt_str status);
         ("target_root", VStr (abspath target_root)); ("home_root", VStr (abspath home_root));
         ("run_root", VStr (abspath run_root)); ("effects", VList (map effect_payload effects))].

(** [home_root or target_root] *)
Definition or_else (o : option string) (fallback : string) : string :=
  match o with Some s => if str_empty s then fallback else s | None => fallback end.

(** The effects of a plan that passes its preflight. *)
Definition plan_effects (item : SetupQueueItem) (target_root home_root : string) : py (list SetupEffect) :=
  effects ← mapM (λ step,
      context ← build_context_source item;
      effect_for_step item step target_root home_root context) (si_steps (qi_installer item));
  Ret (effects ++ match si_custom_entrypoint (qi_installer item) with
                  | Some entrypoint => [custom_effect item entrypoint]
                  | None => []
                  end).

Definition plan_setup (item : SetupQueueItem) (target_root platform : string)
    (home_root run_root : option string) : py SetupPlan :=
  let installer := qi_installer item in
  let target_abs := abspath target_root in
  let home_abs := abspath (or_else home_root target_root) in
  outcome ← (if negb (mem platform (si_platforms installer)) then
               Ret (Some "unsupported",
                    "setup supports " +:+ join ", " (si_platforms installer)
                    +:+ "; current platform is " +:+ platform, [])
             else if str_empty (qi_artifact_version item)
                     && existsb (λ step, String.eqb (st_use step) "docker.build@1") (si_steps installer)
             then Ret (Some "prerequisite_missing",
                       "a locally built image is tagged from the artifact version, which is not recorded",
                       [])
             else effects ← plan_effects item target_abs home_abs; Ret (None, "", effects));
  let '(status, detail, effects) := outcome in
  let run_abs := abspath (or_else run_root target_root) in
  let payload := plan_payload item effects status target_abs home_abs run_abs in
  Ret (MkSetupPlan item effects (sha256_hexdigest (py_dumps payload)) target_abs home_abs run_abs
         status detail).

(** * The manual route *)

(** [re.IGNORECASE] also folds the long s and the Kelvin sign. *)
Definition ignore_case (s : string) : re :=
  foldr (λ c r, (RChar (λ d, Ascii.eqb (lower_ascii c) (lower_ascii d))
                 ∥ if is_char "s" c then RStr "ſ" else if is_char "k" c then RStr "K" else RNone) · r)
    REps (String.list_ascii_of_string s).
Definition RUpTo (n : nat) (r : re) : re := Nat.iter n (λ rest, ROpt (r · rest)) REps.
Definition not_newline (c : ascii) : bool := negb (is_char newline c).
Definition PINNED_SOURCE_URL : re :=
  ignore_case "https://" · RPlus (RChar (λ c, negb (is_char "/" c))) · RLit "/" · RPlus (RChar not_newline)
  · ignore_case "/blob/" · RRep 40 (RChar is_hex_any) · RUpTo 24 (RChar is_hex_any)
  · ROpt (RLit "/" · RStar (RChar not_newline)).

Definition contained_manual_path (item : SetupQueueItem) (relative_path : string) : py string :=
  let root := abspath (qi_source_root item) in
  let candidate := abspath (pjoin root relative_path) in
  common ← commonpath root candidate;
  Ret (if negb (String.eqb common root) then "" else candidate).
Definition manual_reference (item : SetupQueueItem) : py SetupManualReference :=
  let relative_path := SetupModel.si_manual_path (qi_installer item) in
  local_path ← contained_manual_path item relative_path;
  let source_url := rstrip_char "/" (qi_source_url item) in
  Ret (if str_empty local_path then MkManual relative_path relative_path
       else if fullmatch PINNED_SOURCE_URL source_url
       then MkManual relative_path (source_url +:+ "/" +:+ relative_path)
       else MkManual relative_path local_path).

(** * Commands *)

Definition retry_command (item : SetupQueueItem) : string :=
  "aart marketplace setup " +:+ shell_quote (artifact_of item) +:+ " --profile "
  +:+ shell_quote (qi_profile item) +:+ " --scope " +:+ qi_scope item
  +:+ " --yes --approve-setup-effects".
Definition rollback_command_for (artifact_type artifact_name profile scope : string) : string :=
  "aart marketplace receipt undo " +:+ shell_quote (artifact_type +:+ "/" +:+ artifact_name)
  +:+ " --profile " +:+ shell_quote profile +:+ " --scope " +:+ scope +:+ " --yes".
Definition rollback_command (item : SetupQueueItem) : string :=
  rollback_command_for (qi_artifact_type item) (qi_artifact_name item) (qi_profile item) (qi_scope item).

(** * Receipts *)

(** [receipt.get(key)] and [a == b] of two of them *)
Definition get (d : list (string * pyval)) (key : string) : pyval := default VNone (dget key d).
Definition receipt_matches_plan (r : receipt) (plan : SetupPlan) : bool :=
  match List.find (λ e, py_eq (VStr (ef_step_id e)) (get r "step_id")) (pl_effects plan) with
  | None => false
  | Some effect =>
      let config := ef_config effect in
      let is_target key := py_eq (get r key) (VStr (ef_target effect)) in
      let same key := py_eq (get r key) (get config key) in
      let m := ef_module effect in
      if negb (py_eq (get r "module") (VStr m)) then false
      else if has "path" r && negb (is_target "path") then false
      else if String.eqb m "macos-keychain.store@1" then same "service" && same "account"
      else if mem m ["shell.env-from-keychain@1"; "shell.env-from-input@1"; "file.managed-block@1"]
      then same "marker"
      else if String.eqb m "json.managed-merge@1" then
        match get config "path" with
            | VTuple l => py_eq (get r "json_path") (VList l)
            | _ => false
            end
      else if String.eqb m "directory.create@1" then is_target "path"
      else if String.eqb m "docker.pull@1" then is_target "image"
      else if String.eqb m "docker.build@1" then is_target "tag"
      else if String.eqb m "trust-store.export-certificates@1" then same "output"
      else if String.eqb m "custom.install@1" then
        let text key := match dget key r with Some v => py_str v | None => "" end in
        let expected_runs := pjoins (pl_run_root plan) [".agent-artifacts"; "setup-runs"] in
        let inside := match commonpath expected_runs (text "run_dir") with
                      | Ret common =>
                          if String.eqb common expected_runs
                          then match commonpath (text "run_dir") (text "script") with
                               | Ret common => String.eqb common (text "run_dir")
                               | Raise _ => false
                               end
                          else false
                      | Raise _ => false
                      end in
        is_target "script_source" && same "script_hash"
        && py_eq (get r "plan_hash") (VStr (pl_plan_hash plan)) && inside
      else mem m ["restart.notice@1"; "command.verify@1"]
  end.
End plan.
