(* ===== verification/SetupPlanSpec.v ===== *)
(** Planning an accepted recipe: the plan has one effect per step in the order
    of the recipe, each within the declared capabilities, and a build reads only
    below the package it ships in; planning raises only for a reference that the
    recipe writes with blanks around it. *)
From S2P Require Import Prelude PyText TextSearch Posix Regex Encodings Domain Profiles PyJson SetupModel SetupRecipe SetupRecipeSpec SetupPlan.
From Stdlib Require Import Ascii.
Open Scope Z_scope.

(** * Paths *)

Lemma components_clean parts : forallb clean parts = true → components (clean_path "/" parts) = parts.
Proof.
  intros Hf. unfold components, clean_path.
  change ("/" +:+ join "/" parts) with ("" +:+ String "/" (join "/" parts)).
  rewrite split_on_mid. destruct (decide (parts = [])) as [->|Hne]; [done|].
  rewrite (clean_split parts), filter_app by done.
  change (filter _ (split_on "/" "")) with (@nil string). cbn [app]. clear Hne. induction parts as [|c parts IH]; [done|]. cbn [forallb] in Hf.
  apply andb_true_iff in Hf as [Hc Hf]. rewrite filter_cons_True, IH; [done..|].
  unfold clean in Hc. split_guard. apply Is_true_true, negb_true_iff, orb_false_iff. split; [done|].
  destruct (String.eqb_spec c ".") as [->|]; [|done].
  match goal with H : _ ∉ _ |- _ => exfalso; apply H; by left end.
Qed.
Lemma common_prefix_app a b : common_prefix a (a ++ b) = a.
Proof. induction a as [|x a IH]; cbn; [done|]. by rewrite String.eqb_refl, IH. Qed.

Lemma commonpath_below parts more : forallb clean (parts ++ more) = true →
  commonpath (clean_path "/" parts) (clean_path "/" (parts ++ more)) = Ret (clean_path "/" parts).
Proof.
  intros Hf. assert (forallb clean parts = true) as Hp by (rewrite forallb_app in Hf; by split_guard).
  unfold commonpath. rewrite (components_clean parts Hp), (components_clean _ Hf), common_prefix_app.
  assert (Habs : ∀ l, isabs (clean_path "/" l) = true) by by (intros l; unfold clean_path; destruct (join "/" l)).
  by rewrite !Habs.
Qed.

Lemma norm_loop_trailing rooted comps kept : norm_loop rooted (comps ++ [""]) kept = norm_loop rooted comps kept.
Proof.
  revert kept. induction comps as [|c comps IH]; intros kept; cbn [app norm_loop]; [done|].
  by repeat case_match.
Qed.
Lemma normpath_trailing parts : forallb clean parts = true → parts ≠ [] →
  normpath (clean_path "/" parts +:+ "/") = clean_path "/" parts.
Proof.
  intros Hf Hne. destruct (join_head parts Hne Hf) as (c & t & Hj & Hc). unfold normpath, clean_path.
  assert (root_of (("/" +:+ join "/" parts) +:+ "/") = "/") as ->.
  { destruct (ascii_dec "/" c) as [<-|]; [done|]. rewrite Hj, !str_app_cons. unfold root_of.
    change ("" +:+ String c t) with (String c t). rewrite str_app_cons.
    change ("" +:+ ?x) with x. cbn [String.prefix].
    destruct (ascii_dec "/" "/"); try done; destruct (ascii_dec "/" c); done. }
  assert (norm_loop true (split_on "/" (("/" +:+ join "/" parts) +:+ "/")) [] = parts) as Hl.
  { change (norm_loop true (split_on "/" (join "/" parts +:+ String "/" "")) [] = parts).
    rewrite split_on_mid, clean_split by done. cbn [split_on].
    by rewrite norm_loop_trailing, norm_loop_clean. }
  cbn [str_empty negb]. rewrite Hl. done.
Qed.

Section plan.
Context `{UnicodeData} `{IpAddress : Configuration.IpAddress} `{PyNumbers} `{WorkingDirectory}.

Lemma abspath_clean parts : forallb clean parts = true → abspath (clean_path "/" parts) = clean_path "/" parts.
Proof.
  intros Hf. destruct (normpath_clean "/" parts (or_introl eq_refl) Hf) as [Hn Ha].
  unfold abspath. by rewrite Ha.
Qed.

(** A source root as the object store writes it, and the only place of the
    recipe in a canonical package. *)
Definition canonical_item (item : SetupQueueItem) (parts : list string) : Prop :=
  qi_source_root item = clean_path "/" parts ∧ forallb clean parts = true
  ∧ si_descriptor_path (qi_installer item) = "setup/installer.json".

Lemma package_root_clean item parts : canonical_item item parts →
  package_root item = clean_path "/" parts.
Proof.
  intros (Hr & Hf & Hd). unfold package_root. rewrite Hr, Hd, abspath_clean by done.
  change (dirname (dirname (normpath "setup/installer.json"))) with "".
  destruct (decide (parts = [])) as [->|Hne]; [done|].
  assert (pjoin (clean_path "/" parts) "" = clean_path "/" parts +:+ "/") as ->.
  { unfold pjoin. cbn [isabs String.prefix].
    assert (endswith "/" (clean_path "/" parts) = false) as ->.
    { destruct (exists_last Hne) as (init & c & ->). unfold clean_path.
      destruct (join_last init c) as [a ->]. rewrite str_app_assoc.
      rewrite forallb_app in Hf. cbn in Hf. split_guard.
      destruct (clean_relative c) as (_ & He & Hs); [done|]. by apply not_endswith_slash. }
    rewrite str_app_nil_r. by cbn. }
  unfold abspath.
  assert (isabs (clean_path "/" parts +:+ "/") = true) as ->.
  { unfold isabs, clean_path. rewrite <-str_app_assoc. apply prefix_app. }
  by apply normpath_trailing.
Qed.

(** The build context lies directly below the package root. *)
Lemma resolve_package_source_below item parts name : canonical_item item parts → one_name name →
  resolve_package_source item name = Ret (clean_path "/" (parts ++ [name])).
Proof.
  intros Hc Hn. pose proof (package_root_clean _ _ Hc) as Hroot. destruct Hc as (_ & Hf & _).
  assert (clean name = true) as Hcl.
  { destruct Hn as (_ & Hs & Hd). unfold clean. rewrite Hs. rewrite !not_elem_of_cons in Hd.
    destruct Hd as (He & Hd & Hdd & _). assert (mem name ["."; ".."] = false) as ->.
    { apply mem_false. rewrite !not_elem_of_cons. split_and!; try done. apply not_elem_of_nil. }
    by destruct name. }
  assert (Hall : forallb clean (parts ++ [name]) = true) by (rewrite forallb_app, Hf; cbn; by rewrite Hcl).
  unfold resolve_package_source. rewrite Hroot.
  assert (pjoin (clean_path "/" parts) name = clean_path "/" (parts ++ [name])) as ->.
  { destruct (decide (parts = [])) as [->|Hne]; [|by apply pjoin_clean].
    unfold pjoin. destruct (clean_relative name Hcl) as (-> & _ & _). done. }
  rewrite abspath_clean, commonpath_below by done. cbn [mbind py_bind]. rewrite String.eqb_refl. cbn [negb].
  destruct (String.eqb_spec (clean_path "/" (parts ++ [name])) (clean_path "/" parts)) as [E|]; [|done].
  apply (f_equal components) in E. rewrite !components_clean in E by done.
  apply (f_equal length) in E. rewrite length_app in E. cbn in E. lia.
Qed.

(** * Steps *)

(** The parser checks a reference, to an input or to the build context, without
    the space around it, and keeps the space; a step without such space is
    [unpadded]. *)
Definition unpadded (step : SetupStep) : Prop :=
  (∀ key t, key ∈ ["input"; "context"] → dget key (st_config step) = Some (VStr t) → strip t = t)
  ∧ (∀ vars name t, dget "variables" (st_config step) = Some (VDict vars) →
       (name, VStr t) ∈ vars → strip t = t).

Lemma text_field_line config key t : line config key t → text_field config key = Ret t.
Proof. intros [Hk _]. unfold text_field, field. by rewrite Hk. Qed.
Lemma mapping_field_Some config key d : dget key config = Some (VDict d) → mapping_field config key = Ret d.
Proof. intros Hk. unfold mapping_field, field. by rewrite Hk. Qed.

Lemma typed_id_input type_ inputs i : i ∈ typed_ids type_ inputs → ∃ x, x ∈ inputs ∧ in_id x = i.
Proof.
  unfold typed_ids. intros (x & -> & Hx)%list_elem_of_fmap.
  apply list_elem_of_In, filter_In in Hx as [Hx _]. exists x. by rewrite list_elem_of_In.
Qed.
Lemma first_prompt_declared inputs i : i ∈ map in_id inputs → ∃ prompt, first_prompt inputs i = Ret prompt.
Proof.
  intros Hi. unfold first_prompt. destruct (List.find _ inputs) as [x|] eqn:E; [eauto|].
  apply list_elem_of_fmap in Hi as (x & -> & Hx). apply list_elem_of_In in Hx.
  apply (List.find_none _ _ E) in Hx. by rewrite String.eqb_refl in Hx.
Qed.
Lemma mapM_total {A B} (f : A → py B) l : (∀ x, x ∈ l → ∃ y, f x = Ret y) → ∃ k, mapM f l = Ret k.
Proof.
  intros Hf. induction l as [|x l IH]; [by exists []|].
  destruct (Hf x) as [y Hy]; [by left|]. destruct IH as [k Hk]; [intros z Hz; apply Hf; by right|].
  exists (y :: k). cbn. by rewrite Hy, Hk.
Qed.
Lemma input_prompts_total inputs vars : NoDup (map in_id inputs) →
  (∀ name v, (name, v) ∈ vars → ∃ t, v = VStr t ∧ t ∈ map in_id inputs) →
  ∃ prompts, input_prompts inputs vars = Ret prompts.
Proof.
  intros Hn Hv. unfold input_prompts.
  destruct (mapM_total (λ kv : string * pyval,
    match dget (py_str kv.2) (dict_of (map (λ i, (in_id i, in_prompt i)) inputs)) with
    | Some prompt => Ret (py_str kv.2, VStr prompt)
    | None => Raise (KeyError (py_str kv.2)) end) vars) as [k Hk]; [|rewrite Hk; by eexists].
  intros [name v] Hin. destruct (Hv _ _ Hin) as (t & -> & Ht). cbn [snd py_str].
  rewrite dict_of_fresh by (rewrite map_map; done).
  destruct (dget t _) as [prompt|] eqn:E; [by eexists|]. apply dget_None in E. destruct E.
  unfold dkeys. by rewrite map_map.
Qed.
Lemma shell_block_total vars :
  (∀ name v, (name, v) ∈ vars → ∃ d service account,
     v = VDict d ∧ line d "service" service ∧ line d "account" account) →
  ∃ content, shell_block vars = Ret content.
Proof.
  intros Hv. unfold shell_block.
  destruct (mapM_total (λ kv : string * pyval, shell_row kv.1 kv.2) vars) as [rows Hr];
    [|rewrite Hr; by eexists].
  intros [name v] Hin. destruct (Hv _ _ Hin) as (d & service & account & -> & Hs & Ha).
  cbn [fst snd]. unfold shell_row. rewrite (text_field_line _ _ _ Hs). cbn [mbind py_bind].
  rewrite (text_field_line _ _ _ Ha). by eexists.
Qed.

Lemma plan_step_total item step t h ctx :
  valid_step (declared_of (qi_installer item)) step → NoDup (map in_id (si_inputs (qi_installer item))) →
  unpadded step → ∃ p, plan_step item step t h ctx = Ret p.
Proof.
  intros [_ Hc _] Hn [Hpad Hvars]. destruct step as [i use config]. cbn [st_use st_config] in *.
  unfold plan_step. cbn [st_use st_config].
  destruct Hc; cbn [String.eqb Ascii.eqb Bool.eqb].
  all: repeat match goal with
    | H : line ?c ?k _ |- context [text_field ?c ?k] =>
        rewrite (text_field_line _ _ _ H); cbn [mbind py_bind]
    | H : dget ?k ?c = Some (VDict _) |- context [mapping_field ?c ?k] =>
        rewrite (mapping_field_Some _ _ _ H); cbn [mbind py_bind]
    | H : dget ?k ?c = Some _ |- context [field ?c ?k] =>
        unfold field; rewrite H; cbn [mbind py_bind]
    end; try (by eexists).
  - destruct (first_prompt_declared (si_inputs (qi_installer item)) input) as [prompt ->]; [|by eexists].
    assert (strip input = input) as Hs by (by eapply (Hpad "input"); [set_solver|apply H2]). rewrite Hs in *.
    apply typed_id_input in H3 as (x & Hx & <-). by apply list_elem_of_fmap_2.
  - destruct (shell_block_total vars) as [content ->]; [|by eexists].
    intros name v Hv. match goal with Hl : ∀ n w, (n, w) ∈ vars → _ |- _ => by apply Hl in Hv as [_ ?] end.
  - destruct (input_prompts_total (si_inputs (qi_installer item)) vars) as [prompts ->]; [done| |by eexists].
    intros name v Hv.
    match goal with Hl : ∀ n w, (n, w) ∈ vars → fullmatch _ _ = _ ∧ _ |- _ =>
      apply Hl in Hv as Hw; destruct Hw as (_ & t' & -> & Ht) end.
    exists t'. split; [done|]. erewrite Hvars in Ht by done.
    apply typed_id_input in Ht as (x & Hx & <-). by apply list_elem_of_fmap_2.
Qed.

(** What the effect of a step keeps of it. *)
Definition effect_of_step (de : declared) (step : SetupStep) (e : SetupEffect) : Prop :=
  ef_step_id e = st_id step ∧ ef_module e = st_use step
  ∧ ∀ c, ef_capability e = Some c → c ∈ de_capabilities de.

Lemma effect_for_step_total item step t h ctx :
  valid_step (declared_of (qi_installer item)) step → NoDup (map in_id (si_inputs (qi_installer item))) →
  unpadded step → ∃ e, effect_for_step item step t h ctx = Ret e
                       ∧ effect_of_step (declared_of (qi_installer item)) step e.
Proof.
  intros Hv Hn Hu. destruct (vs_module _ _ Hv) as (spec & Hs & Hc & _).
  destruct (plan_step_total item step t h ctx Hv Hn Hu) as [p Hp].
  unfold effect_for_step. rewrite Hs, Hp. by eexists.
Qed.

Lemma build_context_source_total item parts : canonical_item item parts →
  Forall (valid_step (declared_of (qi_installer item))) (si_steps (qi_installer item)) →
  Forall unpadded (si_steps (qi_installer item)) →
  ∃ ctx, build_context_source item = Ret ctx.
Proof.
  intros Hc Hv Hu. unfold build_context_source.
  destruct (List.find _ _) as [step|] eqn:E; [|by eexists].
  apply find_some in E as [Hin%list_elem_of_In Huse%String.eqb_eq].
  rewrite Forall_forall in Hv, Hu. destruct (Hv _ Hin) as [_ Hm _]. destruct (Hu _ Hin) as [Hpad _].
  destruct Hm; try discriminate Huse.
  match goal with Hl : line _ "context" _ |- _ => rewrite (text_field_line _ _ _ Hl);
    destruct Hl as [Hl _]; apply Hpad in Hl as Hs; [|set_solver] end.
  cbn [mbind py_bind]. rewrite Hs in *. rewrite (resolve_package_source_below _ _ _ Hc) by done.
  by eexists.
Qed.

Lemma plan_effects_total item parts t h : canonical_item item parts →
  Forall (valid_step (declared_of (qi_installer item))) (si_steps (qi_installer item)) →
  NoDup (map in_id (si_inputs (qi_installer item))) → Forall unpadded (si_steps (qi_installer item)) →
  ∃ effects, plan_effects item t h = Ret (effects ++ match si_custom_entrypoint (qi_installer item) with
                                                    | Some name => [custom_effect item name]
                                                    | None => [] end)
    ∧ Forall2 (effect_of_step (declared_of (qi_installer item))) (si_steps (qi_installer item)) effects.
Proof.
  intros Hc Hv Hn Hu. destruct (build_context_source_total _ _ Hc Hv Hu) as [ctx Hctx].
  set (de := declared_of (qi_installer item)) in *. set (steps := si_steps (qi_installer item)) in *.
  assert (∃ effects, mapM (λ step, context ← build_context_source item;
            effect_for_step item step t h context) steps = Ret effects
          ∧ Forall2 (effect_of_step de) steps effects) as (effects & He & Hf).
  { rewrite Hctx. clear Hctx. generalize steps Hv Hu. clear steps Hv Hu. intros steps Hv Hu.
    induction steps as [|step steps IH]; [by exists []|].
    apply Forall_cons in Hv as [Hv Hvs], Hu as [Hu Hus]. destruct (IH Hvs Hus) as (es & Hes & Hfs).
    destruct (effect_for_step_total item step t h ctx Hv Hn Hu) as (e & He & Hf).
    exists (e :: es). cbn [mapM]. cbn [mbind py_bind] in *. rewrite He, Hes. split; [done|by constructor]. }
  exists effects. split; [|done]. unfold plan_effects. fold steps. by rewrite He.
Qed.

(** What a plan has, whenever planning returns it. *)
Lemma plan_effects_steps item t h es : plan_effects item t h = Ret es →
  Forall (valid_step (declared_of (qi_installer item))) (si_steps (qi_installer item)) →
  ∃ effects, es = effects ++ match si_custom_entrypoint (qi_installer item) with
                             | Some name => [custom_effect item name]
                             | None => [] end
    ∧ Forall2 (effect_of_step (declared_of (qi_installer item))) (si_steps (qi_installer item)) effects.
Proof.
  unfold plan_effects. intros (effects & He%mapM_Ret & [= <-])%bind_Ret Hv. exists effects. split; [done|].
  rewrite Forall_forall in Hv. induction He as [|step e steps effects Hs Hall IH]; constructor.
  - apply bind_Ret in Hs as (ctx & _ & Hs). destruct (vs_module _ _ (Hv step ltac:(left))) as (spec & Hm & Hc & _).
    unfold effect_for_step in Hs. rewrite Hm in Hs. apply bind_Ret in Hs as (p & _ & [= <-]). done.
  - apply IH. intros x Hx. apply Hv. by right.
Qed.

(** C18: planning an accepted recipe, installed at a canonical place.  A plan has
    no effect when its preflight refuses it, which it does on every platform but
    macOS, and otherwise exactly one effect per step, in the order of the
    recipe, with the module of the step and a capability that the recipe
    declares, followed by the custom script.  Planning raises only on macOS and
    only for a recipe that writes a reference with space around it. *)
Theorem plan_setup_exact raw key path script item parts target_root platform home_root run_root :
  accepted_recipe raw key path script (qi_installer item) → canonical_item item parts →
  match plan_setup item target_root platform home_root run_root with
  | Ret plan => pl_item plan = item
    ∧ (platform ≠ "darwin" → pl_preflight_status plan = Some "unsupported")
    ∧ match pl_preflight_status plan with
      | Some _ => pl_effects plan = []
      | None => ∃ effects,
          pl_effects plan = effects ++ match si_custom_entrypoint (qi_installer item) with
                                       | Some name => [custom_effect item name]
                                       | None => [] end
          ∧ Forall2 (effect_of_step (declared_of (qi_installer item))) (si_steps (qi_installer item)) effects
      end
  | Raise _ => platform = "darwin" ∧ ¬ Forall unpadded (si_steps (qi_installer item))
  end.
Proof.
  intros Ha Hc. destruct (ar_steps _ _ _ _ _ Ha) as (_ & _ & Hv).
  destruct (ar_inputs _ _ _ _ _ Ha) as [Hn _]. unfold plan_setup. rewrite (ar_platforms _ _ _ _ _ Ha).
  destruct (mem platform ["darwin"]) eqn:Hm; cbn [negb]; [|done].
  assert (platform = "darwin") as -> by (apply mem_true, list_elem_of_singleton in Hm; done).
  destruct (str_empty _ && _); [done|].
  destruct (plan_effects item _ _) as [es|e] eqn:He; cbn [mbind py_bind].
  - split_and!; [done..|]. by eapply plan_effects_steps.
  - split; [done|]. intros Hu.
    destruct (plan_effects_total item parts (abspath target_root) (abspath (or_else home_root target_root))
      Hc Hv Hn Hu) as (effects & He' & _). congruence.
Qed.
End plan.

(** * Plans *)

(** [unpadded], decided. *)
Definition trimmed (d : list (string * pyval)) `{UnicodeData} : bool :=
  forallb (λ kv, match kv.2 with VStr t => String.eqb (strip t) t | _ => true end) d.
Lemma trimmed_spec `{UnicodeData} d : trimmed d = true → ∀ key t, (key, VStr t) ∈ d → strip t = t.
Proof. intros Ht key t Hk. by apply (forallb_elem _ _ Ht) in Hk as Hs%String.eqb_eq. Qed.
Definition unpadded_b `{UnicodeData} (step : SetupStep) : bool :=
  trimmed (st_config step)
  && match dget "variables" (st_config step) with Some (VDict vars) => trimmed vars | _ => true end.
Lemma unpadded_b_spec `{UnicodeData} step : unpadded_b step = true → unpadded step.
Proof.
  unfold unpadded_b. intros [Ht Hv]%andb_true_iff. split.
  - intros key t _ Hk%dget_elem_of. by eapply trimmed_spec.
  - intros vars name t Hk. rewrite Hk in Hv. by apply trimmed_spec.
Qed.

#[local] Existing Instance ascii_unicode.
#[local] Existing Instance Configuration.no_ipv6.
#[local] Existing Instance plain_numbers.
Definition root_directory : WorkingDirectory := {| cwd := "/" |}.
#[local] Existing Instance root_directory.
Definition empty_installer : SetupInstaller :=
  MkInstaller 2 2 "" "" [] [] [] [] [] [] "setup/installer.json" "" "SETUP.md" None None.
Definition installer_of (raw : bytes) : SetupInstaller :=
  match sample_parse raw with Ret (inr r) => r | _ => empty_installer end.
Definition sample_item (raw : bytes) : SetupQueueItem :=
  MkQueueItem "mcp" "jira" "claude" "user" "team" "/store/ab" (installer_of raw) "" "1.0.0".
Definition sample_plan (raw : bytes) : py SetupPlan :=
  plan_setup (sample_item raw) "/home/me" "darwin" None None.

Example good_recipe_planned :
  (plan ← sample_plan good_recipe; Ret (map (λ e, (ef_step_id e, ef_target e)) (pl_effects plan)))
  = Ret [("store", "Keychain generic password service='jira' account='me'");
         ("ca", "ca.pem inside the build context"); ("build", "aart/mcp/jira:1.0.0")].
Proof. by vm_compute. Qed.

(** The parser accepts a padded reference to an input; the planner then looks
    for it with its padding, and [next] raises. *)
Definition padded_recipe : bytes :=
  sample_recipe "https://example.com/docs" [secret_input] [store_step " token"].
Example padded_reference_accepted : sample_outcome padded_recipe = Ret (inr ["store"]).
Proof. by vm_compute. Qed.
Example padded_reference_crashes : sample_plan padded_recipe = Raise StopIteration.
Proof. by vm_compute. Qed.

(** Two lookup steps on one file share a marker, so the second replaces the
    block of the first. *)
Definition lookup_step (id_ variable : string) : pyval :=
  sample_step id_ "shell.env-from-keychain@1"
    [("file", VStr "~/.zshrc");
     ("variables", VDict [(variable, VDict [("service", VStr "jira"); ("account", VStr "me")])])].
Example lookup_markers_collide :
  (plan ← sample_plan (sample_recipe "https://example.com/docs" [] [lookup_step "a" "A"; lookup_step "b" "B"]);
   Ret (map (λ e, (ef_target e, get (ef_config e) "marker")) (pl_effects plan)))
  = Ret [("/home/me/.zshrc", VStr "mcp/jira@claude"); ("/home/me/.zshrc", VStr "mcp/jira@claude")].
Proof. by vm_compute. Qed.

Lemma plan_setup_exact_witness :
  accepted_recipe good_recipe "mcp/jira" "setup/installer.json" None (qi_installer (sample_item good_recipe))
  ∧ match sample_plan good_recipe with
    | Ret plan => pl_item plan = sample_item good_recipe
    | Raise _ => ¬ Forall unpadded (si_steps (installer_of good_recipe))
    end
  ∧ Forall unpadded (si_steps (installer_of good_recipe)).
Proof.
  assert (Ha : accepted_recipe good_recipe "mcp/jira" "setup/installer.json" None
                 (installer_of good_recipe)).
  { apply parse_document_sound, (caught_Ret "invalid setup installer for mcp/jira: ").
    pose proof good_recipe_accepted as Hg. unfold sample_outcome, installer_of in *.
    unfold sample_parse, parse_installer in *.
    destruct (caught _ _) as [[e|r]|e]; [discriminate Hg|reflexivity|discriminate Hg]. }
  split; [exact Ha|]. split.
  - pose proof (plan_setup_exact good_recipe "mcp/jira" "setup/installer.json" None
      (sample_item good_recipe) ["store"; "ab"] "/home/me" "darwin" None None Ha
      (conj eq_refl (conj eq_refl (proj2 (ar_hash _ _ _ _ _ Ha))))) as Hp.
    unfold sample_plan. destruct (plan_setup _ _ _ _ _) as [plan|e]; [exact (proj1 Hp)|exact (proj2 Hp)].
  - apply Forall_forall. intros step Hs. apply unpadded_b_spec.
    assert (forallb unpadded_b (si_steps (qi_installer (sample_item good_recipe))) = true) as Hb by by vm_compute.
    exact (forallb_elem _ _ Hb _ Hs).
Defined.
