(* ===== verification/SetupBlock.v ===== *)
(** [setup.py]'s [managed_block] and [rollback_managed_block]: one block of a
    shell or configuration file, between two marker lines, inserted, replaced
    and taken out again.

    The pattern [(?ms)^(start\n.*?\nend)$] is searched as [re] does: at each
    line start that reads [start], the shortest body that an [end] line ends.
    The replacement of [re.sub] is a template, in which a backslash is an
    escape ([expand_template]); the block is passed as one, unescaped. *)
From S2P Require Import Prelude PyText TextSearch Json.
From Stdlib Require Import Ascii.

Definition LF : string := String newline "".
Definition block_start (marker : string) : string := "# >>> aart setup: " +:+ marker +:+ " >>>".
Definition block_end (marker : string) : string := "# <<< aart setup: " +:+ marker +:+ " <<<".

(** * Searching *)

(** The shortest body before an end line, and the text after the end marker;
    with [anchored], the marker must end its line ([$]). *)
Definition ends_line (s : string) : bool :=
  match s with EmptyString => true | String c _ => is_char newline c end.
Fixpoint lazy_end (anchored : bool) (end_ s : string) : option (string * string) :=
  match (match after (LF +:+ end_) s with
         | Some rest => if negb anchored || ends_line rest then Some rest else None
         | None => None end) with
  | Some rest => Some ("", rest)
  | None => match s with
            | EmptyString => None
            | String c s => match lazy_end anchored end_ s with
                            | Some (body, rest) => Some (String c body, rest) | None => None end
            end
  end.

(** The first block at a line start: the text before it, the block, and the
    text after it. *)
Fixpoint find_block (anchored : bool) (start end_ : string) (line_start : bool) (s : string) :
    option (string * string * string) :=
  match (if line_start then
           match after (start +:+ LF) s with Some t => lazy_end anchored end_ t | None => None end
         else None) with
  | Some (body, rest) => Some ("", start +:+ LF +:+ body +:+ LF +:+ end_, rest)
  | None => match s with
            | EmptyString => None
            | String c s => match find_block anchored start end_ (is_char newline c) s with
                            | Some (a, block, rest) => Some (String c a, block, rest) | None => None end
            end
  end.

(** * Replacement templates *)

Definition is_octal (c : ascii) : bool := between 48 55 c.
Definition octal (s : string) : N := (fix go acc s := match s with
  | EmptyString => acc | String c s => go (acc * 8 + (code c - 48))%N s end) 0%N s.
Definition simple_escape (c : ascii) : option string :=
  if is_char "a" c then Some (chr 7) else if is_char "b" c then Some (chr 8)
  else if is_char "f" c then Some (chr 12) else if is_char "n" c then Some (chr 10)
  else if is_char "r" c then Some (chr 13) else if is_char "t" c then Some (chr 9)
  else if is_char "v" c then Some (chr 11) else if is_char "\" c then Some "\" else None.
Definition prepend (s : string) (m : py string) : py string := t ← m; Ret (s +:+ t).

(** One item of a template, after its backslash: the text it stands for and
    the rest; the pattern has one group, [group], of the match [whole]. *)
Definition group_text (whole group digits : string) : py string :=
  if (int_of digits =? 0)%Z then Ret whole
  else if (int_of digits =? 1)%Z then Ret group
  else Raise (RegexError "invalid group reference").
Definition digits_escape (whole group : string) (e : ascii) (s : string) : py (string * string) :=
  let one := t ← group_text whole group (String e ""); Ret (t, s) in
  match s with
  | String a s1 =>
      if negb (is_digit a) then one
      else match s1 with
      | String b s2 =>
          if is_octal e && is_octal a && is_octal b then
            let n := octal (String e (String a (String b ""))) in
            if (n <=? 255)%N then Ret (chr n, s2)
            else Raise (RegexError "octal escape value outside of range 0-0o377")
          else Raise (RegexError "invalid group reference")
      | EmptyString => Raise (RegexError "invalid group reference")
      end
  | EmptyString => one
  end.
Definition zero_escape (s : string) : string * string :=
  match s with
  | String a s1 =>
      if is_octal a then
        match s1 with
        | String b s2 => if is_octal b then (chr (octal (String a (String b ""))), s2)
                         else (chr (octal (String a "")), s1)
        | EmptyString => (chr (octal (String a "")), s1)
        end
      else (chr 0, s)
  | EmptyString => (chr 0, s)
  end.
Definition named_escape (whole group s : string) : py (string * string) :=
  match s with
  | String c rest =>
      if negb (is_char "<" c) then Raise (RegexError "missing <")
      else match cut_first ">" rest with
      | (name, Some rest) =>
          if str_empty name then Raise (RegexError "missing group name")
          else if str_forall is_digit name then t ← group_text whole group name; Ret (t, rest)
          else Raise (RegexError "unknown group name")
      | (_, None) => Raise (RegexError "missing >, unterminated name")
      end
  | EmptyString => Raise (RegexError "missing <")
  end.
Definition template_escape (whole group : string) (s : string) : py (string * string) :=
  match s with
  | EmptyString => Raise (RegexError "bad escape (end of pattern)")
  | String e s =>
      if is_char "g" e then named_escape whole group s
      else if is_char "0" e then Ret (zero_escape s)
      else if is_digit e then digits_escape whole group e s
      else match simple_escape e with
      | Some t => Ret (t, s)
      | None => if is_alpha e then Raise (RegexError "bad escape") else Ret (String "\" (String e ""), s)
      end
  end.

(** [re._parser.parse_template] and the expansion it drives; each step
    consumes a character. *)
Fixpoint expand_from (fuel : nat) (whole group s : string) : py string :=
  match fuel, s with
  | O, _ | _, EmptyString => Ret ""
  | S fuel, String c s =>
      if negb (is_char "\" c) then prepend (String c "") (expand_from fuel whole group s)
      else item ← template_escape whole group s; prepend item.1 (expand_from fuel whole group item.2)
  end.
Definition expand_template (whole group s : string) : py string :=
  expand_from (String.length s) whole group s.

(** * The two operations *)

Section blocks.
Context `{UnicodeData}.

(** [content.rstrip()] *)
Definition rstrip (s : string) : string :=
  String.concat "" (rev (drop_spaces (rev (code_points s)))).
Definition block_text (marker content : string) : string :=
  block_start marker +:+ LF +:+ rstrip content +:+ LF +:+ block_end marker.

(** The text written between existing content and a new block. *)
Definition separator (existing : string) : string :=
  if str_empty existing then ""
  else if endswith (LF +:+ LF) existing then ""
  else if endswith LF existing then LF else LF +:+ LF.

(** The new text, whether it differs, and the block that was replaced. *)
Definition managed_block (existing marker content : string) : py (string * bool * option string) :=
  let start := block_start marker in
  let end_ := block_end marker in
  let block := block_text marker content in
  match find_block true start end_ true existing with
  | None => Ret (existing +:+ separator existing +:+ block +:+ LF, true, None)
  | Some (before, prior, rest) =>
      match find_block true start end_ false rest with
      | Some _ => Raise (ValueError ("multiple managed blocks for " +:+ marker))
      | None =>
          if String.eqb prior block then Ret (existing, false, Some prior)
          else new ← expand_template prior prior block; Ret (before +:+ new +:+ rest, true, Some prior)
      end
  end.

Definition rollback_managed_block (current marker installed_block : string) (prior_block : option string) :
    py (option string) :=
  match find_block false (block_start marker) (block_end marker) true current with
  | None => Ret None
  | Some (before, block, rest) =>
      if negb (String.eqb block installed_block) then Ret None
      else
        let whole := if String.prefix LF rest then block +:+ LF else block in
        replacement ← match prior_block with
                      | Some prior => expand_template whole block (prior +:+ LF)
                      | None => Ret ""
                      end;
        Ret (Some (before +:+ replacement +:+ removeprefix LF rest))
  end.
End blocks.

(** A managed block is found again where it was written, is not written
    twice, and is taken out so that the text before it and after it is what it
    was; content with a backslash is where this stops, as the block is passed
    to [re.sub] unescaped. *)

Lemma after_app p s : after p (p +:+ s) = Some s.
Proof. unfold after. by rewrite prefix_app, str_drop_app. Qed.
Lemma after_None p s : String.prefix p s = false → after p s = None.
Proof. unfold after. by intros ->. Qed.
Lemma prefix_of_app a b s : String.prefix (a +:+ b) s = true → String.prefix a s = true.
Proof.
  revert s. induction a as [|c a IH]; intros s; [by destruct s|]. rewrite str_app_cons.
  destruct s as [|d s]; [done|]. cbn [String.prefix]. destruct (ascii_dec c d); [apply IH|done].
Qed.
Lemma not_contains_prefix needle s : contains needle s = false → String.prefix needle s = false.
Proof. destruct (String.prefix needle s) eqn:E; [|done]. by rewrite (contains_prefix needle s E). Qed.

Lemma find_block_start anchored start end_ s t body rest :
  after (start +:+ LF) s = Some t → lazy_end anchored end_ t = Some (body, rest) →
  find_block anchored start end_ true s = Some ("", start +:+ LF +:+ body +:+ LF +:+ end_, rest).
Proof. intros Ha Hl. destruct s; cbn [find_block]; by rewrite Ha, Hl. Qed.

(** A template without a backslash stands for itself. *)
Lemma expand_from_plain fuel whole group s : has_char "\" s = false → (String.length s ≤ fuel)%nat →
  expand_from fuel whole group s = Ret s.
Proof.
  rewrite has_char_false. revert s. induction fuel as [|fuel IH]; intros [|c s]; cbn; [done|lia|done|].
  intros [-> Hs]%andb_true_iff Hl. by rewrite IH by (done || lia).
Qed.
Lemma expand_template_plain whole group s : has_char "\" s = false → expand_template whole group s = Ret s.
Proof. intros Hs. by apply expand_from_plain. Qed.

Section marker.
Context (marker : string).
Hypothesis (Hmarker : has_char newline marker = false).
Abbreviation B := (block_start marker).
Abbreviation E := (block_end marker).

Lemma start_line : has_char newline B = false.
Proof. unfold block_start. by rewrite !has_char_app, Hmarker. Qed.
Lemma end_line : has_char newline E = false.
Proof. unfold block_end. by rewrite !has_char_app, Hmarker. Qed.
Lemma start_ne : B ≠ "".
Proof. done. Qed.
Lemma end_ne : E ≠ "".
Proof. done. Qed.

(** Text without a start marker holds no block. *)
Definition clear (s : string) : Prop := contains B s = false.

Lemma find_clear anchored ls s : clear s → find_block anchored B E ls s = None.
Proof.
  unfold clear. revert ls. induction s as [|c s IH]; intros ls Hc.
  - by destruct ls.
  - cbn [find_block].
    assert (after (B +:+ LF) (String c s) = None) as ->.
    { apply after_None. destruct (String.prefix (B +:+ LF) _) eqn:Hp; [|done].
      apply prefix_of_app in Hp. by rewrite not_contains_prefix in Hp. }
    cbn [contains] in Hc. apply orb_false_iff in Hc as [_ Hc]. rewrite IH by done. by destruct ls.
Qed.

Lemma find_after_line anchored ls a s : clear a →
  find_block anchored B E ls (a +:+ String newline s) =
    match find_block anchored B E true s with
    | Some (x, block, rest) => Some (a +:+ LF +:+ x, block, rest) | None => None end.
Proof.
  unfold clear. revert ls. induction a as [|c a IH]; intros ls Ha.
  - change ("" +:+ String newline s) with (String newline s). cbn [find_block].
    assert (after (B +:+ LF) (String newline s) = None) as -> by done.
    rewrite is_char_refl. by destruct ls; destruct (find_block anchored B E true s) as [[[]]|].
  - rewrite str_app_cons. cbn [find_block].
    assert (after (B +:+ LF) (String c (a +:+ String newline s)) = None) as ->.
    { apply after_None. destruct (String.prefix (B +:+ LF) _) eqn:Hp; [|done]. apply prefix_of_app in Hp.
      rewrite <-str_app_cons, (prefix_sep newline B) in Hp by (apply start_line || apply start_ne).
      by rewrite not_contains_prefix in Hp. }
    cbn [contains] in Ha. apply orb_false_iff in Ha as [_ Ha]. rewrite IH by done.
    by destruct ls; destruct (find_block anchored B E true s) as [[[]]|].
Qed.

(** A text that a line can follow. *)
Definition seam (before : string) : Prop := before = "" ∨ ∃ a, before = a +:+ LF.

Lemma clear_line a : clear (a +:+ LF) ↔ clear a.
Proof.
  unfold clear, LF. rewrite (contains_sep newline B) by (apply start_line || apply start_ne).
  split; [by intros [? _]%orb_false_iff|by intros ->].
Qed.

Lemma find_at_seam anchored before s : seam before → clear before →
  find_block anchored B E true (before +:+ s) =
    match find_block anchored B E true s with
    | Some (x, block, rest) => Some (before +:+ x, block, rest) | None => None end.
Proof.
  intros [->|[a ->]] Hc.
  - change ("" +:+ s) with s. by destruct (find_block anchored B E true s) as [[[]]|].
  - apply (proj1 (clear_line a)) in Hc. rewrite <-str_app_assoc. change (LF +:+ s) with (String newline s).
    rewrite find_after_line by done. destruct (find_block anchored B E true s) as [[[]]|]; [|done].
    by rewrite str_app_assoc.
Qed.

Lemma lazy_end_body anchored body rest : contains E body = false → (anchored = true → ends_line rest = true) →
  lazy_end anchored E (body +:+ LF +:+ E +:+ rest) = Some (body, rest).
Proof.
  intros Hb Hr. induction body as [|c body IH].
  - change ("" +:+ ?x) with x. rewrite str_app_assoc. change (LF +:+ E) with (String newline E).
    rewrite str_app_cons. cbn [lazy_end]. rewrite <-str_app_cons.
    change (String newline E) with (LF +:+ E). rewrite after_app.
    destruct anchored; [by rewrite Hr|done].
  - rewrite str_app_cons. cbn [lazy_end].
    assert (after (LF +:+ E) (String c (body +:+ LF +:+ E +:+ rest)) = None) as ->.
    { apply after_None. change (LF +:+ E) with (String newline E) at 1. cbn [String.prefix].
      destruct (ascii_dec newline c); [|done].
      change (LF +:+ E +:+ rest) with (String newline (E +:+ rest)).
      rewrite (prefix_sep newline E) by (apply end_line || apply end_ne).
      cbn [contains] in Hb. apply orb_false_iff in Hb as [_ Hb]. by apply not_contains_prefix. }
    cbn [contains] in Hb. apply orb_false_iff in Hb as [_ Hb]. by rewrite IH.
Qed.

Lemma find_block_here anchored before body rest :
  seam before → clear before → contains E body = false → (anchored = true → ends_line rest = true) →
  find_block anchored B E true (before +:+ B +:+ LF +:+ body +:+ LF +:+ E +:+ rest)
  = Some (before, B +:+ LF +:+ body +:+ LF +:+ E, rest).
Proof.
  intros Hs Hc Hb Hr. rewrite find_at_seam by done.
  assert (find_block anchored B E true (B +:+ LF +:+ body +:+ LF +:+ E +:+ rest)
          = Some ("", B +:+ LF +:+ body +:+ LF +:+ E, rest)) as ->; [|by rewrite str_app_nil_r].
  rewrite (str_app_assoc B LF). eapply find_block_start; [apply after_app|]. by apply lazy_end_body.
Qed.

Context `{UnicodeData}.
Abbreviation block := (block_text marker).

(** What may be the body of a block. *)
Definition body_ok (content : string) : Prop := contains E (rstrip content) = false.

Lemma block_app content rest :
  block content +:+ rest = B +:+ LF +:+ rstrip content +:+ LF +:+ E +:+ rest.
Proof. unfold block_text. by rewrite <-!str_app_assoc. Qed.

Lemma find_block_text anchored before content rest :
  seam before → clear before → body_ok content → (anchored = true → ends_line rest = true) →
  find_block anchored B E true (before +:+ block content +:+ rest) = Some (before, block content, rest).
Proof. intros Hs Hc Hb Hr. rewrite block_app. by apply find_block_here. Qed.

Lemma managed_block_found before content rest new :
  seam before → clear before → clear rest → body_ok content → ends_line rest = true →
  managed_block (before +:+ block content +:+ rest) marker new =
    if String.eqb (block content) (block new) then Ret (before +:+ block content +:+ rest, false, Some (block content))
    else text ← expand_template (block content) (block content) (block new);
         Ret (before +:+ text +:+ rest, true, Some (block content)).
Proof.
  intros Hs Hc Hr Hb He. unfold managed_block. rewrite find_block_text by done. by rewrite find_clear.
Qed.
Lemma rollback_found before content rest prior :
  seam before → clear before → body_ok content →
  rollback_managed_block (before +:+ block content +:+ LF +:+ rest) marker (block content) prior =
    (replacement ← match prior with
                   | Some p => expand_template (block content +:+ LF) (block content) (p +:+ LF)
                   | None => Ret "" end;
     Ret (Some (before +:+ replacement +:+ rest))).
Proof.
  intros Hs Hc Hb. unfold rollback_managed_block. rewrite find_block_text by done.
  rewrite String.eqb_refl. cbn [negb]. rewrite prefix_app. unfold removeprefix.
  by rewrite prefix_app, str_drop_app.
Qed.

Lemma separator_seam existing : clear existing →
  seam (existing +:+ separator existing) ∧ clear (existing +:+ separator existing).
Proof.
  intros Hc. unfold separator. destruct existing as [|c s]; [split; [by left|done]|].
  cbn [str_empty]. set (t := String c s) in *.
  destruct (endswith (LF +:+ LF) t) eqn:E2.
  { rewrite str_app_nil_r. split; [|done]. apply endswith_inv in E2 as [a E2]. right.
    exists (a +:+ LF). by rewrite E2, <-str_app_assoc. }
  destruct (endswith LF t).
  - split; [right; by exists t|by apply clear_line].
  - split; [right; exists (t +:+ LF); by rewrite <-str_app_assoc|].
    rewrite str_app_assoc. by rewrite !clear_line.
Qed.

(** Installing a block: it is appended after a blank line, a second run finds
    it and writes nothing, and rolling back leaves the text and the blank line. *)
Theorem managed_block_install existing content :
  clear existing → body_ok content →
  let installed := existing +:+ separator existing +:+ block content +:+ LF in
  managed_block existing marker content = Ret (installed, true, None)
  ∧ managed_block installed marker content = Ret (installed, false, Some (block content))
  ∧ rollback_managed_block installed marker (block content) None
    = Ret (Some (existing +:+ separator existing)).
Proof.
  intros Hc Hb installed. destruct (separator_seam existing Hc) as [Hs Hc'].
  assert (Hi : installed = (existing +:+ separator existing) +:+ block content +:+ LF +:+ "")
    by (unfold installed; by rewrite !str_app_assoc, str_app_nil_r).
  split_and!.
  - unfold managed_block. by rewrite find_clear.
  - rewrite Hi, str_app_nil_r, managed_block_found by done. by rewrite String.eqb_refl.
  - rewrite Hi, rollback_found by done. cbn [mbind py_bind].
    change ("" +:+ "") with "". by rewrite str_app_nil_r.
Qed.

(** A text with one block of the marker, whose body is [content]. *)
Section update.
Context (before old new after_ : string).
Hypothesis (Hs : seam before) (Hc : clear before) (Ha : clear after_).
Hypothesis (Ho : body_ok old) (Hn : body_ok new).
Hypothesis (Hbo : has_char "\" (block old) = false) (Hbn : has_char "\" (block new) = false).
Abbreviation text_of content := (before +:+ block content +:+ LF +:+ after_).
Lemma clear_rest : clear (LF +:+ after_).
Proof using Ha Hmarker.
  unfold clear. change (LF +:+ after_) with ("" +:+ String newline after_).
  rewrite (contains_sep newline B) by (apply start_line || apply start_ne). done.
Qed.
Lemma managed_block_update : block old ≠ block new →
  managed_block (text_of old) marker new = Ret (text_of new, true, Some (block old)).
Proof using Hmarker Hs Hc Ha Ho Hbn.
  intros Hne. pose proof clear_rest. rewrite managed_block_found by done.
  destruct (String.eqb_spec (block old) (block new)); [done|]. by rewrite expand_template_plain.
Qed.
Lemma managed_block_again : managed_block (text_of new) marker new = Ret (text_of new, false, Some (block new)).
Proof using Hmarker Hs Hc Ha Hn. pose proof clear_rest. rewrite managed_block_found by done. by rewrite String.eqb_refl. Qed.
Lemma rollback_update :
  rollback_managed_block (text_of new) marker (block new) (Some (block old)) = Ret (Some (text_of old)).
Proof using Hmarker Hs Hc Ha Hn Hbo.
  pose proof clear_rest. rewrite rollback_found by done.
  rewrite expand_template_plain by (rewrite has_char_app; by rewrite Hbo). cbn [mbind py_bind].
  by rewrite <-str_app_assoc.
Qed.
End update.

(** Replacing a managed block is reversible: in a text with one block of
    the marker, [managed_block] replaces exactly that block and returns the
    one it replaced, writing the same content again changes nothing, and
    [rollback_managed_block] with the returned block restores the text byte
    for byte; bodies must not hold the end marker nor a backslash. *)
Theorem managed_block_reversible before old new after_ :
  seam before → clear before → clear after_ → body_ok old → body_ok new →
  has_char "\" (block old) = false → has_char "\" (block new) = false → block old ≠ block new →
  let text := before +:+ block old +:+ LF +:+ after_ in
  let updated := before +:+ block new +:+ LF +:+ after_ in
  managed_block text marker new = Ret (updated, true, Some (block old))
  ∧ managed_block updated marker new = Ret (updated, false, Some (block new))
  ∧ rollback_managed_block updated marker (block new) (Some (block old)) = Ret (Some text).
Proof.
  intros. split_and!; [by apply managed_block_update|by apply managed_block_again|by apply rollback_update].
Qed.
End marker.

(** * Blocks with a backslash *)

#[local] Existing Instance ascii_unicode.
Definition sample_marker : string := "mcp/jira@claude".
Definition sample_block (content : string) : string := block_text sample_marker content +:+ LF.
Example updated_block : managed_block (sample_block "export A=1") sample_marker "export A=2"
  = Ret (sample_block "export A=2", true, Some (block_text sample_marker "export A=1")).
Proof. by vm_compute. Qed.
(** Updating a block to content with [\t] writes a tabulator; the block is then
    not the reviewed one, and is written again on every run. *)
Example backslash_rewritten : managed_block (sample_block "export A=1") sample_marker "printf a\tb"
  = Ret (sample_block ("printf a" +:+ String "009" "b"), true, Some (block_text sample_marker "export A=1")).
Proof. by vm_compute. Qed.
(** Content with another escape makes [re.sub] raise. *)
Example backslash_raises : managed_block (sample_block "export A=1") sample_marker "grep '\d'"
  = Raise (RegexError "bad escape").
Proof. by vm_compute. Qed.

Lemma managed_block_reversible_witness :
  clear sample_marker "alias x=y" ∧
  managed_block ("alias x=y" +:+ LF +:+ block_text sample_marker "export A=1" +:+ LF +:+ "alias z=w")
    sample_marker "export A=2"
  = Ret ("alias x=y" +:+ LF +:+ block_text sample_marker "export A=2" +:+ LF +:+ "alias z=w", true,
         Some (block_text sample_marker "export A=1")).
Proof.
  split; [reflexivity|].
  destruct (managed_block_reversible sample_marker eq_refl ("alias x=y" +:+ LF) "export A=1" "export A=2" "alias z=w")
    as [Hm _].
  - right. exists "alias x=y". reflexivity.
  - reflexivity.
  - reflexivity.
  - reflexivity.
  - reflexivity.
  - reflexivity.
  - reflexivity.
  - discriminate.
  - rewrite <-!str_app_assoc in Hm. exact Hm.
Defined.
