(* ===== verification/SetupRuntime.v ===== *)
(** [setup_runtime.py]: the transaction that applies a reviewed plan to the
    machine, and its compensation.

    Everything the runtime asks of the machine is an operation [op] answered by
    a [world], which may depend on every operation before it: consent, child
    processes, the terminal and the files.  A computation is in [st machine]: the
    trace of the operations made so far, with their answers, and the workspace.  Copying a build
    context, its digest, creating a run directory and removing it, and reading
    a script up to its limit are operations of their own, as are the helpers of
    [io/fs.py]. *)
From S2P Require Import Prelude PyText TextSearch Posix Domain Effects Encodings Redaction Profiles Json PyJson SetupModel SetupRecipe SetupPlan SetupBlock.
From Stdlib Require Import Ascii.
Open Scope Z_scope.

Record ProcessResult := MkProcess { pr_returncode : Z; pr_stdout : string; pr_stderr : string }.

Inductive op : Type → Type :=
  | OpConsent (effect : SetupEffect) : op bool
  | OpProcess (argv : list string) (env : list (string * string)) (cwd : option string) (timeout : Z)
      (capture : bool) (stdout_path : option string) : op ProcessResult
  | OpToolExists (tool : string) : op bool
  | OpClock : op string
  | OpWritePrompt (message : string) : op unit
  | OpReadInput (prompt : string) : op string
  | OpSecretLength (service account : string) : op (option Z)
  (** files: [os.path] tests, [stat], and the helpers of [fs] *)
  | OpIsLink (path : string) : op bool
  | OpExists (path : string) : op bool
  | OpLExists (path : string) : op bool
  | OpIsFile (path : string) : op bool
  | OpIsDir (path : string) : op bool
  | OpIsRegular (path : string) : op bool
  | OpExecutable (path : string) : op bool
  | OpMode (path : string) : op Z
  | OpSize (path : string) : op Z
  | OpReadText (path : string) : op string
  | OpFileHash (path : string) : op string
  | OpListDir (path : string) : op (list string)
  | OpWrite (path : string) (content : bytes) : op unit
  | OpChmod (path : string) (mode : Z) : op unit
  | OpUnlink (path : string) : op unit
  | OpRmdir (path : string) : op unit
  | OpRmtree (path : string) : op unit
  | OpMakedirs (path : string) : op unit
  | OpNewRunDirectory (run_root plan_hash : string) : op string
  | OpMaterialize (source run_dir : string) : op string
  | OpContextDigest (root : string) : op string
  | OpReadEntrypoint (path : string) : op bytes.

(** An operation that was made, with its answer. *)
Definition event : Type := { R : Type & (op R * py R)%type }.
Abbreviation trace := (list event).
Definition event_of {R} (o : op R) (answer : py R) : event := existT R (o, answer).

(** [_RunWorkspace]: the run directory and the build context opened in it. *)
Record workspace := MkWorkspace { ws_run_dir : option string; ws_context : option string }.
Definition closed_workspace : workspace := MkWorkspace None None.

(** What a run of the runtime changes: the operations made, and the workspace. *)
Record machine := MkMachine { mc_trace : trace; mc_workspace : workspace }.

Record SetupRuntime := MkRuntime {
  rt_platform : string;
  rt_environ : list (string * string);
  rt_enforce_source_hash : bool
}.

(** What an effect leaves: its receipt and whether it changed anything, or
    [RollbackIncompleteError] with the receipt it carries. *)
Inductive apply_outcome : Type :=
  | Applied (r : receipt) (changed : bool)
  | Incomplete (message : string) (r : receipt).

(** [except (OSError, RuntimeError, subprocess.SubprocessError)] *)
Definition is_expected (e : exn) : bool :=
  match e with OSError _ | RuntimeError _ | SubprocessError _ | RecursionError => true | _ => false end.
Definition exn_message (e : exn) : string :=
  match e with
  | ValueError m | TypeError m | OverflowError m | OSError m | RuntimeError m | UnicodeDecodeError m
  | JSONDecodeError m | RegexError m | SubprocessError m | Invalid m => m
  | KeyError k => k
  | AssertionError | RecursionError | StopIteration | EOFError => ""
  end.

Section runtime.
Context `{UnicodeData} `{PyNumbers} `{WorkingDirectory}.
Context (world : ∀ R, trace → op R → py R) (rt : SetupRuntime).
Abbreviation setup_m := (st machine).

Definition perform {R} (o : op R) : setup_m R :=
  λ m, let answer := world R (mc_trace m) o in
       (answer, MkMachine (mc_trace m ++ [event_of o answer]) (mc_workspace m)).
Definition raise {A} (e : exn) : setup_m A := pure (Raise e).
Definition fail {A} (message : string) : setup_m A := raise (RuntimeError message).
(** [try: m except expected: handler] *)
Definition guarded {A} (m : setup_m A) (handler : exn → setup_m A) : setup_m A :=
  catch m (λ e, if is_expected e then handler e else raise e).

(** * Processes *)

Definition minimal_env : list (string * string) :=
  let env := omap (λ name, (λ value, (name, value)) <$> dget name (rt_environ rt))
               ["PATH"; "LANG"; "LC_ALL"; "LC_CTYPE"; "TERM"] in
  if mem "PATH" (dkeys env) then env else env ++ [("PATH", "/usr/bin:/bin:/usr/sbin:/sbin")].
Definition docker_env : list (string * string) :=
  let home := default "" (dget "HOME" (rt_environ rt)) in
  let configured := default "" (dget "DOCKER_CONFIG" (rt_environ rt)) in
  let config := if negb (str_empty configured) then configured
                else if str_empty home then "" else pjoin home ".docker" in
  let env := if str_empty home then minimal_env else dset "HOME" home minimal_env in
  if str_empty config then env else dset "DOCKER_CONFIG" config env.

Definition process (argv : list string) (env : list (string * string)) (timeout : Z) : setup_m ProcessResult :=
  perform (OpProcess argv env None timeout true None).
(** [result.stderr or result.stdout or fallback] *)
Definition said (r : ProcessResult) (fallback : string) : string :=
  if negb (str_empty (pr_stderr r)) then pr_stderr r
  else if negb (str_empty (pr_stdout r)) then pr_stdout r else fallback.

(** [failure_detail]: both ends of a long transcript. *)
Definition DETAIL_LIMIT : nat := 512.
Definition DETAIL_HEAD : nat := 128.
Definition failure_detail (raw : string) : string :=
  let text := code_points (redact_text raw) in
  let n := length text in
  if (n <=? DETAIL_LIMIT)%nat then String.concat "" text
  else
    let head := take DETAIL_HEAD text in
    let marker := code_points (LF +:+ "… " +:+ str_Z (Z.of_nat (n - DETAIL_LIMIT))
                               +:+ " characters elided …" +:+ LF) in
    if (DETAIL_LIMIT <=? length head + length marker)%nat
    then String.concat "" (drop (n - DETAIL_LIMIT) text)
    else
      let tail_budget := (DETAIL_LIMIT - length head - length marker)%nat in
      String.concat "" (head ++ marker ++ drop (n - tail_budget) text).

(** * Managed files *)

Definition write_preserving_mode (path content : string) (previous_mode : option Z) : setup_m unit :=
  perform (OpWrite path content) ;; perform (OpChmod path (default 384 previous_mode)).
Definition read_regular_text (path : string) : setup_m (string * bool * option Z) :=
  link ← perform (OpIsLink path);
  if (link : bool) then fail ("refusing to edit symlink: " +:+ path)
  else
    exists_ ← perform (OpExists path);
    if negb exists_ then mret ("", false, None)
    else
      file ← perform (OpIsFile path);
      if negb file then fail ("managed target is not a regular file: " +:+ path)
      else
        mode ← perform (OpMode path);
        text ← perform (OpReadText path);
        mret (text, true, Some mode).

Definition MANAGED_FILE_MODULES : list string :=
  ["shell.env-from-keychain@1"; "shell.env-from-input@1"; "file.managed-block@1"; "json.managed-merge@1"].

(** [_managed_file_preflight]: the failure, or nothing. *)
Definition inspect_target (effect : SetupEffect) : setup_m string :=
  let target := ef_target effect in
  catch (
      link ← perform (OpIsLink target);
      if (link : bool) then mret ("refusing to edit symlink: " +:+ target)
      else
        exists_ ← perform (OpLExists target);
        if negb exists_ then mret ""
        else
          regular ← perform (OpIsRegular target);
          mret (if (regular : bool) then "" else "managed target is not a regular file: " +:+ target))
    (λ e, match e with
          | OSError m => mret ("managed target cannot be inspected: " +:+ target +:+ ": " +:+ m)
          | _ => raise e
          end).
Fixpoint managed_file_preflight (effects : list SetupEffect) : setup_m string :=
  match effects with
  | [] => mret ""
  | effect :: effects =>
      if negb (mem (ef_module effect) MANAGED_FILE_MODULES) then managed_file_preflight effects
      else
        failure ← inspect_target effect;
        if str_empty failure then managed_file_preflight effects else mret failure
  end.

(** * Text inputs *)

Definition required_inputs (effects : list SetupEffect) : list string :=
  concat (map (λ e, if String.eqb (ef_module e) "shell.env-from-input@1" then
                      match dget "variables" (ef_config e) with
                      | Some (VDict vars) => map (λ kv, py_str kv.2) vars | _ => [] end
                    else []) effects).
Abbreviation input_values := (list (string * string) * string)%type.
Definition refuse_inputs (failure : string) : setup_m input_values := mret ([], failure).
(** The values read so far and the failure, for the inputs still to read. *)
Fixpoint read_inputs (inputs : list SetupInput) (required : list string) (values : list (string * string)) :
    setup_m input_values :=
  match inputs with
  | [] =>
      let missing := sorted_set id (List.filter (λ i, negb (mem i (dkeys values))) required) in
      match missing with
      | [] => mret (values, "")
      | _ => refuse_inputs ("text input declaration is unavailable: " +:+ join ", " missing)
      end
  | i :: inputs =>
      if negb (String.eqb (in_type i) "text") || negb (mem (in_id i) required)
      then read_inputs inputs required values
      else
        answer ← catch (fmap Some (perform (OpReadInput (in_prompt i))))
                   (λ e, match e with EOFError => mret None | _ => raise e end);
        match answer with
        | None => refuse_inputs ("text input " +:+ repr (in_id i) +:+ " was not provided")
        | Some text =>
            let value := strip text in
            if str_empty value || has_char creturn value || has_char newline value
            then refuse_inputs ("text input " +:+ repr (in_id i) +:+ " must be a non-empty single-line value")
            else read_inputs inputs required (dset (in_id i) value values)
        end
  end.
Definition text_input_values (plan : SetupPlan) : setup_m input_values :=
  read_inputs (si_inputs (qi_installer (pl_item plan))) (required_inputs (pl_effects plan)) [].

Definition materialize_row (values : list (string * string)) (kv : string * pyval) : py string :=
  match dget (py_str kv.2) values with
  | Some value => Ret ("export " +:+ kv.1 +:+ "=" +:+ shell_quote value)
  | None => Raise (KeyError (py_str kv.2))
  end.
Definition materialize_text_input_effect (effect : SetupEffect) (values : list (string * string)) :
    py SetupEffect :=
  if negb (String.eqb (ef_module effect) "shell.env-from-input@1") then Ret effect
  else match dget "variables" (ef_config effect) with
  | Some (VDict vars) =>
      rows ← mapM (materialize_row values) vars;
      Ret (MkEffect (ef_step_id effect) (ef_module effect) (ef_capability effect) (ef_summary effect)
             (ef_target effect) (ef_argv effect) (ef_reversible effect)
             (dset "content" (VStr (join LF rows)) (ef_config effect)))
  | _ => Raise AssertionError
  end.

(** * The Keychain *)

Definition PROMPT_CEILING : Z := 128.
Definition keychain_receipt (module service account : string) (created replaced : bool) : receipt :=
  [("module", VStr module); ("created", VBool created); ("replaced", VBool replaced);
   ("service", VStr service); ("account", VStr account);
   ("recovery", VStr (if replaced then
      "This account already had a value in the Keychain and this run replaced it. To put "
      +:+ "the prior value back, copy it to the clipboard and run:" +:+ LF
      +:+ "/usr/bin/security add-generic-password -U -a " +:+ shell_quote account +:+ " -s "
      +:+ shell_quote service +:+ " -w " +:+ double_quote +:+ "$(pbpaste)" +:+ double_quote
    else ""))].
Definition manual_keychain_command (service account : string) : string :=
  "/usr/bin/security add-generic-password -U -a " +:+ shell_quote account +:+ " -s " +:+ shell_quote service
  +:+ " -w " +:+ double_quote +:+ "$(pbpaste)" +:+ double_quote.
Definition kept_note : string :=
  "the Keychain already had a value for this account, so this run kept it and never "
  +:+ "asked for a new one; if the credential was rotated since, nothing here changed it".
Definition truncated_note : string :=
  "what is stored is exactly 128 bytes, the point where the Keychain prompt cuts a paste; "
  +:+ "if what was pasted there was longer, only its first 128 bytes were kept".
Definition advise (r : receipt) (service account : string) (kept_existing : bool) : setup_m receipt :=
  stored ← perform (OpSecretLength service account);
  let r := if kept_existing then dset "existing_secret_kept" (VBool true) r else r in
  let r := match stored with Some n => dset "stored_length" (VInt n) r | None => r end in
  let truncated := match stored with Some n => n =? PROMPT_CEILING | None => false end in
  let r := if truncated then dset "truncation_suspected" (VBool true) r else r in
  let notes := (if kept_existing then [kept_note] else []) ++ (if truncated then [truncated_note] else []) in
  mret (match notes with
        | [] => r
        | _ => dset "remediation_commands" (VTuple [VStr (manual_keychain_command service account)])
                 (dset "advisory" (VStr (join " — and " notes)) r)
        end).

Definition find_argv (service account : string) : list string :=
  ["/usr/bin/security"; "find-generic-password"; "-a"; account; "-s"; service].
Definition delete_argv (service account : string) : list string :=
  ["/usr/bin/security"; "delete-generic-password"; "-a"; account; "-s"; service].
Definition succeeded (r : ProcessResult) : bool := pr_returncode r =? 0.

Definition keychain_prompt (effect : SetupEffect) : string :=
  "Setup input: " +:+ ef_summary effect +:+ LF
  +:+ "  The tool asks twice and keeps at most 128 bytes; anything longer is cut here with no error. "
  +:+ "This run measures what was stored and says so if it hit that mark.".
(** Delete an item this run created; [Incomplete] when that fails too. *)
Definition keychain_cleanup (effect : SetupEffect) (service account incomplete failure : string) :
    setup_m apply_outcome :=
  deleted ← process (delete_argv service account) minimal_env 30;
  if negb (succeeded deleted)
  then mret (Incomplete incomplete (keychain_receipt (ef_module effect) service account true false))
  else fail failure.

Definition keychain_apply (effect : SetupEffect) : setup_m apply_outcome :=
  service ← pure (text_field (ef_config effect) "service");
  account ← pure (text_field (ef_config effect) "account");
  found ← process (find_argv service account) minimal_env 30;
  let exists_ := succeeded found in
  let replace_existing := replaces (ef_config effect) in
  let receipt_of := keychain_receipt (ef_module effect) service account in
  if exists_ && negb replace_existing
  then r ← advise (receipt_of false false) service account true; mret (Applied r false)
  else
    perform (OpWritePrompt (keychain_prompt effect)) ;;
    result ← perform (OpProcess (ef_argv effect) minimal_env None 120 false None);
    if negb (succeeded result) then
      if replace_existing
      then mret (Incomplete "Keychain replacement failed and the prior value cannot be restored automatically"
                   (receipt_of false true))
      else
        appeared ← process (find_argv service account) minimal_env 30;
        if succeeded appeared
        then keychain_cleanup effect service account
               "Keychain add failed after creating an item and cleanup was incomplete"
               "security add-generic-password failed"
        else fail "security add-generic-password failed"
    else
      verify ← process (find_argv service account) minimal_env 30;
      if negb (succeeded verify) then
        if replace_existing
        then mret (Incomplete "Keychain replacement could not be verified and is not automatically reversible"
                     (receipt_of false true))
        else keychain_cleanup effect service account
               "Keychain item verification failed and cleanup was incomplete"
               "Keychain item was not found after add"
      else
        r ← advise (receipt_of (negb exists_) exists_) service account false;
        mret (Applied r true).

(** * Blocks, JSON values and directories *)

Definition managed_block_apply (effect : SetupEffect) : setup_m apply_outcome :=
  read ← read_regular_text (ef_target effect);
  let '(existing, existed, mode) := read in
  marker ← pure (text_field (ef_config effect) "marker");
  content ← pure (text_field (ef_config effect) "content");
  outcome ← pure (managed_block existing marker content);
  let '(updated, changed, prior) := outcome in
  let common := [("module", VStr (ef_module effect)); ("path", VStr (ef_target effect));
                 ("marker", VStr marker); ("changed", VBool changed)] in
  if negb changed then mret (Applied common false)
  else
    write_preserving_mode (ef_target effect) updated mode ;;
    mret (Applied (common ++ [("file_existed", VBool existed);
                              ("mode", match mode with Some m => VInt m | None => VNone end);
                              ("prior_block", opt_str prior);
                              ("installed_block", VStr (block_text marker content))]) true).

(** What [_json_apply] does with the object it parsed, along the path. *)
Inductive merge_outcome : Type :=
  | MergeSame
  | MergeCollision (at_ : string)
  | Merged (d : list (string * pyval)) (had_prior : bool).
Fixpoint merge_at (d : list (string * pyval)) (path : list string) (value : pyval) (replace_existing : bool)
    (whole : string) : merge_outcome :=
  match path with
  | [] => MergeSame
  | [leaf] =>
      match dget leaf d with
      | Some prior =>
          if py_eq prior value then MergeSame
          else if replace_existing then Merged (dset leaf value d) true else MergeCollision whole
      | None => Merged (dset leaf value d) false
      end
  | part :: path =>
      let descend child :=
        match merge_at child path value replace_existing whole with
        | Merged child had_prior => Merged (dset part (VDict child) d) had_prior
        | outcome => outcome
        end in
      match dget part d with
      | None | Some VNone => descend []
      | Some (VDict child) => descend child
      | Some _ => MergeCollision part
      end
  end.
(** [json.loads(existing) if existing.strip() else {}] *)
Definition json_target (existing target : string) : py (list (string * pyval)) :=
  if str_empty (strip existing) then Ret []
  else match py_loads existing with
  | Ret (VDict d) => Ret d
  | Ret _ => Raise (RuntimeError ("JSON target must contain an object: " +:+ target))
  | Raise (JSONDecodeError e) => Raise (RuntimeError ("invalid JSON target " +:+ target +:+ ": " +:+ e))
  | Raise e => Raise e
  end.
Definition json_apply (effect : SetupEffect) : setup_m apply_outcome :=
  read ← read_regular_text (ef_target effect);
  let '(existing, existed, mode) := read in
  root ← pure (json_target existing (ef_target effect));
  raw_path ← pure (field (ef_config effect) "path");
  match raw_path with
  | VTuple parts =>
      let path := map py_str parts in
      raw_value ← pure (field (ef_config effect) "value");
      let value := plain raw_value in
      let dotted := join "." path in
      match merge_at root path value (replaces (ef_config effect)) dotted with
      | MergeSame =>
          mret (Applied [("module", VStr (ef_module effect)); ("path", VStr (ef_target effect));
                         ("changed", VBool false)] false)
      | MergeCollision at_ => fail ("JSON path collision at " +:+ repr at_)
      | Merged d had_prior =>
          write_preserving_mode (ef_target effect) (py_dumps_indent 0 (VDict d) +:+ LF) mode ;;
          mret (Applied
            [("module", VStr (ef_module effect)); ("path", VStr (ef_target effect));
             ("json_path", VList (map VStr path)); ("changed", VBool true);
             ("file_existed", VBool existed);
             ("mode", match mode with Some m => VInt m | None => VNone end);
             ("had_prior", VBool had_prior); ("replaced", VBool had_prior); ("installed", value);
             ("reversible", VBool (negb had_prior));
             ("recovery", VStr (if had_prior then
                "Restore the prior value manually at " +:+ ef_target effect +:+ " JSON path " +:+ dotted +:+ "."
              else ""))] true)
      end
  | _ => raise AssertionError
  end.

Definition directory_apply (effect : SetupEffect) : setup_m apply_outcome :=
  let target := ef_target effect in
  let r created := [("module", VStr (ef_module effect)); ("path", VStr target); ("created", VBool created)] in
  exists_ ← perform (OpExists target);
  if (exists_ : bool) then
    dir ← perform (OpIsDir target);
    link ← (if (dir : bool) then perform (OpIsLink target) else mret false);
    if negb dir || link then fail ("directory target is not a regular directory: " +:+ target)
    else mret (Applied (r false) false)
  else perform (OpMakedirs target) ;; mret (Applied (r true) true).

(** * Docker *)

Definition docker_apply (effect : SetupEffect) : setup_m apply_outcome :=
  let image := ef_target effect in
  inspect ← process ["docker"; "image"; "inspect"; image] docker_env 30;
  if succeeded inspect
  then mret (Applied [("module", VStr (ef_module effect)); ("image", VStr image); ("preexisting", VBool true)] false)
  else
    pulled ← process (ef_argv effect) docker_env 300;
    if negb (succeeded pulled) then fail (failure_detail (said pulled "docker pull failed"))
    else mret (Applied
      [("module", VStr (ef_module effect)); ("image", VStr image); ("preexisting", VBool false);
       ("recovery", VStr ("Docker image " +:+ image +:+ " was pulled by this run and was not on this "
          +:+ "machine before. Rollback leaves it, because an image can be shared by other "
          +:+ "containers and nothing removes one automatically. Remove it by hand with "
          +:+ "`docker image rm` only after checking that nothing else uses it."))] true).

(** [_RunWorkspace.close] and [open] *)
Definition set_workspace (w : workspace) : setup_m unit := modify (λ m, MkMachine (mc_trace m) w).
Definition ignoring {A} (expected : exn → bool) (m : setup_m A) : setup_m unit :=
  catch (fmap (λ _, tt) m) (λ e, if expected e then mret tt else raise e).
Definition is_os (e : exn) : bool := match e with OSError _ => true | _ => false end.
Definition is_os_or_runtime (e : exn) : bool :=
  match e with OSError _ | RuntimeError _ | RecursionError => true | _ => false end.
Definition close_workspace : setup_m unit :=
  w ← gets mc_workspace;
  match ws_run_dir w with
  | Some run_dir => ignoring (λ _, true) (perform (OpRmtree run_dir))
  | None => mret tt
  end ;;
  set_workspace closed_workspace.
Definition open_workspace (plan : SetupPlan) (source : string) : setup_m string :=
  w ← gets mc_workspace;
  match ws_context w with
  | Some context => mret context
  | None =>
      run_dir ← perform (OpNewRunDirectory (pl_run_root plan) (pl_plan_hash plan));
      set_workspace (MkWorkspace (Some run_dir) None) ;;
      context ← catch (perform (OpMaterialize source run_dir))
                  (λ e, if is_os_or_runtime e then close_workspace ;; raise e else raise e);
      set_workspace (MkWorkspace (Some run_dir) (Some context)) ;;
      mret context
  end.

Definition build_recovery (tag : string) (preexisting : bool) : string :=
  if preexisting then
    "Docker image tag " +:+ tag +:+ " pointed at another image before this run and now points at "
    +:+ "the image this run built. The earlier image was not recorded and no longer exists, "
    +:+ "so nothing can restore that binding. There is nothing to do unless you are undoing "
    +:+ "this setup, and do not remove this tag: the server runs from it."
  else
    "Docker image tag " +:+ tag +:+ " did not exist before this run and this run "
    +:+ "created it. Rollback removes it with `docker image rm`, which also "
    +:+ "deletes the image itself when no other tag refers to it. There is "
    +:+ "nothing to do unless you are undoing this setup, and do not remove this "
    +:+ "tag by hand: the server runs from it.".
Definition docker_build_apply (effect : SetupEffect) (plan : SetupPlan) : setup_m apply_outcome :=
  let tag := ef_target effect in
  inspect ← process ["docker"; "image"; "inspect"; tag] docker_env 30;
  let preexisting := succeeded inspect in
  source ← pure (text_field (ef_config effect) "context_source");
  context ← open_workspace plan source;
  digest ← perform (OpContextDigest context);
  built ← perform (OpProcess (ef_argv effect) docker_env (Some context) 1800 true None);
  if negb (succeeded built) then fail (failure_detail (said built "docker build failed"))
  else
    identified ← process ["docker"; "image"; "inspect"; "--format"; "{{.Id}}"; tag] docker_env 30;
    mret (Applied
      [("module", VStr (ef_module effect)); ("tag", VStr tag);
       ("context_digest", VStr ("sha256:" +:+ digest));
       ("image_id", VStr (if succeeded identified then strip (pr_stdout identified) else ""));
       ("preexisting", VBool preexisting); ("recovery", VStr (build_recovery tag preexisting))] true).

(** * Certificates *)

Definition PEM_BEGIN : string := "-----BEGIN CERTIFICATE-----".
Definition PEM_MAX_BYTES : Z := 4 * 1024 * 1024.
Definition is_file_error (e : exn) : bool :=
  is_os_or_runtime e || match e with UnicodeDecodeError _ => true | _ => false end.
(** The number of certificates in the exported bundle. *)
Definition check_bundle (result : ProcessResult) (destination subject : string) : setup_m Z :=
  if negb (succeeded result)
  then fail (failure_detail (if str_empty (pr_stderr result) then "certificate export failed"
                             else pr_stderr result))
  else
    size ← perform (OpSize destination);
    if PEM_MAX_BYTES <? size then fail "exported certificate bundle is implausibly large"
    else
      bundle ← perform (OpReadText destination);
      let certificates := Z.of_nat (count_sub PEM_BEGIN bundle) in
      if certificates =? 0 then fail ("no certificate name contains " +:+ repr subject)
      else mret certificates.
Definition trust_store_apply (effect : SetupEffect) (plan : SetupPlan) : setup_m apply_outcome :=
  source ← pure (text_field (ef_config effect) "context_source");
  context ← open_workspace plan source;
  output ← pure (text_field (ef_config effect) "output");
  let destination := abspath (pjoin context output) in
  common ← pure (commonpath context destination);
  if negb (String.eqb common context) then fail ("certificate output escapes the build context: " +:+ output)
  else
    taken ← perform (OpLExists destination);
    if (taken : bool) then fail ("certificate output would overwrite a package file: " +:+ output)
    else
      perform (OpMakedirs (dirname destination)) ;;
      result ← perform (OpProcess (ef_argv effect) minimal_env None 120 true (Some destination));
      subject ← pure (text_field (ef_config effect) "subject_contains");
      certificates ← catch (check_bundle result destination subject)
        (λ e, if is_file_error e then ignoring is_os (perform (OpUnlink destination)) ;; raise e else raise e);
      perform (OpChmod destination 384) ;;
      mret (Applied [("module", VStr (ef_module effect)); ("output", VStr output);
                     ("subject_contains", VStr subject); ("certificates", VInt certificates);
                     ("recovery", VStr "")] false).

Definition command_verify (effect : SetupEffect) : setup_m apply_outcome :=
  let cwd := match dget "cwd" (ef_config effect) with
             | Some v => if truthy v then Some (py_str v) else None | None => None end in
  let timeout := match dget "timeout" (ef_config effect) with
                 | Some v => default 30 (numeral v) | None => 30 end in
  result ← perform (OpProcess (ef_argv effect) minimal_env cwd timeout true None);
  if negb (succeeded result) then fail (failure_detail (said result "verification command failed"))
  else mret (Applied [("module", VStr (ef_module effect)); ("verified", VBool true)] false).

(** * Custom scripts *)

Definition is_runtime (e : exn) : bool := match e with RuntimeError _ | RecursionError => true | _ => false end.
Definition take_chars (n : nat) (s : string) : string := String.concat "" (take n (code_points s)).
Definition custom_result (d : list (string * pyval)) (expected : string) : py (list (string * pyval)) :=
  let refuse message := Raise (RuntimeError message) in
  match set_minus (dkeys d) ["status"; "detail"; "reversible"; "recovery"] with
  | _ :: _ => refuse "custom setup result contains undeclared fields"
  | [] =>
      if negb (py_eq (get d "status") (VStr expected))
      then refuse ("custom setup result must report status " +:+ repr expected)
      else
      match default (VStr "") (dget "detail" d), default (VStr "") (dget "recovery" d) with
      | VStr detail, VStr recovery =>
          if negb (String.eqb (redact_text detail) detail && String.eqb (redact_text recovery) recovery)
          then refuse "custom setup result contains secret-shaped content"
          else match default (VBool false) (dget "reversible" d) with
          | VBool reversible =>
              Ret [("status", VStr expected); ("detail", VStr (take_chars 512 detail));
                   ("reversible", VBool reversible); ("recovery", VStr (take_chars 512 recovery))]
          | _ => refuse "custom setup reversible must be a boolean"
          end
      | _, _ => refuse "custom setup detail/recovery must be strings"
      end
  end.
Definition validate_custom_result (path expected : string) : setup_m (list (string * pyval)) :=
  link ← perform (OpIsLink path);
  file ← (if (link : bool) then mret false else perform (OpIsFile path));
  if negb file then fail "custom setup did not create a regular result file"
  else
    catch (text ← perform (OpReadText path);
           raw ← pure (py_loads text);
           match raw with
           | VDict d => pure (custom_result d expected)
           | _ => fail "custom setup result must be an object"
           end)
      (λ e, match e with
            | JSONDecodeError m =>
                ignoring is_os_or_runtime (perform (OpUnlink path)) ;;
                fail ("invalid custom setup result: " +:+ m)
            | _ => if is_runtime e
                   then ignoring is_os_or_runtime (perform (OpUnlink path)) ;; raise e else raise e
            end).

(** The arguments of a phase and the status it must report. *)
Definition phase_arguments (phase plan_hash : string) (receipt_path : option string) :
    py (list string * string) :=
  if String.eqb phase "plan" then Ret (["--json"], "planned")
  else if String.eqb phase "apply" then Ret (["--plan-hash"; plan_hash], "configured")
  else if String.eqb phase "verify" then Ret (["--json"], "verified")
  else if String.eqb phase "rollback" then
    match receipt_path with
    | None => Raise (RuntimeError "custom rollback requires a receipt")
    | Some path => Ret (["--receipt"; path], "rolled_back")
    end
  else Ret ([], phase).
Definition config_text (effect : SetupEffect) (key : string) : string :=
  match dget key (ef_config effect) with Some v => py_str v | None => "" end.
Definition phase_env (effect : SetupEffect) (plan_hash run_dir : string) : list (string * string) :=
  foldl (λ env kv, dset kv.1 kv.2 env) minimal_env
    [("AART_SETUP_PLAN_HASH", plan_hash); ("AART_SETUP_RUN_DIR", run_dir);
     ("AART_SETUP_ARTIFACT", config_text effect "artifact");
     ("AART_SETUP_PROFILE", config_text effect "profile");
     ("AART_SETUP_SCOPE", config_text effect "scope");
     ("AART_SETUP_SOURCE", config_text effect "source_label");
     ("AART_SETUP_INSTALLER_HASH", config_text effect "descriptor_hash")].
Definition custom_phase (effect : SetupEffect) (phase plan_hash run_dir : string)
    (receipt_path : option string) : setup_m (list (string * pyval)) :=
  let script := ef_target effect in
  link ← perform (OpIsLink script);
  file ← (if (link : bool) then mret false else perform (OpIsFile script));
  executable ← (if (file : bool) then perform (OpExecutable script) else mret false);
  if negb executable then fail "custom setup entrypoint must remain an executable regular file"
  else
    hash ← perform (OpFileHash script);
    expected_hash ← pure (field (ef_config effect) "script_hash");
    if negb (py_eq (VStr hash) expected_hash) then fail "custom setup script hash changed after review"
    else
      arguments ← pure (phase_arguments phase plan_hash receipt_path);
      let '(more, expected) := arguments in
      let result_path := pjoin run_dir (phase +:+ "-result.json") in
      result ← perform (OpProcess ([script; phase] ++ more ++ ["--result"; result_path])
                          (phase_env effect plan_hash run_dir) (Some run_dir) 120 true None);
      if negb (succeeded result) then fail ("custom setup " +:+ phase +:+ " failed")
      else validate_custom_result result_path expected.

Definition custom_receipt (effect : SetupEffect) (plan : SetupPlan) (run_dir : string)
    (applied : list (string * pyval)) (script_source : string) : py receipt :=
  hash ← field (ef_config effect) "script_hash";
  Ret [("module", VStr (ef_module effect)); ("script", VStr (ef_target effect));
       ("script_source", VStr script_source); ("script_hash", hash); ("run_dir", VStr run_dir);
       ("plan_hash", VStr (pl_plan_hash plan)); ("applied", VDict applied);
       ("reversible", VBool (match dget "reversible" applied with Some v => truthy v | None => true end));
       ("recovery", VStr "Re-run `aart marketplace setup` for this artifact to retry the compensation.")].

(** The rollback phase that a failed [_custom_apply] runs: whether it worked. *)
Definition custom_compensate (effect : SetupEffect) (plan : SetupPlan) (run_dir : string)
    (applied : list (string * pyval)) : setup_m bool :=
  let receipt_path := pjoin run_dir "custom-receipt.json" in
  perform (OpWrite receipt_path
    (py_dumps_default (VDict [("plan_hash", VStr (pl_plan_hash plan)); ("apply", VDict applied)]))) ;;
  guarded (custom_phase effect "rollback" (pl_plan_hash plan) run_dir (Some receipt_path) ;; mret true)
    (λ _, mret false).
(** A failure after the script may have run: compensate, then [recover]. *)
Definition custom_failed (effect : SetupEffect) (plan : SetupPlan) (run_dir script_source : string)
    (applied : list (string * pyval)) (incomplete : string) (recover : setup_m apply_outcome) :
    setup_m apply_outcome :=
  partial ← pure (custom_receipt effect plan run_dir applied script_source);
  done_ ← custom_compensate effect plan run_dir applied;
  if (done_ : bool) then recover else mret (Incomplete incomplete partial).
(** [set(os.listdir(run_dir)) == expected] *)
Definition same_files (files expected : list string) : bool :=
  forallb (λ f, mem f expected) files && forallb (λ f, mem f files) expected.
Definition attempt {A} (m : setup_m A) : setup_m (A + exn) :=
  guarded (fmap inl m) (λ e, mret (inr e)).

(** [except (OSError, RuntimeError): shutil.rmtree(run_dir); raise] *)
Definition discard_run {A} (run_dir : string) (e : exn) : setup_m A :=
  if is_os_or_runtime e then perform (OpRmtree run_dir) ;; raise e else raise e.
Definition SCRIPT_LIMIT : Z := 1024 * 1024.
(** [_read_custom_entrypoint]: reading is an operation, which stops one byte past the limit. *)
Definition read_custom_entrypoint (path : string) (expected_hash : pyval) : setup_m bytes :=
  content ← perform (OpReadEntrypoint path);
  if SCRIPT_LIMIT <? Z.of_nat (String.length content)
  then fail "custom setup entrypoint exceeds immutable copy limit"
  else match expected_hash with
  | VStr hash =>
      if String.eqb (sha256_hexdigest content) hash then mret content
      else fail "custom setup entrypoint hash changed before immutable run copy"
  | _ => fail "custom setup entrypoint hash changed before immutable run copy"
  end.

Definition custom_apply (effect : SetupEffect) (plan : SetupPlan) : setup_m apply_outcome :=
  let source_script := ef_target effect in
  let phase_of e name run_dir := custom_phase e name (pl_plan_hash plan) run_dir None in
  run_dir ← perform (OpNewRunDirectory (pl_run_root plan) (pl_plan_hash plan));
  content ← catch (hash ← pure (field (ef_config effect) "script_hash");
                   read_custom_entrypoint source_script hash) (discard_run run_dir);
  let copied_script := pjoin run_dir (basename source_script) in
  catch (perform (OpWrite copied_script content) ;; perform (OpChmod copied_script 448))
    (discard_run run_dir) ;;
  let run_effect := MkEffect (ef_step_id effect) (ef_module effect) (ef_capability effect)
                      (ef_summary effect) copied_script [copied_script] (ef_reversible effect)
                      (ef_config effect) in
  before ← perform (OpListDir run_dir);
  planned ← phase_of run_effect "plan" run_dir;
  after_plan ← perform (OpListDir run_dir);
  if negb (same_files after_plan (before ++ ["plan-result.json"]))
  then perform (OpRmtree run_dir) ;; fail "custom plan mutated the controlled run directory"
  else
    applied_or ← attempt (phase_of run_effect "apply" run_dir);
    match applied_or with
    | inr e => custom_failed run_effect plan run_dir source_script []
                 "custom apply failed and rollback was incomplete" (raise e)
    | inl applied =>
        files ← perform (OpListDir run_dir);
        if negb (same_files files (after_plan ++ ["apply-result.json"]))
        then custom_failed run_effect plan run_dir source_script applied
               "custom apply violated its run directory and rollback was incomplete"
               (perform (OpRmtree run_dir) ;; fail "custom apply mutated the controlled run directory")
        else
          verified_or ← attempt (phase_of run_effect "verify" run_dir);
          match verified_or with
          | inr e => custom_failed run_effect plan run_dir source_script applied
                       "custom verification failed and rollback was incomplete" (raise e)
          | inl verified =>
              files ← perform (OpListDir run_dir);
              if negb (same_files files (after_plan ++ ["apply-result.json"; "verify-result.json"]))
              then custom_failed run_effect plan run_dir source_script applied
                     "custom verification violated its run directory and rollback was incomplete"
                     (perform (OpRmtree run_dir) ;; fail "custom verify mutated the controlled run directory")
              else
                r ← pure (custom_receipt run_effect plan run_dir applied source_script);
                mret (Applied (r ++ [("planned", VDict planned); ("verified", VDict verified)]) true)
          end
    end.

(** [_apply_effect] *)
Definition apply_effect (effect : SetupEffect) (plan : SetupPlan) : setup_m apply_outcome :=
  let m := ef_module effect in
  if String.eqb m "macos-keychain.store@1" then keychain_apply effect
  else if mem m ["shell.env-from-keychain@1"; "shell.env-from-input@1"; "file.managed-block@1"]
  then managed_block_apply effect
  else if String.eqb m "json.managed-merge@1" then json_apply effect
  else if String.eqb m "directory.create@1" then directory_apply effect
  else if String.eqb m "docker.pull@1" then docker_apply effect
  else if String.eqb m "docker.build@1" then docker_build_apply effect plan
  else if String.eqb m "trust-store.export-certificates@1" then trust_store_apply effect plan
  else if String.eqb m "command.verify@1" then command_verify effect
  else if String.eqb m "restart.notice@1"
  then mret (Applied [("module", VStr m); ("message", VStr (ef_summary effect))] false)
  else if String.eqb m "custom.install@1" then custom_apply effect plan
  else fail ("unsupported runtime module: " +:+ m).
End runtime.
