(* ===== verification/SetupTransaction.v ===== *)
(** [setup_runtime.py]: compensating receipts, and the transaction that applies
    the effects of one reviewed plan. *)
From S2P Require Import Prelude PyText Posix Domain Effects Redaction Profiles Json PyJson SetupModel SetupRecipe SetupPlan SetupBlock SetupRuntime SetupRecipeSpec SetupPlanSpec.
Open Scope Z_scope.

(** [receipt.get(key) is True], [is False] *)
Definition is_true (r : receipt) (key : string) : bool :=
  match get r key with VBool b => b | _ => false end.
Definition is_false (r : receipt) (key : string) : bool :=
  match get r key with VBool b => negb b | _ => false end.
(** [receipt.get("module")]; what is not a string is no module. *)
Definition module_of (r : receipt) : string := default "" (vstr (get r "module")).
Definition compensated (r : receipt) : bool :=
  match get r "setup_disposition" with VStr s => String.eqb s "compensated" | _ => false end.
Definition BLOCK_MODULES : list string :=
  ["shell.env-from-keychain@1"; "shell.env-from-input@1"; "file.managed-block@1"].
(** Modules that change nothing that outlives the run. *)
Definition HARMLESS_MODULES : list string :=
  ["restart.notice@1"; "command.verify@1"; "trust-store.export-certificates@1"].

Section transaction.
Context `{UnicodeData} `{PyNumbers} `{WorkingDirectory}.
Context (world : ∀ R, trace → op R → py R) (rt : SetupRuntime).
Abbreviation setup_m := (st machine).
Abbreviation perform := (perform world).

(** * Compensation *)

(** [str(receipt[key])] *)
Definition receipt_text (r : receipt) (key : string) : setup_m string :=
  v ← pure (field r key); mret (py_str v).
(** [_write_preserving_mode(path, text, receipt.get("mode"))] *)
Definition restore_file (r : receipt) (path text : string) : setup_m unit :=
  perform (OpWrite path text) ;;
  match get r "mode" with
  | VNone => perform (OpChmod path 384)
  | v => match numeral v with
         | Some mode => perform (OpChmod path mode)
         | None => raise (TypeError "an integer is required")
         end
  end.
(** The file goes when nothing is left of it and the run created it. *)
Definition rewrite_or_remove (r : receipt) (nothing_left : bool) (path text : string) : setup_m bool :=
  if nothing_left && is_false r "file_existed"
  then perform (OpUnlink path) ;; mret true
  else restore_file r path text ;; mret true.

Definition rollback_keychain (r : receipt) : setup_m bool :=
  account ← receipt_text r "account";
  service ← receipt_text r "service";
  result ← process world (delete_argv service account) (minimal_env rt) 30;
  mret (succeeded result).

Definition rollback_block (r : receipt) : setup_m bool :=
  path ← receipt_text r "path";
  catch (
      read ← read_regular_text world path;
      let '(current, _, _) := read in
      marker ← receipt_text r "marker";
      installed ← receipt_text r "installed_block";
      let prior := match get r "prior_block" with VNone => None | v => Some (py_str v) end in
      rolled ← pure (rollback_managed_block current marker installed prior);
      match rolled with
      | None => mret false
      | Some text => rewrite_or_remove r (str_empty text) path text
      end)
    (λ e, if is_os_or_runtime e then mret false else raise e).

Definition rollback_directory (r : receipt) : setup_m bool :=
  catch (path ← receipt_text r "path"; perform (OpRmdir path) ;; mret true)
    (λ e, if is_os e then mret false else raise e).

(** The object without the value installed at the path, where it still is. *)
Fixpoint unmerge_at (d : list (string * pyval)) (path : list string) (installed : pyval) :
    option (list (string * pyval)) :=
  match path with
  | [] => None
  | [leaf] => if py_eq (get d leaf) installed then Some (List.filter (λ kv, negb (String.eqb kv.1 leaf)) d) else None
  | part :: path =>
      match get d part with
      | VDict child => child ← unmerge_at child path installed; Some (dset part (VDict child) d)
      | _ => None
      end
  end.
Definition json_path_of (r : receipt) : option (list string) :=
  match get r "json_path" with
  | VList ((_ :: _) as l) | VTuple ((_ :: _) as l) => Some (map py_str l)
  | _ => None
  end.
Definition rollback_json (r : receipt) : setup_m bool :=
  if is_true r "replaced" then mret false
  else
    path ← receipt_text r "path";
    catch (
        read ← read_regular_text world path;
        let '(current, _, _) := read in
        root ← pure (py_loads current);
        match root with
        | VDict root =>
            match json_path_of r with
            | None => mret false
            | Some parts =>
                match unmerge_at root parts (get r "installed") with
                | None => mret false
                | Some root =>
                    rewrite_or_remove r (match root with [] => true | _ => false end) path
                      (py_dumps_indent 0 (VDict root) +:+ LF)
                end
            end
        | _ => mret false
        end)
      (λ e, if is_os_or_runtime e || match e with JSONDecodeError _ => true | _ => false end
            then mret false else raise e).

Definition rollback_custom (r : receipt) : setup_m bool :=
  script ← receipt_text r "script";
  run_dir ← receipt_text r "run_dir";
  let receipt_path := pjoin run_dir "custom-receipt.json" in
  guarded (
      plan_hash ← pure (field r "plan_hash");
      perform (OpWrite receipt_path
        (py_dumps_default (VDict [("plan_hash", plan_hash);
                                  ("apply", plain (default (VDict []) (dget "applied" r)))]))) ;;
      script_hash ← pure (field r "script_hash");
      let effect := MkEffect "custom" "custom.install@1" (Some "custom-code") "custom rollback" script []
                      false [("script_hash", script_hash)] in
      custom_phase world rt effect "rollback" (py_str plan_hash) run_dir (Some receipt_path) ;;
      mret true)
    (λ _, mret false).

Definition rollback_build (r : receipt) : setup_m bool :=
  if is_true r "preexisting" then mret true
  else
    tag ← receipt_text r "tag";
    result ← process world ["docker"; "image"; "rm"; tag] (docker_env rt) 120;
    mret (succeeded result).

(** [_rollback_receipt] *)
Definition rollback_receipt (r : receipt) : setup_m bool :=
  let m := module_of r in
  let is_ name := String.eqb m name in
  if compensated r then mret true
  else if is_ "macos-keychain.store@1" && is_true r "replaced" then mret false
  else if is_ "macos-keychain.store@1" && is_true r "created" then rollback_keychain r
  else if mem m BLOCK_MODULES && truthy (get r "changed") then rollback_block r
  else if is_ "directory.create@1" && is_true r "created" then rollback_directory r
  else if is_ "json.managed-merge@1" && is_true r "changed" then rollback_json r
  else if is_ "custom.install@1" then
    if is_true r "reversible" then rollback_custom r else mret false
  else if is_ "docker.pull@1" then mret (is_true r "preexisting")
  else if is_ "docker.build@1" then rollback_build r
  else mret (mem m HARMLESS_MODULES || negb (truthy (get r "changed"))).

(** [_rollback_all]: from the last receipt to the first, whatever fails. *)
Definition try_rollback (r : receipt) : setup_m bool := guarded (rollback_receipt r) (λ _, mret false).
Fixpoint rollback_each (receipts : list receipt) (complete : bool) : setup_m bool :=
  match receipts with
  | [] => mret complete
  | r :: receipts =>
      done_ ← try_rollback r;
      rollback_each receipts (if (done_ : bool) then complete else false)
  end.
Definition rollback_all (receipts : list receipt) : setup_m bool := rollback_each (rev receipts) true.

(** * Records *)

Definition freeze_receipt (r : receipt) : receipt := map (λ kv, (kv.1, freeze kv.2)) r.
(** [_record] *)
Definition record_of (plan : SetupPlan) (status detail started finished : string)
    (receipts : list receipt) (exit_status : pyval) : SetupStateRecord :=
  let item := pl_item plan in
  let installer := qi_installer item in
  MkStateRecord (qi_artifact_type item) (qi_artifact_name item) (qi_profile item) (qi_scope item)
    status (redact_text detail) (qi_source_label item) (si_descriptor_path installer)
    (si_descriptor_hash installer) (default "" (si_custom_hash installer)) (si_schema_version installer)
    (si_protocol_version installer) (pl_plan_hash plan) started finished exit_status
    (if mem status ["configured"; "already_configured"] then "" else retry_command item)
    (match receipts with [] => "" | _ => rollback_command item end)
    "" (map freeze_receipt receipts) "" "" "" "" "" "" "" "".
(** A record finished at this moment. *)
Definition finish (plan : SetupPlan) (status detail started : string) (receipts : list receipt)
    (exit_status : pyval) : setup_m SetupStateRecord :=
  finished ← perform OpClock;
  mret (record_of plan status detail started finished receipts exit_status).

(** * The transaction *)

Definition KEPT_OPEN : string := "Setup cancelled before applying the next reviewed effect".
(** [consent(effect)], where an ended or interrupted answer is a refusal. *)
Definition consented (effect : SetupEffect) : setup_m bool :=
  catch (perform (OpConsent effect)) (λ e, match e with EOFError => mret false | _ => raise e end).
(** Everything applied so far is compensated; its receipts are kept when that fails. *)
Definition cancel (plan : SetupPlan) (started : string) (receipts : list receipt) : setup_m SetupStateRecord :=
  rolled_back ← rollback_all receipts;
  finish plan (if (rolled_back : bool) then "cancelled" else "rollback_incomplete") KEPT_OPEN started
    (if rolled_back then [] else receipts) VNone.
Definition failure_status (module : string) (rolled_back : bool) : string :=
  if String.eqb module "command.verify@1" && rolled_back then "verification_failed"
  else if rolled_back then "apply_failed_rolled_back" else "rollback_incomplete".
(** [incomplete]: the failure carried a receipt, which is among [receipts]. *)
Definition abort (plan : SetupPlan) (started : string) (effect : SetupEffect) (receipts : list receipt)
    (message : string) (incomplete : bool) : setup_m SetupStateRecord :=
  rolled_back ← rollback_all receipts;
  let detail := if rolled_back && String.eqb (ef_module effect) "custom.install@1" && incomplete
                then "custom setup failed; rollback completed after retry" else redact_text message in
  finish plan (failure_status (ef_module effect) rolled_back) detail started
    (if (rolled_back : bool) then [] else receipts) (VInt 1).

(** [{"step_id": effect.step_id, **receipt}] *)
Definition step_receipt (effect : SetupEffect) (r : receipt) : receipt :=
  foldl (λ d kv, dset kv.1 kv.2 d) [("step_id", VStr (ef_step_id effect))] r.
(** Materializing the inputs of an effect and applying it: a failure is a value. *)
Definition run_effect (plan : SetupPlan) (text_inputs : list (string * string)) (effect : SetupEffect) :
    setup_m (apply_outcome + exn) :=
  attempt (run ← pure (materialize_text_input_effect effect text_inputs); apply_effect world rt run plan).

(** [_apply_effects] *)
Fixpoint apply_effects (plan : SetupPlan) (started : string) (text_inputs : list (string * string))
    (effects : list SetupEffect) (receipts : list receipt) (changed : bool) : setup_m SetupStateRecord :=
  match effects with
  | [] =>
      if changed
      then finish plan "configured" "Setup configured" started receipts (VInt 0)
      else finish plan "already_configured" "Setup was already configured" started [] (VInt 0)
  | effect :: effects =>
      approved ← consented effect;
      if negb approved then cancel plan started receipts
      else
        outcome ← run_effect plan text_inputs effect;
        match outcome with
        | inl (Applied r effect_changed) =>
            apply_effects plan started text_inputs effects (receipts ++ [step_receipt effect r])
              (changed || effect_changed)
        | inl (Incomplete message r) =>
            abort plan started effect (receipts ++ [step_receipt effect r]) message true
        | inr e => abort plan started effect receipts (exn_message e) false
        end
  end.

(** The installer is the reviewed one. *)
Definition descriptor_matches (plan : SetupPlan) : setup_m bool :=
  let descriptor := pjoin (qi_source_root (pl_item plan)) (si_descriptor_path (qi_installer (pl_item plan))) in
  catch (
      link ← perform (OpIsLink descriptor);
      if (link : bool) then mret false
      else
        file ← perform (OpIsFile descriptor);
        if negb file then mret false
        else
          hash ← perform (OpFileHash descriptor);
          mret (String.eqb hash (si_descriptor_hash (qi_installer (pl_item plan)))))
    (λ e, if is_os e then mret false else raise e).
Fixpoint missing_tools (tools : list string) : setup_m (list string) :=
  match tools with
  | [] => mret []
  | tool :: tools =>
      found ← perform (OpToolExists tool);
      rest ← missing_tools tools;
      mret (if (found : bool) then rest else tool :: rest)
  end.

(** [apply_setup_plan] *)
Definition apply_setup_plan (plan : SetupPlan) : setup_m SetupStateRecord :=
  started ← perform OpClock;
  matches ← (if rt_enforce_source_hash rt then descriptor_matches plan else mret true);
  if negb matches
  then finish plan "apply_failed_rolled_back" "setup installer hash changed after review" started [] (VInt 1)
  else match pl_preflight_status plan with
  | Some status => finish plan status (pl_preflight_detail plan) started [] VNone
  | None =>
      if negb (mem (rt_platform rt) (si_platforms (qi_installer (pl_item plan))))
      then finish plan "unsupported" ("current platform " +:+ rt_platform rt +:+ " is unsupported") started []
             VNone
      else
        missing ← missing_tools (si_required_tools (qi_installer (pl_item plan)));
        match missing with
        | _ :: _ =>
            finish plan "prerequisite_missing" ("missing required tool(s): " +:+ join ", " missing) started []
              VNone
        | [] =>
            preflight_failure ← managed_file_preflight world (pl_effects plan);
            if negb (str_empty preflight_failure)
            then finish plan "prerequisite_missing" preflight_failure started [] (VInt 1)
            else
              inputs ← text_input_values world plan;
              let '(text_inputs, input_failure) := inputs in
              if negb (str_empty input_failure)
              then finish plan "cancelled" input_failure started [] (VInt 1)
              else
                set_workspace closed_workspace ;;
                finally (apply_effects plan started text_inputs (pl_effects plan) [] false)
                  (close_workspace world)
        end
  end.

(** [rollback_record] *)
Definition rollback_record (record : SetupStateRecord) : setup_m SetupStateRecord :=
  ok ← rollback_all (sr_receipt record);
  finished ← perform OpClock;
  mret (MkStateRecord (sr_artifact_type record) (sr_artifact_name record) (sr_profile record)
    (sr_scope record) (if (ok : bool) then "skipped" else "rollback_incomplete")
    (if ok then "Setup rollback completed" else "Setup rollback was incomplete")
    (sr_source_label record) (sr_installer_path record) (sr_installer_hash record)
    (sr_custom_hash record) (sr_schema_version record) (sr_protocol_version record)
    (sr_plan_hash record) (sr_started_at record) finished (VInt (if ok then 0 else 1))
    (sr_retry_command record) (if ok then "" else sr_rollback_command record)
    (sr_receipt_path record) (if ok then [] else sr_receipt record) (sr_object_digest record)
    (sr_recipe_digest record) (sr_trust record) (sr_trust_evidence_digest record)
    (sr_policy_digest record) (sr_capability_plan_digest record)
    (sr_canonical_review_digest record) (sr_setup_state_ref record)).
End transaction.

(** The transaction of [setup_runtime.py]: nothing changes on the machine before
    an effect of the plan was consented to, and a run that does not configure
    compensates every effect it applied, last first.

    Both are stated over every [world], so over every answer the terminal, the
    processes and the files may give, exceptions included. *)


(** * What an operation changes *)

(** A process may change anything; the files are changed by the writing operations. *)
Definition changes {R} (o : op R) : bool :=
  match o with
  | OpProcess _ _ _ _ _ _ | OpWrite _ _ | OpChmod _ _ | OpUnlink _ | OpRmdir _ | OpRmtree _
  | OpMakedirs _ | OpNewRunDirectory _ _ | OpMaterialize _ _ => true
  | _ => false
  end.
Definition event_changes (e : event) : bool := changes (projT2 e).1.
Definition granted (effect : SetupEffect) : event := event_of (OpConsent effect) (Ret true).
Definition calm (t : trace) : Prop := Forall (λ e, event_changes e = false) t.
(** An effect of the plan was consented to, and nothing was changed before. *)
Definition licensed (effects : list SetupEffect) (t : trace) : Prop :=
  ∃ before effect after, t = before ++ granted effect :: after ∧ calm before ∧ effect ∈ effects.

Lemma licensed_app effects t u : licensed effects t → licensed effects (t ++ u).
Proof.
  intros (before & effect & after & -> & Hc & He). exists before, effect, (after ++ u).
  by rewrite <- (assoc_L app).
Qed.
Lemma licensed_change effects t before e after :
  licensed effects t → t = before ++ e :: after → event_changes e = true →
  ∃ effect, effect ∈ effects ∧ granted effect ∈ before.
Proof.
  intros (pre & effect & post & -> & Hc & He) Heq Hch. exists effect. split; [done|].
  destruct (decide (length pre < length before)%nat) as [Hlt|Hge].
  - apply list_elem_of_lookup. exists (length pre).
    rewrite <- (lookup_app_l before (e :: after)) by done. rewrite <- Heq.
    by rewrite lookup_app_r, Nat.sub_diag by done.
  - exfalso. assert (Hat : (pre ++ granted effect :: post) !! length before = Some e).
    { rewrite Heq, lookup_app_r, Nat.sub_diag by done. done. }
    destruct (decide (length before = length pre)) as [E|Hne].
    + rewrite E, lookup_app_r, Nat.sub_diag in Hat by done. by injection Hat as <-.
    + rewrite lookup_app_l in Hat by lia. unfold calm in Hc. rewrite Forall_lookup in Hc.
      by rewrite (Hc _ _ Hat) in Hch.
Qed.

(** * Invariants of computations *)

(** A computation that keeps an invariant of the machine, whatever it answers. *)
Definition keeps {A} (I : machine → Prop) (m : st machine A) : Prop := ∀ s, I s → I (m s).2.

Section keeps.
Context (I : machine → Prop).
Lemma keeps_ret {A} (a : A) : keeps I (mret a).
Proof. by intros s. Qed.
Lemma keeps_pure {A} (m : py A) : keeps I (pure m).
Proof. by intros s. Qed.
Lemma keeps_raise {A} e : keeps I (raise (A := A) e).
Proof. by intros s. Qed.
Lemma keeps_bind {A B} (m : st machine A) (f : A → st machine B) :
  keeps I m → (∀ a, keeps I (f a)) → keeps I (m ≫= f).
Proof.
  intros Hm Hf s Hs. unfold mbind, st_bind. specialize (Hm s Hs).
  destruct (m s) as [[a|e] s1]; [by apply Hf|done].
Qed.
Lemma keeps_fmap {A B} (f : A → B) (m : st machine A) : keeps I m → keeps I (f <$> m).
Proof.
  intros Hm s Hs. unfold fmap, st_fmap. specialize (Hm s Hs). by destruct (m s) as [[a|e] s1].
Qed.
Lemma keeps_catch {A} (m : st machine A) h : keeps I m → (∀ e, keeps I (h e)) → keeps I (catch m h).
Proof.
  intros Hm Hh s Hs. unfold catch. specialize (Hm s Hs).
  destruct (m s) as [[a|e] s1]; [done|by apply Hh].
Qed.
Lemma keeps_finally {A} (m : st machine A) c : keeps I m → keeps I c → keeps I (finally m c).
Proof.
  intros Hm Hc s Hs. unfold finally. specialize (Hm s Hs). destruct (m s) as [r s1].
  specialize (Hc s1 Hm). by destruct (c s1) as [[[]|e] s2].
Qed.
Lemma keeps_gets {A} (f : machine → A) : keeps I (gets f).
Proof. by intros s. Qed.
End keeps.
Create HintDb keeps.
#[export] Hint Resolve keeps_ret keeps_pure keeps_raise keeps_gets : keeps.

(** Structural steps; what remains are the operations and the named parts. *)
Ltac keeps_step :=
  match goal with
  | |- keeps _ (mbind _ _) => apply keeps_bind; [|intros ?]
  | |- keeps _ (fmap _ _) => apply keeps_fmap
  | |- keeps _ (catch _ _) => apply keeps_catch; [|intros ?]
  | |- keeps _ (finally _ _) => apply keeps_finally
  | |- keeps _ (guarded _ _) => unfold guarded
  | |- keeps _ (ignoring _ _) => unfold ignoring
  | |- keeps _ (attempt _) => unfold attempt
  | |- keeps _ (fail _) => apply keeps_raise
  | |- keeps _ (let '(_, _) := ?p in _) => destruct p
  | |- keeps _ (if ?b then _ else _) => destruct b
  | |- keeps _ (match ?x with _ => _ end) => destruct x
  | _ => progress cbn beta zeta
  end.
Ltac keeps := repeat first [ solve [auto with keeps nocore] | keeps_step ].

Section runtime.
Context `{UnicodeData} `{PyNumbers} `{WorkingDirectory}.
Context (world : ∀ R, trace → op R → py R) (rt : SetupRuntime).

(** An invariant every operation keeps is kept by every part of the runtime. *)
Section free.
Context (I : machine → Prop).
Context (Hop : ∀ R (o : op R), keeps I (perform world o)) (Hws : ∀ w, keeps I (set_workspace w)).
#[local] Hint Resolve Hop Hws : keeps.

Lemma process_keeps argv env timeout : keeps I (process world argv env timeout).
Proof using Hop. apply Hop. Qed.
#[local] Hint Resolve process_keeps : keeps.
Lemma write_keeps path content mode : keeps I (write_preserving_mode world path content mode).
Proof using Hop. unfold write_preserving_mode. keeps. Qed.
Lemma read_keeps path : keeps I (read_regular_text world path).
Proof using Hop. unfold read_regular_text. keeps. Qed.
#[local] Hint Resolve write_keeps read_keeps : keeps.
Lemma advise_keeps r service account kept : keeps I (advise world r service account kept).
Proof using Hop. unfold advise. keeps. Qed.
Lemma cleanup_keeps effect service account incomplete failure :
  keeps I (keychain_cleanup world rt effect service account incomplete failure).
Proof using Hop. unfold keychain_cleanup. keeps. Qed.
#[local] Hint Resolve advise_keeps cleanup_keeps : keeps.
Lemma keychain_keeps effect : keeps I (keychain_apply world rt effect).
Proof using Hop. unfold keychain_apply. keeps. Qed.
Lemma block_keeps effect : keeps I (managed_block_apply world effect).
Proof using Hop. unfold managed_block_apply. keeps. Qed.
Lemma json_keeps effect : keeps I (json_apply world effect).
Proof using Hop. unfold json_apply. keeps. Qed.
Lemma directory_keeps effect : keeps I (directory_apply world effect).
Proof using Hop. unfold directory_apply. keeps. Qed.
Lemma docker_keeps effect : keeps I (docker_apply world rt effect).
Proof using Hop. unfold docker_apply. keeps. Qed.
Lemma close_keeps : keeps I (close_workspace world).
Proof using Hop Hws. unfold close_workspace. keeps. Qed.
#[local] Hint Resolve close_keeps : keeps.
Lemma open_keeps plan source : keeps I (open_workspace world plan source).
Proof using Hop Hws. unfold open_workspace. keeps. Qed.
#[local] Hint Resolve open_keeps : keeps.
Lemma build_keeps effect plan : keeps I (docker_build_apply world rt effect plan).
Proof using Hop Hws. unfold docker_build_apply. keeps. Qed.
Lemma bundle_keeps result destination subject : keeps I (check_bundle world result destination subject).
Proof using Hop. unfold check_bundle. keeps. Qed.
#[local] Hint Resolve bundle_keeps : keeps.
Lemma trust_keeps effect plan : keeps I (trust_store_apply world rt effect plan).
Proof using Hop Hws. unfold trust_store_apply. keeps. Qed.
Lemma verify_keeps effect : keeps I (command_verify world rt effect).
Proof using Hop. unfold command_verify. keeps. Qed.
Lemma result_keeps path expected : keeps I (validate_custom_result world path expected).
Proof using Hop. unfold validate_custom_result. keeps. Qed.
#[local] Hint Resolve result_keeps : keeps.
Lemma phase_keeps effect phase plan_hash run_dir receipt_path :
  keeps I (custom_phase world rt effect phase plan_hash run_dir receipt_path).
Proof using Hop. unfold custom_phase. keeps. Qed.
#[local] Hint Resolve phase_keeps : keeps.
Lemma compensate_keeps effect plan run_dir applied :
  keeps I (custom_compensate world rt effect plan run_dir applied).
Proof using Hop. unfold custom_compensate. keeps. Qed.
#[local] Hint Resolve compensate_keeps : keeps.
Lemma failed_keeps effect plan run_dir source applied incomplete recover :
  keeps I recover → keeps I (custom_failed world rt effect plan run_dir source applied incomplete recover).
Proof using Hop. intros Hr. unfold custom_failed. keeps. Qed.
Lemma entrypoint_keeps path hash : keeps I (read_custom_entrypoint world path hash).
Proof using Hop. unfold read_custom_entrypoint. keeps. Qed.
Lemma discard_keeps {A} run_dir e : keeps I (discard_run world (A := A) run_dir e).
Proof using Hop. unfold discard_run. keeps. Qed.
#[local] Hint Resolve entrypoint_keeps discard_keeps : keeps.
Lemma custom_keeps effect plan : keeps I (custom_apply world rt effect plan).
Proof using Hop. unfold custom_apply. keeps; apply failed_keeps; keeps. Qed.
#[local] Hint Resolve keychain_keeps block_keeps json_keeps directory_keeps docker_keeps build_keeps
  trust_keeps verify_keeps custom_keeps : keeps.
Lemma apply_effect_keeps effect plan : keeps I (apply_effect world rt effect plan).
Proof using Hop Hws. unfold apply_effect. keeps. Qed.
#[local] Hint Resolve apply_effect_keeps : keeps.
Lemma run_effect_keeps plan inputs effect : keeps I (run_effect world rt plan inputs effect).
Proof using Hop Hws. unfold run_effect. keeps. Qed.

Lemma text_keeps r key : keeps I (receipt_text r key).
Proof using. unfold receipt_text. keeps. Qed.
#[local] Hint Resolve text_keeps : keeps.
Lemma rewrite_keeps r nothing path text : keeps I (rewrite_or_remove world r nothing path text).
Proof using Hop. unfold rewrite_or_remove, restore_file. keeps. Qed.
#[local] Hint Resolve rewrite_keeps : keeps.
Lemma rollback_keeps r : keeps I (rollback_receipt world rt r).
Proof using Hop.
  unfold rollback_receipt, rollback_keychain, rollback_block, rollback_directory, rollback_json,
    rollback_custom, rollback_build. keeps.
Qed.
#[local] Hint Resolve rollback_keeps : keeps.
Lemma each_keeps receipts complete : keeps I (rollback_each world rt receipts complete).
Proof using Hop. revert complete. induction receipts; intros; cbn [rollback_each]; unfold try_rollback; keeps. Qed.
Lemma all_keeps receipts : keeps I (rollback_all world rt receipts).
Proof using Hop. apply each_keeps. Qed.
#[local] Hint Resolve all_keeps run_effect_keeps : keeps.
Lemma finish_keeps plan status detail started receipts exit_status :
  keeps I (finish world plan status detail started receipts exit_status).
Proof using Hop. unfold finish. keeps. Qed.
#[local] Hint Resolve finish_keeps : keeps.
Lemma effects_keeps plan started inputs effects receipts changed :
  keeps I (apply_effects world rt plan started inputs effects receipts changed).
Proof using Hop Hws.
  revert receipts changed.
  induction effects; intros; cbn [apply_effects]; unfold consented, cancel, abort; keeps.
Qed.
End free.

(** * Consent before any change *)

Context (effects : list SetupEffect).
Let Licensed (m : machine) : Prop := licensed effects (mc_trace m).
Let Idle (m : machine) : Prop := calm (mc_trace m) ∧ mc_workspace m = closed_workspace.

Lemma licensed_keeps R (o : op R) : keeps Licensed (perform world o).
Proof using. intros [t w] Hl. by apply licensed_app. Qed.
Lemma licensed_workspace w : keeps Licensed (set_workspace w).
Proof using. by intros [t w'] Hl. Qed.
Lemma idle_keeps {R} (o : op R) : changes o = false → keeps Idle (perform world o).
Proof using.
  intros Ho [t w] [Hc Hw]. split; [|done]. cbn. apply Forall_app. split; [done|].
  by constructor; [|constructor].
Qed.
Lemma idle_workspace : keeps Idle (set_workspace closed_workspace).
Proof using. intros [t w] [Hc Hw]. by split. Qed.
#[local] Hint Extern 1 (keeps _ (perform _ _)) => apply idle_keeps; reflexivity : keeps.
#[local] Hint Resolve idle_workspace : keeps.

Lemma idle_close : keeps Idle (close_workspace world).
Proof using.
  intros [t w] [Hc Hw]. cbn in Hw. subst w. split; [done|done].
Qed.
Lemma idle_finish plan status detail started receipts exit_status :
  keeps Idle (finish world plan status detail started receipts exit_status).
Proof using. unfold finish. keeps. Qed.
Lemma idle_matches plan : keeps Idle (descriptor_matches world plan).
Proof using. unfold descriptor_matches. keeps. Qed.
Lemma idle_tools tools : keeps Idle (missing_tools world tools).
Proof using. induction tools; cbn [missing_tools]; keeps. Qed.
Lemma idle_preflight l : keeps Idle (managed_file_preflight world l).
Proof using.
  induction l; cbn [managed_file_preflight]; [keeps|]. unfold inspect_target. keeps.
Qed.
Lemma idle_inputs plan : keeps Idle (text_input_values world plan).
Proof using.
  unfold text_input_values. generalize (required_inputs (pl_effects plan)). intros required.
  generalize ([] : list (string * string)).
  induction (si_inputs (qi_installer (pl_item plan))) as [|i l IH]; intros values; cbn [read_inputs];
    unfold refuse_inputs; keeps.
Qed.

(** Idle until a consent is granted, licensed from then on. *)
Let Sound (m : machine) : Prop := Idle m ∨ Licensed m.
Lemma idle_consent effect s :
  effect ∈ effects → Idle s →
  match consented world effect s with
  | (Ret true, s') => Licensed s'
  | (_, s') => Idle s'
  end.
Proof using.
  intros He [Hc Hw]. unfold consented, catch, perform.
  assert (Hcalm : ∀ answer, calm (mc_trace s ++ [event_of (OpConsent effect) answer])).
  { intros answer. apply Forall_app. split; [done|]. by repeat constructor. }
  destruct (world bool (mc_trace s) (OpConsent effect)) as [[|]|e].
  - by exists (mc_trace s), effect, [].
  - split; [apply Hcalm|exact Hw].
  - destruct e; (split; [apply Hcalm|exact Hw]).
Qed.
Lemma sound_effects plan started inputs s :
  pl_effects plan = effects → Idle s →
  Sound (apply_effects world rt plan started inputs effects [] false s).2.
Proof using.
  intros Heff Hs.
  assert (Hsub : ∀ e, e ∈ effects → e ∈ effects) by done.
  revert Hsub. generalize effects at 1 3. intros [|effect rest] Hsub; cbn [apply_effects].
  { left. by apply idle_finish. }
  pose proof (idle_consent effect s (Hsub _ (list_elem_of_here _ _)) Hs) as Hc.
  unfold mbind at 1, st_bind at 1. destruct (consented world effect s) as [[[|]|e] s1].
  - right. revert Hc. cbn [negb].
    apply keeps_bind; [apply run_effect_keeps; eauto using licensed_keeps, licensed_workspace|].
    intros [[r c|message r]|e]; [apply effects_keeps; eauto using licensed_keeps, licensed_workspace|..];
      unfold abort; (apply keeps_bind; [apply all_keeps; eauto using licensed_keeps|intros ok]);
      apply finish_keeps; eauto using licensed_keeps.
  - left. cbn [negb]. unfold cancel. revert s1 Hc.
    apply keeps_bind; [|intros ok; apply idle_finish]. apply keeps_ret.
  - by left.
Qed.
Lemma sound_close s : Sound s → Sound (close_workspace world s).2.
Proof using.
  intros [Hs|Hs]; [left; by apply idle_close|right].
  apply close_keeps; eauto using licensed_keeps, licensed_workspace.
Qed.
(** A step that leaves the machine idle, then a sound rest. *)
Lemma sound_bind {A B} (m : st machine A) (f : A → st machine B) s :
  keeps Idle m → Idle s → (∀ a s', Idle s' → Sound (f a s').2) → Sound ((m ≫= f) s).2.
Proof using.
  intros Hm Hs Hf. unfold mbind, st_bind. specialize (Hm s Hs).
  destruct (m s) as [[a|e] s']; [by apply Hf|by left].
Qed.
Lemma sound_idle {A} (m : st machine A) s : keeps Idle m → Idle s → Sound (m s).2.
Proof using. left. auto. Qed.
#[local] Hint Resolve idle_matches idle_tools idle_preflight idle_inputs idle_finish : keeps.
Lemma sound_plan plan s :
  pl_effects plan = effects → Idle s → Sound (apply_setup_plan world rt plan s).2.
Proof using.
  intros Heff Hs. unfold apply_setup_plan.
  apply sound_bind; [keeps|done|intros started s1 Hi1].
  apply sound_bind; [keeps|done|intros matches s2 Hi2].
  destruct matches; cbn [negb]; [|apply sound_idle; [keeps|assumption]].
  destruct (pl_preflight_status plan); [apply sound_idle; [keeps|assumption]|].
  destruct (negb _); [apply sound_idle; [keeps|assumption]|].
  apply sound_bind; [keeps|done|intros [|] s3 Hi3]; [|apply sound_idle; [keeps|assumption]].
  apply sound_bind; [keeps|done|intros failure s4 Hi4].
  destruct (negb _); [apply sound_idle; [keeps|assumption]|].
  apply sound_bind; [keeps|done|intros [inputs failed] s5 Hi5].
  destruct (negb _); [apply sound_idle; [keeps|assumption]|].
  apply sound_bind; [keeps|done|intros _ s6 Hi6].
  unfold finally. pose proof (sound_effects plan started inputs s6 Heff Hi6) as Hr.
  rewrite Heff. destruct (apply_effects _ _ _ _ _ _ _ _ s6) as [r s7].
  pose proof (sound_close s7 Hr) as Hcl. by destruct (close_workspace world s7) as [[[]|e] s8].
Qed.
End runtime.

(** C13:  Whatever the machine answers, [apply_setup_plan] changes nothing
    before it has consent: in the trace of its run, which may end in any record
    or exception, an operation that changes the machine (a process, a written,
    removed or created file, a run directory) comes after an effect of the plan
    was consented to. *)
Theorem consent_before_change `{UnicodeData} `{PyNumbers} `{WorkingDirectory} world rt plan before e after :
  mc_trace (apply_setup_plan world rt plan (MkMachine [] closed_workspace)).2 = before ++ e :: after →
  event_changes e = true →
  ∃ effect, effect ∈ pl_effects plan ∧ granted effect ∈ before.
Proof.
  intros Ht He.
  destruct (sound_plan world rt (pl_effects plan) plan (MkMachine [] closed_workspace) eq_refl)
    as [[Hc _]|Hl].
  - by split; [constructor|].
  - exfalso. rewrite Ht in Hc. apply Forall_app in Hc as [_ Hc]. inversion Hc. congruence.
  - exact (licensed_change _ _ _ _ _ Hl Ht He).
Qed.

(** * The outcome of a transaction *)

Section outcome.
Context `{UnicodeData} `{PyNumbers} `{WorkingDirectory}.
Context (world : ∀ R, trace → op R → py R) (rt : SetupRuntime) (plan : SetupPlan)
  (text_inputs : list (string * string)).

(** Effects applied in order, each after its consent: their receipts, and whether
    one of them changed anything. *)
Inductive applied : machine → list SetupEffect → list receipt → bool → machine → Prop :=
  | applied_none m : applied m [] [] false m
  | applied_next m effects receipts changed m1 effect m2 r effect_changed m3 :
      applied m effects receipts changed m1 →
      consented world effect m1 = (Ret true, m2) →
      run_effect world rt plan text_inputs effect m2 = (Ret (inl (Applied r effect_changed)), m3) →
      applied m (effects ++ [effect]) (receipts ++ [step_receipt effect r]) (changed || effect_changed) m3.

(** Compensations attempted for all the receipts, the last first: whether every one worked. *)
Inductive unwound : machine → list receipt → bool → machine → Prop :=
  | unwound_none m : unwound m [] true m
  | unwound_last m receipts r worked m1 all m2 :
      try_rollback world rt r m = (Ret worked, m1) →
      unwound m1 receipts all m2 →
      unwound m (receipts ++ [r]) (worked && all) m2.

(** The run ends at an effect: it was refused, it failed after some change it
    could not compensate itself, or it failed.  The receipts to compensate, and
    the statuses that say they were. *)
Inductive stopped (effect : SetupEffect) (m : machine) (receipts : list receipt) :
    list receipt → list string → machine → Prop :=
  | stopped_refused m1 :
      consented world effect m = (Ret false, m1) →
      stopped effect m receipts receipts ["cancelled"] m1
  | stopped_incomplete m1 message r m2 :
      consented world effect m = (Ret true, m1) →
      run_effect world rt plan text_inputs effect m1 = (Ret (inl (Incomplete message r)), m2) →
      stopped effect m receipts (receipts ++ [step_receipt effect r])
        ["apply_failed_rolled_back"; "verification_failed"] m2
  | stopped_failed m1 e m2 :
      consented world effect m = (Ret true, m1) →
      run_effect world rt plan text_inputs effect m1 = (Ret (inr e), m2) →
      stopped effect m receipts receipts ["apply_failed_rolled_back"; "verification_failed"] m2.

Lemma applied_snoc m effects receipts changed m1 : applied m effects receipts changed m1 →
  length receipts = length effects.
Proof. induction 1; [done|]. by rewrite !length_app, IHapplied. Qed.

Lemma try_rollback_bind {A} r (f : bool → st machine A) m a m' :
  (try_rollback world rt r ≫= f) m = (Ret a, m') →
  ∃ worked m1, try_rollback world rt r m = (Ret worked, m1) ∧ f worked m1 = (Ret a, m').
Proof. apply bind_run_inv. Qed.
Lemma rollback_each_unwound receipts complete m ok m' :
  rollback_each world rt receipts complete m = (Ret ok, m') →
  ∃ all, unwound m (rev receipts) all m' ∧ ok = complete && all.
Proof.
  revert complete m. induction receipts as [|r receipts IH]; intros complete m Hrun; cbn [rollback_each] in Hrun.
  { injection Hrun as <- <-. exists true. split; [constructor|]. by rewrite andb_true_r. }
  apply try_rollback_bind in Hrun as (worked & m1 & Hr & Hrun).
  apply IH in Hrun as (all & Hall & ->). exists (worked && all). split.
  - cbn [rev]. by econstructor.
  - destruct worked, complete, all; done.
Qed.
Lemma rollback_all_unwound receipts m ok m' :
  rollback_all world rt receipts m = (Ret ok, m') → unwound m receipts ok m'.
Proof.
  unfold rollback_all. intros Hrun. apply rollback_each_unwound in Hrun as (all & Hall & ->).
  by rewrite rev_involutive in Hall.
Qed.

(** What a record says of a run that did not configure: the receipts that were
    compensated, or kept because one compensation failed. *)
Definition unwound_record (record : SetupStateRecord) (ok : bool) (kept : list receipt)
    (statuses : list string) : Prop :=
  if ok then sr_receipt record = [] ∧ sr_status record ∈ statuses
  else sr_receipt record = map freeze_receipt kept ∧ sr_status record = "rollback_incomplete".
(** What it says of a run that applied every effect. *)
Definition configured_record (record : SetupStateRecord) (changed : bool) (receipts : list receipt) : Prop :=
  sr_exit_status record = VInt 0
  ∧ if changed then sr_status record = "configured" ∧ sr_receipt record = map freeze_receipt receipts
    else sr_status record = "already_configured" ∧ sr_receipt record = [].

Lemma finish_inv status detail started receipts exit_status m record m' :
  finish world plan status detail started receipts exit_status m = (Ret record, m') →
  sr_status record = status ∧ sr_receipt record = map freeze_receipt receipts
  ∧ sr_exit_status record = exit_status.
Proof.
  unfold finish. intros Hrun. apply bind_run_inv in Hrun as (t & m1 & _ & Hrun). by injection Hrun as <- _.
Qed.
Lemma cancel_unwound started receipts m record m' :
  cancel world rt plan started receipts m = (Ret record, m') →
  ∃ ok m1, unwound m receipts ok m1 ∧ unwound_record record ok receipts ["cancelled"].
Proof.
  unfold cancel. intros Hrun. apply bind_run_inv in Hrun as (ok & m1 & Hr & Hf).
  exists ok, m1. split; [by apply rollback_all_unwound|].
  apply finish_inv in Hf as (Hs & Hr' & _). destruct ok; split; try done. rewrite Hs. set_solver.
Qed.
Lemma abort_unwound started effect receipts message incomplete m record m' :
  abort world rt plan started effect receipts message incomplete m = (Ret record, m') →
  ∃ ok m1, unwound m receipts ok m1
    ∧ unwound_record record ok receipts ["apply_failed_rolled_back"; "verification_failed"].
Proof.
  unfold abort. intros Hrun. apply bind_run_inv in Hrun as (ok & m1 & Hr & Hf).
  exists ok, m1. split; [by apply rollback_all_unwound|].
  apply finish_inv in Hf as (Hs & Hr' & _). unfold failure_status in Hs.
  destruct ok; split; try done; rewrite Hs; destruct (String.eqb _ _); try done; set_solver.
Qed.

(** The run of the effects that remain, from a machine where the first ones are applied. *)
Definition transaction_outcome (m : machine) (effects : list SetupEffect) (record : SetupStateRecord) : Prop :=
  ∃ first rest receipts changed m1, effects = first ++ rest ∧ applied m first receipts changed m1
    ∧ match rest with
      | [] => configured_record record changed receipts
      | effect :: _ =>
          ∃ kept statuses m2 ok m3, stopped effect m1 receipts kept statuses m2
            ∧ unwound m2 kept ok m3 ∧ unwound_record record ok kept statuses
      end.
Lemma apply_effects_outcome started m first receipts changed m1 rest record m' :
  applied m first receipts changed m1 →
  apply_effects world rt plan started text_inputs rest receipts changed m1 = (Ret record, m') →
  transaction_outcome m (first ++ rest) record.
Proof.
  revert first receipts changed m1. induction rest as [|effect rest IH]; intros first receipts changed m1 Ha Hrun;
    cbn [apply_effects] in Hrun.
  { exists first, [], receipts, changed, m1. split; [done|]. split; [done|].
    destruct changed; apply finish_inv in Hrun as (Hs & Hr & He); by split. }
  assert (Hstop : ∀ kept statuses m2 ok m3, stopped effect m1 receipts kept statuses m2 →
    unwound m2 kept ok m3 → unwound_record record ok kept statuses →
    transaction_outcome m (first ++ effect :: rest) record).
  { intros kept statuses m2 ok m3 Hs Hu Hr. exists first, (effect :: rest), receipts, changed, m1.
    split; [done|]. split; [done|]. by exists kept, statuses, m2, ok, m3. }
  apply bind_run_inv in Hrun as ([|] & m2 & Hc & Hrun); cbn [negb] in Hrun.
  - apply bind_run_inv in Hrun as ([[r effect_changed|message r]|e] & m3 & Ho & Hrun).
    + apply (IH (first ++ [effect])) in Hrun; [|by econstructor]. by rewrite <- (assoc_L app) in Hrun.
    + apply abort_unwound in Hrun as (ok & m4 & Hu & Hr). by eapply Hstop; [eapply stopped_incomplete|..].
    + apply abort_unwound in Hrun as (ok & m4 & Hu & Hr). by eapply Hstop; [eapply stopped_failed|..].
  - apply cancel_unwound in Hrun as (ok & m4 & Hu & Hr). by eapply Hstop; [eapply stopped_refused|..].
Qed.
(** ** Exceptions *)

(** How an exception leaves the run, at the effects that remain: from the question
    for consent, from an effect or from a compensation, and there it is none of
    the expected ones, or from the clock that dates the record. *)
Inductive escaped (m : machine) (receipts : list receipt) (e : exn) (m' : machine) : list SetupEffect → Prop :=
  | escaped_consent effect rest :
      consented world effect m = (Raise e, m') → e ≠ EOFError → escaped m receipts e m' (effect :: rest)
  | escaped_effect effect rest m1 :
      consented world effect m = (Ret true, m1) →
      run_effect world rt plan text_inputs effect m1 = (Raise e, m') → is_expected e = false →
      escaped m receipts e m' (effect :: rest)
  | escaped_compensation effect rest earlier r later statuses m1 all m2 :
      stopped effect m receipts (earlier ++ r :: later) statuses m1 →
      unwound m1 later all m2 →
      try_rollback world rt r m2 = (Raise e, m') → is_expected e = false →
      escaped m receipts e m' (effect :: rest)
  | escaped_recording effect rest kept statuses m1 ok m2 :
      stopped effect m receipts kept statuses m1 → unwound m1 kept ok m2 →
      perform world OpClock m2 = (Raise e, m') → escaped m receipts e m' (effect :: rest)
  | escaped_finish :
      perform world OpClock m = (Raise e, m') → escaped m receipts e m' [].

Definition transaction_escape (m : machine) (effects : list SetupEffect) (e : exn) (m' : machine) : Prop :=
  ∃ first rest receipts changed m1, effects = first ++ rest ∧ applied m first receipts changed m1
    ∧ escaped m1 receipts e m' rest.

Lemma consented_raise effect m e m' : consented world effect m = (Raise e, m') → e ≠ EOFError.
Proof.
  unfold consented, catch. destruct (perform world (OpConsent effect) m) as [[a|e'] m1]; [done|].
  intros Hr ->. destruct e'; discriminate Hr.
Qed.
Lemma run_effect_raise effect m e m' :
  run_effect world rt plan text_inputs effect m = (Raise e, m') → is_expected e = false.
Proof.
  unfold run_effect. set (run := _ ≫= _). unfold attempt, guarded, catch, fmap, st_fmap.
  destruct (run m) as [[a|e'] m1]; [done|]. destruct (is_expected e') eqn:E; [done|]. by intros [= <- _].
Qed.
Lemma try_rollback_raise r m e m' : try_rollback world rt r m = (Raise e, m') → is_expected e = false.
Proof.
  unfold try_rollback, guarded, catch. destruct (rollback_receipt world rt r m) as [[a|e'] m1]; [done|].
  destruct (is_expected e') eqn:E; [done|]. by intros [= <- _].
Qed.
Lemma rollback_each_raise receipts complete m e m' :
  rollback_each world rt receipts complete m = (Raise e, m') →
  ∃ done_ r rest all m1, receipts = done_ ++ r :: rest ∧ unwound m (rev done_) all m1
    ∧ try_rollback world rt r m1 = (Raise e, m').
Proof.
  revert complete m. induction receipts as [|r receipts IH]; intros complete m Hrun; cbn [rollback_each] in Hrun; [done|].
  apply bind_raise_inv in Hrun as [Hr|(worked & m1 & Hr & Hrun)].
  - exists [], r, receipts, true, m. split_and!; [done|constructor|done].
  - apply IH in Hrun as (done_ & r' & rest & all & m2 & -> & Hu & Hr').
    exists (r :: done_), r', rest, (worked && all), m2. split_and!; [done| |done]. cbn [rev]. by econstructor.
Qed.

(** Compensating and recording, where that raises. *)
Lemma unwind_raise effect rest receipts kept statuses m m1 e m' (k : bool → st machine SetupStateRecord) :
  stopped effect m receipts kept statuses m1 →
  (∀ ok m2, k ok m2 = (Raise e, m') → perform world OpClock m2 = (Raise e, m')) →
  (rollback_all world rt kept ≫= k) m1 = (Raise e, m') → escaped m receipts e m' (effect :: rest).
Proof.
  intros Hs Hk [Hr|(ok & m2 & Hr & Hrun)]%bind_raise_inv.
  - unfold rollback_all in Hr. apply rollback_each_raise in Hr as (done_ & r & before & all & m2 & Hrev & Hu & Hr).
    assert (kept = rev before ++ r :: rev done_) as ->.
    { rewrite <-(rev_involutive kept), Hrev, rev_app_distr. cbn [rev]. by rewrite <-(assoc_L app). }
    eapply escaped_compensation; [exact Hs|exact Hu|exact Hr|by eapply try_rollback_raise].
  - apply rollback_all_unwound in Hr. eapply escaped_recording; [exact Hs|exact Hr|by eapply Hk].
Qed.
Lemma finish_raise status detail started receipts exit_status m e m' :
  finish world plan status detail started receipts exit_status m = (Raise e, m') →
  perform world OpClock m = (Raise e, m').
Proof. unfold finish. by intros [?|(? & ? & _ & [=])]%bind_raise_inv. Qed.

Lemma apply_effects_escape started m first receipts changed m1 rest e m' :
  applied m first receipts changed m1 →
  apply_effects world rt plan started text_inputs rest receipts changed m1 = (Raise e, m') →
  transaction_escape m (first ++ rest) e m'.
Proof.
  revert first receipts changed m1. induction rest as [|effect rest IH]; intros first receipts changed m1 Ha Hrun;
    cbn [apply_effects] in Hrun.
  { exists first, [], receipts, changed, m1. split; [done|]. split; [done|]. apply escaped_finish.
    by destruct changed; apply finish_raise in Hrun. }
  assert (escaped m1 receipts e m' (effect :: rest) → transaction_escape m (first ++ effect :: rest) e m') as Hesc.
  { intros He. by exists first, (effect :: rest), receipts, changed, m1. }
  apply bind_raise_inv in Hrun as [Hc|([|] & m2 & Hc & Hrun)]; cbn [negb] in *.
  - apply Hesc, escaped_consent; [done|by eapply consented_raise].
  - apply bind_raise_inv in Hrun as [Ho|([[r effect_changed|message r]|err] & m3 & Ho & Hrun)].
    + apply Hesc. eapply escaped_effect; [done..|by eapply run_effect_raise].
    + apply (IH (first ++ [effect])) in Hrun; [|by econstructor]. by rewrite <- (assoc_L app) in Hrun.
    + apply Hesc. eapply unwind_raise; [by eapply stopped_incomplete| |exact Hrun]. intros ok m4. apply finish_raise.
    + apply Hesc. eapply unwind_raise; [by eapply stopped_failed| |exact Hrun]. intros ok m4. apply finish_raise.
  - apply Hesc. eapply unwind_raise; [by eapply stopped_refused| |exact Hrun]. intros ok m4. apply finish_raise.
Qed.
End outcome.

(** C12: applying the reviewed effects is a transaction, up to exceptions the
    code does not expect.  There is a split of the effects: the first ones were
    each consented to and applied in order.  When a record is returned, either
    nothing remains, and it is [configured] with their receipts
    ([already_configured] when none of them changed anything); or the next one
    was refused or failed, and then every receipt was compensated, last first
    and even after one compensation failed: the record carries no receipt when
    all of them worked, and is [rollback_incomplete] with every receipt
    otherwise.  An exception leaves the run from the question for consent, from
    the clock that dates the record, or, when it is none of [OSError],
    [RuntimeError] and [SubprocessError], from the next effect, and then
    nothing was compensated, or from a compensation, and then the earlier
    receipts were not. *)
Theorem setup_transaction `{UnicodeData} `{PyNumbers} `{WorkingDirectory} world rt plan started text_inputs m :
  match apply_effects world rt plan started text_inputs (pl_effects plan) [] false m with
  | (Ret record, _) => transaction_outcome world rt plan text_inputs m (pl_effects plan) record
  | (Raise e, m') => transaction_escape world rt plan text_inputs m (pl_effects plan) e m'
  end.
Proof.
  destruct (apply_effects _ _ _ _ _ _ _ _ _) as [[record|e] m'] eqn:E.
  - apply (apply_effects_outcome _ _ _ _ started m [] [] false m) in E; [done|constructor].
  - apply (apply_effects_escape _ _ _ _ started m [] [] false m) in E; [done|constructor].
Qed.

(** * Sample runs *)

#[local] Existing Instance ascii_unicode.
#[local] Existing Instance plain_numbers.
#[local] Existing Instance root_directory.
Definition demo_runtime : SetupRuntime := MkRuntime "darwin" [("PATH", "/usr/bin")] false.
Definition demo_item : SetupQueueItem :=
  MkQueueItem "mcp" "jira" "claude" "user" "team" "/store/ab"
    (MkInstaller 2 2 "mcp/jira" "" ["darwin"] [] [] [] [] [] "setup/installer.json" "" "SETUP.md" None None)
    "" "1.0.0".
Definition create_effect : SetupEffect :=
  MkEffect "home" "directory.create@1" (Some "filesystem") "create it" "/opt/jira" [] true [].
Definition check_effect : SetupEffect :=
  MkEffect "check" "command.verify@1" (Some "process") "check it" "" ["jira"; "ping"] false [].
Definition edit_effect : SetupEffect :=
  MkEffect "rc" "file.managed-block@1" (Some "filesystem") "edit it" "/home/me/.zshrc" [] true
    [("marker", VStr "jira"); ("content", VStr "export A=1")].
Definition demo_plan (effects : list SetupEffect) : SetupPlan :=
  MkSetupPlan demo_item effects "cafe" "/work" "/home/me" "/work" None "".
(** A machine where every effect is consented to, a process fails, and the shell file reads [text]. *)
Definition demo_world (text : string) : ∀ R, trace → op R → py R := λ R t o,
  match o in op R return py R with
  | OpConsent _ => Ret true
  | OpProcess _ _ _ _ _ _ => Ret (MkProcess 1 "" "no answer")
  | OpToolExists _ => Ret true
  | OpClock => Ret "2026-01-01T00:00:00Z"
  | OpIsLink _ => Ret false
  | OpExists path | OpLExists path | OpIsFile path => Ret (String.eqb path "/home/me/.zshrc")
  | OpIsRegular _ => Ret true
  | OpMode _ => Ret 420
  | OpReadText _ => Ret text
  | OpMakedirs _ | OpRmdir _ | OpUnlink _ | OpRmtree _ | OpWritePrompt _ => Ret tt
  | OpWrite _ _ | OpChmod _ _ => Ret tt
  | _ => Raise (OSError "not available")
  end.
Definition demo_start : machine := MkMachine [] closed_workspace.
(** The operations that changed the machine. *)
Definition change_name (e : event) : option string :=
  match e with
  | existT _ (OpProcess argv _ _ _ _ _, _) => Some ("run " +:+ join " " argv)
  | existT _ (OpWrite path _, _) => Some ("write " +:+ path)
  | existT _ (OpMakedirs path, _) => Some ("create " +:+ path)
  | existT _ (OpRmdir path, _) => Some ("remove " +:+ path)
  | _ => None
  end.
Definition demo_changes (m : machine) : list string := omap change_name (mc_trace m).

(** The second effect fails: the directory that the first one made is removed. *)
Example failed_check_undoes :
  let run := apply_effects (demo_world "") demo_runtime (demo_plan [create_effect; check_effect]) "now" []
               [create_effect; check_effect] [] false demo_start in
  match run.1 with
  | Ret record => sr_status record = "verification_failed" ∧ sr_receipt record = []
  | Raise _ => False
  end ∧ demo_changes run.2 = ["create /opt/jira"; "run jira ping"; "remove /opt/jira"].
Proof. vm_compute. done. Qed.
Lemma consent_before_change_witness :
  let plan := demo_plan [create_effect; check_effect] in
  let t := mc_trace (apply_setup_plan (demo_world "") demo_runtime plan demo_start).2 in
  let e := event_of (OpMakedirs "/opt/jira") (Ret tt) in
  t = take 3 t ++ e :: drop 4 t ∧ event_changes e = true
  ∧ ∃ effect, effect ∈ [create_effect; check_effect] ∧ granted effect ∈ take 3 t.
Proof.
  intros plan t e. assert (Ht : t = take 3 t ++ e :: drop 4 t) by (vm_compute; reflexivity).
  split; [exact Ht|]. split; [reflexivity|].
  exact (consent_before_change (demo_world "") demo_runtime plan (take 3 t) e (drop 4 t) Ht eq_refl).
Defined.

(** Two blocks of one marker make [managed_block] raise [ValueError], which the
    transaction does not expect: the run ends with that exception, the directory
    it created stays, and no record says so. *)
Definition two_blocks : string := block_text "jira" "export A=0" +:+ LF +:+ block_text "jira" "export A=0" +:+ LF.
Example two_blocks_escape :
  let run := apply_setup_plan (demo_world two_blocks) demo_runtime (demo_plan [create_effect; edit_effect])
               demo_start in
  run.1 = Raise (ValueError "multiple managed blocks for jira") ∧ demo_changes run.2 = ["create /opt/jira"].
Proof. by vm_compute. Qed.
