(* ===== verification/SetupCompensation.v ===== *)
(** Compensating a managed block on a file: the effect of [_managed_block_apply]
    followed by [_rollback_receipt] of its receipt gives the file back its bytes
    and its mode, up to the separator line of a block that was appended, or
    removes it where the run had created it. *)
From S2P Require Import Prelude PyText TextSearch Posix Domain Effects Redaction Profiles Json PyJson SetupModel SetupRecipe SetupPlan SetupBlock SetupRuntime SetupRecipeSpec SetupPlanSpec SetupTransaction.
From Stdlib Require Import Ascii.
Open Scope Z_scope.

(** * A file, as the operations made on it leave it *)

(** The file's bytes and mode, or nothing. *)
Abbreviation file := (option (string * Z)).
Definition step_file (path : string) (f : file) (e : event) : file :=
  match e with
  | existT _ (OpWrite p content, Ret _) =>
      if String.eqb p path then Some (content, match f with Some (_, mode) => mode | None => 384 end) else f
  | existT _ (OpChmod p mode, Ret _) =>
      if String.eqb p path then match f with Some (content, _) => Some (content, mode) | None => None end else f
  | existT _ (OpUnlink p, Ret _) => if String.eqb p path then None else f
  | _ => f
  end.
Definition file_after (path : string) (initial : file) (t : trace) : file := foldl (step_file path) initial t.

(** The machine answers for the file what the operations made so far left of
    it, and lets it be written. *)
Record file_world (world : ∀ R, trace → op R → py R) (path : string) (initial : file) : Prop := {
  fw_link t : world _ t (OpIsLink path) = Ret false;
  fw_exists t : world _ t (OpExists path) = Ret (bool_decide (is_Some (file_after path initial t)));
  fw_file t : is_Some (file_after path initial t) → world _ t (OpIsFile path) = Ret true;
  fw_mode t f : file_after path initial t = Some f → world _ t (OpMode path) = Ret f.2;
  fw_text t f : file_after path initial t = Some f → world _ t (OpReadText path) = Ret f.1;
  fw_write t content : world _ t (OpWrite path content) = Ret tt;
  fw_chmod t mode : world _ t (OpChmod path mode) = Ret tt;
  fw_unlink t : world _ t (OpUnlink path) = Ret tt
}.

Section file.
Context `{UnicodeData} `{PyNumbers} `{WorkingDirectory}.
Context (world : ∀ R, trace → op R → py R) (rt : SetupRuntime) (path : string) (initial : file).
Hypothesis (Hw : file_world world path initial).
Abbreviation now m := (file_after path initial (mc_trace m)).


(** A computation that returns, with what holds of its answer and of the machine it leaves. *)
Definition answers {A} (c : st machine A) (m : machine) (Q : A → machine → Prop) : Prop :=
  match c m with (Ret a, m') => Q a m' | (Raise _, _) => False end.
Lemma answers_bind {A B} (c : st machine A) (f : A → st machine B) m Q :
  answers c m (λ a m', answers (f a) m' Q) → answers (c ≫= f) m Q.
Proof using. unfold answers, mbind, st_bind. by destruct (c m) as [[a|e] m']. Qed.
Lemma answers_ret {A} (a : A) m (Q : A → machine → Prop) : Q a m → answers (mret a) m Q.
Proof using. done. Qed.
Lemma answers_pure {A} (c : py A) a m (Q : A → machine → Prop) : c = Ret a → Q a m → answers (pure c) m Q.
Proof using. by intros -> ?. Qed.
Lemma answers_catch {A} (c : st machine A) h m Q : answers c m Q → answers (catch c h) m Q.
Proof using. unfold answers, catch. by destruct (c m) as [[a|e] m']. Qed.
Lemma answers_mono {A} (c : st machine A) m (P Q : A → machine → Prop) :
  answers c m P → (∀ a m', P a m' → Q a m') → answers c m Q.
Proof using. unfold answers. destruct (c m) as [[a|e] m']; auto. Qed.
Lemma answers_perform {R} (o : op R) m answer f (Q : R → machine → Prop) :
  world _ (mc_trace m) o = Ret answer → step_file path (now m) (event_of o (Ret answer)) = f →
  (∀ m', now m' = f → Q answer m') → answers (perform world o) m Q.
Proof using.
  intros Ha Hf HQ. unfold answers, perform. rewrite Ha. apply HQ. unfold file_after. cbn [mc_trace].
  by rewrite foldl_app.
Qed.

Lemma read_present m content mode : now m = Some (content, mode) →
  answers (read_regular_text world path) m (λ a m', a = (content, true, Some mode) ∧ now m' = now m).
Proof using Hw.
  intros Hf. unfold read_regular_text.
  apply answers_bind. eapply answers_perform; [apply (fw_link _ _ _ Hw)|reflexivity|]. intros m1 N1. cbn.
  apply answers_bind. eapply answers_perform; [apply (fw_exists _ _ _ Hw)|reflexivity|]. intros m2 N2.
  rewrite N1, Hf. cbn.
  apply answers_bind. eapply answers_perform; [apply (fw_file _ _ _ Hw)|reflexivity|].
  { by rewrite N2, N1, Hf. }
  intros m3 N3. cbn.
  apply answers_bind. eapply answers_perform; [eapply (fw_mode _ _ _ Hw)|reflexivity|].
  { by rewrite N3, N2, N1, Hf. }
  intros m4 N4. cbn.
  apply answers_bind. eapply answers_perform; [eapply (fw_text _ _ _ Hw)|reflexivity|].
  { by rewrite N4, N3, N2, N1, Hf. }
  intros m5 N5. apply answers_ret. split; [done|]. cbn in *. congruence.
Qed.
Lemma read_absent m : now m = None →
  answers (read_regular_text world path) m (λ a m', a = ("", false, None) ∧ now m' = now m).
Proof using Hw.
  intros Hf. unfold read_regular_text.
  apply answers_bind. eapply answers_perform; [apply (fw_link _ _ _ Hw)|reflexivity|]. intros m1 N1. cbn.
  apply answers_bind. eapply answers_perform; [apply (fw_exists _ _ _ Hw)|reflexivity|]. intros m2 N2.
  rewrite N1, Hf. cbn. split; [done|]. cbn in *. congruence.
Qed.
Lemma write_file m content mode :
  answers (write_preserving_mode world path content mode) m
    (λ _ m', now m' = Some (content, default 384 mode)).
Proof using Hw.
  unfold write_preserving_mode.
  apply answers_bind. eapply answers_perform; [apply (fw_write _ _ _ Hw)|reflexivity|]. intros m1 N1.
  eapply answers_perform; [apply (fw_chmod _ _ _ Hw)|reflexivity|]. intros m2 ->.
  rewrite N1. cbn. by rewrite !String.eqb_refl.
Qed.

(** * The effect and its compensation *)

Context (marker content : string) (effect : SetupEffect).
Hypothesis (Hmodule : mem (ef_module effect) BLOCK_MODULES = true).
Hypothesis (Htarget : ef_target effect = path).
Hypothesis (Hmark : dget "marker" (ef_config effect) = Some (VStr marker)).
Hypothesis (Hcontent : dget "content" (ef_config effect) = Some (VStr content)).

Definition block_receipt (existed : bool) (mode : option Z) (prior : option string) : receipt :=
  [("module", VStr (ef_module effect)); ("path", VStr path); ("marker", VStr marker); ("changed", VBool true);
   ("file_existed", VBool existed); ("mode", match mode with Some m => VInt m | None => VNone end);
   ("prior_block", opt_str prior); ("installed_block", VStr (block_text marker content))].
Lemma apply_block m existing existed mode updated prior :
  answers (read_regular_text world path) m (λ a m', a = (existing, existed, mode) ∧ now m' = now m) →
  managed_block existing marker content = Ret (updated, true, prior) →
  answers (managed_block_apply world effect) m
    (λ a m', a = Applied (block_receipt existed mode prior) true ∧ now m' = Some (updated, default 384 mode)).
Proof using Hw Htarget Hmark Hcontent.
  intros Hr Hb. unfold managed_block_apply. rewrite Htarget.
  apply answers_bind. eapply answers_mono; [exact Hr|]. intros a m1 [-> N1].
  apply answers_bind. eapply answers_pure; [unfold text_field, field; by rewrite Hmark|].
  apply answers_bind. eapply answers_pure; [unfold text_field, field; by rewrite Hcontent|].
  apply answers_bind. eapply answers_pure; [exact Hb|]. cbn.
  apply answers_bind. eapply answers_mono; [apply write_file|]. intros [] m2 N2.
  by apply answers_ret.
Qed.

Lemma rollback_block_receipt existed mode prior m :
  rollback_receipt world rt (step_receipt effect (block_receipt existed mode prior)) m
  = rollback_block world (step_receipt effect (block_receipt existed mode prior)) m.
Proof using Hmodule.
  assert (Hm : ef_module effect ∈ BLOCK_MODULES) by by apply mem_true.
  unfold rollback_receipt. change (compensated _) with false. change (truthy _) with true.
  change (module_of _) with (ef_module effect). cbv beta iota zeta.
  by repeat (apply elem_of_cons in Hm as [->|Hm]); [..|by apply not_elem_of_nil in Hm].
Qed.
Lemma restore_present (r : receipt) text mode m :
  get r "mode" = VInt mode → is_Some (now m) →
  answers (restore_file world r path text) m (λ _ m', now m' = Some (text, mode)).
Proof using Hw.
  intros Hmode Hf. unfold restore_file. rewrite Hmode.
  apply answers_bind. eapply answers_perform; [apply (fw_write _ _ _ Hw)|reflexivity|]. intros m1 N1.
  cbn [numeral]. eapply answers_perform; [apply (fw_chmod _ _ _ Hw)|reflexivity|]. intros m2 ->.
  rewrite N1. cbn. by rewrite !String.eqb_refl.
Qed.
Lemma rollback_present mode prior text updated m :
  now m = Some (updated, mode) →
  rollback_managed_block updated marker (block_text marker content) prior = Ret (Some text) →
  answers (rollback_block world (step_receipt effect (block_receipt true (Some mode) prior))) m
    (λ a m', a = true ∧ now m' = Some (text, mode)).
Proof using Hw.
  intros Hf Hb. unfold rollback_block.
  apply answers_bind. eapply answers_pure; [reflexivity|]. cbn [py_str].
  apply answers_catch. apply answers_bind. eapply answers_mono; [by apply read_present|].
  intros a m1 [-> N1]. do 2 (apply answers_bind; eapply answers_pure; [reflexivity|]).
  apply answers_bind. eapply answers_pure.
  { rewrite <- Hb. by destruct prior. }
  unfold rewrite_or_remove. change (is_false _ _) with false. rewrite andb_false_r.
  apply answers_bind. eapply answers_mono.
  { apply (restore_present _ text mode); [reflexivity|]. by rewrite N1, Hf. }
  intros [] m2 N2. by apply answers_ret.
Qed.
Lemma rollback_created mode updated m :
  now m = Some (updated, mode) →
  rollback_managed_block updated marker (block_text marker content) None = Ret (Some "") →
  answers (rollback_block world (step_receipt effect (block_receipt false None None))) m
    (λ a m', a = true ∧ now m' = None).
Proof using Hw.
  intros Hf Hb. unfold rollback_block.
  apply answers_bind. eapply answers_pure; [reflexivity|]. cbn [py_str].
  apply answers_catch. apply answers_bind. eapply answers_mono; [by apply read_present|].
  intros a m1 [-> N1]. do 2 (apply answers_bind; eapply answers_pure; [reflexivity|]).
  apply answers_bind. eapply answers_pure; [exact Hb|].
  unfold rewrite_or_remove. change (str_empty "" && _) with true. cbn [negb].
  apply answers_bind. eapply answers_perform; [apply (fw_unlink _ _ _ Hw)|reflexivity|].
  intros m2 N2. apply answers_ret. split; [done|]. rewrite N2. cbn. by rewrite String.eqb_refl.
Qed.

(** The effect, then the compensation of its receipt: the file they leave. *)
Definition apply_and_undo : st machine bool :=
  outcome ← managed_block_apply world effect;
  match outcome with
  | Applied r true => rollback_receipt world rt (step_receipt effect r)
  | _ => mret false
  end.
Lemma undo_answers m existing existed mode updated prior restored :
  answers (read_regular_text world path) m (λ a m', a = (existing, existed, mode) ∧ now m' = now m) →
  managed_block existing marker content = Ret (updated, true, prior) →
  (∀ m', now m' = Some (updated, default 384 mode) →
    answers (rollback_block world (step_receipt effect (block_receipt existed mode prior))) m'
      (λ a m'', a = true ∧ now m'' = restored)) →
  answers apply_and_undo m (λ a m', a = true ∧ now m' = restored).
Proof using Hw Hmodule Htarget Hmark Hcontent.
  intros Hr Hb Hu. unfold apply_and_undo. apply answers_bind.
  eapply answers_mono; [by eapply apply_block|]. intros a m1 [-> N1].
  unfold answers. rewrite rollback_block_receipt. by apply Hu.
Qed.
End file.

(** What a managed file is before the effect and after its compensation.  A
    file with a block of the marker, or no file, comes back as it was; a file
    without one keeps the blank line written before the new block. *)
Inductive undone `{UnicodeData} (marker content : string) : file → file → Prop :=
  | undone_created : body_ok marker content → undone marker content None None
  | undone_appended text mode :
      clear marker text → body_ok marker content →
      undone marker content (Some (text, mode)) (Some (text +:+ separator text, mode))
  | undone_replaced before old after_ mode :
      let text := before +:+ block_text marker old +:+ LF +:+ after_ in
      seam before → clear marker before → clear marker after_ →
      body_ok marker old → body_ok marker content →
      has_char "\" (block_text marker old) = false → has_char "\" (block_text marker content) = false →
      block_text marker old ≠ block_text marker content →
      undone marker content (Some (text, mode)) (Some (text, mode)).


(** * A machine with one file *)

Definition disk_world (path : string) (initial : file) : ∀ R, trace → op R → py R := λ R t o,
  let now := file_after path initial t in
  match o in op R return py R with
  | OpIsLink _ => Ret false
  | OpExists _ => Ret (bool_decide (is_Some now))
  | OpIsFile _ => Ret true
  | OpMode _ => match now with Some f => Ret f.2 | None => Raise (OSError "no such file") end
  | OpReadText _ => match now with Some f => Ret f.1 | None => Raise (OSError "no such file") end
  | OpWrite _ _ | OpChmod _ _ | OpUnlink _ => Ret tt
  | _ => Raise (OSError "not available")
  end.
Lemma disk_world_file path initial : file_world (disk_world path initial) path initial.
Proof. split; intros; cbn; try done; by rewrite H. Qed.

#[local] Existing Instance ascii_unicode.
#[local] Existing Instance plain_numbers.
#[local] Existing Instance root_directory.
Definition sample_runtime : SetupRuntime := MkRuntime "darwin" [("PATH", "/usr/bin")] false.
Definition sample_file : string := "/home/me/.zshrc".
Definition block_effect (marker content : string) : SetupEffect :=
  MkEffect "rc" "file.managed-block@1" (Some "filesystem") "edit the shell file" sample_file [] true
    [("marker", VStr marker); ("content", VStr content)].
