(* ===== verification/SetupUndo.v ===== *)
(** [setup_undo.py]: the review of an undo, and how far it predicts what
    [_rollback_receipt] does with a receipt as the run writes it. *)
From S2P Require Import Prelude PyText Domain Effects Profiles Json JsonParse Protocol PyJson SetupModel SetupPlan SetupBlock SetupRuntime SetupRecipeSpec SetupPlanSpec SetupTransaction SetupCompensation.
Open Scope Z_scope.

Definition REVERSES : string := "reverses".
Definition KEEPS : string := "keeps".
Record UndoStep := MkUndoStep {
  us_index : Z; us_module : string; us_subject : string; us_disposition : string; us_reason : string
}.

Section undo.
Context `{UnicodeData} `{DecodeErrors} `{PyNumbers}.

(** [str(receipt.get(key, default))] *)
Definition text_or (r : receipt) (key fallback : string) : string :=
  match dget key r with Some v => py_str v | None => fallback end.
Definition subject (r : receipt) : string :=
  match List.find (λ key, truthy (get r key)) ["tag"; "image"; "path"; "output"; "script"] with
  | Some key => py_str (get r key)
  | None =>
      let service := get r "service" in
      let account := get r "account" in
      if truthy service && truthy account
      then "Keychain item service=" +:+ repr (py_str service) +:+ " account=" +:+ repr (py_str account)
      else text_or r "step_id" "unnamed step"
  end.

(** [_disposition] *)
Definition disposition (r : receipt) : string * string :=
  let m := text_or r "module" "" in
  let is_ name := String.eqb m name in
  if compensated r then (KEEPS, "the failed setup already compensated this step")
  else if is_ "macos-keychain.store@1" then
    if is_true r "replaced" then
      (KEEPS, "this step overwrote a value the run did not create, so the undo will not "
              +:+ "delete it; the receipt's recovery line has the manual restore")
    else if is_true r "created" then (REVERSES, "deletes the Keychain item this run created")
    else (KEEPS, "this step stored nothing, so there is nothing to delete")
  else if mem m BLOCK_MODULES then
    if is_true r "changed" then
      if is_false r "file_existed"
      then (REVERSES, "removes the file this run created for the managed block")
      else (REVERSES, "restores the file to the block it held before this run")
    else (KEEPS, "the file already held this block, so this run changed nothing")
  else if is_ "directory.create@1" then
    if is_true r "created" then (REVERSES, "removes the directory this run created, if it is empty")
    else (KEEPS, "the directory existed before this run")
  else if is_ "json.managed-merge@1" then
    if is_true r "replaced" then (KEEPS, "this step overwrote a value the run did not create")
    else if is_true r "changed" then (REVERSES, "removes the key this run merged in")
    else (KEEPS, "the file already held this value")
  else if is_ "custom.install@1" then
    if is_true r "reversible" then (REVERSES, "runs the recipe's own rollback phase")
    else (KEEPS, "this recipe declares no rollback, so the undo will report incomplete")
  else if is_ "docker.pull@1" then
    if is_true r "preexisting"
    then (KEEPS, "the image was on this machine before the run and is left alone")
    else (KEEPS, "images may be shared, so this one is never removed automatically — and because "
                 +:+ "it stays, the undo will report `rollback_incomplete` and keep the receipt")
  else if is_ "docker.build@1" then
    if is_true r "preexisting" then
      (KEEPS, "the tag named an image before this run, so it is not removed — but it now "
              +:+ "points at what this run built, and the receipt never recorded the earlier "
              +:+ "image id, so the undo cannot restore the original binding (LAF-58)")
    else (REVERSES, "removes the image tag this run created")
  else if mem m HARMLESS_MODULES then (KEEPS, "this step changed nothing that outlives the run")
  else if negb (truthy (get r "changed")) then (KEEPS, "this step changed nothing")
  else (KEEPS, "no compensation exists for this module, so the undo will report incomplete").

(** [plan_undo]: a step per receipt, from the last one to the first. *)
Definition undo_step (index : Z) (r : receipt) : UndoStep :=
  let '(disposition, reason) := disposition r in
  MkUndoStep index (text_or r "module" "") (subject r) disposition reason.
Definition plan_undo (record : SetupStateRecord) : list UndoStep :=
  let total := Z.of_nat (length (sr_receipt record)) in
  imap (λ offset r, undo_step (total - Z.of_nat offset) r) (rev (sr_receipt record)).

(** [undo_payload] and [undo_digest] *)
Definition count_steps (disposition : string) (steps : list UndoStep) : Z :=
  Z.of_nat (length (List.filter (λ s, String.eqb (us_disposition s) disposition) steps)).
Definition undo_payload (steps : list UndoStep) (coordinate profile scope : string) : pyval :=
  VDict [("coordinate", VStr coordinate); ("profile", VStr profile); ("scope", VStr scope);
         ("steps", VList (map (λ s, VDict [("step", VInt (us_index s)); ("module", VStr (us_module s));
                                           ("subject", VStr (us_subject s));
                                           ("disposition", VStr (us_disposition s));
                                           ("reason", VStr (us_reason s))]) steps));
         ("reverses", VInt (count_steps REVERSES steps)); ("keeps", VInt (count_steps KEEPS steps))].
Definition undo_digest (payload : pyval) : py string :=
  parsed ← parse_json_text (py_dumps_default payload) None MAX_DEPTH MAX_STRING;
  match parsed with
  | Ok value => Ret (digest_str (json_digest value))
  | Err _ => Raise (ValueError "undo payload is not representable as canonical JSON")
  end.
End undo.

(** * Answers that need a change *)

(** The machine after some operations, and after some that changed it. *)
Definition since (s0 s : machine) : Prop := ∃ t, mc_trace s = mc_trace s0 ++ t.
Definition moved (s0 s : machine) : Prop :=
  ∃ t, mc_trace s = mc_trace s0 ++ t ∧ Exists (λ e, event_changes e = true) t.
(** From any later machine, the computation answers [true] only after a change. *)
Definition moves (s0 : machine) (c : st machine bool) : Prop :=
  ∀ s s', since s0 s → c s = (Ret true, s') → moved s0 s'.

Create HintDb moves.
Section moves.
Context `{UnicodeData} `{PyNumbers} `{WorkingDirectory}.
Context (world : ∀ R, trace → op R → py R) (rt : SetupRuntime) (s0 : machine).

Lemma since_keeps R (o : op R) : keeps (since s0) (perform world o).
Proof using. intros s [t Ht]. eexists. cbn. by rewrite Ht, <- (assoc_L app). Qed.
Lemma moved_keeps R (o : op R) : keeps (moved s0) (perform world o).
Proof using.
  intros s (t & Ht & He). eexists. cbn. rewrite Ht, <- (assoc_L app). split; [done|].
  apply Exists_app. by left.
Qed.
Lemma since_moved s : moved s0 s → since s0 s.
Proof using. intros (t & Ht & _). by exists t. Qed.

Lemma moves_false : moves s0 (mret false).
Proof using. by intros s s' _ [=]. Qed.
Lemma moves_raise e : moves s0 (raise e).
Proof using. by intros s s' _ [=]. Qed.
Lemma moves_bind {A} (c : st machine A) (f : A → st machine bool) :
  keeps (since s0) c → (∀ a, moves s0 (f a)) → moves s0 (c ≫= f).
Proof using.
  intros Hc Hf s s' Hs Hrun. apply bind_run_inv in Hrun as (a & s1 & Hr & Hrun).
  eapply Hf; [|exact Hrun]. specialize (Hc s Hs). by rewrite Hr in Hc.
Qed.
(** A computation that changes the machine, whatever it answers. *)
Definition acts {A} (c : st machine A) : Prop := ∀ s, since s0 s → moved s0 (c s).2.
Lemma acts_perform {R} (o : op R) : changes o = true → acts (perform world o).
Proof using.
  intros Ho s [t Ht]. eexists. cbn. rewrite Ht, <- (assoc_L app). split; [done|].
  apply Exists_app. right. by constructor.
Qed.
Lemma acts_bind {A B} (c : st machine A) (f : A → st machine B) :
  acts c → (∀ a, keeps (moved s0) (f a)) → acts (c ≫= f).
Proof using.
  intros Hc Hf s Hs. unfold mbind, st_bind. specialize (Hc s Hs).
  destruct (c s) as [[a|e] s1]; [by apply Hf|done].
Qed.
Lemma acts_moves (c : st machine bool) : acts c → moves s0 c.
Proof using. intros Hc s s' Hs Hrun. specialize (Hc s Hs). by rewrite Hrun in Hc. Qed.
Lemma moves_catch (c : st machine bool) h :
  moves s0 c → keeps (since s0) c → (∀ e, moves s0 (h e)) → moves s0 (catch c h).
Proof using.
  intros Hc Hk Hh s s' Hs Hrun. unfold catch in Hrun. specialize (Hk s Hs).
  destruct (c s) as [[a|e] s1] eqn:E.
  - injection Hrun as -> <-. by apply (Hc s s1).
  - by apply (Hh e s1 s').
Qed.
#[local] Hint Resolve since_keeps moved_keeps moves_false moves_raise : moves keeps.
#[local] Hint Resolve process_keeps read_keeps text_keeps rewrite_keeps phase_keeps : keeps.


Lemma rewrite_moves r nothing path text : moves s0 (rewrite_or_remove world r nothing path text).
Proof using.
  apply acts_moves. unfold rewrite_or_remove, restore_file. destruct (_ && _).
  - apply acts_bind; [by apply acts_perform|]. intros _. keeps.
  - apply acts_bind; [|intros _; keeps]. apply acts_bind; [by apply acts_perform|]. intros _. keeps.
Qed.
Ltac moves :=
  repeat first
    [ solve [auto with moves nocore]
    | apply acts_moves, acts_bind; [apply acts_perform; reflexivity|intros ?; solve [keeps]]
    | apply moves_bind; [solve [keeps]|intros ?]
    | apply moves_catch; [|solve [keeps]|intros ?]
    | match goal with
      | |- moves _ (if ?b then _ else _) => destruct b
      | |- moves _ (let '(_, _) := ?p in _) => destruct p
      | |- moves _ (match ?x with _ => _ end) => destruct x
      end ].
#[local] Hint Resolve rewrite_moves : moves.
Lemma block_moves r : moves s0 (rollback_block world r).
Proof using. unfold rollback_block. moves. Qed.
Lemma json_moves r : moves s0 (rollback_json world r).
Proof using. unfold rollback_json. moves. Qed.
Lemma directory_moves r : moves s0 (rollback_directory world r).
Proof using.
  unfold rollback_directory. moves.
Qed.
Lemma keychain_moves r : moves s0 (rollback_keychain world rt r).
Proof using.
  unfold rollback_keychain. moves.
Qed.
Lemma build_moves r : is_true r "preexisting" = false → moves s0 (rollback_build world rt r).
Proof using.
  intros Hp. unfold rollback_build. rewrite Hp. moves.
Qed.
Lemma custom_moves r : moves s0 (rollback_custom world rt r).
Proof using.
  unfold rollback_custom, guarded. moves.
Qed.
End moves.

(** * Compensations that ask *)

(** The machine after at least one operation. *)
Definition asked (s0 s : machine) : Prop := ∃ e t, mc_trace s = mc_trace s0 ++ e :: t.
(** The fields that the compensation of a module reads first. *)
Definition required (m : string) : list string :=
  if mem m BLOCK_MODULES then ["path"]
  else default [] (dget m
    [("macos-keychain.store@1", ["account"; "service"]); ("directory.create@1", ["path"]);
     ("json.managed-merge@1", ["path"]); ("custom.install@1", ["script"; "run_dir"; "plan_hash"]);
     ("docker.build@1", ["tag"])]).
Definition has_fields (r : receipt) (keys : list string) : Prop :=
  Forall (λ key, is_Some (dget key r)) keys.

Section asks.
Context `{UnicodeData} `{PyNumbers} `{WorkingDirectory}.
Context (world : ∀ R, trace → op R → py R) (rt : SetupRuntime) (s0 : machine).

Lemma asked_keeps R (o : op R) : keeps (asked s0) (perform world o).
Proof using. intros s (e & t & Ht). do 2 eexists. cbn. by rewrite Ht, <-(assoc_L app), <-app_comm_cons. Qed.
Lemma asked_perform {R} (o : op R) : asked s0 (perform world o s0).2.
Proof using. by do 2 eexists. Qed.
Lemma asked_bind {A B} (c : st machine A) (f : A → st machine B) :
  asked s0 (c s0).2 → (∀ a, keeps (asked s0) (f a)) → asked s0 ((c ≫= f) s0).2.
Proof using. intros Hc Hf. unfold mbind, st_bind. destruct (c s0) as [[a|e] s1]; [by apply Hf|done]. Qed.
Lemma asked_pure {A B} (m : py A) a (f : A → st machine B) :
  m = Ret a → asked s0 (f a s0).2 → asked s0 ((pure m ≫= f) s0).2.
Proof using. by intros ->. Qed.
Lemma asked_text {B} r key (f : string → st machine B) :
  is_Some (dget key r) → (∀ t, asked s0 (f t s0).2) → asked s0 ((receipt_text r key ≫= f) s0).2.
Proof using.
  intros [v Hv] Hf. unfold receipt_text, field. rewrite Hv. apply Hf.
Qed.
Lemma asked_catch {A} (c : st machine A) h :
  asked s0 (c s0).2 → (∀ e, keeps (asked s0) (h e)) → asked s0 (catch c h s0).2.
Proof using. intros Hc Hh. unfold catch. destruct (c s0) as [[a|e] s1]; [done|by apply Hh]. Qed.
#[local] Hint Resolve asked_keeps : keeps.
#[local] Hint Resolve process_keeps read_keeps text_keeps rewrite_keeps phase_keeps : keeps.

Ltac asks :=
  repeat first
    [ apply asked_text; [done|intros ?]
    | apply asked_catch; [|intros ?; solve [keeps]]
    | apply asked_bind; [solve [apply asked_perform]|intros ?; solve [keeps]] ].
Lemma read_asks path : asked s0 (read_regular_text world path s0).2.
Proof using. unfold read_regular_text. asks. Qed.
Lemma block_asks r : has_fields r ["path"] → asked s0 (rollback_block world r s0).2.
Proof using.
  intros [Hp _]%Forall_cons. unfold rollback_block. asks. apply asked_bind; [apply read_asks|intros ?; keeps].
Qed.
Lemma json_asks r : is_true r "replaced" = false → has_fields r ["path"] → asked s0 (rollback_json world r s0).2.
Proof using.
  intros Hr [Hp _]%Forall_cons. unfold rollback_json. rewrite Hr. asks.
  apply asked_bind; [apply read_asks|intros ?; keeps].
Qed.
Lemma directory_asks r : has_fields r ["path"] → asked s0 (rollback_directory world r s0).2.
Proof using. intros [Hp _]%Forall_cons. unfold rollback_directory. asks. Qed.
Lemma keychain_asks r : has_fields r ["account"; "service"] → asked s0 (rollback_keychain world rt r s0).2.
Proof using. intros [Ha [Hs _]%Forall_cons]%Forall_cons. unfold rollback_keychain, process. asks. Qed.
Lemma build_asks r : is_true r "preexisting" = false → has_fields r ["tag"] → asked s0 (rollback_build world rt r s0).2.
Proof using. intros Hr [Ht _]%Forall_cons. unfold rollback_build, process. rewrite Hr. asks. Qed.
Lemma custom_asks r : has_fields r ["script"; "run_dir"; "plan_hash"] → asked s0 (rollback_custom world rt r s0).2.
Proof using.
  intros [Hs [Hd [[v Hh] _]%Forall_cons]%Forall_cons]%Forall_cons. unfold rollback_custom, guarded. asks.
  eapply asked_pure; [unfold field; by rewrite Hh|]. asks.
Qed.
End asks.

(** * The prediction *)

Section prediction.
Context `{UnicodeData} `{PyNumbers} `{WorkingDirectory}.

(** A receipt as the runtime writes them: a named module, [changed] a boolean,
    and the fields that its compensation reads. *)
Record written_receipt (r : receipt) : Prop := {
  wr_module : ∃ m, get r "module" = VStr m;
  wr_changed : get r "changed" = VNone ∨ ∃ b, get r "changed" = VBool b;
  wr_fields : has_fields r (required (module_of r))
}.
(** What an undo does to the receipt, on any machine: a kept step asks nothing
    of the machine, and its answer is fixed; a reversed one asks for something,
    and reports success only after an operation that changed the machine. *)
Definition predicts (disposition : string) (r : receipt) : Prop :=
  if String.eqb disposition KEEPS
  then ∃ ok, ∀ world rt m, try_rollback world rt r m = (Ret ok, m)
  else ∀ world rt m, asked m (try_rollback world rt r m).2
         ∧ ∀ m', try_rollback world rt r m = (Ret true, m') → moved m m'.

Lemma module_text r : written_receipt r → text_or r "module" "" = module_of r.
Proof.
  intros [[m Hm] _ _]. unfold text_or, module_of, get in *. rewrite Hm.
  destruct (dget "module" r); cbn in *; by subst.
Qed.
Lemma truthy_changed r : written_receipt r → truthy (get r "changed") = is_true r "changed".
Proof. intros [_ [Hc|[b Hc]] _]; unfold is_true; by rewrite Hc. Qed.
Lemma predicts_keeps r (reason : string) ok :
  (∀ world rt, rollback_receipt world rt r = mret ok) → predicts (KEEPS, reason).1 r.
Proof. intros Hr. exists ok. intros world rt m. unfold try_rollback. by rewrite Hr. Qed.
Lemma predicts_reverses r (reason : string) :
  (∀ world rt s0, moves s0 (rollback_receipt world rt r)) →
  (∀ world rt s0, asked s0 (rollback_receipt world rt r s0).2) → predicts (REVERSES, reason).1 r.
Proof.
  intros Hr Ha world rt m. split.
  - apply asked_catch; [apply Ha|]. intros e. destruct (is_expected e); [apply keeps_ret|apply keeps_raise].
  - intros m' Hrun. unfold try_rollback, guarded, catch in Hrun.
    destruct (rollback_receipt world rt r m) as [[ok|e] m1] eqn:E.
    + injection Hrun as -> <-. apply (Hr world rt m m m1); [exists []; by rewrite app_nil_r|done].
    + destruct (is_expected e); discriminate.
Qed.
#[local] Hint Resolve block_moves json_moves directory_moves keychain_moves build_moves custom_moves : moves.

(** One decision of either side: a known module, a flag, or the prediction itself. *)
Ltac predict :=
  match goal with
  | |- context [mem (String ?c ?m) ?l] =>
      let b := eval vm_compute in (mem (String c m) l) in change (mem (String c m) l) with b; cbn [andb orb]
  | |- _ → predicts (REVERSES, _).1 _ =>
      intros Hroll; apply predicts_reverses; intros; rewrite Hroll;
        solve [auto with moves nocore|auto using block_asks, json_asks, directory_asks, keychain_asks, build_asks, custom_asks]
  | |- context [if is_true ?r ?key then _ else _] => destruct (is_true r key) eqn:?
  | |- context [if is_false ?r ?key then _ else _] => destruct (is_false r key)
  | |- context [is_true ?r ?key && _] => destruct (is_true r key) eqn:?
  | |- context [negb (is_true ?r ?key)] => destruct (is_true r key) eqn:?; cbn [negb]
  | |- _ → predicts (KEEPS, _).1 _ =>
      intros Hroll; eapply predicts_keeps; intros; rewrite Hroll; unfold rollback_json, rollback_build;
      repeat match goal with E : is_true _ _ = _ |- _ => rewrite E end; reflexivity
  end.
Lemma disposition_predicts r : written_receipt r → predicts (disposition r).1 r.
Proof.
  intros Hr. unfold disposition. rewrite (module_text r Hr), (truthy_changed r Hr).
  assert (Hroll : ∀ world rt, rollback_receipt world rt r = rollback_receipt world rt r) by done.
  pose proof (wr_fields r Hr) as Hf.
  revert Hf Hroll. unfold rollback_receipt at 2. rewrite (truthy_changed r Hr). unfold required.
  generalize (module_of r). intros m Hf.
  destruct (compensated r); [predict|].
  repeat match goal with
  | |- context [String.eqb m ?name] =>
      destruct (String.eqb_spec m name) as [->|_];
        [match type of Hf with has_fields _ ?l =>
           let l' := eval vm_compute in l in change (has_fields r l') in Hf end;
         cbn -[is_true is_false mem]; solve [repeat predict]|]
  end.
  destruct (mem m BLOCK_MODULES); cbn [andb]; [repeat predict|clear Hf].
  destruct (mem m HARMLESS_MODULES); cbn [orb]; repeat predict.
Qed.

Lemma imap_countdown {A B} (f : Z → A → B) (l : list A) :
  imap (λ i x, f (Z.of_nat (length l) - Z.of_nat i) x) l
  = zip_with f (rev (Z.of_nat <$> seq 1 (length l))) l.
Proof.
  induction l as [|x l IH]; [done|]. rewrite imap_cons. cbn [length].
  rewrite seq_S, fmap_app, rev_app_distr. cbn.
  replace (Z.of_nat (S (length l)) - 0) with (Z.of_nat (S (length l))) by lia. f_equal.
  rewrite <- IH. apply imap_ext. intros i y _. cbn. f_equal. lia.
Qed.
Lemma undo_steps indices receipts :
  length indices = length receipts → Forall written_receipt receipts →
  us_index <$> zip_with undo_step indices receipts = indices
  ∧ Forall2 (λ step r, us_module step = module_of r ∧ predicts (us_disposition step) r)
      (zip_with undo_step indices receipts) receipts.
Proof.
  revert receipts. induction indices as [|i indices IH]; intros [|r receipts] Hl Hall; try done.
  inversion Hall as [|?? Hr Hall']; subst. injection Hl as Hl.
  destruct (IH receipts Hl Hall') as [Hi Hs]. pose proof (disposition_predicts r Hr) as Hp.
  cbn [zip_with fmap list_fmap]. unfold undo_step at 1 3. destruct (disposition r) as [d reason].
  cbn [us_index]. split; [by rewrite Hi|]. constructor; [|done].
  split; [by apply module_text|done].
Qed.

(** C19: the review of an undo tells apart what the undo will touch.  [plan_undo]
    lists the steps numbered from the last receipt to the first, the order in
    which they are compensated.  A step that it says the undo keeps is answered
    without asking anything of the machine, always in the same way.  A step
    that it says the undo reverses is never answered so: its compensation asks
    the machine for something, and reports success only after an operation that
    changed it.  It may still be refused by the machine, or by what it finds
    there ([frozen_merge_kept] below). *)
Theorem undo_predicted record :
  Forall written_receipt (sr_receipt record) →
  us_index <$> plan_undo record = rev (Z.of_nat <$> seq 1 (length (sr_receipt record)))
  ∧ Forall2 (λ step r, us_module step = module_of r ∧ predicts (us_disposition step) r)
      (plan_undo record) (rev (sr_receipt record)).
Proof.
  intros Hall. unfold plan_undo. rewrite <- length_rev, imap_countdown.
  apply undo_steps; [by rewrite length_rev, length_fmap, length_seq|by apply Forall_rev].
Qed.
End prediction.

#[local] Existing Instance ascii_unicode.
#[local] Existing Instance plain_numbers.
#[local] Existing Instance root_directory.

(** * A record *)

Definition created_receipt : receipt :=
  [("step_id", VStr "home"); ("module", VStr "directory.create@1"); ("path", VStr "/opt/jira");
   ("created", VBool true)].
Definition pulled_receipt : receipt :=
  [("step_id", VStr "image"); ("module", VStr "docker.pull@1"); ("image", VStr "acme/jira:1");
   ("preexisting", VBool false)].
Definition demo_record (receipts : list receipt) : SetupStateRecord :=
  record_of (demo_plan []) "configured" "Setup configured" "then" "now" receipts (VInt 0).
Lemma undo_predicted_witness :
  let record := demo_record [created_receipt; pulled_receipt] in
  map (λ s, (us_index s, us_subject s, us_disposition s)) (plan_undo record)
  = [(2, "acme/jira:1", "keeps"); (1, "/opt/jira", "reverses")]
  ∧ Forall written_receipt (sr_receipt record)
  ∧ us_index <$> plan_undo record = [2; 1].
Proof.
  intros record. split; [vm_compute; reflexivity|].
  assert (Hw : Forall written_receipt (sr_receipt record)).
  { constructor; [|constructor; [|constructor]];
      (split; [eexists; reflexivity|left; reflexivity|repeat constructor; by eexists]). }
  split; [exact Hw|]. exact (proj1 (undo_predicted record Hw)).
Defined.

(** The receipt of a merged list: compensated before its record is written, and
    never after, as the list is frozen to a tuple then and no longer equals the
    value in the file. *)
Definition merged_file : string :=
  py_dumps_indent 0 (VDict [("servers", VList [VStr "jira"])]) +:+ LF.
Definition merged_receipt : receipt :=
  [("step_id", VStr "merge"); ("module", VStr "json.managed-merge@1"); ("path", VStr "/home/me/mcp.json");
   ("json_path", VList [VStr "servers"]); ("changed", VBool true); ("file_existed", VBool false);
   ("mode", VNone); ("had_prior", VBool false); ("replaced", VBool false);
   ("installed", VList [VStr "jira"])].
Definition merged_world := disk_world "/home/me/mcp.json" (Some (merged_file, 384)).
Example fresh_merge_compensated :
  (rollback_receipt merged_world sample_runtime merged_receipt demo_start).1 = Ret true.
Proof. by vm_compute. Qed.
Example frozen_merge_kept :
  (rollback_receipt merged_world sample_runtime (freeze_receipt merged_receipt) demo_start).1 = Ret false.
Proof. by vm_compute. Qed.
