(* ===== verification/SetupState.v ===== *)
(** [setup.py]: the file that keeps the records of executed setups, written
    redacted and read back strictly, and what is told of its records. *)
From S2P Require Import Prelude PyText Regex Redaction Json PyJson Posix Profiles SetupModel SetupRecipe SetupPlan SetupTransaction SetupRecipeSpec SetupPlanSpec SetupBlock SetupRuntime SetupCompensation.
From Stdlib Require Import Ascii.
Open Scope Z_scope.

Definition setup_state_path (scope_root : string) : string :=
  pjoins scope_root [".agent-artifacts"; "setup-state.json"].

(** * Writing *)

Section writing.
Context `{UnicodeData} `{PyNumbers}.

(** [(?i)(token|password|passwd|secret|api[_-]?key|stdout|stderr|env)] *)
Definition SENSITIVE_LABEL : re :=
  ignore_case "token" ∥ ignore_case "password" ∥ ignore_case "passwd" ∥ ignore_case "secret"
  ∥ ignore_case "api" · ROpt (RChar (λ c, is_char "_" c || is_char "-" c)) · ignore_case "key"
  ∥ ignore_case "stdout" ∥ ignore_case "stderr" ∥ ignore_case "env".
(** [re.search(pattern, label)] *)
Definition found_in (r : re) (label : string) : bool :=
  fullmatch (RStar (RChar (λ _, true)) · r · RStar (RChar (λ _, true))) label.
Definition sensitive (label : string) : bool := found_in SENSITIVE_LABEL label.

(** [_redact] *)
Fixpoint redact_value (v : pyval) : pyval :=
  match v with
  | VStr s => VStr (redact_text s)
  | VDict d => VDict (map (λ kv, (kv.1, if sensitive kv.1 then VStr "[redacted]" else redact_value kv.2)) d)
  | VTuple l | VList l => VList (map redact_value l)
  | _ => v
  end.

Definition CANONICAL_DIGEST : re := RStr "sha256:" · RRep 64 (RChar (λ c, is_digit c || between 97 102 c)).
Definition SETUP_STATE_REF : re :=
  RChar (λ c, is_lower c || is_digit c)
  · RUpTo 255 (RChar (λ c, is_lower c || is_digit c || is_char "." c || is_char "_" c || is_char "-" c)).
Definition TRUST_CLASSES : list string :=
  ["unverified"; "local"; "direct-source"; "registry-reviewed"; "company-reviewed"].

(** The evidence fields, with the field each is written to. *)
Definition evidence (r : SetupStateRecord) : list (string * string) :=
  [("object_digest", sr_object_digest r); ("recipe_digest", sr_recipe_digest r); ("trust", sr_trust r);
   ("trust_evidence_digest", sr_trust_evidence_digest r); ("policy_digest", sr_policy_digest r);
   ("capability_plan_digest", sr_capability_plan_digest r);
   ("canonical_review_digest", sr_canonical_review_digest r); ("setup_state_ref", sr_setup_state_ref r)].
Definition any_evidence (r : SetupStateRecord) : bool :=
  existsb (λ kv, negb (str_empty kv.2)) (evidence r).
Definition valid_canonical_evidence (r : SetupStateRecord) : bool :=
  forallb (fullmatch CANONICAL_DIGEST)
    [sr_object_digest r; sr_recipe_digest r; sr_trust_evidence_digest r; sr_policy_digest r;
     sr_capability_plan_digest r; sr_canonical_review_digest r]
  && mem (sr_trust r) TRUST_CLASSES && fullmatch SETUP_STATE_REF (sr_setup_state_ref r).
Definition evidence_ok (r : SetupStateRecord) : bool := negb (any_evidence r) || valid_canonical_evidence r.

(** [_record_to_dict] *)
Definition record_fields (r : SetupStateRecord) : list (string * pyval) :=
  [("artifact_type", VStr (sr_artifact_type r)); ("artifact_name", VStr (sr_artifact_name r));
   ("profile", VStr (sr_profile r)); ("scope", VStr (sr_scope r)); ("status", VStr (sr_status r));
   ("detail", VStr (redact_text (sr_detail r))); ("source_label", VStr (sr_source_label r));
   ("installer_path", VStr (sr_installer_path r)); ("installer_hash", VStr (sr_installer_hash r));
   ("custom_hash", VStr (sr_custom_hash r)); ("schema_version", VInt (sr_schema_version r));
   ("protocol_version", VInt (sr_protocol_version r)); ("plan_hash", VStr (sr_plan_hash r));
   ("started_at", VStr (sr_started_at r)); ("finished_at", VStr (sr_finished_at r));
   ("exit_status", sr_exit_status r); ("retry_command", VStr (sr_retry_command r));
   ("rollback_command", VStr (sr_rollback_command r)); ("receipt_path", VStr (sr_receipt_path r));
   ("receipt", VList (map (λ e, redact_value (VDict e)) (sr_receipt r)))].
Definition record_to_dict (r : SetupStateRecord) : py pyval :=
  if evidence_ok r
  then Ret (VDict (record_fields r
                   ++ omap (λ kv, if str_empty kv.2 then None else Some (kv.1, VStr kv.2)) (evidence r)))
  else Raise (ValueError "canonical setup evidence is incomplete or invalid").

(** A [SetupState] is the list of its records. *)
Definition state_document (records : list SetupStateRecord) : py pyval :=
  entries ← mapM record_to_dict records;
  Ret (VDict [("version", VInt 1); ("records", VList entries)]).
Definition dump_setup_state (records : list SetupStateRecord) : py string :=
  document ← state_document records; Ret (py_dumps_indent 0 document).

End writing.

(** * Reading *)

Section reading.
Context `{UnicodeData} `{PyNumbers}.

Definition VALID_STATUSES : list string :=
  ["configured"; "already_configured"; "cancelled"; "skipped"; "unsupported"; "prerequisite_missing";
   "apply_failed_rolled_back"; "rollback_incomplete"; "verification_failed"].
(** [status not in valid_statuses], which hashes the status. *)
Definition read_status (v : pyval) : py string :=
  let refused := invalid ("invalid setup terminal status " +:+ py_repr v) in
  match v with
  | VList _ => Raise (TypeError "unhashable type: 'list'")
  | VDict _ => Raise (TypeError "unhashable type: 'dict'")
  | VStr s => if mem s VALID_STATUSES then Ret s else refused
  | _ => refused
  end.
Definition one_of (v : pyval) (allowed : list string) (what : string) : py string :=
  let refused := invalid ("invalid " +:+ what +:+ " " +:+ py_repr v) in
  match v with VStr s => if mem s allowed then Ret s else refused | _ => refused end.
(** [int(entry.get(key, 1))] *)
Definition int_field (d : list (string * pyval)) (key : string) : py Z :=
  match dget key d with
  | None => Ret 1
  | Some (VInt n) => Ret n
  | Some (VBool b) => Ret (bool_int b)
  | Some (VFloat f) => int_of_float f
  | Some (VStr s) => int_of_text s
  | Some _ => Raise (TypeError "int() argument must be a string, a bytes-like object or a real number")
  end.
(** [str(entry.get(key, fallback))] *)
Definition str_field (d : list (string * pyval)) (key : string) : string :=
  match dget key d with Some v => py_str v | None => "" end.
Definition read_receipts (d : list (string * pyval)) : py (list receipt) :=
  match default (VList []) (dget "receipt" d) with
  | VList l =>
      match mapM vdict l with
      | Some receipts => Ret (map freeze_receipt receipts)
      | None => invalid "setup receipt must be a list of objects"
      end
  | _ => invalid "setup receipt must be a list of objects"
  end.

Definition parse_record (entry : pyval) : py SetupStateRecord :=
  match entry with
  | VDict d =>
      status ← read_status (get d "status");
      artifact_type ← one_of (get d "artifact_type") ["skill"; "guideline"; "mcp"; "hook"; "memory"]
                        "artifact type";
      scope ← one_of (get d "scope") ["project"; "user"] "setup scope";
      receipts ← read_receipts d;
      schema_version ← int_field d "schema_version";
      protocol_version ← int_field d "protocol_version";
      let text := str_field d in
      let record := MkStateRecord artifact_type (text "artifact_name") (text "profile") scope status
        (text "detail") (text "source_label") (text "installer_path") (text "installer_hash")
        (text "custom_hash") schema_version protocol_version (text "plan_hash") (text "started_at")
        (text "finished_at") (get d "exit_status") (text "retry_command") (text "rollback_command")
        (text "receipt_path") receipts (text "object_digest") (text "recipe_digest") (text "trust")
        (text "trust_evidence_digest") (text "policy_digest") (text "capability_plan_digest")
        (text "canonical_review_digest") (text "setup_state_ref") in
      if evidence_ok record then Ret record
      else invalid "canonical setup evidence is incomplete or invalid"
  | _ => invalid "setup state records must be objects"
  end.
(** What [parse_setup_state] makes of the document it loaded. *)
Definition parse_state_document (raw : pyval) : py (list SetupStateRecord) :=
  let wrong_version := invalid "setup state version must be 1" in
  match raw with
  | VDict d =>
      if negb (py_eq (get d "version") (VInt 1)) then wrong_version
      else match get d "records" with
           | VList l => mapM parse_record l
           | _ => invalid "setup state records must be a list"
           end
  | _ => wrong_version
  end.
(** [except (JSONDecodeError, _Invalid, TypeError, ValueError)] *)
Definition corrupt {A} (m : py A) : py (string + A) :=
  match m with
  | Ret a => Ret (inr a)
  | Raise (JSONDecodeError e) | Raise (Invalid e) | Raise (TypeError e) | Raise (ValueError e)
  | Raise (UnicodeDecodeError e) => Ret (inl ("corrupt setup state: " +:+ e))
  | Raise e => Raise e
  end.
Definition parse_setup_state (text : string) : py (string + list SetupStateRecord) :=
  corrupt (raw ← py_loads text; parse_state_document raw).

(** * Records of a state *)

Definition record_key (r : SetupStateRecord) : string * string * string * string :=
  (sr_artifact_type r, sr_artifact_name r, sr_profile r, sr_scope r).
Definition upsert_setup_record (records : list SetupStateRecord) (record : SetupStateRecord) :
    list SetupStateRecord :=
  let out := map (λ r, if bool_decide (record_key r = record_key record) then record else r) records in
  if existsb (λ r, bool_decide (record_key r = record_key record)) records then out else out ++ [record].
Definition incomplete_records (records : list SetupStateRecord) : list SetupStateRecord :=
  List.filter (λ r, negb (mem (sr_status r) ["configured"; "already_configured"])) records.
(** The recovery notes of the receipts, each once, in their order. *)
Definition recovery_step (messages : list string) (r : receipt) : list string :=
  match default (VStr "") (dget "recovery" r) with
  | VStr raw =>
      if str_empty (strip raw) then messages
      else let message := redact_text (strip raw) in
           if mem message messages then messages else messages ++ [message]
  | _ => messages
  end.
Definition recovery_messages (record : SetupStateRecord) : list string :=
  foldl recovery_step [] (sr_receipt record).
Definition mark_unstarted_skipped (items : list SetupQueueItem) (detail : string) : list SetupStateRecord :=
  map (λ item, let installer := qi_installer item in
    MkStateRecord (qi_artifact_type item) (qi_artifact_name item) (qi_profile item) (qi_scope item)
      "skipped" detail (qi_source_label item) (si_descriptor_path installer) (si_descriptor_hash installer)
      (default "" (si_custom_hash installer)) (si_schema_version installer) (si_protocol_version installer)
      "" "" "" VNone (retry_command item) "" "" [] "" "" "" "" "" "" "" "") items.
End reading.

(** What the setup state promises: the records that are written are read back,
    redacted; and updating one keeps the others where they were. *)


Section state.
Context `{UnicodeData} `{PyNumbers}.

(** What is kept of a record: its texts redacted, its receipts frozen. *)
Definition redact_receipt (r : receipt) : receipt :=
  freeze_receipt (map (λ kv, (kv.1, if sensitive kv.1 then VStr "[redacted]" else redact_value kv.2)) r).
Definition persisted (r : SetupStateRecord) : SetupStateRecord :=
  MkStateRecord (sr_artifact_type r) (sr_artifact_name r) (sr_profile r) (sr_scope r) (sr_status r)
    (redact_text (sr_detail r)) (sr_source_label r) (sr_installer_path r) (sr_installer_hash r)
    (sr_custom_hash r) (sr_schema_version r) (sr_protocol_version r) (sr_plan_hash r) (sr_started_at r)
    (sr_finished_at r) (sr_exit_status r) (sr_retry_command r) (sr_rollback_command r) (sr_receipt_path r)
    (map redact_receipt (sr_receipt r)) (sr_object_digest r) (sr_recipe_digest r) (sr_trust r)
    (sr_trust_evidence_digest r) (sr_policy_digest r) (sr_capability_plan_digest r)
    (sr_canonical_review_digest r) (sr_setup_state_ref r).
(** A record of an artifact, with a terminal status and complete evidence or none. *)
Definition readable (r : SetupStateRecord) : Prop :=
  mem (sr_artifact_type r) ["skill"; "guideline"; "mcp"; "hook"; "memory"] = true
  ∧ mem (sr_scope r) ["project"; "user"] = true ∧ mem (sr_status r) VALID_STATUSES = true
  ∧ evidence_ok r = true.

Abbreviation written r := (omap (λ kv, if str_empty kv.2 then None else Some (kv.1, VStr kv.2)) (evidence r)).
Lemma str_field_written key (l : list (string * string)) :
  NoDup (dkeys l) →
  str_field (omap (λ kv, if str_empty kv.2 then None else Some (kv.1, VStr kv.2)) l) key
  = default "" (dget key l).
Proof.
  unfold str_field. induction l as [|[k s] l IH]; intros Hd; [done|].
  apply NoDup_cons in Hd as [Hk Hd]. specialize (IH Hd). cbn. destruct s as [|c s]; cbn.
  - case_bool_decide as Heq; [|exact IH]. subst. rewrite IH. cbn.
    destruct (dget k l) eqn:E; [|done]. destruct Hk. apply dget_is_Some. eexists. exact E.
  - by case_bool_decide.
Qed.
Lemma str_field_app d e key : dget key d = None → str_field (d ++ e) key = str_field e key.
Proof. intros Hd. unfold str_field. by rewrite dget_app, Hd. Qed.
Lemma evidence_text r key value :
  dget key (evidence r) = Some value → dget key (record_fields r) = None →
  str_field (record_fields r ++ written r) key = value.
Proof.
  intros Hv Hf. rewrite str_field_app by done. rewrite str_field_written, Hv; [done|].
  cbn. repeat constructor; set_solver.
Qed.

Lemma read_receipts_written d (receipts : list receipt) :
  dget "receipt" d = Some (VList (map (λ e, redact_value (VDict e)) receipts)) →
  read_receipts d = Ret (map redact_receipt receipts).
Proof.
  intros Hd. unfold read_receipts. rewrite Hd. cbn [default from_option id].
  assert (mapM vdict (map (λ e, redact_value (VDict e)) receipts)
    = Some (map (λ e, map (λ kv, (kv.1, if sensitive kv.1 then VStr "[redacted]" else redact_value kv.2)) e)
         receipts)) as ->.
  { clear Hd. induction receipts as [|e receipts IH]; [done|]. cbn [map mapM]. by rewrite IH. }
  by rewrite map_map.
Qed.

(** A written record is read back as what is kept of it. *)
Lemma parse_record_written r : readable r →
  ∃ entry, record_to_dict r = Ret entry ∧ parse_record entry = Ret (persisted r).
Proof.
  intros (Ht & Hs & Hst & He). unfold record_to_dict. rewrite He. eexists. split; [done|].
  assert (Hget : ∀ key v, dget key (record_fields r) = Some v →
    get (record_fields r ++ written r) key = v ∧ dget key (record_fields r ++ written r) = Some v).
  { intros key v Hv. unfold get. by rewrite dget_app, Hv. }
  assert (Htext : ∀ key s, dget key (record_fields r) = Some (VStr s) →
    str_field (record_fields r ++ written r) key = s).
  { intros key s Hv. unfold str_field. by rewrite dget_app, Hv. }
  assert (Hint : ∀ key n, dget key (record_fields r) = Some (VInt n) →
    int_field (record_fields r ++ written r) key = Ret n).
  { intros key n Hv. unfold int_field. by rewrite dget_app, Hv. }
  cbn [parse_record].
  rewrite (proj1 (Hget "status" _ eq_refl)), (proj1 (Hget "artifact_type" _ eq_refl)),
    (proj1 (Hget "scope" _ eq_refl)), (proj1 (Hget "exit_status" _ eq_refl)).
  cbn [read_status one_of]. rewrite Hst, Ht, Hs. cbn [mbind py_bind].
  rewrite (read_receipts_written _ _ (proj2 (Hget "receipt" _ eq_refl))). cbn [mbind py_bind].
  rewrite (Hint "schema_version" _ eq_refl), (Hint "protocol_version" _ eq_refl). cbn [mbind py_bind].
  repeat match goal with |- context [str_field _ ?key] =>
    first [rewrite (Htext key _ eq_refl) | rewrite (evidence_text r key _ eq_refl eq_refl)] end.
  match goal with |- (if evidence_ok ?r' then _ else _) = _ => change (evidence_ok r') with (evidence_ok r) end.
  by rewrite He.
Qed.

(** The state that was written is read back, record by record. *)
Theorem state_read_back records : Forall readable records →
  ∃ document, state_document records = Ret document
    ∧ parse_state_document document = Ret (map persisted records).
Proof.
  intros Hall. unfold state_document.
  assert (∃ entries, mapM record_to_dict records = Ret entries
    ∧ mapM parse_record entries = Ret (map persisted records)) as (entries & -> & Hp).
  { induction Hall as [|r records Hr Hall IH]; [by exists []|].
    destruct IH as (entries & Hw & Hp). destruct (parse_record_written r Hr) as (entry & Hwr & Hpr).
    exists (entry :: entries). cbn [mapM map]. by rewrite Hwr, Hpr; cbn [mbind py_bind]; rewrite Hw, Hp. }
  eexists. split; [done|]. exact Hp.
Qed.

(** * Updating *)

Lemma upsert_keys records record :
  record_key <$> upsert_setup_record records record
  = (record_key <$> records)
    ++ (if existsb (λ r, bool_decide (record_key r = record_key record)) records
        then [] else [record_key record]).
Proof.
  unfold upsert_setup_record.
  assert (record_key <$> map (λ r, if bool_decide (record_key r = record_key record) then record else r) records
    = record_key <$> records) as Hk.
  { induction records as [|r records IH]; [done|]. cbn. f_equal; [by case_bool_decide|exact IH]. }
  destruct (existsb _ _); [by rewrite Hk, app_nil_r|]. by rewrite fmap_app, Hk.
Qed.
(** Updating a state with one record per artifact, profile and scope keeps it so,
    holds the record, and changes no record of another key. *)
Theorem upsert_setup_record_exact records record :
  NoDup (record_key <$> records) →
  let updated := upsert_setup_record records record in
  NoDup (record_key <$> updated)
  ∧ record ∈ updated
  ∧ (∀ r, record_key r ≠ record_key record → r ∈ updated ↔ r ∈ records)
  ∧ (∀ r, r ∈ updated → record_key r = record_key record → r = record).
Proof.
  intros Hd updated. unfold updated. split; [|split; [|split]].
  - rewrite upsert_keys. destruct (existsb _ _) eqn:E; [by rewrite app_nil_r|].
    apply NoDup_app. split; [done|]. split; [|apply NoDup_singleton].
    intros k Hk ->%list_elem_of_singleton. apply list_elem_of_fmap in Hk as (r & Hkr & Hr).
    apply not_true_iff_false in E. destruct E. apply existsb_exists. exists r.
    split; [by apply list_elem_of_In|]. by apply bool_decide_eq_true.
  - unfold upsert_setup_record. destruct (existsb _ _) eqn:E; [|set_solver].
    apply existsb_exists in E as (r & Hr & Heq). apply list_elem_of_In, in_map_iff. exists r.
    by rewrite Heq.
  - intros r Hr. unfold upsert_setup_record.
    assert (r ∈ map (λ r, if bool_decide (record_key r = record_key record) then record else r) records
      ↔ r ∈ records) as Hm.
    { rewrite list_elem_of_In, in_map_iff. split.
      - intros (r' & Heq & Hin). case_bool_decide; subst; [done|]. by apply list_elem_of_In.
      - intros Hin. exists r. case_bool_decide; [done|]. split; [done|by apply list_elem_of_In]. }
    destruct (existsb _ _); [exact Hm|]. rewrite elem_of_app, Hm, list_elem_of_singleton.
    split; [intros [?| ->]; [done|by destruct Hr]|by left].
  - intros r. unfold upsert_setup_record.
    assert (r ∈ map (λ r, if bool_decide (record_key r = record_key record) then record else r) records →
      record_key r = record_key record → r = record) as Hm.
    { rewrite list_elem_of_In, in_map_iff. intros (r' & Heq & Hin). case_bool_decide; by subst. }
    destruct (existsb _ _); [exact Hm|]. rewrite elem_of_app, list_elem_of_singleton.
    intros [Hin| ->] Hk; [by apply Hm|done].
Qed.
End state.

(** * What persisting loses *)

#[local] Existing Instance ascii_unicode.
#[local] Existing Instance plain_numbers.
#[local] Existing Instance root_directory.

(** The receipt of a merged server whose settings have an [env]: the label is
    taken for a secret, so the persisted receipt never matches the file again,
    and an undo of the record cannot remove what the run installed. *)
Definition server_value : pyval := VDict [("command", VStr "jira"); ("env", VDict [("MODE", VStr "ro")])].
Definition server_receipt : receipt :=
  [("step_id", VStr "merge"); ("module", VStr "json.managed-merge@1"); ("path", VStr "/home/me/mcp.json");
   ("json_path", VList [VStr "servers"]); ("changed", VBool true); ("file_existed", VBool false);
   ("mode", VNone); ("had_prior", VBool false); ("replaced", VBool false); ("installed", server_value)].
Definition server_world :=
  disk_world "/home/me/mcp.json" (Some (py_dumps_indent 0 (VDict [("servers", server_value)]) +:+ LF, 384)).
Example fresh_server_compensated :
  (rollback_receipt server_world sample_runtime (freeze_receipt server_receipt) demo_start).1 = Ret true.
Proof. by vm_compute. Qed.
Example persisted_server_kept :
  (rollback_receipt server_world sample_runtime (redact_receipt server_receipt) demo_start).1 = Ret false.
Proof. by vm_compute. Qed.
(** The flag of a kept Keychain item becomes text. *)
Example kept_flag_redacted :
  redact_receipt [("existing_secret_kept", VBool true)] = [("existing_secret_kept", VStr "[redacted]")].
Proof. by vm_compute. Qed.
(** A version that is not finite is neither read nor reported as corrupt. *)
Definition infinite_state : string :=
  py_dumps_indent 0 (VDict [("version", VInt 1); ("records", VList [VDict
    [("status", VStr "skipped"); ("artifact_type", VStr "mcp"); ("scope", VStr "user");
     ("schema_version", VFloat "Infinity")]])]).
Example infinite_version_raises :
  parse_setup_state infinite_state = Raise (OverflowError "cannot convert float to integer").
Proof. by vm_compute. Qed.
