(* ===== verification/ManagedBlock.v ===== *)
(** The block that a memory artifact owns in a shared file: how an installation
    writes it ([_memory_block] of [installation/application.py]), how its status
    is read and how an uninstall takes it out ([_managed_block_status],
    [_strip_managed_block] of [lifecycle/application.py]). *)
From S2P Require Import Prelude PyText TextSearch Regex Domain Protocol Json CompilerModel InstallState Installation LifecycleModel JsonParse InstallSpec.
From Stdlib Require Import Ascii.

Definition LF : string := String newline "".

Definition begin_marker (name : string) : string :=
  "<!-- >>> agent-artifacts memory:" +:+ name +:+ " >>> -->".
Definition end_marker (name : string) : string :=
  "<!-- <<< agent-artifacts memory:" +:+ name +:+ " <<< -->".
(** [_memory_markers] *)
Definition memory_markers (r : InstallationRecord) : string * string :=
  let name := id_name (ae_identity (in_artifact r)) in (begin_marker name, end_marker name).

Inductive BlockPosition : Type := TOP | BOTTOM.

(** The block itself: the body without its final newlines, between markers. *)
Definition block_text (name body : string) : string :=
  begin_marker name +:+ LF +:+ rstrip_char newline body +:+ LF +:+ end_marker name.
(** [if tail.startswith("\n"): tail = tail[1:]] *)
Definition drop_newline (s : string) : string := removeprefix LF s.

Definition memory_block (existing : option string) (name body : string) (position : BlockPosition) :
    string :=
  let block := block_text name body in
  let base := default "" existing in
  match cut_string (begin_marker name) base with
  | Some (before, after) =>
      match cut_string (end_marker name) (begin_marker name +:+ after) with
      | Some (_, tail) =>
          let tail := drop_newline tail in
          before +:+ block +:+ (if str_empty tail then LF else LF +:+ tail)
      | None => before +:+ block +:+ LF
      end
  | None =>
      if str_empty base then block +:+ LF
      else
        let base := if endswith LF base then base else base +:+ LF in
        match position with
        | TOP => block +:+ LF +:+ LF +:+ base
        | BOTTOM => base +:+ LF +:+ block +:+ LF
        end
  end.

(** [if stripped.endswith("\n\n"): stripped = stripped[:-1]], then
    [if stripped.startswith("\n"): stripped = stripped[1:]] *)
Definition trim_seam (s : string) : string :=
  drop_newline (if endswith (LF +:+ LF) s then removesuffix LF s else s).

Definition strip_managed_block (r : InstallationRecord) (content : bytes) : option bytes :=
  if negb (valid_utf8 content) then None
  else
    let '(begin_, end_) := memory_markers r in
    if negb (contains begin_ content) && negb (contains end_ content) then Some content
    else if negb (count_sub begin_ content =? 1)%nat || negb (count_sub end_ content =? 1)%nat
    then None
    else match cut_string begin_ content with
         | None => None
         | Some (before, after) =>
             match cut_string end_ (begin_ +:+ after) with
             | None => None
             | Some (_, tail) => Some (trim_seam (before +:+ drop_newline tail))
             end
         end.

(** [text.index(needle)] of a needle that occurs *)
Definition index_of (needle s : string) : nat :=
  match cut_string needle s with Some (before, _) => String.length before | None => 0 end.

Definition managed_block_status (r : InstallationRecord) (s : PathSnapshot) : LifecycleStatus :=
  match ps_kind s with
  | PABSENT => L_MISSING
  | PFILE =>
      let text := ps_content s in
      let '(begin_, end_) := memory_markers r in
      if negb (valid_utf8 text) then L_DRIFTED
      else if negb (contains begin_ text) && negb (contains end_ text) then L_MISSING
      else if negb (contains begin_ text) || negb (contains end_ text)
              || (index_of end_ text <? index_of begin_ text)%nat then L_DRIFTED
      else if (count_sub begin_ text =? count_sub end_ text)%nat
              && (count_sub end_ text =? 1)%nat then L_CURRENT else L_DRIFTED
  | _ => L_DRIFTED
  end.

(** * Markers in a text *)

(** A text without either marker of [name]. *)
Definition unmarked (name s : string) : Prop :=
  contains (begin_marker name) s = false ∧ contains (end_marker name) s = false.
(** A name on one line, without an angle bracket that could look like a marker's. *)
Definition plain_name (name : string) : Prop := has_char newline name = false.

(** The parts around a block, one of which may be empty. *)
Definition seam (before : string) : Prop := before = "" ∨ ∃ a, before = a +:+ LF.

(** A managed block: installing it makes it current, installing again replaces
    exactly it, and uninstalling gives back what surrounded it. *)

(** * Needles of one length *)

Lemma prefix_length p s : String.prefix p s = true → (String.length p ≤ String.length s)%nat.
Proof. intros Hp. apply prefix_drop in Hp. rewrite Hp, str_length_app. lia. Qed.

Lemma contains_shorter needle s :
  (String.length s < String.length needle)%nat → contains needle s = false.
Proof.
  induction s as [|c s IH]; intros Hl; cbn [contains].
  - by destruct needle; [inversion Hl|].
  - apply orb_false_iff. split; [|apply IH; cbn in Hl; lia].
    apply not_true_is_false. intros Hp%prefix_length. lia.
Qed.

Lemma contains_same_length needle s :
  String.length s = String.length needle → s ≠ needle → contains needle s = false.
Proof.
  destruct s as [|c s]; intros Hl Hne; cbn [contains]; [by destruct needle|].
  apply orb_false_iff. split; [|apply contains_shorter; cbn in Hl; lia].
  apply not_true_is_false. intros Hp%prefix_drop. apply Hne. rewrite Hp.
  assert (String.length (str_drop (String.length needle) (String c s)) = 0%nat) as E
    by (rewrite str_drop_length; lia).
  destruct (str_drop _ _); [apply str_app_nil_r|done].
Qed.

Lemma markers_length name : String.length (begin_marker name) = String.length (end_marker name).
Proof. unfold begin_marker, end_marker. by rewrite !str_length_app. Qed.
Lemma markers_distinct name : begin_marker name ≠ end_marker name.
Proof. done. Qed.
Lemma end_not_in_begin name : contains (end_marker name) (begin_marker name) = false.
Proof. apply contains_same_length; [apply markers_length|apply markers_distinct]. Qed.
Lemma begin_not_in_end name : contains (begin_marker name) (end_marker name) = false.
Proof. apply contains_same_length; [symmetry; apply markers_length|]. intros E. by apply (markers_distinct name). Qed.

Lemma begin_one_line name : plain_name name → has_char newline (begin_marker name) = false.
Proof. intros Hn. unfold begin_marker. by rewrite !has_char_app, Hn. Qed.
Lemma end_one_line name : plain_name name → has_char newline (end_marker name) = false.
Proof. intros Hn. unfold end_marker. by rewrite !has_char_app, Hn. Qed.

(** * A text with one block *)

Section block.
Context (name : string) (name_plain : plain_name name).
Notation B := (begin_marker name).
Notation E := (end_marker name).

Lemma lf_cons s : LF +:+ s = String newline s.
Proof. done. Qed.

(** Splitting at a line feed, for either marker. *)
Lemma marker_sep needle a b : needle = B ∨ needle = E →
  contains needle (a +:+ LF +:+ b) = contains needle a || contains needle b.
Proof.
  intros Hn. rewrite lf_cons. apply contains_sep.
  - destruct Hn as [-> | ->]; [by apply begin_one_line|by apply end_one_line].
  - by destruct Hn as [-> | ->].
Qed.
Lemma marker_count needle a b : needle = B ∨ needle = E → contains needle a = false →
  count_sub needle (a +:+ LF +:+ b) = count_sub needle b.
Proof.
  intros Hn. rewrite lf_cons. apply count_sub_sep.
  - destruct Hn as [-> | ->]; [by apply begin_one_line|by apply end_one_line].
  - by destruct Hn as [-> | ->].
Qed.
Lemma marker_cut needle a b : needle = B ∨ needle = E → contains needle a = false →
  cut_string needle (a +:+ LF +:+ b) =
    match cut_string needle b with Some (x, y) => Some (a +:+ LF +:+ x, y) | None => None end.
Proof.
  intros Hn. rewrite lf_cons. intros Ha. rewrite cut_string_sep; [done| | |done].
  - destruct Hn as [-> | ->]; [by apply begin_one_line|by apply end_one_line].
  - by destruct Hn as [-> | ->].
Qed.

Lemma marker_here needle s : needle = B ∨ needle = E →
  count_sub needle (needle +:+ s) = S (count_sub needle s).
Proof.
  intros Hn. apply (count_sub_here newline).
  - destruct Hn as [-> | ->]; [by apply begin_one_line|by apply end_one_line].
  - by destruct Hn as [-> | ->].
Qed.

(** What may follow a block. *)
Definition tail_ok (tail : string) : Prop := tail = "" ∨ ∃ t, tail = LF +:+ t.

Lemma seam_cut before rest :
  seam before → contains B before = false → cut_string B (before +:+ B +:+ rest) = Some (before, rest).
Proof.
  intros [->|[a ->]] Hb; [change ("" +:+ ?x) with x; by rewrite cut_string_here|].
  rewrite <-str_app_assoc. rewrite <-(str_app_nil_r LF), marker_sep in Hb by by left.
  apply orb_false_iff in Hb as [Ha _]. rewrite marker_cut; [|by left|done].
  rewrite cut_string_here. by rewrite str_app_nil_r.
Qed.

Lemma block_end_cut body tail :
  contains E body = false →
  cut_string E (B +:+ LF +:+ body +:+ LF +:+ E +:+ tail) = Some (B +:+ LF +:+ body +:+ LF, tail).
Proof.
  intros Hb. rewrite marker_cut; [|by right|apply end_not_in_begin].
  rewrite marker_cut; [|by right|done]. by rewrite cut_string_here, str_app_nil_r.
Qed.

Lemma tail_contains needle tail : needle = B ∨ needle = E → needle ≠ E →
  tail_ok tail → contains needle tail = false → contains needle (E +:+ tail) = false.
Proof.
  intros Hn Hne [->|[t ->]] Ht.
  - rewrite str_app_nil_r. destruct Hn as [-> | ->]; [apply begin_not_in_end|done].
  - rewrite marker_sep by done. apply orb_false_iff. split.
    + destruct Hn as [-> | ->]; [apply begin_not_in_end|done].
    + change (LF +:+ t) with ("" +:+ LF +:+ t) in Ht. rewrite marker_sep in Ht by done.
      by apply orb_false_iff in Ht as [_ ?].
Qed.

Lemma block_count before body tail :
  seam before → tail_ok tail → unmarked name before → unmarked name body → unmarked name tail →
  let text := before +:+ B +:+ LF +:+ body +:+ LF +:+ E +:+ tail in
  count_sub B text = 1%nat ∧ count_sub E text = 1%nat.
Proof.
  intros Hs Ht [Hb1 Hb2] [Hy1 Hy2] [Ht1 Ht2] text.
  assert (∀ needle rest, needle = B ∨ needle = E → contains needle before = false →
    count_sub needle (before +:+ rest) = count_sub needle rest) as Hbefore.
  { intros needle rest Hn. destruct Hs as [->|[a ->]]; [done|]. intros Hc.
    rewrite <-str_app_assoc, marker_count; [done|done|].
    rewrite <-(str_app_nil_r LF), marker_sep in Hc by done. by apply orb_false_iff in Hc as [? _]. }
  unfold text. split.
  - rewrite Hbefore by auto. rewrite marker_here by by left. f_equal.
    change (LF +:+ ?x) with ("" +:+ LF +:+ x). rewrite marker_count; [|by left|done].
    rewrite marker_count; [|by left|done]. apply count_sub_none.
    apply tail_contains; [by left|apply markers_distinct|done|done].
  - rewrite Hbefore by auto. rewrite marker_count; [|by right|apply end_not_in_begin].
    rewrite marker_count; [|by right|done]. rewrite marker_here by by right. f_equal.
    by apply count_sub_none.
Qed.

Lemma block_index before body tail :
  seam before → unmarked name before → unmarked name body →
  let text := before +:+ B +:+ LF +:+ body +:+ LF +:+ E +:+ tail in
  (index_of B text ≤ index_of E text)%nat ∧ contains B text = true ∧ contains E text = true.
Proof.
  intros Hs [Hb1 Hb2] [Hy1 Hy2] text. unfold text, index_of.
  rewrite seam_cut by done.
  assert (cut_string E (before +:+ B +:+ LF +:+ body +:+ LF +:+ E +:+ tail)
          = Some (before +:+ B +:+ LF +:+ body +:+ LF, tail)) as Hc.
  { destruct Hs as [->|[a ->]]; [change ("" +:+ ?x) with x; by rewrite block_end_cut|].
    rewrite <-str_app_assoc. rewrite <-(str_app_nil_r LF), marker_sep in Hb2 by by right.
    apply orb_false_iff in Hb2 as [Ha _]. rewrite marker_cut; [|by right|done].
    by rewrite block_end_cut, <-str_app_assoc by done. }
  rewrite Hc. split_and!.
  - rewrite str_length_app. lia.
  - apply not_false_is_true. intros Hf%cut_string_None. by rewrite seam_cut in Hf.
  - apply not_false_is_true. intros Hf%cut_string_None. by rewrite Hc in Hf.
Qed.
End block.

(** * Installing *)

(** [base] as installing continues it: with a final line feed. *)
Definition ending (base : string) : string := if endswith LF base then base else base +:+ LF.
(** What stands before and after a new block. *)
Definition frame (base : string) (position : BlockPosition) : string * string :=
  if str_empty base then ("", LF)
  else match position with
       | TOP => ("", LF +:+ LF +:+ ending base)
       | BOTTOM => (ending base +:+ LF, LF)
       end.
(** What an uninstall leaves of [base]. *)
Definition restored (base : string) (position : BlockPosition) : string :=
  if str_empty base then ""
  else match position with
       | TOP => if endswith (LF +:+ LF) (LF +:+ ending base) then removesuffix LF (ending base)
                else ending base
       | BOTTOM => drop_newline (ending base)
       end.

Lemma drop_newline_lf s : drop_newline (LF +:+ s) = s.
Proof. unfold drop_newline, removeprefix. by rewrite prefix_app, str_drop_app. Qed.

Section lifecycle.
Context (name : string) (name_plain : plain_name name).

Lemma ending_snoc base : ∃ a, ending base = a +:+ LF.
Proof. unfold ending. destruct (endswith LF base) eqn:E; [by apply endswith_inv|by exists base]. Qed.

Lemma unmarked_join a b : unmarked name a → unmarked name b → unmarked name (a +:+ LF +:+ b).
Proof. intros [Ha Ha'] [Hb Hb']. split; (rewrite (marker_sep name name_plain) by auto); by apply orb_false_iff. Qed.
Lemma unmarked_empty : unmarked name "".
Proof. by split. Qed.
Lemma unmarked_ending base : unmarked name base → unmarked name (ending base).
Proof.
  intros Hb. unfold ending. destruct (endswith LF base); [done|].
  rewrite <-(str_app_nil_r LF). apply unmarked_join; [done|apply unmarked_empty].
Qed.
Lemma unmarked_lf : unmarked name LF.
Proof. change LF with ("" +:+ LF +:+ ""). by apply unmarked_join. Qed.

Lemma frame_facts base position : unmarked name base →
  seam (frame base position).1 ∧ unmarked name (frame base position).1
  ∧ (∃ t, (frame base position).2 = LF +:+ t) ∧ unmarked name (frame base position).2.
Proof.
  intros Hb. unfold frame. destruct (str_empty base) eqn:E; cbn.
  { split_and!; [by left|apply unmarked_empty|by exists ""|apply unmarked_lf]. }
  pose proof (unmarked_ending base Hb) as He. destruct position; cbn.
  - split_and!; [by left|apply unmarked_empty|by eexists|].
    change (LF +:+ LF +:+ ending base) with ("" +:+ LF +:+ ("" +:+ LF +:+ ending base)).
    apply unmarked_join; [apply unmarked_empty|by apply unmarked_join].
  - split_and!; [right; by eexists| |by exists ""|apply unmarked_lf].
    rewrite <-(str_app_nil_r LF). apply unmarked_join; [done|apply unmarked_empty].
Qed.

Lemma memory_block_new base body position : unmarked name base →
  memory_block (Some base) name body position
  = (frame base position).1 +:+ block_text name body +:+ (frame base position).2.
Proof.
  intros [Hb _]. unfold memory_block. change (default "" (Some base)) with base. apply cut_string_None in Hb as ->.
  unfold frame. destruct (str_empty base) eqn:E; [done|]. unfold ending.
  destruct position; cbn [fst snd]; [done|]. by rewrite <-str_app_assoc.
Qed.

Lemma memory_block_again before tail body body' position :
  seam before → unmarked name before → unmarked name (rstrip_char newline body) →
  memory_block (Some (before +:+ block_text name body +:+ LF +:+ tail)) name body' position
  = before +:+ block_text name body' +:+ LF +:+ tail.
Proof.
  intros Hs [Hb _] [_ Hy]. unfold memory_block, block_text.
  change (default "" (Some ?x)) with x.
  rewrite <-!str_app_assoc. rewrite seam_cut by done. rewrite block_end_cut by done.
  rewrite drop_newline_lf.
  destruct tail; cbn [str_empty]; by rewrite <-!str_app_assoc.
Qed.

Lemma strip_block_text before tail body :
  seam before → unmarked name before → unmarked name (rstrip_char newline body) →
  unmarked name (LF +:+ tail) →
  let text := before +:+ block_text name body +:+ LF +:+ tail in
  count_sub (begin_marker name) text = 1%nat ∧ count_sub (end_marker name) text = 1%nat
  ∧ (index_of (begin_marker name) text ≤ index_of (end_marker name) text)%nat
  ∧ contains (begin_marker name) text = true ∧ contains (end_marker name) text = true
  ∧ ∃ after, cut_string (begin_marker name) text = Some (before, after)
      ∧ ∃ x, cut_string (end_marker name) (begin_marker name +:+ after) = Some (x, LF +:+ tail).
Proof.
  intros Hs Hb Hy Ht text. unfold text, block_text. rewrite <-!str_app_assoc.
  destruct (block_count name name_plain before (rstrip_char newline body) (LF +:+ tail)) as [-> ->]; try done.
  { right. by exists tail. }
  destruct (block_index name name_plain before (rstrip_char newline body) (LF +:+ tail)) as (Hi & -> & ->); try done.
  split_and!; try done. rewrite seam_cut by (done || apply Hb). eexists. split; [done|].
  rewrite block_end_cut by (done || apply Hy). eauto.
Qed.

Lemma trim_frame base position :
  trim_seam ((frame base position).1 +:+ drop_newline (frame base position).2) = restored base position.
Proof.
  unfold frame, restored. destruct (str_empty base); [done|]. destruct (ending_snoc base) as [a Ha].
  unfold trim_seam. destruct position; cbn [fst snd].
  - rewrite drop_newline_lf.
    change ("" +:+ LF +:+ ending base) with (LF +:+ ending base).
    destruct (endswith (LF +:+ LF) (LF +:+ ending base)); [|apply drop_newline_lf].
    rewrite Ha, (str_app_assoc LF a LF), !removesuffix_app. apply drop_newline_lf.
  - change (drop_newline LF) with "". rewrite str_app_nil_r.
    rewrite Ha, <-(str_app_assoc a LF LF), endswith_app, (str_app_assoc a LF LF), removesuffix_app. done.
Qed.

Lemma restored_same base position :
  String.prefix LF base = false → endswith LF base = true → endswith (LF +:+ LF) base = false →
  restored base position = base.
Proof.
  intros Hp He Hn. unfold restored. destruct base as [|c base]; [done|]. cbn [str_empty].
  assert (ending (String c base) = String c base) as -> by (unfold ending; by rewrite He).
  destruct position.
  - destruct (endswith (LF +:+ LF) (LF +:+ String c base)) eqn:E; [|done].
    exfalso. apply endswith_inv in E as [a E]. destruct a as [|d a].
    + change ("" +:+ ?x) with x in E. injection E as -> ->. by vm_compute in Hp.
    + rewrite str_app_cons in E. change (LF +:+ String c base) with (String newline (String c base)) in E.
      injection E as _ E. rewrite E, endswith_app in Hn. done.
  - unfold drop_newline, removeprefix. by rewrite Hp.
Qed.
End lifecycle.

(** * Text *)

Lemma rstrip_app_high p t :
  str_forall (λ c, negb (is_char newline c)) p = true →
  rstrip_char newline (p +:+ t) = p +:+ rstrip_char newline t.
Proof.
  induction p as [|c p IH]; [done|]. cbn [str_forall]. intros [Hc Hp]%andb_true_iff.
  rewrite !str_app_cons. cbn [rstrip_char]. rewrite (IH Hp).
  destruct (p +:+ rstrip_char newline t) eqn:E; [|done]. apply negb_true_iff in Hc. by rewrite Hc.
Qed.
Lemma valid_utf8_rstrip s : valid_utf8 s = true → valid_utf8 (rstrip_char newline s) = true.
Proof.
  revert s. apply utf8_ind; [done|]. intros p t (Hne & Hp & Hc) _ IH. destruct Hc as [[c ->]|Hc].
  - change (String c "" +:+ t) with (String c t). cbn [rstrip_char].
    specialize (Hp ""). rewrite str_app_nil_r in Hp. cbn in Hp.
    destruct (rstrip_char newline t) as [|d u] eqn:E.
    + destruct (is_char newline c); [done|]. cbn. done.
    + cbn [valid_utf8]. destruct (is_ascii_char c); [done|]. done.
  - rewrite rstrip_app_high.
    + by rewrite Hp.
    + eapply str_forall_impl; [|exact Hc]. intros c Hi. apply negb_true_iff, not_true_is_false.
      intros Hn%is_char_true. by subst.
Qed.

Lemma memory_block_valid base name body position :
  valid_utf8 base = true → valid_utf8 body = true → valid_utf8 name = true →
  valid_utf8 ((frame base position).1 +:+ block_text name body +:+ (frame base position).2) = true.
Proof.
  intros Hb Hy Hn.
  assert (valid_utf8 (ending base) = true) as He.
  { unfold ending. destruct (endswith LF base); [done|]. by rewrite valid_utf8_app. }
  assert (valid_utf8 (frame base position).1 = true ∧ valid_utf8 (frame base position).2 = true) as [H1 H2].
  { unfold frame. destruct (str_empty base); [done|]. destruct position; cbn [fst snd]; split; try done.
    by rewrite valid_utf8_app. }
  assert (valid_utf8 (begin_marker name) = true ∧ valid_utf8 (end_marker name) = true) as [H3 H4].
  { unfold begin_marker, end_marker. split; rewrite valid_utf8_app by done; by rewrite valid_utf8_app. }
  rewrite valid_utf8_app by done. unfold block_text. rewrite <-!str_app_assoc.
  rewrite valid_utf8_app by done. rewrite (valid_utf8_app LF) by done.
  rewrite valid_utf8_app by by apply valid_utf8_rstrip. rewrite (valid_utf8_app LF) by done.
  by rewrite valid_utf8_app.
Qed.

Section managed.
Context (r : InstallationRecord) (existing : option string) (body : string) (position : BlockPosition).
Notation name := (id_name (ae_identity (in_artifact r))).
Notation base := (default "" existing).
Hypothesis (name_plain : plain_name name) (base_unmarked : unmarked name base).
Hypothesis (body_unmarked : unmarked name (rstrip_char newline body)).
Hypothesis (valid : valid_utf8 name = true ∧ valid_utf8 base = true ∧ valid_utf8 body = true).

Lemma installed_text : ∃ tail, (frame base position).2 = LF +:+ tail ∧
  memory_block existing name body position
  = (frame base position).1 +:+ block_text name body +:+ LF +:+ tail.
Proof.
  destruct (frame_facts name name_plain base position base_unmarked) as (_ & _ & [t Ht] & _).
  exists t. split; [done|]. rewrite <-Ht, <-(memory_block_new name) by done. by destruct existing.
Qed.

Lemma managed_current s :
  ps_kind s = PFILE → ps_content s = memory_block existing name body position →
  managed_block_status r s = L_CURRENT.
Proof.
  intros Hk Hc. unfold managed_block_status. rewrite Hk, Hc. cbn [memory_markers].
  destruct installed_text as (t & Ht & E). rewrite E.
  destruct (frame_facts name name_plain base position base_unmarked) as (Hs & Hb & _ & Hu).
  rewrite Ht in Hu.
  destruct (strip_block_text name name_plain _ t body Hs Hb body_unmarked Hu)
    as (-> & -> & Hi & -> & -> & _).
  destruct valid as (? & ? & ?). rewrite <-Ht in *. rewrite memory_block_valid by done.
  cbn [negb orb andb]. apply Nat.ltb_ge in Hi. by rewrite Hi.
Qed.

Lemma managed_again body' position' :
  memory_block (Some (memory_block existing name body position)) name body' position'
  = memory_block existing name body' position.
Proof.
  destruct installed_text as (t & Ht & ->).
  destruct (frame_facts name name_plain base position base_unmarked) as (Hs & Hb & _ & _).
  rewrite memory_block_again by done. rewrite <-Ht.
  assert (memory_block existing name body' position = memory_block (Some base) name body' position) as ->
    by by destruct existing.
  by rewrite (memory_block_new name).
Qed.

Lemma managed_stripped :
  strip_managed_block r (memory_block existing name body position) = Some (restored base position).
Proof.
  destruct installed_text as (t & Ht & E). unfold strip_managed_block. cbn [memory_markers]. rewrite E.
  destruct (frame_facts name name_plain base position base_unmarked) as (Hs & Hb & _ & Hu).
  rewrite Ht in Hu.
  destruct (strip_block_text name name_plain _ t body Hs Hb body_unmarked Hu)
    as (-> & -> & _ & -> & -> & after & -> & x & ->).
  destruct valid as (? & ? & ?). rewrite <-Ht at 1. rewrite memory_block_valid by done.
  cbn. rewrite <-Ht. by rewrite trim_frame.
Qed.
End managed.

(** C35: a managed block put in a text without its markers is reported current;
    installing again replaces the body of that block and nothing else, whatever
    position is asked for; and uninstalling leaves [restored]: the text that was
    there, with a final line feed if it had none, less one of two final line
    feeds when the block was at the top, or less a leading one when it was at
    the bottom (a lone line feed is lost).  A text that starts with no line feed
    and ends in exactly one comes back as it was.  The
    name is one line, all is UTF-8, and neither text nor body holds a marker of
    the block, which nothing checks of the body ([marked_body_drifted] below). *)
Theorem managed_block_roundtrip r existing body position :
  let name := id_name (ae_identity (in_artifact r)) in
  let base := default "" existing in
  let installed body := memory_block existing name body position in
  has_char newline name = false → unmarked name base → unmarked name (rstrip_char newline body) →
  valid_utf8 name = true → valid_utf8 base = true → valid_utf8 body = true →
  (∀ s, ps_kind s = PFILE → ps_content s = installed body → managed_block_status r s = L_CURRENT)
  ∧ (∀ body' position', memory_block (Some (installed body)) name body' position' = installed body')
  ∧ strip_managed_block r (installed body) = Some (restored base position)
  ∧ (String.prefix LF base = false → endswith LF base = true → endswith (LF +:+ LF) base = false →
     strip_managed_block r (installed body) = Some base).
Proof.
  intros name base installed Hn Hb Hy Vn Vb Vy.
  pose proof (managed_stripped r existing body position Hn Hb Hy (conj Vn (conj Vb Vy))) as Hstrip.
  split_and!.
  - exact (managed_current r existing body position Hn Hb Hy (conj Vn (conj Vb Vy))).
  - exact (managed_again r existing body position Hn Hb Hy (conj Vn (conj Vb Vy))).
  - exact Hstrip.
  - intros Hp He He'. etransitivity; [exact Hstrip|]. f_equal. exact (restored_same base position Hp He He').
Qed.

Lemma managed_block_roundtrip_witness :
  let text := memory_block (Some ("house rules" +:+ LF)) "demo" ("be kind" +:+ LF) BOTTOM in
  text ≠ "house rules" +:+ LF ∧ strip_managed_block sample_record text = Some ("house rules" +:+ LF).
Proof.
  split; [by vm_compute|].
  destruct (managed_block_roundtrip sample_record (Some ("house rules" +:+ LF)) ("be kind" +:+ LF) BOTTOM)
    as (_ & _ & _ & Hs); [by vm_compute|by split; vm_compute|by split; vm_compute|by vm_compute..|].
  apply Hs; by vm_compute.
Defined.

(** The seams are not exact for every text: line feeds at the start or at the
    end of the file can be lost. *)
Example blank_line_lost :
  strip_managed_block sample_record (memory_block (Some (LF +:+ "a" +:+ LF)) "demo" "b" BOTTOM)
  = Some ("a" +:+ LF).
Proof. by vm_compute. Qed.
(** A body that holds a marker of its own block is installed all the same; the
    block is then reported drifted at once, and cannot be removed. *)
Example marked_body_drifted :
  let text := memory_block None "demo" ("see " +:+ end_marker "demo") BOTTOM in
  managed_block_status sample_record (MkPathSnapshot "/work/CLAUDE.md" PFILE None text false [] None None) = L_DRIFTED
  ∧ strip_managed_block sample_record text = None.
Proof. by vm_compute. Qed.
