(* ===== verification/Planning.v ===== *)
(** The pure half of planning an installation ([installation/application.py]):
    where an artifact goes under a profile, the actions of each kind, the
    operations they become, the conflicts with what is there, and the state the
    plan leaves.  The effects around them are in [Install.v]. *)
From S2P Require Import Prelude Effects PyText TextSearch Posix Domain SemVer Json Protocol CompilerModel Graph Marketplace Configuration ConfigSchema ConfigPolicy InstallState InstallSchema StoreModel NativeSchema NativeTree Installation InstallPlan LifecycleModel Ports Merge ManagedBlock Profiles.
From Stdlib Require Import Ascii.
Open Scope Z_scope.

#[export] Instance compatibility_spec_eq_dec : EqDecision CompatibilitySpec.
Proof. solve_decision. Defined.
#[export] Instance install_spec_eq_dec : EqDecision InstallSpec.
Proof. solve_decision. Defined.

(** [installation/application.py]'s [_TRUST_RANK] *)
Definition install_trust_rank (trust : string) : py Z :=
  match list_find (λ t, t = trust) TRUST_CLASSES with
  | Some (rank, _) => Ret (Z.of_nat rank)
  | None => Raise (KeyError trust)
  end.
Definition BACKUP_SUFFIX : string := ".agent-artifacts-bak".

Record CopyPayload := MkCopyPayload { cy_destination : string }.
Record WritePayload := MkWritePayload {
  wp_destination : string;
  wp_content : bytes;
  wp_restores_from : option string
}.
(** [_NativeAction] *)
Inductive NativeAction : Type :=
  | ACopy (a : CopyPayload)
  | AWrite (a : WritePayload)
  | AMerge (a : MergePayload).
Definition action_destination (a : NativeAction) : string :=
  match a with ACopy a => cy_destination a | AWrite a => wp_destination a | AMerge a => mg_destination a end.

Section planning.
Context `{UnicodeData} `{DecodeErrors} `{IpAddress} `{SetupProtocol}.

(** * The source and the policy *)

Definition find_configured_source (effective : EffectiveConfiguration) (alias : SourceAlias) :
    option ConfiguredSource :=
  List.find (λ s, bool_decide (cs_alias s = alias) && cs_enabled s)
    (uc_sources (ec_configuration effective)).

Definition policy_allows (request : InstallRequest) (trust : string)
    (effective : EffectiveConfiguration) : py (Result unit) :=
  match op_minimum_trust_for_user_scope (ec_policy effective) with
  | Some minimum =>
      if String.eqb (iq_scope request) "user" then
        rank ← install_trust_rank trust;
        needed ← install_trust_rank minimum;
        Ret (if rank <? needed
             then install_error INSTALL_POLICY_DENIED
                    ("user-scope install requires trust " +:+ repr minimum +:+ "; artifact trust is "
                     +:+ repr trust)
             else Ok tt)
      else Ret (Ok tt)
  | None => Ret (Ok tt)
  end.

(** * The object *)

(** An entry below [payload/], as a member of the payload tree. *)
Definition payload_member (e : SnapshotEntry) : py (Result (option TreeMember)) :=
  let raw := path_str (se_path e) in
  if negb (String.prefix "payload/" raw) then Ret (Ok None)
  else match parse_relative_path (removeprefix "payload/" raw) None with
  | Err _ => Ret (install_error INSTALL_INVALID ("object payload path is invalid: " +:+ raw))
  | Ok path =>
      match CompilerModel.se_kind e with
      | SDIRECTORY =>
          m ← tree_member (MkTreeMember path DIRECTORY "" false); Ret (Ok (Some m))
      | SFILE =>
          m ← tree_member (MkTreeMember path FILE (se_content e) (se_executable e));
          Ret (Ok (Some m))
      | _ => Ret (install_error INSTALL_INVALID ("object payload entry is unsafe: " +:+ raw))
      end
  end.
Fixpoint payload_members_from (entries : list SnapshotEntry) (members : list TreeMember) :
    py (Result (list TreeMember)) :=
  match entries with
  | [] => Ret (Ok members)
  | e :: entries =>
      member ← payload_member e;
      match member with
      | Err ds => Ret (Err ds)
      | Ok None => payload_members_from entries members
      | Ok (Some m) => payload_members_from entries (members ++ [m])
      end
  end.
Definition payload_members (stored : StoredObject) : py (Result (list TreeMember)) :=
  members ← payload_members_from (ob_entries (so_candidate stored)) [];
  Ret (members ← members;
       if existsb (λ m, bool_decide (tm_kind m = FILE)) members
       then Ok (sorted member_path members)
       else install_error INSTALL_INVALID "canonical object payload contains no files").

(** Versions compare by precedence, also inside bounds. *)
Definition opt_version_eq (a b : option SemVer) : bool :=
  match a, b with
  | Some v, Some w => same_precedence v w | None, None => true | _, _ => false
  end.
Definition bounds_py_eq (a b : VersionBounds) : bool :=
  opt_version_eq (vb_min_inclusive a) (vb_min_inclusive b)
  && opt_version_eq (vb_max_exclusive a) (vb_max_exclusive b).

Definition setup_matches (manifest : ArtifactManifest) (indexed : IndexArtifact) : bool :=
  match am_setup manifest, ia_setup indexed with
  | None, None => true
  | Some a, Some b =>
      bool_decide (sr_recipe a = ix_recipe b) && bool_decide (sr_platforms a = ix_platforms b)
  | _, _ => false
  end.
Definition provenance_matches (found : option Provenance) (indexed : IndexArtifact) : bool :=
  match found, ia_provenance indexed with
  | None, None => true
  | Some a, Some b =>
      bool_decide (op_url (pv_origin a) = px_origin_url b)
      && bool_decide (op_resolved_commit (pv_origin a) = px_resolved_commit b)
      && bool_decide (op_path (pv_origin a) = px_path b)
  | _, _ => false
  end.
(** The object holds the package the index describes. *)
Definition package_matches (package : NativeArtifactPackage) (indexed : IndexArtifact) : bool :=
  let manifest := np_manifest package in
  bool_decide (am_identity manifest = ia_identity indexed)
  && same_precedence (am_version manifest) (ia_version indexed)
  && String.eqb (am_summary manifest) (ia_summary indexed)
  && bool_decide (am_compatibility manifest = ia_compatibility indexed)
  && bool_decide (am_install manifest = ia_install indexed)
  && bounds_py_eq (am_requires_aart manifest) (ia_requires_aart indexed)
  && setup_matches manifest indexed
  && provenance_matches (np_provenance package) indexed
  && bool_decide (np_manifest_digest package = ia_manifest_digest indexed)
  && bool_decide (np_payload_digest package = ia_payload_digest indexed).
Definition validate_object_evidence (stored : StoredObject) (indexed : IndexArtifact) :
    py (Result unit) :=
  compiled ← compile_native_package (ob_entries (so_candidate stored)) (Some (ia_identity indexed));
  Ret match compiled with
      | Err ds =>
          let detail := match ds with d :: _ => d_message d | [] => "invalid package" end in
          install_error INSTALL_OBJECT_EVIDENCE_INVALID
            ("canonical object package is invalid: " +:+ detail)
      | Ok package =>
          if package_matches package indexed then Ok tt
          else install_error INSTALL_OBJECT_EVIDENCE_INVALID
                 "object bytes do not match indexed manifest/payload/install evidence"
      end.

(** The one payload file, or the one at a path: its path, content and mode. *)
Definition payload_file (stored : StoredObject) (suffix : option string) :
    Result (string * bytes * bool) :=
  let wanted e :=
    is_file e && String.prefix "payload/" (path_str (se_path e))
    && match suffix with Some s => String.eqb (path_str (se_path e)) s | None => true end in
  match List.filter wanted (ob_entries (so_candidate stored)) with
  | [e] => Ok (path_str (se_path e), se_content e, se_executable e)
  | _ => install_error INSTALL_INVALID
           ("canonical object must contain exactly one "
            +:+ default "the primary payload file" suffix)
  end.

(** * Where an artifact goes *)

(** The logical and the absolute destination of a path. *)
Definition destination (path : string) (request : InstallRequest) (location : InstallLocation) :
    py (Result (string * string)) :=
  let normalized := normpath path in
  if String.eqb (iq_scope request) "project" then
    match parse_relative_path normalized None with
    | Err _ =>
        Ret (install_error INSTALL_INVALID ("project install destination is unsafe: " +:+ path))
    | Ok _ =>
        let root := il_project_root location in
        let absolute := normpath (pjoin root normalized) in
        common ← commonpath root absolute;
        Ret (if String.eqb common root then Ok (normalized, absolute)
             else install_error INSTALL_INVALID
                    ("project install destination escapes root: " +:+ path))
    end
  else Ret (if negb (isabs normalized) || String.eqb normalized "/"
            then install_error INSTALL_INVALID
                   ("user install destination is not absolute: " +:+ path)
            else Ok (normalized, normalized)).

(** [dir.replace("<name>", name).rstrip("/")] *)
Definition named_dir (dir name : string) : string :=
  rstrip_char "/" (replace_sub "<name>" name dir).
Definition memory_target (t : MemoryTarget) (name : string) : string :=
  if String.eqb (mt_kind t) "file" then mt_dest t else pjoin (mt_dest t) (name +:+ ".md").

Definition target_paths (kind : ArtifactKind) (name : string) (profile : Profile) :
    Result (list string) :=
  let unsupported :=
    install_error INSTALL_INVALID
      ("profile " +:+ repr (pf_name profile) +:+ " does not support canonical " +:+ kind_value kind
       +:+ " installs in this scope") in
  match kind with
  | Skill =>
      match pf_skills profile with
      | Some t => Ok [if contains "<name>" (ct_dir t) then named_dir (ct_dir t) name
                      else pjoin (ct_dir t) name]
      | None => unsupported
      end
  | Guideline =>
      match pf_guidelines profile with
      | Some t => Ok [pjoin (gt_dest t) (name +:+ ".md")] | None => unsupported
      end
  | Mcp => match pf_mcp profile with Some t => Ok [mp_file t] | None => unsupported end
  | Hook =>
      match pf_hooks profile with
      | Some t => Ok [named_dir (ht_scripts_dir t) name; mp_file (ht_merge t)] | None => unsupported
      end
  | Memory =>
      match pf_memory profile with
      | Some t => let target := memory_target t name in Ok [target; target +:+ BACKUP_SUFFIX]
      | None => unsupported
      end
  | Collection => unsupported
  end.

(** * The actions of each kind *)

Notation snapshots := (list (string * PathSnapshot)).

(** [snapshots[path]], and [assert target is not None] *)
Definition snapshot_at (observed : snapshots) (path : string) : py PathSnapshot :=
  match dget path observed with Some s => Ret s | None => Raise (KeyError path) end.
Definition assert_some {A} (a : option A) : py A :=
  match a with Some a => Ret a | None => Raise AssertionError end.

Definition mcp_actions (request : InstallRequest) (stored : StoredObject) (target : MergeSpec)
    (observed : snapshots) : py (Result (list NativeAction)) :=
  match payload_file stored (Some "payload/mcp.json") with
  | Err ds => Ret (Err ds)
  | Ok (path, content, _) =>
      descriptor ← strict_mapping content path;
      match descriptor with
      | Err ds => Ret (Err ds)
      | Ok descriptor =>
          snapshot ← snapshot_at observed (mp_file target);
          existing ← existing_mapping snapshot;
          Ret (_ ← existing;
               let server := default (DDict []) (dget "server" descriptor) in
               match default (DStr (id_name (iq_identity request))) (dget "name" descriptor) with
               | DStr name =>
                   if str_empty name
                   then install_error INSTALL_INVALID "MCP descriptor has no canonical server name"
                   else Ok [AMerge (MkMerge (mp_file target) (mp_json_path target) "key" server [name])]
               | _ => install_error INSTALL_INVALID "MCP descriptor has no canonical server name"
               end)
      end
  end.

(** The values of a hook's template: its command runs from the scripts. *)
Definition hook_values (descriptor : list (string * data)) (scripts_dir : string) :
    list (string * data) :=
  match dget "command" descriptor with
  | Some (DStr command) => dset "command" (DStr (replace_sub "${SCRIPT_DIR}" scripts_dir command)) descriptor
  | _ => descriptor
  end.
Definition hook_actions (request : InstallRequest) (stored : StoredObject) (target : HookTarget)
    (observed : snapshots) : py (Result (list NativeAction)) :=
  let spec := ht_merge target in
  match payload_file stored (Some "payload/hook.json") with
  | Err ds => Ret (Err ds)
  | Ok (path, content, _) =>
      descriptor ← strict_mapping content path;
      match descriptor with
      | Err ds => Ret (Err ds)
      | Ok descriptor =>
          snapshot ← snapshot_at observed (mp_file spec);
          existing ← existing_mapping snapshot;
          Ret (_ ← existing;
               let scripts_dir := named_dir (ht_scripts_dir target) (id_name (iq_identity request)) in
               match render_template (DDict (default [] (mp_entry_template spec)))
                       (hook_values descriptor scripts_dir) with
               | DDict _ as rendered =>
                   Ok [ACopy (MkCopyPayload scripts_dir);
                       AMerge (MkMerge (mp_file spec) (mp_json_path spec) (mp_mode spec) rendered
                                 (mp_identity spec))]
               | _ => install_error INSTALL_INVALID "hook profile template must render a JSON object"
               end)
      end
  end.

Definition write (path : string) (content : bytes) : NativeAction :=
  AWrite (MkWritePayload path content None).

(** [replace] parks what it displaces in the sidecar. *)
Definition replace_memory (request : InstallRequest) (path : string) (existing : option string)
    (text : string) : Result (list NativeAction) :=
  let displaced := negb (str_empty (strip (default "" existing))) in
  if displaced && negb (iq_force request)
  then install_error INSTALL_CONFLICT
         ("memory " +:+ repr (id_name (iq_identity request)) +:+ ": " +:+ path
          +:+ " exists; use force to replace")
  else if negb displaced then Ok [write path text]
  else let backup := path +:+ BACKUP_SUFFIX in
       Ok [write backup (default "" existing); AWrite (MkWritePayload path text (Some backup))].

Definition memory_mode_actions (request : InstallRequest) (target : MemoryTarget) (path : string)
    (existing : option string) (text : string) : Result (list NativeAction) :=
  let mode := iq_memory_mode request in
  let name := id_name (iq_identity request) in
  let skipped := install_error INSTALL_INVALID "memory install was skipped and has no managed effect" in
  let skip := String.eqb mode "skip" && negb (bool_decide (existing = None)) in
  if String.eqb (mt_kind target) "dir" then if skip then skipped else Ok [write path text]
  else if String.eqb mode "skip" then if skip then skipped else Ok [write path text]
  else if String.eqb mode "replace" then replace_memory request path existing text
  else if String.eqb mode "prepend" then Ok [write path (memory_block existing name text TOP)]
  else if String.eqb mode "append" then Ok [write path (memory_block existing name text BOTTOM)]
  else install_error INSTALL_INVALID ("unknown canonical memory mode: " +:+ repr mode).

(** What a memory destination holds: [None] when it is absent. *)
Definition existing_text (snapshot : PathSnapshot) : Result (option string) :=
  match ps_kind snapshot with
  | PABSENT => Ok None
  | PFILE => if valid_utf8 (ps_content snapshot) then Ok (Some (ps_content snapshot))
             else install_error INSTALL_CONFLICT "existing memory destination is not UTF-8"
  | _ => install_error INSTALL_CONFLICT "memory destination is not a regular file"
  end.
Definition memory_actions (request : InstallRequest) (stored : StoredObject) (target : MemoryTarget)
    (observed : snapshots) : py (Result (list NativeAction)) :=
  match payload_file stored None with
  | Err ds => Ret (Err ds)
  | Ok (_, text, _) =>
      if negb (valid_utf8 text)
      then Ret (install_error INSTALL_INVALID "memory payload is not UTF-8")
      else
        let path := memory_target target (id_name (iq_identity request)) in
        snapshot ← snapshot_at observed path;
        Ret (existing ← existing_text snapshot;
             memory_mode_actions request target path existing text)
  end.

Definition native_actions (request : InstallRequest) (stored : StoredObject) (profile : Profile)
    (observed : snapshots) : py (Result (list NativeAction)) :=
  let name := id_name (iq_identity request) in
  match id_kind (iq_identity request) with
  | Skill =>
      target ← assert_some (pf_skills profile);
      let dir := named_dir (ct_dir target) name in
      Ret (Ok [ACopy (MkCopyPayload (if contains "<name>" (ct_dir target) then dir else pjoin dir name))])
  | Guideline =>
      target ← assert_some (pf_guidelines profile);
      Ret (file ← payload_file stored None;
           Ok [write (pjoin (gt_dest target) (name +:+ ".md")) file.1.2])
  | Mcp => target ← assert_some (pf_mcp profile); mcp_actions request stored target observed
  | Hook => target ← assert_some (pf_hooks profile); hook_actions request stored target observed
  | Memory => target ← assert_some (pf_memory profile); memory_actions request stored target observed
  | Collection =>
      Ret (install_error INSTALL_INVALID "canonical collection install is not implemented by INS01")
  end.

(** * Conflicts with what is there *)

(** The record of this artifact from this source, profile and scope. *)
Definition is_record_of (request : InstallRequest) (coordinate : ArtifactCoordinate)
    (r : InstallationRecord) : bool :=
  bool_decide (co_source (in_coordinate r) = co_source coordinate)
  && bool_decide (co_artifact (in_coordinate r) = co_artifact coordinate)
  && String.eqb (in_profile r) (iq_profile request) && String.eqb (in_scope r) (iq_scope request).
Definition previous_record (state : InstallState) (request : InstallRequest)
    (coordinate : ArtifactCoordinate) : option InstallationRecord :=
  List.find (is_record_of request coordinate) (st_installations state).
Definition previous_effect (state : InstallState) (request : InstallRequest)
    (coordinate : ArtifactCoordinate) (destination : string) : option EffectProof :=
  r ← previous_record state request coordinate;
  List.find (λ e, String.eqb (ef_destination e) destination) (in_effects r).

(** Another memory's block is recorded at this destination. *)
Definition shares_memory (request : InstallRequest) (destination : string) (r : InstallationRecord) :
    bool :=
  String.eqb (in_profile r) (iq_profile request) && String.eqb (in_scope r) (iq_scope request)
  && bool_decide (id_kind (ae_identity (in_artifact r)) = Memory)
  && negb (bool_decide (ae_identity (in_artifact r) = iq_identity request))
  && match in_memory_mode r with Some m => mem m ["prepend"; "append"] | None => false end
  && existsb (λ e, String.eqb (ef_kind e) "managed-block" && String.eqb (ef_destination e) destination)
       (in_effects r).
(** Both markers occur once, in order. *)
Definition block_present (name text : string) : bool :=
  (count_sub (begin_marker name) text =? count_sub (end_marker name) text)%nat
  && (count_sub (end_marker name) text =? 1)%nat
  && (index_of (begin_marker name) text <? index_of (end_marker name) text)%nat.
Definition shared_managed_memory_is_current (state : InstallState) (request : InstallRequest)
    (destination : string) (current : PathSnapshot) : bool :=
  match ps_kind current with
  | PFILE =>
      valid_utf8 (ps_content current)
      && existsb (λ r, shares_memory request destination r
                       && block_present (id_name (ae_identity (in_artifact r))) (ps_content current))
           (st_installations state)
  | _ => false
  end.

(** The recorded effect owns what is observed. *)
Definition previous_owns (previous : EffectProof) (current : PathSnapshot) : bool :=
  (String.eqb (ef_actual_mode previous) "symlink" && bool_decide (ps_kind current = PSYMLINK)
   && bool_decide (ps_link_target current = ef_link_target previous))
  || (String.eqb (ef_actual_mode previous) "copy"
      && (bool_decide (ps_kind current = PFILE) || bool_decide (ps_kind current = PTREE))
      && bool_decide (Some (ef_installed_digest previous) = ps_digest current)).

(** An operation that would replace what nothing recorded owns. *)
Definition conflicting (state : InstallState) (request : InstallRequest)
    (coordinate : ArtifactCoordinate) (o : InstallOperation) : bool :=
  let current := op_precondition o in
  if bool_decide (ps_kind current = PABSENT) || operation_is_current o then false
  else match o with
  | MergeJson _ => false
  | _ =>
      let shared :=
        match o with
        | WriteFile w =>
            String.eqb (wo_effect_kind w) "managed-block"
            && shared_managed_memory_is_current state request (wo_destination w) current
        | _ => false
        end in
      if shared then false
      else match previous_effect state request coordinate (op_destination o) with
           | Some previous => negb (previous_owns previous current)
           | None => true
           end
  end.
Definition conflicts (operations : list InstallOperation) (state : InstallState)
    (request : InstallRequest) (coordinate : ArtifactCoordinate) : list string :=
  if iq_force request then []
  else map op_destination (List.filter (conflicting state request coordinate) operations).

(** * The state a plan leaves *)

(** [_proof] *)
Definition proof (o : InstallOperation) : py EffectProof :=
  let created := bool_decide (ps_kind (op_precondition o) = PABSENT) in
  effect_proof
    match o with
    | CopyTree c =>
        MkEffect "copy-tree" (ct_destination c) "copy" (ct_desired_digest c) (Some (ct_source_path c))
          None None None JNull None None created (ct_overwrote c) None
    | WriteFile w =>
        MkEffect (wo_effect_kind w) (wo_destination w) "copy" (wo_desired_digest w)
          (if String.eqb (wo_effect_kind w) "write-file" then Some (wo_source_path w) else None)
          None None None JNull None None created (wo_overwrote w) (wo_restores_from w)
    | Link l =>
        MkEffect (match lk_target_kind l with TARGET_TREE => "symlink-tree" | TARGET_FILE => "symlink-file" end)
          (lk_destination l) "symlink" (lk_target_content_digest l) (Some (lk_source_path l))
          None None None JNull (Some (lk_target l)) (Some (lk_semantics l)) created (lk_overwrote l) None
    | MergeJson m =>
        MkEffect "merge-json" (mj_destination m) "copy" (mj_value_digest m) None
          (Some (mj_json_path m)) (Some (mj_merge_mode m)) (Some (mj_identity_digest m))
          (mj_identity_evidence m) None None created (mj_overwrote m) None
    end.

(** What the first installation created stays created by it. *)
Definition with_history (prior : list (string * string * string * EffectProof)) (e : EffectProof) :
    py EffectProof :=
  match dget (effect_locator e) prior with
  | Some previous =>
      if String.eqb (ef_kind previous) (ef_kind e)
      then effect_proof
             (MkEffect (ef_kind e) (ef_destination e) (ef_actual_mode e) (ef_installed_digest e)
                (ef_source_path e) (ef_json_path e) (ef_merge_mode e) (ef_identity_digest e)
                (ef_identity_evidence e) (ef_link_target e) (ef_link_semantics e)
                (ef_created_destination previous) (ef_overwrote previous || ef_overwrote e)
                (ef_restores_from e))
      else Ret e
  | None => Ret e
  end.

Definition replacement_state (current : InstallState) (request : InstallRequest)
    (coordinate : ArtifactCoordinate) (source : SourceEvidence) (artifact : ArtifactEvidence)
    (operations : list InstallOperation) : py (Result InstallState) :=
  let prior := match previous_record current request coordinate with
               | Some r => dict_of (map (λ e, (effect_locator e, e)) (in_effects r))
               | None => [] end in
  effects ← mapM (λ o, e ← proof o; with_history prior e) operations;
  or_value_error
    (record ← installation_record
       (MkInstallation (MkCoordinate (co_source coordinate) (co_artifact coordinate) None) source artifact
          (iq_profile request) (iq_profile_version request) (iq_scope request) (iq_mode request) effects
          (if bool_decide (id_kind (iq_identity request) = Memory) then Some (iq_memory_mode request)
           else None) None);
     install_state 2
       (List.filter (λ r, negb (bool_decide (installation_key r = installation_key record)))
          (st_installations current) ++ [record]))
    (λ message, install_error INSTALL_CONFLICT ("installation state ownership conflict: " +:+ message)).
End planning.
