(* ===== verification/Install.v ===== *)
(** Preparing and finalizing an installation ([prepare_install] and
    [finalize_install] of [installation/application.py]) over their ports. *)
From S2P Require Import Prelude Effects PyText TextSearch Posix Domain SemVer Json IndentedJson Protocol CompilerModel Graph Marketplace Configuration ConfigSchema ConfigPolicy InstallState InstallSchema StoreModel NativeSchema NativeTree Installation InstallPlan LifecycleModel Ports Merge ManagedBlock Profiles Planning.
From Stdlib Require Import Ascii.
Open Scope Z_scope.

(** [runtime_contract.py] *)
Definition EXECUTABLE_VERSION : SemVer := MkSemVer 2 8 5 [] [].

Section install.
Context `{UnicodeData} `{DecodeErrors} `{IpAddress} `{SetupProtocol} `{WorkingDirectory}.

Notation snapshots := (list (string * PathSnapshot)).

(** * Actions to operations *)

(** The destination of a link is replaced unless it is that link already. *)
Definition link_overwrites (snapshot : PathSnapshot) (target : string) : bool :=
  negb (bool_decide (ps_kind snapshot = PABSENT))
  && negb (bool_decide (ps_kind snapshot = PSYMLINK)
           && bool_decide (ps_link_target snapshot = Some target)
           && default false (ps_target_exists snapshot)).
Definition content_overwrites (snapshot : PathSnapshot) (desired : ObjectDigest) : bool :=
  negb (bool_decide (ps_kind snapshot = PABSENT)) && negb (bool_decide (ps_digest snapshot = Some desired)).
Definition link_semantics (request : InstallRequest) : string :=
  match iq_mutable_local_payload_root request with
  | Some _ => "mutable-local" | None => "immutable-object"
  end.
(** [request.mutable_local_payload_root or posixpath.join(stored.root, "payload")] *)
Definition payload_root (request : InstallRequest) (stored : StoredObject) : string :=
  match iq_mutable_local_payload_root request with
  | Some root => if str_empty root then pjoin (so_root stored) "payload" else root
  | None => pjoin (so_root stored) "payload"
  end.

Section convert.
Context (request : InstallRequest) (stored : StoredObject) (location : InstallLocation)
  (observed : snapshots) (ports : InstallReadPorts) (link_boundary : string).

(** A link to a payload that is what the object holds. *)
Definition link_to (source_path logical absolute target : string) (kind : TargetKind)
    (desired : ObjectDigest) (snapshot : PathSnapshot) (changed : string) :
    effect (Result InstallOperation) :=
  let expected := match kind with TARGET_TREE => PTREE | TARGET_FILE => PFILE end in
  found ←? inspect_link_target ports target link_boundary;
  if negb (bool_decide (ps_kind found = expected)) || negb (bool_decide (ps_digest found = Some desired))
  then result (install_error INSTALL_CONFLICT changed)
  else
    digest ← pure (link_snapshot_digest target);
    link ← pure (link_operation
                   (MkLink source_path logical absolute target kind (link_semantics request) desired
                      digest found snapshot (link_overwrites snapshot target)));
    mret (Ok (Link link)).

Definition convert_copy (payload : list TreeMember) (logical absolute : string) (snapshot : PathSnapshot) :
    effect (Result InstallOperation) :=
  desired ← pure (tree_members_digest payload);
  if String.eqb (iq_mode request) "symlink"
  then link_to "payload" logical absolute (payload_root request stored) TARGET_TREE desired snapshot
         "link payload tree changed, is missing, or is not a real directory"
  else
    copy ← pure (copy_tree_operation
                   (MkCopyTree "payload" logical absolute payload desired snapshot
                      (content_overwrites snapshot desired)));
    mret (Ok (CopyTree copy)).

Definition convert_write (a : WritePayload) (logical absolute : string) (snapshot : PathSnapshot) :
    effect (Result InstallOperation) :=
  let '(source_path, executable) := match payload_file stored None with
                                    | Ok (path, _, executable) => (path, executable)
                                    | Err _ => ("payload", false) end in
  let desired := file_snapshot_digest (wp_content a) executable in
  if String.eqb (iq_mode request) "symlink" && bool_decide (id_kind (iq_identity request) = Guideline)
  then link_to source_path logical absolute
         (pjoin (payload_root request stored) (removeprefix "payload/" source_path)) TARGET_FILE desired
         snapshot "link payload file changed, is missing, or is not a regular file"
  else
    let managed := bool_decide (id_kind (iq_identity request) = Memory)
                   && mem (iq_memory_mode request) ["prepend"; "append"] in
    file ← pure (write_file_operation
                   (MkWriteFile source_path logical absolute (wp_content a) executable desired snapshot
                      (if managed then "managed-block" else "write-file")
                      (content_overwrites snapshot desired) (wp_restores_from a)));
    mret (Ok (WriteFile file)).

Definition convert_merge (a : MergePayload) (logical absolute : string) (snapshot : PathSnapshot) :
    effect (Result InstallOperation) :=
  evidence ←? pure (merge_identity_evidence a);
  merged ←? pure (merged_content a snapshot evidence (iq_force request));
  let identity := match mg_identity a with
                  | [] => [id_name (iq_identity request)] | identity => identity end in
  let desired := file_snapshot_digest merged false in
  merge ← pure (merge_json_operation
                  (MkMergeJson logical absolute (mg_json_path a) (mg_mode a) identity evidence
                     (json_digest (json_value (mg_value a))) (json_digest evidence) merged desired snapshot
                     (String.eqb (mg_mode a) "key" && content_overwrites snapshot desired)));
  mret (Ok (MergeJson merge)).

Definition convert_action (payload : list TreeMember) (a : NativeAction) :
    effect (Result InstallOperation) :=
  let target_path := action_destination a in
  placed ←? pure (destination target_path request location);
  let '(logical, absolute) := placed in
  snapshot ← pure (snapshot_at observed target_path);
  match a with
  | ACopy _ => convert_copy payload logical absolute snapshot
  | AWrite a => convert_write a logical absolute snapshot
  | AMerge a => convert_merge a logical absolute snapshot
  end.
Fixpoint convert_all (payload : list TreeMember) (actions : list NativeAction)
    (converted : list InstallOperation) : effect (Result (list InstallOperation)) :=
  match actions with
  | [] => mret (Ok converted)
  | a :: actions =>
      operation ←? convert_action payload a;
      convert_all payload actions (converted ++ [operation])
  end.
Definition convert_actions (actions : list NativeAction) : effect (Result (list InstallOperation)) :=
  payload ←? pure (payload_members stored);
  convert_all payload actions [].
End convert.

(** * Preparing *)

(** What each target path holds; no unsafe type is planned over. *)
Fixpoint observe_targets (paths : list string) (request : InstallRequest) (location : InstallLocation)
    (ports : InstallReadPorts) (observed : snapshots) : effect (Result snapshots) :=
  match paths with
  | [] => mret (Ok observed)
  | path :: paths =>
      placed ←? pure (destination path request location);
      snapshot ←? inspect_path ports placed.2;
      if bool_decide (ps_kind snapshot = PSPECIAL)
         || (bool_decide (ps_kind snapshot = PSYMLINK) && String.eqb (iq_mode request) "copy")
      then result (install_error INSTALL_CONFLICT
                     ("install destination has an unsafe existing type: " +:+ placed.2))
      else observe_targets paths request location ports (dset path snapshot observed)
  end.

(** The state read, and the snapshot of its file, which must agree. *)
Definition observe_state (paths : InstallStatePaths) (ports : InstallReadPorts) :
    effect (Result (InstallState * PathSnapshot)) :=
  let path := sp_destination_path paths in
  let changed := install_error INSTALL_CONFLICT "installation state changed while preparing the plan" in
  loaded ←? read_state ports path;
  current ← pure (match loaded with Some s => Ret s | None => install_state 2 [] end);
  snapshot ←? inspect_path ports path;
  match ps_kind snapshot with
  | PABSENT =>
      match loaded with None => mret (Ok (current, snapshot)) | Some _ => result changed end
  | PFILE =>
      parsed ←? pure (parse_install_state (ps_content snapshot) path);
      match loaded with
      | Some s => if state_py_eq s parsed then mret (Ok (current, snapshot)) else result changed
      | None => result changed
      end
  | _ => result (install_error INSTALL_CONFLICT "installation state path is not a regular file")
  end.

(** The evidence of the source and the artifact of a marketplace item. *)
Definition install_evidence (source : MarketplaceSourceView) (source_id : SourceId) (revision : string)
    (configured : ConfiguredSource) (indexed : IndexArtifact) : py (SourceEvidence * ArtifactEvidence) :=
  s ← source_evidence (MkSourceEvidence (vw_alias source) source_id (vw_kind source) (vw_origin source)
                         revision (cs_ref configured));
  a ← artifact_evidence (MkArtifactEvidence (ia_identity indexed) (ia_version indexed)
                           (ia_manifest_digest indexed) (ia_payload_digest indexed)
                           (ia_object_digest indexed));
  Ret (s, a).

Definition evidence_provenance (indexed : IndexArtifact) : py (Result (option InstallProvenance)) :=
  match ia_provenance indexed with
  | None => Ret (Ok None)
  | Some p =>
      match git_location_parts (px_origin_url p) with
      | None => Ret (install_error INSTALL_INVALID "artifact provenance origin is not credential-free Git")
      | Some (host, path) =>
          or_value_error
            (Some <$> install_provenance (MkInstallProvenance (host +:+ "/" +:+ path)
                                            (px_resolved_commit p) (px_path p)))
            (λ message, install_error INSTALL_INVALID ("artifact provenance is invalid: " +:+ message))
      end
  end.

(** A mutable-local link stays inside the selected local source. *)
Definition within_source (request : InstallRequest) (configured : ConfiguredSource) : py bool :=
  match iq_mutable_local_payload_root request with
  | None => Ret true
  | Some root =>
      if bool_decide (cs_kind configured = SOURCE_LOCAL) then
        match commonpath (cs_location configured) root with
        | Ret common => Ret (String.eqb common (cs_location configured))
        | Raise (ValueError _) => Ret false
        | Raise e => Raise e
        end
      else Ret false
  end.

(** The facts of the source a plan needs: its identity, revision, snapshot and
    age. *)
Definition source_facts (source : MarketplaceSourceView) :
    option (SourceId * string * ObjectDigest * Z) :=
  match vw_source_id source, vw_resolved_revision source, vw_snapshot_digest source,
        vw_age_seconds source with
  | Some id, Some revision, Some digest, Some age => Some (id, revision, digest, age)
  | _, _, _, _ => None
  end.

Definition PLAN_EFFECTS : list string := ["copy-tree"; "managed-block"; "merge-json"; "write-file"].

(** The item can be installed as requested. *)
Definition check_request (request : InstallRequest) (item : MarketplaceItem)
    (configured : ConfiguredSource) (effective : EffectiveConfiguration) : py (Result unit) :=
  within ← within_source request configured;
  if negb within
  then Ret (install_error INSTALL_POLICY_DENIED
    "mutable-local links require an explicit payload root inside the selected local source")
  else
    allowed ← policy_allows request (trust_value (td_kind (mi_trust item))) effective;
    match allowed with
    | Err ds => Ret (Err ds)
    | Ok _ =>
        target ← compatibility_target (iq_profile request) (iq_platform request) (iq_scope request)
                   (iq_mode request) PLAN_EFFECTS EXECUTABLE_VERSION [] false;
        let decision := evaluate_compatibility (mi_artifact item) target in
        Ret (if decision_compatible decision then Ok tt
             else install_error (MkCode "artifact-incompatible")
                    (join "; " (map cr_message (decision_reasons decision))))
    end.

(** The object of the item, with the package the index describes. *)
Definition load_object (request : InstallRequest) (item : MarketplaceItem) (store_paths : ObjectStorePaths)
    (ports : InstallReadPorts) : effect (Result StoredObject) :=
  let indexed := ma_artifact (mi_artifact item) in
  wanted ← pure (object_read_request store_paths (ia_object_digest indexed));
  loaded ←? read_object ports wanted;
  match loaded with
  | None =>
      result (install_error INSTALL_OBJECT_UNAVAILABLE
        ("verified cached object is unavailable" +:+ (if iq_offline request then " while offline" else "")
         +:+ ": " +:+ coordinate_str (mi_coordinate item)))
  | Some stored =>
      if negb (bool_decide (ob_digest (so_candidate stored) = ia_object_digest indexed))
      then result (install_error INSTALL_INVALID "loaded object does not match marketplace evidence")
      else
        _ ←? pure (validate_object_evidence stored indexed);
        mret (Ok stored)
  end.

(** [f"{scope}/{alias}/{kind}/{name}/{profile}"] *)
Definition install_reference_owner (request : InstallRequest) (item : MarketplaceItem) : string :=
  join "/" [iq_scope request; alias_value (vw_alias (mi_source item));
            kind_value (id_kind (iq_identity request)); id_name (iq_identity request); iq_profile request].

Definition plan_operations (request : InstallRequest) (stored : StoredObject) (profile : Profile)
    (location : InstallLocation) (link_boundary : string) (ports : InstallReadPorts) :
    effect (Result (list InstallOperation)) :=
  paths ←? result (target_paths (id_kind (iq_identity request)) (id_name (iq_identity request)) profile);
  observed ←? observe_targets paths request location ports [];
  actions ←? pure (native_actions request stored profile observed);
  convert_actions request stored location observed ports link_boundary actions.

(** The plan of an item whose source is complete. *)
Definition prepare_item (request : InstallRequest) (item : MarketplaceItem) (configured : ConfiguredSource)
    (source_id : SourceId) (revision : string) (snapshot_digest : ObjectDigest) (age : Z)
    (effective : EffectiveConfiguration) (profile : Profile) (location : InstallLocation)
    (store_paths : ObjectStorePaths) (ports : InstallReadPorts) : effect (Result InstallPlan) :=
  let indexed := ma_artifact (mi_artifact item) in
  stored ←? load_object request item store_paths ports;
  let boundary := match iq_mutable_local_payload_root request with
                  | Some _ => cs_location configured | None => so_root stored end in
  operations ←? plan_operations request stored
                  (profile_for_scope profile (iq_scope request) (il_user_home location))
                  location boundary ports;
  state_paths ← pure (install_state_paths (iq_scope request) (il_project_root location)
                        (il_user_home location) (il_data_root location));
  observed ←? observe_state state_paths ports;
  let '(current, state_snapshot) := observed in
  match conflicts operations current request (mi_coordinate item) with
  | (_ :: _) as found =>
      result (install_error INSTALL_CONFLICT
        ("install destinations contain unowned or drifted content; use force: " +:+ join ", " found))
  | [] =>
      evidence ←? pure (or_value_error
        (install_evidence (mi_source item) source_id revision configured indexed)
        (λ message, install_error INSTALL_INVALID ("install evidence is invalid: " +:+ message)));
      let '(source, artifact) := evidence in
      next ←? pure (replacement_state current request (mi_coordinate item) source artifact operations);
      provenance ←? pure (evidence_provenance indexed);
      pure (or_value_error
        (install_plan
           (MkInstallPlan request (mi_coordinate item) source (health_value (vw_health (mi_source item)))
              age snapshot_digest artifact (trust_value (td_kind (mi_trust item)))
              (td_evidence_digest (mi_trust item))
              (sha256_bytes (organization_policy_bytes (ec_policy effective))) store_paths
              (so_candidate stored) (so_root stored) (ob_digest (so_candidate stored)) provenance
              operations (sp_destination_path state_paths) (sp_lock_path state_paths) state_snapshot
              next (sha256_bytes (install_state_bytes next)) (install_reference_owner request item)
              unreviewed_digest))
        (λ message, install_error INSTALL_INVALID ("canonical install plan is invalid: " +:+ message)))
  end.

Definition prepare_install (request : InstallRequest) (catalog : MarketplaceCatalog)
    (effective : EffectiveConfiguration) (profile : Profile) (location : InstallLocation)
    (store_paths : ObjectStorePaths) (ports : InstallReadPorts) : effect (Result InstallPlan) :=
  query ← pure (artifact_query (iq_identity request) (iq_source request) (iq_version request));
  item ←? result (resolve_artifact catalog query (iq_offline request));
  match find_configured_source effective (vw_alias (mi_source item)), source_facts (mi_source item) with
  | Some configured, Some (source_id, revision, snapshot_digest, age) =>
      _ ←? pure (check_request request item configured effective);
      prepare_item request item configured source_id revision snapshot_digest age effective profile
        location store_paths ports
  | _, _ => result (install_error INSTALL_INVALID
                      "resolved marketplace source is no longer configured/current")
  end.

(** * Finalizing *)

Definition conflicted_outcome (plan : InstallPlan) (detail : string) : InstallOutcome :=
  MkInstallOutcome (ip_review_digest plan) CONFLICTED
    (map (λ o, MkEffectOutcome (operation_kind o) (op_destination o) "skipped" (Some detail))
       (ip_operations plan)) false.

(** The evidence of the item is the plan's. *)
Definition evidence_is_current (plan : InstallPlan) (item : MarketplaceItem) (configured : ConfiguredSource)
    (source_id : SourceId) (revision : string) : py bool :=
  let indexed := ma_artifact (mi_artifact item) in
  evidence ← or_value_error
               (install_evidence (mi_source item) source_id revision configured indexed)
               (λ _, Err []);
  match evidence with
  | Err _ => Ret false
  | Ok (source, artifact) =>
      if negb (bool_decide (source = ip_source plan))
         || negb (artifact_evidence_py_eq artifact (ip_artifact plan))
         || negb (bool_decide (mi_coordinate item = ip_coordinate plan))
      then Ret false
      else
        provenance ← evidence_provenance indexed;
        Ret match provenance with
            | Ok found => bool_decide (found = ip_provenance plan)
            | Err _ => false
            end
  end.

(** Ageing across the freshness threshold changes nothing the reviewer saw;
    degrading does. *)
Definition item_is_current (plan : InstallPlan) (item : MarketplaceItem) (snapshot_digest : ObjectDigest) :
    bool :=
  negb (bool_decide (vw_health (mi_source item) = Marketplace.DEGRADED)
        && negb (String.eqb (ip_source_health plan) "degraded"))
  && bool_decide (snapshot_digest = ip_source_snapshot_digest plan)
  && String.eqb (trust_value (td_kind (mi_trust item))) (ip_trust plan)
  && bool_decide (td_evidence_digest (mi_trust item) = ip_trust_evidence_digest plan).

Definition marketplace_precondition_is_current (plan : InstallPlan) (catalog : MarketplaceCatalog)
    (effective : EffectiveConfiguration) : py bool :=
  if negb (bool_decide (sha256_bytes (organization_policy_bytes (ec_policy effective))
                        = ip_policy_digest plan)) then Ret false
  else
    let wanted := ip_coordinate plan in
    query ← artifact_query (co_artifact wanted) (Some (co_source wanted)) (co_version wanted);
    match resolve_artifact catalog query false with
    | Err _ => Ret false
    | Ok item =>
        let source := mi_source item in
        match find_configured_source effective (vw_alias source), vw_source_id source,
              vw_resolved_revision source, vw_snapshot_digest source with
        | Some configured, Some source_id, Some revision, Some snapshot_digest =>
            if item_is_current plan item snapshot_digest
            then evidence_is_current plan item configured source_id revision
            else Ret false
        | _, _, _, _ => Ret false
        end
    end.

(** The link target of an operation, when it is a link, is what was reviewed. *)
Definition link_is_current (plan : InstallPlan) (o : InstallOperation) (ports : InstallReadPorts) :
    effect (Result bool) :=
  match o with
  | Link l =>
      let boundary := if String.eqb (lk_semantics l) "mutable-local" then se_origin (ip_source plan)
                      else ip_object_root plan in
      target ←? inspect_link_target ports (lk_target l) boundary;
      mret (Ok (bool_decide (target = lk_target_precondition l)))
  | _ => mret (Ok true)
  end.
(** What a loop over the operations finds changed, if anything. *)
Fixpoint changed_operation (plan : InstallPlan) (operations : list InstallOperation)
    (ports : InstallReadPorts) : effect (Result (option string)) :=
  match operations with
  | [] => mret (Ok None)
  | o :: operations =>
      linked ←? link_is_current plan o ports;
      if negb linked then mret (Ok (Some "link target changed after review"))
      else
        current ←? inspect_path ports (op_absolute_destination o);
        if bool_decide (current = op_precondition o) then changed_operation plan operations ports
        else mret (Ok (Some "destination changed after review"))
  end.

Definition finalize_install (plan : InstallPlan) (reviewed_digest : ObjectDigest)
    (catalog : MarketplaceCatalog) (effective : EffectiveConfiguration) (ports : InstallApplyPorts) :
    effect (Result InstallOutcome) :=
  let refused detail := mret (Ok (conflicted_outcome plan detail)) in
  if negb (bool_decide (reviewed_digest = ip_review_digest plan))
  then result (install_error INSTALL_REVIEW_MISMATCH "finalize digest does not match the reviewed plan")
  else
    current ← pure (marketplace_precondition_is_current plan catalog effective);
    if negb current
    then refused "marketplace source, trust, artifact, or organization policy changed after review"
    else
      wanted ← pure (object_read_request (ip_object_store_paths plan) (ip_object_digest plan));
      loaded ←? read_object (ap_read ports) wanted;
      let unchanged := match loaded with
                       | Some stored => bool_decide (so_candidate stored = ip_object_candidate plan)
                                        && String.eqb (so_root stored) (ip_object_root plan)
                       | None => false end in
      if negb unchanged then refused "reviewed immutable object changed or disappeared"
      else
        changed ←? changed_operation plan (ip_operations plan) (ap_read ports);
        match changed with
        | Some detail => refused detail
        | None =>
            state ←? inspect_path (ap_read ports) (ip_state_path plan);
            if bool_decide (state = ip_state_precondition plan)
            then apply_install_plan ports plan
            else refused "installation state changed after review"
        end.
End install.
