(* ===== verification/SetupEngine.v ===== *)
(** [setup_engine/model.py]: a setup bound to the installed object whose recipe
    it runs, to the trust and policy it was reviewed under, and to the state it
    was planned against; and what a run reports. *)
From S2P Require Import Prelude PyText TextSearch Regex Posix Profiles Domain SemVer Json Protocol CompilerModel Configuration InstallState InstallSchema StoreModel Installation InstallPlan PyJson SetupModel SetupRecipe SetupPlan SetupState Effects Redaction Graph Marketplace ConfigSchema ConfigPolicy NativeSchema NativeTree Ports Planning Install SetupRuntime SetupTransaction.
From Stdlib Require Import Ascii.
Open Scope Z_scope.

Record SetupRequest := MkSetupRequest {
  rq_coordinate : ArtifactCoordinate;
  rq_profile : string;
  rq_scope : string;
  rq_authorize_untrusted_source : bool;
  rq_authorize_custom_entrypoint : bool;
  rq_platform : string
}.
#[export] Instance setup_request_eq_dec : EqDecision SetupRequest.
Proof. solve_decision. Defined.

Inductive SetupExecutionStatus : Type :=
  | X_CONFIGURED | X_ALREADY_CONFIGURED | X_CANCELLED | X_SKIPPED | X_UNSUPPORTED | X_PREREQUISITE_MISSING
  | X_APPLY_FAILED_ROLLED_BACK | X_ROLLBACK_INCOMPLETE | X_VERIFICATION_FAILED | X_CONFLICTED | X_FAILED
  | X_ROLLED_BACK.
#[export] Instance setup_execution_status_eq_dec : EqDecision SetupExecutionStatus.
Proof. solve_decision. Defined.
Definition execution_status_value (s : SetupExecutionStatus) : string :=
  match s with
  | X_CONFIGURED => "configured" | X_ALREADY_CONFIGURED => "already-configured"
  | X_CANCELLED => "cancelled" | X_SKIPPED => "skipped" | X_UNSUPPORTED => "unsupported"
  | X_PREREQUISITE_MISSING => "prerequisite-missing"
  | X_APPLY_FAILED_ROLLED_BACK => "apply-failed-rolled-back"
  | X_ROLLBACK_INCOMPLETE => "rollback-incomplete" | X_VERIFICATION_FAILED => "verification-failed"
  | X_CONFLICTED => "conflicted" | X_FAILED => "failed" | X_ROLLED_BACK => "rolled-back"
  end.
Definition is_success (s : SetupExecutionStatus) : bool :=
  match s with X_CONFIGURED | X_ALREADY_CONFIGURED => true | _ => false end.

Record CanonicalSetupPlan := MkCanonicalPlan {
  cp_request : SetupRequest;
  cp_installation : InstallationRecord;
  cp_install_state_path : string;
  cp_install_state_lock_path : string;
  cp_trust : string;
  cp_trust_evidence_digest : ObjectDigest;
  cp_policy_digest : ObjectDigest;
  cp_object_store_paths : ObjectStorePaths;
  cp_object_candidate : ObjectCandidate;
  cp_object_root : string;
  cp_object_digest : ObjectDigest;
  cp_recipe_path : SafeRelativePath;
  cp_recipe_digest : ObjectDigest;
  cp_custom_entrypoint_path : option SafeRelativePath;
  cp_custom_entrypoint_digest : option ObjectDigest;
  cp_capabilities : list Capability;
  cp_capability_plan_digest : ObjectDigest;
  cp_legacy_plan : SetupPlan;
  cp_setup_state_ref : string;
  cp_setup_state_path : string;
  cp_setup_state_precondition : PathSnapshot;
  cp_previous_record : option SetupStateRecord;
  cp_setup_reference_owner : string;
  cp_setup_reference_precondition : list ObjectDigest;
  cp_review_digest : ObjectDigest
}.
Record SetupOutcome := MkSetupOutcome {
  so_coordinate : ArtifactCoordinate;
  so_profile : string;
  so_scope : string;
  so_setup_status : SetupExecutionStatus;
  so_detail : string;
  so_review_digest : ObjectDigest;
  so_setup_state_ref : string;
  so_state_written : bool;
  so_record : option SetupStateRecord
}.
(** [SetupOutcome.successful] and [key] *)
Definition successful (o : SetupOutcome) : bool := is_success (so_setup_status o).
Definition outcome_key (o : SetupOutcome) : string * string * string :=
  (coordinate_str (so_coordinate o), so_profile o, so_scope o).

Section model.
Context `{UnicodeData} `{DecodeErrors} `{IpAddress}.

(** [SetupRequest(...)] *)
Definition setup_request (r : SetupRequest) : py SetupRequest :=
  _ ← raise_if (bool_decide (co_version (rq_coordinate r) ≠ None)
                || negb (fullmatch slug_re (rq_profile r))
                || negb (mem (rq_scope r) ["project"; "user"])
                || str_empty (rq_platform r) || negb (String.eqb (rq_platform r) (strip (rq_platform r)))
                || has_char creturn (rq_platform r) || has_char newline (rq_platform r))
        "canonical setup request is invalid";
  Ret r.

(** * The reviewed text *)

Definition installation_digest (record : InstallationRecord) : py ObjectDigest :=
  state ← install_state 2 [record];
  Ret (sha256_bytes (install_state_bytes state)).
Definition setup_snapshot_json (s : PathSnapshot) : JsonValue :=
  json_object [("path", JStr (ps_path s)); ("kind", JStr (path_kind_value (ps_kind s)));
               ("digest", match ps_digest s with Some d => digest_json d | None => JNull end)].
Definition capability_value (capabilities : list Capability) (plan_hash : string) : JsonValue :=
  json_object [("capabilities", JsonArray (map (λ c, JStr (cap_value c)) capabilities));
               ("effect_plan_digest", JStr ("sha256:" +:+ plan_hash))].
Definition setup_review_value (p : CanonicalSetupPlan) : py JsonValue :=
  let r := cp_request p in
  installed ← installation_digest (cp_installation p);
  Ret (json_object
    [("schema_version", JInt 1); ("coordinate", JStr (coordinate_str (rq_coordinate r)));
     ("profile", JStr (rq_profile r)); ("scope", JStr (rq_scope r)); ("platform", JStr (rq_platform r));
     ("authorize_untrusted_source", JBool (rq_authorize_untrusted_source r));
     ("authorize_custom_entrypoint", JBool (rq_authorize_custom_entrypoint r));
     ("installation_digest", digest_json installed); ("trust", JStr (cp_trust p));
     ("trust_evidence_digest", digest_json (cp_trust_evidence_digest p));
     ("policy_digest", digest_json (cp_policy_digest p));
     ("object_digest", digest_json (cp_object_digest p)); ("object_root", JStr (cp_object_root p));
     ("recipe_path", JStr (path_str (cp_recipe_path p))); ("recipe_digest", digest_json (cp_recipe_digest p));
     ("custom_entrypoint_path",
      match cp_custom_entrypoint_path p with Some q => JStr (path_str q) | None => JNull end);
     ("custom_entrypoint_digest",
      match cp_custom_entrypoint_digest p with Some d => digest_json d | None => JNull end);
     ("capabilities", JsonArray (map (λ c, JStr (cap_value c)) (cp_capabilities p)));
     ("capability_plan_digest", digest_json (cp_capability_plan_digest p));
     ("effect_plan_digest", JStr ("sha256:" +:+ pl_plan_hash (cp_legacy_plan p)));
     ("target_root", JStr (pl_target_root (cp_legacy_plan p)));
     ("home_root", JStr (pl_home_root (cp_legacy_plan p)));
     ("run_root", JStr (pl_run_root (cp_legacy_plan p)));
     ("setup_state_ref", JStr (cp_setup_state_ref p)); ("setup_state_path", JStr (cp_setup_state_path p));
     ("setup_state_precondition", setup_snapshot_json (cp_setup_state_precondition p));
     ("setup_reference_owner", JStr (cp_setup_reference_owner p));
     ("setup_reference_precondition",
      JsonArray (map digest_json (cp_setup_reference_precondition p)))]).

(** [CanonicalSetupPlan(...)]: its parts agree, and its digest is that of the
    reviewed text, or a placeholder while it is being built. *)
Definition PLACEHOLDER : ObjectDigest := sha256_bytes "unreviewed-setup-plan".
Definition expected_custom_path (p : CanonicalSetupPlan) : option SafeRelativePath :=
  match si_custom_entrypoint (qi_installer (pl_item (cp_legacy_plan p))) with
  | None => None
  | Some name => Some (MkPath (removelast (sp_parts (cp_recipe_path p)) ++ [name]))
  end.
Definition parts_agree (p : CanonicalSetupPlan) : bool :=
  let r := cp_request p in
  let record := cp_installation p in
  let plan := cp_legacy_plan p in
  let item := pl_item plan in
  let installer := qi_installer item in
  let store := cp_object_store_paths p in
  let digest := cp_object_digest p in
  bool_decide (in_coordinate record = rq_coordinate r)
  && String.eqb (in_profile record) (rq_profile r) && String.eqb (in_scope record) (rq_scope r)
  && bool_decide (ae_object_digest (in_artifact record) = digest)
  && bool_decide (ob_digest (cp_object_candidate p) = digest)
  && String.eqb (cp_object_root p)
       (pjoins (os_objects store) [str_take 2 (dg_value digest); str_drop 2 (dg_value digest)])
  && String.eqb (pl_run_root plan) (os_root store)
  && String.eqb (dg_value (cp_recipe_digest p)) (si_descriptor_hash installer)
  && String.eqb (si_descriptor_path installer) (path_str (cp_recipe_path p))
  && String.eqb (qi_source_root item) (cp_object_root p)
  && String.eqb (qi_source_label item) (alias_value (co_source (in_coordinate record)))
  && String.eqb (qi_artifact_type item) (kind_value (id_kind (ae_identity (in_artifact record))))
  && String.eqb (qi_artifact_name item) (id_name (ae_identity (in_artifact record)))
  && String.eqb (qi_profile item) (in_profile record) && String.eqb (qi_scope item) (in_scope record)
  && bool_decide (is_Some (cp_custom_entrypoint_path p) ↔ is_Some (cp_custom_entrypoint_digest p))
  && bool_decide (cp_custom_entrypoint_path p = expected_custom_path p)
  && match cp_custom_entrypoint_digest p with
     | Some d => String.eqb (dg_value d) (default "" (si_custom_hash installer)) | None => true end
  && bool_decide (sorted_set cap_value (cp_capabilities p) = cp_capabilities p)
  && bool_decide (cp_capability_plan_digest p
                  = json_digest (capability_value (sorted_set cap_value (cp_capabilities p))
                                   (pl_plan_hash plan)))
  && mem (cp_trust p) TRUST_CLASSES
  && fullmatch SETUP_STATE_REF (cp_setup_state_ref p)
  && String.eqb (cp_setup_reference_owner p) ("setup/" +:+ cp_setup_state_ref p)
  && isabs (cp_install_state_path p) && isabs (cp_install_state_lock_path p)
  && isabs (cp_setup_state_path p)
  && String.eqb (cp_setup_state_path p)
       (pjoins (os_root store) ["state"; "setup"; cp_setup_state_ref p +:+ ".json"])
  && String.eqb (ps_path (cp_setup_state_precondition p)) (cp_setup_state_path p)
  && bool_decide (sorted_set digest_str (cp_setup_reference_precondition p)
                  = cp_setup_reference_precondition p).
Definition canonical_setup_plan (p : CanonicalSetupPlan) : py CanonicalSetupPlan :=
  review ← setup_review_value p;
  _ ← raise_if (negb (parts_agree p)
                || negb (bool_decide (cp_review_digest p = PLACEHOLDER)
                         || bool_decide (cp_review_digest p = json_digest review)))
        "canonical setup plan is invalid";
  Ret p.
Definition with_review (p : CanonicalSetupPlan) (d : ObjectDigest) : CanonicalSetupPlan :=
  MkCanonicalPlan (cp_request p) (cp_installation p) (cp_install_state_path p)
    (cp_install_state_lock_path p) (cp_trust p) (cp_trust_evidence_digest p) (cp_policy_digest p)
    (cp_object_store_paths p) (cp_object_candidate p) (cp_object_root p) (cp_object_digest p)
    (cp_recipe_path p) (cp_recipe_digest p) (cp_custom_entrypoint_path p) (cp_custom_entrypoint_digest p)
    (cp_capabilities p) (cp_capability_plan_digest p) (cp_legacy_plan p) (cp_setup_state_ref p)
    (cp_setup_state_path p) (cp_setup_state_precondition p) (cp_previous_record p)
    (cp_setup_reference_owner p) (cp_setup_reference_precondition p) d.

(** [SetupOutcome(...)] *)
Definition setup_outcome (o : SetupOutcome) : py SetupOutcome :=
  _ ← raise_if (negb (fullmatch slug_re (so_profile o)) || negb (mem (so_scope o) ["project"; "user"])
                || has_char creturn (so_detail o) || has_char newline (so_detail o)
                || negb (fullmatch SETUP_STATE_REF (so_setup_state_ref o)))
        "canonical setup outcome is invalid";
  Ret o.
(** [SetupQueueOutcome(...)], whose items are the value, and its counts *)
Definition setup_queue_outcome (items : list SetupOutcome) : py (list SetupOutcome) :=
  _ ← raise_if (has_dups (map outcome_key items)) "setup queue outcomes must have unique item identities";
  Ret items.
(** [payload_installed]: the payload of every item is installed. *)
Definition payload_installed (items : list SetupOutcome) : Z := Z.of_nat (length items).
Definition configured (items : list SetupOutcome) : Z := Z.of_nat (length (List.filter successful items)).
Definition incomplete (items : list SetupOutcome) : Z := Z.of_nat (length items) - configured items.
End model.

(** [setup_engine/application.py]: preparing a setup from an installed object,
    running only what was reviewed, one item after the other, and rolling back.

    A run calls the ports of the installation and of the setup state, and the
    machine of [SetupRuntime].  An answer of either may depend on all that
    happened before: the state holds the calls made, each with the machine it
    was made in, and the machine. *)


Definition SETUP_INVALID := MkCode "setup-invalid".
Definition SETUP_OBJECT_UNAVAILABLE := MkCode "setup-object-unavailable".
Definition SETUP_POLICY_DENIED := MkCode "setup-policy-denied".
Definition SETUP_REVIEW_MISMATCH := MkCode "setup-review-mismatch".

Inductive setup_call : Type :=
  | CReadState (path : string) (answer : Result (option InstallState))
  | CReadObject (request : ObjectReadRequest) (answer : Result (option StoredObject))
  | CInspectPath (path : string) (answer : Result PathSnapshot)
  | CReadReferences (paths : ObjectStorePaths) (answer : Result ReferenceIndex)
  | CPersist (plan : CanonicalSetupPlan) (record : SetupStateRecord) (expected : option SetupStateRecord)
      (answer : Result unit)
  | CItemStart (position total : Z) (plan : CanonicalSetupPlan).
Record engine := MkEngine { en_calls : list (machine * setup_call); en_machine : machine }.

(** [SetupReadPorts] and [SetupApplyPorts] *)
Record SetupPorts := MkSetupPorts {
  pt_read_state : engine → string → Result (option InstallState);
  pt_read_object : engine → ObjectReadRequest → Result (option StoredObject);
  pt_inspect_path : engine → string → Result PathSnapshot;
  pt_read_references : engine → ObjectStorePaths → Result ReferenceIndex;
  pt_persist_setup : engine → CanonicalSetupPlan → SetupStateRecord → option SetupStateRecord → Result unit
}.

(** [_redact]: [str.split()] joined by single spaces, cut at 512 characters. *)
Section words.
Context `{UnicodeData}.
Fixpoint words_from (word : string) (cps : list string) : list string :=
  match cps with
  | [] => if str_empty word then [] else [word]
  | c :: cps =>
      if is_space c then if str_empty word then words_from "" cps else word :: words_from "" cps
      else words_from (word +:+ c) cps
  end.
Definition words (s : string) : list string := words_from "" (code_points s).
Definition bounded_text (value : string) : string := take_chars 512 (join " " (words (redact_text value))).
(** [_error] *)
Definition setup_error {A} (code : DiagnosticCode) (message : string) (remediation : list string) : Result A :=
  fail1 (diagnostic code ERROR (bounded_text message) None (map bounded_text remediation) []).
End words.

(** [SetupStateRecord.__eq__] *)
Definition record_texts (r : SetupStateRecord) : list string :=
  [sr_artifact_type r; sr_artifact_name r; sr_profile r; sr_scope r; sr_status r; sr_detail r;
   sr_source_label r; sr_installer_path r; sr_installer_hash r; sr_custom_hash r; sr_plan_hash r;
   sr_started_at r; sr_finished_at r; sr_retry_command r; sr_rollback_command r; sr_receipt_path r;
   sr_object_digest r; sr_recipe_digest r; sr_trust r; sr_trust_evidence_digest r; sr_policy_digest r;
   sr_capability_plan_digest r; sr_canonical_review_digest r; sr_setup_state_ref r].
Definition setup_record_py_eq `{PyNumbers} (a b : SetupStateRecord) : bool :=
  bool_decide (record_texts a = record_texts b)
  && (sr_schema_version a =? sr_schema_version b) && (sr_protocol_version a =? sr_protocol_version b)
  && py_eq (sr_exit_status a) (sr_exit_status b)
  && list_py_eq (λ r s : receipt, py_eq (VDict r) (VDict s)) (sr_receipt a) (sr_receipt b).

Section engine.
Context `{UnicodeData} `{DecodeErrors} `{IpAddress : Configuration.IpAddress} `{PyNumbers} `{WorkingDirectory}.
Context (ports : SetupPorts) (world : engine → ∀ R, trace → op R → py R) (rt : SetupRuntime).
Abbreviation engine_m := (st engine).

(** A call of a port, and a computation of the machine. *)
Definition ask {R} (answer : engine → R) (event : R → setup_call) : engine_m R :=
  λ s, let r := answer s in (Ret r, MkEngine (en_calls s ++ [(en_machine s, event r)]) (en_machine s)).
Definition on_machine {A} (m : (∀ R, trace → op R → py R) → st machine A) : engine_m A :=
  λ s, let '(r, m') := m (world s) (en_machine s) in (r, MkEngine (en_calls s) m').
Definition read_state (path : string) : engine_m (Result (option InstallState)) :=
  ask (λ s, pt_read_state ports s path) (CReadState path).
Definition read_object (request : ObjectReadRequest) : engine_m (Result (option StoredObject)) :=
  ask (λ s, pt_read_object ports s request) (CReadObject request).
Definition inspect_path (path : string) : engine_m (Result PathSnapshot) :=
  ask (λ s, pt_inspect_path ports s path) (CInspectPath path).
Definition read_references (paths : ObjectStorePaths) : engine_m (Result ReferenceIndex) :=
  ask (λ s, pt_read_references ports s paths) (CReadReferences paths).
Definition persist_setup (plan : CanonicalSetupPlan) (record : SetupStateRecord)
    (expected : option SetupStateRecord) : engine_m (Result unit) :=
  ask (λ s, pt_persist_setup ports s plan record expected) (CPersist plan record expected).


(** * The evidence of the installed object *)

(** [_marketplace_evidence] *)
Definition marketplace_evidence (item : MarketplaceItem) (effective : EffectiveConfiguration) :
    py (option (SourceEvidence * ArtifactEvidence)) :=
  let source := mi_source item in
  match find_configured_source effective (vw_alias source), vw_source_id source, vw_resolved_revision source with
  | Some configured, Some source_id, Some revision =>
      match install_evidence source source_id revision configured (mi_index item) with
      | Ret evidence => Ret (Some evidence)
      | Raise (ValueError _) => Ret None
      | Raise e => Raise e
      end
  | _, _, _ => Ret None
  end.
Definition evidence_matches (evidence : option (SourceEvidence * ArtifactEvidence)) (record : InstallationRecord) :
    bool :=
  match evidence with
  | None => false
  | Some (source, artifact) =>
      bool_decide (source = in_source record) && artifact_evidence_py_eq artifact (in_artifact record)
  end.
(** [_resolve_installed_item] *)
Definition resolve_installed_item (record : InstallationRecord) (catalog : MarketplaceCatalog)
    (effective : EffectiveConfiguration) : py (Result MarketplaceItem) :=
  query ← artifact_query (ae_identity (in_artifact record)) (Some (co_source (in_coordinate record)))
            (Some (semver_str (ae_version (in_artifact record))));
  match resolve_artifact catalog query false with
  | Err ds => Ret (Err ds)
  | Ok item =>
      evidence ← marketplace_evidence item effective;
      Ret (if evidence_matches evidence record then Ok item
           else setup_error SETUP_INVALID
                  "installed artifact source or object evidence no longer matches the marketplace" [])
  end.

(** [_selected_record] *)
Definition selected_record (state : InstallState) (request : SetupRequest) : option InstallationRecord :=
  List.find (λ r, bool_decide (in_coordinate r = rq_coordinate request)
                  && String.eqb (in_profile r) (rq_profile request)
                  && String.eqb (in_scope r) (rq_scope request)) (st_installations state).

(** * The recipe of the object *)

Record RecipeFacts := MkRecipeFacts {
  rc_manifest : ArtifactManifest;
  rc_reference : SetupReference;
  rc_entry : SnapshotEntry;
  rc_installer : SetupInstaller;
  rc_custom : option (SafeRelativePath * SnapshotEntry)
}.
Definition entries_by_path (entries : list SnapshotEntry) : list (string * SnapshotEntry) :=
  dict_of (map (λ e, (path_str (se_path e), e)) entries).
Definition regular_entry (by_path : list (string * SnapshotEntry)) (path : SafeRelativePath) :
    option SnapshotEntry :=
  match dget (path_str path) by_path with
  | Some e => if bool_decide (CompilerModel.se_kind e = SFILE) then Some e else None
  | None => None
  end.
Definition custom_entry (by_path : list (string * SnapshotEntry)) (reference : SetupReference)
    (installer : SetupInstaller) : Result (option (SafeRelativePath * SnapshotEntry)) :=
  match si_custom_entrypoint installer with
  | None => Ok None
  | Some name =>
      match parse_relative_path (pjoin (dirname (path_str (sr_recipe reference))) name) None with
      | Err _ => setup_error SETUP_INVALID "custom setup entrypoint path is invalid" []
      | Ok path =>
          let refused := setup_error SETUP_INVALID
                           "custom setup entrypoint must be an executable regular object file" [] in
          match regular_entry by_path path with
          | Some e => if se_executable e then Ok (Some (path, e)) else refused
          | None => refused
          end
      end
  end.
(** [_setup_recipe] *)
Definition setup_recipe (stored : StoredObject) (record : InstallationRecord) : py (Result RecipeFacts) :=
  let artifact := in_artifact record in
  let entries := ob_entries (so_candidate stored) in
  compiled ← compile_native_package entries (Some (ae_identity artifact));
  Ret match compiled with
  | Err ds =>
      let detail := match ds with d :: _ => d_message d | [] => "invalid package" end in
      setup_error SETUP_INVALID ("canonical setup package is invalid: " +:+ detail) []
  | Ok package =>
      let manifest := np_manifest package in
      let refused := setup_error SETUP_INVALID
        "installed object manifest identity, digest, or setup declaration is invalid" [] in
      match am_setup manifest with
      | None => refused
      | Some reference =>
          if negb (same_precedence (am_version manifest) (ae_version artifact))
             || negb (bool_decide (np_manifest_digest package = ae_manifest_digest artifact))
          then refused
          else
            let by_path := entries_by_path entries in
            match regular_entry by_path (sr_recipe reference), np_setup_installer package with
            | None, _ => setup_error SETUP_INVALID "declared setup recipe is not a regular object file" []
            | Some _, None => setup_error SETUP_INVALID "declared setup recipe did not compile" []
            | Some entry, Some installer =>
                custom ← custom_entry by_path reference installer;
                Ok (MkRecipeFacts manifest reference entry installer custom)
            end
      end
  end.

(** [_manual_source_url] *)
Definition manual_source_url (source : SourceEvidence) (identity : ArtifactIdentity) : string :=
  if bool_decide (InstallState.se_kind source = SOURCE_LOCAL) then ""
  else
    let parts := match git_location_parts (se_origin source) with
                 | Some parts => Some parts
                 | None => git_location_parts ("https://" +:+ se_origin source)
                 end in
    match parts with
    | None => ""
    | Some (host, repository) =>
        "https://" +:+ host +:+ "/" +:+ repository +:+ "/blob/" +:+ se_resolved_commit source +:+ "/artifacts/"
        +:+ kind_value (id_kind identity) +:+ "/" +:+ id_name identity
    end.
Definition capabilities_of (installer : SetupInstaller) : list Capability :=
  map MkCapability (SetupRecipe.planned_capabilities installer).

(** [_policy_allows] *)
Definition missing_capabilities (capabilities : list Capability) (effective : EffectiveConfiguration) :
    list Capability :=
  match op_allowed_setup_capabilities (ec_policy effective) with
  | None => []
  | Some allowed => List.filter (λ c, negb (mem c allowed)) capabilities
  end.
Definition setup_policy_allows (request : SetupRequest) (trust : TrustClass) (capabilities : list Capability)
    (custom : bool) (effective : EffectiveConfiguration) : Result unit :=
  if mem (trust_value trust) ["unverified"; "local"; "direct-source"]
     && negb (rq_authorize_untrusted_source request)
  then setup_error SETUP_POLICY_DENIED
         ("setup from " +:+ trust_value trust +:+ " requires explicit source authorization")
         ["re-run setup with --authorize-untrusted-source"]
  else match missing_capabilities capabilities effective with
  | (_ :: _) as missing =>
      setup_error SETUP_POLICY_DENIED
        ("setup capability denied by organization policy: " +:+ join ", " (map cap_value missing))
        ["ask the organization policy owner to allow the named setup capabilities"]
  | [] =>
      if custom && negb (rq_authorize_custom_entrypoint request)
      then setup_error SETUP_POLICY_DENIED "custom setup entrypoint requires explicit authorization"
             ["re-run setup with --authorize-custom-entrypoint"]
      else if custom && bool_decide (op_allow_custom_setup_entrypoints (ec_policy effective) = Some false)
      then setup_error SETUP_POLICY_DENIED "custom setup entrypoints are denied by organization policy"
             ["use the verified manual setup route or ask the organization policy owner"]
      else Ok tt
  end.

(** [_previous_record] *)
Definition previous_record (snapshot : PathSnapshot) : py (Result (option SetupStateRecord)) :=
  match ps_kind snapshot with
  | PABSENT => Ret (Ok None)
  | PFILE =>
      if negb (valid_utf8 (ps_content snapshot))
      then Ret (setup_error SETUP_INVALID "setup state is not UTF-8" [])
      else
        parsed ← parse_setup_state (ps_content snapshot);
        Ret match parsed with
            | inr [record] => Ok (Some record)
            | inr _ => setup_error SETUP_INVALID "setup state is invalid: expected one setup record" []
            | inl reason => setup_error SETUP_INVALID ("setup state is invalid: " +:+ reason) []
            end
  | _ => Ret (setup_error SETUP_INVALID "setup state path is not a regular file" [])
  end.

(** * Preparing *)

(** [_SetupObject] *)
Record SetupObject := MkSetupObject {
  ob_state_paths : InstallStatePaths;
  ob_record : InstallationRecord;
  ob_item : MarketplaceItem;
  ob_stored : StoredObject;
  ob_recipe : RecipeFacts;
  ob_queue_item : SetupQueueItem
}.
Definition queue_item_of (record : InstallationRecord) (stored : StoredObject) (installer : SetupInstaller) :
    SetupQueueItem :=
  let artifact := in_artifact record in
  let identity := ae_identity artifact in
  MkQueueItem (kind_value (id_kind identity)) (id_name identity) (in_profile record) (in_scope record)
    (alias_value (co_source (in_coordinate record))) (StoreModel.so_root stored) installer
    (manual_source_url (in_source record) identity) (semver_str (ae_version artifact)).
(** [_prepare_setup_object] *)
Definition prepare_setup_object (request : SetupRequest) (catalog : MarketplaceCatalog)
    (effective : EffectiveConfiguration) (location : InstallLocation) (store_paths : ObjectStorePaths) :
    engine_m (Result SetupObject) :=
  state_paths ← pure (install_state_paths (rq_scope request) (il_project_root location)
                        (il_user_home location) (il_data_root location));
  state ←? read_state (sp_destination_path state_paths);
  match state with
  | None => result (setup_error SETUP_INVALID "setup requires an installed payload" [])
  | Some state =>
      match selected_record state request with
      | None => result (setup_error SETUP_INVALID "setup requires the selected installed artifact/profile" [])
      | Some record =>
          item ←? pure (resolve_installed_item record catalog effective);
          let digest := ae_object_digest (in_artifact record) in
          wanted ← pure (object_read_request store_paths digest);
          loaded ←? read_object wanted;
          match loaded with
          | None =>
              result (setup_error SETUP_OBJECT_UNAVAILABLE
                ("installed setup object is unavailable: " +:+ coordinate_str (in_coordinate record)) [])
          | Some stored =>
              if negb (bool_decide (ob_digest (so_candidate stored) = digest))
              then result (setup_error SETUP_INVALID "loaded setup object digest is invalid" [])
              else
                recipe ←? pure (setup_recipe stored record);
                mret (Ok (MkSetupObject state_paths record item stored recipe
                            (queue_item_of record stored (rc_installer recipe))))
          end
      end
  end.

(** The setup the index describes is that of the object. *)
Definition indexed_setup_matches (item : MarketplaceItem) (reference : SetupReference)
    (capabilities : list Capability) : bool :=
  match ia_setup (mi_index item) with
  | None => false
  | Some indexed =>
      bool_decide (ix_recipe indexed = sr_recipe reference)
      && bool_decide (ix_platforms indexed = sr_platforms reference)
      && (bool_decide (ix_capabilities indexed = []) || bool_decide (ix_capabilities indexed = capabilities))
  end.
(** What a setup owns of the references. *)
Definition owned_by (owner : string) (references : ReferenceIndex) : list ObjectDigest :=
  sorted digest_str
    (map rf_digest (List.filter (λ r, bool_decide (rf_kind r = SETUP) && String.eqb (rf_owner r) owner)
                      (ri_references references))).
Definition setup_identity (request : SetupRequest) (state_path : string) : ObjectDigest :=
  json_digest (json_object
    [("coordinate", JStr (coordinate_str (rq_coordinate request))); ("profile", JStr (rq_profile request));
     ("scope", JStr (rq_scope request)); ("install_state_path", JStr state_path)]).
Definition policy_digest_of (effective : EffectiveConfiguration) : ObjectDigest :=
  sha256_bytes (organization_policy_bytes (ec_policy effective)).
(** The plan and its review: [replace(plan, review_digest=...)] constructs it again. *)
Definition reviewed_plan (plan : CanonicalSetupPlan) : py (Result CanonicalSetupPlan) :=
  or_value_error
    (plan ← canonical_setup_plan plan;
     review ← setup_review_value plan;
     canonical_setup_plan (with_review plan (json_digest review)))
    (λ message, setup_error SETUP_INVALID ("canonical setup plan is invalid: " +:+ message) []).
(** [_prepare_setup_plan] *)
Definition prepare_setup_plan (prepared : SetupObject) (request : SetupRequest)
    (effective : EffectiveConfiguration) (location : InstallLocation) (store_paths : ObjectStorePaths) :
    engine_m (Result CanonicalSetupPlan) :=
  let record := ob_record prepared in
  let trust := mi_trust (ob_item prepared) in
  let recipe := ob_recipe prepared in
  let candidate := so_candidate (ob_stored prepared) in
  let target_root := if String.eqb (rq_scope request) "project" then il_project_root location
                     else il_user_home location in
  legacy_plan ← pure (plan_setup (ob_queue_item prepared) target_root (rq_platform request)
                        (Some (il_user_home location)) (Some (il_data_root location)));
  let capabilities := capabilities_of (rc_installer recipe) in
  if negb (indexed_setup_matches (ob_item prepared) (rc_reference recipe) capabilities)
  then result (setup_error SETUP_INVALID
         "compiled setup recipe, platform, or capability evidence does not match the object" [])
  else
    _ ←? result (setup_policy_allows request (td_kind trust) capabilities
                   (bool_decide (is_Some (rc_custom recipe))) effective);
    let identity := setup_identity request (sp_destination_path (ob_state_paths prepared)) in
    let setup_state_ref := "setup-" +:+ str_take 48 (dg_value identity) in
    let state_path := pjoins (il_data_root location) ["state"; "setup"; setup_state_ref +:+ ".json"] in
    let owner := "setup/" +:+ setup_state_ref in
    snapshot ←? inspect_path state_path;
    previous ←? pure (previous_record snapshot);
    references ←? read_references store_paths;
    pure (reviewed_plan
      (MkCanonicalPlan request record (sp_destination_path (ob_state_paths prepared))
         (sp_lock_path (ob_state_paths prepared)) (trust_value (td_kind trust)) (td_evidence_digest trust)
         (policy_digest_of effective) store_paths candidate (StoreModel.so_root (ob_stored prepared))
         (ob_digest candidate) (sr_recipe (rc_reference recipe)) (sha256_bytes (se_content (rc_entry recipe)))
         (fst <$> rc_custom recipe) ((λ c, sha256_bytes (se_content c.2)) <$> rc_custom recipe) capabilities
         (json_digest (capability_value capabilities (pl_plan_hash legacy_plan))) legacy_plan setup_state_ref
         state_path snapshot previous owner (owned_by owner references) PLACEHOLDER)).
(** [prepare_setup_attempt], a result and the manual route; [prepare_setup] *)
Definition prepare_setup_attempt (request : SetupRequest) (catalog : MarketplaceCatalog)
    (effective : EffectiveConfiguration) (location : InstallLocation) (store_paths : ObjectStorePaths) :
    engine_m (Result CanonicalSetupPlan * option SetupManualReference) :=
  prepared ← prepare_setup_object request catalog effective location store_paths;
  match prepared with
  | Err ds => mret (Err ds, None)
  | Ok prepared =>
      plan ← prepare_setup_plan prepared request effective location store_paths;
      manual ← pure (manual_reference (ob_queue_item prepared));
      mret (plan, Some manual)
  end.
Definition prepare_setup (request : SetupRequest) (catalog : MarketplaceCatalog)
    (effective : EffectiveConfiguration) (location : InstallLocation) (store_paths : ObjectStorePaths) :
    engine_m (Result CanonicalSetupPlan) :=
  attempt ← prepare_setup_attempt request catalog effective location store_paths;
  mret attempt.1.

(** * What was reviewed is still current *)

(** [_selected_state_matches] *)
Definition selected_state_matches (plan : CanonicalSetupPlan) : engine_m bool :=
  state ← read_state (cp_install_state_path plan);
  mret match state with
       | Ok (Some state) =>
           match selected_record state (cp_request plan) with
           | Some record => record_py_eq record (cp_installation plan)
           | None => false
           end
       | _ => false
       end.
Definition trust_current (plan : CanonicalSetupPlan) (catalog : MarketplaceCatalog)
    (effective : EffectiveConfiguration) : py bool :=
  current ← resolve_installed_item (cp_installation plan) catalog effective;
  Ret match current with
      | Ok item =>
          String.eqb (trust_value (td_kind (mi_trust item))) (cp_trust plan)
          && bool_decide (td_evidence_digest (mi_trust item) = cp_trust_evidence_digest plan)
      | Err _ => false
      end.
Definition object_current (plan : CanonicalSetupPlan) : engine_m bool :=
  wanted ← pure (object_read_request (cp_object_store_paths plan) (cp_object_digest plan));
  loaded ← read_object wanted;
  mret match loaded with
       | Ok (Some stored) =>
           bool_decide (so_candidate stored = cp_object_candidate plan)
           && String.eqb (StoreModel.so_root stored) (cp_object_root plan)
       | _ => false
       end.
Definition state_current (plan : CanonicalSetupPlan) : engine_m bool :=
  snapshot ← inspect_path (cp_setup_state_path plan);
  mret match snapshot with
       | Ok snapshot => bool_decide (snapshot = cp_setup_state_precondition plan) | Err _ => false end.
Definition references_current (plan : CanonicalSetupPlan) : engine_m bool :=
  references ← read_references (cp_object_store_paths plan);
  mret match references with
       | Ok references =>
           bool_decide (owned_by (cp_setup_reference_owner plan) references
                        = cp_setup_reference_precondition plan)
       | Err _ => false
       end.
(** [if not m: return False], then the rest. *)
Definition and_then (m k : engine_m bool) : engine_m bool :=
  b ← m; if (b : bool) then k else mret false.
(** [_preconditions_current] *)
Definition preconditions_current (plan : CanonicalSetupPlan) (catalog : MarketplaceCatalog)
    (effective : EffectiveConfiguration) : engine_m bool :=
  if negb (bool_decide (policy_digest_of effective = cp_policy_digest plan)) then mret false
  else
    and_then (pure (trust_current plan catalog effective))
      (and_then (object_current plan)
         (and_then (selected_state_matches plan)
            (and_then (state_current plan) (references_current plan)))).

(** * Running what was reviewed *)

(** [_LEGACY_STATUS[status]] *)
Definition legacy_status (status : string) : py SetupExecutionStatus :=
  let known := [("configured", X_CONFIGURED); ("already_configured", X_ALREADY_CONFIGURED);
                ("cancelled", X_CANCELLED); ("skipped", X_SKIPPED); ("unsupported", X_UNSUPPORTED);
                ("prerequisite_missing", X_PREREQUISITE_MISSING);
                ("apply_failed_rolled_back", X_APPLY_FAILED_ROLLED_BACK);
                ("rollback_incomplete", X_ROLLBACK_INCOMPLETE);
                ("verification_failed", X_VERIFICATION_FAILED)] in
  match dget status known with Some s => Ret s | None => Raise (KeyError status) end.
(** [_outcome] *)
Definition outcome (plan : CanonicalSetupPlan) (status : SetupExecutionStatus) (detail : string)
    (state_written : bool) (record : option SetupStateRecord) : py SetupOutcome :=
  let request := cp_request plan in
  setup_outcome (MkSetupOutcome (rq_coordinate request) (rq_profile request) (rq_scope request) status
                   (bounded_text detail) (cp_review_digest plan) (cp_setup_state_ref plan) state_written record).
(** [_bound_record] *)
Definition bound_record (plan : CanonicalSetupPlan) (r : SetupStateRecord) : SetupStateRecord :=
  MkStateRecord (sr_artifact_type r) (sr_artifact_name r) (sr_profile r) (sr_scope r) (sr_status r)
    (sr_detail r) (sr_source_label r) (sr_installer_path r) (sr_installer_hash r) (sr_custom_hash r)
    (sr_schema_version r) (sr_protocol_version r) (sr_plan_hash r) (sr_started_at r) (sr_finished_at r)
    (sr_exit_status r) (sr_retry_command r) (sr_rollback_command r) (sr_receipt_path r) (sr_receipt r)
    (digest_str (cp_object_digest plan)) (digest_str (cp_recipe_digest plan)) (cp_trust plan)
    (digest_str (cp_trust_evidence_digest plan)) (digest_str (cp_policy_digest plan))
    (digest_str (cp_capability_plan_digest plan)) (digest_str (cp_review_digest plan))
    (cp_setup_state_ref plan).
(** A record with another ending; the evidence stays. *)
Definition ended (r : SetupStateRecord) (status detail rollback_command : string) (receipts : list receipt) :
    SetupStateRecord :=
  MkStateRecord (sr_artifact_type r) (sr_artifact_name r) (sr_profile r) (sr_scope r) status detail
    (sr_source_label r) (sr_installer_path r) (sr_installer_hash r) (sr_custom_hash r)
    (sr_schema_version r) (sr_protocol_version r) (sr_plan_hash r) (sr_started_at r) (sr_finished_at r)
    (VInt 1) (sr_retry_command r) rollback_command (sr_receipt_path r) receipts (sr_object_digest r)
    (sr_recipe_digest r) (sr_trust r) (sr_trust_evidence_digest r) (sr_policy_digest r)
    (sr_capability_plan_digest r) (sr_canonical_review_digest r) (sr_setup_state_ref r).
Definition messages (ds : list Diagnostic) : string := join "; " (map d_message ds).
Definition mark_compensated (r : receipt) : receipt := dset "setup_disposition" (VStr "compensated") r.
(** The record that could not be kept is compensated, and evidence of that is kept if possible. *)
Definition failure_record (applied recovery : SetupStateRecord) (cause : string) :
    SetupExecutionStatus * string * SetupStateRecord :=
  if String.eqb (sr_status recovery) "rollback_incomplete"
  then
    let detail := "setup state persistence failed: " +:+ cause +:+ "; effect rollback was incomplete" in
    (X_ROLLBACK_INCOMPLETE, detail,
     ended recovery (sr_status recovery) detail (sr_rollback_command recovery) (sr_receipt recovery))
  else
    let detail := "setup state persistence failed: " +:+ cause +:+ "; applied effects were compensated" in
    (X_FAILED, detail,
     ended recovery "apply_failed_rolled_back" detail "" (map mark_compensated (sr_receipt applied))).
Definition keep_failure (plan : CanonicalSetupPlan) (applied recovery : SetupStateRecord)
    (ds : list Diagnostic) : engine_m (Result SetupOutcome) :=
  let '(status, detail, record) := failure_record applied recovery (messages ds) in
  persisted ← persist_setup plan record (cp_previous_record plan);
  let '(state_written, detail) :=
    match persisted with
    | Ok _ => (true, detail)
    | Err ds => (false, detail +:+ "; failure receipt was not persisted: " +:+ messages ds)
    end in
  o ← pure (outcome plan status detail state_written (Some (bound_record plan record)));
  mret (Ok o).
Definition persistence_failed (plan : CanonicalSetupPlan) (applied : SetupStateRecord) (ds : list Diagnostic) :
    engine_m (Result SetupOutcome) :=
  recovery ← (match sr_receipt applied with
              | [] => mret applied | _ => on_machine (λ w, rollback_record w rt applied) end);
  keep_failure plan applied recovery ds.
(** [finalize_setup]; consent is asked of the machine *)
Definition finalize_setup (plan : CanonicalSetupPlan) (reviewed_digest : ObjectDigest)
    (catalog : MarketplaceCatalog) (effective : EffectiveConfiguration) : engine_m (Result SetupOutcome) :=
  if negb (bool_decide (reviewed_digest = cp_review_digest plan))
  then result (setup_error SETUP_REVIEW_MISMATCH "finalize digest does not match the reviewed setup" [])
  else
    current ← (if String.eqb (rt_platform rt) (rq_platform (cp_request plan))
               then preconditions_current plan catalog effective else mret false);
    if negb current
    then
      o ← pure (outcome plan X_CONFLICTED
        "object, installation, source trust, policy, setup state, or reference changed after review"
        false None);
      mret (Ok o)
    else
      record ← on_machine (λ w, apply_setup_plan w rt (cp_legacy_plan plan));
      let applied := bound_record plan record in
      persisted ← persist_setup plan applied (cp_previous_record plan);
      match persisted with
      | Err ds => persistence_failed plan applied ds
      | Ok _ =>
          status ← pure (legacy_status (sr_status applied));
          o ← pure (outcome plan status (sr_detail applied) true (Some applied));
          mret (Ok o)
      end.

(** * The queue *)

(** [_failed] *)
Definition failed (plan : CanonicalSetupPlan) (ds : list Diagnostic) : py SetupOutcome :=
  outcome plan X_FAILED (messages ds) false None.
(** [on_item_start(...)], which may raise *)
Definition item_start (on_item_start : option (engine → py unit)) (position total : Z)
    (plan : CanonicalSetupPlan) : engine_m unit :=
  match on_item_start with
  | None => mret tt
  | Some f => λ s, (f s, MkEngine (en_calls s ++ [(en_machine s, CItemStart position total plan)]) (en_machine s))
  end.
Section queue.
Context (catalog : MarketplaceCatalog) (effective : EffectiveConfiguration) (stop_on_failure : bool)
  (on_item_start : option (engine → py unit)) (total : Z).
Fixpoint execute_items (work : list (CanonicalSetupPlan * ObjectDigest)) (items : list SetupOutcome)
    (stopped : bool) : engine_m (list SetupOutcome) :=
  match work with
  | [] => mret items
  | (plan, reviewed) :: work =>
      if stopped
      then
        o ← pure (outcome plan X_SKIPPED "setup queue stopped after an incomplete item" false None);
        execute_items work (items ++ [o]) stopped
      else
        item_start on_item_start (Z.of_nat (length items) + 1) total plan ;;
        r ← finalize_setup plan reviewed catalog effective;
        o ← (match r with Err ds => pure (failed plan ds) | Ok o => mret o end);
        execute_items work (items ++ [o]) (stop_on_failure && negb (successful o))
  end.
End queue.
Definition execute_setup_queue (plans : list CanonicalSetupPlan) (reviewed_digests : list ObjectDigest)
    (catalog : MarketplaceCatalog) (effective : EffectiveConfiguration) (stop_on_failure : bool)
    (on_item_start : option (engine → py unit)) : engine_m (list SetupOutcome) :=
  pure (raise_if (negb (length plans =? length reviewed_digests)%nat)
          "each setup plan requires one reviewed digest") ;;
  items ← execute_items catalog effective stop_on_failure on_item_start (Z.of_nat (length plans))
            (zip plans reviewed_digests) [] false;
  pure (setup_queue_outcome items).

(** [retryable_plans] *)
Definition plan_key (plan : CanonicalSetupPlan) : string * string * string :=
  let request := cp_request plan in
  (coordinate_str (rq_coordinate request), rq_profile request, rq_scope request).
Definition retryable_plans (plans : list CanonicalSetupPlan) (items : list SetupOutcome) :
    list CanonicalSetupPlan :=
  let incomplete := map outcome_key (List.filter (λ o, negb (successful o)) items) in
  List.filter (λ plan, mem (plan_key plan) incomplete) plans.

(** * Rolling back *)

Definition review_bound (plan : CanonicalSetupPlan) (o : SetupOutcome) (record : SetupStateRecord) : bool :=
  successful o
  && String.eqb (sr_canonical_review_digest record) (digest_str (cp_review_digest plan))
  && String.eqb (sr_object_digest record) (digest_str (cp_object_digest plan))
  && String.eqb (sr_setup_state_ref record) (cp_setup_state_ref plan)
  && forallb (λ r, receipt_matches_plan r (cp_legacy_plan plan)) (sr_receipt record).
(** The record is the persisted one, and the setup owns its object. *)
Definition record_current (plan : CanonicalSetupPlan) (record : SetupStateRecord)
    (current : Result (option SetupStateRecord)) (references : Result ReferenceIndex) : bool :=
  let current_owner := match references with
                       | Ok references => owned_by (cp_setup_reference_owner plan) references
                       | Err _ => [] end in
  match current with
  | Ok (Some found) => setup_record_py_eq found record
  | _ => false
  end && bool_decide (current_owner = [cp_object_digest plan]).
(** [rollback_setup] *)
Definition rollback_setup (plan : CanonicalSetupPlan) (o : SetupOutcome) : engine_m (Result SetupOutcome) :=
  let unbound := setup_error SETUP_REVIEW_MISMATCH "setup rollback receipt is not review-bound" [] in
  match so_record o with
  | None => result unbound
  | Some record =>
      if negb (review_bound plan o record) then result unbound
      else
        snapshot ←? inspect_path (cp_setup_state_path plan);
        current ← pure (previous_record snapshot);
        references ← read_references (cp_object_store_paths plan);
        if negb (record_current plan record current references)
        then result (setup_error SETUP_REVIEW_MISMATCH
               "durable setup state or object reference changed before rollback" [])
        else
          rolled ← on_machine (λ w, rollback_record w rt record);
          let rolled := bound_record plan rolled in
          _ ←? persist_setup plan rolled (Some record);
          rolled_out ← pure (outcome plan
            (if String.eqb (sr_status rolled) "skipped" then X_ROLLED_BACK else X_ROLLBACK_INCOMPLETE)
            (sr_detail rolled) true (Some rolled));
          mret (Ok rolled_out)
  end.

(** [setup_outcome_event] *)
Definition setup_outcome_event (o : SetupOutcome) : list (string * pyval) :=
  [("schema_version", VInt 1); ("artifact", VStr (coordinate_str (so_coordinate o)));
   ("profile", VStr (so_profile o)); ("scope", VStr (so_scope o));
   ("payload_status", VStr "installed");
   ("setup_status", VStr (execution_status_value (so_setup_status o)));
   ("detail", VStr (bounded_text (so_detail o))); ("review_digest", VStr (digest_str (so_review_digest o)));
   ("setup_state_ref", VStr (so_setup_state_ref o)); ("state_written", VBool (so_state_written o))].
End engine.
