(* ===== verification/RegistryIndex.v ===== *)
(** [protocol/registry_index.py]: the projection of a package into an index
    entry, the validation of the dependency and collection graphs of a
    registry, and the index built from them.

    A walk is [None] only when it runs out of fuel; the theorems show that the
    fuel given is enough.  A [frozenset] of members is a list without
    duplicates, of which only the elements matter. *)
From S2P Require Import Prelude PyText Domain SemVer Json Protocol CompilerModel NativeSchema NativeTree.
Open Scope Z_scope.

Definition REGISTRY_GRAPH_INVALID := MkCode "registry-graph-invalid".
Definition REGISTRY_INDEX_INVALID := MkCode "registry-index-invalid".

(** [_error] *)
Definition index_error {A} (code : DiagnosticCode) (message : string) : Result A :=
  fail1 (diagnostic code ERROR message None [] []).

(** * From a package *)

Definition index_provenance_of (p : Provenance) : IndexProvenance :=
  MkIndexProvenance (op_url (pv_origin p)) (op_resolved_commit (pv_origin p)) (op_path (pv_origin p)).
Definition index_artifact_from_package `{SetupProtocol} (package : NativeArtifactPackage)
    (source_id : SourceId) (object_digest : ObjectDigest) (review : option ReviewRecord)
    (collections : list string) : IndexArtifact :=
  let manifest := np_manifest package in
  let capabilities := match np_setup_installer package with
                      | Some installer => map MkCapability (planned_capabilities installer)
                      | None => [] end in
  let setup := (λ reference, MkIndexSetup (sr_recipe reference) (sr_platforms reference) capabilities)
               <$> am_setup manifest in
  MkIndexArtifact source_id (am_identity manifest) (am_version manifest) (am_summary manifest)
    (np_manifest_digest package) (np_payload_digest package) object_digest (am_compatibility manifest)
    (am_install manifest) setup review (index_provenance_of <$> np_provenance package)
    (sorted_set id collections) (am_requires_aart manifest) (am_requires manifest).

(** * The walks *)

Definition excluded (selector : ArtifactSelector) (artifact : IndexArtifact) : bool :=
  match as_version selector with
  | Some bounds => negb (allows bounds (ia_version artifact)) | None => false end.

Notation artifact_dict := (list (ArtifactIdentity * IndexArtifact)).
Notation collection_dict := (list (string * CollectionManifest)).
Notation member_memo := (list (string * list ArtifactIdentity)).

(** [members.add], [members.update] *)
Definition add_member (members : list ArtifactIdentity) (i : ArtifactIdentity) : list ArtifactIdentity :=
  if mem i members then members else members ++ [i].
Definition add_each (members more : list ArtifactIdentity) : list ArtifactIdentity :=
  foldl add_member members more.

Section members.
Context (collections : collection_dict) (artifacts : artifact_dict).

(** The artifacts a collection names. *)
Fixpoint own_members (name : string) (selectors : list ArtifactSelector)
    (members : list ArtifactIdentity) : Result (list ArtifactIdentity) :=
  match selectors with
  | [] => Ok members
  | selector :: selectors =>
      match dget (as_identity selector) artifacts with
      | None => index_error REGISTRY_GRAPH_INVALID
                  ("collection " +:+ name +:+ " references missing " +:+ identity_str (as_identity selector))
      | Some artifact =>
          if excluded selector artifact
          then index_error REGISTRY_GRAPH_INVALID
                 ("collection " +:+ name +:+ " excludes available version of "
                  +:+ identity_str (as_identity selector))
          else own_members name selectors (add_member members (as_identity selector))
      end
  end.

(** [_collection_members], with the [memo] it leaves. *)
Fixpoint collection_members (fuel : nat) (name : string) (memo : member_memo) (visiting : list string) :
    option (Result (list ArtifactIdentity * member_memo)) :=
  match fuel with
  | O => None
  | S fuel =>
      match dget name memo with
      | Some members => Some (Ok (members, memo))
      | None =>
          if mem name visiting
          then Some (index_error REGISTRY_GRAPH_INVALID
                       ("collection cycle: " +:+ join " -> " (visiting ++ [name])))
          else match dget name collections with
          | None => Some (index_error REGISTRY_GRAPH_INVALID ("dangling collection reference: " +:+ name))
          | Some collection =>
              match own_members name (cm_artifacts collection) [] with
              | Err ds => Some (Err ds)
              | Ok members =>
                  (fix go (names : list string) (members : list ArtifactIdentity) (memo : member_memo) :
                      option (Result (list ArtifactIdentity * member_memo)) :=
                    match names with
                    | [] => Some (Ok (members, dset name members memo))
                    | nested :: names =>
                        match collection_members fuel nested memo (visiting ++ [name]) with
                        | Some (Ok (more, memo)) => go names (add_each members more) memo
                        | r => r
                        end
                    end) (cm_collections collection) members memo
              end
          end
      end
  end.

(** The loop over the sorted names: the collections each artifact is in. *)
Fixpoint collect_memberships (fuel : nat) (names : list string) (memo : member_memo)
    (memberships : list (ArtifactIdentity * list string)) :
    option (Result (list (ArtifactIdentity * list string))) :=
  match names with
  | [] => Some (Ok memberships)
  | name :: names =>
      match collection_members fuel name memo [] with
      | None => None
      | Some (Err ds) => Some (Err ds)
      | Some (Ok (members, memo)) =>
          collect_memberships fuel names memo
            (map (λ '(i, inside), (i, if mem i members then inside ++ [name] else inside)) memberships)
      end
  end.
End members.

(** * Dependencies *)

(** The loop filling [artifact_map]: two artifacts of one identity are refused. *)
Fixpoint map_artifacts (items : list IndexArtifact) (artifacts : artifact_dict) : Result artifact_dict :=
  match items with
  | [] => Ok artifacts
  | artifact :: items =>
      if mem (ia_identity artifact) (dkeys artifacts)
      then index_error REGISTRY_INDEX_INVALID
             ("duplicate or ambiguous index identity: " +:+ source_id_value (ia_source_id artifact)
              +:+ "/" +:+ identity_str (ia_identity artifact))
      else map_artifacts items (artifacts ++ [(ia_identity artifact, artifact)])
  end.

Definition index_dependency (artifacts : artifact_dict) (requiring : ArtifactIdentity)
    (selector : ArtifactSelector) : Result ArtifactIdentity :=
  match dget (as_identity selector) artifacts with
  | None => dependency_scope_error REGISTRY_GRAPH_INVALID requiring (as_identity selector) None
  | Some dependency =>
      if excluded selector dependency
      then index_error REGISTRY_GRAPH_INVALID
             ("artifact " +:+ identity_str requiring +:+ " excludes available dependency "
              +:+ identity_str (as_identity selector))
      else Ok (as_identity selector)
  end.
Definition dependency_edges (artifacts : artifact_dict) (items : list IndexArtifact) :
    Result (list (ArtifactIdentity * list ArtifactIdentity)) :=
  edges ← mapM (λ a,
    dependencies ← mapM (index_dependency artifacts (ia_identity a)) (ia_requires a);
    Ok (ia_identity a, sorted identity_str dependencies)) items;
  Ok (dict_of edges).

Section dependencies.
Context (edges : list (ArtifactIdentity * list ArtifactIdentity)).

(** [visit_dependency], with the identities visited so far. *)
Fixpoint visit_dependency (fuel : nat) (identity : ArtifactIdentity)
    (trail visited : list ArtifactIdentity) : option (Result (list ArtifactIdentity)) :=
  match fuel with
  | O => None
  | S fuel =>
      if mem identity trail
      then Some (index_error REGISTRY_GRAPH_INVALID
                   ("artifact dependency cycle: " +:+ join " -> " (map identity_str (trail ++ [identity]))))
      else if mem identity visited then Some (Ok visited)
      else
        (fix go (ids : list ArtifactIdentity) (visited : list ArtifactIdentity) :
            option (Result (list ArtifactIdentity)) :=
          match ids with
          | [] => Some (Ok (visited ++ [identity]))
          | dependency :: ids =>
              match visit_dependency fuel dependency (trail ++ [identity]) visited with
              | Some (Ok visited) => go ids visited
              | r => r
              end
          end) (default [] (dget identity edges)) visited
  end.
Fixpoint visit_dependencies (fuel : nat) (ids visited : list ArtifactIdentity) :
    option (Result (list ArtifactIdentity)) :=
  match ids with
  | [] => Some (Ok visited)
  | identity :: ids =>
      match visit_dependency fuel identity [] visited with
      | Some (Ok visited) => visit_dependencies fuel ids visited
      | r => r
      end
  end.
End dependencies.

(** * The graph and the index *)

(** The loop filling [collection_map]. *)
Fixpoint map_collections (items : list CollectionManifest) (collections : collection_dict) :
    Result collection_dict :=
  match items with
  | [] => Ok collections
  | collection :: items =>
      if mem (cm_name collection) (dkeys collections)
      then index_error REGISTRY_GRAPH_INVALID
             ("duplicate collection identity: " +:+ cm_name collection)
      else map_collections items (collections ++ [(cm_name collection, collection)])
  end.

(** [replace(artifact, collections=...)] *)
Definition with_collections (a : IndexArtifact) (collections : list string) : IndexArtifact :=
  MkIndexArtifact (ia_source_id a) (ia_identity a) (ia_version a) (ia_summary a) (ia_manifest_digest a)
    (ia_payload_digest a) (ia_object_digest a) (ia_compatibility a) (ia_install a) (ia_setup a)
    (ia_review a) (ia_provenance a) collections (ia_requires_aart a) (ia_requires a).
Definition index_key (a : IndexArtifact) : string * string :=
  (source_id_value (ia_source_id a), identity_str (ia_identity a)).

Definition validate_registry_graph (artifacts : list IndexArtifact) (collections : list CollectionManifest) :
    option (Result (list IndexArtifact)) :=
  let step {A B} (r : Result A) (k : A → option (Result B)) :=
    match r with Ok a => k a | Err ds => Some (Err ds) end in
  step (map_artifacts artifacts []) (λ artifact_map,
  step (dependency_edges artifact_map artifacts) (λ edges,
  match visit_dependencies edges (length edges + 1) (sorted identity_str (dkeys edges)) [] with
  | None => None
  | Some (Err ds) => Some (Err ds)
  | Some (Ok _) =>
      step (map_collections collections []) (λ collection_map,
      match collect_memberships collection_map artifact_map (length collection_map + 1)
              (sorted id (dkeys collection_map)) [] (map (λ i, (i, [])) (dkeys artifact_map)) with
      | None => None
      | Some (Err ds) => Some (Err ds)
      | Some (Ok memberships) =>
          Some (Ok (sorted index_key
            (map (λ a, with_collections a
                         (sorted id (default [] (dget (ia_identity a) memberships)))) artifacts)))
      end)
  end)).

Definition build_registry_index (manifest : RegistryManifest) (inputs_digest : ObjectDigest)
    (artifacts : list IndexArtifact) (collections : list CollectionManifest) : option (Result RegistryIndex) :=
  match validate_registry_graph artifacts collections with
  | None => None
  | Some (Err ds) => Some (Err ds)
  | Some (Ok indexed) =>
      Some (Ok (MkRegistryIndex 1 (rm_protocol_version manifest) (rm_registry_id manifest) inputs_digest
                  indexed (sorted cm_name collections) (rm_services manifest)))
  end.
