(* ===== verification/RegistryGraphSpec.v ===== *)
(** What the validation of a registry's graph promises: it always returns,
    accepts exactly the consistent registries, and gives every artifact the
    collections that reach it. *)
From S2P Require Import Prelude PyText Domain SemVer Json Protocol CompilerModel InstallSchema NativeSchema NativeTree NativeTreeSpec RegistryIndex.
Open Scope Z_scope.

(** * The walk over collections *)

Section walk.
Context (collections : collection_dict) (artifacts : artifact_dict).

Definition nests (x y : string) : Prop := ∃ c, dget x collections = Some c ∧ y ∈ cm_collections c.
Definition names_member (x : string) (i : ArtifactIdentity) : Prop :=
  ∃ c, dget x collections = Some c ∧ i ∈ map as_identity (cm_artifacts c).
Definition available (s : ArtifactSelector) : Prop :=
  ∃ a, dget (as_identity s) artifacts = Some a ∧ excluded s a = false.
Definition sound (x : string) : Prop :=
  ∃ c, dget x collections = Some c ∧ Forall available (cm_artifacts c).
(** Everything below a collection exists, is available and does not recur. *)
Definition good (x : string) : Prop :=
  Acc (λ y x, nests x y) x ∧ ∀ y, rtc nests x y → sound y.
Definition contains (x : string) (i : ArtifactIdentity) : Prop :=
  ∃ y, rtc nests x y ∧ names_member y i.

Lemma good_unfold x : good x ↔ sound x ∧ ∀ y, nests x y → good y.
Proof.
  split.
  - intros [Ha Hs]. split; [by apply Hs|]. intros y Hy. split; [by apply Ha|].
    intros z Hz. apply Hs. by eapply rtc_l.
  - intros [Hs Hg]. split; [constructor; intros y Hy; by apply Hg|].
    intros z Hz. inversion Hz as [|? y ? Hy Hr]; subst; [done|]. by apply (Hg y Hy).
Qed.
Lemma good_no_cycle x : good x → ¬ tc nests x x.
Proof. intros [Ha _]. by apply acc_no_cycle. Qed.

Lemma contains_unfold x i : contains x i ↔ names_member x i ∨ ∃ y, nests x y ∧ contains y i.
Proof.
  unfold contains. split.
  - intros (z & Hz & Hi). inversion Hz as [|? y ? Hy Hr]; subst; [by left|]. right. eauto.
  - intros [Hi|(y & Hy & z & Hz & Hi)]; [by eexists|]. exists z. split; [by eapply rtc_l|done].
Qed.

Lemma elem_of_add_member i j members : i ∈ add_member members j ↔ i ∈ members ∨ i = j.
Proof.
  unfold add_member. destruct (mem j members) eqn:E; [apply mem_true in E; naive_solver|].
  rewrite elem_of_app, list_elem_of_singleton. done.
Qed.
Lemma elem_of_add_each i members more : i ∈ add_each members more ↔ i ∈ members ∨ i ∈ more.
Proof.
  unfold add_each. revert members. induction more as [|j more IH]; intros members; cbn.
  - set_solver.
  - rewrite IH, elem_of_add_member, elem_of_cons. tauto.
Qed.

Lemma own_members_spec name selectors members :
  match own_members artifacts name selectors members with
  | Err _ => ¬ Forall available selectors
  | Ok members' =>
      Forall available selectors
      ∧ ∀ i, i ∈ members' ↔ i ∈ members ∨ i ∈ map as_identity selectors
  end.
Proof.
  revert members. induction selectors as [|s selectors IH]; intros members; cbn.
  { split; [constructor|]. set_solver. }
  destruct (dget (as_identity s) artifacts) as [a|] eqn:Ea;
    [|intros [(b & Hb & _) _]%Forall_cons_1; congruence].
  destruct (excluded s a) eqn:Ex; [intros [(b & Hb & ?) _]%Forall_cons_1; congruence|].
  specialize (IH (add_member members (as_identity s))).
  destruct (own_members _ _ _ _) as [members'|]; [|intros [_ ?]%Forall_cons_1; done].
  destruct IH as [Hf Hi]. split; [constructor; [by exists a|done]|].
  intros i. rewrite Hi, elem_of_add_member, elem_of_cons. tauto.
Qed.

Definition memo_ok (memo : member_memo) : Prop :=
  ∀ x members, dget x memo = Some members → good x ∧ ∀ i, i ∈ members ↔ contains x i.

Definition members_found (name : string)
    (r : option (Result (list ArtifactIdentity * member_memo))) : Prop :=
  match r with
  | None => False
  | Some (Err _) => ¬ good name
  | Some (Ok (members, memo)) => good name ∧ (∀ i, i ∈ members ↔ contains name i) ∧ memo_ok memo
  end.

Lemma collection_members_spec fuel name memo visiting :
  NoDup visiting → visiting ⊆ dkeys collections → (∀ x, x ∈ visiting → tc nests x name) →
  (length collections < fuel + length visiting)%nat → memo_ok memo →
  members_found name (collection_members collections artifacts fuel name memo visiting).
Proof.
  revert name memo visiting. induction fuel as [|fuel IH]; intros name memo visiting Hn Hsub Hpath Hf Hm.
  { assert (length visiting ≤ length collections)%nat; [|lia].
    rewrite <-(length_fmap fst collections). by apply submseteq_length, NoDup_submseteq. }
  cbn [collection_members]. destruct (dget name memo) as [members|] eqn:Em; cbn [members_found].
  { by destruct (Hm name members Em). }
  destruct (mem name visiting) eqn:Ev.
  { apply mem_true in Ev. intros Hg. by apply (good_no_cycle name Hg), Hpath. }
  apply mem_false in Ev. destruct (dget name collections) as [c|] eqn:Ec.
  2: { intros ((c & Hc & _) & _)%good_unfold. congruence. }
  pose proof (own_members_spec name (cm_artifacts c) []) as Ho.
  destruct (own_members _ _ _ _) as [members|ds].
  2: { intros ((c' & Hc & ?) & _)%good_unfold. congruence. }
  destruct Ho as [Hav Hown].
  assert (∀ names seen memo', (∀ y, y ∈ names → nests name y) → memo_ok memo' →
    (∀ y, nests name y → y ∈ names ∨ good y) →
    (∀ i, i ∈ seen → contains name i) → (∀ i, names_member name i → i ∈ seen) →
    (∀ y i, nests name y → contains y i → y ∈ names ∨ i ∈ seen) →
    members_found name
      ((fix go names members memo :=
          match names with
          | [] => Some (Ok (members, dset name members memo))
          | nested :: names =>
              match collection_members collections artifacts fuel nested memo (visiting ++ [name]) with
              | Some (Ok (more, memo)) => go names (add_each members more) memo
              | r => r
              end
          end) names seen memo')) as Hgo.
  { clear Hm Hown. induction names as [|y names IHn]; intros seen memo' Hin Hm Hgood Hs1 Hs2 Hs3.
    - assert (good name) as Hg.
      { apply good_unfold. split; [by exists c|]. intros y Hy. by destruct (Hgood y Hy) as [[]%elem_of_nil|?]. }
      assert (∀ i, i ∈ seen ↔ contains name i) as Hi.
      { intros i. split; [apply Hs1|]. intros [Hd|(y & Hy & Hi)]%contains_unfold; [by apply Hs2|].
        by destruct (Hs3 y i Hy Hi) as [[]%elem_of_nil|?]. }
      split_and!; [done|done|]. intros x ms. rewrite dget_dset. case_decide as E; [subst; by intros [= <-]|].
      apply Hm.
    - assert (nests name y) as Hy by (apply Hin; left).
      assert (members_found y (collection_members collections artifacts fuel y memo' (visiting ++ [name]))) as IHy.
      { apply IH; [| | |rewrite length_app; cbn; lia|done].
        - apply NoDup_app. split; [done|]. split; [|by apply NoDup_singleton].
          by intros x Hx ->%list_elem_of_singleton.
        - intros x [Hx| ->%list_elem_of_singleton]%elem_of_app; [by apply Hsub|].
          apply dget_is_Some. eauto.
        - intros x [Hx| ->%list_elem_of_singleton]%elem_of_app; [|by apply tc_once].
          eapply tc_r; [by apply Hpath|done]. }
      destruct (collection_members _ _ _ _ _ _) as [[[more memo'']|ds]|]; [|cbn in *|done].
      2: { intros [_ Hg]%good_unfold. by apply IHy, Hg. }
      destruct IHy as (Hg & Hmore & Hm'). apply IHn; [set_solver|done| | | |].
      + intros z Hz. destruct (Hgood z Hz) as [[->|?]%elem_of_cons|?]; auto.
      + intros i [?|Hi]%elem_of_add_each; [by apply Hs1|]. apply contains_unfold. right. exists y.
        split; [done|]. by apply Hmore.
      + intros i Hi. apply elem_of_add_each. left. by apply Hs2.
      + intros z i Hz Hi. rewrite elem_of_add_each.
        destruct (Hs3 z i Hz Hi) as [[->|?]%elem_of_cons|?]; [right; right; by apply Hmore|by left|tauto]. }
  apply Hgo; clear Hgo.
  - intros y Hy. by exists c.
  - done.
  - intros y (c' & Hc & Hy). rewrite Ec in Hc. injection Hc as <-. by left.
  - intros i [[]%elem_of_nil|Hi]%Hown. apply contains_unfold. left. by exists c.
  - intros i (c' & Hc & Hi). rewrite Ec in Hc. injection Hc as <-. apply Hown. by right.
  - intros y i (c' & Hc & Hy) _. rewrite Ec in Hc. injection Hc as <-. by left.
Qed.

(** The names of the collections that contain an artifact are appended to what
    it had, in the order of the walk. *)
Lemma collect_memberships_spec fuel names memo memberships :
  (length collections < fuel)%nat → memo_ok memo →
  match collect_memberships collections artifacts fuel names memo memberships with
  | None => False
  | Some (Err _) => ∃ x, x ∈ names ∧ ¬ good x
  | Some (Ok result) =>
      Forall good names
      ∧ Forall2 (λ x y, y.1 = x.1 ∧ ∃ inside, y.2 = x.2 ++ inside ∧ inside `sublist_of` names
                        ∧ ∀ n, n ∈ inside ↔ n ∈ names ∧ contains n x.1) memberships result
  end.
Proof.
  intros Hf. revert memo memberships. induction names as [|name names IH]; intros memo memberships Hm; cbn.
  { split; [constructor|]. induction memberships as [|x l IHl]; constructor; [|done].
    split; [done|]. exists []. rewrite app_nil_r. split_and!; [done|done|set_solver]. }
  pose proof (collection_members_spec fuel name memo []) as Hw.
  assert (members_found name (collection_members collections artifacts fuel name memo [])) as Hfound.
  { apply Hw; [constructor|set_solver|by intros x []%elem_of_nil|cbn; lia|done]. }
  clear Hw. destruct (collection_members _ _ _ _ _ _) as [[[members memo']|ds]|]; cbn in Hfound; [| |done].
  2: { exists name. split; [left|done]. }
  destruct Hfound as (Hg & Hi & Hm').
  specialize (IH memo' (map (λ '(i, inside), (i, if mem i members then inside ++ [name] else inside)) memberships) Hm').
  destruct (collect_memberships _ _ _ _ _ _) as [[result|ds]|]; [| |done].
  2: { destruct IH as (x & Hx & ?). exists x. split; [by right|done]. }
  destruct IH as [Hall H2]. split; [by constructor|].
  apply Forall2_fmap_l in H2. eapply Forall2_impl; [exact H2|]. clear H2.
  intros [i had] [j has] [Hj (inside & Hh & Hsub & Hin)]. cbn in *. subst j has. split; [done|].
  destruct (mem i members) eqn:Ei.
  - apply mem_true, Hi in Ei. exists (name :: inside). rewrite <-app_assoc. split_and!; [done|by apply sublist_skip|].
    intros n. rewrite !elem_of_cons, Hin. naive_solver.
  - apply mem_false in Ei. exists inside. split_and!; [done|by apply sublist_cons|].
    intros n. rewrite elem_of_cons, Hin. split; [tauto|]. intros [[->|?] Hc]; [by apply Hi in Hc|done].
Qed.
End walk.

(** * The dependency walk is the one of a native source *)

Lemma visit_dependency_visit edges fuel identity trail visited :
  match visit_dependency edges fuel identity trail visited, visit fuel edges identity trail visited with
  | None, None | Some (Err _), Some (Err _) => True
  | Some (Ok seen), Some (Ok seen') => seen = seen'
  | _, _ => False
  end.
Proof.
  revert identity trail visited. induction fuel as [|fuel IH]; intros identity trail visited; cbn; [done|].
  destruct (mem identity trail); [done|]. destruct (mem identity visited); [done|].
  generalize (default [] (dget identity edges)) as ids. intros ids. revert visited.
  induction ids as [|y ids IHids]; intros visited; [done|].
  specialize (IH y (trail ++ [identity]) visited).
  destruct (visit_dependency _ _ _ _ _) as [[seen|]|], (visit _ _ _ _ _) as [[seen'|]|]; try done.
  subst. apply IHids.
Qed.
Lemma visit_dependencies_visit edges fuel ids visited :
  match visit_dependencies edges fuel ids visited, visit_all fuel edges ids visited with
  | None, None | Some (Err _), Some (Err _) => True
  | Some (Ok seen), Some (Ok seen') => seen = seen'
  | _, _ => False
  end.
Proof.
  revert visited. induction ids as [|i ids IH]; intros visited; cbn; [done|].
  pose proof (visit_dependency_visit edges fuel i [] visited) as Hv.
  destruct (visit_dependency _ _ _ _ _) as [[seen|]|], (visit _ _ _ _ _) as [[seen'|]|]; try done.
  subst. apply IH.
Qed.

(** * The graph of a registry *)

Definition answers (s : ArtifactSelector) (a : IndexArtifact) : Prop :=
  ia_identity a = as_identity s
  ∧ ∀ bounds, as_version s = Some bounds → allows bounds (ia_version a) = true.
Lemma not_excluded s a :
  excluded s a = false ↔ ∀ bounds, as_version s = Some bounds → allows bounds (ia_version a) = true.
Proof.
  unfold excluded. destruct (as_version s) as [b|]; [|by split]. rewrite negb_false_iff. naive_solver.
Qed.
Definition requires_other (artifacts : list IndexArtifact) (x y : ArtifactIdentity) : Prop :=
  ∃ a, a ∈ artifacts ∧ ia_identity a = x ∧ y ∈ map as_identity (ia_requires a).
Definition holds_collection (collections : list CollectionManifest) (x y : string) : Prop :=
  ∃ c, c ∈ collections ∧ cm_name c = x ∧ y ∈ cm_collections c.
(** A collection reaches an artifact, itself or through the collections in it. *)
Definition reaches (collections : list CollectionManifest) (n : string) (i : ArtifactIdentity) : Prop :=
  ∃ c, c ∈ collections ∧ rtc (holds_collection collections) n (cm_name c)
       ∧ i ∈ map as_identity (cm_artifacts c).

Record consistent_registry (artifacts : list IndexArtifact) (collections : list CollectionManifest) : Prop := {
  cr_identities : NoDup (map ia_identity artifacts);
  cr_required a s : a ∈ artifacts → s ∈ ia_requires a → ∃ b, b ∈ artifacts ∧ answers s b;
  cr_no_cycle i : ¬ tc (requires_other artifacts) i i;
  cr_names : NoDup (map cm_name collections);
  cr_members c s : c ∈ collections → s ∈ cm_artifacts c → ∃ b, b ∈ artifacts ∧ answers s b;
  cr_nested c n : c ∈ collections → n ∈ cm_collections c → n ∈ map cm_name collections;
  cr_no_recursion n : ¬ tc (holds_collection collections) n n
}.

(** The artifact with exactly the collections that reach it, in order. *)
Definition placed (collections : list CollectionManifest) (a b : IndexArtifact) : Prop :=
  ∃ inside, b = with_collections a inside ∧ NoDup inside ∧ StronglySorted (key_le id) inside
    ∧ ∀ n, n ∈ inside ↔ n ∈ map cm_name collections ∧ reaches collections n (ia_identity a).

(** A dictionary keyed by a field of its values. *)
Lemma keyed_dget {A K} `{EqDecision K} (key : A → K) (l : list A) k a :
  NoDup (map key l) → dget k (map (λ a, (key a, a)) l) = Some a ↔ a ∈ l ∧ key a = k.
Proof.
  intros Hn.
  assert ((map (λ a, (key a, a)) l).*1 = map key l) as Ek by (rewrite <-list_fmap_compose; done).
  split.
  - by intros (q & [= -> ->] & Hq)%dget_elem_of%list_elem_of_fmap.
  - intros [Hp <-]. apply elem_of_dget; [unfold dkeys; by rewrite Ek|]. apply list_elem_of_fmap. eauto.
Qed.
Lemma keyed_unique {A K} `{EqDecision K} (key : A → K) (l : list A) a b :
  NoDup (map key l) → a ∈ l → b ∈ l → key a = key b → a = b.
Proof.
  intros Hn Ha Hb E. pose proof (proj2 (keyed_dget key l (key a) a Hn) (conj Ha eq_refl)) as E1.
  rewrite (proj2 (keyed_dget key l (key a) b Hn)) in E1 by done. congruence.
Qed.
Lemma keyed_keys {A K} (key : A → K) (l : list A) : dkeys (map (λ a, (key a, a)) l) = map key l.
Proof. unfold dkeys. rewrite <-list_fmap_compose. done. Qed.

Lemma map_artifacts_spec items artifacts :
  NoDup (dkeys artifacts) →
  match map_artifacts items artifacts with
  | Err _ => ¬ NoDup (dkeys artifacts ++ map ia_identity items)
  | Ok r => NoDup (dkeys artifacts ++ map ia_identity items)
            ∧ r = artifacts ++ map (λ a, (ia_identity a, a)) items
  end.
Proof.
  revert artifacts. induction items as [|a items IH]; intros artifacts Hn; cbn; [by rewrite !app_nil_r|].
  destruct (mem _ _) eqn:Em.
  { apply mem_true in Em. intros (_ & Hd & _)%NoDup_app. apply (Hd _ Em). left. }
  apply mem_false in Em. specialize (IH (artifacts ++ [(ia_identity a, a)])).
  unfold dkeys in *. rewrite fmap_app, <-app_assoc in IH. cbn in IH. rewrite <-app_assoc in IH. apply IH.
  apply NoDup_app. split; [done|]. split; [|apply NoDup_singleton]. by intros x Hx ->%list_elem_of_singleton.
Qed.
Lemma map_collections_spec items collections :
  NoDup (dkeys collections) →
  match map_collections items collections with
  | Err _ => ¬ NoDup (dkeys collections ++ map cm_name items)
  | Ok r => NoDup (dkeys collections ++ map cm_name items)
            ∧ r = collections ++ map (λ c, (cm_name c, c)) items
  end.
Proof.
  revert collections. induction items as [|a items IH]; intros collections Hn; cbn; [by rewrite !app_nil_r|].
  destruct (mem _ _) eqn:Em.
  { apply mem_true in Em. intros (_ & Hd & _)%NoDup_app. apply (Hd _ Em). left. }
  apply mem_false in Em. specialize (IH (collections ++ [(cm_name a, a)])).
  unfold dkeys in *. rewrite fmap_app, <-app_assoc in IH. cbn in IH. rewrite <-app_assoc in IH. apply IH.
  apply NoDup_app. split; [done|]. split; [|apply NoDup_singleton]. by intros x Hx ->%list_elem_of_singleton.
Qed.

Section graph.
Context (artifacts : list IndexArtifact) (collections : list CollectionManifest).
Hypothesis identities : NoDup (map ia_identity artifacts).
Notation artifact_map := (map (λ a, (ia_identity a, a)) artifacts).
Notation collection_map := (map (λ c, (cm_name c, c)) collections).

Lemma available_answers s : available artifact_map s ↔ ∃ b, b ∈ artifacts ∧ answers s b.
Proof.
  unfold available, answers. setoid_rewrite keyed_dget; [|done]. setoid_rewrite not_excluded. naive_solver.
Qed.
Lemma index_dependency_Ok requiring selector y :
  index_dependency artifact_map requiring selector = Ok y ↔
  y = as_identity selector ∧ available artifact_map selector.
Proof.
  unfold index_dependency, available. destruct (dget _ artifact_map) as [a|] eqn:Ea.
  - destruct (excluded selector a) eqn:Ex; cbn.
    + split; [done|]. intros (_ & b & [= <-] & Hb). congruence.
    + split; [intros [= <-]; eauto|by intros [-> _]].
  - split; [done|]. by intros (_ & b & Hb & _).
Qed.

(** The dependencies are accepted exactly when they are met and do not recur. *)
Lemma dependencies_spec :
  match dependency_edges artifact_map artifacts with
  | Err _ => ¬ ∀ a, a ∈ artifacts → Forall (available artifact_map) (ia_requires a)
  | Ok edges =>
      (∀ a, a ∈ artifacts → Forall (available artifact_map) (ia_requires a))
      ∧ match visit_dependencies edges (length edges + 1) (sorted identity_str (dkeys edges)) [] with
        | None => False
        | Some (Err _) => ∃ i, tc (requires_other artifacts) i i
        | Some (Ok _) => ∀ i, ¬ tc (requires_other artifacts) i i
        end
  end.
Proof.
  pose proof (edges_spec ia_identity ia_requires (index_dependency artifact_map) (available artifact_map)
    index_dependency_Ok artifacts identities) as He.
  unfold dependency_edges.
  change (mapM _ artifacts) with
    (mapM (edge_item ia_identity ia_requires (index_dependency artifact_map)) artifacts).
  destruct (mapM _ artifacts) as [found|ds]; cbn [mbind result_bind]; [|done].
  destruct He as (Hav & Hk & He). split; [done|].
  assert (∀ x y, edge (dict_of found) x y ↔ requires_other artifacts x y) as He'
    by (intros x y; by rewrite He).
  assert (∀ x, tc (edge (dict_of found)) x x ↔ tc (requires_other artifacts) x x) as Ht.
  { intros x. split; (eapply (tc_congruence id)); intros; cbn; by apply He'. }
  pose proof (walk_exact (dict_of found)) as Hw.
  assert (∀ x y, edge (dict_of found) x y → y ∈ dkeys (dict_of found)) as Hclosed.
  { intros x y (a & Ha & _ & (s & -> & Hs)%list_elem_of_fmap)%He'. rewrite Hk.
    specialize (Hav a Ha). rewrite Forall_forall in Hav.
    destruct (proj1 (available_answers s) (Hav s Hs)) as (b & Hb & <- & _). by apply list_elem_of_fmap_2. }
  specialize (Hw Hclosed (length (dict_of found) + 1)%nat identity_str).
  pose proof (visit_dependencies_visit (dict_of found) (length (dict_of found) + 1)
                (sorted identity_str (dkeys (dict_of found))) []) as Hv.
  destruct (visit_dependencies _ _ _ _) as [[]|], (visit_all _ _ _ _) as [[]|]; try done; cbn in *; [| |lia].
  - intros i. by rewrite <-Ht.
  - destruct Hw as [x Hx]. exists x. by apply Ht.
Qed.

Hypothesis names : NoDup (map cm_name collections).

Lemma nests_holds x y : nests collection_map x y ↔ holds_collection collections x y.
Proof. unfold nests, holds_collection. setoid_rewrite keyed_dget; [|done]. naive_solver. Qed.
Lemma nests_rtc x y : rtc (nests collection_map) x y ↔ rtc (holds_collection collections) x y.
Proof. split; (eapply (rtc_congruence id)); intros; cbn; by apply nests_holds. Qed.
Lemma nests_tc x y : tc (nests collection_map) x y ↔ tc (holds_collection collections) x y.
Proof. split; (eapply (tc_congruence id)); intros; cbn; by apply nests_holds. Qed.
Lemma contains_reaches x i : contains collection_map x i ↔ reaches collections x i.
Proof.
  unfold contains, reaches, names_member. setoid_rewrite nests_rtc. setoid_rewrite keyed_dget; [|done].
  naive_solver.
Qed.

(** Every collection is good exactly when all are sound and none recurs. *)
Lemma all_good :
  Forall (good collection_map artifact_map) (map cm_name collections) ↔
  (∀ c s, c ∈ collections → s ∈ cm_artifacts c → ∃ b, b ∈ artifacts ∧ answers s b)
  ∧ (∀ c n, c ∈ collections → n ∈ cm_collections c → n ∈ map cm_name collections)
  ∧ ∀ n, ¬ tc (holds_collection collections) n n.
Proof.
  assert (∀ x, sound collection_map artifact_map x ↔ ∃ c, c ∈ collections ∧ cm_name c = x
            ∧ ∀ s, s ∈ cm_artifacts c → ∃ b, b ∈ artifacts ∧ answers s b) as Hsound.
  { intros x. unfold sound. setoid_rewrite keyed_dget; [|done]. setoid_rewrite Forall_forall.
    setoid_rewrite available_answers. naive_solver. }
  rewrite Forall_forall. split.
  - intros Hg. split_and!.
    + intros c s Hc. destruct (Hg (cm_name c)) as [_ Hs]; [by apply list_elem_of_fmap_2|].
      destruct (proj1 (Hsound _) (Hs _ (rtc_refl _ _))) as (c' & Hc' & Hn & Hav).
      rewrite (keyed_unique cm_name collections c c'); auto.
    + intros c n Hc Hn. destruct (Hg (cm_name c)) as [_ Hs]; [by apply list_elem_of_fmap_2|].
      destruct (proj1 (Hsound _) (Hs n ltac:(apply rtc_once; apply nests_holds; by exists c))) as (d & Hd & <- & _).
      by apply list_elem_of_fmap_2.
    + intros n Hn. assert (n ∈ map cm_name collections) as Hin.
      { inversion Hn as [? ? (c & ? & <- & _)|? ? ? (c & ? & <- & _)]; by apply list_elem_of_fmap_2. }
      apply (good_no_cycle _ _ _ (Hg n Hin)). by apply nests_tc.
  - intros (Hmem & Hnest & Hcyc) n Hn.
    assert (∀ y, rtc (nests collection_map) n y → y ∈ map cm_name collections) as Hin.
    { intros y Hy. induction Hy as [|x y z Hxy _ IH]; [done|]. apply IH.
      apply nests_holds in Hxy as (c & Hc & _ & Hy). by eapply Hnest. }
    split.
    + apply tc_finite_sn; [intros x Hx%nests_tc; by apply (Hcyc x)|].
      exists (map cm_name collections). intros y Hy. apply Hin, tc_rtc, Hy.
    + intros y Hy. apply Hsound. specialize (Hin y Hy).
      apply list_elem_of_fmap in Hin as (c & -> & Hc). exists c. eauto.
Qed.
End graph.

Lemma dget_Forall2 {V W} (R : ArtifactIdentity * V → ArtifactIdentity * W → Prop) d e k w :
  Forall2 (λ x y, y.1 = x.1 ∧ R x y) d e → dget k e = Some w →
  ∃ v, dget k d = Some v ∧ R (k, v) (k, w).
Proof.
  induction 1 as [|[k1 v1] [k2 w2] d e [E HR] _ IH]; [done|]. cbn in *. subst k2.
  case_decide as Ek; [subst|done]. intros [= ->]. eauto.
Qed.
Lemma Forall2_keys {V W} (R : ArtifactIdentity * V → ArtifactIdentity * W → Prop) d e :
  Forall2 (λ x y, y.1 = x.1 ∧ R x y) d e → dkeys e = dkeys d.
Proof. induction 1 as [|x y d e [E _] _ IH]; [done|]. unfold dkeys in *. cbn. by rewrite E, IH. Qed.

(** Validation always ends; see [build_registry_index_exact]. *)
Lemma validate_registry_graph_spec artifacts collections :
  match validate_registry_graph artifacts collections with
  | None => False
  | Some (Err _) => ¬ consistent_registry artifacts collections
  | Some (Ok indexed) =>
      consistent_registry artifacts collections
      ∧ ∃ placements, Forall2 (placed collections) artifacts placements
                      ∧ indexed = sorted index_key placements
  end.
Proof.
  unfold validate_registry_graph. cbv zeta.
  pose proof (map_artifacts_spec artifacts [] ltac:(constructor)) as Hma.
  destruct (map_artifacts artifacts []) as [artifact_map|]; [|by intros []]. destruct Hma as [Hid ->].
  cbn [app] in *. change (dkeys (@nil (ArtifactIdentity * IndexArtifact)) ++ map ia_identity artifacts)
    with (map ia_identity artifacts) in Hid.
  pose proof (dependencies_spec artifacts Hid) as Hd.
  destruct (dependency_edges _ _) as [edges|ds].
  2: { intros [_ Hreq _ _ _ _ _]. apply Hd. intros a Ha. apply Forall_forall. intros s Hs.
       apply available_answers; eauto. }
  destruct Hd as [Hav Hcyc].
  assert (∀ a s, a ∈ artifacts → s ∈ ia_requires a → ∃ b, b ∈ artifacts ∧ answers s b) as Hreq.
  { intros a s Ha Hs. apply available_answers; [done|]. specialize (Hav a Ha).
    rewrite Forall_forall in Hav. auto. }
  destruct (visit_dependencies _ _ _ _) as [[seen|ds]|]; [|destruct Hcyc as [i Hi]; intros []; naive_solver|done].
  pose proof (map_collections_spec collections [] ltac:(constructor)) as Hmc.
  destruct (map_collections collections []) as [collection_map|]; [|by intros []]. destruct Hmc as [Hn ->].
  cbn [app] in *. change (dkeys (@nil (string * CollectionManifest)) ++ map cm_name collections)
    with (map cm_name collections) in Hn.
  rewrite !keyed_keys.
  pose proof (collect_memberships_spec (map (λ c, (cm_name c, c)) collections)
    (map (λ a, (ia_identity a, a)) artifacts) (length (map (λ c, (cm_name c, c)) collections) + 1)
    (sorted id (map cm_name collections)) [] (map (λ i, (i, [])) (map ia_identity artifacts))
    ltac:(lia) ltac:(done)) as Hw.
  pose proof (all_good artifacts collections Hid Hn) as Hgood.
  destruct (collect_memberships _ _ _ _ _ _) as [[memberships|ds]|]; [| |done].
  2: { destruct Hw as (x & Hx & Hg). intros [_ _ _ _ Hm Hne Hcy]. apply Hg.
       pose proof (proj2 Hgood (conj Hm (conj Hne Hcy))) as Hall. rewrite Forall_forall in Hall.
       apply Hall. by apply elem_of_sorted in Hx. }
  destruct Hw as [Hall H2].
  assert (Forall (good (map (λ c, (cm_name c, c)) collections) (map (λ a, (ia_identity a, a)) artifacts))
            (map cm_name collections)) as Hall'.
  { rewrite Forall_forall in *. intros x Hx. apply Hall. by apply elem_of_sorted. }
  apply Hgood in Hall' as (Hm & Hne & Hcy). split; [by split|].
  eexists. split; [|done]. rewrite Forall2_fmap_r. apply Forall_Forall2_diag, Forall_forall. intros a Ha.
  eexists. split; [done|].
  assert (ia_identity a ∈ dkeys memberships) as Hk.
  { rewrite (Forall2_keys _ _ _ H2). unfold dkeys. rewrite <-list_fmap_compose. apply list_elem_of_fmap.
    exists (ia_identity a). split; [done|]. by apply list_elem_of_fmap_2. }
  apply dget_is_Some in Hk as [inside Hk]. rewrite Hk. cbn [default from_option id].
  destruct (dget_Forall2 _ _ _ _ _ H2 Hk) as (had & Hhad & new & Hnew & Hsub & Hin). cbn in *.
  assert (had = []) as ->.
  { apply dget_elem_of, list_elem_of_fmap in Hhad as (? & [= _ ->] & _). done. }
  subst inside. cbn [app]. pose proof (sorted_perm id new) as Hp. split_and!.
  - rewrite Hp. eapply sublist_NoDup; [|exact Hsub]. by rewrite sorted_perm.
  - apply sorted_sorted.
  - intros n. rewrite elem_of_sorted, Hin, elem_of_sorted, contains_reaches by done. done.
Qed.

(** * Validating again *)

Lemma with_collections_twice a l k : with_collections (with_collections a l) k = with_collections a k.
Proof. done. Qed.

Lemma placements_elem collections artifacts placements b :
  Forall2 (placed collections) artifacts placements → b ∈ placements →
  ∃ a inside, a ∈ artifacts ∧ b = with_collections a inside.
Proof.
  intros H2 [i Hi]%list_elem_of_lookup. destruct (Forall2_lookup_r _ _ _ _ _ H2 Hi) as (a & Ha & inside & -> & _).
  eauto using list_elem_of_lookup_2.
Qed.
Lemma elem_placements collections artifacts placements a :
  Forall2 (placed collections) artifacts placements → a ∈ artifacts →
  ∃ inside, with_collections a inside ∈ placements.
Proof.
  intros H2 [i Hi]%list_elem_of_lookup. destruct (Forall2_lookup_l _ _ _ _ _ H2 Hi) as (b & Hb & inside & -> & _).
  eauto using list_elem_of_lookup_2.
Qed.

Lemma reaches_perm cs ds n i : cs ≡ₚ ds → reaches cs n i ↔ reaches ds n i.
Proof.
  intros Hp. assert (∀ c, c ∈ cs ↔ c ∈ ds) as Hin by (intros c; by rewrite Hp).
  assert (∀ x y, rtc (holds_collection cs) x y ↔ rtc (holds_collection ds) x y) as Hr.
  { intros x y. split; (eapply (rtc_congruence id)); intros ? ? (c & ? & ?); exists c; by rewrite Hin in *. }
  split; intros (c & ? & ? & ?); exists c; (split_and!; [by apply Hin|by apply Hr|done]).
Qed.

Lemma consistent_placed artifacts collections placements :
  consistent_registry artifacts collections → Forall2 (placed collections) artifacts placements →
  consistent_registry (sorted index_key placements) (sorted cm_name collections).
Proof.
  intros [Hid Hreq Hcyc Hn Hm Hne Hrec] H2.
  assert (∀ b, b ∈ sorted index_key placements ↔ b ∈ placements) as Hb by (intros b; by rewrite elem_of_sorted).
  assert (∀ s, (∃ b, b ∈ artifacts ∧ answers s b) → ∃ b, b ∈ sorted index_key placements ∧ answers s b) as Hans.
  { intros s (a & Ha & Hs). destruct (elem_placements _ _ _ _ H2 Ha) as [inside Hp].
    exists (with_collections a inside). rewrite Hb. split; [done|]. by destruct Hs. }
  assert (∀ c, c ∈ sorted cm_name collections ↔ c ∈ collections) as Hc by (intros c; by rewrite elem_of_sorted).
  split.
  - rewrite (sorted_perm index_key placements). replace (map ia_identity placements) with (map ia_identity artifacts); [done|].
    clear -H2. induction H2 as [|a b ? ? (inside & -> & _) _ IH]; [done|]. cbn. by rewrite IH.
  - intros b s Hin Hs. apply Hb in Hin. destruct (placements_elem _ _ _ _ H2 Hin) as (a & inside & Ha & ->).
    apply Hans, (Hreq a s Ha Hs).
  - intros i Hi. apply (Hcyc i). revert Hi. eapply (tc_congruence id). intros x y (b & Hin & Hx & Hy). cbn.
    apply Hb in Hin. destruct (placements_elem _ _ _ _ H2 Hin) as (a & inside & Ha & ->). by exists a.
  - by rewrite (sorted_perm cm_name collections).
  - intros c s Hin Hs. apply Hans, (Hm c s); [by apply Hc|done].
  - intros c n Hin Hc'. rewrite (sorted_perm cm_name collections). apply (Hne c n); [by apply Hc|done].
  - intros n Hi. apply (Hrec n). revert Hi. eapply (tc_congruence id). intros x y (c & Hin & Hx & Hy). cbn.
    apply Hc in Hin. by exists c.
Qed.

Lemma validate_again artifacts collections indexed :
  validate_registry_graph artifacts collections = Some (Ok indexed) →
  validate_registry_graph indexed (sorted cm_name collections) = Some (Ok indexed).
Proof.
  intros Hv. pose proof (validate_registry_graph_spec artifacts collections) as Hs. rewrite Hv in Hs.
  destruct Hs as [Hc (placements & H2 & ->)]. clear Hv.
  pose proof (consistent_placed _ _ _ Hc H2) as Hc'.
  pose proof (validate_registry_graph_spec (sorted index_key placements) (sorted cm_name collections)) as Hs.
  destruct (validate_registry_graph _ _) as [[again|ds]|]; [|done..].
  destruct Hs as [_ (placements' & H2' & ->)].
  assert (placements' = sorted index_key placements) as ->; [|by rewrite sorted_idemp].
  assert (Forall (λ b, ∃ a, placed collections a b) (sorted index_key placements)) as Hpl.
  { rewrite (sorted_perm index_key placements). clear -H2. induction H2; constructor; eauto. }
  clear -H2' Hpl. induction H2' as [|b b' l l' Hb H2' IH]; [done|].
  apply Forall_cons_1 in Hpl as [(a & inside & -> & Hn & Hs & Hin) Hpl]. f_equal; [|by apply IH].
  destruct Hb as (inside' & -> & Hn' & Hs' & Hin'). rewrite with_collections_twice. f_equal.
  apply (strongly_sorted_key_unique id); [done|done|done|].
  apply NoDup_Permutation; [done|done|]. intros n. rewrite Hin, Hin'.
  cbn [with_collections ia_identity]. rewrite (reaches_perm _ collections) by apply sorted_perm.
  by rewrite (sorted_perm cm_name collections).
Qed.

(** C21: building a registry's index always returns, and succeeds exactly for the
    consistent registries: distinct identities, every requirement and every
    member answered by an artifact of an allowed version, every nested
    collection present, nothing recursive.  The index is the manifest's, its
    artifacts have exactly the collections that reach them, everything is
    sorted, and validating the index again changes nothing. *)
Theorem build_registry_index_exact manifest inputs_digest artifacts collections :
  match build_registry_index manifest inputs_digest artifacts collections with
  | None => False
  | Some (Err _) => ¬ consistent_registry artifacts collections
  | Some (Ok index) =>
      consistent_registry artifacts collections
      ∧ ri_registry_id index = rm_registry_id manifest ∧ ri_services index = rm_services manifest
      ∧ ri_registry_inputs_digest index = inputs_digest
      ∧ ri_collections index = sorted cm_name collections
      ∧ (∃ placements, Forall2 (placed collections) artifacts placements
                       ∧ ri_artifacts index = sorted index_key placements)
      ∧ validate_registry_graph (ri_artifacts index) (ri_collections index) = Some (Ok (ri_artifacts index))
  end.
Proof.
  unfold build_registry_index. pose proof (validate_registry_graph_spec artifacts collections) as Hs.
  destruct (validate_registry_graph artifacts collections) as [[indexed|ds]|] eqn:Hv; [|done..].
  destruct Hs as [Hc Hp]. cbn. split_and!; try done. by eapply validate_again.
Qed.
