(* ===== verification/RegistrySchema.v ===== *)
(** [protocol/registry_schema.py]: the strict parsers and the canonical
    projections of the documents of a registry, version 1: the manifest, an
    entry, the lock and the compiled index.

    A parser of the source evaluates the fields of a document first and then
    returns the first error in a fixed order; no field has an effect, so the
    fields are bound one after the other in that order.  The field helpers are
    those of [NativeSchema], which the two modules of the source repeat. *)
From S2P Require Import Prelude PyText TextSearch Regex Domain SemVer Json Protocol CompilerModel Graph Configuration InstallState InstallSchema NativeSchema NativeTree RegistryIndex.
From Stdlib Require Import Ascii.
Open Scope Z_scope.

#[export] Instance compatibility_eq_dec : EqDecision CompatibilitySpec.
Proof. solve_decision. Defined.
#[export] Instance install_eq_dec : EqDecision InstallSpec.
Proof. solve_decision. Defined.
#[export] Instance index_setup_eq_dec : EqDecision IndexSetup.
Proof. solve_decision. Defined.
#[export] Instance review_eq_dec : EqDecision ReviewRecord.
Proof. solve_decision. Defined.
#[export] Instance index_provenance_eq_dec : EqDecision IndexProvenance.
Proof. solve_decision. Defined.

Definition REGISTRY_INVALID := MkCode "registry-invalid".
Definition REGISTRY_ENTRY_INVALID := MkCode "registry-entry-invalid".
Definition REGISTRY_LOCK_INVALID := MkCode "registry-lock-invalid".
Definition REVIEW_STATUSES : list string := ["approved"; "pending"; "rejected"].

(** [_SERVICE_RE]: [^[a-z][a-z0-9]*(?:_[a-z0-9]+)*$] *)
Definition SERVICE_RE : re :=
  RChar is_lower · RStar (RChar (λ c, is_lower c || is_digit c))
  · RStar (RLit "_" · RPlus (RChar (λ c, is_lower c || is_digit c))).
(** [_REPOSITORY_RE]: [^[A-Za-z0-9_.-]+/[A-Za-z0-9_.-]+$] *)
Definition is_repository_char (c : ascii) : bool :=
  is_alnum c || is_char "_" c || is_char "." c || is_char "-" c.
Definition REPOSITORY_RE : re := RPlus (RChar is_repository_char) · RLit "/" · RPlus (RChar is_repository_char).

Section schema.
Context `{UnicodeData}.

(** * Fields *)

(** [_safe_ref] *)
Definition FORBIDDEN : list string := [".."; "@{"; "\"; "~"; "^"; ":"; "?"; "*"; "["].
Definition safe_registry_ref (raw : string) : bool :=
  negb (str_empty raw) && negb (String.eqb raw "@")
  && negb (String.prefix "-" raw) && negb (String.prefix "/" raw)
  && negb (endswith "/" raw) && negb (endswith "." raw)
  && negb (contains "//" raw)
  && negb (existsb (λ part, String.prefix "." part || endswith ".lock" part) (split_on "/" raw))
  && negb (existsb (λ item, contains item raw) FORBIDDEN)
  && negb (existsb (λ c, is_space c || (ord c <? 32)%N || (ord c =? 127)%N) (code_points raw)).

(** [_string] with its default, one line. *)
Definition line_item (value : JsonValue) (code : DiagnosticCode) (label path : string) : Result string :=
  string_item value code label path true.

(** [_artifact_identity], [_identity_key] *)
Definition identity_item (raw_type raw_name : JsonValue) (path : string) : Result ArtifactIdentity :=
  artifact_type_raw ← line_item raw_type REGISTRY_ENTRY_INVALID "type" path;
  name ← line_item raw_name REGISTRY_ENTRY_INVALID "name" path;
  match artifact_type artifact_type_raw with
  | Some kind =>
      if fullmatch slug_re name then Ok (MkIdentity kind name)
      else doc_error REGISTRY_ENTRY_INVALID "artifact identity is invalid" path
  | None => doc_error REGISTRY_ENTRY_INVALID "artifact identity is invalid" path
  end.
Definition identity_key (raw : string) (code : DiagnosticCode) (path : string) : Result ArtifactIdentity :=
  let invalid := doc_error code ("invalid artifact identity key: " +:+ repr raw) path in
  match split_on "/" raw with
  | [kind; name] =>
      match artifact_type kind with
      | Some kind => if fullmatch slug_re name then Ok (MkIdentity kind name) else invalid
      | None => invalid
      end
  | _ => invalid
  end.

(** [_services]: one advertised service, and all of them by name. *)
Definition service_item (code : DiagnosticCode) (path name : string) (value : JsonValue) :
    Result ServiceAdvertisement :=
  if negb (fullmatch SERVICE_RE name)
  then doc_error code ("invalid service name: " +:+ repr name) path
  else
  base ← as_object value code ("service " +:+ name) path;
  fields ← known_fields base ["kind"] ["repository"] false path;
  kind ← line_item (entry fields "kind") code "service kind" path;
  if negb (fullmatch slug_re kind)
  then doc_error code "service kind must be a lowercase slug" path
  else
  repository ← opt_field fields "repository" (λ v,
    raw ← line_item v code "service repository" path;
    if fullmatch REPOSITORY_RE raw then Ok raw
    else doc_error code "service repository must be an owner/name coordinate" path);
  if String.eqb kind "github-issues" && bool_decide (repository = None)
  then doc_error code "github-issues service requires repository" path
  else Ok (MkService name kind repository).
Definition parse_services (value : JsonValue) (code : DiagnosticCode) (path : string) :
    Result (list ServiceAdvertisement) :=
  fields ← as_object value code "services" path;
  services ← mapM (λ '(name, service), service_item code path name service) fields;
  Ok (sorted sv_name services).

(** [_review] *)
Definition parse_review (value : JsonValue) (code : DiagnosticCode) (path : string) : Result ReviewRecord :=
  base ← as_object value code "review" path;
  fields ← known_fields base ["status"; "policy"] [] false path;
  status ← line_item (entry fields "status") code "review.status" path;
  policy ← line_item (entry fields "policy") code "review.policy" path;
  if negb (mem status REVIEW_STATUSES) || negb (fullmatch slug_re policy)
  then doc_error code "review record is invalid" path
  else Ok (MkReview status policy).

(** [_digest] *)
Definition digest_item (value : JsonValue) (code : DiagnosticCode) (label path : string) :
    Result ObjectDigest :=
  raw ← line_item value code label path;
  or_doc_error (parse_sha256 raw (doc_location path None)) code (label +:+ " must be canonical SHA-256") path.

(** A path that ends with [kind/name]. *)
Definition names_artifact (p : SafeRelativePath) (i : ArtifactIdentity) : bool :=
  bool_decide (skipn (length (sp_parts p) - 2) (sp_parts p) = [kind_value (id_kind i); id_name i]).

(** * The manifest *)

Definition MANIFEST_REQUIRED : list string :=
  ["schema_version"; "protocol_version"; "registry_id"; "display_name"; "requires_aart";
   "required_capabilities"; "default_channel"; "services"].

Definition registry_fields (fields : list (string * JsonValue)) (path : string) : Result RegistryManifest :=
  value ← known_fields fields MANIFEST_REQUIRED [] true path;
  schema ← check_schema_version value REGISTRY_INVALID path;
  protocol ← integer_item (entry value "protocol_version") REGISTRY_INVALID "protocol_version" path;
  registry_id ← line_item (entry value "registry_id") REGISTRY_INVALID "registry_id" path;
  display_name ← line_item (entry value "display_name") REGISTRY_INVALID "display_name" path;
  bounds ← parse_version_bounds (entry value "requires_aart") REGISTRY_INVALID path;
  names ← strings_item (entry value "required_capabilities") REGISTRY_INVALID "required_capabilities" path true;
  channel ← line_item (entry value "default_channel") REGISTRY_INVALID "default_channel" path;
  services ← parse_services (entry value "services") REGISTRY_INVALID path;
  if negb (protocol =? 1)
  then doc_error REGISTRY_INVALID ("unsupported protocol_version " +:+ str_Z protocol) path
  else if negb (fullmatch slug_re registry_id)
  then doc_error REGISTRY_INVALID "registry_id must be a lowercase slug" path
  else if negb (safe_registry_ref channel)
  then doc_error REGISTRY_INVALID "default_channel must be a safe Git ref" path
  else
  capabilities ← mapM (λ raw, parse_capability raw (doc_location path None)) names;
  Ok (MkRegistryManifest schema protocol (MkSourceId registry_id) display_name bounds
        (sorted_set cap_value capabilities) channel services (extension_fields value MANIFEST_REQUIRED)).
Definition parse_registry_manifest `{DecodeErrors} (data : bytes) (path : string) :
    py (Result RegistryManifest) :=
  document ← native_document data REGISTRY_INVALID path;
  Ret (fields ← document; registry_fields fields path).

(** * An entry *)

Definition ENTRY_REQUIRED : list string := ["schema_version"; "type"; "name"; "source"; "review"].

Definition entry_source (source : list (string * JsonValue)) (identity : ArtifactIdentity) (path : string) :
    Result GitArtifactReference :=
  fields ← known_fields source ["kind"; "url"; "ref"; "path"] [] false path;
  kind ← line_item (entry fields "kind") REGISTRY_ENTRY_INVALID "source.kind" path;
  url ← line_item (entry fields "url") REGISTRY_ENTRY_INVALID "source.url" path;
  ref ← line_item (entry fields "ref") REGISTRY_ENTRY_INVALID "source.ref" path;
  raw_path ← line_item (entry fields "path") REGISTRY_ENTRY_INVALID "source.path" path;
  if negb (String.eqb kind "git") || negb (safe_git_url url)
  then doc_error REGISTRY_ENTRY_INVALID "entry source must be a credential-free Git URL" path
  else if negb (safe_registry_ref ref)
  then doc_error REGISTRY_ENTRY_INVALID "entry source ref is unsafe" path
  else
  parsed ← parse_relative_path raw_path (doc_location path (Some "/source/path"));
  if negb (names_artifact parsed identity)
  then doc_error REGISTRY_ENTRY_INVALID "entry source path must end with its artifact type/name identity" path
  else Ok (MkGitReference url ref parsed).
Definition entry_fields (fields : list (string * JsonValue)) (path : string) : Result RegistryEntry :=
  value ← known_fields fields ENTRY_REQUIRED [] true path;
  schema ← check_schema_version value REGISTRY_ENTRY_INVALID path;
  identity ← identity_item (entry value "type") (entry value "name") path;
  source ← as_object (entry value "source") REGISTRY_ENTRY_INVALID "source" path;
  review ← parse_review (entry value "review") REGISTRY_ENTRY_INVALID path;
  reference ← entry_source source identity path;
  Ok (MkRegistryEntry schema identity reference review (extension_fields value ENTRY_REQUIRED)).
Definition parse_registry_entry `{DecodeErrors} (data : bytes) (path : string) : py (Result RegistryEntry) :=
  document ← native_document data REGISTRY_ENTRY_INVALID path;
  Ret (fields ← document; entry_fields fields path).

(** * The lock *)

Definition LOCKED_REQUIRED : list string :=
  ["origin_url"; "requested_ref"; "resolved_commit"; "path"; "manifest_digest"; "payload_digest";
   "object_digest"; "artifact_version"; "review"].

Definition locked_artifact (identity : ArtifactIdentity) (value : JsonValue) (path : string) :
    Result LockedArtifact :=
  base ← as_object value REGISTRY_LOCK_INVALID "locked entry" path;
  item ← known_fields base LOCKED_REQUIRED ["provenance_digest"] false path;
  let line name := line_item (entry item name) REGISTRY_LOCK_INVALID name path in
  let digest name := digest_item (entry item name) REGISTRY_LOCK_INVALID name path in
  origin ← line "origin_url";
  requested_ref ← line "requested_ref";
  commit ← line "resolved_commit";
  raw_path ← line "path";
  manifest_digest ← digest "manifest_digest";
  payload_digest ← digest "payload_digest";
  object_digest ← digest "object_digest";
  raw_version ← line "artifact_version";
  review ← parse_review (entry item "review") REGISTRY_LOCK_INVALID path;
  if negb (safe_git_url origin) || negb (safe_registry_ref requested_ref)
  then doc_error REGISTRY_LOCK_INVALID "locked source is unsafe" path
  else if negb (fullmatch hex40_re commit)
  then doc_error REGISTRY_LOCK_INVALID "resolved_commit must be 40 lowercase hex" path
  else
  parsed ← parse_relative_path raw_path (doc_location path None);
  if negb (names_artifact parsed identity)
  then doc_error REGISTRY_LOCK_INVALID "locked path identity mismatch" path
  else
  version ← or_doc_error (parse_semver raw_version (doc_location path None)) REGISTRY_LOCK_INVALID
              "artifact_version must be SemVer" path;
  provenance_digest ← opt_field item "provenance_digest" (λ v,
    digest_item v REGISTRY_LOCK_INVALID "provenance_digest" path);
  Ok (MkLocked origin requested_ref commit parsed manifest_digest payload_digest object_digest version
        review provenance_digest).

Definition LOCK_REQUIRED : list string := ["schema_version"; "registry_inputs_digest"; "entries"].
Definition locked_entry (path : string) (kv : string * JsonValue) :
    Result (ArtifactIdentity * LockedArtifact) :=
  identity ← identity_key kv.1 REGISTRY_LOCK_INVALID path;
  locked ← locked_artifact identity kv.2 path;
  Ok (identity, locked).
Definition lock_fields (fields : list (string * JsonValue)) (path : string) : Result RegistryLock :=
  value ← known_fields fields LOCK_REQUIRED [] false path;
  schema ← check_schema_version value REGISTRY_LOCK_INVALID path;
  inputs_digest ← digest_item (entry value "registry_inputs_digest") REGISTRY_LOCK_INVALID
                    "registry_inputs_digest" path;
  raw_entries ← as_object (entry value "entries") REGISTRY_LOCK_INVALID "entries" path;
  entries ← mapM (locked_entry path) raw_entries;
  Ok (MkRegistryLock schema inputs_digest (sorted (λ item, identity_str item.1) entries)).
Definition parse_registry_lock `{DecodeErrors} (data : bytes) (path : string) : py (Result RegistryLock) :=
  document ← native_document data REGISTRY_LOCK_INVALID path;
  Ret (fields ← document; lock_fields fields path).

(** * The index *)

(** [_named_values] *)
Definition index_names (value : JsonValue) (label : string) (allowed : option (list string)) (path : string)
    (allow_empty : bool) : Result (list string) :=
  values ← strings_item value REGISTRY_INDEX_INVALID label path allow_empty;
  if existsb (λ item, negb (fullmatch slug_re item)
                      || match allowed with Some names => negb (mem item names) | None => false end) values
  then doc_error REGISTRY_INDEX_INVALID (label +:+ " contains an unsupported value") path
  else Ok values.

(** [if value is None: return Ok(None)] *)
Definition nullable_item {A} (value : JsonValue) (parse : JsonValue → Result A) : Result (option A) :=
  match value with JNull => Ok None | _ => Some <$> parse value end.

Definition index_setup (value : JsonValue) (path : string) : Result (option IndexSetup) :=
  nullable_item value (λ value,
    base ← as_object value REGISTRY_INDEX_INVALID "setup" path;
    fields ← known_fields base ["recipe"; "platforms"; "capabilities"] [] false path;
    recipe_raw ← line_item (entry fields "recipe") REGISTRY_INDEX_INVALID "setup.recipe" path;
    platforms ← index_names (entry fields "platforms") "setup platforms" None path false;
    names ← strings_item (entry fields "capabilities") REGISTRY_INDEX_INVALID "setup capabilities" path true;
    recipe ← or_doc_error
      (recipe ← parse_relative_path recipe_raw (doc_location path None);
       if bool_decide (head (sp_parts recipe) = Some "setup") then Ok recipe else Err [])
      REGISTRY_INDEX_INVALID "setup recipe must be below setup/" path;
    capabilities ← mapM (λ raw, parse_capability raw (doc_location path None)) names;
    Ok (MkIndexSetup recipe platforms (sorted_set cap_value capabilities))).

Definition index_provenance (value : JsonValue) (path : string) : Result (option IndexProvenance) :=
  nullable_item value (λ value,
    base ← as_object value REGISTRY_INDEX_INVALID "provenance" path;
    fields ← known_fields base ["origin_url"; "resolved_commit"; "path"] [] false path;
    url ← line_item (entry fields "origin_url") REGISTRY_INDEX_INVALID "origin_url" path;
    commit ← line_item (entry fields "resolved_commit") REGISTRY_INDEX_INVALID "resolved_commit" path;
    raw_path ← line_item (entry fields "path") REGISTRY_INDEX_INVALID "provenance.path" path;
    if negb (safe_git_url url) || negb (fullmatch hex40_re commit)
    then doc_error REGISTRY_INDEX_INVALID "provenance must identify pinned Git content" path
    else
    parsed ← parse_relative_path raw_path (doc_location path None);
    Ok (MkIndexProvenance url commit parsed)).

Definition INDEX_REQUIRED : list string :=
  ["source_id"; "type"; "name"; "version"; "summary"; "manifest_digest"; "payload_digest"; "object_digest";
   "compatibility"; "install"; "setup"; "review"; "provenance"; "collections"].

Definition index_requirement (self : ArtifactIdentity) (path : string) (value : JsonValue) :
    Result ArtifactSelector :=
  base ← as_object value REGISTRY_INDEX_INVALID "artifact requirement" path;
  fields ← known_fields base ["type"; "name"] ["version"] false path;
  identity ← identity_item (entry fields "type") (entry fields "name") path;
  bounds ← opt_field fields "version" (λ v, parse_version_bounds v REGISTRY_INDEX_INVALID path);
  if bool_decide (identity = self)
  then doc_error REGISTRY_INDEX_INVALID "artifact must not require itself" path
  else Ok (MkSelector identity bounds).
Definition index_requires (value : JsonValue) (self : ArtifactIdentity) (path : string) :
    Result (list ArtifactSelector) :=
  match value with
  | JsonArray items =>
      selectors ← mapM (index_requirement self path) items;
      if has_dups (map as_identity selectors)
      then doc_error REGISTRY_INDEX_INVALID "requires contains duplicate selectors" path
      else Ok (sorted (λ s, identity_str (as_identity s)) selectors)
  | _ => doc_error REGISTRY_INDEX_INVALID "requires must be an array" path
  end.

(** The fields of an index artifact that name values: compatibility and
    installation, within what its type allows. *)
Definition index_compatibility (item : list (string * JsonValue)) (kind : ArtifactKind) (path : string) :
    Result (CompatibilitySpec * InstallSpec) :=
  compatibility ← as_object (entry item "compatibility") REGISTRY_INDEX_INVALID "compatibility" path;
  install ← as_object (entry item "install") REGISTRY_INDEX_INVALID "install" path;
  compatibility_fields ← known_fields compatibility ["profiles"; "platforms"] [] false path;
  install_fields ← known_fields install ["scopes"; "modes"; "effects"] [] false path;
  profiles ← index_names (entry compatibility_fields "profiles") "profiles" None path false;
  platforms ← index_names (entry compatibility_fields "platforms") "platforms" None path false;
  scopes ← index_names (entry install_fields "scopes") "scopes" (Some SCOPES) path false;
  modes ← index_names (entry install_fields "modes") "modes" (Some MODES) path false;
  effects ← index_names (entry install_fields "effects") "effects" (Some EFFECTS) path false;
  if negb (forallb (λ e, mem e (default [] (dget (kind_value kind) INSTALL_EFFECTS_BY_TYPE))) effects)
  then doc_error REGISTRY_INDEX_INVALID "index install effects are incompatible" path
  else Ok (MkCompatibilitySpec profiles platforms, MkInstallSpec scopes modes effects).

Definition index_artifact (path : string) (value : JsonValue) : Result IndexArtifact :=
  base ← as_object value REGISTRY_INDEX_INVALID "index artifact" path;
  item ← known_fields base INDEX_REQUIRED ["requires_aart"; "requires"] false path;
  let line name := line_item (entry item name) REGISTRY_INDEX_INVALID name path in
  let digest name := digest_item (entry item name) REGISTRY_INDEX_INVALID name path in
  source_id ← line "source_id";
  identity ← identity_item (entry item "type") (entry item "name") path;
  raw_version ← line "version";
  summary ← line "summary";
  manifest_digest ← digest "manifest_digest";
  payload_digest ← digest "payload_digest";
  object_digest ← digest "object_digest";
  if negb (fullmatch slug_re source_id)
  then doc_error REGISTRY_INDEX_INVALID "source_id must be a lowercase slug" path
  else
  version ← parse_semver raw_version (doc_location path None);
  requires_aart ← default no_bounds <$> opt_field item "requires_aart"
    (λ v, parse_version_bounds v REGISTRY_INDEX_INVALID path);
  requires ← default [] <$> opt_field item "requires" (λ v, index_requires v identity path);
  specs ← index_compatibility item (id_kind identity) path;
  setup ← index_setup (entry item "setup") path;
  provenance ← index_provenance (entry item "provenance") path;
  collections ← index_names (entry item "collections") "collections" None path true;
  review ← nullable_item (entry item "review") (λ v, parse_review v REGISTRY_INDEX_INVALID path);
  Ok (MkIndexArtifact (MkSourceId source_id) identity version summary manifest_digest payload_digest
        object_digest specs.1 specs.2 setup review provenance collections requires_aart requires).

(** [_index_collection]: a collection as its manifest would say it. *)
Definition index_collection `{DecodeErrors} (path : string) (value : JsonValue) :
    py (Result CollectionManifest) :=
  match as_object value REGISTRY_INDEX_INVALID "index collection" path with
  | Err ds => Ret (Err ds)
  | Ok fields =>
      if mem "schema_version" fields.*1
      then Ret (doc_error REGISTRY_INDEX_INVALID "compiled collection must not repeat schema_version" path)
      else
        parsed ← parse_collection_manifest
                   (canonical_json_bytes (json_object (("schema_version", JInt 1) :: fields))) path;
        Ret (or_doc_error parsed REGISTRY_INDEX_INVALID "compiled collection is invalid" path)
  end.
Fixpoint index_collections `{DecodeErrors} (path : string) (values : list JsonValue) :
    py (Result (list CollectionManifest)) :=
  match values with
  | [] => Ret (Ok [])
  | value :: values =>
      parsed ← index_collection path value;
      match parsed with
      | Err ds => Ret (Err ds)
      | Ok collection =>
          rest ← index_collections path values;
          Ret (collections ← rest; Ok (collection :: collections))
      end
  end.

(** Python's [==] on index artifacts: versions compare by precedence. *)
Definition index_artifact_eqb (a b : IndexArtifact) : bool :=
  bool_decide (ia_source_id a = ia_source_id b) && bool_decide (ia_identity a = ia_identity b)
  && same_precedence (ia_version a) (ia_version b) && String.eqb (ia_summary a) (ia_summary b)
  && bool_decide (ia_manifest_digest a = ia_manifest_digest b)
  && bool_decide (ia_payload_digest a = ia_payload_digest b)
  && bool_decide (ia_object_digest a = ia_object_digest b)
  && bool_decide (ia_compatibility a = ia_compatibility b) && bool_decide (ia_install a = ia_install b)
  && bool_decide (ia_setup a = ia_setup b) && bool_decide (ia_review a = ia_review b)
  && bool_decide (ia_provenance a = ia_provenance b)
  && bool_decide (ia_collections a = ia_collections b)
  && bounds_eqb (ia_requires_aart a) (ia_requires_aart b)
  && list_py_eq selector_eqb (ia_requires a) (ia_requires b).

Definition REGISTRY_INDEX_REQUIRED : list string :=
  ["schema_version"; "protocol_version"; "registry_id"; "registry_inputs_digest"; "artifacts"; "collections";
   "services"].

Definition index_fields `{DecodeErrors} (fields : list (string * JsonValue)) (path : string) :
    py (option (Result RegistryIndex)) :=
  let header : Result (Z * Z * string * ObjectDigest * list ServiceAdvertisement
                       * list (string * JsonValue)) :=
    value ← known_fields fields REGISTRY_INDEX_REQUIRED [] false path;
    schema ← check_schema_version value REGISTRY_INDEX_INVALID path;
    protocol ← integer_item (entry value "protocol_version") REGISTRY_INDEX_INVALID "protocol_version" path;
    registry_id ← line_item (entry value "registry_id") REGISTRY_INDEX_INVALID "registry_id" path;
    inputs_digest ← digest_item (entry value "registry_inputs_digest") REGISTRY_INDEX_INVALID
                      "registry_inputs_digest" path;
    services ← parse_services (entry value "services") REGISTRY_INDEX_INVALID path;
    if negb (protocol =? 1) || negb (fullmatch slug_re registry_id)
    then doc_error REGISTRY_INDEX_INVALID "compiled index header is invalid" path
    else Ok (schema, protocol, registry_id, inputs_digest, services, value) in
  match header with
  | Err ds => Ret (Some (Err ds))
  | Ok (schema, protocol, registry_id, inputs_digest, services, value) =>
      match entry value "artifacts", entry value "collections" with
      | JsonArray raw_artifacts, JsonArray raw_collections =>
          match mapM (index_artifact path) raw_artifacts with
          | Err ds => Ret (Some (Err ds))
          | Ok artifacts =>
              parsed ← index_collections path raw_collections;
              match parsed with
              | Err ds => Ret (Some (Err ds))
              | Ok collections =>
                  if has_dups (map index_key artifacts) || has_dups (map cm_name collections)
                  then Ret (Some (doc_error REGISTRY_INDEX_INVALID
                                    "compiled index contains duplicate identities" path))
                  else
                    match validate_registry_graph artifacts collections with
                    | None => Ret None
                    | Some (Err ds) => Ret (Some (Err ds))
                    | Some (Ok indexed) =>
                        if negb (list_py_eq index_artifact_eqb indexed (sorted index_key artifacts))
                        then Ret (Some (doc_error REGISTRY_INDEX_INVALID
                               "compiled index collection memberships do not match its graph" path))
                        else Ret (Some (Ok
                          (MkRegistryIndex schema protocol (MkSourceId registry_id) inputs_digest
                             (sorted index_key artifacts) (sorted cm_name collections) services)))
                    end
              end
          end
      | _, _ => Ret (Some (doc_error REGISTRY_INDEX_INVALID
                             "index artifacts/collections must be arrays" path))
      end
  end.
Definition parse_registry_index `{DecodeErrors} (data : bytes) (path : string) :
    py (option (Result RegistryIndex)) :=
  document ← native_document data REGISTRY_INDEX_INVALID path;
  match document with Ok fields => index_fields fields path | Err ds => Ret (Some (Err ds)) end.
End schema.

(** * Projections

    [_json_object(entries)] builds a [JsonObject], which refuses two entries of
    one name: an extension named like a field raises. *)

Definition services_json (services : list ServiceAdvertisement) : py JsonValue :=
  json_object_init (map (λ s, (sv_name s,
    json_object (("kind", JStr (sv_kind s)) :: opt_entry "repository" JStr (sv_repository s)))) services).
Definition review_to_json (r : ReviewRecord) : JsonValue :=
  json_object [("status", JStr (rr_status r)); ("policy", JStr (rr_policy r))].

Definition registry_manifest_to_json (m : RegistryManifest) : py JsonValue :=
  services ← services_json (rm_services m);
  json_object_init
    ([("schema_version", JInt (rm_schema_version m)); ("protocol_version", JInt (rm_protocol_version m));
      ("registry_id", JStr (source_id_value (rm_registry_id m))); ("display_name", JStr (rm_display_name m));
      ("requires_aart", bounds_to_json (rm_requires_aart m));
      ("required_capabilities", strings_json (map cap_value (rm_required_capabilities m)));
      ("default_channel", JStr (rm_default_channel m)); ("services", services)]
     ++ rm_extensions m).

Definition registry_entry_to_json (e : RegistryEntry) : py JsonValue :=
  json_object_init
    ([("schema_version", JInt (re_schema_version e));
      ("type", JStr (kind_value (id_kind (re_identity e)))); ("name", JStr (id_name (re_identity e)));
      ("source", json_object [("kind", JStr "git"); ("url", JStr (gr_url (re_source e)));
                              ("ref", JStr (gr_ref (re_source e)));
                              ("path", JStr (path_str (gr_path (re_source e))))]);
      ("review", review_to_json (re_review e))]
     ++ re_extensions e).

Definition locked_to_json (l : LockedArtifact) : JsonValue :=
  json_object
    ([("origin_url", JStr (la_origin_url l)); ("requested_ref", JStr (la_requested_ref l));
      ("resolved_commit", JStr (la_resolved_commit l)); ("path", JStr (path_str (la_path l)));
      ("manifest_digest", JStr (digest_str (la_manifest_digest l)));
      ("payload_digest", JStr (digest_str (la_payload_digest l)));
      ("object_digest", JStr (digest_str (la_object_digest l)));
      ("artifact_version", JStr (semver_str (la_artifact_version l)));
      ("review", review_to_json (la_review l))]
     ++ opt_entry "provenance_digest" (λ d, JStr (digest_str d)) (la_provenance_digest l)).
Definition registry_lock_to_json (l : RegistryLock) : py JsonValue :=
  entries ← json_object_init (map (λ item, (identity_str item.1, locked_to_json item.2)) (rl_entries l));
  Ret (json_object
    [("schema_version", JInt (rl_schema_version l));
     ("registry_inputs_digest", JStr (digest_str (rl_registry_inputs_digest l)));
     ("entries", entries)]).

Definition collection_to_json (c : CollectionManifest) : py JsonValue :=
  json_object_init
    ([("name", JStr (cm_name c)); ("summary", JStr (cm_summary c));
      ("artifacts", JsonArray (map selector_to_json (cm_artifacts c)));
      ("collections", strings_json (cm_collections c))]
     ++ cm_extensions c).

Definition setup_json (s : IndexSetup) : JsonValue :=
  json_object [("recipe", JStr (path_str (ix_recipe s))); ("platforms", strings_json (ix_platforms s));
               ("capabilities", strings_json (map cap_value (ix_capabilities s)))].
Definition provenance_json (p : IndexProvenance) : JsonValue :=
  json_object [("origin_url", JStr (px_origin_url p)); ("resolved_commit", JStr (px_resolved_commit p));
               ("path", JStr (path_str (px_path p)))].
Definition or_null {A} (json : A → JsonValue) (o : option A) : JsonValue :=
  match o with Some a => json a | None => JNull end.
Definition index_artifact_to_json (a : IndexArtifact) : JsonValue :=
  json_object
    ([("source_id", JStr (source_id_value (ia_source_id a)));
      ("type", JStr (kind_value (id_kind (ia_identity a)))); ("name", JStr (id_name (ia_identity a)));
      ("version", JStr (semver_str (ia_version a))); ("summary", JStr (ia_summary a));
      ("manifest_digest", JStr (digest_str (ia_manifest_digest a)));
      ("payload_digest", JStr (digest_str (ia_payload_digest a)));
      ("object_digest", JStr (digest_str (ia_object_digest a)));
      ("compatibility", json_object [("profiles", strings_json (cs_profiles (ia_compatibility a)));
                                     ("platforms", strings_json (cs_platforms (ia_compatibility a)))]);
      ("install", json_object [("scopes", strings_json (is_scopes (ia_install a)));
                               ("modes", strings_json (is_modes (ia_install a)));
                               ("effects", strings_json (is_effects (ia_install a)))]);
      ("setup", or_null setup_json (ia_setup a)); ("review", or_null review_to_json (ia_review a));
      ("provenance", or_null provenance_json (ia_provenance a));
      ("collections", strings_json (ia_collections a))]
     ++ (match vb_min_inclusive (ia_requires_aart a), vb_max_exclusive (ia_requires_aart a) with
         | None, None => [] | _, _ => [("requires_aart", bounds_to_json (ia_requires_aart a))] end)
     ++ some_entry "requires" (λ l, JsonArray (map selector_to_json l)) (ia_requires a)).
Definition registry_index_to_json (i : RegistryIndex) : py JsonValue :=
  collections ← mapM collection_to_json (ri_collections i);
  services ← services_json (ri_services i);
  Ret (json_object
    [("schema_version", JInt (ri_schema_version i)); ("protocol_version", JInt (ri_protocol_version i));
     ("registry_id", JStr (source_id_value (ri_registry_id i)));
     ("registry_inputs_digest", JStr (digest_str (ri_registry_inputs_digest i)));
     ("artifacts", JsonArray (map index_artifact_to_json (ri_artifacts i)));
     ("collections", JsonArray collections); ("services", services)]).
