(* ===== verification/RegistryRoundtrip.v ===== *)
(** What is written of a registry is read back: one lemma for each kind of
    field, for each record, and then for the lock and for the index. *)
From S2P Require Import Prelude PyText TextSearch Regex Domain SemVer Json JsonParse Protocol CompilerModel Graph Configuration InstallState InstallSchema InstallSpec NativeSchema NativeTree NativeTreeSpec RegistryIndex RegistryGraphSpec RegistrySchema.
From Stdlib Require Import Ascii.
Open Scope Z_scope.

(** * Fields *)

Section fields.
Context `{UnicodeData}.

Lemma string_item_ok s code label path single : one_line s = true → string_item (JStr s) code label path single = Ok s.
Proof.
  unfold one_line, string_item. intros Hs. split_guard.
  replace (bool_decide (s = strip s)) with true by (symmetry; by apply bool_decide_true).
  match goal with H : str_empty s = false |- _ => rewrite H end. cbn [negb orb].
  repeat match goal with H : has_char _ s = false |- _ => rewrite H end. by destruct single.
Qed.
Lemma line_item_ok s code label path : one_line s = true → line_item (JStr s) code label path = Ok s.
Proof. apply string_item_ok. Qed.
Lemma digest_item_ok d code label path : valid_digest d = true → digest_item (JStr (digest_str d)) code label path = Ok d.
Proof.
  intros Hd. unfold digest_item. rewrite line_item_ok by by apply digest_one_line.
  cbn [mbind result_bind]. by rewrite parse_sha256_digest.
Qed.

(** An object written with known fields and extensions is accepted, and its
    fields and extensions are those that were written. *)
Lemma known_fields_json fields extensions required optional allow path :
  NoDup fields.*1 → Forall (λ f, f ∈ required ++ optional) fields.*1 →
  existsb (λ f, mem f optional) required = false → forallb (has_field fields) required = true →
  NoDup extensions.*1 →
  Forall (λ f, f ∉ required ++ optional ∧ allow = true ∧ is_namespaced_extension f = true) extensions.*1 →
  let d := sorted fst (present fields ++ extensions) in
  known_fields d required optional allow path = Ok d
  ∧ (∀ k, k ∈ required ++ optional → dget k d = assoc k fields)
  ∧ extension_fields d (required ++ optional) = sorted fst extensions.
Proof.
  intros Hnd Hnames Hno Hreq Hne Hext d. pose proof (present_keys fields) as Hsub.
  rewrite Forall_forall in Hnames, Hext.
  assert (NoDup (present fields).*1) as Hnp
    by (eapply sublist_NoDup; [exact Hnd|exact Hsub]).
  assert (∀ k, k ∈ (present fields).*1 → k ∈ required ++ optional) as Hpn.
  { intros k Hk. apply Hnames. by eapply elem_of_sublist. }
  assert (NoDup (present fields ++ extensions).*1) as Hna.
  { rewrite fmap_app. apply NoDup_app. split_and!; [done| |done]. intros k Hk Hx. by apply (Hext k Hx), Hpn. }
  assert (∀ k, k ∈ required ++ optional → dget k d = assoc k fields) as Hget.
  { intros k Hk. unfold d. rewrite dget_sorted by done. rewrite dget_app, <-dget_present by done.
    destruct (dget k (present fields)); [done|]. apply dget_None. intros Hx. by apply (Hext k Hx). }
  split_and!; [|done|].
  - unfold known_fields. destruct (validate_object_fields d required optional allow _) as [r|e] eqn:Ev.
    2: { unfold validate_object_fields in Ev. by rewrite Hno in Ev. }
    destruct (validate_object_fields_spec _ _ _ _ _ _ Ev) as [Hiff Hsame]. cbn.
    destruct r as [v|ds]; [by rewrite (Hsame v)|]. exfalso. cut (is_ok (@Err (list (string * JsonValue)) ds) = true); [done|].
    apply Hiff. split.
    + intros f Hf. apply dget_is_Some. fold (dkeys d). rewrite Hget by (apply elem_of_app; by left).
      rewrite forallb_forall in Hreq. specialize (Hreq f (proj1 (list_elem_of_In _ _) Hf)).
      unfold has_field in Hreq. destruct (assoc f fields); [by eexists|done].
    + intros f Hf. unfold d in Hf. rewrite (sorted_perm fst), fmap_app in Hf.
      apply elem_of_app in Hf as [Hf|Hf]; [|right; right; by apply Hext].
      apply Hpn, elem_of_app in Hf as [?|?]; [by left|right; by left].
  - unfold extension_fields, d. rewrite filter_sorted.
    2: { intros x y Hx Hy. by apply (keyed_unique fst (present fields ++ extensions)). }
    f_equal.
    rewrite List.filter_app.
    replace (List.filter _ (present fields)) with (@nil (string * JsonValue)).
    + apply filter_all. intros kv Hkv. apply negb_true_iff, mem_false.
      apply (Hext kv.1). by apply list_elem_of_fmap_2.
    + symmetry. apply filter_nil_iff. intros kv Hkv. apply negb_false_iff, mem_true, Hpn.
      by apply list_elem_of_fmap_2.
Qed.
End fields.

(** Open an object written with the fields [flds], and look fields up in it. *)
Ltac solve_present :=
  rewrite ?app_nil_r; unfold opt_entry, some_entry;
  repeat match goal with
  | |- context [match ?o with Some _ => _ | None => _ end] => destruct o
  | |- context [match ?l with [] => _ | _ => _ end] => destruct l
  end; reflexivity.
Ltac open_fields flds d Hd :=
  match goal with |- context [known_fields (sorted fst ?l) ?r ?o ?a ?p] =>
    let E := fresh in
    assert (l = present flds ++ []) as E by solve_present;
    rewrite E; clear E;
    destruct (known_fields_json flds [] r o a p) as (-> & Hd & _);
      [by_decision|by_decision|done|done|constructor|constructor|];
    generalize dependent (sorted fst (present flds ++ [])); intros d Hd
  end.
Ltac fetch Hd :=
  cbn [mbind result_bind]; unfold entry; rewrite ?Hd by by_decision;
  cbn [assoc String.eqb Ascii.eqb Bool.eqb from_option id default mbind result_bind].
Create HintDb reads.
#[export] Hint Resolve digest_one_line slug_one_line semver_one_line kind_one_line commit_one_line : lines.
Ltac read_lines :=
  rewrite ?line_item_ok, ?digest_item_ok by eauto with lines; cbn [mbind result_bind].

(** * What the documents hold *)

Section valid.
Context `{UnicodeData}.

Definition valid_identity (i : ArtifactIdentity) : Prop :=
  mem (kind_value (id_kind i)) ARTIFACT_TYPES = true ∧ fullmatch slug_re (id_name i) = true.
Definition valid_bounds (b : VersionBounds) : Prop :=
  (∀ v, vb_min_inclusive b = Some v → wf_semver v = true)
  ∧ (∀ v, vb_max_exclusive b = Some v → wf_semver v = true)
  ∧ version_bounds (vb_min_inclusive b) (vb_max_exclusive b) None = Ok b.
Definition valid_selector (s : ArtifactSelector) : Prop :=
  valid_identity (as_identity s) ∧ ∀ b, as_version s = Some b → valid_bounds b.
(** A sorted set of slugs. *)
Definition valid_names (l : list string) : Prop :=
  sorted_set id l = l ∧ Forall (λ s, fullmatch slug_re s = true) l.
Record valid_service (s : ServiceAdvertisement) : Prop := {
  vs_name : fullmatch SERVICE_RE (sv_name s) = true;
  vs_kind : fullmatch slug_re (sv_kind s) = true;
  vs_repository r : sv_repository s = Some r → fullmatch REPOSITORY_RE r = true;
  vs_issues : sv_kind s = "github-issues" → sv_repository s ≠ None
}.
Definition valid_services (l : list ServiceAdvertisement) : Prop :=
  sorted sv_name l = l ∧ NoDup (map sv_name l) ∧ Forall valid_service l.
Definition valid_review (r : ReviewRecord) : Prop :=
  mem (rr_status r) REVIEW_STATUSES = true ∧ fullmatch slug_re (rr_policy r) = true.
Definition valid_path (p : SafeRelativePath) : Prop := wf_path p = true ∧ one_line (path_str p) = true.

Record valid_locked (i : ArtifactIdentity) (l : LockedArtifact) : Prop := {
  vl_url : one_line (la_origin_url l) = true ∧ safe_git_url (la_origin_url l) = true;
  vl_ref : one_line (la_requested_ref l) = true ∧ safe_registry_ref (la_requested_ref l) = true;
  vl_commit : fullmatch hex40_re (la_resolved_commit l) = true;
  vl_path : valid_path (la_path l) ∧ names_artifact (la_path l) i = true;
  vl_manifest : valid_digest (la_manifest_digest l) = true;
  vl_payload : valid_digest (la_payload_digest l) = true;
  vl_object : valid_digest (la_object_digest l) = true;
  vl_version : wf_semver (la_artifact_version l) = true;
  vl_review : valid_review (la_review l);
  vl_provenance d : la_provenance_digest l = Some d → valid_digest d = true
}.
Record valid_lock (l : RegistryLock) : Prop := {
  vk_schema : rl_schema_version l = 1;
  vk_digest : valid_digest (rl_registry_inputs_digest l) = true;
  vk_sorted : sorted (λ item, identity_str item.1) (rl_entries l) = rl_entries l;
  vk_unique : NoDup (map (λ item, identity_str item.1) (rl_entries l));
  vk_entries : Forall (λ item, valid_identity item.1 ∧ valid_locked item.1 item.2) (rl_entries l)
}.

Record valid_collection (c : CollectionManifest) : Prop := {
  vc_schema : cm_schema_version c = 1;
  vc_name : fullmatch slug_re (cm_name c) = true;
  vc_summary : one_line (cm_summary c) = true;
  vc_artifacts : Forall valid_selector (cm_artifacts c);
  vc_sorted : sorted (λ s, identity_str (as_identity s)) (cm_artifacts c) = cm_artifacts c;
  vc_unique : NoDup (map (λ s, identity_str (as_identity s)) (cm_artifacts c));
  vc_collections : valid_names (cm_collections c);
  vc_not_itself : cm_name c ∉ cm_collections c;
  vc_members : cm_artifacts c ≠ [] ∨ cm_collections c ≠ [];
  vc_extensions : sorted fst (cm_extensions c) = cm_extensions c ∧ NoDup (cm_extensions c).*1
                  ∧ Forall (λ k, is_namespaced_extension k = true) (cm_extensions c).*1
}.

Definition valid_setup (s : IndexSetup) : Prop :=
  valid_path (ix_recipe s) ∧ head (sp_parts (ix_recipe s)) = Some "setup"
  ∧ valid_names (ix_platforms s) ∧ ix_platforms s ≠ [] ∧ valid_names (map cap_value (ix_capabilities s)).
Definition valid_provenance (p : IndexProvenance) : Prop :=
  one_line (px_origin_url p) = true ∧ safe_git_url (px_origin_url p) = true
  ∧ fullmatch hex40_re (px_resolved_commit p) = true ∧ valid_path (px_path p).
(** A non-empty sorted set of slugs, each among some. *)
Definition chosen (allowed l : list string) : Prop :=
  valid_names l ∧ l ≠ [] ∧ Forall (λ s, mem s allowed = true) l.
Record valid_index_artifact (a : IndexArtifact) : Prop := {
  va_source : fullmatch slug_re (source_id_value (ia_source_id a)) = true;
  va_identity : valid_identity (ia_identity a);
  va_version : wf_semver (ia_version a) = true;
  va_summary : one_line (ia_summary a) = true;
  va_manifest : valid_digest (ia_manifest_digest a) = true;
  va_payload : valid_digest (ia_payload_digest a) = true;
  va_object : valid_digest (ia_object_digest a) = true;
  va_profiles : valid_names (cs_profiles (ia_compatibility a)) ∧ cs_profiles (ia_compatibility a) ≠ [];
  va_platforms : valid_names (cs_platforms (ia_compatibility a)) ∧ cs_platforms (ia_compatibility a) ≠ [];
  va_scopes : chosen SCOPES (is_scopes (ia_install a));
  va_modes : chosen MODES (is_modes (ia_install a));
  va_effects : chosen EFFECTS (is_effects (ia_install a))
    ∧ Forall (λ e, mem e (default [] (dget (kind_value (id_kind (ia_identity a))) INSTALL_EFFECTS_BY_TYPE)) = true)
        (is_effects (ia_install a));
  va_setup s : ia_setup a = Some s → valid_setup s;
  va_review r : ia_review a = Some r → valid_review r;
  va_provenance p : ia_provenance a = Some p → valid_provenance p;
  va_collections : valid_names (ia_collections a);
  va_bounds : valid_bounds (ia_requires_aart a);
  va_requires : Forall (λ s, valid_selector s ∧ as_identity s ≠ ia_identity a) (ia_requires a);
  va_requires_sorted : sorted (λ s, identity_str (as_identity s)) (ia_requires a) = ia_requires a;
  va_requires_unique : NoDup (map as_identity (ia_requires a))
}.
Record valid_index (i : RegistryIndex) : Prop := {
  vi_schema : ri_schema_version i = 1 ∧ ri_protocol_version i = 1;
  vi_registry : fullmatch slug_re (source_id_value (ri_registry_id i)) = true;
  vi_digest : valid_digest (ri_registry_inputs_digest i) = true;
  vi_artifacts : Forall valid_index_artifact (ri_artifacts i);
  vi_artifacts_sorted : sorted index_key (ri_artifacts i) = ri_artifacts i;
  vi_collections : Forall valid_collection (ri_collections i);
  vi_collections_sorted : sorted cm_name (ri_collections i) = ri_collections i;
  vi_services : valid_services (ri_services i);
  vi_graph : validate_registry_graph (ri_artifacts i) (ri_collections i) = Some (Ok (ri_artifacts i))
}.
End valid.

(** * Fields of the registry documents *)

Section roundtrip.
Context `{UnicodeData}.

Lemma artifact_type_value k : mem (kind_value k) ARTIFACT_TYPES = true → artifact_type (kind_value k) = Some k.
Proof. unfold artifact_type. intros ->. apply Coordinates.parse_kind_value. Qed.
Lemma identity_item_ok i path : valid_identity i →
  identity_item (JStr (kind_value (id_kind i))) (JStr (id_name i)) path = Ok i.
Proof.
  intros [Hk Hn]. unfold identity_item. read_lines. rewrite artifact_type_value, Hn by done. by destruct i.
Qed.
Lemma identity_key_ok i code path : valid_identity i → identity_key (identity_str i) code path = Ok i.
Proof.
  intros [Hk Hn]. destruct (kind_graph (id_kind i)) as (_ & _ & Hs). unfold identity_key, identity_str.
  rewrite split_on_app by done. rewrite split_on_none by by apply slug_no_slash.
  rewrite artifact_type_value, Hn by done. by destruct i.
Qed.

Lemma review_ok r code path : valid_review r → parse_review (review_to_json r) code path = Ok r.
Proof.
  intros [Hs Hp]. assert (one_line (rr_status r) = true) as Hl.
  { apply mem_true in Hs. clear -Hs. eapply In_one_line; [exact Hs|]. done. }
  unfold parse_review, review_to_json. cbn [as_object json_object mbind result_bind].
  open_fields [("status", Some (JStr (rr_status r))); ("policy", Some (JStr (rr_policy r)))] d Hd.
  fetch Hd. read_lines. rewrite Hs, Hp. by destruct r.
Qed.

Lemma path_ok p location : wf_path p = true → parse_relative_path (path_str p) location = Ok p.
Proof. intros Hp. by apply parse_relative_path_exact. Qed.
Lemma semver_ok v location : wf_semver v = true → parse_semver (semver_str v) location = Ok v.
Proof. intros Hv. by apply parse_semver_exact. Qed.

Lemma locked_ok i l path : valid_locked i l → locked_artifact i (locked_to_json l) path = Ok l.
Proof.
  intros [[Hu1 Hu2] [Hr1 Hr2] Hc [[Hp1 Hp2] Hn] Hm Hpl Ho Hv Hr Hprov].
  unfold locked_artifact, locked_to_json. cbn [as_object json_object mbind result_bind].
  open_fields [("origin_url", Some (JStr (la_origin_url l))); ("requested_ref", Some (JStr (la_requested_ref l)));
      ("resolved_commit", Some (JStr (la_resolved_commit l))); ("path", Some (JStr (path_str (la_path l))));
      ("manifest_digest", Some (JStr (digest_str (la_manifest_digest l))));
      ("payload_digest", Some (JStr (digest_str (la_payload_digest l))));
      ("object_digest", Some (JStr (digest_str (la_object_digest l))));
      ("artifact_version", Some (JStr (semver_str (la_artifact_version l))));
      ("review", Some (review_to_json (la_review l)));
      ("provenance_digest", (λ d, JStr (digest_str d)) <$> la_provenance_digest l)] d Hd.
  fetch Hd. read_lines. rewrite review_ok by done. cbn [mbind result_bind].
  rewrite Hu2, Hr2, Hc, path_ok by done. cbn [negb orb mbind result_bind]. rewrite Hn. cbn [negb].
  rewrite semver_ok by done. cbn [or_doc_error mbind result_bind].
  rewrite (opt_field_entry d "provenance_digest" (λ d, JStr (digest_str d)) _ (la_provenance_digest l));
    [by destruct l|by rewrite Hd by by_decision|].
  intros e He. apply digest_item_ok. by apply Hprov.
Qed.

(** ** Lists of texts *)

Lemma mapM_map_ok {A B} (f : B → A) (parse : A → Result B) l :
  Forall (λ x, parse (f x) = Ok x) l → mapM parse (map f l) = Ok l.
Proof. intros Hl. induction Hl as [|x l Hx _ IH]; [done|]. cbn. by rewrite Hx, IH. Qed.

Lemma strings_item_ok l code label path allow_empty :
  sorted_set id l = l → Forall (λ s, one_line s = true) l → (allow_empty = false → l ≠ []) →
  strings_item (strings_json l) code label path allow_empty = Ok l.
Proof.
  intros Hs Hl Hne. unfold strings_item, strings_json.
  match goal with |- (if ?b then _ else _) = _ => assert (b = false) as -> end.
  { destruct allow_empty; [done|]. cbn. apply bool_decide_eq_false. destruct l; [by destruct Hne|done]. }
  rewrite mapM_map_ok; [cbn; by rewrite Hs|]. eapply Forall_impl; [exact Hl|].
  intros s Hs'. by apply string_item_ok.
Qed.
Lemma names_one_line l : valid_names l → Forall (λ s, one_line s = true) l.
Proof. intros [_ Hl]. eapply Forall_impl; [exact Hl|]. cbn. intros. by apply slug_one_line. Qed.
Lemma index_names_ok l label allowed path allow_empty :
  valid_names l → (allow_empty = false → l ≠ []) →
  match allowed with Some names => Forall (λ s, mem s names = true) l | None => True end →
  index_names (strings_json l) label allowed path allow_empty = Ok l.
Proof.
  intros Hv Hne Ha. unfold index_names. rewrite strings_item_ok; [|by destruct Hv|by apply names_one_line|done].
  cbn [mbind result_bind]. destruct Hv as [_ Hl]. rewrite Forall_forall in Hl.
  match goal with |- (if ?b then _ else _) = _ => assert (b = false) as ->; [|done] end.
  apply not_true_iff_false. intros (s & Hs & Hb)%existsb_exists. apply list_elem_of_In in Hs.
  rewrite (Hl s Hs) in Hb. cbn in Hb. destruct allowed as [names|]; [|done].
  rewrite Forall_forall in Ha. by rewrite (Ha s Hs) in Hb.
Qed.
Lemma sorted_set_fixed {A} `{EqDecision A} (key : A → string) (l : list A) :
  sorted_set id (map key l) = map key l → sorted_set key l = l.
Proof.
  intros E. assert (NoDup (map key l)) as Hn by (rewrite <-E; apply NoDup_sorted_set).
  unfold sorted_set. rewrite remove_dups_NoDup_id by by eapply NoDup_fmap_1. apply sorted_id.
  pose proof (sorted_set_sorted id (map key l)) as Hs. rewrite E in Hs. clear -Hs.
  induction l as [|x l IH]; [constructor|]. inversion Hs as [|? ? Hs' Hx]; subst.
  constructor; [by apply IH|]. by rewrite Forall_map in Hx.
Qed.
Lemma capabilities_ok cs location :
  valid_names (map cap_value cs) →
  mapM (λ raw, parse_capability raw location) (map cap_value cs) = Ok cs ∧ sorted_set cap_value cs = cs.
Proof.
  intros [Hs Hl]. split.
  - apply mapM_map_ok. rewrite Forall_map in Hl. eapply Forall_impl; [exact Hl|].
    intros [c] Hc. unfold parse_capability. cbn in *. by rewrite Hc.
  - apply (sorted_set_fixed cap_value). by rewrite Hs.
Qed.

(** ** Bounds, selectors and services *)

Lemma version_bounds_location lo hi l k b : version_bounds lo hi l = Ok b → version_bounds lo hi k = Ok b.
Proof. unfold version_bounds. destruct lo, hi; try done. by destruct (negb _). Qed.
Lemma version_bound_ok d name code path o :
  dget name d = (λ v, JStr (semver_str v)) <$> o → (∀ v, o = Some v → wf_semver v = true) →
  version_bound d name code path = Ok o.
Proof.
  intros Hd Hv. unfold version_bound. apply (opt_field_entry d name (λ v, JStr (semver_str v))); [done|].
  intros v Ho. specialize (Hv v Ho). rewrite string_item_ok by by apply semver_one_line.
  cbn [mbind result_bind]. by apply semver_ok.
Qed.
Lemma bounds_ok b code path : valid_bounds b → parse_version_bounds (bounds_to_json b) code path = Ok b.
Proof.
  intros (Hlo & Hhi & Hb). unfold parse_version_bounds, bounds_to_json.
  cbn [as_object json_object mbind result_bind].
  open_fields [("min_inclusive", (λ v, JStr (semver_str v)) <$> vb_min_inclusive b);
               ("max_exclusive", (λ v, JStr (semver_str v)) <$> vb_max_exclusive b)] d Hd.
  cbn [mbind result_bind]. rewrite (version_bound_ok d "min_inclusive" _ _ (vb_min_inclusive b));
    [|by rewrite Hd by by_decision|done].
  rewrite (version_bound_ok d "max_exclusive" _ _ (vb_max_exclusive b)); [|by rewrite Hd by by_decision|done].
  cbn [mbind result_bind]. by eapply version_bounds_location.
Qed.

Lemma requirement_ok self s path :
  valid_selector s → as_identity s ≠ self → index_requirement self path (selector_to_json s) = Ok s.
Proof.
  intros [Hi Hb] Hne. unfold index_requirement, selector_to_json. cbn [as_object json_object mbind result_bind].
  open_fields [("type", Some (JStr (kind_value (id_kind (as_identity s)))));
               ("name", Some (JStr (id_name (as_identity s))));
               ("version", bounds_to_json <$> as_version s)] d Hd.
  fetch Hd. rewrite identity_item_ok by done. cbn [mbind result_bind].
  rewrite (opt_field_entry d "version" bounds_to_json _ (as_version s));
    [|by rewrite Hd by by_decision|intros b Hs; by apply bounds_ok, Hb].
  cbn [mbind result_bind]. rewrite bool_decide_false by done. by destruct s.
Qed.
Lemma selector_ok s path : valid_selector s → parse_selector (selector_to_json s) path = Ok s.
Proof.
  intros [[Hk Hn] Hb]. unfold parse_selector, selector_to_json. cbn [as_object json_object mbind result_bind].
  open_fields [("type", Some (JStr (kind_value (id_kind (as_identity s)))));
               ("name", Some (JStr (id_name (as_identity s))));
               ("version", bounds_to_json <$> as_version s)] d Hd.
  fetch Hd. rewrite !string_item_ok by eauto with lines. cbn [mbind result_bind].
  rewrite artifact_type_value, Hn by done. cbn [negb].
  rewrite (opt_field_entry d "version" bounds_to_json _ (as_version s));
    [|by rewrite Hd by by_decision|intros b Hs; by apply bounds_ok, Hb].
  cbn [mbind result_bind]. by destruct s as [[] ?].
Qed.

Lemma repository_one_line r : fullmatch REPOSITORY_RE r = true → one_line r = true.
Proof.
  intros Hr. apply graph_one_line; [intros ->; by vm_compute in Hr|]. revert Hr. apply fullmatch_over.
  repeat split; try done; by_ascii.
Qed.
Lemma service_ok s code path : valid_service s →
  service_item code path (sv_name s)
    (json_object (("kind", JStr (sv_kind s)) :: opt_entry "repository" JStr (sv_repository s))) = Ok s.
Proof.
  intros [Hn Hk Hr Hi]. unfold service_item. rewrite Hn. cbn [negb as_object json_object mbind result_bind].
  open_fields [("kind", Some (JStr (sv_kind s))); ("repository", JStr <$> sv_repository s)] d Hd.
  fetch Hd. read_lines. rewrite Hk. cbn [negb].
  rewrite (opt_field_entry d "repository" JStr _ (sv_repository s)); [|by rewrite Hd by by_decision|].
  - cbn [mbind result_bind]. assert (String.eqb (sv_kind s) "github-issues" && bool_decide (sv_repository s = None) = false) as ->.
    { apply not_true_iff_false. intros [Hg%String.eqb_eq Hs%bool_decide_eq_true]%andb_true_iff. by apply Hi. }
    by destruct s.
  - intros r Hs. specialize (Hr r Hs). rewrite line_item_ok by by apply repository_one_line.
    cbn [mbind result_bind]. by rewrite Hr.
Qed.

Definition service_entry (s : ServiceAdvertisement) : string * JsonValue :=
  (sv_name s, json_object (("kind", JStr (sv_kind s)) :: opt_entry "repository" JStr (sv_repository s))).
Lemma services_ok l code path : valid_services l →
  ∃ v, services_json l = Ret v ∧ parse_services v code path = Ok l.
Proof.
  intros (Hs & Hn & Hv). unfold services_json. fold service_entry.
  assert ((map service_entry l).*1 = map sv_name l) as Ek by (rewrite <-list_fmap_compose; done).
  rewrite json_object_init_Ret by by rewrite Ek. eexists. split; [done|].
  unfold parse_services, json_object. cbn [as_object mbind result_bind].
  rewrite (sorted_fmap service_entry). change (λ x, (service_entry x).1) with sv_name. rewrite Hs.
  rewrite mapM_map_ok; [cbn; by rewrite Hs|]. eapply Forall_impl; [exact Hv|]. intros s Hs'. by apply service_ok.
Qed.

(** ** The lock *)

Lemma lock_roundtrip l path : valid_lock l →
  ∃ fields, registry_lock_to_json l = Ret (JsonObject fields) ∧ lock_fields fields path = Ok l.
Proof.
  intros [Hs Hd Hsorted Hu He]. unfold registry_lock_to_json.
  set (entry_json := λ item : ArtifactIdentity * LockedArtifact, (identity_str item.1, locked_to_json item.2)).
  assert ((map entry_json (rl_entries l)).*1 = map (λ item, identity_str item.1) (rl_entries l)) as Ek.
  { rewrite <-list_fmap_compose. done. }
  rewrite json_object_init_Ret by by rewrite Ek. eexists. split; [reflexivity|].
  unfold lock_fields. change (λ x, ?f x) with f.
  open_fields [("schema_version", Some (JInt (rl_schema_version l)));
      ("registry_inputs_digest", Some (JStr (digest_str (rl_registry_inputs_digest l))));
      ("entries", Some (json_object (map entry_json (rl_entries l))))] d Hget.
  cbn [mbind result_bind]. unfold check_schema_version. fetch Hget. rewrite Hs.
  cbn [integer_item mbind result_bind Z.eqb Pos.eqb negb]. read_lines.
  unfold json_object. cbn [as_object mbind result_bind]. rewrite (sorted_fmap entry_json).
  change (λ x, (entry_json x).1) with (λ item : ArtifactIdentity * LockedArtifact, identity_str item.1).
  rewrite Hsorted.
  rewrite mapM_map_ok; [cbn; rewrite Hsorted; by destruct l; cbn in *; subst|].
  eapply Forall_impl; [exact He|]. intros [i k] [Hi Hk]. unfold locked_entry, entry_json.
  cbn [fst snd] in *. rewrite identity_key_ok by done. cbn [mbind result_bind]. by rewrite locked_ok.
Qed.

(** ** Collections *)

Lemma namespaced_not_among k names :
  is_namespaced_extension k = true → forallb (λ n, negb (is_namespaced_extension n)) names = true → k ∉ names.
Proof.
  intros Hk Hn Hin. rewrite forallb_forall in Hn. apply list_elem_of_In, Hn in Hin. by rewrite Hk in Hin.
Qed.

Lemma collection_roundtrip c path : valid_collection c →
  ∃ fields, collection_to_json c = Ret (JsonObject fields) ∧ "schema_version" ∉ fields.*1
    ∧ collection_fields (sorted fst (("schema_version", JInt 1) :: fields)) path = Ok c.
Proof.
  intros [Hsc Hn Hsu Ha Hs Hu Hc Hni Hm (He & Hed & Hex)].
  set (base := [("name", JStr (cm_name c)); ("summary", JStr (cm_summary c));
                ("artifacts", JsonArray (map selector_to_json (cm_artifacts c)));
                ("collections", NativeSchema.strings_json (cm_collections c))]).
  assert (∀ k names, k ∈ (cm_extensions c).*1 →
            forallb (λ n, negb (is_namespaced_extension n)) names = true → k ∉ names) as Hout.
  { intros k names Hk. rewrite Forall_forall in Hex. by apply namespaced_not_among, Hex. }
  assert (NoDup (base ++ cm_extensions c).*1) as Hnd.
  { rewrite fmap_app. apply NoDup_app. split_and!; [by_decision| |done].
    intros k Hk Hx. by apply (Hout k base.*1 Hx). }
  assert ("schema_version" ∉ (base ++ cm_extensions c).*1) as Hno.
  { rewrite fmap_app, elem_of_app. intros [Hk|Hk].
    - revert Hk. apply (bool_decide_unpack _). by vm_compute.
    - by apply (Hout _ ["schema_version"] Hk); [|left]. }
  unfold collection_to_json. fold base. rewrite json_object_init_Ret by done.
  eexists. split; [reflexivity|]. split; [by rewrite (sorted_perm fst)|].
  set (flds := ("schema_version", Some (JInt 1)) :: map (λ kv, (kv.1, Some kv.2)) base).
  assert (sorted fst (("schema_version", JInt 1) :: sorted fst (base ++ cm_extensions c))
          = sorted fst (present flds ++ cm_extensions c)) as ->.
  { apply sorted_unique.
    - intros x y Hx Hy. apply (keyed_unique fst (("schema_version", JInt 1) :: base ++ cm_extensions c)).
      + change (NoDup ("schema_version" :: (base ++ cm_extensions c).*1)). by apply NoDup_cons.
      + by rewrite (sorted_perm fst) in Hx.
      + by rewrite (sorted_perm fst) in Hy.
    - rewrite (sorted_perm fst). reflexivity. }
  unfold collection_fields.
  destruct (known_fields_json flds (cm_extensions c) COLLECTION_REQUIRED COLLECTION_OPTIONAL true path)
    as (-> & Hget & Hextra); [by_decision|by_decision|done|done|done| |].
  { apply Forall_forall. intros k Hk. split_and!; [by apply Hout|done|]. rewrite Forall_forall in Hex. by apply Hex. }
  rewrite He in Hextra. generalize dependent (sorted fst (present flds ++ cm_extensions c)). intros d Hget Hextra.
  unfold flds, base in Hget. cbn [map fst snd] in Hget.
  cbn [mbind result_bind]. unfold check_schema_version. fetch Hget.
  cbn [integer_item mbind result_bind Z.eqb Pos.eqb negb].
  rewrite !string_item_ok by eauto with lines. cbn [mbind result_bind]. rewrite Hn. cbn [negb].
  rewrite mapM_map_ok by (eapply Forall_impl; [exact Ha|]; intros; by apply selector_ok).
  cbn [mbind result_bind]. rewrite (proj2 (has_dups_false _) Hu).
  rewrite (opt_field_entry d "collections" NativeSchema.strings_json _ (Some (cm_collections c)));
    [|by rewrite Hget by by_decision|].
  - cbn [fmap map_ok default from_option id mbind result_bind].
    rewrite (proj2 (mem_false _ _) Hni). match goal with |- (if ?b then _ else _) = _ => assert (b = false) as -> end.
    { apply not_true_iff_false. intros [?%bool_decide_eq_true ?%bool_decide_eq_true]%andb_true_iff.
      by destruct Hm. }
    rewrite Hs, Hextra. by destruct c; cbn in *; subst.
  - intros l [= <-]. unfold named_values.
    rewrite strings_item_ok; [|by destruct Hc|by apply names_one_line|done]. cbn [mbind result_bind].
    destruct (List.find _ _) as [x|] eqn:E; [|done]. apply find_some in E as [Hx Hb].
    destruct Hc as [_ Hc]. rewrite Forall_forall in Hc. rewrite (Hc x) in Hb by by apply list_elem_of_In. done.
Qed.

(** ** The artifacts of an index *)

Lemma nullable_ok {A} (json : A → JsonValue) (parse : JsonValue → Result A) o :
  (∀ a, o = Some a → json a ≠ JNull ∧ parse (json a) = Ok a) → nullable_item (or_null json o) parse = Ok o.
Proof.
  intros Ho. destruct o as [a|]; [|done]. destruct (Ho a eq_refl) as [Hn Hp]. cbn.
  unfold nullable_item. by destruct (json a); rewrite ?Hp.
Qed.

Lemma setup_ok s path : valid_setup s → index_setup (setup_json s) path = Ok (Some s).
Proof.
  intros ((Hw & Hl) & Hhead & Hp & Hne & Hc). destruct (capabilities_ok (ix_capabilities s) (doc_location path None) Hc) as [Hcs Hset].
  unfold index_setup, setup_json. cbn [nullable_item as_object json_object mbind result_bind].
  open_fields [("recipe", Some (JStr (path_str (ix_recipe s)))); ("platforms", Some (NativeSchema.strings_json (ix_platforms s)));
               ("capabilities", Some (NativeSchema.strings_json (map cap_value (ix_capabilities s))))] d Hd.
  fetch Hd. read_lines. rewrite index_names_ok by done. cbn [mbind result_bind].
  rewrite strings_item_ok; [|by destruct Hc|by apply names_one_line|done]. cbn [mbind result_bind].
  rewrite path_ok by done. cbn [mbind result_bind]. rewrite bool_decide_true by done.
  cbn [or_doc_error mbind result_bind]. rewrite Hcs. cbn [mbind result_bind fmap map_ok]. rewrite Hset. by destruct s.
Qed.
Lemma provenance_ok p path : valid_provenance p → index_provenance (provenance_json p) path = Ok (Some p).
Proof.
  intros (Hl & Hg & Hc & Hw & Hp). unfold index_provenance, provenance_json.
  cbn [nullable_item as_object json_object mbind result_bind].
  open_fields [("origin_url", Some (JStr (px_origin_url p))); ("resolved_commit", Some (JStr (px_resolved_commit p)));
               ("path", Some (JStr (path_str (px_path p))))] d Hd.
  fetch Hd. read_lines. rewrite Hg, Hc. cbn [negb orb]. rewrite path_ok by done. by destruct p.
Qed.

Lemma compatibility_ok a item path :
  valid_index_artifact a →
  dget "compatibility" item = Some (json_object [("profiles", NativeSchema.strings_json (cs_profiles (ia_compatibility a)));
                                                 ("platforms", NativeSchema.strings_json (cs_platforms (ia_compatibility a)))]) →
  dget "install" item = Some (json_object [("scopes", NativeSchema.strings_json (is_scopes (ia_install a)));
                                           ("modes", NativeSchema.strings_json (is_modes (ia_install a)));
                                           ("effects", NativeSchema.strings_json (is_effects (ia_install a)))]) →
  index_compatibility item (id_kind (ia_identity a)) path = Ok (ia_compatibility a, ia_install a).
Proof.
  intros Hv Hc Hi. destruct (va_profiles a Hv), (va_platforms a Hv), (va_scopes a Hv) as (? & ? & ?),
    (va_modes a Hv) as (? & ? & ?), (va_effects a Hv) as ((? & ? & ?) & He).
  unfold index_compatibility, entry. rewrite Hc, Hi. unfold json_object.
  cbn [as_object from_option id default mbind result_bind].
  open_fields [("profiles", Some (NativeSchema.strings_json (cs_profiles (ia_compatibility a))));
               ("platforms", Some (NativeSchema.strings_json (cs_platforms (ia_compatibility a))))] d Hd.
  cbn [mbind result_bind].
  open_fields [("scopes", Some (NativeSchema.strings_json (is_scopes (ia_install a))));
               ("modes", Some (NativeSchema.strings_json (is_modes (ia_install a))));
               ("effects", Some (NativeSchema.strings_json (is_effects (ia_install a))))] e Hf.
  fetch Hd. rewrite ?Hf by by_decision. cbn [assoc String.eqb Ascii.eqb Bool.eqb from_option id default].
  rewrite !index_names_ok by done. cbn [mbind result_bind].
  match goal with |- (if negb ?b then _ else _) = _ => assert (b = true) as -> end.
  { apply forallb_forall. intros x Hx. rewrite Forall_forall in He. by apply He, list_elem_of_In. }
  by destruct (ia_compatibility a), (ia_install a).
Qed.

Lemma requires_ok a path :
  valid_index_artifact a →
  index_requires (JsonArray (map selector_to_json (ia_requires a))) (ia_identity a) path = Ok (ia_requires a).
Proof.
  intros Hv. unfold index_requires. rewrite mapM_map_ok.
  - cbn [mbind result_bind]. rewrite (proj2 (has_dups_false _) (va_requires_unique a Hv)).
    by rewrite (va_requires_sorted a Hv).
  - eapply Forall_impl; [exact (va_requires a Hv)|]. intros s [? ?]. by apply requirement_ok.
Qed.

Lemma index_artifact_ok a path : valid_index_artifact a → index_artifact path (index_artifact_to_json a) = Ok a.
Proof.
  intros Hv. pose proof Hv as [Hsrc Hid Hver Hsum Hm Hp Ho _ _ _ _ _ Hset Hrev Hprov Hcol Hb _ _ _].
  unfold index_artifact, index_artifact_to_json, json_object at 1. cbn [as_object mbind result_bind].
  open_fields [("source_id", Some (JStr (source_id_value (ia_source_id a))));
      ("type", Some (JStr (kind_value (id_kind (ia_identity a))))); ("name", Some (JStr (id_name (ia_identity a))));
      ("version", Some (JStr (semver_str (ia_version a)))); ("summary", Some (JStr (ia_summary a)));
      ("manifest_digest", Some (JStr (digest_str (ia_manifest_digest a))));
      ("payload_digest", Some (JStr (digest_str (ia_payload_digest a))));
      ("object_digest", Some (JStr (digest_str (ia_object_digest a))));
      ("compatibility", Some (json_object [("profiles", NativeSchema.strings_json (cs_profiles (ia_compatibility a)));
                                     ("platforms", NativeSchema.strings_json (cs_platforms (ia_compatibility a)))]));
      ("install", Some (json_object [("scopes", NativeSchema.strings_json (is_scopes (ia_install a)));
                               ("modes", NativeSchema.strings_json (is_modes (ia_install a)));
                               ("effects", NativeSchema.strings_json (is_effects (ia_install a)))]));
      ("setup", Some (or_null setup_json (ia_setup a))); ("review", Some (or_null review_to_json (ia_review a)));
      ("provenance", Some (or_null provenance_json (ia_provenance a)));
      ("collections", Some (NativeSchema.strings_json (ia_collections a)));
      ("requires_aart", match vb_min_inclusive (ia_requires_aart a), vb_max_exclusive (ia_requires_aart a) with
                        | None, None => None | _, _ => Some (bounds_to_json (ia_requires_aart a)) end);
      ("requires", match ia_requires a with
                   | [] => None | _ => Some (JsonArray (map selector_to_json (ia_requires a))) end)] d Hd.
  fetch Hd. read_lines. rewrite identity_item_ok by done. cbn [mbind result_bind]. read_lines.
  rewrite Hsrc. cbn [negb]. rewrite semver_ok by done. cbn [mbind result_bind].
  assert (default no_bounds <$> opt_field d "requires_aart"
            (λ v, parse_version_bounds v REGISTRY_INDEX_INVALID path) = Ok (ia_requires_aart a)) as ->.
  { unfold opt_field. rewrite Hd by by_decision. cbn [assoc String.eqb Ascii.eqb Bool.eqb].
    destruct (ia_requires_aart a) as [lo hi] eqn:Eb.
    destruct lo, hi; cbn [vb_min_inclusive vb_max_exclusive]; rewrite ?bounds_ok by done; done. }
  assert (default [] <$> opt_field d "requires" (λ v, index_requires v (ia_identity a) path)
          = Ok (ia_requires a)) as ->.
  { pose proof (requires_ok a path Hv) as Hr.
    unfold opt_field. rewrite Hd by by_decision. cbn [assoc String.eqb Ascii.eqb Bool.eqb].
    destruct (ia_requires a); [done|]. by rewrite Hr. }
  cbn [mbind result_bind]. rewrite compatibility_ok; [|done|by rewrite Hd by by_decision|by rewrite Hd by by_decision].
  cbn [mbind result_bind fst snd].
  assert (index_setup (or_null setup_json (ia_setup a)) path = Ok (ia_setup a)) as ->.
  { destruct (ia_setup a); [|done]. by apply setup_ok, Hset. }
  assert (index_provenance (or_null provenance_json (ia_provenance a)) path = Ok (ia_provenance a)) as ->.
  { destruct (ia_provenance a); [|done]. by apply provenance_ok, Hprov. }
  cbn [mbind result_bind]. rewrite index_names_ok by done. cbn [mbind result_bind].
  rewrite nullable_ok; [by destruct a as [[] ? ? ? ? ? ? ? ? ? ? ? ? ? ?]|].
  intros r Hr. split; [done|]. by apply review_ok, Hrev.
Qed.

(** ** The index *)

Lemma wf_json_deeper msl d d' v : (d ≤ d')%Z → wf_json msl d v = true → wf_json msl d' v = true.
Proof.
  revert d d'. induction v as [|b|n|s|l IH|fields IH] using json_ind; intros d d' Hd Hw; cbn [wf_json] in *;
    apply andb_true_iff in Hw as [Hz Hw]; apply andb_true_iff; (split; [lia|]); try done.
  - rewrite forallb_forall in *. intros x Hx. rewrite Forall_forall in IH.
    apply (IH x ltac:(by apply list_elem_of_In) (d - 1)); [lia|]. by apply Hw.
  - apply andb_true_iff in Hw as [Hw Hs]. apply andb_true_iff in Hw as [Hw Hn]. rewrite Hs, Hn, !andb_true_r.
    rewrite forallb_forall in *. intros kv Hkv. specialize (Hw kv Hkv). apply andb_true_iff in Hw as [Ht Hw].
    rewrite Ht. cbn. rewrite Forall_forall in IH.
    apply (IH kv ltac:(by apply list_elem_of_In) (d - 1)); [lia|done].
Qed.

Context `{DecodeErrors}.

Lemma index_collection_ok c v path : valid_collection c → collection_to_json c = Ret v →
  wf_json MAX_STRING (MAX_DEPTH - 2) v = true → index_collection path v = Ret (Ok c).
Proof.
  intros Hc Hv Hw. destruct (collection_roundtrip c path Hc) as (fields & Hf & Hno & Hp).
  rewrite Hf in Hv. injection Hv as <-. unfold index_collection. cbn [as_object].
  rewrite (proj2 (mem_false _ _) Hno). unfold parse_collection_manifest, native_document.
  rewrite parse_canonical; [|done|].
  - cbn [mbind py_bind result_bind as_object json_object]. rewrite Hp. done.
  - apply wf_members in Hw as (_ & Hn & _ & Hall).
    apply wf_json_object; [done|by apply NoDup_cons|]. constructor; [by split; vm_compute|].
    eapply Forall_impl; [exact Hall|]. intros kv [? Hk]. split; [done|]. eapply wf_json_deeper; [|exact Hk]. unfold MAX_DEPTH. lia.
Qed.
Lemma index_collections_ok cs path : Forall valid_collection cs →
  ∃ vs, mapM collection_to_json cs = Ret vs
        ∧ (forallb (wf_json MAX_STRING (MAX_DEPTH - 2)) vs = true → index_collections path vs = Ret (Ok cs)).
Proof.
  induction 1 as [|c cs Hc _ (vs & Hm & IH)]; [by exists []|].
  destruct (collection_roundtrip c path Hc) as (fields & Hf & _).
  exists (JsonObject fields :: vs). cbn [mapM]. rewrite Hf, Hm. split; [done|].
  cbn [forallb]. intros [Hw Hws]%andb_true_iff. cbn [index_collections].
  rewrite (index_collection_ok c _ path Hc Hf Hw), IH by done. done.
Qed.

Lemma index_artifact_eqb_refl a : index_artifact_eqb a a = true.
Proof.
  unfold index_artifact_eqb. rewrite !bool_decide_true by done.
  assert (∀ v, same_precedence v v = true) as Hv by (intros v; by apply same_precedence_key).
  assert (∀ o, opt_version_eqb o o = true) as Ho by (by intros [v|]; cbn).
  assert (∀ b, bounds_eqb b b = true) as Hb by (intros b; unfold bounds_eqb; by rewrite !Ho).
  assert (∀ s, selector_eqb s s = true) as Hs.
  { intros s. unfold selector_eqb. rewrite bool_decide_true by done. destruct (as_version s); [apply Hb|done]. }
  rewrite Hv, Hb, String.eqb_refl. cbn. induction (ia_requires a) as [|s l IH]; [done|]. cbn. by rewrite Hs, IH.
Qed.
Lemma index_list_eqb_refl l : list_py_eq index_artifact_eqb l l = true.
Proof. induction l as [|a l IH]; [done|]. cbn. by rewrite index_artifact_eqb_refl, IH. Qed.

Lemma identity_str_inj i j : identity_str i = identity_str j → i = j.
Proof.
  destruct i as [k n], j as [k' n']. unfold identity_str. cbn. intros E.
  destruct (kind_graph k) as (_ & _ & Hk), (kind_graph k') as (_ & _ & Hk').
  apply (f_equal (split_on "/")) in E. rewrite !split_on_app in E by done. injection E as Ek En.
  apply kind_value_inj in Ek as ->. f_equal. by rewrite <-(join_split_on "/" n), En, join_split_on.
Qed.
Lemma index_keys_unique artifacts :
  NoDup (map ia_identity artifacts) → has_dups (map index_key artifacts) = false.
Proof.
  intros Hn. apply has_dups_false. induction artifacts as [|a l IH]; [constructor|].
  cbn [map] in *. apply NoDup_cons in Hn as [Ha Hn]. apply NoDup_cons. split; [|by apply IH].
  intros (b & E & Hb)%list_elem_of_fmap. apply Ha. unfold index_key in E. injection E as _ E.
  apply identity_str_inj in E as ->. by apply list_elem_of_fmap_2.
Qed.

(** An index is read back from the document it is written as. *)
Lemma index_roundtrip i path : valid_index i →
  ∃ v, registry_index_to_json i = Ret v
       ∧ (wf_json MAX_STRING MAX_DEPTH v = true →
          parse_registry_index (canonical_json_bytes v) path = Ret (Some (Ok i))).
Proof.
  intros [[Hs1 Hs2] Hreg Hdig Ha Has Hc Hcs Hserv Hg].
  destruct (index_collections_ok (ri_collections i) path Hc) as (vs & Hvs & Hparse).
  destruct (services_ok (ri_services i) REGISTRY_INDEX_INVALID path Hserv) as (sv & Hsv & Hsp).
  unfold registry_index_to_json. rewrite Hvs, Hsv. cbn [mbind py_bind]. eexists. split; [reflexivity|].
  intros Hw. unfold parse_registry_index, native_document. rewrite parse_canonical; [|done|exact Hw].
  assert (forallb (wf_json MAX_STRING (MAX_DEPTH - 2)) vs = true) as Hvw.
  { apply wf_members in Hw as (_ & _ & _ & Hall). rewrite Forall_forall in Hall.
    assert (("collections", JsonArray vs) ∈ sorted fst
      [("schema_version", JInt (ri_schema_version i)); ("protocol_version", JInt (ri_protocol_version i));
       ("registry_id", JStr (source_id_value (ri_registry_id i)));
       ("registry_inputs_digest", JStr (digest_str (ri_registry_inputs_digest i)));
       ("artifacts", JsonArray (map index_artifact_to_json (ri_artifacts i)));
       ("collections", JsonArray vs); ("services", sv)]) as Hin.
    { apply elem_of_sorted. do 5 right. left. }
    destruct (Hall _ Hin) as [_ Hv]. cbn [snd wf_json] in Hv. by apply andb_true_iff in Hv as [_ Hv]. }
  clear Hw. cbn [mbind py_bind result_bind as_object json_object]. unfold index_fields.
  open_fields [("schema_version", Some (JInt (ri_schema_version i))); ("protocol_version", Some (JInt (ri_protocol_version i)));
     ("registry_id", Some (JStr (source_id_value (ri_registry_id i))));
     ("registry_inputs_digest", Some (JStr (digest_str (ri_registry_inputs_digest i))));
     ("artifacts", Some (JsonArray (map index_artifact_to_json (ri_artifacts i))));
     ("collections", Some (JsonArray vs)); ("services", Some sv)] d Hd.
  cbn [mbind result_bind]. unfold check_schema_version. fetch Hd. rewrite Hs1, Hs2.
  cbn [integer_item mbind result_bind Z.eqb Pos.eqb negb]. read_lines. rewrite Hsp. cbn [mbind result_bind].
  rewrite Hreg. cbn [negb orb]. rewrite ?Hd by by_decision. cbn [assoc String.eqb Ascii.eqb Bool.eqb default from_option id].
  rewrite mapM_map_ok by (eapply Forall_impl; [exact Ha|]; intros; by apply index_artifact_ok).
  rewrite Hparse by done. cbn [mbind py_bind].
  pose proof (validate_registry_graph_spec (ri_artifacts i) (ri_collections i)) as Hgs. rewrite Hg in Hgs |- *.
  destruct Hgs as [[Hid _ _ Hnames _ _ _] _].
  rewrite index_keys_unique by done. rewrite (proj2 (has_dups_false _) Hnames). cbn [orb].
  rewrite Has, index_list_eqb_refl. cbn [negb]. rewrite Hcs. by destruct i as [? ? [?] ? ? ? ?]; cbn in *; subst.
Qed.
End roundtrip.
