(* ===== verification/RegistryTree.v ===== *)
(** [protocol/registry_tree.py]: the digest of the declared inputs of a
    registry, and the resolution of its references from the committed lock. *)
From S2P Require Import Prelude PyText TextSearch Domain SemVer Json Protocol CompilerModel InstallSchema NativeSchema NativeTree RegistryIndex RegistrySchema.
From Stdlib Require Import Ascii.
Open Scope Z_scope.

Definition REGISTRY_LOCK_STALE := MkCode "registry-lock-stale".
Definition REGISTRY_SELF_REFERENCE := MkCode "registry-self-reference".
Definition REGISTRY_TREE_INVALID := MkCode "registry-tree-invalid".

Definition GENERATED_PATHS : list string := ["aart.lock.json"; "aart.index.json"].
Definition INPUT_MARKERS : list string := ["aart-registry.json"; "aart-source.json"].
Definition INPUT_ROOTS : list string := ["entries/"; "artifacts/"; "collections/"].

(** [_error] *)
Definition registry_tree_error {A} (code : DiagnosticCode) (message : string) (path : option string) :
    Result A :=
  fail1 (diagnostic code ERROR message
           ((λ p, MkLocation None (Some p) None None None) <$> path) [] []).

Definition is_registry_input (path : string) : bool :=
  mem path INPUT_MARKERS || existsb (λ root, String.prefix root path) INPUT_ROOTS.

Section tree.
Context `{UnicodeData}.

(** ** The declared inputs

    The tests of the entry's types hold by typing. *)

Definition canonical_entry_path (e : SnapshotEntry) : bool :=
  match parse_relative_path (path_str (se_path e)) None with
  | Ok parsed => bool_decide (parsed = se_path e)
  | Err _ => false
  end.
Definition skipped_path (path : string) : bool := mem path GENERATED_PATHS || negb (is_registry_input path).
Fixpoint input_files_from (entries : list SnapshotEntry) (seen : list string) (files : list SnapshotEntry)
    (marker_found : bool) : Result (list SnapshotEntry * bool) :=
  match entries with
  | [] => Ok (files, marker_found)
  | e :: entries =>
      let path := path_str (se_path e) in
      if negb (canonical_entry_path e)
      then registry_tree_error REGISTRY_TREE_INVALID ("snapshot path is not canonical: " +:+ repr path) None
      else if mem path seen
      then registry_tree_error REGISTRY_TREE_INVALID ("duplicate snapshot path: " +:+ path) (Some path)
      else
        let marker_found := marker_found || (String.eqb path "aart-registry.json" && is_file e) in
        if skipped_path path then input_files_from entries (path :: seen) files marker_found
        else if is_unsafe_kind e
        then registry_tree_error REGISTRY_TREE_INVALID
               ("registry inputs forbid " +:+ entry_kind_value (se_kind e) +:+ " entries: " +:+ path) (Some path)
        else input_files_from entries (path :: seen) (if is_file e then files ++ [e] else files) marker_found
  end.
Definition validated_input_files (snapshot : SourceSnapshot) : Result (list SnapshotEntry) :=
  found ← input_files_from (ss_entries snapshot) [] [] false;
  if negb found.2
  then registry_tree_error REGISTRY_TREE_INVALID "registry inputs require root aart-registry.json" None
  else Ok (sorted (λ e, path_str (se_path e)) found.1).

(** The content that is hashed: of a JSON document, its canonical bytes. *)
Definition input_content `{DecodeErrors} (e : SnapshotEntry) : py (Result bytes) :=
  let path := path_str (se_path e) in
  if endswith ".json" path then
    parsed ← parse_json (se_content e) (doc_location path None) MAX_DEPTH MAX_STRING;
    Ret match parsed with
        | Ok value => Ok (canonical_json_bytes value)
        | Err _ => registry_tree_error REGISTRY_TREE_INVALID
                     ("registry JSON input is invalid: " +:+ path) (Some path)
        end
  else Ret (Ok (se_content e)).
Fixpoint input_entries `{DecodeErrors} (files : list SnapshotEntry) (entries : list TreeEntry) :
    py (Result (list TreeEntry)) :=
  match files with
  | [] => Ret (Ok entries)
  | e :: files =>
      content ← input_content e;
      match content with
      | Err ds => Ret (Err ds)
      | Ok content => input_entries files (entries ++ [file_entry (se_path e) content (se_executable e)])
      end
  end.
(** The directories above a file, and those above any. *)
Definition parent_directories (e : SnapshotEntry) : list string :=
  map (λ n, join "/" (take n (sp_parts (se_path e)))) (seq 1 (length (sp_parts (se_path e)) - 1)).
Definition input_directories (files : list SnapshotEntry) : Result (list TreeEntry) :=
  mapM (λ raw,
    match parse_relative_path raw None with
    | Ok parsed => Ok (directory_entry parsed)
    | Err _ => registry_tree_error REGISTRY_TREE_INVALID ("registry input directory is invalid: " +:+ raw) None
    end) (sorted_set id (concat (map parent_directories files))).
Definition registry_inputs_digest `{DecodeErrors} (snapshot : SourceSnapshot) : py (Result ObjectDigest) :=
  match validated_input_files snapshot with
  | Err ds => Ret (Err ds)
  | Ok files =>
      hashed ← input_entries files [];
      match entries ← hashed; directories ← input_directories files; Ok (entries ++ directories) with
      | Err ds => Ret (Err ds)
      | Ok entries =>
          digest ← tree_digest entries;
          Ret match digest with
              | Ok digest => Ok digest
              | Err _ => registry_tree_error REGISTRY_TREE_INVALID "registry inputs cannot be hashed" None
              end
      end
  end.

(** ** The committed lock *)

(** [authority, separator, path = text.partition(sep)], then
    [f"{authority.casefold()}{separator}{path}"]. *)
Definition fold_authority (sep : ascii) (text : string) : string :=
  match cut_first sep text with
  | (authority, Some path) => casefold authority +:+ String sep "" +:+ path
  | (authority, None) => casefold authority
  end.
Definition normalized_origin (url : string) : string :=
  let normalized := removesuffix ".git" (rstrip_char "/" url) in
  if String.prefix "https://" normalized
  then "https://" +:+ fold_authority "/" (removeprefix "https://" normalized)
  else if String.prefix "git@" normalized then fold_authority ":" normalized
  else normalized.

#[export] Instance git_reference_eq_dec : EqDecision GitArtifactReference.
Proof. solve_decision. Defined.

Fixpoint map_entries (items : list RegistryEntry) (entries : list (ArtifactIdentity * RegistryEntry)) :
    Result (list (ArtifactIdentity * RegistryEntry)) :=
  match items with
  | [] => Ok entries
  | entry :: items =>
      if mem (re_identity entry) (dkeys entries)
      then registry_tree_error REGISTRY_LOCK_INVALID
             ("duplicate registry entry: " +:+ identity_str (re_identity entry)) None
      else map_entries items (entries ++ [(re_identity entry, entry)])
  end.

Definition disagrees (entry : RegistryEntry) (locked : LockedArtifact) : bool :=
  negb (String.eqb (gr_url (re_source entry)) (la_origin_url locked))
  || negb (String.eqb (gr_ref (re_source entry)) (la_requested_ref locked))
  || negb (bool_decide (gr_path (re_source entry) = la_path locked))
  || negb (bool_decide (re_review entry = la_review locked)).
Definition resolved_reference (i : ArtifactIdentity) (l : LockedArtifact) : ResolvedRegistryReference :=
  MkResolvedReference i (la_origin_url l) (la_requested_ref l) (la_resolved_commit l) (la_path l)
    (la_manifest_digest l) (la_payload_digest l) (la_object_digest l) (la_artifact_version l) (la_review l)
    (la_provenance_digest l).
Definition resolve_entry (lock : RegistryLock) (registry_origin : option string)
    (item : ArtifactIdentity * RegistryEntry) : Result ResolvedRegistryReference :=
  let '(identity, entry) := item in
  match dget identity (dict_of (rl_entries lock)) with
  | None => registry_tree_error REGISTRY_LOCK_STALE ("registry lock is missing " +:+ identity_str identity) None
  | Some locked =>
      if bool_decide (registry_origin = Some (normalized_origin (gr_url (re_source entry))))
      then registry_tree_error REGISTRY_SELF_REFERENCE
             ("registry entry " +:+ identity_str identity +:+ " references its own registry origin") None
      else if disagrees entry locked
      then registry_tree_error REGISTRY_LOCK_STALE
             ("registry entry and lock disagree for " +:+ identity_str identity) None
      else if negb (String.eqb (rr_status (re_review entry)) "approved")
      then registry_tree_error REGISTRY_LOCK_INVALID
             ("registry entry " +:+ identity_str identity +:+ " is not approved") None
      else Ok (resolved_reference identity locked)
  end.
(** [sorted(entry_map)]: identities compare by kind, then name. *)
Definition identity_order (i : ArtifactIdentity) : string * string := (kind_value (id_kind i), id_name i).
Definition resolve_locked_references (entries : list RegistryEntry) (lock : RegistryLock)
    (expected_inputs_digest : ObjectDigest) (registry_origin_url : option string) :
    Result (list ResolvedRegistryReference) :=
  if negb (bool_decide (rl_registry_inputs_digest lock = expected_inputs_digest))
  then registry_tree_error REGISTRY_LOCK_STALE "registry lock does not match deterministic registry inputs" None
  else
    entry_map ← map_entries entries [];
    mapM (resolve_entry lock (normalized_origin <$> registry_origin_url))
      (sorted (λ item, identity_order item.1) entry_map).
End tree.
