(* ===== verification/RegistrySpec.v ===== *)
(** What the registry protocol promises to its publishers and its consumers:
    documents are read back, references are resolved only as the committed lock
    says, and the inputs digest depends on the declared inputs only. *)
From S2P Require Import Prelude PyText TextSearch Regex Domain SemVer Json JsonParse Protocol CompilerModel Graph Configuration InstallState InstallSchema InstallSpec NativeSchema NativeTree NativeTreeSpec RegistryIndex RegistryGraphSpec RegistrySchema RegistryRoundtrip RegistryTree.
From Stdlib Require Import Ascii.
Open Scope Z_scope.

(** * Publishing an index *)

Section publish.
Context `{UnicodeData} `{DecodeErrors}.

(** Collections of validated registries are named once, so sorting them by name
    loses nothing. *)
Lemma built_index_valid manifest inputs_digest artifacts collections index :
  rm_protocol_version manifest = 1 → fullmatch slug_re (source_id_value (rm_registry_id manifest)) = true →
  valid_services (rm_services manifest) → valid_digest inputs_digest = true →
  Forall (λ a, ∀ inside, valid_names inside → valid_index_artifact (with_collections a inside)) artifacts →
  Forall valid_collection collections →
  build_registry_index manifest inputs_digest artifacts collections = Some (Ok index) → valid_index index.
Proof.
  intros Hp Hr Hs Hd Ha Hc Hb. unfold build_registry_index in Hb.
  pose proof (validate_registry_graph_spec artifacts collections) as Hg.
  destruct (validate_registry_graph artifacts collections) as [[indexed|ds]|] eqn:Ev; [|done..].
  injection Hb as <-. destruct Hg as [_ (placements & Hpl & ->)]. split; cbn; try done.
  - rewrite (sorted_perm index_key placements). clear Ev. rewrite Forall_forall in Hc.
    induction Hpl as [|a b artifacts placements (inside & -> & Hn & Hso & Hin) _ IH]; [constructor|].
    apply Forall_cons_1 in Ha as [Ha Has]. constructor; [|by apply IH].
    apply Ha. split.
    + unfold sorted_set. rewrite remove_dups_NoDup_id by done. by apply sorted_id.
    + apply Forall_forall. intros n (Hname & _)%Hin. apply list_elem_of_fmap in Hname as (c & -> & Hcin).
      apply (vc_name c), Hc, Hcin.
  - apply sorted_idemp.
  - by rewrite (sorted_perm cm_name collections).
  - apply sorted_idemp.
  - by eapply validate_again.
Qed.

(** C20: an index built from a valid manifest, valid artifacts and valid
    collections is printed, and when the printed document is within the bounds
    of the reader (64 levels, texts of a million characters, 64-bit integers),
    parsing its bytes, which validates every field and the whole graph again,
    gives the index back.  An extension of a collection may be too deep for
    the index, though not for the collection's own document
    ([deep_extension_unreadable] below). *)
Theorem published_index_roundtrip manifest inputs_digest artifacts collections index path :
  rm_protocol_version manifest = 1 → fullmatch slug_re (source_id_value (rm_registry_id manifest)) = true →
  valid_services (rm_services manifest) → valid_digest inputs_digest = true →
  Forall (λ a, ∀ inside, valid_names inside → valid_index_artifact (with_collections a inside)) artifacts →
  Forall valid_collection collections →
  build_registry_index manifest inputs_digest artifacts collections = Some (Ok index) →
  ∃ v, registry_index_to_json index = Ret v
       ∧ (wf_json MAX_STRING MAX_DEPTH v = true →
          parse_registry_index (canonical_json_bytes v) path = Ret (Some (Ok index))).
Proof. intros. by eapply index_roundtrip, built_index_valid. Qed.

(** A committed lock is read back: for every valid lock, parsing the printed
    bytes gives the lock again, entry by entry. *)
Theorem registry_lock_roundtrip lock path :
  valid_lock lock →
  ∃ v, registry_lock_to_json lock = Ret v
       ∧ (wf_json MAX_STRING MAX_DEPTH v = true →
          parse_registry_lock (canonical_json_bytes v) path = Ret (Ok lock)).
Proof.
  intros Hl. destruct (lock_roundtrip lock path Hl) as (fields & Hv & Hp). exists (JsonObject fields).
  split; [done|]. intros Hw. unfold parse_registry_lock, native_document.
  rewrite parse_canonical by done. cbn [mbind py_bind result_bind as_object]. by rewrite Hp.
Qed.
End publish.

(** * Resolving references *)

Section resolve.
Context `{UnicodeData}.

Lemma map_entries_spec items entries :
  NoDup (dkeys entries) →
  match map_entries items entries with
  | Err _ => ¬ NoDup (dkeys entries ++ map re_identity items)
  | Ok r => NoDup (dkeys entries ++ map re_identity items)
            ∧ r = entries ++ map (λ e, (re_identity e, e)) items
  end.
Proof.
  revert entries. induction items as [|a items IH]; intros entries Hn; cbn; [by rewrite !app_nil_r|].
  destruct (mem _ _) eqn:Em.
  { apply mem_true in Em. intros (_ & Hd & _)%NoDup_app. apply (Hd _ Em). left. }
  apply mem_false in Em. specialize (IH (entries ++ [(re_identity a, a)])).
  unfold dkeys in *. rewrite fmap_app, <-app_assoc in IH. cbn in IH. rewrite <-app_assoc in IH. apply IH.
  apply NoDup_app. split; [done|]. split; [|apply NoDup_singleton]. by intros x Hx ->%list_elem_of_singleton.
Qed.

(** The lock pins the entry, exactly as it was reviewed and approved. *)
Definition pinned (lock : RegistryLock) (registry_origin_url : option string) (entry : RegistryEntry)
    (locked : LockedArtifact) : Prop :=
  dget (re_identity entry) (dict_of (rl_entries lock)) = Some locked
  ∧ gr_url (re_source entry) = la_origin_url locked ∧ gr_ref (re_source entry) = la_requested_ref locked
  ∧ gr_path (re_source entry) = la_path locked ∧ re_review entry = la_review locked
  ∧ rr_status (re_review entry) = "approved"
  ∧ ∀ url, registry_origin_url = Some url → normalized_origin (gr_url (re_source entry)) ≠ normalized_origin url.

Lemma resolve_entry_Ok lock registry_origin_url entry r :
  resolve_entry lock (normalized_origin <$> registry_origin_url) (re_identity entry, entry) = Ok r ↔
  ∃ locked, pinned lock registry_origin_url entry locked ∧ r = resolved_reference (re_identity entry) locked.
Proof.
  unfold resolve_entry, pinned. destruct (dget _ _) as [locked|]; [|split; [done|naive_solver]].
  assert (∀ P : Prop, (∃ l, (Some locked = Some l ∧ P) ∧ r = resolved_reference (re_identity entry) l) ↔
            P ∧ r = resolved_reference (re_identity entry) locked) as Hex by naive_solver.
  split.
  - case_bool_decide as Ho; [done|]. destruct (disagrees entry locked) eqn:Ed; [done|].
    destruct (String.eqb _ _) eqn:Ea; [|done]. cbn. intros [= <-]. exists locked.
    unfold disagrees in Ed. split_guard. repeat match goal with H : String.eqb _ _ = true |- _ => apply String.eqb_eq in H end.
    split_and!; try done. intros url Hu Heq. apply Ho. by rewrite Hu, Heq.
  - intros (l & ([= <-] & Hu & Hr & Hp & Hv & Ha & Ho) & ->).
    rewrite bool_decide_false.
    2: { destruct registry_origin_url as [url|]; [|done]. cbn. intros [= E]. by apply (Ho url). }
    assert (disagrees entry locked = false) as ->.
    { unfold disagrees. rewrite Hu, Hr, Hp, Hv, !String.eqb_refl, !bool_decide_true by done. done. }
    by rewrite Ha.
Qed.

(** C22: references are resolved only from a lock made for exactly these inputs,
    in which every entry is present once, agrees with the lock in its URL, ref,
    path and review, is approved, and does not point at the registry itself;
    each one then resolves to the pinned commit and digests of the lock, and no
    moving ref is followed.  In every other case nothing is resolved. *)
Theorem resolve_locked_references_exact entries lock expected registry_origin_url :
  match resolve_locked_references entries lock expected registry_origin_url with
  | Ok resolved =>
      rl_registry_inputs_digest lock = expected ∧ NoDup (map re_identity entries)
      ∧ Forall2 (λ e r, ∃ locked, pinned lock registry_origin_url e locked
                        ∧ r = resolved_reference (re_identity e) locked)
          (sorted (λ e, identity_order (re_identity e)) entries) resolved
  | Err _ => ¬ (rl_registry_inputs_digest lock = expected ∧ NoDup (map re_identity entries)
                ∧ ∀ e, e ∈ entries → ∃ locked, pinned lock registry_origin_url e locked)
  end.
Proof.
  unfold resolve_locked_references. case_bool_decide as Hd; cbn [negb]; [|by intros [? _]].
  pose proof (map_entries_spec entries [] ltac:(constructor)) as Hm.
  destruct (map_entries entries []) as [entry_map|ds]; cbn [mbind result_bind]; [|by intros (_ & ? & _)].
  destruct Hm as [Hn ->].
  change ([] ++ map (λ e, (re_identity e, e)) entries) with (map (λ e, (re_identity e, e)) entries).
  rewrite (sorted_fmap (λ e, (re_identity e, e))). cbn [fst].
  destruct (mapM _ _) as [resolved|ds] eqn:Er.
  - apply mapM_Ok in Er. split_and!; [done|done|]. apply Forall2_fmap_l in Er.
    eapply Forall2_impl; [exact Er|]. intros e r He. by apply resolve_entry_Ok.
  - intros (_ & _ & Hall). destruct (mapM_all_Ok (resolve_entry lock (normalized_origin <$> registry_origin_url))
      (map (λ e, (re_identity e, e)) (sorted (λ e, identity_order (re_identity e)) entries))) as [k Hk]; [|congruence].
    intros x (e & -> & He)%list_elem_of_fmap. apply elem_of_sorted, Hall in He as [locked Hl].
    eexists. apply resolve_entry_Ok. eauto.
Qed.
End resolve.

(** * The inputs digest *)

Section inputs.
Context `{UnicodeData} `{DecodeErrors}.

(** A file that belongs to the declared inputs. *)
Definition entry_path (e : SnapshotEntry) : string := path_str (se_path e).
Definition declared_input (e : SnapshotEntry) : bool :=
  let path := entry_path e in
  is_file e
  && (String.eqb path "aart-registry.json" || String.eqb path "aart-source.json"
      || String.prefix "entries/" path || String.prefix "artifacts/" path || String.prefix "collections/" path).
Lemma declared_input_skipped e : declared_input e = negb (skipped_path (entry_path e)) && is_file e.
Proof.
  unfold declared_input, skipped_path, is_registry_input. cbn zeta.
  assert (∀ p l, mem p l = existsb (λ q, String.eqb p q) l) as Hmem.
  { intros p l. apply eq_true_iff_eq. rewrite mem_true, existsb_exists. setoid_rewrite String.eqb_eq.
    setoid_rewrite list_elem_of_In. naive_solver. }
  rewrite !Hmem. cbn [existsb GENERATED_PATHS INPUT_MARKERS INPUT_ROOTS].
  generalize (entry_path e) as p. intros p.
  destruct (String.eqb_spec p "aart.lock.json") as [->|_]; [by rewrite !andb_false_r|].
  destruct (String.eqb_spec p "aart.index.json") as [->|_]; [by rewrite !andb_false_r|].
  cbn [orb]. rewrite !orb_false_r, negb_involutive. rewrite andb_comm. by rewrite <-!orb_assoc.
Qed.

Lemma input_files_spec entries seen files marker found :
  input_files_from entries seen files marker = Ok found →
  found.1 = files ++ List.filter declared_input entries
  ∧ NoDup (map entry_path entries) ∧ ∀ p, p ∈ map entry_path entries → p ∉ seen.
Proof.
  revert seen files marker. induction entries as [|e entries IH]; intros seen files marker; cbn.
  { intros [= <-]. rewrite app_nil_r. split_and!; [done|constructor|by intros p []%elem_of_nil]. }
  destruct (canonical_entry_path e); cbn [negb]; [|done].
  destruct (mem _ seen) eqn:Es; [done|]. apply mem_false in Es.
  assert (∀ files marker', input_files_from entries (path_str (se_path e) :: seen) files marker' = Ok found →
            found.1 = files ++ List.filter declared_input entries
            ∧ NoDup (entry_path e :: map entry_path entries)
            ∧ ∀ p, p ∈ entry_path e :: map entry_path entries → p ∉ seen) as Hstep.
  { intros files' marker' (Hf & Hn & Hs)%IH. split_and!; [done| |].
    - apply NoDup_cons. split; [|done]. intros Hin. by apply (Hs _ Hin); left.
    - intros p [->|Hin]%elem_of_cons; [done|]. specialize (Hs p Hin). set_solver. }
  rewrite declared_input_skipped. unfold entry_path at 2. destruct (skipped_path _); cbn [negb andb]; [apply Hstep|].
  destruct (is_unsafe_kind e); [done|]. intros (Hf & Hr)%Hstep. split; [|done].
  rewrite Hf. destruct (is_file e); [by rewrite <-app_assoc|done].
Qed.

Lemma validated_inputs_spec snapshot files :
  validated_input_files snapshot = Ok files →
  files = sorted entry_path (List.filter declared_input (ss_entries snapshot))
  ∧ NoDup (map entry_path (List.filter declared_input (ss_entries snapshot))).
Proof.
  unfold validated_input_files. destruct (input_files_from _ _ _ _) as [found|] eqn:Ef; [|done].
  cbn [mbind result_bind]. destruct (negb _); [done|]. intros [= <-].
  apply input_files_spec in Ef as (-> & Hn & _). split; [done|].
  assert (∀ l : list SnapshotEntry, List.filter declared_input l `sublist_of` l) as Hsub.
  { intros l. induction l as [|e l IH]; cbn; [done|]. destruct (declared_input e); by constructor. }
  eapply sublist_NoDup; [exact Hn|]. by apply (fmap_sublist entry_path).
Qed.

(** The inputs digest depends on the declared inputs only: two accepted trees
    with the same input files have the same digest, whatever else they hold, in
    whatever order, and whatever the generated lock and index say. *)
Theorem registry_inputs_digest_inputs_only s s' :
  is_ok (validated_input_files s) = true → is_ok (validated_input_files s') = true →
  (∀ e, declared_input e = true → e ∈ ss_entries s ↔ e ∈ ss_entries s') →
  registry_inputs_digest s = registry_inputs_digest s'.
Proof.
  unfold registry_inputs_digest. destruct (validated_input_files s) as [files|] eqn:Ef; [|done].
  destruct (validated_input_files s') as [files'|] eqn:Ef'; [|done]. intros _ _ Hsame.
  apply validated_inputs_spec in Ef as [-> Hn], Ef' as [-> Hn'].
  replace (sorted entry_path (List.filter declared_input (ss_entries s')))
    with (sorted entry_path (List.filter declared_input (ss_entries s))); [done|].
  apply sorted_unique; [intros x y Hx Hy; by apply (keyed_unique entry_path (List.filter declared_input (ss_entries s)))|].
  apply NoDup_Permutation; [by eapply NoDup_fmap_1|by eapply NoDup_fmap_1|].
  intros e. rewrite !list_elem_of_In, !filter_In, <-!list_elem_of_In. naive_solver.
Qed.
End inputs.

(** * A registry of two artifacts *)

Definition sample_registry_digest : ObjectDigest :=
  MkDigest "sha256" "0123456789abcdef0123456789abcdef0123456789abcdef0123456789abcdef".
Definition sample_manifest : RegistryManifest :=
  MkRegistryManifest 1 1 (MkSourceId "team") "The team" no_bounds [] "main"
    [MkService "support" "github-issues" (Some "team/registry")] [].
Definition sample_selector (name : string) : ArtifactSelector :=
  MkSelector (MkIdentity Memory name) (Some (MkBounds (Some (MkSemVer 1 0 0 [] [])) None)).
Definition sample_indexed (name : string) (requires : list ArtifactSelector) : IndexArtifact :=
  MkIndexArtifact (MkSourceId "team") (MkIdentity Memory name) (MkSemVer 1 2 0 [] []) "A memory"
    sample_registry_digest sample_registry_digest sample_registry_digest
    (MkCompatibilitySpec ["claude"] ["linux"; "macos"]) (MkInstallSpec ["project"] ["copy"] ["managed-block"])
    None (Some (MkReview "approved" "two-eyes"))
    (Some (MkIndexProvenance "https://example.org/team/registry" "0123456789012345678901234567890123456789"
             (MkPath ["memory"; name]))) [] no_bounds requires.
Definition sample_artifacts : list IndexArtifact :=
  [sample_indexed "two" []; sample_indexed "one" [sample_selector "two"]].
Definition sample_collections (back : list string) : list CollectionManifest :=
  [MkCollectionManifest 1 "top" "Everything" [] ["inner"] [];
   MkCollectionManifest 1 "inner" "Inside" [sample_selector "one"] back [("x.note", JBool true)]].
Definition sample_build (back : list string) : option (Result RegistryIndex) :=
  build_registry_index sample_manifest sample_registry_digest sample_artifacts (sample_collections back).

(** What an index says of its artifacts, or why there is none. *)
Definition build_outcome (r : option (Result RegistryIndex)) : option (list (string * list string) + list string) :=
  match r with
  | Some (Ok i) => Some (inl (map (λ a, (identity_str (ia_identity a), ia_collections a)) (ri_artifacts i)))
  | Some (Err ds) => Some (inr (map d_message ds))
  | None => None
  end.
Example sample_registry_built :
  build_outcome (sample_build []) = Some (inl [("memory/one", ["inner"; "top"]); ("memory/two", [])]).
Proof. by vm_compute. Qed.
Example sample_collection_cycle :
  build_outcome (sample_build ["top"]) = Some (inr ["collection cycle: inner -> top -> inner"]).
Proof. by vm_compute. Qed.

Definition sample_index : RegistryIndex :=
  match sample_build [] with
  | Some (Ok i) => i
  | _ => MkRegistryIndex 0 0 (MkSourceId "") sample_registry_digest [] [] []
  end.

Lemma sample_selector_valid name : fullmatch slug_re name = true → valid_selector (sample_selector name).
Proof. intros Hn. split; [by split|]. intros b [= <-]. by split_and!; [intros v [= <-]|..]. Qed.
Lemma sample_indexed_valid (_ := ascii_unicode) name requires inside :
  fullmatch slug_re name = true → wf_path (MkPath ["memory"; name]) = true →
  Forall (λ s, valid_selector s ∧ as_identity s ≠ MkIdentity Memory name) requires →
  sorted (λ s, identity_str (as_identity s)) requires = requires → NoDup (map as_identity requires) →
  valid_names inside → one_line (path_str (MkPath ["memory"; name])) = true →
  valid_index_artifact (with_collections (sample_indexed name requires) inside).
Proof.
  intros Hn Hp Hr Hrs Hrn Hi Hl.
  assert (∀ l, sorted_set id l = l → forallb (fullmatch slug_re) l = true → valid_names l) as Hnames.
  { intros l Hs Hf. split; [done|]. apply Forall_forall. intros s Hin. rewrite forallb_forall in Hf.
    by apply Hf, list_elem_of_In. }
  assert (∀ allowed l, sorted_set id l = l → forallb (fullmatch slug_re) l = true → l ≠ [] →
            forallb (λ s, mem s allowed) l = true → chosen allowed l) as Hchosen.
  { intros allowed l Hs Hf Hne Ha. split_and!; [by apply Hnames|done|]. apply Forall_forall. intros s Hin.
    rewrite forallb_forall in Ha. by apply Ha, list_elem_of_In. }
  split; cbn [with_collections sample_indexed ia_source_id ia_identity ia_version ia_summary ia_manifest_digest
    ia_payload_digest ia_object_digest ia_compatibility ia_install ia_setup ia_review ia_provenance ia_collections
    ia_requires_aart ia_requires source_id_value cs_profiles cs_platforms is_scopes is_modes is_effects id_kind].
  - by vm_compute.
  - split; [by vm_compute|exact Hn].
  - by vm_compute.
  - by vm_compute.
  - by vm_compute.
  - by vm_compute.
  - by vm_compute.
  - split; [apply Hnames; by vm_compute|discriminate].
  - split; [apply Hnames; by vm_compute|discriminate].
  - apply Hchosen; [by vm_compute|by vm_compute|discriminate|by vm_compute].
  - apply Hchosen; [by vm_compute|by vm_compute|discriminate|by vm_compute].
  - split; [apply Hchosen; [by vm_compute|by vm_compute|discriminate|by vm_compute]|].
    repeat constructor.
  - intros s Hs. discriminate Hs.
  - intros r [= <-]. split; by vm_compute.
  - intros p [= <-]. split_and!; [by vm_compute|by vm_compute|by vm_compute|split; [exact Hp|exact Hl]].
  - exact Hi.
  - split_and!; [intros v Hv; discriminate Hv|intros v Hv; discriminate Hv|reflexivity].
  - exact Hr.
  - exact Hrs.
  - exact Hrn.
Qed.

Lemma collection_valid_by (_ := ascii_unicode) name summary artifacts nested extensions :
  fullmatch slug_re name = true → one_line summary = true → Forall valid_selector artifacts →
  sorted (λ s, identity_str (as_identity s)) artifacts = artifacts →
  has_dups (map (λ s, identity_str (as_identity s)) artifacts) = false →
  sorted_set id nested = nested → forallb (fullmatch slug_re) nested = true → mem name nested = false →
  negb (bool_decide (artifacts = []) && bool_decide (nested = [])) = true →
  sorted fst extensions = extensions → has_dups extensions.*1 = false →
  forallb is_namespaced_extension extensions.*1 = true →
  valid_collection (MkCollectionManifest 1 name summary artifacts nested extensions).
Proof.
  intros Hn Hs Ha Has Had Hne Hnf Hnm Hm Hes Hed Hef.
  assert (∀ p (l : list string), forallb p l = true → Forall (λ s, p s = true) l) as Hall.
  { intros p l Hf. apply Forall_forall. intros x Hx. rewrite forallb_forall in Hf. by apply Hf, list_elem_of_In. }
  split; cbn [cm_schema_version cm_name cm_summary cm_artifacts cm_collections cm_extensions]; try assumption.
  - reflexivity.
  - by apply has_dups_false.
  - split; [exact Hne|by apply Hall].
  - by apply mem_false.
  - apply negb_true_iff, andb_false_iff in Hm as [?%bool_decide_eq_false|?%bool_decide_eq_false]; [by left|by right].
  - split; [exact Hes|]. split; [by apply has_dups_false|by apply Hall].
Qed.
Ltac by_evaluation :=
  match goal with |- Forall _ [] => constructor | |- Forall _ _ => idtac | |- _ = _ => by vm_compute | |- _ => idtac end.
Lemma sample_collections_valid : Forall (@valid_collection ascii_unicode) (sample_collections []).
Proof.
  constructor; [|constructor; [|constructor]]; apply collection_valid_by; by_evaluation.
  constructor; [apply sample_selector_valid; by vm_compute|constructor].
Qed.

Lemma sample_artifacts_valid :
  Forall (λ a, ∀ inside, @valid_names inside → @valid_index_artifact ascii_unicode (with_collections a inside))
    sample_artifacts.
Proof.
  assert (as_identity (sample_selector "two") ≠ MkIdentity Memory "one") as Hne by by vm_compute.
  constructor; [|constructor; [|constructor]]; intros inside Hi; apply sample_indexed_valid;
    by_evaluation; try exact Hi.
  - constructor.
  - constructor; [|constructor]. split; [apply sample_selector_valid; by vm_compute|exact Hne].
  - apply NoDup_singleton.
Qed.

Lemma published_index_roundtrip_witness :
  match @registry_index_to_json sample_index with
  | Ret v => @parse_registry_index ascii_unicode plain_decode_errors (canonical_json_bytes v) "aart.index.json"
             = Ret (Some (Ok sample_index))
  | Raise _ => False
  end.
Proof.
  destruct (@published_index_roundtrip ascii_unicode plain_decode_errors sample_manifest sample_registry_digest
    sample_artifacts (sample_collections []) sample_index "aart.index.json") as (v & Hv & Hp).
  - reflexivity.
  - by vm_compute.
  - split; [by vm_compute|]. split; [apply has_dups_false; by vm_compute|]. constructor; [|constructor].
    split; [by vm_compute|by vm_compute|intros r [= <-]; by vm_compute|discriminate].
  - by vm_compute.
  - exact sample_artifacts_valid.
  - exact sample_collections_valid.
  - by vm_compute.
  - rewrite Hv. apply Hp. vm_compute in Hv. injection Hv as <-. by vm_compute.
Defined.

Definition sample_locked : LockedArtifact :=
  MkLocked "https://example.org/upstream" "main" "0123456789012345678901234567890123456789"
    (MkPath ["artifacts"; "memory"; "one"]) sample_registry_digest sample_registry_digest sample_registry_digest
    (MkSemVer 1 2 0 [] []) (MkReview "approved" "two-eyes") None.
Definition sample_lock : RegistryLock :=
  MkRegistryLock 1 sample_registry_digest [(MkIdentity Memory "one", sample_locked)].
Definition sample_entry (status : string) : RegistryEntry :=
  MkRegistryEntry 1 (MkIdentity Memory "one")
    (MkGitReference "https://example.org/upstream" "main" (MkPath ["artifacts"; "memory"; "one"]))
    (MkReview status "two-eyes") [].

Lemma registry_lock_roundtrip_witness :
  match registry_lock_to_json sample_lock with
  | Ret v => @parse_registry_lock ascii_unicode plain_decode_errors (canonical_json_bytes v) "aart.lock.json"
             = Ret (Ok sample_lock)
  | Raise _ => False
  end.
Proof.
  destruct (@registry_lock_roundtrip ascii_unicode plain_decode_errors sample_lock "aart.lock.json") as (v & Hv & Hp).
  - split; [reflexivity|by vm_compute|by vm_compute|apply has_dups_false; by vm_compute|].
    constructor; [|constructor]. split; [split; by vm_compute|].
    split; [split; by vm_compute|split; by vm_compute|by vm_compute|split; [split|]; by vm_compute
      |by vm_compute|by vm_compute|by vm_compute|by vm_compute|split; by vm_compute|discriminate].
  - rewrite Hv. apply Hp. vm_compute in Hv. injection Hv as <-. by vm_compute.
Defined.

(** An entry is resolved when approved, and refused when pending or when it
    points at the registry's own origin under another spelling. *)
Definition resolution (status : string) (origin : option string) : list string + list string :=
  match @resolve_locked_references ascii_unicode [sample_entry status]
          (MkRegistryLock 1 sample_registry_digest
             [(MkIdentity Memory "one",
               MkLocked "https://example.org/upstream" "main" "0123456789012345678901234567890123456789"
                 (MkPath ["artifacts"; "memory"; "one"]) sample_registry_digest sample_registry_digest
                 sample_registry_digest (MkSemVer 1 2 0 [] []) (MkReview status "two-eyes") None)])
          sample_registry_digest origin with
  | Ok resolved => inl (map rf_resolved_commit resolved)
  | Err ds => inr (map d_message ds)
  end.
Example approved_entry_resolves :
  resolution "approved" (Some "https://example.org/team/registry")
  = inl ["0123456789012345678901234567890123456789"].
Proof. by vm_compute. Qed.
Example pending_entry_refused :
  resolution "pending" None = inr ["registry entry memory/one is not approved"].
Proof. by vm_compute. Qed.
Example own_origin_refused :
  resolution "approved" (Some "https://example.org/upstream.git/")
  = inr ["registry entry memory/one references its own registry origin"].
Proof. by vm_compute. Qed.

Definition sample_inputs (others : list SnapshotEntry) : SourceSnapshot :=
  source_snapshot IMMUTABLE_GIT
    (MkSnapshotEntry (MkPath ["aart-registry.json"]) SFILE "{}" false
     :: MkSnapshotEntry (MkPath ["artifacts"; "memory"; "one.md"]) SFILE "One" false :: others).
Definition generated_lock : SnapshotEntry := MkSnapshotEntry (MkPath ["aart.lock.json"]) SFILE "{}" false.

Lemma registry_inputs_digest_inputs_only_witness :
  @registry_inputs_digest ascii_unicode plain_decode_errors (sample_inputs [])
  = @registry_inputs_digest ascii_unicode plain_decode_errors (sample_inputs [generated_lock]).
Proof.
  apply (@registry_inputs_digest_inputs_only ascii_unicode plain_decode_errors); [by vm_compute|by vm_compute|].
  intros e He. change (ss_entries (sample_inputs [generated_lock]))
    with (sorted entry_path (ss_entries (sample_inputs []) ++ [generated_lock])).
  rewrite elem_of_sorted, elem_of_app, list_elem_of_singleton. split; [by left|].
  intros [?|E]; [done|]. subst e. by vm_compute in He.
Defined.

(** The condition on the printed index is needed: an extension of a collection
    that is as deep as a document may be is accepted in the document of the
    collection, and sits two levels deeper in the index, which is then
    published and cannot be read. *)
Definition deep (n : nat) : JsonValue := Nat.iter n (λ v, JsonArray [v]) (JInt 0).
Definition deep_collection : CollectionManifest :=
  MkCollectionManifest 1 "deep" "Deep" [sample_selector "one"] [] [("x.acme", deep 62)].
Definition reads {A} (m : py (option (Result A))) : option bool :=
  match m with Ret (Some r) => Some (is_err r) | _ => None end.
Example deep_extension_unreadable :
  match @collection_manifest_to_json deep_collection,
        build_registry_index sample_manifest sample_registry_digest sample_artifacts [deep_collection] with
  | Ret c, Some (Ok index) =>
      match @parse_collection_manifest ascii_unicode plain_decode_errors (canonical_json_bytes c) "deep.json",
            @registry_index_to_json index with
      | Ret r, Ret v =>
          is_err r = false
          ∧ reads (@parse_registry_index ascii_unicode plain_decode_errors (canonical_json_bytes v) "aart.index.json")
            = Some true
      | _, _ => False
      end
  | _, _ => False
  end.
Proof. vm_compute. done. Qed.
