(* ===== verification/Sources.v ===== *)
(** Sources ([sources/model.py]): the identity and the places of a managed
    source, the digest of its snapshot, candidates, the published current
    source and its health, and the requests of the ports. *)
From S2P Require Import Prelude PyText TextSearch Posix Regex Domain SemVer Json Protocol CompilerModel StoreModel Redaction Marketplace Configuration.
From Stdlib Require Import Ascii QArith.
Open Scope Z_scope.

(** [SOURCE_INVALID] and [_error] of this file *)
Definition SOURCE_MODEL_INVALID := MkCode "source-invalid".
Definition source_error {A} (message : string) : Result A :=
  fail1 (diagnostic SOURCE_MODEL_INVALID ERROR message None [] []).

(** * Identity and places *)

(** [_INSTANCE_RE] *)
Definition INSTANCE_RE : re :=
  ((RStr "git" ∥ RStr "local" ∥ RStr "registry") · RLit "-" · RRep 32 (RChar is_hex))%re.
Record SourceInstanceId := MkInstance { instance_value : string }.
#[export] Instance instance_eq_dec : EqDecision SourceInstanceId.
Proof. solve_decision. Defined.
Definition source_instance_id_init (value : string) : py SourceInstanceId :=
  raise_if (negb (fullmatch INSTANCE_RE value))
    "source instance ID must be a canonical kind/digest value" ;;
  Ret (MkInstance value).

Record SourceStorePaths := MkSourcePaths {
  so_root : string; so_mirror : string; so_snapshots : string; so_current_file : string;
  so_lock_directory : string; so_temporary_root : string
}.
#[export] Instance source_paths_eq_dec : EqDecision SourceStorePaths.
Proof. solve_decision. Defined.
Definition source_store_paths_init (p : SourceStorePaths) : py SourceStorePaths :=
  raise_if (existsb (λ path, negb (norm_abs path))
              [so_root p; so_mirror p; so_snapshots p; so_current_file p; so_lock_directory p;
               so_temporary_root p])
    "source store paths must be normalized and absolute" ;;
  Ret p.

(** [_MAX_SNAPSHOT_LIMITS] *)
Definition MAX_SNAPSHOT_LIMITS : list Z := [10000; 10 * 1024 * 1024; 100 * 1024 * 1024; 64].
Record SnapshotLimits := MkLimits {
  sl_max_files : Z; sl_max_file_bytes : Z; sl_max_total_bytes : Z; sl_max_depth : Z
}.
#[export] Instance limits_eq_dec : EqDecision SnapshotLimits.
Proof. solve_decision. Defined.
Definition limit_values (l : SnapshotLimits) : list Z :=
  [sl_max_files l; sl_max_file_bytes l; sl_max_total_bytes l; sl_max_depth l].
Definition snapshot_limits (l : SnapshotLimits) : py SnapshotLimits :=
  raise_if (existsb (λ value, value <=? 0) (limit_values l)
            || existsb (λ '(value, maximum), maximum <? value)
                 (combine (limit_values l) MAX_SNAPSHOT_LIMITS))
    "snapshot limits must be positive integers within hard safety bounds" ;;
  Ret l.
(** [SnapshotLimits()] *)
Definition default_limits : SnapshotLimits := MkLimits 10000 (10 * 1024 * 1024) (100 * 1024 * 1024) 64.

(** [_INSTANCE_PREFIX] *)
Definition instance_prefix (kind : SourceKind) : string :=
  match kind with REGISTRY_GIT => "registry" | SOURCE_GIT => "git" | SOURCE_LOCAL => "local" end.
Definition instance_id (source : ConfiguredSource) (fields : list (string * JsonValue)) :
    py SourceInstanceId :=
  let digest := json_digest (json_object fields) in
  source_instance_id_init (instance_prefix (cs_kind source) +:+ "-" +:+ str_take 32 (dg_value digest)).
Definition source_instance_id (source : ConfiguredSource) : py SourceInstanceId :=
  instance_id source
    [("kind", JStr (source_kind_value (cs_kind source))); ("location", JStr (cs_location source));
     ("ref", JStr (or_empty (cs_ref source)))].

Definition source_store_paths (data_root : string) (instance_id : SourceInstanceId) :
    py SourceStorePaths :=
  raise_if (negb (norm_abs data_root)) "source data root must be normalized and absolute" ;;
  let root := pjoins data_root ["sources"; instance_value instance_id] in
  source_store_paths_init
    (MkSourcePaths root (pjoin root "mirror.git") (pjoin root "snapshots") (pjoin root "current.json")
       (pjoin root "sync.lock") (pjoin root "tmp")).

Section model.
Context `{UnicodeData}.

(** * Snapshots *)

(** The loop over the entries of a snapshot. *)
Fixpoint snapshot_tree (entries : list SnapshotEntry) (seen : list string) : Result (list TreeEntry) :=
  match entries with
  | [] => Ok []
  | entry :: rest =>
      let raw := path_str (se_path entry) in
      match parse_relative_path raw None with
      | Ok parsed =>
          if negb (bool_decide (parsed = se_path entry)) || mem raw seen
          then source_error ("snapshot path is invalid or duplicated: " +:+ repr raw)
          else
            match se_kind entry with
            | SDIRECTORY =>
                if negb (str_empty (se_content entry)) || se_executable entry
                then source_error ("snapshot directory has file metadata: " +:+ raw)
                else rest ← snapshot_tree rest (raw :: seen); Ok (directory_entry (se_path entry) :: rest)
            | SFILE =>
                rest ← snapshot_tree rest (raw :: seen);
                Ok (file_entry (se_path entry) (se_content entry) (se_executable entry) :: rest)
            | SYMLINK => source_error ("snapshot contains forbidden symlink: " +:+ raw)
            | SPECIAL => source_error ("snapshot contains forbidden special: " +:+ raw)
            end
      | Err _ => source_error ("snapshot path is invalid or duplicated: " +:+ repr raw)
      end
  end.
Definition source_snapshot_digest (snapshot : SourceSnapshot) : py (Result ObjectDigest) :=
  match snapshot_tree (ss_entries snapshot) [] with
  | Err ds => Ret (Err ds)
  | Ok entries => tree_digest entries
  end.

(** * Candidates *)

Record SourceCandidate := MkCandidate {
  sc_instance_id : SourceInstanceId;
  sc_alias : SourceAlias;
  sc_resolved_revision : string;
  sc_snapshot_digest : ObjectDigest;
  sc_snapshot : SourceSnapshot
}.
Definition source_candidate (c : SourceCandidate) : py SourceCandidate :=
  raise_if (str_empty (alias_value (sc_alias c)) || not_one_line (sc_resolved_revision c))
    "source candidate identity must be one non-empty line" ;;
  raise_if (negb (valid_digest (sc_snapshot_digest c)))
    "source candidate digest must be canonical SHA-256" ;;
  calculated ← source_snapshot_digest (sc_snapshot c);
  raise_if (negb match calculated with
                 | Ok digest => bool_decide (digest = sc_snapshot_digest c) | Err _ => false end)
    "source candidate digest must bind the exact safe snapshot" ;;
  Ret c.
Definition make_source_candidate (instance_id : SourceInstanceId) (alias : SourceAlias)
    (resolved_revision : string) (snapshot : SourceSnapshot) : py (Result SourceCandidate) :=
  digest ← source_snapshot_digest snapshot;
  match digest with
  | Err ds => Ret (Err ds)
  | Ok digest =>
      match source_candidate (MkCandidate instance_id alias resolved_revision digest snapshot) with
      | Raise (ValueError message) => Ret (source_error message)
      | Raise e => Raise e
      | Ret c => Ret (Ok c)
      end
  end.
End model.

#[export] Instance origin_eq_dec : EqDecision SnapshotOrigin.
Proof. solve_decision. Defined.
#[export] Instance source_snapshot_eq_dec : EqDecision SourceSnapshot.
Proof. solve_decision. Defined.
#[export] Instance candidate_eq_dec : EqDecision SourceCandidate.
Proof. solve_decision. Defined.

Record ValidatedSourceCandidate := MkValidated {
  va_candidate : SourceCandidate; va_declared_source_id : SourceId
}.
Definition validated_source_candidate (v : ValidatedSourceCandidate) : py ValidatedSourceCandidate :=
  raise_if (str_empty (source_id_value (va_declared_source_id v)))
    "validated source requires a declared source ID" ;;
  Ret v.

Record CurrentSource := MkCurrent {
  cu_candidate : SourceCandidate;
  cu_declared_source_id : SourceId;
  cu_published_at_epoch_seconds : Z;
  cu_snapshot_root : string
}.
#[export] Instance current_eq_dec : EqDecision CurrentSource.
Proof. solve_decision. Defined.
Definition current_source (c : CurrentSource) : py CurrentSource :=
  raise_if (str_empty (source_id_value (cu_declared_source_id c)))
    "current source requires a declared source ID" ;;
  raise_if (cu_published_at_epoch_seconds c <? 0)
    "source publication time must be a non-negative integer" ;;
  raise_if (negb (norm_abs (cu_snapshot_root c)))
    "current snapshot root must be normalized and absolute" ;;
  Ret c.

(** * Health *)

Record SourceHealth := MkHealth {
  sh_status : HealthStatus;
  sh_age_seconds : option Z;
  sh_current : option CurrentSource;
  sh_diagnostics : list Diagnostic
}.
Definition source_health (status : HealthStatus) (age_seconds : option Z) (current : option CurrentSource)
    (diagnostics : list Diagnostic) : SourceHealth :=
  MkHealth status age_seconds current (sort_diagnostics diagnostics).

Definition assess_source_health (current : option CurrentSource) (now max_age_seconds : Z)
    (diagnostics : list Diagnostic) : py SourceHealth :=
  raise_if ((now <? 0) || (max_age_seconds <? 0))
    "health clock and maximum age must be non-negative integers" ;;
  Ret match current with
      | None =>
          source_health (if bool_decide (diagnostics = []) then MISSING else DEGRADED) None None diagnostics
      | Some c =>
          let age := Z.max 0 (now - cu_published_at_epoch_seconds c) in
          let status := if negb (bool_decide (diagnostics = [])) then DEGRADED
                        else if max_age_seconds <? age then STALE else HEALTHY in
          source_health status (Some age) current diagnostics
      end.

(** * Synchronization *)

Inductive SyncFallback : Type := REQUIRE_FRESH | ALLOW_LAST_KNOWN_GOOD.
#[export] Instance fallback_eq_dec : EqDecision SyncFallback.
Proof. solve_decision. Defined.
Inductive SyncDisposition : Type := PUBLISHED | UNCHANGED | RETAINED.

Record SourceSyncOutcome := MkSyncOutcome {
  yo_disposition : SyncDisposition; yo_current : CurrentSource; yo_diagnostics : list Diagnostic
}.
Definition source_sync_outcome (disposition : SyncDisposition) (current : CurrentSource)
    (diagnostics : list Diagnostic) : SourceSyncOutcome :=
  MkSyncOutcome disposition current (sort_diagnostics diagnostics).

Record SourceIdentityTransition := MkTransition {
  tr_from_source_id : SourceId; tr_to_source_id : SourceId;
  tr_from_revision : string; tr_to_revision : string;
  tr_from_digest : ObjectDigest; tr_to_digest : ObjectDigest
}.
#[export] Instance transition_eq_dec : EqDecision SourceIdentityTransition.
Proof. solve_decision. Defined.
Definition source_identity_transition (t : SourceIdentityTransition) : py SourceIdentityTransition :=
  raise_if (str_empty (source_id_value (tr_from_source_id t)) || str_empty (source_id_value (tr_to_source_id t)))
    "identity transition requires both declared source IDs" ;;
  raise_if (bool_decide (tr_from_source_id t = tr_to_source_id t))
    "identity transition requires two different declared source IDs" ;;
  raise_if (existsb not_one_line [tr_from_revision t; tr_to_revision t])
    "identity transition revisions must be one non-empty line" ;;
  raise_if (existsb (λ d, negb (valid_digest d)) [tr_from_digest t; tr_to_digest t])
    "identity transition digests must be canonical SHA-256" ;;
  Ret t.

(** * Requests *)

Record LocalSnapshotRequest := MkLocalRequest {
  lr_instance_id : SourceInstanceId; lr_alias : SourceAlias; lr_root : string; lr_limits : SnapshotLimits
}.
Definition local_snapshot_request (r : LocalSnapshotRequest) : py LocalSnapshotRequest :=
  raise_if (str_empty (alias_value (lr_alias r)) || negb (norm_abs (lr_root r)))
    "local snapshot request requires an alias and normalized absolute root" ;;
  Ret r.

Record GitSnapshotRequest := MkGitRequest {
  gr_instance_id : SourceInstanceId; gr_alias : SourceAlias; gr_location : string; gr_ref : string;
  gr_mirror_path : string; gr_temporary_root : string; gr_limits : SnapshotLimits;
  gr_timeout_seconds : Z; gr_allow_local_transport : bool
}.
Definition git_snapshot_request (r : GitSnapshotRequest) : py GitSnapshotRequest :=
  raise_if (str_empty (alias_value (gr_alias r)) || str_empty (gr_location r) || not_one_line (gr_ref r))
    "Git snapshot request identity is invalid" ;;
  raise_if (existsb (λ path, negb (norm_abs path)) [gr_mirror_path r; gr_temporary_root r])
    "Git snapshot paths must be normalized and absolute" ;;
  raise_if (gr_timeout_seconds r <=? 0) "Git snapshot timeout/transport value is invalid" ;;
  Ret r.

Record SourceValidationRequest := MkValidationRequest {
  vr_candidate : SourceCandidate; vr_executable_version : SemVer; vr_available_capabilities : list Capability
}.
Record CurrentSourceRequest := MkCurrentRequest { qr_paths : SourceStorePaths; qr_alias : SourceAlias }.

Record SourcePublishCommand := MkPublishCommand {
  pc_paths : SourceStorePaths; pc_validated : ValidatedSourceCandidate; pc_observed_at_epoch_seconds : Z
}.
Definition source_publish_command (c : SourcePublishCommand) : py SourcePublishCommand :=
  raise_if (pc_observed_at_epoch_seconds c <? 0) "source publish time must be a non-negative integer" ;;
  Ret c.
Record SourcePublishReceipt := MkSourceReceipt { sr_current : CurrentSource; sr_created : bool }.

(** The [float] timeout is a finite number. *)
Record SourceLockRequest := MkSourceLock {
  sk_lock_directory : string; sk_timeout_seconds : Q; sk_stale_after_seconds : Z
}.
Definition source_lock_request (r : SourceLockRequest) : py SourceLockRequest :=
  raise_if (negb (norm_abs (sk_lock_directory r)) || Qle_bool (sk_timeout_seconds r) 0
            || (sk_stale_after_seconds r <=? 0)) "source lock request is invalid" ;;
  Ret r.
Record SourceLockLease := MkSourceLease { se_lock_directory : string; se_token : string }.
Definition source_lock_lease (l : SourceLockLease) : py SourceLockLease :=
  raise_if (negb (isabs (se_lock_directory l)) || str_empty (se_token l)) "source lock lease is invalid" ;;
  Ret l.
