(* ===== verification/SourceSync.v ===== *)
(** Keeping a managed source in step with its origin ([application/sources.py]):
    synchronization, discarding, adopting a new identity, and looking at
    freshness, over injected ports.

    A port's answer may depend on every call made before it; a run leaves the
    trace of its calls, also when it raises ([Effects.v]). *)
From S2P Require Import Prelude Effects PyText Posix Domain SemVer Protocol CompilerModel Redaction Marketplace Configuration Ports Sources.
From Stdlib Require Import QArith.
Open Scope Z_scope.

Inductive source_event : Type :=
  | SAcquireLock (request : SourceLockRequest) (answer : Result SourceLockLease)
  | SReleaseLock (lease : SourceLockLease) (answer : Result unit)
  | SReadCurrent (request : CurrentSourceRequest) (answer : Result (option CurrentSource))
  | SAcquireLocal (request : LocalSnapshotRequest) (answer : Result SourceCandidate)
  | SAcquireGit (request : GitSnapshotRequest) (answer : Result SourceCandidate)
  | SValidate (request : SourceValidationRequest) (answer : Result ValidatedSourceCandidate)
  | SPublish (command : SourcePublishCommand) (answer : Result SourcePublishReceipt)
  | SDiscard (paths : SourceStorePaths) (answer : Result bool)
  | SPruneRoot (paths : SourceStorePaths)
  | SPruneSnapshots (paths : SourceStorePaths) (digest : ObjectDigest).

Notation sync_calls := (list source_event).
Notation sync A := (st (list source_event) A).

Record SourceSyncPorts := MkSyncPorts {
  sp_acquire_lock : sync_calls → SourceLockRequest → Result SourceLockLease;
  sp_release_lock : sync_calls → SourceLockLease → Result unit;
  sp_read_current : sync_calls → CurrentSourceRequest → Result (option CurrentSource);
  sp_acquire_local : sync_calls → LocalSnapshotRequest → Result SourceCandidate;
  sp_acquire_git : sync_calls → GitSnapshotRequest → Result SourceCandidate;
  sp_validate : sync_calls → SourceValidationRequest → Result ValidatedSourceCandidate;
  sp_publish : sync_calls → SourcePublishCommand → Result SourcePublishReceipt
}.
Record SourceDiscardPorts := MkDiscardPorts {
  sd_acquire_lock : sync_calls → SourceLockRequest → Result SourceLockLease;
  sd_release_lock : sync_calls → SourceLockLease → Result unit;
  sd_read_current : sync_calls → CurrentSourceRequest → Result (option CurrentSource);
  sd_discard : sync_calls → SourceStorePaths → Result bool
}.

Section ports.
Context (ports : SourceSyncPorts).
Definition take_source_lock (r : SourceLockRequest) : sync (Result SourceLockLease) :=
  call (λ t, sp_acquire_lock ports t r) (SAcquireLock r).
Definition give_source_lock (l : SourceLockLease) : sync (Result unit) :=
  call (λ t, sp_release_lock ports t l) (SReleaseLock l).
Definition read_current (r : CurrentSourceRequest) : sync (Result (option CurrentSource)) :=
  call (λ t, sp_read_current ports t r) (SReadCurrent r).
Definition acquire_local (r : LocalSnapshotRequest) : sync (Result SourceCandidate) :=
  call (λ t, sp_acquire_local ports t r) (SAcquireLocal r).
Definition acquire_git (r : GitSnapshotRequest) : sync (Result SourceCandidate) :=
  call (λ t, sp_acquire_git ports t r) (SAcquireGit r).
Definition validate_source (r : SourceValidationRequest) : sync (Result ValidatedSourceCandidate) :=
  call (λ t, sp_validate ports t r) (SValidate r).
Definition publish_source (c : SourcePublishCommand) : sync (Result SourcePublishReceipt) :=
  call (λ t, sp_publish ports t c) (SPublish c).
End ports.
(** A port that answers nothing. *)
Definition prune_root (paths : SourceStorePaths) : sync unit := λ t, (Ret tt, t ++ [SPruneRoot paths]).
Definition prune_snapshots (paths : SourceStorePaths) (digest : ObjectDigest) : sync unit :=
  λ t, (Ret tt, t ++ [SPruneSnapshots paths digest]).

(** * Requests *)

(** The fields the requests share: [SourceSyncRequest], [SourceAdoptionRequest]
    and [SourceFreshnessRequest] without the ones each adds. *)
Record AcquisitionRequest := MkAcquisition {
  rq_source : ConfiguredSource;
  rq_data_root : string;
  rq_executable_version : SemVer;
  rq_available_capabilities : list Capability;
  rq_observed_at_epoch_seconds : Z;
  rq_timeout_seconds : Z;
  rq_limits : SnapshotLimits;
  rq_lock_timeout_seconds : Q;
  rq_lock_stale_after_seconds : Z
}.
Definition acquisition_valid (r : AcquisitionRequest) : bool :=
  norm_abs (rq_data_root r) && (0 <=? rq_observed_at_epoch_seconds r) && (0 <? rq_timeout_seconds r).
Record SourceSyncRequest := MkSyncRequest {
  yq_common : AcquisitionRequest; yq_fallback : SyncFallback; yq_offline : bool
}.
Definition source_sync_request (r : SourceSyncRequest) : py SourceSyncRequest :=
  raise_if (negb (acquisition_valid (yq_common r))) "source sync request is invalid" ;; Ret r.
Record SourceAdoptionRequest := MkAdoptionRequest {
  oq_common : AcquisitionRequest; oq_expected : option SourceIdentityTransition
}.
Definition source_adoption_request (r : SourceAdoptionRequest) : py SourceAdoptionRequest :=
  raise_if (negb (acquisition_valid (oq_common r))) "source adoption request is invalid" ;; Ret r.
Definition source_freshness_request (r : AcquisitionRequest) : py AcquisitionRequest :=
  raise_if (negb (acquisition_valid r)) "source freshness request is invalid" ;; Ret r.
Record SourceDiscardRequest := MkDiscardRequest {
  dq_source : ConfiguredSource; dq_data_root : string;
  dq_lock_timeout_seconds : Q; dq_lock_stale_after_seconds : Z
}.
Definition source_discard_request (r : SourceDiscardRequest) : py SourceDiscardRequest :=
  raise_if (negb (norm_abs (dq_data_root r))) "source discard request is invalid" ;; Ret r.
Record SourceDiscardOutcome := MkDiscardOutcome { do_existed : bool; do_discarded : option CurrentSource }.
Record SourceAdoptionOutcome := MkAdoptionOutcome {
  ao_transition : SourceIdentityTransition; ao_finalized : bool; ao_current : CurrentSource
}.
Record SourceStatusRequest := MkStatusRequest {
  tq_current : CurrentSourceRequest; tq_now_epoch_seconds : Z; tq_max_age_seconds : Z
}.
Definition source_status_request (r : SourceStatusRequest) : py SourceStatusRequest :=
  raise_if ((tq_now_epoch_seconds r <? 0) || (tq_max_age_seconds r <? 0))
    "source status clock and maximum age must be non-negative integers" ;;
  Ret r.

(** * Shared steps *)

Section sync.
Context `{UnicodeData}.

(** [_failure] *)
Definition source_failure {A} (code message : string) (remediation : list string) : Result A :=
  fail1 (diagnostic (MkCode code) ERROR (redact_text message) None remediation []).

(** The lease of a source: taken, the body run, given back; what the body and
    the release answered is joined. *)
Definition source_lock (paths : SourceStorePaths) (timeout_seconds : Q) (stale_after_seconds : Z) :
    py SourceLockRequest :=
  source_lock_request (MkSourceLock (so_lock_directory paths) timeout_seconds stale_after_seconds).
Definition joined {A} (outcome : Result A) (released : Result unit) : Result A :=
  match released with
  | Ok _ => outcome
  | Err ds => match outcome with Err first => raise_errors (first ++ ds) | Ok _ => Err ds end
  end.

(** [_retained]: the last snapshot that was good, with the failure as warnings. *)
Definition as_warning (d : Diagnostic) : Diagnostic :=
  diagnostic (d_code d) WARNING (redact_text (d_message d)) (d_location d) (d_remediation d) (d_details d).
Definition retained (failure : list Diagnostic) (current : option CurrentSource)
    (fallback : SyncFallback) : Result SourceSyncOutcome :=
  match current with
  | Some current =>
      if bool_decide (fallback = ALLOW_LAST_KNOWN_GOOD)
      then Ok (source_sync_outcome RETAINED current (map as_warning failure))
      else Err failure
  | None => Err failure
  end.

(** [_candidate] *)
Definition candidate_of (request : AcquisitionRequest) (paths : SourceStorePaths) (ports : SourceSyncPorts) :
    sync (Result SourceCandidate) :=
  let source := rq_source request in
  id ← pure (source_instance_id source);
  if bool_decide (cs_kind source = SOURCE_LOCAL) then
    wanted ← pure (local_snapshot_request
                     (MkLocalRequest id (cs_alias source) (cs_location source) (rq_limits request)));
    acquire_local ports wanted
  else match cs_ref source with
  | None => pure (Raise AssertionError)
  | Some ref =>
      wanted ← pure (git_snapshot_request
                       (MkGitRequest id (cs_alias source) (cs_location source) ref (so_mirror paths)
                          (so_temporary_root paths) (rq_limits request) (rq_timeout_seconds request) false));
      acquire_git ports wanted
  end.
Definition validation_of (request : AcquisitionRequest) (candidate : SourceCandidate) :
    SourceValidationRequest :=
  MkValidationRequest candidate (rq_executable_version request) (rq_available_capabilities request).

(** The publication is of what was validated. *)
Definition receipt_matches (receipt : SourcePublishReceipt) (validated : ValidatedSourceCandidate) : bool :=
  let published := sr_current receipt in
  bool_decide (sc_snapshot_digest (cu_candidate published) = sc_snapshot_digest (va_candidate validated))
  && bool_decide (sc_resolved_revision (cu_candidate published) = sc_resolved_revision (va_candidate validated))
  && bool_decide (cu_declared_source_id published = va_declared_source_id validated).
Definition same_source (current : CurrentSource) (validated : ValidatedSourceCandidate) : bool :=
  bool_decide (sc_snapshot_digest (cu_candidate current) = sc_snapshot_digest (va_candidate validated))
  && bool_decide (sc_resolved_revision (cu_candidate current) = sc_resolved_revision (va_candidate validated))
  && bool_decide (cu_declared_source_id current = va_declared_source_id validated).

Definition request_paths (source : ConfiguredSource) (data_root : string) : py SourceStorePaths :=
  id ← source_instance_id source; source_store_paths data_root id.

(** * Synchronization *)

(** What follows a validated candidate in [_sync_locked]. *)
Definition publish_validated (request : SourceSyncRequest) (paths : SourceStorePaths)
    (current : option CurrentSource) (validated : ValidatedSourceCandidate) (ports : SourceSyncPorts) :
    sync (Result SourceSyncOutcome) :=
  command ← pure (source_publish_command
                    (MkPublishCommand paths validated (rq_observed_at_epoch_seconds (yq_common request))));
  published ← publish_source ports command;
  match published with
  | Err ds => mret (retained ds current (yq_fallback request))
  | Ok receipt =>
      if negb (receipt_matches receipt validated)
      then mret (source_failure "source-invalid"
                   "source publication receipt does not match the validated candidate" [])
      else
        let unchanged := match current with Some c => same_source c validated | None => false end in
        mret (Ok (source_sync_outcome (if unchanged then UNCHANGED else PUBLISHED) (sr_current receipt) []))
  end.

Definition identity_changed (current : option CurrentSource) (validated : ValidatedSourceCandidate) : bool :=
  match current with
  | Some c => negb (bool_decide (cu_declared_source_id c = va_declared_source_id validated))
  | None => false
  end.

Definition errors_of {A} (r : Result A) : list Diagnostic := match r with Err ds => ds | Ok _ => [] end.
Definition sync_locked (request : SourceSyncRequest) (ports : SourceSyncPorts) :
    sync (Result SourceSyncOutcome) :=
  let common := yq_common request in
  let source := rq_source common in
  let keep failure current := mret (retained (errors_of failure) current (yq_fallback request)) in
  paths ← pure (request_paths source (rq_data_root common));
  current ←? read_current ports (MkCurrentRequest paths (cs_alias source));
  if yq_offline request
  then keep (source_failure (A:=unit) "source-unavailable" "source synchronization is disabled in offline mode"
               ["retry without offline mode"]) current
  else
    acquired ← candidate_of common paths ports;
    match acquired with
    | Err ds => mret (retained ds current (yq_fallback request))
    | Ok candidate =>
        validated ← validate_source ports (validation_of common candidate);
        match validated with
        | Err ds => mret (retained ds current (yq_fallback request))
        | Ok validated =>
            if negb (bool_decide (va_candidate validated = candidate))
            then keep (source_failure (A:=unit) "source-invalid"
                         "source validator returned a candidate different from its request" []) current
            else if identity_changed current validated
            then keep (source_failure (A:=unit) "source-invalid"
                         "resolved source changed its declared source identity"
                         ["review both identities with `aart source resubscribe --alias "
                          +:+ alias_value (cs_alias source)
                          +:+ "`, then re-run it with --yes to adopt the change"]) current
            else publish_validated request paths current validated ports
        end
    end.

Definition sync_source (request : SourceSyncRequest) (ports : SourceSyncPorts) :
    sync (Result SourceSyncOutcome) :=
  let common := yq_common request in
  if negb (cs_enabled (rq_source common))
  then mret (source_failure "source-invalid" "disabled source cannot be synchronized" [])
  else
    paths ← pure (request_paths (rq_source common) (rq_data_root common));
    wanted ← pure (source_lock paths (rq_lock_timeout_seconds common) (rq_lock_stale_after_seconds common));
    lease ←? take_source_lock ports wanted;
    outcome ← sync_locked request ports;
    released ← give_source_lock ports lease;
    mret (joined outcome released).

(** * Discarding *)

Definition discard_source (request : SourceDiscardRequest) (ports : SourceDiscardPorts) :
    sync (Result SourceDiscardOutcome) :=
  paths ← pure (request_paths (dq_source request) (dq_data_root request));
  wanted ← pure (source_lock paths (dq_lock_timeout_seconds request) (dq_lock_stale_after_seconds request));
  lease ←? call (λ t, sd_acquire_lock ports t wanted) (SAcquireLock wanted);
  let current_request := MkCurrentRequest paths (cs_alias (dq_source request)) in
  current ← call (λ t, sd_read_current ports t current_request) (SReadCurrent current_request);
  discarded ← call (λ t, sd_discard ports t paths) (SDiscard paths);
  released ← call (λ t, sd_release_lock ports t lease) (SReleaseLock lease);
  match joined discarded released with
  | Err ds => mret (Err ds)
  | Ok existed =>
      prune_root paths ;;
      mret (Ok (MkDiscardOutcome existed match current with Ok c => c | Err _ => None end))
  end.

(** * Adopting an identity *)

Definition transition_of (current : CurrentSource) (validated : ValidatedSourceCandidate) :
    SourceIdentityTransition :=
  MkTransition (cu_declared_source_id current) (va_declared_source_id validated)
    (sc_resolved_revision (cu_candidate current)) (sc_resolved_revision (va_candidate validated))
    (sc_snapshot_digest (cu_candidate current)) (sc_snapshot_digest (va_candidate validated)).

(** The transition is the reviewed one: publish, then drop the old tree. *)
Definition adopt_reviewed (request : SourceAdoptionRequest) (paths : SourceStorePaths)
    (validated : ValidatedSourceCandidate) (observed : SourceIdentityTransition) (ports : SourceSyncPorts) :
    sync (Result SourceAdoptionOutcome) :=
  command ← pure (source_publish_command
                    (MkPublishCommand paths validated (rq_observed_at_epoch_seconds (oq_common request))));
  receipt ←? publish_source ports command;
  if negb (receipt_matches receipt validated)
  then mret (source_failure "source-invalid"
               "source publication receipt does not match the validated candidate" [])
  else
    prune_snapshots paths (sc_snapshot_digest (va_candidate validated)) ;;
    mret (Ok (MkAdoptionOutcome observed true (sr_current receipt))).

Definition adopt_locked (request : SourceAdoptionRequest) (ports : SourceSyncPorts) :
    sync (Result SourceAdoptionOutcome) :=
  let common := oq_common request in
  let source := rq_source common in
  let alias := alias_value (cs_alias source) in
  let invalid message remediation := mret (source_failure "source-invalid" message remediation) in
  paths ← pure (request_paths source (rq_data_root common));
  current ←? read_current ports (MkCurrentRequest paths (cs_alias source));
  match current with
  | None => invalid "no managed snapshot is subscribed at this origin"
              ["run `aart source sync --alias " +:+ alias +:+ "` to publish one first"]
  | Some current =>
      candidate ←? candidate_of common paths ports;
      validated ←? validate_source ports (validation_of common candidate);
      if negb (bool_decide (va_candidate validated = candidate))
      then invalid "source validator returned a candidate different from its request" []
      else if bool_decide (cu_declared_source_id current = va_declared_source_id validated)
      then invalid "source still declares the identity this alias is already subscribed to"
             ["run `aart source sync --alias " +:+ alias +:+ "` to refresh the snapshot instead"]
      else
        observed ←? pure (or_value_error (source_identity_transition (transition_of current validated))
                            (λ message, source_failure "source-invalid" message []));
        match oq_expected request with
        | None => mret (Ok (MkAdoptionOutcome observed false current))
        | Some expected =>
            if negb (bool_decide (expected = observed))
            then invalid "source no longer declares the identity that was reviewed"
                   ["run `aart source resubscribe --alias " +:+ alias
                    +:+ "` again to review the current transition"]
            else adopt_reviewed request paths validated observed ports
        end
  end.

Definition adopt_source_identity (request : SourceAdoptionRequest) (ports : SourceSyncPorts) :
    sync (Result SourceAdoptionOutcome) :=
  let common := oq_common request in
  if negb (cs_enabled (rq_source common))
  then mret (source_failure "source-invalid" "disabled source cannot be resubscribed" [])
  else
    paths ← pure (request_paths (rq_source common) (rq_data_root common));
    wanted ← pure (source_lock paths (rq_lock_timeout_seconds common) (rq_lock_stale_after_seconds common));
    lease ←? take_source_lock ports wanted;
    outcome ← adopt_locked request ports;
    released ← give_source_lock ports lease;
    mret (joined outcome released).

(** * Freshness *)

Definition freshness_age (current : CurrentSource) (observed_at_epoch_seconds : Z) : Z :=
  Z.max 0 (observed_at_epoch_seconds - cu_published_at_epoch_seconds current).

Definition check_freshness_locked (request : AcquisitionRequest) (ports : SourceSyncPorts) :
    sync SourceHealth :=
  let source := rq_source request in
  paths ← pure (request_paths source (rq_data_root request));
  loaded ← read_current ports (MkCurrentRequest paths (cs_alias source));
  match loaded with
  | Err ds => mret (source_health DEGRADED None None ds)
  | Ok None => mret (source_health MISSING None None [])
  | Ok (Some current) =>
      let age := Some (freshness_age current (rq_observed_at_epoch_seconds request)) in
      acquired ← candidate_of request paths ports;
      match acquired with
      | Err ds => mret (source_health CHECK_UNAVAILABLE age (Some current) ds)
      | Ok candidate =>
          validated ← validate_source ports (validation_of request candidate);
          match validated with
          | Err ds => mret (source_health DEGRADED age (Some current) ds)
          | Ok validated =>
              if negb (bool_decide (va_candidate validated = candidate))
              then mret (source_health DEGRADED age (Some current)
                     (errors_of (source_failure (A:=unit) "source-invalid"
                        "source validator returned a candidate different from its request" [])))
              else mret (source_health (if same_source current validated then HEALTHY else NOT_SYNCHRONIZED)
                           age (Some current) [])
          end
      end
  end.

Definition source_status (request : SourceStatusRequest) (ports : SourceSyncPorts) : sync SourceHealth :=
  loaded ← read_current ports (tq_current request);
  match loaded with
  | Err ds => pure (assess_source_health None (tq_now_epoch_seconds request) (tq_max_age_seconds request) ds)
  | Ok current =>
      pure (assess_source_health current (tq_now_epoch_seconds request) (tq_max_age_seconds request) [])
  end.

Definition check_source_freshness (request : AcquisitionRequest) (ports : SourceSyncPorts) :
    sync SourceHealth :=
  let source := rq_source request in
  paths ← pure (request_paths source (rq_data_root request));
  let current_request := MkCurrentRequest paths (cs_alias source) in
  if negb (cs_enabled source)
  then
    wanted ← pure (source_status_request
                     (MkStatusRequest current_request (rq_observed_at_epoch_seconds request) 0));
    source_status wanted ports
  else
    wanted ← pure (source_lock paths (rq_lock_timeout_seconds request) (rq_lock_stale_after_seconds request));
    lease ← take_source_lock ports wanted;
    match lease with
    | Err refused =>
        loaded ← read_current ports current_request;
        let current := match loaded with Ok c => c | Err _ => None end in
        let age := current ≫= λ c, Some (freshness_age c (rq_observed_at_epoch_seconds request)) in
        mret (source_health CHECK_UNAVAILABLE age current (errors_of loaded ++ refused))
    | Ok lease =>
        health ← check_freshness_locked request ports;
        released ← give_source_lock ports lease;
        mret match released with
             | Ok _ => health
             | Err ds => source_health CHECK_UNAVAILABLE (sh_age_seconds health) (sh_current health)
                           (sh_diagnostics health ++ ds)
             end
    end.
End sync.
