(* ===== verification/SourceSpec.v ===== *)
(** What keeping a source in step promises: nothing is published but what was
    acquired and validated in the same run under the lease, identity changes
    are adopted only as reviewed, looking publishes nothing, and the lease is
    always given back. *)
From S2P Require Import Prelude Effects PyText TextSearch Posix Regex Domain SemVer Json Protocol CompilerModel Redaction Marketplace Configuration Ports Sources SourceSync.
From Stdlib Require Import Ascii QArith.
Open Scope Z_scope.

(** * Runs *)

(** What a computation answers and the calls it adds, from any trace. *)
Definition runs {A} (m : sync A) (Q : py A → sync_calls → Prop) : Prop :=
  ∀ t, ∃ seen, (m t).2 = t ++ seen ∧ Q (m t).1 seen.

Lemma runs_ret {A} (a : A) (Q : py A → sync_calls → Prop) : Q (Ret a) [] → runs (mret a) Q.
Proof. intros HQ t. exists []. by rewrite app_nil_r. Qed.
Lemma runs_pure {A} (m : py A) (Q : py A → sync_calls → Prop) : Q m [] → runs (pure m) Q.
Proof. intros HQ t. exists []. by rewrite app_nil_r. Qed.
Lemma runs_call {R} (answer : sync_calls → R) (event : R → source_event) (Q : py R → sync_calls → Prop) :
  (∀ a, Q (Ret a) [event a]) → runs (call answer event) Q.
Proof. intros HQ t. exists [event (answer t)]. split; [done|apply HQ]. Qed.
Lemma runs_bind {A B} (m : sync A) (f : A → sync B) P Q :
  runs m P →
  (∀ r seen, P r seen →
     match r with
     | Ret a => runs (f a) (λ r' more, Q r' (seen ++ more)) | Raise e => Q (Raise e) seen
     end) →
  runs (m ≫= f) Q.
Proof.
  intros Hm Hf t. destruct (Hm t) as (seen & Ht & HP). specialize (Hf _ _ HP).
  unfold mbind, st_bind. destruct (m t) as [[a|e] t1]; cbn in *; subst t1; [|eauto].
  destruct (Hf (t ++ seen)) as (more & Ht & HQ). exists (seen ++ more). by rewrite Ht, app_assoc.
Qed.
Lemma runs_pure_bind {A B} (m : py A) (f : A → sync B) (Q : py B → sync_calls → Prop) :
  (∀ e, m = Raise e → Q (Raise e) []) → (∀ a, m = Ret a → runs (f a) Q) → runs (pure m ≫= f) Q.
Proof.
  intros He Ha. eapply (runs_bind _ _ (λ r seen, r = m ∧ seen = [])); [by apply runs_pure|].
  intros r seen [-> ->]. destruct m; [by apply Ha|by apply He].
Qed.
Lemma runs_call_bind {R B} (answer : sync_calls → R) (event : R → source_event) (f : R → sync B)
    (Q : py B → sync_calls → Prop) :
  (∀ a, runs (f a) (λ r more, Q r (event a :: more))) → runs (call answer event ≫= f) Q.
Proof.
  intros Hf. eapply (runs_bind _ _ (λ r seen, ∃ a, r = Ret a ∧ seen = [event a])); [apply runs_call; eauto|].
  intros r seen (a & -> & ->). apply Hf.
Qed.
Lemma runs_mono {A} (m : sync A) (P Q : py A → sync_calls → Prop) :
  runs m P → (∀ r seen, P r seen → Q r seen) → runs m Q.
Proof. intros Hm HPQ t. destruct (Hm t) as (seen & ? & ?). eauto. Qed.

Section spec.
Context `{UnicodeData}.

(** The candidate a call to an origin brought. *)
Inductive acquires (answer : Result SourceCandidate) : source_event → Prop :=
  | acquires_local r : acquires answer (SAcquireLocal r answer)
  | acquires_git r : acquires answer (SAcquireGit r answer).

Lemma runs_candidate_bind {B} request paths ports (f : Result SourceCandidate → sync B)
    (Q : py B → sync_calls → Prop) :
  (∀ e t, candidate_of request paths ports t = (Raise e, t) → Q (Raise e) []) →
  (∀ answer event, acquires answer event → runs (f answer) (λ r more, Q r (event :: more))) →
  runs (candidate_of request paths ports ≫= f) Q.
Proof.
  intros He Hf.
  eapply (runs_bind _ _ (λ r seen, match r with
      | Ret answer => ∃ event, seen = [event] ∧ acquires answer event
      | Raise e => seen = [] ∧ ∃ t, candidate_of request paths ports t = (Raise e, t) end)).
  - intros t. destruct (candidate_of request paths ports t) as [r t'] eqn:E. cbn. pose proof E as E'.
    unfold candidate_of in E. unfold mbind, st_bind, pure in E.
    destruct (source_instance_id _) as [id|]; [|injection E as <- <-; exists []; rewrite app_nil_r; eauto].
    case_bool_decide.
    + destruct (local_snapshot_request _) as [wanted|]; [|injection E as <- <-; exists []; rewrite app_nil_r; eauto].
      injection E as <- <-. eexists. split; [done|]. eexists. split; [done|]. constructor.
    + destruct (cs_ref _); [|injection E as <- <-; exists []; rewrite app_nil_r; eauto].
      destruct (git_snapshot_request _) as [wanted|]; [|injection E as <- <-; exists []; rewrite app_nil_r; eauto].
      injection E as <- <-. eexists. split; [done|]. eexists. split; [done|]. constructor.
  - intros [answer|e] seen; [intros (event & -> & Ha); by apply Hf|intros [-> (t & E)]; by eapply He].
Qed.

(** * Synchronization *)

Definition is_publish (e : source_event) : bool := match e with SPublish _ _ => true | _ => false end.
Definition is_change (e : source_event) : bool :=
  match e with SPublish _ _ | SDiscard _ _ | SPruneRoot _ | SPruneSnapshots _ _ => true | _ => false end.

(** A publication is the last step, of the candidate that was acquired and
    validated in this run, for a source that keeps its identity. *)
Definition justified (request : SourceSyncRequest) (seen : sync_calls) : Prop :=
  existsb is_change seen = false
  ∨ ∃ q current candidate event command answer,
      seen = [SReadCurrent q (Ok current); event;
              SValidate (validation_of (yq_common request) candidate) (Ok (pc_validated command));
              SPublish command answer]
      ∧ acquires (Ok candidate) event ∧ va_candidate (pc_validated command) = candidate
      ∧ identity_changed current (pc_validated command) = false ∧ yq_offline request = false.
(** What a success says. *)
Definition explained (request : SourceSyncRequest) (outcome : SourceSyncOutcome) (seen : sync_calls) : Prop :=
  match yo_disposition outcome with
  | RETAINED =>
      yq_fallback request = ALLOW_LAST_KNOWN_GOOD
      ∧ (∃ q rest, seen = SReadCurrent q (Ok (Some (yo_current outcome))) :: rest)
      ∧ ∀ d, d ∈ yo_diagnostics outcome → d_severity d = WARNING
  | d =>
      ∃ q current before command receipt,
        seen = SReadCurrent q (Ok current) :: before ++ [SPublish command (Ok receipt)]
        ∧ receipt_matches receipt (pc_validated command) = true ∧ yo_current outcome = sr_current receipt
        ∧ (d = UNCHANGED ↔ match current with Some c => same_source c (pc_validated command) = true
                                            | None => False end)
  end.
Definition synchronized (request : SourceSyncRequest) (r : py (Result SourceSyncOutcome))
    (seen : sync_calls) : Prop :=
  justified request seen
  ∧ match r with Ret (Ok outcome) => explained request outcome seen | _ => True end.

Lemma retained_explained request failure q current outcome rest :
  retained failure current (yq_fallback request) = Ok outcome →
  explained request outcome (SReadCurrent q (Ok current) :: rest).
Proof.
  unfold retained. destruct current as [c|]; [|done]. case_bool_decide; [|done]. intros [= <-].
  split; [done|]. split; [by do 2 eexists|]. cbn. intros d Hd. unfold sort_diagnostics in Hd.
  rewrite elem_of_sorted in Hd. apply list_elem_of_fmap in Hd as (d' & -> & _). done.
Qed.
Lemma retained_synchronized request failure q current rest :
  justified request (SReadCurrent q (Ok current) :: rest) →
  synchronized request (Ret (retained failure current (yq_fallback request)))
    (SReadCurrent q (Ok current) :: rest).
Proof.
  intros Hj. split; [done|]. destruct (retained _ _ _) eqn:E; [|done]. by eapply retained_explained.
Qed.

Lemma sync_locked_spec request ports :
  runs (sync_locked request ports) (synchronized request).
Proof.
  unfold sync_locked. cbv zeta. apply runs_pure_bind; [by split; [left|]|]. intros paths _.
  apply runs_call_bind. intros [current|ds]; [|apply runs_ret; by split; [left|]].
  destruct (yq_offline request) eqn:Eo; [apply runs_ret, retained_synchronized; by left|].
  apply runs_candidate_bind; [by intros; split; [left|]|]. intros [candidate|ds] event Ha;
    [|apply runs_ret, retained_synchronized; left; by destruct Ha].
  apply runs_call_bind. intros [validated|ds];
    [|apply runs_ret, retained_synchronized; left; by destruct Ha].
  case_bool_decide as Hv; cbn [negb]; [|apply runs_ret, retained_synchronized; left; by destruct Ha].
  destruct (identity_changed current validated) eqn:Ei;
    [apply runs_ret, retained_synchronized; left; by destruct Ha|].
  unfold publish_validated.
  apply runs_pure_bind; [intros; split; [left; by destruct Ha|done]|]. intros command Hc.
  assert (pc_validated command = validated) as Hcv.
  { unfold source_publish_command in Hc. apply bind_Ret in Hc as (? & _ & [= <-]). done. }
  apply runs_call_bind. intros answer.
  assert (∀ q, justified request
      [SReadCurrent q (Ok current); event; SValidate (validation_of (yq_common request) candidate) (Ok validated);
       SPublish command answer]) as Hj.
  { intros q. right. exists q, current, candidate, event, command, answer. by rewrite Hcv. }
  destruct answer as [receipt|ds]; [|apply runs_ret, retained_synchronized, Hj].
  destruct (receipt_matches receipt validated) eqn:Er; cbn [negb]; [|apply runs_ret; by split].
  apply runs_ret. split; [by apply Hj|].
  assert (∀ d, d ≠ RETAINED → (d = UNCHANGED ↔ match current with Some c => same_source c validated = true
                                                        | None => False end) →
            explained request (source_sync_outcome d (sr_current receipt) [])
              [SReadCurrent (MkCurrentRequest paths (cs_alias (rq_source (yq_common request)))) (Ok current); event;
               SValidate (validation_of (yq_common request) candidate) (Ok validated); SPublish command (Ok receipt)])
    as Hex.
  { intros d Hd Hiff. destruct d; [| |done]; eexists _, current, [event; _], command, receipt;
      rewrite Hcv; (split; [done|]); (split; [done|]); split; done. }
  destruct current as [c|]; [destruct (same_source c validated) eqn:Es|]; apply Hex; done.
Qed.

(** A run under the lease of a source: refused, not given the lease, or the
    body between taking and giving back. *)
Inductive leased {A} (body : py (Result A) → sync_calls → Prop) (r : py (Result A)) : sync_calls → Prop :=
  | leased_refused : (∀ a, r ≠ Ret (Ok a)) → leased body r []
  | leased_busy lock ds : r = Ret (Err ds) → leased body r [SAcquireLock lock (Err ds)]
  | leased_run lock lease outcome seen released :
      body (Ret outcome) seen → r = Ret (joined outcome released) →
      leased body r (SAcquireLock lock (Ok lease) :: seen ++ [SReleaseLock lease released])
  | leased_raised lock lease e seen :
      body (Raise e) seen → r = Raise e → leased body r (SAcquireLock lock (Ok lease) :: seen).

Lemma runs_leased {A} (m : sync (Result A)) wanted ports (body : py (Result A) → sync_calls → Prop) :
  runs m body →
  runs (or_return (take_source_lock ports wanted)
          (λ lease, outcome ← m; released ← give_source_lock ports lease; mret (joined outcome released)))
    (leased body).
Proof.
  intros Hm. apply runs_call_bind. intros [lease|ds]; [|by apply runs_ret, leased_busy].
  eapply runs_bind; [exact Hm|]. intros [outcome|e] seen Hb; cbn beta; [|by eapply leased_raised].
  apply runs_call_bind. intros released. apply runs_ret. cbn. by eapply leased_run.
Qed.

Lemma sync_source_spec request ports : runs (sync_source request ports) (leased (synchronized request)).
Proof.
  unfold sync_source. cbv zeta. destruct (negb _); [by apply runs_ret, leased_refused|].
  apply runs_pure_bind; [by intros; apply leased_refused|]. intros paths _.
  apply runs_pure_bind; [by intros; apply leased_refused|]. intros wanted _.
  apply runs_leased, sync_locked_spec.
Qed.

(** C10: whatever its ports answer, synchronizing publishes at most once, under
    the lease, as the last step before giving it back, and only the candidate
    acquired and validated in this run, for a source that keeps its declared
    identity; it reports a published snapshot only for a receipt of that
    candidate, and a retained one only where allowed, the one that was current. *)
Theorem sync_source_guarded request ports t :
  let '(r, t') := sync_source request ports t in
  ∃ seen, t' = t ++ seen ∧ leased (synchronized request) r seen.
Proof.
  destruct (sync_source_spec request ports t) as (seen & Ht & Hs).
  destruct (sync_source request ports t) as [r t']. eauto.
Qed.

(** * Adopting an identity *)

(** Publication only of the reviewed transition, to a different identity; the
    old tree is dropped only after it. *)
Definition adopted (request : SourceAdoptionRequest) (r : py (Result SourceAdoptionOutcome))
    (seen : sync_calls) : Prop :=
  (existsb is_change seen = false
   ∧ ∀ outcome, r = Ret (Ok outcome) → ao_finalized outcome = false ∧ oq_expected request = None)
  ∨ ∃ q current candidate event command answer rest,
      seen = [SReadCurrent q (Ok (Some current)); event;
              SValidate (validation_of (oq_common request) candidate) (Ok (pc_validated command));
              SPublish command answer] ++ rest
      ∧ acquires (Ok candidate) event ∧ va_candidate (pc_validated command) = candidate
      ∧ oq_expected request = Some (transition_of current (pc_validated command))
      ∧ cu_declared_source_id current ≠ va_declared_source_id (pc_validated command)
      ∧ ((rest = [] ∧ ∀ outcome, r ≠ Ret (Ok outcome))
         ∨ ∃ receipt, answer = Ok receipt ∧ receipt_matches receipt (pc_validated command) = true
             ∧ rest = [SPruneSnapshots (pc_paths command) (sc_snapshot_digest candidate)]
             ∧ r = Ret (Ok (MkAdoptionOutcome (transition_of current (pc_validated command)) true
                              (sr_current receipt)))).

Lemma adopt_locked_spec request ports : runs (adopt_locked request ports) (adopted request).
Proof.
  unfold adopt_locked. cbv zeta. apply runs_pure_bind; [by left|]. intros paths _.
  apply runs_call_bind. intros [[current|]|ds]; [|by apply runs_ret; left..].
  apply runs_candidate_bind; [by left|]. intros [candidate|ds] event Ha;
    [|apply runs_ret; left; by destruct Ha].
  apply runs_call_bind. intros [validated|ds]; [|apply runs_ret; left; by destruct Ha].
  case_bool_decide as Hv; cbn [negb]; [|apply runs_ret; left; by destruct Ha].
  case_bool_decide as Hid; [apply runs_ret; left; by destruct Ha|].
  apply runs_pure_bind; [intros; left; by destruct Ha|]. intros [observed|ds] Ho;
    [|apply runs_ret; left; by destruct Ha].
  assert (observed = transition_of current validated) as ->.
  { apply or_value_error_Ok, bind_Ret in Ho as (? & _ & Ho); [|by intros; eexists].
    apply bind_Ret in Ho as (? & _ & Ho). apply bind_Ret in Ho as (? & _ & Ho).
    by apply bind_Ret in Ho as (? & _ & [= <-]). }
  destruct (oq_expected request) as [expected|] eqn:Eq.
  2:{ apply runs_ret. left. split; [by destruct Ha|]. by intros outcome [= <-]. }
  case_bool_decide as He; cbn [negb]; [|apply runs_ret; left; by destruct Ha]. subst expected.
  unfold adopt_reviewed. apply runs_pure_bind; [intros; left; by destruct Ha|]. intros command Hc.
  assert (pc_validated command = validated ∧ pc_paths command = paths) as [Hcv Hcp].
  { unfold source_publish_command in Hc. apply bind_Ret in Hc as (? & _ & [= <-]). done. }
  apply runs_call_bind. intros answer.
  assert (∀ r rest,
    (rest = [] ∧ (∀ outcome, r ≠ Ret (Ok outcome)))
    ∨ (∃ receipt, answer = Ok receipt ∧ receipt_matches receipt validated = true
        ∧ rest = [SPruneSnapshots paths (sc_snapshot_digest candidate)]
        ∧ r = Ret (Ok (MkAdoptionOutcome (transition_of current validated) true (sr_current receipt)))) →
    adopted request r
      (SReadCurrent (MkCurrentRequest paths (cs_alias (rq_source (oq_common request)))) (Ok (Some current))
       :: event :: SValidate (validation_of (oq_common request) candidate) (Ok validated)
       :: SPublish command answer :: rest)) as Hj.
  { intros r rest Hr. right. eexists _, current, candidate, event, command, answer, rest.
    rewrite Hcv, Hcp. by split_and!. }
  destruct answer as [receipt|ds]; [|by apply runs_ret, Hj; left].
  destruct (receipt_matches receipt validated) eqn:Er; cbn [negb]; [|by apply runs_ret, Hj; left].
  intros t. eexists [SPruneSnapshots paths _]. split; [done|]. apply Hj. right. exists receipt. by subst candidate.
Qed.

(** Adopting a new identity publishes at most once, and only the very
    transition that was reviewed, from the current identity to a different one,
    of the candidate acquired and validated in this run; without a reviewed
    transition it changes nothing, and the old tree is dropped only after a
    publication whose receipt matches. *)
Theorem adopt_source_identity_guarded request ports t :
  let '(r, t') := adopt_source_identity request ports t in
  ∃ seen, t' = t ++ seen ∧ leased (adopted request) r seen.
Proof.
  assert (runs (adopt_source_identity request ports) (leased (adopted request))) as Hruns.
  { unfold adopt_source_identity. cbv zeta. destruct (negb _); [by apply runs_ret, leased_refused|].
    apply runs_pure_bind; [by intros; apply leased_refused|]. intros paths _.
    apply runs_pure_bind; [by intros; apply leased_refused|]. intros wanted _.
    apply runs_leased, adopt_locked_spec. }
  destruct (Hruns t) as (seen & Ht & Hs). destruct (adopt_source_identity request ports t) as [r t']. eauto.
Qed.

(** * Looking *)

#[local] Opaque redact_text json_digest.

(** The health reported compares the published source with the one validated
    in this run. *)
Definition compared (health : SourceHealth) (seen : sync_calls) : Prop :=
  ∃ before current candidate event request validated,
    seen = before ++ [SReadCurrent request (Ok (Some current)); event]
           ++ [SValidate candidate (Ok validated)]
    ∧ acquires (Ok (vr_candidate candidate)) event ∧ va_candidate validated = vr_candidate candidate
    ∧ sh_current health = Some current
    ∧ (sh_status health = HEALTHY ↔ same_source current validated = true)
    ∧ (sh_status health = NOT_SYNCHRONIZED ↔ same_source current validated = false).

Lemma check_freshness_locked_spec request ports :
  runs (check_freshness_locked request ports) (λ r seen,
    existsb is_change seen = false
    ∧ ∀ health, r = Ret health → sh_status health ∈ [HEALTHY; NOT_SYNCHRONIZED] → compared health seen).
Proof.
  unfold check_freshness_locked. cbv zeta. apply runs_pure_bind; [done|]. intros paths _.
  apply runs_call_bind. intros [[current|]|ds];
    [|apply runs_ret; split; [done|]; intros ? [= <-]; cbn; set_solver..].
  apply runs_candidate_bind; [done|]. intros [candidate|ds] event Ha;
    [|apply runs_ret; split; [by destruct Ha|]; intros ? [= <-]; cbn; set_solver].
  apply runs_call_bind. intros [validated|ds];
    [|apply runs_ret; split; [by destruct Ha|]; intros ? [= <-]; cbn; set_solver].
  case_bool_decide as Hv; cbn [negb]; apply runs_ret; (split; [by destruct Ha|]); intros ? [= <-];
    [|cbn; set_solver].
  intros _. eexists [], current, (validation_of request candidate), event, _, validated.
  split_and!; [done..| |]; cbn; by destruct (same_source current validated).
Qed.

(** Looking at an enabled source changes nothing, and says that it is
    healthy, or not synchronized, only after comparing what is published with
    what was acquired and validated in this run, exactly when they are, or are
    not, the same identity, revision and snapshot. *)
Theorem check_source_freshness_reads request ports t :
  let '(r, t') := check_source_freshness request ports t in
  ∃ seen, t' = t ++ seen ∧ existsb is_change seen = false
  ∧ ∀ health, r = Ret health → cs_enabled (rq_source request) = true →
      sh_status health ∈ [HEALTHY; NOT_SYNCHRONIZED] →
      ∃ lock lease inner released, seen = SAcquireLock lock (Ok lease) :: inner ++ [SReleaseLock lease (Ok released)]
        ∧ compared health inner.
Proof.
  assert (runs (check_source_freshness request ports) (λ r seen,
    existsb is_change seen = false
    ∧ ∀ health, r = Ret health → cs_enabled (rq_source request) = true →
        sh_status health ∈ [HEALTHY; NOT_SYNCHRONIZED] →
        ∃ lock lease inner released,
          seen = SAcquireLock lock (Ok lease) :: inner ++ [SReleaseLock lease (Ok released)]
          ∧ compared health inner)) as Hruns.
  { unfold check_source_freshness. cbv zeta. apply runs_pure_bind; [done|]. intros paths _.
    destruct (cs_enabled (rq_source request)) eqn:Een; cbn [negb].
    2:{ apply runs_pure_bind; [done|]. intros wanted _. unfold source_status.
        apply runs_call_bind. intros [c|ds]; by apply runs_pure. }
    apply runs_pure_bind; [done|]. intros wanted _. apply runs_call_bind. intros [lease|refused].
    2:{ apply runs_call_bind. intros loaded. apply runs_ret. split; [done|].
        intros ? [= <-] _. cbn. set_solver. }
    eapply runs_bind; [apply check_freshness_locked_spec|]. intros [health|e] seen [Hn Hh]; cbn beta;
      [|by split].
    apply runs_call_bind. intros released. apply runs_ret. cbn [existsb is_change orb].
    split; [by rewrite existsb_app, Hn|]. intros h Hr _ Hs. injection Hr as <-.
    destruct released as [released|ds]; [|cbn in Hs; set_solver].
    do 4 eexists. split; [done|]. by apply Hh. }
  destruct (Hruns t) as (seen & Ht & Hs). destruct (check_source_freshness request ports t) as [r t']. eauto.
Qed.

(** * Every lease is given back *)

Lemma length_str_take n s : (n ≤ String.length s)%nat → String.length (str_take n s) = n.
Proof. revert s. induction n as [|n IH]; intros [|c s] Hn; cbn in *; [done..|lia|]. f_equal. apply IH. lia. Qed.
Lemma str_forall_take p n s : str_forall p s = true → str_forall p (str_take n s) = true.
Proof.
  revert s. induction n as [|n IH]; intros [|c s] Hs; cbn in *; try done.
  apply andb_true_iff in Hs as [-> Hs]. by apply IH.
Qed.

(** The text of an instance is the kind and a prefix of a digest. *)
Definition instance_text (source : ConfiguredSource) (hex : string) : string :=
  instance_prefix (cs_kind source) +:+ "-" +:+ str_take 32 hex.
Lemma instance_text_matches source hex : fullmatch hex64_re hex = true → matches INSTANCE_RE (instance_text source hex).
Proof.
  intros [Hl Hh]%fullmatch_iff%matches_rep. unfold INSTANCE_RE, instance_text.
  rewrite str_app_assoc. apply m_seq; [apply m_seq|].
  - destruct (cs_kind source); [apply m_alt_r|apply m_alt_l, m_alt_l|apply m_alt_l, m_alt_r];
      apply fullmatch_iff; reflexivity.
  - by apply fullmatch_iff.
  - apply matches_rep. split; [apply length_str_take; lia|by apply str_forall_take].
Qed.
Lemma instance_id_returns source fields :
  ∃ hex, fullmatch hex64_re hex = true ∧ instance_id source fields = Ret (MkInstance (instance_text source hex)).
Proof.
  exists (dg_value (json_digest (json_object fields))).
  pose proof (json_digest_valid (json_object fields)) as Hd. unfold valid_digest in Hd.
  apply andb_true_iff in Hd as [_ Hd]. split; [exact Hd|].
  apply (instance_text_matches source) in Hd. apply fullmatch_iff in Hd.
  unfold instance_id, source_instance_id_init. cbv zeta.
  change (instance_prefix _ +:+ _) with (instance_text source (dg_value (json_digest (json_object fields)))).
  rewrite Hd. reflexivity.
Qed.
Lemma norm_abs_pjoin p c : norm_abs p = true → clean c = true → norm_abs (pjoin p c) = true.
Proof.
  intros (parts & Hf & Hp)%norm_abs_inv Hc. apply (norm_abs_clean _ (parts ++ [c])).
  split; [by rewrite forallb_app, Hf; cbn; rewrite Hc|].
  destruct parts as [|x parts].
  - destruct (clean_relative c Hc) as (Ha & He & _). unfold pjoin. rewrite Ha.
    destruct Hp as [-> | ->]; [left|right]; reflexivity.
  - destruct Hp as [-> | ->]; [left|right]; by apply pjoin_clean.
Qed.
Lemma instance_text_clean source hex : fullmatch hex64_re hex = true → clean (instance_text source hex) = true.
Proof.
  intros Hh. apply (instance_text_matches source) in Hh.
  assert (has_char "/" (instance_text source hex) = false) as Hs.
  { apply has_char_false. eapply matches_over; [|exact Hh]. unfold INSTANCE_RE. cbn [re_over].
    split_and!; try (by apply re_over_str); [|apply re_over_rep; cbn];
      intros c Hc; (destruct (is_char "/" c) eqn:E; [|done]); apply is_char_true in E as <-; discriminate. }
  assert (∃ c t, instance_text source hex = String c t ∧ is_char "." c = false) as (c & t & E & Hc).
  { unfold instance_text. destruct (cs_kind source); cbn [instance_prefix]; rewrite str_app_cons; eauto. }
  unfold clean. rewrite Hs, E. cbn. apply negb_true_iff, bool_decide_eq_false.
  intros Hm. destruct (ascii_dec c ".") as [->|Hne]; [done|]. set_solver.
Qed.
Lemma request_paths_returns source data_root :
  norm_abs data_root = true → ∃ paths, request_paths source data_root = Ret paths
    ∧ norm_abs (so_lock_directory paths) = true ∧ norm_abs (so_mirror paths) = true
    ∧ norm_abs (so_temporary_root paths) = true.
Proof.
  intros Hr. unfold request_paths, source_instance_id.
  destruct (instance_id_returns source
    [("kind", JStr (source_kind_value (cs_kind source))); ("location", JStr (cs_location source));
     ("ref", JStr (or_empty (cs_ref source)))]) as (hex & Hh & ->).
  apply (instance_text_clean source) in Hh. cbn [mbind py_bind].
  set (id := MkInstance _). change (instance_text source hex) with (instance_value id) in Hh.
  unfold source_store_paths. rewrite Hr. cbn [negb raise_if mbind py_bind].
  assert (norm_abs (pjoins data_root ["sources"; instance_value id]) = true) as Hroot.
  { change (norm_abs (pjoin (pjoin data_root "sources") (instance_value id)) = true).
    apply norm_abs_pjoin; [|done]. by apply norm_abs_pjoin. }
  set (root := pjoins _ _) in *. unfold source_store_paths_init. cbn [so_root so_mirror so_snapshots
    so_current_file so_lock_directory so_temporary_root existsb].
  rewrite Hroot, !norm_abs_pjoin by done. cbn [negb orb raise_if mbind py_bind].
  eexists. split; [done|]. cbn [so_lock_directory so_mirror so_temporary_root]. by rewrite !norm_abs_pjoin.
Qed.

(** A source as the configuration parser accepts it. *)
Definition wf_source (s : ConfiguredSource) : Prop :=
  str_empty (alias_value (cs_alias s)) = false ∧ str_empty (cs_location s) = false
  ∧ if decide (cs_kind s = SOURCE_LOCAL) then norm_abs (cs_location s) = true
    else ∃ ref, cs_ref s = Some ref ∧ not_one_line ref = false.
Record wf_acquisition (r : AcquisitionRequest) : Prop := {
  wa_valid : acquisition_valid r = true;
  wa_source : wf_source (rq_source r);
  wa_timeout : Qle_bool (rq_lock_timeout_seconds r) 0 = false;
  wa_stale : (rq_lock_stale_after_seconds r <=? 0) = false
}.

Lemma candidate_of_returns request paths ports t :
  wf_acquisition request → norm_abs (so_mirror paths) = true → norm_abs (so_temporary_root paths) = true →
  ∃ answer, (candidate_of request paths ports t).1 = Ret answer.
Proof.
  intros [Hv (Ha & Hl & Hk) _ _] Hm Ht. unfold candidate_of, mbind, st_bind, pure, source_instance_id.
  destruct (instance_id_returns (rq_source request)
    [("kind", JStr (source_kind_value (cs_kind (rq_source request))));
     ("location", JStr (cs_location (rq_source request)));
     ("ref", JStr (or_empty (cs_ref (rq_source request))))]) as (hex & _ & ->).
  case_bool_decide as Hkind.
  - rewrite decide_True in Hk by done. unfold local_snapshot_request. cbn [lr_alias lr_root].
    rewrite Ha, Hk. cbn. eauto.
  - rewrite decide_False in Hk by done. destruct Hk as (ref & -> & Hr).
    unfold git_snapshot_request. cbn [gr_alias gr_location gr_ref existsb gr_mirror_path gr_temporary_root
                                       gr_timeout_seconds].
    rewrite Ha, Hl, Hr, Hm, Ht. unfold acquisition_valid in Hv. apply andb_true_iff in Hv as [_ Hv%Z.ltb_lt].
    assert ((rq_timeout_seconds request <=? 0) = false) as -> by (apply Z.leb_gt; lia). cbn. eauto.
Qed.

(** The run returns. *)
Definition returns {A} (m : sync A) : Prop := ∀ t, ∃ a, (m t).1 = Ret a.
Lemma returns_ret {A} (a : A) : returns (mret a).
Proof. intros t. by exists a. Qed.
Lemma returns_bind {A B} (m : sync A) (f : A → sync B) : returns m → (∀ a, returns (f a)) → returns (m ≫= f).
Proof.
  intros Hm Hf t. unfold mbind, st_bind. destruct (Hm t) as [a Ha]. destruct (m t) as [r t']. cbn in Ha.
  subst r. apply Hf.
Qed.
Lemma returns_call {R} (answer : sync_calls → R) (event : R → source_event) : returns (call answer event).
Proof. intros t. by eexists. Qed.
Lemma returns_pure {A} (m : py A) a : m = Ret a → returns (pure m).
Proof. intros -> t. by exists a. Qed.
Lemma returns_pure_bind {A B} (m : py A) (f : A → sync B) a : m = Ret a → returns (f a) → returns (pure m ≫= f).
Proof. intros -> Hf t. apply Hf. Qed.

Lemma sync_locked_returns request ports :
  wf_acquisition (yq_common request) → returns (sync_locked request ports).
Proof.
  intros Hw. unfold sync_locked. cbv zeta. pose proof (wa_valid _ Hw) as Hv. unfold acquisition_valid in Hv.
  apply andb_true_iff in Hv as [[Hr Hobs]%andb_true_iff _].
  destruct (request_paths_returns (rq_source (yq_common request)) _ Hr) as (paths & Hp & _ & Hm & Ht).
  eapply returns_pure_bind; [exact Hp|]. apply returns_bind; [apply returns_call|].
  intros [current|ds]; [|apply returns_ret]. destruct (yq_offline request); [apply returns_ret|].
  apply returns_bind; [by intros t; apply candidate_of_returns|]. intros [candidate|ds]; [|apply returns_ret].
  apply returns_bind; [apply returns_call|]. intros [validated|ds]; [|apply returns_ret].
  destruct (negb _); [apply returns_ret|]. destruct (identity_changed _ _); [apply returns_ret|].
  unfold publish_validated. eapply returns_pure_bind.
  { unfold source_publish_command. cbn [pc_observed_at_epoch_seconds].
    apply Z.leb_le in Hobs. assert ((rq_observed_at_epoch_seconds (yq_common request) <? 0) = false) as ->
      by (apply Z.ltb_ge; lia). reflexivity. }
  apply returns_bind; [apply returns_call|]. intros [receipt|ds]; [|apply returns_ret].
  destruct (negb _); apply returns_ret.
Qed.

(** Whatever its ports answer, synchronizing a well-formed source returns,
    and the lease it was given is given back as its last call. *)
Theorem sync_source_releases request ports t :
  wf_acquisition (yq_common request) →
  ∃ result seen, sync_source request ports t = (Ret result, t ++ seen)
  ∧ (seen = [] ∨ (∃ lock ds, seen = [SAcquireLock lock (Err ds)])
     ∨ ∃ lock lease inner released, seen = SAcquireLock lock (Ok lease) :: inner ++ [SReleaseLock lease released]).
Proof.
  intros Hw. assert (returns (sync_source request ports)) as Hret.
  { pose proof Hw as [Hv _ Ht Hs]. unfold acquisition_valid in Hv.
    apply andb_true_iff in Hv as [[Hr _]%andb_true_iff _].
    destruct (request_paths_returns (rq_source (yq_common request)) _ Hr) as (paths & Hp & Hl & _).
    unfold sync_source. cbv zeta. destruct (negb _); [apply returns_ret|].
    eapply returns_pure_bind; [exact Hp|]. eapply returns_pure_bind.
    { unfold source_lock, source_lock_request. cbn [sk_lock_directory sk_timeout_seconds sk_stale_after_seconds].
      rewrite Hl, Ht, Hs. reflexivity. }
    apply returns_bind; [apply returns_call|]. intros [lease|ds]; [|apply returns_ret].
    apply returns_bind; [by apply sync_locked_returns|]. intros outcome.
    apply returns_bind; [apply returns_call|]. intros released. apply returns_ret. }
  destruct (Hret t) as [result Hres]. destruct (sync_source_spec request ports t) as (seen & Hseen & Hl).
  exists result, seen. destruct (sync_source request ports t) as [r t']. cbn in *. subst r t'. split; [done|].
  inversion Hl; subst; eauto 10. done.
Qed.
End spec.

(** * A concrete source *)

Definition sample_configured : ConfiguredSource :=
  MkConfigured (MkAlias "team") SOURCE_LOCAL "/work/tools" None true.
Definition sample_acquisition : AcquisitionRequest :=
  MkAcquisition sample_configured "/data" (MkSemVer 2 8 5 [] []) [] 100 60 default_limits 30 300.
Definition sample_sync : SourceSyncRequest := MkSyncRequest sample_acquisition ALLOW_LAST_KNOWN_GOOD false.
Definition sample_candidate : SourceCandidate :=
  MkCandidate (MkInstance "local-0123456789abcdef0123456789abcdef") (MkAlias "team") "worktree"
    (MkDigest "sha256" "0123456789abcdef0123456789abcdef0123456789abcdef0123456789abcdef") (MkSnapshot LOCAL []).
Definition sample_current : CurrentSource :=
  MkCurrent sample_candidate (MkSourceId "team-tools") 100 "/data/sources/snapshot".
(** An origin that has the candidate, for a source that declares [declared];
    [current] is what was published before. *)
Definition sample_sync_ports (current : option CurrentSource) (declared : string) : SourceSyncPorts :=
  MkSyncPorts (λ _ r, Ok (MkSourceLease (sk_lock_directory r) "token")) (λ _ _, Ok tt) (λ _ _, Ok current)
    (λ _ _, Ok sample_candidate) (λ _ _, Err [])
    (λ _ r, Ok (MkValidated (vr_candidate r) (MkSourceId declared)))
    (λ _ c, Ok (MkSourceReceipt (MkCurrent (va_candidate (pc_validated c)) (va_declared_source_id (pc_validated c))
                                   (pc_observed_at_epoch_seconds c) "/data/sources/snapshot") true)).
Definition sync_result (current : option CurrentSource) (declared : string) : option SyncDisposition :=
  match (@sync_source ascii_unicode sample_sync (sample_sync_ports current declared) []).1 with
  | Ret (Ok outcome) => Some (yo_disposition outcome) | _ => None
  end.
Example first_sync_publishes : sync_result None "team-tools" = Some PUBLISHED.
Proof. vm_compute. reflexivity. Qed.
Example second_sync_unchanged : sync_result (Some sample_current) "team-tools" = Some UNCHANGED.
Proof. vm_compute. reflexivity. Qed.
Example changed_identity_retained : sync_result (Some sample_current) "other-tools" = Some RETAINED.
Proof. vm_compute. reflexivity. Qed.

Lemma sync_source_releases_witness :
  ∃ result seen,
    @sync_source ascii_unicode sample_sync (sample_sync_ports None "team-tools") [] = (Ret result, seen)
    ∧ (seen = [] ∨ (∃ lock ds, seen = [SAcquireLock lock (Err ds)])
       ∨ ∃ lock lease inner released,
           seen = SAcquireLock lock (Ok lease) :: inner ++ [SReleaseLock lease released]).
Proof.
  apply (@sync_source_releases ascii_unicode sample_sync (sample_sync_ports None "team-tools") []).
  split; [by vm_compute| |by vm_compute|by vm_compute].
  split; [by vm_compute|]. split; by vm_compute.
Defined.
