(* ===== verification/Trust.v ===== *)
(** The runtime marketplace ([marketplace/catalog.py], [MarketplaceSourceState]
    of [marketplace/model.py]): the compiled graph, the health of the configured
    sources and the organization policy become a catalog in which every item
    has its source and its trust; and the catalog's projections. *)
From S2P Require Import Prelude PyText Regex Domain SemVer Json Protocol CompilerModel StoreModel Graph Redaction Marketplace Configuration ConfigSchema ConfigPolicy Sources TextSearch.
From Stdlib Require Import Ascii.
Open Scope Z_scope.

(** [_MAX_SOURCES], [_MAX_ITEMS] *)
Definition MAX_SOURCES : Z := 1000.
Definition MAX_ITEMS : Z := 100000.

Record MarketplaceSourceState := MkSourceState {
  mt_configured : ConfiguredSource; mt_health : SourceHealth; mt_display_order : Z
}.

#[export] Instance configured_source_eq_dec : EqDecision ConfiguredSource.
Proof. solve_decision. Defined.

Section catalog.
Context `{UnicodeData} `{IpAddress}.

Definition health_inconsistent (h : SourceHealth) : bool :=
  let present := bool_decide (is_Some (sh_current h)) in
  let aged := bool_decide (is_Some (sh_age_seconds h)) in
  (bool_decide (sh_status h = MISSING) && present)
  || (mem (sh_status h) [HEALTHY; STALE; NOT_SYNCHRONIZED] && negb present)
  || (negb present && aged) || (present && negb aged).
Definition marketplace_source_state (s : MarketplaceSourceState) : py MarketplaceSourceState :=
  raise_if (negb (cs_enabled (mt_configured s))) "marketplace source state must be enabled" ;;
  raise_if (mt_display_order s <? 0) "marketplace source state is invalid" ;;
  raise_if (health_inconsistent (mt_health s)) "marketplace source health/current state is inconsistent" ;;
  bound ← match sh_current (mt_health s) with
          | None => Ret true
          | Some current =>
              if negb (bool_decide (sc_alias (cu_candidate current) = cs_alias (mt_configured s))) then Ret false
              else
                id ← source_instance_id (mt_configured s);
                Ret (bool_decide (sc_instance_id (cu_candidate current) = id))
          end;
  raise_if (negb bound) "marketplace current source does not match its configuration" ;;
  Ret s.

(** * Sources *)

Definition state_origin (state : MarketplaceSourceState) : py string :=
  let configured := mt_configured state in
  if bool_decide (cs_kind configured = SOURCE_LOCAL) then Ret (cs_location configured)
  else match git_location_parts (cs_location configured) with
       | Some (host, path) => Ret (host +:+ "/" +:+ path)
       | None => Raise (ValueError "effective Git source location must already be valid")
       end.
Definition source_view (state : MarketplaceSourceState) (effective : EffectiveConfiguration) :
    py MarketplaceSourceView :=
  origin ← state_origin state;
  let current := sh_current (mt_health state) in
  marketplace_source_view
    (MkView (cs_alias (mt_configured state)) (cs_kind (mt_configured state))
       (cu_declared_source_id <$> current) origin
       ((λ c, sc_resolved_revision (cu_candidate c)) <$> current)
       ((λ c, sc_snapshot_digest (cu_candidate c)) <$> current)
       (sh_status (mt_health state)) (sh_age_seconds (mt_health state)) (mt_display_order state)
       (bool_decide (uc_default_registry (ec_configuration effective) = Some (cs_alias (mt_configured state))))
       (sh_diagnostics (mt_health state))).

(** * Trust *)

Definition company_identity (source : MarketplaceSourceView) : option CompanyReviewedSource :=
  match vw_kind source, vw_source_id source with
  | REGISTRY_GIT, Some id =>
      match cut_first "/" (vw_origin source) with
      | (host, Some repository) =>
          match company_reviewed_source id host repository with Ret c => Some c | Raise _ => None end
      | (_, None) => None
      end
  | _, _ => None
  end.
Definition catalog_review_json (item : MarketplaceArtifact) : JsonValue :=
  match ia_review (ma_artifact item) with
  | None => JNull
  | Some review => json_object [("policy", JStr (rr_policy review)); ("status", JStr (rr_status review))]
  end.
Definition catalog_provenance_json (item : MarketplaceArtifact) : JsonValue :=
  match ia_provenance (ma_artifact item) with
  | None => JNull
  | Some provenance =>
      json_object
        [("origin_url", JStr (redact_text (px_origin_url provenance)));
         ("path", JStr (path_str (px_path provenance)));
         ("resolved_commit", JStr (px_resolved_commit provenance))]
  end.

Definition approved (item : MarketplaceArtifact) : bool :=
  match ia_review (ma_artifact item) with
  | Some review => String.eqb (rr_status review) "approved" && negb (not_one_line (rr_policy review))
  | None => false
  end.
(** The class and its reasons. *)
Definition trust_class (item : MarketplaceArtifact) (source : MarketplaceSourceView)
    (policy : OrganizationPolicy) : TrustClass * list string :=
  match vw_kind source with
  | SOURCE_LOCAL => (TRUST_LOCAL, ["mutable local source"])
  | SOURCE_GIT => (DIRECT_SOURCE, ["configured direct Git source"])
  | REGISTRY_GIT =>
      if approved item
         && match company_identity source with
            | Some identity => mem identity (op_company_reviewed_sources policy) | None => false end
      then (COMPANY_REVIEWED, ["approved registry entry"; "exact organization source identity"])
      else if approved item then (REGISTRY_REVIEWED, ["approved registry entry"])
      else (UNVERIFIED, ["registry review is absent, incomplete, or not approved"])
  end.
Definition opt_text (s : option string) : JsonValue := match s with Some s => JStr s | None => JNull end.
Definition trust_evidence (item : MarketplaceArtifact) (source : MarketplaceSourceView)
    (policy : OrganizationPolicy) : JsonValue :=
  let indexed := ma_artifact item in
  json_object
    [("artifact_manifest_digest", JStr (digest_str (ia_manifest_digest indexed)));
     ("artifact_object_digest", JStr (digest_str (ia_object_digest indexed)));
     ("artifact_payload_digest", JStr (digest_str (ia_payload_digest indexed)));
     ("policy_digest", JStr (digest_str (sha256_bytes (organization_policy_bytes policy))));
     ("provenance", catalog_provenance_json item);
     ("review", catalog_review_json item);
     ("source_id", opt_text (source_id_value <$> vw_source_id source));
     ("source_kind", JStr (source_kind_value (vw_kind source)));
     ("source_origin", JStr (vw_origin source));
     ("source_revision", opt_text (vw_resolved_revision source));
     ("source_snapshot_digest", opt_text (digest_str <$> vw_snapshot_digest source))].
(** [_trust] *)
Definition trust_of (item : MarketplaceArtifact) (source : MarketplaceSourceView)
    (policy : OrganizationPolicy) : py TrustDecision :=
  let '(trust, reasons) := trust_class item source policy in
  trust_decision trust (json_digest (trust_evidence item source policy)) reasons.

(** * The catalog *)

Definition enabled_sources (effective : EffectiveConfiguration) : list (SourceAlias * ConfiguredSource) :=
  dict_of (map (λ s, (cs_alias s, s))
             (List.filter cs_enabled (uc_sources (ec_configuration effective)))).
Definition catalog_error (message : string) (alias : SourceAlias) : Diagnostic :=
  market_error MARKETPLACE_INVALID message (Some alias) [] [].

(** The states that match the enabled configuration, by alias, and the others'
    diagnostics. *)
Fixpoint match_states (states : list MarketplaceSourceState) (enabled : list (SourceAlias * ConfiguredSource))
    (by_alias : list (SourceAlias * MarketplaceSourceState)) (diagnostics : list Diagnostic) :
    list (SourceAlias * MarketplaceSourceState) * list Diagnostic :=
  match states with
  | [] => (by_alias, diagnostics)
  | state :: states =>
      let alias := cs_alias (mt_configured state) in
      if mem alias (dkeys by_alias)
      then match_states states enabled by_alias
             (diagnostics ++ [catalog_error ("duplicate runtime source state: " +:+ alias_value alias) alias])
      else if negb (bool_decide (dget alias enabled = Some (mt_configured state)))
      then match_states states enabled by_alias
             (diagnostics ++ [catalog_error ("runtime source state does not match enabled configuration: "
                                             +:+ alias_value alias) alias])
      else match_states states enabled (by_alias ++ [(alias, state)]) diagnostics
  end.
(** The enabled sources without a state. *)
Definition missing_states (enabled : list (SourceAlias * ConfiguredSource))
    (by_alias : list (SourceAlias * MarketplaceSourceState)) : list Diagnostic :=
  map (λ alias, catalog_error ("enabled source has no runtime state: " +:+ alias_value alias) alias)
    (sorted alias_value (List.filter (λ alias, negb (mem alias (dkeys by_alias))) (dkeys enabled))).

(** The items of the graph's artifacts, and the diagnostics of those that have
    no source. *)
Fixpoint catalog_items (artifacts : list MarketplaceArtifact) (views : list (SourceAlias * MarketplaceSourceView))
    (policy : OrganizationPolicy) (items : list MarketplaceItem) (diagnostics : list Diagnostic) :
    py (list MarketplaceItem * list Diagnostic) :=
  match artifacts with
  | [] => Ret (items, diagnostics)
  | artifact :: artifacts =>
      let alias := ma_source_alias artifact in
      let coordinate := coordinate_str (ma_coordinate artifact) in
      match dget alias views with
      | None =>
          catalog_items artifacts views policy items
            (diagnostics ++ [catalog_error ("compiled artifact has no enabled runtime source: " +:+ coordinate) alias])
      | Some source =>
          if negb (bool_decide (vw_source_id source = Some (ma_source_id artifact)))
          then catalog_items artifacts views policy items
                 (diagnostics ++ [catalog_error ("compiled source ID does not match current source for "
                                                 +:+ coordinate) alias])
          else
            trust ← trust_of artifact source policy;
            item ← marketplace_item artifact source trust;
            catalog_items artifacts views policy (items ++ [item]) diagnostics
      end
  end.

Definition build_marketplace (graph : MarketplaceGraph) (effective : EffectiveConfiguration)
    (states : list MarketplaceSourceState) : py (Result MarketplaceCatalog) :=
  let enabled := enabled_sources effective in
  if (MAX_SOURCES <? count enabled) || (MAX_SOURCES <? count states)
  then Ret (fail1 (market_error MARKETPLACE_INVALID "marketplace exceeds the configured source bound" None [] []))
  else if (MAX_ITEMS <? count (mg_artifacts graph)) || (MAX_ITEMS <? count (mg_collections graph))
  then Ret (fail1 (market_error MARKETPLACE_INVALID "compiled marketplace exceeds the item bound" None [] []))
  else
    let '(by_alias, unmatched) := match_states states enabled [] [] in
    views ← mapM (λ '(alias, state), v ← source_view state effective; Ret (alias, v)) by_alias;
    result ← catalog_items (mg_artifacts graph) views (ec_policy effective) []
               (unmatched ++ missing_states enabled by_alias);
    let '(items, diagnostics) := result in
    match diagnostics with
    | _ :: _ => Ret (raise_errors diagnostics)
    | [] =>
        catalog ← marketplace_catalog (dvalues views) items (mg_collections graph) (mg_diagnostics graph);
        Ret (Ok catalog)
    end.

(** * Projections *)

Definition view_json (source : MarketplaceSourceView) : JsonValue :=
  json_object
    [("age_seconds", match vw_age_seconds source with Some n => JInt n | None => JNull end);
     ("alias", JStr (alias_value (vw_alias source)));
     ("diagnostics", JsonArray (map (λ d, JStr (code_value (d_code d))) (vw_diagnostics source)));
     ("display_order", JInt (vw_display_order source));
     ("health", JStr (health_value (vw_health source)));
     ("is_default", JBool (vw_is_default source));
     ("kind", JStr (source_kind_value (vw_kind source)));
     ("origin", JStr (redact_text (vw_origin source)));
     ("resolved_revision", opt_text (vw_resolved_revision source));
     ("snapshot_digest", opt_text (digest_str <$> vw_snapshot_digest source));
     ("source_id", opt_text (source_id_value <$> vw_source_id source))].

Definition unbounded (b : VersionBounds) : bool :=
  match vb_min_inclusive b, vb_max_exclusive b with None, None => true | _, _ => false end.
Definition bound_entry (key : string) (v : option SemVer) : list (string * JsonValue) :=
  match v with Some v => [(key, JStr (semver_str v))] | None => [] end.
(** What an item says about the executable, when one is given. *)
Definition compatibility_entries (bounds : VersionBounds) (executable_version : option SemVer) :
    list (string * JsonValue) :=
  match executable_version with
  | None => []
  | Some v =>
      let compatible := allows bounds v in
      ("aart_compatible", JBool compatible)
      :: if compatible then []
         else [("compatibility_notice",
                JStr ("Requires AART " +:+ version_bounds_label bounds +:+ "; running AART " +:+ semver_str v
                      +:+ " may not support this artifact, so installation is disabled."))]
  end.
Definition item_json (item : MarketplaceItem) (executable_version : option SemVer) : JsonValue :=
  let artifact := ma_artifact (mi_artifact item) in
  let bounds := ia_requires_aart artifact in
  json_object
    ([("collections", JsonArray (map JStr (ia_collections artifact)));
      ("coordinate", JStr (coordinate_str (mi_coordinate item)));
      ("lifecycle", JStr (lifecycle_value (ma_lifecycle (mi_artifact item))));
      ("manifest_digest", JStr (digest_str (ia_manifest_digest artifact)));
      ("object_digest", JStr (digest_str (ia_object_digest artifact)));
      ("payload_digest", JStr (digest_str (ia_payload_digest artifact)));
      ("provenance", catalog_provenance_json (mi_artifact item));
      ("source", view_json (mi_source item));
      ("summary", JStr (redact_text (ia_summary artifact)));
      ("trust", JStr (trust_value (td_kind (mi_trust item))));
      ("trust_evidence_digest", JStr (digest_str (td_evidence_digest (mi_trust item))))]
     ++ (if unbounded bounds then []
         else [("requires_aart",
                json_object (bound_entry "min_inclusive" (vb_min_inclusive bounds)
                             ++ bound_entry "max_exclusive" (vb_max_exclusive bounds)))])
     ++ compatibility_entries bounds executable_version).
Definition catalog_collection_json (c : MarketplaceCollection) : JsonValue :=
  json_object
    [("coordinate", JStr (collection_str (mc_coordinate c)));
     ("members", JsonArray (map (λ m, JStr (coordinate_str m)) (mc_members c)));
     ("summary", JStr (redact_text (mc_summary c)))].
Definition marketplace_catalog_bytes (catalog : MarketplaceCatalog) (executable_version : option SemVer) : bytes :=
  canonical_json_bytes (json_object
    [("artifacts", JsonArray (map (λ i, item_json i executable_version) (ct_items catalog)));
     ("collections", JsonArray (map catalog_collection_json (ct_collections catalog)));
     ("diagnostics", JsonArray (map (λ d, JStr (code_value (d_code d))) (ct_diagnostics catalog)));
     ("schema_version", JInt 1);
     ("sources", JsonArray (map view_json (ct_sources catalog)))]).

Definition requirement_text (bounds : VersionBounds) (executable_version : option SemVer) : string :=
  if unbounded bounds then ""
  else
    let availability := match executable_version with
                        | Some v => if allows bounds v then "" else ", unavailable on " +:+ semver_str v
                        | None => "" end in
    " requires AART " +:+ version_bounds_label bounds +:+ availability.
Definition item_line (item : MarketplaceItem) (executable_version : option SemVer) : string :=
  let artifact := ma_artifact (mi_artifact item) in
  let origin := match ia_provenance artifact with
    | Some p => redact_text (px_origin_url p) +:+ "@" +:+ px_resolved_commit p +:+ ":" +:+ path_str (px_path p)
    | None => redact_text (vw_origin (mi_source item)) +:+ "@"
              +:+ match vw_resolved_revision (mi_source item) with
                  | None | Some EmptyString => "missing" | Some r => r end
    end in
  coordinate_str (mi_coordinate item) +:+ " [" +:+ trust_value (td_kind (mi_trust item)) +:+ "] ["
  +:+ health_value (vw_health (mi_source item)) +:+ "] " +:+ redact_text (ia_summary artifact)
  +:+ requirement_text (ia_requires_aart artifact) executable_version
  +:+ " object=" +:+ digest_str (ia_object_digest artifact) +:+ " origin=" +:+ origin.
Definition render_marketplace (catalog : MarketplaceCatalog) (executable_version : option SemVer) : string :=
  let lines :=
    map (λ s, "source " +:+ alias_value (vw_alias s) +:+ " [" +:+ health_value (vw_health s) +:+ "] "
              +:+ source_kind_value (vw_kind s) +:+ " " +:+ redact_text (vw_origin s)) (ct_sources catalog)
    ++ map (λ i, item_line i executable_version) (ct_items catalog)
    ++ map (λ c, collection_str (mc_coordinate c) +:+ " [collection] " +:+ redact_text (mc_summary c)
                 +:+ " members=" +:+ join "," (map coordinate_str (mc_members c))) (ct_collections catalog) in
  match lines with
  | [] => ""
  | _ => join (String newline "") lines +:+ String newline ""
  end.
End catalog.

(** What the runtime marketplace promises: a catalog is built exactly from
    matching states, holds every artifact of the graph with its own source, and
    trusts an artifact only on a review the policy recognises. *)


#[local] Opaque redact_text json_digest.

Section spec.
Context `{UnicodeData} `{IpAddress}.

Definition state_alias (s : MarketplaceSourceState) : SourceAlias := cs_alias (mt_configured s).
(** The state is the one of its enabled source. *)
Definition state_matches (enabled : list (SourceAlias * ConfiguredSource)) (s : MarketplaceSourceState) : Prop :=
  dget (state_alias s) enabled = Some (mt_configured s).

Lemma match_states_run states enabled acc ds by_alias ds' :
  match_states states enabled acc ds = (by_alias, ds') →
  ∃ d, ds' = ds ++ d
    ∧ (d = [] ↔ Forall (state_matches enabled) states ∧ NoDup (map state_alias states)
                ∧ ∀ s, s ∈ states → state_alias s ∉ dkeys acc)
    ∧ (d = [] → by_alias = acc ++ map (λ s, (state_alias s, s)) states).
Proof.
  revert acc ds. induction states as [|s states IH]; intros acc ds; cbn [match_states].
  { intros [= <- <-]. exists []. rewrite !app_nil_r. split; [done|]. split; [|done].
    split; [|done]. intros _. split_and!; [constructor|constructor|set_solver]. }
  fold (state_alias s). destruct (mem (state_alias s) (dkeys acc)) eqn:Em.
  { apply mem_true in Em. intros (d & -> & Hd & _)%IH. eexists. rewrite <-app_assoc. split; [done|].
    split; [|done]. split; [done|]. intros (_ & _ & Hs). destruct (Hs s); [set_solver|done]. }
  case_bool_decide as Hb; cbn [negb].
  2:{ intros (d & -> & Hd & _)%IH. eexists. rewrite <-app_assoc. split; [done|]. split; [|done].
      split; [done|]. intros (Hf & _ & _). by inversion Hf. }
  intros (d & -> & Hd & Hb')%IH. exists d. split; [done|].
  assert (state_alias s ∉ dkeys acc) as Hn by (intros Hin; apply mem_true in Hin; congruence).
  split.
  - rewrite Hd. cbn [map]. rewrite Forall_cons, NoDup_cons. unfold dkeys. setoid_rewrite fmap_app.
    setoid_rewrite elem_of_app. cbn. split.
    + intros (Hf & Hnd & Hs). split_and!; [done|done| |done|].
      * intros (s' & Ha & Hin)%list_elem_of_fmap. apply (Hs s' Hin). right. rewrite <-Ha. by left.
      * intros s' [->|Hin]%elem_of_cons; [done|]. intros Hin'. apply (Hs s' Hin). by left.
    + intros ([Hm Hf] & [Hni Hnd] & Hs). split_and!; [done|done|]. intros s' Hin [Hin'|Hin'].
      * apply (Hs s'); [by right|done].
      * apply list_elem_of_singleton in Hin'. apply Hni. rewrite <-Hin'. by apply list_elem_of_fmap_2.
  - intros E. rewrite (Hb' E), <-app_assoc. done.
Qed.

Lemma missing_states_nil enabled by_alias :
  missing_states enabled by_alias = [] ↔ ∀ alias, alias ∈ dkeys enabled → alias ∈ dkeys by_alias.
Proof.
  unfold missing_states. split.
  - intros Hm%map_nil_iff%sorted_nil_iff alias Hin. apply mem_true.
    destruct (mem alias (dkeys by_alias)) eqn:E; [done|]. exfalso.
    assert (alias ∈ @nil SourceAlias) as []%elem_of_nil.
    rewrite <-Hm. apply list_elem_of_In, List.filter_In. rewrite <-list_elem_of_In, E. done.
  - intros Hall. apply map_nil_iff. replace (List.filter _ _) with (@nil SourceAlias); [done|].
    symmetry. destruct (List.filter _ _) as [|alias l] eqn:E; [done|].
    assert (alias ∈ alias :: l) as Hin by left. rewrite <-E in Hin.
    apply list_elem_of_In, List.filter_In in Hin as [Hin%list_elem_of_In Hm].
    apply Hall, mem_true in Hin. by rewrite Hin in Hm.
Qed.

(** * Items *)

Definition has_view (views : list (SourceAlias * MarketplaceSourceView)) (a : MarketplaceArtifact) : Prop :=
  ∃ v, dget (ma_source_alias a) views = Some v ∧ vw_source_id v = Some (ma_source_id a).
(** The item of an artifact: its source and the trust the policy gives it. *)
Definition item_of (views : list (SourceAlias * MarketplaceSourceView)) (policy : OrganizationPolicy)
    (a : MarketplaceArtifact) (i : MarketplaceItem) : Prop :=
  ∃ v trust, dget (ma_source_alias a) views = Some v ∧ vw_source_id v = Some (ma_source_id a)
    ∧ trust_of a v policy = Ret trust ∧ i = MkMarketItem a v trust.

Lemma catalog_items_run artifacts views policy items ds items' ds' :
  catalog_items artifacts views policy items ds = Ret (items', ds') →
  ∃ new d, items' = items ++ new ∧ ds' = ds ++ d
    ∧ (d = [] ↔ Forall (has_view views) artifacts)
    ∧ (d = [] → Forall2 (item_of views policy) artifacts new).
Proof.
  revert items ds. induction artifacts as [|a artifacts IH]; intros items ds; cbn [catalog_items].
  { intros [= <- <-]. exists [], []. rewrite !app_nil_r. split_and!; [done|done|by split|by constructor]. }
  cbv zeta. destruct (dget _ views) as [v|] eqn:Ev.
  2:{ intros (new & d & -> & -> & Hd & _)%IH. exists new. eexists. rewrite <-(app_assoc ds).
      split_and!; [done|done| |done]. split; [done|]. intros Hf. inversion Hf as [|? ? (v & E & _)]. congruence. }
  case_bool_decide as Hid; cbn [negb].
  2:{ intros (new & d & -> & -> & Hd & _)%IH. exists new. eexists. rewrite <-(app_assoc ds).
      split_and!; [done|done| |done]. split; [done|]. intros Hf. inversion Hf as [|? ? (v' & E & E')]. congruence. }
  intros (trust & Ht & Hr)%bind_Ret. apply bind_Ret in Hr as (item & Hi & Hr).
  unfold marketplace_item in Hi. apply bind_Ret in Hi as (? & _ & [= <-]).
  apply IH in Hr as (new & d & -> & -> & Hd & Hn). exists (MkMarketItem a v trust :: new), d.
  rewrite <-app_assoc. split_and!; [done|done| |].
  - rewrite Hd, Forall_cons. split; [|by intros []]. intros Hf. split; [|done]. by exists v.
  - intros E. constructor; [|by apply Hn]. by exists v, trust.
Qed.

Lemma views_run states effective views :
  mapM (λ '(alias, state), v ← source_view state effective; Ret (alias, v)) (map (λ s, (state_alias s, s)) states)
    = Ret views →
  Forall2 (λ s kv, kv.1 = state_alias s ∧ source_view s effective = Ret kv.2) states views.
Proof.
  intros Hv%mapM_Ret. rewrite Forall2_fmap_l in Hv. eapply Forall2_impl; [exact Hv|].
  intros s [alias v] Hs. cbn in Hs. by apply bind_Ret in Hs as (v' & E & [= <- <-]).
Qed.

(** * The catalog *)

(** What the graph, the configuration and the states must agree on. *)
Record consistent (graph : MarketplaceGraph) (effective : EffectiveConfiguration)
    (states : list MarketplaceSourceState) : Prop := {
  cn_sources : count (enabled_sources effective) ≤ MAX_SOURCES ∧ count states ≤ MAX_SOURCES;
  cn_items : count (mg_artifacts graph) ≤ MAX_ITEMS ∧ count (mg_collections graph) ≤ MAX_ITEMS;
  cn_states : NoDup (map state_alias states) ∧ Forall (state_matches (enabled_sources effective)) states;
  cn_enabled : ∀ alias, alias ∈ dkeys (enabled_sources effective) → alias ∈ map state_alias states;
  cn_artifacts : ∀ a, a ∈ mg_artifacts graph →
    ∃ s v, s ∈ states ∧ state_alias s = ma_source_alias a ∧ source_view s effective = Ret v
      ∧ vw_source_id v = Some (ma_source_id a)
}.

(** When an artifact is given the organization's own trust. *)
Definition company_reviewed (policy : OrganizationPolicy) (i : MarketplaceItem) : Prop :=
  vw_kind (mi_source i) = REGISTRY_GIT ∧ approved (mi_artifact i) = true
  ∧ ∃ host repository c,
      cut_first "/" (vw_origin (mi_source i)) = (host, Some repository)
      ∧ company_reviewed_source (ma_source_id (mi_artifact i)) host repository = Ret c
      ∧ c ∈ op_company_reviewed_sources policy.

(** What the catalog holds. *)
Record built (graph : MarketplaceGraph) (effective : EffectiveConfiguration)
    (states : list MarketplaceSourceState) (catalog : MarketplaceCatalog) : Prop := {
  bc_sources : ∀ v, v ∈ ct_sources catalog ↔ ∃ s, s ∈ states ∧ source_view s effective = Ret v;
  bc_items : map mi_artifact (ct_items catalog) ≡ₚ mg_artifacts graph;
  bc_collections : ct_collections catalog ≡ₚ mg_collections graph;
  bc_bound : ∀ i, i ∈ ct_items catalog →
    mi_source i ∈ ct_sources catalog ∧ vw_alias (mi_source i) = ma_source_alias (mi_artifact i)
    ∧ vw_source_id (mi_source i) = Some (ma_source_id (mi_artifact i));
  bc_company : ∀ i, i ∈ ct_items catalog →
    (td_kind (mi_trust i) = COMPANY_REVIEWED ↔ company_reviewed (ec_policy effective) i);
  bc_reviewed : ∀ i, i ∈ ct_items catalog →
    (td_kind (mi_trust i) = REGISTRY_REVIEWED ↔
       vw_kind (mi_source i) = REGISTRY_GIT ∧ approved (mi_artifact i) = true
       ∧ ¬ company_reviewed (ec_policy effective) i);
  bc_local : ∀ i, i ∈ ct_items catalog →
    (td_kind (mi_trust i) = TRUST_LOCAL ↔ vw_kind (mi_source i) = SOURCE_LOCAL)
    ∧ (td_kind (mi_trust i) = DIRECT_SOURCE ↔ vw_kind (mi_source i) = SOURCE_GIT)
}.

Lemma trust_of_kind a v policy trust :
  trust_of a v policy = Ret trust → td_kind trust = (trust_class a v policy).1.
Proof.
  unfold trust_of, trust_decision. destruct (trust_class a v policy) as [kind reasons].
  intros Ht. by apply bind_Ret in Ht as (? & _ & [= <-]).
Qed.

Lemma company_mem a v policy :
  vw_kind v = REGISTRY_GIT → vw_source_id v = Some (ma_source_id a) →
  match company_identity v with Some c => mem c (op_company_reviewed_sources policy) | None => false end = true ↔
  ∃ host repository c, cut_first "/" (vw_origin v) = (host, Some repository)
    ∧ company_reviewed_source (ma_source_id a) host repository = Ret c ∧ c ∈ op_company_reviewed_sources policy.
Proof.
  intros Hk Hid. unfold company_identity. rewrite Hk, Hid.
  destruct (cut_first "/" (vw_origin v)) as [host [repository|]]; [|split; [done|]; by intros (?&?&?&[=]&_)].
  destruct (company_reviewed_source _ _ _) as [c|e] eqn:Ec.
  - rewrite mem_true. split; [eauto 10|]. intros (? & ? & ? & [= <- <-] & Ec' & ?). congruence.
  - split; [done|]. intros (? & ? & ? & [= <- <-] & Ec' & _). congruence.
Qed.

Lemma source_view_alias s effective v : source_view s effective = Ret v → vw_alias v = state_alias s.
Proof.
  unfold source_view. intros (origin & _ & Hv)%bind_Ret. cbv zeta in Hv. unfold marketplace_source_view in Hv.
  by apply bind_Ret in Hv as (? & _ & [= <-]).
Qed.

Section views.
Context (effective : EffectiveConfiguration) (states : list MarketplaceSourceState)
  (views : list (SourceAlias * MarketplaceSourceView)).
Context (Hviews : Forall2 (λ s kv, kv.1 = state_alias s ∧ source_view s effective = Ret kv.2) states views).
Context (Hd : NoDup (map state_alias states)).

Lemma views_keys : dkeys views = map state_alias states.
Proof using Hviews.
  clear Hd. unfold dkeys. induction Hviews as [|s kv ss kvs [Hk _] Hall IH]; [done|].
  cbn. by rewrite Hk, (IH Hall).
Qed.
Lemma views_get alias v :
  dget alias views = Some v ↔ ∃ s, s ∈ states ∧ state_alias s = alias ∧ source_view s effective = Ret v.
Proof using Hviews Hd.
  split.
  - intros (i & Hi)%dget_elem_of%list_elem_of_lookup.
    destruct (Forall2_lookup_r _ _ _ _ _ Hviews Hi) as (s & Hs & Ha & Hv). cbn in *.
    exists s. split_and!; [by eapply list_elem_of_lookup_2|done|done].
  - intros (s & (i & Hs)%list_elem_of_lookup & <- & Hv).
    destruct (Forall2_lookup_l _ _ _ _ _ Hviews Hs) as ([a v'] & Hi & Ha & Hv'). cbn in *. subst a.
    assert (v' = v) as -> by congruence. apply elem_of_dget; [by rewrite views_keys|].
    by eapply list_elem_of_lookup_2.
Qed.
Lemma views_values v : v ∈ dvalues views ↔ ∃ s, s ∈ states ∧ source_view s effective = Ret v.
Proof using Hviews.
  unfold dvalues. rewrite list_elem_of_fmap. split.
  - intros ([a v'] & -> & (i & Hi)%list_elem_of_lookup). cbn.
    destruct (Forall2_lookup_r _ _ _ _ _ Hviews Hi) as (s & Hs & _ & Hv). cbn in *.
    exists s. split; [by eapply list_elem_of_lookup_2|done].
  - intros (s & (i & Hs)%list_elem_of_lookup & Hv).
    destruct (Forall2_lookup_l _ _ _ _ _ Hviews Hs) as ([a v'] & Hi & _ & Hv'). cbn in *.
    exists (a, v'). split; [cbn; congruence|by eapply list_elem_of_lookup_2].
Qed.
End views.

Lemma catalog_built graph effective states views items catalog :
  Forall2 (λ s kv, kv.1 = state_alias s ∧ source_view s effective = Ret kv.2) states views →
  NoDup (map state_alias states) →
  Forall2 (item_of views (ec_policy effective)) (mg_artifacts graph) items →
  marketplace_catalog (dvalues views) items (mg_collections graph) (mg_diagnostics graph) = Ret catalog →
  built graph effective states catalog.
Proof.
  intros Hviews Hd Hitems Hc. unfold marketplace_catalog in Hc. cbv zeta in Hc.
  apply bind_Ret in Hc as (? & _ & Hc). apply bind_Ret in Hc as (? & _ & Hc). apply bind_Ret in Hc as (? & _ & [= <-]).
  assert (∀ i, i ∈ sorted item_key items → ∃ a, item_of views (ec_policy effective) a i) as Hi.
  { intros i. rewrite elem_of_sorted. intros (n & Hn)%list_elem_of_lookup.
    destruct (Forall2_lookup_r _ _ _ _ _ Hitems Hn) as (a & _ & Ha). eauto. }
  split; cbn [ct_sources ct_items ct_collections].
  - intros v. rewrite elem_of_sorted. by apply views_values.
  - rewrite sorted_perm. clear Hi. induction Hitems as [|a i artifacts rest (v & trust & _ & _ & _ & ->) _ IH]; [done|].
    cbn. by constructor.
  - apply sorted_perm.
  - intros i (a & v & trust & Hv & Hid & _ & ->)%Hi. cbn. split_and!; [|..|done].
    + rewrite elem_of_sorted. apply (views_values effective states views Hviews).
      apply (views_get effective states views Hviews Hd) in Hv as (s & ? & _ & ?). eauto.
    + apply (views_get effective states views Hviews Hd) in Hv as (s & _ & <- & Hv). by eapply source_view_alias.
  - intros i (a & v & trust & Hv & Hid & Ht & ->)%Hi. cbn. rewrite (trust_of_kind _ _ _ _ Ht).
    unfold company_reviewed, trust_class. cbn. destruct (vw_kind v) eqn:Ek; [|naive_solver..].
    rewrite <-(company_mem a v (ec_policy effective) Ek Hid).
    destruct (approved a), (match company_identity v with Some _ => _ | None => _ end); cbn; naive_solver.
  - intros i (a & v & trust & Hv & Hid & Ht & ->)%Hi. cbn. rewrite (trust_of_kind _ _ _ _ Ht).
    unfold company_reviewed, trust_class. cbn. destruct (vw_kind v) eqn:Ek; [|naive_solver..].
    rewrite <-(company_mem a v (ec_policy effective) Ek Hid).
    destruct (approved a), (match company_identity v with Some _ => _ | None => _ end); cbn; naive_solver.
  - intros i (a & v & trust & Hv & Hid & Ht & ->)%Hi. cbn. rewrite (trust_of_kind _ _ _ _ Ht).
    unfold trust_class. destruct (vw_kind v); [destruct (_ && _); [|destruct (approved a)]|..]; cbn; by split.
Qed.

(** * When the constructors accept *)

(** What the constructor of the catalog asks for beyond that: distinct artifacts
    and collections, and collections of these sources and artifacts. *)
Record assembles (graph : MarketplaceGraph) (states : list MarketplaceSourceState) : Prop := {
  as_artifacts : NoDup (map ma_key (mg_artifacts graph));
  as_collections : NoDup (map mc_coordinate (mg_collections graph));
  as_sources : ∀ c, c ∈ mg_collections graph → cc_source (mc_coordinate c) ∈ map state_alias states;
  as_members : ∀ c m, c ∈ mg_collections graph → m ∈ mc_members c →
    m ∈ map ma_coordinate (mg_artifacts graph)
}.

Lemma trust_of_total a v policy : ∃ trust, trust_of a v policy = Ret trust.
Proof.
  unfold trust_of, trust_decision, trust_class. rewrite json_digest_valid. cbn [negb orb].
  destruct (vw_kind v); [destruct (_ && _); [|destruct (approved a)]|..];
    rewrite bool_decide_false by done; (eexists; reflexivity).
Qed.
Lemma catalog_items_total artifacts views policy items ds :
  (∀ alias v, dget alias views = Some v → vw_alias v = alias) →
  ∃ r, catalog_items artifacts views policy items ds = Ret r.
Proof.
  intros Hv. revert items ds. induction artifacts as [|a artifacts IH]; intros items ds; [by eexists|].
  cbn [catalog_items]. cbv zeta. destruct (dget _ views) as [v|] eqn:Ev; [|apply IH].
  case_bool_decide as Hid; cbn [negb]; [|apply IH].
  destruct (trust_of_total a v policy) as [trust ->]. cbn [mbind py_bind]. unfold marketplace_item.
  rewrite (Hv _ _ Ev), Hid, !bool_decide_true by done. cbn. apply IH.
Qed.
Lemma match_states_elem states enabled acc ds kv :
  kv ∈ (match_states states enabled acc ds).1 →
  kv ∈ acc ∨ (kv.1 = state_alias kv.2 ∧ kv.2 ∈ states).
Proof.
  revert acc ds. induction states as [|s states IH]; intros acc ds; cbn [match_states]; [by left|].
  destruct (mem _ _); [|destruct (negb _)]; intros [Hin|[? ?]]%IH; try (by left); try (right; split; [done|by right]).
  apply elem_of_app in Hin as [?| ->%list_elem_of_singleton]; [by left|]. right. split; [done|left].
Qed.
Lemma source_view_error s effective e : source_view s effective = Raise e → ∃ m, e = ValueError m.
Proof.
  unfold source_view. intros [Ho|(origin & _ & Hv)]%bind_Raise.
  - revert Ho. unfold state_origin. cbv zeta. destruct (bool_decide _); [done|].
    destruct (git_location_parts _) as [[]|]; [done|]. intros [= <-]. eauto.
  - cbv zeta in Hv. unfold marketplace_source_view in Hv.
    apply bind_Raise in Hv as [[_ ->]%raise_if_Raise|(? & _ & [=])]. eauto.
Qed.

Lemma items_artifacts views policy artifacts items :
  Forall2 (item_of views policy) artifacts items → map mi_artifact items = artifacts.
Proof. induction 1 as [|a i l k (v & t & _ & _ & _ & ->) _ IH]; [done|]. cbn. by rewrite IH. Qed.

Lemma keyed_fst {A K} (f : A → K) (l : list A) : (map (λ a, (f a, a)) l).*1 = map f l.
Proof. induction l as [|a l IH]; [done|]. cbn. by f_equal. Qed.

Section assemble.
Context (graph : MarketplaceGraph) (effective : EffectiveConfiguration) (states : list MarketplaceSourceState)
  (views : list (SourceAlias * MarketplaceSourceView)) (items : list MarketplaceItem).
Context (Hviews : Forall2 (λ s kv, kv.1 = state_alias s ∧ source_view s effective = Ret kv.2) states views).
Context (Hd : NoDup (map state_alias states)).
Context (Hitems : Forall2 (item_of views (ec_policy effective)) (mg_artifacts graph) items).

Lemma views_aliases : map vw_alias (dvalues views) = map state_alias states.
Proof using Hviews.
  clear Hd Hitems. unfold dvalues. induction Hviews as [|s kv ss kvs [Hk Hv] Hall IH]; [done|].
  cbn. by rewrite (source_view_alias _ _ _ Hv), (IH Hall).
Qed.
Lemma sorted_aliases : NoDup (map vw_alias (sorted view_rank (dvalues views))).
Proof using Hviews Hd.
  by rewrite (Permutation_map vw_alias (sorted_perm view_rank (dvalues views))), views_aliases.
Qed.
Lemma source_bound i : i ∈ items →
  dget (vw_alias (mi_source i)) (dict_of (map (λ v, (vw_alias v, v)) (sorted view_rank (dvalues views))))
    = Some (mi_source i).
Proof using Hviews Hd Hitems.
  intros (n & Hn)%list_elem_of_lookup.
  destruct (Forall2_lookup_r _ _ _ _ _ Hitems Hn) as (a & _ & v & trust & Hv & _ & _ & ->). cbn.
  rewrite dict_of_fresh by (rewrite keyed_fst; apply sorted_aliases).
  apply elem_of_dget; [unfold dkeys; rewrite keyed_fst; apply sorted_aliases|].
  apply list_elem_of_fmap. exists v. split; [done|]. rewrite elem_of_sorted.
  apply (views_values effective states views Hviews).
  apply (views_get effective states views Hviews Hd) in Hv as (s & ? & _ & ?). eauto.
Qed.

Lemma marketplace_catalog_assembles ds :
  match marketplace_catalog (dvalues views) items (mg_collections graph) ds with
  | Ret _ => assembles graph states
  | Raise e => ¬ assembles graph states ∧ ∃ m, e = ValueError m
  end.
Proof using Hviews Hd Hitems.
  unfold marketplace_catalog. cbv zeta.
  rewrite (proj2 (has_dups_false (map vw_alias (sorted view_rank (dvalues views))))) by apply sorted_aliases.
  cbn [raise_if mbind py_bind].
  assert (has_dups (map mi_key (sorted item_key items)) = false ↔ NoDup (map ma_key (mg_artifacts graph))) as Hkeys.
  { rewrite has_dups_false, (Permutation_map mi_key (sorted_perm item_key items)),
      <-(items_artifacts _ _ _ _ Hitems), map_map. done. }
  assert (has_dups (map mc_coordinate (sorted (λ c, collection_key (mc_coordinate c)) (mg_collections graph))) = false
          ↔ NoDup (map mc_coordinate (mg_collections graph))) as Hcoll.
  { by rewrite has_dups_false, (Permutation_map mc_coordinate (sorted_perm _ (mg_collections graph))). }
  rewrite (proj2 (existsb_negb _ (sorted item_key items))).
  2:{ intros i Hi. rewrite elem_of_sorted in Hi. by rewrite (source_bound i Hi), bool_decide_true. }
  rewrite orb_false_r. destruct (has_dups (map mi_key _)) eqn:E1; cbn [raise_if mbind py_bind].
  { split; [|eauto]. intros [Ha _ _ _]. apply Hkeys in Ha. congruence. }
  assert (∀ alias, mem alias (dkeys (dict_of (map (λ v, (vw_alias v, v)) (sorted view_rank (dvalues views))))) = true
          ↔ alias ∈ map state_alias states) as Hdict.
  { intros alias. rewrite mem_true, dict_of_fresh by (rewrite keyed_fst; apply sorted_aliases).
    unfold dkeys. rewrite keyed_fst, <-views_aliases.
    by rewrite (Permutation_map vw_alias (sorted_perm view_rank (dvalues views))). }
  assert (∀ m, mem m (map mi_coordinate (sorted item_key items)) = true
          ↔ m ∈ map ma_coordinate (mg_artifacts graph)) as Hmembers.
  { intros m. rewrite mem_true, (Permutation_map mi_coordinate (sorted_perm item_key items)),
      <-(items_artifacts _ _ _ _ Hitems), map_map. done. }
  set (b := _ || _).
  assert (b = false ↔ NoDup (map mc_coordinate (mg_collections graph))
    ∧ (∀ c, c ∈ mg_collections graph → cc_source (mc_coordinate c) ∈ map state_alias states)
    ∧ ∀ c m, c ∈ mg_collections graph → m ∈ mc_members c → m ∈ map ma_coordinate (mg_artifacts graph)) as Hb.
  { unfold b. rewrite !orb_false_iff, Hcoll, !existsb_negb. setoid_rewrite Hdict. setoid_rewrite Hmembers.
    setoid_rewrite elem_of_sorted. setoid_rewrite list_elem_of_bind. setoid_rewrite elem_of_sorted. naive_solver. }
  destruct b; cbn [raise_if mbind py_bind].
  - split; [|eauto]. intros [_ ? ? ?]. assert (true = false) as [=] by by apply Hb.
  - destruct (proj1 Hb eq_refl) as (? & ? & ?). split; [by apply Hkeys|done..].
Qed.
End assemble.

(** The diagnostics are those of an inconsistent input. *)
Lemma diagnostics_consistent graph effective states by_alias d1 d2 views :
  count (enabled_sources effective) ≤ MAX_SOURCES ∧ count states ≤ MAX_SOURCES →
  count (mg_artifacts graph) ≤ MAX_ITEMS ∧ count (mg_collections graph) ≤ MAX_ITEMS →
  (d1 = [] ↔ Forall (state_matches (enabled_sources effective)) states ∧ NoDup (map state_alias states)
             ∧ ∀ s, s ∈ states → state_alias s ∉ dkeys (@nil (SourceAlias * MarketplaceSourceState))) →
  (d1 = [] → by_alias = map (λ s, (state_alias s, s)) states) →
  mapM (λ '(alias, state), v ← source_view state effective; Ret (alias, v)) by_alias = Ret views →
  (d2 = [] ↔ Forall (has_view views) (mg_artifacts graph)) →
  (d1 ++ missing_states (enabled_sources effective) by_alias) ++ d2 = [] ↔ consistent graph effective states.
Proof.
  intros Hs Hb Hd1 Hb1 Hviews Hd2. split.
  - intros [[E1 Hm]%app_nil E2]%app_nil. pose proof (Hb1 E1) as ->. apply Hd1 in E1 as (Hf & Hd & _).
      cbn in Hviews. apply views_run in Hviews. rewrite missing_states_nil in Hm. apply Hd2 in E2.
      split; [done|done|done| |].
      + intros alias Hin%Hm. unfold dkeys in Hin. cbn in Hin. by rewrite <-list_fmap_compose in Hin.
      + intros a Ha. rewrite Forall_forall in E2. destruct (E2 a Ha) as (v & Hv & Hid).
        apply (views_get effective states views Hviews Hd) in Hv as (s & ? & ? & ?). eauto 10.
  - intros [_ _ [Hd Hf] He Ha].
      assert (d1 = []) as -> by (apply Hd1; split_and!; [done|done|set_solver]).
      pose proof (Hb1 eq_refl) as ->. cbn in Hviews. apply views_run in Hviews.
      assert (missing_states (enabled_sources effective) (map (λ s, (state_alias s, s)) states) = []) as ->.
    { apply missing_states_nil. intros alias Hin%He. unfold dkeys. by rewrite <-list_fmap_compose. }
      cbn. apply Hd2, Forall_forall. intros a Hin. destruct (Ha a Hin) as (s & v & ? & ? & ? & ?).
      exists v. split; [|done]. apply (views_get effective states views Hviews Hd). eauto.
Qed.

Lemma build_marketplace_returns graph effective states r :
  build_marketplace graph effective states = Ret r →
  match r with
  | Ok catalog => ∃ views items, consistent graph effective states
      ∧ Forall2 (λ s kv, kv.1 = state_alias s ∧ source_view s effective = Ret kv.2) states views
      ∧ Forall2 (item_of views (ec_policy effective)) (mg_artifacts graph) items
      ∧ marketplace_catalog (dvalues views) items (mg_collections graph) (mg_diagnostics graph) = Ret catalog
  | Err _ => ¬ consistent graph effective states
  end.
Proof.
  unfold build_marketplace. cbv zeta.
  destruct (_ || _) eqn:Hs; [intros [= <-]; intros []; unfold MAX_SOURCES in *; lia|].
  destruct ((MAX_ITEMS <? _) || _) eqn:Hb; [intros [= <-]; intros []; unfold MAX_ITEMS in *; lia|].
  destruct (match_states _ _ _ _) as [by_alias unmatched] eqn:Em.
  apply match_states_run in Em as (d1 & -> & Hd1 & Hb1). cbn [app] in *.
  intros (views & Hviews & Hr)%bind_Ret. apply bind_Ret in Hr as ([items ds] & Hitems & Hr).
  apply catalog_items_run in Hitems as (new & d2 & -> & -> & Hd2 & Hi2). cbn [app] in Hr.
  pose proof (diagnostics_consistent graph effective states by_alias d1 d2 views ltac:(lia) ltac:(lia)
                Hd1 Hb1 Hviews Hd2) as Hiff.
  destruct ((d1 ++ _) ++ d2) as [|x l] eqn:Ed.
  - apply bind_Ret in Hr as (catalog & Hc & [= <-]). exists views, new. split; [by apply Hiff|].
    apply app_nil in Ed as [[-> _]%app_nil ->]. pose proof (Hb1 eq_refl) as ->.
    apply views_run in Hviews. split_and!; [done|by apply Hi2|done].
  - injection Hr as <-. intros Hcons. by apply Hiff in Hcons.
Qed.
Lemma build_marketplace_raises graph effective states e :
  build_marketplace graph effective states = Raise e →
  (∃ s, s ∈ states ∧ source_view s effective = Raise e)
  ∨ ∃ views items, consistent graph effective states
      ∧ Forall2 (λ s kv, kv.1 = state_alias s ∧ source_view s effective = Ret kv.2) states views
      ∧ Forall2 (item_of views (ec_policy effective)) (mg_artifacts graph) items
      ∧ marketplace_catalog (dvalues views) items (mg_collections graph) (mg_diagnostics graph) = Raise e.
Proof.
  unfold build_marketplace. cbv zeta.
  destruct (_ || _) eqn:Hs; [done|]. destruct ((MAX_ITEMS <? _) || _) eqn:Hb; [done|].
  pose proof (match_states_elem states (enabled_sources effective) [] []) as Helem.
  destruct (match_states _ _ _ _) as [by_alias unmatched] eqn:Em. cbn [fst] in Helem.
  apply match_states_run in Em as (d1 & -> & Hd1 & Hb1). cbn [app] in *.
  intros [([alias s] & Hin & Hv)%mapM_Raise|(views & Hviews & Hr)]%bind_Raise.
  { left. apply bind_Raise in Hv as [Hv|(? & _ & [=])].
    destruct (Helem _ Hin) as [[]%elem_of_nil|[_ Hs']]. by exists s. }
  right. assert (∀ alias v, dget alias views = Some v → vw_alias v = alias) as Hkeys.
  { intros alias v (i & Hi)%dget_elem_of%list_elem_of_lookup. apply mapM_Ret in Hviews.
    destruct (Forall2_lookup_r _ _ _ _ _ Hviews Hi) as ([alias' s] & Hs' & Hv). cbn in Hv.
    apply bind_Ret in Hv as (v' & Hv & [= -> ->]). rewrite (source_view_alias _ _ _ Hv).
    destruct (Helem (alias, s)) as [[]%elem_of_nil|[Ha _]]; [by eapply list_elem_of_lookup_2|done]. }
  destruct (catalog_items_total (mg_artifacts graph) views (ec_policy effective) []
              (d1 ++ missing_states (enabled_sources effective) by_alias) Hkeys) as [[items ds] Hitems].
  rewrite Hitems in Hr. cbn [mbind py_bind] in Hr.
  apply catalog_items_run in Hitems as (new & d2 & -> & -> & Hd2 & Hi2). cbn [app] in Hr.
  pose proof (diagnostics_consistent graph effective states by_alias d1 d2 views ltac:(lia) ltac:(lia)
                Hd1 Hb1 Hviews Hd2) as Hiff.
  destruct ((d1 ++ _) ++ d2) as [|x l] eqn:Ed; [|done].
  apply bind_Raise in Hr as [Hc|(? & _ & [=])]. exists views, new. split; [by apply Hiff|].
  apply app_nil in Ed as [[-> _]%app_nil ->]. pose proof (Hb1 eq_refl) as ->.
  apply views_run in Hviews. split_and!; [done|by apply Hi2|done].
Qed.

(** C11: building the runtime marketplace gives a catalog only when every enabled
    source has one matching state and every compiled artifact a current source
    of its own identity, within the bounds, and when artifacts and collections
    are distinct and the collections are of these sources and artifacts; it
    gives diagnostics only when the former fails, and otherwise raises a
    [ValueError]: for a state of which no view can be made, or for a graph that
    agrees with the sources but is not such a catalog.  The catalog has exactly
    those sources and artifacts, each bound to its source, and trusts an
    artifact as reviewed by the organization exactly for an approved entry of a
    registry whose identity and origin the policy names, as reviewed exactly for
    the other approved entries of registries, and as local or direct exactly by
    the kind of its source. *)
Theorem build_marketplace_exact graph effective states :
  match build_marketplace graph effective states with
  | Ret (Ok catalog) => consistent graph effective states ∧ assembles graph states
                        ∧ built graph effective states catalog
  | Ret (Err _) => ¬ consistent graph effective states
  | Raise e => (∃ m, e = ValueError m)
      ∧ ((∃ s, s ∈ states ∧ source_view s effective = Raise e)
         ∨ (consistent graph effective states ∧ ¬ assembles graph states))
  end.
Proof.
  destruct (build_marketplace graph effective states) as [r|e] eqn:E.
  - apply build_marketplace_returns in E. destruct r as [catalog|]; [|done].
    destruct E as (views & items & Hc & Hviews & Hitems & Hm). split; [done|].
    pose proof (marketplace_catalog_assembles graph effective states views items Hviews
                  (proj1 (cn_states _ _ _ Hc)) Hitems (mg_diagnostics graph)) as Ha.
    rewrite Hm in Ha. split; [done|]. eapply catalog_built; [done|apply Hc|done..].
  - apply build_marketplace_raises in E as [(s & Hs & Hv)|(views & items & Hc & Hviews & Hitems & Hm)].
    + split; [by eapply source_view_error|]. left. eauto.
    + pose proof (marketplace_catalog_assembles graph effective states views items Hviews
                    (proj1 (cn_states _ _ _ Hc)) Hitems (mg_diagnostics graph)) as Ha.
      rewrite Hm in Ha. destruct Ha as [Ha He]. split; [done|]. by right.
Qed.
End spec.

(** * A concrete marketplace *)

Definition market_digest : ObjectDigest :=
  MkDigest "sha256" "0123456789abcdef0123456789abcdef0123456789abcdef0123456789abcdef".
Definition market_source : ConfiguredSource :=
  MkConfigured (MkAlias "team") REGISTRY_GIT "https://github.com/acme/tools.git" (Some "main") true.
Definition market_policy : OrganizationPolicy :=
  MkPolicy 1 [] [] None None None None None None (MkReportingPolicy None None false)
    [MkCompany (MkSourceId "team") "github.com" "acme/tools"].
Definition market_configuration : EffectiveConfiguration :=
  MkEffective (MkConfiguration 1 [market_source] None (MkSync AUTO 900) (MkReporting R_PROMPT None)) market_policy [].
Definition market_artifact (name status : string) : MarketplaceArtifact :=
  MkArtifact (MkAlias "team") (MkSourceId "team")
    (MkIndexArtifact (MkSourceId "team") (MkIdentity Skill name) (MkSemVer 1 0 0 [] []) "A skill"
       market_digest market_digest market_digest (MkCompatibilitySpec ["claude"] ["linux"])
       (MkInstallSpec ["project"] ["copy"] ["copy-tree"]) None (Some (MkReview status "two-person")) None []
       no_bounds []) market_digest AVAILABLE.
Definition market_state : MarketplaceSourceState :=
  MkSourceState market_source
    (MkHealth HEALTHY (Some 10)
       (Some (MkCurrent (MkCandidate (MkInstance "registry-0123456789abcdef0123456789abcdef") (MkAlias "team")
                           "0123456789012345678901234567890123456789" market_digest (MkSnapshot IMMUTABLE_GIT []))
                (MkSourceId "team") 100 "/data/sources/team")) []) 0.
Definition market_graph : MarketplaceGraph :=
  MkGraph [market_artifact "reviewed" "approved"; market_artifact "draft" "pending"] [] [].
Definition built_market (states : list MarketplaceSourceState) : py (Result MarketplaceCatalog) :=
  @build_marketplace ascii_unicode no_ipv6 market_graph market_configuration states.
Definition trusts (r : py (Result MarketplaceCatalog)) : option (list (string * TrustClass)) :=
  match r with
  | Ret (Ok c) => Some (map (λ i, (id_name (co_artifact (mi_coordinate i)), td_kind (mi_trust i))) (ct_items c))
  | _ => None
  end.
Example market_trusts :
  trusts (built_market [market_state]) = Some [("draft", UNVERIFIED); ("reviewed", COMPANY_REVIEWED)].
Proof. vm_compute. reflexivity. Qed.
Example market_without_state : trusts (built_market []) = None.
Proof. vm_compute. reflexivity. Qed.

(** A collection of the graph with a member that is no artifact of it, which the
    compiler never makes, ends building with an exception. *)
Example dangling_member_raises :
  returns (@build_marketplace ascii_unicode no_ipv6
    (MkGraph [market_artifact "reviewed" "approved"]
       [MkCollection (MkCollectionCoordinate (MkAlias "team") "all") "All"
          [MkCoordinate (MkAlias "team") (MkIdentity Skill "gone") (Some "1.0.0")]] [])
    market_configuration [market_state]) = false.
Proof. vm_compute. reflexivity. Qed.
