(* ===== verification/Lifecycle.v ===== *)
(** Status, check, uninstall and update of what is installed
    ([lifecycle/application.py]), over the ports of [Ports.v]. *)
From S2P Require Import Prelude Effects PyText TextSearch Posix Domain SemVer Json IndentedJson Protocol CompilerModel Graph Marketplace Configuration ConfigSchema ConfigPolicy InstallState InstallSchema StoreModel NativeSchema NativeTree Installation InstallPlan LifecycleModel Ports Merge ManagedBlock Profiles Planning Install.
From Stdlib Require Import Ascii.
Open Scope Z_scope.

Definition LIFECYCLE_INVALID := MkCode "lifecycle-invalid".
Definition LIFECYCLE_REVIEW_MISMATCH := MkCode "lifecycle-review-mismatch".
(** [_error] of this file *)
Definition lifecycle_error {A} (code : DiagnosticCode) (message : string) : Result A :=
  fail1 (diagnostic code ERROR message None [] []).

(** [_STATUS_PRIORITY] *)
Definition status_priority (s : LifecycleStatus) : Z :=
  match s with
  | L_CURRENT => 0 | L_MISSING => 1 | L_BROKEN => 2 | L_DRIFTED => 3
  | L_RETARGETED => 4 | L_REPLACED => 5 | L_FAILED => 6 | _ => -1
  end.

Section lifecycle.
Context `{UnicodeData} `{DecodeErrors} `{IpAddress} `{SetupProtocol} `{WorkingDirectory}.

(** * Status *)

Definition link_lifecycle_status (s : LinkStatus) : LifecycleStatus :=
  match s with
  | LCURRENT | LMUTABLE_LOCAL => L_CURRENT
  | LBROKEN => L_BROKEN | LRETARGETED => L_RETARGETED | LREPLACED => L_REPLACED
  end.
Definition is_link_kind (kind : string) : bool := mem kind ["symlink-file"; "symlink-tree"].
(** What an effect that owns its whole destination leaves there. *)
Definition owned_kind (e : EffectProof) : SnapshotKind :=
  if String.eqb (ef_kind e) "copy-tree" then PTREE else PFILE.
Definition owns (e : EffectProof) (s : PathSnapshot) : bool :=
  bool_decide (ps_kind s = owned_kind e) && bool_decide (ps_digest s = Some (ef_installed_digest e)).

Definition effect_status (r : InstallationRecord) (e : EffectProof) (s : PathSnapshot) :
    py LifecycleStatus :=
  let absent := bool_decide (ps_kind s = PABSENT) in
  if is_link_kind (ef_kind e) then
    if absent then Ret L_MISSING else link_lifecycle_status <$> classify_link e s
  else if String.eqb (ef_kind e) "merge-json" then merge_effect_status e s
  else if String.eqb (ef_kind e) "managed-block" then Ret (managed_block_status r s)
  else if absent then Ret L_MISSING
  else Ret (if owns e s then L_CURRENT else L_DRIFTED).

Definition aggregate_status (effects : list LifecycleEffect) : py LifecycleStatus :=
  match max_by (λ e, status_priority (le_status e)) effects with
  | Some e => Ret (le_status e)
  | None => Raise (ValueError "max() arg is an empty sequence")
  end.

(** One recorded effect. *)
Definition observed_effect (r : InstallationRecord) (e : EffectProof) (absolute : string)
    (ports : LifecycleReadPorts) : effect LifecycleEffect :=
  observed ← inspect_path (lp_read ports) absolute;
  match observed with
  | Err ds => pure (lifecycle_effect (MkLifecycleEffect (ef_kind e) (ef_destination e) L_FAILED
                                        (join "; " (map d_message ds))))
  | Ok s =>
      status ← pure (effect_status r e s);
      pure (lifecycle_effect (MkLifecycleEffect (ef_kind e) (ef_destination e) status ""))
  end.
Fixpoint effects_status (r : InstallationRecord) (es : list EffectProof) (location : InstallLocation)
    (ports : LifecycleReadPorts) (effects : list LifecycleEffect) :
    effect (Result (list LifecycleEffect)) :=
  match es with
  | [] => mret (Ok effects)
  | e :: es =>
      absolute ←? pure (or_value_error (absolute_effect_path e (in_scope r) location)
                          (λ message, lifecycle_error LIFECYCLE_INVALID message));
      observed ← observed_effect r e absolute ports;
      effects_status r es location ports (effects ++ [observed])
  end.
Fixpoint records_status (rs : list InstallationRecord) (location : InstallLocation)
    (ports : LifecycleReadPorts) (items : list LifecycleItem) : effect (Result (list LifecycleItem)) :=
  match rs with
  | [] => mret (Ok items)
  | r :: rs =>
      effects ←? effects_status r (in_effects r) location ports [];
      key ← pure (key_from_record r);
      status ← pure (aggregate_status effects);
      item ← pure (lifecycle_item (MkLifecycleItem key status effects ""));
      records_status rs location ports (items ++ [item])
  end.
Definition status_installations (state : InstallState) (selection : LifecycleSelection)
    (location : InstallLocation) (ports : LifecycleReadPorts) : effect (Result LifecycleOutcome) :=
  items ←? records_status (select_installations state selection) location ports [];
  outcome ← pure (lifecycle_outcome (MkLifecycleOutcome "status" (count items) items));
  mret (Ok outcome).

(** * Check against the marketplace *)

Definition find_view (catalog : MarketplaceCatalog) (alias : SourceAlias) : option MarketplaceSourceView :=
  List.find (λ v, bool_decide (vw_alias v = alias)) (ct_sources catalog).

(** The origin a configured source stands for. *)
Definition configured_origin (configured : ConfiguredSource) : option string :=
  if bool_decide (cs_kind configured = SOURCE_LOCAL) then Some (cs_location configured)
  else match git_location_parts (cs_location configured) with
       | Some (host, path) => Some (host +:+ "/" +:+ path) | None => None
       end.
Definition recorded_subscription_current (r : InstallationRecord) (catalog : MarketplaceCatalog)
    (effective : EffectiveConfiguration) : bool :=
  let recorded := in_source r in
  match find_configured_source effective (se_alias recorded), find_view catalog (se_alias recorded) with
  | Some configured, Some source =>
      bool_decide (cs_kind configured = se_kind recorded)
      && bool_decide (configured_origin configured = Some (se_origin recorded))
      && bool_decide (vw_kind source = se_kind recorded)
      && String.eqb (vw_origin source) (se_origin recorded)
      && bool_decide (cs_ref configured = se_subscription_ref recorded)
      && negb (bool_decide (vw_resolved_revision source = None))
      && negb (bool_decide (vw_snapshot_digest source = None))
      && mem (health_value (vw_health source)) ["healthy"; "stale"; "degraded"]
  | _, _ => false
  end.
Definition recorded_identity_changed (r : InstallationRecord) (catalog : MarketplaceCatalog) : bool :=
  match find_view catalog (se_alias (in_source r)) with
  | Some source => negb (bool_decide (vw_source_id source = Some (se_declared_id (in_source r))))
  | None => false
  end.
Definition current_item (r : InstallationRecord) (catalog : MarketplaceCatalog) : option MarketplaceItem :=
  List.find (λ i, bool_decide (co_source (mi_coordinate i) = co_source (in_coordinate r))
                  && bool_decide (co_artifact (mi_coordinate i) = co_artifact (in_coordinate r)))
    (ct_items catalog).

(** The artifact of the marketplace is the recorded one. *)
Definition artifact_is_recorded (indexed : IndexArtifact) (recorded : ArtifactEvidence) : bool :=
  same_precedence (ia_version indexed) (ae_version recorded)
  && bool_decide (ia_manifest_digest indexed = ae_manifest_digest recorded)
  && bool_decide (ia_payload_digest indexed = ae_payload_digest recorded)
  && bool_decide (ia_object_digest indexed = ae_object_digest recorded).

Definition check_record (r : InstallationRecord) (catalog : MarketplaceCatalog)
    (effective : EffectiveConfiguration) : py LifecycleItem :=
  key ← key_from_record r;
  let item status detail := lifecycle_item (MkLifecycleItem key status [] detail) in
  if negb (recorded_subscription_current r catalog effective)
  then item L_SOURCE_UNAVAILABLE "recorded source unavailable"
  else if recorded_identity_changed r catalog then
    let declared := source ← find_view catalog (se_alias (in_source r)); vw_source_id source in
    item L_IDENTITY_CHANGED
      ("installed under " +:+ source_id_value (se_declared_id (in_source r)) +:+ "; "
       +:+ alias_value (se_alias (in_source r)) +:+ " now declares "
       +:+ match declared with Some i => source_id_value i | None => "None" end)
  else match current_item r catalog with
       | None => item L_REMOVED_UPSTREAM "removed from recorded source"
       | Some current =>
           item (if artifact_is_recorded (ma_artifact (mi_artifact current)) (in_artifact r)
                 then L_CURRENT else L_UPDATE_AVAILABLE) ""
       end.
Definition check_installations (state : InstallState) (selection : LifecycleSelection)
    (catalog : MarketplaceCatalog) (effective : EffectiveConfiguration) : py LifecycleOutcome :=
  items ← mapM (λ r, check_record r catalog effective) (select_installations state selection);
  lifecycle_outcome (MkLifecycleOutcome "check" (count items) items).

(** Local damage stays the primary status; the origin is told in the detail. *)
Definition reconciled (local remote : LifecycleItem) : py LifecycleItem :=
  if bool_decide (li_status local = L_CURRENT)
  then lifecycle_item (MkLifecycleItem (li_key local) (li_status remote) (li_effects local) (li_detail remote))
  else
    let detail := li_detail local in
    let suffix := if str_empty (li_detail remote) then lifecycle_status_value (li_status remote)
                  else li_detail remote in
    lifecycle_item (MkLifecycleItem (li_key local) (li_status local) (li_effects local)
      (if bool_decide (li_status remote = L_CURRENT) then detail
       else if str_empty detail then "upstream " +:+ suffix
       else detail +:+ "; upstream " +:+ suffix)).
Definition reconcile_installations (state : InstallState) (selection : LifecycleSelection)
    (catalog : MarketplaceCatalog) (effective : EffectiveConfiguration) (location : InstallLocation)
    (ports : LifecycleReadPorts) : effect (Result LifecycleOutcome) :=
  local ←? status_installations state selection location ports;
  upstream ← pure (check_installations state selection catalog effective);
  let remote_by_key := dict_of (map (λ i, (li_key i, i)) (lo_items upstream)) in
  items ← pure (mapM (λ i, match dget (li_key i) remote_by_key with
                           | Some remote => reconciled i remote
                           | None => Raise (KeyError (coordinate_str (lk_coordinate (li_key i))))
                           end) (lo_items local));
  outcome ← pure (lifecycle_outcome (MkLifecycleOutcome "status" (count items) items));
  mret (Ok outcome).

(** * Uninstalling *)

(** How an effect is removed, or why it cannot be. *)
Section removal.
Context (r : InstallationRecord) (e : EffectProof) (absolute : string) (s : PathSnapshot) (force : bool).

Definition removal (mutation : string) (content : bytes) : py (UninstallOperation + string) :=
  o ← uninstall_operation (MkUninstall e absolute s mutation content); Ret (inl o).
Definition refused (reason : string) : py (UninstallOperation + string) :=
  Ret (inr (reason +:+ ": " +:+ ef_destination e)).

Definition plan_link_removal : py (UninstallOperation + string) :=
  status ← effect_status r e s;
  if bool_decide (status = L_MISSING) then removal "none" ""
  else if mem status [L_CURRENT; L_BROKEN] || force then removal "remove" ""
  else refused ("managed link is " +:+ lifecycle_status_value status).

(** No entry matches: nothing to remove, unless the document drifted. *)
Definition merge_drifted (root : JsonValue) : bool :=
  let list_mode := bool_decide (ef_merge_mode e = Some "list") in
  match navigate_member root (effect_path e) with
  | None => false
  | Some (JsonArray items) => if list_mode then negb (bool_decide (items = [])) else true
  | Some (JsonObject _) => list_mode
  | Some _ => true
  end.
Definition plan_merge_removal : py (UninstallOperation + string) :=
  match ps_kind s with
  | PABSENT => removal "none" ""
  | PFILE =>
      if bool_decide (ef_identity_evidence e = JNull) then refused "managed merge cannot be proven"
      else
        parsed ← parse_json (ps_content s) None MAX_DEPTH MAX_STRING;
        match parsed with
        | Err _ => refused "managed merge JSON is invalid"
        | Ok root =>
            match merge_matches e root with
            | [] => if merge_drifted root && negb force then refused "managed merge identity drifted"
                    else removal "none" ""
            | [m] =>
                if negb (bool_decide (json_digest (mm_value m) = ef_installed_digest e)) && negb force
                then refused "managed merge drifted"
                else match remove_merge_identity e root with
                     | (Some updated, "removed") =>
                         if ef_created_destination e && is_bare_container_chain updated (effect_path e)
                         then removal "remove" ""
                         else removal "write" (canonical_json_bytes updated)
                     | _ => refused "managed merge cannot be reversed"
                     end
            | _ => refused "managed merge identity is ambiguous"
            end
        end
  | _ => refused "managed merge cannot be proven"
  end.

Definition plan_block_removal : py (UninstallOperation + string) :=
  match ps_kind s with
  | PABSENT => removal "none" ""
  | PFILE =>
      match strip_managed_block r (ps_content s) with
      | None => refused "managed block markers drifted"
      | Some stripped =>
          if String.eqb stripped (ps_content s) then removal "none" ""
          else if str_empty stripped then removal "remove" ""
          else removal "write" stripped
      end
  | _ => refused "managed block destination changed type"
  end.

(** A file or tree of its own; a displaced file is put back. *)
Definition plan_copy_removal (restore : option PathSnapshot) : py (UninstallOperation + string) :=
  if bool_decide (ps_kind s = PABSENT) then removal "none" ""
  else if negb (owns e s) && negb force then refused "managed Copy destination drifted"
  else match ef_restores_from e with
       | None => removal "remove" ""
       | Some backup =>
           match restore with
           | Some found =>
               if bool_decide (ps_kind found = PFILE) then removal "write" (ps_content found)
               else Ret (inr ("replaced memory backup is missing: " +:+ backup))
           | None => Ret (inr ("replaced memory backup is missing: " +:+ backup))
           end
       end.

Definition plan_removal (restore : option PathSnapshot) : py (UninstallOperation + string) :=
  if bool_decide (ps_kind s = PSPECIAL) then refused "unsafe special destination"
  else if is_link_kind (ef_kind e) then plan_link_removal
  else if String.eqb (ef_kind e) "merge-json" then plan_merge_removal
  else if String.eqb (ef_kind e) "managed-block" then plan_block_removal
  else plan_copy_removal restore.
End removal.

(** The snapshot of the sidecar an effect is restored from. *)
Definition observe_sidecar (r : InstallationRecord) (e : EffectProof) (location : InstallLocation)
    (ports : InstallReadPorts) : effect (Result (option PathSnapshot)) :=
  match ef_restores_from e with
  | None => mret (Ok None)
  | Some backup =>
      moved ← pure (effect_proof
        (MkEffect (ef_kind e) backup (ef_actual_mode e) (ef_installed_digest e) (ef_source_path e)
           (ef_json_path e) (ef_merge_mode e) (ef_identity_digest e) (ef_identity_evidence e)
           (ef_link_target e) (ef_link_semantics e) (ef_created_destination e) (ef_overwrote e) None));
      path ← pure (absolute_effect_path moved (in_scope r) location);
      found ←? inspect_path ports path;
      mret (Ok (Some found))
  end.
(** The operations and the conflicts of the recorded effects. *)
Fixpoint plan_removals (r : InstallationRecord) (es : list EffectProof) (location : InstallLocation)
    (force : bool) (ports : InstallReadPorts) (operations : list UninstallOperation)
    (conflicts : list string) : effect (Result (list UninstallOperation * list string)) :=
  match es with
  | [] => mret (Ok (operations, conflicts))
  | e :: es =>
      absolute ←? pure (or_value_error (absolute_effect_path e (in_scope r) location)
                          (λ message, lifecycle_error LIFECYCLE_INVALID message));
      observed ←? inspect_path ports absolute;
      restore ←? observe_sidecar r e location ports;
      planned ← pure (plan_removal r e absolute observed force restore);
      match planned with
      | inl o => plan_removals r es location force ports (operations ++ [o]) conflicts
      | inr conflict => plan_removals r es location force ports operations (conflicts ++ [conflict])
      end
  end.

(** The state read is the one given, and so is what its file holds. *)
Definition state_confirmed (loaded : option InstallState) (state : InstallState) (s : PathSnapshot)
    (path : string) : py (Result unit) :=
  let same := match loaded with Some found => state_py_eq found state | None => false end in
  if negb same || negb (bool_decide (ps_kind s = PFILE))
  then Ret (lifecycle_error LIFECYCLE_INVALID "installation state changed before uninstall review")
  else
    parsed ← parse_install_state (ps_content s) path;
    Ret match parsed with
        | Ok found => if state_py_eq found state then Ok tt
                      else lifecycle_error LIFECYCLE_INVALID
                             "installation state snapshot does not match parsed state"
        | Err _ => lifecycle_error LIFECYCLE_INVALID
                     "installation state snapshot does not match parsed state"
        end.

Definition prepare_uninstall (r : InstallationRecord) (state : InstallState) (location : InstallLocation)
    (store_paths : ObjectStorePaths) (ports : LifecycleReadPorts) (force : bool) :
    effect (Result UninstallPlan) :=
  if negb (existsb (record_py_eq r) (st_installations state))
  then result (lifecycle_error LIFECYCLE_INVALID "uninstall record is not present in installation state")
  else
    paths ← pure (install_state_paths (in_scope r) (il_project_root location) (il_user_home location)
                    (il_data_root location));
    let path := sp_destination_path paths in
    loaded ←? read_state (lp_read ports) path;
    state_snapshot ←? inspect_path (lp_read ports) path;
    _ ←? pure (state_confirmed loaded state state_snapshot path);
    references ←? read_references ports store_paths;
    let owner := LifecycleModel.reference_owner r in
    retained ← pure (without_references owner references);
    planned ←? plan_removals r (in_effects r) location force (lp_read ports) [] [];
    let '(operations, conflicts) := planned in
    next ← pure (without_record r state);
    let clear := bool_decide (conflicts = []) in
    teardown ← pure (if clear
                     then Some <$> scope_teardown r operations path (sp_lock_path paths) location
                                     (bool_decide (st_installations next = []))
                     else Ret None);
    pure (or_value_error
      (uninstall_plan
         (MkUninstallPlan r force (if clear then operations else []) path (sp_lock_path paths)
            state_snapshot next (sha256_bytes (install_state_bytes next)) store_paths owner references
            retained (if clear then None else Some L_CONFLICT) (join "; " conflicts)
            unreviewed_uninstall teardown))
      (λ message, lifecycle_error LIFECYCLE_INVALID ("uninstall plan is invalid: " +:+ message))).

Definition finalize_uninstall (plan : UninstallPlan) (reviewed_digest : ObjectDigest)
    (ports : LifecycleApplyPorts) : effect (Result LifecycleItem) :=
  if negb (bool_decide (reviewed_digest = up_review_digest plan))
  then result (lifecycle_error LIFECYCLE_REVIEW_MISMATCH "uninstall digest does not match reviewed plan")
  else match up_terminal plan with
       | Some status =>
           key ← pure (key_from_record (up_record plan));
           item ← pure (lifecycle_item (MkLifecycleItem key status [] (up_detail plan)));
           mret (Ok item)
       | None => apply_uninstall_plan ports plan
       end.

(** * Updating *)

(** The root of a mutable payload that the links of a local source share. *)
Definition link_root (e : EffectProof) : option string :=
  match ef_link_target e with
  | Some target =>
      if negb (bool_decide (ef_link_semantics e = Some "mutable-local")) then None
      else
        let source_path := match ef_source_path e with
                           | None | Some EmptyString => "payload" | Some p => p end in
        if String.eqb source_path "payload" then Some target
        else if String.prefix "payload/" source_path
        then Some (foldl (λ path _, dirname path) target
                     (split_on "/" (removeprefix "payload/" source_path)))
        else None
  | None => None
  end.
Definition mutable_payload_root (r : InstallationRecord) : option string :=
  if negb (bool_decide (se_kind (in_source r) = SOURCE_LOCAL)) then None
  else match remove_dups (omap link_root (in_effects r)) with [root] => Some root | _ => None end.

Definition terminal_update (r : InstallationRecord) (status : LifecycleStatus) (detail : string)
    (prune : bool) : py UpdatePlan :=
  key ← key_from_record r;
  item ← lifecycle_item (MkLifecycleItem key status [] detail);
  update_plan (MkUpdatePlan r prune None None (Some item) unreviewed_update).

(** The recorded destinations the new record no longer has. *)
Definition retired_destinations (r replacement : InstallationRecord) : list string :=
  sorted id (map ef_destination
    (List.filter (λ e, negb (mem (effect_locator e) (map effect_locator (in_effects replacement))))
       (in_effects r))).
Definition retired_effect_update (r : InstallationRecord) (install : InstallPlan) : py (option UpdatePlan) :=
  match List.find (λ i, bool_decide (installation_key i = installation_key r))
          (st_installations (ip_replacement_state install)) with
  | None => Some <$> terminal_update r L_FAILED "replacement installation record is unavailable" false
  | Some replacement =>
      match retired_destinations r replacement with
      | [] => Ret None
      | retired =>
          let scope := if String.eqb (in_scope r) "user" then " --scope user" else "" in
          let coordinate := coordinate_str (in_coordinate r) in
          let options := " --profile " +:+ in_profile r +:+ scope +:+ " --yes`" in
          Some <$> terminal_update r L_CONFLICT
            ("update would orphan recorded effects at " +:+ join ", " retired
             +:+ "; migrate transactionally with `aart marketplace uninstall " +:+ coordinate +:+ options
             +:+ ", then `aart marketplace install " +:+ coordinate +:+ options) false
      end
  end.

Definition state_for_record (r : InstallationRecord) (location : InstallLocation)
    (ports : LifecycleReadPorts) : effect (Result InstallState) :=
  paths ← pure (install_state_paths (in_scope r) (il_project_root location) (il_user_home location)
                  (il_data_root location));
  loaded ←? read_state (lp_read ports) (sp_destination_path paths);
  match loaded with
  | Some state => if existsb (record_py_eq r) (st_installations state) then mret (Ok state)
                  else result (lifecycle_error LIFECYCLE_INVALID "recorded installation state is unavailable")
  | None => result (lifecycle_error LIFECYCLE_INVALID "recorded installation state is unavailable")
  end.

(** The request an update installs again. *)
Definition update_request (r : InstallationRecord) (force offline : bool) (platform : string) :
    InstallRequest :=
  MkInstallRequest (ae_identity (in_artifact r)) (Some (se_alias (in_source r))) None (in_profile r)
    (in_profile_version r) platform (in_scope r) (in_requested_mode r) force offline
    (match in_memory_mode r with None | Some EmptyString => "prepend" | Some m => m end)
    (mutable_payload_root r).

Definition prepare_update (r : InstallationRecord) (catalog : MarketplaceCatalog)
    (effective : EffectiveConfiguration) (profile : Profile) (location : InstallLocation)
    (store_paths : ObjectStorePaths) (ports : LifecycleReadPorts) (force prune offline : bool)
    (platform : string) : effect (Result UpdatePlan) :=
  let done_ (plan : py UpdatePlan) : effect (Result UpdatePlan) := p ← pure plan; mret (Ok p) in
  if negb (String.eqb (pf_name profile) (in_profile r))
  then result (lifecycle_error LIFECYCLE_INVALID "lifecycle profile does not match the recorded profile")
  else if negb (recorded_subscription_current r catalog effective)
  then done_ (terminal_update r L_SOURCE_UNAVAILABLE
                "recorded source is missing, disabled, unhealthy, or changed origin/ref" false)
  else match current_item r catalog with
  | None =>
      if negb prune
      then done_ (terminal_update r L_REMOVED_UPSTREAM
                    "artifact was removed from the recorded source; rerun with prune to uninstall" false)
      else
        state ←? state_for_record r location ports;
        uninstall ←? prepare_uninstall r state location store_paths ports force;
        done_ (update_plan (MkUpdatePlan r true None (Some uninstall) None unreviewed_update))
  | Some _ =>
      request ← pure (install_request (update_request r force offline platform));
      install ← prepare_install request catalog effective profile location store_paths (lp_read ports);
      match install with
      | Err ds =>
          done_ (terminal_update r
                   (if existsb (λ d, String.eqb (code_value (d_code d)) "install-conflict") ds
                    then L_CONFLICT else L_FAILED)
                   (join "; " (map d_message ds)) false)
      | Ok install =>
          retired ← pure (retired_effect_update r install);
          match retired with
          | Some plan => mret (Ok plan)
          | None => done_ (update_plan (MkUpdatePlan r false (Some install) None None unreviewed_update))
          end
      end
  end.

Definition updated_status (s : InstallStatus) : LifecycleStatus :=
  match s with
  | APPLIED => L_CHANGED | ICURRENT => L_CURRENT | CONFLICTED => L_CONFLICT | IFAILED => L_FAILED
  end.
Definition effect_outcome_status (s : string) : py LifecycleStatus :=
  match dget s [("changed", L_CHANGED); ("current", L_CURRENT); ("skipped", L_SKIPPED);
                ("failed", L_FAILED); ("rolled-back", L_FAILED)] with
  | Some status => Ret status | None => Raise (KeyError s)
  end.
(** The item an applied update is reported as. *)
Definition updated_item (r : InstallationRecord) (applied : InstallOutcome) : py LifecycleItem :=
  effects ← mapM (λ e, status ← effect_outcome_status (eo_status e);
                       lifecycle_effect (MkLifecycleEffect (eo_kind e) (eo_destination e) status
                                           (default "" (eo_detail e)))) (it_effects applied);
  key ← key_from_record r;
  lifecycle_item (MkLifecycleItem key (updated_status (it_status applied)) effects "").

Definition finalize_update (plan : UpdatePlan) (reviewed_digest : ObjectDigest)
    (catalog : MarketplaceCatalog) (effective : EffectiveConfiguration) (ports : LifecycleApplyPorts) :
    effect (Result LifecycleItem) :=
  let r := dp_record plan in
  if negb (bool_decide (reviewed_digest = dp_review_digest plan))
  then result (lifecycle_error LIFECYCLE_REVIEW_MISMATCH "update digest does not match reviewed plan")
  else match dp_terminal plan, dp_uninstall_plan plan with
  | Some item, _ => mret (Ok item)
  | None, Some uninstall =>
      if negb (recorded_subscription_current r catalog effective)
         || recorded_identity_changed r catalog
         || match current_item r catalog with Some _ => true | None => false end
      then
        key ← pure (key_from_record r);
        item ← pure (lifecycle_item (MkLifecycleItem key L_CONFLICT []
                       "recorded source or upstream-removal evidence changed after Review"));
        mret (Ok item)
      else finalize_uninstall uninstall (up_review_digest uninstall) ports
  | None, None =>
      install ← pure (assert_some (dp_install_plan plan));
      applied ←? finalize_install install (ip_review_digest install) catalog effective (install_ports ports);
      item ← pure (updated_item r applied);
      mret (Ok item)
  end.
End lifecycle.
