(* ===== verification/InstallFlow.v ===== *)
(** What preparing and finalizing an installation promise: a plan is prepared
    by reading only, is bound to what was read, and is applied only when
    everything the reviewer saw is still there. *)
From S2P Require Import Prelude Effects PyText TextSearch Posix Domain SemVer Json JsonParse IndentedJson Protocol CompilerModel Graph Marketplace StoreModel Configuration InstallState InstallSchema InstallSpec ConfigSchema ConfigPolicy Installation InstallPlan LifecycleModel Ports Merge Profiles NativeSchema NativeTree NativeTreeSpec ManagedBlock Planning Install.
From Stdlib Require Import Ascii.
Open Scope Z_scope.

(** * Runs *)

Lemma or_return_run {S A B} (m : st S (Result A)) (f : A → st S (Result B)) s a s' :
  m s = (Ret (Ok a), s') → or_return m f s = f a s'.
Proof. intros E. unfold or_return. by rewrite (bind_run_Ret _ _ _ _ _ E). Qed.
Lemma or_return_inv {S A B} (m : st S (Result A)) (f : A → st S (Result B)) s b s' :
  or_return m f s = (Ret (Ok b), s') →
  ∃ a s1, m s = (Ret (Ok a), s1) ∧ f a s1 = (Ret (Ok b), s').
Proof.
  intros (r & s1 & Hm & Hf)%bind_run_inv. destruct r as [a|ds]; [eauto|by inversion Hf].
Qed.
Lemma call_inv {E R} (answer : list E → R) (event : R → E) t r t' :
  call answer event t = (Ret r, t') → r = answer t ∧ t' = t ++ [event r].
Proof. unfold call. by intros [= <- <-]. Qed.

Lemma reads_run {A} (m : effect A) t r t' :
  reads m → m t = (r, t') → ∃ more, t' = t ++ more ∧ forallb is_read more = true.
Proof. intros Hm E. destruct (Hm t) as (more & Ht & Hr). rewrite E in Ht. eauto. Qed.

Section flow.
Context `{UnicodeData} `{DecodeErrors} `{IpAddress} `{SetupProtocol} `{WorkingDirectory}.

(** * Finalizing *)

(** What a run saw confirms what the reviewer saw. *)
Record confirmed (plan : InstallPlan) (seen : calls) : Prop := {
  cf_object : ∃ request stored, EReadObject request (Ok (Some stored)) ∈ seen
              ∧ rd_digest request = ip_object_digest plan
              ∧ so_candidate stored = ip_object_candidate plan ∧ so_root stored = ip_object_root plan;
  cf_destinations : ∀ o, o ∈ ip_operations plan →
    EInspectPath (op_absolute_destination o) (Ok (op_precondition o)) ∈ seen;
  cf_links : ∀ l, Link l ∈ ip_operations plan →
    ∃ boundary, EInspectLink (lk_target l) boundary (Ok (lk_target_precondition l)) ∈ seen;
  cf_state : EInspectPath (ip_state_path plan) (Ok (ip_state_precondition plan)) ∈ seen
}.

Lemma link_is_current_reads plan o ports : reads (link_is_current plan o ports).
Proof. destruct o; cbn; eauto with reads. Qed.
Lemma changed_operation_reads plan operations ports : reads (changed_operation plan operations ports).
Proof.
  induction operations as [|o operations IH]; cbn [changed_operation]; [eauto with reads|].
  apply reads_or_return; [apply link_is_current_reads|]. intros []; cbn [negb]; [|eauto with reads].
  apply reads_or_return; [eauto with reads|]. intros s. case_bool_decide; eauto with reads.
Qed.

Lemma changed_operation_none plan operations ports t t' :
  changed_operation plan operations ports t = (Ret (Ok None), t') →
  ∃ seen, t' = t ++ seen
    ∧ (∀ o, o ∈ operations → EInspectPath (op_absolute_destination o) (Ok (op_precondition o)) ∈ seen)
    ∧ (∀ l, Link l ∈ operations →
         ∃ boundary, EInspectLink (lk_target l) boundary (Ok (lk_target_precondition l)) ∈ seen).
Proof.
  revert t. induction operations as [|o operations IH]; intros t; cbn [changed_operation].
  { intros [= <-]. exists []. rewrite app_nil_r. set_solver. }
  intros (linked & t1 & Hl & Hrun)%or_return_inv. destruct linked; [cbn [negb] in Hrun|by inversion Hrun].
  apply or_return_inv in Hrun as (current & t2 & Hc & Hrun).
  apply call_inv in Hc as [_ ->].
  case_bool_decide as Hp; [subst current|by inversion Hrun].
  destruct (IH _ Hrun) as (seen & -> & Hd & Hk).
  assert (∃ first, t1 = t ++ first
          ∧ ∀ l, o = Link l →
              ∃ boundary, EInspectLink (lk_target l) boundary (Ok (lk_target_precondition l)) ∈ first)
    as (first & -> & Hf).
  { destruct o as [| |l|]; cbn [link_is_current] in Hl.
    1,2,4: injection Hl as <-; exists []; by rewrite app_nil_r.
    apply or_return_inv in Hl as (target & t3 & Hl & Hr). apply call_inv in Hl as [_ ->].
    case_bool_decide as Ht; [subst target|by inversion Hr]. injection Hr as <-.
    eexists. split; [done|]. intros l' [= ->]. eexists. by left. }
  exists (first ++ [EInspectPath (op_absolute_destination o) (Ok (op_precondition o))] ++ seen).
  rewrite <-!app_assoc. split; [done|]. split.
  - intros o' [->|Ho]%elem_of_cons; set_solver.
  - intros l [Hl'|Ho]%elem_of_cons.
    + destruct (Hf l) as [boundary Hb]; [done|]. exists boundary. set_solver.
    + destruct (Hk l Ho) as [boundary Hb]. exists boundary. set_solver.
Qed.

(** A run that only reads, or ends in applying [plan] when [Q] holds of the
    calls [seen] and its own. *)
Definition guarded (plan : InstallPlan) (Q : calls → Prop) (seen : calls)
    (m : effect (Result InstallOutcome)) : Prop :=
  ∀ t, let '(r, t') := m t in
  ∃ more, forallb is_read more = true
    ∧ (t' = t ++ more
       ∨ ∃ answer, t' = t ++ more ++ [EApplyPlan plan answer] ∧ r = Ret answer ∧ Q (seen ++ more)).

Lemma guarded_reads plan Q seen m : reads m → guarded plan Q seen m.
Proof.
  intros Hm t. destruct (m t) as [r t'] eqn:E.
  destruct (reads_run _ _ _ _ Hm E) as (more & -> & Hr). exists more. auto.
Qed.
Lemma guarded_apply plan (Q : calls → Prop) seen ports :
  Q seen → guarded plan Q seen (apply_install_plan ports plan).
Proof.
  intros HQ t. cbn. exists []. split; [done|]. right. eexists. rewrite app_nil_r. done.
Qed.
Lemma guarded_pure {A} plan Q seen (m : py A) f :
  (∀ a, m = Ret a → guarded plan Q seen (f a)) → guarded plan Q seen (pure m ≫= f).
Proof.
  intros Hf t. unfold mbind, st_bind, pure. destruct m as [a|e]; [by apply Hf|].
  exists []. split; [done|left; by rewrite app_nil_r].
Qed.
Lemma guarded_or_return {A} plan Q seen (m : effect (Result A)) f :
  reads m →
  (∀ a t more, m t = (Ret (Ok a), t ++ more) → guarded plan Q (seen ++ more) (f a)) →
  guarded plan Q seen (or_return m f).
Proof.
  intros Hm Hf t. unfold or_return, mbind, st_bind. destruct (m t) as [r t'] eqn:E.
  destruct (reads_run _ _ _ _ Hm E) as (more & -> & Hr).
  destruct r as [[a|ds]|e]; [|by exists more; auto..].
  specialize (Hf a t more E (t ++ more)). destruct (f a (t ++ more)) as [r t'].
  destruct Hf as (more' & Hr' & Hend). exists (more ++ more').
  split; [by rewrite forallb_app, Hr, Hr'|]. destruct Hend as [->|(answer & -> & -> & HQ)].
  - left. by rewrite app_assoc.
  - right. exists answer. rewrite <-!app_assoc in *. done.
Qed.

(** What is known when a plan is applied. *)
Definition reviewed (plan : InstallPlan) (reviewed_digest : ObjectDigest) (catalog : MarketplaceCatalog)
    (effective : EffectiveConfiguration) (seen : calls) : Prop :=
  reviewed_digest = ip_review_digest plan
  ∧ marketplace_precondition_is_current plan catalog effective = Ret true
  ∧ confirmed plan seen.

Lemma finalize_install_run plan reviewed_digest catalog effective ports :
  guarded plan (reviewed plan reviewed_digest catalog effective) []
    (finalize_install plan reviewed_digest catalog effective ports).
Proof.
  unfold finalize_install.
  case_bool_decide as Hd; cbn [negb]; [|apply guarded_reads; eauto with reads].
  apply guarded_pure. intros [] Hm; cbn [negb]; [|apply guarded_reads; eauto with reads].
  apply guarded_pure. intros wanted Hw.
  apply guarded_or_return; [eauto with reads|]. intros loaded t1 more1 E1.
  apply call_inv in E1 as [_ ->%app_inv_head].
  destruct loaded as [stored|]; [|apply guarded_reads, reads_ret].
  destruct (bool_decide _ && String.eqb _ _) eqn:Eu; [|apply guarded_reads; apply reads_ret].
  apply andb_true_iff in Eu as [Hc%bool_decide_eq_true Hr%String.eqb_eq].
  apply guarded_or_return; [apply changed_operation_reads|]. intros changed t2 more2 E2.
  destruct changed as [detail|]; [apply guarded_reads; eauto with reads|].
  apply changed_operation_none in E2 as (seen & ->%app_inv_head & Hds & Hls).
  apply guarded_or_return; [eauto with reads|]. intros state t3 more3 E3.
  apply call_inv in E3 as [_ ->%app_inv_head].
  case_bool_decide as Hs; [|apply guarded_reads; eauto with reads]. subst state.
  apply guarded_apply. split_and!; [done..|]. cbn [app]. split.
  - exists wanted, stored. unfold object_read_request in Hw.
    destruct (raise_if _ _); [|done]. injection Hw as <-. set_solver.
  - intros o Ho. specialize (Hds o Ho). set_solver.
  - intros l Hl. destruct (Hls l Hl) as [boundary Hb]. exists boundary. set_solver.
  - set_solver.
Qed.

(** C2: finalizing never changes anything unless the reviewed digest is the
    plan's own and, in this very run, the marketplace still has what was
    planned and the object, the link targets, every destination and the state
    were read back as reviewed; then it applies that plan, once, as its last
    call, and answers what applying answered. *)
Theorem finalize_install_guarded plan reviewed_digest catalog effective ports t :
  let '(r, t') := finalize_install plan reviewed_digest catalog effective ports t in
  ∃ seen, forallb is_read seen = true
  ∧ (t' = t ++ seen
     ∨ ∃ answer, t' = t ++ seen ++ [EApplyPlan plan answer] ∧ r = Ret answer
         ∧ reviewed plan reviewed_digest catalog effective seen).
Proof. exact (finalize_install_run plan reviewed_digest catalog effective ports t). Qed.
End flow.

(** A small world in which a memory is installed, for the witnesses: its package,
    object, marketplace, configuration and the files it meets. *)


#[export] Instance world_unicode : UnicodeData := ascii_unicode.
#[export] Instance world_errors : DecodeErrors := plain_decode_errors.
#[export] Instance world_address : IpAddress := no_ipv6.
#[export] Instance world_setup : SetupProtocol := no_setup.
#[export] Instance world_directory : WorkingDirectory := {| cwd := "/work" |}.

Definition or_fail {A} (a : A) (r : py (Result A)) : A :=
  match r with Ret (Ok x) => x | _ => a end.

Definition world_entries : list SnapshotEntry :=
  [sample_file "artifact.json" (sample_memory "notes" []); sample_file "payload/NOTES.md" "Notes."].
Definition world_object : ObjectCandidate :=
  or_fail (MkObjectCandidate unreviewed_digest [] "") (make_object_candidate world_entries None).
Definition package_digests (r : py (Result NativeArtifactPackage)) : ObjectDigest * ObjectDigest :=
  match r with
  | Ret (Ok p) => (np_manifest_digest p, np_payload_digest p)
  | _ => (unreviewed_digest, unreviewed_digest)
  end.
Definition world_digests : ObjectDigest * ObjectDigest :=
  package_digests (compile_native_package (ob_entries world_object) None).
Definition world_index : IndexArtifact :=
  MkIndexArtifact (MkSourceId "team") (MkIdentity Memory "notes") (MkSemVer 1 0 0 [] []) "Notes"
    world_digests.1 world_digests.2 (ob_digest world_object) (MkCompatibilitySpec ["claude"] ["linux"])
    (MkInstallSpec ["project"] ["copy"] ["managed-block"]) None None None [] no_bounds [].
Definition world_view : MarketplaceSourceView :=
  MkView (MkAlias "team") REGISTRY_GIT (Some (MkSourceId "team")) "github.com/acme/tools"
    (Some "0123456789012345678901234567890123456789") (Some (ob_digest world_object)) HEALTHY (Some 5) 0 true [].
Definition world_catalog : MarketplaceCatalog :=
  MkCatalog [world_view]
    [MkMarketItem (MkArtifact (MkAlias "team") (MkSourceId "team") world_index (ob_digest world_object) AVAILABLE)
       world_view (MkTrust REGISTRY_REVIEWED (ob_digest world_object) [])] [] [].
Definition world_configuration : EffectiveConfiguration :=
  MkEffective
    (MkConfiguration 1
       [MkConfigured (MkAlias "team") REGISTRY_GIT "https://github.com/acme/tools" (Some "main") true]
       (Some (MkAlias "team")) (MkSync AUTO 900) (MkReporting R_PROMPT None))
    (MkPolicy 1 [] [] None None None None None None (MkReportingPolicy None None false) []) [].
Definition world_store : ObjectStorePaths :=
  ret_or (MkStorePaths "" "" "" "" "" "" "") (object_store_paths "/data").
Definition world_root : string :=
  pjoins (os_objects world_store)
    [str_take 2 (dg_value (ob_digest world_object)); str_drop 2 (dg_value (ob_digest world_object))].
Definition world_location : InstallLocation := MkInstallLocation "/work" "/home/me" "/data".

(** The files of the project: path and content. *)
Definition world_snapshot (files : list (string * string)) (path : string) : PathSnapshot :=
  match dget path files with
  | Some content =>
      MkPathSnapshot path PFILE (Some (file_snapshot_digest content false)) content false [] None None
  | None => MkPathSnapshot path PABSENT None "" false [] None None
  end.
Definition world_ports (state : option InstallState) (files : list (string * string)) : InstallReadPorts := {|
  rp_read_object _ request :=
    Ok (if bool_decide (rd_digest request = ob_digest world_object)
        then Some (MkStoredObject world_object world_root) else None);
  rp_read_state _ _ := Ok state;
  rp_inspect_path _ path := Ok (world_snapshot files path);
  rp_inspect_link_target _ path _ := Ok (world_snapshot files path)
|}.
Definition world_request (mode : string) (force : bool) : InstallRequest :=
  MkInstallRequest (MkIdentity Memory "notes") None None "claude" 1 "linux" "project" "copy" force false mode None.
Definition world_prepare (mode : string) (force : bool) (state : option InstallState)
    (files : list (string * string)) :=
  prepare_install (world_request mode force) world_catalog world_configuration CLAUDE world_location world_store
    (world_ports state files) [].
Definition is_prepared {A} (r : py (Result A) * calls) : bool :=
  match r.1 with Ret (Ok _) => true | _ => false end.

(** After a forced replacement of a file of the operator, who kept the sidecar. *)
Definition prepared_plan (r : py (Result InstallPlan) * calls) : option InstallPlan :=
  match r.1 with Ret (Ok p) => Some p | _ => None end.
Definition file_writes (p : InstallPlan) : list (string * bytes) :=
  omap (λ o, match o with
             | WriteFile w => Some (wo_absolute_destination w, wo_content w) | _ => None end)
    (ip_operations p).
(** The files and the state a plan of file writes leaves. *)
Definition replaced_twice : option (list (string * bytes)) :=
  first ← prepared_plan (world_prepare "replace" true None [("/work/CLAUDE.md", "Mine.")]);
  let files := file_writes first ++ [(ip_state_path first, install_state_bytes (ip_replacement_state first))] in
  second ← prepared_plan (world_prepare "replace" true (Some (ip_replacement_state first)) files);
  Some (file_writes second).
