(* ===== verification/SetupEngineSpec.v ===== *)
(** The promises of [setup_engine/application.py]: a setup touches nothing
    unless its review and everything it was planned against are confirmed in the
    same run, what it persists carries the evidence of the plan, a queue runs
    its plans one after the other, and a retry takes up what did not complete. *)
From S2P Require Import Prelude Effects PyText TextSearch Regex Posix Profiles Domain SemVer Json Redaction Protocol CompilerModel Graph Marketplace Configuration ConfigSchema ConfigPolicy InstallState InstallSchema StoreModel NativeSchema NativeTree Installation InstallPlan Ports Planning Install PyJson SetupModel SetupRecipe SetupRecipeSpec SetupPlan SetupPlanSpec SetupRuntime SetupTransaction SetupState SetupEngine InstallFlow.
Open Scope Z_scope.

(** * Reading *)

Definition is_read (c : setup_call) : bool :=
  match c with CReadState _ _ | CReadObject _ _ | CInspectPath _ _ | CReadReferences _ _ => true | _ => false end.
(** The calls [reads] were made, in the machine as it was. *)
Definition after_reads (s : engine) (reads : list setup_call) : engine :=
  MkEngine (en_calls s ++ map (pair (en_machine s)) reads) (en_machine s).
Lemma after_no_reads s : after_reads s [] = s.
Proof. unfold after_reads. cbn [map]. rewrite app_nil_r. by destruct s. Qed.
Lemma after_reads_app s a b : after_reads (after_reads s a) b = after_reads s (a ++ b).
Proof. unfold after_reads. cbn [en_calls en_machine]. by rewrite map_app, (assoc_L app). Qed.

(** What a plan is checked against. *)
Definition confirms (plan : CanonicalSetupPlan) (reads : list setup_call) : Prop :=
  ∃ stored state record references,
    reads = [CReadObject (MkReadRequest (cp_object_store_paths plan) (cp_object_digest plan)) (Ok (Some stored));
             CReadState (cp_install_state_path plan) (Ok (Some state));
             CInspectPath (cp_setup_state_path plan) (Ok (cp_setup_state_precondition plan));
             CReadReferences (cp_object_store_paths plan) (Ok references)]
    ∧ so_candidate stored = cp_object_candidate plan ∧ StoreModel.so_root stored = cp_object_root plan
    ∧ selected_record state (cp_request plan) = Some record
    ∧ record_py_eq record (cp_installation plan) = true
    ∧ owned_by (cp_setup_reference_owner plan) references = cp_setup_reference_precondition plan.

Section engine.
Context `{UnicodeData} `{DecodeErrors} `{IpAddress : Configuration.IpAddress} `{PyNumbers} `{WorkingDirectory}.
Context (ports : SetupPorts) (world : engine → ∀ R, trace → op R → py R) (rt : SetupRuntime).
Abbreviation engine_m := (st engine).

(** A test that only reads, and what it read when it holds. *)
Definition tests (m : engine_m bool) (P : list setup_call → Prop) : Prop :=
  ∀ s, ∃ reads, (m s).2 = after_reads s reads ∧ Forall (λ c, is_read c = true) reads
                ∧ ((m s).1 = Ret true → P reads).
Lemma tests_pure m : tests (pure m) (λ reads, reads = [] ∧ m = Ret true).
Proof. intros s. exists []. by rewrite after_no_reads. Qed.
Lemma tests_mono m (P Q : list setup_call → Prop) : tests m P → (∀ l, P l → Q l) → tests m Q.
Proof. intros Hm HPQ s. destruct (Hm s) as (reads & ? & ? & ?). exists reads. auto. Qed.
Lemma tests_and_then m k P Q :
  tests m P → tests k Q → tests (and_then m k) (λ l, ∃ a b, l = a ++ b ∧ P a ∧ Q b).
Proof.
  intros Hm Hk s. destruct (Hm s) as (a & Ea & Ra & Pa). unfold and_then, mbind, st_bind.
  destruct (m s) as [[[]|e] s1]; cbn [fst snd] in *; subst s1.
  - destruct (Hk (after_reads s a)) as (b & Eb & Rb & Pb). exists (a ++ b).
    rewrite Eb, after_reads_app. repeat split; [by apply Forall_app|].
    intros E. exists a, b. auto.
  - by exists a.
  - by exists a.
Qed.
(** One read, decided by its answer. *)
Lemma tests_ask {R} (answer : engine → R) (call : R → setup_call) (f : R → bool) :
  (∀ r, is_read (call r) = true) →
  tests (r ← ask answer call; mret (f r)) (λ l, ∃ r, l = [call r] ∧ f r = true).
Proof.
  intros Hr s. exists [call (answer s)]. repeat split; [by constructor|].
  intros E. exists (answer s). split; [done|]. by injection E.
Qed.

Lemma object_tests plan : tests (object_current ports plan) (λ l, ∃ stored,
    l = [CReadObject (MkReadRequest (cp_object_store_paths plan) (cp_object_digest plan)) (Ok (Some stored))]
    ∧ so_candidate stored = cp_object_candidate plan ∧ StoreModel.so_root stored = cp_object_root plan).
Proof.
  unfold object_current, object_read_request. destruct (negb (valid_digest (cp_object_digest plan))).
  { intros s. exists []. by rewrite after_no_reads. }
  eapply tests_mono.
  { exact (tests_ask _ (CReadObject _) (λ loaded, match loaded with
      | Ok (Some stored) => bool_decide (so_candidate stored = cp_object_candidate plan)
                            && String.eqb (StoreModel.so_root stored) (cp_object_root plan)
      | _ => false end) (λ _, eq_refl)). }
  intros l (loaded & -> & E). destruct loaded as [[stored|]|]; try done.
  apply andb_true_iff in E as [E1%bool_decide_eq_true E2%String.eqb_eq]. eauto.
Qed.
Lemma state_tests plan : tests (selected_state_matches ports plan) (λ l, ∃ state record,
    l = [CReadState (cp_install_state_path plan) (Ok (Some state))]
    ∧ selected_record state (cp_request plan) = Some record
    ∧ record_py_eq record (cp_installation plan) = true).
Proof.
  eapply tests_mono; [by apply tests_ask|]. intros l (answer & -> & E).
  destruct answer as [[state|]|]; try done.
  destruct (selected_record state (cp_request plan)) as [record|] eqn:Es; [|done]. eauto.
Qed.
Lemma setup_state_tests plan : tests (state_current ports plan) (λ l,
    l = [CInspectPath (cp_setup_state_path plan) (Ok (cp_setup_state_precondition plan))]).
Proof.
  eapply tests_mono; [by apply tests_ask|]. intros l ([snapshot|] & -> & E); [|done].
  by apply bool_decide_eq_true in E as ->.
Qed.
Lemma references_tests plan : tests (references_current ports plan) (λ l, ∃ references,
    l = [CReadReferences (cp_object_store_paths plan) (Ok references)]
    ∧ owned_by (cp_setup_reference_owner plan) references = cp_setup_reference_precondition plan).
Proof.
  eapply tests_mono; [by apply tests_ask|]. intros l ([references|] & -> & E); [|done].
  apply bool_decide_eq_true in E. eauto.
Qed.
Lemma preconditions_tests plan catalog effective :
  tests (preconditions_current ports plan catalog effective) (λ l,
    policy_digest_of effective = cp_policy_digest plan ∧ trust_current plan catalog effective = Ret true
    ∧ confirms plan l).
Proof.
  unfold preconditions_current. destruct (bool_decide_reflect (policy_digest_of effective = cp_policy_digest plan));
    cbn [negb]; [|intros s; exists []; by rewrite after_no_reads].
  eapply tests_mono.
  { apply tests_and_then; [apply tests_pure|]. apply tests_and_then; [apply object_tests|].
    apply tests_and_then; [apply state_tests|].
    apply tests_and_then; [apply setup_state_tests|apply references_tests]. }
  intros l (? & ? & -> & [-> Ht] & ? & ? & -> & (stored & -> & Hc & Hr) & ? & ? & -> & (state & record & -> & Hs & Hq)
            & ? & ? & -> & -> & (references & -> & Ho)).
  split; [done|]. split; [done|]. by exists stored, state, record, references.
Qed.
End engine.

(** * Finalizing *)

Definition is_ok {A} (r : Result A) : bool := match r with Ok _ => true | Err _ => false end.
(** What a record of the plan carries. *)
Definition plan_evidence (plan : CanonicalSetupPlan) : list (string * string) :=
  [("object_digest", digest_str (cp_object_digest plan)); ("recipe_digest", digest_str (cp_recipe_digest plan));
   ("trust", cp_trust plan); ("trust_evidence_digest", digest_str (cp_trust_evidence_digest plan));
   ("policy_digest", digest_str (cp_policy_digest plan));
   ("capability_plan_digest", digest_str (cp_capability_plan_digest plan));
   ("canonical_review_digest", digest_str (cp_review_digest plan));
   ("setup_state_ref", cp_setup_state_ref plan)].
Definition kept (plan : CanonicalSetupPlan) (m : machine) (record : SetupStateRecord) (answer : Result unit) :
    machine * setup_call :=
  (m, CPersist plan record (cp_previous_record plan) answer).

Section finalize.
Context `{UnicodeData} `{DecodeErrors} `{IpAddress : Configuration.IpAddress} `{PyNumbers} `{WorkingDirectory}.
Context (ports : SetupPorts) (world : engine → ∀ R, trace → op R → py R) (rt : SetupRuntime).
Abbreviation outcome_of := (py (Result SetupOutcome)).

(** Nothing was touched, and at most a conflict is reported. *)
Definition untouched (s : engine) (r : outcome_of) (s' : engine) : Prop :=
  ∃ reads, s' = after_reads s reads ∧ Forall (λ c, is_read c = true) reads
           ∧ ∀ o, r = Ret (Ok o) →
             so_setup_status o = X_CONFLICTED ∧ so_state_written o = false ∧ so_record o = None.
(** The record could not be kept: what was applied is compensated, or reported. *)
Definition recovered (plan : CanonicalSetupPlan) (record : SetupStateRecord) (m : machine)
    (rest : list (machine * setup_call)) (r : outcome_of) : Prop :=
  ∀ o, r = Ret (Ok o) → ∃ m' kept_record answer,
    rest = [kept plan m' kept_record answer] ∧ evidence kept_record = plan_evidence plan
    ∧ so_state_written o = is_ok answer ∧ so_record o = Some kept_record
    ∧ (so_setup_status o = X_ROLLBACK_INCOMPLETE
       ∨ so_setup_status o = X_FAILED
         ∧ (sr_receipt record = [] ∨ ∃ s2 m2, rollback_all (world s2) rt (sr_receipt record) m = (Ret true, m2))).
(** The reviewed plan ran once, and then its record was handed over. *)
Definition ran (plan : CanonicalSetupPlan) (s1 : engine) (r : outcome_of) (s' : engine) : Prop :=
  match apply_setup_plan (world s1) rt (cp_legacy_plan plan) (en_machine s1) with
  | (Raise e, m) => r = Raise e ∧ s' = MkEngine (en_calls s1) m
  | (Ret record, m) =>
      ∃ applied answer rest,
        en_calls s' = en_calls s1 ++ kept plan m applied answer :: rest
        ∧ evidence applied = plan_evidence plan ∧ sr_receipt applied = sr_receipt record
        ∧ match answer with
          | Ok _ => rest = [] ∧ en_machine s' = m
                    ∧ ∀ o, r = Ret (Ok o) → so_state_written o = true ∧ so_record o = Some applied
                                            ∧ legacy_status (sr_status record) = Ret (so_setup_status o)
          | Err _ => recovered plan record m rest r
          end
  end.

Lemma outcome_inv plan status detail written record o : outcome plan status detail written record = Ret o →
  so_setup_status o = status ∧ so_state_written o = written ∧ so_record o = record
  ∧ outcome_key o = plan_key plan.
Proof.
  unfold outcome, setup_outcome. intros E. apply bind_Ret in E as (? & _ & E). by injection E as <-.
Qed.
Lemma bound_evidence plan record : evidence (bound_record plan record) = plan_evidence plan.
Proof. done. Qed.
Lemma bound_bound plan record : evidence record = plan_evidence plan → bound_record plan record = record.
Proof. unfold evidence, plan_evidence, bound_record. intros E. destruct record. cbn in E |- *. by injection E as -> -> -> -> -> -> -> ->. Qed.
Lemma failure_evidence applied recovery cause : evidence applied = evidence recovery →
  evidence (failure_record applied recovery cause).2 = evidence applied.
Proof. unfold failure_record. intros E. by destruct (String.eqb _ _). Qed.

(** Compensating a record keeps its evidence, and its ending says whether all was undone. *)
Lemma rollback_record_inv w record m r m' : rollback_record w rt record m = (Ret r, m') →
  evidence r = evidence record
  ∧ (sr_status r = "rollback_incomplete" ∨ ∃ m2, rollback_all w rt (sr_receipt record) m = (Ret true, m2)).
Proof.
  unfold rollback_record. intros E. apply bind_run_inv in E as (ok & m1 & Ea & E).
  apply bind_run_inv in E as (finished & m2 & _ & E). injection E as <- _.
  split; [done|]. destruct ok; [right; eauto|by left].
Qed.

(** Keeping the evidence of a failure. *)
Lemma failure_kept plan record applied recovery ds s m :
  evidence applied = plan_evidence plan → evidence recovery = plan_evidence plan →
  sr_receipt applied = sr_receipt record →
  (sr_status recovery = "rollback_incomplete" ∨ sr_receipt record = []
   ∨ ∃ s2 m2, rollback_all (world s2) rt (sr_receipt record) m = (Ret true, m2)) →
  ∃ rest, en_calls (keep_failure ports plan applied recovery ds s).2 = en_calls s ++ rest
          ∧ recovered plan record m rest (keep_failure ports plan applied recovery ds s).1.
Proof.
  intros Ea Er Hreceipt Hrolled. pose proof (failure_evidence applied recovery (messages ds)) as Ef.
  assert (Hstatus : (failure_record applied recovery (messages ds)).1.1 = X_ROLLBACK_INCOMPLETE
    ∨ (failure_record applied recovery (messages ds)).1.1 = X_FAILED
      ∧ (sr_receipt record = [] ∨ ∃ s2 m2, rollback_all (world s2) rt (sr_receipt record) m = (Ret true, m2))).
  { unfold failure_record. destruct (String.eqb_spec (sr_status recovery) "rollback_incomplete") as [E|E];
      [by left|right]. by destruct Hrolled as [?|?]. }
  unfold keep_failure.
  destruct (failure_record applied recovery (messages ds)) as [[status detail] failure]. cbn [fst snd] in *.
  rewrite Ea, Er in Ef. specialize (Ef eq_refl).
  set (answer := pt_persist_setup ports s plan failure (cp_previous_record plan)).
  exists [kept plan (en_machine s) failure answer]. unfold persist_setup, ask, mbind, st_bind. cbn zeta beta.
  fold answer. split.
  - unfold kept. destruct answer, (outcome plan _ _ _ _); done.
  - intros o E. exists (en_machine s), failure, answer. do 2 (split; [done|]).
    destruct answer as [[]|ds']; destruct (outcome _ _ _ _ _) as [o'|e] eqn:Eo; [|done| |done]; cbn in E;
      injection E as ->; apply outcome_inv in Eo as (-> & -> & -> & _);
      by rewrite bound_bound.
Qed.
Lemma persistence_recovered plan record applied ds s m :
  evidence applied = plan_evidence plan → sr_receipt applied = sr_receipt record → m = en_machine s →
  ∃ rest, en_calls (persistence_failed ports world rt plan applied ds s).2 = en_calls s ++ rest
          ∧ recovered plan record m rest (persistence_failed ports world rt plan applied ds s).1.
Proof.
  intros Ea Hreceipt ->. unfold persistence_failed, mbind, st_bind.
  destruct (sr_receipt applied) as [|receipt receipts] eqn:El.
  - cbn [mret st_ret]. apply failure_kept; [done|done|congruence|]. right. left. congruence.
  - unfold on_machine. destruct (rollback_record (world s) rt applied (en_machine s)) as [[recovery|e] m'] eqn:Er.
    + apply rollback_record_inv in Er as [Er Hstatus]. rewrite El, Hreceipt in Hstatus.
      pose proof (failure_kept plan record applied recovery ds (MkEngine (en_calls s) m') (en_machine s)) as Hk.
      rewrite Er in Hk. specialize (Hk Ea Ea). rewrite El in Hk. specialize (Hk Hreceipt).
      apply Hk. destruct Hstatus as [?|[m2 ?]]; eauto.
    + exists []. rewrite app_nil_r. split; [done|]. by intros o.
Qed.

Lemma bind_at {A B} (m : st engine A) (f : A → st engine B) s :
  (m ≫= f) s = match m s with (Ret a, s') => f a s' | (Raise e, s') => (Raise e, s') end.
Proof using. done. Qed.
(** The tests of [finalize_setup]. *)
Lemma current_tests plan catalog effective :
  tests (if String.eqb (rt_platform rt) (rq_platform (cp_request plan))
         then preconditions_current ports plan catalog effective else mret false) (λ l,
    rt_platform rt = rq_platform (cp_request plan)
    ∧ policy_digest_of effective = cp_policy_digest plan ∧ trust_current plan catalog effective = Ret true
    ∧ confirms plan l).
Proof.
  destruct (String.eqb_spec (rt_platform rt) (rq_platform (cp_request plan))) as [E|E].
  - eapply tests_mono; [apply preconditions_tests|]. auto.
  - intros s. exists []. by rewrite after_no_reads.
Qed.
(** From the confirmed state on. *)
Definition execute_plan (plan : CanonicalSetupPlan) : st engine (Result SetupOutcome) :=
  record ← on_machine world (λ w, apply_setup_plan w rt (cp_legacy_plan plan));
  let applied := bound_record plan record in
  persisted ← persist_setup ports plan applied (cp_previous_record plan);
  match persisted with
  | Err ds => persistence_failed ports world rt plan applied ds
  | Ok _ =>
      status ← pure (legacy_status (sr_status applied));
      o ← pure (outcome plan status (sr_detail applied) true (Some applied));
      mret (Ok o)
  end.
Lemma execute_plan_ran plan s : ran plan s (execute_plan plan s).1 (execute_plan plan s).2.
Proof.
  unfold execute_plan, ran, on_machine, persist_setup, ask, mbind, st_bind.
  destruct (apply_setup_plan (world s) rt (cp_legacy_plan plan) (en_machine s)) as [[record|e] m]; [|done].
  cbn beta iota zeta. cbn [en_calls en_machine].
  set (applied := bound_record plan record).
  set (answer := pt_persist_setup ports (MkEngine (en_calls s) m) plan applied (cp_previous_record plan)).
  destruct answer as [[]|ds] eqn:Ea.
  - exists applied, (Ok tt), []. unfold pure. change (sr_status applied) with (sr_status record).
    destruct (legacy_status (sr_status record)) as [status|e]; [|done].
    destruct (outcome plan status (sr_detail applied) true (Some applied)) as [o|e] eqn:Eo; [|done].
    do 5 (split; [done|]). intros o' Eo'. injection Eo' as <-. by apply outcome_inv in Eo as (-> & -> & -> & _).
  - destruct (persistence_recovered plan record applied ds
                (MkEngine (en_calls s ++ [(m, CPersist plan applied (cp_previous_record plan) (Err ds))]) m) m)
      as (rest & Ec & Hr); [done..|].
    exists applied, (Err ds), rest. cbn [en_calls] in Ec. by rewrite Ec, <- (assoc_L app).
Qed.
End finalize.

(** C14: Finalizing a setup ([finalize_setup]), whatever the ports and the machine
    answer: either nothing was touched, only reading was done and at most a
    conflict is reported; or the digest is the reviewed one, the platform,
    policy and trust are those of the plan, the object, the installation, the
    setup state and the references were read back in this run exactly as
    planned, and then the reviewed effects were run once.  Their record, which
    carries the evidence of the plan, is handed over at once; if it cannot be
    kept, what was applied is compensated or reported as incomplete, and the
    outcome says truly what was written. *)
Theorem finalize_setup_exact `{UnicodeData} `{DecodeErrors} `{IpAddress : Configuration.IpAddress} `{PyNumbers}
    `{WorkingDirectory} ports world rt plan reviewed catalog effective s :
  let t := finalize_setup ports world rt plan reviewed catalog effective s in
  untouched s t.1 t.2
  ∨ reviewed = cp_review_digest plan ∧ rt_platform rt = rq_platform (cp_request plan)
    ∧ policy_digest_of effective = cp_policy_digest plan ∧ trust_current plan catalog effective = Ret true
    ∧ ∃ reads, confirms plan reads ∧ ran world rt plan (after_reads s reads) t.1 t.2.
Proof.
  unfold finalize_setup. destruct (bool_decide_reflect (reviewed = cp_review_digest plan)) as [->|E];
    cbn [negb]; [|left; exists []; by rewrite after_no_reads].
  destruct (current_tests ports rt plan catalog effective s) as (reads & Es & Hreads & Hcurrent).
  set (current := if String.eqb _ _ then _ else _) in Es, Hcurrent |- *. clearbody current.
  rewrite (bind_at current).
  destruct (current s) as [[[]|e] s1]; cbn [fst snd negb] in *; subst s1.
  - right. destruct (Hcurrent eq_refl) as (Hp & Hpolicy & Htrust & Hc).
    repeat (split; [done|]). exists reads. split; [done|]. exact (execute_plan_ran ports world rt plan _).
  - left. exists reads. unfold mbind, st_bind, pure.
    destruct (outcome plan X_CONFLICTED _ false None) as [o|e] eqn:Eo; (split; [done|]); (split; [done|]); [|done].
    intros o' E. injection E as <-. by apply outcome_inv in Eo as (-> & -> & -> & _).
  - left. by exists reads.
Qed.

(** * The queue *)

Definition skipped_outcome (o : SetupOutcome) : Prop :=
  so_setup_status o = X_SKIPPED ∧ so_state_written o = false ∧ so_record o = None.

Section queue.
Context `{UnicodeData} `{DecodeErrors} `{IpAddress : Configuration.IpAddress} `{PyNumbers} `{WorkingDirectory}.
Context (ports : SetupPorts) (world : engine → ∀ R, trace → op R → py R) (rt : SetupRuntime).
Context (catalog : MarketplaceCatalog) (effective : EffectiveConfiguration) (stop : bool)
  (start : option (engine → py unit)) (total : Z).

(** The plans were finalized one after the other, from the state the one before left. *)
Inductive runs : Z → list (CanonicalSetupPlan * ObjectDigest) → engine → list SetupOutcome → engine → Prop :=
  | runs_nil n s : runs n [] s [] s
  | runs_cons n plan reviewed work s s1 r s2 o items s3 :
      item_start start n total plan s = (Ret tt, s1) →
      finalize_setup ports world rt plan reviewed catalog effective s1 = (Ret r, s2) →
      match r with Ok p => o = p | Err ds => failed plan ds = Ret o end →
      runs (n + 1) work s2 items s3 →
      runs n ((plan, reviewed) :: work) s (o :: items) s3.
(** Why the queue went as far as it did. *)
Definition halts (done_ skipped : list SetupOutcome) : Prop :=
  (stop = true → Forall (λ o, successful o = true) (removelast done_))
  ∧ (skipped ≠ [] → stop = true ∧ ∃ o, last done_ = Some o ∧ successful o = false).

Lemma finalize_key plan reviewed s o s' :
  finalize_setup ports world rt plan reviewed catalog effective s = (Ret (Ok o), s') → outcome_key o = plan_key plan.
Proof using stop start total.
  clear. unfold finalize_setup. destruct (negb _); [done|]. rewrite bind_at.
  set (current := if String.eqb _ _ then _ else _). destruct (current s) as [[b|e] s1]; [|done].
  destruct (negb b); [|rewrite bind_at; destruct (on_machine _ _ s1) as [[record|e] s2]; [|done]].
  - intros E. apply bind_run_inv in E as (p & s2 & Eo & E). injection E as <- _.
    injection Eo as Eo _. by apply outcome_inv in Eo as (_ & _ & _ & ->).
  - rewrite bind_at. destruct (persist_setup _ _ _ _ s2) as [[[[]|ds]|e] s3]; [| |done].
    + intros E. apply bind_run_inv in E as (status & s4 & _ & E). apply bind_run_inv in E as (p & s5 & Eo & E).
      injection E as <- _. injection Eo as Eo _. by apply outcome_inv in Eo as (_ & _ & _ & ->).
    + unfold persistence_failed, keep_failure. intros E. apply bind_run_inv in E as (recovery & s4 & _ & E).
      destruct (failure_record _ _ _) as [[status detail] failure].
      apply bind_run_inv in E as (persisted & s5 & _ & E).
      destruct (match persisted with Ok _ => _ | _ => _ end) as [written detail'].
      apply bind_run_inv in E as (p & s6 & Eo & E).
      injection E as <- _. injection Eo as Eo _. by apply outcome_inv in Eo as (_ & _ & _ & ->).
Qed.

Lemma execute_skips work items s all s' :
  execute_items ports world rt catalog effective stop start total work items true s = (Ret all, s') →
  ∃ skipped, all = items ++ skipped ∧ s' = s ∧ Forall skipped_outcome skipped
             ∧ map outcome_key skipped = map (λ w, plan_key w.1) work.
Proof.
  revert items. induction work as [|[plan reviewed] work IH]; intros items E.
  - injection E as <- <-. exists []. by rewrite app_nil_r.
  - apply bind_run_inv in E as (o & s1 & Eo & E). injection Eo as Eo <-.
    apply outcome_inv in Eo as (Hs & Hw & Hr & Hk). apply IH in E as (skipped & -> & -> & Hf & Hkeys).
    exists (o :: skipped). rewrite <- (assoc_L app). repeat split; [by constructor|].
    cbn [map fst]. by rewrite Hk, Hkeys.
Qed.
Lemma execute_runs work items s all s' :
  execute_items ports world rt catalog effective stop start total work items false s = (Ret all, s') →
  ∃ done_ skipped, all = items ++ done_ ++ skipped
    ∧ runs (Z.of_nat (length items) + 1) (take (length done_) work) s done_ s'
    ∧ Forall skipped_outcome skipped ∧ halts done_ skipped
    ∧ map outcome_key (done_ ++ skipped) = map (λ w, plan_key w.1) work.
Proof.
  revert items s. induction work as [|[plan reviewed] work IH]; intros items s E.
  - injection E as <- <-. exists [], []. rewrite app_nil_r. repeat split; try done; constructor.
  - apply bind_run_inv in E as ([] & s1 & Estart & E). apply bind_run_inv in E as (r & s2 & Ef & E).
    apply bind_run_inv in E as (o & s3 & Eo & E).
    assert (Ho : match r with Ok p => o = p | Err ds => failed plan ds = Ret o end ∧ s3 = s2 ∧ outcome_key o = plan_key plan).
    { destruct r as [p|ds]; injection Eo as Eo <-; [subst p|]; repeat split; try done.
      - by eapply finalize_key. - by apply outcome_inv in Eo as (_ & _ & _ & ->). }
    destruct Ho as (Ho & -> & Hk). destruct (stop && negb (successful o)) eqn:Est.
    + apply andb_true_iff in Est as [Est Hu%negb_true_iff].
      apply execute_skips in E as (skipped & -> & -> & Hf & Hkeys).
      exists [o], skipped. rewrite <- (assoc_L app). repeat split; try done.
      * by econstructor; [..|constructor].
      * by exists o.
      * cbn [map app fst]. by rewrite Hk, Hkeys.
    + apply IH in E as (done_ & skipped & -> & Hruns & Hf & [Hs Hh] & Hkeys).
      exists (o :: done_), skipped. rewrite <- (assoc_L app). rewrite length_app in Hruns. cbn [length] in Hruns.
      replace (Z.of_nat (length items + 1) + 1) with (Z.of_nat (length items) + 1 + 1) in Hruns by lia.
      repeat split; try done.
      * cbn [length take]. by econstructor.
      * intros Hstop. rewrite Hstop in Est. apply negb_false_iff in Est. specialize (Hs Hstop).
        destruct done_; [constructor|]. by constructor.
      * by destruct (Hh H3).
      * destruct (Hh H3) as (_ & p & Hp & Hu). exists p. by destruct done_.
      * cbn [map app fst]. by rewrite Hk, Hkeys.
Qed.
End queue.

(** * Retrying *)

Lemma same_outcome (items : list SetupOutcome) a b :
  NoDup (map outcome_key items) → In a items → In b items → outcome_key a = outcome_key b → a = b.
Proof.
  induction items as [|o items IH]; [done|]. cbn [map]. intros [Hn Hd]%NoDup_cons Ha Hb E.
  destruct Ha as [->|Ha], Hb as [->|Hb]; [done| | |by apply IH].
  - destruct Hn. rewrite E. by apply list_elem_of_In, in_map.
  - destruct Hn. rewrite <- E. by apply list_elem_of_In, in_map.
Qed.
(** A filter by what a paired item says. *)
Lemma filter_by_pair {A B} (f : A → bool) (g : B → bool) (l : list A) (k : list B) :
  length l = length k → (∀ a b, In (a, b) (zip l k) → f a = g b) →
  List.filter f l = map fst (List.filter (λ ab, g ab.2) (zip l k)).
Proof.
  revert k. induction l as [|a l IH]; intros [|b k] Hl Hfg; try done.
  cbn [List.filter zip zip_with]. rewrite (Hfg a b) by (by left). cbn [snd].
  rewrite (IH k); [by destruct (g b)|by injection Hl|intros; apply Hfg; by right].
Qed.
Lemma retry_incomplete plans items :
  map outcome_key items = map plan_key plans → NoDup (map outcome_key items) →
  retryable_plans plans items = map fst (List.filter (λ po, negb (successful po.2)) (zip plans items)).
Proof.
  intros Hk Hd. unfold retryable_plans. apply filter_by_pair with (g := λ o, negb (successful o)).
  { by rewrite <- (length_map plan_key), <- Hk, length_map. }
  intros p o Hin. assert (Hp : plan_key p = outcome_key o ∧ In o items).
  { clear Hd. revert plans Hk Hin. induction items as [|o' items IH]; intros [|p' plans] Hk Hin; try done.
    pose proof (f_equal (hd (plan_key p')) Hk) as Hko. apply (f_equal (@List.tl _)) in Hk.
    destruct Hin as [E|Hin]; [injection E as <- <-; split; [done|by left]|].
    destruct (IH plans Hk Hin). split; [done|by right]. }
  destruct Hp as [-> Ho]. destruct (successful o) eqn:Es; cbn [negb].
  - apply mem_false. intros Hm. apply list_elem_of_In, in_map_iff in Hm as (q & Eq & [Hq Hnq]%filter_In).
    rewrite (same_outcome items q o) in Hnq by done. by rewrite Es in Hnq.
  - apply mem_true, list_elem_of_In, in_map, filter_In. by rewrite Es.
Qed.

(** C15: A setup queue ([execute_setup_queue]) that returns reports one outcome
    per plan, in their order, under distinct identities.  The plans of a prefix
    were finalized one after the other, each in the state the one before left;
    the queue stopped early only when asked to and only after an item that did
    not succeed, and what it did not reach is reported skipped and touched
    nothing.  A retry ([retryable_plans]) takes up exactly the plans whose item
    did not succeed. *)
Theorem setup_queue_exact `{UnicodeData} `{DecodeErrors} `{IpAddress : Configuration.IpAddress} `{PyNumbers}
    `{WorkingDirectory} ports world rt plans reviewed catalog effective stop start s items s' :
  execute_setup_queue ports world rt plans reviewed catalog effective stop start s = (Ret items, s') →
  length plans = length reviewed ∧ map outcome_key items = map plan_key plans ∧ NoDup (map plan_key plans)
  ∧ (∃ done_ skipped, items = done_ ++ skipped
     ∧ runs ports world rt catalog effective start (Z.of_nat (length plans)) 1
         (take (length done_) (zip plans reviewed)) s done_ s'
     ∧ Forall skipped_outcome skipped ∧ halts stop done_ skipped)
  ∧ retryable_plans plans items = map fst (List.filter (λ po, negb (successful po.2)) (zip plans items)).
Proof.
  unfold execute_setup_queue. intros E. apply bind_run_inv in E as ([] & s1 & El & E).
  injection El as El <-. apply raise_if_Ret, negb_false_iff, Nat.eqb_eq in El.
  apply bind_run_inv in E as (all & s2 & Er & E). injection E as E <-.
  unfold setup_queue_outcome in E. apply bind_Ret in E as (? & Hd & E). injection E as <-.
  apply raise_if_Ret, has_dups_false in Hd.
  apply execute_runs in Er as (done_ & skipped & -> & Hruns & Hf & Hh & Hk).
  assert (Hkeys : map outcome_key (done_ ++ skipped) = map plan_key plans).
  { rewrite Hk. clear -El. revert reviewed El. induction plans as [|p plans IH]; intros [|d reviewed] El; try done.
    cbn [zip zip_with map fst]. by rewrite (IH reviewed) by (by injection El). }
  split; [done|]. split; [done|]. split; [by rewrite <- Hkeys|]. split; [by exists done_, skipped|].
  by apply retry_incomplete.
Qed.

(** * Rolling back *)

(** No more than reading happened. *)
Ltac only_reads reads := left; exists reads; split; [|split; [by repeat constructor|by intros ?]].

(** Rolling back a setup ([rollback_setup]) only reads, and answers no outcome,
    unless the outcome is a success whose record is bound to the plan's review,
    object and state, every receipt is one of the plan's effects, and the
    setup state holds that record and the setup owns its object, as read in
    this run.  Then the record is compensated once, and an outcome is answered
    only after the result took the place of the record. *)
Theorem rollback_setup_bound `{UnicodeData} `{DecodeErrors} `{IpAddress : Configuration.IpAddress} `{PyNumbers}
    `{WorkingDirectory} ports world rt plan o s :
  let t := rollback_setup ports world rt plan o s in
  (∃ reads, t.2 = after_reads s reads ∧ Forall (λ c, is_read c = true) reads ∧ ∀ o', t.1 ≠ Ret (Ok o'))
  ∨ ∃ record found snapshot references,
      so_record o = Some record ∧ successful o = true
      ∧ sr_canonical_review_digest record = digest_str (cp_review_digest plan)
      ∧ sr_object_digest record = digest_str (cp_object_digest plan)
      ∧ sr_setup_state_ref record = cp_setup_state_ref plan
      ∧ Forall (λ r, receipt_matches_plan r (cp_legacy_plan plan) = true) (sr_receipt record)
      ∧ previous_record snapshot = Ret (Ok (Some found)) ∧ setup_record_py_eq found record = true
      ∧ owned_by (cp_setup_reference_owner plan) references = [cp_object_digest plan]
      ∧ let s1 := after_reads s [CInspectPath (cp_setup_state_path plan) (Ok snapshot);
                                 CReadReferences (cp_object_store_paths plan) (Ok references)] in
        let '(rolled, m) := rollback_record (world s1) rt record (en_machine s1) in
        en_machine t.2 = m
        ∧ match rolled with
          | Raise e => t.1 = Raise e
          | Ret rolled => ∃ answer,
              en_calls t.2 = en_calls s1 ++ [(m, CPersist plan (bound_record plan rolled) (Some record) answer)]
              ∧ ∀ o', t.1 = Ret (Ok o') → answer = Ok tt ∧ so_record o' = Some (bound_record plan rolled)
          end.
Proof.
  unfold rollback_setup. destruct (so_record o) as [record|]; [|only_reads (@nil setup_call); by rewrite after_no_reads].
  destruct (review_bound plan o record) eqn:Hb; cbn [negb]; [|only_reads (@nil setup_call); by rewrite after_no_reads].
  unfold review_bound in Hb. rewrite !andb_true_iff, !String.eqb_eq in Hb.
  destruct Hb as ((((Hok & Hreview) & Hobject) & Href) & Hreceipts).
  unfold or_return, inspect_path, read_references, persist_setup, on_machine, ask, pure, result, mbind, st_bind,
    mret, st_ret.
  cbn beta iota zeta. cbn [en_calls en_machine]. set (state := CInspectPath (cp_setup_state_path plan)).
  destruct (pt_inspect_path ports s (cp_setup_state_path plan)) as [snapshot|ds]; [|by only_reads [state (Err ds)]].
  destruct (previous_record snapshot) as [current|e] eqn:Ep; [|by only_reads [state (Ok snapshot)]].
  set (owned := CReadReferences (cp_object_store_paths plan)).
  destruct (pt_read_references ports _ _) as [references|ds] eqn:Er.
  all: cycle 1.
  { unfold record_current. rewrite bool_decide_eq_false_2 by done. rewrite andb_false_r. cbn [negb].
    only_reads [state (Ok snapshot); owned (Err ds)]. exact (after_reads_app s [_] [_]). }
  destruct (record_current plan record current (Ok references)) eqn:Hc; cbn [negb].
  all: cycle 1.
  { only_reads [state (Ok snapshot); owned (Ok references)]. exact (after_reads_app s [_] [_]). }
  right. unfold record_current in Hc. apply andb_true_iff in Hc as [Hf Ho%bool_decide_eq_true].
  destruct current as [[found|]|]; try done.
  exists record, found, snapshot, references. repeat (split; [done|]).
  split; [apply Forall_forall; intros r Hr; apply (proj1 (forallb_forall _ _) Hreceipts); by apply list_elem_of_In|]. repeat (split; [done|]).
  unfold after_reads. cbn [map en_calls en_machine]. rewrite <- (assoc_L app). cbn [app].
  destruct (rollback_record _ rt record (en_machine s)) as [[rolled|e] m]; [|done].
  cbn [en_calls en_machine]. set (answer := pt_persist_setup ports _ plan _ _).
  destruct answer as [[]|ds].
  - destruct (outcome plan _ _ _ _) as [p|e] eqn:Eo; (split; [done|]); exists (Ok tt); (split; [done|]); [|done].
    intros o' E. injection E as <-. by apply outcome_inv in Eo as (_ & _ & -> & _).
  - split; [done|]. by exists (Err ds).
Qed.

(** * A queue of three plans *)

#[local] Existing Instance plain_numbers.
Definition demo_record (name : string) : InstallationRecord :=
  MkInstallation (MkCoordinate (MkAlias "team") (MkIdentity Memory name) None)
    (MkSourceEvidence (MkAlias "team") (MkSourceId "team") REGISTRY_GIT "github.com/acme/tools"
       "0123456789012345678901234567890123456789" (Some "main"))
    (MkArtifactEvidence (MkIdentity Memory name) (MkSemVer 1 0 0 [] []) world_digests.1 world_digests.2
       (ob_digest world_object))
    "claude" 1 "project" "copy" [] None None.
Definition queue_plan (name : string) : CanonicalSetupPlan :=
  MkCanonicalPlan
    (MkSetupRequest (in_coordinate (demo_record name)) "claude" "project" false false "darwin")
    (demo_record name) "/work/.agent-artifacts/manifest.json" "/work/.agent-artifacts/state.lock"
    "registry-reviewed" (ob_digest world_object) (policy_digest_of world_configuration) world_store world_object
    world_root (ob_digest world_object) (MkPath ["setup"; "installer.json"]) (ob_digest world_object) None None []
    (ob_digest world_object) (demo_plan [create_effect]) "setup-1" "/data/state/setup/setup-1.json"
    (world_snapshot [] "/data/state/setup/setup-1.json") None "setup/setup-1" [] (ob_digest world_object).
Definition queue_ports : SetupPorts := {|
  pt_read_state _ _ := Ok (Some (MkState 2 [demo_record "notes"]));
  pt_read_object _ _ := Ok (Some (MkStoredObject world_object world_root));
  pt_inspect_path _ path := Ok (world_snapshot [] path);
  pt_read_references _ _ := Ok (MkReferenceIndex []);
  pt_persist_setup _ _ _ _ := Ok tt
|}.
Definition queue_start : engine := MkEngine [] demo_start.
Definition demo_queue :=
  execute_setup_queue queue_ports (λ _, demo_world "") demo_runtime
    [queue_plan "notes"; queue_plan "other"; queue_plan "third"]
    [ob_digest world_object; unreviewed_digest; ob_digest world_object]
    world_catalog world_configuration true None queue_start.
Definition call_name (c : setup_call) : string :=
  match c with
  | CReadState _ _ => "read-state" | CReadObject _ _ => "read-object" | CInspectPath _ _ => "inspect"
  | CReadReferences _ _ => "read-references" | CPersist _ record _ _ => "persist " +:+ sr_status record
  | CItemStart _ _ _ => "start"
  end.
Lemma demo_queue_run :
  (λ items, map so_setup_status items) <$> demo_queue.1 = Ret [X_CONFIGURED; X_FAILED; X_SKIPPED]
  ∧ map (λ c, call_name c.2) (en_calls demo_queue.2)
    = ["read-object"; "read-state"; "inspect"; "read-references"; "persist configured"].
Proof. by vm_compute. Qed.
Lemma setup_queue_exact_witness : ∃ items s',
  demo_queue = (Ret items, s') ∧ map so_setup_status items = [X_CONFIGURED; X_FAILED; X_SKIPPED]
  ∧ retryable_plans [queue_plan "notes"; queue_plan "other"; queue_plan "third"] items
    = [queue_plan "other"; queue_plan "third"].
Proof.
  destruct demo_queue as [r s'] eqn:E. destruct demo_queue_run as [Hs _]. rewrite E in Hs.
  destruct r as [items|e]; [|discriminate Hs]. injection Hs as Hs. exists items, s'. split; [reflexivity|].
  unfold demo_queue in E.
  split; [exact Hs|].
  destruct (setup_queue_exact queue_ports (λ _, demo_world "") demo_runtime
    [queue_plan "notes"; queue_plan "other"; queue_plan "third"]
    [ob_digest world_object; unreviewed_digest; ob_digest world_object]
    world_catalog world_configuration true None queue_start items s' E) as (_ & _ & _ & _ & ->).
  destruct items as [|[? ? ? ? ? ? ? ? ?] [|[? ? ? ? ? ? ? ? ?] [|[? ? ? ? ? ? ? ? ?] [|]]]]; try discriminate Hs.
  injection Hs as -> -> ->. reflexivity.
Defined.
