(* ===== verification/PrepareSpec.v ===== *)
(** A prepared plan is bound to what was read while preparing it, and is applied
    as soon as it is reviewed if the world has not changed. *)
From S2P Require Import Prelude Effects PyText TextSearch Posix Regex Domain SemVer Json IndentedJson Protocol CompilerModel Graph Marketplace StoreModel Configuration InstallState InstallSchema InstallSpec ConfigSchema ConfigPolicy Installation InstallPlan LifecycleModel Ports Merge MergeSpec Profiles NativeSchema NativeTree ManagedBlock Planning Install Trust InstallFlow.
From Stdlib Require Import Ascii.
Open Scope Z_scope.

(** * Constructors that only check *)

Lemma copy_tree_operation_same `{UnicodeData} o o' : copy_tree_operation o = Ret o' → o' = o.
Proof. unfold copy_tree_operation. intros Hr. by inv_py. Qed.
Lemma write_file_operation_same `{UnicodeData} o o' : write_file_operation o = Ret o' → o' = o.
Proof. unfold write_file_operation. intros Hr. by inv_py. Qed.
Lemma link_operation_same `{UnicodeData} o o' : link_operation o = Ret o' → o' = o.
Proof. unfold link_operation. intros Hr. by inv_py. Qed.
Lemma merge_json_operation_same `{UnicodeData} o o' : merge_json_operation o = Ret o' → o' = o.
Proof. unfold merge_json_operation. intros Hr. by inv_py. Qed.

Lemma pure_inv {S A} (m : py A) (s : S) a s' : pure m s = (Ret a, s') → m = Ret a ∧ s' = s.
Proof. by intros [= -> ->]. Qed.

(** Split a run that returned into the runs of its steps. *)
Ltac inv_run :=
  repeat match goal with
  | H : or_return _ _ _ = (Ret (Ok _), _) |- _ =>
      let a := fresh "a" in let t := fresh "t" in let Hm := fresh "Hm" in
      apply or_return_inv in H as (a & t & Hm & H)
  | H : (_ ≫= _) _ = (Ret _, _) |- _ =>
      let a := fresh "a" in let t := fresh "t" in let Hm := fresh "Hm" in
      apply bind_run_inv in H as (a & t & Hm & H)
  | H : pure _ _ = (Ret _, _) |- _ => apply pure_inv in H as [H ->]
  | H : result _ _ = (Ret _, _) |- _ => injection H as H; subst
  | H : mret _ _ = (Ret _, _) |- _ => injection H as H; subst
  end; simplify_eq/=.

Section prepare.
Context `{UnicodeData} `{DecodeErrors} `{IpAddress} `{SetupProtocol} `{WorkingDirectory}.
Context (ports : InstallReadPorts).

(** * What a run observed *)

(** The answers of the ports recorded in a trace. *)
Definition observed_path (t : calls) (path : string) (s : PathSnapshot) : Prop :=
  EInspectPath path (Ok s) ∈ t ∧ ∃ t0, rp_inspect_path ports t0 path = Ok s.
Definition observed_link (t : calls) (path boundary : string) (s : PathSnapshot) : Prop :=
  EInspectLink path boundary (Ok s) ∈ t ∧ ∃ t0, rp_inspect_link_target ports t0 path boundary = Ok s.

Lemma observed_path_app t more path s : observed_path t path s → observed_path (t ++ more) path s.
Proof. intros [? ?]. split; [set_solver|done]. Qed.
Lemma observed_link_app t more path boundary s :
  observed_link t path boundary s → observed_link (t ++ more) path boundary s.
Proof. intros [? ?]. split; [set_solver|done]. Qed.

Lemma inspect_path_run t path s t' :
  inspect_path ports path t = (Ret (Ok s), t') →
  t' = t ++ [EInspectPath path (Ok s)] ∧ observed_path t' path s.
Proof.
  intros [Ha ->]%call_inv. split; [done|]. split; [set_solver|eauto].
Qed.
Lemma inspect_link_run t path boundary s t' :
  inspect_link_target ports path boundary t = (Ret (Ok s), t') →
  t' = t ++ [EInspectLink path boundary (Ok s)] ∧ observed_link t' path boundary s.
Proof.
  intros [Ha ->]%call_inv. split; [done|]. split; [set_solver|eauto].
Qed.

(** The operation is bound to what was observed. *)
Definition bound (boundary : string) (t : calls) (o : InstallOperation) : Prop :=
  observed_path t (op_absolute_destination o) (op_precondition o)
  ∧ match o with
    | Link l => observed_link t (lk_target l) boundary (lk_target_precondition l)
    | _ => True
    end.
Lemma bound_app boundary t more o : bound boundary t o → bound boundary (t ++ more) o.
Proof. intros [? Hl]. split; [by apply observed_path_app|]. destruct o; auto using observed_link_app. Qed.

(** Each target path was observed at its absolute destination. *)
Definition targets_observed (request : InstallRequest) (location : InstallLocation) (t : calls)
    (observed : list (string * PathSnapshot)) : Prop :=
  ∀ path s, dget path observed = Some s →
    ∃ placed, destination path request location = Ret (Ok placed) ∧ observed_path t placed.2 s.

Lemma observe_targets_reads paths request location observed :
  reads (observe_targets paths request location ports observed).
Proof.
  revert observed. induction paths as [|path paths IH]; intros observed; cbn [observe_targets];
    [eauto with reads|].
  apply reads_or_return; [eauto with reads|]. intros placed.
  apply reads_or_return; [eauto with reads|]. intros s.
  destruct (bool_decide _ || _); [apply reads_result|apply IH].
Qed.

Lemma observe_targets_run paths request location observed t observed' t' :
  observe_targets paths request location ports observed t = (Ret (Ok observed'), t') →
  targets_observed request location t observed → targets_observed request location t' observed'.
Proof.
  revert observed t. induction paths as [|path paths IH]; intros observed t; cbn [observe_targets].
  { by intros [= <- <-]. }
  intros Hr Ht. inv_run. apply inspect_path_run in Hm0 as [-> Hs].
  destruct (bool_decide _ || _); [by inversion Hr|]. eapply IH; [done|]. clear IH Hr.
  intros q s Hq. destruct (decide (q = path)) as [->|Hne].
  - rewrite dget_dset_eq in Hq. injection Hq as <-. eauto.
  - rewrite dget_dset_ne in Hq by done. destruct (Ht q s Hq) as (placed & Hp & Ho).
    exists placed. split; [done|]. by apply observed_path_app.
Qed.

(** * Operations *)

Section convert.
Context (request : InstallRequest) (stored : StoredObject) (location : InstallLocation)
  (observed : list (string * PathSnapshot)) (boundary : string).

Lemma link_to_reads source_path logical absolute target kind desired s changed :
  reads (link_to request ports boundary source_path logical absolute target kind desired s changed).
Proof.
  unfold link_to. apply reads_or_return; [eauto with reads|]. intros found.
  destruct (negb _ || _); [apply reads_result|]. eauto with reads.
Qed.
Lemma link_to_run source_path logical absolute target kind desired s changed t o t' :
  link_to request ports boundary source_path logical absolute target kind desired s changed t
    = (Ret (Ok o), t') →
  observed_path t absolute s →
  ∃ l, o = Link l ∧ op_absolute_destination o = absolute ∧ op_precondition o = s
    ∧ lk_semantics l = link_semantics request ∧ bound boundary t' o.
Proof.
  unfold link_to. intros Hr Hs. inv_run. apply inspect_link_run in Hm as [-> Hl].
  destruct (negb _ || _); [by inversion Hr|]. inv_run. apply link_operation_same in Hm0 as ->.
  eexists. split_and!; [done..|]. split; [by apply observed_path_app|done].
Qed.

Lemma convert_action_reads payload a :
  reads (convert_action request stored location observed ports boundary payload a).
Proof.
  unfold convert_action. apply reads_or_return; [eauto with reads|]. intros [logical absolute].
  apply reads_bind; [eauto with reads|]. intros s. destruct a as [c|w|m].
  - unfold convert_copy. apply reads_bind; [eauto with reads|]. intros digest.
    destruct (String.eqb _ _); [apply link_to_reads|eauto with reads].
  - unfold convert_write. destruct (match payload_file _ _ with Ok _ => _ | Err _ => _ end) as [path x].
    destruct (_ && _); [apply link_to_reads|eauto with reads].
  - unfold convert_merge. eauto with reads.
Qed.

(** What holds of every operation of a plan: it is bound to what was observed,
    its links mean what the request asks for, and an unforced merge keeps the
    document it found. *)
Record converted (t : calls) (o : InstallOperation) : Prop := {
  cv_bound : bound boundary t o;
  cv_link : ∀ l, o = Link l → lk_semantics l = link_semantics request;
  cv_merge : ∀ m, o = MergeJson m → iq_force request = false →
    keeps_document (mj_precondition m) (mj_content m)
}.

Lemma convert_action_run payload a t o t' :
  targets_observed request location t observed →
  convert_action request stored location observed ports boundary payload a t = (Ret (Ok o), t') →
  converted t' o.
Proof.
  unfold convert_action. intros Ht Hr. inv_run. destruct a0 as [logical absolute]. inv_run.
  unfold snapshot_at in Hm0. destruct (dget _ observed) as [s|] eqn:Es; [|done]. injection Hm0 as <-.
  destruct (Ht _ _ Es) as (placed & Hp & Ho). rewrite Hm in Hp. injection Hp as <-. cbn in Ho.
  destruct a as [c|w|m].
  - unfold convert_copy in Hr. inv_run. destruct (String.eqb _ _).
    + apply link_to_run in Hr as (l & -> & ? & ? & ? & ?); [|done]. split; [done|congruence|done].
    + inv_run. apply copy_tree_operation_same in Hm1 as ->. by split; [split|..].
  - unfold convert_write in Hr.
    destruct (match payload_file _ _ with Ok _ => _ | Err _ => _ end) as [path x].
    destruct (_ && _).
    + apply link_to_run in Hr as (l & -> & ? & ? & ? & ?); [|done]. split; [done|congruence|done].
    + inv_run. apply write_file_operation_same in Hm0 as ->. by split; [split|..].
  - unfold convert_merge in Hr. inv_run. apply merge_json_operation_same in Hm2 as ->.
    split; [by split|done|]. intros m' [= <-] Hf. rewrite Hf in Hm1. by eapply merged_content_keeps.
Qed.

Lemma convert_all_reads payload actions done_ :
  reads (convert_all request stored location observed ports boundary payload actions done_).
Proof.
  revert done_. induction actions as [|a actions IH]; intros done_; cbn [convert_all]; [eauto with reads|].
  apply reads_or_return; [apply convert_action_reads|done].
Qed.
Lemma convert_all_run payload actions done_ t os t' :
  targets_observed request location t observed → Forall (converted t) done_ →
  convert_all request stored location observed ports boundary payload actions done_ t = (Ret (Ok os), t') →
  Forall (converted t') os.
Proof.
  revert done_ t. induction actions as [|a actions IH]; intros done_ t Ht Hd; cbn [convert_all].
  { by intros [= <- <-]. }
  intros Hr. inv_run. pose proof Hm as Hm'.
  apply (reads_run _ _ _ _ (convert_action_reads payload a)) in Hm' as (more & -> & _).
  eapply IH; [| |exact Hr].
  - intros path s Hs. destruct (Ht path s Hs) as (placed & Hp & Ho). exists placed.
    split; [done|]. by apply observed_path_app.
  - apply Forall_app. split; [|apply Forall_singleton; by eapply convert_action_run].
    eapply Forall_impl; [exact Hd|]. intros o [Hb Hk Hm']. by split; [apply bound_app|..].
Qed.
End convert.

Lemma plan_operations_reads request stored profile location boundary :
  reads (plan_operations request stored profile location boundary ports).
Proof.
  unfold plan_operations, convert_actions.
  repeat (apply reads_or_return; [|intros ?]); eauto with reads;
    [apply observe_targets_reads|apply convert_all_reads].
Qed.
Lemma plan_operations_run request stored profile location boundary t os t' :
  plan_operations request stored profile location boundary ports t = (Ret (Ok os), t') →
  Forall (converted request boundary t') os.
Proof.
  unfold plan_operations, convert_actions. intros Hr. inv_run.
  eapply convert_all_run; [|by constructor|exact Hr].
  eapply observe_targets_run; [exact Hm0|]. by intros path s.
Qed.

Lemma observe_state_reads paths : reads (observe_state paths ports).
Proof.
  unfold observe_state. apply reads_or_return; [eauto with reads|]. intros loaded.
  apply reads_bind; [eauto with reads|]. intros current.
  apply reads_or_return; [eauto with reads|]. intros s.
  destruct (ps_kind s); [destruct loaded; eauto with reads| |apply reads_result..].
  apply reads_or_return; [eauto with reads|]. intros parsed.
  destruct loaded; [|apply reads_result]. destruct (state_py_eq _ _); eauto with reads.
Qed.
(** The state a snapshot of its file holds. *)
Definition state_of (path : string) (s : PathSnapshot) (state : InstallState) : Prop :=
  match ps_kind s with
  | PABSENT => state = MkState 2 []
  | PFILE => ∃ parsed, parse_install_state (ps_content s) path = Ret (Ok parsed)
                       ∧ state_py_eq state parsed = true
  | _ => False
  end.
Lemma observe_state_run paths t current s t' :
  observe_state paths ports t = (Ret (Ok (current, s)), t') →
  observed_path t' (sp_destination_path paths) s ∧ state_of (sp_destination_path paths) s current.
Proof.
  unfold observe_state, state_of. intros Hr. inv_run. apply inspect_path_run in Hm1 as [-> Hs].
  destruct (ps_kind _) eqn:Ek.
  - destruct a as [state|]; inversion Hr; subst. split; [done|]. rewrite Ek. by injection Hm0 as <-.
  - inv_run. destruct a as [state|]; [|by inversion Hr].
    destruct (state_py_eq _ _) eqn:Ee; inversion Hr; subst. split; [done|]. rewrite Ek.
    injection Hm0 as <-. eauto.
  - by inversion Hr.
  - by inversion Hr.
  - by inversion Hr.
Qed.

Lemma load_object_reads request item store_paths : reads (load_object request item store_paths ports).
Proof.
  unfold load_object. apply reads_bind; [eauto with reads|]. intros wanted.
  apply reads_or_return; [eauto with reads|]. intros [stored|]; [|apply reads_result].
  case_bool_decide; cbn [negb]; [|apply reads_result]. eauto with reads.
Qed.
Lemma load_object_run request item store_paths t stored t' :
  load_object request item store_paths ports t = (Ret (Ok stored), t') →
  let digest := ia_object_digest (ma_artifact (mi_artifact item)) in
  object_read_request store_paths digest = Ret (MkReadRequest store_paths digest)
  ∧ ob_digest (so_candidate stored) = digest
  ∧ validate_object_evidence stored (ma_artifact (mi_artifact item)) = Ret (Ok tt)
  ∧ ∃ t0, rp_read_object ports t0 (MkReadRequest store_paths digest) = Ok (Some stored).
Proof.
  unfold load_object. intros Hr. inv_run.
  assert (a = MkReadRequest store_paths (ia_object_digest (ma_artifact (mi_artifact item)))) as ->.
  { unfold object_read_request in Hm. by inv_py. }
  apply call_inv in Hm0 as [Ha ->]. destruct a0 as [found|]; [|by inversion Hr].
  case_bool_decide as Hd; cbn [negb] in Hr; [|by inversion Hr]. inv_run.
  destruct a. split_and!; [done..|]. eauto.
Qed.

(** * The plan *)

Lemma plan_review_value_with p d : plan_review_value (with_review p d) = plan_review_value p.
Proof. done. Qed.

#[local] Opaque sha256_bytes json_digest canonical_json_bytes.

Lemma plan_invalid_with p safe d :
  valid_digest d = true → plan_invalid p safe = false → plan_invalid (with_review p d) safe = false.
Proof.
  intros Hd. unfold plan_invalid. cbv zeta. intros Hp.
  repeat match goal with H : _ || _ = false |- _ => apply orb_false_iff in H as [H ?] end.
  repeat (apply orb_false_iff; split); try assumption.
  cbn [forallb with_review ip_review_digest ip_trust_evidence_digest ip_policy_digest
       ip_source_snapshot_digest ip_object_digest ip_replacement_state_digest] in *.
  rewrite Hd. apply negb_false_iff.
  match goal with H : negb (valid_digest _ && _) = false |- _ => apply negb_false_iff in H; rename H into Hv end.
  repeat match goal with H : _ && _ = true |- _ => apply andb_true_iff in H as [? H] end.
  by repeat match goal with H : valid_digest _ = true |- _ => rewrite H; clear H end.
Qed.

(** A plan that was not reviewed is completed with its review digest, and is
    then a valid plan. *)
Lemma install_plan_unreviewed p plan :
  install_plan p = Ret plan → ip_review_digest p = unreviewed_digest →
  plan = with_review p (json_digest (plan_review_value p)) ∧ install_plan plan = Ret plan.
Proof.
  unfold install_plan at 1. intros Hr Hp.
  apply bind_Ret in Hr as (? & Hp1 & Hr). apply bind_Ret in Hr as (? & Hp2 & Hr).
  apply bind_Ret in Hr as (? & Hp3 & Hr). apply bind_Ret in Hr as (safe & Hp4 & Hr). cbv zeta in Hr.
  apply bind_Ret in Hr as (? & Hp5%raise_if_Ret & Hr). rewrite bool_decide_true in Hr by done.
  injection Hr as <-. split; [done|]. apply orb_false_iff in Hp5 as [Hv _].
  set (d := json_digest (plan_review_value p)).
  pose proof (plan_invalid_with p safe d (json_digest_valid _) Hv) as Hw.
  unfold install_plan. rewrite plan_review_value_with. fold d.
  change (ip_object_root (with_review p d)) with (ip_object_root p).
  change (ip_state_path (with_review p d)) with (ip_state_path p).
  change (ip_state_lock_path (with_review p d)) with (ip_state_lock_path p).
  change (mutable_root_is_safe (with_review p d)) with (mutable_root_is_safe p).
  change (ip_review_digest (with_review p d)) with d.
  rewrite Hp1, Hp2, Hp3, Hp4. cbn [mbind py_bind]. rewrite Hw. cbn [orb].
  assert (mem d [unreviewed_digest; d] = true) as -> by (apply mem_true; right; left).
  cbn [negb raise_if mbind py_bind]. by destruct (bool_decide (d = unreviewed_digest)).
Qed.

(** The draft of a plan, before its review digest. *)
Definition draft (request : InstallRequest) (item : MarketplaceItem) (effective : EffectiveConfiguration)
    (store_paths : ObjectStorePaths) (stored : StoredObject) (operations : list InstallOperation)
    (paths : InstallStatePaths) (state_snapshot : PathSnapshot) (source : SourceEvidence)
    (artifact : ArtifactEvidence) (next : InstallState) (provenance : option InstallProvenance)
    (digest : ObjectDigest) (age : Z) : InstallPlan :=
  MkInstallPlan request (mi_coordinate item) source (health_value (vw_health (mi_source item)))
    age digest artifact (trust_value (td_kind (mi_trust item))) (td_evidence_digest (mi_trust item))
    (sha256_bytes (organization_policy_bytes (ec_policy effective))) store_paths
    (so_candidate stored) (so_root stored) (ob_digest (so_candidate stored)) provenance
    operations (sp_destination_path paths) (sp_lock_path paths) state_snapshot
    next (sha256_bytes (install_state_bytes next)) (install_reference_owner request item)
    unreviewed_digest.

(** What a prepared plan was made from. *)
Record prepared (request : InstallRequest) (catalog : MarketplaceCatalog)
    (effective : EffectiveConfiguration) (store_paths : ObjectStorePaths) (t' : calls)
    (item : MarketplaceItem) (configured : ConfiguredSource) (source_id : SourceId) (revision : string)
    (digest : ObjectDigest) (age : Z) (stored : StoredObject) (current : InstallState)
    (source : SourceEvidence) (artifact : ArtifactEvidence) (provenance : option InstallProvenance)
    (plan : InstallPlan) : Prop := {
  pr_query : ∃ query, artifact_query (iq_identity request) (iq_source request) (iq_version request) = Ret query
             ∧ resolve_artifact catalog query (iq_offline request) = Ok item;
  pr_configured : find_configured_source effective (vw_alias (mi_source item)) = Some configured;
  pr_facts : source_facts (mi_source item) = Some (source_id, revision, digest, age);
  pr_checked : check_request request item configured effective = Ret (Ok tt);
  pr_object : ob_digest (so_candidate stored) = ia_object_digest (ma_artifact (mi_artifact item))
    ∧ validate_object_evidence stored (ma_artifact (mi_artifact item)) = Ret (Ok tt)
    ∧ object_read_request store_paths (ia_object_digest (ma_artifact (mi_artifact item)))
      = Ret (MkReadRequest store_paths (ia_object_digest (ma_artifact (mi_artifact item))))
    ∧ ∃ t0, rp_read_object ports t0
              (MkReadRequest store_paths (ia_object_digest (ma_artifact (mi_artifact item))))
            = Ok (Some stored);
  pr_operations : Forall (converted request
      (match iq_mutable_local_payload_root request with
       | Some _ => cs_location configured | None => so_root stored end) t') (ip_operations plan);
  pr_state : observed_path t' (ip_state_path plan) (ip_state_precondition plan);
  pr_current : state_of (ip_state_path plan) (ip_state_precondition plan) current;
  pr_conflicts : conflicts (ip_operations plan) current request (mi_coordinate item) = [];
  pr_evidence : install_evidence (mi_source item) source_id revision configured
                  (ma_artifact (mi_artifact item)) = Ret (source, artifact);
  pr_next : replacement_state current request (mi_coordinate item) source artifact (ip_operations plan)
            = Ret (Ok (ip_replacement_state plan));
  pr_provenance : evidence_provenance (ma_artifact (mi_artifact item)) = Ret (Ok provenance);
  pr_draft : ∃ paths d, plan = with_review (draft request item effective store_paths stored
               (ip_operations plan) paths (ip_state_precondition plan) source artifact
               (ip_replacement_state plan) provenance digest age) d;
  pr_review : ip_review_digest plan = json_digest (plan_review_value plan);
  pr_valid : install_plan plan = Ret plan
}.

Lemma prepare_install_run request catalog effective profile location store_paths t plan t' :
  prepare_install request catalog effective profile location store_paths ports t = (Ret (Ok plan), t') →
  ∃ item configured source_id revision digest age stored current source artifact provenance,
    prepared request catalog effective store_paths t' item configured source_id revision digest age stored
      current source artifact provenance plan.
Proof.
  unfold prepare_install. intros Hr. inv_run.
  rename a into query, a0 into item, Hm into Hq, Hm0 into Hi.
  destruct (find_configured_source _ _) as [configured|] eqn:Ec; [|by inversion Hr].
  destruct (source_facts _) as [[[[source_id revision] digest] age]|] eqn:Ef; [|by inversion Hr].
  inv_run. destruct a. unfold prepare_item in Hr. inv_run.
  rename a into stored, a0 into operations, a1 into paths. destruct a2 as [current snapshot].
  destruct (conflicts _ _ _ _) eqn:Eq; [|by inversion Hr]. inv_run. destruct a as [source artifact]. inv_run.
  rename a into next, a0 into provenance.
  apply or_value_error_Ok in Hm4; [|by intros; eexists]. apply or_value_error_Ok in Hr; [|by intros; eexists].
  apply load_object_run in Hm0 as (Hread & Hdigest & Hobject & Hstored).
  apply plan_operations_run in Hm1.
  pose proof (reads_run _ _ _ _ (observe_state_reads paths) Hm3) as (more & -> & _).
  apply observe_state_run in Hm3 as [Hstate Hcurrent].
  apply install_plan_unreviewed in Hr as [-> Hvalid]; [|done].
  exists item, configured, source_id, revision, digest, age, stored, current, source, artifact, provenance.
  split; try done.
  - eauto.
  - eapply Forall_impl; [exact Hm1|]. intros o [Hb Hk Hmrg]. by split; [apply bound_app|..].
  - by exists paths; eexists.
Qed.

Lemma prepare_install_reads request catalog effective profile location store_paths :
  reads (prepare_install request catalog effective profile location store_paths ports).
Proof.
  unfold prepare_install. apply reads_bind; [eauto with reads|]. intros query.
  apply reads_or_return; [apply reads_result|]. intros item.
  destruct (find_configured_source _ _) as [configured|]; [|apply reads_result].
  destruct (source_facts _) as [[[[source_id revision] digest] age]|]; [|apply reads_result].
  apply reads_or_return; [eauto with reads|]. intros _. unfold prepare_item.
  apply reads_or_return; [apply load_object_reads|]. intros stored.
  apply reads_or_return; [apply plan_operations_reads|]. intros operations.
  apply reads_bind; [eauto with reads|]. intros paths.
  apply reads_or_return; [apply observe_state_reads|]. intros [current snapshot].
  destruct (conflicts _ _ _ _); [|apply reads_result].
  apply reads_or_return; [eauto with reads|]. intros [source artifact]. eauto with reads.
Qed.

(** What an unforced operation may replace: nothing, what it would put there, a
    document of which it keeps every entry, a memory whose blocks are all
    recorded, or what was installed before. *)
Definition may_replace (current : InstallState) (request : InstallRequest)
    (coordinate : ArtifactCoordinate) (o : InstallOperation) : Prop :=
  let there := op_precondition o in
  ps_kind there = PABSENT ∨ operation_is_current o = true
  ∨ (∃ m, o = MergeJson m ∧ keeps_document there (mj_content m))
  ∨ (∃ w, o = WriteFile w ∧ wo_effect_kind w = "managed-block"
          ∧ shared_managed_memory_is_current current request (wo_destination w) there = true)
  ∨ ∃ previous, previous_effect current request coordinate (op_destination o) = Some previous
      ∧ previous_owns previous there = true.

Lemma not_conflicting current request coordinate o :
  (∀ m, o = MergeJson m → keeps_document (mj_precondition m) (mj_content m)) →
  conflicting current request coordinate o = false → may_replace current request coordinate o.
Proof.
  intros Hmerge. unfold conflicting, may_replace. cbv zeta. case_bool_decide as Hk; [by left|]. cbn [orb].
  destruct (operation_is_current o) eqn:Ec; [by right; left|]. intros Hc. do 2 right.
  assert ((∃ previous, previous_effect current request coordinate (op_destination o) = Some previous
             ∧ previous_owns previous (op_precondition o) = true)
          ∨ match previous_effect current request coordinate (op_destination o) with
            | Some previous => negb (previous_owns previous (op_precondition o)) | None => true end = true)
    as [Hp|Hp].
  { destruct (previous_effect _ _ _ _) as [previous|]; [|by right].
    destruct (previous_owns _ _) eqn:Eo; [left; eauto|by right]. }
  { by right; right. }
  destruct o as [c|w|l|m]; [cbn in *; congruence| |cbn in *; congruence|left; eexists; split; [done|by apply Hmerge]].
  destruct (_ && shared_managed_memory_is_current _ _ _ _) eqn:Es; [|cbn in *; congruence].
  apply andb_true_iff in Es as [Hw%String.eqb_eq Hs]. right. left. eauto.
Qed.

Lemma conflicts_nil operations current request coordinate :
  iq_force request = false →
  (∀ m, MergeJson m ∈ operations → keeps_document (mj_precondition m) (mj_content m)) →
  conflicts operations current request coordinate = [] →
  Forall (may_replace current request coordinate) operations.
Proof.
  unfold conflicts. intros -> Hm Hc%map_nil_iff. apply Forall_forall. intros o Ho.
  apply not_conflicting; [by intros m ->; apply Hm|].
  destruct (conflicting _ _ _ o) eqn:E; [|done].
  assert (o ∈ @nil InstallOperation) as []%elem_of_nil.
  rewrite <-Hc. apply list_elem_of_In, List.filter_In. by rewrite <-list_elem_of_In.
Qed.

(** * What the record of the plan says *)

(** The effect recorded for an operation: where it was recorded before with the
    same kind, what its first installation created stays recorded as created. *)
Definition records (prior : option InstallationRecord) (o : InstallOperation) (e : EffectProof) : Prop :=
  ∃ p, proof o = Ret p ∧ effect_locator e = effect_locator p ∧ ef_kind e = ef_kind p
    ∧ ef_installed_digest e = ef_installed_digest p
    ∧ (ef_created_destination e = true →
         ps_kind (op_precondition o) = PABSENT
         ∨ ∃ r previous, prior = Some r ∧ previous ∈ in_effects r
             ∧ effect_locator previous = effect_locator p ∧ ef_created_destination previous = true).

Lemma proof_created o p :
  proof o = Ret p → ef_created_destination p = bool_decide (ps_kind (op_precondition o) = PABSENT).
Proof. unfold proof. intros Hp%effect_proof_same. subst p. by destruct o. Qed.

Lemma dict_of_sub {K V} `{EqDecision K} (items : list (K * V)) k v :
  dget k (dict_of items) = Some v → (k, v) ∈ items.
Proof.
  unfold dict_of. assert (∀ d, dget k (foldl (λ d kv, dset kv.1 kv.2 d) d items) = Some v →
                            dget k d = Some v ∨ (k, v) ∈ items) as Hall.
  { induction items as [|[k' v'] items IH]; intros d Hd; cbn in Hd; [by left|].
    destruct (IH _ Hd) as [Hg|Hin]; [|right; by right]. cbn in Hg.
    destruct (decide (k = k')) as [->|Hne].
    - rewrite dget_dset_eq in Hg. injection Hg as ->. right. left.
    - rewrite dget_dset_ne in Hg by done. by left. }
  intros Hg. by destruct (Hall [] Hg).
Qed.

Lemma with_history_records prior o p e :
  proof o = Ret p →
  with_history (match prior with
                | Some r => dict_of (map (λ e, (effect_locator e, e)) (in_effects r)) | None => [] end) p
    = Ret e → records prior o e.
Proof.
  intros Hp He. pose proof (proof_created _ _ Hp) as Hc. unfold with_history in He.
  destruct (dget _ _) as [previous|] eqn:Eg.
  - destruct prior as [r|]; [|done].
    assert (previous ∈ in_effects r ∧ effect_locator previous = effect_locator p) as [Hin Hl].
    { apply dict_of_sub, list_elem_of_fmap in Eg as (x & [Hl ->]%pair_eq & Hx). done. }
    destruct (String.eqb_spec (ef_kind previous) (ef_kind p)) as [Hk|Hk].
    + apply effect_proof_same in He as ->. exists p. split_and!; try done. cbn. intros Hcr. right. eauto 10.
    + injection He as <-. exists p. split_and!; try done. rewrite Hc. intros Hcr%bool_decide_eq_true. by left.
  - injection He as <-. exists p. split_and!; try done. rewrite Hc. intros Hcr%bool_decide_eq_true. by left.
Qed.

Lemma replacement_state_spec current request coordinate source artifact operations next :
  replacement_state current request coordinate source artifact operations = Ret (Ok next) →
  ∃ record, installation_record record = Ret record
    ∧ in_source record = source ∧ in_artifact record = artifact
    ∧ in_profile record = iq_profile request ∧ in_scope record = iq_scope request
    ∧ Forall2 (records (previous_record current request coordinate)) operations (in_effects record)
    ∧ install_state 2 (st_installations next) = Ret next
    ∧ (∀ r, r ∈ st_installations next ↔
         r = record ∨ (r ∈ st_installations current ∧ installation_key r ≠ installation_key record)).
Proof.
  unfold replacement_state. intros Hr. apply bind_Ret in Hr as (effects & He & Hr).
  apply or_value_error_Ok in Hr; [|by intros; eexists].
  apply bind_Ret in Hr as (record & Hrecord & Hr).
  pose proof (installation_record_same _ _ Hrecord) as ->. eexists.
  pose proof (install_state_valid _ _ _ Hr) as [Hv Hp].
  assert (st_schema_version next = 2) as Hs.
  { unfold install_state in Hr. by inv_py. }
  rewrite Hs in Hv. split_and!; [exact Hrecord|done..| |exact Hv|].
  - cbn [in_effects]. apply mapM_Ret in He. eapply Forall2_impl; [exact He|]. intros o e Hoe.
    apply bind_Ret in Hoe as (p & Hproof & Hh). by eapply with_history_records.
  - intros r. rewrite Hp, elem_of_app, list_elem_of_singleton, list_elem_of_In, List.filter_In, <-list_elem_of_In.
    rewrite negb_true_iff, bool_decide_eq_false. split.
    + intros [[Hin Hk]| ->]; [right; done|by left].
    + intros [->|[Hin Hk]]; [by right|by left].
Qed.

(** What a plan prepared for a request is bound to. *)
Record bound_plan (request : InstallRequest) (t' : calls) (plan : InstallPlan) : Prop := {
  bp_request : ip_request plan = request;
  bp_valid : install_plan plan = Ret plan;
  bp_review : ip_review_digest plan = json_digest (plan_review_value plan);
  bp_destinations : ∀ o, o ∈ ip_operations plan →
    EInspectPath (op_absolute_destination o) (Ok (op_precondition o)) ∈ t';
  bp_links : ∀ l, Link l ∈ ip_operations plan →
    ∃ boundary, EInspectLink (lk_target l) boundary (Ok (lk_target_precondition l)) ∈ t';
  bp_state : EInspectPath (ip_state_path plan) (Ok (ip_state_precondition plan)) ∈ t';
  bp_record : ∃ current record,
    state_of (ip_state_path plan) (ip_state_precondition plan) current
    ∧ (iq_force request = false →
       Forall (may_replace current request (ip_coordinate plan)) (ip_operations plan))
    ∧ in_source record = ip_source plan ∧ in_artifact record = ip_artifact plan
    ∧ Forall2 (records (previous_record current request (ip_coordinate plan))) (ip_operations plan)
        (in_effects record)
    ∧ ∀ r, r ∈ st_installations (ip_replacement_state plan) ↔
        r = record ∨ (r ∈ st_installations current ∧ installation_key r ≠ installation_key record)
}.

Lemma prepare_install_bound_plan request catalog effective profile location store_paths t plan t' :
  prepare_install request catalog effective profile location store_paths ports t = (Ret (Ok plan), t') →
  bound_plan request t' plan.
Proof.
  intros E. apply prepare_install_run in E
    as (item & configured & source_id & revision & digest & age & stored & current & source & artifact
        & provenance & Hp).
  destruct (pr_draft _ _ _ _ _ _ _ _ _ _ _ _ _ _ _ _ _ Hp) as (paths & d & Hplan).
  destruct (replacement_state_spec _ _ _ _ _ _ _ (pr_next _ _ _ _ _ _ _ _ _ _ _ _ _ _ _ _ _ Hp))
    as (record & _ & Hs & Ha & _ & _ & Hrec & _ & Hall).
  pose proof (pr_operations _ _ _ _ _ _ _ _ _ _ _ _ _ _ _ _ _ Hp) as Hops. rewrite Forall_forall in Hops.
  assert (ip_coordinate plan = mi_coordinate item ∧ ip_source plan = source ∧ ip_artifact plan = artifact
          ∧ ip_request plan = request) as (Hcoord & Hsrc & Hart & Hreq) by by rewrite Hplan.
  split; [done|apply Hp..| | | |].
  - intros o Ho. by destruct (Hops o Ho) as [[[]] _ _].
  - intros l Hl. destruct (Hops _ Hl) as [[_ [Hin _]] _ _]. eauto.
  - apply (pr_state _ _ _ _ _ _ _ _ _ _ _ _ _ _ _ _ _ Hp).
  - exists current, record. rewrite Hcoord, Hsrc, Hart. split_and!; [apply Hp| |done..].
    intros Hf. apply conflicts_nil; [done| |apply Hp]. intros m Hm. by apply (Hops _ Hm).
Qed.

End prepare.

(** * A prepared plan is applied *)

Section applies.
Context `{UnicodeData} `{DecodeErrors} `{IpAddress} `{SetupProtocol} `{WorkingDirectory}.

(** Nothing changes between two questions. *)
Record stable (ports : InstallReadPorts) : Prop := {
  sb_object : ∀ t t' request, rp_read_object ports t request = rp_read_object ports t' request;
  sb_path : ∀ t t' path, rp_inspect_path ports t path = rp_inspect_path ports t' path;
  sb_link : ∀ t t' path boundary,
    rp_inspect_link_target ports t path boundary = rp_inspect_link_target ports t' path boundary
}.

Lemma artifact_evidence_py_eq_refl a : artifact_evidence_py_eq a a = true.
Proof.
  unfold artifact_evidence_py_eq, same_precedence. by rewrite !bool_decide_true.
Qed.

Lemma filter_finer {A} (p q : A → bool) l x :
  List.filter p l = [x] → (∀ y, q y = true → p y = true) → q x = true → List.filter q l = [x].
Proof.
  intros Hp Hqp Hq.
  assert (List.filter q l = List.filter q (List.filter p l)) as ->.
  { clear Hp Hq. induction l as [|y l IH]; [done|]. cbn. destruct (q y) eqn:E.
    - rewrite (Hqp y E). cbn. by rewrite E, IH.
    - destruct (p y); cbn; [rewrite E|]; done. }
  rewrite Hp. cbn. by rewrite Hq.
Qed.

(** The item of a query is the item of its own coordinate. *)
Lemma resolve_artifact_again catalog query offline offline' item :
  resolve_artifact catalog query offline = Ok item →
  let c := mi_coordinate item in
  item ∈ ct_items catalog
  ∧ resolve_artifact catalog (MkQuery (co_artifact c) (Some (co_source c)) (co_version c)) offline' = Ok item
  ∧ co_artifact c = aq_identity query.
Proof.
  unfold resolve_artifact. intros Hr.
  destruct (List.filter (query_matches query) (ct_items catalog)) as [|x [|y l]] eqn:E; [done| |done].
  injection Hr as ->. cbv zeta.
  assert (query_matches query item = true ∧ item ∈ ct_items catalog) as [Hm Hin].
  { assert (item ∈ List.filter (query_matches query) (ct_items catalog)) as Hin by (rewrite E; left).
    apply list_elem_of_In, List.filter_In in Hin as [??]. split; [done|]. by apply list_elem_of_In. }
  pose proof Hm as Hm'. unfold query_matches in Hm'.
  apply andb_true_iff in Hm' as [Hm' Hv]. apply andb_true_iff in Hm' as [Hm' Hs].
  apply andb_true_iff in Hm' as [Hav Hi]. apply bool_decide_eq_true in Hi.
  split; [done|]. split; [|done].
  rewrite (filter_finer (query_matches query) _ _ item E); [done| |].
  - intros z. unfold query_matches. cbn [aq_identity aq_source aq_version].
    rewrite !andb_true_iff, !bool_decide_eq_true. intros [[[-> Hz] Hzs] Hzv].
    rewrite <-Hi. split_and!; [done|done| |].
    + destruct (aq_source query); [|done]. by rewrite Hzs.
    + destruct (aq_version query) as [v|]; [|done]. apply bool_decide_eq_true in Hv. rewrite Hv in Hzv.
      apply bool_decide_eq_true. by apply bool_decide_eq_true in Hzv.
  - unfold query_matches. cbn. rewrite Hav. by rewrite !bool_decide_true by done; destruct (co_version _).
Qed.

Context (ports : InstallApplyPorts).

(** The view of a local source has the location of its configuration. *)
Definition local_origins (catalog : MarketplaceCatalog) (effective : EffectiveConfiguration) : Prop :=
  ∀ x configured, x ∈ ct_items catalog →
    find_configured_source effective (vw_alias (mi_source x)) = Some configured →
    cs_kind configured = SOURCE_LOCAL → vw_origin (mi_source x) = cs_location configured.

(** A marketplace that was built has such views. *)
Lemma built_local_origins graph effective states catalog :
  NoDup (map cs_alias (uc_sources (ec_configuration effective))) →
  consistent graph effective states → built graph effective states catalog → local_origins catalog effective.
Proof.
  intros Hd Hc Hb x configured Hx Hf Hk.
  destruct (bc_bound _ _ _ _ Hb x Hx) as ((s & Hs & Hv)%(bc_sources _ _ _ _ Hb) & _ & _).
  unfold find_configured_source in Hf. apply List.find_some in Hf as [Hin Hp].
  apply andb_true_iff in Hp as [Halias%bool_decide_eq_true _]. apply list_elem_of_In in Hin.
  rewrite (source_view_alias _ _ _ Hv) in Halias.
  destruct (cn_states _ _ _ Hc) as [_ Hm]. rewrite Forall_forall in Hm. specialize (Hm s Hs).
  apply dict_of_sub, list_elem_of_fmap in Hm as (c & [Ha Hmc]%pair_eq & Hc').
  apply list_elem_of_In, List.filter_In in Hc' as [Hc'%list_elem_of_In _].
  assert (c = configured) as ->.
  { apply list_elem_of_lookup in Hin as [i Hi], Hc' as [j Hj].
    assert (map cs_alias (uc_sources (ec_configuration effective)) !! i = Some (state_alias s)
            ∧ map cs_alias (uc_sources (ec_configuration effective)) !! j = Some (state_alias s)) as [Hi' Hj'].
    { rewrite !list_lookup_fmap, Hi, Hj. cbn. by rewrite Halias, Ha. }
    pose proof (NoDup_lookup _ _ _ _ Hd Hi' Hj') as ->. congruence. }
  assert (state_origin s = Ret (cs_location configured)) as Ho
    by (unfold state_origin; by rewrite Hmc, bool_decide_true).
  unfold source_view in Hv. rewrite Ho in Hv. cbn [mbind py_bind] in Hv. cbv zeta in Hv. unfold marketplace_source_view in Hv.
  by apply bind_Ret in Hv as (? & _ & [= <-]).
Qed.

(** A request for mutable links is for a local source. *)
Lemma mutable_source_local request item configured effective :
  check_request request item configured effective = Ret (Ok tt) →
  iq_mutable_local_payload_root request ≠ None → cs_kind configured = SOURCE_LOCAL.
Proof.
  unfold check_request. intros (within & Hw & Hr)%bind_Ret Hroot. unfold within_source in Hw.
  destruct (iq_mutable_local_payload_root request); [|done]. case_bool_decide; [done|].
  injection Hw as <-. done.
Qed.

Section plan.
Context (request : InstallRequest) (catalog : MarketplaceCatalog) (effective : EffectiveConfiguration)
  (store_paths : ObjectStorePaths) (t' : calls) (item : MarketplaceItem) (configured : ConfiguredSource)
  (source_id : SourceId) (revision : string) (digest : ObjectDigest) (age : Z) (stored : StoredObject)
  (current : InstallState) (source : SourceEvidence) (artifact : ArtifactEvidence)
  (provenance : option InstallProvenance) (plan : InstallPlan).
Hypothesis Hp : prepared (ap_read ports) request catalog effective store_paths t' item configured source_id
  revision digest age stored current source artifact provenance plan.
Hypothesis Hversions : ∀ x, x ∈ ct_items catalog → wf_semver (ia_version (ma_artifact (mi_artifact x))) = true.

(** The coordinate of the plan is a query that finds the item. *)
Lemma plan_query offline :
  let c := mi_coordinate item in
  artifact_query (co_artifact c) (Some (co_source c)) (co_version c)
    = Ret (MkQuery (co_artifact c) (Some (co_source c)) (co_version c))
  ∧ resolve_artifact catalog (MkQuery (co_artifact c) (Some (co_source c)) (co_version c)) offline = Ok item.
Proof.
  destruct Hp as [(query & Hq & Hr) _ _ _ _ _ _ _ _ He _ _ (paths & d & Hd) _ Hv].
  destruct (resolve_artifact_again _ _ _ offline _ Hr) as (Hin & Hres & Hi). cbv zeta. split; [|done].
  unfold artifact_query in Hq. apply bind_Ret in Hq as (? & Hg%raise_if_Ret & Hq). injection Hq as Hq.
  assert (aq_identity query = iq_identity request) as Hqi by by rewrite <-Hq.
  rewrite <-Hqi, <-Hi in Hg. apply orb_false_iff in Hg as [Hg _]. apply orb_false_iff in Hg as [Hg _].
  unfold install_evidence in He. apply bind_Ret in He as (s & Hs & He).
  apply bind_Ret in He as (a & Ha & He). injection He as -> ->.
  assert (co_source (mi_coordinate item) = se_alias source) as Hsrc.
  { rewrite Hd in Hv. unfold install_plan in Hv.
    repeat (apply bind_Ret in Hv as (? & ? & Hv)).
    match goal with H : raise_if (plan_invalid _ _ || _) _ = Ret _ |- _ =>
      apply raise_if_Ret, orb_false_iff in H as [Hinv _] end.
    unfold plan_invalid in Hinv. cbv zeta in Hinv.
    repeat (apply orb_false_iff in Hinv as [Hinv _]).
    by apply negb_false_iff, bool_decide_eq_true in Hinv. }
  assert (fullmatch slug_re (alias_value (co_source (mi_coordinate item))) = true) as Hslug.
  { rewrite Hsrc. unfold source_evidence in Hs. apply bind_Ret in Hs as (? & Hsl%raise_if_Ret & Hs).
    apply bind_Ret in Hs as (? & _ & Hs). injection Hs as <-.
    apply orb_false_iff in Hsl as [Hsl _]. apply orb_false_iff in Hsl as [Hsl _].
    by apply negb_false_iff in Hsl. }
  unfold artifact_query. rewrite Hg, Hslug. cbn [negb orb].
  assert (parse_semver (semver_str (ia_version (ma_artifact (mi_artifact item)))) None
          = Ok (ia_version (ma_artifact (mi_artifact item)))) as Hparse.
  { apply parse_semver_exact. auto. }
  unfold mi_coordinate, ma_coordinate. cbn [co_version]. by rewrite Hparse.
Qed.

(** The boundary that preparing checked the links against is the one that
    finalizing uses. *)
Lemma plan_boundary :
  local_origins catalog effective →
  match iq_mutable_local_payload_root request with Some _ => cs_location configured | None => so_root stored end
  = if String.eqb (link_semantics request) "mutable-local" then se_origin (ip_source plan)
    else ip_object_root plan.
Proof.
  destruct (plan_query false) as [_ Hr].
  destruct Hp as [_ Hc _ Hck _ _ _ _ _ He _ _ (paths & d & Hd) _ _]. intros Hlocal.
  assert (ip_object_root plan = so_root stored ∧ ip_source plan = source) as [-> ->] by by rewrite Hd.
  unfold link_semantics. destruct (iq_mutable_local_payload_root request) as [root|] eqn:Hroot; [|done].
  change (String.eqb "mutable-local" "mutable-local") with true. cbn iota.
  unfold install_evidence in He. apply bind_Ret in He as (s & Hs & He).
  apply bind_Ret in He as (a & _ & He). injection He as -> _.
  unfold source_evidence in Hs. apply bind_Ret in Hs as (? & _ & Hs). apply bind_Ret in Hs as (? & _ & Hs).
  injection Hs as <-. cbn [se_origin]. symmetry. apply Hlocal; [|done|].
  - destruct (resolve_artifact_again _ _ _ false _ Hr) as [Hin _]. exact Hin.
  - eapply mutable_source_local; [exact Hck|congruence].
Qed.

Lemma plan_is_current : marketplace_precondition_is_current plan catalog effective = Ret true.
Proof.
  destruct (plan_query false) as [Hq Hr].
  destruct Hp as [_ Hc Hf _ _ _ _ _ _ He _ Hprov (paths & d & Hd) _ _].
  unfold marketplace_precondition_is_current.
  assert (ip_policy_digest plan = sha256_bytes (organization_policy_bytes (ec_policy effective))
          ∧ ip_coordinate plan = mi_coordinate item
          ∧ ip_source plan = source ∧ ip_artifact plan = artifact ∧ ip_provenance plan = provenance
          ∧ ip_source_health plan = health_value (vw_health (mi_source item))
          ∧ ip_source_snapshot_digest plan = digest
          ∧ ip_trust plan = trust_value (td_kind (mi_trust item))
          ∧ ip_trust_evidence_digest plan = td_evidence_digest (mi_trust item))
    as (-> & Hcoord & Hs & Ha & Hpr & Hh & Hsd & Ht & Hte) by by rewrite Hd.
  rewrite bool_decide_true by done. cbn [negb]. rewrite Hcoord. cbv zeta in *. rewrite Hq.
  cbn [mbind py_bind]. rewrite Hr, Hc. unfold source_facts in Hf.
  destruct (vw_source_id (mi_source item)); [|discriminate Hf].
  destruct (vw_resolved_revision (mi_source item)); [|discriminate Hf].
  destruct (vw_snapshot_digest (mi_source item)); [|discriminate Hf].
  destruct (vw_age_seconds (mi_source item)); [|discriminate Hf].
  injection Hf as -> -> -> ->.
  assert (item_is_current plan item digest = true) as ->.
  { unfold item_is_current. rewrite Hh, Hsd, Ht, Hte. rewrite !andb_true_iff, !bool_decide_eq_true.
    split_and!; [|done|by apply String.eqb_refl|done].
    case_bool_decide as Hdeg; [|done]. by rewrite Hdeg. }
  unfold evidence_is_current. cbv zeta. rewrite He. cbn [or_value_error mbind py_bind].
  rewrite Hs, Ha, Hcoord, Hpr, artifact_evidence_py_eq_refl, (bool_decide_true (source = source)),
    (bool_decide_true (mi_coordinate item = mi_coordinate item)) by done.
  cbn [negb orb]. rewrite Hprov. cbn [mbind py_bind]. by rewrite bool_decide_true.
Qed.
End plan.

Lemma changed_operation_stable plan operations t :
  stable (ap_read ports) →
  Forall (λ o, (∃ t0, rp_inspect_path (ap_read ports) t0 (op_absolute_destination o) = Ok (op_precondition o))
               ∧ ∀ l, o = Link l →
                   ∃ t0, rp_inspect_link_target (ap_read ports) t0 (lk_target l)
                           (if String.eqb (lk_semantics l) "mutable-local" then se_origin (ip_source plan)
                            else ip_object_root plan)
                         = Ok (lk_target_precondition l)) operations →
  ∃ seen, changed_operation plan operations (ap_read ports) t = (Ret (Ok None), t ++ seen).
Proof.
  intros Hst Hall. revert t. induction Hall as [|o operations [[t0 Ho] Hl] _ IH]; intros t.
  { exists []. by rewrite app_nil_r. }
  assert (∃ more, link_is_current plan o (ap_read ports) t = (Ret (Ok true), t ++ more)) as (more & Hm).
  { destruct o as [| |l|]; [exists []; by rewrite app_nil_r..| |exists []; by rewrite app_nil_r].
    destruct (Hl l eq_refl) as (t1 & Hl1). cbn [link_is_current]. eexists.
    unfold or_return, inspect_link_target, call, mbind, st_bind. cbv zeta.
    rewrite (sb_link _ Hst t t1), Hl1. cbn. by rewrite bool_decide_true. }
  destruct (IH (t ++ more ++ [EInspectPath (op_absolute_destination o) (Ok (op_precondition o))]))
    as (seen & Hseen).
  eexists. cbn [changed_operation]. rewrite (or_return_run _ _ _ _ _ Hm). cbn [negb].
  unfold or_return at 1, inspect_path, call, mbind at 1, st_bind at 1.
  rewrite (sb_path _ Hst _ t0), Ho, bool_decide_true by done.
  rewrite <-app_assoc in *. rewrite Hseen. by rewrite <-!app_assoc.
Qed.

(** C7: when no port answers differently between two questions and the catalog
    and the configuration are the same, a prepared plan that is finalized with
    its own review digest is applied, whatever was done in between; with links
    into the object store as well as with mutable links into a local source.
    The versions of the catalog are those the constructor of a version accepts,
    and the view of a local source has the location of its configuration. *)
Theorem prepared_plan_applies request catalog effective profile location store_paths t plan t' later :
  stable (ap_read ports) → local_origins catalog effective →
  (∀ x, x ∈ ct_items catalog → wf_semver (ia_version (ma_artifact (mi_artifact x))) = true) →
  prepare_install request catalog effective profile location store_paths (ap_read ports) t
    = (Ret (Ok plan), t') →
  ∃ seen,
    finalize_install plan (ip_review_digest plan) catalog effective ports later
    = (Ret (ap_apply_plan ports (later ++ seen) plan),
       later ++ seen ++ [EApplyPlan plan (ap_apply_plan ports (later ++ seen) plan)]).
Proof.
  intros Hst Hlocal Hver Hr. apply prepare_install_run in Hr
    as (item & configured & source_id & revision & digest & age & stored & current & source & artifact
        & provenance & Hp).
  pose proof (plan_is_current _ _ _ _ _ _ _ _ _ _ _ _ _ _ _ _ _ Hp Hver) as Hcurrent.
  pose proof (plan_boundary _ _ _ _ _ _ _ _ _ _ _ _ _ _ _ _ _ Hp Hver Hlocal) as Hboundary.
  destruct Hp as [_ _ _ _ (Hdigest & _ & Hread & t1 & Hstored) Hops [_ (t2 & Hstate)] _ _ _ _ _
                  (paths & d & Hd) _ _].
  assert (ip_object_store_paths plan = store_paths ∧ ip_object_digest plan = ob_digest (so_candidate stored)
          ∧ ip_object_candidate plan = so_candidate stored ∧ ip_object_root plan = so_root stored)
    as (Hsp & Hod & Hoc & Hor) by by rewrite Hd.
  destruct (changed_operation_stable plan (ip_operations plan)
              (later ++ [EReadObject (MkReadRequest store_paths (ia_object_digest (ma_artifact (mi_artifact item))))
                           (Ok (Some stored))]) Hst) as (seen & Hseen).
  { eapply Forall_impl; [exact Hops|]. intros o [[[_ Ho] Hl] Hs _]. split; [done|]. intros l ->.
    rewrite (Hs l eq_refl), <-Hboundary. by destruct Hl. }
  eexists (_ :: seen ++ [_]). unfold finalize_install. rewrite bool_decide_true by done. cbn [negb].
  rewrite Hcurrent. unfold mbind at 1, st_bind at 1, pure at 1. cbn [negb].
  rewrite Hsp, Hod, Hdigest, Hread. unfold mbind at 1, st_bind at 1, pure at 1.
  unfold or_return at 1, read_object, call, mbind at 1, st_bind at 1.
  rewrite (sb_object _ Hst _ t1), Hstored, Hoc, Hor, bool_decide_true, String.eqb_refl by done. cbn [andb negb].
  rewrite (or_return_run _ _ _ _ _ Hseen).
  unfold or_return, inspect_path, call, mbind, st_bind.
  rewrite (sb_path _ Hst _ t2), Hstate, bool_decide_true by done.
  unfold apply_install_plan, call. rewrite <-!app_assoc. cbn [app]. by rewrite <-!app_assoc.
Qed.
End applies.

(** * A concrete installation *)

Definition world_apply : InstallApplyPorts :=
  MkInstallApplyPorts (world_ports None [])
    (λ _ plan, Ok (MkInstallOutcome (ip_review_digest plan) APPLIED [] true)).
Lemma world_stable : stable (ap_read world_apply).
Proof. done. Qed.
Lemma world_versions x :
  x ∈ ct_items world_catalog → wf_semver (ia_version (ma_artifact (mi_artifact x))) = true.
Proof. by intros ->%list_elem_of_singleton. Qed.

Lemma world_origins : local_origins world_catalog world_configuration.
Proof. intros x c Hx Hc Hk. apply list_elem_of_singleton in Hx as ->. vm_compute in Hc. injection Hc as <-. discriminate Hk. Qed.

Lemma prepared_plan_applies_witness :
  ∃ plan t' seen answer,
    world_prepare "prepend" false None [] = (Ret (Ok plan), t')
    ∧ finalize_install plan (ip_review_digest plan) world_catalog world_configuration world_apply []
      = (Ret answer, seen ++ [EApplyPlan plan answer]).
Proof.
  assert (is_prepared (world_prepare "prepend" false None []) = true) as Hok by by vm_compute.
  destruct (world_prepare "prepend" false None []) as [r t'] eqn:E.
  destruct r as [[plan|ds]|e]; [|discriminate Hok..]. unfold world_prepare in E.
  change (world_ports None []) with (ap_read world_apply) in E.
  destruct (prepared_plan_applies world_apply (world_request "prepend" false) world_catalog world_configuration
              CLAUDE world_location world_store [] plan t' [] world_stable world_origins world_versions E)
    as (seen & Hrun).
  exists plan, t', seen, (ap_apply_plan world_apply seen plan). split; [reflexivity|exact Hrun].
Defined.

(** Replacing a memory that is already installed parks the installed text in the
    sidecar, over what the operator had there: uninstalling cannot bring the
    operator's text back. *)
Lemma second_replace_loses_backup :
  replaced_twice
  = Some [("/work/CLAUDE.md.agent-artifacts-bak", "Notes."); ("/work/CLAUDE.md", "Notes.")].
Proof. by vm_compute. Qed.
