(* ===== verification/LifecycleSpec.v ===== *)
(** What the lifecycle promises: status reads exactly what is recorded, an
    uninstall touches only what the record owns, an update leaves nothing
    behind, and nothing is applied but what was reviewed. *)
From S2P Require Import Prelude Effects PyText TextSearch Posix Regex Domain SemVer Json IndentedJson Protocol CompilerModel Graph Marketplace Configuration ConfigSchema ConfigPolicy InstallState InstallSchema InstallSpec StoreModel NativeSchema NativeTree Installation InstallPlan LifecycleModel Ports Merge ManagedBlock Profiles Planning Install InstallFlow PrepareSpec Lifecycle.
From Stdlib Require Import Ascii.
Open Scope Z_scope.

Section lifecycle.
Context `{UnicodeData} `{DecodeErrors} `{IpAddress} `{SetupProtocol} `{WorkingDirectory}.

(** * What an uninstall removes *)

(** A text with one begin and one end marker of the record, what is between them
    included, in the middle. *)
Record marked (r : InstallationRecord) (content before inside tail : string) : Prop := {
  mk_begin : count_sub (memory_markers r).1 content = 1%nat;
  mk_end : count_sub (memory_markers r).2 content = 1%nat;
  mk_parts : content = before +:+ (inside +:+ ((memory_markers r).2 +:+ tail));
  mk_inside : ∃ after, inside +:+ ((memory_markers r).2 +:+ tail) = (memory_markers r).1 +:+ after
}.

Lemma strip_managed_block_parts r content stripped :
  strip_managed_block r content = Some stripped → stripped ≠ content →
  ∃ before inside tail, marked r content before inside tail
    ∧ stripped = trim_seam (before +:+ drop_newline tail).
Proof.
  unfold strip_managed_block. destruct (negb (valid_utf8 content)); [done|].
  destruct (memory_markers r) as [begin_ end_] eqn:Em.
  destruct (_ && _); [by intros [= ->]|].
  destruct (negb (count_sub begin_ content =? 1)%nat || _) eqn:Ec; [done|].
  apply orb_false_iff in Ec as [Hb%negb_false_iff%Nat.eqb_eq He%negb_false_iff%Nat.eqb_eq].
  destruct (cut_string begin_ content) as [[before after]|] eqn:E1; [|done].
  destruct (cut_string end_ (begin_ +:+ after)) as [[inside tail]|] eqn:E2; [|done].
  intros [= <-] _. exists before, inside, tail. split; [|done].
  apply cut_string_spec in E1, E2.
  split; rewrite ?Em; cbn; [done|done| |]; [by rewrite <-E2|by exists after].
Qed.

(** What is at a destination is what the record installed there; the block of a
    memory is the record's by its markers, whatever is between them. *)
Inductive owned_content (r : InstallationRecord) (e : EffectProof) (s : PathSnapshot) : Prop :=
  | owned_link : is_link_kind (ef_kind e) = true → ps_kind s = PSYMLINK →
      ps_link_target s = ef_link_target e → owned_content r e s
  | owned_copy : is_link_kind (ef_kind e) = false →
      ps_digest s = Some (ef_installed_digest e) → ps_kind s = owned_kind e → owned_content r e s
  | owned_entry root m : ef_kind e = "merge-json" → ps_kind s = PFILE →
      parse_json (ps_content s) None MAX_DEPTH MAX_STRING = Ret (Ok root) →
      merge_matches e root = [m] → json_digest (mm_value m) = ef_installed_digest e → owned_content r e s
  | owned_block before inside tail : ef_kind e = "managed-block" → ps_kind s = PFILE →
      marked r (ps_content s) before inside tail → owned_content r e s.

(** The content an operation leaves: the operator's part of what was there. *)
Definition leaves (r : InstallationRecord) (e : EffectProof) (s : PathSnapshot)
    (restore : option PathSnapshot) (o : UninstallOperation) : Prop :=
  if String.eqb (ef_kind e) "merge-json" then
    ∃ root updated, parse_json (ps_content s) None MAX_DEPTH MAX_STRING = Ret (Ok root)
      ∧ remove_merge_identity e root = (Some updated, "removed")
      ∧ if String.eqb (un_mutation o) "write" then un_replacement_content o = canonical_json_bytes updated
        else ef_created_destination e = true ∧ is_bare_container_chain updated (effect_path e) = true
  else if String.eqb (ef_kind e) "managed-block" then
    (∃ before inside tail, marked r (ps_content s) before inside tail
       ∧ un_replacement_content o = trim_seam (before +:+ drop_newline tail))
    ∧ un_mutation o = (if str_empty (un_replacement_content o) then "remove" else "write")
  else match ef_restores_from e with
       | Some _ => is_link_kind (ef_kind e) = true
                   ∨ ∃ found, restore = Some found ∧ un_mutation o = "write"
                       ∧ ps_kind found = PFILE ∧ un_replacement_content o = ps_content found
       | None => un_mutation o = "remove"
       end.

Lemma removal_inv e absolute s mutation content o :
  removal e absolute s mutation content = Ret (inl o) → o = MkUninstall e absolute s mutation content.
Proof.
  unfold removal, uninstall_operation. intros Hr. apply bind_Ret in Hr as (o' & Ho & Hr).
  apply bind_Ret in Ho as (? & _ & Ho). congruence.
Qed.
Lemma refused_inv e reason o : refused e reason = Ret (inl o) → False.
Proof. by unfold refused. Qed.

(** The operation is about what was asked for. *)
Definition of_removal (e : EffectProof) (absolute : string) (s : PathSnapshot) (o : UninstallOperation) :=
  un_effect o = e ∧ un_absolute_destination o = absolute ∧ un_precondition o = s.

Lemma plan_link_removal_inv r e absolute s o :
  is_link_kind (ef_kind e) = true →
  plan_link_removal r e absolute s false = Ret (inl o) → un_mutation o ≠ "none" →
  ps_kind s = PSYMLINK ∧ ps_link_target s = ef_link_target e
  ∧ o = MkUninstall e absolute s "remove" "".
Proof.
  intros Hk. unfold plan_link_removal, effect_status. rewrite Hk.
  case_bool_decide as Ha; intros Hr Hm.
  { apply removal_inv in Hr as ->. done. }
  apply bind_Ret in Hr as (status & Hs & Hr). apply fmap_Ret in Hs as (link & Hl & <-).
  unfold classify_link in Hl. apply bind_Ret in Hl as (? & _ & Hl). injection Hl as <-.
  destruct (bool_decide_reflect (ps_kind s = PSYMLINK)); [|by apply refused_inv in Hr].
  destruct (bool_decide_reflect (ps_link_target s = ef_link_target e)); [|by apply refused_inv in Hr].
  split_and!; [done..|]. revert Hr.
  destruct (bool_decide (ps_target_exists s = _)), (bool_decide (ef_link_semantics e = _));
    by apply removal_inv.
Qed.

Lemma plan_merge_removal_inv r e absolute s o :
  ef_kind e = "merge-json" →
  plan_merge_removal e absolute s false = Ret (inl o) → un_mutation o ≠ "none" →
  of_removal e absolute s o ∧ owned_content r e s ∧ leaves r e s None o.
Proof.
  intros Hk. unfold plan_merge_removal. intros Hr Hm. destruct (ps_kind s) eqn:Es.
  { apply removal_inv in Hr as ->. done. }
  2-4: by apply refused_inv in Hr.
  case_bool_decide; [by apply refused_inv in Hr|].
  apply bind_Ret in Hr as (parsed & Hp & Hr). destruct parsed as [root|]; [|by apply refused_inv in Hr].
  destruct (merge_matches e root) as [|m [|m' ms]] eqn:Em; [| |by apply refused_inv in Hr].
  { destruct (merge_drifted e root && _); [by apply refused_inv in Hr|].
    apply removal_inv in Hr as ->. done. }
  rewrite andb_true_r in Hr. case_bool_decide as Hd; cbn [negb] in Hr; [|by apply refused_inv in Hr].
  assert (owned_content r e s) as Ho by by eapply owned_entry.
  destruct (remove_merge_identity e root) as [[updated|] result] eqn:Er; [|by apply refused_inv in Hr].
  destruct (String.eqb_spec result "removed") as [->|Hne].
  2:{ exfalso. revert Hr. repeat (destruct result as [|[[] [] [] [] [] [] [] []] result]; try done). }
  destruct (ef_created_destination e && _) eqn:Eb; apply removal_inv in Hr as ->; (split; [done|]);
    (split; [done|]); unfold leaves; rewrite Hk; exists root, updated; cbn; split_and!; try done.
  all: by apply andb_true_iff in Eb as [].
Qed.

Lemma plan_block_removal_inv r e absolute s o :
  ef_kind e = "managed-block" →
  plan_block_removal r e absolute s = Ret (inl o) → un_mutation o ≠ "none" →
  of_removal e absolute s o ∧ owned_content r e s ∧ leaves r e s None o.
Proof.
  intros Hk. unfold plan_block_removal. intros Hr Hm. destruct (ps_kind s) eqn:Es.
  { apply removal_inv in Hr as ->. done. }
  2-4: by apply refused_inv in Hr.
  destruct (strip_managed_block r (ps_content s)) as [stripped|] eqn:Et; [|by apply refused_inv in Hr].
  destruct (String.eqb_spec stripped (ps_content s)) as [->|Hne].
  { apply removal_inv in Hr as ->. done. }
  apply strip_managed_block_parts in Et as (before & inside & tail & Hmk & Hst); [|done].
  assert (∃ before inside tail, marked r (ps_content s) before inside tail
            ∧ stripped = trim_seam (before +:+ drop_newline tail)) as Hparts by eauto.
  destruct (str_empty stripped) eqn:Ee; apply removal_inv in Hr as ->; (split; [done|]);
    (split; [by eapply owned_block|]); unfold leaves; rewrite Hk; cbn; [by destruct stripped|by rewrite Ee].
Qed.

Lemma plan_copy_removal_inv r e absolute s restore o :
  is_link_kind (ef_kind e) = false → ef_kind e ≠ "merge-json" → ef_kind e ≠ "managed-block" →
  plan_copy_removal e absolute s false restore = Ret (inl o) → un_mutation o ≠ "none" →
  of_removal e absolute s o ∧ owned_content r e s ∧ leaves r e s restore o.
Proof.
  intros Hk Hj Hb. unfold plan_copy_removal. intros Hr Hm.
  case_bool_decide. { apply removal_inv in Hr as ->. done. }
  destruct (owns e s) eqn:Eo; cbn [negb andb] in Hr; [|by apply refused_inv in Hr].
  unfold owns in Eo. apply andb_true_iff in Eo as [Ho1%bool_decide_eq_true Ho2%bool_decide_eq_true].
  assert (owned_content r e s) as Ho by by apply owned_copy.
  unfold leaves. destruct (String.eqb_spec (ef_kind e) "merge-json"); [done|].
  destruct (String.eqb_spec (ef_kind e) "managed-block"); [done|].
  destruct (ef_restores_from e) as [backup|]; [|by apply removal_inv in Hr as ->].
  destruct restore as [found|]; [|done]. case_bool_decide as Hf; [|done].
  apply removal_inv in Hr as ->. split_and!; [done..|]. right. by exists found.
Qed.

Lemma plan_removal_inv r e absolute s restore o :
  plan_removal r e absolute s false restore = Ret (inl o) → un_mutation o ≠ "none" →
  of_removal e absolute s o ∧ owned_content r e s ∧ leaves r e s restore o.
Proof.
  unfold plan_removal. intros Hr Hm.
  case_bool_decide; [by apply refused_inv in Hr|].
  destruct (is_link_kind (ef_kind e)) eqn:Hk.
  { apply plan_link_removal_inv in Hr as (?&?&->); [|done..]. split_and!; [done..|by apply owned_link|].
    unfold leaves. destruct (String.eqb_spec (ef_kind e) "merge-json") as [E|]; [by rewrite E in Hk|].
    destruct (String.eqb_spec (ef_kind e) "managed-block") as [E|]; [by rewrite E in Hk|].
    destruct (ef_restores_from e); [by left|done]. }
  destruct (String.eqb_spec (ef_kind e) "merge-json") as [Hj|Hj].
  { destruct (plan_merge_removal_inv r e absolute s o) as (?&?&Hl); [done..|].
    split_and!; [done..|]. unfold leaves in *. by rewrite Hj in *. }
  destruct (String.eqb_spec (ef_kind e) "managed-block") as [Hb|Hb].
  { destruct (plan_block_removal_inv r e absolute s o) as (?&?&Hl); [done..|].
    split_and!; [done..|]. unfold leaves in *. by rewrite Hb in *. }
  by apply plan_copy_removal_inv.
Qed.


(** Forced or not, an operation is about the effect asked for. *)
Lemma plan_removal_of r e absolute s force restore o :
  plan_removal r e absolute s force restore = Ret (inl o) → of_removal e absolute s o.
Proof.
  assert (∀ mutation content, removal e absolute s mutation content = Ret (inl o) →
            of_removal e absolute s o) as Hr by by intros ?? ->%removal_inv.
  unfold plan_removal. case_bool_decide; [done|].
  destruct (is_link_kind _); [|destruct (String.eqb _ _); [|destruct (String.eqb _ _)]].
  - unfold plan_link_removal. intros (status & _ & Hp)%bind_Ret.
    case_bool_decide; [eauto|]. destruct (_ || _); eauto; done.
  - unfold plan_merge_removal. destruct (ps_kind s); try done; [by eauto|].
    case_bool_decide; [done|]. intros (parsed & _ & Hp)%bind_Ret. destruct parsed as [root|]; [|done].
    destruct (merge_matches e root) as [|m [|]]; [destruct (_ && _); [done|eauto]| |done].
    destruct (_ && negb force); [done|]. destruct (remove_merge_identity e root) as [[updated|] result]; [|done].
    destruct (String.eqb_spec result "removed") as [->|Hne]; [destruct (_ && _); eauto|].
    revert Hp. repeat (destruct result as [|[[] [] [] [] [] [] [] []] result]; try done).
  - unfold plan_block_removal. destruct (ps_kind s); try done; [by eauto|].
    destruct (strip_managed_block _ _); [|done]. destruct (String.eqb _ _); [eauto|]. destruct (str_empty _); eauto.
  - unfold plan_copy_removal. case_bool_decide; [eauto|]. destruct (_ && _); [done|].
    destruct (ef_restores_from e); [|eauto]. destruct restore; [|done]. case_bool_decide; [eauto|done].
Qed.

(** * Preparing an uninstall *)

(** The operation planned for a recorded effect: at the recorded destination,
    bound to what was read there, touching only what the record owns. *)
Definition removes (r : InstallationRecord) (location : InstallLocation) (force : bool) (t : calls)
    (e : EffectProof) (o : UninstallOperation) : Prop :=
  absolute_effect_path e (in_scope r) location = Ret (un_absolute_destination o)
  ∧ EInspectPath (un_absolute_destination o) (Ok (un_precondition o)) ∈ t
  ∧ un_effect o = e
  ∧ (force = false → un_mutation o ≠ "none" → owned_content r e (un_precondition o)).

Lemma removes_app r location force t more e o :
  removes r location force t e o → removes r location force (t ++ more) e o.
Proof. intros (?&?&?&?). split_and!; [done|set_solver|done..]. Qed.

Lemma observe_sidecar_reads r e location ports : reads (observe_sidecar r e location ports).
Proof.
  unfold observe_sidecar. destruct (ef_restores_from e); [|apply reads_ret].
  apply reads_bind; [eauto with reads|]. intros moved. apply reads_bind; [eauto with reads|]. intros path.
  apply reads_or_return; eauto with reads.
Qed.
Lemma plan_removals_reads r es location force ports operations conflicts :
  reads (plan_removals r es location force ports operations conflicts).
Proof.
  revert operations conflicts. induction es as [|e es IH]; intros; cbn [plan_removals]; [apply reads_ret|].
  apply reads_or_return; [eauto with reads|]. intros absolute.
  apply reads_or_return; [eauto with reads|]. intros s.
  apply reads_or_return; [apply observe_sidecar_reads|]. intros restore.
  apply reads_bind; [eauto with reads|]. intros [o|conflict]; apply IH.
Qed.

(** Without a conflict, every recorded effect has its operation, in order. *)
Lemma plan_removals_run r es location force ports operations conflicts t operations' t' :
  plan_removals r es location force ports operations conflicts t = (Ret (Ok (operations', [])), t') →
  conflicts = [] ∧ ∃ more, operations' = operations ++ more ∧ Forall2 (removes r location force t') es more.
Proof.
  revert operations conflicts t. induction es as [|e es IH]; intros operations conflicts t; cbn [plan_removals].
  { intros [= <- -> <-]. split; [done|]. exists []. by rewrite app_nil_r. }
  intros Hr. inv_run. apply or_value_error_Ok in Hm; [|by intros; eexists].
  apply call_inv in Hm0 as [Ha ->]. rename a into absolute, a0 into s, a1 into restore.
  pose proof (reads_run _ _ _ _ (observe_sidecar_reads r e location ports) Hm1) as (more1 & -> & _).
  destruct a2 as [o|conflict].
  2:{ apply IH in Hr as [Hc _]. by destruct conflicts. }
  pose proof (reads_run _ _ _ _ (plan_removals_reads _ _ _ _ _ _ _) Hr) as (more2 & Ht & _).
  apply IH in Hr as (-> & more & -> & Hall). split; [done|]. exists (o :: more).
  rewrite <-app_assoc. split; [done|]. constructor; [|done].
  pose proof (plan_removal_of _ _ _ _ _ _ _ Hm2) as (He & Hd & Hp). unfold removes. rewrite He, Hd, Hp.
  split_and!; [done|subst t'; set_solver|done|]. intros -> Hm'.
  by eapply plan_removal_inv.
Qed.

Lemma uninstall_plan_unreviewed p plan :
  uninstall_plan p = Ret plan → up_review_digest p = unreviewed_uninstall →
  (∃ d, plan = with_uninstall_review p d) ∧ uninstall_review_digest plan = Ret (up_review_digest plan)
  ∧ (∀ references, without_references (up_reference_owner p) (up_reference_precondition p) = Ret references →
       up_reference_replacement p = references)
  ∧ (up_terminal p = None → list_py_eq effect_py_eq (map un_effect (up_operations p)) (in_effects (up_record p)) = true).
Proof.
  unfold uninstall_plan. cbv zeta. intros Hr Hp. apply bind_Ret in Hr as (expected & _ & Hr).
  apply bind_Ret in Hr as (? & Hu%raise_if_Ret & Hr). apply bind_Ret in Hr as (references & Href & Hr).
  apply bind_Ret in Hr as (? & Hu2%raise_if_Ret & Hr). apply bind_Ret in Hr as (review & Hrev & Hr).
  apply bind_Ret in Hr as (? & _ & Hr). rewrite bool_decide_true in Hr by done. injection Hr as <-.
  apply orb_false_iff in Hu2 as [Hu2%negb_false_iff%bool_decide_eq_true _].
  split_and!; [by exists review|done|intros; congruence|]. intros Ht.
  unfold uninstall_unbound in Hu. cbv zeta in Hu. apply orb_false_iff in Hu as [_ Hu].
  rewrite bool_decide_true in Hu by done. by apply negb_false_iff in Hu.
Qed.

(** What an uninstall prepared for a record is bound to. *)
Record bound_uninstall (r : InstallationRecord) (state : InstallState) (location : InstallLocation)
    (force : bool) (t : calls) (plan : UninstallPlan) : Prop := {
  bu_record : up_record plan = r ∧ up_force plan = force;
  bu_review : uninstall_review_digest plan = Ret (up_review_digest plan);
  bu_state : EInspectPath (up_state_path plan) (Ok (up_state_precondition plan)) ∈ t
    ∧ ∃ parsed, parse_install_state (ps_content (up_state_precondition plan)) (up_state_path plan)
                = Ret (Ok parsed) ∧ state_py_eq parsed state = true;
  bu_references : EReadInstalled (up_object_store_paths plan) (Ok (up_reference_precondition plan)) ∈ t
    ∧ ∀ x, x ∈ ri_references (up_reference_replacement plan) ↔
        x ∈ ri_references (up_reference_precondition plan)
        ∧ ¬ (rf_kind x = INSTALLED ∧ rf_owner x = LifecycleModel.reference_owner r);
  bu_next : ∀ x, x ∈ st_installations (up_replacement_state plan) ↔
    x ∈ st_installations state ∧ installation_key x ≠ installation_key r;
  bu_operations : match up_terminal plan with
                  | None => Forall2 (removes r location force t) (in_effects r) (up_operations plan)
                  | Some status => status = L_CONFLICT ∧ up_operations plan = []
                  end
}.

Lemma without_record_spec r state next x :
  without_record r state = Ret next →
  x ∈ st_installations next ↔ x ∈ st_installations state ∧ installation_key x ≠ installation_key r.
Proof.
  intros Hn. destruct (install_state_valid _ _ _ Hn) as [_ Hp].
  rewrite Hp, list_elem_of_In, List.filter_In, <-list_elem_of_In.
  rewrite negb_true_iff, bool_decide_eq_false. done.
Qed.
Lemma without_references_spec owner index retained x :
  without_references owner index = Ret retained →
  x ∈ ri_references retained ↔ x ∈ ri_references index ∧ ¬ (rf_kind x = INSTALLED ∧ rf_owner x = owner).
Proof.
  unfold without_references, reference_index. intros Hn. cbv zeta in Hn.
  apply bind_Ret in Hn as (? & _ & Hn). apply bind_Ret in Hn as (? & _ & [= <-]). cbn [ri_references].
  rewrite sorted_perm, list_elem_of_In, List.filter_In, <-list_elem_of_In, negb_true_iff, andb_false_iff.
  rewrite !bool_decide_eq_false. destruct (decide (rf_kind x = INSTALLED)), (decide (rf_owner x = owner)); naive_solver.
Qed.

Lemma prepare_uninstall_reads r state location store_paths ports force :
  reads (prepare_uninstall r state location store_paths ports force).
Proof.
  unfold prepare_uninstall. destruct (negb _); [apply reads_result|].
  apply reads_bind; [eauto with reads|]. intros paths.
  apply reads_or_return; [eauto with reads|]. intros loaded.
  apply reads_or_return; [eauto with reads|]. intros s.
  apply reads_or_return; [eauto with reads|]. intros _.
  apply reads_or_return; [eauto with reads|]. intros references.
  apply reads_bind; [eauto with reads|]. intros retained.
  apply reads_or_return; [apply plan_removals_reads|]. intros [operations conflicts].
  apply reads_bind; [eauto with reads|]. intros next.
  apply reads_bind; [eauto with reads|]. intros teardown. eauto with reads.
Qed.

Lemma prepare_uninstall_run r state location store_paths ports force t plan t' :
  prepare_uninstall r state location store_paths ports force t = (Ret (Ok plan), t') →
  bound_uninstall r state location force t' plan.
Proof.
  unfold prepare_uninstall. cbv zeta. destruct (negb _); [by inversion 1|]. intros Hr. inv_run.
  rename a into paths, a0 into loaded, a1 into s, a3 into references, a4 into retained.
  destruct a5 as [operations conflicts]. inv_run. rename a into next, a0 into teardown.
  apply call_inv in Hm0 as [_ ->]. apply call_inv in Hm1 as [_ ->]. apply call_inv in Hm3 as [_ ->].
  pose proof (reads_run _ _ _ _ (plan_removals_reads _ _ _ _ _ _ _) Hm5) as (more & -> & _).
  apply or_value_error_Ok in Hr; [|by intros; eexists].
  apply uninstall_plan_unreviewed in Hr as ([d ->] & Hrev & _ & _); [|done]. cbn in Hrev.
  split; cbn [with_uninstall_review up_record up_force up_review_digest up_state_path up_state_precondition
              up_object_store_paths up_reference_precondition up_reference_replacement up_replacement_state
              up_terminal up_operations].
  - done.
  - done.
  - split; [set_solver|]. unfold state_confirmed in Hm2. cbv zeta in Hm2. destruct (_ || _); [done|].
    apply bind_Ret in Hm2 as (parsed & Hpar & Hm2). destruct parsed as [parsed|]; [|done].
    exists parsed. split; [done|]. by destruct (state_py_eq parsed state).
  - split; [set_solver|]. intros x. by eapply without_references_spec.
  - intros x. by eapply without_record_spec.
  - case_bool_decide as Hc; [subst conflicts|done].
    apply plan_removals_run in Hm5 as (_ & ops & -> & Hall). done.
Qed.

(** C8: preparing an uninstall only reads; a plan it returns is bound to its
    review digest, to the state and the references that were read, and has for
    every recorded effect, in order, one operation at the recorded destination,
    bound to what was read there, which touches nothing the record does not own
    unless forced; the state it would write drops this record and no other, and
    the references it keeps are all but this owner's. *)
Theorem prepare_uninstall_bound r state location store_paths ports force t :
  let '(result, t') := prepare_uninstall r state location store_paths ports force t in
  (∃ seen, t' = t ++ seen ∧ forallb is_read seen = true)
  ∧ match result with Ret (Ok plan) => bound_uninstall r state location force t' plan | _ => True end.
Proof.
  destruct (prepare_uninstall _ _ _ _ _ _ _) as [result t'] eqn:E. split.
  { by eapply reads_run; [apply prepare_uninstall_reads|]. }
  destruct result as [[plan|]|]; [|done..]. by eapply prepare_uninstall_run.
Qed.
End lifecycle.

(** A copied tree that is still as installed is removed. *)
Definition sample_tree_snapshot : PathSnapshot :=
  MkPathSnapshot "/work/.claude/skills/demo" PTREE (Some (ef_installed_digest sample_effect)) "" false [] None None.
Definition sample_removal : UninstallOperation :=
  MkUninstall sample_effect "/work/.claude/skills/demo" sample_tree_snapshot "remove" "".

(** A block is removed unforced whatever the operator wrote between its markers,
    and the file with it when nothing else is in it, also one that was there
    before the installation. *)
Definition edited_block_removal (content : string) : option (string * string) :=
  let block := MkEffect "managed-block" "CLAUDE.md" "copy" (MkDigest "sha256" sample_hex) (Some "payload")
                 None None None JNull None None false false None in
  match plan_removal sample_record block "/work/CLAUDE.md"
          (MkPathSnapshot "/work/CLAUDE.md" PFILE (Some (file_snapshot_digest content false)) content false [] None None)
          false None with
  | Ret (inl o) => Some (un_mutation o, un_replacement_content o)
  | _ => None
  end.
Example edited_block_removed :
  edited_block_removal ("notes" +:+ LF +:+ begin_marker "demo" +:+ LF +:+ "edited" +:+ LF +:+ end_marker "demo" +:+ LF)
    = Some ("write", "notes" +:+ LF)
  ∧ edited_block_removal (begin_marker "demo" +:+ LF +:+ "edited" +:+ LF +:+ end_marker "demo" +:+ LF)
    = Some ("remove", "").
Proof. by vm_compute. Qed.
