(* ===== verification/UpdateSpec.v ===== *)
(** What status and updates promise: a status reads every recorded destination
    and reports it in order, an update leaves no recorded effect behind, and
    nothing is changed but by the plan that was reviewed. *)
From S2P Require Import Prelude Effects PyText TextSearch Posix Regex Domain SemVer Json IndentedJson Protocol CompilerModel Graph Marketplace Configuration ConfigSchema ConfigPolicy InstallState InstallSchema InstallSpec StoreModel NativeSchema NativeTree Installation InstallPlan LifecycleModel Ports Merge ManagedBlock Profiles Planning Install InstallFlow PrepareSpec Lifecycle LifecycleSpec.
From Stdlib Require Import Ascii.
Open Scope Z_scope.

Section update.
Context `{UnicodeData} `{DecodeErrors} `{IpAddress} `{SetupProtocol} `{WorkingDirectory}.

(** * Status *)

Lemma lifecycle_effect_same e e' : lifecycle_effect e = Ret e' → e' = e.
Proof. unfold lifecycle_effect. intros Hr. by inv_py. Qed.
Lemma lifecycle_item_same i i' : lifecycle_item i = Ret i' → i' = i.
Proof. unfold lifecycle_item. intros Hr. by inv_py. Qed.

(** The reported effect says what the recorded destination was read to hold. *)
Definition reports (r : InstallationRecord) (location : InstallLocation) (t : calls)
    (e : EffectProof) (le : LifecycleEffect) : Prop :=
  le_kind le = ef_kind e ∧ le_destination le = ef_destination e
  ∧ ∃ absolute answer, absolute_effect_path e (in_scope r) location = Ret absolute
    ∧ EInspectPath absolute answer ∈ t
    ∧ match answer with
      | Ok s => effect_status r e s = Ret (le_status le)
      | Err _ => le_status le = L_FAILED
      end.

Lemma reports_app r location t more e le : reports r location t e le → reports r location (t ++ more) e le.
Proof. intros (?&?&absolute&answer&?&?&?). split_and!; [done..|]. exists absolute, answer. set_solver. Qed.

Lemma observed_effect_reads r e absolute ports : reads (observed_effect r e absolute ports).
Proof. unfold observed_effect. apply reads_bind; [eauto with reads|]. intros [s|ds]; eauto with reads. Qed.
Lemma effects_status_reads r es location ports effects : reads (effects_status r es location ports effects).
Proof.
  revert effects. induction es as [|e es IH]; intros; cbn [effects_status]; [apply reads_ret|].
  apply reads_or_return; [eauto with reads|]. intros absolute.
  apply reads_bind; [apply observed_effect_reads|]. intros observed. apply IH.
Qed.

Lemma observed_effect_run r e absolute location ports t le t' :
  absolute_effect_path e (in_scope r) location = Ret absolute →
  observed_effect r e absolute (ports : LifecycleReadPorts) t = (Ret le, t') → reports r location t' e le.
Proof.
  unfold observed_effect. intros Ha Hr. inv_run. apply call_inv in Hm as [-> ->].
  destruct (rp_inspect_path _ t absolute) as [s|ds] eqn:Es; inv_run.
  - apply lifecycle_effect_same in Hr as ->. split_and!; [done..|].
    exists absolute, (Ok s). split_and!; [done|set_solver|done].
  - apply lifecycle_effect_same in Hr as ->. split_and!; [done..|].
    exists absolute, (Err ds). split_and!; [done|set_solver|done].
Qed.

Lemma effects_status_run r es location ports effects t effects' t' :
  effects_status r es location ports effects t = (Ret (Ok effects'), t') →
  ∃ more, effects' = effects ++ more ∧ Forall2 (reports r location t') es more.
Proof.
  revert effects t. induction es as [|e es IH]; intros effects t; cbn [effects_status].
  { intros [= <- <-]. exists []. by rewrite app_nil_r. }
  intros Hr. inv_run. apply or_value_error_Ok in Hm; [|by intros; eexists].
  pose proof (reads_run _ _ _ _ (effects_status_reads _ _ _ _ _) Hr) as (seen & -> & _).
  apply IH in Hr as (more & -> & Hall). rewrite <-app_assoc. eexists. split; [done|].
  constructor; [|done]. eapply reports_app, observed_effect_run; done.
Qed.

(** The worst of the effects, the first one where several are equally bad. *)
Definition worst (status : LifecycleStatus) (effects : list LifecycleEffect) : Prop :=
  status ∈ map le_status effects
  ∧ ∀ e, e ∈ effects → status_priority (le_status e) ≤ status_priority status.

(** The item reported for a record. *)
Definition reports_record (location : InstallLocation) (t : calls) (r : InstallationRecord)
    (i : LifecycleItem) : Prop :=
  key_from_record r = Ret (li_key i) ∧ li_detail i = ""
  ∧ Forall2 (reports r location t) (in_effects r) (li_effects i)
  ∧ worst (li_status i) (li_effects i).

Lemma aggregate_status_worst effects status : aggregate_status effects = Ret status → worst status effects.
Proof.
  unfold aggregate_status. destruct (max_by _ _) as [e|] eqn:E; [|done]. intros [= <-].
  apply max_by_Some in E as [Hin Hmax]. split; [|done]. apply list_elem_of_fmap. eauto.
Qed.

Lemma records_status_reads rs location ports items : reads (records_status rs location ports items).
Proof.
  revert items. induction rs as [|r rs IH]; intros; cbn [records_status]; [apply reads_ret|].
  apply reads_or_return; [apply effects_status_reads|]. intros effects.
  apply reads_bind; [eauto with reads|]. intros key. apply reads_bind; [eauto with reads|]. intros status.
  apply reads_bind; [eauto with reads|]. intros item. apply IH.
Qed.
Lemma reports_record_app location t more r i :
  reports_record location t r i → reports_record location (t ++ more) r i.
Proof.
  intros (?&?&Hall&?). split_and!; [done..| |done]. eapply Forall2_impl; [exact Hall|].
  intros e le. apply reports_app.
Qed.
Lemma records_status_run rs location ports items t items' t' :
  records_status rs location ports items t = (Ret (Ok items'), t') →
  ∃ more, items' = items ++ more ∧ Forall2 (reports_record location t') rs more.
Proof.
  revert items t. induction rs as [|r rs IH]; intros items t; cbn [records_status].
  { intros [= <- <-]. exists []. by rewrite app_nil_r. }
  intros Hr. inv_run. apply effects_status_run in Hm as (effects & -> & Hall).
  pose proof (reads_run _ _ _ _ (records_status_reads _ _ _ _) Hr) as (seen & -> & _).
  apply IH in Hr as (more & -> & Hrest). rewrite <-app_assoc. eexists. split; [done|].
  constructor; [|done]. apply reports_record_app. apply lifecycle_item_same in Hm2 as ->.
  split_and!; [done|done|done|by apply aggregate_status_worst].
Qed.

Lemma lifecycle_outcome_inv o o' : lifecycle_outcome o = Ret o' → o' = o ∧ NoDup (map li_key (lo_items o)).
Proof.
  unfold lifecycle_outcome. intros Ho. apply bind_Ret in Ho as (? & Hd%raise_if_Ret & [= <-]).
  split; [done|]. apply has_dups_false. by apply orb_false_iff in Hd as [_ Hd].
Qed.

Lemma status_installations_reads state selection location ports :
  reads (status_installations state selection location ports).
Proof.
  unfold status_installations. apply reads_or_return; [apply records_status_reads|]. intros items.
  apply reads_bind; eauto with reads.
Qed.
Lemma status_installations_run state selection location ports t outcome t' :
  status_installations state selection location ports t = (Ret (Ok outcome), t') →
  Forall2 (reports_record location t') (select_installations state selection) (lo_items outcome)
  ∧ NoDup (map li_key (lo_items outcome)).
Proof.
  unfold status_installations. intros Hr. inv_run. apply records_status_run in Hm as (items & -> & Hall).
  by apply lifecycle_outcome_inv in Hm0 as [-> Hd].
Qed.

(** What is reported for a record when its origin is looked at as well. *)
Definition reconciles (location : InstallLocation) (catalog : MarketplaceCatalog)
    (effective : EffectiveConfiguration) (t : calls) (r : InstallationRecord) (i : LifecycleItem) : Prop :=
  ∃ local remote, reports_record location t r local ∧ check_record r catalog effective = Ret remote
    ∧ li_key i = li_key local ∧ li_effects i = li_effects local
    ∧ li_status i = if decide (li_status local = L_CURRENT) then li_status remote else li_status local.

Lemma check_record_key r catalog effective i :
  check_record r catalog effective = Ret i → key_from_record r = Ret (li_key i).
Proof.
  unfold check_record. intros (key & Hk & Hr)%bind_Ret. cbv zeta in Hr. rewrite Hk. f_equal.
  repeat match type of Hr with
  | (if ?b then _ else _) = _ => destruct b
  | (match ?o with Some _ => _ | None => _ end) = _ => destruct o
  end; by apply lifecycle_item_same in Hr as ->.
Qed.
Lemma reconciled_inv local remote i :
  reconciled local remote = Ret i →
  li_key i = li_key local ∧ li_effects i = li_effects local
  ∧ li_status i = if decide (li_status local = L_CURRENT) then li_status remote else li_status local.
Proof.
  unfold reconciled. case_bool_decide as Hc; intros Hr; apply lifecycle_item_same in Hr as ->;
    cbn; (split; [done|]); (split; [done|]).
  - by rewrite decide_True.
  - by rewrite decide_False.
Qed.

(** Looking an item up by its key finds the item of the same record. *)
Lemma same_key_item (P Q : InstallationRecord → LifecycleItem → Prop) rs locals remotes i local remote :
  (∀ r x, P r x → key_from_record r = Ret (li_key x)) →
  (∀ r x, Q r x → key_from_record r = Ret (li_key x)) →
  Forall2 P rs locals → Forall2 Q rs remotes → NoDup (map li_key remotes) →
  locals !! i = Some local →
  dget (li_key local) (dict_of (map (λ x, (li_key x, x)) remotes)) = Some remote →
  ∃ r, rs !! i = Some r ∧ P r local ∧ Q r remote.
Proof.
  intros HP HQ HPs HQs Hd Hi Hg. destruct (Forall2_lookup_r _ _ _ _ _ HPs Hi) as (r & Hr & Hp).
  destruct (Forall2_lookup_l _ _ _ _ _ HQs Hr) as (x & Hx & Hq). exists r. split_and!; [done..|].
  apply dict_of_sub, list_elem_of_fmap in Hg as (y & [= Hk <-] & Hy).
  apply list_elem_of_lookup in Hy as (j & Hj).
  assert (li_key x = li_key remote) as E.
  { pose proof (HP _ _ Hp). pose proof (HQ _ _ Hq). congruence. }
  assert (i = j) as ->; [|congruence].
  eapply NoDup_lookup; [exact Hd|by rewrite list_lookup_fmap, Hx|].
  by rewrite list_lookup_fmap, Hj; cbn; rewrite E.
Qed.

(** C9: reconciling only reads, and reports exactly the selected installations,
    in order: for each one every recorded effect, in order, with what its
    recorded destination was read to hold, the worst of them as the local
    status, and the status of its origin only where nothing local is wrong. *)
Theorem reconcile_installations_exact state selection catalog effective location ports t :
  let '(result, t') := reconcile_installations state selection catalog effective location ports t in
  (∃ seen, t' = t ++ seen ∧ forallb is_read seen = true)
  ∧ match result with
    | Ret (Ok outcome) =>
        Forall2 (reconciles location catalog effective t') (select_installations state selection)
          (lo_items outcome) ∧ NoDup (map li_key (lo_items outcome))
    | _ => True
    end.
Proof.
  destruct (reconcile_installations _ _ _ _ _ _ _) as [result t'] eqn:E. split.
  { eapply reads_run; [|exact E]. unfold reconcile_installations.
    apply reads_or_return; [apply status_installations_reads|]. intros local.
    apply reads_bind; [eauto with reads|]. intros upstream. apply reads_bind; [eauto with reads|]. intros items.
    apply reads_bind; eauto with reads. }
  destruct result as [[outcome|]|]; [|done..]. unfold reconcile_installations in E. cbv zeta in E. inv_run.
  rename a into local, a0 into upstream, a1 into items.
  apply status_installations_run in Hm as [Hlocal _].
  unfold check_installations in Hm0. apply bind_Ret in Hm0 as (remotes & Hremotes & Hm0).
  apply mapM_Ret in Hremotes. apply lifecycle_outcome_inv in Hm0 as [-> Hd]. cbn [lo_items] in *.
  apply lifecycle_outcome_inv in Hm2 as [-> Hdup]. split; [|done]. cbn [lo_items].
  apply mapM_Ret in Hm1. apply Forall2_same_length_lookup. split.
  { rewrite (Forall2_length _ _ _ Hlocal). apply (Forall2_length _ _ _ Hm1). }
  intros i r x Hr Hx. destruct (Forall2_lookup_r _ _ _ _ _ Hm1 Hx) as (l & Hl & Hrec).
  destruct (dget _ _) as [remote|] eqn:Eg; [|done].
  destruct (same_key_item _ _ _ _ _ _ _ _ (λ r x (Hp : reports_record location t' r x), proj1 Hp)
              (λ r x Hp, check_record_key r catalog effective x Hp) Hlocal Hremotes Hd Hl Eg)
    as (r' & Hr' & Hp & Hq). rewrite Hr in Hr'. injection Hr' as <-.
  exists l, remote. split_and!; [done..| | |]; by apply reconciled_inv in Hrec as (?&?&?).
Qed.

(** * Updates *)

Lemma update_plan_inv p plan :
  update_plan p = Ret plan → dp_review_digest p = unreviewed_update →
  update_review_digest plan = Ret (dp_review_digest plan)
  ∧ dp_record plan = dp_record p ∧ dp_prune plan = dp_prune p
  ∧ dp_install_plan plan = dp_install_plan p ∧ dp_uninstall_plan plan = dp_uninstall_plan p
  ∧ dp_terminal plan = dp_terminal p
  ∧ (∀ install, dp_install_plan p = Some install → install_matches (dp_record p) install = true).
Proof.
  unfold update_plan. cbv zeta. intros Hr Hp. apply bind_Ret in Hr as (? & Hu%raise_if_Ret & Hr).
  apply bind_Ret in Hr as (key & _ & Hr). apply bind_Ret in Hr as (? & _ & Hr).
  apply bind_Ret in Hr as (review & Hrev & Hr). apply bind_Ret in Hr as (? & _ & Hr).
  rewrite bool_decide_true in Hr by done. injection Hr as <-. split_and!; try done.
  intros install Hi. rewrite Hi in Hu. apply orb_false_iff in Hu as [Hu _].
  apply orb_false_iff in Hu as [_ Hu]. by apply negb_false_iff in Hu.
Qed.

(** The state holds the record. *)
Definition r_in_state (r : InstallationRecord) (state : InstallState) : Prop :=
  existsb (record_py_eq r) (st_installations state) = true.

(** What a prepared update will do, when it is not over already. *)
Record bound_update (r : InstallationRecord) (catalog : MarketplaceCatalog)
    (effective : EffectiveConfiguration) (location : InstallLocation) (force prune : bool) (t : calls)
    (plan : UpdatePlan) : Prop := {
  ud_record : dp_record plan = r;
  ud_review : update_review_digest plan = Ret (dp_review_digest plan);
  ud_install : ∀ install, dp_install_plan plan = Some install →
    recorded_subscription_current r catalog effective = true
    ∧ is_Some (current_item r catalog) ∧ dp_terminal plan = None ∧ dp_uninstall_plan plan = None
    ∧ install_matches r install = true ∧ bound_plan (ip_request install) t install
    ∧ ∃ replacement, replacement ∈ st_installations (ip_replacement_state install)
        ∧ installation_key replacement = installation_key r
        ∧ ∀ e, e ∈ in_effects r → effect_locator e ∈ map effect_locator (in_effects replacement);
  ud_uninstall : ∀ uninstall, dp_uninstall_plan plan = Some uninstall →
    recorded_subscription_current r catalog effective = true
    ∧ current_item r catalog = None ∧ prune = true ∧ dp_terminal plan = None ∧ dp_install_plan plan = None
    ∧ ∃ state, r_in_state r state ∧ bound_uninstall r state location force t uninstall;
  ud_terminal : dp_install_plan plan = None → dp_uninstall_plan plan = None →
    ∃ i, dp_terminal plan = Some i ∧ li_effects i = []
      ∧ li_status i ∈ [L_SOURCE_UNAVAILABLE; L_REMOVED_UPSTREAM; L_CONFLICT; L_FAILED]
}.

Lemma terminal_update_inv r status detail prune plan :
  terminal_update r status detail prune = Ret plan →
  update_review_digest plan = Ret (dp_review_digest plan) ∧ dp_record plan = r
  ∧ dp_install_plan plan = None ∧ dp_uninstall_plan plan = None
  ∧ ∃ i, dp_terminal plan = Some i ∧ li_effects i = [] ∧ li_status i = status.
Proof.
  unfold terminal_update. intros (key & _ & Hr)%bind_Ret. apply bind_Ret in Hr as (item & Hi & Hr).
  apply lifecycle_item_same in Hi as ->. apply update_plan_inv in Hr as (Hd & Hrec & _ & Hin & Hun & Ht & _); [|done].
  cbn in *. split_and!; [done..|]. rewrite Ht. eauto.
Qed.
Lemma terminal_bound r catalog effective location force prune t status detail pruned plan :
  terminal_update r status detail pruned = Ret plan →
  status ∈ [L_SOURCE_UNAVAILABLE; L_REMOVED_UPSTREAM; L_CONFLICT; L_FAILED] →
  bound_update r catalog effective location force prune t plan.
Proof.
  intros (Hd & Hr & Hi & Hu & i & Ht & He & <-)%terminal_update_inv Hs.
  split; [done|done| | |eauto]; rewrite ?Hi, ?Hu; done.
Qed.

(** Nothing the record owns is left out of the new record. *)
Lemma retired_none r install :
  retired_effect_update r install = Ret None →
  ∃ replacement, replacement ∈ st_installations (ip_replacement_state install)
    ∧ installation_key replacement = installation_key r
    ∧ ∀ e, e ∈ in_effects r → effect_locator e ∈ map effect_locator (in_effects replacement).
Proof.
  unfold retired_effect_update. cbv zeta. destruct (List.find _ _) as [replacement|] eqn:Ef.
  2:{ intros Hr. apply fmap_Ret in Hr as (? & _ & [=]). }
  apply List.find_some in Ef as [Hin Hk%bool_decide_eq_true]. destruct (retired_destinations r replacement) eqn:Er.
  2:{ intros Hr. apply fmap_Ret in Hr as (? & _ & [=]). }
  intros _. exists replacement. split_and!; [by apply list_elem_of_In|done|]. intros e He.
  unfold retired_destinations in Er. apply sorted_nil_iff, map_nil_iff in Er.
  destruct (mem (effect_locator e) (map effect_locator (in_effects replacement))) eqn:Em; [by apply mem_true|].
  assert (e ∈ @nil EffectProof) as []%elem_of_nil.
  rewrite <-Er. apply list_elem_of_In, List.filter_In. rewrite <-list_elem_of_In, Em. done.
Qed.
Lemma retired_some r install plan :
  retired_effect_update r install = Ret (Some plan) →
  ∃ status detail, terminal_update r status detail false = Ret plan ∧ status ∈ [L_CONFLICT; L_FAILED].
Proof.
  unfold retired_effect_update. cbv zeta. destruct (List.find _ _) as [replacement|].
  - destruct (retired_destinations _ _); [done|]. intros Hr. apply fmap_Ret in Hr as (? & Ht & [= <-]).
    do 2 eexists. split; [exact Ht|by left].
  - intros Hr. apply fmap_Ret in Hr as (? & Ht & [= <-]). do 2 eexists. split; [exact Ht|right; by left].
Qed.

Lemma state_for_record_run r location ports t state t' :
  state_for_record r location ports t = (Ret (Ok state), t') → r_in_state r state.
Proof.
  unfold state_for_record. intros Hr. inv_run. destruct a0 as [found|]; [|by inversion Hr].
  destruct (existsb _ _) eqn:E; inversion Hr; by subst.
Qed.

Lemma prepare_update_reads r catalog effective profile location store_paths ports force prune offline platform :
  reads (prepare_update r catalog effective profile location store_paths ports force prune offline platform).
Proof.
  unfold prepare_update. cbv zeta. destruct (negb _); [apply reads_result|].
  destruct (negb _); [eauto with reads|]. destruct (current_item r catalog).
  - apply reads_bind; [eauto with reads|]. intros request.
    apply reads_bind; [apply prepare_install_reads|]. intros [install|ds]; [|eauto with reads].
    apply reads_bind; [eauto with reads|]. intros [plan|]; eauto with reads.
  - destruct (negb prune); [eauto with reads|]. apply reads_or_return.
    { unfold state_for_record. apply reads_bind; [eauto with reads|]. intros paths.
      apply reads_or_return; [eauto with reads|]. intros [state|]; [|apply reads_result].
      destruct (existsb _ _); [apply reads_ret|apply reads_result]. }
    intros state. apply reads_or_return; [apply prepare_uninstall_reads|]. eauto with reads.
Qed.

(** C5: preparing an update only reads, and its plan either says why nothing can
    be done, or removes what its source no longer has, when asked to prune, or
    installs again, with the recorded selection, a plan that is bound to what
    was read and whose new record still has every effect the old one had. *)
Theorem prepare_update_bound r catalog effective profile location store_paths ports force prune offline platform t :
  let '(result, t') :=
    prepare_update r catalog effective profile location store_paths ports force prune offline platform t in
  (∃ seen, t' = t ++ seen ∧ forallb is_read seen = true)
  ∧ match result with
    | Ret (Ok plan) => bound_update r catalog effective location force prune t' plan | _ => True
    end.
Proof.
  destruct (prepare_update _ _ _ _ _ _ _ _ _ _ _ _) as [result t'] eqn:E. split.
  { by eapply reads_run; [apply prepare_update_reads|]. }
  destruct result as [[plan|]|]; [|done..]. unfold prepare_update in E. cbv zeta in E.
  destruct (negb (String.eqb _ _)); [by inversion E|].
  destruct (recorded_subscription_current r catalog effective) eqn:Hs; cbn [negb] in E.
  2:{ inv_run. eapply terminal_bound; [done|set_solver]. }
  destruct (current_item r catalog) as [item|] eqn:Hi.
  2:{ destruct prune; cbn [negb] in E; inv_run; [|eapply terminal_bound; [done|set_solver]].
      rename a into state, a0 into uninstall. apply state_for_record_run in Hm.
      apply prepare_uninstall_run in Hm0.
      apply update_plan_inv in Hm1 as (Hd & Hr & Hp & Hin & Hun & Ht & _); [|done]. cbn in *.
      split; [done|done| | |]; rewrite ?Hin, ?Hun; try done.
      intros u [= <-]. split_and!; [done..|]. eauto. }
  inv_run. rename a into request. destruct a0 as [install|ds].
  2:{ inv_run. eapply terminal_bound; [done|]. destruct (existsb _ _); set_solver. }
  inv_run. rename a into retired. apply prepare_install_bound_plan in Hm0.
  destruct retired as [retired|].
  { inv_run. apply retired_some in Hm1 as (status & detail & Ht & Hst).
    eapply terminal_bound; [done|]. set_solver. }
  inv_run. apply retired_none in Hm1.
  apply update_plan_inv in Hm2 as (Hd & Hr & Hp & Hin & Hun & Ht & Hma); [|done]. cbn in *.
  split; [done|done| | |]; rewrite ?Hin, ?Hun; try done.
  intros i [= <-]. split_and!; [done|done|done|done|by apply Hma| |done].
  by rewrite (bp_request _ _ _ Hm0).
Qed.

(** * Applying an update *)

(** The last call of a run that applied something, and why it was made. *)
Inductive update_applied (plan : UpdatePlan) (catalog : MarketplaceCatalog)
    (effective : EffectiveConfiguration) (seen : calls) : install_event → Prop :=
  | applied_install install answer :
      dp_install_plan plan = Some install → dp_uninstall_plan plan = None →
      reviewed install (ip_review_digest install) catalog effective seen →
      update_applied plan catalog effective seen (EApplyPlan install answer)
  | applied_uninstall uninstall answer :
      dp_uninstall_plan plan = Some uninstall → up_terminal uninstall = None →
      recorded_subscription_current (dp_record plan) catalog effective = true →
      recorded_identity_changed (dp_record plan) catalog = false →
      current_item (dp_record plan) catalog = None →
      update_applied plan catalog effective seen (EApplyUninstall uninstall answer).

Lemma finalize_uninstall_run plan reviewed_digest ports t r t' :
  finalize_uninstall plan reviewed_digest ports t = (r, t') →
  t' = t ∨ ∃ answer, t' = t ++ [EApplyUninstall plan answer] ∧ r = Ret answer
           ∧ reviewed_digest = up_review_digest plan ∧ up_terminal plan = None.
Proof.
  unfold finalize_uninstall. case_bool_decide as Hd; cbn [negb]; [|intros [= _ ->]; by left].
  destruct (up_terminal plan).
  - unfold mbind, st_bind, pure. destruct (key_from_record _); [|intros [= _ ->]; by left].
    destruct (lifecycle_item _); intros [= _ ->]; by left.
  - intros [= <- <-]. right. eauto.
Qed.

(** C6: finishing an update reads and then makes at most one change, as its last
    call and only for the reviewed digest: it applies the plan of the install,
    confirmed in this very run, or the uninstall of a record whose source is
    still as recorded and still does not have the artifact. *)
Theorem finalize_update_guarded plan reviewed_digest catalog effective ports t :
  let '(r, t') := finalize_update plan reviewed_digest catalog effective ports t in
  ∃ seen, forallb is_read seen = true
  ∧ (t' = t ++ seen
     ∨ ∃ event, t' = t ++ seen ++ [event] ∧ reviewed_digest = dp_review_digest plan
         ∧ dp_terminal plan = None ∧ update_applied plan catalog effective seen event).
Proof.
  assert (∀ (r : py (Result LifecycleItem)), ∃ seen, forallb is_read seen = true
    ∧ (t = t ++ seen
       ∨ ∃ event, t = t ++ seen ++ [event] ∧ reviewed_digest = dp_review_digest plan
           ∧ dp_terminal plan = None ∧ update_applied plan catalog effective seen event)) as Hquiet.
  { intros _. exists []. rewrite app_nil_r. auto. }
  destruct (finalize_update _ _ _ _ _ _) as [r t'] eqn:E. unfold finalize_update in E. cbv zeta in E.
  destruct (bool_decide _) eqn:Hd; cbn [negb] in E; [|injection E as _ <-; by apply Hquiet].
  apply bool_decide_eq_true in Hd.
  destruct (dp_terminal plan) eqn:Ht; [injection E as _ <-; by apply Hquiet|].
  destruct (dp_uninstall_plan plan) as [uninstall|] eqn:Hu.
  - destruct (_ || _) eqn:Hc.
    { unfold mbind, st_bind, pure in E. destruct (key_from_record _); [|injection E as _ <-; by apply Hquiet].
      destruct (lifecycle_item _); injection E as _ <-; by apply Hquiet. }
    apply orb_false_iff in Hc as [[Hs%negb_false_iff Hi]%orb_false_iff Hitem].
    destruct (finalize_uninstall_run _ _ _ _ _ _ E) as [->|(answer & -> & _ & _ & Hn)]; [by apply Hquiet|].
    exists []. split; [done|]. right. exists (EApplyUninstall uninstall answer). split_and!; [done..|].
    apply applied_uninstall; try done. by destruct (current_item _ _).
  - destruct (dp_install_plan plan) as [install|] eqn:Hin; [|injection E as _ <-; by apply Hquiet].
    unfold or_return, mbind, st_bind, pure in E. cbn [assert_some] in E.
    pose proof (finalize_install_run install (ip_review_digest install) catalog effective (install_ports ports) t) as Hg.
    destruct (finalize_install _ _ _ _ _ t) as [applied t1]. destruct Hg as (seen & Hr & Hend).
    assert (t' = t1) as ->.
    { destruct applied as [[outcome|ds]|]; [|by injection E..].
      destruct (updated_item _ _); by injection E. }
    exists seen. split; [done|]. destruct Hend as [->|(answer & -> & _ & Hrev)]; [by left|]. right.
    exists (EApplyPlan install answer). split_and!; [done..|]. by apply applied_install.
Qed.
End update.

(** * A memory installed, looked at, updated and removed *)

Definition world_lifecycle (state : option InstallState) (files : list (string * bytes)) : LifecycleReadPorts :=
  MkLifecycleReadPorts (world_ports state files) (λ _ _, Ok (MkReferenceIndex [])).
(** The state and the files an installation leaves. *)
Definition installed_world (mode : string) (files : list (string * bytes)) :
    option (InstallState * list (string * bytes)) :=
  plan ← prepared_plan (world_prepare mode true None files);
  let state := ip_replacement_state plan in
  Some (state, foldl (λ d kv, dset kv.1 kv.2 d) files
          (file_writes plan ++ [(ip_state_path plan, install_state_bytes state)])).
Definition world_status (mode : string) (files : list (string * bytes)) : option (list LifecycleStatus) :=
  '(state, files) ← installed_world mode files;
  match (reconcile_installations state (MkSelection "project" [] []) world_catalog world_configuration
           world_location (world_lifecycle (Some state) files) []).1 with
  | Ret (Ok outcome) => Some (map li_status (lo_items outcome))
  | _ => None
  end.
Definition world_uninstall (mode : string) (files : list (string * bytes)) :
    option (list (string * string * bytes)) :=
  '(state, files) ← installed_world mode files;
  r ← head (st_installations state);
  match (prepare_uninstall r state world_location world_store (world_lifecycle (Some state) files) false []).1 with
  | Ret (Ok plan) =>
      Some (map (λ o, (un_absolute_destination o, un_mutation o, un_replacement_content o)) (up_operations plan))
  | _ => None
  end.
(** Whether an update of what is installed has nothing to change. *)
Definition world_update (mode : string) (files : list (string * bytes)) : option bool :=
  '(state, files) ← installed_world mode files;
  r ← head (st_installations state);
  match (prepare_update r world_catalog world_configuration CLAUDE world_location world_store
           (world_lifecycle (Some state) files) false false false "linux" []).1 with
  | Ret (Ok plan) =>
      install ← dp_install_plan plan; Some (forallb operation_is_current (ip_operations install))
  | _ => None
  end.

Example world_status_current : world_status "prepend" [("/work/CLAUDE.md", "Mine.")] = Some [L_CURRENT].
Proof. vm_compute. reflexivity. Qed.
Example world_uninstall_restores :
  world_uninstall "replace" [("/work/CLAUDE.md", "Mine.")]
  = Some [("/work/CLAUDE.md.agent-artifacts-bak", "remove", ""); ("/work/CLAUDE.md", "write", "Mine.")].
Proof. vm_compute. reflexivity. Qed.
Example world_update_current : world_update "prepend" [("/work/CLAUDE.md", "Mine.")] = Some true.
Proof. vm_compute. reflexivity. Qed.
