(* ===== verification/Resolution.v ===== *)
(** Binding selectors to exact coordinates ([consumer/resolution.py]):
    collections, artifacts, and the dependency closure that an installation
    needs. *)
From S2P Require Import Prelude PyText Regex Domain SemVer Json Protocol CompilerModel Graph Redaction Marketplace Coordinates.
From Stdlib Require Import Ascii Relations.

Definition COLLECTION_NOT_FOUND := MkCode "collection-not-found".
Definition COLLECTION_AMBIGUOUS := MkCode "collection-ambiguous".
Definition DEPENDENCY_UNAVAILABLE := MkCode "dependency-unavailable".

Section resolution.
Context `{UnicodeData} `{SetOrder}.

(** [Diagnostic(code, Severity.ERROR, message, details=details)] *)
Definition resolution_error (code : DiagnosticCode) (message : string)
    (details : list (string * string)) : Diagnostic :=
  diagnostic code ERROR message None [] details.

Definition resolve_collection (catalog : MarketplaceCatalog) (s : ArtifactSelector) :
    Result (list ArtifactCoordinate) :=
  let name := id_name (sel_identity s) in
  let matches := List.filter (λ c,
    bool_decide (cc_name (mc_coordinate c) = name)
    && match sel_source s with None => true
       | Some a => bool_decide (cc_source (mc_coordinate c) = a) end) (ct_collections catalog) in
  match matches with
  | [] =>
      let qualification := match sel_source s with
        | None => "" | Some a => " in source " +:+ alias_value a end in
      Err [resolution_error COLLECTION_NOT_FOUND
             ("collection " +:+ name +:+ qualification +:+ " was not found") []]
  | [c] => Ok (mc_members c)
  | _ =>
      let coordinates := sorted id (map (λ c, collection_str (mc_coordinate c)) matches) in
      Err [resolution_error COLLECTION_AMBIGUOUS
             ("collection " +:+ name +:+ " is ambiguous; valid coordinates: " +:+ join ", " coordinates)
             [("coordinates", join "," coordinates)]]
  end.

(** * The dependency closure *)

(** [records] of [_dependency_closure]. *)
Definition catalog_records (catalog : MarketplaceCatalog) : list (akey * MarketplaceItem) :=
  dict_of (map (λ i, (mi_key i, i)) (ct_items catalog)).

Record closure_state := MkClosure {
  cl_closure : list (akey * ArtifactCoordinate);
  cl_diagnostics : list Diagnostic
}.

Definition report (message : string) (st : closure_state) : closure_state :=
  MkClosure (cl_closure st)
    (cl_diagnostics st ++ [resolution_error DEPENDENCY_UNAVAILABLE message []]).

(** [selector.version is None or selector.version.allows(version)] *)
Definition selector_allows (s : Protocol.ArtifactSelector) (d : MarketplaceItem) : bool :=
  match as_version s with None => true | Some b => allows b (ia_version (mi_index d)) end.

Definition item_source (i : MarketplaceItem) : SourceAlias := co_source (mi_coordinate i).

Section include.
Context (records : list (akey * MarketplaceItem)).

(** [include]'s loop over the requirements of [item]; [rec] is the nested
    call. *)
Fixpoint include_requires (rec : ArtifactCoordinate → closure_state → py closure_state)
    (item : MarketplaceItem) (requires : list Protocol.ArtifactSelector) (st : closure_state) :
    py closure_state :=
  match requires with
  | [] => Ret st
  | s :: requires =>
      let missing := report (coordinate_str (mi_coordinate item) +:+ " requires unavailable dependency "
        +:+ alias_value (item_source item) +:+ "/" +:+ identity_str (as_identity s)) st in
      match dget (artifact_key (item_source item) (as_identity s)) records with
      | None => include_requires rec item requires missing
      | Some d =>
          if selector_allows s d then
            st ← rec (mi_coordinate d) st; include_requires rec item requires st
          else include_requires rec item requires missing
      end
  end.

(** [include(coordinate, trail)] with [frames] nested calls left before the
    interpreter's recursion limit. *)
Fixpoint include (frames : nat) (coordinate : ArtifactCoordinate) (trail : list ArtifactCoordinate)
    (st : closure_state) : py closure_state :=
  match frames with
  | O => Raise RecursionError
  | S frames =>
      let key := artifact_key (co_source coordinate) (co_artifact coordinate) in
      if mem coordinate trail then
        Ret (report ("artifact dependency cycle: "
          +:+ join " -> " (map coordinate_str (trail ++ [coordinate]))) st)
      else if mem key (dkeys (cl_closure st)) then Ret st
      else
        match dget key records with
        | None => Ret (report ("required artifact is unavailable: " +:+ coordinate_str coordinate) st)
        | Some item =>
            if match co_version coordinate with
               | None => false
               | Some v => negb (bool_decide (v = semver_str (ia_version (mi_index item))))
               end
            then Ret (report ("required artifact version is unavailable: "
                              +:+ coordinate_str coordinate) st)
            else
              include_requires (λ c st, include frames c (trail ++ [coordinate]) st) item
                (ia_requires (mi_index item))
                (MkClosure (dset key (mi_coordinate item) (cl_closure st)) (cl_diagnostics st))
        end
  end.

Fixpoint include_all (frames : nat) (requested : list ArtifactCoordinate) (st : closure_state) :
    py closure_state :=
  match requested with
  | [] => Ret st
  | c :: requested => st ← include frames c [] st; include_all frames requested st
  end.
End include.

Definition dependency_closure (frames : nat) (catalog : MarketplaceCatalog)
    (requested : list ArtifactCoordinate) : py (Result (list ArtifactCoordinate)) :=
  st ← include_all (catalog_records catalog) frames requested (MkClosure [] []);
  match cl_diagnostics st with
  | [] => Ret (Ok (sorted coordinate_str (dvalues (cl_closure st))))
  | ds => Ret (Err (sorted d_message ds))
  end.

(** * Selectors *)

(** One selector of [resolve_selectors]. *)
Definition resolve_selector (catalog : MarketplaceCatalog) (offline : bool) (s : ArtifactSelector) :
    py (Result (list ArtifactCoordinate)) :=
  if bool_decide (id_kind (sel_identity s) = Collection) then Ret (resolve_collection catalog s)
  else
    query ← artifact_query (sel_identity s) (sel_source s) (sel_version s);
    Ret (match resolve_artifact catalog query offline with
         | Err ds => Err ds
         | Ok item => Ok [mi_coordinate item]
         end).

(** The loop of [resolve_selectors]. *)
Fixpoint resolve_loop (catalog : MarketplaceCatalog) (offline : bool)
    (selectors : list ArtifactSelector) (coordinates : list ArtifactCoordinate)
    (diagnostics : list Diagnostic) : py (list ArtifactCoordinate * list Diagnostic) :=
  match selectors with
  | [] => Ret (coordinates, diagnostics)
  | s :: selectors =>
      resolved ← resolve_selector catalog offline s;
      match resolved with
      | Err ds => resolve_loop catalog offline selectors coordinates (diagnostics ++ ds)
      | Ok cs => resolve_loop catalog offline selectors (coordinates ++ cs) diagnostics
      end
  end.

Definition resolve_selectors (frames : nat) (catalog : MarketplaceCatalog)
    (selectors : list ArtifactSelector) (offline : bool) :
    py (Result (list ArtifactCoordinate)) :=
  '(coordinates, diagnostics) ← resolve_loop catalog offline selectors [] [];
  match diagnostics with
  | [] => dependency_closure frames catalog
            (sorted_py_set (λ x y, bool_decide (x = y)) coordinate_str coordinates)
  | _ => Ret (Err diagnostics)
  end.
End resolution.

(** What resolution guarantees ([consumer/resolution.py]): the dependency
    closure is exactly what the requested artifacts need, and is refused when
    something needed is missing or depends on itself. *)

Section closure.
Context (items : list MarketplaceItem) (records : list (akey * MarketplaceItem)).
Hypothesis records_get : ∀ k i, dget k records = Some i ↔ i ∈ items ∧ mi_key i = k.

(** [d] is an item that requirement [s] of [i] is met by. *)
Definition meets (i : MarketplaceItem) (s : Protocol.ArtifactSelector) (d : MarketplaceItem) : Prop :=
  d ∈ items ∧ mi_key d = artifact_key (item_source i) (as_identity s) ∧ selector_allows s d = true.
Definition depends (i d : MarketplaceItem) : Prop :=
  ∃ s, s ∈ ia_requires (mi_index i) ∧ meets i s d.
(** Every requirement of [i] is met. *)
Definition satisfied (i : MarketplaceItem) : Prop :=
  ∀ s, s ∈ ia_requires (mi_index i) → ∃ d, meets i s d.
(** Something [i] needs is missing or depends on itself. *)
Definition broken (i : MarketplaceItem) : Prop :=
  ∃ j, rtc depends i j ∧ (¬ satisfied j ∨ tc depends j j).

Definition well_founded_item : MarketplaceItem → Prop := Acc (λ d i, depends i d).

(** [i] is in the closure. *)
Definition included (st : closure_state) (i : MarketplaceItem) : Prop :=
  mi_key i ∈ dkeys (cl_closure st).
(** [i] is in the closure and so is everything it needs. *)
Definition finished (st : closure_state) (i : MarketplaceItem) : Prop :=
  satisfied i ∧ well_founded_item i ∧ ∀ d, depends i d → included st d.

Record wf_state (st : closure_state) : Prop := {
  ws_NoDup : NoDup (dkeys (cl_closure st));
  ws_item k c : (k, c) ∈ cl_closure st → ∃ i, i ∈ items ∧ mi_key i = k ∧ c = mi_coordinate i
}.

(** The items left to include. *)
Definition unvisited (st : closure_state) : nat :=
  length (filter (λ i, mi_key i ∉ dkeys (cl_closure st)) items).

Definition extends (st st' : closure_state) : Prop := ∀ i, included st i → included st' i.

Lemma extends_unvisited st st' : extends st st' → unvisited st' ≤ unvisited st.
Proof. intros He. apply count_filter_mono. intros i _ Hn Hk. by apply Hn, He. Qed.

Lemma finished_extends st st' i : extends st st' → finished st i → finished st' i.
Proof. intros He (Hs & Hw & Hd). split_and!; [done..|]. intros d Hid. by apply He, Hd. Qed.

Lemma item_unique i j : i ∈ items → j ∈ items → mi_key i = mi_key j → i = j.
Proof.
  intros Hi Hj E. assert (dget (mi_key i) records = Some i) as E1 by (by apply records_get).
  assert (dget (mi_key i) records = Some j) as E2 by (by apply records_get). congruence.
Qed.

Lemma coordinate_key i j : mi_coordinate i = mi_coordinate j → mi_key i = mi_key j.
Proof. unfold mi_coordinate, mi_key, ma_coordinate, ma_key, artifact_key. by intros [= -> -> _]. Qed.

Lemma coordinate_item i j : i ∈ items → j ∈ items → mi_coordinate i = mi_coordinate j → i = j.
Proof. intros Hi Hj E. apply item_unique; [done..|]. by apply coordinate_key. Qed.

Lemma meets_get i s d : meets i s d ↔
  dget (artifact_key (item_source i) (as_identity s)) records = Some d ∧ selector_allows s d = true.
Proof. unfold meets. rewrite records_get. tauto. Qed.

Lemma meets_unique i s d e : meets i s d → meets i s e → d = e.
Proof. rewrite !meets_get. intros [H1 _] [H2 _]. congruence. Qed.

(** What a piece of the traversal achieves: [good] when it reports nothing,
    [bad] when it reports something; [roots] are the items it may add from. *)
Record visit (st st' : closure_state) (root : MarketplaceItem → Prop) (good bad : Prop) : Prop := {
  vi_wf : wf_state st';
  vi_extends : extends st st';
  vi_new i : included st' i → i ∈ items → ¬ included st i → ∃ r, root r ∧ rtc depends r i;
  vi_result : ∃ ds, cl_diagnostics st' = cl_diagnostics st ++ ds ∧
                (ds = [] → good) ∧ (ds ≠ [] → bad)
}.

(** Everything in the closure is finished or on the trail. *)
Definition settled (trail : list MarketplaceItem) (st : closure_state) : Prop :=
  ∀ i, i ∈ items → included st i → i ∈ trail ∨ finished st i.

Lemma report_visit message st root (good bad : Prop) :
  wf_state st → bad → visit st (report message st) root good bad.
Proof.
  intros [Hn Hi] Hb. constructor; [by constructor|by intros i|by intros i Hin _ []|].
  eexists. split; [reflexivity|]. done.
Qed.

Lemma visit_trans st1 st2 st3 root (g1 g2 b1 b2 good bad : Prop) :
  visit st1 st2 root g1 b1 → visit st2 st3 root g2 b2 →
  (g1 → g2 → good) → (b1 → bad) → (b2 → bad) → visit st1 st3 root good bad.
Proof.
  intros [Hw1 He1 Hn1 (d1 & Hd1 & Hg1 & Hb1)] [Hw2 He2 Hn2 (d2 & Hd2 & Hg2 & Hb2)] Hg Hb Hb'.
  constructor; [done|intros i Hi; by apply He2, He1| |].
  - intros i Hi Hin Hno. destruct (decide (mi_key i ∈ dkeys (cl_closure st2))) as [H2|H2]; eauto.
  - exists (d1 ++ d2). split; [by rewrite Hd2, Hd1, app_assoc|]. split.
    + intros [-> ->]%app_nil. auto.
    + intros Hne. destruct d1; [apply Hb', Hb2; by intros ->|by apply Hb, Hb1].
Qed.
Lemma visit_impl st st' (root root' : MarketplaceItem → Prop) (good good' bad bad' : Prop) :
  visit st st' root good bad → (∀ i, root i → root' i) → (good → good') → (bad → bad') →
  visit st st' root' good' bad'.
Proof.
  intros [Hw He Hn (ds & Hds & Hg & Hb)] Hr Hgg Hbb. constructor; [done..| |].
  - intros i Hi Hin Hno. destruct (Hn i Hi Hin Hno) as (r & Hrr & Hri). eauto.
  - exists ds. auto.
Qed.

Lemma visit_refl st root (good bad : Prop) : wf_state st → good → visit st st root good bad.
Proof.
  intros Hw Hg. constructor; [done|by intros i|by intros i Hin _ []|]. exists []. by rewrite app_nil_r.
Qed.

Lemma broken_depends i d : depends i d → broken d → broken i.
Proof. intros Hd (j & Hj & Hb). exists j. split; [by eapply rtc_l|done]. Qed.

(** The items the recursion is inside of: each leads to [i]. *)
Definition trail_to (R : MarketplaceItem → MarketplaceItem → Prop) (st : closure_state)
    (trail : list MarketplaceItem) (i : MarketplaceItem) : Prop :=
  ∀ t, t ∈ trail → t ∈ items ∧ included st t ∧ R t i.

(** What a nested call does, as the loop uses it. *)
Definition includes (frames : nat) : Prop :=
  ∀ i trail st, i ∈ items → trail_to (tc depends) st trail i → wf_state st → unvisited st < frames →
  ∃ st', include records frames (mi_coordinate i) (map mi_coordinate trail) st = Ret st' ∧
    visit st st' (λ r, r = i)
      (included st' i ∧ i ∉ trail ∧ (settled trail st → settled trail st')) (broken i).

Lemma include_requires_visit frames i trail rs st :
  includes frames → i ∈ items → (∀ s, s ∈ rs → s ∈ ia_requires (mi_index i)) →
  trail_to (rtc depends) st trail i → wf_state st → unvisited st < frames →
  ∃ st', include_requires records
      (λ c st, include records frames c (map mi_coordinate trail) st) i rs st = Ret st' ∧
    visit st st' (depends i)
      ((∀ s, s ∈ rs → ∃ d, meets i s d ∧ included st' d ∧ d ∉ trail) ∧
       (settled trail st → settled trail st')) (broken i).
Proof.
  intros Hinc Hi. revert st. induction rs as [|s rs IH]; intros st Hrs Htr Hw Hf.
  { exists st. split; [done|]. apply visit_refl; [done|]. split; [|done]. intros s ?%elem_of_nil. done. }
  assert (∀ s', s' ∈ rs → s' ∈ ia_requires (mi_index i)) as Hrs' by (intros; apply Hrs; by right).
  assert (s ∈ ia_requires (mi_index i)) as Hs by (apply Hrs; left).
  assert (∀ message, (∀ d, ¬ meets i s d) → ∃ st', include_requires records
      (λ c st, include records frames c (map mi_coordinate trail) st) i rs (report message st) = Ret st' ∧
    visit st st' (depends i)
      ((∀ s', s' ∈ s :: rs → ∃ d, meets i s' d ∧ included st' d ∧ d ∉ trail) ∧
       (settled trail st → settled trail st')) (broken i)) as Hmissing.
  { intros message Hno.
    assert (broken i) as Hb.
    { exists i. split; [done|]. left. intros Hsat. destruct (Hsat s Hs) as [d Hd]. by eapply Hno. }
    destruct (IH (report message st) Hrs') as (st' & Hst' & Hv); [done|by destruct Hw|done|].
    exists st'. split; [done|].
    eapply (visit_trans st (report message st) st' (depends i) False _ _ _ _ _
      (report_visit message st _ False (broken i) Hw Hb) Hv); done. }
  cbn [include_requires]. destruct (dget _ records) as [d|] eqn:Hd.
  2:{ apply Hmissing. intros d [Hg _]%meets_get. congruence. }
  destruct (selector_allows s d) eqn:Ha.
  2:{ apply Hmissing. intros e [Hg He]%meets_get. congruence. }
  clear Hmissing. assert (meets i s d) as Hm by (by apply meets_get).
  assert (depends i d) as Hdep by (by exists s).
  destruct (Hinc d trail st) as (st1 & Hst1 & Hv1); [by destruct Hm| |done|done|].
  { intros t Ht. destruct (Htr t Ht) as (? & ? & Hti). split_and!; [done..|].
    eapply tc_rtc_l; [exact Hti|by apply tc_once]. }
  rewrite Hst1. cbn [mbind py_bind]. pose proof (vi_extends _ _ _ _ _ Hv1) as He1.
  destruct (IH st1 Hrs') as (st' & Hst' & Hv2).
  { intros t Ht. destruct (Htr t Ht) as (? & ? & ?). split_and!; auto. }
  { apply Hv1. }
  { pose proof (extends_unvisited _ _ He1). lia. }
  exists st'. split; [done|]. pose proof (vi_extends _ _ _ _ _ Hv2) as He2.
  eapply visit_trans; [eapply visit_impl; [exact Hv1|by intros ? ->|intros HH; exact HH|]|exact Hv2|..].
  - intros Hb. exact (broken_depends i d Hdep Hb).
  - intros (Hin & Hnt & Hset) (Hall & Hset'). split; [|auto].
    intros s' [->|Hs']%elem_of_cons; [|auto]. exists d. split_and!; auto.
  - done.
  - done.
Qed.

Lemma add_wf st i : i ∈ items → wf_state st →
  wf_state (MkClosure (dset (mi_key i) (mi_coordinate i) (cl_closure st)) (cl_diagnostics st)).
Proof.
  intros Hi [Hn Hit]. constructor; simpl; [by apply NoDup_dkeys_dset|].
  intros k c [[-> ->]|[_ Hin]]%elem_of_dset; [by exists i|by apply Hit|done].
Qed.

Lemma include_visit frames : includes frames.
Proof.
  induction frames as [|frames IH]; intros i trail st Hi Htr Hw Hf; [lia|].
  cbn [include]. change (artifact_key _ _) with (mi_key i).
  destruct (mem (mi_coordinate i) _) eqn:Hmem.
  { apply mem_true, list_elem_of_fmap in Hmem as (t & E & Ht).
    destruct (Htr t Ht) as (Hti & _ & Htc). apply coordinate_item in E as <-; [|done..].
    eexists. split; [reflexivity|]. apply report_visit; [done|]. exists i. split; [done|by right]. }
  apply mem_false in Hmem.
  assert (i ∉ trail) as Hnt by (intros Ht; apply Hmem, list_elem_of_fmap; eauto).
  destruct (mem (mi_key i) (dkeys (cl_closure st))) eqn:Hk.
  { apply mem_true in Hk. exists st. split; [done|]. by apply visit_refl. }
  apply mem_false in Hk. rewrite (proj2 (records_get (mi_key i) i)) by done.
  cbn [mi_coordinate ma_coordinate co_version]. rewrite bool_decide_true by done. cbn [negb].
  set (st1 := MkClosure (dset (mi_key i) (mi_coordinate i) (cl_closure st)) (cl_diagnostics st)).
  change (map mi_coordinate trail ++ [_]) with (map mi_coordinate trail ++ map mi_coordinate [i]).
  rewrite <-map_app.
  assert (∀ j, included st1 j ↔ mi_key j = mi_key i ∨ included st j) as Hin1
    by (intros j; apply elem_of_dkeys_dset).
  assert (extends st st1) as He1 by (intros j Hj; apply Hin1; auto).
  destruct (include_requires_visit frames i (trail ++ [i]) (ia_requires (mi_index i)) st1)
    as (st' & Hst' & Hv); [done|done|done| |by apply add_wf| |].
  { intros t [Ht| ->%list_elem_of_singleton]%elem_of_app.
    - destruct (Htr t Ht) as (? & ? & ?). split_and!; [done|by apply He1|by apply tc_rtc].
    - split_and!; [done|apply Hin1; auto|done]. }
  { assert (unvisited st1 < unvisited st); [|lia].
    eapply count_filter_lt with (x := i); [|done..|].
    - intros j _ Hj Hj'. by apply Hj, He1.
    - intros Hj. apply Hj, Hin1. auto. }
  exists st'. split; [exact Hst'|]. destruct Hv as [Hw' He' Hn' (ds & Hds & Hg & Hb)].
  constructor; [done|intros j Hj; by apply He', He1| |].
  - intros j Hj Hji Hno. destruct (decide (mi_key j = mi_key i)) as [E|E].
    + exists i. split; [done|]. by apply item_unique in E as ->.
    + destruct (Hn' j Hj Hji) as (r & Hr & Hrj); [by intros [?|?]%Hin1|].
      exists i. split; [done|]. by eapply rtc_l.
  - exists ds. split; [done|]. split; [|done]. intros Hnil. destruct (Hg Hnil) as [Hall Hset].
    assert (included st' i) as Hii by (apply He', Hin1; auto).
    split_and!; [done..|]. intros Hs j Hj Hji. clear Hg Hb.
    assert (settled (trail ++ [i]) st') as Hs'.
    { apply Hset. intros k Hk' [E|Hkk]%Hin1.
      - apply item_unique in E as ->; [|done..]. left. apply elem_of_app. right. by left.
      - destruct (Hs k Hk' Hkk) as [?|?]; [left; apply elem_of_app; auto|right].
        by eapply finished_extends. }
    assert (∀ d, depends i d → included st' d ∧ finished st' d) as Hdeps.
    { intros d (s & Hsr & Hm). destruct (Hall s Hsr) as (d' & Hm' & Hd' & Hnt').
      rewrite (meets_unique _ _ _ _ Hm Hm'). split; [done|].
      destruct (Hs' d') as [?|?]; [by destruct Hm'|done|done|done]. }
    destruct (Hs' j Hj Hji) as [[?| ->%list_elem_of_singleton]%elem_of_app|?]; [by left| |by right].
    right. split_and!.
    + intros s Hsr. destruct (Hall s Hsr) as (d & Hm & _). eauto.
    + constructor. intros d Hd. by apply Hdeps.
    + intros d Hd. by apply Hdeps.
Qed.
Lemma include_all_visit frames rs st :
  (∀ r, r ∈ rs → r ∈ items) → wf_state st → unvisited st < frames →
  ∃ st', include_all records frames (map mi_coordinate rs) st = Ret st' ∧
    visit st st' (λ r, r ∈ rs)
      ((∀ r, r ∈ rs → included st' r) ∧ (settled [] st → settled [] st'))
      (∃ r, r ∈ rs ∧ broken r).
Proof.
  revert st. induction rs as [|r rs IH]; intros st Hrs Hw Hf.
  { exists st. split; [done|]. apply visit_refl; [done|]. split; [|done]. by intros r ?%elem_of_nil. }
  cbn [include_all map].
  destruct (include_visit frames r [] st) as (st1 & Hst1 & Hv1);
    [by apply Hrs; left|by intros t ?%elem_of_nil|done|done|].
  change (map mi_coordinate []) with (@nil ArtifactCoordinate) in Hst1.
  rewrite Hst1. cbn [mbind py_bind]. pose proof (vi_extends _ _ _ _ _ Hv1) as He1.
  destruct (IH st1) as (st' & Hst' & Hv2); [intros; apply Hrs; by right|apply Hv1| |].
  { pose proof (extends_unvisited _ _ He1). lia. }
  exists st'. split; [done|]. pose proof (vi_extends _ _ _ _ _ Hv2) as He2.
  eapply visit_trans.
  - eapply visit_impl; [exact Hv1| |intros HH; exact HH|intros HH; exact HH]. intros ? ->. left.
  - eapply visit_impl; [exact Hv2| |intros HH; exact HH|intros HH; exact HH]. intros. by right.
  - intros (Hin & _ & Hset) (Hall & Hset'). split; [|auto].
    intros x [->|Hx]%elem_of_cons; auto.
  - intros Hb. exists r. split; [left|done].
  - intros (x & Hx & Hb). exists x. split; [by right|done].
Qed.

(** The items an installation of [rs] needs. *)
Definition needed (rs : list MarketplaceItem) (i : MarketplaceItem) : Prop :=
  ∃ r, r ∈ rs ∧ rtc depends r i.

Lemma depends_item i d : depends i d → d ∈ items.
Proof. by intros (s & _ & Hd & _). Qed.

Lemma needed_item rs i : (∀ r, r ∈ rs → r ∈ items) → needed rs i → i ∈ items.
Proof.
  intros Hrs (r & Hr & Hri). apply rtc_inv_r in Hri as [<-|(j & _ & Hd)]; [auto|].
  by apply depends_item in Hd.
Qed.

(** A settled closure holds what its roots need. *)
Lemma settled_needed rs st i :
  (∀ r, r ∈ rs → r ∈ items ∧ included st r) → settled [] st → needed rs i →
  included st i ∧ finished st i.
Proof.
  intros Hrs Hs (r & Hr & Hri). destruct (Hrs r Hr) as [Hri' Hrin].
  assert (∀ j, j ∈ items → included st j → finished st j) as Hfin.
  { intros j Hj Hjin. by destruct (Hs j Hj Hjin) as [?%elem_of_nil|?]. }
  clear Hr. induction Hri as [x|x y z Hxy Hyz IH]; [auto|].
  apply IH; [by eapply depends_item|]. by apply (Hfin x Hri' Hrin).
Qed.

(** The outcome of the traversal from the empty closure. *)
Lemma closure_outcome frames rs :
  (∀ r, r ∈ rs → r ∈ items) → length items < frames →
  ∃ st, include_all records frames (map mi_coordinate rs) (MkClosure [] []) = Ret st ∧
    wf_state st ∧
    (cl_diagnostics st = [] → (∀ i, i ∈ items → included st i ↔ needed rs i) ∧
       ∀ i, needed rs i → satisfied i ∧ ¬ tc depends i i) ∧
    (cl_diagnostics st ≠ [] → ∃ i, needed rs i ∧ (¬ satisfied i ∨ tc depends i i)).
Proof.
  intros Hrs Hf.
  assert (wf_state (MkClosure [] [])) as Hw by (constructor; [constructor|by intros ?? ?%elem_of_nil]).
  destruct (include_all_visit frames rs (MkClosure [] []) Hrs Hw) as (st & Hst & [Hw' He Hn (ds & Hds & Hg & Hb)]).
  { unfold unvisited. pose proof (length_filter (λ i, mi_key i ∉ dkeys (@nil (akey * ArtifactCoordinate))) items).
    simpl in *. lia. }
  exists st. simpl in Hds. rewrite Hds. split_and!; [done|done| |].
  - intros Hnil. destruct (Hg Hnil) as [Hall Hset].
    assert (settled [] st) as Hs by (apply Hset; intros i _ ?%elem_of_nil; done).
    assert (∀ i, needed rs i → included st i ∧ finished st i) as Hneed
      by (intros i; apply settled_needed; auto).
    split.
    + intros i Hi. split; [|by intros [? _]%Hneed].
      intros Hin. apply (Hn i Hin Hi). by intros ?%elem_of_nil.
    + intros i [_ (Hsat & Hacc & _)]%Hneed. split; [done|]. by apply acc_no_cycle.
  - intros Hne. destruct (Hb Hne) as (r & Hr & j & Hrj & Hbad). exists j. split; [by exists r|done].
Qed.
End closure.

(** * The closure of a catalog *)

Section catalog.
Context `{UnicodeData} `{SetOrder} (catalog : MarketplaceCatalog).
Hypothesis unique : NoDup (map mi_key (ct_items catalog)).

Lemma catalog_records_get k i :
  dget k (catalog_records catalog) = Some i ↔ i ∈ ct_items catalog ∧ mi_key i = k.
Proof.
  unfold catalog_records.
  change (map (λ i, (mi_key i, i)) (ct_items catalog)) with ((λ i, (mi_key i, i)) <$> ct_items catalog).
  assert (NoDup (((λ i, (mi_key i, i)) <$> ct_items catalog).*1)) as Hnd
    by (rewrite <-list_fmap_compose; exact unique).
  rewrite dict_of_fresh by done. split.
  - intros Hin%dget_elem_of. by apply list_elem_of_fmap in Hin as (m & [= -> ->] & Hm).
  - intros [Hm <-]. apply elem_of_dget; [done|]. apply list_elem_of_fmap. by exists i.
Qed.

(** Coordinates that name items of the catalog exactly. *)
Definition named_items (requested : list ArtifactCoordinate) (rs : list MarketplaceItem) : Prop :=
  requested = map mi_coordinate rs ∧ ∀ r, r ∈ rs → r ∈ ct_items catalog.

Lemma closure_values st i : wf_state (ct_items catalog) st → i ∈ ct_items catalog →
  mi_coordinate i ∈ dvalues (cl_closure st) ↔ included st i.
Proof.
  intros [Hn Hit] Hi. unfold included. rewrite elem_of_dvalues. split.
  - intros [k Hk]. destruct (Hit k _ Hk) as (j & Hj & <- & E).
    apply (coordinate_item _ _ catalog_records_get) in E as ->; [|done..].
    apply list_elem_of_fmap. by exists (mi_key j, mi_coordinate j).
  - intros ([k c] & E & Hin)%list_elem_of_fmap. simpl in E. subst k.
    destruct (Hit _ _ Hin) as (j & Hj & Hk & ->).
    apply (item_unique _ _ catalog_records_get) in Hk as ->; [|done..]. by eexists.
Qed.

Lemma closure_NoDup st : wf_state (ct_items catalog) st → NoDup (dvalues (cl_closure st)).
Proof.
  intros [Hn Hit]. unfold dvalues, dkeys in *. revert Hn Hit.
  induction (cl_closure st) as [|[k c] l IH]; intros Hn Hit; [constructor|].
  apply NoDup_cons in Hn as [Hk Hn]. cbn [fmap list_fmap]. apply NoDup_cons. split.
  - intros ([k' c'] & E & Hin)%list_elem_of_fmap. simpl in E. subst c'.
    destruct (Hit k c) as (i & Hi & Ek & Ei); [left|].
    destruct (Hit k' c) as (j & Hj & Ek' & Ej); [by right|].
    rewrite Ei in Ej. apply coordinate_key in Ej. apply Hk, list_elem_of_fmap.
    exists (k', c). split; [|done]. simpl. congruence.
  - apply IH; [done|]. intros k' c' Hin. apply Hit. by right.
Qed.

Lemma dependency_closure_cases frames requested rs :
  named_items requested rs → length (ct_items catalog) < frames →
  match dependency_closure frames catalog requested with
  | Ret (Ok l) =>
      NoDup l ∧ StronglySorted (key_le coordinate_str) l ∧
      (∀ c, c ∈ l ↔ ∃ i, needed (ct_items catalog) rs i ∧ c = mi_coordinate i) ∧
      (∀ i, needed (ct_items catalog) rs i →
         satisfied (ct_items catalog) i ∧ ¬ tc (depends (ct_items catalog)) i i)
  | Ret (Err ds) =>
      ds ≠ [] ∧ ∃ i, needed (ct_items catalog) rs i ∧
        (¬ satisfied (ct_items catalog) i ∨ tc (depends (ct_items catalog)) i i)
  | Raise _ => False
  end.
Proof.
  intros [-> Hrs] Hf.
  destruct (closure_outcome _ _ catalog_records_get frames rs Hrs Hf) as (st & Hst & Hw & Hok & Hbad).
  unfold dependency_closure. rewrite Hst. cbn [mbind py_bind].
  destruct (cl_diagnostics st) as [|d ds].
  - destruct (Hok eq_refl) as [Hin Hneed]. split_and!.
    + apply NoDup_sorted. by apply closure_NoDup.
    + apply sorted_sorted.
    + intros c. rewrite elem_of_sorted. split.
      * intros Hc. pose proof Hc as [k Hk]%elem_of_dvalues.
        destruct (ws_item _ _ Hw k c Hk) as (i & Hi & _ & ->). exists i. split; [|done].
        apply Hin; [done|]. by apply closure_values.
      * intros (i & Hi & ->). assert (i ∈ ct_items catalog) as Hic by (by eapply needed_item).
        apply closure_values; [done..|]. by apply Hin.
    + done.
  - split; [|by apply Hbad]. by rewrite sorted_nil_iff.
Qed.
End catalog.

(** * Single artifacts *)

Lemma filter_shape {A} (p : A → bool) l : NoDup l →
  match List.filter p l with
  | [] => ∀ y, y ∈ l → p y = false
  | [x] => x ∈ l ∧ p x = true ∧ ∀ y, y ∈ l → p y = true → y = x
  | x :: y :: _ => x ≠ y ∧ x ∈ l ∧ y ∈ l ∧ p x = true ∧ p y = true
  end.
Proof.
  intros Hn. assert (∀ y, y ∈ List.filter p l ↔ y ∈ l ∧ p y = true) as Hin
    by (intros y; rewrite !list_elem_of_In; apply filter_In).
  assert (NoDup (List.filter p l)) as Hnf.
  { clear Hin. induction Hn as [|x l Hx Hn IH]; simpl; [constructor|].
    case_match; [|done]. constructor; [|done]. rewrite list_elem_of_In, filter_In, <-list_elem_of_In.
    by intros [? _]. }
  destruct (List.filter p l) as [|x [|y k]].
  - intros y Hy. apply not_true_is_false. intros Hp.
    assert (y ∈ @nil A) as Hnil by (by apply Hin). by apply elem_of_nil in Hnil.
  - destruct (proj1 (Hin x)) as [Hx Hp]; [left|]. split_and!; [done..|]. intros y Hy Hpy.
    assert (y ∈ [x]) as Hyx by (by apply Hin). by apply list_elem_of_singleton in Hyx.
  - destruct (proj1 (Hin x)) as [Hx Hp]; [left|]. destruct (proj1 (Hin y)) as [Hy Hpy]; [right; left|].
    apply NoDup_cons in Hnf as [Hxy _]. split_and!; try done. intros ->. apply Hxy. left.
Qed.

(** [r] is an available item that [query] can mean. *)
Definition answers (query : ArtifactQuery) (r : MarketplaceItem) : Prop :=
  ma_lifecycle (mi_artifact r) = AVAILABLE ∧ ia_identity (mi_index r) = aq_identity query ∧
  (∀ a, aq_source query = Some a → ma_source_alias (mi_artifact r) = a) ∧
  (∀ v, aq_version query = Some v → semver_str (ia_version (mi_index r)) = v).

Lemma query_matches_answers query r : query_matches query r = true ↔ answers query r.
Proof.
  unfold query_matches, answers. rewrite !andb_true_iff, !bool_decide_eq_true.
  destruct (aq_source query), (aq_version query); rewrite ?bool_decide_eq_true; naive_solver.
Qed.

(** The sources a query is asked of. *)
Definition in_scope (catalog : MarketplaceCatalog) (query : ArtifactQuery)
    (v : MarketplaceSourceView) : Prop :=
  v ∈ ct_sources catalog ∧ ∀ a, aq_source query = Some a → vw_alias v = a.

(** Which layer failed when nothing answers. *)
Definition failure_layer (catalog : MarketplaceCatalog) (query : ArtifactQuery)
    (code : DiagnosticCode) : Prop :=
  (code = SOURCE_UNAVAILABLE ∧ ∀ v, ¬ in_scope catalog query v) ∨
  (code = SOURCE_NOT_SYNCHRONIZED ∧ (∃ v, in_scope catalog query v) ∧
     ∀ v, in_scope catalog query v → vw_snapshot_digest v = None) ∨
  (code = ARTIFACT_NOT_FOUND ∧ ∃ v, in_scope catalog query v ∧ vw_snapshot_digest v ≠ None).

Section single.
Context `{UnicodeData} (catalog : MarketplaceCatalog) (query : ArtifactQuery) (offline : bool).
Hypothesis unique : NoDup (map mi_key (ct_items catalog)).

Lemma resolution_failure_layer :
  failure_layer catalog query (d_code (resolution_failure catalog query offline)).
Proof.
  unfold resolution_failure.
  set (scope := match aq_source query with None => _ | Some a => _ end).
  assert (∀ v, v ∈ scope ↔ in_scope catalog query v) as Hs.
  { intros v. unfold scope, in_scope. destruct (aq_source query) as [a|]; [|naive_solver].
    rewrite !list_elem_of_In, filter_In, bool_decide_eq_true. naive_solver. }
  unfold failure_layer. setoid_rewrite <-Hs. clear Hs.
  destruct scope as [|first rest].
  { left. split; [done|]. by intros v ?%elem_of_nil. }
  set (all := first :: rest). right.
  destruct (forallb _ all) eqn:E.
  - left. rewrite forallb_forall in E. split_and!; [by destruct offline|exists first; left|].
    intros v Hv%list_elem_of_In. specialize (E v Hv). by apply bool_decide_eq_true in E.
  - right. split; [done|]. revert E. generalize all. clear. intros l.
    induction l as [|v l IH]; [done|]. simpl. rewrite andb_false_iff, bool_decide_eq_false.
    intros [Hv|Hl]; [exists v; split; [left|done]|].
    destruct (IH Hl) as (w & Hw & Hn). exists w. split; [by right|done].
Qed.

Lemma resolve_artifact_cases :
  match resolve_artifact catalog query offline with
  | Ok r => r ∈ ct_items catalog ∧ answers query r ∧
      ∀ q, q ∈ ct_items catalog → answers query q → q = r
  | Err ds => ∃ d, ds = [d] ∧
      ((d_code d = ARTIFACT_AMBIGUOUS ∧ ∃ r q, r ∈ ct_items catalog ∧ q ∈ ct_items catalog ∧
          answers query r ∧ answers query q ∧
          ma_source_alias (mi_artifact r) ≠ ma_source_alias (mi_artifact q)) ∨
       ((∀ r, r ∈ ct_items catalog → ¬ answers query r) ∧ failure_layer catalog query (d_code d)))
  end.
Proof.
  unfold resolve_artifact.
  pose proof (filter_shape (query_matches query) (ct_items catalog) (NoDup_fmap_1 mi_key _ unique)) as Hf.
  destruct (List.filter _ _) as [|r [|q l]].
  - eexists. split; [done|]. right. split; [|apply resolution_failure_layer].
    intros r Hr Ha%query_matches_answers. by rewrite Hf in Ha.
  - destruct Hf as (Hr & Ha%query_matches_answers & Hu). split_and!; [done..|].
    intros q Hq Haq%query_matches_answers. by apply Hu.
  - destruct Hf as (Hne & Hr & Hq & Ha%query_matches_answers & Hb%query_matches_answers).
    eexists. split; [done|]. left. split; [done|]. exists r, q. split_and!; [done..|].
    intros E. apply Hne. eapply (item_unique _ _ (catalog_records_get catalog unique)); [done..|].
    destruct Ha as (_ & Ha & _), Hb as (_ & Hb & _).
    unfold mi_key, ma_key, artifact_key. rewrite E. f_equal. unfold mi_index in *. congruence.
Qed.
(** C40: a query resolves exactly when one available item answers it; two
    answers, which are then from different sources, are refused as ambiguous,
    and when nothing answers the diagnostic names the layer that failed. *)
Theorem resolve_artifact_exact :
  match resolve_artifact catalog query offline with
  | Ok r => r ∈ ct_items catalog ∧ answers query r ∧
      ∀ q, q ∈ ct_items catalog → answers query q → q = r
  | Err ds => ∃ d, ds = [d] ∧
      ((d_code d = ARTIFACT_AMBIGUOUS ∧ ∃ r q, r ∈ ct_items catalog ∧ q ∈ ct_items catalog ∧
          answers query r ∧ answers query q ∧
          ma_source_alias (mi_artifact r) ≠ ma_source_alias (mi_artifact q)) ∨
       ((∀ r, r ∈ ct_items catalog → ¬ answers query r) ∧ failure_layer catalog query (d_code d)))
  end.
Proof. exact resolve_artifact_cases. Qed.
End single.

(** * Selectors *)

Definition valid_catalog (catalog : MarketplaceCatalog) : Prop :=
  marketplace_catalog (ct_sources catalog) (ct_items catalog) (ct_collections catalog)
    (ct_diagnostics catalog) = Ret catalog.

Record catalog_facts (catalog : MarketplaceCatalog) : Prop := {
  cf_items : NoDup (map mi_key (ct_items catalog));
  cf_collections : NoDup (map mc_coordinate (ct_collections catalog));
  cf_members c m : c ∈ ct_collections catalog → m ∈ mc_members c →
    ∃ i, i ∈ ct_items catalog ∧ m = mi_coordinate i
}.

Lemma marketplace_catalog_facts sources items collections ds catalog :
  marketplace_catalog sources items collections ds = Ret catalog → catalog_facts catalog.
Proof.
  unfold marketplace_catalog. intros E. inv_py. split_guard. constructor; simpl; [done..|].
  match goal with Hx : existsb _ (_ ≫= mc_members) = false |- _ => rename Hx into Hm end.
  intros c m Hc Hmc. rewrite (existsb_negb (λ m, mem m (map mi_coordinate (sorted item_key items)))) in Hm.
  specialize (Hm m). rewrite mem_true, list_elem_of_bind, list_elem_of_fmap in Hm.
  destruct Hm as (i & -> & Hi); eauto.
Qed.

Definition collection_named (s : ArtifactSelector) (c : MarketplaceCollection) : Prop :=
  cc_name (mc_coordinate c) = id_name (sel_identity s) ∧
  ∀ a, sel_source s = Some a → cc_source (mc_coordinate c) = a.
Definition selector_query (s : ArtifactSelector) : ArtifactQuery :=
  MkQuery (sel_identity s) (sel_source s) (sel_version s).

(** The selector is answered by one item, or names one collection. *)
Definition resolves (catalog : MarketplaceCatalog) (s : ArtifactSelector) : Prop :=
  if bool_decide (id_kind (sel_identity s) = Collection)
  then ∃ c, c ∈ ct_collections catalog ∧ collection_named s c ∧
         ∀ c', c' ∈ ct_collections catalog → collection_named s c' → c' = c
  else ∃ r, r ∈ ct_items catalog ∧ answers (selector_query s) r ∧
         ∀ q, q ∈ ct_items catalog → answers (selector_query s) q → q = r.
(** [r] is the item it is answered by, or a member of that collection. *)
Definition selects (catalog : MarketplaceCatalog) (s : ArtifactSelector) (r : MarketplaceItem) : Prop :=
  r ∈ ct_items catalog ∧
  if bool_decide (id_kind (sel_identity s) = Collection)
  then ∃ c, c ∈ ct_collections catalog ∧ collection_named s c ∧ mi_coordinate r ∈ mc_members c
  else answers (selector_query s) r.

Section selectors.
Context `{UnicodeData} `{SetOrder} (catalog : MarketplaceCatalog).
Hypothesis facts : catalog_facts catalog.

(** The checks of [ArtifactQuery] on what the selector asks for. *)
Definition valid_query (s : ArtifactSelector) : Prop :=
  id_kind (sel_identity s) ≠ Collection →
  artifact_query (sel_identity s) (sel_source s) (sel_version s) = Ret (selector_query s).

Lemma resolve_collection_spec s : id_kind (sel_identity s) = Collection →
  match resolve_collection catalog s with
  | Ok cs => resolves catalog s ∧ ∀ c, c ∈ cs ↔ ∃ r, selects catalog s r ∧ c = mi_coordinate r
  | Err ds => ds ≠ [] ∧ ¬ resolves catalog s
  end.
Proof.
  intros Hk. unfold resolve_collection, resolves, selects. rewrite bool_decide_true by done.
  set (p := λ c : MarketplaceCollection, _ && _).
  assert (∀ c, p c = true ↔ collection_named s c) as Hp.
  { intros c. unfold p, collection_named. rewrite andb_true_iff, bool_decide_eq_true.
    destruct (sel_source s); rewrite ?bool_decide_eq_true; naive_solver. }
  pose proof (filter_shape p _ (NoDup_fmap_1 mc_coordinate _ (cf_collections _ facts))) as Hf.
  destruct (List.filter p _) as [|c [|c' l]].
  - split; [done|]. intros (c & Hc & Hn%Hp & _). by rewrite Hf in Hn.
  - destruct Hf as (Hc & Hn%Hp & Hu). split.
    + exists c. split_and!; [done..|]. intros c' Hc' Hn'%Hp. auto.
    + intros m. split.
      * intros Hm. destruct (cf_members _ facts c m Hc Hm) as (i & Hi & ->). naive_solver.
      * intros (r & (Hr & c' & Hc' & Hn'%Hp & Hm) & ->). by rewrite <-(Hu c' Hc' Hn').
  - destruct Hf as (Hne & Hc & Hc' & Hn%Hp & Hn'%Hp). split; [done|].
    intros (c0 & _ & _ & Hu). apply Hne. by rewrite (Hu c), (Hu c').
Qed.

Lemma resolve_selector_spec offline s : valid_query s →
  ∃ res, resolve_selector catalog offline s = Ret res ∧
  match res with
  | Ok cs => resolves catalog s ∧ ∀ c, c ∈ cs ↔ ∃ r, selects catalog s r ∧ c = mi_coordinate r
  | Err ds => ds ≠ [] ∧ ¬ resolves catalog s
  end.
Proof.
  intros Hq. unfold resolve_selector.
  destruct (bool_decide_reflect (id_kind (sel_identity s) = Collection)) as [Hk|Hk].
  { eexists. split; [done|]. by apply resolve_collection_spec. }
  rewrite (Hq Hk). cbn [mbind py_bind]. eexists. split; [done|].
  pose proof (resolve_artifact_cases catalog (selector_query s) offline (cf_items _ facts)) as Hr.
  unfold resolves, selects. rewrite bool_decide_false by done.
  destruct (resolve_artifact _ _ _) as [r|ds].
  - destruct Hr as (Hr & Ha & Hu). split; [by exists r|]. intros c.
    rewrite list_elem_of_singleton. split; [intros ->; by exists r|].
    intros (q & [Hq' Haq] & ->). by rewrite (Hu q).
  - destruct Hr as (d & -> & [(_ & r & q & Hr & Hq' & Ha & Haq & Hne)|[Hno _]]); (split; [done|]).
    + intros (x & _ & _ & Hu). apply Hne. by rewrite (Hu r), (Hu q).
    + intros (r & Hr & Ha & _). by apply (Hno r).
Qed.

(** The constructor of a query raises for a selector that is none. *)
Lemma resolve_selector_cases offline s :
  valid_query s ∨ (¬ valid_query s ∧ ∃ m, resolve_selector catalog offline s = Raise (ValueError m)).
Proof.
  unfold valid_query, resolve_selector.
  destruct (bool_decide_reflect (id_kind (sel_identity s) = Collection)) as [Hk|Hk]; [by left|].
  unfold artifact_query, raise_if. destruct (_ || _); cbn [mbind py_bind]; [right|by left].
  split; [by intros Hq; specialize (Hq Hk)|by eexists].
Qed.
Definition invalid_selector (selectors : list ArtifactSelector) : Prop :=
  ∃ s, s ∈ selectors ∧ ¬ valid_query s.

Lemma resolve_loop_spec offline selectors cs ds :
  (invalid_selector selectors ∧ ∃ m, resolve_loop catalog offline selectors cs ds = Raise (ValueError m)) ∨
  ∃ cs' ds', resolve_loop catalog offline selectors cs ds = Ret (cs ++ cs', ds ++ ds') ∧
    (ds' = [] → (∀ s, s ∈ selectors → resolves catalog s) ∧
       ∀ c, c ∈ cs' ↔ ∃ s r, s ∈ selectors ∧ selects catalog s r ∧ c = mi_coordinate r) ∧
    (ds' ≠ [] → ∃ s, s ∈ selectors ∧ ¬ resolves catalog s).
Proof.
  revert cs ds. induction selectors as [|s selectors IH]; intros cs ds.
  { right. exists [], []. rewrite !app_nil_r. split_and!; [done| |done]. intros _.
    split; [by intros s ?%elem_of_nil|]. intros c. rewrite elem_of_nil.
    split; [done|]. by intros (s & r & ?%elem_of_nil & _). }
  assert (invalid_selector selectors → invalid_selector (s :: selectors)) as Hlater.
  { intros (x & ? & ?). exists x. split; [by right|done]. }
  cbn [resolve_loop]. destruct (resolve_selector_cases offline s) as [Hs|[Hs [m ->]]].
  2:{ left. split; [exists s; split; [left|done]|by exists m]. }
  destruct (resolve_selector_spec offline s Hs) as (res & -> & Hres).
  cbn [mbind py_bind]. destruct res as [c1|d1]; destruct Hres as [H1 H2].
  - destruct (IH (cs ++ c1) ds) as [[Hi Hr]|(cs' & ds' & -> & Hok & Hbad)]; [left; by split; [apply Hlater|]|right].
    exists (c1 ++ cs'), ds'. rewrite <-!app_assoc. split_and!; [done| |].
    + intros Hn. destruct (Hok Hn) as [Hall Hin]. split.
      * by intros s' [->|Hs']%elem_of_cons; [|apply Hall].
      * intros c. rewrite elem_of_app, H2, Hin. setoid_rewrite elem_of_cons. naive_solver.
    + intros Hn. destruct (Hbad Hn) as (s' & Hs' & Hr). exists s'. split; [by right|done].
  - destruct (IH cs (ds ++ d1)) as [[Hi Hr]|(cs' & ds' & -> & Hok & Hbad)]; [left; by split; [apply Hlater|]|right].
    exists cs', (d1 ++ ds'). rewrite <-!app_assoc. split_and!; [done| |].
    + by intros [-> ->]%app_nil.
    + intros _. exists s. split; [left|done].
Qed.

Lemma named_list requested :
  (∀ c, c ∈ requested → ∃ r, r ∈ ct_items catalog ∧ c = mi_coordinate r) →
  ∃ rs, named_items catalog requested rs.
Proof.
  unfold named_items. induction requested as [|c requested IH]; intros Hc.
  - exists []. split; [done|]. by intros r ?%elem_of_nil.
  - destruct IH as (rs & -> & Hrs); [intros c' Hc'; apply Hc; by right|].
    destruct (Hc c) as (r & Hr & ->); [left|]. exists (r :: rs). split; [done|].
    by intros x [->|Hx]%elem_of_cons; [|apply Hrs].
Qed.

(** The items the selectors need. *)
Definition selection_needs (selectors : list ArtifactSelector) (i : MarketplaceItem) : Prop :=
  ∃ s r, s ∈ selectors ∧ selects catalog s r ∧ rtc (depends (ct_items catalog)) r i.

(** C32: resolving selectors against a valid catalog, given a recursion limit
    beyond the number of items, succeeds exactly when every selector is answered
    by one available item or names one collection, everything needed has its
    requirements met by items of the same source at allowed versions, and
    nothing needed depends on itself; the result is then exactly what the
    selectors need, once each, in the order of its text.  Whether a requirement
    is met does not depend on its lifecycle: an item that its source has removed
    meets it ([removed_dependency_resolved] below).  Otherwise there are
    diagnostics, except that a selector of which no query can be made raises
    the [ValueError] of the constructor ([parsed_selector_raises]). *)
Theorem resolve_selectors_exact frames selectors offline :
  length (ct_items catalog) < frames →
  match resolve_selectors frames catalog selectors offline with
  | Ret (Ok l) =>
      (∀ s, s ∈ selectors → resolves catalog s) ∧
      NoDup l ∧ StronglySorted (key_le coordinate_str) l ∧
      (∀ c, c ∈ l ↔ ∃ i, selection_needs selectors i ∧ c = mi_coordinate i) ∧
      (∀ i, selection_needs selectors i →
         satisfied (ct_items catalog) i ∧ ¬ tc (depends (ct_items catalog)) i i)
  | Ret (Err ds) =>
      ds ≠ [] ∧ ((∃ s, s ∈ selectors ∧ ¬ resolves catalog s) ∨
        ∃ i, selection_needs selectors i ∧
          (¬ satisfied (ct_items catalog) i ∨ tc (depends (ct_items catalog)) i i))
  | Raise e => invalid_selector selectors ∧ ∃ m, e = ValueError m
  end.
Proof.
  intros Hf. unfold resolve_selectors.
  destruct (resolve_loop_spec offline selectors [] []) as [[Hi [m ->]]|(cs & ds & -> & Hok & Hbad)].
  { cbn [mbind py_bind]. split; [done|by exists m]. }
  cbn [mbind py_bind app]. destruct ds as [|d ds].
  2:{ split; [done|]. left. by apply Hbad. }
  destruct (Hok eq_refl) as [Hall Hin]. clear Hok Hbad.
  set (requested := sorted_py_set _ _ cs).
  assert (∀ c, c ∈ requested ↔ c ∈ cs) as Hreq
    by (intros c; apply elem_of_sorted_py_set; intros x y; apply bool_decide_eq_true).
  destruct (named_list requested) as [rs Hrs].
  { intros c (s & r & Hs & [Hr _] & ->)%Hreq%Hin. eauto. }
  assert (∀ i, needed (ct_items catalog) rs i ↔ selection_needs selectors i) as Hneed.
  { destruct Hrs as [E Hrs]. intros i. split.
    - intros (r & Hr & Hri). assert (mi_coordinate r ∈ requested) as Hc
        by (rewrite E; apply list_elem_of_fmap; eauto).
      apply Hreq, Hin in Hc as (s & q & Hs & Hsq & Eq). exists s, q. split_and!; [done..|].
      apply (coordinate_item _ _ (catalog_records_get catalog (cf_items _ facts))) in Eq as <-;
        [done|by apply Hrs|by destruct Hsq].
    - intros (s & r & Hs & Hr & Hri). assert (mi_coordinate r ∈ requested) as Hc
        by (apply Hreq, Hin; eauto).
      rewrite E in Hc. apply list_elem_of_fmap in Hc as (q & Eq & Hqr). exists q. split; [done|].
      apply (coordinate_item _ _ (catalog_records_get catalog (cf_items _ facts))) in Eq as ->;
        [done|by destruct Hr|by apply Hrs]. }
  pose proof (dependency_closure_cases catalog (cf_items _ facts) frames requested rs Hrs Hf) as Hc.
  destruct (dependency_closure _ _ _) as [[l|ds]|]; [| |done].
  - destruct Hc as (Hn & Hs & Hl & Hok). split_and!; try done.
    + intros c. rewrite Hl. by setoid_rewrite Hneed.
    + intros i Hi%Hneed. by apply Hok.
  - destruct Hc as (Hne & i & Hi%Hneed & Hb). split; [done|]. right. by exists i.
Qed.
End selectors.

(** * A concrete catalog *)

Section sample.
Definition catalog_digest : ObjectDigest := sha256_bytes "object".
Definition catalog_view : MarketplaceSourceView :=
  MkView (MkAlias "team") REGISTRY_GIT (Some (MkSourceId "team")) "host/team" (Some "rev")
    (Some catalog_digest) HEALTHY (Some 5%Z) 0 true [].
Definition catalog_item (lifecycle : ArtifactLifecycle) (name : string) (requires : list string) :
    MarketplaceItem :=
  MkMarketItem
    (MkArtifact (MkAlias "team") (MkSourceId "team")
       (MkIndexArtifact (MkSourceId "team") (MkIdentity Skill name) (MkSemVer 1 0 0 [] []) "a summary"
          catalog_digest catalog_digest catalog_digest (MkCompatibilitySpec ["claude"] ["linux"])
          (MkInstallSpec ["project"] ["copy"] ["write-file"]) None None None [] no_bounds
          (map (λ n, Protocol.MkSelector (MkIdentity Skill n) None) requires))
       catalog_digest lifecycle)
    catalog_view (MkTrust UNVERIFIED catalog_digest ["not reviewed"]).
(** [app] requires [lib], which requires [base]. *)
Definition sample_catalog (lifecycle : ArtifactLifecycle) : MarketplaceCatalog :=
  MkCatalog [catalog_view]
    [catalog_item AVAILABLE "app" ["lib"]; catalog_item AVAILABLE "base" [];
     catalog_item lifecycle "lib" ["base"]] [] [].
Definition sample_selector (name : string) : ArtifactSelector :=
  MkSelector (MkIdentity Skill name) None None.

Lemma sample_catalog_valid lifecycle : valid_catalog (sample_catalog lifecycle).
Proof. destruct lifecycle; vm_compute; reflexivity. Qed.

Lemma sample_catalog_facts lifecycle : catalog_facts (sample_catalog lifecycle).
Proof. eapply marketplace_catalog_facts, sample_catalog_valid. Qed.

Lemma sample_closure :
  @resolve_selectors ascii_unicode insertion_order 10 (sample_catalog AVAILABLE)
    [sample_selector "app"] false
  = Ret (Ok (map (λ n, MkCoordinate (MkAlias "team") (MkIdentity Skill n) (Some "1.0.0"))
               ["app"; "base"; "lib"])).
Proof. vm_compute. reflexivity. Qed.
End sample.

(** The closure takes a dependency the source has removed: the lookup it
    repeats does not look at the lifecycle. *)
Theorem removed_dependency_resolved :
  ∃ catalog l i, valid_catalog catalog ∧
    @resolve_selectors ascii_unicode insertion_order 10 catalog [sample_selector "app"] false
    = Ret (Ok l) ∧
    i ∈ ct_items catalog ∧ ma_lifecycle (mi_artifact i) = REMOVED ∧ mi_coordinate i ∈ l.
Proof.
  exists (sample_catalog REMOVED). eexists. exists (catalog_item REMOVED "lib" ["base"]).
  split; [apply sample_catalog_valid|]. split; [vm_compute; reflexivity|].
  split; [right; right; left|]. split; [reflexivity|]. right; right; left.
Qed.

(** A selector the parser accepts can make the resolution raise: the parser
    does not check that a name is one [ArtifactQuery] takes. *)
Theorem parsed_selector_raises :
  ∃ l, @parse_artifact_selectors ascii_unicode insertion_order ["skill/My_Skill"] = Ok l ∧
    @resolve_selectors ascii_unicode insertion_order 10 (sample_catalog AVAILABLE) l false
    = Raise (ValueError "marketplace artifact query is invalid").
Proof. exists [sample_selector "My_Skill"]. split; vm_compute; reflexivity. Qed.

Lemma resolve_selectors_exact_witness :
  match @resolve_selectors ascii_unicode insertion_order 10 (sample_catalog AVAILABLE)
          [sample_selector "app"] false with
  | Raise _ => False | _ => True end.
Proof.
  pose proof (@resolve_selectors_exact ascii_unicode insertion_order (sample_catalog AVAILABLE)
    (sample_catalog_facts AVAILABLE) 10 [sample_selector "app"] false) as Hr.
  assert (Forall (@valid_query ascii_unicode) [sample_selector "app"]) as Hq.
  { constructor; [|constructor]. intros _. vm_compute. reflexivity. }
  assert (length (ct_items (sample_catalog AVAILABLE)) < 10) as Hl by (vm_compute; lia).
  specialize (Hr Hl). destruct (resolve_selectors _ _ _ _) as [[l|ds]|]; [exact I|exact I|].
  destruct Hr as [(s & Hs & Hn) _]. rewrite Forall_forall in Hq. exact (Hn (Hq s Hs)).
Defined.

Lemma resolve_artifact_exact_witness :
  ∃ r, @resolve_artifact ascii_unicode (sample_catalog AVAILABLE)
         (MkQuery (MkIdentity Skill "lib") None None) false = Ok r ∧
       r ∈ ct_items (sample_catalog AVAILABLE).
Proof.
  pose proof (@resolve_artifact_exact ascii_unicode (sample_catalog AVAILABLE)
    (MkQuery (MkIdentity Skill "lib") None None) false (cf_items _ (sample_catalog_facts AVAILABLE))) as Hr.
  assert (is_ok (@resolve_artifact ascii_unicode (sample_catalog AVAILABLE)
    (MkQuery (MkIdentity Skill "lib") None None) false) = true) as Hok by (vm_compute; reflexivity).
  destruct (resolve_artifact _ _ _) as [r|ds]; [|discriminate Hok].
  exists r. split; [reflexivity|apply Hr].
Defined.
